(* ===== verification/_CoqProject ===== *)
-Q . S2P
Prelude.v
Bytes.v
BTree.v
Errors.v
Constants.v
Crypto.v
WireRead.v
CompactSize.v
TxWire.v
TxCodec.v
Block.v
Merkle.v
Pow.v
Subsidy.v
Vault.v
Suites.v
Deployments.v
Verify.v
SigCache.v
WorkerPool.v
SigQueue.v
Sighash.v
Spend.v
Htlc.v
Stealth.v
CovenantGenesis.v
UtxoApply.v
UtxoRules.v
UtxoDeferred.v
UtxoLedger.v
BlockParse.v
BlockWeight.v
BlockDa.v
BlockBasic.v
ConnectBlock.v
ConnectParallel.v
UtxoDigest.v
NodeText.v
ChainState.v
ChainDisk.v
Undo.v
Chain.v
BlockStore.v
StoreFiles.v
AtomicWrite.v
Headers.v
Base64.v
Uint128.v
StoreEnvelope.v
UndoDisk.v
UndoEnvelope.v
StoreCommit.v
ChainFile.v
Branch.v
PendingOwner.v
StoreOps.v
Replay.v
PvTelemetry.v
DaComplete.v
PeerKey.v
DaRelaySet.v
DaRelay.v
DaRelaySafe.v
SyncEngine.v
SyncReorg.v
SyncState.v
SyncSafety.v
SyncTotal.v
Recovery.v
FlagDay.v
Precompute.v
TxWorkers.v
PoolPolicy.v
PoolOrder.v
TxPool.v
PoolSafe.v
PoolEvict.v
PoolAdmit.v
PoolCalls.v
TxDepGraph.v
