(* ===== verification/Prelude.v ===== *)
(** * Verification library for the Rust client of rubin-protocol

    The program is a blockchain node.  Its consensus core is the crate
    [src/clients/rust/crates/rubin-consensus]; the node around it, which stores
    blocks, chooses between branches and saves its state, is the crate
    [src/clients/rust/crates/rubin-node].  This library models the core
    function by function and the parts of the node that decide something:
    every Definition that stands for code carries a comment with the file and
    the lines it translates, and most keep the source's name (record fields and
    clashing names have a prefix).

    ** How the parts work together

    Bytes of a transaction are parsed ([TxWire.v]) and weighed
    ([BlockWeight.v]); a block is a header, a count and transactions
    ([Block.v], [BlockParse.v]).  A block is checked without the ledger first
    ([BlockBasic.v]: proof of work and target [Pow.v], merkle roots
    [Merkle.v], timestamps, coinbase, weights, data-availability sets
    [BlockDa.v], covenants of outputs [CovenantGenesis.v]).  Then it is
    connected ([ConnectBlock.v]): each transaction is applied to the map of
    unspent outputs ([UtxoApply.v]), which resolves its inputs, authorizes
    each spend by its covenant ([Spend.v], [Htlc.v], [Stealth.v], [Vault.v])
    with signatures over a digest ([Sighash.v]) under the suites of the height
    ([Suites.v], [Verify.v]), and checks that value is conserved; the coinbase
    claims the subsidy ([Subsidy.v]) and the fees.  Signatures are checked at
    once, or queued ([SigQueue.v], cached in [SigCache.v]) and flushed on a
    pool of workers ([WorkerPool.v]).

    The node keeps the connected state ([ChainState.v]) with its saved form
    ([ChainDisk.v]), the undo records that disconnect a block again
    ([Undo.v]), the canonical index ([BlockStore.v]) over the files of headers
    and blocks ([StoreFiles.v], [Headers.v]) and checksummed envelopes
    ([Base64.v], [StoreEnvelope.v]).  The sync engine ([SyncEngine.v],
    [SyncReorg.v]) owns state and store: it applies blocks, chooses between
    branches ([Branch.v]), disconnects and reorganizes, and latches a fault when
    a write fails past its commit; before it starts, the saved state
    ([ChainFile.v]) is reconciled with the store ([Recovery.v]).

    Transactions that are not in a block yet wait in the pool ([TxPool.v]).  It
    checks them with the same consensus functions and its own policy
    ([PoolPolicy.v]), reserves the outpoints that they spend with the owner
    that the engine also uses ([PendingOwner.v]), and makes room by the order of
    [PoolOrder.v].

    ** Conventions

    A byte buffer is a [list byte], a machine integer a [Z] with its range
    stated where it matters and its wrap-around or overflow check written out
    ([checked_add], [saturating_add], [mod 2 ^ w]).  [Result] is [result] with
    its monad; code that changes an argument through [&mut] is in the
    state-and-error monad [ST] or takes and returns the state.  [HashMap] is
    [gmap], [BTreeMap] a [gmap] read in key order ([BTree.v]), [Vec] a list.
    A panic is [None].  An operation on files takes the outcome of its write,
    and the file is part of the state; threads are schedules of steps.

    Code that is not in the repository is an interface, a class with its
    documented behaviour as laws and a concrete instance for the witnesses:
    SHA3-256 ([Sha3]: a function to 32 bytes; no injectivity is assumed: a
    theorem that needs it names the finite list of strings that the code hashes
    and concludes "or two different ones of them have the same digest",
    [collision_in]), OpenSSL ([OpenSsl]),
    [num-bigint]'s bytes ([BigUintBytes]), the [hex] crate ([Hex]),
    [serde_json] on the records it reads and writes ([EnvelopeJson],
    [UndoJson], [IndexJson], [StateJson]), the calls of [std::fs] ([fs_step]).

    ** Files and what they show

    - [Prelude.v], [Bytes.v], [BTree.v]: results, the monads, list and integer
      lemmas, encodings, tactics and hint databases.
    - [Errors.v], [Constants.v], [Crypto.v], [Verify.v]: error codes,
      constants, interfaces, resolution of verifiers.
    - [WireRead.v], [CompactSize.v], [TxWire.v], [TxCodec.v]: the codec.
      [parse_marshal_tx] and [marshal_parse_tx] make parser and serializer
      inverse, [txid_binding] says what an id binds.
    - [Block.v], [Merkle.v], [Pow.v], [Subsidy.v], [Deployments.v]: headers,
      merkle binding and the reference tree, retargets within bounds, exact
      chain work, the emission curve, feature bits.
    - [Suites.v], [SigCache.v], [WorkerPool.v], [SigQueue.v], [Sighash.v]:
      rotation, cache soundness, the pool's results and termination under
      every schedule, flush against its specification, digests.
    - [Spend.v], [Htlc.v], [Stealth.v], [Vault.v], [CovenantGenesis.v]: for
      each covenant, exactly which spends and outputs are accepted.
    - [UtxoApply.v], [UtxoRules.v], [UtxoDeferred.v], [UtxoLedger.v],
      [UtxoDigest.v]: [apply_iff] is the complete rule of a transaction,
      [apply_conserves] conservation of value, [deferred_is_inline] and
      [queued_apply_spec] the queued modes against the direct one.
    - [BlockParse.v], [BlockWeight.v], [BlockDa.v], [BlockBasic.v],
      [ConnectBlock.v], [ConnectParallel.v]: [connect_block_iff] is the
      complete rule of a block, [connect_block_supply] the supply invariant,
      [connect_parallel_is_sequential] the parallel mode.
    - [NodeText.v], [ChainState.v], [ChainDisk.v], [Undo.v], [Chain.v]: the
      node's state; [reorg_rewind] disconnects any connected blocks back to
      the fork exactly, [chain_txids_unique] holds along every chain.
    - [BlockStore.v], [StoreFiles.v], [Headers.v], [Base64.v],
      [StoreEnvelope.v], [Uint128.v]: the index under failing writes, bounded
      reads, walks over headers (work, targets, timestamps), canonical
      envelopes, decimal amounts.
    - [UndoDisk.v], [UndoEnvelope.v]: the stored undo record;
      [undo_envelope_canonical] says that only a writer's output is read.
    - [ChainFile.v]: the file of the chain state; [chain_file_roundtrip] loads
      exactly what was saved.
    - [Branch.v], [StoreOps.v], [Replay.v], [PvTelemetry.v], [PendingOwner.v],
      [DaComplete.v]: side branches and the fork choice, the store's operations
      with failing writes, the replay of a chain with its undo records, shadow
      validation, the owner of pending outpoints, completed data sets.
    - [PeerKey.v], [DaRelaySet.v], [DaRelay.v], [DaRelaySafe.v]:
      the relay of data sets: its records, its counters under caps, staging,
      expiry and release, with the lemmas on what is counted.
    - [SyncEngine.v], [SyncReorg.v]: the engine's methods in a monad with
      panics, errors and state, with the writes' faults and the clocks as part
      of the world; [SyncState.v], [SyncSafety.v], [SyncTotal.v]: the abstract
      state is the list of the chain's blocks, [synced] relates the engine to
      it, [engine_reorganizes] is the result of offering a block,
      [engine_consistent] the invariant over all sequences of calls and
      failing writes, [engine_returns] that every call returns.
    - [Recovery.v]: [reconcile_recovers], the state and the index after a
      restart.
    - [PoolPolicy.v], [PoolOrder.v], [TxPool.v], [PoolSafe.v], [PoolEvict.v],
      [PoolAdmit.v], [PoolCalls.v]: the transaction pool.  [precheck_sound]
      says that the early fee check rejects only what the full check rejects;
      [pool_admission] is the outcome of every admission, [pool_exclusive] the
      invariant over all sequences of calls, with the engine at work on the
      owner in between, [pool_clears_conflicts] what a new block removes.
    - [FlagDay.v], [Precompute.v], [TxDepGraph.v], [TxWorkers.v]: flag days and
      their bits, the contexts of a block's transactions, their dependency
      graph ([dep_graph_correct] makes the levels the longest chains) and the
      workers that validate transactions: [workers_decide] is the result of
      every schedule, [workers_accept_block] the sequential path against it.
    - [AtomicWrite.v], [StoreCommit.v]: writes as programs over a file system
      that fails and crashes; [atomic_write_crash_safe] leaves the old file or
      the new one, [commit_crash_safe] never shows an index before the files
      of its block.

    ** Fuel

    Loops without a structural argument take fuel, and [None] is running out
    of it; each has a lemma that a stated amount is enough: the bytes of a
    block and one for its transactions, the hashes of a merkle level for its
    levels, the heights of the index for a locator, the files of a directory
    and two for a walk over headers, the bytes of a file and two for a bounded
    read, the characters of a string for [trim].

    ** Not modelled

    Simplicity programs (behind a gate that is not active at genesis), the
    parallel hashing of data chunks, the pool's snapshots, sockets, HTTP, RPC, the mining loop and process start (input and output),
    the text of JSON files ([serde]), command lines and fuzz targets, and the
    Go client.

    ** Plan

    Next: the mining loop, the peers' protocol, the RPC handlers.
*)

From Stdlib Require Export ZArith Lia ZifyBool.
From stdpp Require Export base tactics list sorting gmap sets strings countable.

#[global] Open Scope Z_scope.

(** ** Results

    [result E A] is Rust's [Result<A, E>]; [?] is the monadic bind, written
    with stdpp's [x ← m; k]. *)

Inductive result (E A : Type) : Type :=
  | Ok (a : A)
  | Err (e : E).
Arguments Ok {E A} a.
Arguments Err {E A} e.

#[export] Instance result_ret E : MRet (result E) := λ A a, Ok a.
#[export] Instance result_bind E : MBind (result E) :=
  λ A B k m, match m with Ok a => k a | Err e => Err e end.
#[export] Instance result_fmap E : FMap (result E) :=
  λ A B f m, match m with Ok a => Ok (f a) | Err e => Err e end.

#[export] Instance result_eq_dec E A `{EqDecision E, EqDecision A} :
  EqDecision (result E A).
Proof. solve_decision. Defined.

(** [Result::is_ok]. *)
Definition is_ok {E A} (m : result E A) : bool :=
  match m with Ok _ => true | Err _ => false end.

(** [Option::ok_or]. *)
Definition ok_or {E A} (o : option A) (e : E) : result E A :=
  match o with Some a => Ok a | None => Err e end.

(** [Result::map_err]. *)
Definition map_err {E F A} (f : E → F) (m : result E A) : result F A :=
  match m with Ok a => Ok a | Err e => Err (f e) end.

(** [if c { return Err(e); }] followed by the rest of the body. *)
Notation "'guard_err' c 'else_err' e ';;' k" :=
  (if c then Err e else k)
  (at level 60, c at level 59, e at level 59, k at level 200, right associativity,
   only parsing).

Ltac res_iff :=
  split; intros;
  repeat match goal with
  | H : _ ∨ _ |- _ => destruct H
  | H : _ ∧ _ |- _ => destruct H
  | H : ∃ _, _ |- _ => destruct H
  end; simplify_eq/=; eauto.

Section result_lemmas.
Context {E A B : Type}.
Implicit Types (m : result E A) (k : A → result E B).

Lemma bind_Ok m k y : m ≫= k = Ok y ↔ ∃ x, m = Ok x ∧ k x = Ok y.
Proof. destruct m; simpl; res_iff. Qed.

Lemma bind_Err m k e :
  m ≫= k = Err e ↔ m = Err e ∨ ∃ x, m = Ok x ∧ k x = Err e.
Proof. destruct m; simpl; res_iff. Qed.

Lemma Ok_inj (x y : A) : Ok (E := E) x = Ok y → x = y.
Proof. by intros [= ->]. Qed.

Lemma fmap_Ok (f : A → B) m y : f <$> m = Ok y ↔ ∃ x, m = Ok x ∧ y = f x.
Proof. destruct m; simpl; res_iff. Qed.

Lemma ok_or_Ok (o : option A) (e : E) x : ok_or o e = Ok x ↔ o = Some x.
Proof. destruct o; simpl; res_iff. Qed.

Lemma map_err_Ok {F} (f : E → F) m x : map_err f m = Ok x ↔ m = Ok x.
Proof. destruct m; simpl; res_iff. Qed.

Lemma is_ok_true m : is_ok m = true ↔ ∃ x, m = Ok x.
Proof. destruct m; simpl; res_iff. Qed.
End result_lemmas.

(** [inv_res] decomposes every hypothesis saying that a computation returned
    [Ok]: binds are split, failing guards are discharged, pairs are opened. *)
Ltac inv_res_step :=
  match goal with
  | H : Ok _ = Ok _ |- _ => apply Ok_inj in H; subst
  | H : Err _ = Err _ |- _ => injection H as H; subst
  | H : Ok _ = Err _ |- _ => discriminate H
  | H : Err _ = Ok _ |- _ => discriminate H
  | H : mret _ = Ok _ |- _ => apply Ok_inj in H; subst
  | H : (_, _) = (_, _) |- _ => apply pair_equal_spec in H as [? ?]; subst
  | H : mbind _ _ = Ok _ |- _ =>
      let x := fresh "x" in let Hx := fresh "Hx" in
      apply bind_Ok in H as (x & Hx & H); cbn beta in H
  | H : fmap _ _ = Ok _ |- _ =>
      let x := fresh "x" in let Hx := fresh "Hx" in
      apply fmap_Ok in H as (x & Hx & H)
  | H : ok_or _ _ = Ok _ |- _ => apply ok_or_Ok in H
  | H : map_err _ _ = Ok _ |- _ => apply map_err_Ok in H
  | H : (if ?b then Err _ else _) = Ok _ |- _ =>
      let Hb := fresh "Hb" in destruct b eqn:Hb; [discriminate H|]
  | H : (if ?b then _ else Err _) = Ok _ |- _ =>
      let Hb := fresh "Hb" in destruct b eqn:Hb; [|discriminate H]
  | H : (let '(_, _) := ?p in _) = Ok _ |- _ =>
      is_var p; destruct p; cbn beta iota in H
  end.
Ltac inv_res := repeat inv_res_step.

(** [case_res] additionally splits any remaining [match] of an [Ok] hypothesis. *)
Ltac case_res :=
  repeat first
    [ inv_res_step
    | match goal with
      | H : context [match ?x with _ => _ end] |- _ =>
          lazymatch type of H with
          | _ = Ok _ => let Hm := fresh "Hm" in destruct x eqn:Hm; try discriminate H
          end
      end ].

(** One step of a computation whose first operation is known to return. *)
Ltac run_bind := cbn [mbind result_bind]; cbn beta iota.

(** Computations that also update a state [S]: code that takes [&mut S] and
    uses [?].  The state is kept when an error is returned. *)
Definition ST (S E A : Type) : Type := S → result E A * S.

#[export] Instance st_ret S E : MRet (ST S E) := λ A a s, (Ok a, s).
#[export] Instance st_bind S E : MBind (ST S E) :=
  λ A B k m s, match m s with (Ok a, s) => k a s | (Err e, s) => (Err e, s) end.

(** A step that does not touch the state, the state itself, and its update. *)
Definition lift {S E A} (m : result E A) : ST S E A := λ s, (m, s).
Definition gets {S E A} (f : S → A) : ST S E A := λ s, (Ok (f s), s).
Definition modify {S E} (f : S → S) : ST S E unit := λ s, (Ok (), f s).

(** A loop that threads an accumulator. *)
Fixpoint st_fold {S E A B} (f : B → A → ST S E B) (b : B) (l : list A) : ST S E B :=
  match l with
  | [] => mret b
  | a :: l => b ← f b a; st_fold f b l
  end.

Lemma st_bind_Ok {S E A B} (m : ST S E A) (k : A → ST S E B) s b s' :
  (m ≫= k) s = (Ok b, s') ↔ ∃ a s1, m s = (Ok a, s1) ∧ k a s1 = (Ok b, s').
Proof.
  unfold mbind, st_bind. destruct (m s) as [[a|e] s1]; split.
  - eauto.
  - by intros (? & ? & [= <- <-] & ?).
  - done.
  - by intros (? & ? & [=] & _).
Qed.

Lemma st_lift_Ok {S E A B} (a : A) (k : A → ST S E B) s : (lift (Ok a) ≫= k) s = k a s.
Proof. done. Qed.
Lemma st_lift_Err {S E A B} (e : E) (k : A → ST S E B) s : (lift (Err e) ≫= k) s = (Err e, s).
Proof. done. Qed.

(** Conditions of the code that arithmetic decides. *)
Ltac decide_if :=
  match goal with
  | |- context [if ?b then _ else _] =>
      first [ replace b with false by lia | replace b with true by lia ]; cbv iota
  end.

(** ** Loops

    [try_fold] is [Iterator::try_fold], and a [for] loop whose body uses [?]
    and updates the state [s]. *)
Fixpoint try_fold {E S A} (f : S → A → result E S) (s : S) (l : list A) : result E S :=
  match l with
  | [] => Ok s
  | a :: l => s ← f s a; try_fold f s l
  end.

(** A [for] loop whose body only checks: [Iterator::try_for_each]. *)
Fixpoint try_for_each {E A} (f : A → result E unit) (l : list A) : result E unit :=
  match l with
  | [] => Ok ()
  | a :: l => _ ← f a; try_for_each f l
  end.

Section loops.
Context {E S A : Type}.

Lemma try_fold_app (f : S → A → result E S) s l1 l2 :
  try_fold f s (l1 ++ l2) = (s' ← try_fold f s l1; try_fold f s' l2).
Proof.
  revert s; induction l1 as [|a l1 IH]; intros s; [done|].
  simpl. destruct (f s a); simpl; auto.
Qed.

(** The loop invariant rule: [I] holds of every state the loop reaches. *)
Lemma try_fold_Err (f : S → A → result E S) s l e : try_fold f s l = Err e →
  ∃ l1 a l2 s', l = l1 ++ a :: l2 ∧ try_fold f s l1 = Ok s' ∧ f s' a = Err e.
Proof.
  revert s; induction l as [|a l IH]; intros s; simpl; [done|]. destruct (f s a) as [s1|e1] eqn:Ha; run_bind.
  - intros (l1 & b & l2 & s' & -> & Hl & Hb)%IH. exists (a :: l1), b, l2, s'. cbn. by rewrite Ha.
  - intros [= ->]. by exists [], a, l, s.
Qed.

Lemma try_fold_inv (f : S → A → result E S) (I : S → Prop) s l s' :
  (∀ s a s', a ∈ l → I s → f s a = Ok s' → I s') →
  I s → try_fold f s l = Ok s' → I s'.
Proof.
  revert s; induction l as [|a l IH]; intros s Hf Hs; simpl.
  - by intros [= <-].
  - intros H. inv_res. eapply IH; [|eapply Hf|done]; [|by left|done|done].
    intros; eapply Hf; [|done..]. by right.
Qed.

Lemma try_for_each_Ok (f : A → result E unit) l :
  try_for_each f l = Ok () ↔ Forall (λ a, f a = Ok ()) l.
Proof.
  induction l as [|a l IH]; simpl; [split; auto|].
  rewrite bind_Ok. split.
  - intros ([] & ? & ?%IH). by constructor.
  - intros [? ?%IH]%Forall_cons_1. eauto.
Qed.

(** The first failing element decides the error. *)
Lemma try_for_each_Err (f : A → result E unit) l e :
  try_for_each f l = Err e ↔
  ∃ l1 a l2, l = l1 ++ a :: l2 ∧ Forall (λ a, f a = Ok ()) l1 ∧ f a = Err e.
Proof.
  induction l as [|a l IH]; simpl.
  - split; [done|]. intros (l1 & ? & ? & ? & _). by destruct l1.
  - rewrite bind_Err. split.
    + intros [?|(u & Hu & (l1 & b & l2 & -> & ? & ?)%IH)].
      * by exists [], a, l.
      * destruct u. exists (a :: l1), b, l2.
        split; [done|]. split; [by constructor|done].
    + intros ([|a' l1] & b & l2 & Heq & Hl1 & Hb); simplify_eq/=; [by left|].
      apply Forall_cons_1 in Hl1 as [??]. right. exists ().
      split; [done|]. apply IH. by exists l1, b, l2.
Qed.
End loops.

(** ** Machine integers

    A [w]-bit unsigned integer is a [Z] in [0, 2^w); the arithmetic of the
    code is written with its range check. [usize] is 64 bits wide. *)
Definition is_u (w z : Z) : Prop := 0 ≤ z < 2 ^ w.

Definition u16_max : Z := 65535.
Definition u32_max : Z := 4294967295.
Definition u64_max : Z := 18446744073709551615.
Definition u128_max : Z := 340282366920938463463374607431768211455.
Definition usize_max : Z := u64_max.
Definition isize_max : Z := 9223372036854775807.

(** [checked_add] and [checked_mul] against a maximal value, and
    [saturating_add]. *)
Definition checked_add (max a b : Z) : option Z :=
  if a + b <=? max then Some (a + b) else None.
Definition checked_mul (max a b : Z) : option Z :=
  if a * b <=? max then Some (a * b) else None.
Definition saturating_add (max a b : Z) : Z := Z.min max (a + b).

Lemma checked_add_Some max a b c :
  checked_add max a b = Some c ↔ c = a + b ∧ a + b ≤ max.
Proof. unfold checked_add. case_match eqn:H; split; intros; simplify_eq; lia || (split; lia) || (f_equal; lia). Qed.

Lemma checked_mul_Some max a b c :
  checked_mul max a b = Some c ↔ c = a * b ∧ a * b ≤ max.
Proof. unfold checked_mul. case_match eqn:H; split; intros; simplify_eq; lia || (split; lia) || (f_equal; lia). Qed.

Abbreviation len l := (Z.of_nat (length l)).

Create HintDb rubin discriminated.
Create Rewrite HintDb rubin_len.

(** ** Lists *)

(** The slice [l[i..j]]. *)
Definition slice {A} (i j : Z) (l : list A) : list A :=
  take (Z.to_nat (j - i)) (drop (Z.to_nat i) l).

Section list_lemmas.
Context {A : Type}.
Implicit Types l k : list A.

Lemma slice_length i j l :
  0 ≤ i ≤ j → j ≤ len l → len (slice i j l) = j - i.
Proof. intros. unfold slice. rewrite length_take, length_drop. lia. Qed.

Lemma slice_app_split i j m l :
  0 ≤ i ≤ j → j ≤ m → slice i m l = slice i j l ++ slice j m l.
Proof.
  intros. unfold slice.
  replace (drop (Z.to_nat j) l) with (drop (Z.to_nat (j - i)) (drop (Z.to_nat i) l))
    by (rewrite drop_drop; f_equal; lia).
  replace (Z.to_nat (m - i)) with (Z.to_nat (j - i) + Z.to_nat (m - j))%nat by lia.
  by rewrite take_take_drop.
Qed.

Lemma slice_all l : slice 0 (len l) l = l.
Proof. unfold slice. rewrite drop_0. rewrite take_ge; [done|]. lia. Qed.

Lemma prefix_app_iff l1 l2 l :
  l1 ++ l2 `prefix_of` l ↔ l1 `prefix_of` l ∧ l2 `prefix_of` drop (length l1) l.
Proof.
  split.
  - intros [k ->]. split.
    + rewrite <- app_assoc. by apply prefix_app_r.
    + rewrite <- app_assoc, drop_app_length. by apply prefix_app_r.
  - intros [[k ->] Hp]. rewrite drop_app_length in Hp. by apply prefix_app.
Qed.

Lemma prefix_take_iff l1 l : l1 `prefix_of` l ↔ take (length l1) l = l1.
Proof.
  split.
  - intros [k ->]. by rewrite take_app_length.
  - intros <-. apply prefix_take.
Qed.
(** The buffer without its last element: [&l[..l.len() - 1]]. *)
Lemma slice_but_last l x : slice 0 (len (l ++ [x]) - 1) (l ++ [x]) = l.
Proof.
  rewrite length_app. unfold slice. rewrite drop_0.
  replace (Z.to_nat _) with (length l) by (simpl; lia). by rewrite take_app_length.
Qed.

Lemma len_0_nil l : len l = 0 → l = [].
Proof. destruct l; simpl; [done|lia]. Qed.

Lemma len_S_snoc l : 0 < len l → ∃ k x, l = k ++ [x].
Proof. destruct l as [|x k _] using rev_ind; simpl; [done|]. eauto. Qed.

Lemma head_Some_cons l x : head l = Some x ↔ ∃ k, l = x :: k.
Proof. destruct l; simpl; split; [done|by intros []|intros [= ->]; eauto|by intros (? & [= ->])]. Qed.
End list_lemmas.

Lemma slice_mid {A} (a b c : list A) i j : i = len a → j = len a + len b →
  slice i j (a ++ b ++ c) = b.
Proof.
  intros -> ->. unfold slice. rewrite Nat2Z.id, drop_app_length.
  replace (Z.to_nat _) with (length b) by lia. by rewrite take_app_length.
Qed.
