(* ===== verification/Bytes.v ===== *)
(** * Bytes and integer encodings

    A byte buffer ([&[u8]], [Vec<u8>], [[u8; n]]) is a [list byte].  A scalar
    [u8], [u16], ... is a [Z]; [byte_val] and [byte_of_Z] go between the two
    ([b as u64], [n as u8]).  The file gives Rust's [to_le_bytes],
    [from_le_bytes], [BigUint::from_bytes_be] and [to_bytes_be], and the
    lexicographic order of byte arrays, with the round trips and bounds the
    components share. *)

From S2P Require Import Prelude.
From Stdlib Require Import Strings.Byte.
From Stdlib Require Export Init.Byte.

Abbreviation bytes := (list byte).

#[export] Instance byte_eq_decision : EqDecision byte := Byte.byte_eq_dec.
#[export] Program Instance byte_countable : Countable byte :=
  inj_countable Byte.to_N Byte.of_N _.
Next Obligation. apply Byte.of_to_N. Qed.

Definition byte_val (b : byte) : Z := Z.of_N (Byte.to_N b).
Definition byte_of_Z (z : Z) : byte :=
  default x00 (Byte.of_N (Z.to_N (z mod 256))).

Lemma byte_val_range b : 0 ≤ byte_val b < 256.
Proof.
  unfold byte_val. pose proof (Byte.to_N_bounded b). lia.
Qed.

Lemma byte_val_of_Z z : byte_val (byte_of_Z z) = z mod 256.
Proof.
  unfold byte_val, byte_of_Z.
  pose proof (Z.mod_pos_bound z 256 ltac:(lia)).
  destruct (Byte.of_N (Z.to_N (z mod 256))) as [b|] eqn:E; simpl.
  - apply Byte.to_of_N in E. rewrite E. lia.
  - apply Byte.of_N_None_iff in E. lia.
Qed.

Lemma byte_of_Z_val b : byte_of_Z (byte_val b) = b.
Proof.
  unfold byte_val, byte_of_Z. pose proof (byte_val_range b) as H.
  unfold byte_val in H. rewrite Z.mod_small, N2Z.id by lia.
  by rewrite Byte.of_to_N.
Qed.

#[export] Instance byte_val_inj : Inj (=) (=) byte_val.
Proof. intros a b H. by rewrite <- (byte_of_Z_val a), H, byte_of_Z_val. Qed.

Lemma byte_val_of_Z_small z : is_u 8 z → byte_val (byte_of_Z z) = z.
Proof. intros H. rewrite byte_val_of_Z. apply Z.mod_small, H. Qed.

Lemma byte_val_u8 b : is_u 8 (byte_val b).
Proof. apply byte_val_range. Qed.
#[export] Hint Resolve byte_val_u8 : rubin.

(** ** Little endian *)

Fixpoint le_decode (l : bytes) : Z :=
  match l with
  | [] => 0
  | b :: l => byte_val b + 256 * le_decode l
  end.

Fixpoint le_encode (n : nat) (z : Z) : bytes :=
  match n with
  | O => []
  | S n => byte_of_Z z :: le_encode n (z / 256)
  end.

Lemma le_encode_length n z : length (le_encode n z) = n.
Proof. revert z; induction n; simpl; auto. Qed.

Lemma pow256_S n : 256 ^ Z.of_nat (S n) = 256 * 256 ^ Z.of_nat n.
Proof. rewrite Nat2Z.inj_succ, Z.pow_succ_r; lia. Qed.

Lemma le_decode_bound l : 0 ≤ le_decode l < 256 ^ len l.
Proof.
  induction l as [|b l IH]; simpl length; [simpl; lia|].
  rewrite pow256_S. simpl le_decode. pose proof (byte_val_range b). lia.
Qed.

Lemma le_decode_encode n z : 0 ≤ z < 256 ^ Z.of_nat n → le_decode (le_encode n z) = z.
Proof.
  revert z; induction n as [|n IH]; intros z Hz; [simpl in *; lia|].
  rewrite pow256_S in Hz. simpl. rewrite byte_val_of_Z, IH.
  - pose proof (Z.div_mod z 256). lia.
  - split; [apply Z.div_pos; lia|]. apply Z.div_lt_upper_bound; lia.
Qed.

Lemma le_encode_decode l : le_encode (length l) (le_decode l) = l.
Proof.
  induction l as [|b l IH]; [done|]. cbn [length le_encode le_decode].
  pose proof (byte_val_range b). f_equal.
  - apply byte_val_inj. rewrite byte_val_of_Z, Z.mul_comm, Z_mod_plus by lia.
    apply Z.mod_small; lia.
  - rewrite Z.mul_comm, Z.div_add, Z.div_small, Z.add_0_l by lia. done.
Qed.

Lemma le_decode_inj l1 l2 :
  length l1 = length l2 → le_decode l1 = le_decode l2 → l1 = l2.
Proof.
  intros Hl Hd. by rewrite <- (le_encode_decode l1), <- (le_encode_decode l2), Hl, Hd.
Qed.

Lemma le_encode_inj n z1 z2 :
  0 ≤ z1 < 256 ^ Z.of_nat n → 0 ≤ z2 < 256 ^ Z.of_nat n →
  le_encode n z1 = le_encode n z2 → z1 = z2.
Proof.
  intros H1 H2 H. by rewrite <- (le_decode_encode n z1), <- (le_decode_encode n z2), H.
Qed.

Lemma le_encode_1' z : le_encode 1 z = [byte_of_Z z].
Proof. done. Qed.

(** The widths the code uses: [to_le_bytes] of [u16], [u32] and [u64]. *)
Definition u16_le (z : Z) : bytes := le_encode 2 z.
Definition u32_le (z : Z) : bytes := le_encode 4 z.
Definition u64_le (z : Z) : bytes := le_encode 8 z.
#[global] Arguments u16_le : simpl never.
#[global] Arguments u32_le : simpl never.
#[global] Arguments u64_le : simpl never.

Lemma le_decode_u16 z : is_u 16 z → le_decode (u16_le z) = z.
Proof. exact (le_decode_encode 2 z). Qed.
Lemma le_decode_u32 z : is_u 32 z → le_decode (u32_le z) = z.
Proof. exact (le_decode_encode 4 z). Qed.
Lemma le_decode_u64 z : is_u 64 z → le_decode (u64_le z) = z.
Proof. exact (le_decode_encode 8 z). Qed.

Lemma le_decode_u w (n : nat) b : len b = Z.of_nat n → w = 8 * Z.of_nat n → is_u w (le_decode b).
Proof.
  intros Hb ->. unfold is_u. pose proof (le_decode_bound b) as H. rewrite Hb in H.
  by rewrite Z.pow_mul_r by lia.
Qed.

Lemma le_slice b i j n : 0 ≤ i → j = i + Z.of_nat n → j ≤ len b →
  le_encode n (le_decode (slice i j b)) = slice i j b.
Proof.
  intros Hi -> Hj. rewrite <- (le_encode_decode (slice i _ b)) at 2. f_equal.
  pose proof (slice_length i (i + Z.of_nat n) b). lia.
Qed.

(** ** Big endian *)

Definition be_decode (l : bytes) : Z :=
  foldl (λ acc b, acc * 256 + byte_val b) 0 l.
Definition be_encode (n : nat) (z : Z) : bytes := rev (le_encode n z).

Lemma be_decode_snoc l b : be_decode (l ++ [b]) = be_decode l * 256 + byte_val b.
Proof. unfold be_decode. by rewrite foldl_app. Qed.

Lemma be_decode_rev l : be_decode (rev l) = le_decode l.
Proof.
  induction l as [|b l IH]; [done|]. simpl. rewrite be_decode_snoc, IH. lia.
Qed.

Lemma be_decode_le l : be_decode l = le_decode (rev l).
Proof. by rewrite <- be_decode_rev, rev_involutive. Qed.

Lemma be_encode_length n z : length (be_encode n z) = n.
Proof. unfold be_encode. by rewrite length_rev, le_encode_length. Qed.

Lemma be_decode_bound l : 0 ≤ be_decode l < 256 ^ len l.
Proof. rewrite be_decode_le, <- (length_rev l). apply le_decode_bound. Qed.

Lemma be_decode_encode n z : 0 ≤ z < 256 ^ Z.of_nat n → be_decode (be_encode n z) = z.
Proof. intros. unfold be_encode. by rewrite be_decode_rev, le_decode_encode. Qed.

Lemma be_encode_decode l : be_encode (length l) (be_decode l) = l.
Proof.
  unfold be_encode. rewrite be_decode_le, <- (length_rev l), le_encode_decode.
  apply rev_involutive.
Qed.

Lemma be_decode_inj l1 l2 :
  length l1 = length l2 → be_decode l1 = be_decode l2 → l1 = l2.
Proof.
  intros Hl Hd. by rewrite <- (be_encode_decode l1), <- (be_encode_decode l2), Hl, Hd.
Qed.

Lemma be_decode_app l1 l2 :
  be_decode (l1 ++ l2) = be_decode l1 * 256 ^ len l2 + be_decode l2.
Proof.
  induction l2 as [|b l2 IH] using rev_ind.
  - rewrite app_nil_r. simpl. unfold be_decode at 3. simpl. lia.
  - rewrite app_assoc, !be_decode_snoc, IH, length_app, Nat.add_1_r, pow256_S. lia.
Qed.

(** ** Lexicographic order: [Ord] of [[u8; n]] and [&[u8]] *)

Fixpoint bytes_cmp (l1 l2 : bytes) : comparison :=
  match l1, l2 with
  | [], [] => Eq
  | [], _ :: _ => Lt
  | _ :: _, [] => Gt
  | a :: l1, b :: l2 =>
      match byte_val a ?= byte_val b with
      | Eq => bytes_cmp l1 l2
      | c => c
      end
  end.

Definition bytes_ltb (l1 l2 : bytes) : bool :=
  match bytes_cmp l1 l2 with Lt => true | _ => false end.

Lemma be_decode_cons b l : be_decode (b :: l) = byte_val b * 256 ^ len l + be_decode l.
Proof.
  change (b :: l) with ([b] ++ l). rewrite be_decode_app.
  unfold be_decode at 1. simpl. lia.
Qed.

(** On arrays of the same length the order is that of the big-endian values. *)
Lemma bytes_cmp_be l1 l2 :
  length l1 = length l2 → bytes_cmp l1 l2 = (be_decode l1 ?= be_decode l2).
Proof.
  revert l2; induction l1 as [|a l1 IH]; intros [|b l2] Hl; simplify_eq/=; [done|].
  rewrite !be_decode_cons, Hl.
  pose proof (be_decode_bound l1) as H1. pose proof (be_decode_bound l2) as H2.
  rewrite Hl in H1. set (p := 256 ^ len l2) in *.
  destruct (Z.compare_spec (byte_val a) (byte_val b)) as [E|E|E].
  - rewrite E, (IH l2) by done.
    destruct (Z.compare_spec (be_decode l1) (be_decode l2)); symmetry;
      [apply Z.compare_eq_iff|apply Z.compare_lt_iff|apply Z.compare_gt_iff]; lia.
  - symmetry; apply Z.compare_lt_iff. nia.
  - symmetry; apply Z.compare_gt_iff. nia.
Qed.

Lemma bytes_ltb_be l1 l2 :
  length l1 = length l2 → bytes_ltb l1 l2 = (be_decode l1 <? be_decode l2).
Proof. intros H. unfold bytes_ltb. by rewrite bytes_cmp_be. Qed.

Lemma bytes_cmp_refl l : bytes_cmp l l = Eq.
Proof. induction l as [|b l IH]; [done|]. simpl. by rewrite Z.compare_refl. Qed.

Lemma bytes_cmp_eq l1 l2 : bytes_cmp l1 l2 = Eq ↔ l1 = l2.
Proof.
  split; [|intros ->; apply bytes_cmp_refl].
  revert l2; induction l1 as [|a l1 IH]; intros [|b l2]; simpl; try done.
  destruct (Z.compare_spec (byte_val a) (byte_val b)) as [->%(inj byte_val)|?|?]; try done.
  intros ?%IH; by subst.
Qed.

Lemma bytes_cmp_antisym l1 l2 : bytes_cmp l2 l1 = CompOpp (bytes_cmp l1 l2).
Proof.
  revert l2; induction l1 as [|a l1 IH]; intros [|b l2]; simpl; try done.
  rewrite (Z.compare_antisym (byte_val a) (byte_val b)).
  destruct (byte_val a ?= byte_val b); simpl; auto.
Qed.

Lemma bytes_cmp_lt_trans l1 l2 l3 :
  bytes_cmp l1 l2 = Lt → bytes_cmp l2 l3 = Lt → bytes_cmp l1 l3 = Lt.
Proof.
  revert l2 l3; induction l1 as [|a l1 IH]; intros [|b l2] [|c l3]; simpl; try done.
  destruct (Z.compare_spec (byte_val a) (byte_val b)),
    (Z.compare_spec (byte_val b) (byte_val c)); try done;
    destruct (Z.compare_spec (byte_val a) (byte_val c)); try done; try lia; eauto.
Qed.

Definition bytes_lt (l1 l2 : bytes) : Prop := bytes_cmp l1 l2 = Lt.

#[export] Instance bytes_lt_dec l1 l2 : Decision (bytes_lt l1 l2).
Proof. unfold bytes_lt. solve_decision. Defined.

#[export] Instance bytes_lt_strict : StrictOrder bytes_lt.
Proof.
  split.
  - intros l. unfold complement, bytes_lt. by rewrite bytes_cmp_refl.
  - intros l1 l2 l3. apply bytes_cmp_lt_trans.
Qed.

Lemma bytes_ltb_lt l1 l2 : bytes_ltb l1 l2 = true ↔ bytes_lt l1 l2.
Proof. unfold bytes_ltb, bytes_lt. by destruct (bytes_cmp l1 l2). Qed.

(** [[0u8; n]] *)
Definition zeros (n : nat) : bytes := replicate n x00.

(** A string literal [b"..."]. *)
Definition ascii_bytes (s : string) : bytes := String.list_byte_of_string s.
