(* ===== verification/BTree.v ===== *)
(** * Ordered maps

    Rust's [BTreeMap] and [BTreeSet] keyed by byte arrays: a [gmap] (or
    [gset]), whose loops run over the keys in increasing byte order. *)

From S2P Require Import Prelude Bytes.

Definition bytes_le (l1 l2 : bytes) : Prop := bytes_cmp l1 l2 ≠ Gt.

#[export] Instance bytes_le_dec : RelDecision bytes_le.
Proof. intros l1 l2. unfold bytes_le. apply _. Defined.
#[export] Instance bytes_le_total : Total bytes_le.
Proof.
  intros l1 l2. unfold bytes_le. rewrite (bytes_cmp_antisym l1 l2). destruct (bytes_cmp l1 l2); simpl; auto.
Qed.
#[export] Instance bytes_le_antisymm : AntiSymm (=) bytes_le.
Proof.
  intros l1 l2. unfold bytes_le. rewrite (bytes_cmp_antisym l1 l2). intros H1 H2.
  apply bytes_cmp_eq. by destruct (bytes_cmp l1 l2).
Qed.
#[export] Instance bytes_le_trans : Transitive bytes_le.
Proof.
  intros l1 l2 l3. unfold bytes_le. intros Ha Hb. revert Ha Hb.
  destruct (bytes_cmp l1 l2) eqn:H1; [apply bytes_cmp_eq in H1 as ->; auto| |done].
  destruct (bytes_cmp l2 l3) eqn:H2; [apply bytes_cmp_eq in H2 as ->; by rewrite H1| |auto].
  by rewrite (bytes_cmp_lt_trans l1 l2 l3).
Qed.

(** Keys and values in the order of the keys. *)
Definition key_le {V} (p q : bytes * V) : Prop := bytes_le p.1 q.1.
#[export] Instance key_le_dec {V} : RelDecision (key_le (V := V)).
Proof. intros p q. unfold key_le. apply _. Defined.

Definition btree_iter {V} (m : gmap bytes V) : list (bytes * V) := merge_sort key_le (map_to_list m).
Definition btree_keys {V} (m : gmap bytes V) : list bytes := (btree_iter m).*1.
Definition btree_elements (s : gset bytes) : list bytes := merge_sort bytes_le (elements s).

Section btree.
Context {V : Type}.
Implicit Types (m : gmap bytes V).

Lemma btree_iter_perm m : btree_iter m ≡ₚ map_to_list m.
Proof. apply merge_sort_Permutation. Qed.

Lemma elem_of_btree_iter m k v : (k, v) ∈ btree_iter m ↔ m !! k = Some v.
Proof. rewrite btree_iter_perm. apply elem_of_map_to_list. Qed.

Lemma length_btree_iter m : length (btree_iter m) = size m.
Proof. rewrite btree_iter_perm. apply length_map_to_list. Qed.

Lemma elem_of_btree_elements (s : gset bytes) k : k ∈ btree_elements s ↔ k ∈ s.
Proof. unfold btree_elements. rewrite merge_sort_Permutation. apply elem_of_elements. Qed.

Lemma NoDup_btree_elements (s : gset bytes) : NoDup (btree_elements s).
Proof. unfold btree_elements. rewrite merge_sort_Permutation. apply NoDup_elements. Qed.

(** A loop over the whole map. *)
Lemma btree_for_each_Ok {E} (f : bytes * V → result E unit) m :
  try_for_each f (btree_iter m) = Ok () ↔ ∀ k v, m !! k = Some v → f (k, v) = Ok ().
Proof.
  rewrite try_for_each_Ok, list.Forall_forall. split.
  - intros H k v Hk. apply H. by apply elem_of_btree_iter.
  - intros H [k v] Hp. apply H. by apply elem_of_btree_iter.
Qed.
End btree.
