(* ===== verification/Errors.v ===== *)
(** * Consensus error codes ([error.rs])

    [ErrorCode] and [TxError] with the source's constructors; [as_str] is the
    wire name of a code and [display] the [Display] implementation. *)

From S2P Require Import Prelude.

(* rust: error.rs 4-46 ErrorCode *)
Inductive ErrorCode : Type :=
  | TxErrParse
  | TxErrWitnessOverflow
  | TxErrSigNoncanonical
  | TxErrSigAlgInvalid
  | TxErrSigInvalid
  | TxErrSighashTypeInvalid
  | TxErrTimelockNotMet
  | TxErrValueConservation
  | TxErrTxNonceInvalid
  | TxErrSequenceInvalid
  | TxErrNonceReplay
  | TxErrCovenantTypeInvalid
  | TxErrVaultMalformed
  | TxErrVaultParamsInvalid
  | TxErrVaultKeysNotCanonical
  | TxErrVaultWhitelistNotCanonical
  | TxErrVaultOwnerDestinationForbidden
  | TxErrVaultOwnerAuthRequired
  | TxErrVaultFeeSponsorForbidden
  | TxErrVaultMultiInputForbidden
  | TxErrVaultOutputNotWhitelisted
  | TxErrMissingUtxo
  | TxErrCoinbaseImmature
  | BlockErrParse
  | BlockErrWeightExceeded
  | BlockErrAnchorBytesExceeded
  | BlockErrPowInvalid
  | BlockErrTargetInvalid
  | BlockErrLinkageInvalid
  | BlockErrMerkleInvalid
  | BlockErrWitnessCommitment
  | BlockErrCoinbaseInvalid
  | BlockErrSubsidyExceeded
  | BlockErrTimestampOld
  | BlockErrTimestampFuture
  | BlockErrDaIncomplete
  | BlockErrDaChunkHashInvalid
  | BlockErrDaSetInvalid
  | BlockErrDaPayloadCommitInvalid
  | BlockErrDaBatchExceeded.

#[export] Instance ErrorCode_eq_dec : EqDecision ErrorCode.
Proof. solve_decision. Defined.

(* rust: error.rs 49-95 ErrorCode::as_str *)
Definition as_str (c : ErrorCode) : string :=
  match c with
  | TxErrParse => "TX_ERR_PARSE"
  | TxErrWitnessOverflow => "TX_ERR_WITNESS_OVERFLOW"
  | TxErrSigNoncanonical => "TX_ERR_SIG_NONCANONICAL"
  | TxErrSigAlgInvalid => "TX_ERR_SIG_ALG_INVALID"
  | TxErrSigInvalid => "TX_ERR_SIG_INVALID"
  | TxErrSighashTypeInvalid => "TX_ERR_SIGHASH_TYPE_INVALID"
  | TxErrTimelockNotMet => "TX_ERR_TIMELOCK_NOT_MET"
  | TxErrValueConservation => "TX_ERR_VALUE_CONSERVATION"
  | TxErrTxNonceInvalid => "TX_ERR_TX_NONCE_INVALID"
  | TxErrSequenceInvalid => "TX_ERR_SEQUENCE_INVALID"
  | TxErrNonceReplay => "TX_ERR_NONCE_REPLAY"
  | TxErrCovenantTypeInvalid => "TX_ERR_COVENANT_TYPE_INVALID"
  | TxErrVaultMalformed => "TX_ERR_VAULT_MALFORMED"
  | TxErrVaultParamsInvalid => "TX_ERR_VAULT_PARAMS_INVALID"
  | TxErrVaultKeysNotCanonical => "TX_ERR_VAULT_KEYS_NOT_CANONICAL"
  | TxErrVaultWhitelistNotCanonical => "TX_ERR_VAULT_WHITELIST_NOT_CANONICAL"
  | TxErrVaultOwnerDestinationForbidden => "TX_ERR_VAULT_OWNER_DESTINATION_FORBIDDEN"
  | TxErrVaultOwnerAuthRequired => "TX_ERR_VAULT_OWNER_AUTH_REQUIRED"
  | TxErrVaultFeeSponsorForbidden => "TX_ERR_VAULT_FEE_SPONSOR_FORBIDDEN"
  | TxErrVaultMultiInputForbidden => "TX_ERR_VAULT_MULTI_INPUT_FORBIDDEN"
  | TxErrVaultOutputNotWhitelisted => "TX_ERR_VAULT_OUTPUT_NOT_WHITELISTED"
  | TxErrMissingUtxo => "TX_ERR_MISSING_UTXO"
  | TxErrCoinbaseImmature => "TX_ERR_COINBASE_IMMATURE"
  | BlockErrParse => "BLOCK_ERR_PARSE"
  | BlockErrWeightExceeded => "BLOCK_ERR_WEIGHT_EXCEEDED"
  | BlockErrAnchorBytesExceeded => "BLOCK_ERR_ANCHOR_BYTES_EXCEEDED"
  | BlockErrPowInvalid => "BLOCK_ERR_POW_INVALID"
  | BlockErrTargetInvalid => "BLOCK_ERR_TARGET_INVALID"
  | BlockErrLinkageInvalid => "BLOCK_ERR_LINKAGE_INVALID"
  | BlockErrMerkleInvalid => "BLOCK_ERR_MERKLE_INVALID"
  | BlockErrWitnessCommitment => "BLOCK_ERR_WITNESS_COMMITMENT"
  | BlockErrCoinbaseInvalid => "BLOCK_ERR_COINBASE_INVALID"
  | BlockErrSubsidyExceeded => "BLOCK_ERR_SUBSIDY_EXCEEDED"
  | BlockErrTimestampOld => "BLOCK_ERR_TIMESTAMP_OLD"
  | BlockErrTimestampFuture => "BLOCK_ERR_TIMESTAMP_FUTURE"
  | BlockErrDaIncomplete => "BLOCK_ERR_DA_INCOMPLETE"
  | BlockErrDaChunkHashInvalid => "BLOCK_ERR_DA_CHUNK_HASH_INVALID"
  | BlockErrDaSetInvalid => "BLOCK_ERR_DA_SET_INVALID"
  | BlockErrDaPayloadCommitInvalid => "BLOCK_ERR_DA_PAYLOAD_COMMIT_INVALID"
  | BlockErrDaBatchExceeded => "BLOCK_ERR_DA_BATCH_EXCEEDED"
  end%string.

(* rust: error.rs 99-102 TxError *)
Record TxError : Type := mkTxError { code : ErrorCode; msg : string }.

#[export] Instance TxError_eq_dec : EqDecision TxError.
Proof. solve_decision. Defined.

(** The result type of the whole consensus crate. *)
Abbreviation res := (result TxError).

(** [Err(TxError::new(code, msg))] *)
Abbreviation tx_err c m := (Err (mkTxError c m)) (only parsing).

(* rust: error.rs 111-117 TxError::fmt *)
Definition display (e : TxError) : string :=
  if decide (msg e = ""%string) then as_str (code e)
  else (as_str (code e) ++ ": " ++ msg e)%string.

(** Every code has its own wire name, so a client can tell the codes apart. *)
Lemma as_str_inj c1 c2 : as_str c1 = as_str c2 → c1 = c2.
Proof. destruct c1, c2; first [reflexivity | discriminate]. Qed.
