(* ===== verification/Constants.v ===== *)
(** * Consensus constants ([constants.rs])

    Every constant the modelled components use, by its source name. *)

From S2P Require Import Prelude Bytes.

(* rust: constants.rs 1-1 WITNESS_DISCOUNT_DIVISOR *)
Definition WITNESS_DISCOUNT_DIVISOR : Z := 4.
(* rust: constants.rs 3-3 TARGET_BLOCK_INTERVAL *)
Definition TARGET_BLOCK_INTERVAL : Z := 120.
(* rust: constants.rs 4-4 WINDOW_SIZE *)
Definition WINDOW_SIZE : Z := 10080.
(* rust: constants.rs 6-6 COINBASE_MATURITY *)
Definition COINBASE_MATURITY : Z := 100.
(* rust: constants.rs 7-7 MAX_FUTURE_DRIFT *)
Definition MAX_FUTURE_DRIFT : Z := 7200.
(* rust: constants.rs 9-9 MAX_TIMESTAMP_STEP_PER_BLOCK *)
Definition MAX_TIMESTAMP_STEP_PER_BLOCK : Z := 10 * TARGET_BLOCK_INTERVAL.
(* rust: constants.rs 11-11 BASE_UNITS_PER_RBN *)
Definition BASE_UNITS_PER_RBN : Z := 100000000.
(* rust: constants.rs 12-13 MAX_SUPPLY *)
Definition MAX_SUPPLY : Z := 5000000000000000.
(* rust: constants.rs 13-13 GENESIS_ALLOCATION *)
Definition GENESIS_ALLOCATION : Z := 100000000000000.
(* rust: constants.rs 14-14 MINEABLE_CAP *)
Definition MINEABLE_CAP : Z := 4900000000000000.
(* rust: constants.rs 15-15 EMISSION_SPEED_FACTOR *)
Definition EMISSION_SPEED_FACTOR : Z := 20.
(* rust: constants.rs 16-16 TAIL_EMISSION_PER_BLOCK *)
Definition TAIL_EMISSION_PER_BLOCK : Z := 19025875.
(* rust: constants.rs 18-18 MAX_BLOCK_WEIGHT *)
Definition MAX_BLOCK_WEIGHT : Z := 68000000.
(* rust: constants.rs 19-20 MAX_BLOCK_BYTES *)
Definition MAX_BLOCK_BYTES : Z := 72000000.
(* rust: constants.rs 20-20 MAX_DA_BYTES_PER_BLOCK *)
Definition MAX_DA_BYTES_PER_BLOCK : Z := 32000000.
(* rust: constants.rs 21-21 MIN_DA_RETENTION_BLOCKS *)
Definition MIN_DA_RETENTION_BLOCKS : Z := 15120.
(* rust: constants.rs 22-22 MAX_RELAY_MSG_BYTES *)
Definition MAX_RELAY_MSG_BYTES : Z := 96000000.
(* rust: constants.rs 24-24 MAX_DA_MANIFEST_BYTES_PER_TX *)
Definition MAX_DA_MANIFEST_BYTES_PER_TX : Z := 65536.
(* rust: constants.rs 25-25 CHUNK_BYTES *)
Definition CHUNK_BYTES : Z := 524288.
(* rust: constants.rs 26-26 MAX_DA_BATCHES_PER_BLOCK *)
Definition MAX_DA_BATCHES_PER_BLOCK : Z := 128.
(* rust: constants.rs 27-27 MAX_DA_CHUNK_COUNT *)
Definition MAX_DA_CHUNK_COUNT : Z := MAX_DA_BYTES_PER_BLOCK / CHUNK_BYTES.
(* rust: constants.rs 28-28 MAX_ANCHOR_PAYLOAD_SIZE *)
Definition MAX_ANCHOR_PAYLOAD_SIZE : Z := 65536.
(* rust: constants.rs 29-29 MAX_COVENANT_DATA_PER_OUTPUT *)
Definition MAX_COVENANT_DATA_PER_OUTPUT : Z := MAX_ANCHOR_PAYLOAD_SIZE.
(* rust: constants.rs 30-30 MAX_ANCHOR_BYTES_PER_BLOCK *)
Definition MAX_ANCHOR_BYTES_PER_BLOCK : Z := 131072.
(* rust: constants.rs 31-31 MAX_P2PK_COVENANT_DATA *)
Definition MAX_P2PK_COVENANT_DATA : Z := 33.
(* rust: constants.rs 32-32 MAX_HTLC_COVENANT_DATA *)
Definition MAX_HTLC_COVENANT_DATA : Z := 105.
(* rust: constants.rs 33-34 MIN_HTLC_PREIMAGE_BYTES *)
Definition MIN_HTLC_PREIMAGE_BYTES : Z := 16.
(* rust: constants.rs 34-34 MAX_HTLC_PREIMAGE_BYTES *)
Definition MAX_HTLC_PREIMAGE_BYTES : Z := 256.
(* rust: constants.rs 35-35 MAX_SIMPLICITY_STATE_BYTES *)
Definition MAX_SIMPLICITY_STATE_BYTES : Z := 512.
(* rust: constants.rs 36-36 SIMPLICITY_MAX_GROUP_INPUTS *)
Definition SIMPLICITY_MAX_GROUP_INPUTS : Z := 8.
(* rust: constants.rs 37-37 SIMPLICITY_MAX_GROUP_OUTPUTS *)
Definition SIMPLICITY_MAX_GROUP_OUTPUTS : Z := 8.
(* rust: constants.rs 38-38 MAX_VAULT_KEYS *)
Definition MAX_VAULT_KEYS : Z := 12.
(* rust: constants.rs 39-39 MAX_VAULT_WHITELIST_ENTRIES *)
Definition MAX_VAULT_WHITELIST_ENTRIES : Z := 1024.
(* rust: constants.rs 40-40 MAX_MULTISIG_KEYS *)
Definition MAX_MULTISIG_KEYS : Z := 12.
(* rust: constants.rs 41-41 COV_TYPE_MULTISIG *)
Definition COV_TYPE_MULTISIG : Z := 0x0104.
(* rust: constants.rs 45-45 COV_TYPE_CORE_EXT *)
Definition COV_TYPE_CORE_EXT : Z := 0x0102.
(* rust: constants.rs 46-46 COV_TYPE_CORE_STEALTH *)
Definition COV_TYPE_CORE_STEALTH : Z := 0x0105.
(* rust: constants.rs 47-47 CORE_STEALTH_WITNESS_SLOTS *)
Definition CORE_STEALTH_WITNESS_SLOTS : Z := 1.
(* rust: constants.rs 48-48 COV_TYPE_CORE_SIMPLICITY *)
Definition COV_TYPE_CORE_SIMPLICITY : Z := 0x0106.
(* rust: constants.rs 49-49 SIMPLICITY_WITNESS_SLOTS *)
Definition SIMPLICITY_WITNESS_SLOTS : Z := 1.
(* rust: constants.rs 52-52 COV_TYPE_EXT *)
Definition COV_TYPE_EXT : Z := COV_TYPE_CORE_EXT.
(* rust: constants.rs 54-54 COV_TYPE_STEALTH *)
Definition COV_TYPE_STEALTH : Z := COV_TYPE_CORE_STEALTH.
(* rust: constants.rs 56-56 MAX_TX_INPUTS *)
Definition MAX_TX_INPUTS : Z := 1024.
(* rust: constants.rs 57-57 MAX_TX_OUTPUTS *)
Definition MAX_TX_OUTPUTS : Z := 1024.
(* rust: constants.rs 58-58 MAX_WITNESS_ITEMS *)
Definition MAX_WITNESS_ITEMS : Z := 1024.
(* rust: constants.rs 59-59 MAX_WITNESS_BYTES_PER_TX *)
Definition MAX_WITNESS_BYTES_PER_TX : Z := 100000.
(* rust: constants.rs 60-60 MAX_SCRIPT_SIG_BYTES *)
Definition MAX_SCRIPT_SIG_BYTES : Z := 32.
(* rust: constants.rs 61-61 TX_WIRE_VERSION *)
Definition TX_WIRE_VERSION : Z := 1.
(* rust: constants.rs 63-63 SUITE_ID_SENTINEL *)
Definition SUITE_ID_SENTINEL : Z := 0x00.
(* rust: constants.rs 64-64 SUITE_ID_ML_DSA_87 *)
Definition SUITE_ID_ML_DSA_87 : Z := 0x01.
(* rust: constants.rs 66-66 SUITE_ID_SIMPLICITY_ENVELOPE *)
Definition SUITE_ID_SIMPLICITY_ENVELOPE : Z := 0xf0.
(* rust: constants.rs 69-69 MAX_SIMPLICITY_PROGRAM_BYTES *)
Definition MAX_SIMPLICITY_PROGRAM_BYTES : Z := 16384.
(* rust: constants.rs 70-70 MAX_SIMPLICITY_ENVELOPE_BYTES *)
Definition MAX_SIMPLICITY_ENVELOPE_BYTES : Z := 32768.
(* rust: constants.rs 72-72 COV_TYPE_P2PK *)
Definition COV_TYPE_P2PK : Z := 0x0000.
(* rust: constants.rs 73-73 COV_TYPE_ANCHOR *)
Definition COV_TYPE_ANCHOR : Z := 0x0002.
(* rust: constants.rs 74-74 COV_TYPE_RESERVED_FUTURE *)
Definition COV_TYPE_RESERVED_FUTURE : Z := 0x00FF.
(* rust: constants.rs 75-75 COV_TYPE_HTLC *)
Definition COV_TYPE_HTLC : Z := 0x0100.
(* rust: constants.rs 76-76 COV_TYPE_VAULT *)
Definition COV_TYPE_VAULT : Z := 0x0101.
(* rust: constants.rs 77-77 COV_TYPE_DA_COMMIT *)
Definition COV_TYPE_DA_COMMIT : Z := 0x0103.
(* rust: constants.rs 79-79 LOCK_MODE_HEIGHT *)
Definition LOCK_MODE_HEIGHT : Z := 0x00.
(* rust: constants.rs 80-80 LOCK_MODE_TIMESTAMP *)
Definition LOCK_MODE_TIMESTAMP : Z := 0x01.
(* rust: constants.rs 82-82 ML_DSA_87_PUBKEY_BYTES *)
Definition ML_DSA_87_PUBKEY_BYTES : Z := 2592.
(* rust: constants.rs 83-83 ML_DSA_87_SIG_BYTES *)
Definition ML_DSA_87_SIG_BYTES : Z := 4627.
(* rust: constants.rs 84-84 ML_KEM_1024_CT_BYTES *)
Definition ML_KEM_1024_CT_BYTES : Z := 1568.
(* rust: constants.rs 85-85 MAX_STEALTH_COVENANT_DATA *)
Definition MAX_STEALTH_COVENANT_DATA : Z := 1600.
(* rust: constants.rs 87-87 SIGHASH_ALL *)
Definition SIGHASH_ALL : Z := 0x01.
(* rust: constants.rs 88-88 SIGHASH_NONE *)
Definition SIGHASH_NONE : Z := 0x02.
(* rust: constants.rs 89-89 SIGHASH_SINGLE *)
Definition SIGHASH_SINGLE : Z := 0x03.
(* rust: constants.rs 90-90 SIGHASH_ANYONECANPAY *)
Definition SIGHASH_ANYONECANPAY : Z := 0x80.
(* rust: constants.rs 92-92 VERIFY_COST_ML_DSA_87 *)
Definition VERIFY_COST_ML_DSA_87 : Z := 8.
(* rust: constants.rs 93-93 VERIFY_COST_UNKNOWN_SUITE *)
Definition VERIFY_COST_UNKNOWN_SUITE : Z := 64.
(* rust: constants.rs 99-99 SIMPLICITY_BASE_VERIFY_COST *)
Definition SIMPLICITY_BASE_VERIFY_COST : Z := 64.
(* rust: constants.rs 107-107 EXT_BASE_COST *)
Definition EXT_BASE_COST : Z := 64.
(* rust: constants.rs 109-109 SIGNAL_WINDOW *)
Definition SIGNAL_WINDOW : Z := 2016.
(* rust: constants.rs 110-110 SIGNAL_THRESHOLD *)
Definition SIGNAL_THRESHOLD : Z := 1815.
(* rust: constants.rs 114-114 FALLOW_PERIOD *)
Definition FALLOW_PERIOD : Z := 2016.
(* rust: constants.rs 116-116 POW_LIMIT *)
Definition POW_LIMIT : bytes := replicate 32 xff.
