(* ===== verification/Crypto.v ===== *)
(** * The cryptographic interfaces

    SHA3-256 is computed by the [sha3] crate and signatures are checked by
    OpenSSL through FFI: neither is code of the repository, so both are
    interfaces here.  [Sha3] promises what every caller relies on, that a
    digest has 32 bytes; a property that needs more (that two inputs do not
    collide) lists the inputs in its conclusion instead of assuming that there
    is no collision.  [OpenSsl] is the total outcome of the FFI calls of
    [verify_sig_openssl.rs]. The [toy] instances are concrete functions for
    the witnesses. *)

From S2P Require Import Prelude Bytes Errors.

(** [sha3_256] of [hash.rs], a wrapper of [Sha3_256::digest]. *)
Class Sha3 : Type := {
  sha3_256 : bytes → bytes;
  sha3_256_length : ∀ b, length (sha3_256 b) = 32%nat;
}.
#[export] Hint Rewrite @sha3_256_length : rubin_len.

(** Two of the listed inputs have the same digest.  The list is always the
    finite list of the strings that the code hashes: over all strings there
    are such inputs for every function to 32 bytes. *)
Definition collision_in `{HS : Sha3} (strings : list bytes) : Prop :=
  ∃ x y, x ∈ strings ∧ y ∈ strings ∧ x ≠ y ∧ sha3_256 x = sha3_256 y.

Lemma sha3_inj_in `{HS : Sha3} strings x y : x ∈ strings → y ∈ strings →
  sha3_256 x = sha3_256 y → x = y ∨ collision_in strings.
Proof. intros Hx Hy Hxy. destruct (decide (x = y)); [by left|right]. by exists x, y. Qed.

Lemma collision_in_mono `{HS : Sha3} (l k : list bytes) : l ⊆ k → collision_in l → collision_in k.
Proof. intros Hl (x & y & Hx & Hy & H). exists x, y. auto. Qed.

(** The FFI surface of the verifier: [OPENSSL_init_crypto] followed by
    [EVP_SIGNATURE_fetch] ([ensure_openssl_consensus_init]) and, for an
    algorithm name, public key, signature and message, the calls
    [EVP_PKEY_new_raw_public_key_ex] ... [EVP_DigestVerify], whose outcome is
    either a failed allocation or initialisation, or a return code. *)
Inductive digest_verify_outcome : Type :=
  | PkeyFailed | MdCtxFailed | InitFailed | VerifyRc (rc : Z).

Class OpenSsl : Type := {
  openssl_consensus_init : res unit;
  openssl_digest_verify : string → bytes → bytes → bytes → digest_verify_outcome;
}.

(** ** Concrete instances, for witnesses *)

(** The length, and the number of the bytes up to a modulus. *)
Definition toy_digest (b : bytes) : bytes := le_encode 4 (len b) ++ le_encode 28 (le_decode b mod (2 ^ 224 - 63)).

Lemma toy_digest_length b : length (toy_digest b) = 32%nat.
Proof.
  unfold toy_digest. by rewrite length_app, !le_encode_length.
Qed.

Definition toy_sha3 : Sha3 :=
  {| sha3_256 := toy_digest; sha3_256_length := toy_digest_length |}.

(** A verifier that accepts the signatures whose first byte is 1. *)
Definition toy_openssl : OpenSsl := {|
  openssl_consensus_init := Ok ();
  openssl_digest_verify := λ _ _ sig _,
    VerifyRc (match sig with x01 :: _ => 1 | _ => 0 end);
|}.
