(* ===== verification/WireRead.v ===== *)
(** * The byte reader ([wire_read.rs])

    [Reader] is a slice and an offset; every [read_*] checks the end of the
    slice, returns the value and advances.  A parser is a function
    [Reader → res (A * Reader)]: the [&mut Reader] of the code is the threaded
    state (a reader is never used again after an error).

    [decodes p enc valid] is the contract every wire parser of the crate is
    proved against: [p] succeeds exactly on the readers whose remaining bytes
    start with the encoding of a valid value, returns that value and consumes
    exactly the encoding. *)

From S2P Require Import Prelude Bytes Errors.

(* rust: wire_read.rs 3-6 Reader *)
Record Reader : Type := mkReader { rd_b : bytes; rd_off : Z }.

(* rust: wire_read.rs 9-11 Reader::new *)
Definition reader_new (b : bytes) : Reader := mkReader b 0.

(* rust: wire_read.rs 13-15 Reader::offset *)
Definition offset (r : Reader) : Z := rd_off r.

(* rust: wire_read.rs 17-22 Reader::checked_end *)
Definition checked_end (r : Reader) (n : Z) (eof_msg : string) : res Z :=
  match checked_add usize_max (rd_off r) n with
  | Some e => if e <=? len (rd_b r) then Ok e else tx_err TxErrParse eof_msg
  | None => tx_err TxErrParse eof_msg
  end.

Abbreviation Parser A := (Reader → res (A * Reader)).

(** [&self.b[self.off..end]] and [self.off = end]. *)
Definition take_to (r : Reader) (e : Z) : bytes * Reader :=
  (slice (rd_off r) e (rd_b r), mkReader (rd_b r) e).

(* rust: wire_read.rs 24-29 Reader::read_u8 *)
Definition read_u8 : Parser Z := λ r,
  e ← checked_end r 1 "unexpected EOF (u8)";
  let '(b, r) := take_to r e in Ok (le_decode b, r).

(* rust: wire_read.rs 31-36 Reader::read_u16_le *)
Definition read_u16_le : Parser Z := λ r,
  e ← checked_end r 2 "unexpected EOF (u16le)";
  let '(b, r) := take_to r e in Ok (le_decode b, r).

(* rust: wire_read.rs 38-43 Reader::read_u32_le *)
Definition read_u32_le : Parser Z := λ r,
  e ← checked_end r 4 "unexpected EOF (u32le)";
  let '(b, r) := take_to r e in Ok (le_decode b, r).

(* rust: wire_read.rs 45-50 Reader::read_u64_le *)
Definition read_u64_le : Parser Z := λ r,
  e ← checked_end r 8 "unexpected EOF (u64le)";
  let '(b, r) := take_to r e in Ok (le_decode b, r).

(* rust: wire_read.rs 52-57 Reader::read_bytes *)
Definition read_bytes (n : Z) : Parser bytes := λ r,
  e ← checked_end r n "unexpected EOF (bytes)";
  Ok (take_to r e).

(** ** Well-formed readers

    The offset stays inside the slice, and a slice has at most [isize::MAX]
    bytes (a guarantee of the language). *)
Definition reader_wf (r : Reader) : Prop :=
  0 ≤ rd_off r ≤ len (rd_b r) ∧ len (rd_b r) ≤ isize_max.

(** The bytes not read yet, and the reader [n] bytes further. *)
Definition rest (r : Reader) : bytes := drop (Z.to_nat (rd_off r)) (rd_b r).
Definition advance (r : Reader) (n : Z) : Reader := mkReader (rd_b r) (rd_off r + n).

Definition decodes {A} (p : Parser A) (enc : A → bytes) (valid : A → Prop) : Prop :=
  ∀ r x r', reader_wf r →
    p r = Ok (x, r') ↔ valid x ∧ enc x `prefix_of` rest r ∧ r' = advance r (len (enc x)).

Existing Class decodes.

Lemma reader_new_wf b : len b ≤ isize_max → reader_wf (reader_new b).
Proof. unfold reader_wf; simpl; lia. Qed.
#[export] Hint Resolve reader_new_wf : rubin.

Lemma rest_length r : reader_wf r → len (rest r) = len (rd_b r) - rd_off r.
Proof. intros [??]. unfold rest. rewrite length_drop. lia. Qed.

Lemma rest_new b : rest (reader_new b) = b.
Proof. done. Qed.

Lemma advance_wf r (w : bytes) : reader_wf r → w `prefix_of` rest r → reader_wf (advance r (len w)).
Proof.
  intros Hwf Hp. pose proof (rest_length r Hwf). destruct Hwf.
  apply prefix_length in Hp. unfold reader_wf, advance; simpl. lia.
Qed.
#[export] Hint Resolve advance_wf : rubin.

Lemma advance_0 r : advance r 0 = r.
Proof. destruct r. unfold advance; simpl. f_equal. lia. Qed.

Lemma advance_advance r n m : advance (advance r n) m = advance r (n + m).
Proof. unfold advance; simpl. f_equal. lia. Qed.

Lemma advance_app r (w1 w2 : bytes) :
  advance (advance r (len w1)) (len w2) = advance r (len (w1 ++ w2)).
Proof. rewrite advance_advance, length_app. f_equal. lia. Qed.

Lemma rest_advance r (w : bytes) : reader_wf r → rest (advance r (len w)) = drop (length w) (rest r).
Proof.
  intros [??]. unfold rest, advance; simpl. rewrite drop_drop. f_equal. lia.
Qed.

Lemma prefix_app_advance r (w1 w2 : bytes) : reader_wf r →
  w1 ++ w2 `prefix_of` rest r ↔
  w1 `prefix_of` rest r ∧ w2 `prefix_of` rest (advance r (len w1)).
Proof. intros Hr. rewrite rest_advance by done. apply prefix_app_iff. Qed.

(** Reading past the end, or the [n] bytes that are there. *)
Lemma checked_end_Ok r n m e : reader_wf r → 0 ≤ n →
  checked_end r n m = Ok e ↔ n ≤ len (rest r) ∧ e = rd_off r + n.
Proof.
  intros Hr Hn. rewrite rest_length by done. destruct Hr as [Ho Hb].
  unfold checked_end, checked_add, usize_max, isize_max, u64_max in *.
  repeat case_match; split; intros; simplify_eq; try lia; try (f_equal; lia).
Qed.

Lemma take_to_rest r (n : nat) : reader_wf r →
  take_to r (rd_off r + Z.of_nat n) = (take n (rest r), advance r (Z.of_nat n)).
Proof.
  intros Hr. unfold take_to, slice, rest, advance. do 3 f_equal. lia.
Qed.

Lemma read_bytes_decodes (n : Z) : 0 ≤ n →
  decodes (read_bytes n) id (λ w, len w = n).
Proof.
  intros Hn r w r' Hr. unfold read_bytes. rewrite bind_Ok.
  setoid_rewrite (checked_end_Ok r n); [|done..]. simpl. split.
  - intros (e & [Hle ->] & Heq).
    rewrite <- (Z2Nat.id n), take_to_rest in Heq by done. injection Heq as <- <-.
    assert (len (take (Z.to_nat n) (rest r)) = n) as Hl by (rewrite length_take; lia).
    split_and!; [done|apply prefix_take|by rewrite Hl, Z2Nat.id].
  - intros (Hw & Hp & ->). exists (rd_off r + n).
    pose proof (prefix_length _ _ Hp). split; [split; [lia|done]|].
    rewrite <- (Z2Nat.id n), take_to_rest by done. f_equal. f_equal.
    + apply prefix_take_iff in Hp. by replace (Z.to_nat n) with (length w) by lia.
    + f_equal. lia.
Qed.

(** The fixed-width reads. *)
Lemma read_le_decodes (n : nat) (m : string) :
  decodes (λ r, e ← checked_end r (Z.of_nat n) m;
                let '(b, r) := take_to r e in Ok (le_decode b, r))
    (le_encode n) (λ z, 0 ≤ z < 256 ^ Z.of_nat n).
Proof.
  intros r z r' Hr. rewrite bind_Ok.
  setoid_rewrite (checked_end_Ok r (Z.of_nat n)); [|done|lia]. split.
  - intros (e & [Hle ->] & Heq).
    rewrite take_to_rest in Heq by done. injection Heq as <- <-.
    assert (length (take n (rest r)) = n) as Hl by (rewrite length_take; lia).
    pose proof (le_decode_bound (take n (rest r))) as Hb. rewrite Hl in Hb.
    pose proof (le_encode_decode (take n (rest r))) as He. rewrite Hl in He.
    rewrite He, Hl. split_and!; [lia|lia|apply prefix_take|done].
  - intros (Hz & Hp & ->). exists (rd_off r + Z.of_nat n).
    pose proof (prefix_length _ _ Hp). rewrite le_encode_length in *.
    split; [split; [lia|done]|]. rewrite take_to_rest by done.
    apply prefix_take_iff in Hp. rewrite le_encode_length in Hp.
    by rewrite Hp, le_decode_encode.
Qed.

Lemma read_u8_decodes : decodes read_u8 (le_encode 1) (is_u 8).
Proof. exact (read_le_decodes 1 _). Qed.
Lemma read_u16_decodes : decodes read_u16_le u16_le (is_u 16).
Proof. exact (read_le_decodes 2 _). Qed.
Lemma read_u32_decodes : decodes read_u32_le u32_le (is_u 32).
Proof. exact (read_le_decodes 4 _). Qed.
Lemma read_u64_decodes : decodes read_u64_le u64_le (is_u 64).
Proof. exact (read_le_decodes 8 _). Qed.
#[export] Existing Instances read_u8_decodes read_u16_decodes read_u32_decodes
  read_u64_decodes.
#[export] Hint Extern 1 (decodes (read_bytes _) _ _) =>
  apply read_bytes_decodes; unfold is_u in *; lia : typeclass_instances.

(** ** Using and composing [decodes] *)

Section decodes.
Context {A : Type} (p : Parser A) {enc : A → bytes} {valid : A → Prop}.
Context {Hp : decodes p enc valid}.

Lemma decodes_inv r x r' : reader_wf r → p r = Ok (x, r') →
  valid x ∧ enc x `prefix_of` rest r ∧ r' = advance r (len (enc x)) ∧ reader_wf r'.
Proof.
  intros Hr H. apply Hp in H as (Hv & Hpre & ->); [|done].
  split_and!; auto with rubin.
Qed.

Lemma decodes_run r x : reader_wf r → valid x → enc x `prefix_of` rest r →
  p r = Ok (x, advance r (len (enc x))).
Proof. intros. by apply Hp. Qed.
End decodes.

(** [dec_fwd] walks through a successful parser, turning every read into the
    validity of the value read and the position of its encoding; [dec_run x]
    takes one step of a parser forwards, reading [x]. *)
Ltac dec_hook := idtac.
Ltac dec_norm := unfold id in *; rewrite ?advance_app, <- ?app_assoc in *.
Ltac dec_join Hp :=
  try match type of Hp with
  | ?w2 `prefix_of` rest (advance ?r (len ?w1)) =>
      match goal with
      | H : w1 `prefix_of` rest r |- _ =>
          let Hj := fresh "Hpre" in
          pose proof (proj2 (prefix_app_advance r w1 w2 ltac:(auto 20 with rubin)) (conj H Hp))
            as Hj;
          clear H Hp; rename Hj into Hp
      end
  end.
Ltac dec_fwd_step :=
  match goal with
  | H : mbind _ (?p ?r) = Ok _ |- _ =>
      let x := fresh "x" in let r1 := fresh "r" in let Hx := fresh "Hx" in
      let Hv := fresh "Hv" in let Hp := fresh "Hp" in let Hwf := fresh "Hwf" in
      apply bind_Ok in H as ([x r1] & Hx & H); cbn beta iota in H;
      apply (decodes_inv p) in Hx as (Hv & Hp & -> & Hwf); [|solve [auto 20 with rubin]];
      repeat match type of x with
      | prod _ _ => let y := fresh "y" in destruct x as [x y]; cbn beta iota in H
      end; dec_hook; dec_join Hp; dec_norm
  | _ => inv_res_step
  end.
Ltac dec_fwd := repeat dec_fwd_step.
(** The last read of a parser, which is not followed by a bind. *)
Ltac dec_last p :=
  match goal with H : p _ = Ok _ |- _ =>
  let Hv := fresh "Hv" in let Hp := fresh "Hp" in let Hwf := fresh "Hwf" in
  apply (decodes_inv p) in H as (Hv & Hp & -> & Hwf); [|solve [auto 20 with rubin]];
  dec_hook; dec_join Hp; dec_norm
  end.

(** Closing a forward proof: the joined prefix is the encoding. *)
Ltac dec_close := dec_norm; solve [auto using prefix_nil].

(** One step forwards, reading [v]: the prefix hypotheses come from
    [prefix_split]. *)
Ltac prefix_split H :=
  repeat (rewrite prefix_app_advance in H by auto 20 with rubin;
          let H1 := fresh "Hp" in destruct H as [H1 H]).

Lemma prefix_join r (w1 w2 : bytes) : reader_wf r → w1 `prefix_of` rest r →
  w2 `prefix_of` rest (advance r (len w1)) → w1 ++ w2 `prefix_of` rest r.
Proof. intros. by apply prefix_app_advance. Qed.

Ltac dec_prefix :=
  cbn [fst snd]; rewrite <- ?app_assoc;
  repeat first [assumption | apply prefix_join; [solve [auto 20 with rubin]| |]].

Ltac dec_run v :=
  match goal with
  | |- mbind _ (?p ?r) = Ok _ =>
      rewrite (decodes_run p r v);
        [run_bind; unfold id; cbn [fst snd]; rewrite <- ?advance_app
        |solve [auto 20 with rubin]| |solve [dec_prefix]]
  end.

Ltac dec_done := by rewrite ?advance_app, <- ?app_assoc.

(** The guards of the code, decided by arithmetic. *)
Ltac pass_guard :=
  match goal with
  | |- (if ?b then _ else _) = Ok _ =>
      let H := fresh "Hg" in destruct b eqn:H; [exfalso; lia|]
  end.

(** The combinators of [decodes], for an encoder given by an equation. *)
Lemma decodes_ext {A} (p : Parser A) enc enc' (valid valid' : A → Prop) :
  decodes p enc valid → (∀ x, valid x → enc x = enc' x) → (∀ x, valid x ↔ valid' x) →
  decodes p enc' valid'.
Proof.
  intros Hp He Hv r x r' Hr. rewrite (Hp r x r' Hr), <- Hv.
  split; intros (H & Hpre & ->); rewrite He in * by done; done.
Qed.

(** [for _ in 0..n { v.push(parse(r)?) }] *)
Fixpoint read_many {A} (p : Parser A) (n : nat) : Parser (list A) := λ r,
  match n with
  | O => Ok ([], r)
  | S n =>
      '(x, r) ← p r;
      '(xs, r) ← read_many p n r;
      Ok (x :: xs, r)
  end.

Definition concat_map {A} (enc : A → bytes) (l : list A) : bytes := mjoin (enc <$> l).
#[global] Arguments concat_map : simpl never.

Lemma concat_map_cons {A} (enc : A → bytes) x l :
  concat_map enc (x :: l) = enc x ++ concat_map enc l.
Proof. done. Qed.

Lemma read_many_decodes {A} (p : Parser A) enc valid (n : nat) :
  decodes p enc valid →
  decodes (read_many p n) (concat_map enc) (λ l, length l = n ∧ Forall valid l).
Proof.
  intros Hp. induction n as [|n IH]; intros r l r' Hr; simpl.
  - split.
    + intros [= <- <-]. rewrite advance_0. auto using prefix_nil.
    + intros ([Hl _] & _ & ->). destruct l; [|done]. simpl. by rewrite advance_0.
  - rewrite bind_Ok. split.
    + intros ([x r1] & Hx & ([xs r2] & Hxs & [= <- <-])%bind_Ok).
      apply (decodes_inv p) in Hx as (Hv & Hpre & -> & Hr1); [|done].
      apply IH in Hxs as ((Hl & Hvs) & Hpre' & ->); [|done].
      rewrite concat_map_cons, prefix_app_advance, <- advance_app by done.
      split_and!; [simpl; congruence|by constructor|done..].
    + intros ([Hl Hv] & Hpre & ->). destruct l as [|x xs]; simplify_eq/=.
      apply Forall_cons_1 in Hv as [Hv Hvs].
      rewrite concat_map_cons, prefix_app_advance in Hpre by done. destruct Hpre as [Hp1 Hp2].
      exists (x, advance r (len (enc x))).
      split; [by apply (decodes_run p)|]. rewrite concat_map_cons, <- advance_app.
      rewrite (decodes_run (read_many p _) (Hp := IH) (advance r (len (enc x))) xs);
        auto 20 with rubin.
Qed.
#[export] Existing Instance read_many_decodes.

(** Encodings are prefix-free: two valid values with a common continuation
    are equal. *)
Lemma decodes_prefix_free {A} (p : Parser A) {enc valid} {Hp : decodes p enc valid}
    x y (s t : bytes) :
  valid x → valid y → len (enc x ++ s) ≤ isize_max →
  enc x ++ s = enc y ++ t → x = y ∧ s = t.
Proof.
  intros Hx Hy Hl He. pose proof (reader_new_wf _ Hl) as Hr.
  assert (p (reader_new (enc x ++ s)) = Ok (x, advance (reader_new (enc x ++ s)) (len (enc x))))
    as H1 by (apply Hp; [done|rewrite rest_new; auto using prefix_app_r]).
  assert (p (reader_new (enc x ++ s)) = Ok (y, advance (reader_new (enc x ++ s)) (len (enc y))))
    as H2 by (apply Hp; [done|rewrite rest_new, He; auto using prefix_app_r]).
  rewrite H1 in H2. inv_res. split; [done|]. by apply app_inv_head in He.
Qed.
