(* ===== verification/CompactSize.v ===== *)
(** * CompactSize integers ([compactsize.rs])

    The variable-length integers of the wire format.  [compact_size_decodes]
    says that the reader accepts exactly the encodings the writer produces:
    every 64-bit value has one encoding, of at most nine bytes, and a longer
    (non-minimal) one is refused. *)

From S2P Require Import Prelude Bytes Errors WireRead.

(* rust: compactsize.rs 39-55 encode_compact_size *)
Definition encode_compact_size (n : Z) (out : bytes) : bytes :=
  if n <=? 0xfc then out ++ [byte_of_Z n]
  else if n <=? 0xffff then out ++ [xfd] ++ u16_le n
  else if n <=? 0xffffffff then out ++ [xfe] ++ u32_le n
  else out ++ [xff] ++ u64_le n.

(* rust: compactsize.rs 4-32 read_compact_size *)
Definition read_compact_size : Parser (Z * Z) := λ r,
  let start := offset r in
  '(tag, r) ← read_u8 r;
  '(v, minimal_ok, r) ←
    (if tag <=? 0xfc then Ok (tag, true, r)
     else if tag =? 0xfd then '(v, r) ← read_u16_le r; Ok (v, 0xfd <=? v, r)
     else if tag =? 0xfe then '(v, r) ← read_u32_le r; Ok (v, 0xffff <? v, r)
     else '(v, r) ← read_u64_le r; Ok (v, 0xffffffff <? v, r));
  if negb minimal_ok then tx_err TxErrParse "non-minimal CompactSize" else
  Ok ((v, offset r - start), r).

(* rust: compactsize.rs 34-37 read_compact_size_bytes *)
Definition read_compact_size_bytes (b : bytes) : res (Z * Z) :=
  '(v, _) ← read_compact_size (reader_new b); Ok v.

(** The encoding of [n] on its own. *)
Definition compact_size (n : Z) : bytes := encode_compact_size n [].
#[global] Arguments compact_size : simpl never.

Lemma encode_compact_size_app n out : encode_compact_size n out = out ++ compact_size n.
Proof. unfold compact_size, encode_compact_size. by repeat case_match. Qed.

Lemma compact_size_length n :
  len (compact_size n) =
  if n <=? 0xfc then 1 else if n <=? 0xffff then 3 else if n <=? 0xffffffff then 5 else 9.
Proof.
  unfold compact_size, encode_compact_size.
  repeat case_match; unfold u16_le, u32_le, u64_le; simpl;
    by rewrite ?le_encode_length.
Qed.

Lemma compact_size_bound n : 1 ≤ len (compact_size n) ≤ 9.
Proof. rewrite compact_size_length. repeat case_match; lia. Qed.

Lemma byte_enc_app (b : byte) w : [b] ++ w = le_encode 1 (byte_val b) ++ w.
Proof. simpl. by rewrite byte_of_Z_val. Qed.

(** The tag byte and the value bytes of each form. *)
Lemma compact_size_cases n : is_u 64 n →
  compact_size n =
  if n <=? 0xfc then le_encode 1 n
  else if n <=? 0xffff then le_encode 1 0xfd ++ u16_le n
  else if n <=? 0xffffffff then le_encode 1 0xfe ++ u32_le n
  else le_encode 1 0xff ++ u64_le n.
Proof. intros _. unfold compact_size, encode_compact_size. by repeat case_match. Qed.

Definition compact_size_valid (vn : Z * Z) : Prop :=
  is_u 64 vn.1 ∧ vn.2 = len (compact_size vn.1).

Ltac dec_inv lem H :=
  let Hv := fresh "Hv" in let Hp := fresh "Hp" in let Hwf := fresh "Hwf" in
  apply (decodes_inv lem) in H as (Hv & Hp & -> & Hwf); [|solve [auto with rubin]].

Lemma offset_advance r n : offset (advance r n) - offset r = n.
Proof. unfold offset, advance; simpl; lia. Qed.

(** The reader's steps on a tagged form. *)
Ltac compact_size_tail tag lem v Hp :=
  let Hr := fresh "Hr" in
  destruct Hp as [Hp ?];
  rewrite (decodes_run read_u8 _ tag); [|done|unfold is_u; lia|done];
  match type of Hp with _ `prefix_of` rest ?r =>
    assert (reader_wf (advance r (len (le_encode 1 tag)))) as Hr by auto with rubin
  end;
  run_bind;
  rewrite (decodes_run lem _ v); [|done|unfold is_u; lia|done];
  rewrite advance_app; run_bind.

Ltac compact_size_close :=
  cbn [Z.leb Z.eqb Z.compare Pos.compare Pos.compare_cont Pos.eqb negb mbind result_bind];
  cbn beta iota; by rewrite offset_advance.

Lemma compact_size_decodes :
  decodes read_compact_size (λ vn, compact_size vn.1) compact_size_valid.
Proof.
  intros r [v n] r' Hr. unfold compact_size_valid; simpl. split.
  - intros H. unfold read_compact_size in H.
    apply bind_Ok in H as ([tag r1] & Ht & H). dec_inv read_u8 Ht.
    apply bind_Ok in H as ([[v' ok] r2] & Hb & H). simpl in H.
    destruct ok; [|discriminate]. injection H as <- <- <-.
    assert (is_u 64 v' ∧ compact_size v' `prefix_of` rest r ∧
            r2 = advance r (len (compact_size v'))) as (? & ? & ->).
    { unfold is_u in *.
      repeat case_match; inv_res.
      - split; [lia|]. rewrite compact_size_cases, H by (unfold is_u; lia). done.
      - dec_inv read_u16_le Hx. unfold is_u in *.
        assert (tag = 0xfd) as -> by lia. split; [lia|].
        rewrite compact_size_cases by (unfold is_u; lia).
        rewrite (proj2 (Z.leb_gt _ _)), (proj2 (Z.leb_le _ 0xffff)) by lia.
        rewrite advance_app. split; [|done]. by rewrite prefix_app_advance.
      - dec_inv read_u32_le Hx. unfold is_u in *.
        assert (tag = 0xfe) as -> by lia. split; [lia|].
        rewrite compact_size_cases by (unfold is_u; lia).
        rewrite !(proj2 (Z.leb_gt _ _)), (proj2 (Z.leb_le _ 0xffffffff)) by lia.
        rewrite advance_app. split; [|done]. by rewrite prefix_app_advance.
      - dec_inv read_u64_le Hx. unfold is_u in *.
        assert (tag = 0xff) as -> by lia. split; [lia|].
        rewrite compact_size_cases by (unfold is_u; lia).
        rewrite !(proj2 (Z.leb_gt _ _)) by lia.
        rewrite advance_app. split; [|done]. by rewrite prefix_app_advance. }
    split_and!; auto. unfold offset, advance; simpl. lia.
  - intros ([Hv ->] & Hp & ->). unfold read_compact_size.
    rewrite compact_size_cases in Hp |- * by done.
    unfold is_u in Hv. repeat case_match; rewrite ?prefix_app_advance in Hp by done.
    + rewrite (decodes_run read_u8 r v); [|done|unfold is_u; lia|done].
      run_bind. rewrite H. simpl. do 3 f_equal. unfold offset; simpl; lia.
    + compact_size_tail 0xfd read_u16_le v Hp. rewrite (proj2 (Z.leb_le 253 v)) by lia.
      compact_size_close.
    + compact_size_tail 0xfe read_u32_le v Hp. rewrite (proj2 (Z.ltb_lt 65535 v)) by lia.
      compact_size_close.
    + compact_size_tail 0xff read_u64_le v Hp.
      rewrite (proj2 (Z.ltb_lt 4294967295 v)) by lia.
      compact_size_close.
Qed.
#[export] Existing Instance compact_size_decodes.

(** [read_compact_size_bytes] accepts exactly the encodings written by
    [encode_compact_size]: on a buffer it returns the value [n] and the length
    [k] if and only if [n] is a 64-bit value, the buffer starts with the
    encoding of [n], and [k] is the length of that encoding. In particular
    every value has one accepted encoding. *)
Theorem read_compact_size_canonical b n k : len b ≤ isize_max →
  read_compact_size_bytes b = Ok (n, k) ↔
  is_u 64 n ∧ k = len (encode_compact_size n []) ∧ encode_compact_size n [] `prefix_of` b.
Proof.
  intros Hb. pose proof (reader_new_wf b Hb) as Hr. unfold read_compact_size_bytes.
  rewrite bind_Ok. split.
  - intros ([v r'] & Hx & H). inv_res. apply compact_size_decodes in Hx as ([??] & ? & _); [|done].
    by split_and!.
  - intros (? & -> & ?).
    exists (n, len (compact_size n), advance (reader_new b) (len (compact_size n))).
    split; [|done]. by apply compact_size_decodes.
Qed.

Lemma read_compact_size_canonical_witness :
  len [xfd; x2c; x01; x07] ≤ isize_max ∧
  (read_compact_size_bytes [xfd; x2c; x01; x07] = Ok (300, 3) ↔
   is_u 64 300 ∧ 3 = len (encode_compact_size 300 [])
   ∧ encode_compact_size 300 [] `prefix_of` [xfd; x2c; x01; x07]).
Proof. split; [vm_compute; congruence|]. apply read_compact_size_canonical. vm_compute; congruence. Defined.

(** [dec_fwd] and [dec_run] open the validity of a CompactSize. *)
Ltac dec_hook ::=
  unfold compact_size_valid in *; cbn [fst snd] in *; destruct_and?; subst.
Ltac run_size v :=
  dec_run (v, len (compact_size v)); [cbn [fst snd]|split; [cbn [fst]; unfold is_u; lia|done]].

(** A counted list: [n] as a CompactSize, then [n] items. *)
Definition enc_list {A} (enc : A → bytes) (l : list A) : bytes :=
  compact_size (len l) ++ concat_map enc l.

Lemma counted_list_decodes {A} (p : Parser A) enc valid (max : Z) (e : TxError) :
  decodes p enc valid → max ≤ u64_max →
  decodes (λ r, '(n, _, r) ← read_compact_size r;
                if max <? n then Err e else read_many p (Z.to_nat n) r)
    (enc_list enc) (λ l, len l ≤ max ∧ Forall valid l).
Proof.
  intros Hp Hmax r l r' Hr. unfold u64_max in *. split.
  - intros H. dec_fwd. dec_last (read_many p (Z.to_nat x)). unfold is_u in *.
    assert (x = len l) as -> by lia. split; [auto with lia|]. unfold enc_list. dec_close.
  - intros ((? & ?) & Hpre & ->). unfold enc_list in *. prefix_split Hpre.
    run_size (len l). pass_guard. rewrite Nat2Z.id.
    rewrite (decodes_run (read_many _ _) _ l); [dec_done|auto with rubin..].
Qed.
