(* ===== verification/TxWire.v ===== *)
(** * Transactions on the wire ([tx.rs], [tx_helpers.rs])

    The transaction type, the wire parser [parse_tx] and the serializer
    [marshal_tx], operation by operation.  The theorems about them are in
    [TxCodec.v]. *)

From S2P Require Import Prelude Bytes Errors Constants Crypto WireRead CompactSize.

(** ** Data *)

(* rust: tx.rs 21-27 TxInput *)
Record TxInput : Type := mkTxInput {
  prev_txid : bytes; prev_vout : Z; script_sig : bytes; sequence : Z }.

(* rust: tx.rs 29-34 TxOutput *)
Record TxOutput : Type := mkTxOutput {
  value : Z; covenant_type : Z; covenant_data : bytes }.

(* rust: tx.rs 36-41 WitnessItem *)
Record WitnessItem : Type := mkWitnessItem {
  suite_id : Z; pubkey : bytes; signature : bytes }.

(* rust: tx.rs 43-54 DaCommitCore *)
Record DaCommitCore : Type := mkDaCommitCore {
  commit_da_id : bytes; chunk_count : Z; retl_domain_id : bytes; batch_number : Z;
  tx_data_root : bytes; state_root : bytes; withdrawals_root : bytes;
  batch_sig_suite : Z; batch_sig : bytes }.

(* rust: tx.rs 56-61 DaChunkCore *)
Record DaChunkCore : Type := mkDaChunkCore {
  chunk_da_id : bytes; chunk_index : Z; chunk_hash : bytes }.

(* rust: tx.rs 7-19 Tx *)
Record Tx : Type := mkTx {
  version : Z; tx_kind : Z; tx_nonce : Z;
  inputs : list TxInput; outputs : list TxOutput; locktime : Z;
  da_commit_core : option DaCommitCore; da_chunk_core : option DaChunkCore;
  witness : list WitnessItem; da_payload : bytes }.

#[export] Instance TxInput_eq_dec : EqDecision TxInput.
Proof. solve_decision. Defined.
#[export] Instance TxOutput_eq_dec : EqDecision TxOutput.
Proof. solve_decision. Defined.
#[export] Instance WitnessItem_eq_dec : EqDecision WitnessItem.
Proof. solve_decision. Defined.
#[export] Instance DaCommitCore_eq_dec : EqDecision DaCommitCore.
Proof. solve_decision. Defined.
#[export] Instance DaChunkCore_eq_dec : EqDecision DaChunkCore.
Proof. solve_decision. Defined.
#[export] Instance Tx_eq_dec : EqDecision Tx.
Proof. solve_decision. Defined.

(** ** Parsing *)

(* rust: tx.rs 499-504 read_32 *)
Definition read_32 : Parser bytes := read_bytes 32.

(* rust: tx.rs 95-109 parse_tx_prefix *)
Definition parse_tx_prefix : Parser (Z * Z * Z) := λ r,
  '(version, r) ← read_u32_le r;
  if negb (version =? TX_WIRE_VERSION) then tx_err TxErrParse "unsupported tx version" else
  '(tx_kind, r) ← read_u8 r;
  if negb (tx_kind =? 0x00) && negb (tx_kind =? 0x01) && negb (tx_kind =? 0x02)
  then tx_err TxErrParse "unsupported tx_kind" else
  '(tx_nonce, r) ← read_u64_le r;
  Ok (version, tx_kind, tx_nonce, r).

(* rust: tx.rs 123-141 parse_tx_input *)
Definition parse_tx_input : Parser TxInput := λ r,
  '(prev_txid, r) ← read_32 r;
  '(prev_vout, r) ← read_u32_le r;
  '(script_sig_len, _, r) ← read_compact_size r;
  if MAX_SCRIPT_SIG_BYTES <? script_sig_len
  then tx_err TxErrParse "script_sig_len overflow" else
  '(script_sig, r) ← read_bytes script_sig_len r;
  '(sequence, r) ← read_u32_le r;
  Ok (mkTxInput prev_txid prev_vout script_sig sequence, r).

(* rust: tx.rs 111-121 parse_tx_inputs *)
Definition parse_tx_inputs : Parser (list TxInput) := λ r,
  '(in_count, _, r) ← read_compact_size r;
  if MAX_TX_INPUTS <? in_count then tx_err TxErrParse "input_count overflow" else
  read_many parse_tx_input (Z.to_nat in_count) r.

(* rust: tx.rs 155-177 parse_tx_output *)
Definition parse_tx_output : Parser TxOutput := λ r,
  '(value, r) ← read_u64_le r;
  '(covenant_type, r) ← read_u16_le r;
  '(cov_len_u64, _, r) ← read_compact_size r;
  if usize_max <? cov_len_u64
  then tx_err TxErrParse "covenant_data_len overflows usize" else
  if MAX_COVENANT_DATA_PER_OUTPUT <? cov_len_u64
  then tx_err TxErrParse "covenant_data_len exceeds MAX_COVENANT_DATA_PER_OUTPUT" else
  '(covenant_data, r) ← read_bytes cov_len_u64 r;
  Ok (mkTxOutput value covenant_type covenant_data, r).

(* rust: tx.rs 143-153 parse_tx_outputs *)
Definition parse_tx_outputs : Parser (list TxOutput) := λ r,
  '(out_count, _, r) ← read_compact_size r;
  if MAX_TX_OUTPUTS <? out_count then tx_err TxErrParse "output_count overflow" else
  read_many parse_tx_output (Z.to_nat out_count) r.

(* rust: tx.rs 217-226 read_da_commit_chunk_count *)
Definition read_da_commit_chunk_count : Parser Z := λ r,
  '(chunk_count, r) ← read_u16_le r;
  if (chunk_count =? 0) || (MAX_DA_CHUNK_COUNT <? chunk_count)
  then tx_err TxErrParse "chunk_count out of range for tx_kind=0x01" else
  Ok (chunk_count, r).

(* rust: tx.rs 209-215 DaCommitFields *)
Record DaCommitFields : Type := mkDaCommitFields {
  f_retl_domain_id : bytes; f_batch_number : Z; f_tx_data_root : bytes;
  f_state_root : bytes; f_withdrawals_root : bytes }.

(* rust: tx.rs 228-236 read_da_commit_fields *)
Definition read_da_commit_fields : Parser DaCommitFields := λ r,
  '(retl_domain_id, r) ← read_32 r;
  '(batch_number, r) ← read_u64_le r;
  '(tx_data_root, r) ← read_32 r;
  '(state_root, r) ← read_32 r;
  '(withdrawals_root, r) ← read_32 r;
  Ok (mkDaCommitFields retl_domain_id batch_number tx_data_root state_root
        withdrawals_root, r).

(* rust: tx.rs 238-247 read_da_batch_sig *)
Definition read_da_batch_sig : Parser bytes := λ r,
  '(batch_sig_len_u64, _, r) ← read_compact_size r;
  if (MAX_DA_MANIFEST_BYTES_PER_TX <? batch_sig_len_u64) || (usize_max <? batch_sig_len_u64)
  then tx_err TxErrParse "batch_sig_len overflow" else
  read_bytes batch_sig_len_u64 r.

(* rust: tx.rs 190-207 parse_da_commit_core *)
Definition parse_da_commit_core : Parser DaCommitCore := λ r,
  '(da_id, r) ← read_32 r;
  '(chunk_count, r) ← read_da_commit_chunk_count r;
  '(fields, r) ← read_da_commit_fields r;
  '(batch_sig_suite, r) ← read_u8 r;
  '(batch_sig, r) ← read_da_batch_sig r;
  Ok (mkDaCommitCore da_id chunk_count (f_retl_domain_id fields) (f_batch_number fields)
        (f_tx_data_root fields) (f_state_root fields) (f_withdrawals_root fields)
        batch_sig_suite batch_sig, r).

(* rust: tx.rs 249-264 parse_da_chunk_core *)
Definition parse_da_chunk_core : Parser DaChunkCore := λ r,
  '(da_id, r) ← read_32 r;
  '(chunk_index, r) ← read_u16_le r;
  if MAX_DA_CHUNK_COUNT <=? chunk_index
  then tx_err TxErrParse "chunk_index out of range for tx_kind=0x02" else
  '(chunk_hash, r) ← read_32 r;
  Ok (mkDaChunkCore da_id chunk_index chunk_hash, r).

(* rust: tx.rs 179-188 parse_da_core *)
Definition parse_da_core (tx_kind : Z) : Parser (option DaCommitCore * option DaChunkCore) :=
  λ r,
  if tx_kind =? 0x01 then '(c, r) ← parse_da_commit_core r; Ok (Some c, None, r)
  else if tx_kind =? 0x02 then '(c, r) ← parse_da_chunk_core r; Ok (None, Some c, r)
  else Ok (None, None, r).

(* rust: tx.rs 319-324 checked_usize_len *)
Definition checked_usize_len (l : Z) (m : string) : res Z :=
  if usize_max <? l then tx_err TxErrParse m else Ok l.

(** [*witness_bytes] is threaded: the count before, and the count after. *)
(* rust: tx.rs 306-317 read_witness_bytes *)
Definition read_witness_bytes (witness_bytes : Z) (overflow_msg : string) :
    Parser (Z * bytes * Z) := λ r,
  '(len_u64, len_varint_bytes, r) ← read_compact_size r;
  let witness_bytes := witness_bytes + len_varint_bytes in
  n ← checked_usize_len len_u64 overflow_msg;
  '(b, r) ← read_bytes n r;
  let witness_bytes := witness_bytes + n in
  Ok (len_u64, b, witness_bytes, r).

(* rust: tx.rs 444-457 is_canonical_htlc_claim_signature *)
Definition is_canonical_htlc_claim_signature (sig : bytes) : bool :=
  if negb (bool_decide (head sig = Some x00)) then false else
  if len sig <? 3 then false else
  let pre_len := le_decode (slice 1 3 sig) in
  (MIN_HTLC_PREIMAGE_BYTES <=? pre_len) && (pre_len <=? MAX_HTLC_PREIMAGE_BYTES)
  && (len sig =? 3 + pre_len).

(* rust: tx.rs 435-442 is_canonical_sentinel_witness *)
Definition is_canonical_sentinel_witness (pub_len : Z) (sig : bytes) : bool :=
  if (pub_len =? 0) && (len sig =? 0) then true
  else if (pub_len =? 32) && (len sig =? 1) then bool_decide (head sig = Some x01)
  else if (pub_len =? 32) && (3 <=? len sig) then is_canonical_htlc_claim_signature sig
  else false.

(* rust: tx.rs 425-433 validate_sentinel_witness *)
Definition validate_sentinel_witness (pub_len : Z) (sig : bytes) : res unit :=
  if is_canonical_sentinel_witness pub_len sig then Ok ()
  else tx_err TxErrParse "non-canonical sentinel witness item".

(* rust: tx.rs 378-423 validate_simplicity_envelope_signature *)
Definition validate_simplicity_envelope_signature (sig : bytes) : res unit :=
  if len sig <? 2
  then tx_err TxErrParse "non-canonical Simplicity envelope witness item" else
  let envelope := slice 0 (len sig - 1) sig in
  if MAX_SIMPLICITY_ENVELOPE_BYTES <? len envelope
  then tx_err TxErrParse "Simplicity envelope too large" else
  '(v, r) ← read_u8 (reader_new envelope);
  if negb (v =? 0x01)
  then tx_err TxErrParse "non-canonical Simplicity envelope witness item" else
  '(program_len_u64, _, r) ← read_compact_size r;
  if MAX_SIMPLICITY_PROGRAM_BYTES <? program_len_u64
  then tx_err TxErrParse "Simplicity program too large" else
  '(_, r) ← read_bytes program_len_u64 r;
  '(witness_len_u64, _, r) ← read_compact_size r;
  if isize_max <? witness_len_u64
  then tx_err TxErrParse "Simplicity witness_len overflows int" else
  '(_, r) ← read_bytes witness_len_u64 r;
  if negb (offset r =? len envelope)
  then tx_err TxErrParse "non-canonical Simplicity envelope witness item" else
  Ok ().

(* rust: tx.rs 348-372 validate_witness_item_shape *)
Definition validate_witness_item_shape (suite_id pub_len_u64 sig_len_u64 : Z)
    (sig : bytes) : res unit :=
  if suite_id =? SUITE_ID_SENTINEL then validate_sentinel_witness pub_len_u64 sig
  else if (suite_id =? SUITE_ID_ML_DSA_87)
       && negb ((pub_len_u64 =? ML_DSA_87_PUBKEY_BYTES)
                && (sig_len_u64 =? ML_DSA_87_SIG_BYTES + 1))
  then tx_err TxErrSigNoncanonical "non-canonical ML-DSA witness item lengths"
  else if (suite_id =? SUITE_ID_SIMPLICITY_ENVELOPE) && negb (pub_len_u64 =? 0)
  then tx_err TxErrParse "non-canonical Simplicity envelope witness item"
  else if suite_id =? SUITE_ID_SIMPLICITY_ENVELOPE
  then validate_simplicity_envelope_signature sig
  else Ok ().

(* rust: tx.rs 326-346 validate_witness_item_ordered *)
Definition validate_witness_item_ordered (suite_id pub_len_u64 sig_len_u64 witness_bytes : Z)
    (sig : bytes) : res unit :=
  if negb (suite_id =? SUITE_ID_SENTINEL) && (sig_len_u64 =? 0)
  then tx_err TxErrParse "missing sighash_type byte" else
  if MAX_WITNESS_BYTES_PER_TX <? witness_bytes
  then tx_err TxErrWitnessOverflow "witness bytes overflow" else
  validate_witness_item_shape suite_id pub_len_u64 sig_len_u64 sig.

(* rust: tx.rs 282-304 parse_witness_item *)
Definition parse_witness_item (witness_bytes : Z) : Parser (WitnessItem * Z) := λ r,
  '(suite_id, r) ← read_u8 r;
  let witness_bytes := witness_bytes + 1 in
  '(pub_len_u64, pubkey, witness_bytes, r) ←
    read_witness_bytes witness_bytes "pubkey_length overflows usize" r;
  '(sig_len_u64, signature, witness_bytes, r) ←
    read_witness_bytes witness_bytes "sig_length overflows usize" r;
  _ ← validate_witness_item_ordered suite_id pub_len_u64 sig_len_u64 witness_bytes signature;
  Ok (mkWitnessItem suite_id pubkey signature, witness_bytes, r).

(** The loop of [parse_witnesses]. *)
(* rust: tx.rs 276-278 parse_witnesses *)
Fixpoint parse_witness_items (n : nat) (witness_bytes : Z) : Parser (list WitnessItem) := λ r,
  match n with
  | O => Ok ([], r)
  | S n =>
      '(w, witness_bytes, r) ← parse_witness_item witness_bytes r;
      '(ws, r) ← parse_witness_items n witness_bytes r;
      Ok (w :: ws, r)
  end.

(* rust: tx.rs 266-280 parse_witnesses *)
Definition parse_witnesses : Parser (list WitnessItem) := λ r,
  '(witness_count_u64, witness_count_varint_bytes, r) ← read_compact_size r;
  if MAX_WITNESS_ITEMS <? witness_count_u64
  then tx_err TxErrWitnessOverflow "witness_count overflow" else
  parse_witness_items (Z.to_nat witness_count_u64) witness_count_varint_bytes r.

(* rust: tx.rs 469-477 parse_standard_da_payload *)
Definition parse_standard_da_payload (da_len_u64 : Z) : Parser bytes := λ r,
  if negb (da_len_u64 =? 0)
  then tx_err TxErrParse "da_payload_len must be 0 for tx_kind=0x00" else Ok ([], r).

(* rust: tx.rs 479-487 parse_da_commit_payload *)
Definition parse_da_commit_payload (da_len_u64 : Z) : Parser bytes := λ r,
  if (MAX_DA_MANIFEST_BYTES_PER_TX <? da_len_u64) || (usize_max <? da_len_u64)
  then tx_err TxErrParse "da_payload_len out of range for tx_kind=0x01" else
  read_bytes da_len_u64 r.

(* rust: tx.rs 489-497 parse_da_chunk_payload *)
Definition parse_da_chunk_payload (da_len_u64 : Z) : Parser bytes := λ r,
  if (da_len_u64 =? 0) || (CHUNK_BYTES <? da_len_u64) || (usize_max <? da_len_u64)
  then tx_err TxErrParse "da_payload_len out of range for tx_kind=0x02" else
  read_bytes da_len_u64 r.

(* rust: tx.rs 459-467 parse_da_payload *)
Definition parse_da_payload (tx_kind : Z) : Parser bytes := λ r,
  '(da_len_u64, _, r) ← read_compact_size r;
  if tx_kind =? 0x00 then parse_standard_da_payload da_len_u64 r
  else if tx_kind =? 0x01 then parse_da_commit_payload da_len_u64 r
  else if tx_kind =? 0x02 then parse_da_chunk_payload da_len_u64 r
  else tx_err TxErrParse "unsupported tx_kind".

(* rust: tx.rs 67-93 parse_tx_without_hashes *)
Definition parse_tx_without_hashes (b : bytes) : res (Tx * Z * Z) :=
  let r := reader_new b in
  '(version, tx_kind, tx_nonce, r) ← parse_tx_prefix r;
  '(inputs, r) ← parse_tx_inputs r;
  '(outputs, r) ← parse_tx_outputs r;
  '(locktime, r) ← read_u32_le r;
  '(da_commit_core, da_chunk_core, r) ← parse_da_core tx_kind r;
  let core_end := offset r in
  '(witness, r) ← parse_witnesses r;
  '(da_payload, r) ← parse_da_payload tx_kind r;
  let total_end := offset r in
  Ok (mkTx version tx_kind tx_nonce inputs outputs locktime da_commit_core da_chunk_core
        witness da_payload, core_end, total_end).

(* rust: tx.rs 506-511 parse_tx *)
Definition parse_tx `{HS : Sha3} (b : bytes) : res (Tx * bytes * bytes * Z) :=
  '(tx, core_end, total_end) ← parse_tx_without_hashes b;
  let txid := sha3_256 (slice 0 core_end b) in
  let wtxid := sha3_256 (slice 0 total_end b) in
  Ok (tx, txid, wtxid, total_end).

(** ** Serialization *)

(* rust: tx.rs 513-552 da_core_fields_bytes *)
Definition da_core_fields_bytes (tx : Tx) : res bytes :=
  if tx_kind tx =? 0x00 then Ok []
  else if tx_kind tx =? 0x01 then
    match da_commit_core tx with
    | None => tx_err TxErrParse "missing da_commit_core for tx_kind=0x01"
    | Some core =>
        let out := [] ++ commit_da_id core in
        let out := out ++ u16_le (chunk_count core) in
        let out := out ++ retl_domain_id core in
        let out := out ++ u64_le (batch_number core) in
        let out := out ++ tx_data_root core in
        let out := out ++ state_root core in
        let out := out ++ withdrawals_root core in
        let out := out ++ [byte_of_Z (batch_sig_suite core)] in
        let out := encode_compact_size (len (batch_sig core)) out in
        Ok (out ++ batch_sig core)
    end
  else if tx_kind tx =? 0x02 then
    match da_chunk_core tx with
    | None => tx_err TxErrParse "missing da_chunk_core for tx_kind=0x02"
    | Some core =>
        let out := [] ++ chunk_da_id core in
        let out := out ++ u16_le (chunk_index core) in
        Ok (out ++ chunk_hash core)
    end
  else tx_err TxErrParse "unsupported tx_kind".

(** The loop bodies of [marshal_tx]. *)
(* rust: tx_helpers.rs 35-41 marshal_tx *)
Definition marshal_input (out : bytes) (input : TxInput) : bytes :=
  let out := out ++ prev_txid input in
  let out := out ++ u32_le (prev_vout input) in
  let out := encode_compact_size (len (script_sig input)) out in
  let out := out ++ script_sig input in
  out ++ u32_le (sequence input).

(* rust: tx_helpers.rs 44-49 marshal_tx *)
Definition marshal_output (out : bytes) (output : TxOutput) : bytes :=
  let out := out ++ u64_le (value output) in
  let out := out ++ u16_le (covenant_type output) in
  let out := encode_compact_size (len (covenant_data output)) out in
  out ++ covenant_data output.

(* rust: tx_helpers.rs 55-61 marshal_tx *)
Definition marshal_witness_item (out : bytes) (item : WitnessItem) : bytes :=
  let out := out ++ [byte_of_Z (suite_id item)] in
  let out := encode_compact_size (len (pubkey item)) out in
  let out := out ++ pubkey item in
  let out := encode_compact_size (len (signature item)) out in
  out ++ signature item.

(* rust: tx_helpers.rs 27-67 marshal_tx *)
Definition marshal_tx (tx : Tx) : res bytes :=
  let out := [] ++ u32_le (version tx) in
  let out := out ++ [byte_of_Z (tx_kind tx)] in
  let out := out ++ u64_le (tx_nonce tx) in
  let out := encode_compact_size (len (inputs tx)) out in
  let out := foldl marshal_input out (inputs tx) in
  let out := encode_compact_size (len (outputs tx)) out in
  let out := foldl marshal_output out (outputs tx) in
  let out := out ++ u32_le (locktime tx) in
  core ← da_core_fields_bytes tx;
  let out := out ++ core in
  let out := encode_compact_size (len (witness tx)) out in
  let out := foldl marshal_witness_item out (witness tx) in
  let out := encode_compact_size (len (da_payload tx)) out in
  Ok (out ++ da_payload tx).
