(* ===== verification/TxCodec.v ===== *)
(** * The transaction codec

    [parse_tx] against [marshal_tx].  Every parser of [TxWire.v] is proved to
    decode exactly the encodings of the valid values of its type
    ([decodes], see [WireRead.v]); the encodings concatenate to [marshal_tx]. *)

From S2P Require Import Prelude Bytes Errors Constants Crypto WireRead CompactSize TxWire.

(** ** Valid values *)

Definition input_valid (i : TxInput) : Prop :=
  len (prev_txid i) = 32 ∧ is_u 32 (prev_vout i)
  ∧ len (script_sig i) ≤ MAX_SCRIPT_SIG_BYTES ∧ is_u 32 (sequence i).

Definition output_valid (o : TxOutput) : Prop :=
  is_u 64 (value o) ∧ is_u 16 (covenant_type o)
  ∧ len (covenant_data o) ≤ MAX_COVENANT_DATA_PER_OUTPUT.

(** ** Encodings *)

Definition enc_input (i : TxInput) : bytes :=
  prev_txid i ++ u32_le (prev_vout i) ++ compact_size (len (script_sig i))
  ++ script_sig i ++ u32_le (sequence i).

Definition enc_output (o : TxOutput) : bytes :=
  u64_le (value o) ++ u16_le (covenant_type o) ++ compact_size (len (covenant_data o))
  ++ covenant_data o.

Ltac tx_proj :=
  cbn [prev_txid prev_vout script_sig sequence value covenant_type covenant_data
       suite_id pubkey signature commit_da_id chunk_count retl_domain_id batch_number
       tx_data_root state_root withdrawals_root batch_sig_suite batch_sig
       chunk_da_id chunk_index chunk_hash f_retl_domain_id f_batch_number
       f_tx_data_root f_state_root f_withdrawals_root fst snd].
Ltac tx_consts :=
  unfold MAX_SCRIPT_SIG_BYTES, MAX_COVENANT_DATA_PER_OUTPUT, MAX_ANCHOR_PAYLOAD_SIZE,
    MAX_TX_INPUTS, MAX_TX_OUTPUTS, MAX_DA_MANIFEST_BYTES_PER_TX, MAX_WITNESS_ITEMS,
    CHUNK_BYTES, usize_max, u64_max in *.

#[export] Instance read_32_decodes : decodes read_32 id (λ w, len w = 32).
Proof. apply read_bytes_decodes; lia. Qed.

#[export] Instance parse_tx_input_decodes : decodes parse_tx_input enc_input input_valid.
Proof.
  intros r i r' Hr. unfold parse_tx_input. split.
  - intros H. dec_fwd.
    unfold input_valid, enc_input; tx_proj. split; [auto with lia|].
    dec_close.
  - unfold enc_input, input_valid. destruct i as [i1 i2 i3 i4]. tx_proj.
    intros ((? & ? & ? & ?) & Hp & ->). prefix_split Hp. tx_consts.
    dec_run i1; [|done]. dec_run i2; [|done]. run_size (len i3). pass_guard.
    dec_run i3; [|done]. dec_run i4; [|done]. dec_done.
Qed.

#[export] Instance parse_tx_output_decodes : decodes parse_tx_output enc_output output_valid.
Proof.
  intros r o r' Hr. unfold parse_tx_output. split.
  - intros H. dec_fwd. unfold output_valid, enc_output; tx_proj. split; [auto with lia|].
    dec_close.
  - unfold enc_output, output_valid. destruct o as [o1 o2 o3]. tx_proj.
    intros ((? & ? & ?) & Hp & ->). prefix_split Hp.
    tx_consts.
    dec_run o1; [|done]. dec_run o2; [|done]. run_size (len o3). pass_guard. pass_guard.
    dec_run o3; [|done]. dec_done.
Qed.

#[export] Instance parse_tx_inputs_decodes :
  decodes parse_tx_inputs (enc_list enc_input)
    (λ l, len l ≤ MAX_TX_INPUTS ∧ Forall input_valid l).
Proof. by apply counted_list_decodes; [apply _|]. Qed.

#[export] Instance parse_tx_outputs_decodes :
  decodes parse_tx_outputs (enc_list enc_output)
    (λ l, len l ≤ MAX_TX_OUTPUTS ∧ Forall output_valid l).
Proof. by apply counted_list_decodes; [apply _|]. Qed.

(** *** Prefix *)

Definition prefix_valid (p : Z * Z * Z) : Prop :=
  p.1.1 = TX_WIRE_VERSION ∧ 0 ≤ p.1.2 ≤ 2 ∧ is_u 64 p.2.
Definition enc_prefix (p : Z * Z * Z) : bytes :=
  u32_le p.1.1 ++ le_encode 1 p.1.2 ++ u64_le p.2.

#[export] Instance parse_tx_prefix_decodes : decodes parse_tx_prefix enc_prefix prefix_valid.
Proof.
  intros r [[v k] n] r' Hr. unfold parse_tx_prefix, prefix_valid, enc_prefix; tx_proj. split.
  - intros H. dec_fwd. unfold is_u in *. split; [lia|]. dec_close.
  - intros ((-> & ? & ?) & Hp & ->). prefix_split Hp.
    dec_run TX_WIRE_VERSION; [|done]. pass_guard. dec_run k; [|unfold is_u; lia]. pass_guard.
    dec_run n; [|done]. dec_done.
Qed.

(** *** Data-availability cores *)

Definition enc_commit (c : DaCommitCore) : bytes :=
  commit_da_id c ++ u16_le (chunk_count c) ++ retl_domain_id c ++ u64_le (batch_number c)
  ++ tx_data_root c ++ state_root c ++ withdrawals_root c
  ++ le_encode 1 (batch_sig_suite c) ++ compact_size (len (batch_sig c)) ++ batch_sig c.

Definition commit_valid (c : DaCommitCore) : Prop :=
  len (commit_da_id c) = 32 ∧ 1 ≤ chunk_count c ≤ MAX_DA_CHUNK_COUNT
  ∧ len (retl_domain_id c) = 32 ∧ is_u 64 (batch_number c) ∧ len (tx_data_root c) = 32
  ∧ len (state_root c) = 32 ∧ len (withdrawals_root c) = 32 ∧ is_u 8 (batch_sig_suite c)
  ∧ len (batch_sig c) ≤ MAX_DA_MANIFEST_BYTES_PER_TX.

Definition enc_chunk (c : DaChunkCore) : bytes :=
  chunk_da_id c ++ u16_le (chunk_index c) ++ chunk_hash c.

Definition chunk_valid (c : DaChunkCore) : Prop :=
  len (chunk_da_id c) = 32 ∧ 0 ≤ chunk_index c < MAX_DA_CHUNK_COUNT
  ∧ len (chunk_hash c) = 32.

#[export] Instance read_da_commit_chunk_count_decodes :
  decodes read_da_commit_chunk_count u16_le (λ n, 1 ≤ n ≤ MAX_DA_CHUNK_COUNT).
Proof.
  intros r n r' Hr. unfold read_da_commit_chunk_count. split.
  - intros H. dec_fwd. unfold is_u in *. split; [lia|]. dec_close.
  - intros (? & Hp & ->). assert (MAX_DA_CHUNK_COUNT = 61) as E by done.
    dec_run n; [|unfold is_u; lia]. pass_guard. dec_done.
Qed.

Definition enc_fields (f : DaCommitFields) : bytes :=
  f_retl_domain_id f ++ u64_le (f_batch_number f) ++ f_tx_data_root f ++ f_state_root f
  ++ f_withdrawals_root f.
Definition fields_valid (f : DaCommitFields) : Prop :=
  len (f_retl_domain_id f) = 32 ∧ is_u 64 (f_batch_number f) ∧ len (f_tx_data_root f) = 32
  ∧ len (f_state_root f) = 32 ∧ len (f_withdrawals_root f) = 32.

#[export] Instance read_da_commit_fields_decodes :
  decodes read_da_commit_fields enc_fields fields_valid.
Proof.
  intros r f r' Hr. unfold read_da_commit_fields, enc_fields, fields_valid. split.
  - intros H. dec_fwd. tx_proj. split; [auto|]. dec_close.
  - destruct f as [f1 f2 f3 f4 f5]; tx_proj. intros ((? & ? & ? & ? & ?) & Hp & ->).
    prefix_split Hp. dec_run f1; [|done]. dec_run f2; [|done]. dec_run f3; [|done].
    dec_run f4; [|done]. dec_run f5; [|done]. dec_done.
Qed.

#[export] Instance read_da_batch_sig_decodes :
  decodes read_da_batch_sig (λ s, compact_size (len s) ++ s)
    (λ s, len s ≤ MAX_DA_MANIFEST_BYTES_PER_TX).
Proof.
  intros r s r' Hr. unfold read_da_batch_sig. split.
  - intros H. dec_fwd. dec_last (read_bytes x). split; [lia|]. dec_close.
  - intros (? & Hp & ->). prefix_split Hp. tx_consts. run_size (len s). pass_guard.
    rewrite (decodes_run (read_bytes (len s)) _ s); [dec_done|auto with rubin..].
Qed.

#[export] Instance parse_da_commit_core_decodes :
  decodes parse_da_commit_core enc_commit commit_valid.
Proof.
  intros r c r' Hr. unfold parse_da_commit_core, enc_commit, commit_valid. split.
  - intros H. dec_fwd. unfold fields_valid, enc_fields in *. destruct_and?; tx_proj.
    split; [auto 12|]. dec_close.
  - destruct c as [c1 c2 c3 c4 c5 c6 c7 c8 c9]; tx_proj.
    intros ((? & ? & ? & ? & ? & ? & ? & ? & ?) & Hp & ->).
    assert (enc_fields (mkDaCommitFields c3 c4 c5 c6 c7) = c3 ++ u64_le c4 ++ c5 ++ c6 ++ c7)
      as He by done.
    rewrite (app_assoc c6 c7), (app_assoc c5), (app_assoc (u64_le c4)), (app_assoc c3), <- He
      in Hp |- *.
    prefix_split Hp. dec_run c1; [|done]. dec_run c2; [|done].
    dec_run (mkDaCommitFields c3 c4 c5 c6 c7); [|unfold fields_valid; tx_proj; auto].
    tx_proj. dec_run c8; [|done].
    rewrite (decodes_run read_da_batch_sig _ c9);
      [run_bind; dec_done|auto with rubin..|by apply prefix_app_advance; auto with rubin].
Qed.

#[export] Instance parse_da_chunk_core_decodes :
  decodes parse_da_chunk_core enc_chunk chunk_valid.
Proof.
  intros r c r' Hr. unfold parse_da_chunk_core, enc_chunk, chunk_valid. split.
  - intros H. dec_fwd. unfold is_u in *. tx_proj. split; [auto with lia|]. dec_close.
  - destruct c as [c1 c2 c3]; tx_proj. intros ((? & ? & ?) & Hp & ->). prefix_split Hp.
    assert (MAX_DA_CHUNK_COUNT = 61) as E by done.
    dec_run c1; [|done]. dec_run c2; [|unfold is_u; lia]. pass_guard.
    dec_run c3; [|done]. dec_done.
Qed.

(** The core is present exactly when the kind asks for it. *)
Definition cores_valid (k : Z) (c : option DaCommitCore * option DaChunkCore) : Prop :=
  match c with
  | (Some c, None) => k = 1 ∧ commit_valid c
  | (None, Some c) => k = 2 ∧ chunk_valid c
  | (None, None) => k ≠ 1 ∧ k ≠ 2
  | _ => False
  end.
Definition enc_cores (c : option DaCommitCore * option DaChunkCore) : bytes :=
  from_option enc_commit [] c.1 ++ from_option enc_chunk [] c.2.

#[export] Instance parse_da_core_decodes k :
  decodes (parse_da_core k) enc_cores (cores_valid k).
Proof.
  intros r c r' Hr. unfold parse_da_core, enc_cores. split.
  - intros H. repeat case_match; dec_fwd; unfold cores_valid; cbn; rewrite ?app_nil_r, ?advance_0;
      split_and?; auto using prefix_nil with lia.
  - intros (Hv & Hp & ->). destruct c as [[c|] [d|]]; simpl in *; try done;
      rewrite ?app_nil_r in *; destruct Hv as [? Hv]; subst; simpl.
    + by rewrite (decodes_run parse_da_commit_core r c).
    + by rewrite (decodes_run parse_da_chunk_core r d).
    + rewrite advance_0. case_match; [lia|]. case_match; [lia|done].
Qed.

(** *** Witness items *)

(** The accepted forms of a sentinel item: empty, an HTLC refund marker, or an
    HTLC claim carrying its preimage. *)
Definition sentinel_shape (pk sig : bytes) : Prop :=
  (pk = [] ∧ sig = [])
  ∨ (len pk = 32 ∧ sig = [x01])
  ∨ (len pk = 32 ∧ ∃ pre, sig = [x00] ++ u16_le (len pre) ++ pre
       ∧ MIN_HTLC_PREIMAGE_BYTES ≤ len pre ≤ MAX_HTLC_PREIMAGE_BYTES).

(** A Simplicity envelope: version byte, program, witness, and the trailing
    sighash byte. *)
Definition envelope_shape (sig : bytes) : Prop :=
  ∃ prog wit t, sig = (le_encode 1 1 ++ compact_size (len prog) ++ prog
                       ++ compact_size (len wit) ++ wit) ++ [t]
    ∧ len prog ≤ MAX_SIMPLICITY_PROGRAM_BYTES
    ∧ len sig - 1 ≤ MAX_SIMPLICITY_ENVELOPE_BYTES.

Definition witness_shape (w : WitnessItem) : Prop :=
  (suite_id w = SUITE_ID_SENTINEL ∧ sentinel_shape (pubkey w) (signature w))
  ∨ (suite_id w = SUITE_ID_ML_DSA_87 ∧ len (pubkey w) = ML_DSA_87_PUBKEY_BYTES
     ∧ len (signature w) = ML_DSA_87_SIG_BYTES + 1)
  ∨ (suite_id w = SUITE_ID_SIMPLICITY_ENVELOPE ∧ pubkey w = []
     ∧ envelope_shape (signature w))
  ∨ (¬ (suite_id w ∈ [SUITE_ID_SENTINEL; SUITE_ID_ML_DSA_87; SUITE_ID_SIMPLICITY_ENVELOPE])
     ∧ signature w ≠ []).

Lemma slice_1_3 (x : byte) l : slice 1 3 (x :: l) = take 2 l.
Proof. done. Qed.

Lemma htlc_claim_shape sig :
  is_canonical_htlc_claim_signature sig = true ↔
  ∃ pre, sig = [x00] ++ u16_le (len pre) ++ pre
    ∧ MIN_HTLC_PREIMAGE_BYTES ≤ len pre ≤ MAX_HTLC_PREIMAGE_BYTES.
Proof.
  unfold is_canonical_htlc_claim_signature. split.
  - case_bool_decide as Hh; [|done]. apply head_Some_cons in Hh as [k ->]. simpl negb; cbv iota.
    rewrite slice_1_3. intros H. case_match eqn:Hl; [done|]. simpl length in *.
    assert (length (take 2 k) = 2%nat) as Ht by (rewrite length_take; lia).
    exists (drop 2 k). rewrite length_drop.
    assert (len k - 2 = le_decode (take 2 k)) as E by lia.
    replace (Z.of_nat (length k - 2)) with (le_decode (take 2 k)) by lia.
    pose proof (le_encode_decode (take 2 k)) as He. rewrite Ht in He.
    unfold u16_le. rewrite He. simpl app. rewrite take_drop. split; [done|lia].
  - intros (pre & -> & H). unfold MIN_HTLC_PREIMAGE_BYTES, MAX_HTLC_PREIMAGE_BYTES in *.
    rewrite bool_decide_eq_true_2 by done. simpl negb; cbv iota.
    change ([x00] ++ u16_le (len pre) ++ pre) with (x00 :: u16_le (len pre) ++ pre).
    rewrite slice_1_3. pose proof (le_encode_length 2 (len pre)) as Hl. fold (u16_le (len pre)) in Hl.
    rewrite <- Hl, take_app_length. rewrite le_decode_u16 by (unfold is_u; lia).
    cbn [length]. rewrite length_app, Hl. case_match; lia.
Qed.

Lemma validate_sentinel_witness_Ok pk sig :
  validate_sentinel_witness (len pk) sig = Ok () ↔ sentinel_shape pk sig.
Proof.
  unfold validate_sentinel_witness, is_canonical_sentinel_witness, sentinel_shape.
  rewrite <- htlc_claim_shape. split.
  - intros H. repeat case_match; try done.
    + left. split; apply len_0_nil; lia.
    + right; left. case_bool_decide as Hh; [|done]. apply head_Some_cons in Hh as [k ->].
      simpl length in *. split; [lia|]. f_equal. apply len_0_nil. lia.
    + right; right. split; [lia|done].
  - intros [[-> ->]|[[Hpk ->]|[Hpk Hc]]]; [done| |].
    + rewrite Hpk. done.
    + rewrite Hc, Hpk. apply htlc_claim_shape in Hc as (pre & -> & H).
      unfold MIN_HTLC_PREIMAGE_BYTES in *. cbn [length app].
      rewrite length_app. repeat case_match; try done; lia.
Qed.

Lemma validate_simplicity_envelope_signature_Ok sig : len sig ≤ isize_max →
  validate_simplicity_envelope_signature sig = Ok () ↔ envelope_shape sig.
Proof.
  intros Hs. unfold validate_simplicity_envelope_signature, envelope_shape. split.
  - intros H. case_match eqn:Hl; [done|].
    destruct (len_S_snoc sig) as (env & t & ->); [lia|].
    rewrite slice_but_last in H. rewrite length_app in Hs |- *. simpl length in *.
    assert (reader_wf (reader_new env)) by (apply reader_new_wf; lia).
    dec_fwd. rewrite rest_new in *.
    match goal with
    | Hp : le_encode 1 ?v ++ compact_size (len ?p) ++ ?p ++ _ ++ ?w `prefix_of` _,
      Hb : negb (?v =? 1) = false |- _ =>
        exists p, w, t; replace v with 1 in * by lia;
        apply prefix_length_eq in Hp; [|unfold offset, advance, reader_new in *; cbn [rd_off] in *; lia];
        rewrite Hp
    end. split; [done|lia].
  - intros (p & w & t & -> & Hp & Hl).
    remember (le_encode 1 1 ++ compact_size (len p) ++ p ++ compact_size (len w) ++ w)
      as env eqn:Henv.
    rewrite slice_but_last. rewrite length_app in Hs, Hl |- *. simpl length in *.
    assert (reader_wf (reader_new env)) by (apply reader_new_wf; lia).
    assert (len p + len w < len env) by (rewrite Henv, !length_app; simpl; lia).
    assert (env `prefix_of` rest (reader_new env)) as Hpre by done.
    rewrite Henv in Hpre at 1. prefix_split Hpre.
    unfold MAX_SIMPLICITY_PROGRAM_BYTES, MAX_SIMPLICITY_ENVELOPE_BYTES, isize_max in *.
    do 2 (case_match; [lia|]).
    dec_run 1; [|done]. pass_guard. run_size (len p). pass_guard. dec_run p; [|done].
    run_size (len w). pass_guard. dec_run w; [|done].
    rewrite ?advance_app, <- ?app_assoc, <- Henv. unfold offset. simpl rd_off.
    by rewrite Z.add_0_l, Z.eqb_refl.
Qed.

Lemma validate_witness_item_ordered_Ok w wb : len (signature w) ≤ isize_max →
  validate_witness_item_ordered (suite_id w) (len (pubkey w)) (len (signature w)) wb
    (signature w) = Ok () ↔ witness_shape w ∧ wb ≤ MAX_WITNESS_BYTES_PER_TX.
Proof.
  destruct w as [s pk sig]; tx_proj. intros Hs.
  unfold validate_witness_item_ordered, validate_witness_item_shape, witness_shape; tx_proj.
  rewrite <- validate_sentinel_witness_Ok, <- validate_simplicity_envelope_signature_Ok by done.
  assert (SUITE_ID_SENTINEL = 0 ∧ SUITE_ID_ML_DSA_87 = 1 ∧ SUITE_ID_SIMPLICITY_ENVELOPE = 240)
    as (-> & -> & ->) by done.
  rewrite !elem_of_cons, elem_of_nil.
  assert (pk = [] ↔ len pk = 0) as -> by (split; [by intros ->|apply len_0_nil]).
  assert (sig = [] ↔ len sig = 0) as -> by (split; [by intros ->|apply len_0_nil]).
  unfold ML_DSA_87_PUBKEY_BYTES, ML_DSA_87_SIG_BYTES.
  assert (len sig = 0 → validate_simplicity_envelope_signature sig ≠ Ok ()) as Hne.
  { intros ->%len_0_nil. done. }
  split.
  - intros H. inv_res. split; [|lia]. destruct (s =? 1) eqn:H1; repeat case_match; try done;
      first [ left; split; [lia|done] | right; left; split_and!; lia
            | right; right; left; split_and!; [lia|lia|done]
            | right; right; right; split; lia ].
  - intros [H Hwb]. destruct_or!; destruct_and!; repeat case_match;
      first [assumption|reflexivity|lia|exfalso; apply Hne; [lia|assumption]].
Qed.

(** The encoding of an item counts towards the witness bytes of the
    transaction; [witness_bytes] is the number of bytes read so far. *)
Definition enc_witness (w : WitnessItem) : bytes :=
  le_encode 1 (suite_id w) ++ compact_size (len (pubkey w)) ++ pubkey w
  ++ compact_size (len (signature w)) ++ signature w.
#[global] Arguments enc_witness : simpl never.
Definition witness_valid (w : WitnessItem) : Prop := is_u 8 (suite_id w) ∧ witness_shape w.

Lemma prefix_is_u64 r (w : bytes) : reader_wf r → w `prefix_of` rest r →
  is_u 64 (len w) ∧ len w ≤ isize_max.
Proof.
  intros Hr Hp%prefix_length. pose proof (rest_length r Hr). destruct Hr.
  unfold is_u, isize_max in *. lia.
Qed.

#[export] Instance read_witness_bytes_decodes wb m :
  decodes (read_witness_bytes wb m) (λ x, compact_size (len x.1.2) ++ x.1.2)
    (λ x, x.1.1 = len x.1.2 ∧ x.2 = wb + len (compact_size (len x.1.2)) + len x.1.2).
Proof.
  intros r [[l b] wb'] r' Hr. unfold read_witness_bytes, checked_usize_len; tx_proj. split.
  - intros H. apply bind_Ok in H as ([[v n] r1] & Hx & H); cbn beta iota in H.
    dec_last read_compact_size. inv_res.
    dec_last (read_bytes l). split; [done|]. dec_close.
  - intros ((-> & ->) & Hp & ->). pose proof Hp as Hp'. prefix_split Hp'.
    assert (reader_wf (advance r (len (compact_size (len b))))) as Hw by auto with rubin.
    destruct (prefix_is_u64 _ _ Hw Hp') as [Hu _].
    unfold usize_max, u64_max, is_u in *. run_size (len b).
    case_match eqn:Hg; [lia|]. run_bind. dec_run b; [|done]. by rewrite advance_app.
Qed.

(** [parse_witness_item] with [wb] witness bytes before it. *)
#[export] Instance parse_witness_item_decodes wb :
  decodes (parse_witness_item wb) (λ x, enc_witness x.1)
    (λ x, witness_valid x.1 ∧ x.2 = wb + len (enc_witness x.1)
          ∧ x.2 ≤ MAX_WITNESS_BYTES_PER_TX).
Proof.
  intros r [w wb'] r' Hr. unfold parse_witness_item, enc_witness, witness_valid; tx_proj. split.
  - intros H. dec_fwd. tx_proj.
    destruct (prefix_is_u64 _ _ Hr Hp) as [_ Hl]. rewrite !length_app, le_encode_length in Hl.
    destruct x0. apply (validate_witness_item_ordered_Ok (mkWitnessItem x y0 y1)) in Hx
      as [Hs Hm]; [|tx_proj; lia].
    rewrite !length_app, le_encode_length.
    split; [split_and!; [done..|lia|done]|]. rewrite <- !length_app. dec_close.
  - destruct w as [s pk sig]; tx_proj. intros (([? Hsh] & -> & Hm) & Hp & ->).
    destruct (prefix_is_u64 _ _ Hr Hp) as [_ Hl]. rewrite !length_app, le_encode_length in Hl.
    prefix_split Hp. dec_run s; [|done].
    dec_run (len pk, pk, wb + 1 + len (compact_size (len pk)) + len pk); [|done].
    dec_run (len sig, sig, wb + 1 + len (compact_size (len pk)) + len pk
      + len (compact_size (len sig)) + len sig); [|done].
    rewrite !length_app, le_encode_length in Hm |- *.
    assert (len sig ≤ isize_max) as Hsl by lia.
    rewrite (proj2 (validate_witness_item_ordered_Ok (mkWitnessItem s pk sig) _ Hsl));
      [|tx_proj; split; [done|lia]].
    run_bind. do 3 f_equal. lia.
Qed.

(** The items are read with a running count of the witness bytes, checked
    after each; the bound on the last count is the bound on all. *)
#[export] Instance parse_witness_items_decodes n wb :
  decodes (parse_witness_items n wb) (concat_map enc_witness)
    (λ ws, length ws = n ∧ Forall witness_valid ws
           ∧ (ws = [] ∨ wb + len (concat_map enc_witness ws) ≤ MAX_WITNESS_BYTES_PER_TX)).
Proof.
  revert wb; induction n as [|n IH]; intros wb r ws r' Hr; simpl.
  - split.
    + intros H. inv_res. rewrite advance_0. auto using prefix_nil.
    + intros ((Hl & _ & _) & _ & ->). destruct ws; [|done]. simpl. by rewrite advance_0.
  - split.
    + intros H. dec_fwd. subst. rewrite concat_map_cons.
      split; [split_and!; [done|by constructor|right]|dec_close].
      rewrite length_app. destruct_or!; subst; simpl in *; lia.
    + intros ((Hl & Hv & Hb) & Hp & ->). destruct ws as [|w ws]; [discriminate Hl|].
      injection Hl as Hl. apply Forall_cons_1 in Hv as [Hw Hws]. destruct Hb as [|Hb]; [done|].
      rewrite concat_map_cons in *. rewrite length_app in Hb. prefix_split Hp.
      dec_run (w, wb + len (enc_witness w)); [|tx_proj; split_and!; [done..|lia]].
      dec_run ws; [|split_and!; [done..|right; lia]]. dec_done.
Qed.

(** The witness section of a transaction, with its own length bound. *)
Definition witnesses_valid (ws : list WitnessItem) : Prop :=
  len ws ≤ MAX_WITNESS_ITEMS ∧ Forall witness_valid ws
  ∧ len (enc_list enc_witness ws) ≤ MAX_WITNESS_BYTES_PER_TX.

#[export] Instance parse_witnesses_decodes :
  decodes parse_witnesses (enc_list enc_witness) witnesses_valid.
Proof.
  intros r ws r' Hr. unfold parse_witnesses, witnesses_valid, enc_list. split.
  - intros H. dec_fwd.
    dec_last (parse_witness_items (Z.to_nat x) (len (compact_size x))). unfold is_u in *.
    assert (x = len ws) as -> by lia.
    split; [split_and!; [lia|done|]|dec_close].
    rewrite length_app. pose proof (compact_size_bound (len ws)). unfold MAX_WITNESS_BYTES_PER_TX in *.
    destruct_or!; subst; [simpl|]; lia.
  - intros ((Hl & Hv & Hb) & Hp & ->). prefix_split Hp. unfold MAX_WITNESS_ITEMS in *.
    run_size (len ws). pass_guard. rewrite Nat2Z.id.
    rewrite (decodes_run (parse_witness_items _ _) _ ws); [dec_done|auto with rubin| |done].
    rewrite length_app in Hb. split_and!; [done..|right; lia].
Qed.

(** *** Payload *)

Definition payload_valid (k : Z) (p : bytes) : Prop :=
  (k = 0 ∧ p = []) ∨ (k = 1 ∧ len p ≤ MAX_DA_MANIFEST_BYTES_PER_TX)
  ∨ (k = 2 ∧ 1 ≤ len p ≤ CHUNK_BYTES).
Definition enc_payload (p : bytes) : bytes := compact_size (len p) ++ p.

#[export] Instance parse_da_payload_decodes k :
  decodes (parse_da_payload k) enc_payload (payload_valid k).
Proof.
  intros r p r' Hr. unfold parse_da_payload, enc_payload, payload_valid,
    parse_standard_da_payload, parse_da_commit_payload, parse_da_chunk_payload. split.
  - intros H. apply bind_Ok in H as ([[n m] r1] & Hx & H); cbn beta iota in H.
    dec_last read_compact_size. unfold is_u in *.
    repeat case_match; try done; inv_res.
    + replace n with (len (@nil byte)) in * by (simpl; lia). rewrite app_nil_r. auto with lia.
    + dec_last (read_bytes n). subst. split; [right; left; lia|]. dec_close.
    + dec_last (read_bytes n). subst. split; [right; right; lia|]. dec_close.
  - intros (Hv & Hp & ->). prefix_split Hp.
    assert (len p ≤ CHUNK_BYTES) by (unfold CHUNK_BYTES, MAX_DA_MANIFEST_BYTES_PER_TX in *;
      destruct_or!; destruct_and!; subst; simpl; lia). tx_consts.
    run_size (len p). destruct Hv as [[-> ->]|[[-> ?]|[-> ?]]]; simpl Z.eqb; cbv iota.
    + dec_done.
    + pass_guard. rewrite (decodes_run (read_bytes (len p)) _ p); [dec_done|auto with rubin..].
    + pass_guard. rewrite (decodes_run (read_bytes (len p)) _ p); [dec_done|auto with rubin..].
Qed.

(** ** Whole transactions *)

Definition tx_valid (tx : Tx) : Prop :=
  prefix_valid (version tx, tx_kind tx, tx_nonce tx)
  ∧ (len (inputs tx) ≤ MAX_TX_INPUTS ∧ Forall input_valid (inputs tx))
  ∧ (len (outputs tx) ≤ MAX_TX_OUTPUTS ∧ Forall output_valid (outputs tx))
  ∧ is_u 32 (locktime tx)
  ∧ cores_valid (tx_kind tx) (da_commit_core tx, da_chunk_core tx)
  ∧ witnesses_valid (witness tx) ∧ payload_valid (tx_kind tx) (da_payload tx).

(** The part of a transaction its txid commits to, and the whole of it. *)
Definition enc_tx_core (tx : Tx) : bytes :=
  enc_prefix (version tx, tx_kind tx, tx_nonce tx) ++ enc_list enc_input (inputs tx)
  ++ enc_list enc_output (outputs tx) ++ u32_le (locktime tx)
  ++ enc_cores (da_commit_core tx, da_chunk_core tx).
Definition enc_tx (tx : Tx) : bytes :=
  enc_tx_core tx ++ enc_list enc_witness (witness tx) ++ enc_payload (da_payload tx).

Lemma parse_tx_without_hashes_Ok b tx ce te : len b ≤ isize_max →
  parse_tx_without_hashes b = Ok (tx, ce, te) ↔
  tx_valid tx ∧ enc_tx tx `prefix_of` b ∧ ce = len (enc_tx_core tx) ∧ te = len (enc_tx tx).
Proof.
  intros Hb. pose proof (reader_new_wf b Hb) as Hr.
  unfold parse_tx_without_hashes, tx_valid, enc_tx, enc_tx_core. split.
  - intros H. dec_fwd. rewrite rest_new in *.
    cbn [version tx_kind tx_nonce inputs outputs locktime da_commit_core da_chunk_core witness
         da_payload]. rewrite <- ?app_assoc in *.
    split; [auto 12|]. unfold offset, advance. simpl rd_off. rewrite !Z.add_0_l. auto.
  - destruct tx as [v k n ins outs lt c d ws p].
    cbn [version tx_kind tx_nonce inputs outputs locktime da_commit_core da_chunk_core witness
         da_payload].
    intros ((? & ? & ? & ? & ? & ? & ?) & Hp & -> & ->).
    rewrite <- (rest_new b) in Hp. rewrite <- ?app_assoc in Hp. prefix_split Hp.
    dec_run (v, k, n); [|done]. dec_run ins; [|done]. dec_run outs; [|done].
    dec_run lt; [|done]. dec_run (c, d); [|done]. dec_run ws; [|done]. dec_run p; [|done].
    rewrite ?advance_app, <- ?app_assoc. unfold offset, advance. simpl rd_off.
    by rewrite !Z.add_0_l.
Qed.

(** *** [marshal_tx] *)

Lemma foldl_app_concat {A} (f : bytes → A → bytes) enc (l : list A) out :
  (∀ o x, x ∈ l → f o x = o ++ enc x) → foldl f out l = out ++ concat_map enc l.
Proof.
  revert out; induction l as [|x l IH]; intros out Hf; cbn [foldl]; [by rewrite app_nil_r|].
  rewrite Hf, IH, concat_map_cons, <- app_assoc; [done| |by left].
  intros; apply Hf; by right.
Qed.

Lemma marshal_input_enc out i : marshal_input out i = out ++ enc_input i.
Proof.
  unfold marshal_input, enc_input. rewrite encode_compact_size_app. by rewrite <- !app_assoc.
Qed.
Lemma marshal_output_enc out o : marshal_output out o = out ++ enc_output o.
Proof.
  unfold marshal_output, enc_output. rewrite encode_compact_size_app. by rewrite <- !app_assoc.
Qed.
Lemma marshal_witness_item_enc out w : marshal_witness_item out w = out ++ enc_witness w.
Proof.
  unfold marshal_witness_item, enc_witness. rewrite !encode_compact_size_app, <- le_encode_1'.
  by rewrite <- !app_assoc.
Qed.

Lemma da_core_fields_bytes_enc tx :
  cores_valid (tx_kind tx) (da_commit_core tx, da_chunk_core tx) → 0 ≤ tx_kind tx ≤ 2 →
  da_core_fields_bytes tx = Ok (enc_cores (da_commit_core tx, da_chunk_core tx)).
Proof.
  unfold da_core_fields_bytes, cores_valid, enc_cores. intros Hc Hk.
  destruct (da_commit_core tx) as [c|], (da_chunk_core tx) as [d|]; try done; simpl.
  - destruct Hc as [-> _]. simpl. rewrite encode_compact_size_app, app_nil_r, <- le_encode_1'.
    unfold enc_commit. by rewrite <- !app_assoc.
  - destruct Hc as [-> _]. simpl. unfold enc_chunk. by rewrite <- !app_assoc.
  - case_match; [done|]. lia.
Qed.

Lemma marshal_tx_enc tx : tx_valid tx → marshal_tx tx = Ok (enc_tx tx).
Proof.
  intros (Hpre & _ & _ & _ & Hc & _ & _). unfold prefix_valid in Hpre; tx_proj. simpl in Hpre.
  unfold marshal_tx. rewrite da_core_fields_bytes_enc by (done || lia). run_bind.
  do 3 (erewrite foldl_app_concat;
    [|intros; apply marshal_input_enc || apply marshal_output_enc || apply marshal_witness_item_enc]).
  rewrite !encode_compact_size_app, <- le_encode_1'.
  unfold enc_tx, enc_tx_core, enc_prefix, enc_list, enc_payload. tx_proj.
  by rewrite <- !app_assoc.
Qed.

(** ** Properties *)

Section properties.
Context `{HS : Sha3}.

Lemma parse_tx_Ok b tx txid wtxid n : len b ≤ isize_max →
  parse_tx b = Ok (tx, txid, wtxid, n) ↔
  tx_valid tx ∧ enc_tx tx `prefix_of` b ∧ txid = sha3_256 (enc_tx_core tx)
  ∧ wtxid = sha3_256 (enc_tx tx) ∧ n = len (enc_tx tx).
Proof.
  intros Hb. unfold parse_tx. rewrite bind_Ok.
  assert (∀ w, w `prefix_of` b → slice 0 (len w) b = w) as Hs.
  { intros w Hw%prefix_take_iff. unfold slice. by rewrite Z.sub_0_r, Nat2Z.id, drop_0. }
  assert (enc_tx_core tx `prefix_of` enc_tx tx) as Hc by (apply prefix_app_r; done).
  split.
  - intros ([[tx' ce] te] & Hx & Heq).
    apply parse_tx_without_hashes_Ok in Hx as (Hv & Hp & -> & ->); [|done]. inv_res.
    rewrite !Hs by (done || by etrans). auto.
  - intros (Hv & Hp & -> & -> & ->). exists (tx, len (enc_tx_core tx), len (enc_tx tx)).
    split; [by apply parse_tx_without_hashes_Ok|].
    by rewrite !Hs by (done || by etrans).
Qed.

(** A valid transaction is read back from its serialization: for every
    transaction within the wire limits [marshal_tx] succeeds, and [parse_tx]
    on the bytes it returns, whatever follows them, gives the transaction,
    the digest of its core, the digest of all its bytes and their number. *)
Theorem marshal_parse_tx tx suffix :
  tx_valid tx → len (enc_tx tx ++ suffix) ≤ isize_max →
  ∃ b, marshal_tx tx = Ok b ∧
    parse_tx (b ++ suffix) = Ok (tx, sha3_256 (enc_tx_core tx), sha3_256 b, len b).
Proof.
  intros Hv Hl. exists (enc_tx tx). split; [by apply marshal_tx_enc|].
  apply parse_tx_Ok; auto using prefix_app_r.
Qed.

(** C19: the wire format is not malleable: whatever [parse_tx] accepts is a
    transaction within the limits whose serialization by [marshal_tx] is
    exactly the bytes consumed, and the wtxid is the digest of these bytes. *)
Theorem parse_marshal_tx b tx txid wtxid n :
  len b ≤ isize_max → parse_tx b = Ok (tx, txid, wtxid, n) →
  tx_valid tx ∧ marshal_tx tx = Ok (slice 0 n b) ∧ wtxid = sha3_256 (slice 0 n b)
  ∧ 0 ≤ n ≤ len b.
Proof.
  intros Hb Hp. apply parse_tx_Ok in Hp as (Hv & Hpre & _ & -> & ->); [|done].
  assert (slice 0 (len (enc_tx tx)) b = enc_tx tx) as ->.
  { unfold slice. rewrite Z.sub_0_r, Nat2Z.id, drop_0. by apply prefix_take_iff. }
  apply prefix_length in Hpre. split_and!; auto using marshal_tx_enc; lia.
Qed.

(** Two transactions that differ at most in their witness and payload. *)
Definition same_core (t1 t2 : Tx) : Prop :=
  t1 = mkTx (version t2) (tx_kind t2) (tx_nonce t2) (inputs t2) (outputs t2) (locktime t2)
         (da_commit_core t2) (da_chunk_core t2) (witness t1) (da_payload t1).

Lemma enc_tx_core_inj t1 t2 : tx_valid t1 → tx_valid t2 →
  len (enc_tx_core t1) ≤ isize_max → enc_tx_core t1 = enc_tx_core t2 →
  t1 = mkTx (version t2) (tx_kind t2) (tx_nonce t2) (inputs t2) (outputs t2) (locktime t2)
         (da_commit_core t2) (da_chunk_core t2) (witness t1) (da_payload t1).
Proof.
  intros (? & ? & ? & ? & Hc1 & _) (? & ? & ? & ? & Hc2 & _) Hl He.
  unfold enc_tx_core in Hl, He.
  apply (decodes_prefix_free parse_tx_prefix) in He as [Hpre He]; [|done..]. rewrite length_app in Hl.
  apply (decodes_prefix_free parse_tx_inputs) in He as [Hi He]; [|done..|lia]. rewrite length_app in Hl.
  apply (decodes_prefix_free parse_tx_outputs) in He as [Ho He]; [|done..|lia]. rewrite length_app in Hl.
  apply (decodes_prefix_free read_u32_le) in He as [Hlt He]; [|done..|lia].
  rewrite length_app in Hl. injection Hpre as ? Hk ?.
  rewrite <- (app_nil_r (enc_cores _)), <- (app_nil_r (enc_cores (da_commit_core t2, _))) in He.
  rewrite Hk in Hc1.
  apply (decodes_prefix_free (parse_da_core (tx_kind t2))) in He as [Hc _];
    [|done..|rewrite app_nil_r; lia].
  injection Hc as ??. destruct t1, t2; simpl in *; congruence.
Qed.

(** A txid commits to everything but the witness and the payload, and a
    wtxid to the whole transaction: two accepted transactions with the same
    txid agree on every core field, and with the same wtxid they are equal,
    unless the two byte strings hashed are a collision of SHA3-256. *)
Theorem txid_binding b1 b2 t1 t2 txid1 txid2 wtxid1 wtxid2 n1 n2 :
  len b1 ≤ isize_max → len b2 ≤ isize_max →
  parse_tx b1 = Ok (t1, txid1, wtxid1, n1) → parse_tx b2 = Ok (t2, txid2, wtxid2, n2) →
  (txid1 = txid2 →
     same_core t1 t2 ∨ collision_in [enc_tx_core t1; enc_tx_core t2])
  ∧ (wtxid1 = wtxid2 → t1 = t2 ∨ collision_in [enc_tx t1; enc_tx t2]).
Proof.
  intros Hb1 Hb2 (Hv1 & Hp1 & -> & -> & _)%parse_tx_Ok (Hv2 & Hp2 & -> & -> & _)%parse_tx_Ok;
    [|done..].
  apply prefix_length in Hp1 as Hl1. apply prefix_length in Hp2 as Hl2.
  split; (intros He; eapply sha3_inj_in in He as [He|]; [| |by left|by right; left]; [left|by right]).
  - apply enc_tx_core_inj; auto. unfold enc_tx in Hl1. rewrite !length_app in Hl1. lia.
  - assert (parse_tx_without_hashes (enc_tx t1)
            = Ok (t1, len (enc_tx_core t1), len (enc_tx t1))) as H1
      by (apply parse_tx_without_hashes_Ok; [lia|done]).
    assert (parse_tx_without_hashes (enc_tx t1)
            = Ok (t2, len (enc_tx_core t2), len (enc_tx t2))) as H2
      by (apply parse_tx_without_hashes_Ok; [lia|by rewrite He]).
    congruence.
Qed.
End properties.

(** ** Witnesses *)

Definition demo_tx : Tx :=
  mkTx 1 0 5 [mkTxInput (replicate 32 x07) 1 [] 0] [mkTxOutput 90 0 (replicate 33 x01)] 0
    None None [mkWitnessItem 0 [] []] [].
Definition demo_bytes : bytes := match marshal_tx demo_tx with Ok b => b | Err _ => [] end.

Lemma demo_tx_valid : tx_valid demo_tx.
Proof.
  refine (proj1 (proj1 (parse_tx_without_hashes_Ok demo_bytes demo_tx 104 109 _) _));
    by vm_compute.
Qed.

Lemma marshal_parse_tx_witness :
  tx_valid demo_tx ∧ len (enc_tx demo_tx ++ [x09]) ≤ isize_max ∧
  ∃ b, marshal_tx demo_tx = Ok b ∧
    parse_tx (HS := toy_sha3) (b ++ [x09])
    = Ok (demo_tx, toy_digest (enc_tx_core demo_tx), toy_digest b, len b).
Proof.
  split; [exact demo_tx_valid|]. split; [by vm_compute|].
  apply (marshal_parse_tx (HS := toy_sha3) demo_tx [x09]); [exact demo_tx_valid|by vm_compute].
Defined.

Definition demo_txid : bytes := toy_digest (take 104 demo_bytes).
Definition demo_wtxid : bytes := toy_digest demo_bytes.

Lemma demo_parse : parse_tx (HS := toy_sha3) demo_bytes = Ok (demo_tx, demo_txid, demo_wtxid, 109).
Proof. by vm_compute. Qed.

Lemma parse_marshal_tx_witness :
  parse_tx (HS := toy_sha3) demo_bytes = Ok (demo_tx, demo_txid, demo_wtxid, 109) ∧
  marshal_tx demo_tx = Ok (slice 0 109 demo_bytes).
Proof.
  split; [exact demo_parse|].
  eapply (parse_marshal_tx (HS := toy_sha3) demo_bytes); [by vm_compute|exact demo_parse].
Defined.

Lemma txid_binding_witness :
  parse_tx (HS := toy_sha3) demo_bytes = Ok (demo_tx, demo_txid, demo_wtxid, 109) ∧
  (demo_wtxid = demo_wtxid → demo_tx = demo_tx ∨ collision_in (HS := toy_sha3) [enc_tx demo_tx; enc_tx demo_tx]).
Proof.
  split; [exact demo_parse|].
  eapply (txid_binding (HS := toy_sha3) demo_bytes demo_bytes);
    [by vm_compute|by vm_compute|exact demo_parse|exact demo_parse].
Defined.
