(* ===== verification/Block.v ===== *)
(** * Block headers ([block.rs])

    The 116-byte header: its parser, and the block hash. *)

From S2P Require Import Prelude Bytes Errors Constants Crypto WireRead.

(* rust: block.rs 4-12 BlockHeader *)
Record BlockHeader : Type := mkBlockHeader {
  bh_version : Z; bh_prev_block_hash : bytes; bh_merkle_root : bytes;
  bh_timestamp : Z; bh_target : bytes; bh_nonce : Z }.

#[export] Instance BlockHeader_eq_dec : EqDecision BlockHeader.
Proof. solve_decision. Defined.

(* rust: block.rs 14-14 BLOCK_HEADER_BYTES *)
Definition BLOCK_HEADER_BYTES : Z := 116.

(* rust: block.rs 16-42 parse_block_header_bytes *)
Definition parse_block_header_bytes (b : bytes) : res BlockHeader :=
  if negb (len b =? BLOCK_HEADER_BYTES)
  then tx_err TxErrParse "block header length mismatch" else
  let version := le_decode (slice 0 4 b) in
  let prev_block_hash := slice 4 36 b in
  let merkle_root := slice 36 68 b in
  let timestamp := le_decode (slice 68 76 b) in
  let target := slice 76 108 b in
  let nonce := le_decode (slice 108 116 b) in
  Ok (mkBlockHeader version prev_block_hash merkle_root timestamp target nonce).

(* rust: block.rs 44-52 block_hash *)
Definition block_hash `{HS : Sha3} (header_bytes : bytes) : res bytes :=
  if negb (len header_bytes =? BLOCK_HEADER_BYTES)
  then tx_err TxErrParse "block hash: invalid header length" else
  Ok (sha3_256 header_bytes).

(** ** Facts *)

Definition header_valid (h : BlockHeader) : Prop :=
  is_u 32 (bh_version h) ∧ len (bh_prev_block_hash h) = 32 ∧ len (bh_merkle_root h) = 32
  ∧ is_u 64 (bh_timestamp h) ∧ len (bh_target h) = 32 ∧ is_u 64 (bh_nonce h).

(** The header's canonical bytes. *)
Definition enc_header (h : BlockHeader) : bytes :=
  u32_le (bh_version h) ++ bh_prev_block_hash h ++ bh_merkle_root h
  ++ u64_le (bh_timestamp h) ++ bh_target h ++ u64_le (bh_nonce h).

Lemma enc_header_inj h1 h2 : header_valid h1 → header_valid h2 →
  enc_header h1 = enc_header h2 → h1 = h2.
Proof.
  destruct h1, h2. unfold header_valid, enc_header; cbn.
  intros (? & ? & ? & ? & ? & ?) (? & ? & ? & ? & ? & ?) He.
  apply app_inj_1 in He as [Hv He]; [|by unfold u32_le; rewrite !le_encode_length].
  apply app_inj_1 in He as [-> He]; [|lia]. apply app_inj_1 in He as [-> He]; [|lia].
  apply app_inj_1 in He as [Ht He]; [|by unfold u64_le; rewrite !le_encode_length].
  apply app_inj_1 in He as [-> Hn]; [|lia].
  apply (le_encode_inj 4) in Hv as ->; [|done..].
  apply (le_encode_inj 8) in Ht as ->; [|done..].
  by apply (le_encode_inj 8) in Hn as ->; [|done..].
Qed.

Lemma enc_header_length h : header_valid h → len (enc_header h) = BLOCK_HEADER_BYTES.
Proof.
  unfold header_valid, enc_header, u32_le, u64_le, BLOCK_HEADER_BYTES. intros.
  rewrite !length_app, !le_encode_length. lia.
Qed.

Ltac slice_scalar w n := apply (le_decode_u w n); [rewrite slice_length by lia; lia|lia].

Lemma parse_block_header_bytes_Ok b h : parse_block_header_bytes b = Ok h →
  header_valid h ∧ b = enc_header h.
Proof.
  unfold parse_block_header_bytes, BLOCK_HEADER_BYTES.
  intros H. inv_res. assert (len b = 116) as Hl by lia.
  unfold header_valid, enc_header; cbn [bh_version bh_prev_block_hash bh_merkle_root
    bh_timestamp bh_target bh_nonce].
  rewrite !slice_length by lia. split.
  - split_and!; [slice_scalar 32 4%nat|lia|lia|slice_scalar 64 8%nat|lia|slice_scalar 64 8%nat].
  - unfold u32_le, u64_le. rewrite !le_slice by lia.
    rewrite <- !slice_app_split by lia. by rewrite <- Hl, slice_all.
Qed.

Lemma parse_block_header_Ok b h :
  parse_block_header_bytes b = Ok h ↔ header_valid h ∧ b = enc_header h.
Proof.
  split; [apply parse_block_header_bytes_Ok|]. intros (Hv & ->).
  destruct (parse_block_header_bytes (enc_header h)) as [h'|e] eqn:Hp.
  - apply parse_block_header_bytes_Ok in Hp as [Hv' He]. f_equal.
    symmetry. by apply enc_header_inj.
  - unfold parse_block_header_bytes in Hp. by rewrite enc_header_length in Hp.
Qed.

(** The header parser accepts exactly the 116-byte strings, each as the
    one header of which they are the canonical bytes. *)
Theorem parse_block_header_canonical b h :
  parse_block_header_bytes b = Ok h ↔ header_valid h ∧ b = enc_header h.
Proof. apply parse_block_header_Ok. Qed.
