(* ===== verification/Merkle.v ===== *)
(** * Merkle trees ([merkle.rs])

    The level-by-level computation of the roots, its equality with the
    recursive tree whose left part is the largest full one, and the binding of
    a root to the list of ids. *)

From S2P Require Import Prelude Bytes Errors Crypto.

Section merkle.
  Context `{HS : Sha3}.

(** [sha3_256] of the one-byte tag and an id, or two nodes. *)
Definition leaf_hash (leaf_tag : byte) (id : bytes) : bytes := sha3_256 ([leaf_tag] ++ id).
Definition node_hash (node_tag : byte) (l r : bytes) : bytes :=
  sha3_256 ([node_tag] ++ l ++ r).

(** The inner loop: one pass over a level; an odd last node is carried
    forward unchanged. *)
(* rust: merkle.rs 44-57 merkle_root_tagged *)
Fixpoint next_level (node_tag : byte) (level : list bytes) : list bytes :=
  match level with
  | [] => []
  | [x] => [x]
  | x :: y :: level => node_hash node_tag x y :: next_level node_tag level
  end.

(** [while level.len() > 1]; the length of the level is enough fuel
    ([merkle_levels_singleton]). *)
(* rust: merkle.rs 43-59 merkle_root_tagged *)
Fixpoint merkle_levels (fuel : nat) (node_tag : byte) (level : list bytes) : list bytes :=
  match fuel with
  | O => level
  | S fuel =>
      if 1 <? len level then merkle_levels fuel node_tag (next_level node_tag level)
      else level
  end.

(* rust: merkle.rs 28-62 merkle_root_tagged *)
Definition merkle_root_tagged (ids : list bytes) (leaf_tag node_tag : byte) : res bytes :=
  if decide (ids = []) then tx_err TxErrParse "merkle: empty id list" else
  let level := leaf_hash leaf_tag <$> ids in
  let level := merkle_levels (length level) node_tag level in
  Ok (default (zeros 32) (head level)).

(* rust: merkle.rs 4-6 merkle_root_txids *)
Definition merkle_root_txids (txids : list bytes) : res bytes :=
  merkle_root_tagged txids x00 x01.

(* rust: merkle.rs 8-19 witness_merkle_root_wtxids *)
Definition witness_merkle_root_wtxids (wtxids : list bytes) : res bytes :=
  if decide (wtxids = []) then tx_err TxErrParse "merkle: empty wtxid list" else
  let ids := <[0%nat := zeros 32]> wtxids in
  merkle_root_tagged ids x02 x03.

(* rust: merkle.rs 21-26 witness_commitment_hash *)
Definition witness_commitment_hash (witness_root : bytes) : bytes :=
  let preimage := [] ++ ascii_bytes "RUBIN-WITNESS/" in
  let preimage := preimage ++ witness_root in
  sha3_256 preimage.

(** ** The loop on trees

    The tree the levels describe: [next_level] and [merkle_levels] commute
    with hashing. *)
Inductive mtree : Type :=
  | MLeaf (id : bytes)
  | MNode (l r : mtree).

Section tags.
Context (leaf_tag node_tag : byte).

Fixpoint mtree_hash (t : mtree) : bytes :=
  match t with
  | MLeaf id => leaf_hash leaf_tag id
  | MNode l r => node_hash node_tag (mtree_hash l) (mtree_hash r)
  end.

Fixpoint mtree_ids (t : mtree) : list bytes :=
  match t with
  | MLeaf id => [id]
  | MNode l r => mtree_ids l ++ mtree_ids r
  end.

Fixpoint trees_ids (ts : list mtree) : list bytes :=
  match ts with
  | [] => []
  | t :: ts => mtree_ids t ++ trees_ids ts
  end.

Fixpoint pair_trees (ts : list mtree) : list mtree :=
  match ts with
  | [] => []
  | [t] => [t]
  | t :: u :: ts => MNode t u :: pair_trees ts
  end.

(** The tree over a list of ids, and the strings hashed in a tree. *)
Fixpoint tree_levels (fuel : nat) (ts : list mtree) : list mtree :=
  match fuel with
  | O => ts
  | S fuel => if 1 <? len ts then tree_levels fuel (pair_trees ts) else ts
  end.
Fixpoint mtree_strings (t : mtree) : list bytes :=
  match t with
  | MLeaf id => [[leaf_tag] ++ id]
  | MNode l r => ([node_tag] ++ mtree_hash l ++ mtree_hash r) :: mtree_strings l ++ mtree_strings r
  end.
Definition merkle_strings (ids : list bytes) : list bytes :=
  from_option mtree_strings [] (head (tree_levels (length ids) (MLeaf <$> ids))).

Lemma list_pair_ind {A} (P : list A → Prop) :
  P [] → (∀ x, P [x]) → (∀ x y l, P l → P (x :: y :: l)) → ∀ l, P l.
Proof.
  intros H0 H1 H2. fix IH 1. intros [|x [|y l]]; [done|done|]. apply H2, IH.
Qed.

Lemma next_level_hash ts :
  next_level node_tag (mtree_hash <$> ts) = mtree_hash <$> pair_trees ts.
Proof. induction ts as [| |t u ts IH] using list_pair_ind; [done..|]. cbn. by rewrite IH. Qed.

Lemma pair_trees_ids ts : trees_ids (pair_trees ts) = trees_ids ts.
Proof.
  induction ts as [| |t u ts IH] using list_pair_ind; simpl; [done..|].
  by rewrite IH, app_assoc.
Qed.

Lemma next_level_length l :
  (length l ≤ 2 * length (next_level node_tag l) ≤ length l + 1)%nat.
Proof. induction l as [| |x y l IH] using list_pair_ind; simpl; lia. Qed.

Lemma next_level_shrinks l : (1 < length l)%nat →
  (0 < length (next_level node_tag l) < length l)%nat.
Proof. pose proof (next_level_length l). lia. Qed.

(** Termination: the fuel reaches a level of one node. *)
Lemma merkle_levels_tree fuel ts : (length ts ≤ fuel)%nat → ts ≠ [] →
  ∃ t, merkle_levels fuel node_tag (mtree_hash <$> ts) = [mtree_hash t]
       ∧ mtree_ids t = trees_ids ts ∧ tree_levels fuel ts = [t].
Proof.
  revert ts; induction fuel as [|fuel IH]; intros ts Hl Hts.
  - destruct ts; [done|simpl in Hl; lia].
  - cbn [merkle_levels tree_levels]. rewrite length_fmap. case_match eqn:Hc.
    + rewrite next_level_hash.
      pose proof (next_level_shrinks (mtree_hash <$> ts)) as Hs.
      rewrite next_level_hash, !length_fmap in Hs.
      destruct (IH (pair_trees ts)) as (t & Ht & Hids & Hl').
      * lia.
      * intros E. rewrite E in Hs. simpl in Hs. lia.
      * exists t. by rewrite <- pair_trees_ids.
    + destruct ts as [|t [|u ts]]; [done| |simpl in Hc; lia].
      exists t. simpl. by rewrite app_nil_r.
Qed.

Lemma merkle_root_tagged_tree ids : ids ≠ [] →
  ∃ t, merkle_root_tagged ids leaf_tag node_tag = Ok (mtree_hash t) ∧ mtree_ids t = ids ∧ merkle_strings ids = mtree_strings t.
Proof.
  intros Hids. unfold merkle_root_tagged. rewrite decide_False by done.
  destruct (merkle_levels_tree (length ids) (MLeaf <$> ids)) as (t & Ht & Hl & Hlev).
  - by rewrite length_fmap.
  - by destruct ids.
  - exists t. rewrite <- list_fmap_compose in Ht.
    change (mtree_hash ∘ MLeaf) with (leaf_hash leaf_tag) in Ht.
    rewrite length_fmap, Ht. split; [done|]. unfold merkle_strings. rewrite Hlev. split; [|done]. rewrite Hl. clear.
    induction ids as [|x ids IH]; [done|].
    rewrite fmap_cons. cbn [trees_ids mtree_ids]. by rewrite IH.
Qed.

Lemma mtree_hash_length t : length (mtree_hash t) = 32%nat.
Proof. destruct t; apply sha3_256_length. Qed.

Lemma mtree_strings_self t : ∃ x, x ∈ mtree_strings t ∧ mtree_hash t = sha3_256 x.
Proof. destruct t; eexists; (split; [by left|done]). Qed.

(** Two trees over 32-byte ids with the same hash are equal, or two of the
    strings hashed in them collide. *)
Lemma mtree_hash_inj t1 t2 :
  Forall (λ id, len id = 32) (mtree_ids t1) → Forall (λ id, len id = 32) (mtree_ids t2) →
  mtree_hash t1 = mtree_hash t2 → t1 = t2 ∨ collision_in (mtree_strings t1 ++ mtree_strings t2).
Proof.
  revert t2; induction t1 as [i1|l1 IHl r1 IHr]; intros [i2|l2 r2] H1 H2; cbn [mtree_hash mtree_strings mtree_ids] in *; intros E.
  all: eapply sha3_inj_in in E as [E|]; [|by right; eassumption|by left|apply elem_of_app; right; by left].
  - injection E as ->. by left.
  - apply (f_equal length) in E. simpl in E. rewrite length_app, !mtree_hash_length in E.
    apply Forall_cons_1 in H1 as [? _]. lia.
  - apply (f_equal length) in E. simpl in E. rewrite length_app, !mtree_hash_length in E.
    apply Forall_cons_1 in H2 as [? _]. lia.
  - injection E as E. apply app_inj_1 in E as [El Er]; [|by rewrite !mtree_hash_length].
    apply Forall_app in H1 as [H1l H1r]. apply Forall_app in H2 as [H2l H2r].
    destruct (IHl l2 H1l H2l El) as [->|Hc]; [|right; eapply collision_in_mono; [|exact Hc]; set_solver].
    destruct (IHr r2 H1r H2r Er) as [->|Hc]; [by left|right; eapply collision_in_mono; [|exact Hc]; set_solver].
Qed.

Lemma merkle_root_tagged_binding ids1 ids2 root :
  Forall (λ id, len id = 32) ids1 → Forall (λ id, len id = 32) ids2 →
  merkle_root_tagged ids1 leaf_tag node_tag = Ok root →
  merkle_root_tagged ids2 leaf_tag node_tag = Ok root →
  ids1 = ids2 ∨ collision_in (merkle_strings ids1 ++ merkle_strings ids2).
Proof.
  intros H1 H2 Hr1 Hr2.
  destruct (decide (ids1 = [])) as [->|Hne1]; [done|].
  destruct (decide (ids2 = [])) as [->|Hne2]; [done|].
  destruct (merkle_root_tagged_tree ids1 Hne1) as (t1 & Ht1 & Hi1 & ->).
  destruct (merkle_root_tagged_tree ids2 Hne2) as (t2 & Ht2 & Hi2 & ->).
  destruct (mtree_hash_inj t1 t2) as [->|]; [congruence..|left; congruence|by right].
Qed.
End tags.

(** ** The reference tree

    [split_point n] is the largest power of two below [n]; the root of several
    hashes is the node over the roots of the parts before and after it. *)
Definition split_point (n : nat) : nat := 2 ^ Nat.log2 (n - 1).

Fixpoint reference_root (fuel : nat) (node_tag : byte) (l : list bytes) : bytes :=
  match fuel, l with
  | S fuel, x :: _ :: _ =>
      let k := split_point (length l) in
      node_hash node_tag (reference_root fuel node_tag (take k l))
        (reference_root fuel node_tag (drop k l))
  | _, x :: _ => x
  | _, [] => zeros 32
  end.

Lemma split_point_bounds n : (1 < n)%nat →
  (split_point n < n ≤ 2 * split_point n)%nat ∧ (0 < split_point n)%nat.
Proof.
  intros Hn. unfold split_point. pose proof (Nat.log2_spec (n - 1) ltac:(lia)) as [H1 H2].
  rewrite Nat.pow_succ_r' in H2. lia.
Qed.

Lemma split_point_unique n k e : (k = 2 ^ e)%nat → (k < n ≤ 2 * k)%nat → split_point n = k.
Proof.
  intros -> Hk. unfold split_point. f_equal. apply Nat.log2_unique; [lia|].
  rewrite Nat.pow_succ_r'. lia.
Qed.

Lemma next_level_app node_tag l1 l2 : Nat.Even (length l1) →
  next_level node_tag (l1 ++ l2) = next_level node_tag l1 ++ next_level node_tag l2.
Proof.
  induction l1 as [|x|x y l1 IH] using list_pair_ind; intros He; simpl.
  - done.
  - destruct He as [m Hm]. simpl in Hm. lia.
  - rewrite IH; [done|]. destruct He as [m Hm]. exists (m - 1)%nat. simpl in Hm. lia.
Qed.

Lemma next_level_half node_tag l m : length l = (2 * m)%nat →
  length (next_level node_tag l) = m.
Proof. pose proof (next_level_length node_tag l). lia. Qed.

Lemma reference_root_single fuel node_tag x : reference_root fuel node_tag [x] = x.
Proof. by destruct fuel. Qed.

Lemma reference_root_split fuel node_tag l : (1 < length l)%nat →
  reference_root (S fuel) node_tag l =
  node_hash node_tag (reference_root fuel node_tag (take (split_point (length l)) l))
    (reference_root fuel node_tag (drop (split_point (length l)) l)).
Proof. destruct l as [|x [|y l]]; [simpl; lia..|done]. Qed.

Lemma next_level_split node_tag l : (2 < length l)%nat →
  let m := split_point (length (next_level node_tag l)) in
  split_point (length l) = (2 * m)%nat
  ∧ take m (next_level node_tag l) = next_level node_tag (take (2 * m) l)
  ∧ drop m (next_level node_tag l) = next_level node_tag (drop (2 * m) l).
Proof.
  intros Hl. pose proof (next_level_length node_tag l) as Hn.
  destruct (split_point_bounds (length l)) as [Hb _]; [lia|].
  destruct (Nat.log2 (length l - 1)) as [|e] eqn:He.
  { unfold split_point in Hb. rewrite He in Hb. simpl in Hb. lia. }
  assert (split_point (length l) = 2 * 2 ^ e)%nat as Hs by (unfold split_point; by rewrite He).
  rewrite Hs in *.
  rewrite (split_point_unique (length (next_level node_tag l)) (2 ^ e) e) by (done || lia).
  split; [done|].
  assert (length (take (2 * 2 ^ e) l) = 2 * 2 ^ e)%nat as Ht by (rewrite length_take; lia).
  pose proof (next_level_half node_tag _ _ Ht) as Hh.
  replace (next_level node_tag l)
    with (next_level node_tag (take (2 * 2 ^ e) l) ++ next_level node_tag (drop (2 * 2 ^ e) l)).
  - by rewrite take_app_length', drop_app_length' by done.
  - rewrite <- next_level_app by (rewrite Ht; by exists (2 ^ e)%nat). by rewrite take_drop.
Qed.

(** One pass of the loop does not change the reference root. *)
Lemma reference_root_next_level node_tag fuel fuel' l :
  (length l ≤ fuel)%nat → (length (next_level node_tag l) ≤ fuel')%nat → l ≠ [] →
  reference_root fuel node_tag l = reference_root fuel' node_tag (next_level node_tag l).
Proof.
  revert fuel' l; induction fuel as [|fuel IH]; intros fuel' l Hf Hf' Hl.
  { destruct l; [done|simpl in Hf; lia]. }
  destruct l as [|x [|y l]]; [done|cbn [next_level]; by rewrite !reference_root_single|].
  destruct l as [|z l].
  { rewrite reference_root_split by (simpl; lia).
    change (split_point (length [x; y])) with 1%nat. cbn [take drop next_level].
    by rewrite !reference_root_single. }
  remember (x :: y :: z :: l) as L eqn:HL.
  assert (2 < length L)%nat as Hlen by (subst; simpl; lia).
  pose proof (next_level_length node_tag L).
  destruct fuel' as [|fuel']; [lia|].
  destruct (next_level_split node_tag L Hlen) as (Hk & Ht & Hd).
  destruct (split_point_bounds (length L)) as [Hb Hpos]; [lia|].
  destruct (split_point_bounds (length (next_level node_tag L))) as [Hb' Hpos']; [lia|].
  rewrite !reference_root_split by lia. rewrite Ht, Hd, Hk. f_equal; apply IH.
  - rewrite length_take. lia.
  - rewrite <- Ht, length_take. lia.
  - intros E%(f_equal length). rewrite length_take in E. simpl in E. lia.
  - rewrite length_drop. lia.
  - rewrite <- Hd, length_drop. lia.
  - intros E%(f_equal length). rewrite length_drop in E. simpl in E. lia.
Qed.

Lemma merkle_levels_reference fuel node_tag l : (length l ≤ fuel)%nat → l ≠ [] →
  head (merkle_levels fuel node_tag l) = Some (reference_root (length l) node_tag l).
Proof.
  revert l; induction fuel as [|fuel IH]; intros l Hl Hne.
  { destruct l; [done|simpl in Hl; lia]. }
  cbn [merkle_levels]. case_match eqn:Hc.
  - pose proof (next_level_shrinks node_tag l ltac:(lia)) as Hs. rewrite IH.
    + f_equal. symmetry. apply reference_root_next_level; lia || done.
    + lia.
    + intros E. rewrite E in Hs. simpl in Hs. lia.
  - destruct l as [|x [|y l]]; [done|done|simpl in Hc; lia].
Qed.

(** The loop over levels computes the standard tree: the root of a list
    of ids is the reference root of their leaf hashes, in which a level of
    several nodes splits at the largest power of two below its length. The
    loop always ends with one node, and only the empty list is refused. *)
Theorem merkle_root_reference ids leaf_tag node_tag :
  merkle_root_tagged ids leaf_tag node_tag =
  if decide (ids = []) then tx_err TxErrParse "merkle: empty id list"
  else Ok (reference_root (length ids) node_tag (leaf_hash leaf_tag <$> ids)).
Proof.
  unfold merkle_root_tagged. case_decide as Hne; [done|].
  rewrite merkle_levels_reference; rewrite ?length_fmap; [done|done|].
  intros E%fmap_nil_inv. done.
Qed.

(** C34: a merkle root binds the list of ids: two lists of 32-byte ids (of any
    lengths) with the same transaction root are equal, unless two of the tagged
    leaves and nodes hashed in the two trees collide under SHA3-256. *)
Theorem merkle_root_binding ids1 ids2 root :
  Forall (λ id, len id = 32) ids1 → Forall (λ id, len id = 32) ids2 →
  merkle_root_txids ids1 = Ok root → merkle_root_txids ids2 = Ok root →
  ids1 = ids2 ∨ collision_in (merkle_strings x00 x01 ids1 ++ merkle_strings x00 x01 ids2).
Proof. apply merkle_root_tagged_binding. Qed.

(** The witness root binds every wtxid but the first (the coinbase's, which
    carries the commitment). *)
Lemma witness_merkle_root_binding ids1 ids2 root :
  Forall (λ id, len id = 32) ids1 → Forall (λ id, len id = 32) ids2 →
  witness_merkle_root_wtxids ids1 = Ok root → witness_merkle_root_wtxids ids2 = Ok root →
  tail ids1 = tail ids2
  ∨ collision_in (merkle_strings x02 x03 (zeros 32 :: tail ids1) ++ merkle_strings x02 x03 (zeros 32 :: tail ids2)).
Proof.
  unfold witness_merkle_root_wtxids. intros H1 H2 Hr1 Hr2.
  destruct ids1 as [|x1 l1], ids2 as [|x2 l2]; try done; simpl in *.
  apply Forall_cons_1 in H1 as [_ H1]. apply Forall_cons_1 in H2 as [_ H2].
  destruct (merkle_root_tagged_binding x02 x03 (zeros 32 :: l1) (zeros 32 :: l2) root)
    as [E|]; [by constructor|by constructor|done|done| |by right].
  left. congruence.
Qed.

Lemma merkle_root_tagged_length ids lt nt root :
  merkle_root_tagged ids lt nt = Ok root → len root = 32.
Proof.
  intros Hr. destruct (decide (ids = [])) as [->|Hne]; [done|].
  destruct (merkle_root_tagged_tree lt nt ids Hne) as (t & Ht & _).
  rewrite Ht in Hr. inv_res. by rewrite mtree_hash_length.
Qed.

End merkle.

Definition demo_ids : list bytes := [replicate 32 x01; replicate 32 x02; replicate 32 x03].
Definition demo_root : bytes := default [] (match merkle_root_txids (HS := toy_sha3) demo_ids with
  Ok r => Some r | Err _ => None end).

Lemma merkle_root_binding_witness :
  merkle_root_txids (HS := toy_sha3) demo_ids = Ok demo_root ∧
  (demo_ids = demo_ids ∨ collision_in (HS := toy_sha3)
     (merkle_strings (HS := toy_sha3) x00 x01 demo_ids ++ merkle_strings (HS := toy_sha3) x00 x01 demo_ids)).
Proof.
  split; [by vm_compute|].
  apply (merkle_root_binding (HS := toy_sha3) demo_ids demo_ids demo_root);
    [by repeat constructor|by repeat constructor|by vm_compute|by vm_compute].
Defined.
