(* ===== verification/Pow.v ===== *)
(** * Proof of work, difficulty and fork choice ([pow.rs], [fork_choice.rs])

    Targets are 32-byte big-endian numbers.  [BigUint] (the [num-bigint]
    crate) is an unbounded natural number, a nonnegative [Z] here; its
    [to_bytes_be] is an interface with the documented contract: the bytes have
    the value, and there are no more of them than the value needs. *)

From S2P Require Import Prelude Bytes Errors Constants Crypto Block.

Class BigUintBytes : Type := {
  to_bytes_be : Z → bytes;
  to_bytes_be_value : ∀ n, 0 ≤ n → be_decode (to_bytes_be n) = n;
  to_bytes_be_minimal : ∀ n k, 1 ≤ k → 0 ≤ n < 256 ^ k → len (to_bytes_be n) ≤ k;
}.

Section pow.
  Context `{BU : BigUintBytes}.

(* rust: pow.rs 56-58 retarget_clamp_overflow *)
Definition retarget_clamp_overflow : TxError :=
  mkTxError TxErrParse "retarget: timestamp clamp overflow".

(** [u64::clamp]. *)
Definition clamp (lo hi x : Z) : Z := if x <? lo then lo else if hi <? x then hi else x.

(* rust: pow.rs 48-54 clamp_next_retarget_timestamp *)
Definition clamp_next_retarget_timestamp (prev raw : Z) : res Z :=
  lo ← ok_or (checked_add u64_max prev 1) retarget_clamp_overflow;
  hi ← ok_or (checked_add u64_max prev MAX_TIMESTAMP_STEP_PER_BLOCK) retarget_clamp_overflow;
  Ok (clamp lo hi raw).

(* rust: pow.rs 81-95 validate_retarget_old_target *)
Definition validate_retarget_old_target (t_old pow_limit : Z) : res unit :=
  if t_old =? 0 then tx_err TxErrParse "retarget: target_old is zero" else
  if pow_limit <? t_old then tx_err TxErrParse "retarget: target_old above pow_limit" else
  Ok ().

(* rust: pow.rs 97-108 retarget_expected_interval *)
Definition retarget_expected_interval : res Z :=
  t_expected ← ok_or (checked_mul u64_max TARGET_BLOCK_INTERVAL WINDOW_SIZE)
                 (mkTxError TxErrParse "retarget: t_expected overflow");
  if t_expected =? 0 then tx_err TxErrParse "retarget: t_expected is zero" else
  Ok t_expected.

(* rust: pow.rs 110-112 retarget_lower_bound *)
Definition retarget_lower_bound (t_old : Z) : Z := Z.max (Z.shiftr t_old 2) 1.

(* rust: pow.rs 114-116 retarget_upper_bound *)
Definition retarget_upper_bound (t_old pow_limit : Z) : Z := Z.min (Z.shiftl t_old 2) pow_limit.

(* rust: pow.rs 140-148 biguint_to_bytes32 *)
Definition biguint_to_bytes32 (x : Z) : res bytes :=
  let b := to_bytes_be x in
  if 32 <? len b then tx_err TxErrParse "u256: overflow" else
  Ok (zeros (32 - length b) ++ b).

(* rust: pow.rs 60-79 retarget_v1_with_actual *)
Definition retarget_v1_with_actual (target_old : bytes) (t_actual : Z) : res bytes :=
  let pow_limit := be_decode POW_LIMIT in
  let t_old := be_decode target_old in
  _ ← validate_retarget_old_target t_old pow_limit;
  t_expected ← retarget_expected_interval;
  let t_new := t_old * t_actual / t_expected in
  let lower := retarget_lower_bound t_old in
  let upper := retarget_upper_bound t_old pow_limit in
  let t_new := if t_new <? lower then lower else t_new in
  let t_new := if upper <? t_new then upper else t_new in
  biguint_to_bytes32 t_new.

(* rust: pow.rs 9-20 retarget_v1 *)
Definition retarget_v1 (target_old : bytes) (timestamp_first timestamp_last : Z) : res bytes :=
  let t_actual :=
    if timestamp_last <=? timestamp_first then 1 else timestamp_last - timestamp_first in
  retarget_v1_with_actual target_old t_actual.

(* rust: pow.rs 24-46 retarget_v1_clamped *)
Definition retarget_v1_clamped (target_old : bytes) (window_timestamps : list Z) : res bytes :=
  if negb (len window_timestamps =? WINDOW_SIZE)
  then tx_err TxErrParse "retarget: invalid window timestamp count" else
  let first := nth 0 window_timestamps 0 in
  prev ← try_fold clamp_next_retarget_timestamp first (tail window_timestamps);
  let t_actual := prev - first in
  let t_actual := if t_actual =? 0 then 1 else t_actual in
  retarget_v1_with_actual target_old t_actual.

(* rust: pow.rs 118-138 pow_check *)
Definition pow_check `{HS : Sha3} (header_bytes target : bytes) : res unit :=
  if negb (len header_bytes =? BLOCK_HEADER_BYTES)
  then tx_err TxErrParse "pow: invalid header length" else
  let target_bi := be_decode target in
  let pow_limit := be_decode POW_LIMIT in
  if (target_bi =? 0) || (pow_limit <? target_bi)
  then tx_err BlockErrTargetInvalid "target out of range" else
  h ← block_hash header_bytes;
  if negb (bytes_ltb h target) then tx_err BlockErrPowInvalid "pow invalid" else
  Ok ().

(** ** Fork choice *)

(* rust: fork_choice.rs 10-29 work_from_target *)
Definition work_from_target (target : bytes) : res Z :=
  let t := be_decode target in
  if t =? 0 then tx_err TxErrParse "fork_work: target is zero" else
  let pow_limit := be_decode POW_LIMIT in
  if pow_limit <? t then tx_err TxErrParse "fork_work: target above pow_limit" else
  let two256 := Z.shiftl 1 256 in
  Ok (two256 / t).

(* rust: fork_choice.rs 31-37 chain_work_from_targets *)
Definition chain_work_from_targets (targets : list bytes) : res Z :=
  try_fold (λ total t, w ← work_from_target t; Ok (total + w)) 0 targets.

(* rust: fork_choice.rs 40-42 fork_work_from_target *)
Definition fork_work_from_target (target : bytes) : res Z := work_from_target target.

(* rust: fork_choice.rs 45-47 fork_chainwork_from_targets *)
Definition fork_chainwork_from_targets (targets : list bytes) : res Z :=
  chain_work_from_targets targets.

(** ** Facts *)

Definition pow_max : Z := 2 ^ 256 - 1.

Lemma be_decode_POW_LIMIT : be_decode POW_LIMIT = pow_max.
Proof. by vm_compute. Qed.

Lemma be_decode_32 t : len t = 32 → 0 ≤ be_decode t ≤ pow_max.
Proof.
  intros Hl. pose proof (be_decode_bound t) as Hb. rewrite Hl in Hb.
  change (256 ^ 32) with (2 ^ 256) in Hb. unfold pow_max. lia.
Qed.

Lemma retarget_expected_interval_Ok : retarget_expected_interval = Ok 1209600.
Proof. done. Qed.

Lemma be_decode_zeros n b : be_decode (zeros n ++ b) = be_decode b.
Proof.
  rewrite be_decode_app. replace (be_decode (zeros n)) with 0; [lia|].
  unfold zeros. induction n as [|n IH]; [done|].
  simpl. rewrite be_decode_cons, <- IH. done.
Qed.

Lemma biguint_to_bytes32_Ok x : 0 ≤ x ≤ pow_max →
  ∃ b, biguint_to_bytes32 x = Ok b ∧ len b = 32 ∧ be_decode b = x.
Proof.
  intros Hx. unfold biguint_to_bytes32.
  pose proof (to_bytes_be_minimal x 32 ltac:(lia)) as Hm.
  change (256 ^ 32) with (2 ^ 256) in Hm. unfold pow_max in Hx. specialize (Hm ltac:(lia)).
  case_match; [lia|]. eexists; split; [done|].
  rewrite be_decode_zeros, to_bytes_be_value by lia. split; [|done].
  unfold zeros. rewrite length_app, length_replicate. lia.
Qed.

(** The specified retarget: the old target scaled by the actual over the
    expected time, kept within a factor of four and the limits. *)
Definition retarget_spec (old t : Z) : Z :=
  Z.min (Z.min (4 * old) pow_max) (Z.max (Z.max 1 (old / 4)) (old * t / 1209600)).

Lemma retarget_spec_range old t : 0 < old ≤ pow_max → 1 ≤ retarget_spec old t ≤ pow_max.
Proof. unfold retarget_spec, pow_max. intros. pose proof (Z.div_pos old 4). lia. Qed.

Lemma retarget_v1_with_actual_spec target_old t : len target_old = 32 →
  be_decode target_old ≠ 0 →
  ∃ b, retarget_v1_with_actual target_old t = Ok b ∧ len b = 32
       ∧ be_decode b = retarget_spec (be_decode target_old) t.
Proof.
  intros Hl Hz. pose proof (be_decode_32 _ Hl) as Hb.
  unfold retarget_v1_with_actual, validate_retarget_old_target. rewrite be_decode_POW_LIMIT.
  do 2 (case_match; [lia|]). run_bind. rewrite retarget_expected_interval_Ok. run_bind.
  unfold retarget_lower_bound, retarget_upper_bound.
  rewrite Z.shiftr_div_pow2, Z.shiftl_mul_pow2 by lia. change (2 ^ 2) with 4.
  match goal with |- ∃ b, biguint_to_bytes32 ?x = _ ∧ _ =>
    replace x with (retarget_spec (be_decode target_old) t)
  end; [apply biguint_to_bytes32_Ok; pose proof (retarget_spec_range (be_decode target_old) t); lia|].
  unfold retarget_spec. rewrite (Z.mul_comm 4).
  set (q := be_decode target_old * t / 1209600). set (o := be_decode target_old / 4).
  repeat case_match; lia.
Qed.

(** The difficulty adjustment. For a nonzero 32-byte target the new target
    is the old one times the elapsed over the expected time, never below a
    quarter of the old target nor 1, and never above four times the old target
    nor the proof-of-work limit; the elapsed time counts as at least one
    second; a window that took exactly the expected time keeps the target, and
    a longer window never gives a lower target. *)
Theorem retarget_v1_correct target_old first last :
  len target_old = 32 → be_decode target_old ≠ 0 →
  ∃ b, retarget_v1 target_old first last = Ok b ∧ len b = 32
    ∧ be_decode b = retarget_spec (be_decode target_old) (Z.max 1 (last - first))
    ∧ Z.max 1 (be_decode target_old / 4) ≤ be_decode b ≤ Z.min (4 * be_decode target_old) pow_max
    ∧ (last - first = TARGET_BLOCK_INTERVAL * WINDOW_SIZE → b = target_old)
    ∧ (∀ last' b', last ≤ last' → retarget_v1 target_old first last' = Ok b' →
         be_decode b ≤ be_decode b').
Proof.
  intros Hl Hz. pose proof (be_decode_32 _ Hl) as Hr.
  assert (∀ l, retarget_v1 target_old first l
               = retarget_v1_with_actual target_old (Z.max 1 (l - first))) as Hv.
  { intros l. unfold retarget_v1. f_equal. case_match; lia. }
  destruct (retarget_v1_with_actual_spec target_old (Z.max 1 (last - first)) Hl Hz)
    as (b & Hb & Hlb & Hs).
  pose proof (Z.div_le_upper_bound (be_decode target_old) 4 (be_decode target_old)).
  exists b. rewrite Hv, Hs.
  split_and!; [done|done|done|unfold retarget_spec in *; lia|unfold retarget_spec in *; lia|..].
  - intros Ht. apply be_decode_inj; [lia|]. rewrite Hs, Ht.
    change (TARGET_BLOCK_INTERVAL * WINDOW_SIZE) with 1209600. unfold retarget_spec.
    change (Z.max 1 1209600) with 1209600. rewrite Z.div_mul by lia. lia.
  - intros last' b' Hle. rewrite Hv. intros Hb'.
    destruct (retarget_v1_with_actual_spec target_old (Z.max 1 (last' - first)) Hl Hz)
      as (b2 & Hb2 & _ & Hs2). rewrite Hb' in Hb2. inv_res. rewrite Hs2. unfold retarget_spec.
    pose proof (Z.div_le_mono (be_decode target_old * Z.max 1 (last - first))
      (be_decode target_old * Z.max 1 (last' - first)) 1209600 ltac:(lia) ltac:(nia)). lia.
Qed.

(** The clamped walk over the window. *)
Lemma clamp_next_Ok prev raw t : clamp_next_retarget_timestamp prev raw = Ok t →
  1 ≤ t - prev ≤ MAX_TIMESTAMP_STEP_PER_BLOCK
  ∧ (1 ≤ raw - prev ≤ MAX_TIMESTAMP_STEP_PER_BLOCK → t = raw).
Proof.
  unfold clamp_next_retarget_timestamp. intros H. inv_res.
  repeat match goal with Hc : checked_add _ _ _ = Some _ |- _ =>
    apply checked_add_Some in Hc as [-> ?] end.
  change MAX_TIMESTAMP_STEP_PER_BLOCK with 1200. unfold clamp. repeat case_match; lia.
Qed.

Lemma clamp_walk_bounds prev raws t : try_fold clamp_next_retarget_timestamp prev raws = Ok t →
  len raws ≤ t - prev ≤ len raws * MAX_TIMESTAMP_STEP_PER_BLOCK.
Proof.
  revert prev; induction raws as [|raw raws IH]; intros prev Hf; cbn [try_fold] in Hf.
  - inv_res. simpl. lia.
  - inv_res. apply clamp_next_Ok in Hx as [? _]. apply IH in Hf. cbn [length].
    change MAX_TIMESTAMP_STEP_PER_BLOCK with 1200 in *. lia.
Qed.

(** Consecutive timestamps one to [MAX_TIMESTAMP_STEP_PER_BLOCK] apart. *)
Fixpoint regular (prev : Z) (raws : list Z) : Prop :=
  match raws with
  | [] => True
  | raw :: raws => 1 ≤ raw - prev ≤ MAX_TIMESTAMP_STEP_PER_BLOCK ∧ regular raw raws
  end.

Lemma clamp_walk_regular prev raws t : regular prev raws →
  try_fold clamp_next_retarget_timestamp prev raws = Ok t → t = List.last raws prev.
Proof.
  revert prev; induction raws as [|raw raws IH]; intros prev Hreg Hf; cbn [try_fold] in Hf.
  - inv_res. done.
  - destruct Hreg as [Hr Hreg]. inv_res. apply clamp_next_Ok in Hx as [_ Hx]. specialize (Hx Hr). subst x.
    apply IH in Hf; [|done]. subst. destruct raws as [|r2 raws]; [done|].
    change (List.last (raw :: r2 :: raws) prev) with (List.last (r2 :: raws) prev).
    clear. revert r2. induction raws as [|r3 raws IH]; [done|]. intros r2. apply (IH r3).
Qed.

Lemma clamp_walk_Ok prev raws : 0 ≤ prev →
  prev + len raws * MAX_TIMESTAMP_STEP_PER_BLOCK ≤ u64_max →
  ∃ t, try_fold clamp_next_retarget_timestamp prev raws = Ok t.
Proof.
  revert prev; induction raws as [|raw raws IH]; intros prev H0 Hm; cbn [try_fold]; [eauto|].
  cbn [length] in Hm. change MAX_TIMESTAMP_STEP_PER_BLOCK with 1200 in *.
  destruct (clamp_next_retarget_timestamp prev raw) as [t|e] eqn:Hc.
  - run_bind. apply clamp_next_Ok in Hc as [Hc _].
    change MAX_TIMESTAMP_STEP_PER_BLOCK with 1200 in Hc. apply IH; lia.
  - unfold clamp_next_retarget_timestamp, checked_add in Hc.
    change MAX_TIMESTAMP_STEP_PER_BLOCK with 1200 in Hc.
    do 2 (case_match; [|lia]). done.
Qed.

(** The adjustment over clamped timestamps. With a full window of
    timestamps whose first leaves room below the 64-bit limit, it succeeds;
    the elapsed time it uses advances by 1 to [MAX_TIMESTAMP_STEP_PER_BLOCK]
    seconds per block whatever the timestamps are, so a miner's timestamps
    move the target only within these bounds; and on timestamps with no
    anomalous step it agrees with [retarget_v1] on the first and the last. *)
Theorem retarget_v1_clamped_correct target_old first raws :
  len target_old = 32 → be_decode target_old ≠ 0 → 0 ≤ first →
  len (first :: raws) = WINDOW_SIZE →
  first + (WINDOW_SIZE - 1) * MAX_TIMESTAMP_STEP_PER_BLOCK ≤ u64_max →
  ∃ b t, retarget_v1_clamped target_old (first :: raws) = Ok b
    ∧ be_decode b = retarget_spec (be_decode target_old) t
    ∧ WINDOW_SIZE - 1 ≤ t ≤ (WINDOW_SIZE - 1) * MAX_TIMESTAMP_STEP_PER_BLOCK
    ∧ (regular first raws →
       retarget_v1 target_old first (List.last raws first) = Ok b).
Proof.
  intros Hl Hz H0 Hw Hmax. assert (len raws = WINDOW_SIZE - 1) as Hr by (cbn [length] in Hw; lia).
  rewrite <- Hr in *.
  destruct (clamp_walk_Ok first raws H0 Hmax) as [p Hp].
  pose proof (clamp_walk_bounds _ _ _ Hp) as Hb.
  change MAX_TIMESTAMP_STEP_PER_BLOCK with 1200 in *. change WINDOW_SIZE with 10080 in *.
  destruct (retarget_v1_with_actual_spec target_old (p - first) Hl Hz) as (b & Hb1 & _ & Hs).
  exists b, (p - first). split_and!; [|done|lia|lia|].
  - unfold retarget_v1_clamped. change WINDOW_SIZE with 10080. rewrite Hw. cbn [nth tail].
    rewrite Hp. run_bind. replace (p - first =? 0) with false by lia. done.
  - intros Hreg. apply clamp_walk_regular in Hp as <-; [|done]. rewrite <- Hb1.
    unfold retarget_v1. f_equal. case_match; lia.
Qed.

Lemma pow_check_Ok `{HS : Sha3} header target : len target = 32 →
  pow_check header target = Ok () ↔
  len header = BLOCK_HEADER_BYTES ∧ 0 < be_decode target
  ∧ be_decode (sha3_256 header) < be_decode target.
Proof.
  intros Ht. pose proof (be_decode_32 _ Ht) as Hr.
  unfold pow_check, block_hash. rewrite be_decode_POW_LIMIT.
  assert (length (sha3_256 header) = length target) as Hl by (rewrite sha3_256_length; lia).
  pose proof (bytes_ltb_be _ _ Hl) as Hlt. split.
  - intros Hc. case_match; [done|]. case_match; [done|]. cbn [mbind result_bind] in Hc.
    rewrite Hlt in Hc. inv_res. lia.
  - intros (-> & ? & ?). simpl negb; cbv iota. case_match; [lia|]. run_bind.
    rewrite Hlt. case_match; [lia|done].
Qed.

(** [pow_check] accepts a header exactly when it has the header's length,
    the target is in range and the block hash, read as a number, is below the
    target: the byte comparison of the code is the numeric one. *)
Theorem pow_check_iff `{HS : Sha3} header target : len target = 32 →
  pow_check header target = Ok () ↔
  len header = BLOCK_HEADER_BYTES ∧ 0 < be_decode target
  ∧ be_decode (sha3_256 header) < be_decode target.
Proof. apply pow_check_Ok. Qed.

(** ** Work *)

Definition target_valid (t : bytes) : Prop := be_decode t ≠ 0 ∧ be_decode t ≤ pow_max.
Definition work (t : bytes) : Z := 2 ^ 256 / be_decode t.

Lemma work_from_target_Ok t w :
  work_from_target t = Ok w ↔ target_valid t ∧ w = work t.
Proof.
  unfold work_from_target, target_valid, work. rewrite be_decode_POW_LIMIT.
  rewrite Z.shiftl_mul_pow2, Z.mul_1_l by lia. split.
  - intros Hw. inv_res. split; [lia|done].
  - intros [[??] ->]. do 2 (case_match; [lia|]). done.
Qed.

Lemma chain_work_acc ts acc w :
  try_fold (λ total t, w ← work_from_target t; Ok (total + w)) acc ts = Ok w ↔
  Forall target_valid ts ∧ w = acc + foldr Z.add 0 (work <$> ts).
Proof.
  revert acc; induction ts as [|t ts IH]; intros acc; cbn [try_fold].
  - cbn. split; [intros Hw; inv_res; split; [done|lia]|intros [_ ->]; f_equal; lia].
  - split.
    + intros Hw. inv_res. apply work_from_target_Ok in Hx0 as [? ->]. apply IH in Hw as [? ->].
      split; [by constructor|cbn; lia].
    + intros [[Hv Hvs]%Forall_cons_1 ->]. rewrite (proj2 (work_from_target_Ok t (work t))) by done.
      run_bind. apply IH. split; [done|cbn; lia].
Qed.

(** The work of a chain is the sum of the work of its targets and is
    defined exactly when each target is in range; each block adds at least one
    unit, so a longer extension always has more work, and a smaller (harder)
    target never counts for less. *)
Theorem chain_work_correct :
  (∀ ts w, chain_work_from_targets ts = Ok w ↔
     Forall target_valid ts ∧ w = foldr Z.add 0 (work <$> ts))
  ∧ (∀ ts t w w', target_valid t → chain_work_from_targets ts = Ok w →
       chain_work_from_targets (ts ++ [t]) = Ok w' → w < w' ∧ w' = w + work t)
  ∧ (∀ t1 t2, target_valid t1 → target_valid t2 → be_decode t1 ≤ be_decode t2 →
       work t2 ≤ work t1).
Proof.
  assert (∀ t, target_valid t → 1 ≤ work t) as Hpos.
  { intros t [Hz Hm]. pose proof (be_decode_bound t). unfold work, pow_max in *.
    apply Z.div_le_lower_bound; lia. }
  split_and!.
  - intros ts w. unfold chain_work_from_targets. rewrite chain_work_acc. by rewrite Z.add_0_l.
  - intros ts t w w' Ht [Hv ->]%chain_work_acc [Hv' ->]%chain_work_acc.
    rewrite fmap_app, foldr_app. cbn. rewrite Z.add_0_r.
    assert (∀ l a, foldr Z.add a l = foldr Z.add 0 l + a) as Hf.
    { induction l as [|x l IH]; intros a; cbn; [lia|]. rewrite IH. lia. }
    rewrite (Hf _ (work t)). specialize (Hpos t Ht). lia.
  - intros t1 t2 [Hz1 _] [Hz2 _] Hle. pose proof (be_decode_bound t1). unfold work.
    apply Z.div_le_compat_l; lia.
Qed.

End pow.

(** ** A concrete big-endian conversion, for witnesses *)

Definition byte_count (n : Z) : nat := Z.to_nat (Z.log2 n / 8 + 1).

Lemma byte_count_spec n : 0 ≤ n → n < 256 ^ Z.of_nat (byte_count n).
Proof.
  intros Hn. unfold byte_count. pose proof (Z.log2_nonneg n).
  pose proof (Z.div_pos (Z.log2 n) 8 ltac:(lia) ltac:(lia)).
  rewrite Z2Nat.id by lia. change 256 with (2 ^ 8). rewrite <- Z.pow_mul_r by lia.
  destruct (Z.eq_dec n 0) as [->|Hz]; [done|].
  destruct (Z.log2_spec n) as [_ Hlt]; [lia|].
  eapply Z.lt_le_trans; [exact Hlt|]. apply Z.pow_le_mono_r; [lia|].
  pose proof (Z.div_mod (Z.log2 n) 8). pose proof (Z.mod_pos_bound (Z.log2 n) 8). lia.
Qed.

Lemma byte_count_minimal n k : 1 ≤ k → 0 ≤ n < 256 ^ k → Z.of_nat (byte_count n) ≤ k.
Proof.
  intros Hk Hn. unfold byte_count. pose proof (Z.log2_nonneg n).
  pose proof (Z.div_pos (Z.log2 n) 8 ltac:(lia) ltac:(lia)). rewrite Z2Nat.id by lia.
  destruct (Z.eq_dec n 0) as [->|Hz]; [change (Z.log2 0 `div` 8) with 0; lia|].
  assert (Z.log2 n < 8 * k).
  { apply Z.log2_lt_pow2; [lia|]. rewrite Z.pow_mul_r by lia. apply Hn. }
  pose proof (Z.div_lt_upper_bound (Z.log2 n) 8 k). lia.
Qed.

Program Definition toy_biguint : BigUintBytes := {|
  to_bytes_be := λ n, be_encode (byte_count n) n;
|}.
Next Obligation. intros n Hn. apply be_decode_encode. split; [done|]. by apply byte_count_spec. Qed.
Next Obligation. intros n k Hk Hn. cbv beta. rewrite be_encode_length. by apply byte_count_minimal. Qed.

Definition demo_target : bytes := zeros 4 ++ replicate 28 x0f.

Lemma retarget_v1_correct_witness :
  len demo_target = 32 ∧ be_decode demo_target ≠ 0 ∧
  ∃ b, retarget_v1 (BU := toy_biguint) demo_target 1000 2419200 = Ok b ∧ len b = 32.
Proof.
  split; [reflexivity|]. split; [vm_compute; discriminate|].
  destruct (retarget_v1_correct (BU := toy_biguint) demo_target 1000 2419200)
    as (b & Hb & Hl & _); [reflexivity|vm_compute; discriminate|].
  exists b. split; [exact Hb|exact Hl].
Defined.

Definition demo_window : list Z := (λ i, 5000 + 130 * Z.of_nat i) <$> seq 1 (Z.to_nat (WINDOW_SIZE - 1)).

Lemma retarget_v1_clamped_correct_witness :
  len (5000 :: demo_window) = WINDOW_SIZE ∧
  ∃ b, retarget_v1_clamped (BU := toy_biguint) demo_target (5000 :: demo_window) = Ok b.
Proof.
  split; [vm_compute; reflexivity|].
  destruct (retarget_v1_clamped_correct (BU := toy_biguint) demo_target 5000 demo_window)
    as (b & t & Hb & _);
    [reflexivity|vm_compute; discriminate|lia|vm_compute; reflexivity|vm_compute; discriminate|].
  exists b. exact Hb.
Defined.

Lemma pow_check_iff_witness :
  len demo_target = 32 ∧
  (pow_check (HS := toy_sha3) (zeros 116) demo_target = Ok () ↔
   len (zeros 116) = BLOCK_HEADER_BYTES ∧ 0 < be_decode demo_target
   ∧ be_decode (sha3_256 (Sha3 := toy_sha3) (zeros 116)) < be_decode demo_target).
Proof. split; [done|]. apply pow_check_iff. done. Defined.
