(* ===== verification/Subsidy.v ===== *)
(** * Block subsidy ([subsidy.rs])

    The emission schedule: the reward of a height, given the amount already
    generated, and its behaviour along a chain. *)

From S2P Require Import Prelude Constants.

(* rust: subsidy.rs 36-41 clamp_base_reward_to_u64 *)
Definition clamp_base_reward_to_u64 (base_reward : Z) : Z :=
  if base_reward <=? u64_max then base_reward else TAIL_EMISSION_PER_BLOCK.

(* rust: subsidy.rs 9-23 block_subsidy *)
Definition block_subsidy (height already_generated : Z) : Z :=
  if height =? 0 then 0 else
  let mineable_cap := MINEABLE_CAP in
  if mineable_cap <=? already_generated then TAIL_EMISSION_PER_BLOCK else
  let remaining := mineable_cap - already_generated in
  let base_reward := Z.shiftr remaining EMISSION_SPEED_FACTOR in
  if base_reward <? TAIL_EMISSION_PER_BLOCK then TAIL_EMISSION_PER_BLOCK else
  clamp_base_reward_to_u64 base_reward.

(** ** Facts *)

(** The amount generated by the first [n] blocks after genesis. *)
Fixpoint generated (n : nat) : Z :=
  match n with
  | O => 0
  | S n => generated n + block_subsidy (Z.of_nat (S n)) (generated n)
  end.

Definition subsidy_spec (g : Z) : Z :=
  Z.max TAIL_EMISSION_PER_BLOCK ((MINEABLE_CAP - g) / 2 ^ EMISSION_SPEED_FACTOR).

Ltac subsidy_consts :=
  change MINEABLE_CAP with 4900000000000000 in *;
  change TAIL_EMISSION_PER_BLOCK with 19025875 in *;
  change EMISSION_SPEED_FACTOR with 20 in *; change (2 ^ 20) with 1048576 in *;
  change (4900000000000000 / 1048576) with 4673004150 in *.

Lemma block_subsidy_spec h g : h ≠ 0 → 0 ≤ g → block_subsidy h g = subsidy_spec g.
Proof.
  intros Hh Hg. unfold block_subsidy, clamp_base_reward_to_u64, subsidy_spec, u64_max.
  rewrite Z.shiftr_div_pow2 by done. subsidy_consts.
  pose proof (Z.div_mod (4900000000000000 - g) 1048576).
  pose proof (Z.mod_pos_bound (4900000000000000 - g) 1048576).
  repeat case_match; lia.
Qed.

Lemma subsidy_spec_bounds g : 0 ≤ g →
  TAIL_EMISSION_PER_BLOCK ≤ subsidy_spec g ≤ MINEABLE_CAP / 2 ^ EMISSION_SPEED_FACTOR.
Proof.
  intros Hg. unfold subsidy_spec. subsidy_consts.
  pose proof (Z.div_le_mono (4900000000000000 - g) 4900000000000000 1048576). subsidy_consts. lia.
Qed.

Lemma generated_nonneg n : 0 ≤ generated n.
Proof.
  induction n as [|n IH]; cbn [generated]; [done|].
  rewrite block_subsidy_spec by lia. pose proof (subsidy_spec_bounds _ IH).
  subsidy_consts. lia.
Qed.

(** The subsidy. Genesis has none; a later block has the tail emission
    or the fraction [2^-20] of what is left of the mineable cap, whichever is
    more, which fits a [u64] whatever the amount generated before it; more
    generated never gives more reward; and a reward above the tail emission
    never takes the total over the cap. *)
Theorem block_subsidy_correct h g : is_u 64 h → is_u 128 g →
  (h = 0 → block_subsidy h g = 0)
  ∧ (h ≠ 0 → block_subsidy h g = subsidy_spec g
       ∧ TAIL_EMISSION_PER_BLOCK ≤ block_subsidy h g ≤ MINEABLE_CAP / 2 ^ EMISSION_SPEED_FACTOR
       ∧ (∀ g', g ≤ g' → block_subsidy h g' ≤ block_subsidy h g)
       ∧ (TAIL_EMISSION_PER_BLOCK < block_subsidy h g → g + block_subsidy h g ≤ MINEABLE_CAP)).
Proof.
  intros Hh [Hg _]. split; [by intros ->|]. intros Hz.
  rewrite (block_subsidy_spec h g) by done. split; [done|]. split; [by apply subsidy_spec_bounds|].
  split.
  - intros g' Hle. rewrite block_subsidy_spec by lia. unfold subsidy_spec. subsidy_consts.
    pose proof (Z.div_le_mono (4900000000000000 - g') (4900000000000000 - g) 1048576). lia.
  - unfold subsidy_spec. subsidy_consts. intros Ht.
    pose proof (Z.div_mod (4900000000000000 - g) 1048576).
    pose proof (Z.mod_pos_bound (4900000000000000 - g) 1048576). lia.
Qed.

Lemma block_subsidy_correct_witness :
  is_u 64 7 ∧ is_u 128 1000 ∧ (7 ≠ 0 → block_subsidy 7 1000 = subsidy_spec 1000).
Proof.
  split; [done|]. split; [done|]. intros Hz.
  apply (block_subsidy_correct 7 1000); [done|done|exact Hz].
Defined.

(** Along a chain the reward never increases with the height, and the
    total generated stays within the mineable cap as long as the last reward
    is above the tail emission; from then on it grows by exactly the tail. *)
Theorem emission_schedule n :
  block_subsidy (Z.of_nat (S (S n))) (generated (S n))
    ≤ block_subsidy (Z.of_nat (S n)) (generated n)
  ∧ (TAIL_EMISSION_PER_BLOCK < block_subsidy (Z.of_nat (S n)) (generated n) →
       generated (S n) ≤ MINEABLE_CAP)
  ∧ (block_subsidy (Z.of_nat (S n)) (generated n) = TAIL_EMISSION_PER_BLOCK →
       ∀ k, generated (n + k) = generated n + Z.of_nat k * TAIL_EMISSION_PER_BLOCK).
Proof.
  pose proof (generated_nonneg n) as Hn. pose proof (generated_nonneg (S n)) as HSn.
  rewrite !block_subsidy_spec by lia. split_and!.
  - unfold subsidy_spec. cbn [generated]. rewrite block_subsidy_spec by lia.
    pose proof (subsidy_spec_bounds _ Hn). subsidy_consts.
    pose proof (Z.div_le_mono (4900000000000000 - (generated n + subsidy_spec (generated n)))
      (4900000000000000 - generated n) 1048576). lia.
  - intros Ht. cbn [generated]. rewrite block_subsidy_spec by lia.
    unfold subsidy_spec in *. subsidy_consts.
    pose proof (Z.div_mod (4900000000000000 - generated n) 1048576).
    pose proof (Z.mod_pos_bound (4900000000000000 - generated n) 1048576). lia.
  - intros Ht k. induction k as [|k IH]; [rewrite Nat.add_0_r; lia|].
    rewrite Nat.add_succ_r. cbn [generated]. pose proof (generated_nonneg (n + k)).
    rewrite block_subsidy_spec by lia. rewrite IH in *. unfold subsidy_spec in *. subsidy_consts.
    pose proof (Z.div_le_mono (4900000000000000 - (generated n + Z.of_nat k * 19025875))
      (4900000000000000 - generated n) 1048576). lia.
Qed.
