(* ===== verification/Vault.v ===== *)
(** * Vault and multisig covenants ([vault.rs])

    The covenant payloads with their parsers, the number of witness slots of a
    covenant, and the sorted-list search of the vault whitelist. *)

From S2P Require Import Prelude Bytes Errors Constants CompactSize.

(* rust: vault.rs 9-17 VaultCovenant *)
Record VaultCovenant : Type := mkVaultCovenant {
  owner_lock_id : bytes; v_threshold : Z; v_key_count : Z; v_keys : list bytes;
  whitelist_count : Z; whitelist : list bytes }.

(* rust: vault.rs 19-24 MultisigCovenant *)
Record MultisigCovenant : Type := mkMultisigCovenant {
  m_threshold : Z; m_key_count : Z; m_keys : list bytes }.

(** [data[i]], for an index that the code has checked. *)
Definition byte_at (i : Z) (data : bytes) : Z := byte_val (nth (Z.to_nat i) data x00).

(* rust: vault.rs 233-235 strictly_sorted_unique_32 *)
Fixpoint strictly_sorted_unique_32 (xs : list bytes) : bool :=
  match xs with
  | a :: (b :: _) as xs' => bytes_ltb a b && strictly_sorted_unique_32 xs'
  | _ => true
  end.

(** [slice::binary_search]: [base] and [size] are the window; the fuel is the
    length of the list, and the window at least halves. *)
Fixpoint binary_search_from (fuel : nat) (l : list bytes) (target : bytes)
    (base size : nat) : bool :=
  match fuel with
  | S fuel =>
      if (1 <? size)%nat then
        let half := (size / 2)%nat in
        let mid := (base + half)%nat in
        let base := match bytes_cmp (nth mid l []) target with Gt => base | _ => mid end in
        binary_search_from fuel l target base (size - half)
      else bool_decide (bytes_cmp (nth base l []) target = Eq)
  | O => false
  end.

(* rust: vault.rs 229-231 hash_in_sorted_32 *)
Definition hash_in_sorted_32 (l : list bytes) (target : bytes) : bool :=
  if (length l =? 0)%nat then false
  else binary_search_from (S (length l)) l target 0 (length l).

(** The loop reading [n] keys from [offset]. *)
(* rust: vault.rs 64-75 parse_vault_covenant_data_inner *)
Fixpoint parse_vault_keys (n : nat) (covenant_data : bytes) (offset : Z) : res (list bytes * Z) :=
  match n with
  | O => Ok ([], offset)
  | S n =>
      if len covenant_data <? offset + 32
      then tx_err TxErrVaultMalformed "CORE_VAULT truncated keys" else
      let k := slice offset (offset + 32) covenant_data in
      '(ks, offset) ← parse_vault_keys n covenant_data (offset + 32);
      Ok (k :: ks, offset)
  end.

(** The loops whose bounds were checked before. *)
(* rust: vault.rs 107-112 parse_vault_covenant_data_inner *)
Fixpoint read_hashes (n : nat) (data : bytes) (offset : Z) : list bytes :=
  match n with
  | O => []
  | S n => slice offset (offset + 32) data :: read_hashes n data (offset + 32)
  end.

(* rust: vault.rs 34-136 parse_vault_covenant_data_inner *)
Definition parse_vault_covenant_data_inner (covenant_data : bytes)
    (enforce_whitelist_canonical : bool) : res VaultCovenant :=
  if len covenant_data <? 34
  then tx_err TxErrVaultMalformed "CORE_VAULT covenant_data too short" else
  let owner_lock_id := slice 0 32 covenant_data in
  let threshold := byte_at 32 covenant_data in
  let key_count := byte_at 33 covenant_data in
  if (key_count =? 0) || (MAX_VAULT_KEYS <? key_count)
  then tx_err TxErrVaultParamsInvalid "CORE_VAULT key_count out of range" else
  if (threshold =? 0) || (key_count <? threshold)
  then tx_err TxErrVaultParamsInvalid "CORE_VAULT threshold out of range" else
  '(keys, offset) ← parse_vault_keys (Z.to_nat key_count) covenant_data 34;
  if negb (strictly_sorted_unique_32 keys)
  then tx_err TxErrVaultKeysNotCanonical "CORE_VAULT keys not strictly sorted" else
  if len covenant_data <? offset + 2
  then tx_err TxErrVaultMalformed "CORE_VAULT missing whitelist_count" else
  let whitelist_count := le_decode (slice offset (offset + 2) covenant_data) in
  let offset := offset + 2 in
  if (whitelist_count =? 0) || (MAX_VAULT_WHITELIST_ENTRIES <? whitelist_count)
  then tx_err TxErrVaultParamsInvalid "CORE_VAULT whitelist_count out of range" else
  let expected_len := 32 + 1 + 1 + key_count * 32 + 2 + whitelist_count * 32 in
  if negb (len covenant_data =? expected_len)
  then tx_err TxErrVaultMalformed "CORE_VAULT covenant_data length mismatch" else
  let whitelist := read_hashes (Z.to_nat whitelist_count) covenant_data offset in
  _ ← (if enforce_whitelist_canonical then
         if negb (strictly_sorted_unique_32 whitelist)
         then tx_err TxErrVaultWhitelistNotCanonical
                "CORE_VAULT whitelist not strictly sorted"
         else if hash_in_sorted_32 whitelist owner_lock_id
         then tx_err TxErrVaultOwnerDestinationForbidden
                "CORE_VAULT whitelist contains owner_lock_id"
         else Ok ()
       else Ok ());
  Ok (mkVaultCovenant owner_lock_id threshold key_count keys whitelist_count whitelist).

(* rust: vault.rs 26-28 parse_vault_covenant_data *)
Definition parse_vault_covenant_data (covenant_data : bytes) : res VaultCovenant :=
  parse_vault_covenant_data_inner covenant_data true.

(* rust: vault.rs 30-32 parse_vault_covenant_data_for_spend *)
Definition parse_vault_covenant_data_for_spend (covenant_data : bytes) : res VaultCovenant :=
  parse_vault_covenant_data_inner covenant_data false.

(* rust: vault.rs 138-152 validate_multisig_counts *)
Definition validate_multisig_counts (threshold key_count : Z) : res unit :=
  if (key_count =? 0) || (MAX_MULTISIG_KEYS <? key_count)
  then tx_err TxErrCovenantTypeInvalid "CORE_MULTISIG key_count out of range" else
  if (threshold =? 0) || (key_count <? threshold)
  then tx_err TxErrCovenantTypeInvalid "CORE_MULTISIG threshold out of range" else
  Ok ().

(* rust: vault.rs 154-156 multisig_expected_len *)
Definition multisig_expected_len (key_count : Z) : Z := 2 + key_count * 32.

(* rust: vault.rs 158-168 parse_multisig_keys *)
Definition parse_multisig_keys (covenant_data : bytes) (key_count : Z) : list bytes :=
  read_hashes (Z.to_nat key_count) covenant_data 2.

(* rust: vault.rs 170-203 parse_multisig_covenant_data *)
Definition parse_multisig_covenant_data (covenant_data : bytes) : res MultisigCovenant :=
  if len covenant_data <? 34
  then tx_err TxErrCovenantTypeInvalid "CORE_MULTISIG covenant_data too short" else
  let threshold := byte_at 0 covenant_data in
  let key_count := byte_at 1 covenant_data in
  _ ← validate_multisig_counts threshold key_count;
  let expected_len := multisig_expected_len key_count in
  if negb (len covenant_data =? expected_len)
  then tx_err TxErrCovenantTypeInvalid "CORE_MULTISIG covenant_data length mismatch" else
  let keys := parse_multisig_keys covenant_data key_count in
  if negb (strictly_sorted_unique_32 keys)
  then tx_err TxErrCovenantTypeInvalid "CORE_MULTISIG keys not strictly sorted" else
  Ok (mkMultisigCovenant threshold key_count keys).

(* rust: vault.rs 205-211 output_descriptor_bytes *)
Definition output_descriptor_bytes (covenant_type : Z) (covenant_data : bytes) : bytes :=
  let out := [] ++ u16_le covenant_type in
  let out := encode_compact_size (len covenant_data) out in
  out ++ covenant_data.

(** [covenant_data.get(i).copied().unwrap_or(1)] *)
Definition get_or_1 (i : nat) (data : bytes) : Z := from_option byte_val 1 (data !! i).

(* rust: vault.rs 213-227 witness_slots *)
Definition witness_slots (covenant_type : Z) (covenant_data : bytes) : res Z :=
  if covenant_type =? COV_TYPE_P2PK then Ok 1
  else if covenant_type =? COV_TYPE_CORE_STEALTH then Ok CORE_STEALTH_WITNESS_SLOTS
  else if covenant_type =? COV_TYPE_MULTISIG then Ok (get_or_1 1 covenant_data)
  else if covenant_type =? COV_TYPE_VAULT then Ok (get_or_1 33 covenant_data)
  else if covenant_type =? COV_TYPE_HTLC then Ok 2
  else if covenant_type =? COV_TYPE_CORE_SIMPLICITY then Ok SIMPLICITY_WITNESS_SLOTS
  else tx_err TxErrCovenantTypeInvalid "unsupported covenant in witness_slots".

(** ** Sorted lists and the search *)

Abbreviation sorted32 := (StronglySorted bytes_lt).

Lemma strictly_sorted_iff xs : strictly_sorted_unique_32 xs = true ↔ sorted32 xs.
Proof.
  transitivity (Sorted bytes_lt xs).
  - induction xs as [|a [|b xs] IH]; [split; by constructor|split; [by repeat constructor|done]|].
    change (strictly_sorted_unique_32 (a :: b :: xs))
      with (bytes_ltb a b && strictly_sorted_unique_32 (b :: xs)).
    rewrite andb_true_iff, IH, bytes_ltb_lt. split.
    + intros [Hab Hs]. constructor; [done|by constructor].
    + intros Hs. apply Sorted_inv in Hs as [Hs Hh]. apply HdRel_inv in Hh. done.
  - split; [apply Sorted_StronglySorted; intros ???; by etrans|apply StronglySorted_Sorted].
Qed.

Lemma sorted32_lookup xs i j x y : sorted32 xs → (i < j)%nat →
  xs !! i = Some x → xs !! j = Some y → bytes_lt x y.
Proof.
  intros Hs. revert i j. induction Hs as [|a xs Hs IH Ha]; intros i j Hij Hi Hj; [done|].
  destruct j as [|j]; [lia|]. destruct i as [|i]; simpl in *.
  - simplify_eq. rewrite Forall_lookup in Ha. eauto.
  - apply (IH i j); [lia|done..].
Qed.

Lemma bytes_cmp_gt_lt x y : bytes_cmp x y = Gt ↔ bytes_lt y x.
Proof.
  unfold bytes_lt. rewrite (bytes_cmp_antisym x y). by destruct (bytes_cmp x y).
Qed.

Lemma binary_search_from_correct fuel l target base size :
  sorted32 l → (1 ≤ size ≤ fuel)%nat → (base + size ≤ length l)%nat →
  (∀ p, l !! p = Some target → (base ≤ p < base + size)%nat) →
  binary_search_from fuel l target base size = true ↔ target ∈ l.
Proof.
  intros Hs. revert base size; induction fuel as [|fuel IH]; intros base size Hf Hb Hp; [lia|].
  cbn [binary_search_from]. case_match eqn:Hc.
  - apply Nat.ltb_lt in Hc.
    assert (1 ≤ size / 2)%nat by (apply Nat.div_le_lower_bound; lia).
    pose proof (Nat.div_mod_eq size 2). pose proof (Nat.mod_upper_bound size 2).
    destruct (lookup_lt_is_Some_2 l (base + size / 2)) as [m Hm]; [lia|].
    rewrite (nth_lookup_Some _ _ _ _ Hm).
    destruct (bytes_cmp m target) eqn:Hcmp; (apply IH; [lia..|]);
      intros p Ht; specialize (Hp p Ht).
    + apply bytes_cmp_eq in Hcmp as ->. 
      destruct (decide (p < base + size / 2)%nat); [|lia].
      exfalso. apply (irreflexivity bytes_lt target). by eapply sorted32_lookup.
    + destruct (decide (p < base + size / 2)%nat); [|lia].
      exfalso. apply (irreflexivity bytes_lt target). etrans; [by eapply sorted32_lookup|done].
    + apply bytes_cmp_gt_lt in Hcmp. destruct (decide (base + size / 2 ≤ p)%nat); [|lia].
      exfalso. destruct (decide (base + size / 2 = p)%nat) as [<-|].
      * rewrite Hm in Ht. injection Ht as ->. by apply (irreflexivity bytes_lt target).
      * apply (irreflexivity bytes_lt target). etrans; [done|].
        eapply sorted32_lookup; [done| |done..]. lia.
  - apply Nat.ltb_ge in Hc. assert (size = 1)%nat by lia. subst size.
    destruct (lookup_lt_is_Some_2 l base) as [m Hm]; [lia|].
    rewrite (nth_lookup_Some _ _ _ _ Hm), bool_decide_eq_true, bytes_cmp_eq. split.
    + intros ->. by eapply list_elem_of_lookup_2.
    + intros [p Ht]%list_elem_of_lookup_1. assert (p = base) as -> by (specialize (Hp p Ht); lia).
      congruence.
Qed.

Lemma hash_in_sorted_32_elem l target : sorted32 l →
  hash_in_sorted_32 l target = bool_decide (target ∈ l).
Proof.
  intros Hs. unfold hash_in_sorted_32. apply eq_bool_prop_intro.
  rewrite bool_decide_spec. destruct l as [|x l]; [simpl; split; [done|by intros ?%elem_of_nil]|].
  cbn [length Nat.eqb]. rewrite Is_true_true. apply binary_search_from_correct; [done|simpl; lia..|].
  intros p Hp%lookup_lt_Some. cbn [length] in *. lia.
Qed.

(** ** Canonical payloads *)

Abbreviation hashes32 := (Forall (λ k : bytes, len k = 32)).

Lemma mjoin_hashes_length ks : hashes32 ks → len (mjoin ks) = 32 * len ks.
Proof.
  induction 1 as [|k ks Hk Hks IH]; [done|].
  change (mjoin (k :: ks)) with (k ++ mjoin ks). rewrite length_app. cbn [length]. lia.
Qed.

Lemma read_hashes_spec n data o : 0 ≤ o → o + 32 * Z.of_nat n ≤ len data →
  length (read_hashes n data o) = n ∧ hashes32 (read_hashes n data o)
  ∧ mjoin (read_hashes n data o) = slice o (o + 32 * Z.of_nat n) data.
Proof.
  revert o; induction n as [|n IH]; intros o Ho Hn; cbn [read_hashes].
  - split_and!; [done|constructor|]. unfold slice. by rewrite Z.mul_0_r, Z.add_0_r, Z.sub_diag.
  - destruct (IH (o + 32)) as (Hl & Hh & Hj); [lia..|].
    split_and!; [simpl; congruence|constructor; [rewrite slice_length; lia|done]|].
    change (mjoin (?k :: ?ks)) with (k ++ mjoin ks). rewrite Hj.
    rewrite (slice_app_split o (o + 32) (o + 32 * Z.of_nat (S n))) by lia.
    do 2 f_equal. lia.
Qed.

Lemma mjoin_hashes_inj ks1 ks2 : hashes32 ks1 → hashes32 ks2 → length ks1 = length ks2 →
  mjoin ks1 = mjoin ks2 → ks1 = ks2.
Proof.
  intros H1. revert ks2; induction H1 as [|k ks Hk Hks IH]; intros [|k2 ks2] H2 Hl He;
    try done.
  change (mjoin (k :: ks)) with (k ++ mjoin ks) in He.
  change (mjoin (k2 :: ks2)) with (k2 ++ mjoin ks2) in He.
  apply Forall_cons_1 in H2 as [Hk2 Hks2]. apply app_inj_1 in He as [-> He]; [|lia].
  f_equal. apply IH; [done|by injection Hl|done].
Qed.

Lemma read_hashes_mid a ks c o : hashes32 ks → o = len a →
  read_hashes (length ks) (a ++ mjoin ks ++ c) o = ks.
Proof.
  intros Hks ->. pose proof (mjoin_hashes_length ks Hks).
  destruct (read_hashes_spec (length ks) (a ++ mjoin ks ++ c) (len a)) as (Hl & Hh & Hj);
    [lia|rewrite !length_app; lia|].
  apply mjoin_hashes_inj; [done..|]. rewrite Hj. apply slice_mid; lia.
Qed.

Lemma byte_at_mid a b c i : i = len a → byte_at i (a ++ [b] ++ c) = byte_val b.
Proof.
  intros ->. unfold byte_at. rewrite Nat2Z.id. by rewrite (nth_middle a c b).
Qed.

Lemma byte_at_slice i data : 0 ≤ i < len data →
  slice i (i + 1) data = le_encode 1 (byte_at i data).
Proof.
  intros Hi. rewrite le_encode_1'. unfold byte_at. rewrite byte_of_Z_val.
  destruct (lookup_lt_is_Some_2 data (Z.to_nat i)) as [b Hb]; [lia|].
  rewrite (nth_lookup_Some _ _ _ _ Hb). unfold slice.
  replace (Z.to_nat (i + 1 - i)) with 1%nat by lia.
  by rewrite (drop_S _ _ _ Hb).
Qed.

Lemma byte_at_u8 i data : is_u 8 (byte_at i data).
Proof. apply byte_val_u8. Qed.

(** *** Multisig *)

Definition multisig_valid (c : MultisigCovenant) : Prop :=
  1 ≤ m_threshold c ≤ m_key_count c ∧ m_key_count c ≤ MAX_MULTISIG_KEYS
  ∧ len (m_keys c) = m_key_count c ∧ hashes32 (m_keys c) ∧ sorted32 (m_keys c).
Definition enc_multisig (c : MultisigCovenant) : bytes :=
  le_encode 1 (m_threshold c) ++ le_encode 1 (m_key_count c) ++ mjoin (m_keys c).

Lemma le_encode_1_byte_at a z c i : is_u 8 z → i = len a →
  byte_at i (a ++ le_encode 1 z ++ c) = z.
Proof. intros Hz Hi. rewrite le_encode_1', byte_at_mid by done. by apply byte_val_of_Z_small. Qed.

Lemma parse_multisig_Ok data c :
  parse_multisig_covenant_data data = Ok c ↔ multisig_valid c ∧ data = enc_multisig c.
Proof.
  unfold parse_multisig_covenant_data, validate_multisig_counts, multisig_expected_len,
    parse_multisig_keys, multisig_valid, enc_multisig, MAX_MULTISIG_KEYS. split.
  - intros H. inv_res. cbn [m_threshold m_key_count m_keys].
    pose proof (byte_at_u8 0 data) as H0. pose proof (byte_at_u8 1 data) as H1. unfold is_u in *.
    destruct (read_hashes_spec (Z.to_nat (byte_at 1 data)) data 2) as (Hl & Hh & Hj); [lia..|].
    rewrite Hl. split.
    + split_and!; [lia..|done|apply strictly_sorted_iff; by apply negb_false_iff].
    + rewrite Hj, <- !byte_at_slice by lia. change (1 + 1) with 2. change (0 + 1) with 1.
      rewrite <- !slice_app_split by lia.
      replace (2 + _) with (len data) by lia. by rewrite slice_all.
  - destruct c as [t k ks]; cbn [m_threshold m_key_count m_keys].
    intros [(? & ? & Hk & Hh & Hs) ->]. pose proof (mjoin_hashes_length ks Hh).
    rewrite !length_app, !le_encode_length.
    pose proof (le_encode_1_byte_at [] t (le_encode 1 k ++ mjoin ks) 0) as Ht.
    pose proof (le_encode_1_byte_at (le_encode 1 t) k (mjoin ks) 1) as Hkc.
    rewrite app_nil_l in Ht. rewrite Ht, Hkc by (unfold is_u; simpl; lia).
    do 3 decide_if. run_bind. decide_if.
    rewrite <- Hk, Nat2Z.id.
    pose proof (read_hashes_mid (le_encode 1 t ++ le_encode 1 (len ks)) ks [] 2 Hh) as Hr.
    rewrite app_nil_r, <- app_assoc in Hr. rewrite Hr by done.
    by rewrite (proj2 (strictly_sorted_iff ks)).
Qed.

(** The multisig parser accepts exactly the canonical payloads: a
    threshold between 1 and the number of keys, at most [MAX_MULTISIG_KEYS]
    keys, strictly increasing 32-byte keys (so none twice) and nothing after
    them; every accepted payload is the encoding of the parsed covenant. *)
Theorem parse_multisig_canonical data c :
  parse_multisig_covenant_data data = Ok c ↔ multisig_valid c ∧ data = enc_multisig c.
Proof. apply parse_multisig_Ok. Qed.

(** *** Vault *)

Lemma parse_vault_keys_Ok n data o ks o' : 0 ≤ o →
  parse_vault_keys n data o = Ok (ks, o') ↔
  o + 32 * Z.of_nat n ≤ Z.max o (len data) ∧ ks = read_hashes n data o ∧ o' = o + 32 * Z.of_nat n.
Proof.
  revert o ks o'; induction n as [|n IH]; intros o ks o' Ho; cbn [parse_vault_keys read_hashes].
  - split; [intros H; inv_res; split_and!; [lia|done|lia]|intros (_ & -> & ->); do 2 f_equal; lia].
  - split.
    + intros H. case_match; [done|]. apply bind_Ok in H as ([ks' o2] & Hx & H).
      apply IH in Hx as (? & -> & ->); [|lia]. inv_res. split_and!; [lia|done|lia].
    + intros (? & -> & ->). decide_if.
      rewrite (proj2 (IH (o + 32) (read_hashes n data (o + 32)) (o + 32 + 32 * Z.of_nat n) ltac:(lia))) by (split_and!; [lia|done|done]).
      run_bind. do 2 f_equal. lia.
Qed.

Definition vault_shape (v : VaultCovenant) : Prop :=
  len (owner_lock_id v) = 32 ∧ 1 ≤ v_threshold v ≤ v_key_count v
  ∧ v_key_count v ≤ MAX_VAULT_KEYS ∧ len (v_keys v) = v_key_count v ∧ hashes32 (v_keys v)
  ∧ sorted32 (v_keys v) ∧ 1 ≤ whitelist_count v ≤ MAX_VAULT_WHITELIST_ENTRIES
  ∧ len (whitelist v) = whitelist_count v ∧ hashes32 (whitelist v).
Definition vault_whitelist_canonical (v : VaultCovenant) : Prop :=
  sorted32 (whitelist v) ∧ ¬ (owner_lock_id v ∈ whitelist v).
Definition enc_vault (v : VaultCovenant) : bytes :=
  owner_lock_id v ++ le_encode 1 (v_threshold v) ++ le_encode 1 (v_key_count v)
  ++ mjoin (v_keys v) ++ u16_le (whitelist_count v) ++ mjoin (whitelist v).

Lemma whitelist_check_Ok (b : bool) wl owner :
  (if b then
     if negb (strictly_sorted_unique_32 wl)
     then tx_err TxErrVaultWhitelistNotCanonical "CORE_VAULT whitelist not strictly sorted"
     else if hash_in_sorted_32 wl owner
     then tx_err TxErrVaultOwnerDestinationForbidden "CORE_VAULT whitelist contains owner_lock_id"
     else Ok ()
   else Ok ()) = @Ok TxError unit () ↔
  (b = true → sorted32 wl ∧ ¬ (owner ∈ wl)).
Proof.
  destruct b; [|split; [done|done]]. split.
  - intros H _. inv_res. apply negb_false_iff, strictly_sorted_iff in Hb. split; [done|].
    rewrite hash_in_sorted_32_elem in Hb0 by done. by apply bool_decide_eq_false in Hb0.
  - intros H. destruct (H eq_refl) as [Hs Hn].
    rewrite (proj2 (strictly_sorted_iff wl)), hash_in_sorted_32_elem by done.
    by rewrite bool_decide_eq_false_2.
Qed.

Lemma parse_vault_inner_sound data b v : parse_vault_covenant_data_inner data b = Ok v →
  vault_shape v ∧ (b = true → vault_whitelist_canonical v) ∧ data = enc_vault v.
Proof.
  unfold parse_vault_covenant_data_inner, vault_shape, vault_whitelist_canonical, enc_vault.
  intros H. inv_res.
  match goal with Hw : _ = Ok ?u |- _ => destruct u; pose proof (proj1 (whitelist_check_Ok _ _ _) Hw) as Hwl end.
  cbn [owner_lock_id v_threshold v_key_count v_keys whitelist_count whitelist].
  pose proof (byte_at_u8 32 data) as H0. pose proof (byte_at_u8 33 data) as H1. unfold is_u in *.
  unfold MAX_VAULT_KEYS, MAX_VAULT_WHITELIST_ENTRIES in *.
  apply parse_vault_keys_Ok in Hx as (Hle & -> & ->); [|lia].
  destruct (read_hashes_spec (Z.to_nat (byte_at 33 data)) data 34) as (Hl & Hh & Hj); [lia..|].
  set (o := 34 + 32 * Z.of_nat (Z.to_nat (byte_at 33 data))) in *.
  pose proof (le_decode_bound (slice o (o + 2) data)) as Hw.
  set (wc := le_decode (slice o (o + 2) data)) in *.
  destruct (read_hashes_spec (Z.to_nat wc) data (o + 2)) as (Hl2 & Hh2 & Hj2); [lia..|].
  split; [|split; [exact Hwl|]].
  - split_and!; try done; try lia.
    + rewrite slice_length; lia.
    + apply strictly_sorted_iff. by apply negb_false_iff.
  - rewrite Hj, Hj2, <- !byte_at_slice by lia. unfold u16_le, wc. rewrite le_slice by lia.
    change (32 + 1) with 33. change (33 + 1) with 34.
    rewrite <- !slice_app_split by lia.
    replace (o + 2 + _) with (len data) by lia. by rewrite slice_all.
Qed.

Lemma enc_vault_length v : vault_shape v →
  len (enc_vault v) = 36 + 32 * v_key_count v + 32 * whitelist_count v.
Proof.
  intros (? & ? & ? & Hk & Hh & ? & ? & Hw & Hwh). unfold enc_vault, u16_le.
  apply mjoin_hashes_length in Hh. apply mjoin_hashes_length in Hwh.
  rewrite !length_app, !le_encode_length. lia.
Qed.

Lemma parse_vault_inner_complete v b : vault_shape v → (b = true → vault_whitelist_canonical v) →
  parse_vault_covenant_data_inner (enc_vault v) b = Ok v.
Proof.
  intros Hv Hc. pose proof (enc_vault_length v Hv) as Hlen.
  destruct v as [ow t k ks wc wl]. unfold vault_shape, vault_whitelist_canonical in *.
  unfold parse_vault_covenant_data_inner.
  cbn [owner_lock_id v_threshold v_key_count v_keys whitelist_count whitelist] in *.
  destruct Hv as (Ho & Ht & Hk & Hlk & Hhk & Hsk & Hw & Hlw & Hhw).
  unfold MAX_VAULT_KEYS, MAX_VAULT_WHITELIST_ENTRIES in *.
  pose proof (mjoin_hashes_length ks Hhk) as Hjk.
  remember (enc_vault _) as data eqn:Hdata. unfold enc_vault in Hdata.
  cbn [owner_lock_id v_threshold v_key_count v_keys whitelist_count whitelist] in Hdata.
  assert (slice 0 32 data = ow) as ->.
  { rewrite Hdata. apply (slice_mid []); simpl; lia. }
  assert (byte_at 32 data = t) as ->.
  { rewrite Hdata. apply le_encode_1_byte_at; [unfold is_u; lia|lia]. }
  assert (byte_at 33 data = k) as ->.
  { rewrite Hdata, app_assoc. apply le_encode_1_byte_at; [unfold is_u; lia|].
    rewrite length_app, le_encode_length. lia. }
  assert (read_hashes (Z.to_nat k) data 34 = ks) as Hks.
  { replace (Z.to_nat k) with (length ks) by lia. rewrite Hdata.
    do 2 rewrite app_assoc. apply read_hashes_mid; [done|].
    rewrite !length_app, !le_encode_length. lia. }
  assert (34 + 32 * Z.of_nat (Z.to_nat k) = 34 + 32 * k) as Hoff by lia.
  assert (slice (34 + 32 * k) (34 + 32 * k + 2) data = u16_le wc) as Hwc.
  { rewrite Hdata. do 3 rewrite app_assoc. unfold u16_le.
    apply slice_mid; rewrite !length_app, !le_encode_length; lia. }
  assert (read_hashes (Z.to_nat wc) data (34 + 32 * k + 2) = wl) as Hwl.
  { replace (Z.to_nat wc) with (length wl) by lia. rewrite Hdata.
    rewrite <- (app_nil_r (mjoin wl)). do 4 rewrite app_assoc.
    unfold u16_le. apply read_hashes_mid; [done|].
    rewrite !length_app, !le_encode_length. lia. }
  do 3 decide_if.
  rewrite (proj2 (parse_vault_keys_Ok (Z.to_nat k) data 34 ks (34 + 32 * k) ltac:(lia)))
    by (split_and!; [lia|done|lia]).
  run_bind. rewrite (proj2 (strictly_sorted_iff ks)) by done. simpl negb; cbv iota.
  decide_if. rewrite Hwc, le_decode_u16 by (unfold is_u; lia). do 2 decide_if.
  rewrite Hwl, (proj2 (whitelist_check_Ok b wl ow)) by done. done.
Qed.

(** The creation-time vault parser accepts exactly the canonical payloads:
    a threshold between 1 and the number of keys, strictly increasing keys, a
    strictly increasing nonempty whitelist of at most
    [MAX_VAULT_WHITELIST_ENTRIES] descriptors that does not contain the
    owner's own lock, and nothing after it.  The spend-time parser accepts the
    same payloads, with the same result, without judging the whitelist. *)
Theorem parse_vault_canonical data v :
  (parse_vault_covenant_data data = Ok v ↔
     vault_shape v ∧ vault_whitelist_canonical v ∧ data = enc_vault v)
  ∧ (parse_vault_covenant_data_for_spend data = Ok v ↔ vault_shape v ∧ data = enc_vault v).
Proof.
  unfold parse_vault_covenant_data, parse_vault_covenant_data_for_spend. split; split.
  - intros (? & ? & ?)%parse_vault_inner_sound. auto.
  - intros (? & ? & ->). by apply parse_vault_inner_complete.
  - intros (? & _ & ?)%parse_vault_inner_sound. auto.
  - intros (? & ->). by apply parse_vault_inner_complete.
Qed.

(** A payload has one reading. *)
Lemma enc_multisig_inj c1 c2 : multisig_valid c1 → multisig_valid c2 →
  enc_multisig c1 = enc_multisig c2 → c1 = c2.
Proof.
  intros H1 H2 He. apply (Ok_inj (E := TxError)).
  rewrite <- (proj2 (parse_multisig_Ok (enc_multisig c1) c1)), He by done.
  by apply parse_multisig_Ok.
Qed.
Lemma enc_vault_inj v1 v2 : vault_shape v1 → vault_shape v2 → enc_vault v1 = enc_vault v2 → v1 = v2.
Proof.
  intros H1 H2 He. apply (Ok_inj (E := TxError)).
  rewrite <- (parse_vault_inner_complete v1 false), He by done. by apply parse_vault_inner_complete.
Qed.

(** The binary search of the vault rules is membership: on a strictly
    sorted list it finds a descriptor exactly when it is in the list. *)
Theorem hash_in_sorted_32_correct l target :
  strictly_sorted_unique_32 l = true → hash_in_sorted_32 l target = true ↔ target ∈ l.
Proof.
  intros Hs%strictly_sorted_iff. rewrite hash_in_sorted_32_elem by done. apply bool_decide_eq_true.
Qed.

Definition demo_hashes : list bytes := (λ i, replicate 32 (byte_of_Z i)) <$> [1; 3; 5; 9].

Lemma hash_in_sorted_32_correct_witness :
  strictly_sorted_unique_32 demo_hashes = true ∧
  (hash_in_sorted_32 demo_hashes (replicate 32 x05) = true ↔ replicate 32 x05 ∈ demo_hashes).
Proof. split; [reflexivity|]. apply hash_in_sorted_32_correct. reflexivity. Defined.
