(* ===== verification/Suites.v ===== *)
(** * Signature suites and their rotation ([suite_registry.rs])

    The registry of suites, the sets of suites valid at a height, and the
    scheduled rotation from one suite to another.  [&dyn RotationProvider] is
    the record [RotationProvider]; a [String] error is a constructor of
    [RotationError] with the values its text shows.  [normalized_rotation_network_name]
    (Unicode trimming of a command-line argument) is left out: the functions
    below take the normalized name, as their [_normalized] versions do. *)

From S2P Require Import Prelude Bytes Errors Constants.

(* rust: suite_registry.rs 15-23 SuiteParams *)
Record SuiteParams : Type := mkSuiteParams {
  sp_suite_id : Z; sp_pubkey_len : Z; sp_sig_len : Z; sp_verify_cost : Z;
  sp_alg_name : string }.

#[export] Instance SuiteParams_eq_dec : EqDecision SuiteParams.
Proof. solve_decision. Defined.

(* rust: suite_registry.rs 28-30 is_structural_witness_carrier_suite_id *)
Definition is_structural_witness_carrier_suite_id (suite_id : Z) : bool :=
  (SUITE_ID_SIMPLICITY_ENVELOPE <=? suite_id) && (suite_id <=? 0xfe).

(* rust: suite_registry.rs 35-37 SuiteRegistry *)
Record SuiteRegistry : Type := mkSuiteRegistry { sr_suites : gmap Z SuiteParams }.
#[export] Instance SuiteRegistry_eq_dec : EqDecision SuiteRegistry.
Proof. solve_decision. Defined.

Definition ml_dsa_87_params : SuiteParams :=
  mkSuiteParams SUITE_ID_ML_DSA_87 ML_DSA_87_PUBKEY_BYTES ML_DSA_87_SIG_BYTES
    VERIFY_COST_ML_DSA_87 "ML-DSA-87".

(* rust: suite_registry.rs 41-54 default_registry *)
Definition default_registry : SuiteRegistry :=
  mkSuiteRegistry (<[SUITE_ID_ML_DSA_87 := ml_dsa_87_params]> ∅).

(* rust: suite_registry.rs 58-71 is_canonical_default_live_manifest *)
Definition is_canonical_default_live_manifest (r : SuiteRegistry) : bool :=
  if negb (size (sr_suites r) =? 1)%nat then false else
  match sr_suites r !! SUITE_ID_ML_DSA_87 with
  | Some p =>
      (sp_suite_id p =? SUITE_ID_ML_DSA_87) && (sp_pubkey_len p =? ML_DSA_87_PUBKEY_BYTES)
      && (sp_sig_len p =? ML_DSA_87_SIG_BYTES) && (sp_verify_cost p =? VERIFY_COST_ML_DSA_87)
      && bool_decide (sp_alg_name p = "ML-DSA-87"%string)
  | None => false
  end.

(** [None] is the panic of the assertion. *)
(* rust: suite_registry.rs 76-87 with_suites *)
Definition with_suites (suites : gmap Z SuiteParams) : option SuiteRegistry :=
  if bool_decide (map_Forall (λ suite_id _,
       is_structural_witness_carrier_suite_id suite_id = false) suites)
  then Some (mkSuiteRegistry suites) else None.

(* rust: suite_registry.rs 90-92 lookup *)
Definition sr_lookup (r : SuiteRegistry) (suite_id : Z) : option SuiteParams :=
  sr_suites r !! suite_id.

(* rust: suite_registry.rs 95-97 is_registered *)
Definition is_registered (r : SuiteRegistry) (suite_id : Z) : bool :=
  bool_decide (is_Some (sr_suites r !! suite_id)).

(** [BTreeMap::values] goes by ascending key; the minimum and the one error
    value do not depend on the order. *)
(* rust: suite_registry.rs 99-112 min_sigcheck_payload_bytes *)
Definition min_sigcheck_payload_bytes (r : SuiteRegistry) : result string (option Z) :=
  try_fold (λ min_payload params,
    payload_bytes ← ok_or (checked_add u64_max (sp_pubkey_len params) (sp_sig_len params))
                      "SuiteRegistry payload footprint overflow"%string;
    Ok (Some (match min_payload with
              | Some current => Z.min current payload_bytes
              | None => payload_bytes
              end)))
    None (snd <$> map_to_list (sr_suites r)).

(* rust: suite_registry.rs 12-12 MAX_LIVE_NATIVE_SUITE_SET_CARDINALITY *)
Definition MAX_LIVE_NATIVE_SUITE_SET_CARDINALITY : nat := 2.

(* rust: suite_registry.rs 117-119 NativeSuiteSet *)
Record NativeSuiteSet : Type := mkNativeSuiteSet { ns_suites : gset Z }.

Inductive RotationError : Type :=
  | CardinalityExceeds (n : nat)
  | NameRequired
  | OldMustDiffer (old : Z)
  | OldNotRegistered (old : Z)
  | NewNotRegistered (new : Z)
  | CreateNotBelowSpend (create spend : Z)
  | SunsetNotAboveSpend (sunset spend : Z)
  | InDescriptor (i : nat) (name : string) (e : RotationError)
  | Overlapping (name1 : string) (create1 spend1 : Z) (name2 : string) (create2 spend2 : Z)
  | FiniteH4Required
  | AtMostOneDescriptor (n : nat).

(* rust: suite_registry.rs 131-141 try_new *)
Definition try_new (ids : list Z) : result RotationError NativeSuiteSet :=
  let suites : gset Z := list_to_set ids in
  if (MAX_LIVE_NATIVE_SUITE_SET_CARDINALITY <? size suites)%nat
  then Err (CardinalityExceeds (size suites))
  else Ok (mkNativeSuiteSet suites).

(** [None] is the panic of [expect]. *)
(* rust: suite_registry.rs 125-127 new *)
Definition native_suite_set_new (ids : list Z) : option NativeSuiteSet :=
  match try_new ids with Ok s => Some s | Err _ => None end.

(* rust: suite_registry.rs 144-146 contains *)
Definition ns_contains (s : NativeSuiteSet) (suite_id : Z) : bool :=
  bool_decide (suite_id ∈ ns_suites s).

(* rust: suite_registry.rs 166-191 RotationProvider *)
Record RotationProvider : Type := mkRotationProvider {
  native_create_suites : Z → NativeSuiteSet;
  native_spend_suites : Z → NativeSuiteSet;
  simplicity_active_at_height : Z → bool }.

(* rust: suite_registry.rs 197-205 DefaultRotationProvider *)
Definition DefaultRotationProvider : RotationProvider := {|
  native_create_suites := λ _, mkNativeSuiteSet {[ SUITE_ID_ML_DSA_87 ]};
  native_spend_suites := λ _, mkNativeSuiteSet {[ SUITE_ID_ML_DSA_87 ]};
  simplicity_active_at_height := λ _, false;
|}.

(* rust: suite_registry.rs 209-216 CryptoRotationDescriptor *)
Record CryptoRotationDescriptor : Type := mkDescriptor {
  d_name : string; old_suite_id : Z; new_suite_id : Z;
  create_height : Z; spend_height : Z; sunset_height : Z }.

(* rust: suite_registry.rs 220-255 validate *)
Definition descriptor_validate (d : CryptoRotationDescriptor) (registry : SuiteRegistry) :
    result RotationError unit :=
  if bool_decide (d_name d = ""%string) then Err NameRequired else
  if old_suite_id d =? new_suite_id d then Err (OldMustDiffer (old_suite_id d)) else
  if negb (is_registered registry (old_suite_id d))
  then Err (OldNotRegistered (old_suite_id d)) else
  if negb (is_registered registry (new_suite_id d))
  then Err (NewNotRegistered (new_suite_id d)) else
  if spend_height d <=? create_height d
  then Err (CreateNotBelowSpend (create_height d) (spend_height d)) else
  if negb (sunset_height d =? 0) && (sunset_height d <=? spend_height d)
  then Err (SunsetNotAboveSpend (sunset_height d) (spend_height d)) else
  Ok ().

(** [NativeSuiteSet::new(&[])] does not panic. *)
(* rust: suite_registry.rs 296-301 descriptor_native_suite_set *)
Definition descriptor_native_suite_set (ids : list Z) : NativeSuiteSet :=
  match try_new ids with Ok s => s | Err _ => mkNativeSuiteSet ∅ end.

(* rust: suite_registry.rs 266-278 native_create_suites *)
Definition descriptor_create_suites (d : CryptoRotationDescriptor) (height : Z) : NativeSuiteSet :=
  if height <? create_height d then descriptor_native_suite_set [old_suite_id d]
  else if height <? spend_height d
  then descriptor_native_suite_set [old_suite_id d; new_suite_id d]
  else descriptor_native_suite_set [new_suite_id d].

(* rust: suite_registry.rs 281-293 native_spend_suites *)
Definition descriptor_spend_suites (d : CryptoRotationDescriptor) (height : Z) : NativeSuiteSet :=
  if height <? create_height d then descriptor_native_suite_set [old_suite_id d]
  else if negb (sunset_height d =? 0) && (sunset_height d <=? height)
  then descriptor_native_suite_set [new_suite_id d]
  else descriptor_native_suite_set [old_suite_id d; new_suite_id d].

(* rust: suite_registry.rs 259-294 DescriptorRotationProvider *)
Definition DescriptorRotationProvider (d : CryptoRotationDescriptor) : RotationProvider := {|
  native_create_suites := descriptor_create_suites d;
  native_spend_suites := descriptor_spend_suites d;
  simplicity_active_at_height := λ _, false;
|}.

(** The first loop, with the index of the descriptor. *)
(* rust: suite_registry.rs 308-311 validate_rotation_set *)
Fixpoint validate_descriptors (i : nat) (ds : list CryptoRotationDescriptor)
    (registry : SuiteRegistry) : result RotationError unit :=
  match ds with
  | [] => Ok ()
  | d :: ds =>
      _ ← map_err (InDescriptor i (d_name d)) (descriptor_validate d registry);
      validate_descriptors (S i) ds registry
  end.

(* rust: suite_registry.rs 316-316 validate_rotation_set *)
Definition overlapping (a b : CryptoRotationDescriptor) : bool :=
  (create_height a <? spend_height b) && (create_height b <? spend_height a).

(** The nested loop over the pairs [i < j]. *)
(* rust: suite_registry.rs 312-328 validate_rotation_set *)
Fixpoint check_overlaps (ds : list CryptoRotationDescriptor) : result RotationError unit :=
  match ds with
  | [] => Ok ()
  | a :: ds =>
      _ ← try_for_each (λ b,
            if overlapping a b
            then Err (Overlapping (d_name a) (create_height a) (spend_height a)
                        (d_name b) (create_height b) (spend_height b))
            else Ok ()) ds;
      check_overlaps ds
  end.

(* rust: suite_registry.rs 304-330 validate_rotation_set *)
Definition validate_rotation_set (ds : list CryptoRotationDescriptor)
    (registry : SuiteRegistry) : result RotationError unit :=
  _ ← validate_descriptors 0 ds registry;
  check_overlaps ds.

(* rust: suite_registry.rs 346-351 canonical_rotation_network_name_normalized *)
Definition canonical_rotation_network_name_normalized (network : string) : option string :=
  if bool_decide (network ∈ ["devnet"; "testnet"; "mainnet"]%string) then Some network else None.

(* rust: suite_registry.rs 362-364 is_v1_production_rotation_network_normalized *)
Definition is_v1_production_rotation_network_normalized (network : string) : bool :=
  bool_decide (network ∈ ["mainnet"; "testnet"]%string).

(* rust: suite_registry.rs 421-430 validate_v1_production_rotation_descriptor *)
Definition validate_v1_production_rotation_descriptor (d : CryptoRotationDescriptor)
    (registry : SuiteRegistry) : result RotationError unit :=
  _ ← descriptor_validate d registry;
  if sunset_height d =? 0 then Err FiniteH4Required else Ok ().

(* rust: suite_registry.rs 435-447 validate_v1_production_rotation_set *)
Definition validate_v1_production_rotation_set (ds : list CryptoRotationDescriptor)
    (registry : SuiteRegistry) : result RotationError unit :=
  match ds with
  | [] => Ok ()
  | [d] => validate_v1_production_rotation_descriptor d registry
  | _ => Err (AtMostOneDescriptor (length ds))
  end.

(* rust: suite_registry.rs 373-382 validate_rotation_descriptor_for_normalized_network *)
Definition validate_rotation_descriptor_for_normalized_network (network : string)
    (d : CryptoRotationDescriptor) (registry : SuiteRegistry) : result RotationError unit :=
  if bool_decide (network ∈ ["mainnet"; "testnet"]%string)
  then validate_v1_production_rotation_descriptor d registry
  else descriptor_validate d registry.

(* rust: suite_registry.rs 398-407 validate_rotation_set_for_normalized_network *)
Definition validate_rotation_set_for_normalized_network (network : string)
    (ds : list CryptoRotationDescriptor) (registry : SuiteRegistry) : result RotationError unit :=
  if bool_decide (network ∈ ["mainnet"; "testnet"]%string)
  then validate_v1_production_rotation_set ds registry
  else validate_rotation_set ds registry.

(** ** Facts *)

Lemma is_registered_spec r i : is_registered r i = true ↔ is_Some (sr_suites r !! i).
Proof. apply bool_decide_eq_true. Qed.

Definition descriptor_wf (d : CryptoRotationDescriptor) (r : SuiteRegistry) : Prop :=
  d_name d ≠ ""%string ∧ old_suite_id d ≠ new_suite_id d
  ∧ is_registered r (old_suite_id d) = true ∧ is_registered r (new_suite_id d) = true
  ∧ create_height d < spend_height d
  ∧ (sunset_height d = 0 ∨ spend_height d < sunset_height d).

Lemma descriptor_validate_Ok d r : descriptor_validate d r = Ok () ↔ descriptor_wf d r.
Proof.
  unfold descriptor_validate, descriptor_wf. split.
  - intros H. inv_res. apply bool_decide_eq_false in Hb.
    split_and!; [done|lia|by apply negb_false_iff|by apply negb_false_iff|lia|lia].
  - intros (? & ? & Ho & Hn & ? & ?). rewrite bool_decide_eq_false_2 by done.
    rewrite Ho, Hn. simpl negb. cbv iota. by repeat decide_if.
Qed.

Lemma descriptor_set_spec ids : (length ids ≤ 2)%nat →
  ns_suites (descriptor_native_suite_set ids) = list_to_set ids.
Proof.
  intros Hl. unfold descriptor_native_suite_set, try_new, MAX_LIVE_NATIVE_SUITE_SET_CARDINALITY.
  destruct (2 <? size (list_to_set ids : gset Z))%nat eqn:Hs; [|done].
  apply Nat.ltb_lt in Hs. exfalso.
  assert (size (list_to_set ids : gset Z) ≤ length ids)%nat; [|lia].
  clear. induction ids as [|i ids IH]; [by rewrite list_to_set_nil, size_empty|].
  rewrite list_to_set_cons, size_union_alt, size_singleton. cbn [length].
  pose proof (subseteq_size (list_to_set ids ∖ {[i]} : gset Z) (list_to_set ids) ltac:(set_solver)). lia.
Qed.

Lemma descriptor_create_spec d h : ns_suites (descriptor_create_suites d h) =
  if h <? create_height d then {[old_suite_id d]}
  else if h <? spend_height d then {[old_suite_id d; new_suite_id d]} else {[new_suite_id d]}.
Proof.
  unfold descriptor_create_suites. repeat case_match;
    rewrite descriptor_set_spec by (simpl; lia); clear; set_solver.
Qed.

Lemma descriptor_spend_spec d h : ns_suites (descriptor_spend_suites d h) =
  if h <? create_height d then {[old_suite_id d]}
  else if negb (sunset_height d =? 0) && (sunset_height d <=? h) then {[new_suite_id d]}
  else {[old_suite_id d; new_suite_id d]}.
Proof.
  unfold descriptor_spend_suites. repeat case_match;
    rewrite descriptor_set_spec by (simpl; lia); clear; set_solver.
Qed.

(** A validated rotation never strands an output.  At every height the
    sets have one or two suites, all registered; whatever suite may be created
    may be spent; a suite that may be created at a height stays spendable at
    every later height before the sunset; before the creation height only the
    old suite is in use, and from the spend height on (and after the sunset)
    only the new one can be created (and spent). *)
Theorem rotation_sound d r h : descriptor_validate d r = Ok () →
  let create := ns_suites (native_create_suites (DescriptorRotationProvider d) h) in
  let spend h := ns_suites (native_spend_suites (DescriptorRotationProvider d) h) in
  create ⊆ spend h
  ∧ (1 ≤ size create ≤ 2)%nat ∧ (1 ≤ size (spend h) ≤ 2)%nat
  ∧ (∀ s, s ∈ spend h → is_registered r s = true)
  ∧ (∀ h' s, h ≤ h' → s ∈ create → (sunset_height d = 0 ∨ h' < sunset_height d) → s ∈ spend h')
  ∧ (h < create_height d → create = {[old_suite_id d]} ∧ spend h = {[old_suite_id d]})
  ∧ (spend_height d ≤ h → create = {[new_suite_id d]})
  ∧ (sunset_height d ≠ 0 → sunset_height d ≤ h → spend h = {[new_suite_id d]}).
Proof.
  intros (_ & Hne & Ho & Hn & Hcs & Hsun)%descriptor_validate_Ok. simpl.
  rewrite descriptor_create_spec.
  assert (∀ a b : Z, a ≠ b → size ({[a; b]} : gset Z) = 2%nat) as Hsz.
  { intros a b Hab. rewrite size_union, !size_singleton by set_solver. done. }
  split; [|split; [|split; [|split]]].
  - rewrite descriptor_spend_spec. repeat case_match; try lia; set_solver.
  - repeat case_match; rewrite ?size_singleton, ?Hsz by done; lia.
  - rewrite descriptor_spend_spec. repeat case_match; rewrite ?size_singleton, ?Hsz by done; lia.
  - intros s. rewrite descriptor_spend_spec. repeat case_match; rewrite ?elem_of_union, ?elem_of_singleton;
      intros; destruct_or?; subst; done.
  - split_and!.
    + intros h' s Hle. rewrite descriptor_spend_spec. intros Hs Hh'.
      repeat case_match; try lia; set_solver.
    + intros Hh. rewrite descriptor_spend_spec. by repeat decide_if.
    + intros Hh. by repeat decide_if.
    + intros Hz Hh. rewrite descriptor_spend_spec. by repeat decide_if.
Qed.

Definition demo_registry : SuiteRegistry :=
  mkSuiteRegistry (<[2 := mkSuiteParams 2 1000 500 4 "NEXT"]> (sr_suites default_registry)).
Definition demo_descriptor : CryptoRotationDescriptor :=
  mkDescriptor "r1" SUITE_ID_ML_DSA_87 2 100 200 300.

Lemma rotation_sound_witness :
  descriptor_validate demo_descriptor demo_registry = Ok () ∧
  ns_suites (native_create_suites (DescriptorRotationProvider demo_descriptor) 150)
  ⊆ ns_suites (native_spend_suites (DescriptorRotationProvider demo_descriptor) 150).
Proof.
  split; [reflexivity|]. apply (rotation_sound demo_descriptor demo_registry 150). reflexivity.
Defined.

(** *** Sets of rotations *)

Lemma validate_descriptors_Ok i ds r :
  validate_descriptors i ds r = Ok () ↔ Forall (λ d, descriptor_wf d r) ds.
Proof.
  revert i; induction ds as [|d ds IH]; intros i; cbn [validate_descriptors].
  - split; [constructor|done].
  - rewrite bind_Ok. split.
    + intros ([] & Hm & Hr%IH). apply map_err_Ok, descriptor_validate_Ok in Hm. by constructor.
    + intros [Hd Hr]%Forall_cons_1. apply descriptor_validate_Ok in Hd. rewrite Hd.
      exists (). by rewrite IH.
Qed.

(** The overlap windows [[create_height, spend_height)] of two rotations. *)
Definition windows_disjoint (a b : CryptoRotationDescriptor) : Prop :=
  ∀ h, ¬ (create_height a ≤ h < spend_height a ∧ create_height b ≤ h < spend_height b).

Lemma overlapping_false a b : create_height a < spend_height a → create_height b < spend_height b →
  overlapping a b = false ↔ windows_disjoint a b.
Proof.
  unfold overlapping, windows_disjoint. intros Ha Hb. split; [lia|].
  intros Hd. specialize (Hd (Z.max (create_height a) (create_height b))). lia.
Qed.

Lemma check_overlaps_Ok ds r : Forall (λ d, descriptor_wf d r) ds →
  check_overlaps ds = Ok () ↔
  ∀ i j a b, (i < j)%nat → ds !! i = Some a → ds !! j = Some b → windows_disjoint a b.
Proof.
  induction 1 as [|a ds Ha Hds IH]; cbn [check_overlaps]; [split; [|done]; intros _ i; by destruct i|].
  rewrite bind_Ok.
  assert (try_for_each (λ b, if overlapping a b
            then Err (Overlapping (d_name a) (create_height a) (spend_height a)
                        (d_name b) (create_height b) (spend_height b)) else Ok ()) ds = Ok ()
          ↔ Forall (windows_disjoint a) ds) as Hrow.
  { rewrite try_for_each_Ok. destruct Ha as (_ & _ & _ & _ & Ha & _).
    rewrite !Forall_forall in *. split; intros H b Hb; specialize (H b Hb);
      destruct (Hds b Hb) as (_ & _ & _ & _ & Hw & _); simpl in *.
    - apply overlapping_false; [done|done|]. by case_match.
    - apply overlapping_false in H as ->; done. }
  split.
  - intros ([] & Hr%Hrow & Hij) [|i] [|j] c d Hlt Hi Hj; rewrite IH in Hij; simpl in *; simplify_eq; try lia.
    + rewrite Forall_lookup in Hr. eauto.
    + apply (Hij i j); [lia|done..].
  - intros Hij. exists (). split.
    { apply Hrow, Forall_lookup. intros j b Hj. apply (Hij 0%nat (S j)); [lia|done..]. }
    apply IH. intros i j c d Hlt Hi Hj. by apply (Hij (S i) (S j)); [lia| |].
Qed.

(** A set of rotations is accepted exactly when each descriptor is
    well formed and no two of the windows in which both an old and a new suite
    can be created have a height in common; so at most one rotation is in its
    overlap window at a time. *)
Theorem validate_rotation_set_iff ds r :
  validate_rotation_set ds r = Ok () ↔
  Forall (λ d, descriptor_wf d r) ds ∧
  ∀ i j a b, (i < j)%nat → ds !! i = Some a → ds !! j = Some b → windows_disjoint a b.
Proof.
  unfold validate_rotation_set. rewrite bind_Ok. split.
  - intros ([] & Hv%validate_descriptors_Ok & Hc). split; [done|]. by eapply check_overlaps_Ok.
  - intros [Hv Hd]. exists (). split; [by apply validate_descriptors_Ok|].
    by apply (check_overlaps_Ok ds r).
Qed.
