(* ===== verification/Deployments.v ===== *)
(** * Feature-bit deployments ([featurebits.rs])

    The miner-signalled feature bits, as the state machine walked from the
    first window.  A [String] error is a constructor with the values its text
    shows. *)

From S2P Require Import Prelude Constants.

(** ** Feature bits *)

(* rust: featurebits.rs 4-10 FeatureBitState *)
Inductive FeatureBitState : Type := Defined_ | Started | LockedIn | Active | Failed.

#[export] Instance FeatureBitState_eq_dec : EqDecision FeatureBitState.
Proof. solve_decision. Defined.

(* rust: featurebits.rs 13-21 as_str *)
Definition fb_as_str (s : FeatureBitState) : string :=
  match s with
  | Defined_ => "DEFINED"
  | Started => "STARTED"
  | LockedIn => "LOCKED_IN"
  | Active => "ACTIVE"
  | Failed => "FAILED"
  end.

(* rust: featurebits.rs 25-30 FeatureBitDeployment *)
Record FeatureBitDeployment : Type := mkFeatureBitDeployment {
  fb_name : string; fb_bit : Z; fb_start_height : Z; fb_timeout_height : Z }.

(* rust: featurebits.rs 33-39 FeatureBitEval *)
Record FeatureBitEval : Type := mkFeatureBitEval {
  fe_state : FeatureBitState; fe_boundary_height : Z; fe_prev_window_signal_count : Z;
  fe_signal_window : Z; fe_signal_threshold : Z }.

Inductive FeatureBitError : Type :=
  | FbNameRequired
  | FbBitOutOfRange (bit : Z)
  | FbTimeoutBeforeStart
  | FbNeedCounts (need got : Z).

(* rust: featurebits.rs 41-68 next_state *)
Definition next_state (prev : FeatureBitState) (boundary_height prev_window_signal_count : Z)
    (d : FeatureBitDeployment) : FeatureBitState :=
  match prev with
  | Defined_ => if fb_start_height d <=? boundary_height then Started else Defined_
  | Started =>
      if SIGNAL_THRESHOLD <=? prev_window_signal_count then LockedIn
      else if fb_timeout_height d <=? boundary_height then Failed
      else Started
  | LockedIn => Active
  | Active => Active
  | Failed => Failed
  end.

(** The count of the window before a boundary. *)
(* rust: featurebits.rs 99-103 featurebit_state_at_height_from_window_counts *)
Definition prev_count (bh boundary_index : Z) (counts : list Z) : Z :=
  if bh <? SIGNAL_WINDOW then 0 else nth (Z.to_nat (boundary_index - 1)) counts 0.

(** The loop over the boundaries [0..=n]. *)
(* rust: featurebits.rs 96-105 featurebit_state_at_height_from_window_counts *)
Definition featurebit_loop (d : FeatureBitDeployment) (counts : list Z) (n : nat) :
    FeatureBitState :=
  foldl (λ state boundary_index,
    let bh := Z.of_nat boundary_index * SIGNAL_WINDOW in
    let prev_cnt := prev_count bh (Z.of_nat boundary_index) counts in
    next_state state bh prev_cnt d) Defined_ (seq 0 (S n)).

(* rust: featurebits.rs 70-120 featurebit_state_at_height_from_window_counts *)
Definition featurebit_state_at_height_from_window_counts (d : FeatureBitDeployment) (height : Z)
    (window_signal_counts : list Z) : result FeatureBitError FeatureBitEval :=
  if bool_decide (fb_name d = ""%string) then Err FbNameRequired else
  if 31 <? fb_bit d then Err (FbBitOutOfRange (fb_bit d)) else
  if fb_timeout_height d <? fb_start_height d then Err FbTimeoutBeforeStart else
  let boundary_height := height - height mod SIGNAL_WINDOW in
  let target_boundary_index := boundary_height / SIGNAL_WINDOW in
  if len window_signal_counts <? target_boundary_index
  then Err (FbNeedCounts target_boundary_index (len window_signal_counts)) else
  let state := featurebit_loop d window_signal_counts (Z.to_nat target_boundary_index) in
  let prev_cnt := prev_count boundary_height target_boundary_index window_signal_counts in
  Ok (mkFeatureBitEval state boundary_height prev_cnt SIGNAL_WINDOW SIGNAL_THRESHOLD).

(** *** The life of a feature bit, in terms of the window counts

    Boundary [k] is the height [k * SIGNAL_WINDOW]; the window before it has
    the count [count counts k].  The bit locks in at [k] if signalling was
    open in that window (it started at an earlier boundary and the deadline
    had not passed at the boundary before) and the window reached the
    threshold. *)
Definition boundary (k : nat) : Z := Z.of_nat k * SIGNAL_WINDOW.
Definition window_count (counts : list Z) (k : nat) : Z := nth (k - 1) counts 0.

Section life.
Context (d : FeatureBitDeployment) (counts : list Z).

Definition started_by (k : nat) : Prop := fb_start_height d ≤ boundary k.
Definition open_before (k : nat) : Prop :=
  ∃ m, k = S m ∧ started_by m ∧
    (∀ m', m = S m' → started_by m' → boundary m < fb_timeout_height d).
Definition locks_at (k : nat) : Prop :=
  open_before k ∧ SIGNAL_THRESHOLD ≤ window_count counts k.
Definition fails_at (k : nat) : Prop :=
  open_before k ∧ window_count counts k < SIGNAL_THRESHOLD
  ∧ fb_timeout_height d ≤ boundary k.

(** What each state means at boundary [n]. *)
Definition state_means (n : nat) (s : FeatureBitState) : Prop :=
  match s with
  | Defined_ => ¬ started_by n
  | Started => started_by n ∧ ∀ k, (k ≤ n)%nat → ¬ locks_at k ∧ ¬ fails_at k
  | LockedIn => locks_at n ∧ ∀ k, (k < n)%nat → ¬ locks_at k ∧ ¬ fails_at k
  | Active => ∃ k, (k < n)%nat ∧ locks_at k ∧ ∀ j, (j < k)%nat → ¬ locks_at j ∧ ¬ fails_at j
  | Failed => ∃ k, (k ≤ n)%nat ∧ fails_at k ∧ ∀ j, (j < k)%nat → ¬ locks_at j ∧ ¬ fails_at j
  end.

Lemma featurebit_loop_S n :
  featurebit_loop d counts (S n) =
  next_state (featurebit_loop d counts n) (boundary (S n)) (window_count counts (S n)) d.
Proof.
  unfold featurebit_loop. rewrite (seq_S (S n) 0), foldl_snoc. cbv zeta. f_equal.
  unfold prev_count, window_count. change (0 + S n)%nat with (S n).
  change SIGNAL_WINDOW with 2016. decide_if. f_equal. lia.
Qed.

Lemma boundary_mono k m : (k ≤ m)%nat → boundary k ≤ boundary m.
Proof. unfold boundary. change SIGNAL_WINDOW with 2016. lia. Qed.

Lemma open_before_started k : open_before k → ∃ m, k = S m ∧ started_by m.
Proof. intros (m & -> & ? & _). eauto. Qed.

Lemma not_started_not_open n : ¬ started_by n → ∀ k, (k ≤ S n)%nat → ¬ open_before k.
Proof.
  intros Hn k Hk (m & -> & Hm)%open_before_started. apply Hn. unfold started_by in *.
  pose proof (boundary_mono m n). lia.
Qed.

Lemma started_open n :
  started_by n → (∀ k, (k ≤ n)%nat → ¬ locks_at k ∧ ¬ fails_at k) → open_before (S n).
Proof.
  induction n as [|n IH]; intros Hs Hno.
  { exists 0%nat. split_and!; [done|done|]. intros m' [=]. }
  exists (S n). split_and!; [done|done|]. intros m' [= <-] Hm'.
  destruct (Z_lt_ge_dec (boundary (S n)) (fb_timeout_height d)) as [|Hge]; [done|exfalso].
  assert (open_before (S n)) as Ho.
  { apply IH; [done|]. intros k Hk. apply Hno. lia. }
  destruct (Hno (S n)) as [Hl Hf]; [lia|].
  destruct (Z_lt_ge_dec (window_count counts (S n)) SIGNAL_THRESHOLD).
  - apply Hf. unfold fails_at. split_and!; [done|done|lia].
  - apply Hl. split; [done|lia].
Qed.

Lemma featurebit_loop_means n : state_means n (featurebit_loop d counts n).
Proof.
  induction n as [|n IH].
  - unfold featurebit_loop. simpl. case_match; simpl.
    + split; [unfold started_by, boundary; simpl; lia|].
      intros k Hk. assert (k = 0%nat) as -> by lia.
      split; intros [(m & ? & _) _]; done.
    + unfold started_by, boundary. simpl. lia.
  - rewrite featurebit_loop_S. destruct (featurebit_loop d counts n) eqn:Hs; simpl in *.
    + case_match; simpl; [|unfold started_by; lia]. split; [unfold started_by; lia|].
      intros k Hk. pose proof (not_started_not_open n IH k Hk).
      split; intros [? _]; done.
    + destruct IH as [Hst Hno]. pose proof (started_open n Hst Hno) as Ho.
      assert (∀ k, (k < S n)%nat → ¬ locks_at k ∧ ¬ fails_at k) as Hno' by (intros; apply Hno; lia).
      destruct (SIGNAL_THRESHOLD <=? window_count counts (S n)) eqn:Hc; simpl.
      { split; [split; [done|lia]|done]. }
      destruct (fb_timeout_height d <=? boundary (S n)) eqn:Ht; simpl.
      { exists (S n). split_and!; [lia| |done]. unfold fails_at. split_and!; [done|lia|lia]. }
      split; [pose proof (boundary_mono n (S n)); unfold started_by in *; lia|].
      intros k Hk. destruct (decide (k = S n)) as [->|]; [|apply Hno; lia].
      split; [intros [_ ?]; lia|intros (_ & _ & ?); lia].
    + destruct IH as [Hl Hno]. exists n. split_and!; [lia|done|done].
    + destruct IH as (k & Hk & ?). exists k. split; [lia|done].
    + destruct IH as (k & Hk & ?). exists k. split; [lia|done].
Qed.
End life.

(** The state of a feature bit is what the window counts say: for a valid
    deployment and enough counts the evaluation succeeds at the boundary of
    the height's window; the state is LOCKED_IN exactly at the first boundary
    whose window, open for signalling, reached the threshold, ACTIVE from the
    next boundary on, FAILED from the first boundary at or after the timeout
    that did not, STARTED between the start and these, and DEFINED before. *)
Theorem featurebit_state_correct d height counts :
  fb_name d ≠ ""%string → fb_bit d ≤ 31 → fb_start_height d ≤ fb_timeout_height d →
  0 ≤ height → height / SIGNAL_WINDOW ≤ len counts →
  ∃ ev, featurebit_state_at_height_from_window_counts d height counts = Ok ev
    ∧ fe_boundary_height ev = boundary (Z.to_nat (height / SIGNAL_WINDOW))
    ∧ fe_boundary_height ev ≤ height < fe_boundary_height ev + SIGNAL_WINDOW
    ∧ state_means d counts (Z.to_nat (height / SIGNAL_WINDOW)) (fe_state ev).
Proof.
  intros Hn Hb Ht Hh Hc. unfold featurebit_state_at_height_from_window_counts.
  rewrite bool_decide_eq_false_2 by done. change SIGNAL_WINDOW with 2016 in *.
  pose proof (Z.div_mod height 2016) as Hdm. pose proof (Z.mod_pos_bound height 2016).
  assert ((height - height mod 2016) / 2016 = height / 2016) as Hdiv.
  { replace (height - height mod 2016) with (height / 2016 * 2016) by lia. by rewrite Z.div_mul. }
  pose proof (Z.div_pos height 2016).
  rewrite Hdiv. do 3 decide_if. eexists. split; [done|].
  cbn [fe_boundary_height fe_state]. unfold boundary. change SIGNAL_WINDOW with 2016.
  split_and!; [lia|lia|lia|]. apply featurebit_loop_means.
Qed.

Definition demo_deployment : FeatureBitDeployment := mkFeatureBitDeployment "fb" 1 0 20160.

Lemma featurebit_state_correct_witness :
  6000 / SIGNAL_WINDOW ≤ len [100; 1900] ∧
  ∃ ev, featurebit_state_at_height_from_window_counts demo_deployment 6000 [100; 1900] = Ok ev.
Proof.
  split; [vm_compute; discriminate|].
  destruct (featurebit_state_correct demo_deployment 6000 [100; 1900]) as (ev & Hev & _);
    [discriminate|simpl; lia|simpl; lia|lia|vm_compute; discriminate|].
  exists ev. exact Hev.
Defined.
