(* ===== verification/Verify.v ===== *)
(** * Signature verification ([verify_sig_openssl.rs], [live_binding_policy.rs],
      [sig_cache.rs])

    The resolution of a suite to a verifier, down to the OpenSSL calls (the
    interface [OpenSsl]), and the cache of positive results.  The embedded
    policy artifact is the manifest its JSON text spells (decoding it is
    [serde]'s); the checks made on the decoded manifest are modelled. *)

From S2P Require Import Prelude Bytes Errors Constants Crypto Suites.

(** ** The live binding policy *)

(* rust: live_binding_policy.rs 7-7 LIVE_BINDING_POLICY_VERSION *)
Definition LIVE_BINDING_POLICY_VERSION : Z := 1.
(* rust: live_binding_policy.rs 9-9 LIVE_BINDING_POLICY_RUNTIME_OPENSSL_DIGEST32_V1 *)
Definition LIVE_BINDING_POLICY_RUNTIME_OPENSSL_DIGEST32_V1 : string := "openssl_digest32_v1".
(* rust: live_binding_policy.rs 10-11 LIVE_BINDING_NAME_VERIFY_SIG_OPENSSL_DIGEST32_V1 *)
Definition LIVE_BINDING_NAME_VERIFY_SIG_OPENSSL_DIGEST32_V1 : string :=
  "verify_sig_openssl_digest32_v1".

(* rust: live_binding_policy.rs 24-31 LiveBindingPolicyEntry *)
Record LiveBindingPolicyEntry : Type := mkPolicyEntry {
  lb_alg_name : string; lb_pubkey_len : Z; lb_sig_len : Z;
  lb_runtime_binding : string; lb_openssl_alg : string; lb_live_binding_name : string }.

(* rust: live_binding_policy.rs 17-20 LiveBindingPolicyManifest *)
Record LiveBindingPolicyManifest : Type := mkManifest {
  lb_version : Z; lb_entries : list LiveBindingPolicyEntry }.

(** The text of [live_binding_policy_v1_embedded.json]. *)
(* rust: live_binding_policy.rs 12-13 LIVE_BINDING_POLICY_V1_JSON *)
Definition LIVE_BINDING_POLICY_V1 : LiveBindingPolicyManifest :=
  mkManifest 1 [mkPolicyEntry "ML-DSA-87" 2592 4627 "openssl_digest32_v1" "ML-DSA-87"
                  "verify_sig_openssl_digest32_v1"].

(** The message of a refused manifest, by its kind. *)
Inductive PolicyError : Type :=
  | UnsupportedVersion (v : Z)
  | EntriesMissing
  | FieldMissing (index : nat) (field : string)
  | DuplicateLiveBinding (index : nat)
  | DuplicateRuntimeTuple (index : nat)
  | RequiresField (index : nat) (field : string)
  | UnsupportedRuntimeBinding (index : nat).

Abbreviation RuntimeTuple := (string * Z * Z)%type.

(* rust: live_binding_policy.rs 183-276 validate *)
Definition policy_entry_validate (index : nat) (e : LiveBindingPolicyEntry)
    (seen : gset RuntimeTuple * gset string) :
    result PolicyError (gset RuntimeTuple * gset string) :=
  let '(seen_runtime_tuples, seen_live_bindings) := seen in
  if bool_decide (lb_alg_name e = ""%string) then Err (FieldMissing index "alg_name") else
  if lb_pubkey_len e =? 0 then Err (FieldMissing index "pubkey_len") else
  if lb_sig_len e =? 0 then Err (FieldMissing index "sig_len") else
  if bool_decide (lb_runtime_binding e = ""%string)
  then Err (FieldMissing index "runtime_binding") else
  if bool_decide (lb_openssl_alg e = ""%string) then Err (FieldMissing index "openssl_alg") else
  if bool_decide (lb_live_binding_name e = ""%string)
  then Err (FieldMissing index "live_binding_name") else
  if bool_decide (lb_live_binding_name e ∈ seen_live_bindings)
  then Err (DuplicateLiveBinding index) else
  let seen_live_bindings := {[ lb_live_binding_name e ]} ∪ seen_live_bindings in
  let runtime_tuple_key := (lb_alg_name e, lb_pubkey_len e, lb_sig_len e) in
  if bool_decide (runtime_tuple_key ∈ seen_runtime_tuples)
  then Err (DuplicateRuntimeTuple index) else
  let seen_runtime_tuples := {[ runtime_tuple_key ]} ∪ seen_runtime_tuples in
  if bool_decide (lb_runtime_binding e = LIVE_BINDING_POLICY_RUNTIME_OPENSSL_DIGEST32_V1) then
    if negb (bool_decide (lb_alg_name e = "ML-DSA-87"%string))
    then Err (RequiresField index "alg_name") else
    if negb (bool_decide (lb_openssl_alg e = "ML-DSA-87"%string))
    then Err (RequiresField index "openssl_alg") else
    if negb (lb_pubkey_len e =? ML_DSA_87_PUBKEY_BYTES)
    then Err (RequiresField index "pubkey_len") else
    if negb (lb_sig_len e =? ML_DSA_87_SIG_BYTES) then Err (RequiresField index "sig_len") else
    if negb (bool_decide (lb_live_binding_name e
                          = LIVE_BINDING_NAME_VERIFY_SIG_OPENSSL_DIGEST32_V1))
    then Err (RequiresField index "live_binding_name") else
    Ok (seen_runtime_tuples, seen_live_bindings)
  else Err (UnsupportedRuntimeBinding index).

(** The part of the loader after decoding. *)
(* rust: live_binding_policy.rs 165-179 load_live_binding_policy_from_json *)
Definition load_live_binding_policy (manifest : LiveBindingPolicyManifest) :
    result PolicyError LiveBindingPolicyManifest :=
  if negb (lb_version manifest =? LIVE_BINDING_POLICY_VERSION)
  then Err (UnsupportedVersion (lb_version manifest)) else
  if bool_decide (lb_entries manifest = []) then Err EntriesMissing else
  _ ← try_fold (λ seen ie, policy_entry_validate ie.1 ie.2 seen) (∅, ∅)
        (imap pair (lb_entries manifest));
  Ok manifest.

(* rust: live_binding_policy.rs 292-297 default_live_binding_policy *)
Definition default_live_binding_policy : result PolicyError LiveBindingPolicyManifest :=
  load_live_binding_policy LIVE_BINDING_POLICY_V1.

(* rust: live_binding_policy.rs 48-51 LiveBindingPolicyLookupError *)
Inductive LiveBindingPolicyLookupError : Type :=
  | PolicyNotFound (alg_name : string) (pubkey_len sig_len : Z)
  | PolicyInvalid (e : PolicyError).

(* rust: live_binding_policy.rs 299-316 live_binding_policy_runtime_entry *)
Definition live_binding_policy_runtime_entry (alg_name : string) (pubkey_len sig_len : Z) :
    result LiveBindingPolicyLookupError LiveBindingPolicyEntry :=
  manifest ← map_err PolicyInvalid default_live_binding_policy;
  ok_or (List.find (λ e, bool_decide (lb_alg_name e = alg_name)
                         && (lb_pubkey_len e =? pubkey_len) && (lb_sig_len e =? sig_len))
           (lb_entries manifest))
    (PolicyNotFound alg_name pubkey_len sig_len).

(** ** Resolution of the verifier *)

(* rust: verify_sig_openssl/alg.rs 15-20 openssl_alg_name_cstr *)
Definition openssl_alg_name_cstr (name : string) : option string :=
  if bool_decide (name = "ML-DSA-87"%string) then Some "ML-DSA-87"%string else None.

(* rust: verify_sig_openssl/binding.rs 14-20 SuiteVerifierBinding *)
Inductive SuiteVerifierBinding : Type :=
  | OpenSslDigest32V1 (alg : string) (pubkey_len sig_len : Z).

(* rust: verify_sig_openssl/binding.rs 52-76 canonical_v1_binding_from_entry *)
Definition canonical_v1_binding_from_entry (entry : LiveBindingPolicyEntry) :
    res SuiteVerifierBinding :=
  if negb (bool_decide (lb_alg_name entry = "ML-DSA-87"%string))
     || negb (bool_decide (lb_openssl_alg entry = "ML-DSA-87"%string))
     || negb (lb_pubkey_len entry =? ML_DSA_87_PUBKEY_BYTES)
     || negb (lb_sig_len entry =? ML_DSA_87_SIG_BYTES)
  then tx_err TxErrSigAlgInvalid
         "resolve_suite_verifier_binding: unsupported suite verifier binding" else
  alg ← ok_or (openssl_alg_name_cstr (lb_openssl_alg entry))
          (mkTxError TxErrSigAlgInvalid
             "resolve_suite_verifier_binding: unsupported OpenSSL alg");
  Ok (OpenSslDigest32V1 alg ML_DSA_87_PUBKEY_BYTES ML_DSA_87_SIG_BYTES).

(* rust: verify_sig_openssl/binding.rs 26-50 resolve_suite_verifier_binding *)
Definition resolve_suite_verifier_binding (alg_name : string) (pubkey_len sig_len : Z) :
    res SuiteVerifierBinding :=
  entry ← map_err (λ err, match err with
            | PolicyNotFound _ _ _ => mkTxError TxErrSigAlgInvalid
                "resolve_suite_verifier_binding: unsupported suite verifier binding"
            | PolicyInvalid _ => mkTxError TxErrSigAlgInvalid
                "resolve_suite_verifier_binding: live binding policy invalid"
            end) (live_binding_policy_runtime_entry alg_name pubkey_len sig_len);
  if bool_decide (lb_runtime_binding entry = LIVE_BINDING_POLICY_RUNTIME_OPENSSL_DIGEST32_V1)
  then canonical_v1_binding_from_entry entry
  else tx_err TxErrSigAlgInvalid
         "resolve_suite_verifier_binding: unsupported suite verifier binding".

(* rust: verify_sig_openssl/binding.rs 110-126 runtime_verification_registry_with_default *)
Definition runtime_verification_registry_with_default (registry : option SuiteRegistry)
    (default : SuiteRegistry) : res SuiteRegistry :=
  match registry with
  | Some registry => Ok registry
  | None =>
      if negb (is_canonical_default_live_manifest default)
      then tx_err TxErrSigAlgInvalid "verify_sig: default runtime registry drift"
      else Ok default
  end.

(* rust: verify_sig_openssl/binding.rs 139-152 runtime_suite_params_for_verification_with_default *)
Definition runtime_suite_params_for_verification_with_default (suite_id : Z)
    (registry : option SuiteRegistry) (default : SuiteRegistry) : res SuiteParams :=
  registry ← runtime_verification_registry_with_default registry default;
  let params := sr_lookup registry suite_id in
  ok_or params (mkTxError TxErrSigAlgInvalid "verify_sig: unsupported suite_id").

(* rust: verify_sig_openssl/binding.rs 128-137 runtime_suite_params_for_verification *)
Definition runtime_suite_params_for_verification (suite_id : Z)
    (registry : option SuiteRegistry) : res SuiteParams :=
  runtime_suite_params_for_verification_with_default suite_id registry default_registry.

(* rust: verify_sig_openssl/digest.rs 4-15 map_digest_verify_rc *)
Definition map_digest_verify_rc (rc : Z) : res bool :=
  if rc =? 1 then Ok true
  else if rc =? 0 then Ok false
  else tx_err TxErrSigInvalid "openssl: EVP_DigestVerify internal error".

Section verify.
  Context `{HO : OpenSsl}.

(* rust: verify_sig_openssl.rs 343-413 openssl_verify_sig_digest_oneshot *)
Definition openssl_verify_sig_digest_oneshot (alg : string) (pubkey signature msg : bytes) :
    res bool :=
  if bool_decide (pubkey = []) || bool_decide (signature = []) || bool_decide (msg = [])
  then tx_err TxErrParse "openssl: empty input" else
  match openssl_digest_verify alg pubkey signature msg with
  | PkeyFailed => tx_err TxErrParse "openssl: EVP_PKEY_new_raw_public_key_ex failed"
  | MdCtxFailed => tx_err TxErrParse "openssl: EVP_MD_CTX_new failed"
  | InitFailed => tx_err TxErrParse "openssl: EVP_DigestVerifyInit_ex failed"
  | VerifyRc rc => map_digest_verify_rc rc
  end.

(* rust: verify_sig_openssl/digest.rs 17-27 openssl_verify_sig_digest_oneshot *)
Definition digest_verify_sig_digest_oneshot (alg : string) (pubkey signature msg : bytes) :
    res bool :=
  if bool_decide (pubkey = []) || bool_decide (signature = []) || bool_decide (msg = [])
  then tx_err TxErrParse "openssl: empty input" else
  openssl_verify_sig_digest_oneshot alg pubkey signature msg.

(* rust: verify_sig_openssl/binding.rs 78-103 verify_sig_with_binding *)
Definition verify_sig_with_binding (binding : SuiteVerifierBinding)
    (pubkey signature digest32 : bytes) : res bool :=
  match binding with
  | OpenSslDigest32V1 alg pubkey_len sig_len =>
      if negb (len pubkey =? pubkey_len) || negb (len signature =? sig_len) then Ok false else
      digest_verify_sig_digest_oneshot alg pubkey signature digest32
  end.

(** [ensure_openssl_consensus_init] runs the OpenSSL initialization once per
    process and keeps its result: the field [openssl_consensus_init]. *)

(* rust: verify_sig_openssl.rs 292-311 verify_sig *)
Definition verify_sig (suite_id : Z) (pubkey signature digest32 : bytes) : res bool :=
  if negb (suite_id =? SUITE_ID_ML_DSA_87)
  then tx_err TxErrSigAlgInvalid "verify_sig: unsupported suite_id" else
  _ ← openssl_consensus_init;
  binding ← resolve_suite_verifier_binding "ML-DSA-87" ML_DSA_87_PUBKEY_BYTES ML_DSA_87_SIG_BYTES;
  verify_sig_with_binding binding pubkey signature digest32.

(* rust: verify_sig_openssl.rs 326-341 verify_sig_with_registry *)
Definition verify_sig_with_registry (suite_id : Z) (pubkey signature digest32 : bytes)
    (registry : option SuiteRegistry) : res bool :=
  params ← runtime_suite_params_for_verification suite_id registry;
  _ ← openssl_consensus_init;
  binding ← resolve_suite_verifier_binding (sp_alg_name params) (sp_pubkey_len params)
              (sp_sig_len params);
  verify_sig_with_binding binding pubkey signature digest32.

(** ** Facts *)

Definition ml_dsa_params (p : SuiteParams) : Prop :=
  sp_alg_name p = "ML-DSA-87"%string ∧ sp_pubkey_len p = ML_DSA_87_PUBKEY_BYTES
  ∧ sp_sig_len p = ML_DSA_87_SIG_BYTES.

Lemma resolve_binding_Ok alg pl sl b :
  resolve_suite_verifier_binding alg pl sl = Ok b ↔
  alg = "ML-DSA-87"%string ∧ pl = ML_DSA_87_PUBKEY_BYTES ∧ sl = ML_DSA_87_SIG_BYTES
  ∧ b = OpenSslDigest32V1 "ML-DSA-87" ML_DSA_87_PUBKEY_BYTES ML_DSA_87_SIG_BYTES.
Proof.
  unfold resolve_suite_verifier_binding, live_binding_policy_runtime_entry.
  replace default_live_binding_policy with (@Ok PolicyError _ LIVE_BINDING_POLICY_V1)
    by by vm_compute.
  cbn [map_err mbind result_bind List.find lb_entries LIVE_BINDING_POLICY_V1 lb_alg_name
       lb_pubkey_len lb_sig_len].
  case_bool_decide as Ha; [|split; [done|intros (-> & _); done]].
  unfold ML_DSA_87_PUBKEY_BYTES, ML_DSA_87_SIG_BYTES. rewrite andb_true_l.
  destruct (2592 =? pl) eqn:Hp; [|simpl; split; [done|intros (_ & -> & _); done]].
  rewrite andb_true_l; destruct (4627 =? sl) eqn:Hs; [|simpl; split; [done|intros (_ & _ & -> & _); done]]. simpl.
  split; [|intros (_ & _ & _ & ->); done].
  intros H. vm_compute in H. injection H as <-. split_and!; [done|lia|lia|done].
Qed.

(** A registry cannot weaken verification.  A signature check under a
    registry succeeds with [true] exactly when the suite is registered with
    the ML-DSA-87 algorithm and lengths, OpenSSL initialized, the key and the
    signature have these lengths, the digest is not empty and OpenSSL's
    ML-DSA-87 verification returns 1 on them: registering another algorithm
    name or other lengths never selects another verifier. *)
Theorem verify_sig_with_registry_true suite_id pubkey signature digest reg :
  verify_sig_with_registry suite_id pubkey signature digest (Some reg) = Ok true ↔
  (∃ p, sr_lookup reg suite_id = Some p ∧ ml_dsa_params p)
  ∧ openssl_consensus_init = Ok ()
  ∧ len pubkey = ML_DSA_87_PUBKEY_BYTES ∧ len signature = ML_DSA_87_SIG_BYTES ∧ digest ≠ []
  ∧ openssl_digest_verify "ML-DSA-87" pubkey signature digest = VerifyRc 1.
Proof.
  unfold verify_sig_with_registry, runtime_suite_params_for_verification,
    runtime_suite_params_for_verification_with_default, runtime_verification_registry_with_default.
  split.
  - intros H. apply bind_Ok in H as (p & Hp & H). apply bind_Ok in Hp as (r & Hr & Hp). inv_res.
    destruct x. apply resolve_binding_Ok in Hx0 as (? & ? & ? & ->).
    cbn [verify_sig_with_binding] in H. case_match eqn:Hl; [done|].
    unfold digest_verify_sig_digest_oneshot, openssl_verify_sig_digest_oneshot in H.
    case_match eqn:He; [done|].
    rewrite !orb_false_iff, !bool_decide_eq_false in He. destruct He as [_ Hd].
    destruct (openssl_digest_verify _ _ _ _) as [| | |rc] eqn:Hv; try done.
    split_and!; try lia; [by exists p|done|done|].
    unfold map_digest_verify_rc in H. f_equal. repeat case_match; try done. lia.
  - intros ((p & Hp & Ha & Hpl & Hsl) & Hi & Hlp & Hls & Hd & Hv). run_bind.
    rewrite Hp. simpl ok_or. run_bind. rewrite Hi. run_bind.
    rewrite (proj2 (resolve_binding_Ok _ _ _ _)) by done. run_bind.
    cbn [verify_sig_with_binding]. rewrite Hlp, Hls, !Z.eqb_refl. simpl orb. cbv iota.
    unfold digest_verify_sig_digest_oneshot, openssl_verify_sig_digest_oneshot.
    rewrite !bool_decide_eq_false_2; [by rewrite Hv|done|intros ->; done|intros ->; done].
Qed.

(** The legacy entry point is the registry one on the default registry. *)
Lemma verify_sig_default suite_id pubkey signature digest :
  verify_sig suite_id pubkey signature digest =
  verify_sig_with_registry suite_id pubkey signature digest None.
Proof.
  unfold verify_sig, verify_sig_with_registry, runtime_suite_params_for_verification,
    runtime_suite_params_for_verification_with_default.
  change (runtime_verification_registry_with_default None default_registry)
    with (@Ok TxError _ default_registry). run_bind.
  unfold sr_lookup, default_registry. cbn [sr_suites]. destruct (suite_id =? SUITE_ID_ML_DSA_87) eqn:Hs.
  - apply Z.eqb_eq in Hs as ->. by rewrite lookup_insert_eq.
  - rewrite lookup_insert_ne, lookup_empty by lia. done.
Qed.

End verify.
