(* ===== verification/SigCache.v ===== *)
(** * The cache of verified signatures ([sig_cache.rs])

    A bounded set of digests of (suite, key, signature, message) tuples; the
    queue of [SigQueue.v] inserts a tuple only after it verified and skips the
    verification of the tuples it finds.  The lock makes each operation one
    atomic step on the record. *)

From S2P Require Import Prelude Bytes Errors Constants Crypto.

(* rust: sig_cache.rs 6-12 SigCacheInner *)
Record SigCache : Type := mkSigCache {
  ch_entries : gset bytes; ch_capacity : Z; ch_hits : Z; ch_misses : Z }.

(* rust: sig_cache.rs 20-30 new *)
Definition sig_cache_new (capacity : Z) : SigCache := mkSigCache ∅ (Z.max capacity 1) 0 0.

(** [fetch_add(1)] on an [AtomicU64]. *)
Definition atomic_incr (n : Z) : Z := (n + 1) mod 2 ^ 64.

Section cache.
  Context `{HS : Sha3}.

(** The bytes hashed; a length that does not fit 32 bits aborts the process. *)
(* rust: sig_cache.rs 80-97 sig_cache_key *)
Definition sig_cache_preimage (suite_id : Z) (pubkey sig digest : bytes) : bytes :=
  [byte_of_Z suite_id] ++ u32_le (len pubkey) ++ pubkey ++ u32_le (len sig) ++ sig ++ digest.
(* rust: sig_cache.rs 80-97 sig_cache_key *)
Definition sig_cache_key (suite_id : Z) (pubkey sig digest : bytes) : bytes :=
  sha3_256 (sig_cache_preimage suite_id pubkey sig digest).

(* rust: sig_cache.rs 32-46 lookup *)
Definition cache_lookup (suite_id : Z) (pubkey sig digest : bytes) (c : SigCache) :
    bool * SigCache :=
  let key := sig_cache_key suite_id pubkey sig digest in
  let ok := bool_decide (key ∈ ch_entries c) in
  (ok, if ok
       then mkSigCache (ch_entries c) (ch_capacity c) (atomic_incr (ch_hits c)) (ch_misses c)
       else mkSigCache (ch_entries c) (ch_capacity c) (ch_hits c) (atomic_incr (ch_misses c))).

(* rust: sig_cache.rs 48-54 insert *)
Definition cache_insert (suite_id : Z) (pubkey sig digest : bytes) (c : SigCache) : SigCache :=
  let key := sig_cache_key suite_id pubkey sig digest in
  if Z.of_nat (size (ch_entries c)) <? ch_capacity c
  then mkSigCache ({[key]} ∪ ch_entries c) (ch_capacity c) (ch_hits c) (ch_misses c)
  else c.

(* rust: sig_cache.rs 56-58 len *)
Definition cache_len (c : SigCache) : Z := Z.of_nat (size (ch_entries c)).
(* rust: sig_cache.rs 60-62 is_empty *)
Definition cache_is_empty (c : SigCache) : bool := cache_len c =? 0.
(* rust: sig_cache.rs 72-77 reset *)
Definition cache_reset (c : SigCache) : SigCache := mkSigCache ∅ (ch_capacity c) 0 0.

(** ** Facts *)

(** The tuples the cache is asked about: a byte, two strings whose lengths
    fit 32 bits, and a digest. *)
Definition tuple_fits (suite_id : Z) (pubkey sig digest : bytes) : Prop :=
  is_u 8 suite_id ∧ is_u 32 (len pubkey) ∧ is_u 32 (len sig) ∧ len digest = 32.

Lemma sig_cache_preimage_inj i1 p1 s1 d1 i2 p2 s2 d2 :
  tuple_fits i1 p1 s1 d1 → tuple_fits i2 p2 s2 d2 →
  sig_cache_preimage i1 p1 s1 d1 = sig_cache_preimage i2 p2 s2 d2 →
  i1 = i2 ∧ p1 = p2 ∧ s1 = s2 ∧ d1 = d2.
Proof.
  intros (Hi1 & Hp1 & Hs1 & Hd1) (Hi2 & Hp2 & Hs2 & Hd2) H.
  unfold sig_cache_preimage in H. rewrite <- !le_encode_1' in H. unfold u32_le, is_u in *.
  apply app_inj_1 in H as [Hi H]; [|by rewrite !le_encode_length].
  apply le_encode_inj in Hi; [|simpl; lia..].
  apply app_inj_1 in H as [Hpl H]; [|by rewrite !le_encode_length].
  apply le_encode_inj in Hpl; [|simpl; lia..].
  apply app_inj_1 in H as [Hp H]; [|lia].
  apply app_inj_1 in H as [Hsl H]; [|by rewrite !le_encode_length].
  apply le_encode_inj in Hsl; [|simpl; lia..].
  by apply app_inj_1 in H as [Hs ->]; [|lia].
Qed.

(** [cache_holds P c]: every entry is the key of a tuple with [P]. *)
Definition cache_holds (P : Z → bytes → bytes → bytes → Prop) (c : SigCache) : Prop :=
  ∀ k, k ∈ ch_entries c → ∃ i p s d, k = sig_cache_key i p s d ∧ tuple_fits i p s d ∧ P i p s d.

Section holds.
Context (P : Z → bytes → bytes → bytes → Prop).

Lemma cache_holds_new capacity : cache_holds P (sig_cache_new capacity).
Proof. intros k. simpl. set_solver. Qed.
Lemma cache_holds_reset c : cache_holds P (cache_reset c).
Proof. intros k. simpl. set_solver. Qed.

Lemma cache_holds_lookup i p s d c : cache_holds P c → cache_holds P (cache_lookup i p s d c).2.
Proof. unfold cache_lookup. by case_match. Qed.

Lemma cache_holds_insert i p s d c :
  tuple_fits i p s d → P i p s d → cache_holds P c → cache_holds P (cache_insert i p s d c).
Proof.
  intros Hf HP Hc. unfold cache_insert. case_match; [|done].
  intros k [->%elem_of_singleton|Hk]%elem_of_union; [|by apply Hc].
  by exists i, p, s, d.
Qed.

(** A hit is a tuple with [P], or the key of another one that has [P]. *)
Definition forges (i : Z) (p s d : bytes) : Prop := ∃ i' p' s' d', P i' p' s' d'
  ∧ collision_in [sig_cache_preimage i p s d; sig_cache_preimage i' p' s' d'].
Lemma cache_lookup_hit i p s d c : tuple_fits i p s d → cache_holds P c →
  (cache_lookup i p s d c).1 = true → P i p s d ∨ forges i p s d.
Proof.
  intros Hf Hc Hk%bool_decide_eq_true. apply Hc in Hk as (i' & p' & s' & d' & Hk & Hf' & HP).
  eapply sha3_inj_in in Hk as [Hk|]; [left| |by left|by right; left]; [|right; by exists i', p', s', d'].
  by apply sig_cache_preimage_inj in Hk as (-> & -> & -> & ->).
Qed.
End holds.

(** The cache never exceeds its capacity. *)
Definition cache_bounded (c : SigCache) : Prop := cache_len c ≤ ch_capacity c.

Lemma cache_bounded_new n : cache_bounded (sig_cache_new n).
Proof. pose proof (size_empty (C := gset bytes)). unfold cache_bounded, cache_len. simpl in *. lia. Qed.
Lemma cache_bounded_reset c : ch_capacity c = Z.max (ch_capacity c) 1 → cache_bounded (cache_reset c).
Proof. pose proof (size_empty (C := gset bytes)). unfold cache_bounded, cache_len. simpl in *. lia. Qed.
Lemma cache_bounded_insert i p s d c : cache_bounded c → cache_bounded (cache_insert i p s d c).
Proof.
  unfold cache_bounded, cache_len, cache_insert. intros Hc. case_match eqn:Hl; [|done]. simpl.
  pose proof (size_union_alt {[sig_cache_key i p s d]} (ch_entries c)).
  assert (size (ch_entries c ∖ {[sig_cache_key i p s d]}) ≤ size (ch_entries c))%nat
    by (apply subseteq_size; set_solver).
  rewrite size_singleton in *. lia.
Qed.
End cache.

(** Operations of a cache, in any order. *)
Inductive cache_op : Type :=
  | OpLookup (i : Z) (p s d : bytes) | OpInsert (i : Z) (p s d : bytes) | OpReset.

Section trace.
Context `{HS : Sha3}.

Definition run_op (c : SigCache) (o : cache_op) : SigCache :=
  match o with
  | OpLookup i p s d => (cache_lookup i p s d c).2
  | OpInsert i p s d => cache_insert i p s d c
  | OpReset => cache_reset c
  end.

Definition op_fits (o : cache_op) : Prop :=
  match o with
  | OpLookup i p s d | OpInsert i p s d => tuple_fits i p s d
  | OpReset => True
  end.

(** After any sequence of lookups, insertions and resets on a new cache
    a hit means that the tuple itself was inserted (key, signature and
    message separated by their lengths, never another split of the same
    bytes), or its key is that of another tuple that was inserted; and the number of entries
    never exceeds the capacity, which is at least one. *)
Theorem sig_cache_sound capacity ops i p s d :
  Forall op_fits ops → tuple_fits i p s d →
  let c := foldl run_op (sig_cache_new capacity) ops in
  ((cache_lookup i p s d c).1 = true → OpInsert i p s d ∈ ops ∨ forges (λ i p s d, OpInsert i p s d ∈ ops) i p s d)
  ∧ cache_len c ≤ Z.max capacity 1.
Proof.
  intros Hops Hf c. set (P := λ i p s d, OpInsert i p s d ∈ ops).
  assert (∀ l c, l ⊆ ops → ch_capacity c = Z.max capacity 1 → cache_holds P c → cache_bounded c →
            let c' := foldl run_op c l in
            ch_capacity c' = Z.max capacity 1 ∧ cache_holds P c' ∧ cache_bounded c') as Hrun.
  { induction l as [|o l IH]; intros c0 Hsub Hcap Hh Hb; [done|]. cbn [foldl].
    assert (op_fits o ∧ o ∈ ops) as [Ho Hin].
    { assert (o ∈ ops) as Ho by (apply Hsub; left). rewrite Forall_forall in Hops.
      split; [by apply Hops, list_elem_of_In|done]. }
    apply IH; [intros x Hx; apply Hsub; by right|..]; destruct o; simpl in *;
      auto using cache_holds_lookup, cache_holds_insert, cache_holds_reset, cache_bounded_insert,
        cache_bounded_reset.
    - unfold cache_lookup. by case_match.
    - unfold cache_insert. by case_match.
    - unfold cache_lookup. by case_match.
    - unfold cache_lookup. by case_match.
    - apply cache_bounded_reset. lia. }
  destruct (Hrun ops (sig_cache_new capacity)) as (Hcap & Hh & Hb);
    [done|done|apply cache_holds_new|apply cache_bounded_new|]. fold c in Hcap, Hh, Hb.
  split; [by apply (cache_lookup_hit P)|]. unfold cache_bounded in Hb. lia.
Qed.
End trace.

(** A split of the same bytes is another tuple. *)
Lemma sig_cache_sound_witness :
  (cache_lookup (HS := toy_sha3) 1 [x01] [x02] (replicate 32 x00)
     (foldl (run_op (HS := toy_sha3)) (sig_cache_new 0)
        [OpInsert 1 [x01] [x02] (replicate 32 x00); OpInsert 1 [x03] [] (replicate 32 x00)])).1
  = true ∧
  let c := foldl (run_op (HS := toy_sha3)) (sig_cache_new 0)
             [OpInsert 1 [x01] [x02] (replicate 32 x00); OpInsert 1 [x03] [] (replicate 32 x00)] in
  ((cache_lookup (HS := toy_sha3) 1 [x01; x02] [] (replicate 32 x00) c).1 = true →
     OpInsert 1 [x01; x02] [] (replicate 32 x00)
       ∈ [OpInsert 1 [x01] [x02] (replicate 32 x00); OpInsert 1 [x03] [] (replicate 32 x00)]
     ∨ forges (HS := toy_sha3) (λ i p s d, OpInsert i p s d ∈ [OpInsert 1 [x01] [x02] (replicate 32 x00); OpInsert 1 [x03] [] (replicate 32 x00)])
         1 [x01; x02] [] (replicate 32 x00))
  ∧ cache_len c ≤ Z.max 0 1.
Proof.
  split; [vm_compute; reflexivity|].
  apply (sig_cache_sound (HS := toy_sha3)); [|by vm_compute].
  repeat constructor; vm_compute; done.
Defined.
