(* ===== verification/WorkerPool.v ===== *)
(** * The worker pool ([worker_pool.rs])

    The threads of a pool share a queue of tasks, one result slot per task and
    whatever state their tasks use.  A task is a [job]: a sequence of atomic
    actions on the shared state, interleaved with those of the other workers
    and of the environment (the holders of the cancellation token).  An
    execution is a list of events, so every schedule is one. *)

From S2P Require Import Prelude.

(** Code that acts on a shared state [S] one atomic step at a time. *)
Inductive job (S A : Type) : Type :=
  | JRet (a : A)
  | JAct (f : S → S) (k : S → job S A).
Arguments JRet {S A} a.
Arguments JAct {S A} f k.

Fixpoint job_map {S A B} (g : A → B) (j : job S A) : job S B :=
  match j with
  | JRet a => JRet (g a)
  | JAct f k => JAct f (λ s, job_map g (k s))
  end.

Fixpoint job_bind {S A B} (j : job S A) (g : A → job S B) : job S B :=
  match j with
  | JRet a => g a
  | JAct f k => JAct f (λ s, job_bind (k s) g)
  end.

(** The job run without interruption. *)
Fixpoint job_run {S A} (j : job S A) (s : S) : A * S :=
  match j with
  | JRet a => (a, s)
  | JAct f k => job_run (k s) (f s)
  end.

(** [job_ok I P j]: from states with [I], which the environment keeps too,
    [j] keeps [I] at every action and returns a value with [P]. *)
Inductive job_ok {S A} (I : S → Prop) (P : A → Prop) : job S A → Prop :=
  | job_ok_ret a : P a → job_ok I P (JRet a)
  | job_ok_act f k : (∀ s, I s → I (f s)) → (∀ s, I s → job_ok I P (k s)) →
      job_ok I P (JAct f k).

(** At most [n] actions. *)
Inductive job_le {S A} : nat → job S A → Prop :=
  | job_le_ret n a : job_le n (JRet a)
  | job_le_act n f k : (∀ s, job_le n (k s)) → job_le (Datatypes.S n) (JAct f k).

Lemma job_ok_map {S A B} I (P : A → Prop) (Q : B → Prop) (g : A → B) (j : job S A) :
  (∀ a, P a → Q (g a)) → job_ok I P j → job_ok I Q (job_map g j).
Proof.
  intros Hg. induction 1 as [a Ha|f k Hf Hk IH]; simpl; constructor; auto.
Qed.

Lemma job_ok_bind {S A B} I (P : A → Prop) (Q : B → Prop) (j : job S A) (g : A → job S B) :
  job_ok I P j → (∀ a, P a → job_ok I Q (g a)) → job_ok I Q (job_bind j g).
Proof. intros Hj Hg. induction Hj as [a Ha|f k Hf Hk IH]; simpl; [auto|]. constructor; auto. Qed.

Lemma job_ok_mono {S A} I (P Q : A → Prop) (j : job S A) :
  (∀ a, P a → Q a) → job_ok I P j → job_ok I Q j.
Proof. intros HPQ. induction 1; constructor; auto. Qed.

Lemma job_le_map {S A B} (g : A → B) n (j : job S A) : job_le n j → job_le n (job_map g j).
Proof. by induction 1; simpl; constructor. Qed.

Lemma job_ok_run {S A} I (P : A → Prop) (j : job S A) s :
  job_ok I P j → I s → P (job_run j s).1 ∧ I (job_run j s).2.
Proof.
  intros Hj. revert s. induction Hj as [a Ha|f k Hf Hk IH]; intros s Hs; simpl; auto.
Qed.

Lemma job_le_mono {S A} n m (j : job S A) : job_le n j → (n ≤ m)%nat → job_le m j.
Proof.
  intros Hj. revert m. induction Hj as [n a|n f k Hk IH]; intros m Hm; [constructor|].
  destruct m as [|m]; [lia|]. constructor. intros s. apply IH. lia.
Qed.

Lemma job_le_bind {S A B} n m (j : job S A) (g : A → job S B) :
  job_le n j → (∀ a, job_le m (g a)) → job_le (n + m) (job_bind j g).
Proof.
  intros Hj Hg. induction Hj as [n a|n f k Hk IH]; simpl.
  - eapply job_le_mono; [apply Hg|lia].
  - constructor. apply IH.
Qed.

(** ** Results *)

(* rust: worker_pool.rs 31-36 WorkerPoolError *)
Inductive WorkerPoolError (E : Type) : Type :=
  | Cancelled | Panicked (msg : string) | TaskErr (e : E).
Arguments Cancelled {E}.
Arguments Panicked {E} msg.
Arguments TaskErr {E} e.

(* rust: worker_pool.rs 54-58 WorkerPoolRunError *)
Inductive WorkerPoolRunError : Type :=
  | InvalidMaxTasks
  | TooManyTasks (task_count max_tasks : Z).

(* rust: worker_pool.rs 79-82 WorkerResult *)
Record WorkerResult (R E : Type) : Type := mkWorkerResult {
  wr_value : option R; wr_error : option (WorkerPoolError E) }.
Arguments mkWorkerResult {R E} _ _.
Arguments wr_value {R E} _.
Arguments wr_error {R E} _.

(* rust: worker_pool.rs 85-90 success *)
Definition wr_success {R E} (value : R) : WorkerResult R E := mkWorkerResult (Some value) None.
(* rust: worker_pool.rs 92-97 failure *)
Definition wr_failure {R E} (error : WorkerPoolError E) : WorkerResult R E :=
  mkWorkerResult None (Some error).

(* rust: worker_pool.rs 8-8 FIXED_WORKER_PANIC_MESSAGE *)
Definition FIXED_WORKER_PANIC_MESSAGE : string := "worker panic".

(* rust: worker_pool.rs 255-259 worker_result_missing_failure *)
Definition worker_result_missing_failure {R E} : WorkerResult R E :=
  wr_failure (Panicked FIXED_WORKER_PANIC_MESSAGE).

(* rust: worker_pool.rs 202-204 first_error *)
Fixpoint first_error {R E} (results : list (WorkerResult R E)) : option (WorkerPoolError E) :=
  match results with
  | [] => None
  | r :: results => match wr_error r with Some e => Some e | None => first_error results end
  end.

(** [None] is the panic of [expect]. *)
(* rust: worker_pool.rs 206-217 collect_values *)
Fixpoint collect_values {R E} (results : list (WorkerResult R E)) :
    option (result (WorkerPoolError E) (list R)) :=
  match results with
  | [] => Some (Ok [])
  | r :: results =>
      match wr_error r with
      | Some err => Some (Err err)
      | None =>
          value ← wr_value r;
          rest ← collect_values results;
          Some (vs ← rest; Ok (value :: vs))
      end
  end.

(* rust: worker_pool.rs 219-228 normalized_worker_count *)
Definition normalized_worker_count (parallelism max_workers task_count : Z) : Z :=
  let workers := if max_workers =? 0 then Z.max parallelism 1 else max_workers in
  Z.max (Z.min workers task_count) 1.

Section pool.
  Context {S T R E : Type}.
  (** The token is part of the shared state; a task may panic ([None]). *)
  Context (is_cancelled : S → bool) (func : T → job S (option (result E R))).
  Abbreviation WR := (WorkerResult R E).

(* rust: worker_pool.rs 230-245 exec_task *)
Definition exec_task (task : T) : job S WR :=
  JAct id (λ s,
    if is_cancelled s then JRet (wr_failure Cancelled) else
    job_map (λ out, match out with
      | Some (Ok value) => wr_success value
      | Some (Err err) => wr_failure (TaskErr err)
      | None => wr_failure (Panicked FIXED_WORKER_PANIC_MESSAGE)
      end) (func task)).

(** A worker is at the head of its loop, busy with a task, or has left. *)
Inductive worker : Type := WIdle | WBusy (idx : nat) (j : job S WR) | WExited.

Record pool : Type := mkPool {
  pl_queue : list (nat * T); pl_workers : list worker;
  pl_results : list (option WR); pl_shared : S }.

(* rust: worker_pool.rs 151-158 run *)
Definition pool_init (worker_count : nat) (tasks : list T) (s : S) : pool :=
  mkPool (imap pair tasks) (replicate worker_count WIdle) (replicate (length tasks) None) s.

(** One atomic step of worker [k]: taking a task off the queue, an action of
    its task, or writing the result to the task's slot. *)
(* rust: worker_pool.rs 162-173 run *)
Definition worker_step (k : nat) (p : pool) : option pool :=
  match pl_workers p !! k with
  | Some WIdle =>
      match pl_queue p with
      | [] => Some (mkPool [] (<[k := WExited]> (pl_workers p)) (pl_results p) (pl_shared p))
      | (idx, task) :: queue =>
          Some (mkPool queue (<[k := WBusy idx (exec_task task)]> (pl_workers p))
                  (pl_results p) (pl_shared p))
      end
  | Some (WBusy idx (JAct f c)) =>
      Some (mkPool (pl_queue p) (<[k := WBusy idx (c (pl_shared p))]> (pl_workers p))
              (pl_results p) (f (pl_shared p)))
  | Some (WBusy idx (JRet r)) =>
      Some (mkPool (pl_queue p) (<[k := WIdle]> (pl_workers p))
              (<[idx := Some r]> (pl_results p)) (pl_shared p))
  | Some WExited | None => None
  end.

Inductive event : Type := EvWorker (k : nat) | EvEnv (f : S → S).

Definition pool_event (e : event) (p : pool) : option pool :=
  match e with
  | EvWorker k => worker_step k p
  | EvEnv f => Some (mkPool (pl_queue p) (pl_workers p) (pl_results p) (f (pl_shared p)))
  end.
Fixpoint run_events (es : list event) (p : pool) : option pool :=
  match es with
  | [] => Some p
  | e :: es => p ← pool_event e p; run_events es p
  end.

Definition is_exited (w : worker) : bool := match w with WExited => true | _ => false end.
Definition pool_done (p : pool) : bool := forallb is_exited (pl_workers p).

(* rust: worker_pool.rs 176-182 run *)
Definition pool_collect (p : pool) : list WR :=
  (λ slot, default worker_result_missing_failure slot) <$> pl_results p.

(** The task of a batch of one, on the calling thread. *)
Fixpoint job_events {A} (es : list event) (j : job S A) (s : S) : option (A * S) :=
  match j, es with
  | JRet a, [] => Some (a, s)
  | JAct f k, EvWorker _ :: es => job_events es (k s) (f s)
  | _, EvEnv f :: es => job_events es j (f s)
  | _, _ => None
  end.

(** [None]: the events are not a complete execution. *)
(* rust: worker_pool.rs 120-183 run *)
Definition run_worker_pool (parallelism max_workers max_tasks : Z) (tasks : list T) (s : S)
    (es : list event) : option (result WorkerPoolRunError (list WR) * S) :=
  let task_count := len tasks in
  match tasks with
  | [] => Some (Ok [], s)
  | task :: rest =>
      if max_tasks =? 0 then Some (Err InvalidMaxTasks, s) else
      if max_tasks <? task_count then Some (Err (TooManyTasks task_count max_tasks), s) else
      let worker_count := normalized_worker_count parallelism max_workers task_count in
      match rest with
      | [] => '(r, s') ← job_events es (exec_task task) s; Some (Ok [r], s')
      | _ =>
          p ← run_events es (pool_init (Z.to_nat worker_count) tasks s);
          if pool_done p then Some (Ok (pool_collect p), pl_shared p) else None
      end
  end.
End pool.
Arguments pool S T R E : clear implicits.
Arguments event S : clear implicits.

(** ** Every schedule gives the results of the tasks *)

Section results.
Context {S T R E : Type} (is_cancelled : S → bool) (func : T → job S (option (result E R))).
Context (I : S → Prop) (P : T → WorkerResult R E → Prop).
Context (tasks : list T).
Context (Hexec : ∀ task, task ∈ tasks → job_ok I (P task) (exec_task is_cancelled func task)).

Definition event_ok (e : event S) : Prop :=
  match e with EvWorker _ => True | EvEnv f => ∀ s, I s → I (f s) end.

(** The first [n] tasks have left the queue; each of them has its result or
    a worker busy with it, and only then the workers leave. *)
Record pool_inv (n : nat) (p : pool S T R E) : Prop := {
  pi_shared : I (pl_shared p);
  pi_length : length (pl_results p) = length tasks;
  pi_queue : pl_queue p = drop n (imap pair tasks);
  pi_busy k idx j : pl_workers p !! k = Some (WBusy idx j) →
    (idx < n)%nat ∧ ∃ task, tasks !! idx = Some task ∧ job_ok I (P task) j;
  pi_slot idx r : pl_results p !! idx = Some (Some r) →
    ∃ task, tasks !! idx = Some task ∧ P task r;
  pi_taken idx : (idx < n)%nat → (idx < length tasks)%nat →
    (∃ r, pl_results p !! idx = Some (Some r))
    ∨ (∃ k j, pl_workers p !! k = Some (WBusy idx j));
  pi_exited k : pl_workers p !! k = Some WExited → pl_queue p = [];
}.

Lemma pool_inv_init s wc : I s → pool_inv 0 (pool_init wc tasks s).
Proof.
  intros Hs. constructor; simpl; [done|by rewrite length_replicate|done| | |lia|];
    intros *; by intros [? _]%lookup_replicate_1.
Qed.

Lemma imap_pair_drop n idx task q :
  (idx, task) :: q = drop n (imap pair tasks) →
  idx = n ∧ tasks !! n = Some task ∧ q = drop (Datatypes.S n) (imap pair tasks).
Proof.
  intros Hq. assert (imap pair tasks !! n = Some (idx, task)) as Hl.
  { rewrite <- (Nat.add_0_r n), <- lookup_drop, <- Hq. done. }
  rewrite list_lookup_imap in Hl. destruct (tasks !! n) eqn:Ht; [|done].
  injection Hl as <- <-. split_and!; [done..|].
  replace (Datatypes.S n) with (n + 1)%nat by lia. by rewrite <- drop_drop, <- Hq.
Qed.

(** A lookup after worker [k] moved to a state it is not about. *)
Ltac worker_cases H := apply list_lookup_insert_Some in H as [(<- & [=] & _)|(? & H)].

Lemma other_busy (ws : list (@worker S R E)) k w w' idx :
  ws !! k = Some w → (∀ j, w ≠ WBusy idx j) →
  (∃ k' j, ws !! k' = Some (WBusy idx j)) → ∃ k' j, <[k := w']> ws !! k' = Some (WBusy idx j).
Proof.
  intros Hw Hn (k' & j & Hk'). exists k', j. rewrite list_lookup_insert_ne; [done|].
  intros ->. rewrite Hw in Hk'. injection Hk' as ->. by apply (Hn j).
Qed.

Lemma pool_inv_idle n p k p' : pool_inv n p → pl_workers p !! k = Some WIdle →
  worker_step is_cancelled func k p = Some p' → ∃ n', pool_inv n' p'.
Proof.
  intros [Hs Hl Hq Hb Hr Ht He] Hk Hstep. unfold worker_step in Hstep. rewrite Hk in Hstep.
  destruct (pl_queue p) as [|[idx task] q] eqn:Hpq; injection Hstep as <-.
  - exists n. constructor; simpl; try done.
    + intros k' idx j Hk'. worker_cases Hk'. by eapply Hb.
    + intros idx Hi1 Hi2. destruct (Ht idx Hi1 Hi2) as [|Hbusy]; [by left|right].
      by eapply other_busy.
  - apply imap_pair_drop in Hq as (-> & Htask & ->). exists (Datatypes.S n).
    constructor; simpl; try done.
    + intros k' idx j Hk'. apply list_lookup_insert_Some in Hk' as [(<- & [= <- <-] & _)|(? & Hk')].
      * split; [lia|]. exists task. split; [done|]. by apply Hexec, list_elem_of_lookup_2 with n.
      * apply Hb in Hk' as [??]. split; [lia|done].
    + intros idx Hi1 Hi2. destruct (decide (idx = n)) as [->|].
      * right. eexists k, _. apply list_lookup_insert_eq. by eapply lookup_lt_Some.
      * destruct (Ht idx) as [|Hbusy]; [lia|done|by left|right]. by eapply other_busy.
    + intros k' Hk'. worker_cases Hk'. by apply He in Hk'.
Qed.

Lemma pool_inv_act n p k idx f c : pool_inv n p →
  pl_workers p !! k = Some (WBusy idx (JAct f c)) →
  pool_inv n (mkPool (pl_queue p) (<[k := WBusy idx (c (pl_shared p))]> (pl_workers p))
                      (pl_results p) (f (pl_shared p))).
Proof.
  intros [Hs Hl Hq Hb Hr Ht He] Hk.
  destruct (Hb k idx _ Hk) as (Hidx & task & Htask & Hj). inversion Hj as [|? ? Hf Hc]; subst.
  constructor; simpl; auto.
  - intros k' idx' j Hk'.
    apply list_lookup_insert_Some in Hk' as [(<- & [= <- <-] & _)|(? & Hk')]; [|by eapply Hb].
    split; [done|]. exists task. auto.
  - intros idx' Hi1 Hi2. destruct (Ht idx' Hi1 Hi2) as [|(k' & j & Hk')]; [by left|right].
    destruct (decide (k' = k)) as [->|].
    + rewrite Hk in Hk'. injection Hk' as -> _. eexists k, _. apply list_lookup_insert_eq.
      by eapply lookup_lt_Some.
    + exists k', j. by rewrite list_lookup_insert_ne.
  - intros k' Hk'. worker_cases Hk'. by eapply He.
Qed.

Lemma pool_inv_ret n p k idx r : pool_inv n p →
  pl_workers p !! k = Some (WBusy idx (JRet r)) →
  pool_inv n (mkPool (pl_queue p) (<[k := WIdle]> (pl_workers p))
                      (<[idx := Some r]> (pl_results p)) (pl_shared p)).
Proof.
  intros [Hs Hl Hq Hb Hr Ht He] Hk.
  destruct (Hb k idx _ Hk) as (Hidx & task & Htask & Hj). inversion Hj; subst.
  assert (idx < length (pl_results p))%nat by (rewrite Hl; by eapply lookup_lt_Some).
  constructor; simpl; try done.
  - by rewrite length_insert.
  - intros k' idx' j Hk'. worker_cases Hk'. by eapply Hb.
  - intros idx' r' Hi. apply list_lookup_insert_Some in Hi as [(<- & [= <-] & _)|(? & Hi)]; eauto.
  - intros idx' Hi1 Hi2. destruct (decide (idx' = idx)) as [->|].
    + left. exists r. by rewrite list_lookup_insert_eq.
    + destruct (Ht idx' Hi1 Hi2) as [[r' Hr']|Hbusy]; [left|right].
      * exists r'. by rewrite list_lookup_insert_ne.
      * eapply other_busy; [done| |done]. intros j [=]. congruence.
  - intros k' Hk'. worker_cases Hk'. by eapply He.
Qed.

Lemma pool_inv_event n p e p' : event_ok e → pool_inv n p →
  pool_event is_cancelled func e p = Some p' → ∃ n', pool_inv n' p'.
Proof.
  intros He Hp. destruct e as [k|f]; simpl.
  - intros Hstep. pose proof Hstep as Hstep'. unfold worker_step in Hstep'.
    destruct (pl_workers p !! k) as [[|idx [r|f c]|]|] eqn:Hk; try done.
    + by eapply pool_inv_idle.
    + injection Hstep' as <-. exists n. by eapply pool_inv_ret.
    + injection Hstep' as <-. exists n. by eapply pool_inv_act.
  - intros [= <-]. exists n. destruct Hp. constructor; simpl; auto.
Qed.

Lemma pool_inv_events es n p p' : Forall event_ok es → pool_inv n p →
  run_events is_cancelled func es p = Some p' → ∃ n', pool_inv n' p'.
Proof.
  intros Hes. revert n p. induction Hes as [|e es He Hes IH]; intros n p Hp; cbn [run_events].
  - intros [= <-]. by exists n.
  - intros (p1 & Hp1 & Hrun)%bind_Some. eapply pool_inv_event in Hp1 as [n1 Hp1]; eauto.
Qed.

(** When all workers left, every slot holds the result of its task. *)
Lemma pool_inv_done n p : pool_inv n p → pl_workers p ≠ [] → pool_done p = true →
  Forall2 P tasks (pool_collect p).
Proof.
  intros [_ Hl Hq Hb Hr Ht He] Hne Hd. unfold pool_done in Hd. rewrite forallb_forall in Hd.
  assert (∀ k w, pl_workers p !! k = Some w → w = WExited) as Hex.
  { intros k w Hk%list_elem_of_lookup_2%list_elem_of_In%Hd. by destruct w. }
  destruct (pl_workers p) as [|w ws] eqn:Hw; [done|].
  assert (pl_queue p = []) as Hq0 by (apply (He 0%nat); simpl; f_equal; by apply (Hex 0%nat)).
  assert (length tasks ≤ n)%nat.
  { rewrite Hq in Hq0. apply (f_equal length) in Hq0.
    rewrite length_drop, length_imap in Hq0. simpl in Hq0. lia. }
  apply Forall2_same_length_lookup_2; [unfold pool_collect; by rewrite length_fmap|].
  intros idx task r Htask Hres. pose proof (lookup_lt_Some _ _ _ Htask).
  unfold pool_collect in Hres. rewrite list_lookup_fmap in Hres.
  destruct (Ht idx) as [[r' Hr']|(k & j & Hk)]; [lia|done| |by apply Hex in Hk].
  rewrite Hr' in Hres. injection Hres as <-. destruct (Hr idx r' Hr') as (task' & Ht' & HP).
  by simplify_eq.
Qed.

Lemma pool_event_workers e p p' : pool_event is_cancelled func e p = Some p' →
  length (pl_workers p') = length (pl_workers p).
Proof.
  destruct e as [k|f]; simpl; [|by intros [= <-]]. unfold worker_step. intros H.
  repeat case_match; simplify_eq/=; by rewrite ?length_insert.
Qed.
Lemma pool_events_workers es p p' : run_events is_cancelled func es p = Some p' →
  length (pl_workers p') = length (pl_workers p).
Proof.
  revert p; induction es as [|e es IH]; intros p; cbn [run_events]; [by intros [= <-]|].
  intros (p1 & Hp1%pool_event_workers & Hrun%IH)%bind_Some. congruence.
Qed.

Lemma job_events_ok {A} (Q : A → Prop) es (j : job S A) s a s' :
  Forall event_ok es → job_ok I Q j → I s → job_events es j s = Some (a, s') → Q a ∧ I s'.
Proof.
  intros Hes. revert j s. induction Hes as [|e es He Hes IH]; intros j s Hj Hs;
    inversion Hj as [b Hb|f k Hf Hk]; subst; simpl; try done.
  - by intros [= <- <-].
  - destruct e as [|g]; [done|]. apply IH; auto.
  - destruct e as [|g]; apply IH; auto.
Qed.

Lemma run_worker_pool_ok parallelism max_workers max_tasks s es out s' :
  I s → Forall event_ok es →
  run_worker_pool is_cancelled func parallelism max_workers max_tasks tasks s es
  = Some (out, s') →
  I s' ∧
  ((∃ results, out = Ok results ∧ Forall2 P tasks results)
   ∨ (tasks ≠ [] ∧ max_tasks = 0 ∧ out = Err InvalidMaxTasks)
   ∨ (max_tasks < len tasks ∧ max_tasks ≠ 0 ∧ out = Err (TooManyTasks (len tasks) max_tasks))).
Proof.
  intros Hs Hes. unfold run_worker_pool. destruct tasks as [|task rest] eqn:Htasks in |- *.
  { intros [= <- <-]. split; [done|]. left. by exists []. }
  rewrite <- Htasks. destruct (max_tasks =? 0) eqn:H0.
  { intros [= <- <-]. split; [done|]. right; left. rewrite Htasks. split_and!; done || lia. }
  destruct (max_tasks <? len tasks) eqn:H1.
  { intros [= <- <-]. split; [done|]. right; right. split_and!; done || lia. }
  intros Hrun. destruct rest as [|task2 rest].
  - apply bind_Some in Hrun as ([r s1] & Hj & [= <- <-]).
    apply (job_events_ok (P task)) in Hj as [Hr Hs1]; [|done|apply Hexec; rewrite Htasks; left|done].
    split; [done|]. left. exists [r]. rewrite Htasks. auto.
  - apply bind_Some in Hrun as (p & Hp & Hd). destruct (pool_done p) eqn:Hdone; [|done].
    injection Hd as <- <-. pose proof (pool_events_workers _ _ _ Hp) as Hw.
    eapply pool_inv_events in Hp as (n & Hp); [|done|by apply pool_inv_init].
    split; [apply (pi_shared _ _ Hp)|]. left. exists (pool_collect p). split; [done|].
    eapply pool_inv_done; [done| |done]. intros Hn. rewrite Hn in Hw. simpl in Hw.
    rewrite length_replicate in Hw. unfold normalized_worker_count in Hw. lia.
Qed.

(** The results of a batch do not depend on the schedule.  If every
    task, interleaved in any way with actions that keep [I], ends with a
    result in [P], then whatever the number of workers and the order of
    their steps a completed run returns one result per task, in the order of
    the tasks and each in [P] of its own task; no task is lost or run into
    another's slot.  A run fails only for the limits on the batch, before
    any task is started. *)
Theorem worker_pool_results parallelism max_workers max_tasks s es out s' :
  I s → Forall event_ok es →
  run_worker_pool is_cancelled func parallelism max_workers max_tasks tasks s es
  = Some (out, s') →
  (∃ results, out = Ok results ∧ Forall2 P tasks results)
  ∨ (tasks ≠ [] ∧ max_tasks = 0 ∧ out = Err InvalidMaxTasks)
  ∨ (max_tasks < len tasks ∧ max_tasks ≠ 0 ∧ out = Err (TooManyTasks (len tasks) max_tasks)).
Proof. intros Hs Hes Hrun. by apply run_worker_pool_ok in Hrun as [_ Hrun]. Qed.
End results.

(** ** Progress and termination *)

Section termination.
Context {S T R E : Type} (is_cancelled : S → bool) (func : T → job S (option (result E R))).
Context (B : nat) (Hfunc : ∀ task, job_le B (func task)).

(** The steps a worker still has to take before it is idle, at most. *)
Definition worker_weight (w : @worker S R E) (n : nat) : Prop :=
  match w with
  | WIdle => (1 ≤ n)%nat
  | WBusy _ j => ∃ m, job_le m j ∧ (m + 2 ≤ n)%nat
  | WExited => True
  end.
Definition pool_weight (p : pool S T R E) (n : nat) : Prop :=
  ∃ ws, Forall2 worker_weight (pl_workers p) ws
        ∧ (sum_list ws + length (pl_queue p) * (B + 3) ≤ n)%nat.

Lemma sum_list_insert_lt ws k n n' : ws !! k = Some n → (n' < n)%nat →
  (sum_list (<[k := n']> ws) < sum_list ws)%nat.
Proof.
  revert k; induction ws as [|m ws IH]; intros [|k]; simpl; try done.
  - intros [= ->]. lia.
  - intros Hk Hn. pose proof (IH k Hk Hn). lia.
Qed.
Lemma sum_list_insert_add ws k n d : ws !! k = Some n →
  sum_list (<[k := (n + d)%nat]> ws) = (sum_list ws + d)%nat.
Proof.
  revert k; induction ws as [|m ws IH]; intros [|k]; simpl; try done.
  - intros [= ->]. lia.
  - intros Hk. rewrite IH; [lia|done].
Qed.

Lemma worker_step_weight k p p' n : pool_weight p n →
  worker_step is_cancelled func k p = Some p' → ∃ n', (n' < n)%nat ∧ pool_weight p' n'.
Proof.
  intros (ws & Hws & Hn) Hstep. unfold worker_step in Hstep.
  destruct (pl_workers p !! k) as [w|] eqn:Hk; [|done].
  destruct (Forall2_lookup_l _ _ _ _ _ Hws Hk) as (m & Hm & Hwm).
  assert (∀ w' m', worker_weight w' m' →
    Forall2 worker_weight (<[k := w']> (pl_workers p)) (<[k := m']> ws)) as Hins
    by (intros; by apply Forall2_insert).
  destruct w as [|idx [r|f c]|]; [|..|done]; simpl in Hwm.
  - destruct (pl_queue p) as [|[idx task] q]; injection Hstep as <-.
    + exists (sum_list (<[k := 0%nat]> ws)). pose proof (sum_list_insert_lt ws k m 0 Hm Hwm).
      simpl in *. split; [lia|]. eexists. split; [by apply (Hins WExited 0%nat)|]. simpl. lia.
    + exists (sum_list ws + (B + 2) + length q * (B + 3))%nat. simpl in Hn. split; [lia|].
      exists (<[k := (m + (B + 2))%nat]> ws). rewrite (sum_list_insert_add ws k m) by done.
      split; [|done]. apply Hins. exists (Datatypes.S B). split; [|lia].
      constructor. intros s. case_match; [constructor|]. by apply job_le_map.
  - injection Hstep as <-. destruct Hwm as (m' & _ & Hm').
    exists (sum_list (<[k := 1%nat]> ws) + length (pl_queue p) * (B + 3))%nat.
    pose proof (sum_list_insert_lt ws k m 1 Hm ltac:(lia)). split; [lia|].
    eexists. split; [apply (Hins WIdle 1%nat); simpl; lia|simpl; lia].
  - injection Hstep as <-. destruct Hwm as (m' & Hj & Hm').
    inversion Hj as [|m1 f' c' Hc]; subst.
    exists (sum_list (<[k := (m1 + 2)%nat]> ws) + length (pl_queue p) * (B + 3))%nat.
    pose proof (sum_list_insert_lt ws k m (m1 + 2) Hm ltac:(lia)). split; [lia|].
    eexists. split; [apply (Hins (WBusy idx (c (pl_shared p))) (m1 + 2)%nat)|done].
    exists m1. auto.
Qed.

Definition is_worker_event (e : event S) : bool := match e with EvWorker _ => true | _ => false end.

Lemma run_events_weight es p p' n : pool_weight p n →
  run_events is_cancelled func es p = Some p' →
  (length (filter is_worker_event es) ≤ n)%nat.
Proof.
  revert p n; induction es as [|e es IH]; intros p n Hn; [simpl; lia|].
  cbn [run_events]. intros (p1 & Hp1 & Hrun)%bind_Some. rewrite filter_cons.
  destruct e as [k|f]; simpl in *.
  - eapply worker_step_weight in Hp1 as (n' & ? & Hn'); [|done].
    apply (IH p1 n') in Hrun; [lia|done].
  - injection Hp1 as <-. eapply IH; [|done]. destruct Hn as (ws & ? & ?). by exists ws.
Qed.

Lemma worker_can_step (p : pool S T R E) : pool_done p = false →
  ∃ k p', worker_step is_cancelled func k p = Some p'.
Proof.
  intros Hd. unfold pool_done in Hd. apply not_true_iff_false in Hd. rewrite forallb_forall in Hd.
  assert (Exists (λ w, is_exited w ≠ true) (pl_workers p)) as Hex.
  { apply not_Forall_Exists; [intros w; solve_decision|]. intros Hf. apply Hd.
    rewrite Forall_forall in Hf. exact Hf. }
  apply Exists_exists in Hex as (w & [k Hk]%list_elem_of_In%list_elem_of_lookup & Hw).
  exists k. unfold worker_step. rewrite Hk.
  destruct w as [|idx [r|f c]|]; [destruct (pl_queue p) as [|[??]?]|..]; eauto. done.
Qed.

Lemma pool_weight_init wc tasks s :
  pool_weight (pool_init wc tasks s) (wc + length tasks * (B + 3)).
Proof.
  exists (replicate wc 1%nat). simpl. rewrite length_imap.
  split; [|by rewrite sum_list_replicate; lia]. apply Forall2_replicate. simpl. lia.
Qed.

Lemma pool_completes n (p : pool S T R E) : pool_weight p n →
  ∃ es p', run_events is_cancelled func (EvWorker <$> es) p = Some p' ∧ pool_done p' = true.
Proof.
  revert p. induction (lt_wf n) as [n _ IH]. intros p Hp.
  destruct (pool_done p) eqn:Hd; [by exists [], p|].
  destruct (worker_can_step p Hd) as (k & p1 & Hk).
  destruct (worker_step_weight _ _ _ _ Hp Hk) as (n1 & Hn1 & Hp1).
  destruct (IH n1 Hn1 p1 Hp1) as (es & p' & Hes & Hd').
  exists (k :: es), p'. split; [|done]. cbn [fmap list_fmap run_events pool_event]. by rewrite Hk.
Qed.

Lemma job_completes {A} n (j : job S A) s : job_le n j →
  ∃ es a s', job_events (EvWorker <$> es) j s = Some (a, s').
Proof.
  intros Hj. revert s. induction Hj as [n a|n f k Hk IH]; intros s.
  - by exists [], a, s.
  - destruct (IH s (f s)) as (es & a & s' & Hes). by exists (0%nat :: es), a, s'.
Qed.

(** Some schedule of the workers alone completes the batch. *)
Lemma run_worker_pool_completes parallelism max_workers max_tasks tasks s :
  ∃ es out, run_worker_pool is_cancelled func parallelism max_workers max_tasks tasks s
              (EvWorker <$> es) = Some out.
Proof.
  unfold run_worker_pool. destruct tasks as [|task rest] eqn:Htasks; [by eexists [], _|].
  rewrite <- Htasks. destruct (max_tasks =? 0); [by eexists [], _|].
  destruct (max_tasks <? len tasks); [by eexists [], _|]. destruct rest as [|task2 rest].
  - assert (job_le (Datatypes.S B) (exec_task is_cancelled func task)) as Hj.
    { constructor. intros s0. case_match; [constructor|]. by apply job_le_map. }
    destruct (job_completes _ _ s Hj) as (es & a & s' & Hes). exists es. rewrite Hes. eauto.
  - destruct (pool_completes _ _ (pool_weight_init
      (Z.to_nat (normalized_worker_count parallelism max_workers (len tasks))) tasks s))
      as (es & p & Hes & Hd).
    exists es. rewrite Hes. simpl. rewrite Hd. eauto.
Qed.

(** C33: a batch always ends: whatever the schedule, the workers take at most
    [wc + tasks * (B + 3)] steps in all, where [B] bounds the actions of a
    task, and as long as a worker has not left some worker can step - no
    schedule deadlocks or runs forever. *)
Theorem worker_pool_terminates wc tasks s es p :
  run_events is_cancelled func es (pool_init wc tasks s) = Some p →
  (length (filter is_worker_event es) ≤ wc + length tasks * (B + 3))%nat
  ∧ (pool_done p = true ∨ ∃ k p', worker_step is_cancelled func k p = Some p').
Proof.
  intros Hrun. split; [by eapply run_events_weight; [apply pool_weight_init|]|].
  destruct (pool_done p) eqn:Hd; [by left|right; by apply worker_can_step].
Qed.
End termination.

(** Results as the pool builds them carry a value or an error, and collecting
    them stops at the error [first_error] finds. *)
Definition result_wf {R E} (r : WorkerResult R E) : Prop :=
  (∃ v, r = wr_success v) ∨ ∃ e, r = wr_failure e.

Lemma collect_values_spec {R E} (rs : list (WorkerResult R E)) : Forall result_wf rs →
  collect_values rs = Some (match first_error rs with
                            | Some e => Err e
                            | None => Ok (omap wr_value rs)
                            end).
Proof.
  induction 1 as [|r rs [[v ->]|[e ->]] _ IH]; [done| |done].
  simpl. rewrite IH. simpl. by destruct (first_error rs).
Qed.

(** ** Witnesses *)

(** Tasks that add to a shared counter; task 3 fails and task 4 panics. *)
Definition demo_task (t : Z) : job (bool * Z) (option (result string Z)) :=
  JAct (λ s, (s.1, s.2 + t))
    (λ _, JRet (if t =? 3 then Some (Err "bad"%string) else if t =? 4 then None else Some (Ok (2 * t)))).
Definition demo_outcome (t : Z) (r : WorkerResult Z string) : Prop :=
  r = if t =? 3 then wr_failure (TaskErr "bad"%string)
      else if t =? 4 then wr_failure (Panicked "worker panic") else wr_success (2 * t).
Definition demo_schedule : list (event (bool * Z)) :=
  EvWorker <$> [0; 1; 0; 1; 1; 0; 0; 1; 1; 1; 0]%nat.
Definition demo_events : list (event (bool * Z)) :=
  demo_schedule ++ [EvEnv (λ s, (s.1, s.2 * 2))] ++ (EvWorker <$> [1; 1; 1]%nat).

Lemma demo_task_ok t :
  job_ok (λ s, s.1 = false) (demo_outcome t) (exec_task fst demo_task t).
Proof.
  constructor; [done|]. intros s Hs. rewrite Hs. constructor; [done|]. intros s' _.
  constructor. unfold demo_outcome. by destruct (t =? 3), (t =? 4).
Qed.

Definition demo_results : result WorkerPoolRunError (list (WorkerResult Z string)) :=
  Ok [wr_success 2; wr_failure (TaskErr "bad"%string); wr_failure (Panicked "worker panic")].

Lemma worker_pool_results_witness :
  run_worker_pool fst demo_task 1 2 9 [1; 3; 4] (false, 0) demo_events
  = Some (demo_results, (false, 12)) ∧
  ((∃ results, demo_results = Ok results ∧ Forall2 demo_outcome [1; 3; 4] results)
   ∨ ([1; 3; 4] ≠ [] ∧ 9 = 0 ∧ demo_results = Err InvalidMaxTasks)
   ∨ (9 < len [1; 3; 4] ∧ 9 ≠ 0 ∧ demo_results = Err (TooManyTasks (len [1; 3; 4]) 9))).
Proof.
  assert (run_worker_pool fst demo_task 1 2 9 [1; 3; 4] (false, 0) demo_events
          = Some (demo_results, (false, 12))) as Hrun by (vm_compute; reflexivity).
  split; [exact Hrun|].
  apply (worker_pool_results fst demo_task (λ s, s.1 = false) demo_outcome [1; 3; 4]
           (λ t _, demo_task_ok t) 1 2 9 (false, 0) demo_events demo_results (false, 12)); [done| |exact Hrun].
  unfold demo_events, demo_schedule. simpl. repeat constructor. by intros [??].
Defined.

Lemma worker_pool_terminates_witness :
  ∃ p, run_events fst demo_task demo_events (pool_init 2 [1; 3; 4] (false, 0)) = Some p ∧
  ((length (filter is_worker_event demo_events) ≤ 2 + length [1; 3; 4]%Z * (1 + 3))%nat
   ∧ (pool_done p = true ∨ ∃ k p', worker_step fst demo_task k p = Some p')).
Proof.
  eexists. assert (run_events fst demo_task demo_events (pool_init 2 [1; 3; 4] (false, 0)) = Some _)
    as Hrun by (vm_compute; reflexivity).
  split; [exact Hrun|].
  apply (worker_pool_terminates fst demo_task 1) with (s := (false, 0)); [|exact Hrun].
  intros t. constructor. intros. constructor.
Defined.
