(* ===== verification/SigQueue.v ===== *)
(** * Deferred signature checks ([sig_queue.rs])

    A queue of signature checks that is filled while a transaction is validated
    and flushed afterwards, by the calling thread or by the worker pool.  The
    cache of verified signatures is shared with other threads, so a flush is an
    execution of [WorkerPool.v]: a list of events. *)

From S2P Require Import Prelude Bytes Errors Constants Crypto Suites Verify SigCache WorkerPool.

(* rust: sig_queue.rs 13-13 MAX_SIGCHECK_QUEUE_BYTES *)
Definition MAX_SIGCHECK_QUEUE_BYTES : Z := MAX_BLOCK_WEIGHT.
(* rust: sig_queue.rs 14-14 SIGCHECK_TASK_FIXED_OVERHEAD_BYTES *)
Definition SIGCHECK_TASK_FIXED_OVERHEAD_BYTES : Z := 1 + 32 + 1.
(* rust: sig_queue.rs 15-15 CURRENT_NATIVE_QUEUE_PAYLOAD_FLOOR_BYTES *)
Definition CURRENT_NATIVE_QUEUE_PAYLOAD_FLOOR_BYTES : Z :=
  ML_DSA_87_PUBKEY_BYTES + ML_DSA_87_SIG_BYTES.

(* rust: sig_queue.rs 17-24 SigCheckTask *)
Record SigCheckTask : Type := mkSigCheckTask {
  tk_suite_id : Z; tk_pubkey : bytes; tk_sig : bytes; tk_digest : bytes; tk_err_on_fail : TxError }.

(* rust: sig_queue.rs 26-32 SigVerifyRequest *)
Record SigVerifyRequest : Type := mkSigVerifyRequest {
  rq_suite_id : Z; rq_pubkey : bytes; rq_sig : bytes; rq_digest : bytes }.

(* rust: sig_queue.rs 34-39 SigCheckQueueMark *)
Record SigCheckQueueMark : Type := mkMark {
  mk_len : Z; mk_queued_bytes : Z; mk_registry_was_bound : bool }.

(* rust: sig_queue.rs 48-55 SigCheckQueue *)
Record SigCheckQueue : Type := mkSigCheckQueue {
  q_tasks : list SigCheckTask; q_queued_bytes : Z; q_registry : option SuiteRegistry;
  q_cache : option SigCache; q_workers : Z }.

(* rust: sig_queue.rs 58-66 default *)
Definition queue_default : SigCheckQueue := mkSigCheckQueue [] 0 None None 1.

(* rust: sig_queue.rs 81-96 new *)
Definition queue_new (parallelism workers : Z) : SigCheckQueue :=
  let workers := if workers =? 0 then parallelism else workers in
  mkSigCheckQueue [] 0 None None (Z.max workers 1).

(* rust: sig_queue.rs 98-101 with_registry *)
Definition with_registry (q : SigCheckQueue) (registry : SuiteRegistry) : SigCheckQueue :=
  mkSigCheckQueue (q_tasks q) (q_queued_bytes q) (Some registry) (q_cache q) (q_workers q).
(* rust: sig_queue.rs 103-106 with_cache *)
Definition with_cache (q : SigCheckQueue) (cache : SigCache) : SigCheckQueue :=
  mkSigCheckQueue (q_tasks q) (q_queued_bytes q) (q_registry q) (Some cache) (q_workers q).

(** ** Budgets *)

(* rust: sig_queue.rs 381-412 max_sigcheck_queue_tasks *)
Definition max_sigcheck_queue_tasks (registry : option SuiteRegistry) : res Z :=
  let registry := match registry with Some registry => registry | None => default_registry end in
  payload ← map_err (mkTxError TxErrSigAlgInvalid) (min_sigcheck_payload_bytes registry);
  min_payload_bytes ← ok_or payload
    (mkTxError TxErrSigAlgInvalid "SigCheckQueue registry has no registered suites");
  let effective_min_payload_bytes :=
    Z.max min_payload_bytes CURRENT_NATIVE_QUEUE_PAYLOAD_FLOOR_BYTES in
  min_task_bytes ← ok_or
    (checked_add u64_max SIGCHECK_TASK_FIXED_OVERHEAD_BYTES effective_min_payload_bytes)
    (mkTxError TxErrWitnessOverflow "SigCheckQueue task budget footprint overflow");
  Ok (MAX_SIGCHECK_QUEUE_BYTES / min_task_bytes).

(* rust: sig_queue.rs 371-379 ensure_task_budget *)
Definition ensure_task_budget (task_count : Z) (registry : option SuiteRegistry) : res unit :=
  max_tasks ← max_sigcheck_queue_tasks registry;
  if max_tasks <=? task_count
  then tx_err TxErrWitnessOverflow "SigCheckQueue task budget exceeded"
  else Ok ().

(* rust: sig_queue.rs 414-428 next_queued_bytes *)
Definition next_queued_bytes (current task_bytes : Z) : res Z :=
  next ← ok_or (checked_add usize_max current task_bytes)
    (mkTxError TxErrWitnessOverflow "SigCheckQueue queued-byte accounting overflow");
  if MAX_SIGCHECK_QUEUE_BYTES <? next
  then tx_err TxErrWitnessOverflow "SigCheckQueue queued-byte budget exceeded"
  else Ok next.

(* rust: sig_queue.rs 430-440 sigcheck_task_bytes *)
Definition sigcheck_task_bytes (pubkey_len sig_len : Z) : res Z :=
  ok_or (next ← checked_add usize_max SIGCHECK_TASK_FIXED_OVERHEAD_BYTES pubkey_len;
         checked_add usize_max next sig_len)
    (mkTxError TxErrWitnessOverflow "SigCheckQueue task footprint overflow").

(** ** The queue *)

(* rust: sig_queue.rs 108-129 push *)
Definition queue_push (suite_id : Z) (pubkey sig digest : bytes) (err_on_fail : TxError) :
    ST SigCheckQueue TxError unit := λ q,
  match ensure_task_budget (len (q_tasks q)) (q_registry q) with
  | Err e => (Err e, q)
  | Ok _ =>
      match (tb ← sigcheck_task_bytes (len pubkey) (len sig); next_queued_bytes (q_queued_bytes q) tb) with
      | Err e => (Err e, q)
      | Ok queued_bytes =>
          (Ok (), mkSigCheckQueue
             (q_tasks q ++ [mkSigCheckTask suite_id pubkey sig digest err_on_fail])
             queued_bytes (q_registry q) (q_cache q) (q_workers q))
      end
  end.

(* rust: sig_queue.rs 131-133 len *)
Definition queue_len (q : SigCheckQueue) : Z := len (q_tasks q).
(* rust: sig_queue.rs 135-137 is_empty *)
Definition queue_is_empty (q : SigCheckQueue) : bool := bool_decide (q_tasks q = []).

(* rust: sig_queue.rs 161-169 assert_flushed *)
Definition assert_flushed (q : SigCheckQueue) : res unit :=
  match q_tasks q with
  | [] => Ok ()
  | _ => tx_err TxErrSigInvalid "SigCheckQueue has unflushed tasks"
  end.

(* rust: sig_queue.rs 171-177 mark *)
Definition queue_mark (q : SigCheckQueue) : SigCheckQueueMark :=
  mkMark (len (q_tasks q)) (q_queued_bytes q)
    (match q_registry q with Some _ => true | None => false end).

(* rust: sig_queue.rs 179-185 rollback_to *)
Definition rollback_to (mark : SigCheckQueueMark) (q : SigCheckQueue) : SigCheckQueue :=
  mkSigCheckQueue (take (Z.to_nat (mk_len mark)) (q_tasks q)) (mk_queued_bytes mark)
    (if mk_registry_was_bound mark then q_registry q else None) (q_cache q) (q_workers q).

(* rust: sig_queue.rs 187-199 ensure_registry *)
Definition ensure_registry (registry : SuiteRegistry) : ST SigCheckQueue TxError unit := λ q,
  match q_registry q with
  | Some current =>
      if negb (bool_decide (current = registry))
      then (tx_err TxErrSigAlgInvalid "SigCheckQueue registry mismatch", q)
      else (Ok (), q)
  | None => (Ok (), with_registry q registry)
  end.

Section verify_queue.
  Context `{HS : Sha3} `{HO : OpenSsl}.

(* rust: sig_queue.rs 206-228 queue_or_verify_signature *)
Definition queue_or_verify_signature (suite_id : Z) (pubkey crypto_sig digest : bytes)
    (registry : SuiteRegistry) (err_on_fail : TxError) :
    ST (option SigCheckQueue) TxError unit := λ sig_queue,
  match sig_queue with
  | Some queue =>
      let '(r, queue) := (_ ← ensure_registry registry;
                          queue_push suite_id pubkey crypto_sig digest err_on_fail) queue in
      (r, Some queue)
  | None =>
      (ok ← verify_sig_with_registry suite_id pubkey crypto_sig digest (Some registry);
       if negb ok then Err err_on_fail else Ok (), None)
  end.

(** The cache is looked up and filled in two atomic actions. *)
(* rust: sig_queue.rs 231-256 verify_queued_task *)
Definition verify_queued_task (registry : option SuiteRegistry) (task : SigCheckTask) :
    job (option SigCache) (res unit) :=
  let verify :=
    match verify_sig_with_registry (tk_suite_id task) (tk_pubkey task) (tk_sig task)
            (tk_digest task) registry with
    | Err e => JRet (Err e)
    | Ok ok =>
        if negb ok then JRet (Err (tk_err_on_fail task)) else
        JAct (fmap (cache_insert (tk_suite_id task) (tk_pubkey task) (tk_sig task) (tk_digest task)))
          (λ _, JRet (Ok ()))
    end in
  let lookup := cache_lookup (tk_suite_id task) (tk_pubkey task) (tk_sig task) (tk_digest task) in
  JAct (fmap (λ cache, (lookup cache).2))
    (λ cache, match cache with
              | Some cache => if (lookup cache).1 then JRet (Ok ()) else verify
              | None => verify
              end).

(** The loop of [flush] on the calling thread. *)
(* rust: sig_queue.rs 147-149 flush *)
Fixpoint verify_queued_tasks (registry : option SuiteRegistry) (tasks : list SigCheckTask) :
    job (option SigCache) (res unit) :=
  match tasks with
  | [] => JRet (Ok ())
  | task :: tasks =>
      job_bind (verify_queued_task registry task) (λ r,
        match r with Ok _ => verify_queued_tasks registry tasks | Err e => JRet (Err e) end)
  end.

(* rust: sig_queue.rs 325-342 reduce_queued_task_results *)
Fixpoint reduce_queued_task_results (results : list (WorkerResult unit TxError)) : res unit :=
  match results with
  | [] => Ok ()
  | r :: results =>
      match wr_error r with
      | Some (TaskErr err) => Err err
      | Some (Panicked _) => tx_err TxErrSigInvalid "signature worker panic (fail-closed)"
      | Some Cancelled | None => reduce_queued_task_results results
      end
  end.

(* rust: sig_queue.rs 344-356 worker_pool_sigcheck_error_to_tx_error *)
Definition worker_pool_sigcheck_error_to_tx_error (err : WorkerPoolError TxError) : TxError :=
  match err with
  | TaskErr err => err
  | Cancelled => mkTxError TxErrSigInvalid "signature worker canceled (fail-closed)"
  | Panicked _ => mkTxError TxErrSigInvalid "signature worker panic (fail-closed)"
  end.

(* rust: sig_queue.rs 358-369 sigcheck_batch_run_error_to_tx_error *)
Definition sigcheck_batch_run_error_to_tx_error (err : WorkerPoolRunError) : TxError :=
  match err with
  | InvalidMaxTasks => mkTxError TxErrSigInvalid "signature batch worker pool misconfigured"
  | TooManyTasks _ _ => mkTxError TxErrWitnessOverflow "signature batch task budget exceeded"
  end.

(** The token of a batch is its own and never cancelled. *)
(* rust: sig_queue.rs 258-273 verify_queued_tasks_batch *)
Definition verify_queued_tasks_batch (parallelism : Z) (tasks : list SigCheckTask) (workers : Z)
    (registry : option SuiteRegistry) (cache : option SigCache) (es : list (event (option SigCache))) :
    option (res unit * option SigCache) :=
  let max_tasks := len tasks in
  '(out, cache) ← run_worker_pool (λ _, false) (λ task, job_map Some (verify_queued_task registry task))
                    parallelism workers max_tasks tasks cache es;
  Some (results ← map_err sigcheck_batch_run_error_to_tx_error out;
        reduce_queued_task_results results, cache).

(** [None]: the events are not a complete execution. *)
(* rust: sig_queue.rs 139-159 flush *)
Definition flush (parallelism : Z) (es : list (event (option SigCache))) (q : SigCheckQueue) :
    option (res unit * SigCheckQueue) :=
  match q_tasks q with
  | [] => Some (Ok (), q)
  | tasks =>
      '(r, cache) ←
        (if (len tasks =? 1) || (q_workers q <=? 1)
         then job_events es (verify_queued_tasks (q_registry q) tasks) (q_cache q)
         else verify_queued_tasks_batch parallelism tasks (q_workers q) (q_registry q) (q_cache q) es);
      Some (r, mkSigCheckQueue [] 0 (q_registry q) cache (q_workers q))
  end.

(** The batch check of independent requests. *)
(* rust: sig_queue.rs 297-311 verify_signatures_batch_with_limit *)
Definition verify_request (r : SigVerifyRequest) : job unit (option (res unit)) :=
  JRet (Some (
    ok ← verify_sig_with_registry (rq_suite_id r) (rq_pubkey r) (rq_sig r) (rq_digest r)
           (Some default_registry);
    if negb ok then tx_err TxErrSigInvalid "batch: signature invalid" else Ok ())).
(* rust: sig_queue.rs 289-323 verify_signatures_batch_with_limit *)
Definition verify_signatures_batch_with_limit (parallelism : Z) (tasks : list SigVerifyRequest)
    (workers max_tasks : Z) (es : list (event unit)) : option (list (option TxError)) :=
  '(out, _) ← run_worker_pool (λ _, false) verify_request parallelism workers max_tasks tasks () es;
  Some (match out with
        | Ok results => (λ r, worker_pool_sigcheck_error_to_tx_error <$> wr_error r) <$> results
        | Err run_err =>
            replicate (length tasks) (Some (sigcheck_batch_run_error_to_tx_error run_err))
        end).
(* rust: sig_queue.rs 276-286 verify_signatures_batch *)
Definition verify_signatures_batch (parallelism : Z) (tasks : list SigVerifyRequest)
    (workers : Z) (es : list (event unit)) : option (list (option TxError)) :=
  match tasks with
  | [] => Some []
  | _ => verify_signatures_batch_with_limit parallelism tasks workers (len tasks) es
  end.
End verify_queue.

(** ** Flushing is checking every signature in order *)

Section flush.
Context `{HS : Sha3} `{HO : OpenSsl}.

(** The check a task stands for, without cache or queue. *)
Definition verify_task (registry : option SuiteRegistry) (t : SigCheckTask) : res unit :=
  ok ← verify_sig_with_registry (tk_suite_id t) (tk_pubkey t) (tk_sig t) (tk_digest t) registry;
  if negb ok then Err (tk_err_on_fail t) else Ok ().

Definition verified (registry : option SuiteRegistry) (i : Z) (p s d : bytes) : Prop :=
  verify_sig_with_registry i p s d registry = Ok true.

Definition task_fits (t : SigCheckTask) : Prop :=
  tuple_fits (tk_suite_id t) (tk_pubkey t) (tk_sig t) (tk_digest t).

(** What the flush relies on of the cache: what keeps it while tasks are looked
    up and inserted, and which tasks a hit may wrongly accept. *)
Record cache_law (registry : option SuiteRegistry) (I : option SigCache → Prop) (bad : SigCheckTask → Prop)
    (ts : list SigCheckTask) : Prop := mkCacheLaw {
  cl_lookup : ∀ t c, t ∈ ts → I c → I (option_map (λ c, (cache_lookup (tk_suite_id t) (tk_pubkey t) (tk_sig t) (tk_digest t) c).2) c);
  cl_insert : ∀ t c, t ∈ ts → I c → verify_task registry t = Ok () →
    I (option_map (cache_insert (tk_suite_id t) (tk_pubkey t) (tk_sig t) (tk_digest t)) c);
  cl_hit : ∀ t c, t ∈ ts → I (Some c) → (cache_lookup (tk_suite_id t) (tk_pubkey t) (tk_sig t) (tk_digest t) c).1 = true →
    verify_task registry t = Ok () ∨ bad t }.

(** A queue without a cache, which nobody else gives one. *)
Definition no_cache (c : option SigCache) : Prop := c = None.
Lemma no_cache_law registry ts : cache_law registry no_cache (λ _, False) ts.
Proof. by split; intros t c _; [intros ->|intros ->|]. Qed.

(** A shared cache holds only the keys of recorded signatures that verify under
    the registry. *)
Definition recorded_tuple (registry : option SuiteRegistry) (recorded : list SigCheckTask) (i : Z) (p s d : bytes) : Prop :=
  verified registry i p s d ∧ ∃ e, mkSigCheckTask i p s d e ∈ recorded.
Definition cache_inv (registry : option SuiteRegistry) (recorded : list SigCheckTask) (c : option SigCache) : Prop :=
  match c with Some c => cache_holds (recorded_tuple registry recorded) c | None => True end.

(** The string whose digest is the key of a task. *)
Definition task_string (t : SigCheckTask) : bytes := sig_cache_preimage (tk_suite_id t) (tk_pubkey t) (tk_sig t) (tk_digest t).
(** A signature that does not verify has the key of a recorded one that does. *)
Definition forged (registry : option SuiteRegistry) (recorded : list SigCheckTask) (t : SigCheckTask) : Prop :=
  verify_task registry t ≠ Ok () ∧
  ∃ u, u ∈ recorded ∧ verify_task registry u = Ok () ∧ collision_in [task_string t; task_string u].

Lemma verified_task registry t : verified registry (tk_suite_id t) (tk_pubkey t) (tk_sig t) (tk_digest t) ↔ verify_task registry t = Ok ().
Proof. unfold verified, verify_task. destruct (verify_sig_with_registry _ _ _ _ _) as [[]|e]; cbn; split; (done || by intros [=]). Qed.

Lemma cache_inv_law registry recorded ts : Forall task_fits ts → ts ⊆ recorded →
  cache_law registry (cache_inv registry recorded) (forged registry recorded) ts.
Proof.
  intros Hf Hrec. rewrite list.Forall_forall in Hf. split.
  - intros t [c|] _ Hc; [|done]. by apply cache_holds_lookup.
  - intros t [c|] Ht Hc Hv; [|done]. apply cache_holds_insert; [by apply Hf| |done]. split; [by apply verified_task|].
    exists (tk_err_on_fail t). apply Hrec. by destruct t.
  - intros t c Ht Hc Hhit. destruct (decide (verify_task registry t = Ok ())) as [Hv|Hv]; [by left|right]. split; [done|].
    destruct (cache_lookup_hit _ _ _ _ _ c (Hf t Ht) Hc Hhit) as [[Hv' _]|(i & p & s & d & [Hv' (e & Hu)] & Hcol)].
    + by apply verified_task in Hv'.
    + exists (mkSigCheckTask i p s d e). split; [done|]. split; [by apply verified_task|done].
Qed.

Section law.
Context (registry : option SuiteRegistry) (I : option SigCache → Prop) (bad : SigCheckTask → Prop) (all : list SigCheckTask).
Context (Hlaw : cache_law registry I bad all).

(** The outcome of a list of tasks, up to those that a hit wrongly accepts. *)
Definition direct (ts : list SigCheckTask) (r : res unit) : Prop :=
  r = try_for_each (verify_task registry) ts ∨ ∃ t, t ∈ ts ∧ bad t.
Definition task_outcome (t : SigCheckTask) (r : res unit) : Prop := r = verify_task registry t ∨ bad t.

Lemma verify_queued_task_ok t : t ∈ all → job_ok I (task_outcome t) (verify_queued_task registry t).
Proof.
  intros Ht. unfold verify_queued_task.
  assert (job_ok I (task_outcome t)
    (match verify_sig_with_registry (tk_suite_id t) (tk_pubkey t) (tk_sig t) (tk_digest t) registry with
     | Err e => JRet (Err e)
     | Ok ok =>
         if negb ok then JRet (Err (tk_err_on_fail t)) else
         JAct (fmap (cache_insert (tk_suite_id t) (tk_pubkey t) (tk_sig t) (tk_digest t)))
           (λ _, JRet (Ok ()))
     end)) as Hv.
  { pose proof (cl_insert _ _ _ _ Hlaw t) as Hins. unfold task_outcome, verify_task in *.
    destruct (verify_sig_with_registry _ _ _ _ _) as [[]|e] eqn:Hok; simpl in *; [|constructor; by left..].
    constructor; [|intros; constructor; by left]. intros c Hc. by apply (Hins c Ht Hc). }
  constructor; [intros c Hc; by apply (cl_lookup _ _ _ _ Hlaw t c Ht)|].
  intros [c|] Hc; [|done]. destruct (cache_lookup _ _ _ _ c).1 eqn:Hhit; [|done].
  constructor. destruct (cl_hit _ _ _ _ Hlaw t c Ht Hc Hhit) as [Hok|]; [left|by right]. by rewrite Hok.
Qed.

Lemma verify_queued_tasks_ok ts : ts ⊆ all → job_ok I (direct ts) (verify_queued_tasks registry ts).
Proof.
  induction ts as [|t ts IH]; intros Hsub; [constructor; by left|]. cbn [verify_queued_tasks].
  eapply job_ok_bind; [apply verify_queued_task_ok, Hsub; by left|].
  assert (job_ok I (direct ts) (verify_queued_tasks registry ts)) as Hts by (apply IH; intros x Hx; apply Hsub; by right).
  intros r [->|Hc].
  - unfold direct. cbn [try_for_each]. destruct (verify_task registry t) as [[]|e]; simpl; [|constructor; by left].
    eapply job_ok_mono; [|exact Hts]. intros r [->|(u & Hu & ?)]; [by left|right; exists u; split; [by right|done]].
  - assert (∀ r, direct (t :: ts) r) as Hall by (intros ?; right; exists t; split; [by left|done]).
    destruct r as [[]|e]; [|by constructor]. eapply job_ok_mono; [|exact Hts]. auto.
Qed.

(** Reducing the results of a batch in order. *)
Definition result_of (t : SigCheckTask) (r : WorkerResult unit TxError) : Prop :=
  r = match verify_task registry t with
      | Ok _ => wr_success () | Err e => wr_failure (TaskErr e) end ∨ bad t.

Lemma reduce_results ts rs : Forall2 result_of ts rs → direct ts (reduce_queued_task_results rs).
Proof.
  induction 1 as [|t r ts rs [->|Hb] _ [IH|(u & Hu & ?)]]; [by left| |right; exists u; split; [by right|done]|right; exists t; split; [by left|done]..].
  left. simpl. destruct (verify_task registry t) as [[]|e]; simpl; auto.
Qed.

Lemma batch_task_ok t : t ∈ all →
  job_ok I (result_of t) (exec_task (λ _, false) (λ task, job_map Some (verify_queued_task registry task)) t).
Proof.
  intros Ht. constructor; [done|]. intros s Hs.
  eapply (job_ok_map _ (λ o, ∃ r, o = Some r ∧ task_outcome t r)).
  - intros o (r & -> & [->|]); [left|by right]. by destruct (verify_task registry t) as [[]|].
  - eapply job_ok_map; [|by apply verify_queued_task_ok]. intros r Hr. eauto.
Qed.

Lemma batch_ok parallelism workers cache es r cache' : I cache → Forall (event_ok I) es → all ≠ [] →
  verify_queued_tasks_batch parallelism all workers registry cache es = Some (r, cache') → direct all r ∧ I cache'.
Proof.
  intros Hc Hes Hne H. unfold verify_queued_tasks_batch in H.
  apply bind_Some in H as ([out c] & Hrun & [= <- <-]).
  apply (run_worker_pool_ok _ _ I result_of) in Hrun as [Hc' Hout]; [|intros t Ht; by apply batch_task_ok|done..].
  split; [|done]. destruct Hout as [(results & -> & Hres)|[(_ & Hm & _)|(Hm & _)]].
  - by apply reduce_results.
  - destruct all; simpl in Hm; [done|lia].
  - lia.
Qed.
End law.

Lemma verify_queued_task_le registry t : job_le 2 (verify_queued_task registry t).
Proof.
  unfold verify_queued_task. destruct (verify_sig_with_registry _ _ _ _ _) as [[]|e]; simpl;
    constructor; intros [c|]; try case_match; repeat constructor.
Qed.
Lemma verify_queued_tasks_le registry ts : job_le (2 * length ts) (verify_queued_tasks registry ts).
Proof.
  induction ts as [|t ts IH]; [constructor|]. eapply job_le_mono.
  - apply job_le_bind; [apply verify_queued_task_le|]. intros [[]|e]; [apply IH|constructor].
  - simpl. lia.
Qed.

Lemma batch_completes parallelism tasks workers registry cache :
  ∃ es out, verify_queued_tasks_batch parallelism tasks workers registry cache es = Some out.
Proof.
  destruct (run_worker_pool_completes (λ _ : option SigCache, false)
    (λ task, job_map Some (verify_queued_task registry task)) 2
    (λ t, job_le_map Some 2 _ (verify_queued_task_le registry t))
    parallelism workers (len tasks) tasks cache) as (es & [out c] & Hes).
  eexists _, _. unfold verify_queued_tasks_batch. by rewrite Hes.
Qed.

(** The flush under any law of the cache. *)
Lemma flush_ok I bad parallelism es q r q' : cache_law (q_registry q) I bad (q_tasks q) → I (q_cache q) →
  Forall (event_ok I) es → flush parallelism es q = Some (r, q') →
  direct (q_registry q) bad (q_tasks q) r
  ∧ assert_flushed q' = Ok () ∧ q_registry q' = q_registry q ∧ I (q_cache q').
Proof.
  intros Hlaw Hc Hes Hfl. destruct q as [tasks qb registry cache workers]; simpl in *.
  unfold flush in Hfl. cbn [q_tasks q_registry q_cache q_workers] in Hfl.
  destruct tasks as [|t ts]; [injection Hfl as <- <-; by split; [left|]|].
  apply bind_Some in Hfl as ([r1 c1] & Hrun & [= <- <-]). simpl.
  assert (direct registry bad (t :: ts) r1 ∧ I c1) as [??]; [|done].
  destruct (_ || _).
  - by apply (job_events_ok _ _ _ _ _ _ _ Hes (verify_queued_tasks_ok registry I bad _ Hlaw _ (reflexivity _)) Hc) in Hrun.
  - by eapply (batch_ok registry I bad).
Qed.

Lemma flush_completes parallelism q : ∃ es r q', flush parallelism es q = Some (r, q').
Proof.
  destruct q as [tasks qb registry cache workers].
  unfold flush. cbn [q_tasks q_registry q_cache q_workers].
  destruct tasks as [|t ts]; [by eexists [], _, _|].
  destruct (_ || _).
  - destruct (job_completes _ _ cache (verify_queued_tasks_le registry (t :: ts)))
      as (es & r & c & Hes). eexists _, _, _. by rewrite Hes.
  - destruct (batch_completes parallelism (t :: ts) workers registry cache) as (es & [r c] & Hes).
    eexists _, _, _. by rewrite Hes.
Qed.

(** C23: flushing the queue is checking its signatures one by one in the
    order they were queued: on every schedule of the workers, and whatever
    other threads add to the shared cache of verified signatures, the flush
    returns the error of the first signature that fails, or success, exactly
    as the direct checks would, unless a queued signature that does not verify
    has the same cache key as one of the recorded signatures; it leaves the
    queue empty and the cache sound, and some schedule of the workers completes
    it. [recorded] lists the signatures in play: those whose keys are in the
    cache or are added by others, and the queued ones. *)
Theorem flush_correct parallelism recorded q : q_tasks q ⊆ recorded →
  Forall task_fits (q_tasks q) → cache_inv (q_registry q) recorded (q_cache q) →
  (∀ es r q', Forall (event_ok (cache_inv (q_registry q) recorded)) es →
     flush parallelism es q = Some (r, q') →
     (r = try_for_each (verify_task (q_registry q)) (q_tasks q) ∨ ∃ t, t ∈ q_tasks q ∧ forged (q_registry q) recorded t)
     ∧ assert_flushed q' = Ok () ∧ q_registry q' = q_registry q
     ∧ cache_inv (q_registry q') recorded (q_cache q'))
  ∧ ∃ es r q', flush parallelism es q = Some (r, q').
Proof.
  intros Hsub Hf Hc. split; [|apply flush_completes]. intros es r q' Hes Hfl.
  destruct (flush_ok _ _ _ _ _ _ _ (cache_inv_law _ _ _ Hf Hsub) Hc Hes Hfl) as (Hd & Ha & -> & Hi). by split_and!.
Qed.
End flush.

(** ** Filling and rolling back *)

(** What a validation does to the queue it is given. *)
Inductive queue_op : Type :=
  | OpPush (suite_id : Z) (pubkey sig digest : bytes) (err_on_fail : TxError)
  | OpEnsure (registry : SuiteRegistry).

Definition run_queue_op (q : SigCheckQueue) (o : queue_op) : SigCheckQueue :=
  match o with
  | OpPush i p s d e => (queue_push i p s d e q).2
  | OpEnsure registry => (ensure_registry registry q).2
  end.

Definition task_bytes (t : SigCheckTask) : Z := 34 + len (tk_pubkey t) + len (tk_sig t).
Definition tasks_bytes (ts : list SigCheckTask) : Z := foldr Z.add 0 (task_bytes <$> ts).

Lemma tasks_bytes_app l1 l2 : tasks_bytes (l1 ++ l2) = tasks_bytes l1 + tasks_bytes l2.
Proof.
  unfold tasks_bytes. induction l1 as [|t l1 IH]; [done|]. cbn [app fmap list_fmap foldr]. lia.
Qed.

Lemma tasks_bytes_nonneg l : 0 ≤ tasks_bytes l.
Proof.
  unfold tasks_bytes, task_bytes. induction l as [|t l IH]; [done|]. cbn [fmap list_fmap foldr]. lia.
Qed.

(** The byte account is exact and within the budget. *)
Definition queue_wf (q : SigCheckQueue) : Prop :=
  q_queued_bytes q = tasks_bytes (q_tasks q) ∧ q_queued_bytes q ≤ MAX_SIGCHECK_QUEUE_BYTES.

(** A push within the budgets. *)
Definition push_fits (p s : bytes) (q : SigCheckQueue) : Prop :=
  (∃ m, max_sigcheck_queue_tasks (q_registry q) = Ok m ∧ len (q_tasks q) < m)
  ∧ q_queued_bytes q + (34 + len p + len s) ≤ MAX_SIGCHECK_QUEUE_BYTES.

Definition pushed (t : SigCheckTask) (q : SigCheckQueue) : SigCheckQueue :=
  mkSigCheckQueue (q_tasks q ++ [t]) (q_queued_bytes q + task_bytes t)
    (q_registry q) (q_cache q) (q_workers q).

Lemma queue_push_cases i p s d e q : 0 ≤ q_queued_bytes q →
  (push_fits p s q ∧ queue_push i p s d e q = (Ok (), pushed (mkSigCheckTask i p s d e) q))
  ∨ (¬ push_fits p s q ∧ ∃ err, queue_push i p s d e q = (Err err, q)).
Proof.
  intros H0. unfold queue_push, push_fits, ensure_task_budget, sigcheck_task_bytes, next_queued_bytes,
    checked_add, SIGCHECK_TASK_FIXED_OVERHEAD_BYTES, pushed, task_bytes.
  change MAX_SIGCHECK_QUEUE_BYTES with 68000000. unfold usize_max, u64_max. simpl tk_pubkey. simpl tk_sig.
  destruct (max_sigcheck_queue_tasks (q_registry q)) as [m|e0]; cbn [mbind result_bind];
    [|right; split; [by intros ((? & [=] & _) & _)|eauto]].
  destruct (m <=? len (q_tasks q)) eqn:Hm.
  { right. split; [|eauto]. intros ((m' & [= <-] & ?) & _). lia. }
  change (1 + 32 + 1) with 34.
  repeat (match goal with |- context [if ?b then _ else _] => destruct b eqn:? end;
          cbn [mbind option_bind result_bind ok_or]);
    try (right; split; [intros (_ & ?); lia|by eexists]).
  left. split; [split; [exists m; split; [done|lia]|lia]|]. by rewrite Z.add_assoc.
Qed.

(** Operations only append tasks and bind a registry. *)
Record extends (q q' : SigCheckQueue) : Prop := {
  ex_tasks : ∃ ts, q_tasks q' = q_tasks q ++ ts;
  ex_registry : q_registry q = None ∨ q_registry q' = q_registry q;
  ex_cache : q_cache q' = q_cache q;
  ex_workers : q_workers q' = q_workers q;
}.

Lemma extends_refl q : extends q q.
Proof. constructor; auto. exists []. by rewrite app_nil_r. Qed.

Lemma extends_trans q1 q2 q3 : extends q1 q2 → extends q2 q3 → extends q1 q3.
Proof.
  intros [[t1 H1] Hr1 Hc1 Hw1] [[t2 H2] Hr2 Hc2 Hw2]. constructor; [|intuition congruence..].
  exists (t1 ++ t2). by rewrite H2, H1, app_assoc.
Qed.

Lemma run_queue_op_wf q o : queue_wf q → queue_wf (run_queue_op q o) ∧ extends q (run_queue_op q o).
Proof.
  intros [Hb Hm]. destruct o as [i p s d e|r]; simpl.
  - assert (0 ≤ q_queued_bytes q) as H0.
    { rewrite Hb. apply tasks_bytes_nonneg. }
    destruct (queue_push_cases i p s d e q H0) as [[[_ Hf] ->]|[_ [err ->]]];
      [|split; [done|apply extends_refl]]. simpl.
    split; [|constructor; simpl; eauto]. split; simpl; [|exact Hf].
    rewrite tasks_bytes_app, Hb. unfold tasks_bytes at 3. simpl. lia.
  - unfold ensure_registry. destruct (q_registry q) as [c|] eqn:Hr.
    + case_match; (split; [done|apply extends_refl]).
    + split; [done|]. constructor; simpl; auto. exists []. by rewrite app_nil_r.
Qed.

Lemma run_queue_ops_wf ops q : queue_wf q →
  queue_wf (foldl run_queue_op q ops) ∧ extends q (foldl run_queue_op q ops).
Proof.
  revert q; induction ops as [|o ops IH]; intros q Hq; [split; [done|apply extends_refl]|].
  cbn [foldl]. destruct (run_queue_op_wf q o Hq) as [Hq1 He1].
  destruct (IH _ Hq1) as [Hq2 He2]. split; [done|by eapply extends_trans].
Qed.

Lemma rollback_extends q q' : extends q q' → rollback_to (queue_mark q) q' = q.
Proof.
  intros [[ts Ht] Hr Hc Hw]. destruct q as [t b r c w], q' as [t' b' r' c' w'].
  unfold rollback_to, queue_mark. simpl in *. subst. rewrite Nat2Z.id, take_app_length.
  f_equal. destruct r; [by destruct Hr as [[=]|]|done].
Qed.

(** A validation that fails leaves no trace in the queue: after any
    operations on the queue, rolling back to a mark taken before them restores
    exactly the queue at the mark - its tasks, its byte account and whether a
    registry is bound; and at all times the byte account is the size of the
    queued tasks and stays within the budget of a block's weight. *)
Theorem queue_rollback registry cache workers ops1 ops2 :
  let q := foldl run_queue_op (mkSigCheckQueue [] 0 registry cache workers) ops1 in
  rollback_to (queue_mark q) (foldl run_queue_op q ops2) = q
  ∧ q_queued_bytes q = tasks_bytes (q_tasks q)
  ∧ q_queued_bytes q ≤ MAX_SIGCHECK_QUEUE_BYTES.
Proof.
  intros q. destruct (run_queue_ops_wf ops1 (mkSigCheckQueue [] 0 registry cache workers)) as [Hq _].
  { split; [done|]. vm_compute. discriminate. }
  fold q in Hq. destruct (run_queue_ops_wf ops2 q Hq) as [_ He].
  split; [by apply rollback_extends|exact Hq].
Qed.

(** ** Witness *)

(** Three tasks whose first bytes decide, and a warm cache, on two workers. *)
Definition demo_key : bytes := replicate 2592 x07.
Definition demo_sig (b : byte) : bytes := b :: replicate 4626 x00.
Definition demo_sigtask (b : byte) : SigCheckTask :=
  mkSigCheckTask 1 demo_key (demo_sig b) (replicate 32 x05) (mkTxError TxErrSigInvalid "bad").
Definition demo_queue : SigCheckQueue :=
  mkSigCheckQueue [demo_sigtask x01; demo_sigtask x00; demo_sigtask x01] (3 * (34 + 2592 + 4627))
    (Some default_registry)
    (Some (cache_insert (HS := toy_sha3) 1 demo_key (demo_sig x01) (replicate 32 x05) (sig_cache_new 10)))
    2.

Lemma flush_correct_witness :
  verify_task (HO := toy_openssl) (Some default_registry) (demo_sigtask x00)
    = Err (mkTxError TxErrSigInvalid "bad") ∧
  (∀ es r q', Forall (event_ok (cache_inv (HS := toy_sha3) (HO := toy_openssl) (q_registry demo_queue) (q_tasks demo_queue))) es →
     flush (HS := toy_sha3) (HO := toy_openssl) 1 es demo_queue = Some (r, q') →
     (r = try_for_each (verify_task (HO := toy_openssl) (q_registry demo_queue)) (q_tasks demo_queue)
      ∨ ∃ t, t ∈ q_tasks demo_queue ∧ forged (HS := toy_sha3) (HO := toy_openssl) (q_registry demo_queue) (q_tasks demo_queue) t)
     ∧ assert_flushed q' = Ok () ∧ q_registry q' = q_registry demo_queue
     ∧ cache_inv (HS := toy_sha3) (HO := toy_openssl) (q_registry q') (q_tasks demo_queue) (q_cache q'))
  ∧ ∃ es r q', flush (HS := toy_sha3) (HO := toy_openssl) 1 es demo_queue = Some (r, q').
Proof.
  split; [vm_compute; reflexivity|]. apply (flush_correct (HS := toy_sha3) (HO := toy_openssl)).
  - reflexivity.
  - repeat constructor; vm_compute; done.
  - apply cache_holds_insert; [repeat split; vm_compute; done| |apply cache_holds_new].
    split; [vm_compute; reflexivity|]. exists (mkTxError TxErrSigInvalid "bad"). left.
Defined.
