(* ===== verification/Sighash.v ===== *)
(** * Signature hashes ([sighash.rs])

    The digest a signature commits to, computed through a per-transaction
    cache of the shared hashes.  The cache is the state of the computation;
    [sighash_spec] is the digest without it. *)

From S2P Require Import Prelude Bytes Errors Constants Crypto WireRead CompactSize TxWire TxCodec.

(* rust: sighash.rs 9-16 SighashV1PrehashCache *)
Record SighashV1PrehashCache : Type := mkPrehashCache {
  sc_tx : Tx;
  sc_hash_of_da_core_fields : option bytes;
  sc_hash_all_prevouts : option bytes;
  sc_hash_all_sequences : option bytes;
  sc_hash_all_outputs : option bytes;
  sc_single_outputs : gmap Z bytes }.

Abbreviation cached A := (ST SighashV1PrehashCache TxError A).

(* rust: sighash.rs 18-25 is_valid_sighash_type *)
Definition is_valid_sighash_type (sighash_type : Z) : bool :=
  (sighash_type =? SIGHASH_ALL) || (sighash_type =? SIGHASH_NONE)
  || (sighash_type =? SIGHASH_SINGLE)
  || (sighash_type =? Z.lor SIGHASH_ALL SIGHASH_ANYONECANPAY)
  || (sighash_type =? Z.lor SIGHASH_NONE SIGHASH_ANYONECANPAY)
  || (sighash_type =? Z.lor SIGHASH_SINGLE SIGHASH_ANYONECANPAY).

(* rust: sighash.rs 48-57 new *)
Definition prehash_cache_new (tx : Tx) : res SighashV1PrehashCache :=
  Ok (mkPrehashCache tx None None None None ∅).

(** The loop bodies and the output bytes. *)
(* rust: sighash.rs 73-76 hash_all_prevouts *)
Definition push_prevout (out : bytes) (i : TxInput) : bytes :=
  let out := out ++ prev_txid i in out ++ u32_le (prev_vout i).
(* rust: sighash.rs 87-89 hash_all_sequences *)
Definition push_sequence (out : bytes) (i : TxInput) : bytes := out ++ u32_le (sequence i).
(* rust: sighash.rs 100-105 hash_all_outputs *)
Definition push_output (out : bytes) (o : TxOutput) : bytes :=
  let out := out ++ u64_le (value o) in
  let out := out ++ u16_le (covenant_type o) in
  let out := encode_compact_size (len (covenant_data o)) out in
  out ++ covenant_data o.

Section sighash.
  Context `{HS : Sha3}.

(* rust: sighash.rs 59-66 hash_of_da_core_fields *)
Definition hash_of_da_core_fields : cached bytes := λ c,
  match sc_hash_of_da_core_fields c with
  | Some hash => (Ok hash, c)
  | None =>
      match da_core_fields_bytes (sc_tx c) with
      | Err e => (Err e, c)
      | Ok b =>
          let hash := sha3_256 b in
          (Ok hash, mkPrehashCache (sc_tx c) (Some hash) (sc_hash_all_prevouts c)
                      (sc_hash_all_sequences c) (sc_hash_all_outputs c) (sc_single_outputs c))
      end
  end.

(* rust: sighash.rs 68-80 hash_all_prevouts *)
Definition hash_all_prevouts : cached bytes := λ c,
  match sc_hash_all_prevouts c with
  | Some hash => (Ok hash, c)
  | None =>
      let prevouts := foldl push_prevout [] (inputs (sc_tx c)) in
      let hash := sha3_256 prevouts in
      (Ok hash, mkPrehashCache (sc_tx c) (sc_hash_of_da_core_fields c) (Some hash)
                  (sc_hash_all_sequences c) (sc_hash_all_outputs c) (sc_single_outputs c))
  end.

(* rust: sighash.rs 82-93 hash_all_sequences *)
Definition hash_all_sequences : cached bytes := λ c,
  match sc_hash_all_sequences c with
  | Some hash => (Ok hash, c)
  | None =>
      let sequences := foldl push_sequence [] (inputs (sc_tx c)) in
      let hash := sha3_256 sequences in
      (Ok hash, mkPrehashCache (sc_tx c) (sc_hash_of_da_core_fields c) (sc_hash_all_prevouts c)
                  (Some hash) (sc_hash_all_outputs c) (sc_single_outputs c))
  end.

(* rust: sighash.rs 95-109 hash_all_outputs *)
Definition hash_all_outputs : cached bytes := λ c,
  match sc_hash_all_outputs c with
  | Some hash => (Ok hash, c)
  | None =>
      let outputs_bytes := foldl push_output [] (outputs (sc_tx c)) in
      let hash := sha3_256 outputs_bytes in
      (Ok hash, mkPrehashCache (sc_tx c) (sc_hash_of_da_core_fields c) (sc_hash_all_prevouts c)
                  (sc_hash_all_sequences c) (Some hash) (sc_single_outputs c))
  end.

(* rust: sighash.rs 111-130 single_output_hash *)
Definition single_output_hash (input_index : Z) : cached bytes := λ c,
  match sc_single_outputs c !! input_index with
  | Some hash => (Ok hash, c)
  | None =>
      let hash := match outputs (sc_tx c) !! Z.to_nat input_index with
                  | Some o => sha3_256 (push_output [] o)
                  | None => sha3_256 []
                  end in
      (Ok hash, mkPrehashCache (sc_tx c) (sc_hash_of_da_core_fields c) (sc_hash_all_prevouts c)
                  (sc_hash_all_sequences c) (sc_hash_all_outputs c)
                  (<[input_index := hash]> (sc_single_outputs c)))
  end.

(* rust: sighash.rs 133-207 sighash_v1_digest_with_cache *)
Definition sighash_v1_digest_with_cache (input_index input_value : Z) (chain_id : bytes)
    (sighash_type : Z) : cached bytes :=
  tx ← gets sc_tx;
  match inputs tx !! Z.to_nat input_index with
  | None => lift (tx_err TxErrParse "sighash: input_index out of bounds")
  | Some i =>
      if negb (is_valid_sighash_type sighash_type)
      then lift (tx_err TxErrSighashTypeInvalid "sighash: invalid sighash_type") else
      let base_type := Z.land sighash_type 0x1f in
      let anyone_can_pay := negb (Z.land sighash_type SIGHASH_ANYONECANPAY =? 0) in
      hash_prevouts ← (if anyone_can_pay then mret (sha3_256 (push_prevout [] i))
                       else hash_all_prevouts);
      hash_sequences ← (if anyone_can_pay then mret (sha3_256 (push_sequence [] i))
                        else hash_all_sequences);
      hash_outputs ← (if base_type =? SIGHASH_ALL then hash_all_outputs
                      else if base_type =? SIGHASH_NONE then mret (sha3_256 [])
                      else if base_type =? SIGHASH_SINGLE then single_output_hash input_index
                      else lift (tx_err TxErrSighashTypeInvalid "sighash: invalid base_type"));
      da_hash ← hash_of_da_core_fields;
      let preimage := ascii_bytes "RUBINv1-sighash/" ++ chain_id ++ u32_le (version tx)
        ++ [byte_of_Z (tx_kind tx)] ++ u64_le (tx_nonce tx) ++ da_hash ++ hash_prevouts
        ++ hash_sequences ++ u32_le input_index ++ prev_txid i ++ u32_le (prev_vout i)
        ++ u64_le input_value ++ u32_le (sequence i) ++ hash_outputs ++ u32_le (locktime tx)
        ++ [byte_of_Z sighash_type] in
      mret (sha3_256 preimage)
  end.

(* rust: sighash.rs 36-45 sighash_v1_digest_with_type *)
Definition sighash_v1_digest_with_type (tx : Tx) (input_index input_value : Z)
    (chain_id : bytes) (sighash_type : Z) : res bytes :=
  cache ← prehash_cache_new tx;
  (sighash_v1_digest_with_cache input_index input_value chain_id sighash_type cache).1.

(* rust: sighash.rs 27-34 sighash_v1_digest *)
Definition sighash_v1_digest (tx : Tx) (input_index input_value : Z) (chain_id : bytes) :
    res bytes :=
  sighash_v1_digest_with_type tx input_index input_value chain_id SIGHASH_ALL.

(** ** The digest without the cache *)

Definition prevouts_part (tx : Tx) (i : TxInput) (t : Z) : bytes :=
  if negb (Z.land t SIGHASH_ANYONECANPAY =? 0) then push_prevout [] i
  else foldl push_prevout [] (inputs tx).
Definition sequences_part (tx : Tx) (i : TxInput) (t : Z) : bytes :=
  if negb (Z.land t SIGHASH_ANYONECANPAY =? 0) then push_sequence [] i
  else foldl push_sequence [] (inputs tx).
Definition single_part (tx : Tx) (idx : Z) : bytes :=
  match outputs tx !! Z.to_nat idx with Some o => push_output [] o | None => [] end.
Definition outputs_part (tx : Tx) (idx t : Z) : bytes :=
  if Z.land t 0x1f =? SIGHASH_ALL then foldl push_output [] (outputs tx)
  else if Z.land t 0x1f =? SIGHASH_NONE then []
  else single_part tx idx.

Definition sighash_preimage (tx : Tx) (i : TxInput) (idx v : Z) (chain_id : bytes) (t : Z)
    (da : bytes) : bytes :=
  ascii_bytes "RUBINv1-sighash/" ++ chain_id ++ u32_le (version tx)
  ++ [byte_of_Z (tx_kind tx)] ++ u64_le (tx_nonce tx) ++ sha3_256 da
  ++ sha3_256 (prevouts_part tx i t) ++ sha3_256 (sequences_part tx i t) ++ u32_le idx
  ++ prev_txid i ++ u32_le (prev_vout i) ++ u64_le v ++ u32_le (sequence i)
  ++ sha3_256 (outputs_part tx idx t) ++ u32_le (locktime tx) ++ [byte_of_Z t].

Definition sighash_spec (tx : Tx) (idx v : Z) (chain_id : bytes) (t : Z) : res bytes :=
  match inputs tx !! Z.to_nat idx with
  | None => tx_err TxErrParse "sighash: input_index out of bounds"
  | Some i =>
      if negb (is_valid_sighash_type t)
      then tx_err TxErrSighashTypeInvalid "sighash: invalid sighash_type" else
      da ← da_core_fields_bytes tx;
      Ok (sha3_256 (sighash_preimage tx i idx v chain_id t da))
  end.

(** ** The cache is transparent *)

Definition opt_ok {A} (o : option A) (a : A) : Prop := match o with Some b => b = a | None => True end.

(** A cache of [tx] holds only hashes of [tx]. *)
Record cache_ok (tx : Tx) (c : SighashV1PrehashCache) : Prop := {
  co_tx : sc_tx c = tx;
  co_da : ∀ h, sc_hash_of_da_core_fields c = Some h →
            ∃ b, da_core_fields_bytes tx = Ok b ∧ h = sha3_256 b;
  co_prevouts : opt_ok (sc_hash_all_prevouts c) (sha3_256 (foldl push_prevout [] (inputs tx)));
  co_sequences : opt_ok (sc_hash_all_sequences c) (sha3_256 (foldl push_sequence [] (inputs tx)));
  co_outputs : opt_ok (sc_hash_all_outputs c) (sha3_256 (foldl push_output [] (outputs tx)));
  co_single : map_Forall (λ idx h, h = sha3_256 (single_part tx idx)) (sc_single_outputs c);
}.

(** [computes m v]: on any cache of [tx], [m] returns [v] and leaves a cache
    of [tx]. *)
Definition computes (tx : Tx) {A} (m : cached A) (v : res A) : Prop :=
  ∀ c, cache_ok tx c → ∃ c', m c = (v, c') ∧ cache_ok tx c'.

Lemma prehash_cache_new_ok tx : ∃ c, prehash_cache_new tx = Ok c ∧ cache_ok tx c.
Proof. eexists. split; [done|]. by constructor. Qed.

Lemma computes_lift tx {A} (r : res A) : computes tx (lift r) r.
Proof. intros c Hc. by exists c. Qed.

Lemma computes_ret tx {A} (a : A) : computes tx (mret a) (Ok a).
Proof. intros c Hc. by exists c. Qed.

Lemma computes_tx tx : computes tx (gets sc_tx) (Ok tx).
Proof. intros c Hc. exists c. unfold gets. by rewrite (co_tx _ _ Hc). Qed.

Lemma computes_bind tx {A B} (m : cached A) (k : A → cached B) r (f : A → res B) :
  computes tx m r → (∀ a, r = Ok a → computes tx (k a) (f a)) →
  computes tx (m ≫= k) (r ≫= f).
Proof.
  intros Hm Hk c Hc. destruct (Hm c Hc) as (c' & Hmc & Hc').
  unfold mbind at 1, st_bind. rewrite Hmc. destruct r as [a|e]; [|by exists c'].
  by apply Hk.
Qed.

Lemma computes_prevouts tx :
  computes tx hash_all_prevouts (Ok (sha3_256 (foldl push_prevout [] (inputs tx)))).
Proof.
  intros c Hc. unfold hash_all_prevouts. destruct Hc as [Ht Hd Hp Hs Ho H1]. subst tx.
  destruct (sc_hash_all_prevouts c) as [h|] eqn:Hh; simpl in Hp.
  - subst h. exists c. split; [done|]. constructor; rewrite ?Hh; done.
  - eexists. split; [done|]. by constructor.
Qed.
Lemma computes_sequences tx :
  computes tx hash_all_sequences (Ok (sha3_256 (foldl push_sequence [] (inputs tx)))).
Proof.
  intros c Hc. unfold hash_all_sequences. destruct Hc as [Ht Hd Hp Hs Ho H1]. subst tx.
  destruct (sc_hash_all_sequences c) as [h|] eqn:Hh; simpl in Hs.
  - subst h. exists c. split; [done|]. constructor; rewrite ?Hh; done.
  - eexists. split; [done|]. by constructor.
Qed.
Lemma computes_outputs tx :
  computes tx hash_all_outputs (Ok (sha3_256 (foldl push_output [] (outputs tx)))).
Proof.
  intros c Hc. unfold hash_all_outputs. destruct Hc as [Ht Hd Hp Hs Ho H1]. subst tx.
  destruct (sc_hash_all_outputs c) as [h|] eqn:Hh; simpl in Ho.
  - subst h. exists c. split; [done|]. constructor; rewrite ?Hh; done.
  - eexists. split; [done|]. by constructor.
Qed.
Lemma computes_single tx idx : computes tx (single_output_hash idx) (Ok (sha3_256 (single_part tx idx))).
Proof.
  intros c Hc. unfold single_output_hash. pose proof Hc as [Ht Hd Hp Hs Ho H1]. subst tx.
  destruct (sc_single_outputs c !! idx) as [h|] eqn:Hh.
  - specialize (H1 idx h Hh). simpl in H1. subst h. by exists c.
  - assert (match outputs (sc_tx c) !! Z.to_nat idx with
            | Some o => sha3_256 (push_output [] o) | None => sha3_256 [] end
            = sha3_256 (single_part (sc_tx c) idx)) as -> by (unfold single_part; by case_match).
    eexists. split; [done|]. constructor; try done. simpl. by apply map_Forall_insert_2.
Qed.
Lemma computes_da tx :
  computes tx hash_of_da_core_fields (b ← da_core_fields_bytes tx; Ok (sha3_256 b)).
Proof.
  intros c Hc. unfold hash_of_da_core_fields. pose proof Hc as [Ht Hd Hp Hs Ho H1]. subst tx.
  destruct (sc_hash_of_da_core_fields c) as [h|] eqn:Hh.
  - destruct (Hd h) as (b & Hb & ->); [done|]. rewrite Hb. by exists c.
  - destruct (da_core_fields_bytes (sc_tx c)) as [b|e] eqn:Hb; simpl; [|by exists c].
    eexists. split; [done|]. constructor; try done. intros h [= <-]. eauto.
Qed.

Lemma computes_eq tx {A} (m : cached A) r r' : r = r' → computes tx m r → computes tx m r'.
Proof. by intros ->. Qed.

Lemma valid_sighash_cases t : is_valid_sighash_type t = true →
  t = 0x01 ∨ t = 0x02 ∨ t = 0x03 ∨ t = 0x81 ∨ t = 0x82 ∨ t = 0x83.
Proof.
  unfold is_valid_sighash_type. change (Z.lor SIGHASH_ALL SIGHASH_ANYONECANPAY) with 0x81.
  change (Z.lor SIGHASH_NONE SIGHASH_ANYONECANPAY) with 0x82.
  change (Z.lor SIGHASH_SINGLE SIGHASH_ANYONECANPAY) with 0x83.
  unfold SIGHASH_ALL, SIGHASH_NONE, SIGHASH_SINGLE. lia.
Qed.

Lemma sighash_computes tx idx v chain_id t :
  computes tx (sighash_v1_digest_with_cache idx v chain_id t) (sighash_spec tx idx v chain_id t).
Proof.
  unfold sighash_v1_digest_with_cache.
  eapply (computes_eq tx _ (tx0 ← Ok tx; sighash_spec tx0 idx v chain_id t)); [done|].
  eapply computes_bind; [apply computes_tx|]. intros tx0 [= <-]. unfold sighash_spec.
  destruct (inputs tx !! Z.to_nat idx) as [i|]; [|apply computes_lift].
  destruct (is_valid_sighash_type t) eqn:Ht; simpl negb; cbv iota; [|apply computes_lift].
  apply (computes_eq tx _
    (hp ← Ok (sha3_256 (prevouts_part tx i t));
     hs ← Ok (sha3_256 (sequences_part tx i t));
     ho ← Ok (sha3_256 (outputs_part tx idx t));
     hd ← (b ← da_core_fields_bytes tx; Ok (sha3_256 b));
     Ok (sha3_256 (ascii_bytes "RUBINv1-sighash/" ++ chain_id ++ u32_le (version tx)
        ++ [byte_of_Z (tx_kind tx)] ++ u64_le (tx_nonce tx) ++ hd ++ hp
        ++ hs ++ u32_le idx ++ prev_txid i ++ u32_le (prev_vout i)
        ++ u64_le v ++ u32_le (sequence i) ++ ho ++ u32_le (locktime tx)
        ++ [byte_of_Z t])))).
  { run_bind. by destruct (da_core_fields_bytes tx). }
  eapply computes_bind; [unfold prevouts_part; case_match; [apply computes_ret|apply computes_prevouts]|].
  intros hp _. eapply computes_bind;
    [unfold sequences_part; case_match; [apply computes_ret|apply computes_sequences]|].
  intros hs _. eapply computes_bind.
  { unfold outputs_part. case_match eqn:H1; [apply computes_outputs|].
    case_match eqn:H2; [apply computes_ret|].
    replace (Z.land t 31 =? SIGHASH_SINGLE) with true; [apply computes_single|].
    apply valid_sighash_cases in Ht. destruct_or!; subst; done. }
  intros ho _. eapply computes_bind; [apply computes_da|]. intros hd _. apply computes_ret.
Qed.

Lemma digest_with_type_spec tx idx v chain_id t :
  sighash_v1_digest_with_type tx idx v chain_id t = sighash_spec tx idx v chain_id t.
Proof.
  unfold sighash_v1_digest_with_type. destruct (prehash_cache_new_ok tx) as (c0 & -> & Hc0).
  run_bind. by destruct (sighash_computes tx idx v chain_id t c0 Hc0) as (c0' & -> & _).
Qed.

(** The prehash cache is transparent: whatever digests were computed
    through it before (on the same transaction), the digest or error it
    returns is that of the computation without a cache, and it stays a valid
    cache of the transaction, so the order and number of the signatures of a
    transaction never change what each of them signs. *)
Theorem sighash_cache_transparent tx c idx v chain_id t : cache_ok tx c →
  ∃ c', sighash_v1_digest_with_cache idx v chain_id t c = (sighash_spec tx idx v chain_id t, c')
        ∧ cache_ok tx c' ∧ sighash_v1_digest_with_type tx idx v chain_id t
                           = sighash_spec tx idx v chain_id t.
Proof.
  intros Hc. destruct (sighash_computes tx idx v chain_id t c Hc) as (c' & -> & Hc').
  exists c'. auto using digest_with_type_spec.
Qed.

(** ** What a digest commits to *)

Lemma foldl_push_prevout l out :
  foldl push_prevout out l = out ++ concat_map (λ i, prev_txid i ++ u32_le (prev_vout i)) l.
Proof. apply foldl_app_concat. intros o i _. unfold push_prevout. by rewrite <- app_assoc. Qed.
Lemma foldl_push_sequence l out :
  foldl push_sequence out l = out ++ concat_map (λ i, u32_le (sequence i)) l.
Proof. apply foldl_app_concat. done. Qed.
Lemma push_output_enc out o : push_output out o = out ++ enc_output o.
Proof. apply marshal_output_enc. Qed.
Lemma foldl_push_output l out : foldl push_output out l = out ++ concat_map enc_output l.
Proof. apply foldl_app_concat. intros; apply push_output_enc. Qed.

(** Concatenated encodings that are prefix-free and not empty. *)
Lemma concat_map_inj {A} (p : Parser A) {enc valid} {Hp : decodes p enc valid} l1 l2 :
  (∀ x, enc x ≠ []) → Forall valid l1 → Forall valid l2 → len (concat_map enc l1) ≤ isize_max →
  concat_map enc l1 = concat_map enc l2 → l1 = l2.
Proof.
  intros Hne H1. revert l2; induction H1 as [|x l1 Hx Hl1 IH]; intros [|y l2] H2 Hl He; [done|..].
  - symmetry in He. rewrite concat_map_cons in He. apply app_eq_nil in He as [He _].
    by apply Hne in He.
  - rewrite concat_map_cons in He. apply app_eq_nil in He as [He _]. by apply Hne in He.
  - apply Forall_cons_1 in H2 as [Hy Hl2]. rewrite !concat_map_cons in *.
    apply (decodes_prefix_free p) in He as [-> He]; [|done..].
    f_equal. apply IH; [done| |done]. rewrite length_app in Hl. lia.
Qed.

Lemma outputs_bytes_inj l1 l2 : Forall output_valid l1 → Forall output_valid l2 →
  len (concat_map enc_output l1) ≤ isize_max →
  foldl push_output [] l1 = foldl push_output [] l2 → l1 = l2.
Proof.
  intros H1 H2 Hl. rewrite !foldl_push_output. by apply (concat_map_inj parse_tx_output).
Qed.

Lemma outpoints_bytes_inj (l1 l2 : list TxInput) : Forall input_valid l1 → Forall input_valid l2 →
  foldl push_prevout [] l1 = foldl push_prevout [] l2 →
  ((λ i, (prev_txid i, prev_vout i)) <$> l1) = ((λ i, (prev_txid i, prev_vout i)) <$> l2).
Proof.
  rewrite !foldl_push_prevout, !app_nil_l. intros H1.
  revert l2; induction H1 as [|x l1 (Hx1 & Hx2 & _) Hl1 IH]; intros [|y l2] H2; cbn [fmap list_fmap].
  - done.
  - apply Forall_cons_1 in H2 as [(Hy1 & _) _]. intros He%(f_equal length).
    rewrite concat_map_cons, !length_app in He. unfold u32_le in He.
    rewrite le_encode_length in He. simpl in He. lia.
  - intros He%(f_equal length). rewrite concat_map_cons, !length_app in He. unfold u32_le in He.
    rewrite le_encode_length in He. simpl in He. lia.
  - apply Forall_cons_1 in H2 as [(Hy1 & Hy2 & _) Hl2]. rewrite !concat_map_cons, <- !app_assoc.
    intros He. apply app_inj_1 in He as [Ht He]; [|lia].
    apply app_inj_1 in He as [Hv He]; [|by unfold u32_le; rewrite !le_encode_length].
    apply (le_encode_inj 4) in Hv; [|done..]. f_equal; [congruence|]. by apply IH.
Qed.

Lemma sequences_bytes_inj (l1 l2 : list TxInput) : Forall input_valid l1 → Forall input_valid l2 →
  foldl push_sequence [] l1 = foldl push_sequence [] l2 → (sequence <$> l1) = (sequence <$> l2).
Proof.
  rewrite !foldl_push_sequence, !app_nil_l. intros H1.
  revert l2; induction H1 as [|x l1 (_ & _ & _ & Hx) Hl1 IH]; intros [|y l2] H2; cbn [fmap list_fmap];
    [done|rewrite concat_map_cons; done..|].
  apply Forall_cons_1 in H2 as [(_ & _ & _ & Hy) Hl2]. rewrite !concat_map_cons. intros He.
  apply app_inj_1 in He as [Hs He]; [|by unfold u32_le; rewrite !le_encode_length].
  apply (le_encode_inj 4) in Hs; [|done..]. f_equal; [done|]. by apply IH.
Qed.

Lemma single_output_inj tx1 tx2 idx : tx_valid tx1 → tx_valid tx2 →
  single_part tx1 idx = single_part tx2 idx →
  outputs tx1 !! Z.to_nat idx = outputs tx2 !! Z.to_nat idx.
Proof.
  intros (_ & _ & [_ H1] & _) (_ & _ & [_ H2] & _). unfold single_part.
  destruct (outputs tx1 !! _) as [o1|] eqn:Ho1, (outputs tx2 !! _) as [o2|] eqn:Ho2;
    rewrite ?push_output_enc; try done.
  intros He. f_equal. eapply Forall_lookup_1 in Ho1, Ho2; [|done..].
  rewrite !app_nil_l, <- (app_nil_r (enc_output o1)), <- (app_nil_r (enc_output o2)) in He.
  apply (decodes_prefix_free parse_tx_output) in He as [-> _]; [done..|].
  rewrite app_nil_r. destruct Ho1 as (_ & _ & Ho1). unfold enc_output. rewrite !length_app.
  pose proof (compact_size_bound (len (covenant_data o1))).
  unfold u64_le, u16_le, MAX_COVENANT_DATA_PER_OUTPUT, MAX_ANCHOR_PAYLOAD_SIZE, isize_max in *. rewrite !le_encode_length. lia.
Qed.

(** What two signatures over the same digest agree on. *)
Record same_signed (tx1 tx2 : Tx) (idx t : Z) : Prop := {
  ss_version : version tx1 = version tx2;
  ss_kind : tx_kind tx1 = tx_kind tx2;
  ss_nonce : tx_nonce tx1 = tx_nonce tx2;
  ss_locktime : locktime tx1 = locktime tx2;
  ss_da : da_commit_core tx1 = da_commit_core tx2 ∧ da_chunk_core tx1 = da_chunk_core tx2;
  ss_input : ∃ i1 i2, inputs tx1 !! Z.to_nat idx = Some i1 ∧ inputs tx2 !! Z.to_nat idx = Some i2
    ∧ prev_txid i1 = prev_txid i2 ∧ prev_vout i1 = prev_vout i2 ∧ sequence i1 = sequence i2;
  ss_inputs : Z.land t SIGHASH_ANYONECANPAY = 0 →
    ((λ i, (prev_txid i, prev_vout i)) <$> inputs tx1) = ((λ i, (prev_txid i, prev_vout i)) <$> inputs tx2)
    ∧ (sequence <$> inputs tx1) = (sequence <$> inputs tx2);
  ss_outputs : Z.land t 0x1f = SIGHASH_ALL → outputs tx1 = outputs tx2;
  ss_single : Z.land t 0x1f = SIGHASH_SINGLE →
    outputs tx1 !! Z.to_nat idx = outputs tx2 !! Z.to_nat idx;
}.

Lemma sighash_spec_Ok tx idx v chain_id t d : sighash_spec tx idx v chain_id t = Ok d ↔
  ∃ i da, inputs tx !! Z.to_nat idx = Some i ∧ is_valid_sighash_type t = true
    ∧ da_core_fields_bytes tx = Ok da ∧ d = sha3_256 (sighash_preimage tx i idx v chain_id t da).
Proof.
  unfold sighash_spec. destruct (inputs tx !! _) as [i|]; [|split; [done|by intros (? & ? & [=] & _)]].
  destruct (is_valid_sighash_type t); [|split; [done|by intros (? & ? & _ & [=] & _)]].
  simpl negb. cbv iota. rewrite bind_Ok. split.
  - intros (da & Hda & [= <-]). by exists i, da.
  - intros (? & da & [= <-] & _ & Hda & ->). by exists da.
Qed.

(** The data-availability fields and the outputs within the core bytes. *)
Lemma da_fields_inj tx1 tx2 b : tx_valid tx1 → tx_valid tx2 → tx_kind tx1 = tx_kind tx2 →
  len (enc_tx_core tx1) ≤ isize_max →
  da_core_fields_bytes tx1 = Ok b → da_core_fields_bytes tx2 = Ok b →
  da_commit_core tx1 = da_commit_core tx2 ∧ da_chunk_core tx1 = da_chunk_core tx2.
Proof.
  intros (Hp1 & _ & _ & _ & Hc1 & _) (Hp2 & _ & _ & _ & Hc2 & _) Hk Hl.
  destruct Hp1 as (_ & Hp1 & _), Hp2 as (_ & Hp2 & _). simpl in Hp1, Hp2.
  rewrite !da_core_fields_bytes_enc by done. intros [= <-] [= He].
  rewrite Hk in Hc1. unfold enc_tx_core in Hl. rewrite !length_app in Hl.
  assert (len (enc_cores (da_commit_core tx2, da_chunk_core tx2)) ≤ isize_max) as Hl2 by (rewrite He; lia).
  rewrite <- (app_nil_r (enc_cores (da_commit_core tx2, _))),
    <- (app_nil_r (enc_cores (da_commit_core tx1, _))) in He.
  by apply (decodes_prefix_free (parse_da_core (tx_kind tx2))) in He as [[= -> ->] _];
    [|done|done|rewrite app_nil_r].
Qed.

Lemma outputs_len tx : len (enc_tx_core tx) ≤ isize_max →
  len (concat_map enc_output (outputs tx)) ≤ isize_max.
Proof. unfold enc_tx_core, enc_list. rewrite !length_app. lia. Qed.

(** The fields of the preimage have fixed widths. *)
Lemma preimage_inj tx1 tx2 i1 i2 idx1 idx2 v1 v2 c1 c2 t1 t2 da1 da2 :
  tx_valid tx1 → tx_valid tx2 → input_valid i1 → input_valid i2 → len c1 = 32 → len c2 = 32 →
  is_u 32 idx1 → is_u 32 idx2 → is_u 64 v1 → is_u 64 v2 → is_u 8 t1 → is_u 8 t2 →
  sighash_preimage tx1 i1 idx1 v1 c1 t1 da1 = sighash_preimage tx2 i2 idx2 v2 c2 t2 da2 →
  (c1 = c2 ∧ idx1 = idx2 ∧ v1 = v2 ∧ t1 = t2 ∧ tx_nonce tx1 = tx_nonce tx2
   ∧ version tx1 = version tx2 ∧ tx_kind tx1 = tx_kind tx2 ∧ locktime tx1 = locktime tx2)
  ∧ (prev_txid i1 = prev_txid i2 ∧ prev_vout i1 = prev_vout i2 ∧ sequence i1 = sequence i2)
  ∧ sha3_256 da1 = sha3_256 da2
  ∧ sha3_256 (prevouts_part tx1 i1 t1) = sha3_256 (prevouts_part tx2 i2 t2)
  ∧ sha3_256 (sequences_part tx1 i1 t1) = sha3_256 (sequences_part tx2 i2 t2)
  ∧ sha3_256 (outputs_part tx1 idx1 t1) = sha3_256 (outputs_part tx2 idx2 t2).
Proof.
  intros (Hp1 & _ & _ & Hl1 & _) (Hp2 & _ & _ & Hl2 & _) (Ht1 & Hv1 & _ & Hs1) (Ht2 & Hv2 & _ & Hs2)
    Hc1 Hc2 Hi1 Hi2 Hw1 Hw2 Hb1 Hb2 H. unfold prefix_valid in *. simpl in Hp1, Hp2.
  unfold sighash_preimage in H. apply app_inv_head in H. rewrite <- !le_encode_1' in H.
  unfold u32_le, u64_le in H.
  do 14 (let E := fresh "E" in apply app_inj_1 in H as [E H];
    [|rewrite ?le_encode_length, ?sha3_256_length; lia]).
  unfold TX_WIRE_VERSION, is_u in *.
  repeat match goal with
  | E : le_encode _ _ = le_encode _ _ |- _ => apply le_encode_inj in E; [|simpl; lia..]
  end.
  split_and!; done || lia.
Qed.

(** The strings hashed for a digest: the preimage and its four parts. *)
Definition signed_strings (tx : Tx) (idx v : Z) (chain_id : bytes) (t : Z) : list bytes :=
  match inputs tx !! Z.to_nat idx, da_core_fields_bytes tx with
  | Some i, Ok da => [sighash_preimage tx i idx v chain_id t da; da; prevouts_part tx i t; sequences_part tx i t; outputs_part tx idx t]
  | _, _ => []
  end.

(** C31: a signature commits to what its hash type promises: if two valid
    transactions give the same digest, for any inputs, values, chains and
    hash types, then the chain, the hash type, the input index, the value
    spent, the header fields, the data-availability fields, the outpoint and
    sequence spent are the same; so are all outpoints and sequences unless
    the type is ANYONECANPAY, all outputs for ALL and the matching output for
    SINGLE - or two of the strings hashed for the two digests collide under
    SHA3-256. *)
Theorem sighash_binding tx1 tx2 idx1 idx2 v1 v2 c1 c2 t1 t2 d :
  tx_valid tx1 → tx_valid tx2 →
  len (enc_tx_core tx1) ≤ isize_max → len c1 = 32 → len c2 = 32 →
  is_u 32 idx1 → is_u 32 idx2 → is_u 64 v1 → is_u 64 v2 → is_u 8 t1 → is_u 8 t2 →
  sighash_v1_digest_with_type tx1 idx1 v1 c1 t1 = Ok d →
  sighash_v1_digest_with_type tx2 idx2 v2 c2 t2 = Ok d →
  (c1 = c2 ∧ t1 = t2 ∧ idx1 = idx2 ∧ v1 = v2 ∧ same_signed tx1 tx2 idx1 t1)
  ∨ collision_in (signed_strings tx1 idx1 v1 c1 t1 ++ signed_strings tx2 idx2 v2 c2 t2).
Proof.
  intros Hx1 Hx2 Hsz Hc1 Hc2 Hi1 Hi2 Hv1 Hv2 Ht1 Ht2. rewrite !digest_with_type_spec.
  intros (i1 & da1 & Hin1 & Hty1 & Hda1 & ->)%sighash_spec_Ok (i2 & da2 & Hin2 & Hty2 & Hda2 & Hd)%sighash_spec_Ok.
  unfold signed_strings at 1 2. rewrite Hin1, Hda1, Hin2, Hda2. cbn [app].
  eapply sha3_inj_in in Hd as [He|]; [|by right; eassumption|set_solver..].
  pose proof Hx1 as (Hp1 & (_ & Hins1) & (_ & Houts1) & _ & Hco1 & _).
  pose proof Hx2 as (Hp2 & (_ & Hins2) & (_ & Houts2) & _ & Hco2 & _).
  pose proof (proj1 (Forall_lookup _ _) Hins1 _ _ Hin1) as Hiv1.
  pose proof (proj1 (Forall_lookup _ _) Hins2 _ _ Hin2) as Hiv2.
  set (strings := [_; _; _; _; _; _; _; _; _; _]).
  apply preimage_inj in He as ((-> & -> & -> & -> & Hn & Hver & Hk & Hlt) & (Htx & Hvo & Hsq) & Hda & Hpr & Hse & Ho); [|done..].
  eapply (sha3_inj_in strings) in Hda as [->|]; [|by right|unfold strings; set_solver..].
  eapply (sha3_inj_in strings) in Hpr as [Hpr|]; [|by right|unfold strings; set_solver..].
  eapply (sha3_inj_in strings) in Hse as [Hse|]; [|by right|unfold strings; set_solver..].
  eapply (sha3_inj_in strings) in Ho as [Ho|]; [|by right|unfold strings; set_solver..].
  left. split_and!; try done. constructor; try done.
  - by eapply da_fields_inj.
  - by exists i1, i2.
  - intros Hz. unfold prevouts_part, sequences_part in Hpr, Hse. rewrite Hz in Hpr, Hse. simpl in Hpr, Hse.
    auto using outpoints_bytes_inj, sequences_bytes_inj.
  - intros Hz. unfold outputs_part in Ho. rewrite Hz in Ho. simpl in Ho.
    apply outputs_bytes_inj; [done|done|by apply outputs_len|done].
  - intros Hz. unfold outputs_part in Ho. rewrite Hz in Ho. simpl in Ho. by apply single_output_inj.
Qed.
End sighash.

(** ** Witnesses *)

Definition demo_chain : bytes := replicate 32 x05.
Definition demo_cache : SighashV1PrehashCache :=
  match prehash_cache_new demo_tx with
  | Ok c => (sighash_v1_digest_with_cache (HS := toy_sha3) 0 70 demo_chain 1 c).2
  | Err _ => mkPrehashCache demo_tx None None None None ∅
  end.
Definition demo_digest : bytes :=
  match sighash_v1_digest_with_type (HS := toy_sha3) demo_tx 0 70 demo_chain 1 with
  | Ok d => d | Err _ => [] end.

Lemma demo_cache_ok : cache_ok (HS := toy_sha3) demo_tx demo_cache.
Proof.
  destruct (sighash_computes (HS := toy_sha3) demo_tx 0 70 demo_chain 1
              (mkPrehashCache demo_tx None None None None ∅)) as (c & Hc & Hok).
  { by constructor. }
  unfold demo_cache, prehash_cache_new. by rewrite Hc.
Qed.

Lemma sighash_cache_transparent_witness :
  is_Some (sc_hash_all_prevouts demo_cache) ∧ cache_ok (HS := toy_sha3) demo_tx demo_cache ∧
  ∃ c', sighash_v1_digest_with_cache (HS := toy_sha3) 0 70 demo_chain 0x81 demo_cache
        = (sighash_spec (HS := toy_sha3) demo_tx 0 70 demo_chain 0x81, c')
        ∧ cache_ok (HS := toy_sha3) demo_tx c' ∧
        sighash_v1_digest_with_type (HS := toy_sha3) demo_tx 0 70 demo_chain 0x81
        = sighash_spec (HS := toy_sha3) demo_tx 0 70 demo_chain 0x81.
Proof.
  split; [vm_compute; eauto|]. split; [exact demo_cache_ok|].
  exact (sighash_cache_transparent (HS := toy_sha3) demo_tx demo_cache 0 70 demo_chain 0x81
           demo_cache_ok).
Defined.

Lemma sighash_binding_witness :
  sighash_v1_digest_with_type (HS := toy_sha3) demo_tx 0 70 demo_chain 1 = Ok demo_digest ∧
  ((demo_chain = demo_chain ∧ 1 = 1 ∧ 0 = 0 ∧ 70 = 70 ∧ same_signed demo_tx demo_tx 0 1)
   ∨ collision_in (HS := toy_sha3) (signed_strings (HS := toy_sha3) demo_tx 0 70 demo_chain 1 ++ signed_strings (HS := toy_sha3) demo_tx 0 70 demo_chain 1)).
Proof.
  split; [vm_compute; reflexivity|].
  apply (sighash_binding (HS := toy_sha3) demo_tx demo_tx 0 0 70 70 demo_chain demo_chain 1 1
           demo_digest); try exact demo_tx_valid; try (vm_compute; done).
Defined.
