(* ===== verification/Spend.v ===== *)
(** * Spend authorization ([spend_verify.rs], data of [utxo_basic.rs])

    The checks that authorize an input: suites, witness lengths, key binding
    and signature, for one key and for a threshold of keys.  They thread the
    prehash cache of [Sighash.v] and, when signatures are deferred, the queue
    of [SigQueue.v]; [defers] relates the two modes. *)

From S2P Require Import Prelude Bytes Errors Constants Crypto WireRead CompactSize TxWire TxCodec Vault Suites Verify SigCache WorkerPool SigQueue Sighash.

(* rust: utxo_basic.rs 25-28 Outpoint *)
Record Outpoint : Type := mkOutpoint { op_txid : bytes; op_vout : Z }.
#[export] Instance Outpoint_eq_dec : EqDecision Outpoint.
Proof. solve_decision. Defined.
#[export] Instance Outpoint_countable : Countable Outpoint.
Proof.
  refine (inj_countable' (λ o, (op_txid o, op_vout o)) (λ p, mkOutpoint p.1 p.2) _).
  by intros [].
Defined.

(* rust: utxo_basic.rs 31-37 UtxoEntry *)
Record UtxoEntry : Type := mkUtxoEntry {
  ue_value : Z; ue_covenant_type : Z; ue_covenant_data : bytes;
  ue_creation_height : Z; ue_created_by_coinbase : bool }.
#[export] Instance UtxoEntry_eq_dec : EqDecision UtxoEntry.
Proof. solve_decision. Defined.

(** The state of a validation: the prehash cache, and the queue when
    signatures are deferred ([None] checks them inline). *)
Abbreviation SpendState := (SighashV1PrehashCache * option SigCheckQueue)%type.
Abbreviation spend A := (ST SpendState TxError A).

Definition on_cache {A} (m : cached A) : spend A := λ s,
  let '(r, c) := m s.1 in (r, (c, s.2)).
Definition on_queue {A} (m : ST (option SigCheckQueue) TxError A) : spend A := λ s,
  let '(r, q) := m s.2 in (r, (s.1, q)).

(* rust: spend_verify.rs 13-27 extract_crypto_sig_and_sighash *)
Definition extract_crypto_sig_and_sighash (w : WitnessItem) : res (bytes * Z) :=
  match list.last (signature w) with
  | None => tx_err TxErrParse "missing sighash_type byte"
  | Some b =>
      let crypto_sig := slice 0 (len (signature w) - 1) (signature w) in
      let sighash_type := byte_val b in
      if negb (is_valid_sighash_type sighash_type)
      then tx_err TxErrSighashTypeInvalid "invalid sighash_type"
      else Ok (crypto_sig, sighash_type)
  end.

(* rust: spend_verify.rs 148-164 spend_suite_params *)
Definition spend_suite_params (w : WitnessItem) (native_spend : NativeSuiteSet)
    (registry : SuiteRegistry) (suite_not_native_message suite_not_registered_message : string) :
    res SuiteParams :=
  if negb (ns_contains native_spend (suite_id w))
  then tx_err TxErrSigAlgInvalid suite_not_native_message else
  ok_or (sr_lookup registry (suite_id w))
    (mkTxError TxErrSigAlgInvalid suite_not_registered_message).

(** [params.sig_len + 1] is the sum without wrap-around: the suites registered
    in the repository have short signatures. *)
(* rust: spend_verify.rs 166-175 validate_witness_item_lengths *)
Definition validate_witness_item_lengths (w : WitnessItem) (params : SuiteParams) : res unit :=
  if (len (pubkey w) =? sp_pubkey_len params) && (len (signature w) =? sp_sig_len params + 1)
  then Ok ()
  else tx_err TxErrSigNoncanonical "non-canonical witness item lengths".

(* rust: spend_verify.rs 177-189 p2pk_covenant_key_id *)
Definition p2pk_covenant_key_id (entry : UtxoEntry) (suite_id : Z) : res bytes :=
  if negb (len (ue_covenant_data entry) =? MAX_P2PK_COVENANT_DATA)
     || negb (byte_at 0 (ue_covenant_data entry) =? suite_id)
  then tx_err TxErrCovenantTypeInvalid "CORE_P2PK covenant_data invalid"
  else Ok (slice 1 33 (ue_covenant_data entry)).

(* rust: spend_verify.rs 283-289 ThresholdSigErrorDetail *)
Inductive ThresholdSigErrorDetail : Type :=
  | SuiteNotInNativeSpendSet | SuiteNotRegistered | KeyBindingMismatch | SignatureInvalid
  | ThresholdNotMet.

(* rust: spend_verify.rs 291-324 threshold_sig_error_message *)
Definition threshold_sig_error_message (context : string) (detail : ThresholdSigErrorDetail) : string :=
  if bool_decide (context = "CORE_MULTISIG"%string) then
    match detail with
    | SuiteNotInNativeSpendSet => "CORE_MULTISIG suite not in native spend set"
    | SuiteNotRegistered => "CORE_MULTISIG suite not registered"
    | KeyBindingMismatch => "CORE_MULTISIG key binding mismatch"
    | SignatureInvalid => "CORE_MULTISIG signature invalid"
    | ThresholdNotMet => "CORE_MULTISIG threshold not met"
    end
  else if bool_decide (context = "CORE_VAULT"%string) then
    match detail with
    | SuiteNotInNativeSpendSet => "CORE_VAULT suite not in native spend set"
    | SuiteNotRegistered => "CORE_VAULT suite not registered"
    | KeyBindingMismatch => "CORE_VAULT key binding mismatch"
    | SignatureInvalid => "CORE_VAULT signature invalid"
    | ThresholdNotMet => "CORE_VAULT threshold not met"
    end
  else context.

Section spend.
  Context `{HS : Sha3} `{HO : OpenSsl}.

(* rust: spend_verify.rs 427-454 verify_mldsa_key_and_sig_q *)
Definition verify_mldsa_key_and_sig_q (w : WitnessItem) (expected_key_id : bytes)
    (input_index input_value : Z) (chain_id : bytes) (registry : SuiteRegistry)
    (key_binding_error invalid_sig_error : TxError) : spend unit :=
  if negb (bool_decide (sha3_256 (pubkey w) = expected_key_id))
  then lift (Err key_binding_error) else
  '(crypto_sig, sighash_type) ← lift (extract_crypto_sig_and_sighash w);
  digest ← on_cache (sighash_v1_digest_with_cache input_index input_value chain_id sighash_type);
  on_queue (queue_or_verify_signature (suite_id w) (pubkey w) crypto_sig digest registry
              invalid_sig_error).

(* rust: spend_verify.rs 107-146 validate_p2pk_spend_q *)
Definition validate_p2pk_spend_q (entry : UtxoEntry) (w : WitnessItem)
    (input_index input_value : Z) (chain_id : bytes) (block_height : Z)
    (rotation : option RotationProvider) (registry : option SuiteRegistry) : spend unit :=
  let rp := default DefaultRotationProvider rotation in
  let reg := default default_registry registry in
  let native_spend := native_spend_suites rp block_height in
  params ← lift (spend_suite_params w native_spend reg
                   "CORE_P2PK suite not in native spend set" "CORE_P2PK suite not registered");
  _ ← lift (validate_witness_item_lengths w params);
  key_id ← lift (p2pk_covenant_key_id entry (suite_id w));
  verify_mldsa_key_and_sig_q w key_id input_index input_value chain_id reg
    (mkTxError TxErrSigInvalid "CORE_P2PK key binding mismatch")
    (mkTxError TxErrSigInvalid "CORE_P2PK signature invalid").

(** The inline entry points: no queue. *)
(* rust: spend_verify.rs 80-104 validate_p2pk_spend_at_height *)
Definition validate_p2pk_spend_at_height (entry : UtxoEntry) (w : WitnessItem) (_tx : Tx)
    (input_index input_value : Z) (chain_id : bytes) (block_height : Z)
    (rotation : option RotationProvider) (registry : option SuiteRegistry) : cached unit := λ c,
  let '(r, (c, _)) := validate_p2pk_spend_q entry w input_index input_value chain_id block_height
                        rotation registry (c, None) in (r, c).
(* rust: spend_verify.rs 53-75 validate_p2pk_spend_with_cache *)
Definition validate_p2pk_spend_with_cache (entry : UtxoEntry) (w : WitnessItem) (tx : Tx)
    (input_index input_value : Z) (chain_id : bytes) (block_height : Z) : cached unit :=
  validate_p2pk_spend_at_height entry w tx input_index input_value chain_id block_height None None.
(* rust: spend_verify.rs 30-50 validate_p2pk_spend *)
Definition validate_p2pk_spend (entry : UtxoEntry) (w : WitnessItem) (tx : Tx)
    (input_index input_value : Z) (chain_id : bytes) (block_height : Z) : res unit :=
  cache ← prehash_cache_new tx;
  (validate_p2pk_spend_with_cache entry w tx input_index input_value chain_id block_height cache).1.

(** The body of the loop over the keys; [valid] counts the signatures. *)
(* rust: spend_verify.rs 359-405 validate_threshold_sig_spend_q *)
Definition threshold_slot (input_index input_value : Z) (chain_id : bytes) (context : string)
    (native_spend : NativeSuiteSet) (reg : SuiteRegistry) (valid : Z)
    (kw : bytes * WitnessItem) : spend Z :=
  let '(key, w) := kw in
  if suite_id w =? SUITE_ID_SENTINEL then
    if negb (bool_decide (pubkey w = [])) || negb (bool_decide (signature w = []))
    then lift (tx_err TxErrParse "SENTINEL witness must be keyless")
    else mret valid
  else
    params ← lift (spend_suite_params w native_spend reg
      (threshold_sig_error_message context SuiteNotInNativeSpendSet)
      (threshold_sig_error_message context SuiteNotRegistered));
    _ ← lift (validate_witness_item_lengths w params);
    _ ← verify_mldsa_key_and_sig_q w key input_index input_value chain_id reg
      (mkTxError TxErrSigInvalid (threshold_sig_error_message context KeyBindingMismatch))
      (mkTxError TxErrSigInvalid (threshold_sig_error_message context SignatureInvalid));
    mret (saturating_add 255 valid 1).

(** The closure whose error triggers the rollback. *)
(* rust: spend_verify.rs 358-413 validate_threshold_sig_spend_q *)
Definition threshold_slots (keys : list bytes) (threshold : Z) (ws : list WitnessItem)
    (input_index input_value : Z) (chain_id : bytes) (context : string)
    (native_spend : NativeSuiteSet) (reg : SuiteRegistry) : spend unit :=
  valid ← st_fold (threshold_slot input_index input_value chain_id context native_spend reg) 0
            (zip keys ws);
  if valid <? threshold
  then lift (tx_err TxErrSigInvalid (threshold_sig_error_message context ThresholdNotMet))
  else mret ().

(* rust: spend_verify.rs 327-424 validate_threshold_sig_spend_q *)
Definition validate_threshold_sig_spend_q (keys : list bytes) (threshold : Z)
    (ws : list WitnessItem) (input_index input_value : Z) (chain_id : bytes) (block_height : Z)
    (context : string) (rotation : option RotationProvider) (registry : option SuiteRegistry) :
    spend unit := λ s,
  let rp := default DefaultRotationProvider rotation in
  let reg := default default_registry registry in
  if negb (len ws =? len keys) then (tx_err TxErrParse "witness slot assignment mismatch", s) else
  let native_spend := native_spend_suites rp block_height in
  let queue_mark := queue_mark <$> s.2 in
  match threshold_slots keys threshold ws input_index input_value chain_id context native_spend reg s with
  | (Ok _, s) => (Ok (), s)
  | (Err err, (c, sig_queue)) =>
      (Err err, (c, match queue_mark, sig_queue with
                    | Some mark, Some queue => Some (rollback_to mark queue)
                    | _, _ => sig_queue
                    end))
  end.

(* rust: spend_verify.rs 252-280 validate_threshold_sig_spend_at_height *)
Definition validate_threshold_sig_spend_at_height (keys : list bytes) (threshold : Z)
    (ws : list WitnessItem) (_tx : Tx) (input_index input_value : Z) (chain_id : bytes)
    (block_height : Z) (context : string) (rotation : option RotationProvider)
    (registry : option SuiteRegistry) : cached unit := λ c,
  let '(r, (c, _)) := validate_threshold_sig_spend_q keys threshold ws input_index input_value
                        chain_id block_height context rotation registry (c, None) in (r, c).
(* rust: spend_verify.rs 220-246 validate_threshold_sig_spend_with_cache *)
Definition validate_threshold_sig_spend_with_cache (keys : list bytes) (threshold : Z)
    (ws : list WitnessItem) (tx : Tx) (input_index input_value : Z) (chain_id : bytes)
    (block_height : Z) (context : string) : cached unit :=
  validate_threshold_sig_spend_at_height keys threshold ws tx input_index input_value chain_id
    block_height context None None.
(* rust: spend_verify.rs 193-217 validate_threshold_sig_spend *)
Definition validate_threshold_sig_spend (keys : list bytes) (threshold : Z)
    (ws : list WitnessItem) (tx : Tx) (input_index input_value : Z) (chain_id : bytes)
    (block_height : Z) (context : string) : res unit :=
  cache ← prehash_cache_new tx;
  (validate_threshold_sig_spend_with_cache keys threshold ws tx input_index input_value chain_id
     block_height context cache).1.
End spend.

(** ** Inline checks as functions of the transaction *)

Section inline.
Context `{HS : Sha3} `{HO : OpenSsl} (tx : Tx).

(** [runs m v]: with any cache of [tx] and no queue, [m] returns [v]. *)
Definition runs {A} (m : spend A) (v : res A) : Prop :=
  ∀ c, cache_ok tx c → ∃ c', m (c, None) = (v, (c', None)) ∧ cache_ok tx c'.

Lemma runs_lift {A} (r : res A) : runs (lift r) r.
Proof. intros c Hc. by exists c. Qed.
Lemma runs_ret {A} (a : A) : runs (mret a) (Ok a).
Proof. intros c Hc. by exists c. Qed.
Lemma runs_cache {A} (m : cached A) v : computes tx m v → runs (on_cache m) v.
Proof. intros Hm c Hc. destruct (Hm c Hc) as (c' & Hc' & ?). exists c'. unfold on_cache. simpl. by rewrite Hc'. Qed.
Lemma runs_bind {A B} (m : spend A) (k : A → spend B) r (f : A → res B) :
  runs m r → (∀ a, r = Ok a → runs (k a) (f a)) → runs (m ≫= k) (r ≫= f).
Proof.
  intros Hm Hk c Hc. destruct (Hm c Hc) as (c' & Hmc & Hc').
  unfold mbind at 1, st_bind. rewrite Hmc. destruct r as [a|e]; [|by exists c'].
  by apply Hk.
Qed.
Lemma runs_fold {A B} (f : B → A → spend B) (g : B → A → res B) b l :
  (∀ b a, a ∈ l → runs (f b a) (g b a)) → runs (st_fold f b l) (try_fold g b l).
Proof.
  revert b; induction l as [|a l IH]; intros b Hf; cbn [st_fold try_fold]; [apply runs_ret|].
  apply runs_bind; [apply Hf; by left|]. intros b' _. apply IH. intros; apply Hf; by right.
Qed.

(** [accepts m P]: inline, [m] returns exactly the results [P] allows. *)
Definition accepts {A} (m : spend A) (P : A → Prop) : Prop :=
  ∀ c, cache_ok tx c → ∃ r c', m (c, None) = (r, (c', None)) ∧ cache_ok tx c' ∧ ∀ a, r = Ok a ↔ P a.

Lemma accepts_runs {A} (m : spend A) v : runs m v → accepts m (λ a, v = Ok a).
Proof. intros Hm c Hc. destruct (Hm c Hc) as (c' & ? & ?). by exists v, c'. Qed.
Lemma accepts_iff {A} (m : spend A) (P Q : A → Prop) :
  (∀ a, P a ↔ Q a) → accepts m P → accepts m Q.
Proof.
  intros HPQ Hm c Hc. destruct (Hm c Hc) as (r & c' & ? & ? & Hr). exists r, c'.
  split_and!; try done. intros a. by rewrite Hr, HPQ.
Qed.
Lemma accepts_lift {A} (r : res A) (P : A → Prop) : (∀ a, r = Ok a ↔ P a) → accepts (lift r) P.
Proof. intros H. apply (accepts_iff _ (λ a, r = Ok a)); [done|]. apply accepts_runs, runs_lift. Qed.
Lemma accepts_ret {A} (a : A) : accepts (mret a) (λ b, b = a).
Proof. apply (accepts_lift (Ok a)). intros b. split; congruence. Qed.
Lemma accepts_bind {A B} (m : spend A) (k : A → spend B) (P : A → Prop) (Q : A → B → Prop) :
  accepts m P → (∀ a, P a → accepts (k a) (Q a)) → accepts (m ≫= k) (λ b, ∃ a, P a ∧ Q a b).
Proof.
  intros Hm Hk c Hc. destruct (Hm c Hc) as (r & c' & Hmc & Hc' & Hr).
  unfold mbind, st_bind. rewrite Hmc. destruct r as [a|e].
  - destruct (Hk a (proj1 (Hr a) eq_refl) c' Hc') as (r & c2 & -> & ? & Hr2). exists r, c2.
    split_and!; try done. intros b. rewrite Hr2. split; [by exists a; split; [apply Hr|]|].
    intros (a' & [= <-]%Hr & ?). done.
  - exists (Err e), c'. split_and!; try done. intros b. split; [done|]. by intros (a & ?%Hr & _).
Qed.

(** The signature of a witness item over the transaction. *)
Definition signature_spec (w : WitnessItem) (key : bytes) (idx v : Z) (chain_id : bytes)
    (reg : SuiteRegistry) (key_err sig_err : TxError) : res unit :=
  if negb (bool_decide (sha3_256 (pubkey w) = key)) then Err key_err else
  '(cs, t) ← extract_crypto_sig_and_sighash w;
  d ← sighash_spec tx idx v chain_id t;
  verify_task (Some reg) (mkSigCheckTask (suite_id w) (pubkey w) cs d sig_err).

(** Extracting the signature, hashing, and verifying, inline. *)
Lemma runs_sign w idx v chain_id reg e :
  runs ('(cs, t) ← lift (extract_crypto_sig_and_sighash w);
        d ← on_cache (sighash_v1_digest_with_cache idx v chain_id t);
        on_queue (queue_or_verify_signature (suite_id w) (pubkey w) cs d reg e))
    ('(cs, t) ← extract_crypto_sig_and_sighash w;
     d ← sighash_spec tx idx v chain_id t;
     verify_task (Some reg) (mkSigCheckTask (suite_id w) (pubkey w) cs d e)).
Proof.
  apply runs_bind; [apply runs_lift|]. intros [cs t] _.
  apply runs_bind; [apply runs_cache, sighash_computes|]. intros d _ c Hc. by exists c.
Qed.

Lemma runs_signature w key idx v chain_id reg e1 e2 :
  runs (verify_mldsa_key_and_sig_q w key idx v chain_id reg e1 e2)
       (signature_spec w key idx v chain_id reg e1 e2).
Proof.
  unfold verify_mldsa_key_and_sig_q, signature_spec. case_match; [apply runs_lift|].
  apply runs_sign.
Qed.

Definition signature_valid (w : WitnessItem) (key : bytes) (idx v : Z) (chain_id : bytes)
    (reg : SuiteRegistry) : Prop :=
  sha3_256 (pubkey w) = key ∧ ∃ cs t d, signature w = cs ++ [t]
  ∧ is_valid_sighash_type (byte_val t) = true
  ∧ sighash_spec tx idx v chain_id (byte_val t) = Ok d
  ∧ verify_sig_with_registry (suite_id w) (pubkey w) cs d (Some reg) = Ok true.

Lemma extract_Ok w cs t : extract_crypto_sig_and_sighash w = Ok (cs, t) ↔
  ∃ b, signature w = cs ++ [b] ∧ t = byte_val b ∧ is_valid_sighash_type t = true.
Proof.
  unfold extract_crypto_sig_and_sighash.
  destruct (signature w) as [|b l _] using rev_ind.
  - simpl. split; [done|]. intros (b & Hb & _). by destruct cs.
  - rewrite last_snoc. destruct (is_valid_sighash_type (byte_val b)) eqn:Ht; simpl negb; cbv iota.
    + rewrite slice_but_last. split.
      * intros [= <- <-]. by exists b.
      * intros (b' & [-> [= ->]]%app_inj_tail_iff & -> & _). done.
    + split; [done|]. intros (b' & [_ [= ->]]%app_inj_tail_iff & -> & Ht'). congruence.
Qed.

Lemma verify_task_Ok reg t : verify_task reg t = Ok () ↔
  verify_sig_with_registry (tk_suite_id t) (tk_pubkey t) (tk_sig t) (tk_digest t) reg = Ok true.
Proof. unfold verify_task. by destruct (verify_sig_with_registry _ _ _ _ _) as [[]|]. Qed.

Lemma signature_spec_Ok w key idx v chain_id reg e1 e2 :
  signature_spec w key idx v chain_id reg e1 e2 = Ok () ↔
  signature_valid w key idx v chain_id reg.
Proof.
  unfold signature_spec, signature_valid. case_bool_decide as Hk; simpl negb; cbv iota;
    [|split; [done|by intros []]].
  rewrite bind_Ok. split.
  - intros ([cs t] & (b & Hs & -> & Ht)%extract_Ok & Hd). apply bind_Ok in Hd as (d & Hd & Hv).
    apply verify_task_Ok in Hv. split; [done|]. by exists cs, b, d.
  - intros (_ & cs & b & d & Hs & Ht & Hd & Hv). exists (cs, byte_val b).
    split; [apply extract_Ok; by exists b|]. rewrite Hd. run_bind. by apply verify_task_Ok.
Qed.

Definition suite_allowed (w : WitnessItem) (native : NativeSuiteSet) (reg : SuiteRegistry) : Prop :=
  ns_contains native (suite_id w) = true ∧ ∃ p, sr_lookup reg (suite_id w) = Some p
  ∧ len (pubkey w) = sp_pubkey_len p ∧ len (signature w) = sp_sig_len p + 1.

Lemma suite_checks_Ok w native reg m1 m2 {B} (k : res B) b :
  (p ← spend_suite_params w native reg m1 m2; _ ← validate_witness_item_lengths w p; k) = Ok b
  ↔ suite_allowed w native reg ∧ k = Ok b.
Proof.
  unfold spend_suite_params, suite_allowed, validate_witness_item_lengths.
  destruct (ns_contains native (suite_id w)); simpl negb; cbv iota;
    [|split; [done|by intros [[? _] _]]].
  destruct (sr_lookup reg (suite_id w)) as [p|]; simpl;
    [|split; [done|by intros [(_ & ? & [=] & _) _]]].
  destruct (_ && _) eqn:Hl; simpl; split.
  - intros Hk. split; [|done]. split; [done|]. exists p. split; [done|lia].
  - by intros [_ ?].
  - done.
  - intros [(_ & p' & [= <-] & ?) _]. lia.
Qed.

(** The witness item authorizes the key at a height. *)
Definition authorized (w : WitnessItem) (key : bytes) (idx v : Z) (chain_id : bytes) (height : Z)
    (rp : RotationProvider) (reg : SuiteRegistry) : Prop :=
  suite_allowed w (native_spend_suites rp height) reg
  ∧ signature_valid w key idx v chain_id reg.

(** *** One key *)

Definition p2pk_spec (entry : UtxoEntry) (w : WitnessItem) (idx v : Z) (chain_id : bytes)
    (height : Z) (rp : RotationProvider) (reg : SuiteRegistry) : res unit :=
  p ← spend_suite_params w (native_spend_suites rp height) reg
        "CORE_P2PK suite not in native spend set" "CORE_P2PK suite not registered";
  _ ← validate_witness_item_lengths w p;
  key ← p2pk_covenant_key_id entry (suite_id w);
  signature_spec w key idx v chain_id reg
    (mkTxError TxErrSigInvalid "CORE_P2PK key binding mismatch")
    (mkTxError TxErrSigInvalid "CORE_P2PK signature invalid").

(** The covenant names the witness's suite and the key it authorizes. *)
Definition p2pk_authorized (entry : UtxoEntry) (w : WitnessItem) (idx v : Z) (chain_id : bytes)
    (height : Z) (rp : RotationProvider) (reg : SuiteRegistry) : Prop :=
  ∃ key, ue_covenant_data entry = byte_of_Z (suite_id w) :: key ∧ len key = 32
    ∧ authorized w key idx v chain_id height rp reg.

Lemma runs_p2pk entry w idx v chain_id height rotation registry :
  runs (validate_p2pk_spend_q entry w idx v chain_id height rotation registry)
    (p2pk_spec entry w idx v chain_id height (default DefaultRotationProvider rotation)
       (default default_registry registry)).
Proof.
  unfold validate_p2pk_spend_q, p2pk_spec.
  apply runs_bind; [apply runs_lift|intros p _]. apply runs_bind; [apply runs_lift|intros _ _].
  apply runs_bind; [apply runs_lift|intros key _]. apply runs_signature.
Qed.

Lemma p2pk_key_id_Ok entry i key : is_u 8 i →
  p2pk_covenant_key_id entry i = Ok key ↔
  ue_covenant_data entry = byte_of_Z i :: key ∧ len key = 32.
Proof.
  intros Hi. unfold p2pk_covenant_key_id, MAX_P2PK_COVENANT_DATA, byte_at.
  destruct (ue_covenant_data entry) as [|b k]; [split; [done|by intros [[=] _]]|].
  simpl nth. destruct (negb _ || negb _) eqn:Hc.
  - split; [done|]. intros [[= -> ->] Hl]. rewrite byte_val_of_Z_small in Hc by done.
    simpl length in Hc. lia.
  - assert (slice 1 33 (b :: k) = k) as ->.
    { unfold slice. change (Z.to_nat 1) with 1%nat. change (Z.to_nat (33 - 1)) with 32%nat.
      cbn [drop]. rewrite drop_0, take_ge; [done|]. cbn [length] in Hc. lia. }
    simpl length in Hc. split.
    + intros [= <-]. split; [|lia]. f_equal. rewrite <- (byte_of_Z_val b). f_equal. lia.
    + by intros [[= _ ->] _].
Qed.

(** *** A threshold of keys *)

Definition slot_spec (idx v : Z) (chain_id : bytes) (context : string) (native : NativeSuiteSet)
    (reg : SuiteRegistry) (valid : Z) (kw : bytes * WitnessItem) : res Z :=
  let '(key, w) := kw in
  if suite_id w =? SUITE_ID_SENTINEL then
    if negb (bool_decide (pubkey w = [])) || negb (bool_decide (signature w = []))
    then tx_err TxErrParse "SENTINEL witness must be keyless" else Ok valid
  else
    p ← spend_suite_params w native reg (threshold_sig_error_message context SuiteNotInNativeSpendSet)
          (threshold_sig_error_message context SuiteNotRegistered);
    _ ← validate_witness_item_lengths w p;
    _ ← signature_spec w key idx v chain_id reg
      (mkTxError TxErrSigInvalid (threshold_sig_error_message context KeyBindingMismatch))
      (mkTxError TxErrSigInvalid (threshold_sig_error_message context SignatureInvalid));
    Ok (saturating_add 255 valid 1).

Definition threshold_spec (keys : list bytes) (threshold : Z) (ws : list WitnessItem)
    (idx v : Z) (chain_id : bytes) (height : Z) (context : string) (rp : RotationProvider)
    (reg : SuiteRegistry) : res unit :=
  if negb (len ws =? len keys) then tx_err TxErrParse "witness slot assignment mismatch" else
  valid ← try_fold (slot_spec idx v chain_id context (native_spend_suites rp height) reg) 0
            (zip keys ws);
  if valid <? threshold
  then tx_err TxErrSigInvalid (threshold_sig_error_message context ThresholdNotMet) else Ok ().

Lemma runs_slot idx v chain_id context native reg valid kw :
  runs (threshold_slot idx v chain_id context native reg valid kw)
       (slot_spec idx v chain_id context native reg valid kw).
Proof.
  unfold threshold_slot, slot_spec. destruct kw as [key w].
  case_match; [case_match; [apply runs_lift|apply runs_ret]|].
  apply runs_bind; [apply runs_lift|intros p _]. apply runs_bind; [apply runs_lift|intros _ _].
  apply runs_bind; [apply runs_signature|intros _ _]. apply runs_ret.
Qed.

Lemma runs_threshold keys threshold ws idx v chain_id height context rotation registry :
  runs (validate_threshold_sig_spend_q keys threshold ws idx v chain_id height context rotation registry)
    (threshold_spec keys threshold ws idx v chain_id height context
       (default DefaultRotationProvider rotation) (default default_registry registry)).
Proof.
  intros c Hc. unfold validate_threshold_sig_spend_q, threshold_spec.
  case_match; [by exists c|]. cbn [fmap option_fmap option_map snd].
  assert (runs (threshold_slots keys threshold ws idx v chain_id context
      (native_spend_suites (default DefaultRotationProvider rotation) height)
      (default default_registry registry))
    (valid ← try_fold (slot_spec idx v chain_id context
       (native_spend_suites (default DefaultRotationProvider rotation) height)
       (default default_registry registry)) 0 (zip keys ws);
     if valid <? threshold
     then tx_err TxErrSigInvalid (threshold_sig_error_message context ThresholdNotMet) else Ok ()))
    as Hr.
  { apply runs_bind; [apply runs_fold; intros; apply runs_slot|]. intros valid _.
    case_match; [apply runs_lift|apply runs_ret]. }
  destruct (Hr c Hc) as (c' & -> & Hc'). exists c'. split; [|done].
  destruct (_ ≫= _) as [[]|]; done.
Qed.

(** A slot of a threshold spend: left empty, or signed by its key. *)
Definition slot_empty (w : WitnessItem) : Prop :=
  suite_id w = SUITE_ID_SENTINEL ∧ pubkey w = [] ∧ signature w = [].
Definition slot_signed (idx v : Z) (chain_id : bytes) (height : Z) (rp : RotationProvider)
    (reg : SuiteRegistry) (key : bytes) (w : WitnessItem) : Prop :=
  suite_id w ≠ SUITE_ID_SENTINEL ∧ authorized w key idx v chain_id height rp reg.
Definition signed_count (ws : list WitnessItem) : Z :=
  len (filter (λ w, suite_id w ≠ SUITE_ID_SENTINEL) ws).

Lemma slot_spec_Ok idx v chain_id context height rp reg valid key w n :
  slot_spec idx v chain_id context (native_spend_suites rp height) reg valid (key, w) = Ok n ↔
  (slot_empty w ∧ n = valid)
  ∨ (slot_signed idx v chain_id height rp reg key w ∧ n = saturating_add 255 valid 1).
Proof.
  unfold slot_spec, slot_empty, slot_signed, authorized.
  destruct (suite_id w =? SUITE_ID_SENTINEL) eqn:Hs.
  - apply Z.eqb_eq in Hs. case_bool_decide as Hp; case_bool_decide as Hg; simpl;
      split; try done; try (by intros [([_ [? ?]] & _)|([? _] & _)]).
    + intros [= <-]. by left.
    + by intros [(_ & ->)|([? _] & _)].
  - apply Z.eqb_neq in Hs. rewrite suite_checks_Ok, bind_Ok. split.
    + intros (Ha & [] & Hv%signature_spec_Ok & [= <-]). by right.
    + intros [[[? _] _]|[[_ [Ha Hv]] ->]]; [done|]. split; [done|]. exists ().
      by rewrite signature_spec_Ok.
Qed.

Lemma slots_spec_Ok idx v chain_id context height rp reg valid keys ws n :
  length keys = length ws → 0 ≤ valid ≤ 255 →
  try_fold (slot_spec idx v chain_id context (native_spend_suites rp height) reg) valid (zip keys ws) = Ok n ↔
  Forall2 (λ key w, slot_empty w ∨ slot_signed idx v chain_id height rp reg key w) keys ws
  ∧ n = Z.min 255 (valid + signed_count ws).
Proof.
  revert valid ws; induction keys as [|key keys IH]; intros valid [|w ws]; try done; intros Hl Hv.
  - cbn [zip zip_with try_fold]. unfold signed_count. simpl. split.
    + intros [= <-]. split; [constructor|lia].
    + intros [_ ->]. f_equal. lia.
  - injection Hl as Hl. change (zip (key :: keys) (w :: ws)) with ((key, w) :: zip keys ws).
    cbn [try_fold]. rewrite bind_Ok. unfold signed_count. rewrite filter_cons.
    split.
    + intros (n1 & [[He ->]|[Hsg ->]]%slot_spec_Ok & Hn); unfold saturating_add in *;
        apply IH in Hn as [HF ->]; try done; try lia; unfold signed_count in *.
      * rewrite decide_False by (destruct He as [-> _]; auto). split; [constructor; auto|done].
      * rewrite decide_True by apply Hsg. split; [constructor; auto|]. simpl length. lia.
    + intros [HF ->]. apply list.Forall2_cons in HF as [Hw HF].
      destruct Hw as [He|Hsg].
      * exists valid. rewrite slot_spec_Ok. split; [by left|]. apply IH; try done.
        rewrite decide_False by (destruct He as [-> _]; auto). done.
      * exists (saturating_add 255 valid 1). rewrite slot_spec_Ok. split; [by right|].
        unfold saturating_add. apply IH; try done; [lia|].
        rewrite decide_True by apply Hsg. split; [done|]. unfold signed_count. simpl length. lia.
Qed.

(** Each slot is empty or signed by its own key, enough of them signed. *)
Definition quorum (keys : list bytes) (threshold : Z) (ws : list WitnessItem) (idx v : Z)
    (chain_id : bytes) (height : Z) (rp : RotationProvider) (reg : SuiteRegistry) : Prop :=
  Forall2 (λ key w, slot_empty w ∨ slot_signed idx v chain_id height rp reg key w) keys ws
  ∧ threshold ≤ signed_count ws.

Lemma threshold_spec_Ok keys threshold ws idx v chain_id height context rp reg :
  threshold ≤ 255 →
  threshold_spec keys threshold ws idx v chain_id height context rp reg = Ok () ↔
  quorum keys threshold ws idx v chain_id height rp reg.
Proof.
  intros Ht. unfold threshold_spec, quorum. destruct (len ws =? len keys) eqn:Hl; simpl negb; cbv iota.
  - rewrite bind_Ok. split.
    + intros (n & Hn & Hok). apply slots_spec_Ok in Hn as [HF ->]; [|lia..].
      split; [done|]. case_match eqn:Hlt; [done|]. lia.
    + intros [HF Hc]. exists (Z.min 255 (0 + signed_count ws)).
      rewrite slots_spec_Ok by lia. split; [done|]. rewrite (proj2 (Z.ltb_ge _ _)) by lia. done.
  - split; [done|]. intros [HF%Forall2_length _]. lia.
Qed.

Lemma p2pk_spec_Ok entry w idx v chain_id height rp reg : is_u 8 (suite_id w) →
  p2pk_spec entry w idx v chain_id height rp reg = Ok () ↔
  p2pk_authorized entry w idx v chain_id height rp reg.
Proof.
  intros Hs. unfold p2pk_spec, p2pk_authorized. rewrite suite_checks_Ok, bind_Ok. split.
  - intros (Ha & key & [Hk Hl]%p2pk_key_id_Ok & Hv%signature_spec_Ok); [|done].
    exists key. split_and!; done.
  - intros (key & Hk & Hl & Ha & Hv). split; [done|]. exists key.
    rewrite p2pk_key_id_Ok, signature_spec_Ok by done. done.
Qed.

(** C26: spending a pay-to-public-key output inline succeeds exactly when the
    covenant names the suite of the witness and the hash of its key, the
    suite is native at the height and registered with the lengths of the
    witness, and the signature, with its trailing hash-type byte, verifies
    on the digest of the transaction - whatever the cache already holds. *)
Theorem p2pk_spend_iff entry w idx v chain_id height rotation registry c :
  cache_ok tx c → is_u 8 (suite_id w) →
  (validate_p2pk_spend_q entry w idx v chain_id height rotation registry (c, None)).1 = Ok () ↔
  p2pk_authorized entry w idx v chain_id height (default DefaultRotationProvider rotation)
    (default default_registry registry).
Proof.
  intros Hc Hs. destruct (runs_p2pk entry w idx v chain_id height rotation registry c Hc)
    as (c' & -> & _). by apply p2pk_spec_Ok.
Qed.

(** C24: a multisig or vault spend is a quorum.  Inline it succeeds exactly
    when there is one witness item per key, each item is either the empty
    sentinel or a valid signature by the key of its own slot, and at least
    [threshold] slots are signed: an invalid signature is never outvoted,
    and no signature is counted for another key. *)
Theorem threshold_spend_iff keys threshold ws idx v chain_id height context rotation registry c :
  cache_ok tx c → threshold ≤ 255 →
  (validate_threshold_sig_spend_q keys threshold ws idx v chain_id height context rotation registry
     (c, None)).1 = Ok () ↔
  quorum keys threshold ws idx v chain_id height (default DefaultRotationProvider rotation)
    (default default_registry registry).
Proof.
  intros Hc Ht. destruct (runs_threshold keys threshold ws idx v chain_id height context rotation
    registry c Hc) as (c' & -> & _). by apply threshold_spec_Ok.
Qed.
End inline.

(** ** Deferred checks against inline checks *)

(** What the signatures of witness items may add to the queue: one task per
    item, of at most its size. *)
Definition items_bytes (ws : list WitnessItem) : Z :=
  foldr Z.add 0 ((λ w, 34 + len (pubkey w) + len (signature w)) <$> ws).

Lemma items_bytes_cons w ws :
  items_bytes (w :: ws) = 34 + len (pubkey w) + len (signature w) + items_bytes ws.
Proof. done. Qed.
Lemma items_bytes_app l1 l2 : items_bytes (l1 ++ l2) = items_bytes l1 + items_bytes l2.
Proof.
  unfold items_bytes. induction l1 as [|w l1 IH]; [done|]. cbn [app fmap list_fmap foldr]. lia.
Qed.
Lemma items_bytes_nonneg l : 0 ≤ items_bytes l.
Proof. unfold items_bytes. induction l as [|w l IH]; [done|]. cbn [fmap list_fmap foldr]. lia. Qed.

Section deferred.
Context `{HS : Sha3} `{HO : OpenSsl} (tx : Tx) (reg : SuiteRegistry).

(** The queue accepts the signatures of [ws]: it is not bound to another
    registry and its budgets are large enough. *)
Definition room (q : SigCheckQueue) (ws : list WitnessItem) : Prop :=
  (q_registry q = None ∨ q_registry q = Some reg)
  ∧ (∃ m, max_sigcheck_queue_tasks (Some reg) = Ok m ∧ len (q_tasks q) + len ws ≤ m)
  ∧ q_queued_bytes q + items_bytes ws ≤ MAX_SIGCHECK_QUEUE_BYTES.

Lemma room_app_r q l1 l2 : room q (l1 ++ l2) → room q l2.
Proof.
  intros (Hr & (m & Hm & Ht) & Hb). rewrite length_app in Ht. rewrite items_bytes_app in Hb.
  pose proof (items_bytes_nonneg l1). split_and!; [done| |lia]. exists m. split; [done|lia].
Qed.
Lemma room_app_l q l1 l2 : room q (l1 ++ l2) → room q l1.
Proof.
  intros (Hr & (m & Hm & Ht) & Hb). rewrite length_app in Ht. rewrite items_bytes_app in Hb.
  pose proof (items_bytes_nonneg l2). split_and!; [done| |lia]. exists m. split; [done|lia].
Qed.

Definition checks (ts : list SigCheckTask) : res unit := try_for_each (verify_task (Some reg)) ts.

(** How a queue grows: by tasks, and by no more than the items [ws]. *)
Definition queue_grows (ws : list WitnessItem) (q q' : SigCheckQueue) : Prop :=
  queue_wf q' ∧ extends q q' ∧ ∀ ws', room q (ws ++ ws') → room q' ws'.

(** [defers ws Q m]: with a queue, [m] appends the tasks [ts] to it and
    returns what the same computation without a queue returns once the
    signatures of [ts] are checked, in order and before the result; or it
    stops with an error, which is the inline one up to these checks, or, when
    the queue has no room for the signatures of [ws], the queue's own.  On
    results [Q] holds. *)
Definition defers {A} (ws : list WitnessItem) (Q : A → Prop) (m : spend A) : Prop := ∀ c1 c2 q,
  cache_ok tx c1 → cache_ok tx c2 → queue_wf q →
  ∃ r c1' q' ri c2' ts,
    m (c1, Some q) = (r, (c1', Some q')) ∧ m (c2, None) = (ri, (c2', None))
    ∧ (cache_ok tx c1' ∧ cache_ok tx c2' ∧ queue_grows ws q q')
    ∧ (∀ a, ri = Ok a → Q a)
    ∧ match r with
      | Ok a => Q a ∧ Forall task_fits ts ∧ q_tasks q' = q_tasks q ++ ts
                ∧ (ts ≠ [] → q_registry q' = Some reg) ∧ ri = (_ ← checks ts; Ok a)
      | Err e => ¬ room q ws ∨ ri = (_ ← checks ts; Err e)
      end.

Lemma checks_app l1 l2 : checks (l1 ++ l2) = (_ ← checks l1; checks l2).
Proof.
  unfold checks. induction l1 as [|t l1 IH]; simpl; [done|].
  by destruct (verify_task (Some reg) t).
Qed.

Lemma grows_refl ws q : queue_wf q → queue_grows ws q q.
Proof. intros Hq. split_and!; [done|apply extends_refl|]. intros ws'. apply room_app_r. Qed.
Lemma grows_trans ws1 ws2 q1 q2 q3 :
  queue_grows ws1 q1 q2 → queue_grows ws2 q2 q3 → queue_grows (ws1 ++ ws2) q1 q3.
Proof.
  intros (_ & He1 & Hr1) (? & He2 & Hr2). split_and!; [done|by eapply extends_trans|].
  intros ws'. rewrite <- app_assoc. auto.
Qed.
Lemma grows_app_r ws1 ws2 q q' : queue_grows ws1 q q' → queue_grows (ws1 ++ ws2) q q'.
Proof.
  intros (? & ? & Hr). split_and!; [done..|]. intros ws'. rewrite <- app_assoc.
  intros Hw%Hr. by eapply room_app_r.
Qed.

Lemma grows_app_l ws1 ws2 q q' : queue_grows ws2 q q' → queue_grows (ws1 ++ ws2) q q'.
Proof.
  intros (? & ? & Hr). split_and!; [done..|]. intros ws'. rewrite <- app_assoc.
  intros Hw%room_app_r. auto.
Qed.

Lemma defers_pure {A} ws (Q : A → Prop) (m : spend A) v :
  (∀ c oq, cache_ok tx c → ∃ c', m (c, oq) = (v, (c', oq)) ∧ cache_ok tx c') →
  (∀ a, v = Ok a → Q a) → defers ws Q m.
Proof.
  intros Hm HQ c1 c2 q Hc1 Hc2 Hq. destruct (Hm c1 (Some q) Hc1) as (c1' & Hm1 & ?).
  destruct (Hm c2 None Hc2) as (c2' & Hm2 & ?). exists v, c1', q, v, c2', [].
  split_and!; auto using grows_refl. destruct v as [a|e]; [|by right].
  split_and!; auto. by rewrite app_nil_r. done.
Qed.

Lemma defers_lift {A} ws (Q : A → Prop) (r : res A) : (∀ a, r = Ok a → Q a) → defers ws Q (lift r).
Proof. apply defers_pure. intros c oq Hc. by exists c. Qed.
Lemma defers_ret {A} ws (Q : A → Prop) (a : A) : Q a → defers ws Q (mret a).
Proof. intros HQ. apply (defers_lift ws Q (Ok a)). by intros ? [= <-]. Qed.
Lemma defers_cache {A} ws (Q : A → Prop) (m : cached A) v :
  computes tx m v → (∀ a, v = Ok a → Q a) → defers ws Q (on_cache m).
Proof.
  intros Hm. apply defers_pure. intros c oq Hc. destruct (Hm c Hc) as (c' & Hmc & ?).
  exists c'. unfold on_cache. simpl. by rewrite Hmc.
Qed.

Lemma defers_mono {A} ws (Q R : A → Prop) (m : spend A) :
  (∀ a, Q a → R a) → defers ws Q m → defers ws R m.
Proof.
  intros HQR Hm c1 c2 q Hc1 Hc2 Hq.
  destruct (Hm c1 c2 q Hc1 Hc2 Hq) as (r & c1' & q' & ri & c2' & ts & H1 & H2 & Hst & Hri & Hr).
  exists r, c1', q', ri, c2', ts. split_and!; try done; try apply Hst; [by eauto|].
  destruct r as [a|e]; [|done]. destruct Hr as (? & Hr). split; [auto|done].
Qed.

Lemma defers_weaken {A} pre ws post (Q : A → Prop) (m : spend A) :
  defers ws Q m → defers (pre ++ ws ++ post) Q m.
Proof.
  intros Hm c1 c2 q Hc1 Hc2 Hq.
  destruct (Hm c1 c2 q Hc1 Hc2 Hq) as (r & c1' & q' & ri & c2' & ts & H1 & H2 & (?&?&?) & Hri & Hr).
  exists r, c1', q', ri, c2', ts. split_and!; auto using grows_app_l, grows_app_r.
  destruct r as [a|e]; [done|]. destruct Hr as [Hno|]; [left|by right]. contradict Hno.
  by eapply room_app_l, room_app_r.
Qed.

(** The second part runs after the checks [ts] of the first. *)
Lemma defers_bind_Ok {B} (R : B → Prop) ws1 ws2 q q' q'' ts ts2 (r2 ri2 : res B) :
  queue_grows ws1 q q' → extends q' q'' → Forall task_fits ts → q_tasks q' = q_tasks q ++ ts →
  (ts ≠ [] → q_registry q' = Some reg) →
  match r2 with
  | Ok b => R b ∧ Forall task_fits ts2 ∧ q_tasks q'' = q_tasks q' ++ ts2
            ∧ (ts2 ≠ [] → q_registry q'' = Some reg) ∧ ri2 = (_ ← checks ts2; Ok b)
  | Err e => ¬ room q' ws2 ∨ ri2 = (_ ← checks ts2; Err e)
  end →
  match r2 with
  | Ok b => R b ∧ Forall task_fits (ts ++ ts2) ∧ q_tasks q'' = q_tasks q ++ (ts ++ ts2)
            ∧ (ts ++ ts2 ≠ [] → q_registry q'' = Some reg)
            ∧ (_ ← checks ts; ri2) = (_ ← checks (ts ++ ts2); Ok b)
  | Err e => ¬ room q (ws1 ++ ws2) ∨ (_ ← checks ts; ri2) = (_ ← checks (ts ++ ts2); Err e)
  end.
Proof.
  intros (_ & _ & Hroom) He Hts Hq' Hreg Hr2. rewrite checks_app. destruct r2 as [b|e].
  - destruct Hr2 as (? & ? & Ht2 & Hreg2 & ->). split_and!; [done|by apply Forall_app| | |].
    + by rewrite Ht2, Hq', app_assoc.
    + intros Hne. destruct ts2 as [|t2 ts2]; [|by apply Hreg2].
      rewrite app_nil_r in Hne. destruct He as [_ [Hn|Hr] _ _]; [|rewrite Hr; auto].
      rewrite (Hreg Hne) in Hn. done.
    + by destruct (checks ts).
  - destruct Hr2 as [Hno| ->]; [left; auto|right]. by destruct (checks ts).
Qed.

Lemma defers_bind {A B} ws1 ws2 (Q : A → Prop) (R : B → Prop) (m : spend A) (k : A → spend B) :
  defers ws1 Q m → (∀ a, Q a → defers ws2 R (k a)) → defers (ws1 ++ ws2) R (m ≫= k).
Proof.
  intros Hm Hk c1 c2 q Hc1 Hc2 Hq.
  destruct (Hm c1 c2 q Hc1 Hc2 Hq) as (r & c1' & q' & ri & c2' & ts & H1 & H2 & (?&?&Hg) & Hri & Hr).
  unfold mbind, st_bind. rewrite H1, H2. clear H1 H2. pose proof Hg as (Hq' & _ & _).
  destruct r as [a|e].
  - destruct Hr as (HQ & Hts & Ht & Hreg & ->).
    destruct (Hk a HQ c1' c2' q') as (r2 & c1'' & q'' & ri2 & c2'' & ts2 & -> & Hi2 & (?&?&Hg2) & Hri2 & Hr2);
      [done..|].
    pose proof (defers_bind_Ok R ws1 ws2 q q' q'' ts ts2 r2 ri2 Hg (proj1 (proj2 Hg2)) Hts Ht Hreg Hr2)
      as Hall. pose proof (grows_trans _ _ _ _ _ Hg Hg2) as Hg3.
    destruct (checks ts) as [[]|e] eqn:Hchk; cbn [mbind result_bind] in Hall |- *.
    + rewrite Hi2. by exists r2, c1'', q'', ri2, c2'', (ts ++ ts2).
    + by exists r2, c1'', q'', (Err e), c2', (ts ++ ts2).
  - assert (∃ rk ck, match ri with Ok a => k a (c2', None) | Err e => (Err e, (c2', None)) end
                     = (rk, (ck, None)) ∧ cache_ok tx ck ∧ ∀ b, rk = Ok b → R b) as (rk & ck & Hrk & ? & ?).
    { destruct ri as [a|ei]; [|by exists (Err ei), c2'].
      destruct (Hk a (Hri a eq_refl) c1' c2' q') as (? & ? & ? & rk & ck & ? & _ & ? & (?&?&?) & ? & _);
        [done..|]. by exists rk, ck. }
    exists (Err e), c1', q', rk, ck, ts. split_and!; auto using grows_app_r.
    destruct Hr as [Hno|Hri']; [left; contradict Hno; by eapply room_app_l|]. right. rewrite Hri' in Hrk.
    destruct (checks ts) as [[]|]; simpl in *; congruence.
Qed.

(** A first part without signatures, and a last one. *)
Lemma defers_pre {A B} ws (Q : A → Prop) (R : B → Prop) (m : spend A) (k : A → spend B) :
  defers [] Q m → (∀ a, Q a → defers ws R (k a)) → defers ws R (m ≫= k).
Proof. apply (defers_bind [] ws). Qed.
Lemma defers_lift_bind {A B} ws (R : B → Prop) (r : res A) (k : A → spend B) :
  (∀ a, r = Ok a → defers ws R (k a)) → defers ws R (lift r ≫= k).
Proof. apply (defers_pre ws (λ a, r = Ok a)). by apply defers_lift. Qed.
Lemma defers_post {A B} ws (Q : A → Prop) (R : B → Prop) (m : spend A) (k : A → spend B) :
  defers ws Q m → (∀ a, Q a → defers [] R (k a)) → defers ws R (m ≫= k).
Proof. rewrite <- (app_nil_r ws) at 2. apply defers_bind. Qed.

Lemma defers_fold {A B} (Q : B → Prop) (ws : A → list WitnessItem) (f : B → A → spend B) b l :
  (∀ b a, a ∈ l → Q b → defers (ws a) Q (f b a)) → Q b →
  defers (mjoin (ws <$> l)) Q (st_fold f b l).
Proof.
  revert b; induction l as [|a l IH]; intros b Hf Hb; cbn [st_fold]; [by apply defers_ret|].
  change (mjoin (ws <$> a :: l)) with (ws a ++ mjoin (ws <$> l)).
  eapply defers_bind; [apply Hf; [by left|done]|]. intros b' Hb'. apply IH; [|done].
  intros; apply Hf; [by right|done].
Qed.

Lemma ensure_registry_cases q :
  ((q_registry q = None ∨ q_registry q = Some reg) ∧ ensure_registry reg q = (Ok (), with_registry q reg))
  ∨ (¬ (q_registry q = None ∨ q_registry q = Some reg) ∧ ∃ e, ensure_registry reg q = (Err e, q)).
Proof.
  unfold ensure_registry. destruct q as [ts b [cur|] c w]; simpl.
  - case_bool_decide as Hcur; simpl; [subst; left; auto|]. right. split; [|eauto].
    intros [|]; congruence.
  - left. auto.
Qed.

Lemma defers_verify w i p s d e :
  tuple_fits i p s d → len p ≤ len (pubkey w) → len s ≤ len (signature w) →
  defers [w] (λ _, True) (on_queue (queue_or_verify_signature i p s d reg e)).
Proof.
  intros Hf Hlp Hls c1 c2 q Hc1 Hc2 Hq. unfold on_queue, queue_or_verify_signature. simpl.
  destruct ((_ ← ensure_registry reg; queue_push i p s d e) q) as [r q'] eqn:Hr.
  exists r, c1, q'. eexists _, c2, [mkSigCheckTask i p s d e]. split; [done|]. split; [done|].
  unfold mbind, st_bind in Hr.
  destruct (ensure_registry_cases q) as [[Hrq Hens]|[Hrq [e1 Hens]]]; rewrite Hens in Hr.
  2: { injection Hr as <- <-. split; [auto using grows_refl|]. split; [done|]. left. by intros [? _]. }
  assert (0 ≤ q_queued_bytes (with_registry q reg)) as H0
    by (destruct Hq as [Hb _]; simpl; rewrite Hb; apply tasks_bytes_nonneg).
  assert (queue_wf q' ∧ extends q q') as [Hwf Hext].
  { destruct (run_queue_op_wf q (OpEnsure reg) Hq) as [Hq1 He1]. simpl in Hq1, He1.
    rewrite Hens in Hq1, He1. destruct (run_queue_op_wf _ (OpPush i p s d e) Hq1) as [Hq2 He2].
    simpl in Hq2, He2. rewrite Hr in Hq2, He2. split; [done|by eapply extends_trans]. }
  assert (items_bytes [w] = 34 + len (pubkey w) + len (signature w)) as Hw
    by (unfold items_bytes; simpl; lia).
  destruct (queue_push_cases i p s d e _ H0) as [[_ Hp]|[Hno [e2 Hp]]]; rewrite Hp in Hr;
    injection Hr as <- <-.
  - split; [|split; [done|]].
    + do 2 (split; [done|]). split_and!; [done..|]. intros ws' (_ & (m & Hm & Ht) & Hb). rewrite items_bytes_app in Hb.
      split_and!; [by right| |unfold pushed, task_bytes; simpl; lia].
      exists m. split; [done|]. simpl. rewrite length_app in *. simpl in *. lia.
    + split_and!; [done|by constructor|done..|]. unfold checks, verify_task; simpl.
      by destruct (verify_sig_with_registry _ _ _ _ _) as [[]|].
  - split; [|split; [done|]].
    + do 2 (split; [done|]). split_and!; [done..|]. intros ws' Hw'%room_app_r. by split; [right|apply Hw'].
    + left. intros (_ & (m & Hm & Ht) & Hb). apply Hno. unfold push_fits. simpl in *.
      split; [exists m; split; [done|lia]|lia].
Qed.

(** Witness items as the wire format bounds them. *)
Definition item_fits (w : WitnessItem) : Prop :=
  is_u 8 (suite_id w) ∧ is_u 32 (len (pubkey w)) ∧ is_u 32 (len (signature w)).

Lemma defers_sign w idx v chain_id e : item_fits w →
  defers [w] (λ _, True)
    ('(cs, t) ← lift (extract_crypto_sig_and_sighash w);
     d ← on_cache (sighash_v1_digest_with_cache idx v chain_id t);
     on_queue (queue_or_verify_signature (suite_id w) (pubkey w) cs d reg e)).
Proof.
  intros (Hs & Hp & Hg). apply defers_lift_bind. intros [cs t] (b & Hb & _)%extract_Ok.
  eapply (defers_pre _ (λ d, len d = 32)).
  { eapply defers_cache; [apply sighash_computes|].
    intros d (? & ? & _ & _ & _ & ->)%sighash_spec_Ok. by rewrite sha3_256_length. }
  intros d Hd. rewrite Hb, length_app in Hg.
  apply defers_verify; [unfold tuple_fits, is_u in *; split_and!; lia|done|].
  rewrite Hb, length_app. lia.
Qed.

Lemma defers_signature w key idx v chain_id e1 e2 : item_fits w →
  defers [w] (λ _, True) (verify_mldsa_key_and_sig_q w key idx v chain_id reg e1 e2).
Proof.
  intros Hw. unfold verify_mldsa_key_and_sig_q. case_match; [by apply defers_lift|].
  by apply defers_sign.
Qed.

Lemma defers_p2pk entry w idx v chain_id height rotation : item_fits w →
  defers [w] (λ _, True) (validate_p2pk_spend_q entry w idx v chain_id height rotation (Some reg)).
Proof.
  intros Hw. unfold validate_p2pk_spend_q. simpl default.
  do 3 (apply defers_lift_bind; intros ? _). by apply defers_signature.
Qed.

Lemma mjoin_zip_items {A} (l : list A) (ws : list WitnessItem) : length ws = length l →
  mjoin ((λ kw : A * WitnessItem, [kw.2]) <$> zip l ws) = ws.
Proof.
  revert ws; induction l as [|a l IH]; intros [|w ws] Hl; try done.
  change (w :: mjoin ((λ kw : A * WitnessItem, [kw.2]) <$> zip l ws) = w :: ws). f_equal. apply IH.
  by injection Hl.
Qed.

Lemma defers_slots keys threshold ws idx v chain_id context native :
  Forall item_fits ws → length ws = length keys →
  defers ws (λ _, True) (threshold_slots keys threshold ws idx v chain_id context native reg).
Proof.
  intros Hws Hl. unfold threshold_slots. eapply (defers_post _ (λ _, True)).
  - rewrite <- (mjoin_zip_items keys ws Hl) at 1. apply defers_fold; [|done].
    intros n [key w] Hkw _. unfold threshold_slot.
    case_match; [case_match; [by apply defers_lift|by apply defers_ret]|].
    do 2 (apply defers_lift_bind; intros ? _).
    eapply (defers_post _ (λ _, True)); [|intros; by apply defers_ret].
    apply defers_signature. apply elem_of_zip_r in Hkw. by eapply list.Forall_forall in Hws.
  - intros n _. case_match; [by apply defers_lift|by apply defers_ret].
Qed.

(** The rollback of a failed threshold spend gives the queue back. *)
Lemma defers_threshold keys threshold ws idx v chain_id height context rotation :
  Forall item_fits ws →
  defers ws (λ _, True)
    (validate_threshold_sig_spend_q keys threshold ws idx v chain_id height context rotation (Some reg)).
Proof.
  intros Hws c1 c2 q Hc1 Hc2 Hq. unfold validate_threshold_sig_spend_q. simpl default.
  destruct (negb (len ws =? len keys)) eqn:Hl.
  { eexists _, c1, q, _, c2, []. do 2 (split; [done|]). split; [auto using grows_refl|].
    split; [done|by right]. }
  destruct (defers_slots keys threshold ws idx v chain_id context
    (native_spend_suites (default DefaultRotationProvider rotation) height) Hws ltac:(lia) c1 c2 q Hc1 Hc2 Hq)
    as (r & c1' & q' & ri & c2' & ts & -> & -> & (?&?&Hg) & Hri & Hr).
  cbn [fmap option_fmap option_map snd]. destruct r as [[]|e].
  - exists (Ok ()), c1', q', ri, c2', ts. destruct ri as [[]|]; done.
  - exists (Err e), c1', (rollback_to (queue_mark q) q'), ri, c2', ts.
    split; [done|]. split; [by destruct ri as [[]|]|]. rewrite rollback_extends by apply Hg.
    split; [auto using grows_refl|]. done.
Qed.
End deferred.

(** ** Witnesses *)

Definition demo_item : WitnessItem := mkWitnessItem 1 demo_key (demo_sig x01 ++ [x01]).
Definition demo_bad_item : WitnessItem := mkWitnessItem 1 demo_key (demo_sig x00 ++ [x01]).
Definition demo_empty_item : WitnessItem := mkWitnessItem 0 [] [].
Definition demo_key_id : bytes := toy_digest demo_key.
Definition demo_entry : UtxoEntry := mkUtxoEntry 70 COV_TYPE_P2PK (x01 :: demo_key_id) 5 false.

Lemma p2pk_spend_iff_witness :
  (validate_p2pk_spend_q (HS := toy_sha3) (HO := toy_openssl) demo_entry demo_bad_item 0 70
     demo_chain 9 None None (demo_cache, None)).1
    = tx_err TxErrSigInvalid "CORE_P2PK signature invalid" ∧
  (validate_p2pk_spend_q (HS := toy_sha3) (HO := toy_openssl) demo_entry demo_item 0 70
     demo_chain 9 None None (demo_cache, None)).1 = Ok () ∧
  ((validate_p2pk_spend_q (HS := toy_sha3) (HO := toy_openssl) demo_entry demo_item 0 70
     demo_chain 9 None None (demo_cache, None)).1 = Ok () ↔
   p2pk_authorized (HS := toy_sha3) (HO := toy_openssl) demo_tx demo_entry demo_item 0 70 demo_chain 9
     (default DefaultRotationProvider None) (default default_registry None)).
Proof.
  split; [vm_compute; reflexivity|]. split; [vm_compute; reflexivity|].
  apply (p2pk_spend_iff (HS := toy_sha3) (HO := toy_openssl) demo_tx); [exact demo_cache_ok|].
  vm_compute; split; [discriminate|reflexivity].
Defined.

Lemma threshold_spend_iff_witness :
  (validate_threshold_sig_spend_q (HS := toy_sha3) (HO := toy_openssl)
     [demo_key_id; demo_chain] 1 [demo_item; demo_empty_item] 0 70 demo_chain 9 "CORE_VAULT" None None
     (demo_cache, None)).1 = Ok () ∧
  ((validate_threshold_sig_spend_q (HS := toy_sha3) (HO := toy_openssl)
     [demo_key_id; demo_chain] 1 [demo_item; demo_empty_item] 0 70 demo_chain 9 "CORE_VAULT" None None
     (demo_cache, None)).1 = Ok () ↔
   quorum (HS := toy_sha3) (HO := toy_openssl) demo_tx [demo_key_id; demo_chain] 1
     [demo_item; demo_empty_item] 0 70 demo_chain 9 (default DefaultRotationProvider None)
     (default default_registry None)).
Proof.
  split; [vm_compute; reflexivity|].
  apply (threshold_spend_iff (HS := toy_sha3) (HO := toy_openssl) demo_tx); [exact demo_cache_ok|].
  vm_compute; discriminate.
Defined.
