(* ===== verification/Htlc.v ===== *)
(** * Hash time-locked contracts ([htlc.rs]) *)

From S2P Require Import Prelude Bytes Errors Constants Crypto WireRead CompactSize TxWire TxCodec Vault Suites Verify SigCache WorkerPool SigQueue Sighash Spend.

(* rust: htlc.rs 14-21 HtlcCovenant *)
Record HtlcCovenant : Type := mkHtlcCovenant {
  hc_hash : bytes; hc_lock_mode : Z; hc_lock_value : Z;
  hc_claim_key_id : bytes; hc_refund_key_id : bytes }.

(* rust: htlc.rs 24-31 HtlcSpendContext *)
Record HtlcSpendContext : Type := mkHtlcSpendContext {
  hx_input_index : Z; hx_input_value : Z; hx_chain_id : bytes;
  hx_block_height : Z; hx_block_mtp : Z }.

(* rust: htlc.rs 33-37 HtlcSelector *)
Record HtlcSelector : Type := mkHtlcSelector {
  hs_key_id : bytes; hs_path_id : Z; hs_payload : bytes }.

(* rust: htlc.rs 39-86 parse_htlc_covenant_data *)
Definition parse_htlc_covenant_data (cov_data : bytes) : res HtlcCovenant :=
  if negb (len cov_data =? MAX_HTLC_COVENANT_DATA)
  then tx_err TxErrCovenantTypeInvalid "CORE_HTLC covenant_data length mismatch" else
  let hash := slice 0 32 cov_data in
  let lock_mode := byte_at 32 cov_data in
  let lock_value := le_decode (slice 33 41 cov_data) in
  let claim_key_id := slice 41 73 cov_data in
  let refund_key_id := slice 73 105 cov_data in
  if negb (lock_mode =? LOCK_MODE_HEIGHT) && negb (lock_mode =? LOCK_MODE_TIMESTAMP)
  then tx_err TxErrCovenantTypeInvalid "CORE_HTLC lock_mode invalid" else
  if lock_value =? 0
  then tx_err TxErrCovenantTypeInvalid "CORE_HTLC lock_value must be > 0" else
  if bool_decide (claim_key_id = refund_key_id)
  then tx_err TxErrParse "CORE_HTLC claim/refund key_id must differ" else
  Ok (mkHtlcCovenant hash lock_mode lock_value claim_key_id refund_key_id).

(* rust: htlc.rs 181-208 parse_htlc_selector *)
Definition parse_htlc_selector (path_item : WitnessItem) : res HtlcSelector :=
  if negb (suite_id path_item =? SUITE_ID_SENTINEL)
  then tx_err TxErrParse "CORE_HTLC selector suite_id invalid" else
  if negb (len (pubkey path_item) =? 32)
  then tx_err TxErrParse "CORE_HTLC selector key_id length invalid" else
  if bool_decide (signature path_item = [])
  then tx_err TxErrParse "CORE_HTLC selector payload too short" else
  Ok (mkHtlcSelector (pubkey path_item) (byte_at 0 (signature path_item)) (signature path_item)).

(* rust: htlc.rs 260-292 validate_htlc_refund_path *)
Definition validate_htlc_refund_path (cov : HtlcCovenant) (path_sig selector_key_id : bytes)
    (ctx : HtlcSpendContext) : res bytes :=
  if negb (len path_sig =? 1)
  then tx_err TxErrParse "CORE_HTLC refund payload length mismatch" else
  _ ← (if hc_lock_mode cov =? LOCK_MODE_HEIGHT then
         if hx_block_height ctx <? hc_lock_value cov
         then tx_err TxErrTimelockNotMet "CORE_HTLC height lock not met" else Ok ()
       else if hx_block_mtp ctx <? hc_lock_value cov
       then tx_err TxErrTimelockNotMet "CORE_HTLC timestamp lock not met" else Ok ());
  if negb (bool_decide (selector_key_id = hc_refund_key_id cov))
  then tx_err TxErrSigInvalid "CORE_HTLC refund key_id mismatch" else
  Ok (hc_refund_key_id cov).

Section htlc.
  Context `{HS : Sha3} `{HO : OpenSsl}.

(* rust: htlc.rs 210-258 validate_htlc_claim_path *)
Definition validate_htlc_claim_path (cov : HtlcCovenant) (path_sig selector_key_id : bytes) : res bytes :=
  if negb (bool_decide (selector_key_id = hc_claim_key_id cov))
  then tx_err TxErrSigInvalid "CORE_HTLC claim key_id mismatch" else
  if len path_sig <? 3
  then tx_err TxErrParse "CORE_HTLC claim payload too short" else
  let pre_len := le_decode (slice 1 3 path_sig) in
  if pre_len <? MIN_HTLC_PREIMAGE_BYTES
  then tx_err TxErrParse "CORE_HTLC preimage_len must be >= 16" else
  if MAX_HTLC_PREIMAGE_BYTES <? pre_len
  then tx_err TxErrParse "CORE_HTLC preimage length overflow" else
  if negb (len path_sig =? 3 + pre_len)
  then tx_err TxErrParse "CORE_HTLC claim payload length mismatch" else
  let preimage := drop 3 path_sig in
  if negb (bool_decide (sha3_256 preimage = hc_hash cov))
  then tx_err TxErrSigInvalid "CORE_HTLC claim preimage hash mismatch" else
  Ok (hc_claim_key_id cov).

(* rust: htlc.rs 166-179 expected_htlc_spend_key_id *)
Definition expected_htlc_spend_key_id (cov : HtlcCovenant) (selector : HtlcSelector)
    (ctx : HtlcSpendContext) : res bytes :=
  if hs_path_id selector =? 0x00
  then validate_htlc_claim_path cov (hs_payload selector) (hs_key_id selector)
  else if hs_path_id selector =? 0x01
  then validate_htlc_refund_path cov (hs_payload selector) (hs_key_id selector) ctx
  else tx_err TxErrParse "CORE_HTLC unknown spend path".

(* rust: htlc.rs 294-332 validate_htlc_signature_precheck *)
Definition validate_htlc_signature_precheck (sig_item : WitnessItem) (expected_key_id : bytes)
    (block_height : Z) (rotation : RotationProvider) (registry : SuiteRegistry) : res unit :=
  let native_spend := native_spend_suites rotation block_height in
  if negb (ns_contains native_spend (suite_id sig_item))
  then tx_err TxErrSigAlgInvalid "CORE_HTLC suite not in native spend set" else
  params ← ok_or (sr_lookup registry (suite_id sig_item))
             (mkTxError TxErrSigAlgInvalid "CORE_HTLC suite not registered");
  if negb (len (pubkey sig_item) =? sp_pubkey_len params)
     || negb (len (signature sig_item) =? sp_sig_len params + 1)
  then tx_err TxErrSigNoncanonical "non-canonical witness item lengths" else
  if negb (bool_decide (sha3_256 (pubkey sig_item) = expected_key_id))
  then tx_err TxErrSigInvalid "CORE_HTLC signature key binding mismatch" else
  Ok ().

(* rust: htlc.rs 124-164 validate_htlc_spend_q *)
Definition validate_htlc_spend_q (entry : UtxoEntry) (path_item sig_item : WitnessItem)
    (ctx : HtlcSpendContext) (rotation : option RotationProvider)
    (registry : option SuiteRegistry) : spend unit :=
  cov ← lift (parse_htlc_covenant_data (ue_covenant_data entry));
  selector ← lift (parse_htlc_selector path_item);
  expected_key_id ← lift (expected_htlc_spend_key_id cov selector ctx);
  let rp := default DefaultRotationProvider rotation in
  let reg := default default_registry registry in
  _ ← lift (validate_htlc_signature_precheck sig_item expected_key_id (hx_block_height ctx) rp reg);
  '(crypto_sig, sighash_type) ← lift (extract_crypto_sig_and_sighash sig_item);
  digest32 ← on_cache (sighash_v1_digest_with_cache (hx_input_index ctx) (hx_input_value ctx)
                         (hx_chain_id ctx) sighash_type);
  on_queue (queue_or_verify_signature (suite_id sig_item) (pubkey sig_item) crypto_sig digest32 reg
              (mkTxError TxErrSigInvalid "CORE_HTLC signature invalid")).

(* rust: htlc.rs 109-121 validate_htlc_spend_at_height *)
Definition validate_htlc_spend_at_height (entry : UtxoEntry) (path_item sig_item : WitnessItem)
    (ctx : HtlcSpendContext) (rotation : option RotationProvider)
    (registry : option SuiteRegistry) : cached unit := λ c,
  let '(r, (c, _)) := validate_htlc_spend_q entry path_item sig_item ctx rotation registry (c, None)
  in (r, c).
(* rust: htlc.rs 99-107 validate_htlc_spend_with_cache *)
Definition validate_htlc_spend_with_cache (entry : UtxoEntry) (path_item sig_item : WitnessItem)
    (ctx : HtlcSpendContext) : cached unit :=
  validate_htlc_spend_at_height entry path_item sig_item ctx None None.
(* rust: htlc.rs 88-97 validate_htlc_spend *)
Definition validate_htlc_spend (entry : UtxoEntry) (path_item sig_item : WitnessItem)
    (tx : Tx) (ctx : HtlcSpendContext) : res unit :=
  cache ← prehash_cache_new tx;
  (validate_htlc_spend_with_cache entry path_item sig_item ctx cache).1.
End htlc.

(** ** The covenant payload *)

Definition htlc_valid (c : HtlcCovenant) : Prop :=
  len (hc_hash c) = 32 ∧ (hc_lock_mode c = LOCK_MODE_HEIGHT ∨ hc_lock_mode c = LOCK_MODE_TIMESTAMP)
  ∧ 0 < hc_lock_value c ∧ is_u 64 (hc_lock_value c)
  ∧ len (hc_claim_key_id c) = 32 ∧ len (hc_refund_key_id c) = 32
  ∧ hc_claim_key_id c ≠ hc_refund_key_id c.
Definition enc_htlc (c : HtlcCovenant) : bytes :=
  hc_hash c ++ le_encode 1 (hc_lock_mode c) ++ u64_le (hc_lock_value c)
  ++ hc_claim_key_id c ++ hc_refund_key_id c.

Lemma slice_all_eq {A} (l : list A) n : n = len l → slice 0 n l = l.
Proof. intros ->. apply slice_all. Qed.

Lemma slice_head {A} (b c : list A) n : n = len b → slice 0 n (b ++ c) = b.
Proof. intros ->. apply (slice_mid [] b c 0 (len b)); [done|]. simpl. lia. Qed.

Lemma parse_htlc_canonical data c :
  parse_htlc_covenant_data data = Ok c ↔ htlc_valid c ∧ data = enc_htlc c.
Proof.
  unfold parse_htlc_covenant_data, htlc_valid, enc_htlc, MAX_HTLC_COVENANT_DATA,
    LOCK_MODE_HEIGHT, LOCK_MODE_TIMESTAMP, u64_le. split.
  - intros H. inv_res. cbn [hc_hash hc_lock_mode hc_lock_value hc_claim_key_id hc_refund_key_id].
    pose proof (le_decode_u 64 8 (slice 33 41 data)) as Hu.
    rewrite slice_length in Hu by lia. specialize (Hu eq_refl eq_refl).
    split.
    + rewrite !slice_length by lia. unfold is_u in *. split_and!; try lia.
      by case_bool_decide.
    + rewrite <- byte_at_slice by lia. change (32 + 1) with 33.
      assert (le_encode 8 (le_decode (slice 33 41 data)) = slice 33 41 data) as ->.
      { change 8%nat with (Z.to_nat 8). replace (Z.to_nat 8) with (length (slice 33 41 data)).
        - apply le_encode_decode. - pose proof (slice_length 33 41 data). lia. }
      rewrite <- !slice_app_split by lia. by rewrite slice_all_eq by lia.
  - destruct c as [h m v k1 k2]. cbn [hc_hash hc_lock_mode hc_lock_value hc_claim_key_id hc_refund_key_id].
    intros [(Hh & Hm & Hv & Hvu & Hk1 & Hk2 & Hne) ->]. rewrite !length_app, !le_encode_length.
    rewrite slice_head by lia.
    rewrite le_encode_1_byte_at by (unfold is_u; lia).
    rewrite (app_assoc h), (slice_mid _ (le_encode 8 v))
      by (rewrite ?length_app, ?le_encode_length; lia).
    rewrite (app_assoc _ (le_encode 8 v)), (slice_mid _ k1)
      by (rewrite ?length_app, ?le_encode_length; lia).
    rewrite (app_assoc _ k1), <- (app_nil_r k2), (slice_mid _ k2 [])
      by (rewrite ?length_app, ?le_encode_length; lia).
    rewrite app_nil_r. change (le_encode 8 v) with (u64_le v). rewrite le_decode_u64 by done.
    do 3 decide_if. by rewrite bool_decide_eq_false_2.
Qed.

(** ** Spending *)

Section spend.
Context `{HS : Sha3} `{HO : OpenSsl} (tx : Tx).

(** The two ways to name the key that must sign. *)
Definition htlc_claim (c : HtlcCovenant) (path : WitnessItem) : Prop :=
  pubkey path = hc_claim_key_id c ∧ ∃ preimage,
    signature path = le_encode 1 0 ++ u16_le (len preimage) ++ preimage
    ∧ MIN_HTLC_PREIMAGE_BYTES ≤ len preimage ≤ MAX_HTLC_PREIMAGE_BYTES
    ∧ sha3_256 preimage = hc_hash c.
Definition htlc_refund (c : HtlcCovenant) (path : WitnessItem) (ctx : HtlcSpendContext) : Prop :=
  pubkey path = hc_refund_key_id c ∧ signature path = le_encode 1 1
  ∧ hc_lock_value c ≤ (if hc_lock_mode c =? LOCK_MODE_HEIGHT
                       then hx_block_height ctx else hx_block_mtp ctx).

Lemma claim_path_Ok c path k :
  validate_htlc_claim_path c (signature path) (pubkey path) = Ok k ∧ byte_at 0 (signature path) = 0 ↔
  htlc_claim c path ∧ k = hc_claim_key_id c.
Proof.
  unfold validate_htlc_claim_path, htlc_claim, MIN_HTLC_PREIMAGE_BYTES, MAX_HTLC_PREIMAGE_BYTES.
  set (s := signature path). split.
  - intros [H H0]. inv_res. split; [|done].
    rewrite negb_false_iff, bool_decide_eq_true in *. split; [done|]. exists (drop 3 s).
    pose proof (le_decode_u 16 2 (slice 1 3 s)) as Hu. rewrite slice_length in Hu by lia.
    specialize (Hu eq_refl eq_refl). unfold is_u in Hu.
    assert (len (drop 3 s) = le_decode (slice 1 3 s)) as Hl by (rewrite length_drop; lia).
    rewrite Hl. split_and!; [|lia..|done].
    assert (u16_le (le_decode (slice 1 3 s)) = slice 1 3 s) as ->.
    { unfold u16_le. replace 2%nat with (length (slice 1 3 s)).
      - apply le_encode_decode. - pose proof (slice_length 1 3 s). lia. }
    rewrite <- H0, <- byte_at_slice by lia. rewrite app_assoc, <- slice_app_split by lia.
    unfold slice. rewrite drop_0. change (Z.to_nat (3 - 0)) with 3%nat. by rewrite take_drop.
  - intros [(Hp & pre & -> & Hl & Hh) ->]. rewrite bool_decide_eq_true_2 by done.
    pose proof (le_encode_1_byte_at [] 0 (u16_le (len pre) ++ pre) 0) as H0.
    rewrite !app_nil_l in H0. rewrite H0 by (unfold is_u; simpl; lia). split; [|done].
    rewrite !length_app. unfold u16_le. rewrite !le_encode_length.
    rewrite (slice_mid (le_encode 1 0) (le_encode 2 (len pre)))
      by (rewrite ?le_encode_length; lia).
    change (le_encode 2 (len pre)) with (u16_le (len pre)).
    rewrite le_decode_u16 by (unfold is_u; lia).
    cbn [negb]. do 4 decide_if.
    assert (drop 3 (le_encode 1 0 ++ u16_le (len pre) ++ pre) = pre) as ->.
    { rewrite app_assoc. apply drop_app_length'. by rewrite length_app. }
    by rewrite bool_decide_eq_true_2.
Qed.

Lemma refund_path_Ok c path ctx k :
  validate_htlc_refund_path c (signature path) (pubkey path) ctx = Ok k ∧ byte_at 0 (signature path) = 1 ↔
  htlc_refund c path ctx ∧ k = hc_refund_key_id c.
Proof.
  unfold validate_htlc_refund_path, htlc_refund. split.
  - intros [H H0]. destruct (negb (len (signature path) =? 1)) eqn:Hl; [done|].
    apply bind_Ok in H as ([] & Ht & H). inv_res.
    rewrite negb_false_iff, bool_decide_eq_true in *. split; [|done]. split_and!; [done| |].
    + destruct (signature path) as [|b [|b' l]] eqn:Hs; cbn [length] in Hl; try lia.
      unfold byte_at in H0. simpl in H0. rewrite le_encode_1', <- H0. by rewrite byte_of_Z_val.
    + destruct (hc_lock_mode c =? LOCK_MODE_HEIGHT); destruct (_ <? _) eqn:Hlt; [done|lia|done|lia].
  - intros [(Hp & -> & Hl) ->]. rewrite bool_decide_eq_true_2 by done.
    split; [|done]. rewrite le_encode_length. decide_if.
    cbn [negb]. destruct (hc_lock_mode c =? LOCK_MODE_HEIGHT); decide_if; done.
Qed.

Lemma parse_selector_Ok path s : parse_htlc_selector path = Ok s ↔
  suite_id path = SUITE_ID_SENTINEL ∧ len (pubkey path) = 32 ∧ signature path ≠ []
  ∧ s = mkHtlcSelector (pubkey path) (byte_at 0 (signature path)) (signature path).
Proof.
  unfold parse_htlc_selector. split.
  - intros H. inv_res. split_and!; [lia|lia|by case_bool_decide|done].
  - intros (Hs & Hp & Hg & ->). rewrite Hs, bool_decide_eq_false_2 by done. by do 2 decide_if.
Qed.

Lemma precheck_Ok w key height rp reg :
  validate_htlc_signature_precheck w key height rp reg = Ok () ↔
  suite_allowed w (native_spend_suites rp height) reg ∧ sha3_256 (pubkey w) = key.
Proof.
  unfold validate_htlc_signature_precheck, suite_allowed. split.
  - intros H. inv_res. rewrite negb_false_iff, bool_decide_eq_true in *.
    split; [|done]. split; [done|]. exists x. split; [done|lia].
  - intros [(Hn & p & Hp & Hl1 & Hl2) Hk]. rewrite Hn, Hp. simpl. run_bind. decide_if.
    by rewrite bool_decide_eq_true_2.
Qed.

Definition htlc_spec (entry : UtxoEntry) (path w : WitnessItem) (ctx : HtlcSpendContext)
    (rp : RotationProvider) (reg : SuiteRegistry) : res unit :=
  cov ← parse_htlc_covenant_data (ue_covenant_data entry);
  sel ← parse_htlc_selector path;
  key ← expected_htlc_spend_key_id cov sel ctx;
  _ ← validate_htlc_signature_precheck w key (hx_block_height ctx) rp reg;
  '(cs, t) ← extract_crypto_sig_and_sighash w;
  d ← sighash_spec tx (hx_input_index ctx) (hx_input_value ctx) (hx_chain_id ctx) t;
  verify_task (Some reg) (mkSigCheckTask (suite_id w) (pubkey w) cs d
    (mkTxError TxErrSigInvalid "CORE_HTLC signature invalid")).

Lemma runs_htlc entry path w ctx rotation registry :
  runs tx (validate_htlc_spend_q entry path w ctx rotation registry)
    (htlc_spec entry path w ctx (default DefaultRotationProvider rotation)
       (default default_registry registry)).
Proof.
  unfold validate_htlc_spend_q, htlc_spec.
  do 3 (apply runs_bind; [apply runs_lift|intros ? _]).
  apply runs_bind; [apply runs_lift|intros _ _]. apply runs_sign.
Qed.

(** The rest of a spend once the key is known is the check of [Spend.v]. *)
Lemma signed_by_Ok w key idx v chain_id height rp reg e :
  (_ ← validate_htlc_signature_precheck w key height rp reg;
   '(cs, t) ← extract_crypto_sig_and_sighash w;
   d ← sighash_spec tx idx v chain_id t;
   verify_task (Some reg) (mkSigCheckTask (suite_id w) (pubkey w) cs d e)) = Ok () ↔
  authorized tx w key idx v chain_id height rp reg.
Proof.
  unfold authorized. rewrite <- (signature_spec_Ok tx w key idx v chain_id reg e e).
  unfold signature_spec. rewrite bind_Ok. split.
  - intros ([] & [Ha Hk]%precheck_Ok & H). split; [done|].
    by rewrite bool_decide_eq_true_2.
  - intros [Ha H]. exists (). case_bool_decide as Hk; [|done]. split; [by apply precheck_Ok|done].
Qed.

Lemma expected_key_Ok cov path ctx key :
  expected_htlc_spend_key_id cov
    (mkHtlcSelector (pubkey path) (byte_at 0 (signature path)) (signature path)) ctx = Ok key ↔
  (htlc_claim cov path ∧ key = hc_claim_key_id cov)
  ∨ (htlc_refund cov path ctx ∧ key = hc_refund_key_id cov).
Proof.
  rewrite <- claim_path_Ok, <- refund_path_Ok. unfold expected_htlc_spend_key_id.
  cbn [hs_path_id hs_payload hs_key_id].
  destruct (byte_at 0 (signature path) =? 0) eqn:H0; [|destruct (byte_at 0 (signature path) =? 1) eqn:H1].
  - split; [intros ->; left; split; [done|lia]|]. intros [[? _]|[_ ?]]; [done|lia].
  - split; [intros ->; right; split; [done|lia]|]. intros [[_ ?]|[? _]]; [lia|done].
  - split; [done|]. intros [[_ ?]|[_ ?]]; lia.
Qed.

(** The two ways to spend: the claim key with a preimage, the refund key after
    the lock. *)
Definition htlc_authorized (entry : UtxoEntry) (path w : WitnessItem) (ctx : HtlcSpendContext)
    (rp : RotationProvider) (reg : SuiteRegistry) : Prop :=
  ∃ cov, ue_covenant_data entry = enc_htlc cov ∧ htlc_valid cov
    ∧ suite_id path = SUITE_ID_SENTINEL
    ∧ ∃ key, ((htlc_claim cov path ∧ key = hc_claim_key_id cov)
              ∨ (htlc_refund cov path ctx ∧ key = hc_refund_key_id cov))
      ∧ authorized tx w key (hx_input_index ctx) (hx_input_value ctx) (hx_chain_id ctx)
          (hx_block_height ctx) rp reg.

Lemma htlc_spec_Ok entry path w ctx rp reg :
  htlc_spec entry path w ctx rp reg = Ok () ↔ htlc_authorized entry path w ctx rp reg.
Proof.
  unfold htlc_spec, htlc_authorized. split.
  - intros H. apply bind_Ok in H as (cov & [Hv He]%parse_htlc_canonical & H).
    apply bind_Ok in H as (sel & (Hs & Hp & Hg & ->)%parse_selector_Ok & H).
    apply bind_Ok in H as (key & Hk%expected_key_Ok & H). apply signed_by_Ok in H.
    exists cov. split_and!; try done. by exists key.
  - intros (cov & He & Hv & Hs & key & Hk & Ha).
    rewrite (proj2 (parse_htlc_canonical _ cov)) by done. run_bind.
    assert (len (pubkey path) = 32 ∧ signature path ≠ []) as [Hp Hg].
    { destruct Hv as (_ & _ & _ & _ & Hk1 & Hk2 & _).
      destruct Hk as [[(-> & pre & -> & _) _]|[(-> & -> & _) _]]; by rewrite ?le_encode_1'. }
    rewrite (proj2 (parse_selector_Ok path _) (conj Hs (conj Hp (conj Hg eq_refl)))). run_bind.
    rewrite (proj2 (expected_key_Ok cov path ctx key) Hk). run_bind. by apply signed_by_Ok.
Qed.

(** C25: a hash time-lock can be spent in two ways only.  Inline the spend
    succeeds exactly when the output holds a well-formed covenant, the first
    witness item is a selector that either reveals a preimage of 16 to 256
    bytes of its hash for the claim key, or asks for the refund key at or
    after the lock (in blocks or in median time, as the covenant says), and
    the second item authorizes the key so selected. *)
Theorem htlc_spend_iff entry path w ctx rotation registry c :
  cache_ok tx c →
  (validate_htlc_spend_q entry path w ctx rotation registry (c, None)).1 = Ok () ↔
  htlc_authorized entry path w ctx (default DefaultRotationProvider rotation)
    (default default_registry registry).
Proof.
  intros Hc. destruct (runs_htlc entry path w ctx rotation registry c Hc) as (c' & -> & _).
  apply htlc_spec_Ok.
Qed.

Lemma defers_htlc entry path w ctx rotation reg : item_fits w →
  defers tx reg [w] (λ _, True) (validate_htlc_spend_q entry path w ctx rotation (Some reg)).
Proof.
  intros Hw. unfold validate_htlc_spend_q. simpl default.
  do 4 (apply defers_lift_bind; intros ? _). by apply defers_sign.
Qed.
End spend.

(** ** Witness *)

Definition demo_preimage : bytes := replicate 16 x2a.
Definition demo_htlc : HtlcCovenant :=
  mkHtlcCovenant (toy_digest demo_preimage) LOCK_MODE_HEIGHT 100 demo_key_id (replicate 32 x00).
Definition demo_htlc_entry : UtxoEntry := mkUtxoEntry 70 COV_TYPE_HTLC (enc_htlc demo_htlc) 5 false.
Definition demo_selector : WitnessItem :=
  mkWitnessItem 0 demo_key_id (le_encode 1 0 ++ u16_le 16 ++ demo_preimage).
Definition demo_htlc_ctx : HtlcSpendContext := mkHtlcSpendContext 0 70 demo_chain 9 1000.

Lemma htlc_spend_iff_witness :
  (validate_htlc_spend_q (HS := toy_sha3) (HO := toy_openssl) demo_htlc_entry demo_selector demo_item
     demo_htlc_ctx None None (demo_cache, None)).1 = Ok () ∧
  ((validate_htlc_spend_q (HS := toy_sha3) (HO := toy_openssl) demo_htlc_entry demo_selector demo_item
     demo_htlc_ctx None None (demo_cache, None)).1 = Ok () ↔
   htlc_authorized (HS := toy_sha3) (HO := toy_openssl) demo_tx demo_htlc_entry demo_selector
     demo_item demo_htlc_ctx (default DefaultRotationProvider None) (default default_registry None)).
Proof.
  split; [vm_compute; reflexivity|].
  apply (htlc_spend_iff (HS := toy_sha3) (HO := toy_openssl) demo_tx). exact demo_cache_ok.
Defined.
