(* ===== verification/Stealth.v ===== *)
(** * One-time key outputs ([stealth.rs]) *)

From S2P Require Import Prelude Bytes Errors Constants Crypto WireRead CompactSize TxWire TxCodec Vault Suites Verify SigCache WorkerPool SigQueue Sighash Spend.

(* rust: stealth.rs 13-17 StealthCovenant *)
Record StealthCovenant : Type := mkStealthCovenant {
  st_ciphertext : bytes; st_one_time_key_id : bytes }.

(* rust: stealth.rs 19-40 parse_stealth_covenant_data *)
Definition parse_stealth_covenant_data (cov_data : bytes) : res StealthCovenant :=
  if negb (len cov_data =? MAX_STEALTH_COVENANT_DATA)
  then tx_err TxErrCovenantTypeInvalid "CORE_STEALTH covenant_data length mismatch" else
  if negb (ML_KEM_1024_CT_BYTES + 32 =? MAX_STEALTH_COVENANT_DATA)
  then tx_err TxErrParse "CORE_STEALTH constants mismatch" else
  let one_time_key_id := slice ML_KEM_1024_CT_BYTES MAX_STEALTH_COVENANT_DATA cov_data in
  Ok (mkStealthCovenant (slice 0 ML_KEM_1024_CT_BYTES cov_data) one_time_key_id).

(* rust: stealth.rs 119-138 stealth_suite_params *)
Definition stealth_suite_params (rotation : RotationProvider) (registry : SuiteRegistry)
    (suite_id block_height : Z) : res SuiteParams :=
  let native_spend := native_spend_suites rotation block_height in
  if negb (ns_contains native_spend suite_id)
  then tx_err TxErrSigAlgInvalid "CORE_STEALTH suite not in native spend set" else
  ok_or (sr_lookup registry suite_id)
    (mkTxError TxErrSigAlgInvalid "CORE_STEALTH suite not registered").

(* rust: stealth.rs 140-149 validate_stealth_witness_shape *)
Definition validate_stealth_witness_shape (w : WitnessItem) (params : SuiteParams) : res unit :=
  if negb (len (pubkey w) =? sp_pubkey_len params)
     || negb (len (signature w) =? sp_sig_len params + 1)
  then tx_err TxErrSigNoncanonical "non-canonical witness item lengths"
  else Ok ().

Section stealth.
  Context `{HS : Sha3} `{HO : OpenSsl}.

(* rust: stealth.rs 151-159 validate_stealth_key_binding *)
Definition validate_stealth_key_binding (w : WitnessItem) (cov : StealthCovenant) : res unit :=
  if negb (bool_decide (sha3_256 (pubkey w) = st_one_time_key_id cov))
  then tx_err TxErrSigInvalid "CORE_STEALTH key binding mismatch"
  else Ok ().

(* rust: stealth.rs 162-199 validate_stealth_spend_q *)
Definition validate_stealth_spend_q (entry : UtxoEntry) (w : WitnessItem)
    (input_index input_value : Z) (chain_id : bytes) (block_height : Z)
    (rotation : option RotationProvider) (registry : option SuiteRegistry) : spend unit :=
  let rp := default DefaultRotationProvider rotation in
  let reg := default default_registry registry in
  cov ← lift (parse_stealth_covenant_data (ue_covenant_data entry));
  params ← lift (stealth_suite_params rp reg (suite_id w) block_height);
  _ ← lift (validate_stealth_witness_shape w params);
  _ ← lift (validate_stealth_key_binding w cov);
  '(crypto_sig, sighash_type) ← lift (extract_crypto_sig_and_sighash w);
  digest ← on_cache (sighash_v1_digest_with_cache input_index input_value chain_id sighash_type);
  on_queue (queue_or_verify_signature (suite_id w) (pubkey w) crypto_sig digest reg
              (mkTxError TxErrSigInvalid "CORE_STEALTH signature invalid")).

(* rust: stealth.rs 93-117 validate_stealth_spend_at_height *)
Definition validate_stealth_spend_at_height (entry : UtxoEntry) (w : WitnessItem) (_tx : Tx)
    (input_index input_value : Z) (chain_id : bytes) (block_height : Z)
    (rotation : option RotationProvider) (registry : option SuiteRegistry) : cached unit := λ c,
  let '(r, (c, _)) := validate_stealth_spend_q entry w input_index input_value chain_id
                        block_height rotation registry (c, None) in (r, c).
(* rust: stealth.rs 65-87 validate_stealth_spend_with_cache *)
Definition validate_stealth_spend_with_cache (entry : UtxoEntry) (w : WitnessItem) (tx : Tx)
    (input_index input_value : Z) (chain_id : bytes) (block_height : Z) : cached unit :=
  validate_stealth_spend_at_height entry w tx input_index input_value chain_id block_height None None.
(* rust: stealth.rs 42-62 validate_stealth_spend *)
Definition validate_stealth_spend (entry : UtxoEntry) (w : WitnessItem) (tx : Tx)
    (input_index input_value : Z) (chain_id : bytes) (block_height : Z) : res unit :=
  cache ← prehash_cache_new tx;
  (validate_stealth_spend_with_cache entry w tx input_index input_value chain_id block_height cache).1.
End stealth.

Section spend.
Context `{HS : Sha3} `{HO : OpenSsl} (tx : Tx).

Lemma parse_stealth_Ok data c : parse_stealth_covenant_data data = Ok c ↔
  data = st_ciphertext c ++ st_one_time_key_id c
  ∧ len (st_ciphertext c) = ML_KEM_1024_CT_BYTES ∧ len (st_one_time_key_id c) = 32.
Proof.
  unfold parse_stealth_covenant_data, ML_KEM_1024_CT_BYTES, MAX_STEALTH_COVENANT_DATA. split.
  - intros H. inv_res. cbn [st_ciphertext st_one_time_key_id].
    rewrite <- slice_app_split, !slice_length by lia. split; [|lia].
    replace 1600 with (len data) by lia. by rewrite slice_all.
  - destruct c as [ct k]. cbn [st_ciphertext st_one_time_key_id]. intros (-> & Hc & Hk).
    rewrite length_app. do 2 decide_if. do 2 f_equal.
    + pose proof (slice_mid [] ct k 0 1568) as Hs. apply Hs; simpl; lia.
    + pose proof (slice_mid ct k [] 1568 1600) as Hs. rewrite app_nil_r in Hs. apply Hs; lia.
Qed.

Definition stealth_spec (entry : UtxoEntry) (w : WitnessItem) (idx v : Z) (chain_id : bytes)
    (height : Z) (rp : RotationProvider) (reg : SuiteRegistry) : res unit :=
  cov ← parse_stealth_covenant_data (ue_covenant_data entry);
  p ← stealth_suite_params rp reg (suite_id w) height;
  _ ← validate_stealth_witness_shape w p;
  _ ← validate_stealth_key_binding w cov;
  '(cs, t) ← extract_crypto_sig_and_sighash w;
  d ← sighash_spec tx idx v chain_id t;
  verify_task (Some reg) (mkSigCheckTask (suite_id w) (pubkey w) cs d
    (mkTxError TxErrSigInvalid "CORE_STEALTH signature invalid")).

Lemma runs_stealth entry w idx v chain_id height rotation registry :
  runs tx (validate_stealth_spend_q entry w idx v chain_id height rotation registry)
    (stealth_spec entry w idx v chain_id height (default DefaultRotationProvider rotation)
       (default default_registry registry)).
Proof.
  unfold validate_stealth_spend_q, stealth_spec.
  do 2 (apply runs_bind; [apply runs_lift|intros ? _]).
  do 2 (apply runs_bind; [apply runs_lift|intros _ _]). apply runs_sign.
Qed.

(** The covenant ends with the hash of the key the witness authorizes. *)
Definition stealth_authorized (entry : UtxoEntry) (w : WitnessItem) (idx v : Z) (chain_id : bytes)
    (height : Z) (rp : RotationProvider) (reg : SuiteRegistry) : Prop :=
  ∃ ct key, ue_covenant_data entry = ct ++ key ∧ len ct = ML_KEM_1024_CT_BYTES ∧ len key = 32
    ∧ authorized tx w key idx v chain_id height rp reg.

Lemma stealth_spec_Ok entry w idx v chain_id height rp reg :
  stealth_spec entry w idx v chain_id height rp reg = Ok () ↔
  stealth_authorized entry w idx v chain_id height rp reg.
Proof.
  unfold stealth_spec, stealth_authorized, authorized, suite_allowed. split.
  - intros H. apply bind_Ok in H as (cov & (Hd & Hct & Hk)%parse_stealth_Ok & H).
    apply bind_Ok in H as (p & Hp & H). apply bind_Ok in H as ([] & Hw & H).
    apply bind_Ok in H as ([] & Hb & H).
    unfold stealth_suite_params, validate_stealth_witness_shape, validate_stealth_key_binding in *.
    revert H. inv_res. intros H. rewrite negb_false_iff, bool_decide_eq_true in *.
    exists (st_ciphertext cov), (st_one_time_key_id cov). split_and!; try done.
    + exists p. split; [done|lia].
    + apply (signature_spec_Ok tx w _ idx v chain_id _ (mkTxError TxErrSigInvalid "")
        (mkTxError TxErrSigInvalid "CORE_STEALTH signature invalid")). unfold signature_spec. rewrite bool_decide_eq_true_2 by done.
      exact H.
  - intros (ct & key & Hd & Hct & Hk & (Hn & p & Hp & Hl1 & Hl2) & Hv).
    rewrite (proj2 (parse_stealth_Ok _ (mkStealthCovenant ct key))) by done. run_bind.
    unfold stealth_suite_params, validate_stealth_witness_shape, validate_stealth_key_binding.
    rewrite Hn, Hp. cbn [negb ok_or]. run_bind. decide_if. cbn [st_one_time_key_id].
    pose proof Hv as [Hkey _]. rewrite bool_decide_eq_true_2 by done. run_bind.
    apply (signature_spec_Ok tx w _ idx v chain_id _ (mkTxError TxErrSigInvalid "")
      (mkTxError TxErrSigInvalid "CORE_STEALTH signature invalid")) in Hv. unfold signature_spec in Hv.
    rewrite bool_decide_eq_true_2 in Hv by done. exact Hv.
Qed.

(** A stealth output is spent by its one-time key only: inline the spend
    succeeds exactly when the covenant is a ciphertext of the KEM followed
    by the hash of the witness key, and the witness authorizes that key. *)
Theorem stealth_spend_iff entry w idx v chain_id height rotation registry c :
  cache_ok tx c →
  (validate_stealth_spend_q entry w idx v chain_id height rotation registry (c, None)).1 = Ok () ↔
  stealth_authorized entry w idx v chain_id height (default DefaultRotationProvider rotation)
    (default default_registry registry).
Proof.
  intros Hc. destruct (runs_stealth entry w idx v chain_id height rotation registry c Hc)
    as (c' & -> & _). apply stealth_spec_Ok.
Qed.

Lemma defers_stealth entry w idx v chain_id height rotation reg : item_fits w →
  defers tx reg [w] (λ _, True)
    (validate_stealth_spend_q entry w idx v chain_id height rotation (Some reg)).
Proof.
  intros Hw. unfold validate_stealth_spend_q. simpl default.
  do 4 (apply defers_lift_bind; intros ? _). by apply defers_sign.
Qed.
End spend.

(** ** Witness *)

Definition demo_stealth_entry : UtxoEntry :=
  mkUtxoEntry 70 COV_TYPE_CORE_STEALTH (replicate 1568 x33 ++ demo_key_id) 5 false.

Lemma stealth_spend_iff_witness :
  (validate_stealth_spend_q (HS := toy_sha3) (HO := toy_openssl) demo_stealth_entry demo_item 0 70
     demo_chain 9 None None (demo_cache, None)).1 = Ok () ∧
  ((validate_stealth_spend_q (HS := toy_sha3) (HO := toy_openssl) demo_stealth_entry demo_item 0 70
     demo_chain 9 None None (demo_cache, None)).1 = Ok () ↔
   stealth_authorized (HS := toy_sha3) (HO := toy_openssl) demo_tx demo_stealth_entry demo_item 0 70
     demo_chain 9 (default DefaultRotationProvider None) (default default_registry None)).
Proof.
  split; [vm_compute; reflexivity|].
  apply (stealth_spend_iff (HS := toy_sha3) (HO := toy_openssl) demo_tx). exact demo_cache_ok.
Defined.
