(* ===== verification/CovenantGenesis.v ===== *)
(** * Covenants of created outputs ([covenant_genesis.rs], [simplicity_covenant.rs])

    What an output may hold when it is created: one set of rules per covenant
    type, and a cap on the outputs of one Simplicity program. *)

From S2P Require Import Prelude Bytes Errors Constants Crypto WireRead CompactSize TxWire TxCodec.
From S2P Require Import Vault Suites Verify SigCache WorkerPool SigQueue Sighash Spend Htlc Stealth.

(** ** Simplicity covenants *)

(* rust: simplicity_covenant.rs 24-36 validate_core_simplicity_deployment_active *)
Definition validate_core_simplicity_deployment_active (height : Z) (rotation : RotationProvider) :
    res unit :=
  if simplicity_active_at_height rotation height then Ok ()
  else tx_err TxErrCovenantTypeInvalid "CORE_SIMPLICITY deployment not active".

(* rust: simplicity_covenant.rs 42-47 reject_core_simplicity_spend *)
Definition reject_core_simplicity_spend : TxError :=
  mkTxError TxErrCovenantTypeInvalid "CORE_SIMPLICITY spend evaluation not enabled".

(* rust: simplicity_covenant.rs 51-59 reject_core_simplicity_spend_if_present *)
Definition reject_core_simplicity_spend_if_present (inputs : list UtxoEntry) : res unit :=
  if existsb (λ input, ue_covenant_type input =? COV_TYPE_CORE_SIMPLICITY) inputs
  then Err reject_core_simplicity_spend else Ok ().

(* rust: simplicity_covenant.rs 66-113 parse_core_simplicity_covenant_data *)
Definition parse_core_simplicity_covenant_data (value : Z) (covenant_data : bytes) :
    res (bytes * bytes) :=
  if value =? 0 then tx_err TxErrCovenantTypeInvalid "CORE_SIMPLICITY value must be > 0" else
  let r := reader_new covenant_data in
  '(program_cmr, r) ← map_err
     (λ _, mkTxError TxErrCovenantTypeInvalid "CORE_SIMPLICITY program_cmr parse failure")
     (read_bytes 32 r);
  '(state_len_u64, state_len_varint_bytes, r) ← map_err
     (λ _, mkTxError TxErrCovenantTypeInvalid "CORE_SIMPLICITY state_len parse failure")
     (read_compact_size r);
  if MAX_SIMPLICITY_STATE_BYTES <? state_len_u64
  then tx_err TxErrCovenantTypeInvalid "CORE_SIMPLICITY state_len too large" else
  let state_len := state_len_u64 in
  '(state, r) ← map_err
     (λ _, mkTxError TxErrCovenantTypeInvalid "CORE_SIMPLICITY state parse failure")
     (read_bytes state_len r);
  if negb (len covenant_data =? 32 + state_len_varint_bytes + state_len)
  then tx_err TxErrCovenantTypeInvalid "CORE_SIMPLICITY covenant_data length mismatch" else
  Ok (program_cmr, state).

(* rust: simplicity_covenant.rs 118-124 validate_core_simplicity_covenant_data *)
Definition validate_core_simplicity_covenant_data (value : Z) (covenant_data : bytes) : res unit :=
  _ ← parse_core_simplicity_covenant_data value covenant_data;
  Ok ().

(** ** Rules by covenant type *)

(** The result says whether the type is one of the function's. *)
(* rust: covenant_genesis.rs 31-76 validate_p2pk_anchor *)
Definition validate_p2pk_anchor (out : TxOutput) (block_height : Z) (rp : RotationProvider) :
    res bool :=
  if covenant_type out =? COV_TYPE_P2PK then
    if value out =? 0 then tx_err TxErrCovenantTypeInvalid "CORE_P2PK value must be > 0" else
    if negb (len (covenant_data out) =? MAX_P2PK_COVENANT_DATA)
    then tx_err TxErrCovenantTypeInvalid "invalid CORE_P2PK covenant_data length" else
    let suite_id := byte_at 0 (covenant_data out) in
    if negb (ns_contains (native_create_suites rp block_height) suite_id)
    then tx_err TxErrSigAlgInvalid "CORE_P2PK suite not in native create set" else
    Ok true
  else if covenant_type out =? COV_TYPE_ANCHOR then
    if negb (value out =? 0) then tx_err TxErrCovenantTypeInvalid "CORE_ANCHOR value must be 0" else
    let cov_len := len (covenant_data out) in
    if (cov_len =? 0) || (MAX_ANCHOR_PAYLOAD_SIZE <? cov_len)
    then tx_err TxErrCovenantTypeInvalid "invalid CORE_ANCHOR covenant_data length" else
    Ok true
  else Ok false.

(* rust: covenant_genesis.rs 78-110 validate_vault_multisig_htlc *)
Definition validate_vault_multisig_htlc (out : TxOutput) : res bool :=
  if covenant_type out =? COV_TYPE_VAULT then
    if value out =? 0 then tx_err TxErrVaultParamsInvalid "CORE_VAULT value must be > 0" else
    _ ← parse_vault_covenant_data (covenant_data out);
    Ok true
  else if covenant_type out =? COV_TYPE_MULTISIG then
    if value out =? 0 then tx_err TxErrCovenantTypeInvalid "CORE_MULTISIG value must be > 0" else
    _ ← parse_multisig_covenant_data (covenant_data out);
    Ok true
  else if covenant_type out =? COV_TYPE_HTLC then
    _ ← parse_htlc_covenant_data (covenant_data out);
    if value out =? 0 then tx_err TxErrCovenantTypeInvalid "CORE_HTLC value must be > 0" else
    Ok true
  else Ok false.

(* rust: covenant_genesis.rs 112-152 validate_stealth_da *)
Definition validate_stealth_da (out : TxOutput) (tx_kind : Z) : res bool :=
  if covenant_type out =? COV_TYPE_CORE_STEALTH then
    if value out =? 0 then tx_err TxErrCovenantTypeInvalid "CORE_STEALTH value must be > 0" else
    if MAX_COVENANT_DATA_PER_OUTPUT <? len (covenant_data out)
    then tx_err TxErrCovenantTypeInvalid
           "CORE_STEALTH covenant_data length exceeds MAX_COVENANT_DATA_PER_OUTPUT" else
    _ ← parse_stealth_covenant_data (covenant_data out);
    Ok true
  else if covenant_type out =? COV_TYPE_DA_COMMIT then
    if negb (tx_kind =? 0x01)
    then tx_err TxErrCovenantTypeInvalid "CORE_DA_COMMIT allowed only in tx_kind=0x01" else
    if negb (value out =? 0)
    then tx_err TxErrCovenantTypeInvalid "CORE_DA_COMMIT value must be 0" else
    if negb (len (covenant_data out) =? 32)
    then tx_err TxErrCovenantTypeInvalid "invalid CORE_DA_COMMIT covenant_data length" else
    Ok true
  else Ok false.

(** [first_chunk::<32>]. *)
Definition first_chunk_32 (b : bytes) : option bytes :=
  if 32 <=? len b then Some (take 32 b) else None.

(* rust: covenant_genesis.rs 154-171 validate_core_simplicity_genesis_output *)
Definition validate_core_simplicity_genesis_output (out : TxOutput) (block_height : Z)
    (rp : RotationProvider) : res bytes :=
  _ ← validate_core_simplicity_deployment_active block_height rp;
  _ ← validate_core_simplicity_covenant_data (value out) (covenant_data out);
  ok_or (first_chunk_32 (covenant_data out))
    (mkTxError TxErrCovenantTypeInvalid "CORE_SIMPLICITY program_cmr parse failure").

(** The closure over the outputs; it collects the program hashes. *)
(* rust: covenant_genesis.rs 176-202 validate_tx_covenants_genesis *)
Definition validate_output_genesis (tx_kind block_height : Z) (rp : RotationProvider)
    (simplicity_output_cmrs : list bytes) (out : TxOutput) : res (list bytes) :=
  let t := covenant_type out in
  if (t =? COV_TYPE_P2PK) || (t =? COV_TYPE_ANCHOR) then
    _ ← validate_p2pk_anchor out block_height rp; Ok simplicity_output_cmrs
  else if (t =? COV_TYPE_VAULT) || (t =? COV_TYPE_MULTISIG) || (t =? COV_TYPE_HTLC) then
    _ ← validate_vault_multisig_htlc out; Ok simplicity_output_cmrs
  else if (t =? COV_TYPE_CORE_STEALTH) || (t =? COV_TYPE_DA_COMMIT) then
    _ ← validate_stealth_da out tx_kind; Ok simplicity_output_cmrs
  else if t =? COV_TYPE_CORE_SIMPLICITY then
    program_cmr ← validate_core_simplicity_genesis_output out block_height rp;
    Ok (simplicity_output_cmrs ++ [program_cmr])
  else if t =? COV_TYPE_RESERVED_FUTURE then
    tx_err TxErrCovenantTypeInvalid "reserved covenant_type"
  else tx_err TxErrCovenantTypeInvalid "unknown covenant_type".

(** The body of the counting loop. *)
(* rust: covenant_genesis.rs 246-256 validate_simplicity_output_group_cap *)
Definition count_program (groups : gmap bytes Z) (program_cmr : bytes) : res (gmap bytes Z) :=
  let count := default 0 (groups !! program_cmr) + 1 in
  if SIMPLICITY_MAX_GROUP_OUTPUTS <? count
  then tx_err TxErrCovenantTypeInvalid "CORE_SIMPLICITY same-cmr output group exceeds limit"
  else Ok (<[program_cmr := count]> groups).

(* rust: covenant_genesis.rs 242-257 validate_simplicity_output_group_cap *)
Definition validate_simplicity_output_group_cap (simplicity_output_cmrs : list bytes) : res unit :=
  _ ← try_fold count_program ∅ simplicity_output_cmrs;
  Ok ().

(* rust: covenant_genesis.rs 23-204 validate_tx_covenants_genesis *)
Definition validate_tx_covenants_genesis (tx : Tx) (block_height : Z)
    (rotation : option RotationProvider) : res unit :=
  let rp := default DefaultRotationProvider rotation in
  simplicity_output_cmrs ←
    try_fold (validate_output_genesis (tx_kind tx) block_height rp) [] (outputs tx);
  validate_simplicity_output_group_cap simplicity_output_cmrs.

(* rust: covenant_genesis.rs 208-240 validate_tx_output_covenant_genesis *)
Definition validate_tx_output_covenant_genesis (tx_kind : Z) (out : TxOutput) (block_height : Z)
    (rotation : RotationProvider) : res (option bytes) :=
  let tx := mkTx 1 tx_kind 0 [] [out] 0 None None [] [] in
  _ ← validate_tx_covenants_genesis tx block_height (Some rotation);
  if negb (covenant_type out =? COV_TYPE_CORE_SIMPLICITY) then Ok None else
  Some <$> ok_or (first_chunk_32 (covenant_data out))
    (mkTxError TxErrCovenantTypeInvalid "CORE_SIMPLICITY program_cmr parse failure").

(** ** The Simplicity payload *)

Lemma parse_simplicity_Ok v data cmr st : len data ≤ isize_max →
  parse_core_simplicity_covenant_data v data = Ok (cmr, st) ↔
  v ≠ 0 ∧ len cmr = 32 ∧ len st ≤ MAX_SIMPLICITY_STATE_BYTES
  ∧ data = cmr ++ compact_size (len st) ++ st.
Proof.
  intros Hd. pose proof (reader_new_wf data Hd) as Hr.
  unfold parse_core_simplicity_covenant_data, MAX_SIMPLICITY_STATE_BYTES.
  pose proof (read_bytes_decodes 32 ltac:(lia)) as H32. split.
  - intros H. destruct (v =? 0) eqn:Hv0; [done|].
    apply bind_Ok in H as ([c r1] & Hc%map_err_Ok & H).
    apply (decodes_inv (read_bytes 32)) in Hc as (Hlc & Hpc & -> & Hr1); [|done].
    apply bind_Ok in H as ([[n m] r2] & Hn%map_err_Ok & H).
    apply (decodes_inv read_compact_size) in Hn as ([Hnu Hm] & Hpn & -> & Hr2); [|done]. simpl in *.
    destruct (512 <? n) eqn:Hn5; [done|].
    apply bind_Ok in H as ([s r3] & Hs%map_err_Ok & H).
    unfold is_u in Hnu. pose proof (read_bytes_decodes n ltac:(lia)) as Hdn.
    apply (decodes_inv (read_bytes n)) in Hs as (Hls & Hps & -> & Hr3); [|done].
    destruct (negb _) eqn:Hlen; [done|]. injection H as <- <-. unfold id in *.
    split_and!; [lia|done|lia|]. subst n.
    assert (c ++ compact_size (len s) ++ s `prefix_of` data) as Hp.
    { rewrite <- (rest_new data). apply prefix_join; [done|done|]. by apply prefix_join. }
    symmetry. apply prefix_length_eq; [done|]. rewrite !length_app. lia.
  - intros (Hv & Hc & Hs & ->). decide_if.
    assert (is_u 64 (len st)) as Hu by (unfold is_u; lia).
    pose proof (read_bytes_decodes (len st) ltac:(lia)) as Hds.
    assert (cmr ++ compact_size (len st) ++ st `prefix_of`
            rest (reader_new (cmr ++ compact_size (len st) ++ st))) as Hp by by rewrite rest_new.
    prefix_split Hp. unfold id in *.
    rewrite (decodes_run (read_bytes 32) _ cmr) by done. cbn [map_err]. run_bind.
    rewrite (decodes_run read_compact_size _ (len st, len (compact_size (len st))));
      [|auto 20 with rubin|by split|done]. cbn [map_err]. run_bind. cbn [fst snd]. decide_if.
    rewrite (decodes_run (read_bytes (len st)) _ st); [|auto 20 with rubin|done|done]. cbn [map_err]. run_bind.
    rewrite !length_app. by decide_if.
Qed.

(** ** What may be created *)

Definition output_allowed (tx_kind height : Z) (rp : RotationProvider) (o : TxOutput) : Prop :=
  let t := covenant_type o in let d := covenant_data o in
  (t = COV_TYPE_P2PK ∧ value o ≠ 0 ∧ len d = MAX_P2PK_COVENANT_DATA
   ∧ ns_contains (native_create_suites rp height) (byte_at 0 d) = true)
  ∨ (t = COV_TYPE_ANCHOR ∧ value o = 0 ∧ 1 ≤ len d ≤ MAX_ANCHOR_PAYLOAD_SIZE)
  ∨ (t = COV_TYPE_VAULT ∧ value o ≠ 0
     ∧ ∃ v, vault_shape v ∧ vault_whitelist_canonical v ∧ d = enc_vault v)
  ∨ (t = COV_TYPE_MULTISIG ∧ value o ≠ 0 ∧ ∃ c, multisig_valid c ∧ d = enc_multisig c)
  ∨ (t = COV_TYPE_HTLC ∧ value o ≠ 0 ∧ ∃ c, htlc_valid c ∧ d = enc_htlc c)
  ∨ (t = COV_TYPE_CORE_STEALTH ∧ value o ≠ 0 ∧ len d = MAX_STEALTH_COVENANT_DATA)
  ∨ (t = COV_TYPE_DA_COMMIT ∧ tx_kind = 1 ∧ value o = 0 ∧ len d = 32)
  ∨ (t = COV_TYPE_CORE_SIMPLICITY ∧ simplicity_active_at_height rp height = true ∧ value o ≠ 0
     ∧ ∃ cmr st, len cmr = 32 ∧ len st ≤ MAX_SIMPLICITY_STATE_BYTES
                 ∧ d = cmr ++ compact_size (len st) ++ st).

(** The program of a Simplicity output. *)
Definition output_program (o : TxOutput) : option bytes :=
  if covenant_type o =? COV_TYPE_CORE_SIMPLICITY then first_chunk_32 (covenant_data o) else None.
Definition occurrences (c : bytes) (l : list bytes) : Z := len (filter (λ x, x = c) l).

Ltac cov_consts :=
  unfold COV_TYPE_P2PK, COV_TYPE_ANCHOR, COV_TYPE_VAULT, COV_TYPE_MULTISIG, COV_TYPE_HTLC,
    COV_TYPE_CORE_STEALTH, COV_TYPE_DA_COMMIT, COV_TYPE_CORE_SIMPLICITY, COV_TYPE_RESERVED_FUTURE in *.

(** Per covenant type: the branch taken succeeds exactly on the type's rule. *)
Ltac other_type := intros; destruct_or!; destruct_and?; congruence || lia.

Lemma p2pk_anchor_Ok k o height rp :
  covenant_type o = COV_TYPE_P2PK ∨ covenant_type o = COV_TYPE_ANCHOR →
  (∃ b, validate_p2pk_anchor o height rp = Ok b) ↔ output_allowed k height rp o.
Proof.
  unfold validate_p2pk_anchor, output_allowed, MAX_P2PK_COVENANT_DATA, MAX_ANCHOR_PAYLOAD_SIZE.
  intros [-> | ->]; cov_consts; simpl Z.eqb; cbv iota.
  - destruct (value o =? 0) eqn:Hv; [split; [by intros [? ?]|other_type]|].
    destruct (negb (len _ =? 33)) eqn:Hl; [split; [by intros [? ?]|other_type]|].
    destruct (ns_contains _ _) eqn:Hn; simpl negb; cbv iota.
    + split; [|by eexists]. intros _. left. split_and!; [done|lia..|done].
    + split; [by intros [? ?]|other_type].
  - destruct (value o =? 0) eqn:Hv; simpl negb; cbv iota; [|split; [by intros [? ?]|other_type]].
    destruct (_ || _) eqn:Hl; (split; [try by intros [? ?]|try other_type; by eexists]).
    intros _. right; left. lia.
Qed.

Lemma vault_types_Ok k o height rp :
  covenant_type o = COV_TYPE_VAULT ∨ covenant_type o = COV_TYPE_MULTISIG
  ∨ covenant_type o = COV_TYPE_HTLC →
  (∃ b, validate_vault_multisig_htlc o = Ok b) ↔ output_allowed k height rp o.
Proof.
  unfold validate_vault_multisig_htlc, output_allowed.
  intros [-> | [-> | ->]]; cov_consts; simpl Z.eqb; cbv iota.
  - destruct (value o =? 0) eqn:Hv; [split; [by intros [? ?]|other_type]|]. split.
    + intros (b & (v & (Hs & Hc & Hd)%parse_vault_inner_sound & _)%bind_Ok).
      do 2 right; left. split_and!; [done|lia|]. exists v. auto.
    + intros H. assert (∃ v, vault_shape v ∧ vault_whitelist_canonical v ∧ covenant_data o = enc_vault v)
        as (v & Hs & Hc & ->) by (destruct_or!; destruct_and?; done || lia).
      unfold parse_vault_covenant_data. rewrite parse_vault_inner_complete by done. by eexists.
  - destruct (value o =? 0) eqn:Hv; [split; [by intros [? ?]|other_type]|]. split.
    + intros (b & (v & [Hs Hd]%parse_multisig_Ok & _)%bind_Ok).
      do 3 right; left. split_and!; [done|lia|]. exists v. auto.
    + intros H. assert (∃ c, multisig_valid c ∧ covenant_data o = enc_multisig c) as (c & Hc)
        by (destruct_or!; destruct_and?; done || lia).
      rewrite (proj2 (parse_multisig_Ok _ c) Hc). by eexists.
  - split.
    + intros (b & (v & [Hs Hd]%parse_htlc_canonical & Hv)%bind_Ok).
      do 4 right; left. destruct (value o =? 0) eqn:Hv0; [done|].
      split_and!; [done|lia|]. exists v. auto.
    + intros H. assert (value o ≠ 0 ∧ ∃ c, htlc_valid c ∧ covenant_data o = enc_htlc c) as (Hv & c & Hc)
        by (destruct_or!; destruct_and?; done || lia).
      rewrite (proj2 (parse_htlc_canonical _ c) Hc). run_bind. decide_if. by eexists.
Qed.

Lemma stealth_da_Ok k o height rp :
  covenant_type o = COV_TYPE_CORE_STEALTH ∨ covenant_type o = COV_TYPE_DA_COMMIT →
  (∃ b, validate_stealth_da o k = Ok b) ↔ output_allowed k height rp o.
Proof.
  unfold validate_stealth_da, output_allowed, parse_stealth_covenant_data,
    MAX_COVENANT_DATA_PER_OUTPUT, MAX_STEALTH_COVENANT_DATA, MAX_ANCHOR_PAYLOAD_SIZE.
  intros [-> | ->]; cov_consts; simpl Z.eqb; cbv iota.
  - destruct (value o =? 0) eqn:Hv; [split; [by intros [? ?]|other_type]|].
    destruct (65536 <? len (covenant_data o)) eqn:Hm; [split; [by intros [? ?]|other_type]|].
    destruct (negb (len _ =? 1600)) eqn:Hl; [split; [by intros [? ?]|other_type]|].
    split; [|by eexists]. intros _. do 5 right; left. lia.
  - destruct (k =? 1) eqn:Hk; simpl negb; cbv iota; [|split; [by intros [? ?]|other_type]].
    destruct (value o =? 0) eqn:Hv; simpl negb; cbv iota; [|split; [by intros [? ?]|other_type]].
    destruct (len _ =? 32) eqn:Hl; simpl negb; cbv iota; [|split; [by intros [? ?]|other_type]].
    split; [|by eexists]. intros _. do 6 right; left. lia.
Qed.

Lemma simplicity_output_Ok k o height rp c : len (covenant_data o) ≤ isize_max →
  covenant_type o = COV_TYPE_CORE_SIMPLICITY →
  validate_core_simplicity_genesis_output o height rp = Ok c ↔
  output_allowed k height rp o ∧ output_program o = Some c.
Proof.
  intros Hl Ht. unfold validate_core_simplicity_genesis_output, validate_core_simplicity_covenant_data,
    validate_core_simplicity_deployment_active, output_allowed, output_program.
  rewrite Ht. cov_consts. simpl Z.eqb. cbv iota. split.
  - intros H. apply bind_Ok in H as ([] & Ha & H). apply bind_Ok in H as ([] & Hp & H%ok_or_Ok).
    apply bind_Ok in Hp as ([cmr st] & (Hv & Hc & Hs & Hd)%parse_simplicity_Ok & _); [|done].
    split; [|done]. do 7 right. destruct (simplicity_active_at_height rp height); [|done].
    split_and!; [done..|]. by exists cmr, st.
  - intros [H Hc].
    assert (simplicity_active_at_height rp height = true ∧ value o ≠ 0 ∧ ∃ cmr st, len cmr = 32
      ∧ len st ≤ MAX_SIMPLICITY_STATE_BYTES ∧ covenant_data o = cmr ++ compact_size (len st) ++ st)
      as (Ha & Hv & cmr & st & Hd) by (destruct_or!; destruct_and?; done || lia).
    rewrite Ha, (proj2 (parse_simplicity_Ok (value o) (covenant_data o) cmr st Hl)) by tauto.
    run_bind. by rewrite Hc.
Qed.

Lemma output_genesis_Ok k height rp cmrs o cmrs' : len (covenant_data o) ≤ isize_max →
  validate_output_genesis k height rp cmrs o = Ok cmrs' ↔
  output_allowed k height rp o ∧ cmrs' = cmrs ++ option_list (output_program o).
Proof.
  intros Hl. unfold validate_output_genesis.
  assert (∀ (m : res bool), ((_ ← m; Ok cmrs) = Ok cmrs' ↔ (∃ b, m = Ok b) ∧ cmrs' = cmrs)) as Hm.
  { intros [b|e]; simpl; split; [by intros [= <-]; eauto|by intros [_ ->]|done|by intros [[? [=]] _]]. }
  assert (covenant_type o ≠ COV_TYPE_CORE_SIMPLICITY → output_program o = None) as Hnone.
  { unfold output_program. intros Hne. by rewrite (proj2 (Z.eqb_neq _ _) Hne). }
  destruct ((covenant_type o =? COV_TYPE_P2PK) || (covenant_type o =? COV_TYPE_ANCHOR)) eqn:H1.
  { rewrite Hm, (p2pk_anchor_Ok k) by lia. rewrite Hnone by (cov_consts; lia). simpl. by rewrite app_nil_r. }
  destruct ((covenant_type o =? COV_TYPE_VAULT) || (covenant_type o =? COV_TYPE_MULTISIG)
            || (covenant_type o =? COV_TYPE_HTLC)) eqn:H2.
  { rewrite Hm, (vault_types_Ok k o height rp) by lia. rewrite Hnone by (cov_consts; lia). simpl.
    by rewrite app_nil_r. }
  destruct ((covenant_type o =? COV_TYPE_CORE_STEALTH) || (covenant_type o =? COV_TYPE_DA_COMMIT)) eqn:H3.
  { rewrite Hm, (stealth_da_Ok k o height rp) by lia. rewrite Hnone by (cov_consts; lia). simpl.
    by rewrite app_nil_r. }
  destruct (covenant_type o =? COV_TYPE_CORE_SIMPLICITY) eqn:H4.
  { rewrite bind_Ok. split.
    - intros (c & [Ha Hp]%(simplicity_output_Ok k) & [= <-]); [|done|lia]. by rewrite Hp.
    - intros [Ha ->]. pose proof Ha as Hd. unfold output_allowed in Hd.
      destruct (output_program o) as [c|] eqn:Hp.
      + exists c. split; [|done]. apply (simplicity_output_Ok k); [done|lia|done].
      + exfalso. unfold output_program in Hp. rewrite H4 in Hp. unfold first_chunk_32 in Hp.
        assert (∃ cmr st, len cmr = 32 ∧ len st ≤ MAX_SIMPLICITY_STATE_BYTES
          ∧ covenant_data o = cmr ++ compact_size (len st) ++ st) as (cmr & st & Hc & _ & Hdd)
          by (cov_consts; destruct_or!; destruct_and?; done || lia). rewrite Hdd, length_app in Hp.
        case_match; [done|]. lia. }
  split; [by case_match|]. unfold output_allowed. intros [Ha _]. cov_consts. destruct_or!; lia.
Qed.

(** ** The cap on a program's outputs *)

Lemma occurrences_cons c x l :
  occurrences c (x :: l) = (if decide (x = c) then 1 else 0) + occurrences c l.
Proof. unfold occurrences. rewrite filter_cons. case_decide; simpl length; lia. Qed.

Lemma occurrences_notin c l : c ∉ l → occurrences c l = 0.
Proof.
  induction l as [|x l IH]; [done|]. intros [Hx Hl]%not_elem_of_cons.
  rewrite occurrences_cons, decide_False by congruence. by rewrite IH.
Qed.

Lemma count_programs_Ok l m :
  (∃ m', try_fold count_program m l = Ok m') ↔
  ∀ c, c ∈ l → default 0 (m !! c) + occurrences c l ≤ SIMPLICITY_MAX_GROUP_OUTPUTS.
Proof.
  revert m; induction l as [|x l IH]; intros m; cbn [try_fold].
  { split; [intros _ c Hc; by apply not_elem_of_nil in Hc|by eexists]. }
  destruct (count_program m x) as [m1|e] eqn:Hcp; unfold count_program in Hcp;
    destruct (SIMPLICITY_MAX_GROUP_OUTPUTS <? default 0 (m !! x) + 1) eqn:Hx; try done; simplify_eq.
  2: { split; [by intros [? ?]|]. intros Hc. specialize (Hc x ltac:(left)).
       rewrite occurrences_cons, decide_True in Hc by done. unfold occurrences in Hc. lia. }
  run_bind. rewrite IH. split.
  - intros H c Hc. rewrite occurrences_cons. case_decide as Hxc; [subst c|].
    + destruct (decide (x ∈ l)) as [Hin|Hin].
      * specialize (H x Hin). rewrite lookup_insert_eq in H. simpl in H. lia.
      * rewrite occurrences_notin by done. lia.
    + apply elem_of_cons in Hc as [->|Hc]; [done|]. specialize (H c Hc).
      rewrite lookup_insert_ne in H by done. lia.
  - intros H c Hc. specialize (H c ltac:(by right)). rewrite occurrences_cons in H.
    case_decide as Hxc; [subst c; rewrite lookup_insert_eq; simpl; lia|].
    rewrite lookup_insert_ne by done. lia.
Qed.

Lemma outputs_genesis_Ok k height rp outs cmrs cmrs' :
  Forall (λ o, len (covenant_data o) ≤ isize_max) outs →
  try_fold (validate_output_genesis k height rp) cmrs outs = Ok cmrs' ↔
  Forall (output_allowed k height rp) outs ∧ cmrs' = cmrs ++ omap output_program outs.
Proof.
  intros Hl. revert cmrs. induction Hl as [|o outs Ho Houts IH]; intros cmrs; cbn [try_fold].
  - simpl. rewrite app_nil_r. split; [intros [= <-]; auto|by intros [_ ->]].
  - rewrite bind_Ok. split.
    + intros (c1 & [Ha ->]%output_genesis_Ok & [HF ->]%IH); [|done]. split; [by constructor|].
      simpl. rewrite <- app_assoc. by destruct (output_program o).
    + intros [HF ->]. apply Forall_cons_1 in HF as [Ha HF].
      eexists. split; [by apply output_genesis_Ok|]. apply IH. split; [done|].
      rewrite <- app_assoc. simpl. by destruct (output_program o).
Qed.

Lemma covenants_genesis_Ok tx height rotation :
  Forall (λ o, len (covenant_data o) ≤ isize_max) (outputs tx) →
  validate_tx_covenants_genesis tx height rotation = Ok () ↔
  Forall (output_allowed (tx_kind tx) height (default DefaultRotationProvider rotation)) (outputs tx)
  ∧ ∀ c, c ∈ omap output_program (outputs tx) →
      occurrences c (omap output_program (outputs tx)) ≤ SIMPLICITY_MAX_GROUP_OUTPUTS.
Proof.
  intros Hl. unfold validate_tx_covenants_genesis, validate_simplicity_output_group_cap.
  pose proof (count_programs_Ok (omap output_program (outputs tx)) ∅) as Hc.
  setoid_rewrite lookup_empty in Hc. simpl in Hc. rewrite bind_Ok. split.
  - intros (cmrs & [HF ->]%outputs_genesis_Ok & H); [|done]. split; [done|]. apply Hc.
    apply bind_Ok in H as (m & Hm & _). by exists m.
  - intros [HF Hcap]. eexists. split; [by apply outputs_genesis_Ok|]. simpl app.
    apply Hc in Hcap as [m Hm]. by rewrite Hm.
Qed.

Lemma covenants_genesis_sound tx height rotation :
  Forall (λ o, len (covenant_data o) ≤ isize_max) (outputs tx) →
  validate_tx_covenants_genesis tx height rotation = Ok () →
  Forall (output_allowed (tx_kind tx) height (default DefaultRotationProvider rotation)) (outputs tx).
Proof. intros Hl H. by apply covenants_genesis_Ok in H as [? _]. Qed.

Lemma wire_outputs_len (t : Tx) : tx_valid t → Forall (λ o, len (covenant_data o) ≤ isize_max) (outputs t).
Proof.
  intros (_ & _ & (_ & HF) & _). eapply list.Forall_impl; [exact HF|]. intros o (_ & _ & Hl).
  change MAX_COVENANT_DATA_PER_OUTPUT with 65536 in Hl. unfold isize_max. lia.
Qed.

(** The outputs of a transaction at a height: each allowed, and no Simplicity
    program with too many of them. *)
Definition outputs_ok (height : Z) (rotation : option RotationProvider) (tx : Tx) : Prop :=
  Forall (output_allowed (tx_kind tx) height (default DefaultRotationProvider rotation)) (outputs tx)
  ∧ ∀ c, c ∈ omap output_program (outputs tx) →
      occurrences c (omap output_program (outputs tx)) ≤ SIMPLICITY_MAX_GROUP_OUTPUTS.

Lemma outputs_ok_Ok height rotation tx : tx_valid tx →
  validate_tx_covenants_genesis tx height rotation = Ok () ↔ outputs_ok height rotation tx.
Proof. intros Hv. apply covenants_genesis_Ok. by apply wire_outputs_len. Qed.

Lemma group_cap_Ok l :
  validate_simplicity_output_group_cap l = Ok () ↔
  ∀ c, c ∈ l → occurrences c l ≤ SIMPLICITY_MAX_GROUP_OUTPUTS.
Proof.
  unfold validate_simplicity_output_group_cap. pose proof (count_programs_Ok l ∅) as Hc.
  setoid_rewrite lookup_empty in Hc. simpl in Hc. rewrite <- Hc, bind_Ok. naive_solver.
Qed.

Lemma omap_single {A B} (f : A → option B) x : omap f [x] = option_list (f x).
Proof. simpl. by destruct (f x). Qed.

(** An output checked on its own. *)
Lemma single_output_genesis_Ok k o height rp c : len (covenant_data o) ≤ isize_max →
  validate_tx_output_covenant_genesis k o height rp = Ok c ↔
  output_allowed k height rp o ∧ c = output_program o.
Proof.
  intros Hl. unfold validate_tx_output_covenant_genesis. set (t := mkTx _ _ _ _ _ _ _ _ _ _).
  assert (validate_tx_covenants_genesis t height (Some rp) = Ok () ↔ output_allowed k height rp o) as Ht.
  { rewrite covenants_genesis_Ok by by repeat constructor. cbn [outputs t tx_kind default].
    rewrite Forall_singleton, omap_single. split; [by intros [? _]|]. intros Ha. split; [done|].
    intros c'. unfold occurrences. pose proof (length_filter (λ x, x = c') (option_list (output_program o))).
    unfold SIMPLICITY_MAX_GROUP_OUTPUTS. destruct (output_program o); simpl in *; intros; lia. }
  unfold output_program. rewrite bind_Ok. split.
  - intros ([] & Ha%Ht & H). split; [done|]. destruct (covenant_type o =? COV_TYPE_CORE_SIMPLICITY); simpl in H.
    + apply fmap_Ok in H as (x & Hx%ok_or_Ok & ->). done.
    + by injection H as <-.
  - intros [Ha ->]. exists (). rewrite Ht. split; [done|].
    destruct (covenant_type o =? COV_TYPE_CORE_SIMPLICITY) eqn:E; simpl; [|done].
    destruct (first_chunk_32 (covenant_data o)) eqn:Hf; [done|]. exfalso. revert Hf.
    unfold output_allowed in Ha. cov_consts.
    destruct_or!; try (destruct_and?; lia). destruct Ha as (_ & _ & _ & cmr & st & Hc & _ & Hd).
    unfold first_chunk_32. rewrite Hd, length_app. by replace (32 <=? _) with true by lia.
Qed.

(** C35: the outputs of a transaction are accepted at a height exactly when each
    obeys the rule of its covenant type - the suite is one for new outputs,
    anchors and data commitments carry no value and the others some, payloads
    are canonical, unassigned and reserved types are refused, Simplicity only
    once its deployment is active - and no Simplicity program owns more than
    eight of them. *)
Theorem covenants_genesis_iff tx height rotation :
  Forall (λ o, len (covenant_data o) ≤ isize_max) (outputs tx) →
  validate_tx_covenants_genesis tx height rotation = Ok () ↔
  Forall (output_allowed (tx_kind tx) height (default DefaultRotationProvider rotation)) (outputs tx)
  ∧ ∀ c, c ∈ omap output_program (outputs tx) →
      occurrences c (omap output_program (outputs tx)) ≤ SIMPLICITY_MAX_GROUP_OUTPUTS.
Proof. apply covenants_genesis_Ok. Qed.

(** ** Witness *)

Lemma covenants_genesis_iff_witness :
  validate_tx_covenants_genesis demo_tx 5 None = Ok () ∧
  (validate_tx_covenants_genesis demo_tx 5 None = Ok () ↔
   Forall (output_allowed (tx_kind demo_tx) 5 (default DefaultRotationProvider None)) (outputs demo_tx)
   ∧ ∀ c, c ∈ omap output_program (outputs demo_tx) →
       occurrences c (omap output_program (outputs demo_tx)) ≤ SIMPLICITY_MAX_GROUP_OUTPUTS).
Proof.
  split; [vm_compute; reflexivity|]. apply covenants_genesis_iff.
  repeat constructor. vm_compute. discriminate.
Defined.
