(* ===== verification/UtxoApply.v ===== *)
(** * Applying a transaction ([utxo_basic.rs])

    The application of a non-coinbase transaction to the map of unspent
    outputs, step by step as the code does it: inputs are resolved, each spend
    is authorized and removed, outputs are added, then the vault rules and the
    conservation of value are checked.  [UtxoApplyState] is the Rust state
    without the prehash cache and the queue, which are the state of the
    [spend] computations. *)

From S2P Require Import Prelude Bytes Errors Constants Crypto WireRead CompactSize TxWire TxCodec.
From S2P Require Import Vault Suites Verify SigCache WorkerPool SigQueue Sighash Spend Htlc Stealth CovenantGenesis.

Abbreviation UtxoMap := (gmap Outpoint UtxoEntry).

(* rust: utxo_basic.rs 40-47 UtxoApplySummary *)
Record UtxoApplySummary : Type := mkUtxoApplySummary { us_fee : Z; us_utxo_count : Z }.

#[export] Instance UtxoApplySummary_eq_dec : EqDecision UtxoApplySummary.
Proof. solve_decision. Defined.

(* rust: utxo_basic.rs 49-59 UtxoApplyImplContext *)
Record UtxoApplyImplContext : Type := mkUtxoApplyImplContext {
  cx_tx : Tx; cx_txid : bytes; cx_utxo_set : UtxoMap; cx_height : Z;
  cx_block_timestamp : Z; cx_block_mtp : Z; cx_chain_id : bytes;
  cx_rotation : option RotationProvider; cx_registry : option SuiteRegistry }.

(* rust: utxo_basic.rs 244-252 VaultSpendState *)
Record VaultSpendState : Type := mkVaultSpendState {
  vs_keys : list bytes; vs_threshold : Z; vs_witness_range : Z * Z; vs_input_index : Z;
  vs_input_value : Z; vs_owner_lock_id : bytes; vs_whitelist : list bytes }.

(* rust: utxo_basic.rs 225-242 UtxoApplyState *)
Record UtxoApplyState : Type := mkUtxoApplyState {
  as_work : UtxoMap; as_sum_in : Z; as_sum_in_vault : Z; as_sum_out : Z;
  as_vault_input_count : Z; as_creates_vault : bool; as_vault_spend : option VaultSpendState;
  as_witness_cursor : Z; as_input_lock_ids : list bytes; as_input_cov_types : list Z;
  as_seen_inputs : gset Outpoint; as_resolved_inputs : list UtxoEntry;
  as_resolved_witness_ranges : list (Z * Z); as_resolved_outpoints : list Outpoint }.

(** [usize] to the low 32 bits of [u32]. *)
Definition low_u32 (i : Z) : Z := Z.land i (Z.shiftr usize_max (Z.max 0 (64 - 32))).

(** [slice::get] of a range. *)
Definition get_range {A} (r : Z * Z) (l : list A) : option (list A) :=
  if (r.1 <=? r.2) && (r.2 <=? len l) then Some (slice r.1 r.2 l) else None.

(* rust: utxo_basic.rs 203-223 validate_non_coinbase_input_encoding *)
Definition validate_non_coinbase_input_encoding (input : TxInput) : res unit :=
  if (prev_vout input =? u32_max) && bool_decide (prev_txid input = replicate 32 x00)
  then tx_err TxErrParse "coinbase prevout encoding forbidden in non-coinbase" else
  if negb (bool_decide (script_sig input = []))
  then tx_err TxErrParse "script_sig must be empty under genesis covenant set" else
  if 0x7fffffff <? sequence input
  then tx_err TxErrSequenceInvalid "sequence exceeds 0x7fffffff" else
  Ok ().

(* rust: utxo_basic.rs 268-284 validate_apply_inputs *)
Definition validate_apply_inputs (ctx : UtxoApplyImplContext) : res unit :=
  let tx := cx_tx ctx in
  if tx_nonce tx =? 0
  then tx_err TxErrTxNonceInvalid "tx_nonce must be >= 1 for non-coinbase" else
  if bool_decide (inputs tx = [])
  then tx_err TxErrParse "non-coinbase must have at least one input" else
  validate_tx_covenants_genesis tx (cx_height ctx) (cx_rotation ctx).

(* rust: utxo_basic.rs 525-542 validate_input_availability *)
Definition validate_input_availability (entry : UtxoEntry) (height : Z) : res unit :=
  if (ue_covenant_type entry =? COV_TYPE_ANCHOR) || (ue_covenant_type entry =? COV_TYPE_DA_COMMIT)
  then tx_err TxErrMissingUtxo "attempt to spend non-spendable covenant" else
  if ue_created_by_coinbase entry
     && ((height <? ue_creation_height entry)
         || (height - ue_creation_height entry <? COINBASE_MATURITY))
  then tx_err TxErrCoinbaseImmature "coinbase immature" else
  Ok ().

(* rust: utxo_basic.rs 855-879 check_spend_covenant *)
Definition check_spend_covenant (covenant_type : Z) (covenant_data : bytes) : res unit :=
  if covenant_type =? COV_TYPE_P2PK then Ok ()
  else if covenant_type =? COV_TYPE_CORE_STEALTH then
    _ ← parse_stealth_covenant_data covenant_data; Ok ()
  else if covenant_type =? COV_TYPE_VAULT then
    _ ← parse_vault_covenant_data_for_spend covenant_data; Ok ()
  else if covenant_type =? COV_TYPE_MULTISIG then
    _ ← parse_multisig_covenant_data covenant_data; Ok ()
  else if covenant_type =? COV_TYPE_HTLC then
    _ ← parse_htlc_covenant_data covenant_data; Ok ()
  else tx_err TxErrCovenantTypeInvalid "unsupported covenant in basic apply".

(* rust: utxo_basic.rs 373-388 validate_input_covenant *)
Definition validate_input_covenant (s : UtxoApplyState) (entry : UtxoEntry) : res UtxoApplyState :=
  let count := if ue_covenant_type entry =? COV_TYPE_VAULT
               then as_vault_input_count s + 1 else as_vault_input_count s in
  if (ue_covenant_type entry =? COV_TYPE_VAULT) && (1 <? count)
  then tx_err TxErrVaultMultiInputForbidden "multiple CORE_VAULT inputs forbidden" else
  if ue_covenant_type entry =? COV_TYPE_CORE_SIMPLICITY then Err reject_core_simplicity_spend else
  _ ← check_spend_covenant (ue_covenant_type entry) (ue_covenant_data entry);
  Ok (mkUtxoApplyState (as_work s) (as_sum_in s) (as_sum_in_vault s) (as_sum_out s) count
        (as_creates_vault s) (as_vault_spend s) (as_witness_cursor s) (as_input_lock_ids s)
        (as_input_cov_types s) (as_seen_inputs s) (as_resolved_inputs s)
        (as_resolved_witness_ranges s) (as_resolved_outpoints s)).

(* rust: utxo_basic.rs 352-371 record_resolved_input *)
Definition record_resolved_input (s : UtxoApplyState) (tx : Tx) (entry : UtxoEntry) (op : Outpoint) :
    res UtxoApplyState :=
  slots ← witness_slots (ue_covenant_type entry) (ue_covenant_data entry);
  if slots =? 0 then tx_err TxErrParse "invalid witness slots" else
  if len (witness tx) <? as_witness_cursor s + slots
  then tx_err TxErrParse "witness underflow" else
  let assigned_range := (as_witness_cursor s, as_witness_cursor s + slots) in
  Ok (mkUtxoApplyState (as_work s) (as_sum_in s) (as_sum_in_vault s) (as_sum_out s)
        (as_vault_input_count s) (as_creates_vault s) (as_vault_spend s)
        (as_witness_cursor s + slots) (as_input_lock_ids s) (as_input_cov_types s)
        (as_seen_inputs s) (as_resolved_inputs s ++ [entry])
        (as_resolved_witness_ranges s ++ [assigned_range]) (as_resolved_outpoints s ++ [op])).

(* rust: utxo_basic.rs 326-350 resolve_input *)
Definition resolve_input (ctx : UtxoApplyImplContext) (s : UtxoApplyState) (input : TxInput) :
    res UtxoApplyState :=
  _ ← validate_non_coinbase_input_encoding input;
  let op := mkOutpoint (prev_txid input) (prev_vout input) in
  if bool_decide (op ∈ as_seen_inputs s)
  then tx_err TxErrParse "duplicate input outpoint" else
  let s := mkUtxoApplyState (as_work s) (as_sum_in s) (as_sum_in_vault s) (as_sum_out s)
             (as_vault_input_count s) (as_creates_vault s) (as_vault_spend s)
             (as_witness_cursor s) (as_input_lock_ids s) (as_input_cov_types s)
             ({[op]} ∪ as_seen_inputs s) (as_resolved_inputs s)
             (as_resolved_witness_ranges s) (as_resolved_outpoints s) in
  entry ← ok_or (as_work s !! op) (mkTxError TxErrMissingUtxo "utxo not found");
  _ ← validate_input_availability entry (cx_height ctx);
  s ← validate_input_covenant s entry;
  record_resolved_input s (cx_tx ctx) entry op.

(* rust: utxo_basic.rs 313-324 resolve_inputs *)
Definition resolve_inputs (ctx : UtxoApplyImplContext) (s : UtxoApplyState) : res UtxoApplyState :=
  s ← try_fold (resolve_input ctx) s (inputs (cx_tx ctx));
  if negb (as_witness_cursor s =? len (witness (cx_tx ctx)))
  then tx_err TxErrParse "witness_count mismatch" else Ok s.

(* rust: utxo_basic.rs 287-311 new *)
Definition utxo_apply_state_new (ctx : UtxoApplyImplContext) : UtxoApplyState :=
  mkUtxoApplyState (cx_utxo_set ctx) 0 0 0 0 false None 0 [] [] ∅ [] [] [].

(** The body of the loop. *)
(* rust: utxo_basic.rs 427-454 add_outputs *)
Definition add_output (ctx : UtxoApplyImplContext) (s : UtxoApplyState) (iout : Z * TxOutput) :
    res UtxoApplyState :=
  let '(i, out) := iout in
  sum_out ← ok_or (checked_add u128_max (as_sum_out s) (value out))
              (mkTxError TxErrParse "u128 overflow");
  let creates_vault := if covenant_type out =? COV_TYPE_VAULT then true else as_creates_vault s in
  let work :=
    if (covenant_type out =? COV_TYPE_ANCHOR) || (covenant_type out =? COV_TYPE_DA_COMMIT)
    then as_work s
    else
      let vout := low_u32 i in
      <[mkOutpoint (cx_txid ctx) vout :=
          mkUtxoEntry (value out) (covenant_type out) (covenant_data out) (cx_height ctx) false]>
        (as_work s) in
  Ok (mkUtxoApplyState work (as_sum_in s) (as_sum_in_vault s) sum_out
        (as_vault_input_count s) creates_vault (as_vault_spend s)
        (as_witness_cursor s) (as_input_lock_ids s) (as_input_cov_types s)
        (as_seen_inputs s) (as_resolved_inputs s)
        (as_resolved_witness_ranges s) (as_resolved_outpoints s)).
(** [enumerate]. *)
Definition enumerate {A} (l : list A) : list (Z * A) := imap (λ i a, (Z.of_nat i, a)) l.
(* rust: utxo_basic.rs 426-456 add_outputs *)
Definition add_outputs (ctx : UtxoApplyImplContext) (s : UtxoApplyState) : res UtxoApplyState :=
  try_fold (add_output ctx) s (enumerate (outputs (cx_tx ctx))).

(* rust: utxo_basic.rs 824-837 has_owner_authorized_input *)
Definition has_owner_authorized_input (input_lock_ids : list bytes) (input_cov_types : list Z)
    (owner_lock_id : bytes) : bool :=
  existsb (λ lt, bool_decide (lt.1 = owner_lock_id)
                 && ((lt.2 =? COV_TYPE_P2PK) || (lt.2 =? COV_TYPE_MULTISIG)))
    (zip input_lock_ids input_cov_types).

(* rust: utxo_basic.rs 839-841 has_owner_lock_input *)
Definition has_owner_lock_input (input_lock_ids : list bytes) (owner_lock_id : bytes) : bool :=
  bool_decide (owner_lock_id ∈ input_lock_ids).

(* rust: utxo_basic.rs 843-852 non_vault_inputs_owned_by *)
Definition non_vault_inputs_owned_by (input_lock_ids : list bytes) (input_cov_types : list Z)
    (owner_lock_id : bytes) : bool :=
  forallb (λ lt, (lt.2 =? COV_TYPE_VAULT) || bool_decide (lt.1 = owner_lock_id))
    (zip input_lock_ids input_cov_types).

(* rust: utxo_basic.rs 458-479 validate_vault_creation *)
Definition validate_vault_creation (ctx : UtxoApplyImplContext) (s : UtxoApplyState) : res unit :=
  if as_creates_vault s then
    try_for_each (λ out,
      if negb (covenant_type out =? COV_TYPE_VAULT) then Ok () else
      v ← parse_vault_covenant_data (covenant_data out);
      if negb (has_owner_authorized_input (as_input_lock_ids s) (as_input_cov_types s) (owner_lock_id v))
      then tx_err TxErrVaultOwnerAuthRequired
             "missing owner-authorized input for CORE_VAULT creation"
      else Ok ()) (outputs (cx_tx ctx))
  else Ok ().

(* rust: utxo_basic.rs 692-704 capture *)
Definition vault_capture (entry : UtxoEntry) (range : Z * Z) (input_index : Z) : res VaultSpendState :=
  v ← parse_vault_covenant_data_for_spend (ue_covenant_data entry);
  Ok (mkVaultSpendState (v_keys v) (v_threshold v) range input_index (ue_value entry)
        (owner_lock_id v) (whitelist v)).

(* rust: utxo_basic.rs 706-720 validate_owner_and_sponsor *)
Definition validate_owner_and_sponsor (vault : VaultSpendState) (locks : list bytes) (types : list Z) :
    res unit :=
  if negb (has_owner_lock_input locks (vs_owner_lock_id vault))
  then tx_err TxErrVaultOwnerAuthRequired
         "missing owner-authorized input for CORE_VAULT spend" else
  if negb (non_vault_inputs_owned_by locks types (vs_owner_lock_id vault))
  then tx_err TxErrVaultFeeSponsorForbidden
         "non-owner non-vault input forbidden in CORE_VAULT spend" else
  Ok ().

(* rust: utxo_basic.rs 722-732 validate_no_recursion *)
Definition validate_no_recursion (tx : Tx) : res unit :=
  try_for_each (λ out,
    if covenant_type out =? COV_TYPE_VAULT
    then tx_err TxErrVaultOutputNotWhitelisted "CORE_VAULT outputs forbidden in CORE_VAULT spend"
    else Ok ()) (outputs tx).

(* rust: utxo_basic.rs 502-522 finish *)
Definition apply_finish (s : UtxoApplyState) : res (UtxoMap * UtxoApplySummary) :=
  if as_sum_in s <? as_sum_out s
  then tx_err TxErrValueConservation "sum_out exceeds sum_in" else
  if (as_vault_input_count s =? 1) && (as_sum_out s <? as_sum_in_vault s)
  then tx_err TxErrValueConservation "CORE_VAULT value must not fund miner fee" else
  let fee := as_sum_in s - as_sum_out s in
  let summary := mkUtxoApplySummary fee (Z.of_nat (size (as_work s))) in
  Ok (as_work s, summary).

Section apply.
Context `{HS : Sha3} `{HO : OpenSsl}.

(* rust: utxo_basic.rs 761-782 validate_destinations *)
Definition validate_destinations (vault : VaultSpendState) (tx : Tx) : res unit :=
  try_for_each (λ out,
    if negb (covenant_type out =? COV_TYPE_P2PK) && negb (covenant_type out =? COV_TYPE_MULTISIG)
       && negb (covenant_type out =? COV_TYPE_HTLC)
    then tx_err TxErrVaultOutputNotWhitelisted
           "disallowed destination covenant_type for CORE_VAULT spend" else
    let desc := output_descriptor_bytes (covenant_type out) (covenant_data out) in
    let h := sha3_256 desc in
    if negb (hash_in_sorted_32 (vs_whitelist vault) h)
    then tx_err TxErrVaultOutputNotWhitelisted "output not whitelisted for CORE_VAULT" else
    Ok ()) (outputs tx).

(* rust: utxo_basic.rs 734-759 validate_signature *)
Definition validate_vault_signature (vault : VaultSpendState) (ctx : UtxoApplyImplContext) : spend unit :=
  ws ← lift (ok_or (get_range (vs_witness_range vault) (witness (cx_tx ctx)))
               (mkTxError TxErrParse "witness underflow"));
  validate_threshold_sig_spend_q (vs_keys vault) (vs_threshold vault) ws (vs_input_index vault)
    (vs_input_value vault) (cx_chain_id ctx) (cx_height ctx) "CORE_VAULT" (cx_rotation ctx)
    (cx_registry ctx).

(* rust: utxo_basic.rs 574-601 apply_p2pk_spend *)
Definition apply_p2pk_spend (ctx : UtxoApplyImplContext) (entry : UtxoEntry)
    (assigned : list WitnessItem) (input_index : Z) : spend unit :=
  match assigned with
  | [witness] =>
      validate_p2pk_spend_q entry witness input_index (ue_value entry) (cx_chain_id ctx)
        (cx_height ctx) (cx_rotation ctx) (cx_registry ctx)
  | _ => lift (tx_err TxErrParse "CORE_P2PK witness_slots must be 1")
  end.

(* rust: utxo_basic.rs 603-627 apply_multisig_spend *)
Definition apply_multisig_spend (ctx : UtxoApplyImplContext) (entry : UtxoEntry)
    (assigned : list WitnessItem) (input_index : Z) : spend unit :=
  m ← lift (parse_multisig_covenant_data (ue_covenant_data entry));
  validate_threshold_sig_spend_q (m_keys m) (m_threshold m) assigned input_index (ue_value entry)
    (cx_chain_id ctx) (cx_height ctx) "CORE_MULTISIG" (cx_rotation ctx) (cx_registry ctx).

(* rust: utxo_basic.rs 629-660 apply_htlc_spend *)
Definition apply_htlc_spend (ctx : UtxoApplyImplContext) (entry : UtxoEntry)
    (assigned : list WitnessItem) (input_index : Z) : spend unit :=
  match assigned with
  | [selector; witness] =>
      validate_htlc_spend_q entry selector witness
        (mkHtlcSpendContext input_index (ue_value entry) (cx_chain_id ctx) (cx_height ctx)
           (cx_block_mtp ctx)) (cx_rotation ctx) (cx_registry ctx)
  | _ => lift (tx_err TxErrParse "CORE_HTLC witness_slots must be 2")
  end.

(* rust: utxo_basic.rs 662-689 apply_stealth_spend *)
Definition apply_stealth_spend (ctx : UtxoApplyImplContext) (entry : UtxoEntry)
    (assigned : list WitnessItem) (input_index : Z) : spend unit :=
  match assigned with
  | [witness] =>
      validate_stealth_spend_q entry witness input_index (ue_value entry) (cx_chain_id ctx)
        (cx_height ctx) (cx_rotation ctx) (cx_registry ctx)
  | _ => lift (tx_err TxErrParse "CORE_STEALTH witness_slots must be 1")
  end.

(** The result is the vault context, replaced when the input is a vault. *)
(* rust: utxo_basic.rs 544-572 validate_resolved_spend *)
Definition validate_resolved_spend (ctx : UtxoApplyImplContext) (entry : UtxoEntry) (range : Z * Z)
    (input_index : Z) (vault : option VaultSpendState) : spend (option VaultSpendState) :=
  assigned ← lift (ok_or (get_range range (witness (cx_tx ctx)))
                     (mkTxError TxErrParse "witness underflow"));
  let input_index := low_u32 input_index in
  let t := ue_covenant_type entry in
  if t =? COV_TYPE_P2PK then _ ← apply_p2pk_spend ctx entry assigned input_index; mret vault
  else if t =? COV_TYPE_MULTISIG then
    _ ← apply_multisig_spend ctx entry assigned input_index; mret vault
  else if t =? COV_TYPE_VAULT then
    captured ← lift (vault_capture entry range input_index); mret (Some captured)
  else if t =? COV_TYPE_HTLC then _ ← apply_htlc_spend ctx entry assigned input_index; mret vault
  else if t =? COV_TYPE_CORE_STEALTH then
    _ ← apply_stealth_spend ctx entry assigned input_index; mret vault
  else mret vault.

(** The loop body: the index with the entry, its range and its outpoint. *)
(* rust: utxo_basic.rs 399-421 validate_spends *)
Definition validate_spend_step (ctx : UtxoApplyImplContext) (s : UtxoApplyState)
    (x : Z * (UtxoEntry * (Z * Z) * Outpoint)) : spend UtxoApplyState :=
  let '(input_index, (entry, range, op)) := x in
  vault_spend ← validate_resolved_spend ctx entry range input_index (as_vault_spend s);
  let desc := output_descriptor_bytes (ue_covenant_type entry) (ue_covenant_data entry) in
  let input_lock_ids := as_input_lock_ids s ++ [sha3_256 desc] in
  let input_cov_types := as_input_cov_types s ++ [ue_covenant_type entry] in
  sum_in ← lift (ok_or (checked_add u128_max (as_sum_in s) (ue_value entry))
                   (mkTxError TxErrParse "u128 overflow"));
  sum_in_vault ← lift
    (if ue_covenant_type entry =? COV_TYPE_VAULT
     then ok_or (checked_add u128_max (as_sum_in_vault s) (ue_value entry))
            (mkTxError TxErrParse "u128 overflow")
     else Ok (as_sum_in_vault s));
  mret (mkUtxoApplyState (delete op (as_work s)) sum_in sum_in_vault (as_sum_out s)
          (as_vault_input_count s) (as_creates_vault s) vault_spend
          (as_witness_cursor s) input_lock_ids input_cov_types
          (as_seen_inputs s) (as_resolved_inputs s)
          (as_resolved_witness_ranges s) (as_resolved_outpoints s)).

(* rust: utxo_basic.rs 390-424 validate_spends *)
Definition validate_spends (ctx : UtxoApplyImplContext) (s : UtxoApplyState) : spend UtxoApplyState :=
  st_fold (validate_spend_step ctx) s
    (enumerate (zip (zip (as_resolved_inputs s) (as_resolved_witness_ranges s))
                    (as_resolved_outpoints s))).

(* rust: utxo_basic.rs 481-500 validate_vault_spend *)
Definition validate_vault_spend (ctx : UtxoApplyImplContext) (s : UtxoApplyState) : spend unit :=
  if as_vault_input_count s =? 1 then
    vault ← lift (ok_or (as_vault_spend s)
                    (mkTxError TxErrParse "missing CORE_VAULT signature context"));
    _ ← lift (validate_owner_and_sponsor vault (as_input_lock_ids s) (as_input_cov_types s));
    _ ← lift (validate_no_recursion (cx_tx ctx));
    _ ← validate_vault_signature vault ctx;
    lift (validate_destinations vault (cx_tx ctx))
  else mret ().

(** The body after the state is built. *)
(* rust: utxo_basic.rs 260-265 apply_non_coinbase_tx_basic_update_with_mtp_and_suite_context_impl *)
Definition apply_body (ctx : UtxoApplyImplContext) : spend (UtxoMap * UtxoApplySummary) :=
  let state := utxo_apply_state_new ctx in
  state ← lift (resolve_inputs ctx state);
  state ← validate_spends ctx state;
  state ← lift (add_outputs ctx state);
  _ ← lift (validate_vault_creation ctx state);
  _ ← validate_vault_spend ctx state;
  lift (apply_finish state).

(* rust: utxo_basic.rs 254-266 apply_non_coinbase_tx_basic_update_with_mtp_and_suite_context_impl *)
Definition apply_impl (ctx : UtxoApplyImplContext) :
    ST (option SigCheckQueue) TxError (UtxoMap * UtxoApplySummary) := λ sig_queue,
  match (_ ← validate_apply_inputs ctx; prehash_cache_new (cx_tx ctx)) with
  | Err e => (Err e, sig_queue)
  | Ok sighash_cache =>
      let '(r, (_, sig_queue)) := apply_body ctx (sighash_cache, sig_queue) in (r, sig_queue)
  end.

(* rust: utxo_basic.rs 103-128 apply_non_coinbase_tx_basic_update_with_mtp_and_suite_context *)
Definition apply_update (tx : Tx) (txid : bytes) (utxo_set : UtxoMap)
    (height block_timestamp block_mtp : Z) (chain_id : bytes) (rotation : option RotationProvider)
    (registry : option SuiteRegistry) : res (UtxoMap * UtxoApplySummary) :=
  (apply_impl (mkUtxoApplyImplContext tx txid utxo_set height block_timestamp block_mtp chain_id
                 rotation registry) None).1.

(* rust: utxo_basic.rs 80-100 apply_non_coinbase_tx_basic_update_with_mtp *)
Definition apply_update_with_mtp (tx : Tx) (txid : bytes) (utxo_set : UtxoMap)
    (height block_timestamp block_mtp : Z) (chain_id : bytes) : res (UtxoMap * UtxoApplySummary) :=
  apply_update tx txid utxo_set height block_timestamp block_mtp chain_id None None.

(* rust: utxo_basic.rs 61-78 apply_non_coinbase_tx_basic_update *)
Definition apply_update_basic (tx : Tx) (txid : bytes) (utxo_set : UtxoMap)
    (height block_timestamp : Z) (chain_id : bytes) : res (UtxoMap * UtxoApplySummary) :=
  apply_update_with_mtp tx txid utxo_set height block_timestamp block_timestamp chain_id.

(* rust: utxo_basic.rs 803-822 apply_non_coinbase_tx_basic_with_mtp *)
Definition apply_basic_with_mtp (tx : Tx) (txid : bytes) (utxo_set : UtxoMap)
    (height block_timestamp block_mtp : Z) (chain_id : bytes) : res UtxoApplySummary :=
  '(_, summary) ← apply_update_with_mtp tx txid utxo_set height block_timestamp block_mtp chain_id;
  Ok summary.

(* rust: utxo_basic.rs 784-801 apply_non_coinbase_tx_basic *)
Definition apply_basic (tx : Tx) (txid : bytes) (utxo_set : UtxoMap)
    (height block_timestamp : Z) (chain_id : bytes) : res UtxoApplySummary :=
  apply_basic_with_mtp tx txid utxo_set height block_timestamp block_timestamp chain_id.

(* rust: utxo_basic.rs 131-162 apply_non_coinbase_tx_basic_update_with_mtp_and_suite_context_queued_sigchecks *)
Definition apply_queued_sigchecks (ctx : UtxoApplyImplContext) :
    ST SigCheckQueue TxError (UtxoMap * UtxoApplySummary) := λ sig_queue,
  let entry_mark := queue_mark sig_queue in
  let '(result, q) := apply_impl ctx (Some sig_queue) in
  let sig_queue := default sig_queue q in
  match result with
  | Err e => (Err e, rollback_to entry_mark sig_queue)
  | Ok x => (Ok x, sig_queue)
  end.

(** [None]: the events are not a complete execution of the flush. *)
(* rust: utxo_basic.rs 165-199 apply_non_coinbase_tx_basic_update_with_mtp_and_suite_context_deferred_sigchecks *)
Definition apply_deferred_sigchecks (parallelism : Z) (es : list (event (option SigCache)))
    (ctx : UtxoApplyImplContext) : option (res (UtxoMap * UtxoApplySummary)) :=
  let sig_queue := queue_new parallelism 1 in
  let queue_mark := queue_mark sig_queue in
  match apply_queued_sigchecks ctx sig_queue with
  | (Err err, _) => Some (Err err)
  | (Ok ok, sig_queue) =>
      '(r, _) ← flush parallelism es sig_queue;
      Some (_ ← r; Ok ok)
  end.
End apply.
