(* ===== verification/UtxoRules.v ===== *)
(** * The transaction rules of [UtxoApply.v] as properties

    What each phase of the application of a transaction requires and leaves:
    the resolution of inputs, the spends, the outputs, the vault rules.  The
    files [UtxoLedger.v] and [UtxoDeferred.v] put the phases together. *)

From S2P Require Import Prelude Bytes Errors Constants Crypto WireRead CompactSize TxWire TxCodec.
From S2P Require Import Vault Suites Verify SigCache WorkerPool SigQueue Sighash Spend Htlc Stealth CovenantGenesis UtxoApply.

(** The schedule and the registry in force: the code's defaults when the
    caller gives none. *)
Definition cx_rp (ctx : UtxoApplyImplContext) : RotationProvider :=
  default DefaultRotationProvider (cx_rotation ctx).
Definition cx_reg (ctx : UtxoApplyImplContext) : SuiteRegistry :=
  default default_registry (cx_registry ctx).

(** ** Resolving the inputs *)

Definition outpoint_of (i : TxInput) : Outpoint := mkOutpoint (prev_txid i) (prev_vout i).

Definition input_encoding_ok (i : TxInput) : Prop :=
  ¬ (prev_vout i = u32_max ∧ prev_txid i = replicate 32 x00)
  ∧ script_sig i = [] ∧ sequence i ≤ 0x7fffffff.

(** The covenants that can be spent, with a well-formed payload. *)
Definition covenant_spendable (e : UtxoEntry) : Prop :=
  let t := ue_covenant_type e in let d := ue_covenant_data e in
  t = COV_TYPE_P2PK
  ∨ (t = COV_TYPE_CORE_STEALTH ∧ len d = MAX_STEALTH_COVENANT_DATA)
  ∨ (t = COV_TYPE_VAULT ∧ ∃ v, vault_shape v ∧ d = enc_vault v)
  ∨ (t = COV_TYPE_MULTISIG ∧ ∃ c, multisig_valid c ∧ d = enc_multisig c)
  ∨ (t = COV_TYPE_HTLC ∧ ∃ c, htlc_valid c ∧ d = enc_htlc c).

Definition input_resolves (utxo : UtxoMap) (height : Z) (i : TxInput) (e : UtxoEntry) : Prop :=
  input_encoding_ok i ∧ utxo !! outpoint_of i = Some e
  ∧ (ue_created_by_coinbase e = true → ue_creation_height e + COINBASE_MATURITY ≤ height)
  ∧ covenant_spendable e.

(** The witness items an output asks for. *)
Definition slots_of (e : UtxoEntry) : Z :=
  match witness_slots (ue_covenant_type e) (ue_covenant_data e) with Ok n => n | Err _ => 0 end.
Definition is_vault (e : UtxoEntry) : bool := ue_covenant_type e =? COV_TYPE_VAULT.
Definition vault_count (es : list UtxoEntry) : Z := len (filter is_vault es).
Definition sum_slots (es : list UtxoEntry) : Z := foldr (λ e n, slots_of e + n) 0 es.

(** Consecutive ranges of the given sizes. *)
Fixpoint tile (c : Z) (ns : list Z) : list (Z * Z) :=
  match ns with [] => [] | n :: ns => (c, c + n) :: tile (c + n) ns end.

(** The state once the outputs [es] at [ops] are resolved. *)
Definition resolved (s : UtxoApplyState) (ops : list Outpoint) (es : list UtxoEntry) : UtxoApplyState :=
  mkUtxoApplyState (as_work s) (as_sum_in s) (as_sum_in_vault s) (as_sum_out s)
    (as_vault_input_count s + vault_count es) (as_creates_vault s) (as_vault_spend s)
    (as_witness_cursor s + sum_slots es) (as_input_lock_ids s) (as_input_cov_types s)
    (list_to_set ops ∪ as_seen_inputs s) (as_resolved_inputs s ++ es)
    (as_resolved_witness_ranges s ++ tile (as_witness_cursor s) (slots_of <$> es))
    (as_resolved_outpoints s ++ ops).

Lemma check_spend_covenant_Ok e :
  check_spend_covenant (ue_covenant_type e) (ue_covenant_data e) = Ok () ↔ covenant_spendable e.
Proof.
  unfold check_spend_covenant, covenant_spendable. cov_consts. split.
  - intros H. destruct (ue_covenant_type e =? 0) eqn:?; [left; lia|].
    destruct (ue_covenant_type e =? 261) eqn:?.
    { apply bind_Ok in H as (c & Hc & _). unfold parse_stealth_covenant_data in Hc. inv_res.
      right; left. split; [lia|]. lia. }
    destruct (ue_covenant_type e =? 257) eqn:?.
    { apply bind_Ok in H as (v & Hv & _). apply parse_vault_inner_sound in Hv as (? & _ & ?).
      do 2 right; left. split; [lia|]. eauto. }
    destruct (ue_covenant_type e =? 260) eqn:?.
    { apply bind_Ok in H as (v & Hv%parse_multisig_Ok & _). do 3 right; left. split; [lia|]. eauto. }
    destruct (ue_covenant_type e =? 256) eqn:?; [|done].
    apply bind_Ok in H as (v & Hv%parse_htlc_canonical & _). do 4 right. split; [lia|]. eauto.
  - intros [->|[[-> Hl]|[(-> & v & Hs & ->)|[(-> & c & Hc)|(-> & c & Hc)]]]]; simpl Z.eqb; cbv iota.
    + done.
    + unfold parse_stealth_covenant_data. by rewrite Hl.
    + unfold parse_vault_covenant_data_for_spend. by rewrite parse_vault_inner_complete.
    + by rewrite (proj2 (parse_multisig_Ok _ c) Hc).
    + by rewrite (proj2 (parse_htlc_canonical _ c) Hc).
Qed.

Lemma slots_spendable e : covenant_spendable e →
  witness_slots (ue_covenant_type e) (ue_covenant_data e) = Ok (slots_of e) ∧ 1 ≤ slots_of e.
Proof.
  intros H. unfold slots_of, witness_slots. unfold covenant_spendable in H. cov_consts.
  destruct H as [->|[[-> _]|[(-> & v & Hs & Hd)|[(-> & c & (Hc & Hk & Hl & Hh & _) & Hd)|(-> & _)]]]];
    simpl Z.eqb; cbv iota; [done|done| | |done].
  - split; [done|]. rewrite Hd. destruct Hs as (Ho & Ht & Hk & _). unfold MAX_VAULT_KEYS in *.
    unfold get_or_1, enc_vault. rewrite !le_encode_1'.
    rewrite lookup_app_r by lia. replace (33 - _)%nat with 1%nat by lia. simpl.
    rewrite byte_val_of_Z_small; unfold is_u; lia.
  - split; [done|]. rewrite Hd. unfold MAX_MULTISIG_KEYS in *. unfold get_or_1, enc_multisig.
    rewrite !le_encode_1'. simpl. rewrite byte_val_of_Z_small; unfold is_u; lia.
Qed.

Lemma sum_slots_nonneg es : Forall covenant_spendable es → 0 ≤ sum_slots es.
Proof. induction 1 as [|e es [_ ?]%slots_spendable _ IH]; simpl; lia. Qed.

Lemma input_encoding_Ok i : validate_non_coinbase_input_encoding i = Ok () ↔ input_encoding_ok i.
Proof.
  unfold validate_non_coinbase_input_encoding, input_encoding_ok.
  rewrite <- Z.eqb_eq. destruct (prev_vout i =? u32_max), (decide (prev_txid i = replicate 32 x00)) as [Hp|Hp];
    rewrite ?(bool_decide_eq_true_2 _ Hp), ?(bool_decide_eq_false_2 _ Hp); simpl;
    [split; [done|tauto]|..];
    (destruct (decide (script_sig i = [])) as [Hs|Hs];
       rewrite ?(bool_decide_eq_true_2 _ Hs), ?(bool_decide_eq_false_2 _ Hs); simpl; [|split; [done|tauto]]);
    case_match; split; try done; try lia; intros; split_and!; try done; try lia; intros [? ?]; done.
Qed.

Lemma availability_Ok e height : covenant_spendable e →
  validate_input_availability e height = Ok () ↔
  (ue_created_by_coinbase e = true → ue_creation_height e + COINBASE_MATURITY ≤ height).
Proof.
  intros H. unfold validate_input_availability. unfold covenant_spendable in H.
  assert ((ue_covenant_type e =? COV_TYPE_ANCHOR) || (ue_covenant_type e =? COV_TYPE_DA_COMMIT) = false)
    as -> by (cov_consts; destruct_or!; destruct_and?; lia).
  unfold COINBASE_MATURITY. destruct (ue_created_by_coinbase e); simpl; [|done].
  case_match; split; try done; intros; lia || (exfalso; lia).
Qed.

Lemma vault_count_cons e es :
  vault_count (e :: es) = (if is_vault e then 1 else 0) + vault_count es.
Proof.
  unfold vault_count. rewrite filter_cons. destruct (is_vault e); case_decide; try done; simpl length; lia.
Qed.
Lemma vault_count_nonneg es : 0 ≤ vault_count es.
Proof. unfold vault_count. lia. Qed.

Lemma resolved_one s op e : resolved s [op] [e] =
  mkUtxoApplyState (as_work s) (as_sum_in s) (as_sum_in_vault s) (as_sum_out s)
    (if is_vault e then as_vault_input_count s + 1 else as_vault_input_count s)
    (as_creates_vault s) (as_vault_spend s)
    (as_witness_cursor s + slots_of e) (as_input_lock_ids s) (as_input_cov_types s)
    ({[op]} ∪ as_seen_inputs s) (as_resolved_inputs s ++ [e])
    (as_resolved_witness_ranges s ++ [(as_witness_cursor s, as_witness_cursor s + slots_of e)])
    (as_resolved_outpoints s ++ [op]).
Proof.
  unfold resolved. rewrite vault_count_cons. f_equal; [|simpl; lia|simpl; by rewrite (right_id_L ∅ (∪))].
  unfold vault_count. simpl. destruct (is_vault e); lia.
Qed.

Lemma resolve_input_Ok ctx s i s' :
  resolve_input ctx s i = Ok s' ↔ ∃ e, input_resolves (as_work s) (cx_height ctx) i e
    ∧ outpoint_of i ∉ as_seen_inputs s ∧ (is_vault e = true → as_vault_input_count s ≤ 0)
    ∧ as_witness_cursor s + slots_of e ≤ len (witness (cx_tx ctx))
    ∧ s' = resolved s [outpoint_of i] [e].
Proof.
  unfold resolve_input. cbn [as_work as_seen_inputs]. fold (outpoint_of i). split.
  - intros H. apply bind_Ok in H as ([] & He & H). case_bool_decide as Hs; [done|].
    apply bind_Ok in H as (e & Hu%ok_or_Ok & H). apply bind_Ok in H as ([] & Ha & H).
    apply bind_Ok in H as (s1 & Hc & H). unfold validate_input_covenant in Hc. cbn in Hc.
    destruct (_ && _) eqn:Hv in Hc; [done|]. destruct (_ =? COV_TYPE_CORE_SIMPLICITY) in Hc; [done|].
    apply bind_Ok in Hc as ([] & Hc%check_spend_covenant_Ok & [= <-]).
    pose proof (slots_spendable e Hc) as [Hsl ?]. unfold record_resolved_input in H.
    rewrite Hsl in H. cbn in H. destruct (slots_of e =? 0); [done|].
    destruct (_ <? _) eqn:Hw in H; [done|]. injection H as <-.
    exists e. split_and!; [|done| |lia|by rewrite resolved_one].
    + split_and!; [by apply input_encoding_Ok|done|by apply availability_Ok|done].
    + unfold is_vault. intros Ht. rewrite Ht in Hv. simpl in Hv. lia.
  - intros (e & (He & Hu & Ha & Hc) & Hs & Hv & Hw & ->).
    pose proof (slots_spendable e Hc) as [Hsl ?].
    rewrite (proj2 (input_encoding_Ok i) He). run_bind. rewrite bool_decide_eq_false_2 by done.
    rewrite Hu. run_bind. cbn [ok_or]. run_bind. rewrite (proj2 (availability_Ok _ _ Hc) Ha). run_bind.
    unfold validate_input_covenant, record_resolved_input. rewrite Hsl. cbn.
    fold (is_vault e). replace (is_vault e && _) with false.
    2: { destruct (is_vault e); [|done]. simpl. specialize (Hv eq_refl). lia. }
    replace (ue_covenant_type e =? COV_TYPE_CORE_SIMPLICITY) with false.
    2: { unfold covenant_spendable in Hc. cov_consts. destruct_or!; destruct_and?; lia. }
    rewrite (proj2 (check_spend_covenant_Ok e) Hc). run_bind. cbn.
    do 2 decide_if. by rewrite resolved_one.
Qed.

Lemma resolved_nil s : resolved s [] [] = s.
Proof.
  unfold resolved, vault_count. simpl. rewrite !app_nil_r, !Z.add_0_r, (left_id_L ∅ (∪)). by destruct s.
Qed.

Lemma tile_app c ns1 ns2 : tile c (ns1 ++ ns2) = tile c ns1 ++ tile (foldl Z.add c ns1) ns2.
Proof. revert c; induction ns1 as [|n ns1 IH]; intros c; simpl; [done|]. by rewrite IH. Qed.

Lemma resolved_cons s op ops e es :
  resolved (resolved s [op] [e]) ops es = resolved s (op :: ops) (e :: es).
Proof.
  unfold resolved. cbn [as_work as_sum_in as_sum_in_vault as_sum_out as_vault_input_count
    as_creates_vault as_vault_spend as_witness_cursor as_input_lock_ids as_input_cov_types
    as_seen_inputs as_resolved_inputs as_resolved_witness_ranges as_resolved_outpoints].
  rewrite (vault_count_cons e es), (vault_count_cons e []). simpl. rewrite <- !app_assoc. simpl.
  f_equal; unfold vault_count; simpl; try lia; [set_solver|].
  f_equal. f_equal. f_equal. lia.
Qed.

(** The inputs resolve to the outputs [es]: each exists and can be spent, no
    outpoint is used twice, at most one is a vault, and the witness has enough
    items. *)
Lemma resolve_fold ctx s l s' :
  0 ≤ as_vault_input_count s ≤ 1 → as_witness_cursor s ≤ len (witness (cx_tx ctx)) →
  try_fold (resolve_input ctx) s l = Ok s' ↔
  ∃ es, Forall2 (input_resolves (as_work s) (cx_height ctx)) l es
    ∧ NoDup (outpoint_of <$> l) ∧ Forall (λ i, outpoint_of i ∉ as_seen_inputs s) l
    ∧ as_vault_input_count s + vault_count es ≤ 1
    ∧ as_witness_cursor s + sum_slots es ≤ len (witness (cx_tx ctx))
    ∧ s' = resolved s (outpoint_of <$> l) es.
Proof.
  revert s; induction l as [|i l IH]; intros s Hv Hw; cbn [try_fold].
  - split.
    + intros [= <-]. exists []. rewrite resolved_nil. split_and!; try constructor; unfold vault_count; simpl; lia || done.
    + intros (es & HF & _ & _ & _ & _ & ->). apply list.Forall2_nil_inv_l in HF as ->. simpl.
      by rewrite resolved_nil.
  - rewrite bind_Ok. split.
    + intros (s1 & (e & Hr & Hs & Hve & Hwe & ->)%resolve_input_Ok & H).
      pose proof (proj2 (proj2 (proj2 Hr))) as Hsp. apply slots_spendable in Hsp as [_ Hsl].
      apply IH in H as (es & HF & Hnd & Hseen & Hvc & Hwc & ->).
      * cbn [as_work as_seen_inputs as_vault_input_count as_witness_cursor resolved] in *.
        exists (e :: es). rewrite resolved_cons. rewrite (vault_count_cons e es).
        rewrite (vault_count_cons e []) in Hvc. unfold vault_count in Hvc at 1. simpl in *.
        split_and!; try done; try lia.
        -- by constructor.
        -- constructor; [|done]. intros (j & Hj & Hin)%list_elem_of_fmap.
           rewrite list.Forall_forall in Hseen. specialize (Hseen j Hin). apply Hseen.
           rewrite Hj. apply elem_of_union_l, elem_of_union_l, elem_of_singleton_2. done.
        -- constructor; [done|]. eapply list.Forall_impl; [exact Hseen|]. intros j Hj Hin. apply Hj.
           by apply elem_of_union_r.
      * rewrite resolved_one. cbn. destruct (is_vault e); [specialize (Hve eq_refl)|]; lia.
      * rewrite resolved_one. cbn. lia.
    + intros (es & HF & Hnd & Hseen & Hvc & Hwc & ->).
      apply list.Forall2_cons_inv_l in HF as (e & es' & Hr & HF & ->).
      rewrite fmap_cons in Hnd. apply list.NoDup_cons in Hnd as [Hni Hnd].
      apply Forall_cons_1 in Hseen as [Hsi Hseen]. rewrite vault_count_cons in Hvc.
      assert (0 ≤ sum_slots es').
      { apply sum_slots_nonneg. clear -HF. induction HF; constructor; [apply H|done]. }
      pose proof (vault_count_nonneg es'). pose proof (proj2 (proj2 (proj2 Hr))) as Hsp.
      apply slots_spendable in Hsp as [_ Hsl]. simpl in Hwc.
      exists (resolved s [outpoint_of i] [e]). split.
      * apply resolve_input_Ok. exists e. split_and!; [done|done| |lia|done].
        intros Hve. rewrite Hve in Hvc. lia.
      * apply IH; [rewrite resolved_one; cbn; destruct (is_vault e); lia|rewrite resolved_one; cbn; lia|].
        exists es'. rewrite resolved_cons. split_and!; [done|done| | | |done]; rewrite resolved_one; cbn.
        -- apply list.Forall_forall. intros j Hj. rewrite list.Forall_forall in Hseen.
           specialize (Hseen j Hj). intros [Heq%elem_of_singleton|?]%elem_of_union; [|done].
           apply Hni. rewrite <- Heq. by apply list_elem_of_fmap_2.
        -- destruct (is_vault e); lia.
        -- lia.
Qed.

(** The witness of a transaction, split among its inputs in order. *)
Definition witness_split (ws : list WitnessItem) (es : list UtxoEntry) (wss : list (list WitnessItem)) : Prop :=
  ws = mjoin wss ∧ Forall2 (λ e w, len w = slots_of e) es wss.

Definition inputs_resolve (utxo : UtxoMap) (height : Z) (tx : Tx) (es : list UtxoEntry) : Prop :=
  Forall2 (input_resolves utxo height) (inputs tx) es ∧ NoDup (outpoint_of <$> inputs tx)
  ∧ vault_count es ≤ 1.

Lemma witness_split_sum ws es wss : witness_split ws es wss → len ws = sum_slots es.
Proof.
  intros [-> HF]. induction HF as [|e w es wss He HF IH]; [done|].
  change (mjoin (w :: wss)) with (w ++ mjoin wss). rewrite length_app. simpl. lia.
Qed.

Lemma witness_split_exists ws es : Forall covenant_spendable es → len ws = sum_slots es →
  ∃ wss, witness_split ws es wss.
Proof.
  intros Hes. revert ws. induction Hes as [|e es He Hes IH]; intros ws Hl; simpl in Hl.
  - exists []. split; [by apply len_0_nil|constructor].
  - apply slots_spendable in He as [_ ?]. pose proof (sum_slots_nonneg es Hes).
    destruct (IH (drop (Z.to_nat (slots_of e)) ws)) as (wss & Hw & HF); [rewrite length_drop; lia|].
    exists (take (Z.to_nat (slots_of e)) ws :: wss). split.
    + change (ws = take (Z.to_nat (slots_of e)) ws ++ mjoin wss). by rewrite <- Hw, take_drop.
    + constructor; [|done]. rewrite length_take. lia.
Qed.

Lemma resolves_spendable utxo height l es :
  Forall2 (input_resolves utxo height) l es → Forall covenant_spendable es.
Proof. induction 1 as [|i e l es (_ & _ & _ & ?)]; by constructor. Qed.

Lemma resolve_inputs_Ok ctx s' :
  resolve_inputs ctx (utxo_apply_state_new ctx) = Ok s' ↔
  ∃ es wss, inputs_resolve (cx_utxo_set ctx) (cx_height ctx) (cx_tx ctx) es
    ∧ witness_split (witness (cx_tx ctx)) es wss
    ∧ s' = resolved (utxo_apply_state_new ctx) (outpoint_of <$> inputs (cx_tx ctx)) es.
Proof.
  unfold resolve_inputs, inputs_resolve. rewrite bind_Ok.
  setoid_rewrite resolve_fold; [|simpl; lia|simpl; lia]. split.
  - intros (s1 & (es & HF & Hnd & _ & Hv & _ & ->) & H). simpl in *.
    destruct (negb _) eqn:Hw in H; [done|]. injection H as <-.
    destruct (witness_split_exists (witness (cx_tx ctx)) es) as (wss & Hs);
      [by eapply resolves_spendable|lia|]. by exists es, wss.
  - intros (es & wss & (HF & Hnd & Hv) & Hs%witness_split_sum & ->).
    eexists. split.
    + exists es. split_and!; [done|done|by apply list.Forall_forall|done|simpl; lia|done].
    + simpl. decide_if. done.
Qed.

(** ** A transaction to try the rules on *)

Definition spend_tx : Tx :=
  mkTx 1 0 5 [mkTxInput (replicate 32 x07) 1 [] 0] [mkTxOutput 90 0 (x01 :: replicate 32 x09)] 0
    None None [demo_item] [].
Definition spend_utxo : UtxoMap :=
  {[ mkOutpoint (replicate 32 x07) 1 := mkUtxoEntry 100 COV_TYPE_P2PK (x01 :: demo_key_id) 5 true;
     mkOutpoint (replicate 32 x08) 0 := mkUtxoEntry 40 COV_TYPE_P2PK (x01 :: demo_chain) 5 false ]}.
Definition spend_ctx : UtxoApplyImplContext :=
  mkUtxoApplyImplContext spend_tx (replicate 32 x0b) spend_utxo 500 0 0 demo_chain None None.

Lemma spend_tx_valid : tx_valid spend_tx.
Proof.
  set (b := match marshal_tx spend_tx with Ok b => b | Err _ => [] end).
  refine (proj1 (proj1 (parse_tx_without_hashes_Ok b spend_tx 104 7333 _) _)); by vm_compute.
Qed.
