(* ===== verification/UtxoDeferred.v ===== *)
(** * Applying a transaction with deferred signatures

    The three modes of [utxo_basic.rs] - signatures checked inline, queued for
    a caller, or queued and flushed on the spot - reach the same verdict. *)

From S2P Require Import Prelude Bytes Errors Constants Crypto WireRead CompactSize TxWire TxCodec.
From S2P Require Import Vault Suites Verify SigCache WorkerPool SigQueue Sighash Spend Htlc Stealth CovenantGenesis UtxoApply UtxoRules.

(** ** Ranges of the witness *)

Lemma get_range_Some {A} r (l k : list A) : get_range r l = Some k → ∃ pre post, l = pre ++ k ++ post.
Proof.
  unfold get_range, slice. case_match; [|done]. intros [= <-].
  exists (take (Z.to_nat r.1) l), (drop (Z.to_nat (r.2 - r.1)) (drop (Z.to_nat r.1) l)).
  by rewrite !take_drop.
Qed.

Lemma get_range_mid {A} (pre k post : list A) c n : c = len pre → n = len k →
  get_range (c, c + n) (pre ++ k ++ post) = Some k.
Proof.
  intros -> ->. unfold get_range. cbn [fst snd]. rewrite !length_app.
  replace (_ && _) with true by lia. f_equal. apply slice_mid; lia.
Qed.

Lemma get_ranges_tile pre es wss c : c = len pre →
  Forall2 (λ e (w : list WitnessItem), len w = slots_of e) es wss →
  (λ r, default [] (get_range r (pre ++ mjoin wss))) <$> tile c (slots_of <$> es) = wss.
Proof.
  intros Hc HF. revert pre c Hc. induction HF as [|e w es wss He HF IH]; intros pre c Hc; [done|].
  change (mjoin (w :: wss)) with (w ++ mjoin wss).
  change (slots_of <$> e :: es) with (slots_of e :: (slots_of <$> es)). cbn [tile].
  rewrite !fmap_cons. f_equal; [by rewrite get_range_mid|].
  rewrite app_assoc. apply IH. rewrite length_app. lia.
Qed.

Lemma fmap_enumerate {A B} (f : A → B) (l : list A) : (λ x, f x.2) <$> enumerate l = f <$> l.
Proof. unfold enumerate. rewrite fmap_imap. apply imap_const. Qed.

Lemma tile_length c ns : length (tile c ns) = length ns.
Proof. revert c; induction ns; intros; simpl; auto. Qed.

Lemma fmap_zip_mid {A B C D} (f : B → D) (l1 : list A) (l2 : list B) (l3 : list C) :
  length l1 = length l2 → length l3 = length l2 → (λ x, f x.1.2) <$> zip (zip l1 l2) l3 = f <$> l2.
Proof.
  revert l1 l3; induction l2 as [|b l2 IH]; intros [|a l1] [|c l3]; try done; intros [= H1] [= H3].
  change (f b :: ((λ x, f x.1.2) <$> zip (zip l1 l2) l3) = f b :: (f <$> l2)). by rewrite IH.
Qed.

(** The loop over the spends of resolved inputs visits each output with its
    part of the witness. *)
Definition spend_loop (s : UtxoApplyState) : list (Z * (UtxoEntry * (Z * Z) * Outpoint)) :=
  enumerate (zip (zip (as_resolved_inputs s) (as_resolved_witness_ranges s)) (as_resolved_outpoints s)).
Definition items_at (ws : list WitnessItem) (x : Z * (UtxoEntry * (Z * Z) * Outpoint)) : list WitnessItem :=
  default [] (get_range x.2.1.2 ws).

Lemma spend_loop_items ctx es wss :
  inputs_resolve (cx_utxo_set ctx) (cx_height ctx) (cx_tx ctx) es →
  witness_split (witness (cx_tx ctx)) es wss →
  mjoin (items_at (witness (cx_tx ctx)) <$>
         spend_loop (resolved (utxo_apply_state_new ctx) (outpoint_of <$> inputs (cx_tx ctx)) es))
  = witness (cx_tx ctx).
Proof.
  intros (HF & _) [Hw Hs]. unfold spend_loop, items_at. simpl. apply Forall2_length in HF.
  rewrite (fmap_enumerate (λ x, default [] (get_range x.1.2 (witness (cx_tx ctx))))).
  rewrite (fmap_zip_mid (λ r, default [] (get_range r (witness (cx_tx ctx)))))
    by (rewrite tile_length, !length_fmap; done).
  rewrite Hw. f_equal. by apply (get_ranges_tile []).
Qed.

Lemma items_at_fits ws x : Forall item_fits ws → Forall item_fits (items_at ws x).
Proof.
  intros Hws. unfold items_at. destruct (get_range _ _) as [k|] eqn:Hk; [|constructor].
  apply get_range_Some in Hk as (pre & post & ->). apply Forall_app in Hws as [_ [? _]%Forall_app]. done.
Qed.

Section deferred.
Context `{HS : Sha3} `{HO : OpenSsl} (ctx : UtxoApplyImplContext).
Abbreviation tx := (cx_tx ctx).
Abbreviation defers := (defers tx (cx_reg ctx)).
Context (Hfits : Forall item_fits (witness (cx_tx ctx))).

(** A spend with the default registry is the one with it given. *)
Lemma defers_spend entry ws range idx vault :
  Forall item_fits ws → get_range range (witness tx) = Some ws →
  defers ws (λ _, True) (validate_resolved_spend ctx entry range idx vault).
Proof.
  intros Hws Hr. unfold validate_resolved_spend. rewrite Hr. simpl ok_or.
  apply defers_lift_bind. intros ? [= <-].
  assert (∀ o, (∀ m : spend unit, m = o → defers ws (λ _, True) m) →
    defers ws (λ _, True) (_ ← o; mret vault)) as Hthen.
  { intros o Ho. eapply defers_post; [by apply Ho|]. intros; by apply defers_ret. }
  assert (cx_registry ctx = Some (cx_reg ctx) ∨ cx_registry ctx = None ∧ (cx_reg ctx) = default_registry) as Hreg.
  { unfold cx_reg. destruct (cx_registry ctx); auto. }
  assert (∀ f : option SuiteRegistry → spend unit, f None = f (Some default_registry) →
    defers ws (λ _, True) (f (Some (cx_reg ctx))) → defers ws (λ _, True) (f (cx_registry ctx))) as Hf.
  { intros f Hf Hd. destruct Hreg as [->|[Hn Hc]]; [done|]. by rewrite Hn, Hf, <- Hc. }
  repeat match goal with |- context [if ?b then _ else _] => destruct b end;
    try (apply Hthen; intros m ->); [..|by apply defers_ret].
  - unfold apply_p2pk_spend. destruct ws as [|w [|? ?]]; try by apply defers_lift.
    apply (Hf (validate_p2pk_spend_q _ _ _ _ _ _ _)); [done|]. apply defers_p2pk. by inversion Hws.
  - unfold apply_multisig_spend. apply defers_lift_bind. intros m _.
    apply (Hf (validate_threshold_sig_spend_q _ _ _ _ _ _ _ _ _)); [done|]. by apply defers_threshold.
  - apply defers_lift_bind. intros; by apply defers_ret.
  - unfold apply_htlc_spend. destruct ws as [|sel [|w [|? ?]]]; try by apply defers_lift.
    apply (Hf (validate_htlc_spend_q _ _ _ _ _)); [done|]. apply (defers_weaken _ _ [sel] [w] []).
    apply defers_htlc. by apply Forall_cons_1 in Hws as [_ [? _]%Forall_cons_1].
  - unfold apply_stealth_spend. destruct ws as [|w [|? ?]]; try by apply defers_lift.
    apply (Hf (validate_stealth_spend_q _ _ _ _ _ _ _)); [done|]. apply defers_stealth. by inversion Hws.
Qed.

Lemma defers_spend_step s x :
  defers (items_at (witness tx) x) (λ _, True) (validate_spend_step ctx s x).
Proof.
  destruct x as (idx & (entry & range) & op). unfold validate_spend_step.
  eapply (defers_post _ _ _ (λ _, True)).
  - unfold items_at. cbn [fst snd]. destruct (get_range range (witness tx)) as [ws|] eqn:Hr.
    + apply defers_spend; [|done]. apply get_range_Some in Hr as (pre & post & Hr).
      rewrite Hr in Hfits. by apply Forall_app in Hfits as [_ [? _]%Forall_app].
    + unfold validate_resolved_spend. rewrite Hr. apply defers_lift_bind. by intros ? [=].
  - intros v _. do 2 (apply defers_lift_bind; intros ? _). by apply defers_ret.
Qed.

Lemma defers_vault_spend s : defers (witness tx) (λ _, True) (validate_vault_spend ctx s).
Proof.
  unfold validate_vault_spend. case_match; [|by apply defers_ret].
  do 3 (apply defers_lift_bind; intros ? _).
  eapply (defers_post _ _ _ (λ _, True)); [|intros; by apply defers_lift].
  unfold validate_vault_signature. apply defers_lift_bind. intros ws Hr%ok_or_Ok.
  apply get_range_Some in Hr as (pre & post & Hr). rewrite Hr. apply defers_weaken.
  assert (Forall item_fits ws).
  { rewrite Hr in Hfits. by apply Forall_app in Hfits as [_ [? _]%Forall_app]. }
  unfold cx_reg. destruct (cx_registry ctx) as [reg|]; simpl.
  - by apply defers_threshold.
  - by apply (defers_threshold tx default_registry).
Qed.

(** Each witness item is queued at most twice: for its input, and again for
    the vault. *)
Lemma defers_body : defers (witness tx ++ witness tx) (λ _, True) (apply_body ctx).
Proof.
  unfold apply_body. apply defers_lift_bind. intros s (es & wss & Hr & Hw & ->)%resolve_inputs_Ok.
  eapply (defers_bind _ _ _ _ (λ _, True)).
  - rewrite <- (spend_loop_items ctx es wss Hr Hw) at 1. unfold validate_spends. fold (spend_loop
      (resolved (utxo_apply_state_new ctx) (outpoint_of <$> inputs tx) es)).
    apply defers_fold; [|done]. intros s x _ _. apply defers_spend_step.
  - intros s _. do 2 (apply defers_lift_bind; intros ? _).
    eapply (defers_post _ _ _ (λ _, True)); [apply defers_vault_spend|].
    intros; by apply defers_lift.
Qed.
End deferred.

(** ** The wire limits leave room in the queue *)

Lemma enc_witness_bound w : len (pubkey w) + len (signature w) ≤ len (enc_witness w).
Proof. unfold enc_witness. rewrite !length_app. lia. Qed.

Lemma witness_bytes_bound ws :
  items_bytes ws ≤ 34 * len ws + len (concat_map enc_witness ws).
Proof.
  induction ws as [|w ws IH]; [done|]. pose proof (enc_witness_bound w).
  rewrite concat_map_cons, length_app, items_bytes_cons. rewrite length_cons. lia.
Qed.

Lemma witness_item_bound ws w : w ∈ ws → len (enc_witness w) ≤ len (concat_map enc_witness ws).
Proof.
  induction 1 as [w ws|w v ws Hw IH]; rewrite concat_map_cons, length_app; lia.
Qed.

Lemma wire_witness_fits tx : tx_valid tx →
  Forall item_fits (witness tx) ∧ len (witness tx) ≤ MAX_WITNESS_ITEMS
  ∧ items_bytes (witness tx) ≤ 34 * MAX_WITNESS_ITEMS + MAX_WITNESS_BYTES_PER_TX.
Proof.
  intros (_ & _ & _ & _ & _ & (Hl & HF & Hb) & _). unfold enc_list in Hb. rewrite length_app in Hb.
  pose proof (witness_bytes_bound (witness tx)). split_and!; [|done|lia].
  apply list.Forall_forall. intros w Hw. rewrite list.Forall_forall in HF.
  pose proof (witness_item_bound _ _ Hw). pose proof (enc_witness_bound w).
  unfold MAX_WITNESS_BYTES_PER_TX in *. destruct (HF w Hw) as [? _]. unfold item_fits, is_u in *.
  split_and!; lia.
Qed.

(** The suites of a registry are small enough for the task budget to hold two
    signatures per witness item. *)
Definition registry_fits (reg : SuiteRegistry) : Prop :=
  ∃ m, max_sigcheck_queue_tasks (Some reg) = Ok m ∧ 2 * MAX_WITNESS_ITEMS ≤ m.

Lemma wire_room tx reg par workers : tx_valid tx → registry_fits reg →
  room reg (queue_new par workers) (witness tx ++ witness tx).
Proof.
  intros (_ & Hl & Hb)%wire_witness_fits (m & Hm & Hle). split_and!; [by left| |].
  - exists m. split; [done|]. rewrite length_app. simpl. lia.
  - rewrite items_bytes_app. unfold MAX_WITNESS_ITEMS, MAX_WITNESS_BYTES_PER_TX in *.
    change MAX_SIGCHECK_QUEUE_BYTES with 68000000. simpl. lia.
Qed.

Section modes.
Context `{HS : Sha3} `{HO : OpenSsl} (ctx : UtxoApplyImplContext).

(** The inline mode, and what the queued mode adds to a queue. *)
Definition inline_apply : res (UtxoMap * UtxoApplySummary) := (apply_impl ctx None).1.

Lemma queued_cases q : queue_wf q → Forall item_fits (witness (cx_tx ctx)) →
  ∃ ts, match apply_queued_sigchecks ctx q with
        | (Ok x, q') => q_tasks q' = q_tasks q ++ ts ∧ (ts ≠ [] → q_registry q' = Some (cx_reg ctx))
            ∧ Forall task_fits ts ∧ extends q q' ∧ queue_wf q'
            ∧ (∀ ws, room (cx_reg ctx) q ((witness (cx_tx ctx) ++ witness (cx_tx ctx)) ++ ws) →
                 room (cx_reg ctx) q' ws)
            ∧ inline_apply = (_ ← checks (cx_reg ctx) ts; Ok x)
        | (Err e, q') => q' = q
            ∧ (¬ room (cx_reg ctx) q (witness (cx_tx ctx) ++ witness (cx_tx ctx))
               ∨ inline_apply = (_ ← checks (cx_reg ctx) ts; Err e))
        end.
Proof.
  intros Hq Hw. unfold inline_apply, apply_queued_sigchecks, apply_impl.
  destruct (validate_apply_inputs ctx) as [[]|e] eqn:Hv.
  2: { exists []. simpl. split; [by apply rollback_extends, extends_refl|by right]. }
  destruct (prehash_cache_new_ok (cx_tx ctx)) as (c & -> & Hc). cbn [mbind result_bind].
  destruct (defers_body ctx Hw c c q Hc Hc Hq)
    as (r & c1 & q1 & ri & c2 & ts & -> & -> & (_ & _ & Hwf & Hext & Hroom) & _ & Hr).
  exists ts. destruct r as [x|e]; simpl.
  - destruct Hr as (_ & ? & ? & ? & ->). by split_and!.
  - split; [by apply rollback_extends|]. done.
Qed.

(** Queueing the signatures of a transaction for a caller loses nothing:
    on success the queue has gained tasks such that checking them, in order,
    and then returning the same ledger is exactly the inline mode; on failure
    the queue is given back unchanged, and either the inline mode fails as
    well (with an error of these checks or the same one), or the queue's
    budgets had no room left for the transaction's witness. *)
Theorem queued_apply_spec q : queue_wf q → tx_valid (cx_tx ctx) →
  ∃ ts, match apply_queued_sigchecks ctx q with
        | (Ok x, q') => q_tasks q' = q_tasks q ++ ts ∧ queue_wf q'
            ∧ inline_apply = (_ ← checks (cx_reg ctx) ts; Ok x)
        | (Err e, q') => q' = q
            ∧ (¬ room (cx_reg ctx) q (witness (cx_tx ctx) ++ witness (cx_tx ctx))
               ∨ inline_apply = (_ ← checks (cx_reg ctx) ts; Err e))
        end.
Proof.
  intros Hq (Hw & _)%wire_witness_fits. destruct (queued_cases q Hq Hw) as [ts Hts]. exists ts.
  destruct (apply_queued_sigchecks ctx q) as [[x|e] q']; [|done].
  destruct Hts as (? & _ & _ & _ & ? & _ & ?). done.
Qed.

(** C22: deferring the signatures of a transaction changes nothing: on every
    schedule of the flush, the deferred mode accepts exactly the transactions
    the inline mode accepts, with the same ledger and fee, and some schedule
    completes it.  The queue is private and has no cache, and nobody else gives
    it one.  The wire limits on the witness guarantee that the queue's own
    budgets never refuse. *)
Theorem deferred_is_inline par : tx_valid (cx_tx ctx) → registry_fits (cx_reg ctx) →
  (∀ es r, Forall (event_ok no_cache) es →
     apply_deferred_sigchecks par es ctx = Some r →
     ∀ x, r = Ok x ↔ inline_apply = Ok x)
  ∧ ∃ es r, apply_deferred_sigchecks par es ctx = Some r.
Proof.
  intros Htx Hreg. pose proof (wire_witness_fits _ Htx) as (Hw & _).
  pose proof (wire_room _ _ par 1 Htx Hreg) as Hroom. unfold apply_deferred_sigchecks.
  assert (queue_wf (queue_new par 1)) as Hq by (split; [done|by vm_compute]).
  destruct (queued_cases _ Hq Hw) as [ts Hts].
  destruct (apply_queued_sigchecks ctx (queue_new par 1)) as [[x|e] q'].
  - destruct Hts as (Ht & Hr & Hf & Hext & _ & _ & Hi). simpl in Ht. split.
    + intros es r Hes Hd. apply bind_Some in Hd as ([fr q2] & Hfl & [= <-]).
      assert (q_cache q' = None) as Hc by apply Hext.
      assert (fr = checks (cx_reg ctx) ts) as ->.
      { destruct (decide (ts = [])) as [->|Hne].
        - unfold flush in Hfl. rewrite Ht in Hfl. injection Hfl as <- _. done.
        - specialize (Hr Hne). eapply (flush_ok no_cache (λ _, False)) in Hfl as [[Hfl|(t & _ & [])] _]; [|apply no_cache_law|done|done].
          by rewrite Hr, Ht in Hfl. }
      intros y. rewrite Hi. done.
    + destruct (flush_completes par q') as (es & r & q2 & Hfl). exists es. rewrite Hfl. by eexists.
  - destruct Hts as [-> Hts]. split; [|by eexists [], _].
    intros es r _ [= <-] y. split; [done|]. destruct Hts as [Hno| ->]; [done|].
    by destruct (checks (cx_reg ctx) ts).
Qed.
End modes.

(** ** Witnesses *)

Lemma default_registry_fits : registry_fits default_registry.
Proof. exists 9375. split; [vm_compute; reflexivity|vm_compute; discriminate]. Qed.

Lemma deferred_is_inline_witness :
  us_fee <$> (snd <$> inline_apply (HS := toy_sha3) (HO := toy_openssl) spend_ctx) = Ok 10 ∧
  ((∀ es r,
     Forall (event_ok no_cache) es →
     apply_deferred_sigchecks (HS := toy_sha3) (HO := toy_openssl) 1 es spend_ctx = Some r →
     ∀ x, r = Ok x ↔ inline_apply (HS := toy_sha3) (HO := toy_openssl) spend_ctx = Ok x)
   ∧ ∃ es r, apply_deferred_sigchecks (HS := toy_sha3) (HO := toy_openssl) 1 es spend_ctx = Some r).
Proof.
  split; [vm_compute; reflexivity|].
  apply deferred_is_inline; [exact spend_tx_valid|exact default_registry_fits].
Defined.

Lemma queued_apply_spec_witness :
  queue_wf (queue_new 1 1) ∧
  ∃ ts, match apply_queued_sigchecks (HS := toy_sha3) (HO := toy_openssl) spend_ctx (queue_new 1 1) with
        | (Ok x, q') => q_tasks q' = q_tasks (queue_new 1 1) ++ ts ∧ queue_wf q'
            ∧ inline_apply (HS := toy_sha3) (HO := toy_openssl) spend_ctx
              = (_ ← checks (HO := toy_openssl) (cx_reg spend_ctx) ts; Ok x)
        | (Err e, q') => q' = queue_new 1 1
            ∧ (¬ room (cx_reg spend_ctx) (queue_new 1 1) (witness spend_tx ++ witness spend_tx)
               ∨ inline_apply (HS := toy_sha3) (HO := toy_openssl) spend_ctx
                 = (_ ← checks (HO := toy_openssl) (cx_reg spend_ctx) ts; Err e))
        end.
Proof.
  assert (queue_wf (queue_new 1 1)) as Hq by (split; [vm_compute; reflexivity|vm_compute; discriminate]).
  split; [exact Hq|]. apply (queued_apply_spec spend_ctx); [exact Hq|exact spend_tx_valid].
Defined.
