(* ===== verification/UtxoLedger.v ===== *)
(** * What applying a transaction means

    The inline application of [utxo_basic.rs] as a rule: the conditions under
    which a transaction is accepted, the ledger it leaves, and its fee. *)

From S2P Require Import Prelude Bytes Errors Constants Crypto WireRead CompactSize TxWire TxCodec.
From S2P Require Import Vault Suites Verify SigCache WorkerPool SigQueue Sighash Spend Htlc Stealth CovenantGenesis UtxoApply UtxoRules UtxoDeferred.

(** [enumerate] from an index. *)
Fixpoint enum_from {A} (k : Z) (l : list A) : list (Z * A) :=
  match l with [] => [] | a :: l => (k, a) :: enum_from (k + 1) l end.

Lemma enum_from_imap {A} (n : nat) (l : list A) :
  imap (λ i a, (Z.of_nat (n + i), a)) l = enum_from (Z.of_nat n) l.
Proof.
  revert n; induction l as [|a l IH]; intros n; [done|]. cbn [imap enum_from].
  rewrite Nat.add_0_r. replace (Z.of_nat n + 1) with (Z.of_nat (S n)) by lia. rewrite <- IH.
  f_equal. apply imap_ext. intros i x _. simpl. f_equal. lia.
Qed.
Lemma enumerate_enum {A} (l : list A) : enumerate l = enum_from 0 l.
Proof. apply (enum_from_imap 0). Qed.

Lemma enum_from_elem {A} k (l : list A) i a :
  (i, a) ∈ enum_from k l → k ≤ i < k + len l ∧ l !! Z.to_nat (i - k) = Some a.
Proof.
  revert k; induction l as [|b l IH]; intros k; cbn [enum_from].
  - intros H. by apply elem_of_nil in H.
  - intros [[= -> ->]|H%IH]%elem_of_cons.
    + rewrite Z.sub_diag. split; [simpl; lia|done].
    + destruct H as [? Hl]. split; [rewrite length_cons; lia|].
      replace (Z.to_nat (i - k)) with (S (Z.to_nat (i - (k + 1)))) by lia. done.
Qed.

Definition sum_values (es : list UtxoEntry) : Z := foldr (λ e n, ue_value e + n) 0 es.
Definition sum_outputs (os : list TxOutput) : Z := foldr (λ o n, value o + n) 0 os.
Definition values_fit (es : list UtxoEntry) : Prop := Forall (λ e, is_u 64 (ue_value e)) es.

Section ledger.
Context `{HS : Sha3} `{HO : OpenSsl} (ctx : UtxoApplyImplContext).
Abbreviation tx := (cx_tx ctx).

(** The hash that names an output in the vault rules. *)
Definition lock_id (e : UtxoEntry) : bytes :=
  sha3_256 (output_descriptor_bytes (ue_covenant_type e) (ue_covenant_data e)).

(** ** Spends *)

(** What its part of the witness must show for an output, by covenant; a vault
    is judged after the outputs. *)
Definition spend_authorized (idx : Z) (e : UtxoEntry) (ws : list WitnessItem) : Prop :=
  let t := ue_covenant_type e in
  (t = COV_TYPE_P2PK → ∃ w, ws = [w] ∧ p2pk_authorized tx e w idx (ue_value e) (cx_chain_id ctx)
                                       (cx_height ctx) (cx_rp ctx) (cx_reg ctx))
  ∧ (t = COV_TYPE_MULTISIG → ∀ c, multisig_valid c → ue_covenant_data e = enc_multisig c →
       quorum tx (m_keys c) (m_threshold c) ws idx (ue_value e) (cx_chain_id ctx) (cx_height ctx)
         (cx_rp ctx) (cx_reg ctx))
  ∧ (t = COV_TYPE_HTLC → ∃ path w, ws = [path; w] ∧ htlc_authorized tx e path w
       (mkHtlcSpendContext idx (ue_value e) (cx_chain_id ctx) (cx_height ctx) (cx_block_mtp ctx))
       (cx_rp ctx) (cx_reg ctx))
  ∧ (t = COV_TYPE_CORE_STEALTH → ∃ w, ws = [w] ∧ stealth_authorized tx e w idx (ue_value e)
       (cx_chain_id ctx) (cx_height ctx) (cx_rp ctx) (cx_reg ctx)).

Definition spend_spec (e : UtxoEntry) (idx : Z) (ws : list WitnessItem) : res unit :=
  let t := ue_covenant_type e in
  if t =? COV_TYPE_P2PK then
    match ws with
    | [w] => p2pk_spec tx e w idx (ue_value e) (cx_chain_id ctx) (cx_height ctx) (cx_rp ctx) (cx_reg ctx)
    | _ => tx_err TxErrParse "CORE_P2PK witness_slots must be 1"
    end
  else if t =? COV_TYPE_MULTISIG then
    m ← parse_multisig_covenant_data (ue_covenant_data e);
    threshold_spec tx (m_keys m) (m_threshold m) ws idx (ue_value e) (cx_chain_id ctx) (cx_height ctx)
      "CORE_MULTISIG" (cx_rp ctx) (cx_reg ctx)
  else if t =? COV_TYPE_HTLC then
    match ws with
    | [path; w] => htlc_spec tx e path w
        (mkHtlcSpendContext idx (ue_value e) (cx_chain_id ctx) (cx_height ctx) (cx_block_mtp ctx))
        (cx_rp ctx) (cx_reg ctx)
    | _ => tx_err TxErrParse "CORE_HTLC witness_slots must be 2"
    end
  else if t =? COV_TYPE_CORE_STEALTH then
    match ws with
    | [w] => stealth_spec tx e w idx (ue_value e) (cx_chain_id ctx) (cx_height ctx) (cx_rp ctx) (cx_reg ctx)
    | _ => tx_err TxErrParse "CORE_STEALTH witness_slots must be 1"
    end
  else Ok ().

(** The vault context after a spend. *)
Definition after_spend (e : UtxoEntry) (range : Z * Z) (idx : Z) (vault : option VaultSpendState) :
    res (option VaultSpendState) :=
  if is_vault e then captured ← vault_capture e range idx; Ok (Some captured) else Ok vault.

Lemma runs_spend e range ws idx vault :
  get_range range (witness tx) = Some ws →
  runs tx (validate_resolved_spend ctx e range idx vault)
    (_ ← spend_spec e (low_u32 idx) ws; after_spend e range (low_u32 idx) vault).
Proof.
  intros Hr. unfold validate_resolved_spend. rewrite Hr.
  match goal with |- runs tx ?m _ =>
    change (runs tx m (Ok ws ≫= λ ws, _ ← spend_spec e (low_u32 idx) ws;
                                      after_spend e range (low_u32 idx) vault)) end.
  apply runs_bind; [apply runs_lift|]. intros ? [= <-]. unfold spend_spec, after_spend, is_vault. set (i := low_u32 idx).
  assert (∀ (m : spend unit) r, runs tx m r → runs tx (_ ← m; mret vault) (_ ← r; Ok vault)) as Hthen.
  { intros m r Hm. apply runs_bind; [done|]. intros [] _. apply runs_ret. }
  cov_consts. destruct (ue_covenant_type e =? 0) eqn:H0.
  { replace (ue_covenant_type e =? 257) with false by lia. apply Hthen. unfold apply_p2pk_spend.
    destruct ws as [|w [|? ?]]; [apply runs_lift|apply runs_p2pk|apply runs_lift]. }
  destruct (ue_covenant_type e =? 260) eqn:H1.
  { replace (ue_covenant_type e =? 257) with false by lia. apply Hthen. unfold apply_multisig_spend.
    apply runs_bind; [apply runs_lift|]. intros m _. apply runs_threshold. }
  destruct (ue_covenant_type e =? 257) eqn:H2.
  { replace (ue_covenant_type e =? 256) with false by lia.
    replace (ue_covenant_type e =? 261) with false by lia. run_bind.
    apply runs_bind; [apply runs_lift|]. intros; apply runs_ret. }
  destruct (ue_covenant_type e =? 256) eqn:H3.
  { apply Hthen. unfold apply_htlc_spend.
    destruct ws as [|p [|w [|? ?]]]; try apply runs_lift. apply runs_htlc. }
  destruct (ue_covenant_type e =? 261) eqn:H4; [|apply runs_ret].
  apply Hthen. unfold apply_stealth_spend.
  destruct ws as [|w [|? ?]]; [apply runs_lift|apply runs_stealth|apply runs_lift].
Qed.

Lemma spend_spec_Ok e idx ws : covenant_spendable e → Forall (λ w, is_u 8 (suite_id w)) ws →
  spend_spec e idx ws = Ok () ↔ spend_authorized idx e ws.
Proof.
  intros Hsp Hws. unfold spend_spec, spend_authorized. unfold covenant_spendable in Hsp. cov_consts.
  destruct Hsp as [Ht|[[Ht _]|[[Ht _]|[(Ht & c & Hc)|(Ht & _)]]]]; rewrite Ht; simpl Z.eqb; cbv iota.
  - split.
    + destruct ws as [|w [|? ?]]; try done. intros Hp%p2pk_spec_Ok; [|by inversion Hws].
      split_and!; try done. eauto.
    + intros [H _]. destruct (H eq_refl) as (w & -> & Hp). apply p2pk_spec_Ok; [by inversion Hws|done].
  - split.
    + destruct ws as [|w [|? ?]]; try done. intros Hp%stealth_spec_Ok. split_and!; try done. eauto.
    + intros (_ & _ & _ & H). destruct (H eq_refl) as (w & -> & Hp). by apply stealth_spec_Ok.
  - split; [intros _|done]. do 3 (split; [done|]). done.
  - rewrite (proj2 (parse_multisig_Ok _ c) Hc). run_bind. destruct Hc as [Hc Hd].
    pose proof Hc as (? & ? & _). unfold MAX_MULTISIG_KEYS in *. rewrite threshold_spec_Ok by lia. split.
    + intros Hq. split_and!; try done. intros _ c' Hc' Hd'.
      by rewrite (enc_multisig_inj c' c) by congruence.
    + intros (_ & Hm & _). by apply Hm.
  - split.
    + destruct ws as [|p [|w [|? ?]]]; try done. intros Hp%htlc_spec_Ok. split_and!; try done. eauto.
    + intros (_ & _ & H & _). destruct (H eq_refl) as (p & w & -> & Hp). by apply htlc_spec_Ok.
Qed.

(** The state after a spend: the output is gone, its value and lock counted. *)
Definition vault_after (e : UtxoEntry) (range : Z * Z) (idx : Z) (vault : option VaultSpendState) :
    option VaultSpendState :=
  match after_spend e range idx vault with Ok v => v | Err _ => None end.
Definition spent (s : UtxoApplyState) (x : Z * (UtxoEntry * (Z * Z) * Outpoint)) : UtxoApplyState :=
  let '(idx, (e, range, op)) := x in
  mkUtxoApplyState (delete op (as_work s)) (as_sum_in s + ue_value e)
    (if is_vault e then as_sum_in_vault s + ue_value e else as_sum_in_vault s) (as_sum_out s)
    (as_vault_input_count s) (as_creates_vault s) (vault_after e range (low_u32 idx) (as_vault_spend s))
    (as_witness_cursor s) (as_input_lock_ids s ++ [lock_id e])
    (as_input_cov_types s ++ [ue_covenant_type e])
    (as_seen_inputs s) (as_resolved_inputs s) (as_resolved_witness_ranges s) (as_resolved_outpoints s).

Lemma vault_capture_Ok e range idx v : vault_shape v → ue_covenant_data e = enc_vault v →
  vault_capture e range idx = Ok (mkVaultSpendState (v_keys v) (v_threshold v) range idx (ue_value e)
    (owner_lock_id v) (whitelist v)).
Proof.
  intros Hs Hd. unfold vault_capture, parse_vault_covenant_data_for_spend.
  by rewrite Hd, parse_vault_inner_complete.
Qed.

Lemma vault_data e : covenant_spendable e → is_vault e = true →
  ∃ v, vault_shape v ∧ ue_covenant_data e = enc_vault v.
Proof.
  unfold covenant_spendable, is_vault. intros H Ht. cov_consts.
  destruct_or!; destruct_and?; try lia. eauto.
Qed.

Lemma after_spend_Ok e range idx vault : covenant_spendable e →
  after_spend e range idx vault = Ok (vault_after e range idx vault).
Proof.
  intros Hsp. unfold vault_after, after_spend. destruct (is_vault e) eqn:Hv; [|done].
  destruct (vault_data e Hsp Hv) as (v & Hs & Hd). by rewrite (vault_capture_Ok e range idx v Hs Hd).
Qed.

Definition item_suites_fit (ws : list WitnessItem) : Prop := Forall (λ w, is_u 8 (suite_id w)) ws.
Definition sums_fit (s : UtxoApplyState) (n : Z) : Prop :=
  0 ≤ as_sum_in s ∧ 0 ≤ as_sum_in_vault s ∧ as_sum_in s + 2 ^ 64 * n ≤ u128_max
  ∧ as_sum_in_vault s + 2 ^ 64 * n ≤ u128_max.

Lemma accepts_step s idx e range op ws :
  covenant_spendable e → get_range range (witness tx) = Some ws → item_suites_fit ws →
  is_u 64 (ue_value e) → sums_fit s 1 →
  accepts tx (validate_spend_step ctx s (idx, (e, range, op)))
    (λ s', spend_authorized (low_u32 idx) e ws ∧ s' = spent s (idx, (e, range, op))).
Proof.
  intros Hsp Hr Hws [? ?] (? & ? & ? & ?). unfold validate_spend_step.
  set (v' := vault_after e range (low_u32 idx) (as_vault_spend s)).
  eapply accepts_iff; [|apply (accepts_bind tx _ _
    (λ v, spend_authorized (low_u32 idx) e ws ∧ v = v') (λ v s', s' = spent s (idx, (e, range, op))))].
  - intros s'. split; [by intros (v & [? _] & ?)|]. intros [? ?]. by exists v'.
  - eapply accepts_iff; [|apply accepts_runs, (runs_spend _ _ _ _ _ Hr)]. intros v. cbv beta.
    rewrite bind_Ok, after_spend_Ok by done. fold v'. rewrite <- (spend_spec_Ok e _ ws Hsp Hws).
    split; [intros ([] & ? & [= <-]); done|]. intros [? ->]. by exists ().
  - intros v [_ ->]. unfold checked_add.
    replace (as_sum_in s + ue_value e <=? u128_max) with true by lia.
    replace (as_sum_in_vault s + ue_value e <=? u128_max) with true by lia.
    unfold spent. fold (is_vault e). destruct (is_vault e); apply accepts_ret.
Qed.

Definition spend_allowed (x : Z * (UtxoEntry * (Z * Z) * Outpoint)) : Prop :=
  spend_authorized (low_u32 x.1) x.2.1.1 (items_at (witness tx) x).

Lemma accepts_spends s l :
  Forall (λ x, covenant_spendable x.2.1.1 ∧ is_u 64 (ue_value x.2.1.1)
    ∧ ∃ ws, get_range x.2.1.2 (witness tx) = Some ws ∧ item_suites_fit ws) l →
  sums_fit s (len l) →
  accepts tx (st_fold (validate_spend_step ctx) s l)
    (λ s', Forall spend_allowed l ∧ s' = foldl spent s l).
Proof.
  intros Hl. revert s. induction Hl as [|[idx [[e range] op]] l (Hsp & Hv & ws & Hr & Hws) Hl IH];
    intros s Hs; cbn [st_fold foldl].
  - eapply accepts_iff; [|apply accepts_ret]. intros s'. split; [by split|by intros [_ ?]].
  - cbn [fst snd] in *. rewrite length_cons in Hs.
    set (s1 := spent s (idx, (e, range, op))).
    eapply accepts_iff; [|apply (accepts_bind tx _ _ (λ s2, spend_authorized (low_u32 idx) e ws ∧ s2 = s1)
      (λ _ s', Forall spend_allowed l ∧ s' = foldl spent s1 l))].
    2: { apply accepts_step; try done. unfold sums_fit in *. lia. }
    2: { intros s2 [_ ->]. apply IH. unfold sums_fit in *. simpl. destruct Hv. destruct (is_vault e); lia. }
    assert (spend_allowed (idx, (e, range, op)) ↔ spend_authorized (low_u32 idx) e ws) as Ha
      by (unfold spend_allowed, items_at; cbn [fst snd]; by rewrite Hr).
    intros s'. cbv beta. rewrite list.Forall_cons, Ha.
    split; [intros (s2 & [? ->] & ? & ->); done|]. intros [[? ?] ->]. eauto 10.
Qed.

(** What the spends leave in each field. *)
Definition loop_entries (l : list (Z * (UtxoEntry * (Z * Z) * Outpoint))) : list UtxoEntry :=
  (λ x, x.2.1.1) <$> l.

Lemma spents_fields s l : let s' := foldl spent s l in
  as_sum_in s' = as_sum_in s + sum_values (loop_entries l)
  ∧ as_sum_in_vault s' = as_sum_in_vault s + sum_values (filter is_vault (loop_entries l))
  ∧ as_input_lock_ids s' = as_input_lock_ids s ++ (lock_id <$> loop_entries l)
  ∧ as_input_cov_types s' = as_input_cov_types s ++ (ue_covenant_type <$> loop_entries l)
  ∧ as_sum_out s' = as_sum_out s ∧ as_vault_input_count s' = as_vault_input_count s
  ∧ as_creates_vault s' = as_creates_vault s
  ∧ as_work s' = foldl (λ m op, delete op m) (as_work s) ((λ x, x.2.2) <$> l).
Proof.
  revert s; induction l as [|[idx [[e range] op]] l IH]; intros s; cbn [foldl].
  { simpl. rewrite !app_nil_r, !Z.add_0_r. by split_and!. }
  destruct (IH (spent s (idx, (e, range, op)))) as (H1 & H2 & H3 & H4 & H5 & H6 & H7 & H8).
  cbv zeta in *. rewrite H1, H2, H3, H4, H5, H6, H7, H8. unfold loop_entries. rewrite !fmap_cons.
  cbn [spent fst snd as_work as_sum_in as_sum_in_vault as_sum_out as_vault_input_count
    as_creates_vault as_input_lock_ids as_input_cov_types foldl].
  rewrite filter_cons, <- !app_assoc. split_and!; try done; [simpl; lia|].
  destruct (is_vault e); case_decide; try done; simpl; lia.
Qed.

(** The vault context is that of the vault input, if there is one. *)
Lemma spents_no_vault s l : filter is_vault (loop_entries l) = [] →
  as_vault_spend (foldl spent s l) = as_vault_spend s.
Proof.
  revert s; induction l as [|[idx [[e range] op]] l IH]; intros s H; cbn [foldl]; [done|].
  change (filter is_vault (e :: loop_entries l) = []) in H. rewrite filter_cons in H.
  case_decide as Hv; [done|]. rewrite IH by done. simpl. unfold vault_after, after_spend.
  by destruct (is_vault e).
Qed.

Lemma spents_vault s l idx e range op : len (filter is_vault (loop_entries l)) ≤ 1 →
  (idx, (e, range, op)) ∈ l → is_vault e = true → covenant_spendable e →
  as_vault_spend (foldl spent s l) = vault_after e range (low_u32 idx) None.
Proof.
  intros Hc (l1 & l2 & ->)%list_elem_of_split Hv Hsp.
  assert (filter is_vault (loop_entries l2) = []) as Hl2.
  { apply len_0_nil. unfold loop_entries in *. rewrite fmap_app, list.filter_app, fmap_cons, filter_cons in Hc.
    cbn [fst snd] in Hc. rewrite decide_True in Hc by (by rewrite Hv). rewrite length_app, length_cons in Hc. lia. }
  rewrite foldl_app. cbn [foldl]. rewrite spents_no_vault by done. cbn [spent as_vault_spend].
  unfold vault_after, after_spend. rewrite Hv. done.
Qed.

(** ** Outputs *)

Definition unspendable_type (t : Z) : bool := (t =? COV_TYPE_ANCHOR) || (t =? COV_TYPE_DA_COMMIT).
Definition entry_of (o : TxOutput) : UtxoEntry :=
  mkUtxoEntry (value o) (covenant_type o) (covenant_data o) (cx_height ctx) false.

(** The entries the outputs create, from index [k]. *)
Fixpoint created_from (k : Z) (outs : list TxOutput) : UtxoMap :=
  match outs with
  | [] => ∅
  | o :: outs =>
      if unspendable_type (covenant_type o) then created_from (k + 1) outs
      else <[mkOutpoint (cx_txid ctx) k := entry_of o]> (created_from (k + 1) outs)
  end.

Lemma created_from_None k j outs : j < k → created_from k outs !! mkOutpoint (cx_txid ctx) j = None.
Proof.
  revert k; induction outs as [|o outs IH]; intros k Hj; cbn [created_from]; [apply lookup_empty|].
  destruct (unspendable_type _); [apply IH; lia|].
  rewrite lookup_insert_ne; [apply IH; lia|]. intros [= ->]. lia.
Qed.

Lemma low_u32_small i : 0 ≤ i < 2 ^ 32 → low_u32 i = i.
Proof.
  intros Hi. unfold low_u32. replace (Z.shiftr usize_max (Z.max 0 (64 - 32))) with (Z.ones 32) by done.
  rewrite Z.land_ones by done. by apply Z.mod_small.
Qed.

(** Adding the outputs never overflows, and adds the created entries. *)
Lemma add_outputs_Ok s k outs : 0 ≤ k → k + len outs < 2 ^ 32 →
  Forall (λ o, is_u 64 (value o)) outs → 0 ≤ as_sum_out s →
  as_sum_out s + 2 ^ 64 * len outs ≤ u128_max →
  try_fold (add_output ctx) s (enum_from k outs) =
    Ok (mkUtxoApplyState (created_from k outs ∪ as_work s) (as_sum_in s) (as_sum_in_vault s)
          (as_sum_out s + sum_outputs outs) (as_vault_input_count s)
          (as_creates_vault s || existsb (λ o, covenant_type o =? COV_TYPE_VAULT) outs)
          (as_vault_spend s) (as_witness_cursor s) (as_input_lock_ids s) (as_input_cov_types s)
          (as_seen_inputs s) (as_resolved_inputs s) (as_resolved_witness_ranges s)
          (as_resolved_outpoints s)).
Proof.
  intros Hk Hn HF. revert k s Hk Hn.
  induction HF as [|o outs [Hv1 Hv2] HF IH]; intros k s Hk Hn Hs Hmax; cbn [enum_from try_fold].
  - cbn [created_from sum_outputs foldr existsb]. rewrite Z.add_0_r, orb_false_r, (left_id_L ∅ (∪)). by destruct s.
  - rewrite length_cons in *. cbn [sum_outputs foldr existsb created_from].
    assert (∃ s1, add_output ctx s (k, o) = Ok s1 ∧ s1 =
      mkUtxoApplyState (if unspendable_type (covenant_type o) then as_work s
                        else <[mkOutpoint (cx_txid ctx) k := entry_of o]> (as_work s))
        (as_sum_in s) (as_sum_in_vault s) (as_sum_out s + value o) (as_vault_input_count s)
        (if covenant_type o =? COV_TYPE_VAULT then true else as_creates_vault s) (as_vault_spend s)
        (as_witness_cursor s) (as_input_lock_ids s) (as_input_cov_types s) (as_seen_inputs s)
        (as_resolved_inputs s) (as_resolved_witness_ranges s) (as_resolved_outpoints s)) as (s1 & -> & ->).
    { unfold add_output, checked_add. replace (as_sum_out s + value o <=? u128_max) with true by lia.
      run_bind. cbn [ok_or]. run_bind. rewrite low_u32_small by lia. by eexists. }
    run_bind. rewrite IH; cbn [as_sum_out]; [|lia..]. f_equal. f_equal; cbn.
    + destruct (unspendable_type _); [done|].
      rewrite <- insert_union_l. symmetry. apply insert_union_r, created_from_None. lia.
    + unfold sum_outputs. lia.
    + destruct (covenant_type o =? COV_TYPE_VAULT); [by rewrite orb_true_r|done].
Qed.

(** ** The vault rules *)

(** A vault is created by its owner: an input has the owner's lock, and is one
    the owner signed for. *)
Definition owner_signs (es : list UtxoEntry) (owner : bytes) : Prop :=
  ∃ e, e ∈ es ∧ lock_id e = owner
       ∧ (ue_covenant_type e = COV_TYPE_P2PK ∨ ue_covenant_type e = COV_TYPE_MULTISIG).
Definition vaults_owned (es : list UtxoEntry) : Prop :=
  ∀ o v, o ∈ outputs tx → covenant_type o = COV_TYPE_VAULT → vault_shape v →
    covenant_data o = enc_vault v → owner_signs es (owner_lock_id v).

Lemma zip_fmaps {A B C} (f : A → B) (g : A → C) l : zip (f <$> l) (g <$> l) = (λ x, (f x, g x)) <$> l.
Proof. induction l as [|x l IH]; [done|]. rewrite !fmap_cons. cbn. by rewrite <- IH. Qed.

Lemma owner_authorized_true es owner :
  has_owner_authorized_input (lock_id <$> es) (ue_covenant_type <$> es) owner = true ↔ owner_signs es owner.
Proof.
  unfold has_owner_authorized_input, owner_signs. rewrite zip_fmaps, existsb_exists. split.
  - intros ((l & t) & (e & [= -> ->] & He)%list_elem_of_In%list_elem_of_fmap & H). exists e.
    cbn [fst snd] in H. apply andb_true_iff in H as [Hl%bool_decide_eq_true Ht]. split_and!; [done..|lia].
  - intros (e & He & Hl & Ht). exists (lock_id e, ue_covenant_type e). split.
    + apply list_elem_of_In. by apply (list_elem_of_fmap_2 (λ e, (lock_id e, ue_covenant_type e))).
    + cbn [fst snd]. rewrite bool_decide_eq_true_2 by done. cov_consts. lia.
Qed.

Lemma vault_creation_Ok s es :
  as_input_lock_ids s = lock_id <$> es → as_input_cov_types s = ue_covenant_type <$> es →
  as_creates_vault s = existsb (λ o, covenant_type o =? COV_TYPE_VAULT) (outputs tx) →
  Forall (output_allowed (tx_kind tx) (cx_height ctx) (cx_rp ctx)) (outputs tx) →
  validate_vault_creation ctx s = Ok () ↔ vaults_owned es.
Proof.
  intros Hl Ht Hc Hall. unfold validate_vault_creation, vaults_owned. rewrite Hc, Hl, Ht.
  assert (∀ o, o ∈ outputs tx → (if negb (covenant_type o =? COV_TYPE_VAULT) then Ok () else
      v ← parse_vault_covenant_data (covenant_data o);
      if negb (has_owner_authorized_input (lock_id <$> es) (ue_covenant_type <$> es) (owner_lock_id v))
      then tx_err TxErrVaultOwnerAuthRequired "missing owner-authorized input for CORE_VAULT creation"
      else Ok ()) = Ok () ↔
    (∀ v, covenant_type o = COV_TYPE_VAULT → vault_shape v → covenant_data o = enc_vault v →
       owner_signs es (owner_lock_id v))) as Hone.
  { intros o Ho. destruct (covenant_type o =? COV_TYPE_VAULT) eqn:Hv; simpl.
    2: { split; [|done]. intros _ v Hv'. lia. }
    rewrite list.Forall_forall in Hall. specialize (Hall o Ho). unfold output_allowed in Hall.
    assert (∃ v, vault_shape v ∧ vault_whitelist_canonical v ∧ covenant_data o = enc_vault v)
      as (v & Hs & Hw & Hd) by (cov_consts; destruct_or!; destruct_and?; lia || done).
    unfold parse_vault_covenant_data. rewrite Hd, parse_vault_inner_complete by done. run_bind.
    destruct (has_owner_authorized_input _ _ _) eqn:Ho1; simpl; split; try done.
    - intros _ v' _ Hs' He. apply owner_authorized_true. by rewrite <- (enc_vault_inj v v').
    - intros H. specialize (H v ltac:(lia) Hs eq_refl). apply owner_authorized_true in H. congruence. }
  destruct (existsb _ (outputs tx)) eqn:Hex.
  - rewrite try_for_each_Ok, list.Forall_forall. split.
    + intros H o v Ho Hov Hs Hd. by apply (proj1 (Hone o Ho) (H o Ho)).
    + intros H o Ho. apply Hone; [done|]. intros v Hov Hs Hd. by eapply H.
  - split; [|done]. intros _ o v Ho Hov. exfalso. apply not_true_iff_false in Hex. apply Hex.
    apply existsb_exists. exists o. split; [by apply list_elem_of_In|]. by apply Z.eqb_eq.
Qed.

(** A vault is spent by a quorum of its keys, with an input of its owner and
    no input of another, to whitelisted outputs only. *)
Definition vault_destination (v : VaultCovenant) (o : TxOutput) : Prop :=
  (covenant_type o = COV_TYPE_P2PK ∨ covenant_type o = COV_TYPE_MULTISIG ∨ covenant_type o = COV_TYPE_HTLC)
  ∧ hash_in_sorted_32 (whitelist v)
      (sha3_256 (output_descriptor_bytes (covenant_type o) (covenant_data o))) = true.
Definition vault_spend_rules (es : list UtxoEntry) (idx : Z) (e : UtxoEntry) (ws : list WitnessItem)
    (v : VaultCovenant) : Prop :=
  owner_lock_id v ∈ (lock_id <$> es)
  ∧ Forall (λ e', is_vault e' = false → lock_id e' = owner_lock_id v) es
  ∧ quorum tx (v_keys v) (v_threshold v) ws idx (ue_value e) (cx_chain_id ctx) (cx_height ctx)
      (cx_rp ctx) (cx_reg ctx)
  ∧ Forall (vault_destination v) (outputs tx).

Lemma owner_and_sponsor_Ok vault es :
  validate_owner_and_sponsor vault (lock_id <$> es) (ue_covenant_type <$> es) = Ok () ↔
  vs_owner_lock_id vault ∈ (lock_id <$> es)
  ∧ Forall (λ e', is_vault e' = false → lock_id e' = vs_owner_lock_id vault) es.
Proof.
  unfold validate_owner_and_sponsor, has_owner_lock_input, non_vault_inputs_owned_by.
  case_bool_decide as Ho; simpl; [|split; [done|by intros [? _]]].
  rewrite zip_fmaps. destruct (forallb _ _) eqn:Hf; simpl; split; try done.
  - intros _. split; [done|]. apply list.Forall_forall. intros e He Hv. rewrite forallb_forall in Hf.
    specialize (Hf (lock_id e, ue_covenant_type e)). cbn [fst snd] in Hf. fold (is_vault e) in Hf.
    rewrite Hv in Hf. apply (bool_decide_eq_true_1 _). apply Hf, list_elem_of_In.
    by apply (list_elem_of_fmap_2 (λ e, (lock_id e, ue_covenant_type e))).
  - intros [_ HF]. apply not_true_iff_false in Hf. exfalso. apply Hf. apply forallb_forall.
    intros [l t] (e & [= -> ->] & He)%list_elem_of_In%list_elem_of_fmap. cbn [fst snd].
    fold (is_vault e). rewrite list.Forall_forall in HF. specialize (HF e He).
    destruct (is_vault e); [done|]. simpl. by apply bool_decide_eq_true_2, HF.
Qed.

Lemma destinations_Ok vault v : vs_whitelist vault = whitelist v →
  (validate_no_recursion tx = Ok () ∧ validate_destinations vault tx = Ok ()) ↔
  Forall (vault_destination v) (outputs tx).
Proof.
  intros Hw. unfold validate_no_recursion, validate_destinations. rewrite !try_for_each_Ok, !list.Forall_forall, Hw.
  assert (∀ o, ((if covenant_type o =? COV_TYPE_VAULT
      then tx_err TxErrVaultOutputNotWhitelisted "CORE_VAULT outputs forbidden in CORE_VAULT spend"
      else Ok ()) = Ok () ∧ (if negb (covenant_type o =? COV_TYPE_P2PK) && negb (covenant_type o =? COV_TYPE_MULTISIG)
         && negb (covenant_type o =? COV_TYPE_HTLC)
      then tx_err TxErrVaultOutputNotWhitelisted
             "disallowed destination covenant_type for CORE_VAULT spend" else
      if negb (hash_in_sorted_32 (whitelist v)
                 (sha3_256 (output_descriptor_bytes (covenant_type o) (covenant_data o))))
      then tx_err TxErrVaultOutputNotWhitelisted "output not whitelisted for CORE_VAULT" else
      Ok ()) = Ok ()) ↔ vault_destination v o) as Ho.
  { intros o. unfold vault_destination. destruct (hash_in_sorted_32 _ _); cov_consts; simpl;
      repeat (case_match; simpl); intuition (try done; try lia). }
  split.
  - intros [H1 H2] o Hin. apply Ho. split; [by apply H1|by apply H2].
  - intros H. split; intros o Hin; apply (Ho o); by apply H.
Qed.

Lemma accepts_vault s es idx e range ws v :
  as_vault_input_count s = 1 → as_input_lock_ids s = lock_id <$> es →
  as_input_cov_types s = ue_covenant_type <$> es → vault_shape v →
  as_vault_spend s = Some (mkVaultSpendState (v_keys v) (v_threshold v) range idx (ue_value e)
    (owner_lock_id v) (whitelist v)) → get_range range (witness tx) = Some ws →
  accepts tx (validate_vault_spend ctx s) (λ _, vault_spend_rules es idx e ws v).
Proof.
  intros Hc Hl Ht Hs Hv Hr. unfold validate_vault_spend, validate_vault_signature. rewrite Hc, Hv, Hl, Ht.
  simpl Z.eqb. cbv iota. cbn [ok_or]. set (vault := mkVaultSpendState _ _ _ _ _ _ _) in *.
  intros c Hcache. pose proof (owner_and_sponsor_Ok vault es) as Hown.
  pose proof (destinations_Ok vault v eq_refl) as Hdest.
  pose proof Hs as (_ & [Ht1 Ht2] & Hk & _). unfold MAX_VAULT_KEYS in Hk.
  destruct (runs_threshold tx (v_keys v) (v_threshold v) ws idx (ue_value e) (cx_chain_id ctx)
    (cx_height ctx) "CORE_VAULT" (cx_rotation ctx) (cx_registry ctx) c Hcache) as (c' & Hrun & Hc').
  fold (cx_rp ctx) in Hrun. fold (cx_reg ctx) in Hrun.
  pose proof (threshold_spec_Ok tx (v_keys v) (v_threshold v) ws idx (ue_value e) (cx_chain_id ctx)
    (cx_height ctx) "CORE_VAULT" (cx_rp ctx) (cx_reg ctx) ltac:(lia)) as Hq.
  unfold vault_spend_rules. cbn [vs_owner_lock_id vault] in Hown.
  unfold mbind, st_bind, lift. cbn [vs_witness_range vs_keys vs_threshold vs_input_index vs_input_value vault].
  destruct (validate_owner_and_sponsor vault _ _) as [[]|e1].
  2: { exists (Err e1), c. split_and!; [done..|]. intros []. split; [done|]. intros (? & ? & _).
       by discriminate (proj2 Hown (conj H H0)). }
  destruct (validate_no_recursion tx) as [[]|e1].
  2: { exists (Err e1), c. split_and!; [done..|]. intros []. split; [done|]. intros (_ & _ & _ & Hd).
       by destruct (proj2 Hdest Hd). }
  rewrite Hr. cbn [ok_or]. rewrite Hrun. destruct (threshold_spec _ _ _ _ _ _ _ _ _ _ _) as [[]|e1].
  2: { exists (Err e1), c'. split_and!; [done..|]. intros []. split; [done|]. intros (_ & _ & Hd & _).
       by discriminate (proj2 Hq Hd). }
  exists (validate_destinations vault tx), c'. split_and!; [done..|]. intros []. split.
  - intros Hd. destruct (proj1 Hown eq_refl). split_and!; [done..|by apply Hq|by apply Hdest].
  - intros (_ & _ & _ & Hd). by apply Hdest.
Qed.

(** ** All together *)

Definition spends_allowed (es : list UtxoEntry) (wss : list (list WitnessItem)) : Prop :=
  Forall (λ x, spend_authorized x.1 x.2.1 x.2.2) (enumerate (zip es wss)).
Definition vaults_unlocked (es : list UtxoEntry) (wss : list (list WitnessItem)) : Prop :=
  ∀ idx e ws v, (idx, (e, ws)) ∈ enumerate (zip es wss) → is_vault e = true → vault_shape v →
    ue_covenant_data e = enc_vault v → vault_spend_rules es idx e ws v.

(** The conditions under which a transaction spends the outputs [es]. *)
Record accepted (es : list UtxoEntry) (wss : list (list WitnessItem)) : Prop := mkAccepted {
  ac_nonce : tx_nonce tx ≠ 0;
  ac_inputs : inputs tx ≠ [];
  ac_covenants : validate_tx_covenants_genesis tx (cx_height ctx) (cx_rotation ctx) = Ok ();
  ac_resolve : inputs_resolve (cx_utxo_set ctx) (cx_height ctx) tx es;
  ac_witness : witness_split (witness tx) es wss;
  ac_spends : spends_allowed es wss;
  ac_creates : vaults_owned es;
  ac_vault : vaults_unlocked es wss;
  ac_value : sum_outputs (outputs tx) ≤ sum_values es;
  ac_vault_value : sum_values (filter is_vault es) ≤ sum_outputs (outputs tx) ∨ vault_count es = 0;
}.

(** The ledger and the summary after it. *)
Definition ledger_after : UtxoMap :=
  created_from 0 (outputs tx) ∪ filter (λ p, p.1 ∉ (outpoint_of <$> inputs tx)) (cx_utxo_set ctx).
Definition result_after (es : list UtxoEntry) : UtxoMap * UtxoApplySummary :=
  (ledger_after, mkUtxoApplySummary (sum_values es - sum_outputs (outputs tx))
                   (Z.of_nat (size ledger_after))).

Lemma foldl_delete (m : UtxoMap) ops :
  foldl (λ m op, delete op m) m ops = filter (λ p, p.1 ∉ ops) m.
Proof.
  revert m; induction ops as [|op ops IH]; intros m; cbn [foldl].
  - symmetry. apply map_filter_id. intros ? ? _. simpl. apply not_elem_of_nil.
  - rewrite IH. apply map_eq. intros k. apply option_eq. intros e.
    rewrite !map_lookup_filter_Some, lookup_delete_Some. simpl. rewrite not_elem_of_cons.
    split; [intros ((? & ?) & ?)|intros (? & ? & ?)]; split_and!; auto.
Qed.

Lemma loop_spec pre es wss ops k :
  Forall2 (λ e (w : list WitnessItem), len w = slots_of e) es wss → length ops = length es →
  witness tx = pre ++ mjoin wss →
  let l := enum_from k (zip (zip es (tile (len pre) (slots_of <$> es))) ops) in
  loop_entries l = es ∧ (λ x, x.2.2) <$> l = ops
  ∧ (λ x, (x.1, (x.2.1.1, items_at (witness tx) x))) <$> l = enum_from k (zip es wss)
  ∧ Forall (λ x, ∃ ws, get_range x.2.1.2 (witness tx) = Some ws) l.
Proof.
  intros HF. revert pre ops k. induction HF as [|e w es wss He HF IH]; intros pre ops k Hl Hw.
  { destruct ops; [|done]. by split_and!. }
  destruct ops as [|op ops]; [done|]. injection Hl as Hl.
  change (slots_of <$> e :: es) with (slots_of e :: (slots_of <$> es)). cbn [tile].
  assert (get_range (len pre, len pre + slots_of e) (witness tx) = Some w) as Hr.
  { rewrite Hw. change (mjoin (w :: wss)) with (w ++ mjoin wss). by apply get_range_mid. }
  destruct (IH (pre ++ w) ops (k + 1)) as (H1 & H2 & H3 & H4); [done| |].
  { rewrite Hw, <- app_assoc. done. }
  rewrite length_app, Nat2Z.inj_add, He in H1, H2, H3, H4. cbv zeta.
  change (zip (zip (e :: es) ((len pre, len pre + slots_of e) :: tile (len pre + slots_of e) (slots_of <$> es)))
            (op :: ops))
    with ((e, (len pre, len pre + slots_of e), op)
          :: zip (zip es (tile (len pre + slots_of e) (slots_of <$> es))) ops).
  change (zip (e :: es) (w :: wss)) with ((e, w) :: zip es wss). cbn [enum_from].
  unfold loop_entries in *. rewrite !fmap_cons. rewrite H1, H2, H3. unfold items_at. cbn [fst snd]. rewrite Hr.
  split_and!; [done..|]. constructor; [by exists w|done].
Qed.

Lemma filter_unique {A} (P : A → Prop) `{∀ x, Decision (P x)} l x y :
  (length (filter P l) ≤ 1)%nat → x ∈ l → y ∈ l → P x → P y → x = y.
Proof.
  intros Hl Hx Hy HPx HPy. assert (x ∈ filter P l) as Hfx by (by apply list_elem_of_filter).
  assert (y ∈ filter P l) as Hfy by (by apply list_elem_of_filter).
  destruct (filter P l) as [|z [|? ?]]; [by apply elem_of_nil in Hfx| |simpl in Hl; lia].
  apply list_elem_of_singleton in Hfx, Hfy. congruence.
Qed.

Lemma vault_count_zip k es wss : length es = length wss →
  vault_count es = len (filter (λ x : Z * (UtxoEntry * list WitnessItem), is_vault x.2.1) (enum_from k (zip es wss))).
Proof.
  revert k wss; induction es as [|e es IH]; intros k [|w wss] Hl; try done. injection Hl as Hl.
  rewrite vault_count_cons. change (zip (e :: es) (w :: wss)) with ((e, w) :: zip es wss).
  cbn [enum_from]. rewrite filter_cons, (IH (k + 1) wss Hl). cbn [fst snd].
  destruct (is_vault e); case_decide; try done; rewrite ?length_cons; lia.
Qed.

(** ** The phases after resolution *)

Lemma witness_split_unique ws es wss1 wss2 :
  witness_split ws es wss1 → witness_split ws es wss2 → wss1 = wss2.
Proof.
  intros [-> H1] [Hw H2]. revert wss2 Hw H2.
  induction H1 as [|e w es wss1 He H1 IH]; intros wss2 Hw H2.
  - by apply list.Forall2_nil_inv_l in H2 as ->.
  - apply list.Forall2_cons_inv_l in H2 as (w2 & wss2' & He2 & H2 & ->).
    change (w ++ mjoin wss1 = w2 ++ mjoin wss2') in Hw.
    apply app_inj_1 in Hw as [-> Hw]; [|lia]. f_equal. by apply IH.
Qed.

Section after_resolution.
Context (es : list UtxoEntry) (wss : list (list WitnessItem)).
Context (Htx : tx_valid tx) (Hvals : values_fit es).
Context (Hcov : Forall (output_allowed (tx_kind tx) (cx_height ctx) (cx_rp ctx)) (outputs tx)).
Context (Hres : inputs_resolve (cx_utxo_set ctx) (cx_height ctx) tx es).
Context (Hsplit : witness_split (witness tx) es wss).

Definition s_res : UtxoApplyState := resolved (utxo_apply_state_new ctx) (outpoint_of <$> inputs tx) es.
Definition s_spent : UtxoApplyState := foldl spent s_res (spend_loop s_res).

Lemma es_length : length es = length (inputs tx).
Proof. destruct Hres as (HF & _). by apply Forall2_length in HF. Qed.

Lemma es_spendable : Forall covenant_spendable es.
Proof. destruct Hres as (HF & _). by eapply resolves_spendable. Qed.

Lemma loop_facts : let l := spend_loop s_res in
  loop_entries l = es ∧ (λ x, x.2.2) <$> l = (outpoint_of <$> inputs tx)
  ∧ (λ x, (x.1, (x.2.1.1, items_at (witness tx) x))) <$> l = enumerate (zip es wss)
  ∧ Forall (λ x, ∃ ws, get_range x.2.1.2 (witness tx) = Some ws) l.
Proof.
  destruct Hsplit as [Hw HF]. unfold spend_loop, s_res. simpl. rewrite !enumerate_enum.
  apply (loop_spec [] es wss); [done|by rewrite length_fmap, es_length|done].
Qed.

(** The indices of the inputs are their own low 32 bits. *)
Lemma enum_index_small x : x ∈ enumerate (zip es wss) → low_u32 x.1 = x.1.
Proof.
  destruct x as [i y]. rewrite enumerate_enum. intros [Hi _]%enum_from_elem. cbn [fst].
  apply low_u32_small. rewrite length_zip_with in Hi. pose proof es_length.
  destruct Htx as (_ & (Hn & _) & _). unfold MAX_TX_INPUTS in Hn. lia.
Qed.

Lemma spends_allowed_loop : Forall spend_allowed (spend_loop s_res) ↔ spends_allowed es wss.
Proof.
  destruct loop_facts as (_ & _ & Heq & _). unfold spends_allowed. pose proof enum_index_small as Hsm.
  rewrite <- Heq in Hsm |- *. rewrite Forall_fmap, !list.Forall_forall. unfold spend_allowed, compose. cbn [fst snd].
  split; intros H x Hx; specialize (H x Hx);
    pose proof (Hsm _ (list_elem_of_fmap_2 (λ x, (x.1, (x.2.1.1, items_at (witness tx) x))) _ x Hx)) as Hi;
    cbn [fst] in Hi; by rewrite Hi in *.
Qed.

Lemma accepts_all_spends : accepts tx (validate_spends ctx s_res) (λ s, spends_allowed es wss ∧ s = s_spent).
Proof.
  eapply accepts_iff; [|apply (accepts_spends s_res (spend_loop s_res))].
  - intros s. cbv beta. by rewrite spends_allowed_loop.
  - destruct loop_facts as (He & _ & _ & Hr). apply list.Forall_forall. intros x Hx.
    assert (x.2.1.1 ∈ es) as Hin by (rewrite <- He; by apply (list_elem_of_fmap_2 (λ x, x.2.1.1))).
    pose proof es_spendable as Hsp. unfold values_fit in Hvals. rewrite list.Forall_forall in Hsp. rewrite list.Forall_forall in Hvals. rewrite list.Forall_forall in Hr.
    split_and!; [by apply Hsp|by apply Hvals|]. destruct (Hr x Hx) as [ws Hws]. exists ws.
    split; [done|]. pose proof (wire_witness_fits _ Htx) as (Hfit & _).
    apply get_range_Some in Hws as (pre & post & Hws). rewrite Hws in Hfit.
    apply Forall_app in Hfit as [_ [Hfit _]%Forall_app]. eapply list.Forall_impl; [exact Hfit|].
    by intros w [? _].
  - assert (length (spend_loop s_res) = length (inputs tx)) as ->.
    { destruct loop_facts as (He & _). rewrite <- es_length, <- He at 1. unfold loop_entries. by rewrite length_fmap. }
    destruct Htx as (_ & (Hn & _) & _). unfold MAX_TX_INPUTS in Hn. unfold sums_fit, s_res, u128_max. simpl. lia.
Qed.

(** The state once the outputs are added. *)
Definition s_added : UtxoApplyState :=
  mkUtxoApplyState (created_from 0 (outputs tx) ∪ as_work s_spent) (as_sum_in s_spent)
    (as_sum_in_vault s_spent) (as_sum_out s_spent + sum_outputs (outputs tx))
    (as_vault_input_count s_spent)
    (as_creates_vault s_spent || existsb (λ o, covenant_type o =? COV_TYPE_VAULT) (outputs tx))
    (as_vault_spend s_spent) (as_witness_cursor s_spent) (as_input_lock_ids s_spent)
    (as_input_cov_types s_spent) (as_seen_inputs s_spent) (as_resolved_inputs s_spent)
    (as_resolved_witness_ranges s_spent) (as_resolved_outpoints s_spent).

Lemma spent_facts :
  as_sum_in s_spent = sum_values es ∧ as_sum_in_vault s_spent = sum_values (filter is_vault es)
  ∧ as_input_lock_ids s_spent = lock_id <$> es
  ∧ as_input_cov_types s_spent = ue_covenant_type <$> es
  ∧ as_sum_out s_spent = 0 ∧ as_vault_input_count s_spent = vault_count es
  ∧ as_creates_vault s_spent = false
  ∧ as_work s_spent = filter (λ p, p.1 ∉ (outpoint_of <$> inputs tx)) (cx_utxo_set ctx).
Proof.
  destruct loop_facts as (He & Hops & _). pose proof (spents_fields s_res (spend_loop s_res)) as H.
  cbv zeta in H. fold s_spent in H. rewrite He, Hops, foldl_delete in H. exact H.
Qed.

Lemma added_Ok : add_outputs ctx s_spent = Ok s_added.
Proof.
  unfold add_outputs. rewrite enumerate_enum. destruct Htx as (_ & _ & (Hn & HF) & _).
  destruct spent_facts as (_ & _ & _ & _ & H0 & _). unfold MAX_TX_OUTPUTS in Hn.
  apply add_outputs_Ok; rewrite ?H0; unfold u128_max; try lia.
  eapply list.Forall_impl; [exact HF|]. by intros o [? _].
Qed.

Lemma accepts_vaults : accepts tx (validate_vault_spend ctx s_added) (λ _, vaults_unlocked es wss).
Proof.
  destruct spent_facts as (_ & _ & Hl & Ht & _ & Hc & _). destruct loop_facts as (He & _ & Heq & Hr).
  pose proof Hres as (_ & _ & Hvc). assert (length es = length wss) as Hlen
    by (destruct Hsplit as [_ HF]; by apply Forall2_length in HF).
  destruct (decide (vault_count es = 1)) as [Hone|Hnone].
  2: { eapply accepts_iff; [|unfold validate_vault_spend; cbn [s_added as_vault_input_count]; rewrite Hc;
         rewrite (proj2 (Z.eqb_neq _ _) Hnone); apply accepts_ret].
       intros []. split; [|done]. intros _ idx e ws v Hin Hv. exfalso. apply Hnone.
       pose proof (vault_count_nonneg es). assert (vault_count es ≠ 0) as Hz; [|lia].
       rewrite (vault_count_zip 0 es wss Hlen), <- enumerate_enum. intros Hz%len_0_nil.
       assert ((idx, (e, ws)) ∈ filter (λ x : Z * (UtxoEntry * list WitnessItem), is_vault x.2.1)
                 (enumerate (zip es wss))) as Hf; [|rewrite Hz in Hf; by apply elem_of_nil in Hf].
       apply list_elem_of_filter. split; [cbn; by rewrite Hv|done]. }
  assert (∃ x, x ∈ spend_loop s_res ∧ is_vault x.2.1.1 = true) as ([idx [[e range] op]] & Hx & Hv).
  { unfold vault_count in Hone. rewrite <- He in Hone.
    destruct (filter is_vault (loop_entries (spend_loop s_res))) as [|e l] eqn:Hf; [done|].
    assert (e ∈ filter is_vault (loop_entries (spend_loop s_res))) as [Hev Hin]%list_elem_of_filter
      by (rewrite Hf; left).
    apply list_elem_of_fmap in Hin as (x & -> & Hx). exists x. split; [done|by apply Is_true_eq_true]. }
  cbn [fst snd] in Hv.
  assert (covenant_spendable e) as Hsp.
  { pose proof es_spendable as Hsp. rewrite list.Forall_forall in Hsp. apply Hsp. rewrite <- He.
    by apply (list_elem_of_fmap_2 (λ x, x.2.1.1) _ (idx, (e, range, op))). }
  destruct (vault_data e Hsp Hv) as (v & Hs & Hd).
  rewrite list.Forall_forall in Hr. destruct (Hr _ Hx) as [ws Hws]. cbn [fst snd] in Hws.
  assert ((idx, (e, ws)) ∈ enumerate (zip es wss)) as Hin.
  { rewrite <- Heq. apply list_elem_of_fmap. exists (idx, (e, range, op)). split; [|done].
    unfold items_at. cbn [fst snd]. by rewrite Hws. }
  pose proof (enum_index_small _ Hin) as Hi. cbn [fst] in Hi.
  eapply accepts_iff; [|apply (accepts_vault s_added es idx e range ws v)]; try done.
  - intros []. split.
    + intros Hrule idx' e' ws' v' Hin' Hv' Hs' Hd'.
      assert ((idx', (e', ws')) = (idx, (e, ws))) as [= -> -> ->].
      { apply (filter_unique (λ x : Z * (UtxoEntry * list WitnessItem), is_vault x.2.1) (enumerate (zip es wss)));
          [|done|done|cbn; by rewrite Hv'|cbn; by rewrite Hv].
        pose proof (vault_count_zip 0 es wss Hlen) as Hz. rewrite enumerate_enum. lia. }
      rewrite (enc_vault_inj v' v); [done..|]. congruence.
    + intros Hall. by eapply Hall.
  - cbn [s_added as_vault_input_count]. by rewrite Hc.
  - cbn [s_added as_vault_spend]. unfold s_spent.
    rewrite (spents_vault s_res _ idx e range op); [|unfold vault_count in Hvc; by rewrite He|done..].
    unfold vault_after, after_spend. rewrite Hv, Hi, (vault_capture_Ok e range idx v Hs Hd). done.
Qed.

Lemma finish_Ok r : apply_finish s_added = Ok r ↔
  sum_outputs (outputs tx) ≤ sum_values es
  ∧ (sum_values (filter is_vault es) ≤ sum_outputs (outputs tx) ∨ vault_count es = 0)
  ∧ r = result_after es.
Proof.
  destruct spent_facts as (H1 & H2 & _ & _ & H5 & H6 & _ & H8). destruct Hres as (_ & _ & Hvc).
  pose proof (vault_count_nonneg es).
  unfold apply_finish, s_added, result_after, ledger_after.
  cbn [as_sum_in as_sum_out as_sum_in_vault as_vault_input_count as_work].
  rewrite H1, H2, H5, H6, H8, Z.add_0_l.
  destruct (_ <? _) eqn:Hv; [split; [done|lia]|].
  destruct (_ && _) eqn:Hvv; [split; [done|lia]|]. split.
  - intros [= <-]. split_and!; [lia|lia|done].
  - by intros (_ & _ & ->).
Qed.

Lemma accepts_rest :
  accepts tx (state ← validate_spends ctx s_res; state ← lift (add_outputs ctx state);
              _ ← lift (validate_vault_creation ctx state); _ ← validate_vault_spend ctx state;
              lift (apply_finish state))
    (λ r, spends_allowed es wss ∧ vaults_owned es ∧ vaults_unlocked es wss
          ∧ sum_outputs (outputs tx) ≤ sum_values es
          ∧ (sum_values (filter is_vault es) ≤ sum_outputs (outputs tx) ∨ vault_count es = 0)
          ∧ r = result_after es).
Proof.
  destruct spent_facts as (_ & _ & Hl & Ht & _ & _ & Hcv & _).
  eapply accepts_iff; [|apply (accepts_bind tx _ _ (λ s, spends_allowed es wss ∧ s = s_spent) (λ _ r, vaults_owned es ∧ vaults_unlocked es wss
    ∧ apply_finish s_added = Ok r)); [apply accepts_all_spends|]].
  { intros r. cbv beta. setoid_rewrite finish_Ok. split; [intros (s & [? _] & ?); tauto|].
    intros (? & ?). exists s_spent. tauto. }
  intros s [_ ->]. rewrite added_Ok.
  eapply accepts_iff; [|apply (accepts_bind tx _ _ (λ s, s = s_added) (λ _ r, vaults_owned es
    ∧ vaults_unlocked es wss ∧ apply_finish s_added = Ok r));
    [apply accepts_lift; intros; split; congruence|]].
  { intros r. cbv beta. split; [by intros (s & _ & ?)|]. intros ?. by exists s_added. }
  intros s ->.
  eapply accepts_iff; [|apply (accepts_bind tx _ _ (λ _, vaults_owned es) (λ _ r,
    vaults_unlocked es wss ∧ apply_finish s_added = Ok r)); [apply accepts_lift|]].
  { intros r. cbv beta. split; [by intros (s & ? & ?)|]. intros [? ?]. by exists (). }
  { intros []. apply vault_creation_Ok; [done..| |done]. cbn [s_added as_creates_vault]. by rewrite Hcv. }
  intros [] _.
  eapply accepts_iff; [|apply (accepts_bind tx _ _ (λ _, vaults_unlocked es wss) (λ _ r,
    apply_finish s_added = Ok r)); [apply accepts_vaults|intros [] _; by apply accepts_lift]].
  intros r. cbv beta. split; [by intros (s & ? & ?)|]. intros [? ?]. by exists ().
Qed.
End after_resolution.

Lemma apply_Ok r : tx_valid tx → map_Forall (λ _ e, is_u 64 (ue_value e)) (cx_utxo_set ctx) →
  inline_apply ctx = Ok r ↔ ∃ es wss, accepted es wss ∧ r = result_after es.
Proof.
  intros Htx Hutxo. unfold inline_apply, apply_impl. pose proof (wire_outputs_len tx Htx) as Hlen.
  destruct (validate_apply_inputs ctx) as [[]|e] eqn:Hv; unfold validate_apply_inputs in Hv.
  2: { simpl. split; [done|]. intros (es & wss & [Hn Hi Hc _ _ _ _ _ _ _] & _).
       rewrite (proj2 (Z.eqb_neq _ _) Hn), bool_decide_eq_false_2 in Hv by done. congruence. }
  destruct (tx_nonce tx =? 0) eqn:Hn; [done|]. case_bool_decide as Hi; [done|].
  apply Z.eqb_neq in Hn. cbn [mbind result_bind].
  destruct (prehash_cache_new_ok tx) as (c & -> & Hcache). unfold apply_body.
  pose proof (resolve_inputs_Ok ctx) as Hro.
  destruct (resolve_inputs ctx (utxo_apply_state_new ctx)) as [s|e] eqn:Hr.
  2: { rewrite st_lift_Err. split; [done|]. intros (es & wss & [_ _ _ Hrs Hw _ _ _ _ _] & _).
       by discriminate (proj2 (Hro _) (ex_intro _ es (ex_intro _ wss (conj Hrs (conj Hw eq_refl))))). }
  destruct (proj1 (Hro s) eq_refl) as (es & wss & Hrs & Hw & ->).
  assert (values_fit es) as Hvals.
  { destruct Hrs as (HF & _). clear -HF Hutxo. induction HF as [|i e l es (_ & Hl & _) HF IH]; constructor; [|done].
    by apply (Hutxo _ e Hl). }
  assert (Forall (output_allowed (tx_kind tx) (cx_height ctx) (cx_rp ctx)) (outputs tx)) as Hcov
    by (by apply (covenants_genesis_sound tx (cx_height ctx) (cx_rotation ctx))).
  destruct (accepts_rest es wss Htx Hvals Hcov Hrs Hw c Hcache) as (r0 & c' & Hrun & _ & Hr0).
  rewrite st_lift_Ok. fold (s_res es). rewrite Hrun. simpl fst. rewrite Hr0. split.
  - intros (? & ? & ? & ? & ? & ->). exists es, wss. by split.
  - intros (es' & wss' & [_ _ _ Hrs' Hw' ? ? ? ? ?] & ->).
    assert (es' = es) as ->.
    { assert (s_res es = s_res es') as Heq; [|by injection Heq].
      apply (Ok_inj (E := TxError)). apply (Hro (s_res es')). by eauto 10. }
    rewrite (witness_split_unique _ _ _ _ Hw' Hw) in *. by split_and!.
Qed.

(** C20: what applying a transaction means.  Over a ledger of 64-bit values, a
    transaction that came off the wire is accepted, with signatures checked
    inline, exactly when: it has a nonce and inputs and its outputs obey the
    covenant rules; its inputs name distinct outputs that exist, can be spent
    and are mature, at most one of them a vault; its witness splits among the
    inputs in order and authorizes each of them; vaults are created by their
    owner and spent under their rules; and no more value leaves than enters,
    a vault's value never paying the fee.  The new ledger is then the old one
    without the spent outputs and with the created ones, and the fee is the
    exact difference of the values. *)
Theorem apply_iff r : tx_valid tx → map_Forall (λ _ e, is_u 64 (ue_value e)) (cx_utxo_set ctx) →
  inline_apply ctx = Ok r ↔ ∃ es wss, accepted es wss ∧ r = result_after es.
Proof. apply apply_Ok. Qed.

(** ** Conservation of value *)

Definition total (m : UtxoMap) : Z := map_fold (λ _ e n, ue_value e + n) 0 m.

Lemma total_insert m op e : m !! op = None → total (<[op := e]> m) = ue_value e + total m.
Proof. intros Hm. unfold total. rewrite map_fold_insert_L; [done|intros; lia|done]. Qed.

Lemma total_delete m op e : m !! op = Some e → total m = ue_value e + total (delete op m).
Proof.
  intros Hm. rewrite <- (total_insert _ op e) by apply lookup_delete_eq. by rewrite insert_delete_id.
Qed.

Lemma total_union m1 m2 : m1 ##ₘ m2 → total (m1 ∪ m2) = total m1 + total m2.
Proof.
  induction m1 as [|op e m1 Hm IH] using map_ind; intros Hd.
  - rewrite (left_id_L ∅ (∪)). unfold total at 2. by rewrite map_fold_empty.
  - apply map_disjoint_insert_l in Hd as [Hm2 Hd]. rewrite <- insert_union_l, !total_insert, IH by
      (done || by apply lookup_union_None). lia.
Qed.

Lemma total_spent l m es height : Forall2 (input_resolves m height) l es → NoDup (outpoint_of <$> l) →
  total m = sum_values es + total (filter (λ p, p.1 ∉ (outpoint_of <$> l)) m).
Proof.
  rewrite <- foldl_delete. intros HF.
  assert (Forall2 (λ i e, m !! outpoint_of i = Some e) l es) as HF' by
    (eapply list.Forall2_impl; [exact HF|by intros i e (_ & ? & _)]).
  clear HF. revert m es HF'. induction l as [|i l IH]; intros m es HF' Hnd.
  - apply list.Forall2_nil_inv_l in HF' as ->. done.
  - apply list.Forall2_cons_inv_l in HF' as (e & es' & He & HF & ->).
    rewrite fmap_cons in *. apply list.NoDup_cons in Hnd as [Hni Hnd]. cbn [foldl sum_values foldr].
    rewrite (total_delete m _ e He). rewrite (IH (delete (outpoint_of i) m) es'); [unfold sum_values; lia| |done].
    clear -HF Hni. induction HF as [|j e' l es' Hj HF IH]; constructor.
    + rewrite lookup_delete_ne; [done|]. intros Heq. apply Hni. rewrite Heq. left.
    + apply IH. intros Hin. apply Hni. by right.
Qed.

Lemma total_created k outs : Forall (λ o, unspendable_type (covenant_type o) = true → value o = 0) outs →
  total (created_from k outs) = sum_outputs outs.
Proof.
  intros HF. revert k. induction HF as [|o outs Ho HF IH]; intros k; cbn [created_from sum_outputs foldr]; [done|].
  destruct (unspendable_type _); [rewrite IH; unfold sum_outputs; specialize (Ho eq_refl); lia|].
  rewrite total_insert by (apply created_from_None; lia). rewrite IH. done.
Qed.

Lemma created_keys k outs op : is_Some (created_from k outs !! op) → op_txid op = cx_txid ctx.
Proof.
  revert k; induction outs as [|o outs IH]; intros k; cbn [created_from].
  - rewrite lookup_empty. by intros [? ?].
  - destruct (unspendable_type _); [apply IH|].
    intros [e [[<- _]|[_ He]]%lookup_insert_Some]; [done|]. eapply IH. by exists e.
Qed.

(** C21: value is conserved.  When a transaction is accepted on a ledger that
    holds no output under its own txid, the whole value of the new ledger plus
    the fee is the whole value of the old one, the fee is not negative, and
    the reported number of outputs is the size of the new ledger. *)
Theorem apply_conserves work summary :
  tx_valid tx → map_Forall (λ _ e, is_u 64 (ue_value e)) (cx_utxo_set ctx) →
  (∀ op, op_txid op = cx_txid ctx → cx_utxo_set ctx !! op = None) →
  inline_apply ctx = Ok (work, summary) →
  total work + us_fee summary = total (cx_utxo_set ctx) ∧ 0 ≤ us_fee summary
  ∧ us_utxo_count summary = Z.of_nat (size work).
Proof.
  intros Htx Hutxo Hfresh H. apply apply_Ok in H as (es & wss & [_ _ Hcov (HF & Hnd & _) _ _ _ _ Hle _] & H);
    [|done..]. injection H as -> ->. cbn [us_fee us_utxo_count]. split_and!; [|lia|done].
  assert (Forall (λ o, unspendable_type (covenant_type o) = true → value o = 0) (outputs tx)) as Hz.
  { apply covenants_genesis_sound in Hcov; [|by apply wire_outputs_len].
    eapply list.Forall_impl; [exact Hcov|]. intros o Ho Hu. unfold output_allowed, unspendable_type in *.
    cov_consts. destruct_or!; destruct_and?; lia. }
  unfold ledger_after. rewrite total_union, total_created, (total_spent _ _ _ _ HF Hnd); [lia|done|].
  apply map_disjoint_spec. intros op e1 e2 H1 [H2 _]%map_lookup_filter_Some.
  rewrite Hfresh in H2; [done|]. eapply created_keys. by eexists.
Qed.
End ledger.

(** ** Witnesses *)

Lemma spend_utxo_fits : map_Forall (λ _ e, is_u 64 (ue_value e)) spend_utxo.
Proof. apply map_Forall_insert_2; [done|]. by apply map_Forall_singleton. Qed.

Definition spend_work : UtxoMap :=
  {[ mkOutpoint (replicate 32 x0b) 0 := mkUtxoEntry 90 COV_TYPE_P2PK (x01 :: replicate 32 x09) 500 false;
     mkOutpoint (replicate 32 x08) 0 := mkUtxoEntry 40 COV_TYPE_P2PK (x01 :: demo_chain) 5 false ]}.

Lemma spend_ctx_applies :
  inline_apply (HS := toy_sha3) (HO := toy_openssl) spend_ctx = Ok (spend_work, mkUtxoApplySummary 10 2).
Proof. apply (bool_decide_eq_true_1 _). vm_compute. reflexivity. Qed.

Lemma apply_iff_witness :
  inline_apply (HS := toy_sha3) (HO := toy_openssl) spend_ctx = Ok (spend_work, mkUtxoApplySummary 10 2) ∧
  (inline_apply (HS := toy_sha3) (HO := toy_openssl) spend_ctx = Ok (spend_work, mkUtxoApplySummary 10 2) ↔
   ∃ es wss, accepted (HS := toy_sha3) (HO := toy_openssl) spend_ctx es wss
     ∧ (spend_work, mkUtxoApplySummary 10 2) = result_after spend_ctx es).
Proof.
  split; [exact spend_ctx_applies|].
  apply (apply_iff (HS := toy_sha3) (HO := toy_openssl)); [exact spend_tx_valid|exact spend_utxo_fits].
Defined.

Lemma apply_conserves_witness :
  total spend_work + 10 = total spend_utxo ∧ 0 ≤ 10 ∧ 2 = Z.of_nat (size spend_work).
Proof.
  apply (apply_conserves (HS := toy_sha3) (HO := toy_openssl) spend_ctx spend_work (mkUtxoApplySummary 10 2));
    [exact spend_tx_valid|exact spend_utxo_fits| |exact spend_ctx_applies].
  intros [t n] Ht. simpl in Ht. subst t. simpl. unfold spend_utxo.
  rewrite lookup_insert_ne by (intros [= ?]). apply lookup_singleton_ne. intros [= ?].
Defined.
