(* ===== verification/BlockParse.v ===== *)
(** * Parsing a block ([block_basic.rs], [block_basic/parser.rs])

    A block is its header, a count and its transactions, with nothing after
    them; the parser keeps the ids of each transaction. *)

From S2P Require Import Prelude Bytes Errors Constants Crypto WireRead CompactSize TxWire TxCodec Block.

(* rust: block_basic.rs 27-34 ParsedBlock *)
Record ParsedBlock : Type := mkParsedBlock {
  pb_header : BlockHeader; pb_header_bytes : bytes; pb_tx_count : Z; pb_txs : list Tx;
  pb_txids : list bytes; pb_wtxids : list bytes }.

Section parser.
  Context `{HS : Sha3}.

(* rust: block_basic/parser.rs 56-79 parse_next_block_tx *)
Definition parse_next_block_tx (block_bytes : bytes) : Parser (Tx * bytes * bytes) := λ r,
  let rem := drop (Z.to_nat (BLOCK_HEADER_BYTES + offset r)) block_bytes in
  if bool_decide (rem = []) then tx_err BlockErrParse "unexpected EOF in tx list" else
  '(tx, txid, wtxid, consumed) ← parse_tx rem;
  if consumed =? 0 then tx_err BlockErrParse "zero-length tx parse" else
  map_err (λ _, mkTxError BlockErrParse "unexpected EOF in tx list")
    ('(_, r) ← read_bytes consumed r; Ok (tx, txid, wtxid, r)).

(** [for _ in 0..tx_count]: every pass reads at least one byte, so one pass
    more than there are bytes ends the loop ([parse_block_txs_fuel]). *)
(* rust: block_basic/parser.rs 33-38 parse_block_bytes_impl *)
Fixpoint parse_block_txs (fuel : nat) (block_bytes : bytes) (tx_count : Z) :
    Parser (list (Tx * bytes * bytes)) := λ r,
  if tx_count =? 0 then Ok ([], r) else
  match fuel with
  | O => tx_err BlockErrParse "unexpected EOF in tx list"
  | S fuel =>
      '(x, r) ← parse_next_block_tx block_bytes r;
      '(xs, r) ← parse_block_txs fuel block_bytes (tx_count - 1) r;
      Ok (x :: xs, r)
  end.

(* rust: block_basic/parser.rs 8-54 parse_block_bytes_impl *)
Definition parse_block_bytes_impl (block_bytes : bytes) : res ParsedBlock :=
  if len block_bytes <? BLOCK_HEADER_BYTES + 1 then tx_err BlockErrParse "block too short" else
  let header_bytes := slice 0 BLOCK_HEADER_BYTES block_bytes in
  header ← map_err (λ _, mkTxError BlockErrParse "invalid block header")
             (parse_block_header_bytes header_bytes);
  let r := reader_new (drop (Z.to_nat BLOCK_HEADER_BYTES) block_bytes) in
  '(tx_count, _, r) ← map_err (λ _, mkTxError BlockErrParse "invalid tx_count") (read_compact_size r);
  if tx_count =? 0 then tx_err BlockErrCoinbaseInvalid "empty block tx list" else
  '(xs, r) ← parse_block_txs (S (length block_bytes)) block_bytes tx_count r;
  if negb (BLOCK_HEADER_BYTES + offset r =? len block_bytes)
  then tx_err BlockErrParse "trailing bytes after tx list" else
  Ok (mkParsedBlock header header_bytes tx_count ((λ x, x.1.1) <$> xs) ((λ x, x.1.2) <$> xs)
        ((λ x, x.2) <$> xs)).

(* rust: block_basic.rs 55-59 parse_block_bytes *)
Definition parse_block_bytes (block_bytes : bytes) : res ParsedBlock := parse_block_bytes_impl block_bytes.
End parser.

(** ** Blocks and their bytes *)

Section blocks.
Context `{HS : Sha3}.

(** What the parser keeps of a transaction. *)
Definition with_ids (tx : Tx) : Tx * bytes * bytes :=
  (tx, sha3_256 (enc_tx_core tx), sha3_256 (enc_tx tx)).
Definition ids_valid (x : Tx * bytes * bytes) : Prop := tx_valid x.1.1 ∧ x = with_ids x.1.1.

Definition block_valid (pb : ParsedBlock) : Prop :=
  header_valid (pb_header pb) ∧ pb_header_bytes pb = enc_header (pb_header pb)
  ∧ pb_tx_count pb = len (pb_txs pb) ∧ 0 < pb_tx_count pb ∧ Forall tx_valid (pb_txs pb)
  ∧ pb_txids pb = (λ tx, sha3_256 (enc_tx_core tx)) <$> pb_txs pb
  ∧ pb_wtxids pb = (λ tx, sha3_256 (enc_tx tx)) <$> pb_txs pb.
Definition enc_block (pb : ParsedBlock) : bytes :=
  enc_header (pb_header pb) ++ enc_list enc_tx (pb_txs pb).

Lemma enc_tx_nonempty tx : 1 ≤ len (enc_tx tx).
Proof.
  unfold enc_tx, enc_tx_core, enc_prefix, u32_le. rewrite <- !app_assoc, length_app, le_encode_length. lia.
Qed.

(** The reader of the transactions is at the bytes the code slices. *)
Definition after_header (block_bytes : bytes) (r : Reader) : Prop :=
  reader_wf r ∧ rd_b r = drop (Z.to_nat BLOCK_HEADER_BYTES) block_bytes.

Lemma after_header_rest b r : after_header b r →
  drop (Z.to_nat (BLOCK_HEADER_BYTES + offset r)) b = rest r.
Proof.
  intros [[Ho _] Hb]. unfold rest. rewrite Hb, drop_drop. f_equal. unfold offset, BLOCK_HEADER_BYTES. lia.
Qed.

Lemma after_header_advance b r w : after_header b r → w `prefix_of` rest r →
  after_header b (advance r (len w)).
Proof. intros [Hr Hb] Hw. split; [auto with rubin|done]. Qed.

Lemma parse_next_Ok b r x r' : after_header b r →
  parse_next_block_tx b r = Ok (x, r') ↔
  ids_valid x ∧ enc_tx x.1.1 `prefix_of` rest r ∧ r' = advance r (len (enc_tx x.1.1)).
Proof.
  intros Hah. unfold parse_next_block_tx. rewrite (after_header_rest b r) by done.
  pose proof Hah as [Hr _].
  assert (len (rest r) ≤ isize_max) as Hl by (rewrite rest_length by done; destruct Hr; lia). split.
  - intros H. case_bool_decide; [done|]. apply bind_Ok in H as ([[[tx txid] wtxid] n] & Hx & H). inv_res.
    apply parse_tx_Ok in Hx as (Hv & Hp & -> & -> & ->); [|done].
    apply (decodes_inv _) in Hx0 as (Hlw & _ & -> & _); [|done].
    cbn [fst snd]. unfold id in *. rewrite Hlw. done.
  - destruct x as [[tx txid] wtxid]. unfold ids_valid, with_ids. cbn [fst snd].
    intros ((Hv & [= -> ->]) & Hp & ->). pose proof (enc_tx_nonempty tx) as Hne.
    rewrite bool_decide_eq_false_2. 2: { intros Hnil. rewrite Hnil in Hp. apply prefix_length in Hp. simpl in Hp. lia. }
    rewrite (proj2 (parse_tx_Ok (rest r) tx _ _ _ Hl) (conj Hv (conj Hp (conj eq_refl (conj eq_refl eq_refl))))).
    run_bind. decide_if. rewrite (decodes_run (read_bytes (len (enc_tx tx))) r (enc_tx tx)) by done. done.
Qed.

Lemma parse_block_txs_Ok fuel b count r xs r' : after_header b r → 0 ≤ count →
  len (rest r) < Z.of_nat fuel →
  parse_block_txs fuel b count r = Ok (xs, r') ↔
  len xs = count ∧ Forall ids_valid xs
  ∧ concat_map enc_tx ((λ x, x.1.1) <$> xs) `prefix_of` rest r
  ∧ r' = advance r (len (concat_map enc_tx ((λ x, x.1.1) <$> xs))).
Proof.
  revert count r xs r'. induction fuel as [|fuel IH]; intros count r xs r' Hah Hc Hf; [lia|].
  cbn [parse_block_txs]. destruct (count =? 0) eqn:H0.
  { split.
    - intros [= <- <-]. split_and!; [simpl; lia|constructor|apply prefix_nil|]. simpl. by rewrite advance_0.
    - intros (Hl & _ & _ & ->). assert (xs = []) as -> by (apply len_0_nil; lia). simpl. by rewrite advance_0. }
  pose proof Hah as [Hr _]. split.
  - intros H. apply bind_Ok in H as ([x r1] & (Hv & Hp & ->)%parse_next_Ok & H); [|done].
    apply bind_Ok in H as ([ys r2] & H & [= <- <-]).
    pose proof (enc_tx_nonempty x.1.1). pose proof (rest_advance r (enc_tx x.1.1) Hr) as Hra.
    assert (len (rest (advance r (len (enc_tx x.1.1)))) < Z.of_nat fuel) as Hlt.
    { rewrite Hra, length_drop. apply prefix_length in Hp. lia. }
    apply IH in H as (Hl & Hvs & Hps & ->); [|by apply after_header_advance|lia|done].
    rewrite fmap_cons, concat_map_cons, prefix_app_advance, <- advance_app by done.
    split_and!; [rewrite length_cons; lia|by constructor|done..].
  - intros (Hl & Hvs & Hp & ->). destruct xs as [|x xs]; [simpl in Hl; lia|].
    apply Forall_cons_1 in Hvs as [Hv Hvs]. rewrite length_cons in Hl.
    rewrite fmap_cons, concat_map_cons, prefix_app_advance in Hp by done. destruct Hp as [Hp Hps].
    rewrite (proj2 (parse_next_Ok b r x _ Hah) (conj Hv (conj Hp eq_refl))). run_bind.
    pose proof (enc_tx_nonempty x.1.1). pose proof (rest_advance r (enc_tx x.1.1) Hr) as Hra.
    assert (len (rest (advance r (len (enc_tx x.1.1)))) < Z.of_nat fuel) as Hlt.
    { rewrite Hra, length_drop. apply prefix_length in Hp. lia. }
    assert (after_header b (advance r (len (enc_tx x.1.1)))) as Hah' by (by apply after_header_advance).
    assert (0 ≤ count - 1 ∧ len xs = count - 1) as [Hc' Hl'] by lia.
    rewrite (proj2 (IH _ _ xs _ Hah' Hc' Hlt) (conj Hl' (conj Hvs (conj Hps eq_refl)))).
    run_bind. rewrite fmap_cons, concat_map_cons. by rewrite advance_app.
Qed.

(** One pass more than there are bytes is always enough: the loop's fuel is
    never what stops it. *)
Lemma parse_block_txs_fuel fuel1 fuel2 b count r : after_header b r → 0 ≤ count →
  len (rest r) < Z.of_nat fuel1 → len (rest r) < Z.of_nat fuel2 →
  parse_block_txs fuel1 b count r = parse_block_txs fuel2 b count r.
Proof.
  revert fuel2 count r. induction fuel1 as [|fuel1 IH]; intros [|fuel2] count r Hah Hc H1 H2; try lia.
  cbn [parse_block_txs]. destruct (count =? 0) eqn:H0; [done|].
  destruct (parse_next_block_tx b r) as [[x r1]|e] eqn:Hx; [|done]. run_bind.
  apply parse_next_Ok in Hx as (_ & Hp & ->); [|done]. pose proof Hah as [Hr _].
  pose proof (enc_tx_nonempty x.1.1). pose proof (rest_advance r (enc_tx x.1.1) Hr) as Hra.
  apply prefix_length in Hp as Hpl.
  rewrite (IH fuel2); [done|by apply after_header_advance|lia|rewrite Hra, length_drop; lia..].
Qed.

Lemma ids_valid_fmap xs : Forall ids_valid xs ↔ ∃ txs, Forall tx_valid txs ∧ xs = with_ids <$> txs.
Proof.
  split.
  - induction 1 as [|x xs [Hv Hx] _ (txs & ? & ->)]; [by exists []|].
    exists (x.1.1 :: txs). split; [by constructor|]. rewrite fmap_cons. by f_equal.
  - intros (txs & HF & ->). apply Forall_fmap. eapply list.Forall_impl; [exact HF|]. by intros tx Hv.
Qed.

Lemma parse_block_Ok b pb : len b ≤ isize_max →
  parse_block_bytes b = Ok pb ↔ block_valid pb ∧ len (pb_txs pb) ≤ u64_max ∧ b = enc_block pb.
Proof.
  intros Hb. unfold parse_block_bytes, parse_block_bytes_impl, block_valid, enc_block.
  change BLOCK_HEADER_BYTES with 116.
  set (r0 := reader_new (drop (Z.to_nat 116) b)).
  assert (reader_wf r0) as Hr0 by (apply reader_new_wf; rewrite length_drop; lia). split.
  - intros H. destruct (len b <? 116 + 1) eqn:Hlen; [done|].
    apply bind_Ok in H as (header & [Hh Hhb]%map_err_Ok%parse_block_header_bytes_Ok & H).
    apply bind_Ok in H as ([[count cl] r1] & Hx%map_err_Ok & H).
    apply (decodes_inv _) in Hx as ([Hc Hcl] & Hp & -> & Hr1); [|done]. cbn [fst snd] in *. unfold is_u in Hc.
    destruct (count =? 0) eqn:H0; [done|]. apply bind_Ok in H as ([xs r2] & Hx & H).
    assert (after_header b (advance r0 (len (compact_size count)))) as Hah by done.
    apply parse_block_txs_Ok in Hx as (Hl & Hvs & Hps & ->); [|done|lia|].
    2: { rewrite rest_length by done. unfold advance; simpl. rewrite length_drop. lia. }
    destruct (negb _) eqn:Hend in H; [done|]. injection H as <-.
    apply ids_valid_fmap in Hvs as (txs & Htxs & ->).
    cbn [pb_header pb_header_bytes pb_tx_count pb_txs pb_txids pb_wtxids].
    rewrite length_fmap in Hl. rewrite <- !list_fmap_compose in *. unfold compose in *. cbn [with_ids fst snd] in *.
    rewrite list_fmap_id in *. unfold u64_max. split; [split_and!; try done; lia|]. split; [lia|].
    rewrite <- (take_drop 116 b). f_equal.
    { unfold slice in Hhb. rewrite drop_0 in Hhb. exact Hhb. }
    apply (conj Hp) in Hps. apply prefix_app_advance in Hps; [|done]. unfold enc_list. rewrite Hl.
    change (rest r0) with (drop (Z.to_nat 116) b) in Hps. destruct Hps as [k Hk].
    assert (k = []) as ->; [|etransitivity; [exact Hk|by rewrite app_nil_r]]. apply len_0_nil.
    apply (f_equal length) in Hk. rewrite !length_app, length_drop in Hk.
    apply negb_false_iff, Z.eqb_eq in Hend. unfold offset, advance in Hend. cbn [rd_off r0 reader_new] in Hend.
    simpl in Hend. lia.
  - destruct pb as [h hb n txs txids wtxids].
    cbn [pb_header pb_header_bytes pb_tx_count pb_txs pb_txids pb_wtxids].
    intros ((Hh & -> & -> & Hpos & Htxs & -> & ->) & Hmax & ->).
    pose proof (enc_header_length h Hh) as Hhl. change BLOCK_HEADER_BYTES with 116 in Hhl.
    set (body := enc_list enc_tx txs) in *.
    assert (slice 0 116 (enc_header h ++ body) = enc_header h) as Hs.
    { unfold slice. rewrite drop_0. replace (Z.to_nat (116 - 0)) with (length (enc_header h)) by lia.
      by rewrite take_app_length. }
    assert (drop (Z.to_nat 116) (enc_header h ++ body) = body) as Hd.
    { replace (Z.to_nat 116) with (length (enc_header h)) by lia. by rewrite drop_app_length. }
    pose proof (compact_size_bound (len txs)) as Hcs. rewrite length_app in Hb |- *.
    assert (len body = len (compact_size (len txs)) + len (concat_map enc_tx txs)) as Hbody.
    { unfold body, enc_list. rewrite length_app. lia. }
    destruct (_ <? _) eqn:Hlen; [lia|]. rewrite Hs.
    assert (parse_block_header_bytes (enc_header h) = Ok h) as -> by (by apply parse_block_header_Ok).
    cbn [map_err]. run_bind. subst r0. rewrite Hd. rewrite Hd in Hr0.
    rewrite (decodes_run read_compact_size _ (len txs, len (compact_size (len txs)))); cbn [fst snd];
      [|done|split; [cbn [fst]; unfold is_u, u64_max in *; lia|done]|by apply prefix_app_r].
    cbn [map_err]. run_bind. decide_if.
    set (r1 := advance (reader_new body) (len (compact_size (len txs)))).
    assert (reader_wf r1) as Hr1 by (apply advance_wf; [done|by apply prefix_app_r]).
    assert (rest r1 = concat_map enc_tx txs) as Hrest.
    { unfold r1. rewrite rest_advance by done. unfold body, enc_list. change (rest (reader_new ?x)) with x.
      by rewrite drop_app_length. }
    assert (after_header (enc_header h ++ body) r1) as Hah
      by (split; [done|]; change BLOCK_HEADER_BYTES with 116; by rewrite Hd).
    assert ((λ x : Tx * bytes * bytes, x.1.1) <$> (with_ids <$> txs) = txs) as Hfst
      by (rewrite <- list_fmap_compose; apply list_fmap_id).
    assert (len (rest r1) < Z.of_nat (S (length (enc_header h) + length body))) as Hfuel
      by (rewrite Hrest; lia).
    rewrite (proj2 (parse_block_txs_Ok _ _ (len txs) r1 (with_ids <$> txs)
      (advance r1 (len (concat_map enc_tx txs))) Hah ltac:(lia) Hfuel)).
    2: { rewrite Hfst, length_fmap, Hrest. split_and!; [done| |done|done].
         apply ids_valid_fmap. by exists txs. }
    run_bind. unfold r1, offset, advance. cbn [rd_off reader_new]. decide_if. rewrite Hfst.
    by rewrite <- !list_fmap_compose.
Qed.

(** C29: a block is its bytes.  On any buffer the parser accepts exactly the
    canonical encodings: the header, the minimal count of the transactions,
    and that many well-formed transactions with nothing after them; the ids it
    keeps are the digests of the core and of the whole of each transaction. *)
Theorem parse_block_canonical b pb : len b ≤ isize_max →
  parse_block_bytes b = Ok pb ↔ block_valid pb ∧ len (pb_txs pb) ≤ u64_max ∧ b = enc_block pb.
Proof. apply parse_block_Ok. Qed.
End blocks.

(** ** Witness *)

Definition demo_header : BlockHeader :=
  mkBlockHeader 1 (replicate 32 x00) (replicate 32 x11) 5 (replicate 32 xff) 7.
Definition demo_block_bytes : bytes := enc_header demo_header ++ [x01] ++ demo_bytes.

Lemma parse_block_canonical_witness :
  len demo_block_bytes ≤ isize_max ∧
  ∃ pb, parse_block_bytes (HS := toy_sha3) demo_block_bytes = Ok pb ∧ block_valid (HS := toy_sha3) pb
    ∧ len (pb_txs pb) ≤ u64_max ∧ demo_block_bytes = enc_block pb.
Proof.
  assert (len demo_block_bytes ≤ isize_max) as Hl by (vm_compute; discriminate). split; [exact Hl|].
  assert (is_ok (parse_block_bytes (HS := toy_sha3) demo_block_bytes) = true) as [pb Hpb]%is_ok_true
    by (vm_compute; reflexivity).
  exists pb. split; [exact Hpb|]. by apply (parse_block_canonical (HS := toy_sha3)).
Defined.
