(* ===== verification/BlockWeight.v ===== *)
(** * Transaction weight ([block_basic/weight.rs])

    The weight of a transaction: its base size times four, its witness and
    data-availability sizes, and the cost of verifying its signatures, computed
    from the fields without serializing the transaction. *)

From S2P Require Import Prelude Bytes Errors Constants Crypto WireRead CompactSize TxWire TxCodec Suites.

(* rust: block_basic/weight.rs 195-197 weight_overflow *)
Definition weight_overflow : TxError := mkTxError TxErrParse "u64 overflow".
(* rust: block_basic/weight.rs 191-193 checked_add *)
Definition weight_add (a b : Z) : res Z := ok_or (checked_add u64_max a b) weight_overflow.

(* rust: block_basic/weight.rs 182-189 compact_size_len *)
Definition compact_size_len (n : Z) : Z :=
  if n <=? 0xfc then 1 else if n <=? 0xffff then 3 else if n <=? 0xffffffff then 5 else 9.

(* rust: block_basic/weight.rs 34-42 add_input_sizes *)
Definition add_input_sizes (base_size : Z) (inputs : list TxInput) : res Z :=
  try_fold (λ base_size input,
    base_size ← weight_add base_size (32 + 4);
    base_size ← weight_add base_size (compact_size_len (len (script_sig input)));
    base_size ← weight_add base_size (len (script_sig input));
    weight_add base_size 4) base_size inputs.

(* rust: block_basic/weight.rs 58-60 is_anchor_counted_output *)
Definition is_anchor_counted_output (output : TxOutput) : bool :=
  (covenant_type output =? COV_TYPE_ANCHOR) || (covenant_type output =? COV_TYPE_DA_COMMIT).

(* rust: block_basic/weight.rs 44-56 add_output_sizes *)
Definition add_output_sizes (base_size : Z) (outputs : list TxOutput) : res (Z * Z) :=
  try_fold (λ s output,
    let '(base_size, anchor_bytes) := s in
    base_size ← weight_add base_size (8 + 2);
    let covenant_len := len (covenant_data output) in
    base_size ← weight_add base_size (compact_size_len covenant_len);
    base_size ← weight_add base_size covenant_len;
    anchor_bytes ← (if is_anchor_counted_output output
                    then weight_add anchor_bytes covenant_len else Ok anchor_bytes);
    Ok (base_size, anchor_bytes)) (base_size, 0) outputs.

(* rust: block_basic/weight.rs 24-32 tx_base_size *)
Definition tx_base_size (tx : Tx) : res (Z * Z) :=
  base_size ← weight_add (4 + 1 + 8) (compact_size_len (len (inputs tx)));
  base_size ← add_input_sizes base_size (inputs tx);
  base_size ← weight_add base_size (compact_size_len (len (outputs tx)));
  '(base_size, anchor_bytes) ← add_output_sizes base_size (outputs tx);
  base_size ← weight_add base_size 4;
  core ← da_core_fields_bytes tx;
  base_size ← weight_add base_size (len core);
  Ok (base_size, anchor_bytes).

(* rust: block_basic/weight.rs 75-84 add_witness_item_size *)
Definition add_witness_item_size (witness_size : Z) (w : WitnessItem) : res Z :=
  witness_size ← weight_add witness_size 1;
  witness_size ← weight_add witness_size (compact_size_len (len (pubkey w)));
  witness_size ← weight_add witness_size (len (pubkey w));
  witness_size ← weight_add witness_size (compact_size_len (len (signature w)));
  weight_add witness_size (len (signature w)).

(* rust: block_basic/weight.rs 62-73 tx_witness_size_and_sig_cost *)
Definition tx_witness_size_and_sig_cost (tx : Tx) (sig_cost_fn : WitnessItem → res Z) : res (Z * Z) :=
  try_fold (λ s w,
    let '(witness_size, sig_cost) := s in
    witness_size ← add_witness_item_size witness_size w;
    cost ← sig_cost_fn w;
    sig_cost ← weight_add sig_cost cost;
    Ok (witness_size, sig_cost)) (compact_size_len (len (witness tx)), 0) (witness tx).

(* rust: block_basic/weight.rs 86-91 tx_da_size_and_bytes *)
Definition tx_da_size_and_bytes (tx : Tx) : res (Z * Z) :=
  let da_len := len (da_payload tx) in
  da_size ← weight_add (compact_size_len da_len) da_len;
  let da_bytes := if negb (tx_kind tx =? 0x00) then da_len else 0 in
  Ok (da_size, da_bytes).

(* rust: block_basic/weight.rs 93-105 tx_weight *)
Definition tx_weight (base_size witness_size da_size sig_cost : Z) : res Z :=
  base_weight ← ok_or (checked_mul u64_max WITNESS_DISCOUNT_DIVISOR base_size) weight_overflow;
  weight ← weight_add base_weight witness_size;
  weight ← weight_add weight da_size;
  weight_add weight sig_cost.

(** Weight, data-availability bytes, anchor bytes. *)
(* rust: block_basic/weight.rs 13-22 tx_weight_components *)
Definition tx_weight_components (tx : Tx) (sig_cost_fn : WitnessItem → res Z) : res (Z * Z * Z) :=
  '(base_size, anchor_bytes) ← tx_base_size tx;
  '(witness_size, sig_cost) ← tx_witness_size_and_sig_cost tx sig_cost_fn;
  '(da_size, da_bytes) ← tx_da_size_and_bytes tx;
  weight ← tx_weight base_size witness_size da_size sig_cost;
  Ok (weight, da_bytes, anchor_bytes).

(* rust: block_basic/weight.rs 177-180 has_expected_mldsa87_shape *)
Definition has_expected_mldsa87_shape (w : WitnessItem) : bool :=
  (len (pubkey w) =? ML_DSA_87_PUBKEY_BYTES) && (len (signature w) =? ML_DSA_87_SIG_BYTES + 1).

(* rust: block_basic/weight.rs 112-123 legacy_sig_cost *)
Definition legacy_sig_cost (w : WitnessItem) : res Z :=
  Ok (if suite_id w =? SUITE_ID_SENTINEL then 0
      else if suite_id w =? SUITE_ID_SIMPLICITY_ENVELOPE then SIMPLICITY_BASE_VERIFY_COST
      else if (suite_id w =? SUITE_ID_ML_DSA_87) && has_expected_mldsa87_shape w
      then VERIFY_COST_ML_DSA_87
      else if suite_id w =? SUITE_ID_ML_DSA_87 then 0
      else VERIFY_COST_UNKNOWN_SUITE).

(* rust: block_basic/weight.rs 108-110 tx_weight_and_stats *)
Definition tx_weight_and_stats (tx : Tx) : res (Z * Z * Z) := tx_weight_components tx legacy_sig_cost.
(* rust: block_basic/weight.rs 125-127 tx_weight_and_stats_public *)
Definition tx_weight_and_stats_public (tx : Tx) : res (Z * Z * Z) := tx_weight_and_stats tx.

(** [params.sig_len + 1] is the sum without wrap-around: no registered suite
    has signatures of [u64::MAX] bytes. *)
(* rust: block_basic/weight.rs 149-175 registry_sig_cost *)
Definition registry_sig_cost (native_spend : NativeSuiteSet) (registry : SuiteRegistry) (w : WitnessItem) :
    res Z :=
  if suite_id w =? SUITE_ID_SENTINEL then Ok 0 else
  if suite_id w =? SUITE_ID_SIMPLICITY_ENVELOPE then Ok SIMPLICITY_BASE_VERIFY_COST else
  if negb (ns_contains native_spend (suite_id w)) then Ok VERIFY_COST_UNKNOWN_SUITE else
  match sr_lookup registry (suite_id w) with
  | None => Ok VERIFY_COST_UNKNOWN_SUITE
  | Some params =>
      if (len (pubkey w) =? sp_pubkey_len params) && (len (signature w) =? sp_sig_len params + 1)
      then Ok (sp_verify_cost params) else Ok 0
  end.

(* rust: block_basic/weight.rs 133-147 tx_weight_and_stats_at_height *)
Definition tx_weight_and_stats_at_height (tx : Tx) (height : Z) (rotation : option RotationProvider)
    (registry : option SuiteRegistry) : res (Z * Z * Z) :=
  match rotation, registry with
  | Some r, Some reg =>
      let native_spend := native_spend_suites r height in
      tx_weight_components tx (registry_sig_cost native_spend reg)
  | _, _ => tx_weight_and_stats tx
  end.

(** ** The weight as a formula

    A chain of checked additions of non-negative terms returns the sum exactly
    when the sum is a [u64]. *)

Lemma weight_add_Ok a b c : weight_add a b = Ok c ↔ c = a + b ∧ a + b ≤ u64_max.
Proof. unfold weight_add. by rewrite ok_or_Ok, checked_add_Some. Qed.

Lemma weight_add_run a b : a + b ≤ u64_max → weight_add a b = Ok (a + b).
Proof. intros. by apply weight_add_Ok. Qed.

Definition sum_of {A} (g : A → Z) (l : list A) : Z := foldr (λ x n, g x + n) 0 l.

Lemma sum_of_nonneg {A} (g : A → Z) l : (∀ x, 0 ≤ g x) → 0 ≤ sum_of g l.
Proof. intros Hg. induction l as [|x l IH]; simpl; [done|]. specialize (Hg x). lia. Qed.

Lemma sum_of_len {A} (enc : A → bytes) l : sum_of (λ x, len (enc x)) l = len (concat_map enc l).
Proof. induction l as [|x l IH]; [done|]. rewrite concat_map_cons, length_app. simpl. lia. Qed.

Lemma sum_fold_Ok {A} (f : Z → A → res Z) (g : A → Z) l b b' :
  (∀ x, 0 ≤ g x) → (∀ b x b', f b x = Ok b' ↔ b' = b + g x ∧ b' ≤ u64_max) → b ≤ u64_max →
  try_fold f b l = Ok b' ↔ b' = b + sum_of g l ∧ b' ≤ u64_max.
Proof.
  intros Hg Hf. revert b. induction l as [|x l IH]; intros b Hb; cbn [try_fold sum_of foldr].
  - rewrite Z.add_0_r. split; [by intros [= <-]|by intros (-> & _)].
  - change (foldr (λ y n, g y + n) 0 l) with (sum_of g l). pose proof (sum_of_nonneg g l Hg).
    rewrite bind_Ok. split.
    + intros (b1 & [-> ?]%Hf & (-> & ?)%IH); lia.
    + intros (-> & ?). exists (b + g x). rewrite Hf, IH by lia. lia.
Qed.

(** The same of two totals, each checked by the pass that grows it. *)
Lemma sums_fold_Ok {A} (f : Z * Z → A → res (Z * Z)) (g h : A → Z) l b c b' c' :
  (∀ x, 0 ≤ g x) → (∀ x, 0 ≤ h x) →
  (∀ b c x b' c', c ≤ u64_max →
     f (b, c) x = Ok (b', c') ↔ b' = b + g x ∧ c' = c + h x ∧ b' ≤ u64_max ∧ c' ≤ u64_max) →
  b ≤ u64_max → c ≤ u64_max →
  try_fold f (b, c) l = Ok (b', c') ↔
  b' = b + sum_of g l ∧ c' = c + sum_of h l ∧ b' ≤ u64_max ∧ c' ≤ u64_max.
Proof.
  intros Hg Hh Hf. revert b c. induction l as [|x l IH]; intros b c Hb Hc; cbn [try_fold sum_of foldr].
  - rewrite !Z.add_0_r. split; [by intros [= <- <-]|by intros (-> & -> & _)].
  - change (foldr (λ y n, g y + n) 0 l) with (sum_of g l). change (foldr (λ y n, h y + n) 0 l) with (sum_of h l).
    pose proof (sum_of_nonneg g l Hg). pose proof (sum_of_nonneg h l Hh). rewrite bind_Ok. split.
    + intros ([b1 c1] & (-> & -> & ? & ?)%Hf & (-> & -> & ? & ?)%IH); lia.
    + intros (-> & -> & ? & ?). exists (b + g x, c + h x). rewrite Hf, IH by lia. lia.
Qed.

Lemma compact_size_len_enc n : compact_size_len n = len (compact_size n).
Proof. by rewrite compact_size_length. Qed.

(** The cost of a signature at a height: the flat costs unless both the
    rotation schedule and the registry are given. *)
Definition cost_fn_at (height : Z) (rotation : option RotationProvider) (registry : option SuiteRegistry) :
    WitnessItem → res Z :=
  match rotation, registry with
  | Some r, Some reg => registry_sig_cost (native_spend_suites r height) reg
  | _, _ => legacy_sig_cost
  end.
Definition cost_at (height : Z) (rotation : option RotationProvider) (registry : option SuiteRegistry)
    (w : WitnessItem) : Z :=
  match cost_fn_at height rotation registry w with Ok n => n | Err _ => 0 end.

Lemma cost_fn_at_Ok height rotation registry w :
  cost_fn_at height rotation registry w = Ok (cost_at height rotation registry w).
Proof. unfold cost_at, cost_fn_at, registry_sig_cost, legacy_sig_cost. by repeat case_match. Qed.

Definition costs_nonneg (registry : option SuiteRegistry) : Prop :=
  ∀ reg s p, registry = Some reg → sr_lookup reg s = Some p → 0 ≤ sp_verify_cost p.

Definition anchor_len (o : TxOutput) : Z := if is_anchor_counted_output o then len (covenant_data o) else 0.

Definition full_weight (tx : Tx) (cost : WitnessItem → Z) : Z :=
  WITNESS_DISCOUNT_DIVISOR * len (enc_tx_core tx) + len (enc_list enc_witness (witness tx))
  + len (enc_payload (da_payload tx)) + sum_of cost (witness tx).

Lemma cost_at_nonneg height rotation registry w : costs_nonneg registry → 0 ≤ cost_at height rotation registry w.
Proof.
  intros Hreg. unfold cost_at, cost_fn_at, registry_sig_cost, legacy_sig_cost. repeat case_match; simplify_eq; try done.
  eapply Hreg; eauto.
Qed.

Ltac size_step :=
  match goal with
  | H : weight_add _ _ = Ok _ |- _ => apply weight_add_Ok in H as [-> ?]
  | |- context [weight_add ?a ?b] => rewrite (weight_add_run a b) by lia; run_bind
  | |- context [compact_size_len ?n] => rewrite (compact_size_len_enc n)
  | H : context [compact_size_len ?n] |- _ => rewrite (compact_size_len_enc n) in H
  end.
Ltac sizes := inv_res; repeat size_step.

Lemma sum_of_ext {A} (g h : A → Z) l : Forall (λ x, g x = h x) l → sum_of g l = sum_of h l.
Proof. induction 1 as [|x l Hx _ IH]; [done|]. cbn [sum_of foldr]. unfold sum_of in IH. by rewrite Hx, IH. Qed.

Lemma add_input_sizes_Ok b l b' : Forall input_valid l → b ≤ u64_max →
  add_input_sizes b l = Ok b' ↔ b' = b + len (concat_map enc_input l) ∧ b' ≤ u64_max.
Proof.
  intros Hl Hb. rewrite <- sum_of_len.
  rewrite (sum_of_ext _ (λ i, 40 + len (compact_size (len (script_sig i))) + len (script_sig i))).
  2: { eapply list.Forall_impl; [exact Hl|]. intros i (Hi & _). unfold enc_input.
       rewrite !length_app. unfold u32_le. rewrite !le_encode_length. lia. }
  apply sum_fold_Ok; [intros x; pose proof (compact_size_bound (len (script_sig x))); lia| |done].
  intros n x n'. pose proof (compact_size_bound (len (script_sig x))). split.
  - intros H'. sizes. lia.
  - intros (-> & ?). sizes. f_equal. lia.
Qed.

Lemma add_output_sizes_Ok b l b' a : b ≤ u64_max →
  add_output_sizes b l = Ok (b', a) ↔
  b' = b + len (concat_map enc_output l) ∧ a = sum_of anchor_len l ∧ b' ≤ u64_max ∧ a ≤ u64_max.
Proof.
  intros Hb. rewrite <- sum_of_len.
  rewrite (sum_of_ext _ (λ o, 10 + len (compact_size (len (covenant_data o))) + len (covenant_data o))).
  2: { apply list.Forall_true. intros o. unfold enc_output.
       rewrite !length_app. unfold u64_le, u16_le. rewrite !le_encode_length. lia. }
  unfold add_output_sizes. rewrite sums_fold_Ok; [by rewrite Z.add_0_l|..|done|done].
  - intros x; cbv beta; pose proof (compact_size_bound (len (covenant_data x))); lia.
  - intros x; unfold anchor_len; case_match; lia.
  - intros n c x n' c' Hc. pose proof (compact_size_bound (len (covenant_data x))). unfold anchor_len.
    destruct (is_anchor_counted_output x); split; try (intros H'; sizes; lia);
      intros (-> & -> & ? & ?); sizes; do 2 f_equal; lia.
Qed.

Lemma anchor_len_le l : sum_of anchor_len l ≤ len (concat_map enc_output l).
Proof.
  rewrite <- sum_of_len. induction l as [|o l IH]; [done|]. cbn [sum_of foldr]. unfold sum_of in IH.
  enough (anchor_len o ≤ len (enc_output o)) by lia.
  unfold anchor_len, enc_output. rewrite !length_app. case_match; lia.
Qed.

Lemma add_output_sizes_run b l : 0 ≤ b → b + len (concat_map enc_output l) ≤ u64_max →
  add_output_sizes b l = Ok (b + len (concat_map enc_output l), sum_of anchor_len l).
Proof. intros. pose proof (anchor_len_le l). apply add_output_sizes_Ok; lia. Qed.

Lemma witness_sizes_Ok tx f cost b c : (∀ w, f w = Ok (cost w)) → (∀ w, 0 ≤ cost w) →
  tx_witness_size_and_sig_cost tx f = Ok (b, c) ↔
  b = len (enc_list enc_witness (witness tx)) ∧ c = sum_of cost (witness tx) ∧ b ≤ u64_max ∧ c ≤ u64_max.
Proof.
  intros Hf Hcost. unfold tx_witness_size_and_sig_cost. rewrite compact_size_len_enc.
  unfold enc_list. rewrite length_app, Nat2Z.inj_add, <- sum_of_len.
  rewrite (sum_of_ext _ (λ w, 1 + len (compact_size (len (pubkey w))) + len (pubkey w)
    + len (compact_size (len (signature w))) + len (signature w))).
  2: { apply list.Forall_true. intros o. unfold enc_witness. rewrite !length_app, ?le_encode_length. simpl. lia. }
  pose proof (compact_size_bound (len (witness tx))).
  rewrite sums_fold_Ok; [by rewrite Z.add_0_l|..|unfold u64_max; lia|done].
  - intros x; cbv beta; lia.
  - done.
  - intros n k x n' k' Hk. rewrite Hf. unfold add_witness_item_size.
    pose proof (compact_size_bound (len (pubkey x))). pose proof (compact_size_bound (len (signature x))). split.
    + intros H'. sizes. lia.
    + intros (-> & -> & ? & ?). pose proof (Hcost x). sizes. do 2 f_equal; lia.
Qed.

Lemma enc_tx_core_length tx : len (enc_tx_core tx) =
  13 + len (compact_size (len (inputs tx))) + len (concat_map enc_input (inputs tx))
  + len (compact_size (len (outputs tx))) + len (concat_map enc_output (outputs tx)) + 4
  + len (enc_cores (da_commit_core tx, da_chunk_core tx)).
Proof.
  unfold enc_tx_core, enc_prefix, enc_list. rewrite !length_app. unfold u32_le, u64_le.
  rewrite !le_encode_length. lia.
Qed.

Lemma tx_base_size_Ok tx b a : tx_valid tx →
  tx_base_size tx = Ok (b, a) ↔
  b = len (enc_tx_core tx) ∧ a = sum_of anchor_len (outputs tx) ∧ b ≤ u64_max ∧ a ≤ u64_max.
Proof.
  intros (Hpre & [_ Hi] & [_ _] & _ & Hc & _ & _). unfold prefix_valid in Hpre. simpl in Hpre.
  unfold tx_base_size. rewrite enc_tx_core_length, da_core_fields_bytes_enc by (done || lia).
  pose proof (compact_size_bound (len (inputs tx))). pose proof (compact_size_bound (len (outputs tx))).
  assert (13 + 9 ≤ u64_max) by done. sizes. rewrite bind_Ok. split.
  - intros (b1 & (-> & ?)%add_input_sizes_Ok & H'); [|done|lia].
    apply bind_Ok in H' as (b2 & (-> & ?)%weight_add_Ok & H').
    apply bind_Ok in H' as ([b3 a1] & (-> & -> & ? & ?)%add_output_sizes_Ok & H'); [|lia].
    sizes. lia.
  - intros (-> & -> & ? & ?). eexists. rewrite add_input_sizes_Ok by (done || lia). split; [split; [done|lia]|].
    sizes. rewrite add_output_sizes_run by lia. run_bind. sizes. repeat f_equal; lia.
Qed.

Lemma tx_weight_Ok b w d c n :
  tx_weight b w d c = Ok n ↔
  n = WITNESS_DISCOUNT_DIVISOR * b + w + d + c
  ∧ WITNESS_DISCOUNT_DIVISOR * b ≤ u64_max ∧ WITNESS_DISCOUNT_DIVISOR * b + w ≤ u64_max
  ∧ WITNESS_DISCOUNT_DIVISOR * b + w + d ≤ u64_max ∧ n ≤ u64_max.
Proof.
  unfold tx_weight. rewrite bind_Ok. setoid_rewrite ok_or_Ok. setoid_rewrite checked_mul_Some.
  generalize (WITNESS_DISCOUNT_DIVISOR * b) as m. intros m. split.
  - intros (x & (-> & Hm) & H'). sizes. lia.
  - intros (-> & ? & ? & ? & ?). exists m. split; [done|]. by sizes.
Qed.

Lemma tx_da_size_Ok tx n d :
  tx_da_size_and_bytes tx = Ok (n, d) ↔
  n = len (enc_payload (da_payload tx)) ∧ n ≤ u64_max
  ∧ d = (if tx_kind tx =? 0 then 0 else len (da_payload tx)).
Proof.
  unfold tx_da_size_and_bytes, enc_payload. rewrite length_app, Nat2Z.inj_add, compact_size_len_enc, bind_Ok.
  split.
  - intros (x & (-> & Hm)%weight_add_Ok & H'). inv_res. split_and!; [done..|]. by destruct (_ =? _).
  - intros (-> & ? & ->). eexists. rewrite weight_add_Ok. split; [done|]. by destruct (_ =? _).
Qed.

Lemma components_Ok tx f cost w d a : tx_valid tx → (∀ i, f i = Ok (cost i)) → (∀ i, 0 ≤ cost i) →
  tx_weight_components tx f = Ok (w, d, a) ↔
  w = full_weight tx cost ∧ w ≤ u64_max
  ∧ d = (if tx_kind tx =? 0 then 0 else len (da_payload tx)) ∧ a = sum_of anchor_len (outputs tx).
Proof.
  intros Hv Hf Hc. pose proof (sum_of_nonneg cost (witness tx) Hc).
  pose proof (anchor_len_le (outputs tx)). pose proof (enc_tx_core_length tx) as He.
  unfold tx_weight_components, full_weight. split.
  - intros H'. apply bind_Ok in H' as ([b1 a1] & (-> & -> & ? & ?)%tx_base_size_Ok & H'); [|done].
    apply bind_Ok in H' as ([b2 c] & (-> & -> & ? & ?)%(witness_sizes_Ok _ _ cost) & H'); [|done..].
    apply bind_Ok in H' as ([n d1] & (-> & ? & ->)%tx_da_size_Ok & H').
    apply bind_Ok in H' as (m & (-> & ? & ? & ? & ?)%tx_weight_Ok & H'). by inv_res.
  - intros (-> & ? & -> & ->). assert (0 ≤ WITNESS_DISCOUNT_DIVISOR * len (enc_tx_core tx)) by done.
    assert (len (enc_tx_core tx) ≤ WITNESS_DISCOUNT_DIVISOR * len (enc_tx_core tx)).
    { unfold WITNESS_DISCOUNT_DIVISOR. lia. }
    assert (sum_of anchor_len (outputs tx) ≤ len (enc_tx_core tx)) by lia. clear He.
    apply bind_Ok. eexists (_, _). rewrite tx_base_size_Ok by done. split; [split_and!; [done..|lia|lia]|].
    apply bind_Ok. eexists (_, _). rewrite (witness_sizes_Ok _ _ cost) by done.
    split; [split_and!; [done..|lia|lia]|].
    apply bind_Ok. eexists (_, _). rewrite tx_da_size_Ok. split; [split_and!; [done|lia|done]|].
    apply bind_Ok. eexists. rewrite tx_weight_Ok. split; [split_and!; [done|lia..]|done].
Qed.

(** C30: the weight of a transaction, counted from its fields, is the one its
    serialized form has: [tx_weight_and_stats_at_height] returns four times the
    length of the txid part of the wire encoding, plus the lengths of its
    encoded witness section and payload, plus the verification costs of its
    witness items, exactly when that number is a [u64]; the other results are
    the payload bytes of a data-availability transaction and the covenant
    bytes of its anchor and commit outputs. *)
Theorem tx_weight_iff tx height rotation registry w d a : tx_valid tx → costs_nonneg registry →
  tx_weight_and_stats_at_height tx height rotation registry = Ok (w, d, a) ↔
  w = full_weight tx (cost_at height rotation registry) ∧ w ≤ u64_max
  ∧ d = (if tx_kind tx =? 0 then 0 else len (da_payload tx)) ∧ a = sum_of anchor_len (outputs tx).
Proof.
  intros Hv Hreg.
  replace (tx_weight_and_stats_at_height tx height rotation registry)
    with (tx_weight_components tx (cost_fn_at height rotation registry)) by by destruct rotation, registry.
  apply components_Ok; [done|apply cost_fn_at_Ok|]. intros i. by apply cost_at_nonneg.
Qed.

Lemma default_costs_nonneg : costs_nonneg (Some default_registry).
Proof.
  intros reg s p [= <-]. unfold sr_lookup, default_registry. simpl.
  rewrite lookup_insert_Some, lookup_empty. by intros [[_ <-]|[_ ?]].
Qed.

Lemma tx_weight_iff_witness :
  tx_valid demo_tx ∧ costs_nonneg (Some default_registry) ∧
  tx_weight_and_stats_at_height demo_tx 0 (Some DefaultRotationProvider) (Some default_registry) = Ok (421, 0, 0).
Proof.
  split; [apply demo_tx_valid|]. split; [apply default_costs_nonneg|].
  apply (tx_weight_iff demo_tx 0 (Some DefaultRotationProvider) (Some default_registry));
    [apply demo_tx_valid|apply default_costs_nonneg|]. by vm_compute.
Defined.
