(* ===== verification/BlockDa.v ===== *)
(** * Data-availability sets of a block ([block_basic/da_set.rs])

    A commit transaction announces a batch of payload chunks; the block must
    carry every chunk of every batch it commits to, and nothing else.  A
    [BTreeMap] is a [gmap] whose loops run over the keys in byte order. *)

From S2P Require Import Prelude Bytes Errors Constants Crypto WireRead CompactSize TxWire TxCodec BTree.

(* rust: block_basic/da_set.rs 8-11 DaCommitSet *)
Record DaCommitSet : Type := mkDaCommitSet { dcs_tx : Tx; dcs_chunk_count : Z }.

Abbreviation DaCommitMap := (gmap bytes DaCommitSet).
Abbreviation DaChunkMap := (gmap bytes (gmap Z Tx)).

(* rust: block_basic/da_set.rs 17-22 DaSetStructure *)
Record DaSetStructure : Type := mkDaSetStructure {
  ds_commits : DaCommitMap; ds_chunks : DaChunkMap; ds_duplicate_commit_ids : gset bytes;
  ds_duplicate_chunk_indexes : gmap bytes (gset Z) }.

Section da_set.
  Context `{HS : Sha3}.

(* rust: block_basic/da_set.rs 33-50 validate_da_chunk_hashes *)
Definition validate_da_chunk_hashes (txs : list Tx) : res unit :=
  try_for_each (λ tx,
    if negb (tx_kind tx =? 0x02) then Ok () else
    core ← ok_or (da_chunk_core tx) (mkTxError TxErrParse "missing da_chunk_core for tx_kind=0x02");
    if bool_decide (sha3_256 (da_payload tx) ≠ chunk_hash core)
    then tx_err BlockErrDaChunkHashInvalid "chunk_hash mismatch" else Ok ()) txs.

(* rust: block_basic/da_set.rs 133-149 add_da_commit *)
Definition add_da_commit (sets : DaSetStructure) (tx : Tx) : res DaSetStructure :=
  match da_commit_core tx with
  | None => tx_err TxErrParse "missing da_commit_core for tx_kind=0x01"
  | Some core =>
      Ok match ds_commits sets !! commit_da_id core with
         | None => mkDaSetStructure (<[commit_da_id core := mkDaCommitSet tx (chunk_count core)]> (ds_commits sets))
                     (ds_chunks sets) (ds_duplicate_commit_ids sets) (ds_duplicate_chunk_indexes sets)
         | Some _ => mkDaSetStructure (ds_commits sets) (ds_chunks sets)
                       ({[commit_da_id core]} ∪ ds_duplicate_commit_ids sets) (ds_duplicate_chunk_indexes sets)
         end
  end.

(* rust: block_basic/da_set.rs 151-172 add_da_chunk *)
Definition add_da_chunk (sets : DaSetStructure) (tx : Tx) : res DaSetStructure :=
  match da_chunk_core tx with
  | None => tx_err TxErrParse "missing da_chunk_core for tx_kind=0x02"
  | Some core =>
      let id := chunk_da_id core in
      let set := default ∅ (ds_chunks sets !! id) in
      Ok match set !! chunk_index core with
         | None => mkDaSetStructure (ds_commits sets)
                     (<[id := <[chunk_index core := tx]> set]> (ds_chunks sets))
                     (ds_duplicate_commit_ids sets) (ds_duplicate_chunk_indexes sets)
         | Some _ =>
             let dups := default ∅ (ds_duplicate_chunk_indexes sets !! id) in
             mkDaSetStructure (ds_commits sets) (<[id := set]> (ds_chunks sets))
               (ds_duplicate_commit_ids sets)
               (<[id := {[chunk_index core]} ∪ dups]> (ds_duplicate_chunk_indexes sets))
         end
  end.

(* rust: block_basic/da_set.rs 52-62 collect_da_commits_and_chunks *)
Definition collect_da_commits_and_chunks (txs : list Tx) : res DaSetStructure :=
  try_fold (λ sets tx,
    if tx_kind tx =? 0x01 then add_da_commit sets tx
    else if tx_kind tx =? 0x02 then add_da_chunk sets tx
    else Ok sets) (mkDaSetStructure ∅ ∅ ∅ ∅) txs.

(* rust: block_basic/da_set.rs 194-204 validate_da_chunk_orphans *)
Definition validate_da_chunk_orphans (commits : DaCommitMap) (chunks : DaChunkMap) : res unit :=
  try_for_each (λ p,
    if bool_decide (commits !! p.1 = None) then tx_err BlockErrDaSetInvalid "DA chunks without DA commit"
    else Ok ()) (btree_iter chunks).

(* rust: block_basic/da_set.rs 72-80 validate_da_duplicate_commits *)
Definition validate_da_duplicate_commits (duplicate_commit_ids : gset bytes) : res unit :=
  if bool_decide (duplicate_commit_ids ≠ ∅)
  then tx_err BlockErrDaSetInvalid "duplicate DA commit for da_id" else Ok ().

(* rust: block_basic/da_set.rs 129-131 da_incomplete *)
Definition da_incomplete (msg : string) : TxError := mkTxError BlockErrDaIncomplete msg.

(* rust: block_basic/da_set.rs 94-105 validate_da_duplicate_chunk_indexes *)
Definition validate_da_duplicate_chunk_indexes (dups : gmap bytes (gset Z)) (da_id : bytes) : res unit :=
  if match dups !! da_id with Some indexes => bool_decide (indexes ≠ ∅) | None => false end
  then Err (da_incomplete "duplicate DA chunk index") else Ok ().

(* rust: block_basic/da_set.rs 107-116 validate_da_chunk_set_completeness *)
Definition validate_da_chunk_set_completeness (chunks : DaChunkMap) (da_id : bytes) (chunk_count : Z) :
    res unit :=
  if negb (match chunks !! da_id with Some s => Z.of_nat (size s) | None => 0 end =? chunk_count)
  then Err (da_incomplete "DA chunk count mismatch") else Ok ().

(* rust: block_basic/da_set.rs 317-320 da_chunk_tx_for_index *)
Definition da_chunk_tx_for_index (set : gmap Z Tx) (index : Z) : res Tx :=
  ok_or (set !! index) (mkTxError BlockErrDaIncomplete "missing DA chunk index").

(* rust: block_basic/da_set.rs 308-315 da_chunk_set_for_id *)
Definition da_chunk_set_for_id (chunks : DaChunkMap) (da_id : bytes) : res (gmap Z Tx) :=
  ok_or (chunks !! da_id) (mkTxError BlockErrDaIncomplete "DA commit without chunks").

(* rust: block_basic/da_set.rs 296-306 da_commit_for_id *)
Definition da_commit_for_id (commits : DaCommitMap) (da_id : bytes) : res DaCommitSet :=
  ok_or (commits !! da_id) (mkTxError BlockErrDaSetInvalid "missing DA commit for da_id").

(* rust: block_basic/da_set.rs 233-238 validate_da_chunk_indexes *)
Definition validate_da_chunk_indexes (set : gmap Z Tx) (chunk_count : Z) : res unit :=
  try_for_each (λ i, _ ← da_chunk_tx_for_index set i; Ok ()) (seqZ 0 chunk_count).

(* rust: block_basic/da_set.rs 82-92 validate_da_set_completeness *)
Definition validate_da_set_completeness (sets : DaSetStructure) : res unit :=
  try_for_each (λ p,
    let '(da_id, commit) := p in
    _ ← validate_da_duplicate_chunk_indexes (ds_duplicate_chunk_indexes sets) da_id;
    _ ← validate_da_chunk_set_completeness (ds_chunks sets) da_id (dcs_chunk_count commit);
    set ← da_chunk_set_for_id (ds_chunks sets) da_id;
    validate_da_chunk_indexes set (dcs_chunk_count commit)) (btree_iter (ds_commits sets)).

(* rust: block_basic/da_set.rs 184-192 validate_da_batch_count *)
Definition validate_da_batch_count (commits : DaCommitMap) : res unit :=
  if MAX_DA_BATCHES_PER_BLOCK <? Z.of_nat (size commits)
  then tx_err BlockErrDaBatchExceeded "too many DA commits in block" else Ok ().

(* rust: block_basic/da_set.rs 223-231 validate_da_chunk_count *)
Definition validate_da_chunk_count (chunk_count : Z) : res unit :=
  if (chunk_count =? 0) || (MAX_DA_CHUNK_COUNT <? chunk_count)
  then tx_err TxErrParse "chunk_count out of range for tx_kind=0x01" else Ok ().

(* rust: block_basic/da_set.rs 118-123 validate_da_chunk_count_bounds *)
Definition validate_da_chunk_count_bounds (commits : DaCommitMap) : res unit :=
  try_for_each (λ p, validate_da_chunk_count (dcs_chunk_count p.2)) (btree_iter commits).

(* rust: block_basic/da_set.rs 64-70 validate_da_set_structure *)
Definition validate_da_set_structure (sets : DaSetStructure) : res unit :=
  _ ← validate_da_chunk_orphans (ds_commits sets) (ds_chunks sets);
  _ ← validate_da_duplicate_commits (ds_duplicate_commit_ids sets);
  _ ← validate_da_set_completeness sets;
  _ ← validate_da_batch_count (ds_commits sets);
  validate_da_chunk_count_bounds (ds_commits sets).

(* rust: block_basic/da_set.rs 259-269 da_payload_commitment *)
Definition da_payload_commitment (commit : DaCommitSet) (set : gmap Z Tx) : res bytes :=
  concat ← try_fold (λ concat i,
    tx ← da_chunk_tx_for_index set i;
    Ok (concat ++ da_payload tx)) [] (seqZ 0 (dcs_chunk_count commit));
  Ok (sha3_256 concat).

(** The [u32] counter of outputs does not wrap: a transaction has at most
    [MAX_TX_OUTPUTS] of them. *)
(* rust: block_basic/da_set.rs 271-294 da_commit_output_commitment *)
Definition da_commit_output_commitment (tx : Tx) : res bytes :=
  '(da_commit_outputs, got_commitment) ← try_fold (λ s o,
    let '(n, got) := s in
    if negb (covenant_type o =? COV_TYPE_DA_COMMIT) then Ok (n, got) else
    if negb (len (covenant_data o) =? 32)
    then tx_err BlockErrDaPayloadCommitInvalid "DA commitment output has invalid length" else
    Ok (n + 1, covenant_data o)) (0, zeros 32) (outputs tx);
  if negb (da_commit_outputs =? 1)
  then tx_err BlockErrDaPayloadCommitInvalid "DA commitment output missing or duplicated" else
  Ok got_commitment.

(* rust: block_basic/da_set.rs 240-257 validate_da_payload_commitments *)
Definition validate_da_payload_commitments (commits : DaCommitMap) (chunks : DaChunkMap) : res unit :=
  try_for_each (λ p,
    commit ← da_commit_for_id commits p.1;
    set ← da_chunk_set_for_id chunks p.1;
    payload_commitment ← da_payload_commitment commit set;
    got_commitment ← da_commit_output_commitment (dcs_tx commit);
    if bool_decide (payload_commitment ≠ got_commitment)
    then tx_err BlockErrDaPayloadCommitInvalid "payload commitment mismatch" else Ok ()) (btree_iter commits).

(* rust: block_basic/da_set.rs 24-29 validate_da_set_integrity *)
Definition validate_da_set_integrity (txs : list Tx) : res unit :=
  _ ← validate_da_chunk_hashes txs;
  sets ← collect_da_commits_and_chunks txs;
  _ ← validate_da_set_structure sets;
  validate_da_payload_commitments (ds_commits sets) (ds_chunks sets).
End da_set.

(** ** What an accepted block carries *)

(** The commits and chunks of a block, with their keys. *)
Definition commit_entry (tx : Tx) : option (bytes * DaCommitSet) :=
  if tx_kind tx =? 1
  then (λ c, (commit_da_id c, mkDaCommitSet tx (chunk_count c))) <$> da_commit_core tx else None.
Definition chunk_entry (tx : Tx) : option ((bytes * Z) * Tx) :=
  if tx_kind tx =? 2 then (λ c, ((chunk_da_id c, chunk_index c), tx)) <$> da_chunk_core tx else None.
Definition commits_of (txs : list Tx) : list (bytes * DaCommitSet) := omap commit_entry txs.
Definition chunks_of (txs : list Tx) : list ((bytes * Z) * Tx) := omap chunk_entry txs.

(** A data-availability transaction carries the core of its kind. *)
Definition core_present (tx : Tx) : Prop :=
  (tx_kind tx = 1 → is_Some (da_commit_core tx)) ∧ (tx_kind tx = 2 → is_Some (da_chunk_core tx)).

(** [collect_da_commits_and_chunks] after the transactions [txs]: the first
    commit of each id and the first chunk of each key are kept, the others are
    recorded as duplicates. *)
Record collected (txs : list Tx) (sets : DaSetStructure) : Prop := mkCollected {
  col_commits : ds_commits sets = list_to_map (commits_of txs);
  col_chunks : ∀ id i, default ∅ (ds_chunks sets !! id) !! i
               = (list_to_map (chunks_of txs) : gmap (bytes * Z) Tx) !! (id, i);
  col_nonempty : ∀ id s, ds_chunks sets !! id = Some s → s ≠ ∅;
  col_dup_ids : ds_duplicate_commit_ids sets = ∅ ↔ NoDup (commits_of txs).*1;
  col_dup_indexes : (∀ id s, ds_duplicate_chunk_indexes sets !! id = Some s → s = ∅)
                    ↔ NoDup (chunks_of txs).*1;
  col_dup_dom : ∀ id s, ds_duplicate_chunk_indexes sets !! id = Some s → is_Some (ds_chunks sets !! id) }.

Lemma collected_nil : collected [] (mkDaSetStructure ∅ ∅ ∅ ∅).
Proof.
  split; simpl; try done.
  - split; [constructor|done].
  - split; [constructor|]. intros _ id s. by rewrite lookup_empty.
Qed.

Lemma omap_snoc {A B} (f : A → option B) l x :
  omap f (l ++ [x]) = omap f l ++ match f x with Some y => [y] | None => [] end.
Proof. rewrite omap_app. simpl. by destruct (f x). Qed.

Lemma list_to_map_snoc `{Countable K} {A} (l : list (K * A)) k x :
  (list_to_map (l ++ [(k, x)]) : gmap K A)
  = match (list_to_map l : gmap K A) !! k with Some _ => list_to_map l | None => <[k := x]> (list_to_map l) end.
Proof.
  rewrite list_to_map_app. simpl. rewrite insert_empty. apply map_eq. intros j.
  rewrite lookup_union. destruct (decide (j = k)) as [->|Hj].
  - rewrite lookup_singleton_eq. destruct (_ !! k) eqn:E; [by rewrite E|]. by rewrite lookup_insert_eq.
  - rewrite lookup_singleton_ne, (right_id_L None _) by done.
    destruct (_ !! k); [done|]. by rewrite lookup_insert_ne.
Qed.

Lemma list_to_map_None `{Countable K} {A} (l : list (K * A)) k :
  (list_to_map l : gmap K A) !! k = None ↔ k ∉ l.*1.
Proof. symmetry. apply not_elem_of_list_to_map. Qed.

Lemma NoDup_snoc {A} (l : list A) x : NoDup (l ++ [x]) ↔ NoDup l ∧ x ∉ l.
Proof.
  rewrite list.NoDup_app. split.
  - intros (? & Hx & _). split; [done|]. intros Hin. apply (Hx x); [done|]. by apply list_elem_of_singleton.
  - intros [? Hx]. split_and!; [done| |apply NoDup_singleton].
    intros y Hy ->%list_elem_of_singleton. done.
Qed.

Lemma commits_snoc txs tx c : tx_kind tx = 1 → da_commit_core tx = Some c →
  commits_of (txs ++ [tx]) = commits_of txs ++ [(commit_da_id c, mkDaCommitSet tx (chunk_count c))]
  ∧ chunks_of (txs ++ [tx]) = chunks_of txs.
Proof.
  intros Hk Hc. unfold commits_of, chunks_of. rewrite !omap_snoc. unfold commit_entry at 2, chunk_entry at 2.
  rewrite Hk, Hc. simpl. by rewrite app_nil_r.
Qed.
Lemma chunks_snoc txs tx c : tx_kind tx = 2 → da_chunk_core tx = Some c →
  commits_of (txs ++ [tx]) = commits_of txs
  ∧ chunks_of (txs ++ [tx]) = chunks_of txs ++ [((chunk_da_id c, chunk_index c), tx)].
Proof.
  intros Hk Hc. unfold commits_of, chunks_of. rewrite !omap_snoc. unfold commit_entry at 2, chunk_entry at 2.
  rewrite Hk, Hc. simpl. by rewrite app_nil_r.
Qed.
Lemma others_snoc txs tx : tx_kind tx ≠ 1 → tx_kind tx ≠ 2 →
  commits_of (txs ++ [tx]) = commits_of txs ∧ chunks_of (txs ++ [tx]) = chunks_of txs.
Proof.
  intros H1 H2. unfold commits_of, chunks_of. rewrite !omap_snoc. unfold commit_entry at 2, chunk_entry at 2.
  replace (tx_kind tx =? 1) with false by lia. replace (tx_kind tx =? 2) with false by lia. by rewrite !app_nil_r.
Qed.

Lemma add_da_commit_collected txs sets tx sets' : tx_kind tx = 1 → collected txs sets →
  add_da_commit sets tx = Ok sets' → collected (txs ++ [tx]) sets'.
Proof.
  intros Hk [H1 H2 H3 H4 H5 H6]. unfold add_da_commit.
  destruct (da_commit_core tx) as [c|] eqn:Hc; [|done]. intros [= <-].
  destruct (commits_snoc txs tx c Hk Hc) as [Ecs Ech].
  assert (ds_commits sets !! commit_da_id c = None ↔ commit_da_id c ∉ (commits_of txs).*1) as Hno
    by (rewrite H1; apply list_to_map_None).
  destruct (ds_commits sets !! commit_da_id c) as [s|] eqn:Hl; split;
    cbn [ds_commits ds_chunks ds_duplicate_commit_ids ds_duplicate_chunk_indexes];
    rewrite ?Ecs, ?Ech, ?fmap_app; try done.
  - by rewrite list_to_map_snoc, <- H1, Hl.
  - cbn [fmap list_fmap fst]. rewrite NoDup_snoc. split; [set_solver|]. intros [_ Hn%Hno]. done.
  - by rewrite list_to_map_snoc, <- H1, Hl.
  - cbn [fmap list_fmap fst]. rewrite NoDup_snoc, H4. naive_solver.
Qed.

Lemma add_da_chunk_collected txs sets tx sets' : tx_kind tx = 2 → collected txs sets →
  add_da_chunk sets tx = Ok sets' → collected (txs ++ [tx]) sets'.
Proof.
  intros Hk [H1 H2 H3 H4 H5 H6]. unfold add_da_chunk.
  destruct (da_chunk_core tx) as [c|] eqn:Hc; [|done]. intros [= <-].
  destruct (chunks_snoc txs tx c Hk Hc) as [Ecs Ech].
  set (id := chunk_da_id c) in *. set (i := chunk_index c) in *. set (set := default ∅ (ds_chunks sets !! id)).
  assert (set !! i = (list_to_map (chunks_of txs) : gmap _ _) !! (id, i)) as Hlk by apply H2.
  assert (set !! i = None ↔ (id, i) ∉ (chunks_of txs).*1) as Hno by (rewrite Hlk; apply list_to_map_None).
  destruct (set !! i) as [old|] eqn:Hl; split;
    cbn [ds_commits ds_chunks ds_duplicate_commit_ids ds_duplicate_chunk_indexes];
    rewrite ?Ecs, ?Ech, ?fmap_app; try done.
  - intros id' i'. rewrite list_to_map_snoc, <- Hlk. destruct (decide (id' = id)) as [->|Hne].
    + rewrite lookup_insert_eq. apply H2.
    + rewrite lookup_insert_ne by done. apply H2.
  - intros id' s. rewrite lookup_insert_Some. intros [[<- <-]|[_ ?]]; [|eauto].
    intros E. by rewrite E, lookup_empty in Hl.
  - cbn [fmap list_fmap fst]. rewrite NoDup_snoc. split; [|intros [_ Hn%Hno]; done].
    intros Hd. specialize (Hd id _ (lookup_insert_eq _ _ _)). set_solver.
  - intros id' s. rewrite lookup_insert_Some. destruct (decide (id' = id)) as [->|Hne].
    + rewrite lookup_insert_eq. eauto.
    + rewrite lookup_insert_ne by done. intros [[? _]|[_ ?]]; [congruence|eauto].
  - intros id' i'. rewrite list_to_map_snoc, <- Hlk. destruct (decide (id' = id)) as [->|Hne].
    + rewrite lookup_insert_eq. simpl. destruct (decide (i' = i)) as [->|Hi].
      * by rewrite !lookup_insert_eq.
      * rewrite !lookup_insert_ne by congruence. apply H2.
    + rewrite !lookup_insert_ne by congruence. apply H2.
  - intros id' s. rewrite lookup_insert_Some. intros [[<- <-]|[_ ?]]; [|eauto]. apply insert_non_empty.
  - cbn [fmap list_fmap fst]. rewrite NoDup_snoc, H5. naive_solver.
  - intros id' s Hs%H6. destruct (decide (id' = id)) as [->|Hne]; [by rewrite lookup_insert_eq|].
    by rewrite lookup_insert_ne.
Qed.

Lemma collect_snoc txs tx :
  collect_da_commits_and_chunks (txs ++ [tx]) =
  sets ← collect_da_commits_and_chunks txs;
  if tx_kind tx =? 1 then add_da_commit sets tx
  else if tx_kind tx =? 2 then add_da_chunk sets tx else Ok sets.
Proof.
  unfold collect_da_commits_and_chunks. rewrite try_fold_app.
  destruct (try_fold _ _ txs) as [sets|e]; [|done]. cbn [try_fold mbind result_bind].
  by destruct (if tx_kind tx =? 1 then _ else _).
Qed.

Lemma collect_collected txs sets : collect_da_commits_and_chunks txs = Ok sets → collected txs sets.
Proof.
  revert sets. induction txs as [|tx txs IH] using rev_ind; intros sets.
  - intros [= <-]. apply collected_nil.
  - rewrite collect_snoc. intros (s1 & Hs1%IH & H)%bind_Ok.
    destruct (tx_kind tx =? 1) eqn:H1; [eapply add_da_commit_collected; [lia|done..]|].
    destruct (tx_kind tx =? 2) eqn:H2; [eapply add_da_chunk_collected; [lia|done..]|].
    injection H as <-. destruct (others_snoc txs tx) as [E1 E2]; [lia..|]. destruct Hs1.
    split; by rewrite ?E1, ?E2.
Qed.

Lemma collect_total txs :
  (∃ sets, collect_da_commits_and_chunks txs = Ok sets) ↔ Forall core_present txs.
Proof.
  induction txs as [|tx txs IH] using rev_ind.
  - split; [constructor|by eexists].
  - rewrite collect_snoc, Forall_app, <- IH, Forall_singleton. unfold core_present, add_da_commit, add_da_chunk.
    setoid_rewrite bind_Ok. split.
    + intros (s2 & s1 & Hs1 & H). split; [by eexists|]. split; intros Hk; rewrite Hk in H; simpl in H;
        by case_match.
    + intros [(s1 & Hs1) [Hc Hd]]. destruct (tx_kind tx =? 1) eqn:H1.
      { destruct Hc as [c Hc]; [lia|]. eexists _, s1. split; [done|]. by rewrite Hc. }
      destruct (tx_kind tx =? 2) eqn:H2; [|by eexists _, s1].
      destruct Hd as [c Hd]; [lia|]. eexists _, s1. split; [done|]. by rewrite Hd.
Qed.

(** ** Each check *)

(** A map with [n] keys that has all of [0..n] has no other. *)
Lemma full_dom (s : gmap Z Tx) n :
  Z.of_nat (size s) = n ∧ (∀ i, 0 ≤ i < n → is_Some (s !! i)) ↔
  0 ≤ n ∧ ∀ i, is_Some (s !! i) ↔ 0 ≤ i < n.
Proof.
  assert (∀ i, i ∈ (list_to_set (seqZ 0 n) : gset Z) ↔ 0 ≤ i < n) as Hin.
  { intros i. rewrite elem_of_list_to_set, elem_of_seqZ. lia. }
  assert (size (list_to_set (seqZ 0 n) : gset Z) = Z.to_nat n) as Hsz.
  { rewrite size_list_to_set by apply NoDup_seqZ. apply length_seqZ. }
  setoid_rewrite <- elem_of_dom. setoid_rewrite <- Hin. rewrite <- size_dom. split.
  - intros [Hs Hsub]. split; [lia|].
    enough (list_to_set (seqZ 0 n) = dom s) as -> by done.
    apply set_subseteq_size_eq; [done|]. rewrite Hsz. lia.
  - intros [Hn Heq]. assert (dom s = list_to_set (seqZ 0 n)) as -> by by apply set_eq. rewrite Hsz. split; [lia|done].
Qed.

Lemma chunk_indexes_Ok s n :
  validate_da_chunk_indexes s n = Ok () ↔ ∀ i, 0 ≤ i < n → is_Some (s !! i).
Proof.
  unfold validate_da_chunk_indexes, da_chunk_tx_for_index. rewrite try_for_each_Ok, list.Forall_forall.
  setoid_rewrite elem_of_seqZ.
  assert (∀ i, (_ ← ok_or (s !! i) (mkTxError BlockErrDaIncomplete "missing DA chunk index"); Ok ()) = Ok ()
             ↔ is_Some (s !! i)) as Hi.
  { intros i. rewrite bind_Ok. setoid_rewrite ok_or_Ok. unfold is_Some. naive_solver. }
  setoid_rewrite Hi. split; intros H i ?; apply H; lia.
Qed.

Lemma orphans_Ok commits chunks :
  validate_da_chunk_orphans commits chunks = Ok () ↔
  ∀ id s, chunks !! id = Some s → is_Some (commits !! id).
Proof.
  unfold validate_da_chunk_orphans. rewrite btree_for_each_Ok. cbn [fst].
  assert (∀ id, (if bool_decide (commits !! id = None)
                 then tx_err BlockErrDaSetInvalid "DA chunks without DA commit" else Ok ()) = Ok ()
             ↔ is_Some (commits !! id)) as Hi.
  { intros id. case_bool_decide as H; rewrite <- not_eq_None_Some; naive_solver. }
  by setoid_rewrite Hi.
Qed.

Lemma completeness_Ok sets :
  validate_da_set_completeness sets = Ok () ↔
  ∀ id c, ds_commits sets !! id = Some c →
    (∀ d, ds_duplicate_chunk_indexes sets !! id = Some d → d = ∅)
    ∧ ∃ s, ds_chunks sets !! id = Some s ∧ 0 ≤ dcs_chunk_count c
        ∧ ∀ i, is_Some (s !! i) ↔ 0 ≤ i < dcs_chunk_count c.
Proof.
  unfold validate_da_set_completeness. rewrite btree_for_each_Ok.
  split; intros H id c Hc; specialize (H id c Hc).
  - apply bind_Ok in H as ([] & Hd & H). apply bind_Ok in H as ([] & Hs & H). apply bind_Ok in H as (s & Hl & H).
    apply ok_or_Ok in Hl. rewrite chunk_indexes_Ok in H. split.
    + intros d Ed. unfold validate_da_duplicate_chunk_indexes in Hd. rewrite Ed in Hd.
      destruct (decide (d = ∅)) as [->|Hne]; [done|]. by rewrite bool_decide_eq_true_2 in Hd.
    + exists s. split; [done|]. apply full_dom. split; [|done].
      unfold validate_da_chunk_set_completeness in Hs. rewrite Hl in Hs. case_match eqn:E; [done|]. lia.
  - destruct H as (Hd & s & Hs & Hf). apply full_dom in Hf as [Hsz Hf]. rewrite <- chunk_indexes_Ok in Hf.
    assert (validate_da_duplicate_chunk_indexes (ds_duplicate_chunk_indexes sets) id = Ok ()) as ->.
    { unfold validate_da_duplicate_chunk_indexes. destruct (_ !! id) as [d|]; [|done].
      rewrite bool_decide_eq_false_2; [done|]. intros Hne. apply Hne. by apply Hd. }
    run_bind. unfold validate_da_chunk_set_completeness, da_chunk_set_for_id. rewrite Hs.
    replace (_ =? _) with true by lia. done.
Qed.

(** The payload of a batch: its chunks in the order of their indexes. *)
Definition chunks_in_order (s : gmap Z Tx) (l : list Tx) : Prop :=
  ∀ i tx, l !! i = Some tx → s !! Z.of_nat i = Some tx.

Definition da_outputs (tx : Tx) : list bytes :=
  covenant_data <$> filter (λ o, covenant_type o = COV_TYPE_DA_COMMIT) (outputs tx).

Lemma payload_fold_Ok s n k acc p : 0 ≤ k →
  try_fold (λ concat i, tx ← da_chunk_tx_for_index s i; Ok (concat ++ da_payload tx)) acc (seqZ k n) = Ok p ↔
  ∃ l, len l = Z.max 0 n ∧ (∀ i tx, l !! i = Some tx → s !! (k + Z.of_nat i) = Some tx)
     ∧ p = acc ++ concat_map da_payload l.
Proof.
  intros Hk. remember (Z.to_nat n) as m eqn:Hm. revert n k acc Hk Hm.
  induction m as [|m IH]; intros n k acc Hk Hm.
  - rewrite seqZ_nil by lia. cbn [try_fold]. split.
    + intros [= <-]. exists []. split; [simpl; lia|]. split; [done|]. by rewrite app_nil_r.
    + intros (l & Hl & _ & ->). assert (l = []) as -> by (apply len_0_nil; lia). by rewrite app_nil_r.
  - rewrite seqZ_cons by lia. cbn [try_fold]. rewrite bind_Ok. split.
    + intros (acc1 & (tx & Htx%ok_or_Ok & [= <-])%bind_Ok & H).
      apply IH in H as (l & Hl & Hin & ->); [|lia..]. exists (tx :: l). split; [simpl; lia|].
      split; [|by rewrite concat_map_cons, app_assoc].
      intros [|i] tx' E; simpl in E; [by simplify_eq; rewrite Z.add_0_r|].
      apply Hin in E. by replace (k + Z.of_nat (S i)) with (Z.succ k + Z.of_nat i) by lia.
    + intros ([|tx l] & Hl & Hin & ->); [simpl in Hl; lia|]. exists (acc ++ da_payload tx). split.
      * pose proof (Hin 0%nat tx eq_refl) as E. rewrite Z.add_0_r in E. unfold da_chunk_tx_for_index. by rewrite E.
      * apply IH; [lia..|]. exists l. split; [simpl in Hl; lia|].
        split; [|by rewrite concat_map_cons, app_assoc].
        intros i tx' E. replace (Z.succ k + Z.of_nat i) with (k + Z.of_nat (S i)) by lia. by apply Hin.
Qed.

Lemma outputs_fold_Ok outs n got n' got' :
  try_fold (λ s o,
    let '(n, got) := s in
    if negb (covenant_type o =? COV_TYPE_DA_COMMIT) then Ok (n, got) else
    if negb (len (covenant_data o) =? 32)
    then tx_err BlockErrDaPayloadCommitInvalid "DA commitment output has invalid length" else
    Ok (n + 1, covenant_data o)) (n, got) outs = Ok (n', got') ↔
  Forall (λ d, len d = 32) (covenant_data <$> filter (λ o, covenant_type o = COV_TYPE_DA_COMMIT) outs)
  ∧ n' = n + len (filter (λ o, covenant_type o = COV_TYPE_DA_COMMIT) outs)
  ∧ got' = List.last (covenant_data <$> filter (λ o, covenant_type o = COV_TYPE_DA_COMMIT) outs) got.
Proof.
  revert n got. induction outs as [|o outs IH]; intros n got; cbn [try_fold].
  - split; [intros [= <- <-]; rewrite Z.add_0_r; by split_and!; [constructor|..]|].
    intros (_ & -> & ->). by rewrite Z.add_0_r.
  - rewrite filter_cons. destruct (covenant_type o =? COV_TYPE_DA_COMMIT) eqn:Ht; cbn [negb].
    + rewrite decide_True by lia. rewrite fmap_cons, list.Forall_cons, length_cons.
      destruct (len (covenant_data o) =? 32) eqn:Hl; cbn [negb].
      * run_bind. rewrite IH.
        replace (List.last (covenant_data o :: _) got)
          with (List.last (covenant_data <$> filter (λ o, covenant_type o = COV_TYPE_DA_COMMIT) outs) (covenant_data o)).
        { split; intros; destruct_and?; split_and?; try done; lia. }
        destruct (covenant_data <$> _) as [|d l] using rev_ind; [done|].
        by rewrite app_comm_cons, !List.last_last.
      * split; [done|]. intros ((? & _) & _). lia.
    + rewrite decide_False by lia. run_bind. apply IH.
Qed.

Lemma commitment_output_Ok tx d :
  da_commit_output_commitment tx = Ok d ↔ da_outputs tx = [d] ∧ len d = 32.
Proof.
  unfold da_commit_output_commitment, da_outputs. rewrite bind_Ok. split.
  - intros ([n got] & (HF & -> & ->)%outputs_fold_Ok & H). destruct (negb _) eqn:E in H; [done|].
    injection H as <-. apply negb_false_iff, Z.eqb_eq in E.
    destruct (filter _ _) as [|o [|o' l]]; [done| |rewrite !length_cons in E; lia].
    apply Forall_cons_1 in HF as [? _]. done.
  - intros [Ho Hl]. exists (1, d). rewrite outputs_fold_Ok. rewrite Ho. split; [|done].
    split_and!; [by repeat constructor| |done]. apply (f_equal length) in Ho. rewrite length_fmap in Ho. simpl in Ho. lia.
Qed.

(** ** Complete data-availability sets *)

Section spec.
Context `{HS : Sha3}.

(** The data-availability transactions of a block form complete sets. *)
Record da_sets_complete (txs : list Tx) : Prop := mkDaSetsComplete {
  (** each carries the core of its kind, and each chunk hashes to the value its core states *)
  dc_cores : Forall core_present txs;
  dc_hashes : ∀ tx c, tx ∈ txs → tx_kind tx = 2 → da_chunk_core tx = Some c →
                sha3_256 (da_payload tx) = chunk_hash c;
  (** no batch is committed twice and no chunk appears twice *)
  dc_ids : NoDup (commits_of txs).*1;
  dc_keys : NoDup (chunks_of txs).*1;
  (** there are not too many batches, each with an admissible number of chunks *)
  dc_batches : len (commits_of txs) ≤ MAX_DA_BATCHES_PER_BLOCK;
  dc_counts : ∀ id c, (id, c) ∈ commits_of txs → 1 ≤ dcs_chunk_count c ≤ MAX_DA_CHUNK_COUNT;
  (** the chunks are exactly the announced ones *)
  dc_cover : ∀ id i, (id, i) ∈ (chunks_of txs).*1 ↔
               ∃ c, (id, c) ∈ commits_of txs ∧ 0 ≤ i < dcs_chunk_count c;
  (** the one commitment output of a commit is the digest of its chunks' payloads in order *)
  dc_payload : ∀ id c, (id, c) ∈ commits_of txs → ∃ l,
                 len l = dcs_chunk_count c
                 ∧ (∀ i tx, l !! i = Some tx → ((id, Z.of_nat i), tx) ∈ chunks_of txs)
                 ∧ da_outputs (dcs_tx c) = [sha3_256 (concat_map da_payload l)] }.

Lemma chunk_hashes_Ok txs :
  validate_da_chunk_hashes txs = Ok () ↔
  ∀ tx, tx ∈ txs → tx_kind tx = 2 →
    ∃ c, da_chunk_core tx = Some c ∧ sha3_256 (da_payload tx) = chunk_hash c.
Proof.
  unfold validate_da_chunk_hashes. rewrite try_for_each_Ok, list.Forall_forall.
  split; intros H tx Htx; specialize (H tx Htx).
  - intros Hk. rewrite Hk in H. simpl in H. apply bind_Ok in H as (c & Hc%ok_or_Ok & H).
    exists c. split; [done|]. destruct (decide (sha3_256 (da_payload tx) = chunk_hash c)) as [|Hne]; [done|].
    by rewrite bool_decide_eq_true_2 in H.
  - destruct (tx_kind tx =? 2) eqn:Hk; [|done]. destruct H as (c & Hc & Hh); [lia|].
    rewrite Hc. simpl. by rewrite bool_decide_eq_false_2 by (by rewrite Hh; intros []).
Qed.

Lemma structure_Ok sets :
  validate_da_set_structure sets = Ok () ↔
  validate_da_chunk_orphans (ds_commits sets) (ds_chunks sets) = Ok ()
  ∧ ds_duplicate_commit_ids sets = ∅
  ∧ validate_da_set_completeness sets = Ok ()
  ∧ Z.of_nat (size (ds_commits sets)) ≤ MAX_DA_BATCHES_PER_BLOCK
  ∧ ∀ id c, ds_commits sets !! id = Some c →
      dcs_chunk_count c ≠ 0 ∧ dcs_chunk_count c ≤ MAX_DA_CHUNK_COUNT.
Proof.
  unfold validate_da_set_structure, validate_da_chunk_count_bounds, validate_da_chunk_count,
    validate_da_batch_count, validate_da_duplicate_commits. split.
  - intros H. apply bind_Ok in H as ([] & Ho & H). apply bind_Ok in H as ([] & Hd & H).
    apply bind_Ok in H as ([] & Hc & H). apply bind_Ok in H as ([] & Hb & H).
    rewrite btree_for_each_Ok in H. cbn [snd] in H. split; [done|]. split.
    { destruct (decide (ds_duplicate_commit_ids sets = ∅)) as [|Hne]; [done|]. by rewrite bool_decide_eq_true_2 in Hd. }
    split; [done|]. split; [case_match; [done|lia]|].
    intros id c Hl. specialize (H id c Hl). destruct (_ || _) eqn:E; [done|]. lia.
  - intros (-> & Hd & -> & Hb & Hc). run_bind. rewrite bool_decide_eq_false_2 by (by intros []).
    run_bind. replace (MAX_DA_BATCHES_PER_BLOCK <? _) with false by lia. run_bind.
    rewrite btree_for_each_Ok. intros id c [? ?]%Hc. cbn [snd]. by decide_if.
Qed.

Lemma payload_commitments_Ok commits chunks :
  validate_da_payload_commitments commits chunks = Ok () ↔
  ∀ id c, commits !! id = Some c → ∃ s l, chunks !! id = Some s
    ∧ len l = Z.max 0 (dcs_chunk_count c) ∧ chunks_in_order s l
    ∧ da_outputs (dcs_tx c) = [sha3_256 (concat_map da_payload l)].
Proof.
  unfold validate_da_payload_commitments. rewrite btree_for_each_Ok. cbn [fst].
  split; intros H id c Hl; specialize (H id c Hl).
  - apply bind_Ok in H as (c' & Hc & H). unfold da_commit_for_id in Hc. rewrite Hl in Hc.
    injection Hc as <-. apply bind_Ok in H as (s & Hs & H). unfold da_chunk_set_for_id in Hs.
    apply ok_or_Ok in Hs. apply bind_Ok in H as (p & Hp & H). apply bind_Ok in Hp as (b & Hb & [= <-]).
    apply payload_fold_Ok in Hb as (l & Hll & Hin & ->); [|done].
    apply bind_Ok in H as (d & [Hd _]%commitment_output_Ok & H).
    destruct (decide (sha3_256 ([] ++ concat_map da_payload l) = d)) as [<-|Hne]; [by exists s, l|].
    by rewrite bool_decide_eq_true_2 in H.
  - destruct H as (s & l & Hs & Hll & Hin & Ho). unfold da_commit_for_id, da_chunk_set_for_id.
    rewrite Hl, Hs. cbn [ok_or]. run_bind. unfold da_payload_commitment.
    rewrite (proj2 (payload_fold_Ok s _ 0 [] _ ltac:(lia))) by (exists l; split; [exact Hll|split; [exact Hin|reflexivity]]).
    run_bind. rewrite (proj2 (commitment_output_Ok _ _)) by (split; [exact Ho|by rewrite sha3_256_length]).
    run_bind. by rewrite bool_decide_eq_false_2 by (by intros []).
Qed.
(** The maps of [collected] read back as the lists of the block. *)
Lemma collected_commit txs sets id c : collected txs sets → NoDup (commits_of txs).*1 →
  ds_commits sets !! id = Some c ↔ (id, c) ∈ commits_of txs.
Proof. intros [-> _ _ _ _ _] Hnd. symmetry. by apply elem_of_list_to_map. Qed.

Lemma collected_chunk txs sets id i tx : collected txs sets → NoDup (chunks_of txs).*1 →
  (∃ s, ds_chunks sets !! id = Some s ∧ s !! i = Some tx) ↔ ((id, i), tx) ∈ chunks_of txs.
Proof.
  intros [_ Hch _ _ _ _] Hnd. rewrite elem_of_list_to_map, <- Hch by done.
  destruct (ds_chunks sets !! id) as [s|]; simpl.
  - split; [by intros (? & [= <-] & ?)|eauto].
  - rewrite lookup_empty. naive_solver.
Qed.

Lemma collected_key txs sets id i : collected txs sets →
  (∃ s, ds_chunks sets !! id = Some s ∧ is_Some (s !! i)) ↔ (id, i) ∈ (chunks_of txs).*1.
Proof.
  intros [_ Hch _ _ _ _].
  assert ((id, i) ∈ (chunks_of txs).*1 ↔ (list_to_map (chunks_of txs) : gmap _ _) !! (id, i) ≠ None) as ->.
  { rewrite list_to_map_None. destruct (decide ((id, i) ∈ (chunks_of txs).*1)); tauto. }
  rewrite <- Hch, not_eq_None_Some. destruct (ds_chunks sets !! id) as [s|]; simpl.
  - split; [by intros (? & [= <-] & ?)|eauto].
  - rewrite lookup_empty. unfold is_Some. naive_solver.
Qed.

Lemma collected_some_chunk txs sets id s : collected txs sets → ds_chunks sets !! id = Some s →
  ∃ i, (id, i) ∈ (chunks_of txs).*1.
Proof.
  intros Hc Hs. pose proof (col_nonempty _ _ Hc id s Hs) as Hne.
  apply map_choose in Hne as (i & tx & Hi). exists i. apply (collected_key _ sets); eauto.
Qed.

Lemma size_commits txs sets : collected txs sets → NoDup (commits_of txs).*1 →
  Z.of_nat (size (ds_commits sets)) = len (commits_of txs).
Proof.
  intros [-> _ _ _ _ _] Hnd. rewrite <- size_dom, dom_list_to_map_L, size_list_to_set by done.
  by rewrite length_fmap.
Qed.

Lemma integrity_complete txs : validate_da_set_integrity txs = Ok () → da_sets_complete txs.
Proof.
  unfold validate_da_set_integrity. intros H. apply bind_Ok in H as ([] & Hh & H).
  rewrite chunk_hashes_Ok in Hh. apply bind_Ok in H as (sets & Hs & H).
  pose proof (collect_collected _ _ Hs) as Hc. apply bind_Ok in H as ([] & Hst & Hp).
  rewrite structure_Ok, orphans_Ok, completeness_Ok in Hst. destruct Hst as (Ho & Hd & Hcp & Hb & Hcc).
  rewrite payload_commitments_Ok in Hp.
  pose proof (proj1 (col_dup_ids _ _ Hc) Hd) as Hids.
  assert (NoDup (chunks_of txs).*1) as Hkeys.
  { apply (col_dup_indexes _ _ Hc). intros id s Hds.
    destruct (col_dup_dom _ _ Hc id s Hds) as [m Hm]. destruct (Ho id m Hm) as [c Hcm].
    by eapply (proj1 (Hcp id c Hcm)). }
  split.
  - apply collect_total. eauto.
  - intros tx c Htx Hk Ec. destruct (Hh tx Htx Hk) as (c' & Ec' & ?). naive_solver.
  - done.
  - done.
  - by rewrite <- (size_commits txs sets).
  - intros id c Hin. rewrite <- (collected_commit txs sets) in Hin by done.
    destruct (Hcp id c Hin) as (_ & _ & _ & ? & _). destruct (Hcc id c Hin). lia.
  - intros id i. rewrite <- (collected_key txs sets) by done. split.
    + intros (s & Hsm & Hi). destruct (Ho id s Hsm) as [c Hcm]. exists c.
      rewrite <- (collected_commit txs sets) by done. split; [done|].
      destruct (Hcp id c Hcm) as (_ & s' & Hs' & _ & Hf). simplify_eq. by apply Hf.
    + intros (c & Hin & Hi). rewrite <- (collected_commit txs sets) in Hin by done.
      destruct (Hcp id c Hin) as (_ & s & Hsm & _ & Hf). exists s. split; [done|]. by apply Hf.
  - intros id c Hin. rewrite <- (collected_commit txs sets) in Hin by done.
    destruct (Hcp id c Hin) as (_ & _ & _ & ? & _).
    destruct (Hp id c Hin) as (s & l & Hsm & Hl & Hord & Hout). exists l. split; [lia|]. split; [|done].
    intros i tx Hi. apply (collected_chunk _ sets); [done..|]. exists s. auto.
Qed.

Lemma complete_integrity txs : da_sets_complete txs → validate_da_set_integrity txs = Ok ().
Proof.
  intros [Hcores Hh Hids Hkeys Hb Hcc Hcov Hp].
  unfold validate_da_set_integrity.
  rewrite (proj2 (chunk_hashes_Ok txs)).
  2: { intros tx Htx Hk. rewrite list.Forall_forall in Hcores. destruct (Hcores tx Htx) as [_ [c Hc]]; eauto. }
  run_bind. apply collect_total in Hcores as [sets Hs]. rewrite Hs. run_bind.
  pose proof (collect_collected _ _ Hs) as Hc.
  assert (∀ id c, ds_commits sets !! id = Some c ↔ (id, c) ∈ commits_of txs) as Hcm
    by (intros; by apply collected_commit).
  assert (∀ id c, ds_commits sets !! id = Some c →
    ∃ s, ds_chunks sets !! id = Some s ∧ 0 ≤ dcs_chunk_count c ∧ ∀ i, is_Some (s !! i) ↔ 0 ≤ i < dcs_chunk_count c)
    as Hfull.
  { intros id c Hin%Hcm. pose proof (Hcc _ _ Hin).
    destruct (proj2 (collected_key txs sets id 0 Hc)) as (s & Hsm & _).
    { apply Hcov. exists c. split; [done|lia]. }
    exists s. split; [done|]. split; [lia|]. intros i.
    transitivity ((id, i) ∈ (chunks_of txs).*1).
    - rewrite <- (collected_key txs sets) by done. naive_solver.
    - rewrite Hcov. split; [|eauto]. intros (c' & Hin' & ?).
      apply Hcm in Hin, Hin'. by simplify_eq. }
  assert (validate_da_set_structure sets = Ok ()) as ->.
  { apply structure_Ok. rewrite orphans_Ok, completeness_Ok, (size_commits txs) by done. split_and!; [| | |done|].
    - intros id s Hsm. destruct (collected_some_chunk _ _ _ _ Hc Hsm) as [i (c & Hin & _)%Hcov].
      exists c. by apply Hcm.
    - by apply (col_dup_ids _ _ Hc).
    - intros id c Hin. split; [|by apply Hfull]. intros d Hd. by eapply (col_dup_indexes _ _ Hc).
    - intros id c Hin%Hcm. pose proof (Hcc _ _ Hin). lia. }
  run_bind. apply payload_commitments_Ok. intros id c Hin.
  destruct (Hfull id c Hin) as (s & Hsm & ? & _). apply Hcm in Hin.
  destruct (Hp id c Hin) as (l & Hl & Hord & Hout). exists s, l. split_and!; [done|lia| |done].
  intros i tx Hi. apply Hord in Hi. apply (collected_chunk _ sets) in Hi as (s' & ? & ?); [|done..]. by simplify_eq.
Qed.

(** C28: a block's data-availability check accepts exactly the blocks whose
    data-availability transactions form complete sets: every batch is
    committed once, its chunks are all there, each once and at its index, each
    hashing to the value it states, no chunk belongs to an uncommitted batch,
    the counts are in bounds, and the single commitment output of each commit
    is the digest of the batch's payload put together in index order. *)
Theorem da_set_integrity_iff txs : validate_da_set_integrity txs = Ok () ↔ da_sets_complete txs.
Proof. split; [apply integrity_complete|apply complete_integrity]. Qed.
End spec.
