(* ===== verification/BlockBasic.v ===== *)
(** * Validating a block ([block_basic.rs], [header.rs], [coinbase.rs], [txs.rs],
    [orchestration.rs])

    The checks of a parsed block that need no ledger: the proof of work and the
    commitments of the header, the timestamp window, the coinbase, the resource
    limits, the data-availability sets and the rules of each transaction. *)

From S2P Require Import Prelude Bytes BTree Errors Constants Crypto WireRead CompactSize TxWire TxCodec Block Merkle Pow Subsidy.
From S2P Require Import Suites Sighash Spend CovenantGenesis UtxoApply BlockParse BlockWeight BlockDa.

(* rust: block_basic.rs 36-42 BlockBasicSummary *)
Record BlockBasicSummary : Type := mkBlockBasicSummary {
  bs_tx_count : Z; bs_sum_weight : Z; bs_sum_da : Z; bs_block_hash : bytes }.

(* rust: block_basic/txs.rs 6-11 BlockTxStats *)
Record BlockTxStats : Type := mkBlockTxStats { st_sum_weight : Z; st_sum_da : Z; st_sum_anchor : Z }.

(** ** Timestamps *)

(** [sort_unstable] on integers. *)
Definition sort_u64 (l : list Z) : list Z := merge_sort Z.le l.

(* rust: block_basic/header.rs 65-90 median_time_past *)
Definition median_time_past (block_height : Z) (prev_timestamps : option (list Z)) : res (option Z) :=
  if block_height =? 0 then Ok None else
  match prev_timestamps with
  | None => Ok None
  | Some prev =>
      if bool_decide (prev = []) then Ok None else
      let k := Z.min block_height 11 in
      if len prev <? k then tx_err BlockErrParse "insufficient prev_timestamps context" else
      let window := sort_u64 (take (Z.to_nat k) prev) in
      Ok (Some (nth (Z.to_nat ((len window - 1) / 2)) window 0))
  end.

(* rust: block_basic/header.rs 41-63 validate_timestamp_rules *)
Definition validate_timestamp_rules (header_timestamp block_height : Z)
    (prev_timestamps : option (list Z)) : res unit :=
  m ← median_time_past block_height prev_timestamps;
  match m with
  | None => Ok ()
  | Some median =>
      if header_timestamp <=? median then tx_err BlockErrTimestampOld "timestamp <= MTP median" else
      let upper_bound := saturating_add u64_max median MAX_FUTURE_DRIFT in
      if upper_bound <? header_timestamp
      then tx_err BlockErrTimestampFuture "timestamp exceeds future drift" else Ok ()
  end.

(** ** The coinbase *)

(* rust: block_basic/coinbase.rs 15-25 has_coinbase_tx_shape *)
Definition has_coinbase_tx_shape (tx : Tx) : bool :=
  forallb id [tx_kind tx =? 0x00; tx_nonce tx =? 0; len (inputs tx) =? 1;
              bool_decide (witness tx = []); bool_decide (da_payload tx = [])].

(* rust: block_basic/coinbase.rs 27-36 has_coinbase_input_shape *)
Definition has_coinbase_input_shape (input : TxInput) : bool :=
  forallb id [bool_decide (prev_txid input = zeros 32); prev_vout input =? u32_max;
              bool_decide (script_sig input = []); sequence input =? u32_max].

(* rust: block_basic/coinbase.rs 7-13 is_coinbase_tx *)
Definition is_coinbase_tx (tx : Tx) : bool :=
  if negb (has_coinbase_tx_shape tx) then false else
  match inputs tx with
  | input :: _ => has_coinbase_input_shape input
  | [] => false
  end.

(** [pb.txs.first().ok_or(..)]. *)
Definition missing_coinbase : TxError := mkTxError BlockErrCoinbaseInvalid "missing coinbase".

(* rust: block_basic/coinbase.rs 38-69 validate_coinbase_structure *)
Definition validate_coinbase_structure (pb : ParsedBlock) (block_height : Z) : res unit :=
  coinbase ← ok_or (head (pb_txs pb)) missing_coinbase;
  if negb (is_coinbase_tx coinbase)
  then tx_err BlockErrCoinbaseInvalid "first tx is not canonical coinbase" else
  if bool_decide (outputs coinbase = [])
  then tx_err BlockErrCoinbaseInvalid "coinbase must have at least one output" else
  if u32_max <? block_height then tx_err BlockErrCoinbaseInvalid "height out of range" else
  if negb (locktime coinbase =? block_height)
  then tx_err BlockErrCoinbaseInvalid "coinbase locktime must equal block height" else Ok ().

(* rust: block_basic/coinbase.rs 102-107 sum_coinbase_outputs *)
Definition sum_coinbase_outputs (coinbase : Tx) : res Z :=
  try_fold (λ sum out, ok_or (checked_add u128_max sum (value out)) (mkTxError BlockErrParse "u128 overflow"))
    0 (outputs coinbase).

(* rust: block_basic/coinbase.rs 109-118 coinbase_value_limit *)
Definition coinbase_value_limit (block_height already_generated sum_fees : Z) : res Z :=
  let subsidy := block_subsidy block_height already_generated in
  ok_or (checked_add u128_max subsidy sum_fees) (mkTxError BlockErrParse "u128 overflow").

(* rust: block_basic/coinbase.rs 75-100 validate_coinbase_value_bound *)
Definition validate_coinbase_value_bound (pb : ParsedBlock) (block_height already_generated sum_fees : Z) :
    res unit :=
  if block_height =? 0 then Ok () else
  match pb_txs pb with
  | [] => Err missing_coinbase
  | coinbase :: _ =>
      sum_coinbase ← sum_coinbase_outputs coinbase;
      limit ← coinbase_value_limit block_height already_generated sum_fees;
      if limit <? sum_coinbase
      then tx_err BlockErrSubsidyExceeded "coinbase outputs exceed subsidy+fees bound" else Ok ()
  end.

(* rust: block_basic/coinbase.rs 120-130 validate_coinbase_apply_outputs *)
Definition validate_coinbase_apply_outputs (outs : list TxOutput) : res unit :=
  try_for_each (λ out,
    if covenant_type out =? COV_TYPE_VAULT
    then tx_err BlockErrCoinbaseInvalid "coinbase must not create CORE_VAULT outputs" else Ok ()) outs.

(* rust: block_basic/coinbase.rs 168-172 is_witness_commitment_match *)
Definition is_witness_commitment_match (out : TxOutput) (expected : bytes) : bool :=
  (covenant_type out =? COV_TYPE_ANCHOR) && (len (covenant_data out) =? 32)
  && bool_decide (covenant_data out = expected).

Section block_basic.
  Context `{HS : Sha3}.

(* rust: block_basic/coinbase.rs 132-166 validate_coinbase_witness_commitment *)
Definition validate_coinbase_witness_commitment (pb : ParsedBlock) : res unit :=
  coinbase ← ok_or (head (pb_txs pb)) missing_coinbase;
  if bool_decide (pb_wtxids pb = []) then Err missing_coinbase else
  wroot ← map_err (λ _, mkTxError BlockErrWitnessCommitment "failed to compute witness merkle root")
            (witness_merkle_root_wtxids (pb_wtxids pb));
  let expected := witness_commitment_hash wroot in
  let matches := len (take 2 (filter (λ out, is_witness_commitment_match out expected) (outputs coinbase))) in
  if negb (matches =? 1)
  then tx_err BlockErrWitnessCommitment "coinbase witness commitment missing or duplicated" else Ok ().

(** ** The header *)

(* rust: block_basic/header.rs 5-39 validate_header_commitments *)
Definition validate_header_commitments (pb : ParsedBlock) (expected_prev_hash expected_target : option bytes) :
    res unit :=
  _ ← pow_check (pb_header_bytes pb) (bh_target (pb_header pb));
  _ ← match expected_target with
      | Some target =>
          if bool_decide (bh_target (pb_header pb) ≠ target)
          then tx_err BlockErrTargetInvalid "target mismatch" else Ok ()
      | None => Ok ()
      end;
  _ ← match expected_prev_hash with
      | Some prev =>
          if bool_decide (bh_prev_block_hash (pb_header pb) ≠ prev)
          then tx_err BlockErrLinkageInvalid "prev_block_hash mismatch" else Ok ()
      | None => Ok ()
      end;
  root ← map_err (λ _, mkTxError BlockErrMerkleInvalid "failed to compute merkle")
           (merkle_root_txids (pb_txids pb));
  if bool_decide (root ≠ bh_merkle_root (pb_header pb))
  then tx_err BlockErrMerkleInvalid "merkle_root mismatch" else Ok ().

(** ** Resources *)

(* rust: block_basic/txs.rs 29-33 add_block_resource_stat *)
Definition add_block_resource_stat (current delta : Z) (msg : string) : res Z :=
  ok_or (checked_add u64_max current delta) (mkTxError TxErrParse msg).

(* rust: block_basic/txs.rs 13-27 accumulate_block_resource_stats *)
Definition accumulate_block_resource_stats (pb : ParsedBlock) : res BlockTxStats :=
  try_fold (λ stats tx,
    '(w, da, anchor_bytes) ← tx_weight_and_stats tx;
    sum_weight ← add_block_resource_stat (st_sum_weight stats) w "sum_weight overflow";
    sum_da ← add_block_resource_stat (st_sum_da stats) da "sum_da overflow";
    sum_anchor ← add_block_resource_stat (st_sum_anchor stats) anchor_bytes "sum_anchor overflow";
    Ok (mkBlockTxStats sum_weight sum_da sum_anchor)) (mkBlockTxStats 0 0 0) (pb_txs pb).

(* rust: block_basic.rs 207-227 validate_block_resource_limits *)
Definition validate_block_resource_limits (stats : BlockTxStats) : res unit :=
  if MAX_BLOCK_WEIGHT <? st_sum_weight stats
  then tx_err BlockErrWeightExceeded "block weight exceeded" else
  if MAX_DA_BYTES_PER_BLOCK <? st_sum_da stats
  then tx_err BlockErrWeightExceeded "DA bytes exceeded" else
  if MAX_ANCHOR_BYTES_PER_BLOCK <? st_sum_anchor stats
  then tx_err BlockErrAnchorBytesExceeded "anchor bytes exceeded" else Ok ().

(** ** Transactions *)

(* rust: block_basic/txs.rs 35-49 validate_non_coinbase_nonce_and_input_count *)
Definition validate_non_coinbase_nonce_and_input_count (tx : Tx) : res unit :=
  if (tx_nonce tx =? 0) && bool_decide (inputs tx = [])
  then tx_err TxErrTxNonceInvalid "tx_nonce must be >= 1 for non-coinbase" else
  if bool_decide (inputs tx = [])
  then tx_err TxErrParse "non-coinbase must have at least one input" else Ok ().

(** The set of nonces is the state of the loop that calls it. *)
(* rust: block_basic/txs.rs 79-97 validate_non_coinbase_block_tx *)
Definition validate_non_coinbase_block_tx (tx : Tx) (seen_nonces : gset Z) : res (gset Z) :=
  if is_coinbase_tx tx then tx_err BlockErrCoinbaseInvalid "coinbase-like tx found at index > 0" else
  _ ← validate_non_coinbase_nonce_and_input_count tx;
  if bool_decide (tx_nonce tx ∈ seen_nonces)
  then tx_err TxErrNonceReplay "duplicate tx_nonce in block" else
  Ok ({[tx_nonce tx]} ∪ seen_nonces).

(* rust: block_basic/txs.rs 65-76 validate_coinbase_block_tx_semantics *)
Definition validate_coinbase_block_tx_semantics (pb : ParsedBlock) (block_height : Z)
    (rotation : option RotationProvider) : res unit :=
  _ ← validate_coinbase_structure pb block_height;
  coinbase ← ok_or (head (pb_txs pb)) missing_coinbase;
  validate_tx_covenants_genesis coinbase block_height rotation.

(* rust: block_basic/txs.rs 51-63 validate_block_tx_semantics *)
Definition validate_block_tx_semantics (pb : ParsedBlock) (block_height : Z)
    (rotation : option RotationProvider) : res unit :=
  _ ← validate_coinbase_block_tx_semantics pb block_height rotation;
  _ ← try_fold (λ seen_nonces tx,
        seen_nonces ← validate_non_coinbase_block_tx tx seen_nonces;
        _ ← validate_tx_covenants_genesis tx block_height rotation;
        Ok seen_nonces) ∅ (drop 1 (pb_txs pb));
  Ok ().

(** ** Putting the checks together *)

(* rust: block_basic/orchestration.rs 149-167 validate_parsed_block_preflight *)
Definition validate_parsed_block_preflight (pb : ParsedBlock) (expected_prev_hash expected_target : option bytes)
    (block_height : Z) (prev_timestamps : option (list Z)) : res BlockTxStats :=
  _ ← (_ ← validate_header_commitments pb expected_prev_hash expected_target;
       _ ← validate_coinbase_witness_commitment pb;
       validate_timestamp_rules (bh_timestamp (pb_header pb)) block_height prev_timestamps);
  stats ← accumulate_block_resource_stats pb;
  _ ← validate_block_resource_limits stats;
  _ ← validate_da_set_integrity (pb_txs pb);
  Ok stats.

(* rust: block_basic/orchestration.rs 130-147 validate_parsed_block_basic_checks *)
Definition validate_parsed_block_basic_checks (pb : ParsedBlock)
    (expected_prev_hash expected_target : option bytes) (block_height : Z)
    (prev_timestamps : option (list Z)) (rotation : option RotationProvider) : res BlockTxStats :=
  stats ← validate_parsed_block_preflight pb expected_prev_hash expected_target block_height prev_timestamps;
  _ ← validate_block_tx_semantics pb block_height rotation;
  Ok stats.

(* rust: block_basic/orchestration.rs 24-49 validate_parsed_block_basic_with_context_at_height *)
Definition validate_parsed_block_basic_with_context_at_height (pb : ParsedBlock)
    (expected_prev_hash expected_target : option bytes) (block_height : Z)
    (prev_timestamps : option (list Z)) (rotation : option RotationProvider) : res BlockBasicSummary :=
  stats ← validate_parsed_block_basic_checks pb expected_prev_hash expected_target block_height
            prev_timestamps rotation;
  h ← map_err (λ _, mkTxError BlockErrParse "failed to hash block header") (block_hash (pb_header_bytes pb));
  Ok (mkBlockBasicSummary (pb_tx_count pb) (st_sum_weight stats) (st_sum_da stats) h).

(* rust: block_basic/orchestration.rs 52-68 validate_connect_preflight *)
Definition validate_connect_preflight (pb : ParsedBlock) (expected_prev_hash expected_target : option bytes)
    (block_height : Z) (prev_timestamps : option (list Z)) (rotation : option RotationProvider) : res unit :=
  _ ← validate_parsed_block_preflight pb expected_prev_hash expected_target block_height prev_timestamps;
  validate_coinbase_structure pb block_height.

(* rust: block_basic/orchestration.rs 70-80 coinbase_and_txid *)
Definition coinbase_and_txid (pb : ParsedBlock) : res (Tx * bytes) :=
  coinbase ← ok_or (head (pb_txs pb)) missing_coinbase;
  coinbase_txid ← ok_or (head (pb_txids pb)) (mkTxError BlockErrParse "missing coinbase txid");
  Ok (coinbase, coinbase_txid).

(** The body of the loop over the coinbase's outputs. *)
(* rust: block_basic/orchestration.rs 95-124 apply_coinbase_outputs *)
Definition apply_coinbase_output (tx_kind : Z) (coinbase_txid : bytes) (block_height : Z) (rp : RotationProvider)
    (s : UtxoMap * list bytes) (iout : Z * TxOutput) : res (UtxoMap * list bytes) :=
  let '(work_utxos, cmrs) := s in let '(index, out) := iout in
  _ ← validate_coinbase_apply_outputs [out];
  program_cmr ← validate_tx_output_covenant_genesis tx_kind out block_height rp;
  let cmrs := match program_cmr with Some c => cmrs ++ [c] | None => cmrs end in
  if (covenant_type out =? COV_TYPE_ANCHOR) || (covenant_type out =? COV_TYPE_DA_COMMIT)
  then Ok (work_utxos, cmrs) else
  if u32_max <? index then tx_err BlockErrParse "coinbase output index exceeds u32" else
  Ok (<[mkOutpoint coinbase_txid index :=
          mkUtxoEntry (value out) (covenant_type out) (covenant_data out) block_height true]> work_utxos, cmrs).

(** The map is the caller's working copy, which it drops on an error. *)
(* rust: block_basic/orchestration.rs 84-127 apply_coinbase_outputs *)
Definition apply_coinbase_outputs (pb : ParsedBlock) (work_utxos : UtxoMap) (block_height : Z)
    (rotation : option RotationProvider) : res UtxoMap :=
  '(coinbase, coinbase_txid) ← coinbase_and_txid pb;
  let rp := default DefaultRotationProvider rotation in
  '(work_utxos, simplicity_output_cmrs) ←
    try_fold (apply_coinbase_output (tx_kind coinbase) coinbase_txid block_height rp)
      (work_utxos, []) (enumerate (outputs coinbase));
  _ ← validate_simplicity_output_group_cap simplicity_output_cmrs;
  Ok work_utxos.

(** ** Entry points *)

(* rust: block_basic.rs 67-93 validate_stored_block_commitments *)
Definition validate_stored_block_commitments (pb : ParsedBlock) : res unit :=
  coinbase ← ok_or (head (pb_txs pb)) missing_coinbase;
  if negb (is_coinbase_tx coinbase)
  then tx_err BlockErrCoinbaseInvalid "first tx is not canonical coinbase" else
  merkle_root ← map_err (λ _, mkTxError BlockErrMerkleInvalid "failed to compute merkle root")
                  (merkle_root_txids (pb_txids pb));
  if bool_decide (merkle_root ≠ bh_merkle_root (pb_header pb))
  then tx_err BlockErrMerkleInvalid "merkle_root mismatch" else
  validate_coinbase_witness_commitment pb.

(* rust: block_basic.rs 139-156 validate_block_basic_with_context_at_height_and_rotation *)
Definition validate_block_basic_with_context_at_height_and_rotation (block_bytes : bytes)
    (expected_prev_hash expected_target : option bytes) (block_height : Z)
    (prev_timestamps : option (list Z)) (rotation : option RotationProvider) : res BlockBasicSummary :=
  pb ← parse_block_bytes block_bytes;
  validate_parsed_block_basic_with_context_at_height pb expected_prev_hash expected_target block_height
    prev_timestamps rotation.

(* rust: block_basic.rs 118-133 validate_block_basic_with_context_at_height *)
Definition validate_block_basic_with_context_at_height (block_bytes : bytes)
    (expected_prev_hash expected_target : option bytes) (block_height : Z)
    (prev_timestamps : option (list Z)) : res BlockBasicSummary :=
  validate_block_basic_with_context_at_height_and_rotation block_bytes expected_prev_hash expected_target
    block_height prev_timestamps None.

(* rust: block_basic.rs 103-116 validate_block_basic_at_height *)
Definition validate_block_basic_at_height (block_bytes : bytes)
    (expected_prev_hash expected_target : option bytes) (block_height : Z) : res BlockBasicSummary :=
  validate_block_basic_with_context_at_height block_bytes expected_prev_hash expected_target block_height None.

(* rust: block_basic.rs 95-101 validate_block_basic *)
Definition validate_block_basic (block_bytes : bytes) (expected_prev_hash expected_target : option bytes) :
    res BlockBasicSummary :=
  validate_block_basic_at_height block_bytes expected_prev_hash expected_target 0.

(* rust: block_basic.rs 182-205 validate_block_basic_with_context_and_fees_at_height_and_rotation *)
Definition validate_block_basic_with_context_and_fees_at_height_and_rotation (block_bytes : bytes)
    (expected_prev_hash expected_target : option bytes) (block_height : Z)
    (prev_timestamps : option (list Z)) (already_generated sum_fees : Z)
    (rotation : option RotationProvider) : res BlockBasicSummary :=
  pb ← parse_block_bytes block_bytes;
  s ← validate_parsed_block_basic_with_context_at_height pb expected_prev_hash expected_target block_height
        prev_timestamps rotation;
  _ ← validate_coinbase_value_bound pb block_height already_generated sum_fees;
  Ok s.

(* rust: block_basic.rs 158-177 validate_block_basic_with_context_and_fees_at_height *)
Definition validate_block_basic_with_context_and_fees_at_height (block_bytes : bytes)
    (expected_prev_hash expected_target : option bytes) (block_height : Z)
    (prev_timestamps : option (list Z)) (already_generated sum_fees : Z) : res BlockBasicSummary :=
  validate_block_basic_with_context_and_fees_at_height_and_rotation block_bytes expected_prev_hash
    expected_target block_height prev_timestamps already_generated sum_fees None.
End block_basic.

(** ** The median of a window *)

Lemma filter_none {A} (P : A → Prop) `{∀ x, Decision (P x)} (l : list A) : (∀ x, x ∈ l → ¬ P x) → filter P l = [].
Proof.
  induction l as [|x l IH]; intros Hn; [done|].
  rewrite filter_cons_False by (apply Hn; by left). apply IH. intros y Hy. apply Hn. by right.
Qed.
Lemma filter_every {A} (P : A → Prop) `{∀ x, Decision (P x)} (l : list A) : (∀ x, x ∈ l → P x) → filter P l = l.
Proof.
  induction l as [|x l IH]; intros Hp; [done|].
  rewrite filter_cons_True by (apply Hp; by left). f_equal. apply IH. intros y Hy. apply Hp. by right.
Qed.

(** The number of elements below, and not above, a bound. *)
Definition below (m : Z) (l : list Z) : Z := len (filter (λ x, x < m) l).
Definition up_to (m : Z) (l : list Z) : Z := len (filter (λ x, x ≤ m) l).

(** The [i]-th smallest element of a list. *)
Definition order_statistic (i : Z) (l : list Z) (m : Z) : Prop := m ∈ l ∧ below m l ≤ i < up_to m l.

Lemma below_up_to m m' l : m < m' → up_to m l ≤ below m' l.
Proof.
  intros Hm. unfold up_to, below. induction l as [|x l IH]; [done|]. rewrite !filter_cons.
  repeat case_decide; rewrite ?length_cons; lia.
Qed.

Lemma order_statistic_unique i l m m' : order_statistic i l m → order_statistic i l m' → m = m'.
Proof.
  intros [_ ?] [_ ?]. destruct (Z.lt_trichotomy m m') as [Hlt|[->|Hlt]]; [|done|];
    apply (below_up_to _ _ l) in Hlt; lia.
Qed.

Lemma order_statistic_perm i l l' m : l ≡ₚ l' → order_statistic i l m ↔ order_statistic i l' m.
Proof. intros Hp. unfold order_statistic, below, up_to. by rewrite Hp. Qed.

Lemma sorted_nth l i : StronglySorted Z.le l → (i < length l)%nat → order_statistic (Z.of_nat i) l (nth i l 0).
Proof.
  intros Hs Hi. destruct (lookup_lt_is_Some_2 l i Hi) as [x Hx]. rewrite (nth_lookup_Some _ _ _ _ Hx).
  split; [by eapply list_elem_of_lookup_2|]. pose proof Hi as Hlen.
  rewrite <- (take_drop_middle l i x Hx) in Hs |- *. apply StronglySorted_app in Hs as (Hle & H1 & H2).
  apply StronglySorted_inv in H2 as [_ H2]. rewrite list.Forall_forall in H2.
  unfold below, up_to. rewrite !list.filter_app, !length_app.
  rewrite (filter_none (λ y, y < x) (x :: _)).
  2: { intros y [->|Hy]%elem_of_cons; [lia|]. specialize (H2 y Hy). simpl in H2. lia. }
  rewrite (filter_every (λ y, y ≤ x) (take i l)).
  2: { intros y Hy. apply Hle; [done|by left]. }
  rewrite filter_cons_True by lia. rewrite length_cons, length_take.
  pose proof (length_filter (λ y, y < x) (take i l)). rewrite length_take in *. simpl length. lia.
Qed.

Lemma sort_u64_nth (l : list Z) i : (i < length l)%nat → order_statistic (Z.of_nat i) l (nth i (sort_u64 l) 0).
Proof.
  intros Hi. pose proof (merge_sort_Permutation Z.le l) as Hp.
  rewrite <- (order_statistic_perm _ _ _ _ Hp). apply sorted_nth.
  - apply StronglySorted_merge_sort; apply _.
  - by rewrite Hp.
Qed.

(** The timestamps the median is taken over: the last [min height 11]. *)
Definition window (block_height : Z) (prev : list Z) : list Z := take (Z.to_nat (Z.min block_height 11)) prev.
Definition is_median (w : list Z) (m : Z) : Prop := order_statistic ((len w - 1) / 2) w m.

Lemma median_Some height prev m : 0 ≤ height →
  median_time_past height prev = Ok (Some m) ↔
  ∃ l, prev = Some l ∧ l ≠ [] ∧ height ≠ 0 ∧ Z.min height 11 ≤ len l ∧ is_median (window height l) m.
Proof.
  intros Hh. unfold median_time_past.
  destruct (height =? 0) eqn:H0; [split; [done|]; intros (? & _ & _ & ? & _); lia|].
  destruct prev as [l|]; [|split; [done|]; by intros (? & ? & _)].
  case_bool_decide as Hl; [split; [done|]; intros (? & [= <-] & ? & _); done|].
  destruct (len l <? Z.min height 11) eqn:Hk; [split; [done|]; intros (? & [= <-] & _ & _ & ? & _); lia|].
  set (w := take (Z.to_nat (Z.min height 11)) l).
  assert (len (sort_u64 w) = len w) as Hlen.
  { unfold sort_u64. by rewrite (merge_sort_Permutation Z.le w). }
  assert (1 ≤ len w) as Hw by (unfold w; rewrite length_take; lia).
  assert (is_median w (nth (Z.to_nat ((len (sort_u64 w) - 1) / 2)) (sort_u64 w) 0)) as Hm.
  { rewrite Hlen. pose proof (Z.div_mod (len w - 1) 2). pose proof (Z.mod_pos_bound (len w - 1) 2).
    unfold is_median. replace ((len w - 1) / 2) with (Z.of_nat (Z.to_nat ((len w - 1) / 2))) at 1 by lia.
    apply sort_u64_nth. lia. }
  split.
  - intros [= <-]. exists l. split_and!; [done..|lia|lia|exact Hm].
  - intros (? & [= <-] & _ & _ & _ & Hm'). do 2 f_equal. by eapply order_statistic_unique.
Qed.

Lemma median_Ok height prev : 0 ≤ height →
  is_ok (median_time_past height prev) = true ↔
  ∀ l, prev = Some l → l = [] ∨ Z.min height 11 ≤ len l.
Proof.
  intros Hh. unfold median_time_past. destruct (height =? 0) eqn:H0.
  { split; [|done]. intros _ l _. right. lia. }
  destruct prev as [l|]; [|by split].
  case_bool_decide as Hl; [split; [|done]; intros _ ? [= <-]; by left|].
  destruct (len l <? Z.min height 11) eqn:Hk; simpl.
  - split; [done|]. intros Hp. destruct (Hp l eq_refl); [done|lia].
  - split; [|done]. intros _ ? [= <-]. right. lia.
Qed.

(** The header's time is after the median of the window and not too far from
    it; a block with predecessors comes with enough of them. *)
Definition time_ok (timestamp height : Z) (prev : option (list Z)) : Prop :=
  ∀ l, prev = Some l → l ≠ [] →
    Z.min height 11 ≤ len l
    ∧ (height ≠ 0 → ∀ m, is_median (window height l) m →
         m < timestamp ≤ Z.min u64_max (m + MAX_FUTURE_DRIFT)).

Lemma timestamp_rules_Ok timestamp height prev : 0 ≤ height →
  validate_timestamp_rules timestamp height prev = Ok () ↔ time_ok timestamp height prev.
Proof.
  intros Hh. unfold validate_timestamp_rules. pose proof (median_Ok height prev Hh) as Hok.
  destruct (median_time_past height prev) as [m|e] eqn:Hm; run_bind.
  2: { split; [done|]. intros Ht. simpl in Hok. enough (false = true) by done. apply Hok.
       intros l Hl. destruct (decide (l = [])) as [|Hne]; [by left|right]. by apply (Ht l). }
  simpl in Hok. destruct m as [m|].
  - apply median_Some in Hm as (l & -> & Hl & H0 & Hk & Hm); [|done]. unfold saturating_add, time_ok. split.
    + intros H l' [= <-] _. split; [done|]. intros _ m' Hm'.
      rewrite (order_statistic_unique _ _ _ _ Hm' Hm).
      destruct (timestamp <=? m) eqn:E1; [done|]. destruct (_ <? timestamp) eqn:E2; [done|]. lia.
    + intros Ht. destruct (Ht l eq_refl Hl) as [_ Ht']. specialize (Ht' H0 m Hm). do 2 decide_if. done.
  - split; [|done]. intros _ l -> Hl. split.
    + destruct (proj1 Hok eq_refl l eq_refl); done.
    + intros H0 m' Hm'.
      assert (median_time_past height (Some l) = Ok (Some m')) as Hs; [|by rewrite Hs in Hm].
      apply median_Some; [done|]. exists l. split_and!; [done..| |done].
      by destruct (proj1 Hok eq_refl l eq_refl).
Qed.

(** ** Resource totals *)

Definition tw (tx : Tx) : Z := full_weight tx (cost_at 0 None None).
Definition td (tx : Tx) : Z := if tx_kind tx =? 0 then 0 else len (da_payload tx).
Definition ta (tx : Tx) : Z := sum_of anchor_len (outputs tx).

Lemma tw_nonneg tx : 0 ≤ tw tx.
Proof.
  unfold tw, full_weight, WITNESS_DISCOUNT_DIVISOR.
  pose proof (sum_of_nonneg (cost_at 0 None None) (witness tx)
    (λ w, cost_at_nonneg 0 None None w ltac:(intros ? ? ? [=]))). lia.
Qed.
Lemma td_nonneg tx : 0 ≤ td tx.
Proof. unfold td. case_match; lia. Qed.
Lemma ta_nonneg tx : 0 ≤ ta tx.
Proof. apply sum_of_nonneg. intros o. unfold anchor_len. case_match; lia. Qed.
Lemma ta_le_tw tx : ta tx ≤ tw tx.
Proof.
  unfold ta, tw, full_weight, WITNESS_DISCOUNT_DIVISOR.
  pose proof (anchor_len_le (outputs tx)). pose proof (enc_tx_core_length tx).
  pose proof (sum_of_nonneg (cost_at 0 None None) (witness tx)
    (λ w, cost_at_nonneg 0 None None w ltac:(intros ? ? ? [=]))). lia.
Qed.

Lemma weight_and_stats_Ok tx w d a : tx_valid tx →
  tx_weight_and_stats tx = Ok (w, d, a) ↔ w = tw tx ∧ w ≤ u64_max ∧ d = td tx ∧ a = ta tx.
Proof.
  intros Hv. unfold tx_weight_and_stats. rewrite (components_Ok tx _ (cost_at 0 None None)); [done|done| |].
  - intros i. apply (cost_fn_at_Ok 0 None None).
  - intros i. by apply cost_at_nonneg.
Qed.

Lemma add_stat_Ok c d m n : add_block_resource_stat c d m = Ok n ↔ n = c + d ∧ c + d ≤ u64_max.
Proof. unfold add_block_resource_stat. by rewrite ok_or_Ok, checked_add_Some. Qed.

Definition stats_fit (s : BlockTxStats) : Prop :=
  st_sum_weight s ≤ u64_max ∧ st_sum_da s ≤ u64_max ∧ st_sum_anchor s ≤ u64_max.
Definition stats_add (s : BlockTxStats) (txs : list Tx) : BlockTxStats :=
  mkBlockTxStats (st_sum_weight s + sum_of tw txs) (st_sum_da s + sum_of td txs)
    (st_sum_anchor s + sum_of ta txs).

Lemma stats_fold_Ok s txs s' : Forall tx_valid txs →
  0 ≤ st_sum_weight s → stats_fit s →
  try_fold (λ stats tx,
    '(w, da, anchor_bytes) ← tx_weight_and_stats tx;
    sum_weight ← add_block_resource_stat (st_sum_weight stats) w "sum_weight overflow";
    sum_da ← add_block_resource_stat (st_sum_da stats) da "sum_da overflow";
    sum_anchor ← add_block_resource_stat (st_sum_anchor stats) anchor_bytes "sum_anchor overflow";
    Ok (mkBlockTxStats sum_weight sum_da sum_anchor)) s txs = Ok s' ↔
  s' = stats_add s txs ∧ stats_fit s'.
Proof.
  intros Hv. revert s. induction Hv as [|tx txs Hx _ IH]; intros s Hs0 Hs; cbn [try_fold].
  - unfold stats_add. cbn [sum_of foldr]. rewrite !Z.add_0_r. split; [intros [= <-]; by destruct s|].
    intros (-> & _). by destruct s.
  - pose proof (tw_nonneg tx). pose proof (td_nonneg tx). pose proof (ta_nonneg tx).
    pose proof (sum_of_nonneg tw txs tw_nonneg). pose proof (sum_of_nonneg td txs td_nonneg).
    pose proof (sum_of_nonneg ta txs ta_nonneg).
    set (s1 := mkBlockTxStats (st_sum_weight s + tw tx) (st_sum_da s + td tx) (st_sum_anchor s + ta tx)).
    assert (stats_add s (tx :: txs) = stats_add s1 txs) as ->.
    { unfold stats_add, s1. cbn [sum_of foldr st_sum_weight st_sum_da st_sum_anchor]. f_equal; unfold sum_of; lia. }
    rewrite bind_Ok. split.
    + intros (s2 & Hs2 & H'). apply bind_Ok in Hs2 as ([[w d] a] & (-> & ? & -> & ->)%weight_and_stats_Ok & Hs2);
        [|done]. apply bind_Ok in Hs2 as (? & (-> & ?)%add_stat_Ok & Hs2).
      apply bind_Ok in Hs2 as (? & (-> & ?)%add_stat_Ok & Hs2).
      apply bind_Ok in Hs2 as (? & (-> & ?)%add_stat_Ok & [= <-]). by apply IH in H'; [|simpl; lia|].
    + intros (-> & Hfit). unfold stats_fit, stats_add in *. cbn [st_sum_weight st_sum_da st_sum_anchor s1] in *.
      exists s1. split; [|apply IH; [simpl; lia|unfold stats_fit; simpl; lia|done]].
      apply bind_Ok. exists (tw tx, td tx, ta tx). rewrite weight_and_stats_Ok by done. split; [split_and!; lia|].
      apply bind_Ok. eexists. rewrite add_stat_Ok. split; [split; [done|lia]|].
      apply bind_Ok. eexists. rewrite add_stat_Ok. split; [split; [done|lia]|].
      apply bind_Ok. eexists. rewrite add_stat_Ok. by split; [split; [|lia]|].
Qed.

Lemma resource_stats_Ok pb s : Forall tx_valid (pb_txs pb) →
  accumulate_block_resource_stats pb = Ok s ↔
  s = stats_add (mkBlockTxStats 0 0 0) (pb_txs pb) ∧ stats_fit s.
Proof. intros Hv. by apply stats_fold_Ok. Qed.

Lemma resource_limits_Ok s :
  validate_block_resource_limits s = Ok () ↔
  st_sum_weight s ≤ MAX_BLOCK_WEIGHT ∧ st_sum_da s ≤ MAX_DA_BYTES_PER_BLOCK
  ∧ st_sum_anchor s ≤ MAX_ANCHOR_BYTES_PER_BLOCK.
Proof. unfold validate_block_resource_limits. repeat case_match; split; intros; done || lia. Qed.

(** ** The coinbase and the other transactions *)

(** The shape only a coinbase has. *)
Definition coinbase_like (tx : Tx) : Prop :=
  tx_kind tx = 0 ∧ tx_nonce tx = 0 ∧ witness tx = [] ∧ da_payload tx = []
  ∧ ∃ i, inputs tx = [i] ∧ prev_txid i = zeros 32 ∧ prev_vout i = u32_max ∧ script_sig i = []
         ∧ sequence i = u32_max.

Lemma is_coinbase_iff tx : is_coinbase_tx tx = true ↔ coinbase_like tx.
Proof.
  unfold is_coinbase_tx, has_coinbase_tx_shape, has_coinbase_input_shape, coinbase_like. cbn [forallb id]. split.
  - intros H. destruct (negb _) eqn:E in H; [done|]. apply negb_false_iff in E.
    rewrite !andb_true_iff, !bool_decide_eq_true in E. destruct (inputs tx) as [|i [|]]; simpl length in *; try lia.
    rewrite !andb_true_iff, !bool_decide_eq_true in H. destruct_and!. split_and!; try lia; [done..|].
    exists i. split_and!; try done; lia.
  - intros (Hk & Hn & Hw & Hp & i & Hi & ? & ? & ? & ?). rewrite Hk, Hn, Hw, Hp, Hi.
    rewrite !bool_decide_eq_true_2 by done. simpl length. simpl. lia.
Qed.

Lemma is_coinbase_false tx : is_coinbase_tx tx = false ↔ ¬ coinbase_like tx.
Proof. rewrite <- is_coinbase_iff. by destruct (is_coinbase_tx tx). Qed.

(** The coinbase of the block at a height. *)
Definition coinbase_ok (height : Z) (cb : Tx) : Prop :=
  coinbase_like cb ∧ outputs cb ≠ [] ∧ height ≤ u32_max ∧ locktime cb = height.

Lemma coinbase_structure_Ok pb height :
  validate_coinbase_structure pb height = Ok () ↔ ∃ cb, head (pb_txs pb) = Some cb ∧ coinbase_ok height cb.
Proof.
  unfold validate_coinbase_structure, coinbase_ok. setoid_rewrite <- is_coinbase_iff. rewrite bind_Ok.
  setoid_rewrite ok_or_Ok. split; intros (cb & Hcb & H); exists cb; (split; [done|]).
  - destruct (is_coinbase_tx cb); [|done]. cbn [negb] in H. case_bool_decide; [done|].
    destruct (u32_max <? height) eqn:E; [done|]. destruct (locktime cb =? height) eqn:E2; [|done]. split_and!; done || lia.
  - destruct H as (-> & ? & ? & ?). cbn [negb]. rewrite bool_decide_eq_false_2 by done. by do 2 decide_if.
Qed.

(** The coinbase has one output committing to the witness root. *)
Definition commits_witness `{HS : Sha3} (cb : Tx) (wtxids : list bytes) : Prop :=
  ∃ root, witness_merkle_root_wtxids wtxids = Ok root
    ∧ len (filter (λ o, covenant_type o = COV_TYPE_ANCHOR ∧ covenant_data o = witness_commitment_hash root)
             (outputs cb)) = 1.

Lemma length_take_2 {A} (l : list A) : len (take 2 l) = 1 ↔ len l = 1.
Proof. rewrite length_take. lia. Qed.

Lemma witness_commitment_Ok `{HS : Sha3} pb :
  validate_coinbase_witness_commitment pb = Ok () ↔
  ∃ cb, head (pb_txs pb) = Some cb ∧ commits_witness cb (pb_wtxids pb).
Proof.
  unfold validate_coinbase_witness_commitment, commits_witness. rewrite bind_Ok. setoid_rewrite ok_or_Ok.
  assert (∀ root (outs : list TxOutput),
    filter (λ out, is_witness_commitment_match out (witness_commitment_hash root)) outs
    = filter (λ o, covenant_type o = COV_TYPE_ANCHOR ∧ covenant_data o = witness_commitment_hash root) outs) as Hf.
  { intros root outs. apply list_filter_iff. intros o. unfold is_witness_commitment_match, Is_true.
    assert (covenant_data o = witness_commitment_hash root → len (covenant_data o) = 32) as Hl.
    { intros ->. unfold witness_commitment_hash. by rewrite sha3_256_length. }
    destruct (decide (covenant_data o = witness_commitment_hash root)) as [E|E].
    - rewrite (bool_decide_eq_true_2 _ E), (Hl E), Z.eqb_refl, !andb_true_r.
      destruct (Z.eqb_spec (covenant_type o) COV_TYPE_ANCHOR); naive_solver.
    - rewrite (bool_decide_eq_false_2 _ E), andb_false_r. naive_solver. }
  split; intros (cb & Hcb & H); exists cb; (split; [done|]).
  - case_bool_decide; [done|]. apply bind_Ok in H as (root & Hr%map_err_Ok & H). exists root. split; [done|].
    rewrite Hf in H. apply length_take_2. case_match eqn:E; [done|]. lia.
  - destruct H as (root & Hr & Hl). rewrite bool_decide_eq_false_2.
    2: { intros E. unfold witness_merkle_root_wtxids in Hr. by rewrite E in Hr. }
    rewrite Hr. cbn [map_err]. run_bind. rewrite Hf. apply length_take_2 in Hl. by rewrite Hl.
Qed.

(** A transaction after the coinbase. *)
Definition non_coinbase_ok (tx : Tx) : Prop := ¬ coinbase_like tx ∧ inputs tx ≠ [].

Lemma non_coinbase_Ok tx seen seen' :
  validate_non_coinbase_block_tx tx seen = Ok seen' ↔
  non_coinbase_ok tx ∧ tx_nonce tx ∉ seen ∧ seen' = {[tx_nonce tx]} ∪ seen.
Proof.
  unfold validate_non_coinbase_block_tx, validate_non_coinbase_nonce_and_input_count, non_coinbase_ok.
  rewrite <- is_coinbase_false. destruct (is_coinbase_tx tx); [naive_solver|].
  destruct (decide (inputs tx = [])) as [Hi|Hi].
  { rewrite (bool_decide_eq_true_2 _ Hi), andb_true_r. split; [intros H; by destruct (_ =? 0)|naive_solver]. }
  rewrite (bool_decide_eq_false_2 _ Hi), andb_false_r. run_bind. case_bool_decide; naive_solver.
Qed.

(** The loop over them, with the checks [f] of each. *)
Lemma nonce_loop_Ok (f : Tx → res unit) seen txs :
  (∃ seen', try_fold (λ seen tx, seen ← validate_non_coinbase_block_tx tx seen; _ ← f tx; Ok seen) seen txs = Ok seen') ↔
  Forall (λ tx, non_coinbase_ok tx ∧ f tx = Ok ()) txs ∧ NoDup (tx_nonce <$> txs)
  ∧ ∀ n, n ∈ tx_nonce <$> txs → n ∉ seen.
Proof.
  revert seen. induction txs as [|tx txs IH]; intros seen; cbn [try_fold].
  - split; [|by eexists]. intros _. split_and!; [constructor..|]. by intros n Hn%elem_of_nil.
  - rewrite list.Forall_cons, fmap_cons, list.NoDup_cons. split.
    + intros (s' & (s1 & Hs1 & H)%bind_Ok). apply bind_Ok in Hs1 as (s2 & (Hok & Hn & ->)%non_coinbase_Ok & Hs1).
      apply bind_Ok in Hs1 as ([] & Hf & [= <-]). destruct (proj1 (IH ({[tx_nonce tx]} ∪ seen))) as (HF & Hnd & Hd); [by eexists|].
      split_and!; [done|done|done| |done|].
      * intros Hin. apply (Hd _ Hin). apply elem_of_union. left. by apply elem_of_singleton.
      * intros n [->|Hin]%elem_of_cons; [done|]. specialize (Hd _ Hin). intros Hs. apply Hd, elem_of_union. by right.
    + intros (([Hok Hf] & HF) & (Hni & Hnd) & Hd).
      destruct (proj2 (IH ({[tx_nonce tx]} ∪ seen))) as [s' Hs'].
      { split_and!; [done..|]. intros n Hin [->%elem_of_singleton|Hs]%elem_of_union; [done|].
        apply (Hd n); [by right|done]. }
      exists s'. apply bind_Ok. eexists. split; [|exact Hs']. apply bind_Ok. eexists.
      rewrite non_coinbase_Ok. split; [split_and!; [done| |done]|by rewrite Hf]. apply Hd. by left.
Qed.

(** ** The rules of a block *)

Section rules.
Context `{HS : Sha3}.

(** The header pays its work, extends the expected block at the expected
    target, and commits to the transactions. *)
Definition header_ok (pb : ParsedBlock) (prev target : option bytes) : Prop :=
  be_decode (sha3_256 (pb_header_bytes pb)) < be_decode (bh_target (pb_header pb))
  ∧ (∀ t, target = Some t → bh_target (pb_header pb) = t)
  ∧ (∀ p, prev = Some p → bh_prev_block_hash (pb_header pb) = p)
  ∧ merkle_root_txids (pb_txids pb) = Ok (bh_merkle_root (pb_header pb)).

Lemma ok_if_ne (x y : bytes) (e : TxError) : (if bool_decide (x ≠ y) then Err e else Ok ()) = Ok () ↔ x = y.
Proof.
  destruct (decide (x = y)) as [E|E].
  - by rewrite bool_decide_eq_false_2 by (intros Hn; by apply Hn).
  - by rewrite bool_decide_eq_true_2.
Qed.

Lemma be_decode_nonneg (l : bytes) : 0 ≤ be_decode l.
Proof. apply be_decode_bound. Qed.

Lemma header_commitments_Ok pb prev target : block_valid pb →
  validate_header_commitments pb prev target = Ok () ↔ header_ok pb prev target.
Proof.
  intros (Hh & Hb & _). assert (len (pb_header_bytes pb) = BLOCK_HEADER_BYTES) as Hl.
  { rewrite Hb. by apply enc_header_length. }
  destruct Hh as (_ & _ & _ & _ & Ht & _).
  unfold validate_header_commitments, header_ok. rewrite bind_Ok.
  pose proof (be_decode_nonneg (sha3_256 (pb_header_bytes pb))). split.
  - intros ([] & (_ & _ & Hpow)%pow_check_Ok & H'); [|done]. split; [done|].
    apply bind_Ok in H' as ([] & Htg & H'). apply bind_Ok in H' as ([] & Hp & H').
    apply bind_Ok in H' as (root & Hr%map_err_Ok & H'). apply ok_if_ne in H' as ->.
    split_and!; [| |done].
    + intros t ->. by apply ok_if_ne in Htg.
    + intros p ->. by apply ok_if_ne in Hp.
  - intros (Hpow & Htg & Hp & Hr). exists (). rewrite pow_check_Ok by done. split; [lia|].
    apply bind_Ok. exists (). split; [destruct target; [|done]; apply ok_if_ne; by apply Htg|].
    apply bind_Ok. exists (). split; [destruct prev; [|done]; apply ok_if_ne; by apply Hp|].
    rewrite Hr. cbn [map_err]. run_bind. by apply ok_if_ne.
Qed.

(** What the block's resources may add up to. *)
Definition resources_ok (txs : list Tx) : Prop :=
  sum_of tw txs ≤ MAX_BLOCK_WEIGHT ∧ sum_of td txs ≤ MAX_DA_BYTES_PER_BLOCK
  ∧ sum_of ta txs ≤ MAX_ANCHOR_BYTES_PER_BLOCK.

(** The checks that come before the transactions are looked at. *)
Record preflight_ok (pb : ParsedBlock) (prev target : option bytes) (height : Z) (times : option (list Z)) :
    Prop := mkPreflightOk {
  pf_header : header_ok pb prev target;
  pf_witness : ∃ cb, head (pb_txs pb) = Some cb ∧ commits_witness cb (pb_wtxids pb);
  pf_time : time_ok (bh_timestamp (pb_header pb)) height times;
  pf_resources : resources_ok (pb_txs pb);
  pf_da : da_sets_complete (pb_txs pb) }.

(** The rules of the transactions: the first is the coinbase of the height, no
    other looks like one, each has inputs and a nonce of its own, and the
    outputs of all of them are allowed. *)
Definition transactions_ok (height : Z) (rotation : option RotationProvider) (txs : list Tx) : Prop :=
  ∃ cb rest, txs = cb :: rest ∧ coinbase_ok height cb
    ∧ Forall non_coinbase_ok rest ∧ NoDup (tx_nonce <$> rest)
    ∧ Forall (outputs_ok height rotation) txs.

Definition stats_of (txs : list Tx) : BlockTxStats := mkBlockTxStats (sum_of tw txs) (sum_of td txs) (sum_of ta txs).

Lemma preflight_Ok pb prev target height times s : block_valid pb → 0 ≤ height →
  validate_parsed_block_preflight pb prev target height times = Ok s ↔
  preflight_ok pb prev target height times ∧ s = stats_of (pb_txs pb).
Proof.
  intros Hv Hh. pose proof Hv as (_ & _ & _ & _ & Htxs & _).
  assert (stats_add (mkBlockTxStats 0 0 0) (pb_txs pb) = stats_of (pb_txs pb)) as Hst by done.
  unfold validate_parsed_block_preflight. split.
  - intros H. apply bind_Ok in H as ([] & Hb & H).
    apply bind_Ok in Hb as ([] & Hhd & Hb). apply bind_Ok in Hb as ([] & Hw & Ht).
    apply bind_Ok in H as (s1 & [-> _]%resource_stats_Ok & H); [|done].
    apply bind_Ok in H as ([] & Hl%resource_limits_Ok & H). apply bind_Ok in H as ([] & Hd & [= <-]).
    split; [|done]. split.
    + by apply header_commitments_Ok.
    + by apply witness_commitment_Ok.
    + by apply timestamp_rules_Ok.
    + exact Hl.
    + by apply integrity_complete.
  - intros [[H1 H2 H3 H4 H5] ->].
    rewrite (proj2 (header_commitments_Ok _ _ _ Hv) H1). run_bind.
    rewrite (proj2 (witness_commitment_Ok pb) H2). run_bind.
    rewrite (proj2 (timestamp_rules_Ok _ _ _ Hh) H3). run_bind.
    rewrite (proj2 (resource_stats_Ok pb (stats_of (pb_txs pb)) Htxs)).
    2: { split; [done|]. unfold resources_ok, stats_fit, stats_of in *. simpl.
         change MAX_BLOCK_WEIGHT with 68000000 in *. change MAX_DA_BYTES_PER_BLOCK with 32000000 in *.
         change MAX_ANCHOR_BYTES_PER_BLOCK with 131072 in *. unfold u64_max. lia. }
    run_bind. rewrite (proj2 (resource_limits_Ok (stats_of (pb_txs pb))) H4). run_bind.
    by rewrite (complete_integrity _ H5).
Qed.

Lemma tx_semantics_Ok pb height rotation : block_valid pb →
  validate_block_tx_semantics pb height rotation = Ok () ↔ transactions_ok height rotation (pb_txs pb).
Proof.
  intros (_ & _ & _ & _ & Htxs & _). unfold validate_block_tx_semantics, validate_coinbase_block_tx_semantics,
    transactions_ok. split.
  - intros H. apply bind_Ok in H as ([] & Hc & H). apply bind_Ok in Hc as ([] & Hs & Hc).
    apply coinbase_structure_Ok in Hs as (cb & Hhd & Hcb). rewrite Hhd in Hc. cbn [ok_or] in Hc.
    apply head_Some_cons in Hhd as [rest Hrest]. rewrite Hrest in *. apply list.Forall_cons in Htxs as [Hvc Htxs].
    apply outputs_ok_Ok in Hc; [|done]. apply bind_Ok in H as (seen & H & _).
    destruct (proj1 (nonce_loop_Ok (λ tx, validate_tx_covenants_genesis tx height rotation) ∅ rest)) as (HF & Hnd & _);
      [by exists seen|]. exists cb, rest. split_and!; [done|done| |done|].
    + eapply list.Forall_impl; [exact HF|]. by intros tx [? _].
    + constructor; [done|]. rewrite list.Forall_forall in HF. rewrite list.Forall_forall in Htxs.
      apply list.Forall_forall. intros tx Htx. apply outputs_ok_Ok; [by apply Htxs|]. by apply HF.
  - intros (cb & rest & Hrest & Hcb & Hnc & Hnd & Hout). rewrite Hrest in *.
    apply list.Forall_cons in Htxs as [Hvc Htxs]. apply list.Forall_cons in Hout as [Hoc Hout].
    rewrite (proj2 (coinbase_structure_Ok pb height)) by (exists cb; by rewrite Hrest). run_bind.
    cbn [head ok_or]. run_bind. rewrite (proj2 (outputs_ok_Ok _ _ _ Hvc) Hoc). run_bind.
    destruct (proj2 (nonce_loop_Ok (λ tx, validate_tx_covenants_genesis tx height rotation) ∅ rest)) as [seen Hs].
    { split_and!; [|done|intros n _; apply not_elem_of_empty]. rewrite list.Forall_forall in Hout.
      rewrite list.Forall_forall in Htxs. rewrite list.Forall_forall in Hnc. apply list.Forall_forall.
      intros tx Htx. split; [by apply Hnc|]. apply outputs_ok_Ok; [by apply Htxs|by apply Hout]. }
    cbn [drop]. rewrite drop_0. by rewrite Hs.
Qed.

Lemma block_rules_Ok pb prev target height times rotation s : block_valid pb → 0 ≤ height →
  validate_parsed_block_basic_with_context_at_height pb prev target height times rotation = Ok s ↔
  preflight_ok pb prev target height times ∧ transactions_ok height rotation (pb_txs pb)
  ∧ s = mkBlockBasicSummary (pb_tx_count pb) (sum_of tw (pb_txs pb)) (sum_of td (pb_txs pb))
          (sha3_256 (pb_header_bytes pb)).
Proof.
  intros Hv Hh. unfold validate_parsed_block_basic_with_context_at_height, validate_parsed_block_basic_checks.
  assert (block_hash (pb_header_bytes pb) = Ok (sha3_256 (pb_header_bytes pb))) as Hbh.
  { destruct Hv as (Hhv & Hb & _). unfold block_hash. rewrite Hb, enc_header_length by done. done. }
  rewrite Hbh. split.
  - intros H. apply bind_Ok in H as (st & Hst & H). apply bind_Ok in Hst as (st' & [Hp ->]%preflight_Ok & Hst); [|done..].
    apply bind_Ok in Hst as ([] & Ht%tx_semantics_Ok & [= <-]); [|done]. by injection H as <-.
  - intros (Hp & Ht & ->). rewrite (proj2 (preflight_Ok _ _ _ _ _ _ Hv Hh) (conj Hp eq_refl)). run_bind.
    by rewrite (proj2 (tx_semantics_Ok _ _ _ Hv) Ht).
Qed.

(** C27: the block check on bytes accepts exactly the encodings of the blocks
    that obey the rules, and reports their totals: the header's hash is below
    its target, the target and predecessor are the expected ones, the header
    commits to the transactions and one coinbase output to the witnesses, the
    time is after the median of the last eleven blocks and at most the allowed
    drift later, the weights, payload and anchor bytes are within the limits,
    the data-availability sets are complete, the first transaction is the
    coinbase of the height and no other looks like one, nonces are not
    repeated, and all outputs are allowed at the height. *)
Theorem block_basic_iff b prev target height times rotation s : len b ≤ isize_max → is_u 64 height →
  validate_block_basic_with_context_at_height_and_rotation b prev target height times rotation = Ok s ↔
  ∃ pb, block_valid pb ∧ len (pb_txs pb) ≤ u64_max ∧ b = enc_block pb
    ∧ preflight_ok pb prev target height times ∧ transactions_ok height rotation (pb_txs pb)
    ∧ s = mkBlockBasicSummary (pb_tx_count pb) (sum_of tw (pb_txs pb)) (sum_of td (pb_txs pb))
            (sha3_256 (pb_header_bytes pb)).
Proof.
  intros Hb [Hh _]. unfold validate_block_basic_with_context_at_height_and_rotation. rewrite bind_Ok.
  setoid_rewrite (parse_block_Ok b _ Hb). split.
  - intros (pb & (Hv & Hl & ->) & H%block_rules_Ok); [|done..]. by exists pb.
  - intros (pb & Hv & Hl & -> & H). exists pb. split; [done|]. by apply block_rules_Ok.
Qed.
End rules.

(** ** Witness: a block of one coinbase *)

Definition demo_commitment : bytes :=
  witness_commitment_hash (HS := toy_sha3) (leaf_hash (HS := toy_sha3) x02 (zeros 32)).
Definition demo_coinbase : Tx :=
  mkTx 1 0 0 [mkTxInput (zeros 32) u32_max [] u32_max]
    [mkTxOutput 90 COV_TYPE_P2PK (x01 :: replicate 32 x01); mkTxOutput 0 COV_TYPE_ANCHOR demo_commitment] 3
    None None [] [].
Definition demo_block : ParsedBlock :=
  let txid := toy_digest (enc_tx_core demo_coinbase) in
  let header := mkBlockHeader 1 (zeros 32) (leaf_hash (HS := toy_sha3) x00 txid) 1000 (replicate 32 xff) 7 in
  mkParsedBlock header (enc_header header) 1 [demo_coinbase] [txid] [toy_digest (enc_tx demo_coinbase)].
Definition demo_summary : BlockBasicSummary :=
  mkBlockBasicSummary 1 (tw demo_coinbase) 0 (toy_digest (pb_header_bytes demo_block)).

Lemma demo_block_accepted :
  validate_block_basic_with_context_at_height_and_rotation (HS := toy_sha3) (enc_block demo_block)
    (Some (zeros 32)) None 3 (Some [990; 980; 1010]) None = Ok demo_summary.
Proof. vm_compute. reflexivity. Qed.

Lemma block_basic_iff_witness :
  validate_block_basic_with_context_at_height_and_rotation (HS := toy_sha3) (enc_block demo_block)
    (Some (zeros 32)) None 3 (Some [990; 980; 1010]) None = Ok demo_summary
  ∧ ∃ pb, block_valid (HS := toy_sha3) pb ∧ len (pb_txs pb) ≤ u64_max ∧ enc_block demo_block = enc_block pb
      ∧ preflight_ok (HS := toy_sha3) pb (Some (zeros 32)) None 3 (Some [990; 980; 1010])
      ∧ transactions_ok 3 None (pb_txs pb)
      ∧ demo_summary = mkBlockBasicSummary (pb_tx_count pb) (sum_of tw (pb_txs pb)) (sum_of td (pb_txs pb))
                         (toy_digest (pb_header_bytes pb)).
Proof.
  split; [exact demo_block_accepted|].
  apply (block_basic_iff (HS := toy_sha3)); [by vm_compute|by vm_compute|exact demo_block_accepted].
Defined.
