(* ===== verification/ConnectBlock.v ===== *)
(** * Connecting a block ([connect_block_inmem.rs])

    A block extends the in-memory chain state: the checks of [BlockBasic.v],
    the coinbase's outputs, each transaction against the ledger the previous
    one left, and the bound on the coinbase's value.  The sequential mode
    checks every signature in place; the parallel mode queues them for the
    whole block and flushes the queue once.  A Rust function that takes
    [&mut InMemoryChainState] is an [ST] computation over it. *)

From S2P Require Import Prelude Bytes BTree Errors Constants Crypto WireRead CompactSize TxWire TxCodec Block Merkle Pow Subsidy.
From S2P Require Import Vault Suites Verify SigCache WorkerPool SigQueue Sighash Spend Htlc Stealth CovenantGenesis.
From S2P Require Import UtxoApply UtxoRules UtxoDeferred UtxoLedger BlockParse BlockWeight BlockDa BlockBasic.

(* rust: connect_block_inmem.rs 21-26 InMemoryChainState *)
Record InMemoryChainState : Type := mkInMemoryChainState {
  cs_utxos : UtxoMap; cs_already_generated : Z }.

(* rust: connect_block_inmem.rs 29-40 ConnectBlockBasicSummary *)
Record ConnectBlockBasicSummary : Type := mkConnectBlockBasicSummary {
  cb_sum_fees : Z; cb_already_generated : Z; cb_already_generated_n1 : Z; cb_utxo_count : Z;
  cb_post_state_digest : bytes; cb_sig_task_count : Z; cb_worker_panics : Z }.

(* rust: connect_block_inmem.rs 42-50 ConnectBlockContext *)
Record ConnectBlockContext : Type := mkConnectBlockContext {
  cc_expected_prev_hash : option bytes; cc_expected_target : option bytes; cc_block_height : Z;
  cc_prev_timestamps : option (list Z); cc_chain_id : bytes;
  cc_rotation : option RotationProvider; cc_registry : option SuiteRegistry }.

(* rust: connect_block_inmem.rs 52-57 PreparedConnectBlock *)
Record PreparedConnectBlock : Type := mkPreparedConnectBlock {
  pr_pb : ParsedBlock; pr_block_height : Z; pr_already_generated : Z; pr_block_mtp : Z }.

(** ** The digest of a ledger *)

(* rust: connect_block_inmem.rs 19-19 UTXO_SET_HASH_DST *)
Definition UTXO_SET_HASH_DST : bytes := ascii_bytes "RUBINv1-utxo-set-hash/".

(** The key an output is sorted by. *)
Definition utxo_key (op : Outpoint) : bytes := op_txid op ++ u32_le (op_vout op).

(** The loop body over the sorted items. *)
(* rust: connect_block_inmem.rs 420-428 utxo_set_hash *)
Definition push_utxo_item (buf : bytes) (item : bytes * UtxoEntry) : bytes :=
  let '(key, entry) := item in
  let buf := buf ++ key ++ u64_le (ue_value entry) ++ u16_le (ue_covenant_type entry) in
  let buf := encode_compact_size (len (ue_covenant_data entry)) buf in
  let buf := buf ++ ue_covenant_data entry ++ u64_le (ue_creation_height entry) in
  buf ++ [if ue_created_by_coinbase entry then x01 else x00].

Section connect.
  Context `{HS : Sha3} `{HO : OpenSsl}.

(* rust: connect_block_inmem.rs 402-431 utxo_set_hash *)
Definition utxo_set_hash (utxos : UtxoMap) : bytes :=
  let items := merge_sort key_le ((λ p : Outpoint * UtxoEntry, (utxo_key p.1, p.2)) <$> map_to_list utxos) in
  let buf := UTXO_SET_HASH_DST ++ u64_le (len items) in
  sha3_256 (foldl push_utxo_item buf items).

(* rust: connect_block_inmem.rs 387-398 already_generated_after_block *)
Definition already_generated_after_block (block_height already_generated : Z) : res Z :=
  if negb (block_height =? 0) then
    let subsidy := block_subsidy block_height already_generated in
    ok_or (checked_add u128_max already_generated subsidy)
      (mkTxError BlockErrParse "already_generated overflow")
  else Ok already_generated.

(* rust: connect_block_inmem.rs 347-351 add_block_fee *)
Definition add_block_fee (sum_fees fee : Z) : res Z :=
  ok_or (checked_add u128_max sum_fees fee) (mkTxError BlockErrParse "sum_fees overflow").

(* rust: connect_block_inmem.rs 353-385 finalize_connected_block *)
Definition finalize_connected_block (prepared : PreparedConnectBlock) (work_utxos : UtxoMap)
    (sum_fees sig_task_count : Z) : ST InMemoryChainState TxError ConnectBlockBasicSummary := λ state,
  match (_ ← validate_coinbase_value_bound (pr_pb prepared) (pr_block_height prepared)
               (pr_already_generated prepared) sum_fees;
         already_generated_after_block (pr_block_height prepared) (pr_already_generated prepared)) with
  | Err e => (Err e, state)
  | Ok already_generated_n1 =>
      let state := mkInMemoryChainState work_utxos
        (if negb (pr_block_height prepared =? 0) then already_generated_n1 else cs_already_generated state) in
      let post_state_digest := utxo_set_hash (cs_utxos state) in
      (Ok (mkConnectBlockBasicSummary sum_fees (pr_already_generated prepared) already_generated_n1
             (Z.of_nat (size (cs_utxos state))) post_state_digest sig_task_count 0), state)
  end.

(* rust: connect_block_inmem.rs 162-195 prepare_connect_block *)
Definition prepare_connect_block (block_bytes : bytes) (already_generated : Z) (ctx : ConnectBlockContext) :
    res PreparedConnectBlock :=
  pb ← parse_block_bytes block_bytes;
  _ ← validate_connect_preflight pb (cc_expected_prev_hash ctx) (cc_expected_target ctx)
        (cc_block_height ctx) (cc_prev_timestamps ctx) (cc_rotation ctx);
  if bool_decide (pb_txs pb = []) || negb (len (pb_txids pb) =? len (pb_txs pb))
  then tx_err BlockErrParse "invalid parsed block" else
  block_mtp ← median_time_past (cc_block_height ctx) (cc_prev_timestamps ctx);
  Ok (mkPreparedConnectBlock pb (cc_block_height ctx) already_generated
        (default (bh_timestamp (pb_header pb)) block_mtp)).

(** The transactions after the coinbase, with their ids. *)
Definition non_coinbase (pb : ParsedBlock) : list (Tx * bytes) := drop 1 (zip (pb_txs pb) (pb_txids pb)).

(* rust: connect_block_inmem.rs 239-270 apply_non_coinbase_txs_sequential *)
Definition apply_non_coinbase_txs_sequential (pb : ParsedBlock) (state_utxos : UtxoMap)
    (block_height block_mtp : Z) (chain_id : bytes) (rotation : option RotationProvider)
    (registry : option SuiteRegistry) : res (UtxoMap * Z) :=
  '(work_utxos, sum_fees, _) ← try_fold (λ s x,
      let '(work_utxos, sum_fees, seen_nonces) := s in
      let '(tx, txid) := x in
      seen_nonces ← validate_non_coinbase_block_tx tx seen_nonces;
      let base_utxos := default state_utxos work_utxos in
      '(next_utxos, summary) ← apply_update tx txid base_utxos block_height (bh_timestamp (pb_header pb))
        block_mtp chain_id rotation registry;
      sum_fees ← add_block_fee sum_fees (us_fee summary);
      Ok (Some next_utxos, sum_fees, seen_nonces)) (None, 0, ∅) (non_coinbase pb);
  Ok (default state_utxos work_utxos, sum_fees).

(* rust: connect_block_inmem.rs 217-237 apply_coinbase_then_non_coinbase_txs_sequential *)
Definition apply_coinbase_then_non_coinbase_txs_sequential (pb : ParsedBlock) (state_utxos : UtxoMap)
    (block_height block_mtp : Z) (chain_id : bytes) (rotation : option RotationProvider)
    (registry : option SuiteRegistry) : res (UtxoMap * Z) :=
  work_utxos ← apply_coinbase_outputs pb state_utxos block_height rotation;
  apply_non_coinbase_txs_sequential pb work_utxos block_height block_mtp chain_id rotation registry.

(* rust: connect_block_inmem.rs 197-213 connect_block_basic_in_memory_with_context *)
Definition connect_block_basic_in_memory_with_context (block_bytes : bytes) (ctx : ConnectBlockContext) :
    ST InMemoryChainState TxError ConnectBlockBasicSummary :=
  utxos ← gets cs_utxos;
  already_generated ← gets cs_already_generated;
  prepared ← lift (prepare_connect_block block_bytes already_generated ctx);
  '(work_utxos, sum_fees) ← lift (apply_coinbase_then_non_coinbase_txs_sequential (pr_pb prepared) utxos
    (pr_block_height prepared) (pr_block_mtp prepared) (cc_chain_id ctx) (cc_rotation ctx) (cc_registry ctx));
  finalize_connected_block prepared work_utxos sum_fees 0.

(* rust: connect_block_inmem.rs 86-107 connect_block_basic_in_memory_at_height_with_suite_context *)
Definition connect_block_basic_in_memory_at_height_with_suite_context (block_bytes : bytes)
    (expected_prev_hash expected_target : option bytes) (block_height : Z)
    (prev_timestamps : option (list Z)) (chain_id : bytes) (rotation : option RotationProvider)
    (registry : option SuiteRegistry) : ST InMemoryChainState TxError ConnectBlockBasicSummary :=
  let ctx := mkConnectBlockContext expected_prev_hash expected_target block_height prev_timestamps
               chain_id rotation registry in
  connect_block_basic_in_memory_with_context block_bytes ctx.

(* rust: connect_block_inmem.rs 63-83 connect_block_basic_in_memory_at_height *)
Definition connect_block_basic_in_memory_at_height (block_bytes : bytes)
    (expected_prev_hash expected_target : option bytes) (block_height : Z)
    (prev_timestamps : option (list Z)) (chain_id : bytes) :
    ST InMemoryChainState TxError ConnectBlockBasicSummary :=
  connect_block_basic_in_memory_at_height_with_suite_context block_bytes expected_prev_hash expected_target
    block_height prev_timestamps chain_id None None.

(** ** The parallel mode *)

(* rust: connect_block_inmem.rs 315-343 collect_queued_non_coinbase_txs *)
Definition collect_queued_non_coinbase_txs (prepared : PreparedConnectBlock) (state_utxos : UtxoMap)
    (ctx : ConnectBlockContext) : ST SigCheckQueue TxError (UtxoMap * Z) :=
  s ← st_fold (λ s x,
      let '(work_utxos, sum_fees, seen_nonces) := s in
      let '(tx, txid) := x in
      seen_nonces ← lift (validate_non_coinbase_block_tx tx seen_nonces);
      r ← apply_queued_sigchecks (mkUtxoApplyImplContext tx txid work_utxos (pr_block_height prepared)
        (bh_timestamp (pb_header (pr_pb prepared))) (pr_block_mtp prepared) (cc_chain_id ctx)
        (cc_rotation ctx) (cc_registry ctx));
      sum_fees ← lift (add_block_fee sum_fees (us_fee r.2));
      mret (r.1, sum_fees, seen_nonces)) (state_utxos, 0, ∅) (non_coinbase (pr_pb prepared));
  mret s.1.

(** [None]: the events are not a complete execution of the flush. *)
(* rust: connect_block_inmem.rs 288-313 apply_non_coinbase_txs_parallel *)
Definition apply_non_coinbase_txs_parallel (parallelism : Z) (es : list (event (option SigCache)))
    (prepared : PreparedConnectBlock) (state_utxos : UtxoMap) (ctx : ConnectBlockContext) (workers : Z) :
    option (res (UtxoMap * Z * Z)) :=
  let sig_queue := match cc_registry ctx with
                   | Some registry => with_registry (queue_new parallelism workers) registry
                   | None => queue_new parallelism workers
                   end in
  match collect_queued_non_coinbase_txs prepared state_utxos ctx sig_queue with
  | (Err err, _) => Some (Err err)
  | (Ok (work_utxos, sum_fees), sig_queue) =>
      let sig_task_count := queue_len sig_queue in
      '(r, _) ← flush parallelism es sig_queue;
      Some (_ ← r; Ok (work_utxos, sum_fees, sig_task_count))
  end.

(* rust: connect_block_inmem.rs 272-286 connect_block_parallel_sig_verify_with_context *)
Definition connect_block_parallel_sig_verify_with_context (parallelism : Z) (es : list (event (option SigCache)))
    (block_bytes : bytes) (ctx : ConnectBlockContext) (workers : Z) (state : InMemoryChainState) :
    option (res ConnectBlockBasicSummary * InMemoryChainState) :=
  match (prepared ← prepare_connect_block block_bytes (cs_already_generated state) ctx;
         work_utxos ← apply_coinbase_outputs (pr_pb prepared) (cs_utxos state) (pr_block_height prepared)
           (cc_rotation ctx);
         Ok (prepared, work_utxos)) with
  | Err e => Some (Err e, state)
  | Ok (prepared, work_utxos) =>
      r ← apply_non_coinbase_txs_parallel parallelism es prepared work_utxos ctx workers;
      Some match r with
           | Err e => (Err e, state)
           | Ok (work_utxos, sum_fees, sig_task_count) =>
               finalize_connected_block prepared work_utxos sum_fees sig_task_count state
           end
  end.

(* rust: connect_block_inmem.rs 138-160 connect_block_parallel_sig_verify_with_suite_context *)
Definition connect_block_parallel_sig_verify_with_suite_context (parallelism : Z)
    (es : list (event (option SigCache))) (block_bytes : bytes)
    (expected_prev_hash expected_target : option bytes) (block_height : Z)
    (prev_timestamps : option (list Z)) (chain_id : bytes) (rotation : option RotationProvider)
    (registry : option SuiteRegistry) (workers : Z) :
    InMemoryChainState → option (res ConnectBlockBasicSummary * InMemoryChainState) :=
  let ctx := mkConnectBlockContext expected_prev_hash expected_target block_height prev_timestamps
               chain_id rotation registry in
  connect_block_parallel_sig_verify_with_context parallelism es block_bytes ctx workers.

(* rust: connect_block_inmem.rs 113-135 connect_block_parallel_sig_verify *)
Definition connect_block_parallel_sig_verify (parallelism : Z) (es : list (event (option SigCache)))
    (block_bytes : bytes) (expected_prev_hash expected_target : option bytes) (block_height : Z)
    (prev_timestamps : option (list Z)) (chain_id : bytes) (workers : Z) :
    InMemoryChainState → option (res ConnectBlockBasicSummary * InMemoryChainState) :=
  connect_block_parallel_sig_verify_with_suite_context parallelism es block_bytes expected_prev_hash
    expected_target block_height prev_timestamps chain_id None None workers.
End connect.

(** ** The coinbase's outputs *)

Definition mark_coinbase (e : UtxoEntry) : UtxoEntry :=
  mkUtxoEntry (ue_value e) (ue_covenant_type e) (ue_covenant_data e) (ue_creation_height e) true.

Definition coinbase_ctx (txid : bytes) (height : Z) : UtxoApplyImplContext :=
  mkUtxoApplyImplContext (mkTx 1 0 0 [] [] 0 None None [] []) txid ∅ height 0 0 [] None None.

(** The entries the coinbase creates. *)
Definition coinbase_created (txid : bytes) (height : Z) (outs : list TxOutput) : UtxoMap :=
  mark_coinbase <$> created_from (coinbase_ctx txid height) 0 outs.

(** The outputs a coinbase may have: those of any transaction, but no vault. *)
Definition coinbase_outputs_ok (height : Z) (rotation : option RotationProvider) (cb : Tx) : Prop :=
  outputs_ok height rotation cb ∧ Forall (λ o, covenant_type o ≠ COV_TYPE_VAULT) (outputs cb).

Lemma coinbase_output_Ok kind txid height rp m cmrs k o s : len (covenant_data o) ≤ isize_max → k ≤ u32_max →
  apply_coinbase_output kind txid height rp (m, cmrs) (k, o) = Ok s ↔
  output_allowed kind height rp o ∧ covenant_type o ≠ COV_TYPE_VAULT
  ∧ s = (if unspendable_type (covenant_type o) then m
         else <[mkOutpoint txid k := mark_coinbase (entry_of (coinbase_ctx txid height) o)]> m,
         cmrs ++ option_list (output_program o)).
Proof.
  intros Hl Hk. unfold apply_coinbase_output, validate_coinbase_apply_outputs. cbn [try_for_each].
  replace (u32_max <? k) with false by lia.
  destruct (covenant_type o =? COV_TYPE_VAULT) eqn:Hv; cbn [mbind result_bind];
    [split; [done|]; intros (_ & ? & _); lia|].
  change ((covenant_type o =? COV_TYPE_ANCHOR) || (covenant_type o =? COV_TYPE_DA_COMMIT))
    with (unspendable_type (covenant_type o)).
  destruct (validate_tx_output_covenant_genesis kind o height rp) as [c|e] eqn:Hc.
  - apply single_output_genesis_Ok in Hc as [Ha ->]; [|done]. run_bind.
    assert (match output_program o with Some c => cmrs ++ [c] | None => cmrs end
            = cmrs ++ option_list (output_program o)) as ->
      by (destruct (output_program o); [done|by rewrite app_nil_r]).
    split.
    + intros H. split; [done|]. split; [lia|]. destruct (unspendable_type _); by injection H as <-.
    + intros (_ & _ & ->). by destruct (unspendable_type _).
  - split; [done|]. intros (Ha & _). exfalso.
    assert (validate_tx_output_covenant_genesis kind o height rp = Ok (output_program o)) as E
      by by apply single_output_genesis_Ok. congruence.
Qed.

Lemma coinbase_loop_Ok kind txid height rp outs m cmrs k s : Forall (λ o, len (covenant_data o) ≤ isize_max) outs →
  0 ≤ k → k + len outs ≤ u32_max →
  try_fold (apply_coinbase_output kind txid height rp) (m, cmrs) (enum_from k outs) = Ok s ↔
  Forall (λ o, output_allowed kind height rp o ∧ covenant_type o ≠ COV_TYPE_VAULT) outs
  ∧ s = ((mark_coinbase <$> created_from (coinbase_ctx txid height) k outs) ∪ m,
         cmrs ++ omap output_program outs).
Proof.
  intros Hl. revert m cmrs k s.
  induction Hl as [|o outs Ho _ IH]; intros m cmrs k s Hk Hn; cbn [enum_from try_fold created_from].
  - rewrite fmap_empty, (left_id_L ∅ (∪)). simpl. rewrite app_nil_r.
    split; [intros [= <-]; by split; [constructor|]|by intros [_ ->]].
  - rewrite length_cons in Hn. rewrite list.Forall_cons.
    assert (∀ m0, (mark_coinbase <$> (if unspendable_type (covenant_type o)
        then created_from (coinbase_ctx txid height) (k + 1) outs
        else <[mkOutpoint txid k := entry_of (coinbase_ctx txid height) o]>
               (created_from (coinbase_ctx txid height) (k + 1) outs))) ∪ m0
      = (mark_coinbase <$> created_from (coinbase_ctx txid height) (k + 1) outs)
        ∪ (if unspendable_type (covenant_type o) then m0
           else <[mkOutpoint txid k := mark_coinbase (entry_of (coinbase_ctx txid height) o)]> m0)) as Hmap.
    { intros m0. destruct (unspendable_type _); [done|]. rewrite fmap_insert, <- insert_union_l.
      apply insert_union_r. rewrite lookup_fmap.
      pose proof (created_from_None (coinbase_ctx txid height) (k + 1) k outs) as Hnone. cbn [cx_txid coinbase_ctx] in Hnone.
      by rewrite Hnone by lia. }
    rewrite bind_Ok. setoid_rewrite coinbase_output_Ok; [|done|lia]. split.
    + intros (s1 & (Ha & Hv & ->) & H). apply IH in H as [HF ->]; [|lia..].
      split; [done|]. cbn [cx_txid coinbase_ctx]. rewrite Hmap, <- app_assoc. simpl. by destruct (output_program o).
    + intros ([[Ha Hv] HF] & ->). eexists. split; [by split_and!|]. apply IH; [lia..|]. split; [done|].
      cbn [cx_txid coinbase_ctx]. rewrite Hmap, <- app_assoc. simpl. by destruct (output_program o).
Qed.

Lemma coinbase_outputs_Ok pb m height rotation m' cb rest txid ids :
  pb_txs pb = cb :: rest → pb_txids pb = txid :: ids → tx_valid cb →
  apply_coinbase_outputs pb m height rotation = Ok m' ↔
  coinbase_outputs_ok height rotation cb ∧ m' = coinbase_created txid height (outputs cb) ∪ m.
Proof.
  intros Hpb Hids Hv. unfold apply_coinbase_outputs, coinbase_and_txid, coinbase_outputs_ok, outputs_ok.
  rewrite Hpb, Hids. cbn [head ok_or]. run_bind. rewrite enumerate_enum.
  pose proof (wire_outputs_len cb Hv) as Hl. destruct Hv as (_ & _ & (Hn & _) & _).
  unfold MAX_TX_OUTPUTS in Hn. rewrite bind_Ok. split.
  - intros ([w cmrs] & H & H'). apply coinbase_loop_Ok in H as [HF [= -> ->]]; [|done|lia|unfold u32_max; lia].
    apply bind_Ok in H' as ([] & Hc & [= <-]). rewrite group_cap_Ok in Hc. simpl in Hc. rewrite list.Forall_and in HF.
    by destruct HF.
  - intros [[[HF Hc] Hnv] ->]. eexists (_, _). rewrite coinbase_loop_Ok; [|done|lia|unfold u32_max; lia].
    split; [split; [by rewrite list.Forall_and|done]|]. simpl. by rewrite (proj2 (group_cap_Ok _) Hc).
Qed.

(** ** The ledger along a block *)

Definition utxo_values (m : UtxoMap) : Prop := map_Forall (λ _ e, is_u 64 (ue_value e)) m.

Lemma created_values ctx k outs : Forall output_valid outs → utxo_values (created_from ctx k outs).
Proof.
  intros HF. revert k. induction HF as [|o outs [Hv _] _ IH]; intros k; cbn [created_from]; [apply map_Forall_empty|].
  destruct (unspendable_type _); [apply IH|]. apply map_Forall_insert_2; [done|apply IH].
Qed.

Lemma union_values m1 m2 : utxo_values m1 → utxo_values m2 → utxo_values (m1 ∪ m2).
Proof. intros H1 H2 op e [H|[_ H]]%lookup_union_Some_raw; [by eapply H1|by eapply H2]. Qed.

Lemma ledger_after_values ctx : tx_valid (cx_tx ctx) → utxo_values (cx_utxo_set ctx) → utxo_values (ledger_after ctx).
Proof.
  intros (_ & _ & (_ & HF) & _) Hm. apply union_values; [by apply created_values|].
  intros op e [H _]%map_lookup_filter_Some. by eapply Hm.
Qed.

Lemma mark_values m : utxo_values m → utxo_values (mark_coinbase <$> m).
Proof. intros Hm op e (e' & <- & He)%lookup_fmap_Some. by apply (Hm _ _ He). Qed.

Section loop.
Context `{HS : Sha3} `{HO : OpenSsl}.
Context (height timestamp mtp : Z) (chain_id : bytes) (rotation : option RotationProvider)
  (registry : option SuiteRegistry).

(** The context in which the block's transaction is applied to a ledger. *)
Definition cx_at (m : UtxoMap) (x : Tx * bytes) : UtxoApplyImplContext :=
  mkUtxoApplyImplContext x.1 x.2 m height timestamp mtp chain_id rotation registry.

(** The transactions are accepted one after the other, each by the ledger the
    one before it leaves; the number is the fees they pay. *)
Inductive ledger_steps : UtxoMap → list (Tx * bytes) → UtxoMap → Z → Prop :=
  | steps_nil m : ledger_steps m [] m 0
  | steps_cons m x l m' es wss fees :
      accepted (cx_at m x) es wss →
      ledger_steps (ledger_after (cx_at m x)) l m' fees →
      ledger_steps m (x :: l) m' (us_fee (result_after (cx_at m x) es).2 + fees).

Lemma ledger_steps_fees m l m' fees : ledger_steps m l m' fees → 0 ≤ fees.
Proof.
  induction 1 as [|m x l m' es wss fees [_ _ _ _ _ _ _ _ Hle _] _ IH]; [done|].
  simpl. simpl in Hle. lia.
Qed.

Lemma ledger_steps_values m l m' fees : Forall tx_valid (fst <$> l) → utxo_values m →
  ledger_steps m l m' fees → utxo_values m'.
Proof.
  intros Hl Hm H. revert Hl Hm. induction H as [|m x l m' es wss fees Ha _ IH]; intros Hl Hm; [done|].
  rewrite fmap_cons in Hl. apply Forall_cons_1 in Hl as [Hx Hl]. apply IH; [done|].
  by apply ledger_after_values.
Qed.

(** The conditions on the shape of the transactions after the coinbase. *)
Definition rest_ok (l : list (Tx * bytes)) : Prop :=
  Forall (λ x, non_coinbase_ok x.1) l ∧ NoDup ((λ x, tx_nonce x.1) <$> l).

Definition seq_step (st : UtxoMap) (s : option UtxoMap * Z * gset Z) (x : Tx * bytes) :
    res (option UtxoMap * Z * gset Z) :=
  let '(work_utxos, sum_fees, seen_nonces) := s in
  let '(tx, txid) := x in
  seen_nonces ← validate_non_coinbase_block_tx tx seen_nonces;
  let base_utxos := default st work_utxos in
  '(next_utxos, summary) ← apply_update tx txid base_utxos height timestamp mtp chain_id rotation registry;
  sum_fees ← add_block_fee sum_fees (us_fee summary);
  Ok (Some next_utxos, sum_fees, seen_nonces).

Lemma seq_step_Ok st w f seen x s' : tx_valid x.1 → utxo_values (default st w) →
  seq_step st (w, f, seen) x = Ok s' ↔
  non_coinbase_ok x.1 ∧ tx_nonce x.1 ∉ seen
  ∧ ∃ es wss, accepted (cx_at (default st w) x) es wss
     ∧ f + us_fee (result_after (cx_at (default st w) x) es).2 ≤ u128_max
     ∧ s' = (Some (ledger_after (cx_at (default st w) x)),
             f + us_fee (result_after (cx_at (default st w) x) es).2, {[tx_nonce x.1]} ∪ seen).
Proof.
  destruct x as [tx txid]. cbn [fst]. intros Hv Hm. unfold seq_step, add_block_fee.
  change (apply_update tx txid (default st w) height timestamp mtp chain_id rotation registry)
    with (inline_apply (cx_at (default st w) (tx, txid))).
  pose proof (λ r, apply_Ok (cx_at (default st w) (tx, txid)) r Hv Hm) as Hap. split.
  - intros H. apply bind_Ok in H as (s1 & (Hok & Hn & ->)%non_coinbase_Ok & H).
    apply bind_Ok in H as ([m1 sm] & (es & wss & Ha & Hr)%Hap & H). injection Hr as -> ->.
    apply bind_Ok in H as (f1 & Hf%ok_or_Ok & [= <-]). apply checked_add_Some in Hf as [-> ?].
    split; [done|]. split; [done|]. by exists es, wss.
  - intros (Hok & Hn & es & wss & Ha & Hf & ->).
    rewrite (proj2 (non_coinbase_Ok tx seen _) (conj Hok (conj Hn eq_refl))). run_bind.
    rewrite (proj2 (Hap (result_after (cx_at (default st w) (tx, txid)) es)) (ex_intro _ es (ex_intro _ wss (conj Ha eq_refl)))).
    unfold result_after in *. run_bind. cbn [fst snd us_fee] in *.
    by rewrite (proj2 (checked_add_Some _ _ _ _) (conj eq_refl Hf)).
Qed.

Lemma seq_loop_Ok st w f seen l m' f' :
  Forall tx_valid (fst <$> l) → utxo_values (default st w) → f ≤ u128_max →
  (∃ w' seen', try_fold (seq_step st) (w, f, seen) l = Ok (w', f', seen') ∧ default st w' = m') ↔
  rest_ok l ∧ (∀ n, n ∈ (λ x, tx_nonce x.1) <$> l → n ∉ seen)
  ∧ ∃ fees, ledger_steps (default st w) l m' fees ∧ f' = f + fees ∧ f' ≤ u128_max.
Proof.
  unfold rest_ok. revert w f seen. induction l as [|x l IH]; intros w f seen Hl Hm Hf; cbn [try_fold].
  - split.
    + intros (w' & seen' & [= -> <- <-] & <-). split; [by repeat constructor|].
      split; [by intros n Hn%elem_of_nil|]. exists 0. rewrite Z.add_0_r. split; [constructor|done].
    + intros (_ & _ & fees & Hs & -> & _). inversion Hs; subst. exists w, seen. by rewrite Z.add_0_r.
  - rewrite fmap_cons in Hl. apply list.Forall_cons in Hl as [Hx Hl].
    pose proof (ledger_after_values (cx_at (default st w) x) Hx Hm) as Hm1.
    rewrite fmap_cons, list.Forall_cons, list.NoDup_cons. split.
    + intros (w' & seen' & H & Hw). apply bind_Ok in H as (s1 & Hs1 & H).
      apply seq_step_Ok in Hs1; [|done..]. destruct Hs1 as (Hok & Hn & es & wss & Ha & Hfe & ->).
      destruct (proj1 (IH (Some (ledger_after (cx_at (default st w) x))) _ ({[tx_nonce x.1]} ∪ seen) Hl Hm1 Hfe))
        as ([HF Hnd] & Hd & fees & Hs & -> & ?); [by eexists _, _|].
      split; [split; [done|]|split].
      * split; [|done]. intros Hin. apply (Hd _ Hin), elem_of_union. left. by apply elem_of_singleton.
      * intros n [->|Hin]%elem_of_cons; [done|]. intros Hs'. apply (Hd _ Hin), elem_of_union. by right.
      * eexists. split; [by econstructor|]. lia.
    + intros ([[Hok HF] [Hni Hnd]] & Hd & fees & Hs & -> & Hmax).
      inversion Hs as [|? ? ? ? es wss fees' Ha Hs']; subst. pose proof (ledger_steps_fees _ _ _ _ Hs').
      destruct (proj2 (IH (Some (ledger_after (cx_at (default st w) x)))
        (f + us_fee (result_after (cx_at (default st w) x) es).2) ({[tx_nonce x.1]} ∪ seen) Hl Hm1 ltac:(lia)))
        as (w' & seen' & Hr & Hw).
      { split; [done|]. split; [|exists fees'; split; [done|lia]].
        intros n Hin [->%elem_of_singleton|Hsn]%elem_of_union; [done|]. apply (Hd n); [by right|done]. }
      exists w', seen'. split; [|done]. apply bind_Ok. eexists. split; [|exact Hr].
      apply seq_step_Ok; [done..|]. split; [done|]. split; [apply Hd; by left|].
      exists es, wss. split_and!; [done|lia|done].
Qed.
End loop.

(** ** The coinbase's value *)

Lemma sum_outputs_nonneg outs : Forall output_valid outs → 0 ≤ sum_outputs outs ≤ 2 ^ 64 * len outs.
Proof.
  induction 1 as [|o outs [[? ?] _] _ IH]; [done|]. cbn [sum_outputs foldr]. rewrite length_cons.
  unfold sum_outputs in IH. lia.
Qed.

Lemma sum_coinbase_run cb : tx_valid cb → sum_coinbase_outputs cb = Ok (sum_outputs (outputs cb)).
Proof.
  intros (_ & _ & (Hn & HF) & _). unfold sum_coinbase_outputs. unfold MAX_TX_OUTPUTS in Hn.
  enough (∀ outs acc, Forall output_valid outs → 0 ≤ acc → acc + 2 ^ 64 * len outs ≤ u128_max →
    try_fold (λ sum out, ok_or (checked_add u128_max sum (value out)) (mkTxError BlockErrParse "u128 overflow"))
      acc outs = Ok (acc + sum_outputs outs)) as Hgen.
  { apply Hgen; [done|done|]. unfold u128_max. lia. }
  intros outs acc Ho. revert acc. induction Ho as [|o outs [[? ?] _] Ho IH]; intros acc Hacc Hmax; cbn [try_fold].
  { simpl. by rewrite Z.add_0_r. }
  rewrite length_cons in Hmax. pose proof (sum_outputs_nonneg _ Ho).
  assert (checked_add u128_max acc (value o) = Some (acc + value o)) as -> by (apply checked_add_Some; lia).
  cbn [ok_or]. run_bind. rewrite IH by lia. f_equal. unfold sum_outputs. cbn [foldr]. lia.
Qed.

(** What the coinbase may claim, in numbers that fit. *)
Definition reward_ok (height already_generated fees : Z) (cb : Tx) : Prop :=
  height ≠ 0 →
  sum_outputs (outputs cb) ≤ block_subsidy height already_generated + fees
  ∧ block_subsidy height already_generated + fees ≤ u128_max.

Lemma value_bound_Ok pb cb rest height g fees : pb_txs pb = cb :: rest → tx_valid cb →
  validate_coinbase_value_bound pb height g fees = Ok () ↔ reward_ok height g fees cb.
Proof.
  intros Hpb Hv. unfold validate_coinbase_value_bound, coinbase_value_limit, reward_ok.
  destruct (height =? 0) eqn:H0; [split; [intros _ ?; lia|done]|]. rewrite Hpb, sum_coinbase_run by done. run_bind.
  rewrite bind_Ok. setoid_rewrite ok_or_Ok. setoid_rewrite checked_add_Some. split.
  - intros (limit & (-> & Hm) & Hl) _. destruct (_ <? _) eqn:E in Hl; [done|]. lia.
  - intros H. destruct H as [? ?]; [lia|]. eexists. split; [by split|]. by decide_if.
Qed.

Lemma generated_after_Ok height g n :
  already_generated_after_block height g = Ok n ↔
  n = g + (if height =? 0 then 0 else block_subsidy height g)
  ∧ (height ≠ 0 → g + block_subsidy height g ≤ u128_max).
Proof.
  unfold already_generated_after_block. destruct (height =? 0) eqn:H0; cbn [negb].
  - rewrite Z.add_0_r. split; [intros [= <-]; split; [done|lia]|by intros [-> _]].
  - rewrite ok_or_Ok, checked_add_Some. split; intros [-> H]; (split; [done|]); [done|]. apply H. lia.
Qed.

(** ** What connecting a block means *)

Section connects.
Context `{HS : Sha3} `{HO : OpenSsl} (ctx : ConnectBlockContext).
Abbreviation height := (cc_block_height ctx).

(** The time that locks are judged by. *)
Definition block_mtp (pb : ParsedBlock) : Z :=
  default (bh_timestamp (pb_header pb))
    (match median_time_past height (cc_prev_timestamps ctx) with Ok m => m | Err _ => None end).

Abbreviation steps pb :=
  (ledger_steps height (bh_timestamp (pb_header pb)) (block_mtp pb) (cc_chain_id ctx) (cc_rotation ctx)
     (cc_registry ctx)).

(** The block extends the state: it passes the checks that need no ledger, its
    coinbase's outputs are created, its transactions are accepted one after
    the other with distinct nonces, and the coinbase claims at most the
    subsidy and their fees. *)
Record connects (st : InMemoryChainState) (pb : ParsedBlock) (m' : UtxoMap) (fees : Z) : Prop := mkConnects {
  cn_preflight : preflight_ok pb (cc_expected_prev_hash ctx) (cc_expected_target ctx) height
                   (cc_prev_timestamps ctx);
  cn_rest : rest_ok (non_coinbase pb);
  cn_fees : fees ≤ u128_max;
  cn_generated : height ≠ 0 →
    cs_already_generated st + block_subsidy height (cs_already_generated st) ≤ u128_max;
  cn_steps : ∃ cb txid, head (pb_txs pb) = Some cb ∧ head (pb_txids pb) = Some txid
    ∧ coinbase_ok height cb ∧ coinbase_outputs_ok height (cc_rotation ctx) cb
    ∧ reward_ok height (cs_already_generated st) fees cb
    ∧ steps pb (coinbase_created txid height (outputs cb) ∪ cs_utxos st) (non_coinbase pb) m' fees }.

Definition subsidy_at (st : InMemoryChainState) : Z :=
  if height =? 0 then 0 else block_subsidy height (cs_already_generated st).
Definition state_after (st : InMemoryChainState) (m' : UtxoMap) : InMemoryChainState :=
  mkInMemoryChainState m' (cs_already_generated st + subsidy_at st).
Definition summary_after (st : InMemoryChainState) (m' : UtxoMap) (fees tasks : Z) : ConnectBlockBasicSummary :=
  mkConnectBlockBasicSummary fees (cs_already_generated st) (cs_already_generated st + subsidy_at st)
    (Z.of_nat (size m')) (utxo_set_hash m') tasks 0.

Definition prepared_of (st : InMemoryChainState) (pb : ParsedBlock) : PreparedConnectBlock :=
  mkPreparedConnectBlock pb height (cs_already_generated st) (block_mtp pb).

Lemma prepare_Ok b st p : len b ≤ isize_max → is_u 64 height →
  prepare_connect_block b (cs_already_generated st) ctx = Ok p ↔
  ∃ pb, block_valid pb ∧ len (pb_txs pb) ≤ u64_max ∧ b = enc_block pb
    ∧ preflight_ok pb (cc_expected_prev_hash ctx) (cc_expected_target ctx) height (cc_prev_timestamps ctx)
    ∧ (∃ cb, head (pb_txs pb) = Some cb ∧ coinbase_ok height cb)
    ∧ p = prepared_of st pb.
Proof.
  intros Hb [Hh _]. unfold prepare_connect_block, validate_connect_preflight. rewrite bind_Ok.
  setoid_rewrite (parse_block_Ok b _ Hb).
  assert (∀ pb, block_valid pb → bool_decide (pb_txs pb = []) || negb (len (pb_txids pb) =? len (pb_txs pb)) = false)
    as Hids.
  { intros pb (_ & _ & Hc & Hpos & _ & Hids & _). rewrite Hids, length_fmap, Z.eqb_refl, orb_false_r.
    apply bool_decide_eq_false_2. intros E. rewrite E in Hc. simpl in Hc. lia. }
  unfold prepared_of, block_mtp. split.
  - intros (pb & (Hv & Hl & ->) & H). apply bind_Ok in H as ([] & Hp & H).
    apply bind_Ok in Hp as (s & [Hp _]%preflight_Ok & Hc%coinbase_structure_Ok); [|done..].
    rewrite Hids in H by done. apply bind_Ok in H as (m & Hm & [= <-]). exists pb. rewrite Hm. by split_and!.
  - intros (pb & Hv & Hl & -> & Hp & Hc & ->). exists pb. split; [done|].
    rewrite (proj2 (preflight_Ok pb _ _ _ _ _ Hv Hh) (conj Hp eq_refl)). run_bind.
    rewrite (proj2 (coinbase_structure_Ok pb height) Hc). run_bind. rewrite Hids by done.
    assert (is_ok (median_time_past height (cc_prev_timestamps ctx)) = true) as [m Hm]%is_ok_true.
    { apply median_Ok; [done|]. intros l Hl'. destruct (decide (l = [])) as [|Hne]; [by left|right].
      by apply (pf_time _ _ _ _ _ Hp l). }
    by rewrite Hm.
Qed.

(** A parsed block starts with its coinbase. *)
Lemma block_first pb : block_valid pb → ∃ cb rest,
  pb_txs pb = cb :: rest ∧ tx_valid cb ∧ Forall tx_valid rest
  ∧ pb_txids pb = sha3_256 (enc_tx_core cb) :: ((λ tx, sha3_256 (enc_tx_core tx)) <$> rest)
  ∧ non_coinbase pb = (λ tx, (tx, sha3_256 (enc_tx_core tx))) <$> rest.
Proof.
  intros (_ & _ & Hc & Hpos & Htxs & Hids & _). destruct (pb_txs pb) as [|cb rest] eqn:E; [simpl in Hc; lia|].
  apply list.Forall_cons in Htxs as [Hcb Hrest]. exists cb, rest. split_and!; [done..|].
  unfold non_coinbase. rewrite E, Hids. simpl. rewrite drop_0. clear. induction rest as [|t l IH]; [done|].
  simpl. by rewrite IH.
Qed.

Lemma finalize_Ok pb cb rest w fees n st sum st' : pb_txs pb = cb :: rest → tx_valid cb →
  finalize_connected_block (prepared_of st pb) w fees n st = (Ok sum, st') ↔
  reward_ok height (cs_already_generated st) fees cb
  ∧ (height ≠ 0 → cs_already_generated st + block_subsidy height (cs_already_generated st) ≤ u128_max)
  ∧ st' = state_after st w ∧ sum = summary_after st w fees n.
Proof.
  intros Hpb Hv. unfold finalize_connected_block, state_after, summary_after, subsidy_at.
  cbn [prepared_of pr_pb pr_block_height pr_already_generated].
  pose proof (value_bound_Ok pb cb rest height (cs_already_generated st) fees Hpb Hv) as Hvb.
  destruct (validate_coinbase_value_bound _ _ _ _) as [[]|e]; run_bind.
  2: { split; [done|]. intros (Hr & _). by apply Hvb in Hr. }
  pose proof (generated_after_Ok height (cs_already_generated st)) as Hg.
  destruct (already_generated_after_block _ _) as [g|e].
  - destruct (proj1 (Hg g) eq_refl) as [-> ?]. cbn [cs_utxos].
    assert ((if negb (height =? 0)
             then cs_already_generated st + (if height =? 0 then 0 else block_subsidy height (cs_already_generated st))
             else cs_already_generated st)
            = cs_already_generated st + (if height =? 0 then 0 else block_subsidy height (cs_already_generated st)))
      as -> by (destruct (height =? 0); simpl; lia).
    split; [intros [= <- <-]; split_and!; [by apply Hvb|done..]|]. by intros (_ & _ & -> & ->).
  - split; [done|]. intros (_ & Hm & _). by pose proof (proj2 (Hg _) (conj eq_refl Hm)).
Qed.

Lemma finalize_Err p w fees n st e st' : finalize_connected_block p w fees n st = (Err e, st') → st' = st.
Proof. unfold finalize_connected_block. case_match; [done|]. by intros [= _ <-]. Qed.

Lemma sequential_Ok pb st cb rest m' fees : block_valid pb → utxo_values (cs_utxos st) →
  pb_txs pb = cb :: rest →
  apply_coinbase_then_non_coinbase_txs_sequential pb (cs_utxos st) height (block_mtp pb) (cc_chain_id ctx)
    (cc_rotation ctx) (cc_registry ctx) = Ok (m', fees) ↔
  coinbase_outputs_ok height (cc_rotation ctx) cb ∧ rest_ok (non_coinbase pb) ∧ fees ≤ u128_max
  ∧ steps pb (coinbase_created (sha3_256 (enc_tx_core cb)) height (outputs cb) ∪ cs_utxos st)
      (non_coinbase pb) m' fees.
Proof.
  intros Hv Hm Hpb. destruct (block_first pb Hv) as (cb' & rest' & Hpb' & Hcb & Hrest & Hids & Hnc).
  rewrite Hpb in Hpb'. injection Hpb' as <- <-.
  set (m1 := coinbase_created _ _ _ ∪ _).
  assert (utxo_values m1) as Hm1.
  { apply union_values; [|done]. apply mark_values, created_values. by destruct Hcb as (_ & _ & (_ & ?) & _). }
  assert (Forall tx_valid (non_coinbase pb).*1) as Hl.
  { rewrite Hnc, <- list_fmap_compose. apply list.Forall_fmap. eapply list.Forall_impl; [exact Hrest|done]. }
  unfold apply_coinbase_then_non_coinbase_txs_sequential, apply_non_coinbase_txs_sequential.
  pose proof (seq_loop_Ok height (bh_timestamp (pb_header pb)) (block_mtp pb) (cc_chain_id ctx) (cc_rotation ctx)
    (cc_registry ctx) m1 None 0 ∅ (non_coinbase pb) m' fees Hl Hm1 ltac:(done)) as Hloop.
  unfold seq_step in Hloop. rewrite bind_Ok. split.
  - intros (w & Hw & H). rewrite (coinbase_outputs_Ok pb _ _ _ _ cb rest _ _ Hpb Hids Hcb) in Hw. destruct Hw as [Hc ->].
    fold m1 in H. apply bind_Ok in H as ([[w f] seen] & H & [= <- <-]).
    destruct (proj1 Hloop) as (Hr & _ & fees' & Hs & -> & ?); [by exists w, seen|].
    rewrite Z.add_0_l in *. by split_and!.
  - intros (Hc & Hr & Hf & Hs). exists m1.
    rewrite (coinbase_outputs_Ok pb _ _ _ _ cb rest _ _ Hpb Hids Hcb). split; [done|].
    destruct (proj2 Hloop) as (w & seen & H & Hw).
    { split; [done|]. split; [intros n _; apply not_elem_of_empty|]. by exists fees. }
    apply bind_Ok. exists (w, fees, seen). split; [exact H|]. by rewrite Hw.
Qed.

Lemma connect_unfold b st :
  connect_block_basic_in_memory_with_context b ctx st =
  match prepare_connect_block b (cs_already_generated st) ctx with
  | Err e => (Err e, st)
  | Ok p =>
      match apply_coinbase_then_non_coinbase_txs_sequential (pr_pb p) (cs_utxos st) (pr_block_height p)
              (pr_block_mtp p) (cc_chain_id ctx) (cc_rotation ctx) (cc_registry ctx) with
      | Err e => (Err e, st)
      | Ok (m', fees) => finalize_connected_block p m' fees 0 st
      end
  end.
Proof.
  unfold connect_block_basic_in_memory_with_context, gets, lift, mbind, st_bind.
  destruct (prepare_connect_block _ _ _) as [p|e]; [|done].
  by destruct (apply_coinbase_then_non_coinbase_txs_sequential _ _ _ _ _ _ _) as [[m' fees]|e].
Qed.

Lemma connect_Ok b st sum st' : len b ≤ isize_max → is_u 64 height → utxo_values (cs_utxos st) →
  connect_block_basic_in_memory_with_context b ctx st = (Ok sum, st') ↔
  ∃ pb m' fees, block_valid pb ∧ len (pb_txs pb) ≤ u64_max ∧ b = enc_block pb ∧ connects st pb m' fees
    ∧ st' = state_after st m' ∧ sum = summary_after st m' fees 0.
Proof.
  intros Hb Hh Hm. rewrite connect_unfold. pose proof (λ p, prepare_Ok b st p Hb Hh) as Hp. split.
  - destruct (prepare_connect_block _ _ _) as [p|e]; [|done].
    destruct (proj1 (Hp p) eq_refl) as (pb & Hv & Hl & -> & Hpf & (cb0 & Hhd & Hcb) & ->).
    destruct (block_first pb Hv) as (cb & rest & Hpb & Hcv & _ & Hids & _).
    rewrite Hpb in Hhd. injection Hhd as <-. cbn [prepared_of pr_pb pr_block_height pr_block_mtp].
    destruct (apply_coinbase_then_non_coinbase_txs_sequential _ _ _ _ _ _ _) as [[m' fees]|e] eqn:Hs; [|done].
    apply (sequential_Ok pb st cb rest) in Hs as (Hco & Hr & Hf & Hst); [|done..].
    intros (Hrw & Hg & -> & ->)%(finalize_Ok pb cb rest); [|done..]. exists pb, m', fees.
    split_and!; [done..| |done|done]. split; [done..|]. eexists cb, _. rewrite Hpb, Hids. by split_and!.
  - intros (pb & m' & fees & Hv & Hl & Hbe & [Hpf Hr Hf Hg (cb & txid & Hhd & Hti & Hcb & Hco & Hrw & Hst)] & -> & ->).
    destruct (block_first pb Hv) as (cb0 & rest & Hpb & Hcv & _ & Hids & _).
    rewrite Hpb in Hhd. rewrite Hids in Hti. injection Hhd as ->. injection Hti as <-.
    rewrite (proj2 (Hp (prepared_of st pb))).
    2: { exists pb. split_and!; [done..| |done]. exists cb. by rewrite Hpb. }
    cbn [prepared_of pr_pb pr_block_height pr_block_mtp].
    rewrite (proj2 (sequential_Ok pb st cb rest m' fees Hv Hm Hpb)) by done.
    by apply (finalize_Ok pb cb rest).
Qed.
End connects.

(** ** The supply *)

Lemma total_nonneg m : utxo_values m → 0 ≤ total m.
Proof.
  induction m as [|op e m Hop IH] using map_ind; intros Hm; [done|].
  rewrite total_insert by done. apply map_Forall_insert in Hm as [[? _] Hm]; [|done]. specialize (IH Hm). lia.
Qed.

Lemma total_filter_le (P : Outpoint * UtxoEntry → Prop) `{∀ x, Decision (P x)} m :
  utxo_values m → total (filter P m) ≤ total m.
Proof.
  intros Hm. rewrite <- (map_filter_union_complement P m) at 2.
  rewrite total_union by apply map_disjoint_filter_complement.
  enough (0 ≤ total (filter (λ x, ¬ P x) m)) by lia. apply total_nonneg.
  intros op e [He _]%map_lookup_filter_Some. by apply (Hm op).
Qed.

Lemma total_union_le m1 m2 : utxo_values m2 → total (m1 ∪ m2) ≤ total m1 + total m2.
Proof.
  intros Hm.
  assert (m1 ∪ m2 = m1 ∪ filter (λ p, m1 !! p.1 = None) m2) as ->.
  { apply map_eq. intros op. rewrite !lookup_union. destruct (m1 !! op) as [e|] eqn:E; [by rewrite !union_Some_l|].
    rewrite !(left_id_L None _). rewrite map_lookup_filter. destruct (m2 !! op); [|done]. simpl. by rewrite option_guard_True. }
  rewrite total_union; [pose proof (total_filter_le (λ p, m1 !! p.1 = None) m2 Hm); lia|].
  apply map_disjoint_spec. intros op e1 e2 H1 [_ H2]%map_lookup_filter_Some. simpl in H2. congruence.
Qed.

Lemma total_created_le ctx k outs : Forall output_valid outs → total (created_from ctx k outs) ≤ sum_outputs outs.
Proof.
  intros HF. revert k. induction HF as [|o outs [[? ?] _] _ IH]; intros k; [done|].
  cbn [created_from sum_outputs foldr]. specialize (IH (k + 1)). fold (sum_outputs outs).
  destruct (unspendable_type _); [lia|]. rewrite total_insert by (apply created_from_None; lia). simpl. lia.
Qed.

Lemma total_mark m : total (mark_coinbase <$> m) = total m.
Proof.
  induction m as [|op e m Hop IH] using map_ind; [by rewrite fmap_empty|].
  rewrite fmap_insert, !total_insert; [by rewrite IH|done|by rewrite lookup_fmap, Hop].
Qed.

Section supply.
Context `{HS : Sha3} `{HO : OpenSsl}.

Lemma ledger_after_total ctx es wss : tx_valid (cx_tx ctx) → utxo_values (cx_utxo_set ctx) → accepted ctx es wss →
  total (ledger_after ctx) + us_fee (result_after ctx es).2 ≤ total (cx_utxo_set ctx).
Proof.
  intros (_ & _ & (_ & Ho) & _) Hm [_ _ _ (HF & Hnd & _) _ _ _ _ _ _]. unfold result_after, ledger_after. simpl.
  rewrite (total_spent _ _ _ _ HF Hnd) at 1.
  set (kept := filter _ (cx_utxo_set ctx)).
  assert (utxo_values kept) as Hk by (intros op e [He _]%map_lookup_filter_Some; by apply (Hm op)).
  pose proof (total_union_le (created_from ctx 0 (outputs (cx_tx ctx))) kept Hk).
  pose proof (total_created_le ctx 0 (outputs (cx_tx ctx)) Ho). lia.
Qed.

Lemma steps_total height timestamp mtp chain_id rotation registry m l m' fees :
  Forall tx_valid (fst <$> l) → utxo_values m →
  ledger_steps height timestamp mtp chain_id rotation registry m l m' fees → total m' + fees ≤ total m.
Proof.
  intros Hl Hm H. revert Hl Hm. induction H as [|m x l m' es wss fees Ha _ IH]; intros Hl Hm; [lia|].
  rewrite fmap_cons in Hl. apply Forall_cons_1 in Hl as [Hx Hl].
  set (cx := cx_at height timestamp mtp chain_id rotation registry m x) in *.
  pose proof (ledger_after_total cx es wss Hx Hm Ha) as Ht. simpl in Ht.
  specialize (IH Hl (ledger_after_values cx Hx Hm)).
  simpl. lia.
Qed.

(** Connecting a block keeps values in range and creates at most the subsidy. *)
Lemma connects_total ctx st pb m' fees : block_valid pb → utxo_values (cs_utxos st) → cc_block_height ctx ≠ 0 →
  connects ctx st pb m' fees →
  utxo_values m' ∧ total m' ≤ total (cs_utxos st) + subsidy_at ctx st.
Proof.
  intros Hv Hm Hh [_ _ _ _ (cb & txid & Hhd & _ & _ & _ & Hrw & Hs)].
  destruct (block_first pb Hv) as (cb' & rest & Hpb & Hcv & Hrest & _ & Hnc).
  rewrite Hpb in Hhd. injection Hhd as ->.
  assert (Forall tx_valid (non_coinbase pb).*1) as Hl.
  { rewrite Hnc, <- list_fmap_compose. apply list.Forall_fmap. eapply list.Forall_impl; [exact Hrest|done]. }
  assert (Forall output_valid (outputs cb)) as Ho by (by destruct Hcv as (_ & _ & (_ & ?) & _)).
  assert (utxo_values (coinbase_created txid (cc_block_height ctx) (outputs cb) ∪ cs_utxos st)) as Hm1.
  { apply union_values; [|done]. by apply mark_values, created_values. }
  split; [by eapply ledger_steps_values|]. apply steps_total in Hs; [|done..].
  pose proof (total_union_le (coinbase_created txid (cc_block_height ctx) (outputs cb)) _ Hm).
  unfold coinbase_created in *. rewrite total_mark in *.
  pose proof (total_created_le (coinbase_ctx txid (cc_block_height ctx)) 0 _ Ho).
  destruct (Hrw Hh) as [Hle _]. unfold subsidy_at. replace (cc_block_height ctx =? 0) with false by lia. lia.
Qed.

(** C1: connecting a block. From a state whose values are in range, the
    sequential mode accepts exactly the bytes of the blocks that extend the
    state: the checks of the header, the timestamps, the resources, the
    data-availability sets and the coinbase pass, the coinbase's outputs are
    created first, each transaction in turn is accepted by the ledger the one
    before it left, nonces are distinct, and the coinbase claims no more than
    the subsidy and the exact fees; the new state is that last ledger with the
    subsidy added to the amount generated, and the summary reports it. On an
    error the state is the old one. *)
Theorem connect_block_iff b prev target height times chain_id rotation registry st r st' :
  let ctx := mkConnectBlockContext prev target height times chain_id rotation registry in
  len b ≤ isize_max → is_u 64 height → utxo_values (cs_utxos st) →
  connect_block_basic_in_memory_at_height_with_suite_context b prev target height times chain_id rotation
    registry st = (r, st') →
  match r with
  | Ok sum =>
      ∃ pb m' fees, block_valid pb ∧ b = enc_block pb ∧ connects ctx st pb m' fees
        ∧ st' = state_after ctx st m' ∧ sum = summary_after ctx st m' fees 0
  | Err _ =>
      st' = st ∧ ∀ pb m' fees, block_valid pb → len (pb_txs pb) ≤ u64_max → b = enc_block pb →
        ¬ connects ctx st pb m' fees
  end.
Proof.
  intros ctx Hb Hh Hm H. unfold connect_block_basic_in_memory_at_height_with_suite_context in H. fold ctx in H.
  destruct r as [sum|e].
  - apply connect_Ok in H as (pb & m' & fees & Hv & _ & ? & ? & ? & ?); [|done..]. by exists pb, m', fees.
  - split.
    + rewrite connect_unfold in H. repeat (case_match; try by injection H). by apply finalize_Err in H.
    + intros pb m' fees Hv Hl Hbe Hc.
      assert (connect_block_basic_in_memory_with_context b ctx st
              = (Ok (summary_after ctx st m' fees 0), state_after ctx st m')) as E.
      { apply connect_Ok; [done..|]. by exists pb, m', fees. }
      congruence.
Qed.

(** C2: no inflation. If the value of all outputs is at most the amount the
    schedule has generated, it stays so when a block after genesis is
    connected: the new amount generated is the old one plus the subsidy of the
    height, and no block, whatever its transactions, adds more value than
    that; the values of all outputs stay in range. *)
Theorem connect_block_supply b prev target height times chain_id rotation registry st sum st' :
  len b ≤ isize_max → is_u 64 height → height ≠ 0 →
  utxo_values (cs_utxos st) → total (cs_utxos st) ≤ cs_already_generated st →
  connect_block_basic_in_memory_at_height_with_suite_context b prev target height times chain_id rotation
    registry st = (Ok sum, st') →
  utxo_values (cs_utxos st') ∧ total (cs_utxos st') ≤ cs_already_generated st'
  ∧ cs_already_generated st' = cs_already_generated st + block_subsidy height (cs_already_generated st).
Proof.
  intros Hb Hh H0 Hm Ht H. unfold connect_block_basic_in_memory_at_height_with_suite_context in H.
  set (ctx := mkConnectBlockContext _ _ _ _ _ _ _) in *.
  apply connect_Ok in H as (pb & m' & fees & Hv & _ & _ & Hc & -> & _); [|done..].
  apply connects_total in Hc as [? Hle]; [|done..]. unfold state_after. cbn [cs_utxos cs_already_generated].
  unfold subsidy_at in *. replace (cc_block_height ctx =? 0) with false in * by (symmetry; by apply Z.eqb_neq).
  split_and!; [done|lia|done].
Qed.
End supply.

(** ** Witness: the first block after an empty ledger *)

Definition demo_state : InMemoryChainState := mkInMemoryChainState ∅ 0.
Abbreviation demo_connect := (connect_block_basic_in_memory_at_height_with_suite_context (HS := toy_sha3)
  (HO := toy_openssl) (enc_block demo_block) (Some (zeros 32)) None 3 (Some [990; 980; 1010]) demo_chain None None).

Lemma demo_connects : is_ok (demo_connect demo_state).1 = true ∧ size (cs_utxos (demo_connect demo_state).2) = 1%nat.
Proof. by vm_compute. Qed.

Lemma demo_block_small : len (enc_block demo_block) ≤ isize_max.
Proof. by vm_compute. Qed.

Definition demo_connect_ctx : ConnectBlockContext :=
  mkConnectBlockContext (Some (zeros 32)) None 3 (Some [990; 980; 1010]) demo_chain None None.

Lemma demo_values : utxo_values (cs_utxos demo_state).
Proof. apply map_Forall_empty. Qed.

Lemma demo_height : is_u 64 3 ∧ 3 ≠ 0.
Proof. done. Qed.

Lemma connect_block_iff_witness : ∃ sum st', demo_connect demo_state = (Ok sum, st')
  ∧ ∃ pb m' fees, block_valid (HS := toy_sha3) pb ∧ enc_block demo_block = enc_block pb
      ∧ connects (HS := toy_sha3) (HO := toy_openssl) demo_connect_ctx demo_state pb m' fees
      ∧ st' = state_after demo_connect_ctx demo_state m'
      ∧ sum = summary_after (HS := toy_sha3) demo_connect_ctx demo_state m' fees 0.
Proof.
  destruct demo_connects as [Hok _]. destruct (demo_connect demo_state) as [[sum|e] st'] eqn:H; [|discriminate Hok].
  exists sum, st'. split; [reflexivity|].
  pose proof (connect_block_iff (HS := toy_sha3) (HO := toy_openssl) (enc_block demo_block) (Some (zeros 32)) None 3
    (Some [990; 980; 1010]) demo_chain None None demo_state (Ok sum) st' demo_block_small (proj1 demo_height) demo_values H) as Hc.
  cbv zeta iota beta in Hc. exact Hc.
Defined.

Lemma connect_block_supply_witness : ∃ sum st', demo_connect demo_state = (Ok sum, st')
  ∧ total (cs_utxos st') ≤ cs_already_generated st' ∧ cs_already_generated st' = block_subsidy 3 0.
Proof.
  destruct demo_connects as [Hok _]. destruct (demo_connect demo_state) as [[sum|e] st'] eqn:H; [|discriminate Hok].
  exists sum, st'. split; [reflexivity|].
  exact (proj2 (connect_block_supply (HS := toy_sha3) (HO := toy_openssl) (enc_block demo_block) (Some (zeros 32)) None 3
    (Some [990; 980; 1010]) demo_chain None None demo_state sum st' demo_block_small (proj1 demo_height) (proj2 demo_height)
    demo_values (Z.le_refl 0) H)).
Defined.
