(* ===== verification/ConnectParallel.v ===== *)
(** * The parallel mode connects the same blocks

    The queued application of a block's transactions against the sequential
    one: the queue collects exactly the checks the sequential mode makes in
    place, so flushing it once gives the same outcome. *)

From S2P Require Import Prelude Bytes BTree Errors Constants Crypto WireRead CompactSize TxWire TxCodec Block Merkle Pow Subsidy.
From S2P Require Import Vault Suites Verify SigCache WorkerPool SigQueue Sighash Spend Htlc Stealth CovenantGenesis.
From S2P Require Import UtxoApply UtxoRules UtxoDeferred UtxoLedger BlockParse BlockWeight BlockDa BlockBasic ConnectBlock.

Section parallel.
Context `{HS : Sha3} `{HO : OpenSsl}.

Section loop.
Context (height timestamp mtp : Z) (chain_id : bytes) (rotation : option RotationProvider)
  (registry : option SuiteRegistry).
Abbreviation at_ m x := (cx_at height timestamp mtp chain_id rotation registry m x).
Abbreviation reg := (default default_registry registry).

(** The sequential loop on a ledger that is always there. *)
Definition plain_step (s : UtxoMap * Z * gset Z) (x : Tx * bytes) : res (UtxoMap * Z * gset Z) :=
  let '(work, fees, seen) := s in
  seen ← validate_non_coinbase_block_tx x.1 seen;
  r ← inline_apply (at_ work x);
  fees ← add_block_fee fees (us_fee r.2);
  Ok (r.1, fees, seen).

Lemma seq_plain st w f seen l :
  ('(w', f', _) ← try_fold (seq_step height timestamp mtp chain_id rotation registry st) (w, f, seen) l;
   Ok (default st w', f'))
  = (s ← try_fold plain_step (default st w, f, seen) l; Ok s.1).
Proof.
  revert w f seen. induction l as [|[tx txid] l IH]; intros w f seen; [done|]. cbn [try_fold].
  cbn [seq_step plain_step fst].
  destruct (validate_non_coinbase_block_tx tx seen) as [seen'|e]; [|done]. run_bind.
  change (apply_update tx txid (default st w) height timestamp mtp chain_id rotation registry)
    with (inline_apply (at_ (default st w) (tx, txid))).
  destruct (inline_apply (at_ (default st w) (tx, txid))) as [[m sm]|e]; [|done]. run_bind. cbn [fst snd].
  destruct (add_block_fee f (us_fee sm)) as [f'|e]; [|done]. run_bind. apply (IH (Some m)).
Qed.

Definition queue_step (s : UtxoMap * Z * gset Z) (x : Tx * bytes) : ST SigCheckQueue TxError (UtxoMap * Z * gset Z) :=
  let '(work_utxos, sum_fees, seen_nonces) := s in
  let '(tx, txid) := x in
  seen_nonces ← lift (validate_non_coinbase_block_tx tx seen_nonces);
  r ← apply_queued_sigchecks (at_ work_utxos (tx, txid));
  sum_fees ← lift (add_block_fee sum_fees (us_fee r.2));
  mret (r.1, sum_fees, seen_nonces).

(** The witness items of the transactions, each as often as it may be queued. *)
Definition block_items (l : list (Tx * bytes)) : list WitnessItem :=
  concat ((λ x, witness x.1 ++ witness x.1) <$> l).

(** What a queued computation says of the direct one. *)
Definition collects {A} (ws : list WitnessItem) (q : SigCheckQueue) (o : res A * SigCheckQueue) (direct : res A) : Prop :=
  ∃ ts, match o with
        | (Ok a, q') => q_tasks q' = q_tasks q ++ ts ∧ (ts ≠ [] → q_registry q' = Some reg)
            ∧ Forall task_fits ts ∧ extends q q' ∧ queue_wf q'
            ∧ (∀ ws', room reg q (ws ++ ws') → room reg q' ws')
            ∧ direct = (_ ← checks reg ts; Ok a)
        | (Err e, _) => ¬ room reg q ws ∨ direct = (_ ← checks reg ts; Err e)
        end.

Lemma queue_step_collects s x q : queue_wf q → Forall item_fits (witness x.1) →
  collects (witness x.1 ++ witness x.1) q (queue_step s x q) (plain_step s x).
Proof.
  destruct s as [[work fees] seen], x as [tx txid]. cbn [fst]. intros Hq Hf. unfold queue_step, plain_step. cbn [fst].
  destruct (validate_non_coinbase_block_tx tx seen) as [seen'|e]; [|exists []; right; done].
  rewrite st_lift_Ok. run_bind.
  destruct (queued_cases (at_ work (tx, txid)) q Hq Hf) as [ts Hts]. exists ts.
  change (cx_reg (at_ work (tx, txid))) with reg in Hts. cbn [cx_tx cx_at] in Hts.
  unfold mbind at 1, st_bind at 1.
  destruct (apply_queued_sigchecks (at_ work (tx, txid)) q) as [[[m sm]|e] q'].
  - destruct Hts as (Ht & Hr & Hfit & Hext & Hwf & Hroom & ->). cbn [fst snd].
    destruct (add_block_fee fees (us_fee sm)) as [f'|e] eqn:Hfee.
    + rewrite st_lift_Ok. cbn [mret st_ret]. split_and!; try done. destruct (checks reg ts); [|done]. run_bind. cbn [snd]. by rewrite Hfee.
    + rewrite st_lift_Err. right. destruct (checks reg ts); [|done]. run_bind. cbn [snd]. by rewrite Hfee.
  - destruct Hts as [-> [Hno| ->]]; [by left|right]. by destruct (checks reg ts).
Qed.

Lemma queue_loop_collects s l q : queue_wf q → Forall (λ x, Forall item_fits (witness x.1)) l →
  collects (block_items l) q (st_fold queue_step s l q) (try_fold plain_step s l).
Proof.
  intros Hq Hl. revert s q Hq. induction Hl as [|x l Hx _ IH]; intros s q Hq; cbn [st_fold try_fold].
  { exists []. cbn [mret st_ret]. split_and!; try done; [by rewrite app_nil_r|apply extends_refl]. }
  destruct (queue_step_collects s x q Hq Hx) as [ts Hts]. unfold mbind at 1, st_bind at 1.
  unfold block_items. rewrite fmap_cons. cbn [concat]. fold (block_items l).
  destruct (queue_step s x q) as [[s1|e] q1].
  2: { exists ts. destruct Hts as [Hno| ->]; [left|right; by destruct (checks reg ts)].
       intros Hr. apply Hno. by eapply room_app_l. }
  destruct Hts as (Ht & Hr & Hfit & Hext & Hwf & Hroom & ->). destruct (IH s1 q1 Hwf) as [ts2 Hts2].
  exists (ts ++ ts2). rewrite checks_app. destruct (st_fold queue_step s1 l q1) as [[s2|e] q2].
  - destruct Hts2 as (Ht2 & Hr2 & Hfit2 & Hext2 & Hwf2 & Hroom2 & Hd2). split_and!.
    + by rewrite Ht2, Ht, app_assoc.
    + intros Hne. destruct ts2 as [|t ts2]; [|by apply Hr2].
      rewrite app_nil_r in Hne. specialize (Hr Hne). destruct Hext2 as [_ [Hn|Hs] _ _]; congruence.
    + by apply Forall_app.
    + by eapply extends_trans.
    + done.
    + intros ws'. rewrite <- app_assoc. auto.
    + destruct (checks reg ts); [|done]. run_bind. done.
  - destruct Hts2 as [Hno|Hd2].
    + left. intros Hro. by apply Hno, Hroom.
    + right. destruct (checks reg ts); [|done]. run_bind. done.
Qed.
End loop.

(** ** The whole block *)

Context (ctx : ConnectBlockContext).
Abbreviation height := (cc_block_height ctx).
Abbreviation breg := (default default_registry (cc_registry ctx)).

(** The queue a block starts with. *)
Definition block_queue (par workers : Z) : SigCheckQueue :=
  match cc_registry ctx with
  | Some registry => with_registry (queue_new par workers) registry
  | None => queue_new par workers
  end.

(** The budgets of the queue hold the block's witnesses, counted twice. *)
Definition block_room (par workers : Z) (pb : ParsedBlock) : Prop :=
  room breg (block_queue par workers) (block_items (non_coinbase pb)).

Lemma block_queue_wf par workers : queue_wf (block_queue par workers).
Proof. unfold block_queue. destruct (cc_registry ctx); (split; [done|by vm_compute]). Qed.

Lemma sequential_plain p m st :
  apply_non_coinbase_txs_sequential (pr_pb p) m (pr_block_height p) (pr_block_mtp p) (cc_chain_id ctx)
    (cc_rotation ctx) (cc_registry ctx) = st →
  (s ← try_fold (plain_step (pr_block_height p) (bh_timestamp (pb_header (pr_pb p))) (pr_block_mtp p)
     (cc_chain_id ctx) (cc_rotation ctx) (cc_registry ctx)) (m, 0, ∅) (non_coinbase (pr_pb p)); Ok s.1) = st.
Proof. intros <-. symmetry. apply (seq_plain _ _ _ _ _ _ m None). Qed.

Lemma flush_checks par es q q' ts fr q2 : q_tasks q = [] → q_cache q = None →
  q_tasks q' = q_tasks q ++ ts → (ts ≠ [] → q_registry q' = Some breg) → Forall task_fits ts → extends q q' →
  Forall (event_ok no_cache) es →
  flush par es q' = Some (fr, q2) → fr = checks breg ts.
Proof.
  intros Hq Hcq Ht Hr Hf Hext Hes Hfl. rewrite Hq in Ht. simpl in Ht.
  destruct (decide (ts = [])) as [->|Hne].
  - unfold flush in Hfl. rewrite Ht in Hfl. by injection Hfl as <- _.
  - specialize (Hr Hne). assert (q_cache q' = None) as Hc by (destruct Hext as [_ _ E _]; congruence).
    eapply (flush_ok no_cache (λ _, False)) in Hfl as [[Hfl|(t & _ & [])] _]; [|apply no_cache_law|done|done].
    by rewrite Hr, Ht in Hfl.
Qed.

Lemma parallel_txs par es p m workers r : Forall (λ x, Forall item_fits (witness x.1)) (non_coinbase (pr_pb p)) →
  Forall (event_ok no_cache) es →
  apply_non_coinbase_txs_parallel par es p m ctx workers = Some r →
  let direct := apply_non_coinbase_txs_sequential (pr_pb p) m (pr_block_height p) (pr_block_mtp p)
                  (cc_chain_id ctx) (cc_rotation ctx) (cc_registry ctx) in
  match r with
  | Ok (m', fees, _) => direct = Ok (m', fees)
  | Err e => ¬ block_room par workers (pr_pb p) ∨ is_ok direct = false
  end.
Proof.
  intros Hf Hes H direct. pose proof (sequential_plain p m direct eq_refl) as Hd.
  unfold apply_non_coinbase_txs_parallel in H. fold (block_queue par workers) in H.
  destruct (queue_loop_collects (pr_block_height p) (bh_timestamp (pb_header (pr_pb p))) (pr_block_mtp p)
    (cc_chain_id ctx) (cc_rotation ctx) (cc_registry ctx) (m, 0, ∅) (non_coinbase (pr_pb p))
    (block_queue par workers) (block_queue_wf par workers) Hf) as [ts Hts].
  unfold collect_queued_non_coinbase_txs in H. unfold mbind at 1, st_bind at 1 in H.
  change (st_fold _ (m, 0, ∅) (non_coinbase (pr_pb p)) (block_queue par workers)) with
    (st_fold (queue_step (pr_block_height p) (bh_timestamp (pb_header (pr_pb p))) (pr_block_mtp p)
       (cc_chain_id ctx) (cc_rotation ctx) (cc_registry ctx)) (m, 0, ∅) (non_coinbase (pr_pb p))
       (block_queue par workers)) in H.
  destruct (st_fold _ _ _ _) as [[[[m' f] seen]|e] q'].
  - cbn [mret st_ret fst] in H. apply bind_Some in H as ([fr q2] & Hfl & [= <-]).
    destruct Hts as (Ht & Hr & Hfit & Hext & _ & _ & Hdirect). rewrite Hdirect in Hd.
    assert (q_tasks (block_queue par workers) = [] ∧ q_cache (block_queue par workers) = None) as [Hq Hc]
      by (unfold block_queue; by destruct (cc_registry ctx)).
    eapply flush_checks in Hfl as ->; [|done..].
    destruct (checks breg ts) as [[]|e]; [by rewrite <- Hd|right; by rewrite <- Hd].
  - injection H as <-. destruct Hts as [Hno|Hdirect]; [by left|right].
    rewrite <- Hd, Hdirect. by destruct (checks breg ts).
Qed.

Definition with_tasks (n : Z) (s : ConnectBlockBasicSummary) : ConnectBlockBasicSummary :=
  mkConnectBlockBasicSummary (cb_sum_fees s) (cb_already_generated s) (cb_already_generated_n1 s)
    (cb_utxo_count s) (cb_post_state_digest s) n (cb_worker_panics s).

(** The number of tasks is only reported. *)
Lemma finalize_tasks p w f n st :
  finalize_connected_block p w f n st =
  (with_tasks n <$> (finalize_connected_block p w f 0 st).1, (finalize_connected_block p w f 0 st).2).
Proof. unfold finalize_connected_block. by case_match. Qed.

Lemma prepare_parsed b g p : prepare_connect_block b g ctx = Ok p → parse_block_bytes b = Ok (pr_pb p).
Proof.
  unfold prepare_connect_block. intros H. apply bind_Ok in H as (pb & Hpb & H).
  apply bind_Ok in H as ([] & _ & H). destruct (_ || _); [done|].
  apply bind_Ok in H as (m & _ & [= <-]). done.
Qed.

(** The sequential mode, after the coinbase. *)
Lemma connect_split b st :
  connect_block_basic_in_memory_with_context b ctx st =
  match (prepared ← prepare_connect_block b (cs_already_generated st) ctx;
         work_utxos ← apply_coinbase_outputs (pr_pb prepared) (cs_utxos st) (pr_block_height prepared)
           (cc_rotation ctx);
         Ok (prepared, work_utxos)) with
  | Err e => (Err e, st)
  | Ok (p, m) =>
      match apply_non_coinbase_txs_sequential (pr_pb p) m (pr_block_height p) (pr_block_mtp p)
              (cc_chain_id ctx) (cc_rotation ctx) (cc_registry ctx) with
      | Err e => (Err e, st)
      | Ok (m', fees) => finalize_connected_block p m' fees 0 st
      end
  end.
Proof.
  rewrite connect_unfold. destruct (prepare_connect_block _ _ _) as [p|e]; [|done]. run_bind.
  unfold apply_coinbase_then_non_coinbase_txs_sequential. by destruct (apply_coinbase_outputs _ _ _ _).
Qed.

Lemma block_items_fit b pb : len b ≤ isize_max → parse_block_bytes b = Ok pb →
  Forall (λ x, Forall item_fits (witness x.1)) (non_coinbase pb).
Proof.
  intros Hb (Hv & _)%parse_block_Ok; [|done]. destruct (block_first pb Hv) as (cb & rest & _ & _ & Hrest & _ & ->).
  apply list.Forall_fmap. eapply list.Forall_impl; [exact Hrest|]. intros tx Htx. by apply wire_witness_fits.
Qed.

(** C3: the two modes connect the same blocks. On every schedule of the
    signature workers the parallel mode returns a success only when the
    sequential mode does, with the same new state and the same summary up to
    the number of queued signatures; it fails only when the sequential mode
    fails as well (the queue's budgets never refuse a block they have room
    for), and then leaves the state as it was. Some schedule completes it. The
    queue of a block is private and has no cache, and nobody else gives it
    one. *)
Theorem connect_parallel_is_sequential par workers b st : len b ≤ isize_max →
  (∀ es r st', Forall (event_ok no_cache) es →
     connect_block_parallel_sig_verify_with_context par es b ctx workers st = Some (r, st') →
     let '(r0, st0) := connect_block_basic_in_memory_with_context b ctx st in
     match r with
     | Ok sum => r0 = Ok (with_tasks 0 sum) ∧ st' = st0
     | Err _ => st' = st
         ∧ (is_ok r0 = false ∨ ∃ pb, parse_block_bytes b = Ok pb ∧ ¬ block_room par workers pb)
     end)
  ∧ ∃ es r st', connect_block_parallel_sig_verify_with_context par es b ctx workers st = Some (r, st').
Proof.
  intros Hb. rewrite connect_split. unfold connect_block_parallel_sig_verify_with_context.
  destruct (prepare_connect_block _ _ _) as [p|e] eqn:Hp; run_bind.
  2: { split; [|by eexists [], _, _]. intros es r st' _ [= <- <-]. split; [done|by left]. }
  apply prepare_parsed in Hp. pose proof (block_items_fit b _ Hb Hp) as Hf.
  destruct (apply_coinbase_outputs _ _ _ _) as [m|e]; run_bind.
  2: { split; [|by eexists [], _, _]. intros es r st' _ [= <- <-]. split; [done|by left]. }
  split.
  - intros es r st' Hes H. apply bind_Some in H as (rt & Hrt & H).
    apply parallel_txs in Hrt; [|done..].
    destruct rt as [[[m' f] n]|e].
    + rewrite Hrt. rewrite finalize_tasks in H. destruct (finalize_connected_block p m' f 0 st) as [r0 st0] eqn:Hfin.
      cbn [fst snd] in H. injection H as <- <-. destruct r0 as [sum|e]; simpl.
      * split; [|done]. unfold finalize_connected_block in Hfin. case_match; [|done]. by injection Hfin as <- _.
      * split; [by eapply finalize_Err|by left].
    + injection H as <- <-. destruct Hrt as [Hno|Hd].
      * destruct (apply_non_coinbase_txs_sequential _ _ _ _ _ _ _) as [[??]|];
          [destruct (finalize_connected_block _ _ _ _ _)|]; (split; [done|]); right; by exists (pr_pb p).
      * destruct (apply_non_coinbase_txs_sequential _ _ _ _ _ _ _) as [[??]|]; [done|]. split; [done|by left].
  - unfold apply_non_coinbase_txs_parallel.
    destruct (collect_queued_non_coinbase_txs _ _ _ _) as [[[m' f]|e] q]; [|by eexists [], _, _].
    destruct (flush_completes par q) as (es & r & q2 & Hfl). exists es. rewrite Hfl. simpl.
    destruct r; simpl; [destruct (finalize_connected_block _ _ _ _ _)|]; by eexists _, _.
Qed.
End parallel.

Lemma connect_parallel_is_sequential_witness :
  is_ok (connect_block_basic_in_memory_with_context (HS := toy_sha3) (HO := toy_openssl)
           (enc_block demo_block) demo_connect_ctx demo_state).1 = true
  ∧ ∃ es r st', connect_block_parallel_sig_verify_with_context (HS := toy_sha3) (HO := toy_openssl) 1 es
      (enc_block demo_block) demo_connect_ctx 2 demo_state = Some (r, st').
Proof.
  split; [exact (proj1 demo_connects)|].
  apply (connect_parallel_is_sequential (HS := toy_sha3) (HO := toy_openssl) demo_connect_ctx 1 2
    (enc_block demo_block) demo_state). exact demo_block_small.
Defined.
