(* ===== verification/UtxoDigest.v ===== *)
(** * The digest of a ledger ([utxo_set_hash] of [connect_block_inmem.rs])

    Two ledgers with the same digest are equal. *)

From S2P Require Import Prelude Bytes BTree Errors Constants Crypto WireRead CompactSize TxWire TxCodec.
From S2P Require Import Spend UtxoApply ConnectBlock.

(** Outputs whose fields have the widths of the code. *)
Definition outpoint_wf (op : Outpoint) : Prop := len (op_txid op) = 32 ∧ is_u 32 (op_vout op).
Definition entry_wf (e : UtxoEntry) : Prop :=
  is_u 64 (ue_value e) ∧ is_u 16 (ue_covenant_type e) ∧ len (ue_covenant_data e) ≤ u64_max
  ∧ is_u 64 (ue_creation_height e).
Definition ledger_wf (m : UtxoMap) : Prop := map_Forall (λ op e, outpoint_wf op ∧ entry_wf e) m.

(** The bytes of an item, and of the whole ledger. *)
Definition enc_utxo (item : bytes * UtxoEntry) : bytes :=
  let '(key, e) := item in
  key ++ u64_le (ue_value e) ++ u16_le (ue_covenant_type e) ++ compact_size (len (ue_covenant_data e))
  ++ ue_covenant_data e ++ u64_le (ue_creation_height e) ++ [if ue_created_by_coinbase e then x01 else x00].

Definition utxo_items (m : UtxoMap) : list (bytes * UtxoEntry) :=
  merge_sort key_le ((λ p : Outpoint * UtxoEntry, (utxo_key p.1, p.2)) <$> map_to_list m).
Definition utxo_preimage (m : UtxoMap) : bytes :=
  (UTXO_SET_HASH_DST ++ u64_le (len (utxo_items m))) ++ concat_map enc_utxo (utxo_items m).

Lemma utxo_set_hash_preimage `{HS : Sha3} m : utxo_set_hash m = sha3_256 (utxo_preimage m).
Proof.
  unfold utxo_set_hash, utxo_preimage. fold (utxo_items m). f_equal. apply foldl_app_concat.
  intros buf [key e] _. unfold push_utxo_item, enc_utxo. rewrite encode_compact_size_app.
  by rewrite <- !app_assoc.
Qed.

Definition item_wf (i : bytes * UtxoEntry) : Prop := len i.1 = 36 ∧ entry_wf i.2.

Lemma u_le_app_inj (n : nat) z1 z2 (s t : bytes) : 0 ≤ z1 < 256 ^ Z.of_nat n → 0 ≤ z2 < 256 ^ Z.of_nat n →
  le_encode n z1 ++ s = le_encode n z2 ++ t → z1 = z2 ∧ s = t.
Proof.
  intros H1 H2 He. apply app_inj_1 in He as [Hz ->]; [|by rewrite !le_encode_length].
  split; [|done]. by apply le_encode_inj in Hz.
Qed.

Lemma enc_utxo_inj i1 i2 s t : item_wf i1 → item_wf i2 → len (enc_utxo i1 ++ s) ≤ isize_max →
  enc_utxo i1 ++ s = enc_utxo i2 ++ t → i1 = i2 ∧ s = t.
Proof.
  destruct i1 as [k1 [v1 c1 d1 h1 b1]], i2 as [k2 [v2 c2 d2 h2 b2]]. unfold item_wf, entry_wf, enc_utxo. simpl fst.
  cbn [snd ue_value ue_covenant_type ue_covenant_data ue_creation_height ue_created_by_coinbase].
  intros (Hk1 & Hv1 & Hc1 & Hd1 & Hh1) (Hk2 & Hv2 & Hc2 & Hd2 & Hh2) Hl. rewrite <- !app_assoc in *. intros He.
  apply app_inj_1 in He as [-> He]; [|lia].
  apply (u_le_app_inj 8) in He as [-> He]; [|done..]. apply (u_le_app_inj 2) in He as [-> He]; [|done..].
  rewrite !length_app in Hl. unfold isize_max, u64_max in *.
  apply (decodes_prefix_free read_compact_size (Hp := compact_size_decodes) (len d1, len (compact_size (len d1)))
    (len d2, len (compact_size (len d2)))) in He as [Hd He].
  - injection Hd as Hd _. apply app_inj_1 in He as [-> He]; [|lia].
    apply (u_le_app_inj 8) in He as [-> He]; [|done..]. injection He as Hb ->.
    split; [|done]. by destruct b1, b2.
  - split; [|done]. simpl. unfold is_u. lia.
  - split; [|done]. simpl. unfold is_u. lia.
  - cbn [fst]. rewrite !length_app. unfold isize_max. lia.
Qed.

Lemma enc_utxo_nonempty i : 1 ≤ len (enc_utxo i).
Proof. destruct i as [k e]. unfold enc_utxo. rewrite !length_app. simpl. lia. Qed.

Lemma items_inj l1 l2 : Forall item_wf l1 → Forall item_wf l2 → len (concat_map enc_utxo l1) ≤ isize_max →
  concat_map enc_utxo l1 = concat_map enc_utxo l2 → l1 = l2.
Proof.
  intros H1. revert l2. induction H1 as [|i1 l1 Hi1 _ IH]; intros l2 H2 Hl He.
  - destruct l2 as [|i2 l2]; [done|]. rewrite concat_map_cons in He. pose proof (enc_utxo_nonempty i2).
    apply (f_equal length) in He. rewrite length_app in He. simpl in He. lia.
  - destruct H2 as [|i2 l2 Hi2 H2]; rewrite !concat_map_cons in *.
    + pose proof (enc_utxo_nonempty i1). apply (f_equal length) in He. rewrite length_app in He. simpl in He. lia.
    + apply enc_utxo_inj in He as [-> He]; [|done..]. f_equal. apply IH; [done| |done]. rewrite length_app in Hl. lia.
Qed.

Lemma utxo_key_inj op1 op2 : outpoint_wf op1 → outpoint_wf op2 → utxo_key op1 = utxo_key op2 → op1 = op2.
Proof.
  destruct op1 as [t1 n1], op2 as [t2 n2]. unfold outpoint_wf, utxo_key. simpl. intros [H1 Hn1] [H2 Hn2] He.
  apply app_inj_1 in He as [-> He]; [|lia]. f_equal. by apply (le_encode_inj 4) in He.
Qed.

Lemma elem_of_utxo_items m key e :
  (key, e) ∈ utxo_items m ↔ ∃ op, key = utxo_key op ∧ m !! op = Some e.
Proof.
  unfold utxo_items. rewrite (merge_sort_Permutation key_le), list_elem_of_fmap. split.
  - intros ([op e'] & [= -> ->] & H). apply elem_of_map_to_list in H. by exists op.
  - intros (op & -> & H). exists (op, e). split; [done|]. by apply elem_of_map_to_list.
Qed.

Lemma utxo_items_wf m : ledger_wf m → Forall item_wf (utxo_items m).
Proof.
  intros Hm. apply list.Forall_forall. intros [key e] (op & -> & H)%elem_of_utxo_items.
  destruct (Hm _ _ H) as [[Ht _] He]. split; [|done]. unfold utxo_key, u32_le. cbn [fst op_txid op_vout].
  rewrite length_app, le_encode_length. lia.
Qed.

Lemma utxo_items_subset m1 m2 : ledger_wf m1 → ledger_wf m2 → utxo_items m1 = utxo_items m2 →
  ∀ op e, m1 !! op = Some e → m2 !! op = Some e.
Proof.
  intros H1 H2 Hi op e He.
  assert ((utxo_key op, e) ∈ utxo_items m2) as Hin by (rewrite <- Hi; apply elem_of_utxo_items; by exists op).
  apply elem_of_utxo_items in Hin as (op' & Hk & He').
  by rewrite (utxo_key_inj op op' (proj1 (H1 _ _ He)) (proj1 (H2 _ _ He')) Hk).
Qed.

Section digest.
Context `{HS : Sha3}.

(** The digest of a ledger commits to it: two ledgers with the same
    digest hold the same outputs with the same values, covenants, heights and
    coinbase marks, whatever the order of their hash maps, or the two strings
    hashed collide under SHA3-256. *)
Theorem utxo_set_hash_binding m1 m2 : ledger_wf m1 → ledger_wf m2 → len (utxo_preimage m1) ≤ isize_max →
  utxo_set_hash m1 = utxo_set_hash m2 → m1 = m2 ∨ collision_in [utxo_preimage m1; utxo_preimage m2].
Proof.
  intros H1 H2 Hl. rewrite !utxo_set_hash_preimage. intros He. eapply sha3_inj_in in He as [He|Hc]; [left| |by left|by right; left]; [|by right].
  unfold utxo_preimage in *. rewrite length_app in Hl.
  apply app_inj_1 in He as [_ He]; [|by unfold u64_le; rewrite !length_app, !le_encode_length].
  apply items_inj in He; [|by apply utxo_items_wf..|lia].
  apply map_eq. intros op. apply option_eq. intros e. split; eapply utxo_items_subset; eauto.
Qed.
End digest.

Definition demo_ledger : UtxoMap :=
  {[ mkOutpoint (zeros 32) 7 := mkUtxoEntry 90 0 (x01 :: zeros 32) 5 false ]}.

Lemma utxo_set_hash_binding_witness :
  ledger_wf demo_ledger ∧ (demo_ledger = demo_ledger ∨ collision_in (HS := toy_sha3) [utxo_preimage demo_ledger; utxo_preimage demo_ledger]).
Proof.
  assert (ledger_wf demo_ledger) as H by (apply map_Forall_singleton; repeat split; vm_compute; congruence).
  split; [exact H|]. apply (utxo_set_hash_binding (HS := toy_sha3)); [exact H|exact H|by vm_compute|reflexivity].
Defined.
