(* ===== verification/NodeText.v ===== *)
(** * Text in the node crate ([io_utils.rs], [genesis.rs])

    The node reports errors as strings and stores hashes in hexadecimal.  The
    [hex] crate is third-party code: [Hex] is what the node relies on, with
    its documented behaviour as laws; [toy_hex] is a concrete instance. *)

From Stdlib Require Import Ascii.
From stdpp Require Import pretty.
From S2P Require Import Prelude Bytes Errors Constants Crypto WireRead CompactSize TxWire Block.
From S2P Require Import Vault Suites Verify SigCache WorkerPool SigQueue Sighash Spend.

(** Lower-case hexadecimal digits. *)
Definition hex_digits : list ascii := String.list_ascii_of_string "0123456789abcdef"%string.
Abbreviation chars s := (String.list_ascii_of_string s).

(** The two digits of each byte. *)
Definition hex_digit (n : Z) : ascii := default "0"%char (hex_digits !! Z.to_nat n).
Definition hex_chars (b : bytes) : list ascii :=
  b ≫= λ x, [hex_digit (byte_val x / 16); hex_digit (byte_val x mod 16)].

Class Hex : Type := {
  hex_encode : bytes → string;
  hex_decode : string → result string bytes;
  hex_decode_encode : ∀ b, hex_decode (hex_encode b) = Ok b;
  hex_encode_spec : ∀ b, chars (hex_encode b) = hex_chars b;
}.

Lemma hex_chars_cons x b :
  hex_chars (x :: b) = hex_digit (byte_val x / 16) :: hex_digit (byte_val x mod 16) :: hex_chars b.
Proof. done. Qed.

Lemma hex_digit_elem n : 0 ≤ n < 16 → hex_digit n ∈ hex_digits.
Proof.
  intros Hn. unfold hex_digit. destruct (lookup_lt_is_Some_2 hex_digits (Z.to_nat n)) as [c Hc].
  { change (length hex_digits) with 16%nat. lia. }
  rewrite Hc. by apply list_elem_of_lookup_2 in Hc.
Qed.

Lemma hex_chars_digits b : len (hex_chars b) = 2 * len b ∧ Forall (λ c, c ∈ hex_digits) (hex_chars b).
Proof.
  induction b as [|x b [IHl IHd]]; [by repeat constructor|]. rewrite hex_chars_cons. split; [cbn [length]; lia|].
  pose proof (byte_val_range x). repeat apply Forall_cons_2; [| |done]; apply hex_digit_elem.
  - split; [apply Z.div_pos; lia|apply Z.div_lt_upper_bound; lia].
  - apply Z.mod_pos_bound. lia.
Qed.

Lemma hex_encode_chars `{HX : Hex} b :
  len (chars (hex_encode b)) = 2 * len b ∧ Forall (λ c, c ∈ hex_digits) (chars (hex_encode b)).
Proof. rewrite hex_encode_spec. apply hex_chars_digits. Qed.

Lemma hex_encode_inj `{HX : Hex} b1 b2 : hex_encode b1 = hex_encode b2 → b1 = b2.
Proof. intros He. pose proof (hex_decode_encode b1) as H1. rewrite He, hex_decode_encode in H1. by injection H1. Qed.

(** Two digits are the digits of a byte. *)
Lemma hex_pair c d : c ∈ hex_digits → d ∈ hex_digits →
  ∃ x, c = hex_digit (byte_val x / 16) ∧ d = hex_digit (byte_val x mod 16).
Proof.
  intros [i Hi]%list_elem_of_lookup [j Hj]%list_elem_of_lookup. pose proof (lookup_lt_Some _ _ _ Hi) as Hin.
  pose proof (lookup_lt_Some _ _ _ Hj) as Hjn. change (length hex_digits) with 16%nat in *.
  exists (byte_of_Z (16 * Z.of_nat i + Z.of_nat j)). rewrite byte_val_of_Z_small by (unfold is_u; lia). unfold hex_digit. split.
  - replace (Z.to_nat _) with i by (rewrite (Z.mul_comm 16), Z.div_add_l by lia; rewrite Z.div_small by lia; lia). by rewrite Hi.
  - replace (Z.to_nat _) with j by (rewrite (Z.add_comm _ (Z.of_nat j)), (Z.mul_comm 16), Z_mod_plus_full, Z.mod_small by lia; lia).
    by rewrite Hj.
Qed.

(** Lower-case digits in pairs are the text of some bytes. *)
Lemma hex_chars_surj l : Forall (λ c, c ∈ hex_digits) l → len l mod 2 = 0 → ∃ b, l = hex_chars b.
Proof.
  enough (∀ n l, (length l ≤ n)%nat → Forall (λ c, c ∈ hex_digits) l → len l mod 2 = 0 → ∃ b, l = hex_chars b) as H by eauto.
  clear l. intros n. induction n as [|n IH]; intros l Hn Hl He.
  { exists []. by destruct l; [|cbn in Hn; lia]. }
  destruct l as [|c [|d l]]; [by exists []|done|]. apply list.Forall_cons in Hl as [Hc Hl]. apply list.Forall_cons in Hl as [Hd Hl].
  destruct (hex_pair c d Hc Hd) as (x & -> & ->). destruct (IH l) as [b ->]; [cbn in Hn; lia|done| |by exists (x :: b)].
  cbn [length] in He. replace (Z.of_nat (S (S (length l)))) with (len l + 1 * 2) in He by lia. by rewrite Z_mod_plus_full in He.
Qed.

Lemma hex_encode_surj `{HX : Hex} s : Forall (λ c, c ∈ hex_digits) (chars s) → len (chars s) mod 2 = 0 →
  ∃ b, s = hex_encode b.
Proof.
  intros Hd He. destruct (hex_chars_surj _ Hd He) as [b Hb]. exists b.
  rewrite <- (String.string_of_list_ascii_of_string s), Hb, <- hex_encode_spec. apply String.string_of_list_ascii_of_string.
Qed.

(** The results of the node: an error is a message. *)
Abbreviation nres := (result string).
Abbreviation fail m := (Err (m : string)) (only parsing).

(** [map_err(|e| e.to_string())]. *)
Definition stringify {A} (r : res A) : nres A := map_err display r.

Lemma stringify_Ok {A} (r : res A) a : stringify r = Ok a ↔ r = Ok a.
Proof. apply map_err_Ok. Qed.

(** ** [str::trim]

    A string is its UTF-8 bytes.  [trim_matches] removes the given characters
    from both ends, [trim] the characters with the property [White_Space]. *)

Section trim.
Implicit Types (ps : list (list ascii)) (l : list ascii).

(** One character is removed per step, so the length is enough fuel. *)
Fixpoint trim_start_fuel (fuel : nat) ps l : list ascii :=
  match fuel with
  | O => l
  | S fuel => match list_find (λ p, p `prefix_of` l) ps with
              | Some (_, p) => trim_start_fuel fuel ps (drop (length p) l)
              | None => l
              end
  end.
Definition trim_start ps l : list ascii := trim_start_fuel (length l) ps l.
Definition trim_end ps l : list ascii := reverse (trim_start (reverse <$> ps) (reverse l)).
Definition trim_matches ps l : list ascii := trim_end ps (trim_start ps l).

Lemma trim_start_id ps l : (∀ p, p ∈ ps → ¬ p `prefix_of` l) → trim_start ps l = l.
Proof.
  intros H. unfold trim_start. destruct (length l); [done|]. cbn [trim_start_fuel].
  destruct (list_find _ _) as [[i p]|] eqn:E; [|done].
  apply list_find_Some in E as (Hp%list_elem_of_lookup_2 & Hpre & _). by apply H in Hp.
Qed.

(** Characters none of which starts or ends a removed one stay. *)
Lemma trim_matches_id ps (cs l : list ascii) : Forall (λ c, c ∈ cs) l →
  Forall (λ p, ∃ c q, p = c :: q ∧ c ∉ cs) ps → Forall (λ p, ∃ c q, reverse p = c :: q ∧ c ∉ cs) ps →
  trim_matches ps l = l.
Proof.
  intros Hl Hs He. unfold trim_matches, trim_end.
  rewrite list.Forall_forall in Hs, He. rewrite list.Forall_forall in Hl.
  assert (∀ l c q, (∀ c, c ∈ l → c ∈ cs) → c ∉ cs → ¬ c :: q `prefix_of` l) as Hno.
  { intros l' c q Hl' Hc [k ->]. apply Hc, Hl'. by left. }
  rewrite (trim_start_id ps).
  2: { intros p Hp. destruct (Hs p Hp) as (c & q & -> & Hc). by apply Hno. }
  rewrite (trim_start_id (reverse <$> ps)); [by rewrite reverse_involutive|].
  intros p (p' & -> & Hp)%list_elem_of_fmap. destruct (He p' Hp) as (c & q & -> & Hc). apply Hno; [|done].
  intros d. rewrite !elem_of_reverse. auto.
Qed.
End trim.

Definition ascii_chars (l : list nat) : list ascii := ascii_of_nat <$> l.

(** The ASCII white space, and the other characters of [White_Space]. *)
Definition ascii_whitespace : list (list ascii) := ascii_chars <$> [[32]; [9]; [10]; [13]; [11]; [12]]%nat.
Definition white_space : list (list ascii) := ascii_whitespace ++ (ascii_chars <$>
  ([[194; 133]; [194; 160]; [225; 154; 128]]
   ++ ((λ i, [226; 128; i]) <$> [128; 129; 130; 131; 132; 133; 134; 135; 136; 137; 138; 168; 169; 175])
   ++ [[226; 129; 159]; [227; 128; 128]])%nat).

Definition trim (s : string) : string := String.string_of_list_ascii (trim_matches white_space (chars s)).
(** [value.trim_matches(&[' ', '\t', '\n', '\r', '\u{000b}', '\u{000c}'])]. *)
Definition trim_ascii (s : string) : string := String.string_of_list_ascii (trim_matches ascii_whitespace (chars s)).

Lemma white_space_not_hex :
  Forall (λ p, ∃ c q, p = c :: q ∧ c ∉ hex_digits) white_space
  ∧ Forall (λ p, ∃ c q, reverse p = c :: q ∧ c ∉ hex_digits) white_space.
Proof.
  split; repeat (apply Forall_cons_2; [do 2 eexists; (split; [vm_compute; reflexivity|by apply (bool_decide_eq_true_1 (_ ∉ _))])|]);
    constructor.
Qed.

Section text.
Context `{HX : Hex}.

Lemma trim_hex b : trim (hex_encode b) = hex_encode b.
Proof.
  unfold trim. destruct white_space_not_hex as [? ?]. rewrite (trim_matches_id _ hex_digits) by (done || apply hex_encode_chars).
  apply String.string_of_list_ascii_of_string.
Qed.
Lemma trim_ascii_hex b : trim_ascii (hex_encode b) = hex_encode b.
Proof.
  unfold trim_ascii. destruct white_space_not_hex as [Hs He]. unfold white_space in Hs, He.
  apply Forall_app in Hs as [Hs _], He as [He _].
  rewrite (trim_matches_id _ hex_digits) by (done || apply hex_encode_chars).
  apply String.string_of_list_ascii_of_string.
Qed.

(* rust: node/io_utils.rs 827-835 parse_hex32 *)
Definition parse_hex32 (name value : string) : nres bytes :=
  bytes ← map_err (λ e, name +:+ ": " +:+ e)%string (hex_decode value);
  if negb (len bytes =? 32)
  then fail (name +:+ ": expected 32 bytes, got " +:+ pretty (len bytes))%string else Ok bytes.

(** [format!("{}:{}", hex::encode(op.txid), op.vout)]. *)
Definition show_outpoint (op : Outpoint) : string :=
  (hex_encode (op_txid op) +:+ ":" +:+ pretty (op_vout op))%string.

Lemma parse_hex32_encode name b : len b = 32 → parse_hex32 name (hex_encode b) = Ok b.
Proof. intros Hb. unfold parse_hex32. rewrite hex_decode_encode. cbn. by rewrite Hb. Qed.

(** ** The genesis block of the development network

    The constants are decoded when they are asked for; [None] is the panic of
    a constant that does not decode. *)

(* rust: node/genesis.rs 19-19 GENESIS_HEADER_HEX *)
Definition GENESIS_HEADER_HEX : string :=
  "0100000000000000000000000000000000000000000000000000000000000000000000006f732e615e2f43337a53e9884adba7da32257d5bb5701adc7ed0bd406f2df91340e49e6900000000ffffffffffffffffffffffffffffffffffffffffffffffffffffffffffffffff0000000000000000".
(* rust: node/genesis.rs 20-20 GENESIS_TX_HEX *)
Definition GENESIS_TX_HEX : string :=
  "01000000000000000000000000010000000000000000000000000000000000000000000000000000000000000000ffffffff00ffffffff0200407a10f35a0000000021018448b91b88d1a6fbb65e872b72c381b2a9f3ce286a232f56309667f639dd72790000000000000000020020b716a4b7f4c0fab665298ab9b8199b601ab9fa7e0a27f0713383f34cf37071a8000000000000".
(* rust: node/genesis.rs 21-22 GENESIS_CHAIN_ID_HEX *)
Definition GENESIS_CHAIN_ID_HEX : string :=
  "88f8a9acdeeb902e27aa2fdcb8c46ecf818bf68dec5273ec1bcc5084e2333103".

(** [str::strip_prefix]. *)
Definition strip_prefix (p s : string) : option string :=
  if String.prefix p s then Some (String.substring (String.length p) (String.length s - String.length p) s)
  else None.

Definition unwrap {E A} (r : result E A) : option A := match r with Ok a => Some a | Err _ => None end.

(* rust: node/genesis.rs 446-458 parse_hex32 *)
Definition genesis_parse_hex32 (name value : string) : nres bytes :=
  let value := default value (match strip_prefix "0x" value with
                              | Some v => Some v
                              | None => strip_prefix "0X" value
                              end) in
  bytes ← map_err (λ e, name +:+ ": " +:+ e)%string (hex_decode value);
  if negb (len bytes =? 32)
  then fail (name +:+ ": expected 32 bytes, got " +:+ pretty (len bytes))%string else Ok bytes.

(* rust: node/genesis.rs 434-436 decode_hex32 *)
Definition decode_hex32 (name value : string) : option bytes := unwrap (genesis_parse_hex32 name value).

(* rust: node/genesis.rs 438-444 decode_hex_exact *)
Definition decode_hex_exact (name value : string) (expected_len : Z) : option bytes :=
  bytes ← unwrap (hex_decode value);
  if negb (len bytes =? expected_len) then None else Some bytes.

(* rust: node/genesis.rs 108-116 devnet_genesis_block_bytes *)
Definition devnet_genesis_block_bytes : option bytes :=
  header ← decode_hex_exact "genesis_header" GENESIS_HEADER_HEX 116;
  tx ← decode_hex_exact "genesis_tx" GENESIS_TX_HEX 149;
  Some (encode_compact_size 1 header ++ tx).

(* rust: node/genesis.rs 118-120 devnet_genesis_chain_id *)
Definition devnet_genesis_chain_id : option bytes :=
  decode_hex32 "devnet_genesis_chain_id" GENESIS_CHAIN_ID_HEX.

(* rust: node/genesis.rs 122-125 devnet_genesis_hash *)
Definition devnet_genesis_hash `{HS : Sha3} : option bytes :=
  bytes ← devnet_genesis_block_bytes;
  unwrap (block_hash (slice 0 BLOCK_HEADER_BYTES bytes)).

(* rust: node/genesis.rs 378-384 validate_incoming_chain_id *)
Definition validate_incoming_chain_id (block_height : Z) (chain_id : bytes) : option (nres unit) :=
  let zero_chain_id := replicate 32 x00 in
  if (block_height =? 0) && negb (bool_decide (chain_id = zero_chain_id)) then
    devnet ← devnet_genesis_chain_id;
    Some (if negb (bool_decide (chain_id = devnet)) then fail "genesis chain_id mismatch" else Ok ())
  else Some (Ok ()).

(* rust: node/genesis.rs 398-417 validate_genesis_identity *)
Definition validate_genesis_identity `{HS : Sha3} (block_height : Z) (chain_id block_bytes : bytes) :
    option (nres unit) :=
  r ← validate_incoming_chain_id block_height chain_id;
  match r with
  | Err e => Some (Err e)
  | Ok _ =>
      if negb (block_height =? 0) then Some (Ok ()) else
      devnet ← devnet_genesis_chain_id;
      if negb (bool_decide (chain_id = devnet)) then Some (Ok ()) else
      if len block_bytes <? BLOCK_HEADER_BYTES then Some (Ok ()) else
      match block_hash (slice 0 BLOCK_HEADER_BYTES block_bytes) with
      | Err _ => Some (Ok ())
      | Ok hash =>
          genesis ← devnet_genesis_hash;
          Some (if negb (bool_decide (hash = genesis)) then fail "genesis_hash mismatch" else Ok ())
      end
  end.

(** Above height 0 the guard passes every block. *)
Lemma genesis_identity_above `{HS : Sha3} height chain_id b : height ≠ 0 →
  validate_genesis_identity height chain_id b = Some (Ok ()).
Proof.
  intros Hh. unfold validate_genesis_identity, validate_incoming_chain_id.
  by replace (height =? 0) with false by (symmetry; by apply Z.eqb_neq).
Qed.
End text.

(** ** A concrete instance, for witnesses *)

Definition toy_digit_val (c : ascii) : option Z :=
  p ← list_find (λ d, d = c) hex_digits; Some (Z.of_nat p.1).
Fixpoint toy_unhex (l : list ascii) : option bytes :=
  match l with
  | [] => Some []
  | hi :: lo :: l =>
      h ← toy_digit_val hi; k ← toy_digit_val lo; rest ← toy_unhex l; Some (byte_of_Z (16 * h + k) :: rest)
  | _ => None
  end.

Lemma toy_unhex_hex b : toy_unhex (hex_chars b) = Some b.
Proof.
  induction b as [|x b IH]; [done|]. rewrite hex_chars_cons. cbn [toy_unhex]. rewrite IH. by destruct x.
Qed.

Definition toy_hex_encode (b : bytes) : string := String.string_of_list_ascii (hex_chars b).
Definition toy_hex_decode (s : string) : nres bytes := ok_or (toy_unhex (chars s)) "Invalid character"%string.

Lemma toy_decode_encode b : toy_hex_decode (toy_hex_encode b) = Ok b.
Proof.
  unfold toy_hex_decode, toy_hex_encode. by rewrite String.list_ascii_of_string_of_list_ascii, toy_unhex_hex.
Qed.
Lemma toy_encode_spec b : chars (toy_hex_encode b) = hex_chars b.
Proof. unfold toy_hex_encode. apply String.list_ascii_of_string_of_list_ascii. Qed.

Definition toy_hex : Hex := {|
  hex_encode := toy_hex_encode; hex_decode := toy_hex_decode;
  hex_decode_encode := toy_decode_encode; hex_encode_spec := toy_encode_spec |}.

(** The constants decode. *)
Lemma genesis_constants : ∃ b c, devnet_genesis_block_bytes (HX := toy_hex) = Some b
  ∧ devnet_genesis_chain_id (HX := toy_hex) = Some c.
Proof. do 2 eexists. split; vm_compute; reflexivity. Qed.
