(* ===== verification/ChainState.v ===== *)
(** * The node's chain state ([chainstate.rs])

    The tip, the amount generated and the unspent outputs: how a block extends
    them, the queries by signature suite, and the form in which they are
    saved. *)

From Stdlib Require Import Ascii.
From stdpp Require Import pretty.
From S2P Require Import Prelude Bytes BTree Errors Constants Crypto WireRead CompactSize TxWire TxCodec Block Merkle Pow Subsidy.
From S2P Require Import Vault Suites Verify SigCache WorkerPool SigQueue Sighash Spend Htlc Stealth CovenantGenesis.
From S2P Require Import UtxoApply UtxoRules UtxoDeferred UtxoLedger BlockParse BlockWeight BlockDa BlockBasic ConnectBlock NodeText.

(* rust: node/chainstate.rs 31-37 ChainState *)
Record ChainState : Type := mkChainState {
  ch_has_tip : bool; ch_height : Z; ch_tip_hash : bytes; ch_already_generated : Z; ch_utxos : UtxoMap }.

(* rust: node/chainstate.rs 50-54 CanonicalAppliedBlock *)
Record CanonicalAppliedBlock : Type := mkCanonicalAppliedBlock {
  ab_hash : bytes; ab_complete_da_ids : list bytes }.

(* rust: node/chainstate.rs 56-74 ChainStateConnectSummary *)
Record ChainStateConnectSummary : Type := mkChainStateConnectSummary {
  ks_block_height : Z; ks_block_hash : bytes; ks_sum_fees : Z; ks_already_generated : Z;
  ks_already_generated_n1 : Z; ks_utxo_count : Z; ks_canonical_applied_blocks : list CanonicalAppliedBlock }.

(* rust: node/chainstate.rs 572-580 new *)
Definition ChainState_new : ChainState := mkChainState false 0 (zeros 32) 0 ∅.

(* rust: node/chainstate.rs 746-754 next_block_context *)
Definition next_block_context (s : ChainState) : nres (Z * option bytes) :=
  if negb (ch_has_tip s) then Ok (0, None) else
  if ch_height s =? u64_max then fail "height overflow"%string else
  Ok (ch_height s + 1, Some (ch_tip_hash s)).

(** The assignments to [state] are the second component. *)
(* rust: node/chainstate.rs 763-792 apply_connected_block *)
Definition apply_connected_block (block_height : Z) (tip_hash : bytes) (work_state : InMemoryChainState)
    (connect_summary : ConnectBlockBasicSummary) : ChainStateConnectSummary * ChainState :=
  let summary := mkChainStateConnectSummary block_height tip_hash (cb_sum_fees connect_summary)
    (cb_already_generated connect_summary) (cb_already_generated_n1 connect_summary)
    (cb_utxo_count connect_summary) [] in
  (summary, mkChainState true block_height tip_hash (cs_already_generated work_state) (cs_utxos work_state)).

Section chain_state.
Context `{HS : Sha3} `{HO : OpenSsl} `{HX : Hex}.

(** [None] is a panic of the genesis constants. *)
(* rust: node/chainstate.rs 649-683 connect_block_with_suite_context *)
Definition chain_connect_block_with_suite_context (block_bytes : bytes) (expected_target : option bytes)
    (prev_timestamps : option (list Z)) (chain_id : bytes) (rotation : option RotationProvider)
    (registry : option SuiteRegistry) (self : ChainState) : option (nres ChainStateConnectSummary * ChainState) :=
  match next_block_context self with
  | Err e => Some (Err e, self)
  | Ok (block_height, expected_prev_hash) =>
      guard_ok ← validate_genesis_identity block_height chain_id block_bytes;
      Some match (_ ← guard_ok;
        let work_state := mkInMemoryChainState (ch_utxos self) (ch_already_generated self) in
        let '(r, work_state) := connect_block_basic_in_memory_at_height_with_suite_context block_bytes
          expected_prev_hash expected_target block_height prev_timestamps chain_id rotation registry work_state in
        connect_summary ← stringify r;
        parsed ← stringify (parse_block_bytes block_bytes);
        tip_hash ← stringify (block_hash (pb_header_bytes parsed));
        Ok (apply_connected_block block_height tip_hash work_state connect_summary)) with
      | Err e => (Err e, self)
      | Ok (summary, state) => (Ok summary, state)
      end
  end.

(* rust: node/chainstate.rs 631-646 connect_block *)
Definition chain_connect_block (block_bytes : bytes) (expected_target : option bytes)
    (prev_timestamps : option (list Z)) (chain_id : bytes) (self : ChainState) :
    option (nres ChainStateConnectSummary * ChainState) :=
  chain_connect_block_with_suite_context block_bytes expected_target prev_timestamps chain_id None None self.
End chain_state.

(** The node has a copy of its own of the digest of [connect_block_inmem.rs]. *)
(* rust: node/chainstate.rs 28-28 UTXO_SET_HASH_DST *)
Definition NODE_UTXO_SET_HASH_DST : bytes := ascii_bytes "RUBINv1-utxo-set-hash/".

(* rust: node/chainstate.rs 991-999 utxo_set_hash *)
Definition node_push_utxo_item (buf : bytes) (item : bytes * UtxoEntry) : bytes :=
  let '(key, entry) := item in
  let buf := buf ++ key ++ u64_le (ue_value entry) ++ u16_le (ue_covenant_type entry) in
  let buf := encode_compact_size (len (ue_covenant_data entry)) buf in
  let buf := buf ++ ue_covenant_data entry ++ u64_le (ue_creation_height entry) in
  buf ++ [if ue_created_by_coinbase entry then x01 else x00].

(* rust: node/chainstate.rs 973-1002 utxo_set_hash *)
Definition node_utxo_set_hash `{HS : Sha3} (utxos : UtxoMap) : bytes :=
  let items := merge_sort key_le ((λ p : Outpoint * UtxoEntry, (op_txid p.1 ++ u32_le (op_vout p.1), p.2)) <$> map_to_list utxos) in
  let buf := NODE_UTXO_SET_HASH_DST ++ u64_le (len items) in
  sha3_256 (foldl node_push_utxo_item buf items).

(* rust: node/chainstate.rs 685-687 utxo_set_hash *)
Definition state_utxo_set_hash `{HS : Sha3} (s : ChainState) : bytes := node_utxo_set_hash (ch_utxos s).
(* rust: node/chainstate.rs 689-691 state_digest *)
Definition state_digest `{HS : Sha3} (s : ChainState) : bytes := state_utxo_set_hash s.

(* rust: node/chainstate.rs 703-705 lookup_utxo_owned *)
Definition lookup_utxo_owned (s : ChainState) (outpoint : Outpoint) : option UtxoEntry := ch_utxos s !! outpoint.

(** ** Queries by signature suite *)

(* rust: node/chainstate.rs 1004-1014 explicit_suite_id_for_utxo_entry *)
Definition explicit_suite_id_for_utxo_entry (entry : UtxoEntry) : option Z :=
  if (ue_covenant_type entry =? COV_TYPE_P2PK) && (len (ue_covenant_data entry) =? MAX_P2PK_COVENANT_DATA)
  then Some (byte_at 0 (ue_covenant_data entry)) else None.

(* rust: node/chainstate.rs 1016-1018 utxo_entry_explicitly_uses_suite *)
Definition utxo_entry_explicitly_uses_suite (entry : UtxoEntry) (suite_id : Z) : bool :=
  bool_decide (explicit_suite_id_for_utxo_entry entry = Some suite_id).

(** [Vec::dedup]: of consecutive equal elements the first stays. *)
Fixpoint dedup_from {A} `{EqDecision A} (x : A) (l : list A) : list A :=
  match l with
  | [] => [x]
  | y :: l => if decide (x = y) then dedup_from x l else x :: dedup_from y l
  end.
Definition dedup {A} `{EqDecision A} (l : list A) : list A :=
  match l with [] => [] | x :: l => dedup_from x l end.

(** The values of a [HashMap] come in an order of their own; [map_to_list] is
    one of them, and the results below do not depend on it. *)
(* rust: node/chainstate.rs 710-720 indexed_suite_ids *)
Definition indexed_suite_ids (s : ChainState) : list Z :=
  let ids := omap (λ p : Outpoint * UtxoEntry, explicit_suite_id_for_utxo_entry p.2) (map_to_list (ch_utxos s)) in
  dedup (merge_sort Z.le ids).

(** The order of the outpoints: by transaction, then by index. *)
Definition outpoint_le (a b : Outpoint) : Prop :=
  match bytes_cmp (op_txid a) (op_txid b) with Eq => op_vout a ≤ op_vout b | Lt => True | Gt => False end.
#[export] Instance outpoint_le_dec : RelDecision outpoint_le.
Proof. intros a b. unfold outpoint_le. destruct (bytes_cmp _ _); apply _. Defined.

(* rust: node/chainstate.rs 724-736 utxo_outpoints_by_suite_id *)
Definition utxo_outpoints_by_suite_id (s : ChainState) (suite_id : Z) : list Outpoint :=
  let outpoints := fst <$> filter (λ p : Outpoint * UtxoEntry, utxo_entry_explicitly_uses_suite p.2 suite_id = true)
    (map_to_list (ch_utxos s)) in
  merge_sort outpoint_le outpoints.

(* rust: node/chainstate.rs 739-744 utxo_exposure_count_by_suite_id *)
Definition utxo_exposure_count_by_suite_id (s : ChainState) (suite_id : Z) : Z :=
  len (filter (λ p : Outpoint * UtxoEntry, utxo_entry_explicitly_uses_suite p.2 suite_id = true)
         (map_to_list (ch_utxos s))).

(** ** Extending the chain state *)

(** The tip of a chain that has none is the one of [ChainState_new]. *)
Record chain_wf (s : ChainState) : Prop := mkChainWf {
  wf_height : is_u 64 (ch_height s);
  wf_tip : len (ch_tip_hash s) = 32;
  wf_no_tip : ch_has_tip s = false → ch_height s = 0 ∧ ch_tip_hash s = zeros 32;
  wf_values : utxo_values (ch_utxos s) }.

Definition mem_state (s : ChainState) : InMemoryChainState := mkInMemoryChainState (ch_utxos s) (ch_already_generated s).
Definition next_height (s : ChainState) : Z := if ch_has_tip s then ch_height s + 1 else 0.

(** The context in which the next block is connected. *)
Definition next_ctx (s : ChainState) (target : option bytes) (times : option (list Z)) (chain_id : bytes)
    (rotation : option RotationProvider) (registry : option SuiteRegistry) : ConnectBlockContext :=
  mkConnectBlockContext (if ch_has_tip s then Some (ch_tip_hash s) else None) target (next_height s) times chain_id
    rotation registry.

Section extend.
Context `{HS : Sha3} `{HO : OpenSsl} `{HX : Hex}.

(** The state once the block is the tip. *)
Definition extended (ctx : ConnectBlockContext) (s : ChainState) (pb : ParsedBlock) (m' : UtxoMap) : ChainState :=
  mkChainState true (next_height s) (sha3_256 (pb_header_bytes pb))
    (ch_already_generated s + subsidy_at ctx (mem_state s)) m'.

Lemma next_context_Ok s h prev : next_block_context s = Ok (h, prev) ↔
  (ch_has_tip s = true → ch_height s ≠ u64_max) ∧ h = next_height s
  ∧ prev = (if ch_has_tip s then Some (ch_tip_hash s) else None).
Proof.
  unfold next_block_context, next_height. destruct (ch_has_tip s); cbn [negb].
  - destruct (ch_height s =? u64_max) eqn:E; split; try done.
    + intros (H & _). by specialize (H eq_refl) as ?%Z.eqb_neq; congruence.
    + intros [= <- <-]. split; [intros _; by apply Z.eqb_neq|done].
    + by intros (_ & -> & ->).
  - split; [by intros [= <- <-]|by intros (_ & -> & ->)].
Qed.

Lemma next_height_u64 s h prev : chain_wf s → next_block_context s = Ok (h, prev) → is_u 64 h.
Proof.
  intros [[Hh Hm] _ _ _] (Hn & -> & _)%next_context_Ok. unfold next_height, is_u, u64_max in *.
  destruct (ch_has_tip s); [specialize (Hn eq_refl)|]; lia.
Qed.

Lemma enc_header_len pb : block_valid pb → len (pb_header_bytes pb) = BLOCK_HEADER_BYTES.
Proof.
  intros ((? & ? & ? & ? & ? & ?) & -> & _). unfold enc_header, u32_le, u64_le.
  rewrite !length_app, !le_encode_length. unfold BLOCK_HEADER_BYTES. lia.
Qed.

(** The next block of the chain: a block that [connects] to its state. *)
Lemma chain_connect_Ok b target times chain_id rotation registry s sum s' :
  len b ≤ isize_max → chain_wf s →
  chain_connect_block_with_suite_context b target times chain_id rotation registry s = Some (Ok sum, s') →
  let ctx := next_ctx s target times chain_id rotation registry in
  ∃ pb m' fees, parse_block_bytes b = Ok pb ∧ block_valid pb ∧ b = enc_block pb ∧ is_u 64 (next_height s)
    ∧ validate_genesis_identity (next_height s) chain_id b = Some (Ok ())
    ∧ connects ctx (mem_state s) pb m' fees ∧ s' = extended ctx s pb m'
    ∧ ks_block_hash sum = sha3_256 (pb_header_bytes pb) ∧ ks_block_height sum = next_height s
    ∧ ks_sum_fees sum = fees ∧ ks_already_generated_n1 sum = ch_already_generated s'
    ∧ ks_utxo_count sum = Z.of_nat (size m').
Proof.
  intros Hb Hwf. unfold chain_connect_block_with_suite_context.
  destruct (next_block_context s) as [[h prev]|e] eqn:Hn; [|by intros [=]].
  pose proof (next_height_u64 s h prev Hwf Hn) as Hh. apply next_context_Ok in Hn as (_ & -> & ->).
  intros H. apply bind_Some in H as (g & Hg & H). injection H as H.
  destruct g as [[]|e]; [cbn [mbind result_bind] in H|discriminate H].
  unfold connect_block_basic_in_memory_at_height_with_suite_context in H.
  destruct (connect_block_basic_in_memory_with_context _ _ _) as [[cs|e] w] eqn:Hc; [|discriminate H].
  pose proof (connect_Ok (next_ctx s target times chain_id rotation registry) b (mem_state s) cs w Hb Hh
    (wf_values s Hwf)) as Hcon. apply Hcon in Hc as (pb & m' & fees & Hv & Hl & Hbe & Hcn & -> & ->). clear Hcon.
  cbn [stringify map_err mbind result_bind] in H.
  pose proof (proj2 (parse_block_Ok b pb Hb) (conj Hv (conj Hl Hbe))) as Hp.
  rewrite Hp in H. cbn [stringify map_err mbind result_bind] in H.
  unfold block_hash in H. rewrite (enc_header_len pb Hv), Z.eqb_refl in H. cbn in H. injection H as <- <-.
  exists pb, m', fees. by split_and!.
Qed.

(** A rejected block leaves the chain state as it was. *)
Lemma chain_connect_Err b target times chain_id rotation registry s e s' :
  chain_connect_block_with_suite_context b target times chain_id rotation registry s = Some (Err e, s') → s' = s.
Proof.
  unfold chain_connect_block_with_suite_context. destruct (next_block_context s) as [[h prev]|e']; [|by intros [= _ <-]].
  intros (g & _ & H)%bind_Some. injection H as H. revert H.
  destruct (_ ← g; _) as [[? ?]|?]; [done|by intros [= _ <-]].
Qed.
End extend.

(** ** The index by suite *)

Section dedup.
Implicit Types (x y z : Z) (l : list Z).

Lemma elem_of_dedup_from x l y : y ∈ dedup_from x l ↔ y ∈ x :: l.
Proof.
  revert x; induction l as [|z l IH]; intros x; cbn [dedup_from]; [done|].
  case_decide as E; rewrite ?elem_of_cons, IH, ?elem_of_cons; [subst z; tauto|done].
Qed.
Lemma elem_of_dedup l y : y ∈ dedup l ↔ y ∈ l.
Proof. destruct l; [done|apply elem_of_dedup_from]. Qed.

(** On a sorted list, [dedup] leaves no duplicate. *)
Lemma dedup_from_sorted x l : StronglySorted Z.le (x :: l) → StronglySorted Z.lt (dedup_from x l).
Proof.
  revert x; induction l as [|z l IH]; intros x Hs; cbn [dedup_from]; [repeat constructor|].
  apply StronglySorted_inv in Hs as [Hs Hx]. apply list.Forall_cons in Hx as [Hz Hx].
  case_decide as E; [subst z; by apply IH|]. constructor; [by apply IH|].
  apply list.Forall_forall. intros y Hy. apply elem_of_dedup_from in Hy as [->|Hy]%elem_of_cons; [lia|].
  apply StronglySorted_inv in Hs as [_ Hz']. rewrite list.Forall_forall in Hz'. specialize (Hz' y Hy). lia.
Qed.
Lemma dedup_sorted l : StronglySorted Z.le l → StronglySorted Z.lt (dedup l).
Proof. destruct l; [constructor|apply dedup_from_sorted]. Qed.
End dedup.

#[export] Instance outpoint_le_total : Total outpoint_le.
Proof.
  intros [a i] [b j]. unfold outpoint_le. simpl. rewrite (bytes_cmp_antisym a b).
  destruct (bytes_cmp a b); simpl; lia || auto.
Qed.
#[export] Instance outpoint_le_trans : Transitive outpoint_le.
Proof.
  intros [a i] [b j] [c k]. unfold outpoint_le. simpl.
  destruct (bytes_cmp a b) eqn:H1; [apply bytes_cmp_eq in H1 as ->|..]; [| |done].
  - destruct (bytes_cmp b c); lia || auto.
  - intros _. destruct (bytes_cmp b c) eqn:H2; [apply bytes_cmp_eq in H2 as ->; by rewrite H1| |done].
    by rewrite (bytes_cmp_lt_trans a b c).
Qed.

Section index.
Context (s : ChainState).

(** The outputs bound to a suite. *)
Definition bound_to (suite_id : Z) (op : Outpoint) : Prop :=
  ∃ e, ch_utxos s !! op = Some e ∧ explicit_suite_id_for_utxo_entry e = Some suite_id.

Lemma elem_of_outpoints suite_id op : op ∈ utxo_outpoints_by_suite_id s suite_id ↔ bound_to suite_id op.
Proof.
  unfold utxo_outpoints_by_suite_id, bound_to. rewrite merge_sort_Permutation, list_elem_of_fmap. split.
  - intros ([op' e] & -> & [Hu He]%list_elem_of_filter). apply elem_of_map_to_list in He. exists e.
    split; [done|]. by apply bool_decide_eq_true in Hu.
  - intros (e & He & Hu). exists (op, e). split; [done|]. apply list_elem_of_filter. split.
    + by apply bool_decide_eq_true.
    + by apply elem_of_map_to_list.
Qed.

Lemma NoDup_outpoints suite_id : NoDup (utxo_outpoints_by_suite_id s suite_id).
Proof.
  unfold utxo_outpoints_by_suite_id. rewrite merge_sort_Permutation.
  pose proof (NoDup_fst_map_to_list (ch_utxos s)) as H. revert H.
  generalize (map_to_list (ch_utxos s)). intros l. induction l as [|p l IH]; [done|]. intros H.
  rewrite fmap_cons in H. apply list.NoDup_cons in H as [Hp H]. rewrite filter_cons.
  case_decide; [|by apply IH]. rewrite fmap_cons. constructor; [|by apply IH].
  intros (q & Hq & [_ Hin]%list_elem_of_filter)%list_elem_of_fmap. apply Hp. apply list_elem_of_fmap. eauto.
Qed.

Lemma exposure_outpoints suite_id : utxo_exposure_count_by_suite_id s suite_id = len (utxo_outpoints_by_suite_id s suite_id).
Proof.
  unfold utxo_exposure_count_by_suite_id, utxo_outpoints_by_suite_id. by rewrite merge_sort_Permutation, length_fmap.
Qed.

Lemma elem_of_indexed suite_id : suite_id ∈ indexed_suite_ids s ↔ ∃ op, bound_to suite_id op.
Proof.
  unfold indexed_suite_ids, bound_to. rewrite elem_of_dedup, merge_sort_Permutation, list_elem_of_omap. split.
  - intros ([op e] & He & Hs). apply elem_of_map_to_list in He. by exists op, e.
  - intros (op & e & He & Hs). exists (op, e). split; [by apply elem_of_map_to_list|done].
Qed.

(** The queries by signature suite agree with the unspent outputs and with
    each other. The outpoints of a suite are exactly the outputs whose
    single-key covenant names it, each once, in the order of transaction and
    index; their number is the exposure; and the suites reported in use are,
    in increasing order and without repetition, those whose exposure is not
    zero: a suite absent from the report can be retired without stranding an
    output that names it. *)
Theorem suite_index_correct suite_id :
  (∀ op, op ∈ utxo_outpoints_by_suite_id s suite_id ↔ bound_to suite_id op)
  ∧ NoDup (utxo_outpoints_by_suite_id s suite_id)
  ∧ StronglySorted outpoint_le (utxo_outpoints_by_suite_id s suite_id)
  ∧ utxo_exposure_count_by_suite_id s suite_id = len (utxo_outpoints_by_suite_id s suite_id)
  ∧ (suite_id ∈ indexed_suite_ids s ↔ 0 < utxo_exposure_count_by_suite_id s suite_id)
  ∧ StronglySorted Z.lt (indexed_suite_ids s).
Proof.
  split_and!.
  - apply elem_of_outpoints.
  - apply NoDup_outpoints.
  - apply (StronglySorted_merge_sort _).
  - apply exposure_outpoints.
  - rewrite elem_of_indexed, exposure_outpoints. setoid_rewrite <- elem_of_outpoints.
    destruct (utxo_outpoints_by_suite_id s suite_id) as [|op l].
    + split; [by intros (? & ?%elem_of_nil)|simpl; lia].
    + split; [simpl; lia|]. intros _. exists op. by left.
  - apply dedup_sorted, (StronglySorted_merge_sort _).
Qed.
End index.
