(* ===== verification/ChainDisk.v ===== *)
(** * The saved chain state ([chainstate.rs])

    The record that the node writes and reads back: hashes and covenants in
    hexadecimal, outputs in a fixed order.  The JSON text itself is written
    and read by [serde]; what the node decides about its tokens (version,
    supply, missing and repeated fields) is modelled on the tokens. *)

From Stdlib Require Import Ascii.
From stdpp Require Import pretty.
From S2P Require Import Prelude Bytes BTree Errors Constants Crypto WireRead CompactSize TxWire TxCodec Block.
From S2P Require Import Vault Suites Verify SigCache WorkerPool SigQueue Sighash Spend Htlc Stealth CovenantGenesis.
From S2P Require Import UtxoApply UtxoRules UtxoDeferred UtxoLedger BlockParse BlockWeight BlockDa BlockBasic ConnectBlock NodeText ChainState.

(* rust: node/chainstate.rs 26-26 CHAIN_STATE_DISK_VERSION_V1 *)
Definition CHAIN_STATE_DISK_VERSION_V1 : Z := 1.
(* rust: node/chainstate.rs 27-27 CHAIN_STATE_DISK_VERSION *)
Definition CHAIN_STATE_DISK_VERSION : Z := 2.

(* rust: node/chainstate.rs 561-569 UtxoDiskEntry *)
Record UtxoDiskEntry : Type := mkUtxoDiskEntry {
  de_txid : string; de_covenant_data : string; de_value : Z; de_creation_height : Z; de_vout : Z;
  de_covenant_type : Z; de_created_by_coinbase : bool }.

(* rust: node/chainstate.rs 76-85 ChainStateDisk *)
Record ChainStateDisk : Type := mkChainStateDisk {
  dk_tip_hash : string; dk_utxos : list UtxoDiskEntry; dk_height : Z; dk_already_generated : Z;
  dk_version : Z; dk_has_tip : bool }.

(** [str::cmp]: the order of the bytes. *)
Definition str_cmp (a b : string) : comparison := bytes_cmp (ascii_bytes a) (ascii_bytes b).
Definition disk_entry_le (a b : UtxoDiskEntry) : Prop :=
  match str_cmp (de_txid a) (de_txid b) with Eq => de_vout a ≤ de_vout b | Lt => True | Gt => False end.
#[export] Instance disk_entry_le_dec : RelDecision disk_entry_le.
Proof. intros a b. unfold disk_entry_le. destruct (str_cmp _ _); apply _. Defined.

Section disk.
Context `{HX : Hex}.

Definition disk_entry (p : Outpoint * UtxoEntry) : UtxoDiskEntry :=
  let '(op, entry) := p in
  mkUtxoDiskEntry (hex_encode (op_txid op)) (hex_encode (ue_covenant_data entry)) (ue_value entry)
    (ue_creation_height entry) (op_vout op) (ue_covenant_type entry) (ue_created_by_coinbase entry).

(* rust: node/chainstate.rs 944-971 state_to_disk *)
Definition state_to_disk (s : ChainState) : nres ChainStateDisk :=
  let utxos := merge_sort disk_entry_le (disk_entry <$> map_to_list (ch_utxos s)) in
  Ok (mkChainStateDisk (hex_encode (ch_tip_hash s)) utxos (ch_height s) (ch_already_generated s)
        CHAIN_STATE_DISK_VERSION (ch_has_tip s)).

(* rust: node/chainstate.rs 1064-1070 parse_hex *)
Definition parse_hex (name value : string) : nres bytes :=
  let trimmed := trim value in
  if negb (len (chars trimmed) mod 2 =? 0) then fail (name +:+ ": odd-length hex")%string else
  map_err (λ e, name +:+ ": " +:+ e)%string (hex_decode trimmed).

(** The body of the loop over the saved outputs. *)
(* rust: node/chainstate.rs 1030-1051 chain_state_from_disk *)
Definition read_disk_entry (utxos : UtxoMap) (item : UtxoDiskEntry) : nres UtxoMap :=
  txid ← parse_hex32 "utxo.txid" (de_txid item);
  covenant_data ← parse_hex "utxo.covenant_data" (de_covenant_data item);
  let outpoint := mkOutpoint txid (de_vout item) in
  match utxos !! outpoint with
  | Some _ => fail ("duplicate utxo outpoint: " +:+ de_txid item +:+ ":" +:+ pretty (de_vout item))%string
  | None => Ok (<[outpoint := mkUtxoEntry (de_value item) (de_covenant_type item) covenant_data
                                (de_creation_height item) (de_created_by_coinbase item)]> utxos)
  end.

Definition unsupported_version (version : Z) : string :=
  ("CHAINSTATE_SCHEMA: unsupported version " +:+ pretty version)%string.

(* rust: node/chainstate.rs 1020-1062 chain_state_from_disk *)
Definition chain_state_from_disk (disk : ChainStateDisk) : nres ChainState :=
  if negb (dk_version disk =? CHAIN_STATE_DISK_VERSION_V1) && negb (dk_version disk =? CHAIN_STATE_DISK_VERSION)
  then Err (unsupported_version (dk_version disk)) else
  tip_hash ← parse_hex32 "tip_hash" (dk_tip_hash disk);
  utxos ← try_fold read_disk_entry ∅ (dk_utxos disk);
  Ok (mkChainState (dk_has_tip disk) (dk_height disk) tip_hash (dk_already_generated disk) utxos).

Definition has_edge (value : string) : bool := negb (bool_decide (trim_ascii value = value)).

(* rust: node/chainstate.rs 911-919 chainstate_has_edge_ascii_whitespace *)
Definition chainstate_has_edge_ascii_whitespace (disk : ChainStateDisk) : bool :=
  has_edge (dk_tip_hash disk)
  || existsb (λ item, has_edge (de_txid item) || has_edge (de_covenant_data item)) (dk_utxos disk).
End disk.

(** ** The tokens of the saved record *)

(* rust: node/chainstate.rs 101-106 ChainStateScalarToken *)
Inductive ChainStateScalarToken : Type :=
  | TNull | TUnsigned (value : Z) | TString (value : string) (unescaped : bool) | TOther.

(* rust: node/chainstate.rs 109-111 is_null *)
Definition is_null (t : ChainStateScalarToken) : bool := match t with TNull => true | _ => false end.

(* rust: node/chainstate.rs 234-246 chainstate_version_presence_error *)
Definition chainstate_version_presence_error (version_seen version_duplicate version_null : bool) : option string :=
  if negb version_seen || version_null then Some "CHAINSTATE_SCHEMA: missing version"%string
  else if version_duplicate then Some "CHAINSTATE_SCHEMA: duplicate version"%string
  else None.

(* rust: node/chainstate.rs 248-260 chainstate_supply_presence_error *)
Definition chainstate_supply_presence_error (supply_seen supply_duplicate supply_null : bool) : option string :=
  if negb supply_seen || supply_null then Some "CHAINSTATE_SCHEMA: missing already_generated"%string
  else if supply_duplicate then Some "CHAINSTATE_SCHEMA: duplicate already_generated"%string
  else None.

Definition CHAINSTATE_INVALID_VERSION : string :=
  "CHAINSTATE_SCHEMA: version must be a canonical unsigned JSON integer through u32".

(* rust: node/chainstate.rs 209-232 validate_chainstate_version *)
Definition validate_chainstate_version (version_seen version_duplicate version_null : bool)
    (version : option ChainStateScalarToken) : nres Z :=
  match chainstate_version_presence_error version_seen version_duplicate version_null with
  | Some error => Err error
  | None =>
      version ← match version with
                | Some (TUnsigned value) => if value <=? u32_max then Ok value else Err CHAINSTATE_INVALID_VERSION
                | _ => Err CHAINSTATE_INVALID_VERSION
                end;
      if negb (version =? CHAIN_STATE_DISK_VERSION_V1) && negb (version =? CHAIN_STATE_DISK_VERSION)
      then Err (unsupported_version version) else Ok version
  end.

(** ** The round trip *)

(** What the fields of the Rust types hold. *)
Definition entry_range (op : Outpoint) (e : UtxoEntry) : Prop :=
  len (op_txid op) = 32 ∧ is_u 32 (op_vout op) ∧ is_u 64 (ue_value e) ∧ is_u 16 (ue_covenant_type e) ∧ is_u 64 (ue_creation_height e).
Definition utxo_ranges (m : UtxoMap) : Prop := map_Forall entry_range m.
Record disk_wf (s : ChainState) : Prop := mkDiskWf {
  dw_tip : len (ch_tip_hash s) = 32;
  dw_txids : ∀ op e, ch_utxos s !! op = Some e → len (op_txid op) = 32 }.

Section roundtrip.
Context `{HX : Hex}.

Lemma parse_hex_encode name b : parse_hex name (hex_encode b) = Ok b.
Proof.
  unfold parse_hex. rewrite trim_hex. rewrite (proj1 (hex_encode_chars b)).
  replace ((2 * len b) mod 2) with 0 by (symmetry; rewrite Z.mul_comm; apply Z_mod_mult).
  cbn. by rewrite hex_decode_encode.
Qed.

Lemma read_disk_entry_run (m : UtxoMap) op e : len (op_txid op) = 32 → m !! op = None →
  read_disk_entry m (disk_entry (op, e)) = Ok (<[op := e]> m).
Proof.
  intros Ht Hop. unfold read_disk_entry, disk_entry. cbn [de_txid de_covenant_data de_vout de_value
    de_creation_height de_covenant_type de_created_by_coinbase].
  rewrite parse_hex32_encode by done. run_bind. rewrite parse_hex_encode. run_bind.
  replace (mkOutpoint (op_txid op) (op_vout op)) with op by (by destruct op).
  rewrite Hop. by destruct e.
Qed.

Lemma read_disk_entries_run l (m : UtxoMap) : NoDup l.*1 → (∀ p, p ∈ l → len (op_txid p.1) = 32 ∧ m !! p.1 = None) →
  try_fold read_disk_entry m (disk_entry <$> l) = Ok (list_to_map l ∪ m).
Proof.
  revert m; induction l as [|[op e] l IH]; intros m Hnd Hl; cbn [fmap list_fmap try_fold list_to_map foldr].
  { by rewrite (left_id_L ∅ (∪)). }
  rewrite fmap_cons in Hnd. apply list.NoDup_cons in Hnd as [Hop Hnd].
  destruct (Hl (op, e)) as [Ht Hm]; [by left|]. cbn [fst] in *.
  rewrite read_disk_entry_run by done. run_bind. rewrite IH; [|done|].
  - f_equal. cbn [snd]. rewrite <- insert_union_l. symmetry. by apply insert_union_r, not_elem_of_list_to_map_1.
  - intros p Hp. destruct (Hl p) as [? ?]; [by right|]. split; [done|].
    rewrite lookup_insert_ne; [done|]. intros ->. apply Hop. apply list_elem_of_fmap. eauto.
Qed.

(** The record written for a state reads back as that state, every output
    included, whatever the order in which the map gives them; and none of its
    hexadecimal strings has white space at an end, so the check for the
    canonical form passes. *)
Lemma chain_state_disk_run s : disk_wf s →
  ∃ d, state_to_disk s = Ok d ∧ chain_state_from_disk d = Ok s
    ∧ chainstate_has_edge_ascii_whitespace d = false.
Proof.
  intros [Ht Hids]. eexists. split; [reflexivity|]. split.
  - unfold chain_state_from_disk. cbn [dk_version dk_tip_hash dk_utxos dk_has_tip dk_height dk_already_generated].
    change (negb _ && negb _) with false. cbv iota. rewrite parse_hex32_encode by done. run_bind.
    set (sorted := merge_sort _ _). assert (sorted ≡ₚ disk_entry <$> map_to_list (ch_utxos s)) as Hs
      by apply merge_sort_Permutation. clearbody sorted. apply Permutation_map_inv in Hs as (l & -> & Hl).
    change (List.map disk_entry l) with (disk_entry <$> l). rewrite read_disk_entries_run.
    + run_bind. rewrite (right_id_L ∅ (∪)), <- (list_to_map_proper _ _ (NoDup_fst_map_to_list _) Hl), list_to_map_to_list. by destruct s.
    + rewrite <- Hl. apply NoDup_fst_map_to_list.
    + intros [op e] Hp. rewrite <- Hl in Hp. apply elem_of_map_to_list in Hp.
      split; [by eapply Hids|apply lookup_empty].
  - unfold chainstate_has_edge_ascii_whitespace. cbn [dk_tip_hash dk_utxos].
    assert (∀ b, has_edge (hex_encode b) = false) as He.
    { intros b. unfold has_edge. rewrite trim_ascii_hex. by rewrite bool_decide_eq_true_2. }
    rewrite He. cbn [orb]. apply not_true_is_false. intros (d & Hd & Hb)%existsb_exists.
    apply list_elem_of_In in Hd. rewrite merge_sort_Permutation in Hd.
    apply list_elem_of_fmap in Hd as ([op e] & -> & _). unfold disk_entry in Hb. cbn [de_txid de_covenant_data] in Hb.
    by rewrite !He in Hb.
Qed.
End roundtrip.

(** Two saved outputs. *)
Definition demo_disk_state : ChainState :=
  mkChainState true 7 (replicate 32 x11) 500
    (list_to_map [(mkOutpoint (replicate 32 x22) 1, mkUtxoEntry 40 0 [x01; xab] 3 true);
                  (mkOutpoint (replicate 32 x22) 0, mkUtxoEntry 41 0 [] 4 false)]).
