(* ===== verification/Undo.v ===== *)
(** * Disconnecting a block ([undo.rs])

    The undo record of a block lists, per transaction, the outputs of the
    previous state it spent.  [disconnect_block] replays a block backwards
    with it.  The main result: disconnecting the block that was connected last
    restores the state before it. *)

From stdpp Require Import pretty.
From S2P Require Import Prelude Bytes BTree Errors Constants Crypto WireRead CompactSize TxWire TxCodec Block Merkle Pow Subsidy.
From S2P Require Import Vault Suites Verify SigCache WorkerPool SigQueue Sighash Spend Htlc Stealth CovenantGenesis.
From S2P Require Import UtxoApply UtxoRules UtxoDeferred UtxoLedger BlockParse BlockWeight BlockDa BlockBasic ConnectBlock NodeText ChainState.

(* rust: node/undo.rs 20-23 SpentUndo *)
Record SpentUndo : Type := mkSpentUndo { su_outpoint : Outpoint; su_entry : UtxoEntry }.
(* rust: node/undo.rs 26-28 TxUndo *)
Record TxUndo : Type := mkTxUndo { tu_spent : list SpentUndo }.
(* rust: node/undo.rs 31-35 BlockUndo *)
Record BlockUndo : Type := mkBlockUndo {
  bu_block_height : Z; bu_previous_already_generated : Z; bu_txs : list TxUndo }.

(* rust: node/undo.rs 38-46 ChainStateDisconnectSummary *)
Record ChainStateDisconnectSummary : Type := mkChainStateDisconnectSummary {
  ds_disconnected_height : Z; ds_block_hash : bytes; ds_new_height : Z; ds_new_tip_hash : bytes;
  ds_has_tip : bool; ds_already_generated : Z; ds_utxo_count : Z }.

(* rust: node/undo.rs 52-54 is_spendable_output *)
Definition is_spendable_output (covenant_type : Z) : bool :=
  negb (covenant_type =? COV_TYPE_ANCHOR) && negb (covenant_type =? COV_TYPE_DA_COMMIT).

(** The outpoints of the spendable outputs, in order: the body shared by the
    loops over [tx.outputs.iter().enumerate()]. *)
Definition spendable_outpoints (txid : bytes) (outs : list TxOutput) : list Outpoint :=
  omap (λ p : Z * TxOutput, if is_spendable_output (covenant_type p.2)
                            then Some (mkOutpoint txid (low_u32 p.1)) else None) (enumerate outs).

(** The transactions of a block with their ids and, from [0], their indexes. *)
Definition indexed_txs (pb : ParsedBlock) : list (Z * (Tx * bytes)) := enumerate (zip (pb_txs pb) (pb_txids pb)).

Section undo.
Context `{HS : Sha3} `{HX : Hex}.

(** ** Building the record *)

(** The sets [spent_prev_outpoints] and [block_outputs], and the vector [spent]. *)
(* rust: node/undo.rs 78-102 build_block_undo *)
Definition undo_input (utxos : UtxoMap) (s : gset Outpoint * gset Outpoint * list SpentUndo) (input : TxInput) :
    nres (gset Outpoint * gset Outpoint * list SpentUndo) :=
  let '(spent_prev_outpoints, block_outputs, spent) := s in
  let op := mkOutpoint (prev_txid input) (prev_vout input) in
  if decide (op ∈ block_outputs) then Ok (spent_prev_outpoints, block_outputs ∖ {[op]}, spent) else
  entry ← ok_or (utxos !! op) ("undo missing utxo for " +:+ show_outpoint op)%string;
  if decide (op ∈ spent_prev_outpoints)
  then fail ("undo duplicate prev-state spend for " +:+ show_outpoint op)%string else
  Ok ({[op]} ∪ spent_prev_outpoints, block_outputs, spent ++ [mkSpentUndo op entry]).

(* rust: node/undo.rs 74-114 build_block_undo *)
Definition undo_tx (utxos : UtxoMap) (s : gset Outpoint * gset Outpoint * list TxUndo) (x : Z * (Tx * bytes)) :
    nres (gset Outpoint * gset Outpoint * list TxUndo) :=
  let '(spent_prev_outpoints, block_outputs, tx_undos) := s in
  let '(i, (tx, txid)) := x in
  '(spent_prev_outpoints, block_outputs, spent) ←
    (if 0 <? i then try_fold (undo_input utxos) (spent_prev_outpoints, block_outputs, []) (inputs tx)
     else Ok (spent_prev_outpoints, block_outputs, []));
  let block_outputs := foldl (λ b op, {[op]} ∪ b) block_outputs (spendable_outpoints txid (outputs tx)) in
  Ok (spent_prev_outpoints, block_outputs, tx_undos ++ [mkTxUndo spent]).

(* rust: node/undo.rs 59-121 build_block_undo *)
Definition build_block_undo (prev_state : ChainState) (block_bytes : bytes) (block_height : Z) : nres BlockUndo :=
  pb ← stringify (parse_block_bytes block_bytes);
  if negb (len (pb_txs pb) =? len (pb_txids pb)) then fail "parsed block txid length mismatch"%string else
  '(_, _, tx_undos) ← try_fold (undo_tx (ch_utxos prev_state)) (∅, ∅, []) (indexed_txs pb);
  Ok (mkBlockUndo block_height (ch_already_generated prev_state) tx_undos).

(** ** Replaying a block backwards *)

(** The sets [created_outpoints] and [same_block_spent_outpoints]. *)
(* rust: node/undo.rs 162-183 disconnect_block *)
Definition note_same_block_spends (s : gset Outpoint * gset Outpoint) (x : Z * (Tx * bytes)) :
    gset Outpoint * gset Outpoint :=
  let '(created_outpoints, same_block_spent_outpoints) := s in
  let '(tx_index, (tx, txid)) := x in
  let same_block_spent_outpoints :=
    if 0 <? tx_index then
      foldl (λ spent input,
        let op := mkOutpoint (prev_txid input) (prev_vout input) in
        if decide (op ∈ created_outpoints) then {[op]} ∪ spent else spent) same_block_spent_outpoints (inputs tx)
    else same_block_spent_outpoints in
  (foldl (λ b op, {[op]} ∪ b) created_outpoints (spendable_outpoints txid (outputs tx)), same_block_spent_outpoints).

(** [HashMap::remove] returns whether the key was there. *)
(* rust: node/undo.rs 193-210 disconnect_block *)
Definition remove_created (same_block_spent_outpoints : gset Outpoint) (work : UtxoMap) (created_outpoint : Outpoint) :
    nres UtxoMap :=
  if bool_decide (work !! created_outpoint = None)
     && negb (bool_decide (created_outpoint ∈ same_block_spent_outpoints))
  then fail ("disconnect missing created output for " +:+ show_outpoint created_outpoint)%string
  else Ok (delete created_outpoint work).

(* rust: node/undo.rs 213-229 disconnect_block *)
Definition restore_spent (s : UtxoMap * gset Outpoint) (spent : SpentUndo) : nres (UtxoMap * gset Outpoint) :=
  let '(work, restored_outpoints) := s in
  if decide (su_outpoint spent ∈ restored_outpoints)
  then fail ("undo duplicate restore entry for " +:+ show_outpoint (su_outpoint spent))%string else
  match work !! su_outpoint spent with
  | Some _ => fail ("undo restore target already present for " +:+ show_outpoint (su_outpoint spent))%string
  | None => Ok (<[su_outpoint spent := su_entry spent]> work, {[su_outpoint spent]} ∪ restored_outpoints)
  end.

(* rust: node/undo.rs 188-230 disconnect_block *)
Definition disconnect_tx (same_block_spent_outpoints : gset Outpoint) (s : UtxoMap * gset Outpoint)
    (x : Tx * bytes * TxUndo) : nres (UtxoMap * gset Outpoint) :=
  let '(work, restored_outpoints) := s in
  let '(tx, txid, undo) := x in
  work ← try_fold (remove_created same_block_spent_outpoints) work (spendable_outpoints txid (outputs tx));
  try_fold restore_spent (work, restored_outpoints) (tu_spent undo).

(** The ledger before the block's transactions. *)
(* rust: node/undo.rs 160-230 disconnect_block *)
Definition disconnect_utxos (pb : ParsedBlock) (undo : BlockUndo) (utxos : UtxoMap) : nres UtxoMap :=
  let '(_, same_block_spent_outpoints) := foldl note_same_block_spends (∅, ∅) (indexed_txs pb) in
  s ← try_fold (disconnect_tx same_block_spent_outpoints) (utxos, ∅)
        (reverse (zip (zip (pb_txs pb) (pb_txids pb)) (bu_txs undo)));
  Ok s.1.

(** The new tip, and the report. *)
(* rust: node/undo.rs 231-252 disconnect_block *)
Definition disconnected (pb : ParsedBlock) (undo : BlockUndo) (bh : bytes) (work : UtxoMap) (self : ChainState) :
    ChainStateDisconnectSummary * ChainState :=
  let self :=
    if ch_height self =? 0
    then mkChainState false 0 (zeros 32) (bu_previous_already_generated undo) work
    else mkChainState (ch_has_tip self) (ch_height self - 1) (bh_prev_block_hash (pb_header pb))
           (bu_previous_already_generated undo) work in
  (mkChainStateDisconnectSummary (bu_block_height undo) bh (ch_height self) (ch_tip_hash self) (ch_has_tip self)
     (ch_already_generated self) (Z.of_nat (size (ch_utxos self))), self).

Definition height_mismatch (chainstate undo : Z) : string :=
  ("disconnect height mismatch: chainstate=" +:+ pretty chainstate +:+ " undo=" +:+ pretty undo)%string.

(* rust: node/undo.rs 131-252 disconnect_block *)
Definition disconnect_block (block_bytes : bytes) (undo : BlockUndo) : ST ChainState string ChainStateDisconnectSummary :=
  λ self,
  match (if negb (ch_has_tip self) then fail "chainstate has no tip"%string else
         if negb (ch_height self =? bu_block_height undo)
         then Err (height_mismatch (ch_height self) (bu_block_height undo)) else
         pb ← stringify (parse_block_bytes block_bytes);
         if negb (len (pb_txs pb) =? len (pb_txids pb)) then fail "parsed block txid length mismatch"%string else
         if negb (len (bu_txs undo) =? len (pb_txs pb)) then fail "undo tx count mismatch"%string else
         bh ← stringify (block_hash (pb_header_bytes pb));
         if negb (bool_decide (ch_tip_hash self = bh)) then fail "disconnect block is not current tip"%string else
         work ← disconnect_utxos pb undo (ch_utxos self);
         Ok (disconnected pb undo bh work self)) with
  | Err e => (Err e, self)
  | Ok (summary, self) => (Ok summary, self)
  end.
End undo.

(** ** The ledger as a sequence of changes *)

Definition spent_ops (ix : Z * (Tx * bytes)) : list Outpoint :=
  if 0 <? ix.1 then outpoint_of <$> inputs ix.2.1 else [].
Definition created_ops (ix : Z * (Tx * bytes)) : list Outpoint := spendable_outpoints ix.2.2 (outputs ix.2.1).
Definition all_created (l : list (Z * (Tx * bytes))) : list Outpoint := concat (created_ops <$> l).

(** Each transaction spends outputs that are there and adds its own. *)
Inductive deltas : UtxoMap → list (Z * (Tx * bytes)) → UtxoMap → Prop :=
  | deltas_nil m : deltas m [] m
  | deltas_cons m c ix l m' :
      Forall (λ op, is_Some (m !! op)) (spent_ops ix) → NoDup (spent_ops ix) →
      (∀ op, is_Some (c !! op) ↔ op ∈ created_ops ix) →
      deltas (c ∪ filter (λ p, p.1 ∉ spent_ops ix) m) l m' →
      deltas m (ix :: l) m'.

Lemma foldl_union_elem (b : gset Outpoint) ops op : op ∈ foldl (λ b op, {[op]} ∪ b) b ops ↔ op ∈ b ∨ op ∈ ops.
Proof.
  revert b; induction ops as [|o ops IH]; intros b; cbn [foldl]; [set_solver|]. rewrite IH, elem_of_cons. set_solver.
Qed.

Lemma after_lookup (c m : UtxoMap) (ops : list Outpoint) op : c !! op = None →
  (c ∪ filter (λ p, p.1 ∉ ops) m) !! op = if decide (op ∈ ops) then None else m !! op.
Proof.
  intros Hc. rewrite lookup_union, Hc, (left_id_L None _), map_lookup_filter.
  destruct (m !! op) as [e|]; cbn [mbind option_bind]; [|by case_decide].
  case_decide as Hd; [rewrite option_guard_False|rewrite option_guard_True]; try done; simpl; tauto.
Qed.

(** An output that disappears was spent. *)
Lemma deltas_spent m l m' op : deltas m l m' → is_Some (m !! op) → m' !! op = None →
  ∃ l1 ix l2, l = l1 ++ ix :: l2 ∧ op ∈ spent_ops ix.
Proof.
  induction 1 as [m|m c ix l m' _ _ Hc _ IH]; intros Hs Hn; [rewrite Hn in Hs; by destruct Hs|].
  destruct (decide (op ∈ spent_ops ix)) as [Hi|Hi]; [by exists [], ix, l|].
  destruct IH as (l1 & iy & l2 & -> & Hy); [|done|by exists (ix :: l1), iy, l2].
  destruct (c !! op) as [e|] eqn:E; [rewrite lookup_union, E, union_Some_l; eauto|].
  rewrite after_lookup by done. by rewrite decide_False by done.
Qed.

(** ** The record that is built *)

Section build.
Context `{HX : Hex} (prev : UtxoMap).

(** The spends of the previous state. *)
Definition prev_spends (ops : list Outpoint) : list SpentUndo := omap (λ op, mkSpentUndo op <$> prev !! op) ops.
Definition undo_of (ix : Z * (Tx * bytes)) : TxUndo := mkTxUndo (prev_spends (spent_ops ix)).

(** How the sets of the builder describe the ledger: what is left of the
    previous state, and the outputs of the block. *)
Record tracks (m : UtxoMap) (sp bo : gset Outpoint) : Prop := mkTracks {
  tr_prev : ∀ op e, prev !! op = Some e → op ∉ sp → m !! op = Some e;
  tr_dom : ∀ op, is_Some (m !! op) ↔ (is_Some (prev !! op) ∧ op ∉ sp) ∨ op ∈ bo;
  tr_block : ∀ op, op ∈ bo → prev !! op = None }.

Lemma undo_input_run m sp bo sps i : tracks m sp bo → is_Some (m !! outpoint_of i) →
  ∃ sp' bo', undo_input prev (sp, bo, sps) i = Ok (sp', bo', sps ++ prev_spends [outpoint_of i])
    ∧ tracks (delete (outpoint_of i) m) sp' bo'.
Proof.
  intros [Hp Hd Hb] Hm. unfold undo_input. change (mkOutpoint (prev_txid i) (prev_vout i)) with (outpoint_of i).
  set (op := outpoint_of i) in *. unfold prev_spends. cbn [omap list_omap].
  destruct (decide (op ∈ bo)) as [Hin|Hin].
  - exists sp, (bo ∖ {[op]}). rewrite (Hb op Hin). cbn. rewrite app_nil_r. split; [done|]. split.
    + intros o e Ho Hns. rewrite lookup_delete_ne; [auto|]. intros ->. rewrite (Hb _ Hin) in Ho. done.
    + intros o. destruct (decide (o = op)) as [->|Hne].
      * rewrite lookup_delete_eq, (Hb op Hin). split; [by intros []|]. intros [[[] _]|?]; [done|set_solver].
      * rewrite lookup_delete_ne by done. rewrite Hd. set_solver.
    + intros o Ho. apply Hb. set_solver.
  - destruct (proj1 (Hd op) Hm) as [[[e He] Hns]|?]; [|done]. rewrite He. cbn.
    rewrite decide_False by done. exists ({[op]} ∪ sp), bo. split; [done|]. split.
    + intros o e' Ho Hn. rewrite lookup_delete_ne; [apply Hp; set_solver|]. set_solver.
    + intros o. destruct (decide (o = op)) as [->|Hne].
      * rewrite lookup_delete_eq. split; [by intros []|]. intros [[_ ?]|?]; [set_solver|done].
      * rewrite lookup_delete_ne by done. rewrite Hd. set_solver.
    + done.
Qed.

Lemma undo_inputs_run l m sp bo sps : tracks m sp bo → Forall (λ op, is_Some (m !! op)) (outpoint_of <$> l) →
  NoDup (outpoint_of <$> l) →
  ∃ sp' bo', try_fold (undo_input prev) (sp, bo, sps) l = Ok (sp', bo', sps ++ prev_spends (outpoint_of <$> l))
    ∧ tracks (filter (λ p, p.1 ∉ outpoint_of <$> l) m) sp' bo'.
Proof.
  revert m sp bo sps; induction l as [|i l IH]; intros m sp bo sps Ht Hm Hnd; cbn [try_fold].
  { exists sp, bo. rewrite fmap_nil. cbn. rewrite app_nil_r. split; [done|].
    rewrite map_filter_id; [done|]. intros op e _. simpl. apply not_elem_of_nil. }
  rewrite fmap_cons in *. apply list.Forall_cons in Hm as [Hi Hm]. apply list.NoDup_cons in Hnd as [Hni Hnd].
  destruct (undo_input_run m sp bo sps i Ht Hi) as (sp1 & bo1 & -> & Ht1). run_bind.
  destruct (IH _ _ _ (sps ++ prev_spends [outpoint_of i]) Ht1) as (sp2 & bo2 & -> & Ht2); [|done|].
  - eapply list.Forall_impl; [apply list.Forall_and; split; [exact Hm|]|].
    { apply list.Forall_forall. intros op Hop. exact Hop. }
    intros op [Hs Hop]. rewrite lookup_delete_ne; [done|]. by intros <-.
  - exists sp2, bo2. split.
    + unfold prev_spends. rewrite <- app_assoc, <- omap_app. done.
    + rewrite <- foldl_delete in Ht2 |- *. done.
Qed.

Lemma undo_tx_run m sp bo us ix c : tracks m sp bo → Forall (λ op, is_Some (m !! op)) (spent_ops ix) →
  NoDup (spent_ops ix) → (∀ op, is_Some (c !! op) ↔ op ∈ created_ops ix) →
  (∀ op, op ∈ created_ops ix → prev !! op = None) →
  ∃ sp' bo', undo_tx prev (sp, bo, us) ix = Ok (sp', bo', us ++ [undo_of ix])
    ∧ tracks (c ∪ filter (λ p, p.1 ∉ spent_ops ix) m) sp' bo'.
Proof.
  destruct ix as [i [tx txid]]. intros Ht Hm Hnd Hc Hfr. unfold undo_tx, undo_of.
  assert (∃ sp' bo', (if 0 <? i then try_fold (undo_input prev) (sp, bo, []) (inputs tx) else Ok (sp, bo, []))
      = Ok (sp', bo', prev_spends (spent_ops (i, (tx, txid))))
    ∧ tracks (filter (λ p, p.1 ∉ spent_ops (i, (tx, txid))) m) sp' bo') as (sp1 & bo1 & -> & [Hp1 Hd1 Hb1]).
  { unfold spent_ops in *. cbn [fst snd] in *. destruct (0 <? i); [by apply (undo_inputs_run _ m sp bo [])|].
    exists sp, bo. split; [done|]. rewrite map_filter_id; [done|]. intros op e _. simpl. apply not_elem_of_nil. }
  run_bind. eexists _, _. split; [reflexivity|].
  assert (∀ op, prev !! op ≠ None → c !! op = None) as Hcn.
  { intros op Hop. destruct (c !! op) as [e|] eqn:E; [|done]. destruct Hop. apply Hfr, Hc. by rewrite E. }
  split.
  - intros op e Hop Hns. rewrite lookup_union, Hcn by congruence. rewrite (left_id_L None _). by apply Hp1.
  - intros op. rewrite foldl_union_elem, lookup_union.
    change (spendable_outpoints txid (outputs tx)) with (created_ops (i, (tx, txid))). rewrite <- Hc.
    destruct (c !! op) as [e|] eqn:E.
    + rewrite union_Some_l. split; [|by eauto]. intros _. right. right. by eexists.
    + rewrite (left_id_L None _), Hd1. split; [tauto|]. intros [?|[?|[]]]; [tauto|tauto|done].
  - intros op. rewrite foldl_union_elem. intros [Hop|Hop]; [by apply Hb1|by apply Hfr].
Qed.

Lemma undo_txs_run m l m' sp bo us : deltas m l m' → tracks m sp bo →
  (∀ op, op ∈ all_created l → prev !! op = None) →
  ∃ sp' bo', try_fold (undo_tx prev) (sp, bo, us) l = Ok (sp', bo', us ++ (undo_of <$> l)).
Proof.
  intros H. revert sp bo us. induction H as [m|m c ix l m' Hm Hnd Hc _ IH]; intros sp bo us Ht Hfr; cbn [try_fold].
  { exists sp, bo. by rewrite fmap_nil, app_nil_r. }
  unfold all_created in *. rewrite fmap_cons in Hfr. cbn [concat] in Hfr.
  destruct (undo_tx_run m sp bo us ix c Ht Hm Hnd Hc) as (sp1 & bo1 & -> & Ht1).
  { intros op Hop. apply Hfr, elem_of_app. by left. }
  run_bind. destruct (IH sp1 bo1 (us ++ [undo_of ix]) Ht1) as (sp2 & bo2 & ->).
  { intros op Hop. apply Hfr, elem_of_app. by right. }
  exists sp2, bo2. by rewrite fmap_cons, <- app_assoc.
Qed.
End build.

(** ** The replay *)

(** The noted spends cover every spend of an output created earlier in the block. *)
Lemma note_covers l : ∀ (cr sm : gset Outpoint),
  let '(_, same) := foldl note_same_block_spends (cr, sm) l in
  sm ⊆ same ∧ ∀ l1 ix l2 op, l = l1 ++ ix :: l2 → op ∈ spent_ops ix → op ∈ cr ∨ op ∈ all_created l1 → op ∈ same.
Proof.
  induction l as [|[i [tx txid]] l IH]; intros cr sm; cbn [foldl].
  { split; [done|]. by intros []. }
  cbn [note_same_block_spends]. set (cr1 := foldl _ cr (spendable_outpoints txid (outputs tx))).
  set (sm1 := if 0 <? i then _ else sm). specialize (IH cr1 sm1).
  destruct (foldl note_same_block_spends (cr1, sm1) l) as [cr' same]. destruct IH as [Hsub Hrest].
  assert (∀ op, op ∈ sm1 ↔ op ∈ sm ∨ op ∈ spent_ops (i, (tx, txid)) ∧ op ∈ cr) as Hsm1.
  { intros op. unfold sm1, spent_ops. cbn [fst snd]. destruct (0 <? i); [|set_solver].
    generalize sm. clear. induction (inputs tx) as [|j js IHj]; intros sm; cbn [foldl]; [set_solver|].
    rewrite IHj, fmap_cons, elem_of_cons. unfold outpoint_of at 2.
    case_decide as Hd; [|split; [tauto|]; intros [?|[[->|?] ?]]; [tauto|done|tauto]].
    rewrite elem_of_union, elem_of_singleton. split; [|tauto].
    intros [[->|?]|?]; [right; split; [by left|done]|tauto|tauto]. }
  split; [intros op Hop; apply Hsub, Hsm1; by left|].
  intros [|x1 l1] ix l2 op Hl Hs Hc; injection Hl as <- Hl.
  - apply Hsub, Hsm1. right. split; [done|]. destruct Hc as [?|?%elem_of_nil]; done.
  - eapply Hrest; [exact Hl|exact Hs|]. unfold cr1. rewrite foldl_union_elem.
    change (spendable_outpoints txid (outputs tx)) with (created_ops (i, (tx, txid))).
    unfold all_created in *. rewrite fmap_cons in Hc. cbn [concat] in Hc. rewrite elem_of_app in Hc. tauto.
Qed.

Section replay.
Context `{HX : Hex} (prev : UtxoMap) (same : gset Outpoint).

Lemma remove_created_Ok (m : UtxoMap) op : (m !! op = None → op ∈ same) → remove_created same m op = Ok (delete op m).
Proof.
  intros Ho. unfold remove_created. match goal with |- (if ?b then _ else _) = _ => destruct b eqn:E end; [|done].
  apply andb_true_iff in E as [H1%bool_decide_eq_true H2%negb_true_iff%bool_decide_eq_false]. by destruct (H2 (Ho H1)).
Qed.

Lemma remove_created_run (m : UtxoMap) ops : NoDup ops → Forall (λ op, m !! op = None → op ∈ same) ops →
  try_fold (remove_created same) m ops = Ok (filter (λ p, p.1 ∉ ops) m).
Proof.
  revert m; induction ops as [|op ops IH]; intros m Hnd Hops; cbn [try_fold].
  { f_equal. symmetry. apply map_filter_id. intros ? ? _. simpl. apply not_elem_of_nil. }
  apply list.NoDup_cons in Hnd as [Hop Hnd]. apply list.Forall_cons in Hops as [Ho Hops].
  rewrite remove_created_Ok by done. run_bind. rewrite IH; [|done|].
  - f_equal. by rewrite <- !foldl_delete.
  - rewrite list.Forall_forall in Hops |- *. intros o Hin Hn. apply Hops; [done|].
    rewrite lookup_delete_ne in Hn; [done|]. by intros ->.
Qed.

Lemma restore_run ops : ∀ (m : UtxoMap) (R : gset Outpoint), NoDup ops →
  (∀ op, op ∈ ops → is_Some (prev !! op) → m !! op = None ∧ op ∉ R) →
  ∃ m' R', try_fold restore_spent (m, R) (prev_spends prev ops) = Ok (m', R')
    ∧ (∀ op, m' !! op = if decide (op ∈ ops) then (match prev !! op with Some e => Some e | None => m !! op end) else m !! op)
    ∧ (∀ op, op ∈ R' ↔ op ∈ R ∨ op ∈ ops ∧ is_Some (prev !! op)).
Proof.
  induction ops as [|o ops IH]; intros m R Hnd Hops.
  { exists m, R. split; [done|]. split; [|set_solver]. intros op. by rewrite decide_False by apply not_elem_of_nil. }
  apply list.NoDup_cons in Hnd as [Ho Hnd]. unfold prev_spends in *. cbn [omap list_omap].
  destruct (prev !! o) as [e|] eqn:He; cbn [fmap option_fmap option_map].
  - destruct (Hops o) as [Hm HR]; [by left|by rewrite He|]. cbn [try_fold restore_spent su_outpoint su_entry].
    rewrite decide_False by done. rewrite Hm. run_bind.
    destruct (IH (<[o:=e]> m) ({[o]} ∪ R) Hnd) as (m' & R' & Hr & Hm' & HR').
    { intros op Hop Hs. destruct (Hops op) as [? ?]; [by right|done|].
      assert (o ≠ op) by (by intros ->). rewrite lookup_insert_ne by done. set_solver. }
    exists m', R'. split; [exact Hr|]. split.
    + intros op. rewrite Hm'. destruct (decide (op = o)) as [->|Hne].
      * rewrite decide_False by done. rewrite decide_True by by left. by rewrite lookup_insert_eq, He.
      * rewrite lookup_insert_ne by done. rewrite (decide_ext _ (op ∈ o :: ops)); [done|]. rewrite elem_of_cons. tauto.
    + intros op. rewrite HR', elem_of_union, elem_of_singleton, elem_of_cons. split.
      * intros [[->|?]|[? ?]]; [right; rewrite He; eauto|tauto|tauto].
      * intros [?|[[->|?] ?]]; [tauto|tauto|tauto].
  - destruct (IH m R Hnd) as (m' & R' & Hr & Hm' & HR').
    { intros op Hop. apply Hops. by right. }
    exists m', R'. split; [exact Hr|]. split.
    + intros op. rewrite Hm'. destruct (decide (op = o)) as [->|Hne].
      * rewrite decide_False by done. rewrite decide_True by by left. by rewrite He.
      * rewrite (decide_ext _ (op ∈ o :: ops)); [done|]. rewrite elem_of_cons. tauto.
    + intros op. rewrite HR', elem_of_cons. split; [tauto|].
      intros [?|[[->|?] Hs]]; [tauto| |tauto]. rewrite He in Hs. by destruct Hs.
Qed.

(** What the loop goes over: the transactions with the records built for them. *)
Definition with_undo (ix : Z * (Tx * bytes)) : Tx * bytes * TxUndo := (ix.2, undo_of prev ix).

(** Replaying [l] backwards from the ledger it leads to gives the ledger before
    it on the outputs of the previous state, and leaves the outputs that the
    block created earlier as they are at its end. *)
Lemma replay_run m l m' (cr : list Outpoint) : deltas m l m' →
  (∀ op e, m !! op = Some e → prev !! op = Some e ∨ prev !! op = None ∧ op ∈ cr) →
  NoDup (cr ++ all_created l) → (∀ op, op ∈ cr ++ all_created l → prev !! op = None) →
  (∀ l1 ix l2 op, l = l1 ++ ix :: l2 → op ∈ spent_ops ix → op ∈ cr ∨ op ∈ all_created l1 → op ∈ same) →
  ∃ W R, try_fold (disconnect_tx same) (m', ∅) (reverse (with_undo <$> l)) = Ok (W, R)
    ∧ (∀ op, W !! op = match prev !! op with
                       | Some _ => m !! op
                       | None => if decide (op ∈ cr) then m' !! op else None
                       end)
    ∧ (∀ op, op ∈ R → is_Some (m !! op) ∧ is_Some (prev !! op)).
Proof.
  intros H. revert cr. induction H as [m|m c ix l m' Hm Hnd Hc Hd IH]; intros cr Hdom Hcr Hfr Hsame.
  { exists m, ∅. split; [done|]. split; [|set_solver]. intros op. destruct (m !! op) as [e|] eqn:E.
    - destruct (Hdom op e E) as [->|[-> Hin]]; [done|]. by rewrite decide_True.
    - destruct (prev !! op); [done|]. by case_decide. }
  unfold all_created in *. change (concat (created_ops <$> ix :: l)) with (created_ops ix ++ concat (created_ops <$> l)) in *.
  assert (NoDup (created_ops ix) ∧ (∀ op, op ∈ created_ops ix → op ∉ cr ∧ prev !! op = None)) as [Hnc Hci].
  { apply list.NoDup_app in Hcr as (_ & Hx & Hy). apply list.NoDup_app in Hy as (? & _ & _). split; [done|].
    intros op Hop. split; [|apply Hfr; rewrite !elem_of_app; by right; left]. intros Hin. apply (Hx op Hin), elem_of_app. by left. }
  assert (∀ op, is_Some (prev !! op) → c !! op = None) as Hcp.
  { intros op [e He]. destruct (c !! op) as [e'|] eqn:E; [|done].
    destruct (Hci op) as [_ Hn]; [apply Hc; by rewrite E|congruence]. }
  set (m1 := c ∪ filter (λ p, p.1 ∉ spent_ops ix) m) in *.
  destruct (IH (cr ++ created_ops ix)) as (W1 & R1 & HW1 & HW & HR).
  { intros op e Hop. destruct (c !! op) as [e'|] eqn:E.
    - right. assert (op ∈ created_ops ix) as Hin by (apply Hc; by rewrite E). rewrite elem_of_app.
      split; [by apply Hci|by right].
    - unfold m1 in Hop. rewrite after_lookup in Hop by done. case_decide; [done|].
      rewrite elem_of_app. destruct (Hdom op e Hop) as [?|[? ?]]; tauto. }
  { by rewrite <- app_assoc. }
  { intros op Hop. apply Hfr. by rewrite app_assoc. }
  { intros l1 iy l2 op -> Hop Hor. apply (Hsame (ix :: l1) iy l2 op eq_refl Hop).
    rewrite fmap_cons. cbn [concat]. rewrite elem_of_app in Hor |- *. tauto. }
  rewrite fmap_cons, reverse_cons, try_fold_app, HW1. run_bind. cbn [try_fold].
  destruct ix as [i [tx txid]]. unfold disconnect_tx at 1, with_undo at 1. cbn [fst snd]. set (ix := (i, (tx, txid))) in *.
  change (spendable_outpoints txid (outputs tx)) with (created_ops ix).
  rewrite remove_created_run; [|done|].
  2: { apply list.Forall_forall. intros op Hop Hn. rewrite HW, (proj2 (Hci op Hop)) in Hn.
    rewrite decide_True in Hn by (apply elem_of_app; by right).
    destruct (deltas_spent m1 l m' op Hd) as (l1 & iy & l2 & -> & Hs); [|done|].
    { unfold m1. rewrite lookup_union. destruct (proj2 (Hc op) Hop) as [e ->]. rewrite union_Some_l. eauto. }
    apply (Hsame (ix :: l1) iy l2 op eq_refl Hs). right. rewrite fmap_cons. cbn [concat]. rewrite elem_of_app. by left. }
  run_bind. unfold undo_of. cbn [tu_spent]. set (W2 := filter _ W1).
  assert (∀ op, W2 !! op = if decide (op ∈ created_ops ix) then None else W1 !! op) as HW2.
  { intros op. unfold W2. rewrite <- (left_id_L ∅ (∪) (filter _ W1)). apply after_lookup, lookup_empty. }
  assert (∀ op, is_Some (prev !! op) → W2 !! op = if decide (op ∈ spent_ops ix) then None else m !! op) as HW2p.
  { intros op Hp. rewrite HW2. rewrite decide_False by (intros Hin; destruct (Hci op Hin) as [_ Hn]; rewrite Hn in Hp; by destruct Hp).
    rewrite HW. destruct Hp as [e Hp]. rewrite Hp. apply after_lookup. apply Hcp. by eexists. }
  destruct (restore_run (spent_ops ix) W2 R1 Hnd) as (W & R & Hrun & HWf & HRf).
  { intros op Hop Hp. split; [rewrite HW2p by done; by rewrite decide_True|]. intros Hin.
    destruct (HR op Hin) as [[e He] _]. unfold m1 in He. rewrite after_lookup in He by (by apply Hcp).
    by rewrite decide_True in He. }
  exists W, R. rewrite Hrun. split; [done|]. split.
  - intros op. rewrite HWf. destruct (prev !! op) as [e|] eqn:Hp.
    + rewrite HW2p by by eexists. case_decide as Hs; [|done].
      rewrite list.Forall_forall in Hm. destruct (Hm op Hs) as [e' He']. rewrite He'.
      destruct (Hdom op e' He') as [?|[? _]]; congruence.
    + transitivity (W2 !! op); [by case_decide|]. rewrite HW2. case_decide as Hin.
      * rewrite decide_False; [done|]. by apply Hci.
      * rewrite HW, Hp. rewrite (decide_ext _ (op ∈ cr)); [done|]. rewrite elem_of_app. tauto.
  - intros op. rewrite HRf. rewrite list.Forall_forall in Hm. intros [Hin|[Hin Hp]]; [|auto].
    destruct (HR op Hin) as [[e He] Hp]. split; [|done].
    unfold m1 in He. rewrite after_lookup in He by (by apply Hcp). case_decide; [done|by eexists].
Qed.
End replay.

(** ** The block as a sequence of changes *)

Lemma enum_from_snd {A} k (l : list A) : (enum_from k l).*2 = l.
Proof. revert k; induction l as [|a l IH]; intros k; cbn [enum_from]; [done|]. by rewrite fmap_cons, IH. Qed.

Lemma spendable_unspendable t : is_spendable_output t = negb (unspendable_type t).
Proof. unfold is_spendable_output, unspendable_type. by destruct (t =? COV_TYPE_ANCHOR), (t =? COV_TYPE_DA_COMMIT). Qed.

Definition outpoints_from (txid : bytes) (k : Z) (outs : list TxOutput) : list Outpoint :=
  omap (λ p : Z * TxOutput, if is_spendable_output (covenant_type p.2)
                            then Some (mkOutpoint txid (low_u32 p.1)) else None) (enum_from k outs).
Lemma outpoints_from_0 txid outs : spendable_outpoints txid outs = outpoints_from txid 0 outs.
Proof. unfold spendable_outpoints. by rewrite enumerate_enum. Qed.

Lemma outpoints_from_cons txid k o outs : 0 ≤ k < 2 ^ 32 →
  outpoints_from txid k (o :: outs) =
  (if unspendable_type (covenant_type o) then [] else [mkOutpoint txid k]) ++ outpoints_from txid (k + 1) outs.
Proof.
  intros Hk. unfold outpoints_from. cbn [enum_from omap list_omap fst snd].
  rewrite spendable_unspendable, low_u32_small by done. by destruct (unspendable_type _).
Qed.

Lemma outpoints_from_elem txid k outs op : 0 ≤ k → k + len outs ≤ 2 ^ 32 → op ∈ outpoints_from txid k outs →
  op_txid op = txid ∧ k ≤ op_vout op.
Proof.
  revert k; induction outs as [|o outs IH]; intros k Hk Hn; [by intros ?%elem_of_nil|]. rewrite length_cons in Hn.
  rewrite outpoints_from_cons, elem_of_app by lia. intros [Hop|Hop].
  2: { destruct (IH (k + 1) ltac:(lia) ltac:(lia) Hop). split; [done|lia]. }
  destruct (unspendable_type _); [by apply elem_of_nil in Hop|]. apply list_elem_of_singleton in Hop as ->. by split.
Qed.

Lemma outpoints_from_NoDup txid k outs : 0 ≤ k → k + len outs ≤ 2 ^ 32 → NoDup (outpoints_from txid k outs).
Proof.
  revert k; induction outs as [|o outs IH]; intros k Hk Hn; [constructor|]. rewrite length_cons in Hn.
  rewrite outpoints_from_cons by lia. destruct (unspendable_type _); [apply IH; lia|].
  cbn [app]. constructor; [|apply IH; lia]. intros [_ Hle]%outpoints_from_elem; [|lia..]. simpl in Hle. lia.
Qed.

Lemma created_from_dom ctx k outs op : 0 ≤ k → k + len outs ≤ 2 ^ 32 →
  is_Some (created_from ctx k outs !! op) ↔ op ∈ outpoints_from (cx_txid ctx) k outs.
Proof.
  revert k; induction outs as [|o outs IH]; intros k Hk Hn; cbn [created_from].
  { rewrite lookup_empty. split; [by intros []|by intros ?%elem_of_nil]. }
  rewrite length_cons in Hn. rewrite outpoints_from_cons, elem_of_app, <- IH by lia.
  destruct (unspendable_type _); [split; [tauto|by intros [?%elem_of_nil|?]]|].
  rewrite list_elem_of_singleton, lookup_insert_is_Some. destruct (decide (mkOutpoint (cx_txid ctx) k = op)) as [->|Hne]; [tauto|].
  split; [tauto|]. intros [->|?]; [done|by right].
Qed.

Section block.
Context `{HS : Sha3} `{HO : OpenSsl} `{HX : Hex}.

Lemma outputs_small tx : tx_valid tx → len (outputs tx) ≤ 2 ^ 32.
Proof. intros (_ & _ & (Hn & _) & _). unfold MAX_TX_OUTPUTS in Hn. lia. Qed.

Lemma ledger_steps_deltas height timestamp mtp chain_id rotation registry m l m' fees k :
  ledger_steps height timestamp mtp chain_id rotation registry m l m' fees → 0 < k → Forall tx_valid l.*1 →
  deltas m (enum_from k l) m'.
Proof.
  intros H. revert k. induction H as [m|m [tx txid] l m' es wss fees Ha _ IH]; intros k Hk Hl; cbn [enum_from]; [constructor|].
  rewrite fmap_cons in Hl. apply list.Forall_cons in Hl as [Hx Hl].
  pose proof (outputs_small tx Hx).
  assert (spent_ops (k, (tx, txid)) = outpoint_of <$> inputs tx) as Hsp
    by (unfold spent_ops; cbn [fst snd]; by replace (0 <? k) with true by lia).
  destruct Ha as [_ _ _ (HF & Hnd & _) _ _ _ _ _ _]. cbn in HF, Hnd. eapply deltas_cons; rewrite ?Hsp.
  - apply list.Forall_fmap. apply list.Forall_forall. intros i Hi.
    apply list_elem_of_lookup in Hi as [j Hj]. destruct (Forall2_lookup_l _ _ _ _ _ HF Hj) as (e & _ & _ & He & _).
    cbn. by rewrite He.
  - exact Hnd.
  - intros op. unfold created_ops. cbn [fst snd]. rewrite outpoints_from_0.
    apply (created_from_dom (cx_at height timestamp mtp chain_id rotation registry m (tx, txid)) 0 (outputs tx)); cbn; lia.
  - apply (IH (k + 1)); [lia|done].
Qed.

Lemma connects_deltas ctx st pb m' fees : block_valid pb → connects ctx st pb m' fees →
  deltas (cs_utxos st) (indexed_txs pb) m'.
Proof.
  intros Hv [_ _ _ _ (cb & txid & Hhd & Hti & _ & _ & _ & Hs)].
  destruct (block_first pb Hv) as (cb' & rest & Hpb & Hcv & Hrest & Hids & Hnc).
  rewrite Hpb in Hhd. rewrite Hids in Hti. injection Hhd as ->. injection Hti as <-.
  assert (Forall tx_valid (non_coinbase pb).*1) as Hl.
  { rewrite Hnc, <- list_fmap_compose. apply list.Forall_fmap. eapply list.Forall_impl; [exact Hrest|done]. }
  apply (ledger_steps_deltas _ _ _ _ _ _ _ _ _ _ 1) in Hs; [|lia|done].
  assert (indexed_txs pb = (0, (cb, sha3_256 (enc_tx_core cb))) :: enum_from 1 (non_coinbase pb)) as ->.
  { unfold indexed_txs, non_coinbase. rewrite enumerate_enum, Hpb, Hids. cbn [zip zip_with drop enum_from].
    by rewrite drop_0. }
  apply (deltas_cons _ (coinbase_created (sha3_256 (enc_tx_core cb)) (cc_block_height ctx) (outputs cb)));
    [constructor|constructor| |].
  - intros op. unfold created_ops, coinbase_created. cbn [fst snd]. rewrite outpoints_from_0.
    pose proof (outputs_small cb Hcv) as Ho.
    pose proof (created_from_dom (coinbase_ctx (sha3_256 (enc_tx_core cb)) (cc_block_height ctx)) 0 (outputs cb) op
      ltac:(lia) ltac:(lia)) as Hdom.
    cbn [cx_txid coinbase_ctx] in Hdom. rewrite <- Hdom, lookup_fmap, fmap_is_Some. reflexivity.
  - rewrite map_filter_id; [exact Hs|]. intros op e _. apply not_elem_of_nil.
Qed.

(** The ids of the block are new: no two of its transactions share one, and no
    unspent output belongs to one. *)
Definition txids_fresh (m : UtxoMap) (ids : list bytes) : Prop :=
  NoDup ids ∧ ∀ op, is_Some (m !! op) → op_txid op ∉ ids.

Lemma created_ops_txid ix op : tx_valid ix.2.1 → op ∈ created_ops ix → op_txid op = ix.2.2.
Proof.
  intros Hv%outputs_small. unfold created_ops. rewrite outpoints_from_0.
  intros [? _]%outpoints_from_elem; [done|lia..].
Qed.

Lemma all_created_fresh (l : list (Z * (Tx * bytes))) : Forall tx_valid (l.*2).*1 → NoDup (l.*2).*2 →
  NoDup (all_created l) ∧ ∀ op, op ∈ all_created l → op_txid op ∈ (l.*2).*2.
Proof.
  unfold all_created. induction l as [|ix l IH]; intros Hv Hnd; [split; [constructor|by intros op ?%elem_of_nil]|].
  rewrite !fmap_cons in *. apply list.Forall_cons in Hv as [Hx Hv]. apply list.NoDup_cons in Hnd as [Hn Hnd].
  destruct (IH Hv Hnd) as [Hc Hin]. cbn [concat]. split.
  - apply list.NoDup_app. split_and!; [|intros op Hop Hop'|done].
    + unfold created_ops. rewrite outpoints_from_0. apply outpoints_from_NoDup; [lia|]. by apply outputs_small in Hx.
    + apply Hn. rewrite <- (created_ops_txid ix op) by done. by apply Hin.
  - intros op. rewrite elem_of_app, elem_of_cons. intros [Hop|Hop]; [left; by apply created_ops_txid|right; auto].
Qed.

Lemma indexed_txs_parts pb : block_valid pb →
  (indexed_txs pb).*2 = zip (pb_txs pb) (pb_txids pb) ∧ ((indexed_txs pb).*2).*1 = pb_txs pb
  ∧ ((indexed_txs pb).*2).*2 = pb_txids pb.
Proof.
  intros (_ & _ & _ & _ & _ & Hids & _). unfold indexed_txs. rewrite enumerate_enum, enum_from_snd.
  split; [done|]. split; [apply fst_zip|apply snd_zip]; rewrite Hids, length_fmap; lia.
Qed.

(** The record is the one with each transaction's spends of the previous state. *)
Lemma build_undo_Ok s b h pb m' : len b ≤ isize_max → block_valid pb → len (pb_txs pb) ≤ u64_max → b = enc_block pb →
  deltas (ch_utxos s) (indexed_txs pb) m' → txids_fresh (ch_utxos s) (pb_txids pb) →
  build_block_undo s b h
  = Ok (mkBlockUndo h (ch_already_generated s) (undo_of (ch_utxos s) <$> indexed_txs pb)).
Proof.
  intros Hb Hv Hl Hbe Hd [Hnd Hfr]. unfold build_block_undo.
  rewrite (proj2 (parse_block_Ok b pb Hb) (conj Hv (conj Hl Hbe))). cbn [stringify map_err]. run_bind.
  destruct (indexed_txs_parts pb Hv) as (_ & Ht & Hi). pose proof Hv as (_ & _ & _ & _ & Htv & Hids & _).
  rewrite Hids at 1. rewrite length_fmap, Z.eqb_refl. cbn [negb].
  destruct (all_created_fresh (indexed_txs pb)) as [_ Hin]; [by rewrite Ht|by rewrite Hi|].
  destruct (undo_txs_run (ch_utxos s) (ch_utxos s) (indexed_txs pb) m' ∅ ∅ [] Hd) as (sp & bo & Hrun).
  - split; [done|set_solver|set_solver].
  - intros op Hop. destruct (ch_utxos s !! op) as [e|] eqn:E; [|done]. exfalso. eapply Hfr; [by eexists|].
    rewrite <- Hi. by apply Hin.
  - by rewrite Hrun.
Qed.

Lemma disconnect_utxos_Ok pb prev m' h g : block_valid pb → deltas prev (indexed_txs pb) m' →
  txids_fresh prev (pb_txids pb) →
  disconnect_utxos pb (mkBlockUndo h g (undo_of prev <$> indexed_txs pb)) m' = Ok prev.
Proof.
  intros Hv Hd [Hnd Hfr]. unfold disconnect_utxos. cbn [bu_txs].
  destruct (indexed_txs_parts pb Hv) as (Hz & Ht & Hi). pose proof Hv as (_ & _ & _ & _ & Htv & _).
  pose proof (note_covers (indexed_txs pb) ∅ ∅) as Hcov.
  destruct (foldl note_same_block_spends (∅, ∅) (indexed_txs pb)) as [cr same]. destruct Hcov as [_ Hcov].
  destruct (all_created_fresh (indexed_txs pb)) as [Hc Hin]; [by rewrite Ht|by rewrite Hi|].
  rewrite <- Hz.
  assert (zip (indexed_txs pb).*2 (undo_of prev <$> indexed_txs pb) = with_undo prev <$> indexed_txs pb) as ->.
  { generalize (indexed_txs pb). intros l. induction l as [|ix l IH]; [done|]. rewrite !fmap_cons. cbn [zip zip_with]. by rewrite IH. }
  destruct (replay_run prev same prev (indexed_txs pb) m' [] Hd) as (W & R & -> & HW & _).
  - intros op e He. by left.
  - done.
  - intros op Hop. destruct (prev !! op) as [e|] eqn:E; [|done]. exfalso. eapply Hfr; [by eexists|].
    rewrite <- Hi. by apply Hin.
  - intros l1 ix l2 op Hl Hs [?%elem_of_nil|Hop]; [done|]. eapply Hcov; [exact Hl|exact Hs|by right].
  - run_bind. cbn [fst]. f_equal. apply map_eq. intros op. rewrite HW. destruct (prev !! op) as [e|]; [done|].
    by rewrite decide_False by apply not_elem_of_nil.
Qed.

(** The tip goes back to the parent. *)
Lemma disconnected_restores s pb us bh th g m : chain_wf s →
  (ch_has_tip s = true → bh_prev_block_hash (pb_header pb) = ch_tip_hash s) →
  disconnected pb (mkBlockUndo (next_height s) (ch_already_generated s) us) bh (ch_utxos s)
    (mkChainState true (next_height s) th g m)
  = (mkChainStateDisconnectSummary (next_height s) bh (ch_height s) (ch_tip_hash s) (ch_has_tip s)
       (ch_already_generated s) (Z.of_nat (size (ch_utxos s))), s).
Proof.
  intros [[Hh0 _] _ Hno _] Hprev. unfold disconnected, next_height in *. cbv zeta.
  cbn [ch_height ch_has_tip bu_block_height bu_previous_already_generated].
  destruct s as [tip h th0 g0 m0]; cbn [ch_has_tip ch_height ch_tip_hash ch_already_generated ch_utxos] in *. destruct tip.
  - replace (h + 1 =? 0) with false by lia. cbn [ch_has_tip ch_height ch_tip_hash ch_already_generated ch_utxos].
    by rewrite (Hprev eq_refl), Z.add_simpl_r.
  - by destruct (Hno eq_refl) as [-> ->].
Qed.

(** From a well-formed chain state, when the node connects a block whose
    transaction ids are new, the undo record built from the state before the
    block exists, and disconnecting the block with it from the state after
    restores the state before exactly. *)
Lemma connect_disconnect b target times chain_id rotation registry s sum s' :
  len b ≤ isize_max → chain_wf s →
  chain_connect_block_with_suite_context b target times chain_id rotation registry s = Some (Ok sum, s') →
  (∀ pb, parse_block_bytes b = Ok pb → txids_fresh (ch_utxos s) (pb_txids pb)) →
  ∃ undo ds, build_block_undo s b (ks_block_height sum) = Ok undo
    ∧ disconnect_block b undo s' = (Ok ds, s)
    ∧ ds_block_hash ds = ks_block_hash sum ∧ ds_new_tip_hash ds = ch_tip_hash s ∧ ds_has_tip ds = ch_has_tip s.
Proof.
  intros Hb Hwf H Hfr.
  pose proof (chain_connect_Ok _ _ _ _ _ _ s sum s' Hb Hwf H) as (pb & m' & fees & Hp & Hv & Hbe & Hh & _ & Hc & -> & -> & -> & _).
  destruct (proj1 (parse_block_Ok b pb Hb) Hp) as (_ & Hl & _).
  pose proof (connects_deltas _ _ _ _ _ Hv Hc) as Hd. cbn [mem_state cs_utxos] in Hd. specialize (Hfr pb Hp).
  eexists _, _. split; [by eapply build_undo_Ok|].
  unfold disconnect_block, extended. cbn [ch_has_tip ch_height ch_tip_hash ch_utxos bu_block_height negb bu_txs].
  rewrite Z.eqb_refl, Hp. cbn [negb stringify map_err]. run_bind.
  destruct (indexed_txs_parts pb Hv) as (Hz & Ht & _). pose proof Hv as (_ & _ & _ & _ & _ & Hids & _).
  assert (len (pb_txs pb) = len (pb_txids pb) ∧ length (indexed_txs pb) = length (pb_txs pb)) as [-> Hn].
  { rewrite Hids, length_fmap. split; [done|]. by rewrite <- Ht, !length_fmap. }
  rewrite Z.eqb_refl, length_fmap, Hn, Hids, length_fmap, Z.eqb_refl. cbn [negb].
  unfold block_hash. rewrite (enc_header_len pb Hv), Z.eqb_refl. cbn [negb stringify map_err]. run_bind.
  rewrite bool_decide_eq_true_2 by done. cbn [negb]. rewrite (disconnect_utxos_Ok pb _ m' _ _ Hv Hd Hfr). run_bind.
  destruct (pf_header _ _ _ _ _ (cn_preflight _ _ _ _ _ Hc)) as (_ & _ & Hprev & _).
  cbn [next_ctx cc_expected_prev_hash] in Hprev. rewrite disconnected_restores; [by split_and!|done|].
  intros Htip. rewrite Htip in Hprev. by apply Hprev.
Qed.
End block.

(** ** Witness *)

Definition demo_chain_state : ChainState := mkChainState true 2 (zeros 32) 0 ∅.
Definition demo_chain_connect :=
  chain_connect_block_with_suite_context (HS := toy_sha3) (HO := toy_openssl) (HX := toy_hex) (enc_block demo_block)
    None (Some [990; 980; 1010]) demo_chain None None demo_chain_state.

Lemma demo_chain_wf : chain_wf demo_chain_state.
Proof. split; [done|done|done|apply map_Forall_empty]. Qed.

Lemma demo_chain_connects : match demo_chain_connect with Some (Ok _, _) => true | _ => false end = true.
Proof. by vm_compute. Qed.

Lemma demo_ids_fresh pb : parse_block_bytes (HS := toy_sha3) (enc_block demo_block) = Ok pb →
  txids_fresh (ch_utxos demo_chain_state) (pb_txids pb).
Proof.
  intros Hp. split.
  - assert (match parse_block_bytes (HS := toy_sha3) (enc_block demo_block) with
            | Ok pb => length (pb_txids pb) = 1%nat | Err _ => True end) as Hl by (by vm_compute).
    rewrite Hp in Hl. destruct (pb_txids pb) as [|x [|? ?]]; [done|apply NoDup_singleton|done].
  - intros op [e He]. done.
Qed.
