(* ===== verification/Chain.v ===== *)
(** * Chains of blocks

    The states the node reaches from the empty chain by connecting blocks: no
    transaction id occurs twice along a chain, so the freshness that the undo
    records rely on always holds, and a chain can be rewound block by block. *)

From S2P Require Import Prelude Bytes BTree Errors Constants Crypto WireRead CompactSize TxWire TxCodec Block Merkle Pow Subsidy.
From S2P Require Import Vault Suites Verify SigCache WorkerPool SigQueue Sighash Spend Htlc Stealth CovenantGenesis.
From S2P Require Import UtxoApply UtxoRules UtxoDeferred UtxoLedger BlockParse BlockWeight BlockDa BlockBasic ConnectBlock NodeText ChainState Undo.

Section history.
Context `{HS : Sha3} `{HO : OpenSsl} `{HX : Hex}.

Definition txid_of (tx : Tx) : bytes := sha3_256 (enc_tx_core tx).

(** The transactions of a chain; a coinbase carries its height. *)
Abbreviation history := (list (option Z * Tx)).
Definition ids (H : history) : list bytes := (λ x, txid_of x.2) <$> H.

(** What the transactions connected so far say of the ledger [m], when the
    next block has height [h]. *)
Record history_ok (H : history) (m : UtxoMap) (h : Z) : Prop := mkHistoryOk {
  ho_wire : Forall (λ x, tx_valid x.2 ∧ len (enc_tx_core x.2) ≤ isize_max) H;
  ho_ids : NoDup (ids H);
  ho_dom : ∀ op, is_Some (m !! op) → op_txid op ∈ ids H;
  ho_spent : ∀ tx, (None, tx) ∈ H → tx_nonce tx ≠ 0 ∧ inputs tx ≠ []
      ∧ Forall (λ i, m !! outpoint_of i = None ∧ op_txid (outpoint_of i) ∈ ids H) (inputs tx);
  ho_coinbase : ∀ k cb, (Some k, cb) ∈ H → coinbase_ok k cb ∧ k < h }.

Lemma history_new : history_ok [] ∅ 0.
Proof. split; [constructor|constructor|by intros op []|by intros tx ?%elem_of_nil|by intros k cb ?%elem_of_nil]. Qed.

(** The strings hashed for the ids of a history. *)
Definition cores (H : history) : list bytes := (λ x, enc_tx_core x.2) <$> H.

Lemma cores_mono H H' : H `suffix_of` H' → collision_in (cores H) → collision_in (cores H').
Proof.
  intros [k ->]. apply collision_in_mono. unfold cores. rewrite fmap_app. intros x Hx. apply elem_of_app. by right.
Qed.

(** Two transactions of the wire with the same id have the same core. *)
Lemma txid_core t1 t2 : tx_valid t1 → tx_valid t2 → len (enc_tx_core t1) ≤ isize_max → txid_of t1 = txid_of t2 →
  same_core t1 t2 ∨ collision_in [enc_tx_core t1; enc_tx_core t2].
Proof.
  intros ? ? ? He. eapply sha3_inj_in in He as [He|]; [left|by right|by left|by right; left]. by apply enc_tx_core_inj.
Qed.

Lemma known_id H m h tx : history_ok H m h → txid_of tx ∈ ids H → tx_valid tx →
  (∃ tag tx', (tag, tx') ∈ H ∧ same_core tx' tx) ∨ collision_in (enc_tx_core tx :: cores H).
Proof.
  intros Ho ([tag tx'] & He & Hin)%list_elem_of_fmap Hv. pose proof (ho_wire H m h Ho) as Hw.
  rewrite list.Forall_forall in Hw. destruct (Hw _ Hin) as [Hv' Hl].
  destruct (txid_core tx' tx Hv' Hv Hl) as [?|Hc]; [by rewrite He|left|right].
  - by exists tag, tx'.
  - eapply collision_in_mono; [|exact Hc]. intros x [->|[->|?%not_elem_of_nil]%elem_of_cons]%elem_of_cons; [right|left|done].
    by apply (list_elem_of_fmap_2 (λ x, enc_tx_core x.2)) in Hin.
Qed.

(** An accepted transaction is a new one: another with its core would have
    spent the same outputs, which are then gone for good. *)
Lemma accepted_new H h height timestamp mtp chain_id rotation registry m tx es wss :
  history_ok H m h → tx_valid tx →
  accepted (cx_at height timestamp mtp chain_id rotation registry m (tx, txid_of tx)) es wss →
  txid_of tx ∉ ids H ∨ collision_in (enc_tx_core tx :: cores H).
Proof.
  intros Ho Hv [Hn Hi _ (HF & _) _ _ _ _ _ _]. cbn in Hn, Hi, HF.
  destruct (decide (txid_of tx ∈ ids H)) as [Hin|]; [|by left]. right.
  destruct (known_id H m h tx Ho Hin Hv) as [(tag & tx' & Hin' & Hcore)|?]; [|done]. exfalso.
  assert (tx_nonce tx' = tx_nonce tx ∧ inputs tx' = inputs tx) as [Hnonce Hins] by (rewrite Hcore; done).
  destruct tag as [k|].
  - destruct (ho_coinbase H m h Ho k tx' Hin') as [((_ & Hz & _) & _) _]. congruence.
  - destruct (ho_spent H m h Ho tx' Hin') as (_ & _ & Hsp). rewrite Hins in Hsp.
    destruct (inputs tx) as [|i l]; [done|]. inversion HF as [|? e ? ? (_ & He & _) _]; subst.
    apply list.Forall_cons in Hsp as [[Hnone _] _]. congruence.
Qed.

Definition wire_tx (tx : Tx) : Prop := tx_valid tx ∧ len (enc_tx_core tx) ≤ isize_max.

Lemma created_txid ctx outs op : len outs ≤ 2 ^ 32 → is_Some (created_from ctx 0 outs !! op) → op_txid op = cx_txid ctx.
Proof. intros Hn Hop. apply created_from_dom, outpoints_from_elem in Hop; lia || by destruct Hop. Qed.

Lemma history_tx H h height timestamp mtp chain_id rotation registry m tx es wss :
  let cx := cx_at height timestamp mtp chain_id rotation registry m (tx, txid_of tx) in
  history_ok H m h → wire_tx tx → accepted cx es wss → txid_of tx ∉ ids H →
  history_ok ((None, tx) :: H) (ledger_after cx) h.
Proof.
  intros cx Ho [Hv Hl] Ha Hnew.
  pose proof (outputs_small tx Hv) as Hout. destruct Ho as [Hw Hids Hdom Hsp Hcb].
  destruct Ha as [Hn Hi _ (HF & Hnd & _) _ _ _ _ _ _]. cbn in Hn, Hi, HF, Hnd.
  assert (∀ op, op_txid op ∈ ids H → created_from cx 0 (outputs tx) !! op = None) as Hold.
  { intros op Hin. destruct (created_from cx 0 (outputs tx) !! op) as [e|] eqn:E; [|done].
    destruct Hnew. replace (txid_of tx) with (op_txid op); [done|].
    by apply (created_txid cx (outputs tx)). }
  assert (∀ op, op_txid op ∈ ids H → (op ∈ outpoint_of <$> inputs tx ∨ m !! op = None) → ledger_after cx !! op = None) as Hgone.
  { intros op Hin Hor. unfold ledger_after. rewrite after_lookup by auto. cbn. case_decide; [done|tauto]. }
  split.
  - by constructor.
  - cbn. by constructor.
  - intros op Hop. unfold ids. rewrite fmap_cons. cbn [snd]. rewrite elem_of_cons.
    unfold ledger_after in Hop. cbn [cx cx_at cx_tx] in Hop.
    destruct (created_from cx 0 (outputs tx) !! op) as [e|] eqn:E.
    + left. by apply (created_txid cx (outputs tx)).
    + right. rewrite after_lookup in Hop by done. case_decide; [by destruct Hop|]. by apply Hdom.
  - intros tx' [[= ->]|Hin]%elem_of_cons.
    + split; [done|]. split; [done|]. apply list.Forall_forall. intros i Hin.
      destruct (proj1 (list_elem_of_lookup _ _) Hin) as [j Hj].
      destruct (Forall2_lookup_l _ _ _ _ _ HF Hj) as (e & _ & _ & He & _).
      assert (op_txid (outpoint_of i) ∈ ids H) as Hid by (apply Hdom; by rewrite He).
      split; [apply Hgone; [done|left; apply list_elem_of_fmap; eauto]|by right].
    + destruct (Hsp tx' Hin) as (? & ? & Hs). split; [done|]. split; [done|].
      eapply list.Forall_impl; [exact Hs|]. intros i [Hnone Hid]. split; [apply Hgone; auto|by right].
  - intros k cb [[=]|Hin]%elem_of_cons. by apply Hcb.
Qed.

Lemma coinbase_new H m h cb : history_ok H m h → tx_valid cb → coinbase_ok h cb → txid_of cb ∉ ids H ∨ collision_in (enc_tx_core cb :: cores H).
Proof.
  intros Ho Hv ((_ & Hz & _) & _ & _ & Hlock).
  destruct (decide (txid_of cb ∈ ids H)) as [Hin|]; [|by left]. right.
  destruct (known_id H m h cb Ho Hin Hv) as [(tag & tx' & Hin' & Hcore)|?]; [|done]. exfalso.
  assert (tx_nonce tx' = tx_nonce cb ∧ locktime tx' = locktime cb) as [Hnonce Hloc] by (rewrite Hcore; done).
  destruct tag as [k|].
  - destruct (ho_coinbase H m h Ho k tx' Hin') as [(_ & _ & _ & ?) ?]. lia.
  - destruct (ho_spent H m h Ho tx' Hin') as (? & _). lia.
Qed.

Lemma history_coinbase H m h cb : history_ok H m h → wire_tx cb → coinbase_ok h cb →
  txid_of cb ∉ ids H → history_ok ((Some h, cb) :: H) (coinbase_created (txid_of cb) h (outputs cb) ∪ m) (h + 1).
Proof.
  intros Ho [Hv Hl] Hok Hnew.
  pose proof (outputs_small cb Hv) as Hout. destruct Ho as [Hw Hids Hdom Hsp Hcb].
  assert (∀ op, is_Some (coinbase_created (txid_of cb) h (outputs cb) !! op) → op_txid op = txid_of cb) as Hcr.
  { intros op Hop. unfold coinbase_created in Hop. rewrite lookup_fmap, fmap_is_Some in Hop.
    by apply (created_txid (coinbase_ctx (txid_of cb) h) (outputs cb)). }
  split.
  - by constructor.
  - cbn. by constructor.
  - intros op Hop. unfold ids. rewrite fmap_cons. cbn [snd]. rewrite elem_of_cons.
    destruct (coinbase_created (txid_of cb) h (outputs cb) !! op) as [e|] eqn:E; [left; apply Hcr; by rewrite E|right].
    rewrite lookup_union, E, (left_id_L None _) in Hop. by apply Hdom.
  - intros tx [[=]|Hin]%elem_of_cons. destruct (Hsp tx Hin) as (? & ? & Hs). split; [done|]. split; [done|].
    eapply list.Forall_impl; [exact Hs|]. intros i [Hnone Hid]. split; [|by right].
    rewrite lookup_union, Hnone, (right_id_L None _).
    destruct (coinbase_created (txid_of cb) h (outputs cb) !! outpoint_of i) as [e|] eqn:E; [|done].
    destruct Hnew. rewrite <- (Hcr (outpoint_of i)); [done|by rewrite E].
  - intros k cb' [[= -> ->]|Hin]%elem_of_cons; [split; [done|lia]|]. destruct (Hcb k cb' Hin). split; [done|lia].
Qed.

Definition tx_history (txs : list Tx) : history := reverse ((λ tx, (None, tx)) <$> txs).
Lemma tx_history_cons tx txs H : tx_history (tx :: txs) ++ H = tx_history txs ++ (None, tx) :: H.
Proof. unfold tx_history. by rewrite fmap_cons, reverse_cons, <- app_assoc. Qed.

Lemma ids_suffix_new H k x : NoDup (ids (k ++ x :: H)) → txid_of x.2 ∉ ids H.
Proof.
  unfold ids. rewrite fmap_app, fmap_cons. intros (_ & _ & [Hn _]%list.NoDup_cons)%list.NoDup_app. done.
Qed.

(** The steps of a block: what they lead to when the ids are new, and that
    they are new unless two of the cores collide. *)
Lemma history_steps h height timestamp mtp chain_id rotation registry m txs m' fees H :
  ledger_steps height timestamp mtp chain_id rotation registry m ((λ tx, (tx, txid_of tx)) <$> txs) m' fees →
  history_ok H m h → Forall wire_tx txs →
  (NoDup (ids (tx_history txs ++ H)) → history_ok (tx_history txs ++ H) m' h)
  ∧ (NoDup (ids (tx_history txs ++ H)) ∨ collision_in (cores (tx_history txs ++ H))).
Proof.
  revert m fees H. induction txs as [|tx txs IH]; intros m fees H Hs Ho Hw; rewrite ?fmap_nil, ?fmap_cons in *.
  { inversion Hs; subst. split; [done|]. left. apply Ho. }
  apply list.Forall_cons in Hw as [Hx Hw]. inversion Hs as [|? ? ? ? es wss fees' Ha Hs']; subst. rewrite tx_history_cons.
  pose proof (history_tx H h height timestamp mtp chain_id rotation registry m tx es wss Ho Hx Ha) as Hstep.
  destruct (accepted_new H h height timestamp mtp chain_id rotation registry m tx es wss Ho (proj1 Hx) Ha) as [Hnew|Hc].
  - by apply (IH _ _ _ Hs' (Hstep Hnew) Hw).
  - split; [intros Hnd; pose proof (ids_suffix_new H _ (None, tx) Hnd) as Hnew; by apply (IH _ _ _ Hs' (Hstep Hnew) Hw)|].
    right. apply (cores_mono ((None, tx) :: H)); [by eexists|exact Hc].
Qed.

(** ** Blocks *)

(** The transactions of a block, latest first. *)
Definition block_history (h : Z) (pb : ParsedBlock) : history :=
  match pb_txs pb with
  | [] => []
  | cb :: txs => tx_history txs ++ [(Some h, cb)]
  end.

Lemma block_history_ids h pb : ids (block_history h pb) ≡ₚ txid_of <$> pb_txs pb.
Proof.
  unfold ids, block_history, tx_history. destruct (pb_txs pb) as [|cb txs]; [done|].
  rewrite fmap_app, fmap_reverse, <- list_fmap_compose, reverse_Permutation. cbn [fmap list_fmap snd].
  rewrite (comm app). done.
Qed.

Lemma block_wire pb : block_valid pb → len (enc_block pb) ≤ isize_max → Forall wire_tx (pb_txs pb).
Proof.
  intros (_ & _ & _ & _ & Hv & _) Hl. unfold enc_block, enc_list in Hl. rewrite !length_app in Hl.
  assert (∀ tx, tx ∈ pb_txs pb → len (enc_tx tx) ≤ len (concat_map enc_tx (pb_txs pb))) as Hin.
  { intros tx Htx. generalize dependent (pb_txs pb). intros l _ _ Htx. induction Htx as [x l|x y l _ IH]; rewrite concat_map_cons, length_app; lia. }
  rewrite list.Forall_forall in Hv |- *. intros tx Htx. split; [auto|]. specialize (Hin tx Htx).
  assert (len (enc_tx_core tx) ≤ len (enc_tx tx)) by (unfold enc_tx; rewrite !length_app; lia). lia.
Qed.

Lemma history_block ctx st pb m' fees H : block_valid pb → len (enc_block pb) ≤ isize_max →
  connects ctx st pb m' fees → history_ok H (cs_utxos st) (cc_block_height ctx) →
  let H' := block_history (cc_block_height ctx) pb ++ H in
  (NoDup (ids H') → history_ok H' m' (cc_block_height ctx + 1)) ∧ (NoDup (ids H') ∨ collision_in (cores H')).
Proof.
  intros Hv Hlen [_ _ _ _ (cb & txid & Hhd & Hti & Hcok & _ & _ & Hs)] Ho H'.
  pose proof (block_wire pb Hv Hlen) as Hw.
  destruct (block_first pb Hv) as (cb' & rest & Hpb & Hcv & Hrest & Hids & Hnc).
  rewrite Hpb in Hhd. rewrite Hids in Hti. injection Hhd as ->. injection Hti as <-.
  rewrite Hpb in Hw. apply list.Forall_cons in Hw as [Hcw Hrw]. rewrite Hnc in Hs.
  assert (H' = tx_history rest ++ (Some (cc_block_height ctx), cb) :: H) as -> by (unfold H', block_history; by rewrite Hpb, <- app_assoc).
  pose proof (history_coinbase H (cs_utxos st) _ cb Ho Hcw Hcok) as Hstep.
  destruct (coinbase_new H (cs_utxos st) _ cb Ho (proj1 Hcw) Hcok) as [Hnew|Hc].
  - exact (history_steps _ _ _ _ _ _ _ _ _ _ _ _ Hs (Hstep Hnew) Hrw).
  - split; [intros Hnd; pose proof (ids_suffix_new H _ (Some (cc_block_height ctx), cb) Hnd) as Hnew; by apply (history_steps _ _ _ _ _ _ _ _ _ _ _ _ Hs (Hstep Hnew) Hrw)|].
    right. apply (cores_mono ((Some (cc_block_height ctx), cb) :: H)); [by eexists|exact Hc].
Qed.

Lemma history_fresh H m h hb pb : block_valid pb → NoDup (ids (block_history hb pb ++ H)) →
  history_ok H m h → txids_fresh m (pb_txids pb).
Proof.
  intros (_ & _ & _ & _ & _ & Hids & _) Hnd Ho. unfold ids in Hnd. rewrite fmap_app in Hnd.
  apply list.NoDup_app in Hnd as (Hn & Hd & _). change ((λ x, txid_of x.2) <$> block_history hb pb) with (ids (block_history hb pb)) in *.
  rewrite block_history_ids in Hn. split; [by rewrite Hids|].
  intros op Hop Hin. rewrite Hids in Hin. apply (Hd (op_txid op)); [|by apply (ho_dom H m h)].
  by rewrite block_history_ids.
Qed.
End history.

(** ** Chains *)

(** What a block is connected with besides its bytes. *)
Record BlockInputs : Type := mkBlockInputs {
  bi_bytes : bytes; bi_target : option bytes; bi_times : option (list Z); bi_chain_id : bytes;
  bi_rotation : option RotationProvider; bi_registry : option SuiteRegistry }.

Section chains.
Context `{HS : Sha3} `{HO : OpenSsl} `{HX : Hex}.

Definition connect_input (x : BlockInputs) : ChainState → option (nres ChainStateConnectSummary * ChainState) :=
  chain_connect_block_with_suite_context (bi_bytes x) (bi_target x) (bi_times x) (bi_chain_id x) (bi_rotation x)
    (bi_registry x).

(** The node connects the blocks one after the other; the newest is the last. *)
Inductive reaches (s : ChainState) : list BlockInputs → ChainState → Prop :=
  | reaches_refl : reaches s [] s
  | reaches_step l s1 x sum s2 : reaches s l s1 → len (bi_bytes x) ≤ isize_max →
      connect_input x s1 = Some (Ok sum, s2) → reaches s (l ++ [x]) s2.

(** The transactions of the blocks, as the parser reads them. *)
Definition txs_of (l : list BlockInputs) : list Tx :=
  l ≫= λ x, match parse_block_bytes (bi_bytes x) with Ok pb => pb_txs pb | Err _ => [] end.

Lemma chain_wf_new : chain_wf ChainState_new.
Proof. split; [done|done|done|apply map_Forall_empty]. Qed.

Lemma next_height_extended ctx s pb m : next_height (extended ctx s pb m) = next_height s + 1.
Proof. done. Qed.

Lemma connects_values ctx st pb m' fees : block_valid pb → utxo_values (cs_utxos st) → connects ctx st pb m' fees →
  utxo_values m'.
Proof.
  intros Hv Hm [_ _ _ _ (cb & txid & Hhd & _ & _ & _ & _ & Hs)].
  destruct (block_first pb Hv) as (cb' & rest & Hpb & Hcv & Hrest & _ & Hnc). rewrite Hpb in Hhd. injection Hhd as ->.
  eapply ledger_steps_values; [| |exact Hs].
  - rewrite Hnc, <- list_fmap_compose. apply list.Forall_fmap. eapply list.Forall_impl; [exact Hrest|done].
  - apply union_values; [|done]. apply mark_values, created_values. by destruct Hcv as (_ & _ & (_ & ?) & _).
Qed.

(** One more block: the state stays well formed, and the ids are new unless
    two of the cores collide; when they are, the history grows by the block. *)
Lemma connect_history x s sum s' H : len (bi_bytes x) ≤ isize_max → chain_wf s →
  history_ok H (ch_utxos s) (next_height s) → connect_input x s = Some (Ok sum, s') →
  chain_wf s' ∧ ∃ pb, parse_block_bytes (bi_bytes x) = Ok pb ∧
  let H' := block_history (next_height s) pb ++ H in
  (NoDup (ids H') → txids_fresh (ch_utxos s) (pb_txids pb) ∧ history_ok H' (ch_utxos s') (next_height s'))
  ∧ (NoDup (ids H') ∨ collision_in (cores H')).
Proof.
  intros Hb Hwf Ho Hc.
  destruct (chain_connect_Ok _ _ _ _ _ _ _ _ _ Hb Hwf Hc) as (pb & m' & fees & Hp & Hv & Hbe & Hh & _ & Hcn & -> & _).
  split.
  { split; cbn; [done|by rewrite sha3_256_length|done|].
    eapply connects_values; [done| |exact Hcn]. apply wf_values, Hwf. }
  destruct (history_block _ _ pb m' fees H Hv ltac:(by rewrite <- Hbe) Hcn Ho) as [Ho' Hnd].
  exists pb. split; [done|]. split; [|done]. intros Hd. split; [by eapply history_fresh|by apply Ho'].
Qed.

(** The strings hashed for the ids of a chain's transactions. *)
Definition chain_cores (l : list BlockInputs) : list bytes := enc_tx_core <$> txs_of l.
(** No transaction id occurs twice. *)
Definition distinct (l : list BlockInputs) : Prop := NoDup (txid_of <$> txs_of l).

Lemma txs_of_app l1 l2 : txs_of (l1 ++ l2) = txs_of l1 ++ txs_of l2.
Proof. unfold txs_of. apply bind_app. Qed.
Lemma txs_of_one x pb : parse_block_bytes (bi_bytes x) = Ok pb → txs_of [x] = pb_txs pb.
Proof. intros Hp. unfold txs_of. by rewrite bind_singleton, Hp. Qed.
Lemma distinct_prefix l1 l2 : distinct (l1 ++ l2) → distinct l1.
Proof. unfold distinct. rewrite txs_of_app, fmap_app. by intros (? & _)%list.NoDup_app. Qed.

Lemma block_history_txs h pb : (block_history h pb).*2 ≡ₚ pb_txs pb.
Proof.
  unfold block_history, tx_history. destruct (pb_txs pb) as [|cb txs]; [done|].
  rewrite fmap_app, fmap_reverse, <- list_fmap_compose, reverse_Permutation. cbn [fmap list_fmap snd]. rewrite (comm app).
  change (snd ∘ (λ tx, (None (A := Z), tx))) with (id (A := Tx)). by rewrite list_fmap_id.
Qed.

(** The history of a chain: its transactions, and what they say of the state. *)
Definition history_of (l : list BlockInputs) (s : ChainState) : Prop :=
  chain_wf s ∧ ∃ H, history_ok H (ch_utxos s) (next_height s) ∧ H.*2 ≡ₚ txs_of l.

Lemma history_ids (H : list (option Z * Tx)) txs : H.*2 ≡ₚ txs → ids H ≡ₚ txid_of <$> txs ∧ cores H ≡ₚ enc_tx_core <$> txs.
Proof. intros <-. unfold ids, cores. by rewrite <- !list_fmap_compose. Qed.

Lemma history_of_step l s x sum s' : history_of l s → len (bi_bytes x) ≤ isize_max → connect_input x s = Some (Ok sum, s') →
  (distinct (l ++ [x]) → history_of (l ++ [x]) s' ∧ ∀ pb, parse_block_bytes (bi_bytes x) = Ok pb → txids_fresh (ch_utxos s) (pb_txids pb))
  ∧ (distinct (l ++ [x]) ∨ collision_in (chain_cores (l ++ [x]))).
Proof.
  intros (Hwf & H & Ho & HH) Hb Hc. destruct (connect_history x s sum s' H Hb Hwf Ho Hc) as (Hwf' & pb & Hp & Hok & Hnd).
  set (H' := block_history (next_height s) pb ++ H) in *.
  assert (H'.*2 ≡ₚ txs_of (l ++ [x])) as HH'.
  { unfold H'. rewrite fmap_app, block_history_txs, HH, txs_of_app, (txs_of_one x pb Hp). apply Permutation_app_comm. }
  destruct (history_ids H' _ HH') as [Hi Hco]. unfold distinct, chain_cores. rewrite <- Hi. split.
  - intros Hd. destruct (Hok Hd) as [Hfr Ho']. split; [by split; [|exists H']|]. intros pb' Hp'. rewrite Hp in Hp'. by injection Hp' as <-.
  - destruct Hnd as [?|Hcol]; [by left|right]. eapply collision_in_mono; [|exact Hcol]. intros y Hy. by rewrite <- Hco.
Qed.

Lemma chain_cores_mono l k : collision_in (chain_cores l) → collision_in (chain_cores (l ++ k)).
Proof. apply collision_in_mono. unfold chain_cores. rewrite txs_of_app, fmap_app. set_solver. Qed.

Lemma history_of_new : history_of [] ChainState_new.
Proof. split; [apply chain_wf_new|]. exists []. split; [apply history_new|done]. Qed.

Lemma reaches_history l0 s0 l s : history_of l0 s0 → reaches s0 l s → (distinct (l0 ++ l) ∧ history_of (l0 ++ l) s) ∨ collision_in (chain_cores (l0 ++ l)).
Proof.
  intros H0. induction 1 as [|l s1 x sum s2 _ IH Hb Hc].
  { left. rewrite app_nil_r. split; [|done]. destruct H0 as (_ & H & Ho & HH). unfold distinct. rewrite <- (proj1 (history_ids H _ HH)). apply Ho. }
  rewrite app_assoc. destruct IH as [[_ Hh]|?]; [|right; by apply chain_cores_mono].
  destruct (history_of_step _ s1 x sum s2 Hh Hb Hc) as [Hok [Hd|?]]; [left|by right]. split; [done|]. by apply Hok.
Qed.

(** C5: no transaction id occurs twice. Along any chain that the node connects
    from the empty state, whatever the blocks, the ids of all transactions of
    all blocks are distinct, coinbases included, and every unspent output
    belongs to one of them: a connected block never overwrites an output
    (unless the cores of two transactions of the chain collide under
    SHA3-256). *)
Theorem chain_txids_unique l s : reaches ChainState_new l s →
  (NoDup (txid_of <$> txs_of l) ∧ ∀ op, is_Some (ch_utxos s !! op) → op_txid op ∈ txid_of <$> txs_of l)
  ∨ collision_in (enc_tx_core <$> txs_of l).
Proof.
  intros [[Hd (_ & H & Ho & HH)]|?]%(reaches_history [] _ _ _ history_of_new); [left|by right].
  split; [done|]. intros op Hop. cbn [app] in HH. rewrite <- (proj1 (history_ids H _ HH)). by apply (ho_dom H _ _ Ho).
Qed.

(** The undo records that the node keeps along a chain. *)
Inductive recorded (s : ChainState) : list (BlockInputs * BlockUndo) → ChainState → Prop :=
  | recorded_refl : recorded s [] s
  | recorded_step l s1 x sum s2 undo : recorded s l s1 → connect_input x s1 = Some (Ok sum, s2) →
      build_block_undo s1 (bi_bytes x) (ks_block_height sum) = Ok undo → recorded s (l ++ [(x, undo)]) s2.

(** Disconnecting blocks, the newest first. *)
Fixpoint rewind (l : list (BlockInputs * BlockUndo)) : ST ChainState string unit :=
  match l with
  | [] => mret ()
  | (x, undo) :: l => _ ← disconnect_block (bi_bytes x) undo; rewind l
  end.

Lemma rewind_ok l0 l s s' : history_of l0 s → distinct (l0 ++ l) → reaches s l s' →
  history_of (l0 ++ l) s' ∧ ∃ recs, recs.*1 = l ∧ recorded s recs s' ∧ rewind (reverse recs) s' = (Ok (), s).
Proof.
  intros H0 Hd Hr. induction Hr as [|l s1 x sum s2 Hr IH Hb Hc].
  { rewrite app_nil_r. split; [done|]. exists []. split; [done|]. split; [constructor|done]. }
  rewrite app_assoc in *. destruct (IH (distinct_prefix _ _ Hd)) as (Hh & recs & Hl & Hrec & Hrw).
  destruct (history_of_step _ s1 x sum s2 Hh Hb Hc) as [Hok _]. destruct (Hok Hd) as [Hh' Hfr]. split; [done|].
  destruct (connect_disconnect _ _ _ _ _ _ s1 sum s2 Hb (proj1 Hh) Hc) as (undo & ds & Hu & Hdc & _); [exact Hfr|].
  exists (recs ++ [(x, undo)]). rewrite fmap_app, Hl.
  split; [done|]. split; [by econstructor|]. rewrite reverse_app. cbn [reverse rev_append app rewind].
  unfold mbind, st_bind. by rewrite Hdc.
Qed.

(** C4: a reorganization returns exactly to the fork. Take a chain that the
    node connected from the empty state up to [s], and any further blocks it
    connected after [s], up to [s']. The undo record of each of these blocks
    can be built from the state before it; and disconnecting the blocks with
    these records from [s'], the newest first, succeeds and gives back [s]:
    every unspent output with its entry, the amount generated, the height and
    the tip (unless the cores of two transactions of these blocks collide under
    SHA3-256). *)
Theorem reorg_rewind l s l' s' : reaches ChainState_new l s → reaches s l' s' →
  (∃ recs, recs.*1 = l' ∧ recorded s recs s' ∧ rewind (reverse recs) s' = (Ok (), s))
  ∨ collision_in (enc_tx_core <$> txs_of (l ++ l')).
Proof.
  intros Hr Hr'. apply (reaches_history [] _ _ _ history_of_new) in Hr as [[_ Hh]|?]; [|right; by apply (chain_cores_mono l l')].
  destruct (reaches_history l s l' s' Hh Hr') as [[Hd _]|?]; [left|by right]. by apply (rewind_ok l l' s s' Hh Hd Hr').
Qed.
End chains.

(** ** Witness: two blocks *)

Definition demo_next_block (height timestamp : Z) (prev : bytes) : ParsedBlock :=
  let cb := mkTx 1 0 0 (inputs demo_coinbase) (outputs demo_coinbase) height None None [] [] in
  let txid := toy_digest (enc_tx_core cb) in
  let header := mkBlockHeader 1 prev (leaf_hash (HS := toy_sha3) x00 txid) timestamp (replicate 32 xff) 7 in
  mkParsedBlock header (enc_header header) 1 [cb] [txid] [toy_digest (enc_tx cb)].

Definition demo_block0 : ParsedBlock := demo_next_block 0 1000 (zeros 32).
Definition demo_block1 : ParsedBlock := demo_next_block 1 1010 (toy_digest (pb_header_bytes demo_block0)).
Definition demo_input (pb : ParsedBlock) (times : option (list Z)) : BlockInputs :=
  mkBlockInputs (enc_block pb) None times (zeros 32) None None.
Definition demo_input0 : BlockInputs := demo_input demo_block0 None.
Definition demo_input1 : BlockInputs := demo_input demo_block1 (Some [1000]).

Abbreviation demo_connect_input := (connect_input (HS := toy_sha3) (HO := toy_openssl) (HX := toy_hex)).
Abbreviation demo_reaches := (reaches (HS := toy_sha3) (HO := toy_openssl) (HX := toy_hex)).

Definition connected_state (o : option (nres ChainStateConnectSummary * ChainState)) : option ChainState :=
  match o with Some (Ok _, s) => Some s | _ => None end.
Definition demo_chain0 : ChainState := default ChainState_new (connected_state (demo_connect_input demo_input0 ChainState_new)).
Definition demo_chain1 : ChainState := default ChainState_new (connected_state (demo_connect_input demo_input1 demo_chain0)).

Lemma demo_chain_connected :
  bool_decide (is_Some (connected_state (demo_connect_input demo_input0 ChainState_new)))
  && bool_decide (is_Some (connected_state (demo_connect_input demo_input1 demo_chain0)))
  && bool_decide (len (bi_bytes demo_input0) ≤ isize_max) && bool_decide (len (bi_bytes demo_input1) ≤ isize_max) = true.
Proof. by vm_compute. Qed.

Lemma reaches_one x s : len (bi_bytes x) ≤ isize_max → is_Some (connected_state (demo_connect_input x s)) →
  demo_reaches s [x] (default ChainState_new (connected_state (demo_connect_input x s))).
Proof.
  intros Hb [s' Hs]. rewrite Hs. destruct (demo_connect_input x s) as [[[sum|e] s1]|] eqn:E; [|done..].
  injection Hs as <-. apply (reaches_step s [] s x sum s1); [constructor|done|done].
Qed.

Lemma demo_reaches0 : demo_reaches ChainState_new [demo_input0] demo_chain0.
Proof.
  pose proof demo_chain_connected as H. rewrite !andb_true_iff, !bool_decide_eq_true in H. destruct H as [[[? _] ?] _].
  by apply reaches_one.
Qed.
Lemma demo_reaches1 : demo_reaches demo_chain0 [demo_input1] demo_chain1.
Proof.
  pose proof demo_chain_connected as H. rewrite !andb_true_iff, !bool_decide_eq_true in H. destruct H as [[[_ ?] _] ?].
  by apply reaches_one.
Qed.

Lemma reorg_rewind_witness : demo_reaches ChainState_new [demo_input0] demo_chain0
  ∧ demo_reaches demo_chain0 [demo_input1] demo_chain1
  ∧ ((∃ recs, recs.*1 = [demo_input1]
       ∧ recorded (HS := toy_sha3) (HO := toy_openssl) (HX := toy_hex) demo_chain0 recs demo_chain1
       ∧ rewind (HS := toy_sha3) (HX := toy_hex) (reverse recs) demo_chain1 = (Ok (), demo_chain0))
     ∨ collision_in (HS := toy_sha3) (enc_tx_core <$> txs_of (HS := toy_sha3) ([demo_input0] ++ [demo_input1]))).
Proof.
  split; [exact demo_reaches0|]. split; [exact demo_reaches1|].
  exact (reorg_rewind (HS := toy_sha3) (HO := toy_openssl) (HX := toy_hex) _ _ _ _ demo_reaches0 demo_reaches1).
Defined.

Lemma chain_txids_unique_witness : demo_reaches ChainState_new [demo_input0] demo_chain0
  ∧ ((NoDup (txid_of (HS := toy_sha3) <$> txs_of (HS := toy_sha3) [demo_input0])
      ∧ ∀ op, is_Some (ch_utxos demo_chain0 !! op) →
          op_txid op ∈ txid_of (HS := toy_sha3) <$> txs_of (HS := toy_sha3) [demo_input0])
     ∨ collision_in (HS := toy_sha3) (enc_tx_core <$> txs_of (HS := toy_sha3) [demo_input0])).
Proof.
  split; [exact demo_reaches0|].
  exact (chain_txids_unique (HS := toy_sha3) (HO := toy_openssl) (HX := toy_hex) _ _ demo_reaches0).
Defined.
