(* ===== verification/BlockStore.v ===== *)
(** * The block store's canonical index ([blockstore.rs], [io_utils.rs])

    The index maps heights to block hashes.  It is kept in hexadecimal, as it
    is saved, with a decoded copy for reading.  Writing it to the disk is
    outside the program: every saving operation takes the outcome of the
    write, and the file's content is part of the state. *)

From Stdlib Require Import Ascii.
From stdpp Require Import pretty.
From S2P Require Import Prelude Bytes Errors Constants Crypto WireRead CompactSize TxWire Block Pow.
From S2P Require Import Vault Suites Verify SigCache WorkerPool SigQueue Sighash Spend NodeText.

(** ** Atomic writes *)

(* rust: node/io_utils.rs 840-843 AtomicWriteStage *)
Inductive AtomicWriteStage : Type := BeforeNamespaceCommit | AfterNamespaceCommit.
(* rust: node/io_utils.rs 845-848 AtomicWriteOperation *)
Inductive AtomicWriteOperation : Type := Overwrite | CreateIfAbsent.
#[export] Instance AtomicWriteStage_eq_dec : EqDecision AtomicWriteStage.
Proof. solve_decision. Defined.

(** A path is what it displays as. *)
(* rust: node/io_utils.rs 850-856 AtomicWriteError *)
Record AtomicWriteError : Type := mkAtomicWriteError {
  aw_stage : AtomicWriteStage; aw_destination : string; aw_operation : AtomicWriteOperation;
  aw_primary : string; aw_secondary : list string }.

(* rust: node/io_utils.rs 902-913 atomic_write_error_before *)
Definition atomic_write_error_before (destination : string) (operation : AtomicWriteOperation) (primary : string) :
    AtomicWriteError :=
  mkAtomicWriteError BeforeNamespaceCommit destination operation primary [].

(* rust: node/io_utils.rs 880-899 fmt *)
Definition display_write_error (e : AtomicWriteError) : string :=
  let stage := match aw_stage e with
               | BeforeNamespaceCommit => "before_namespace_commit"
               | AfterNamespaceCommit => "after_namespace_commit"
               end%string in
  let operation := match aw_operation e with
                   | Overwrite => "overwrite" | CreateIfAbsent => "create_if_absent"
                   end%string in
  (aw_primary e +:+ " (atomic write " +:+ stage +:+ " " +:+ operation +:+ " for " +:+ aw_destination e +:+ ")"
   +:+ (if bool_decide (aw_secondary e = []) then ""
        else " (secondary: " +:+ String.concat "; " (aw_secondary e) +:+ ")"))%string.

(* rust: node/io_utils.rs 926-928 is_atomic_write_post_commit *)
Definition is_atomic_write_post_commit (e : AtomicWriteError) : bool := bool_decide (aw_stage e = AfterNamespaceCommit).

(** ** The store *)

(** [bs_disk] is the saved index; the directories are represented by their
    files in [Branch.v]. *)
(* rust: node/blockstore.rs 31-60 BlockStore *)
Record BlockStore : Type := mkBlockStore {
  bs_index_path : string; bs_canonical : list string; bs_canonical_hash_by_height : list bytes; bs_disk : list string }.

(** What happens to a write: it is done, or it fails at a stage; a failure
    after the commit has replaced the file. *)
Definition write_outcome : Type := result AtomicWriteError unit.

Definition on_disk (o : write_outcome) (new old : list string) : list string :=
  match o with
  | Ok _ => new
  | Err e => match aw_stage e with AfterNamespaceCommit => new | BeforeNamespaceCommit => old end
  end.

(** [split_off], then the part before: [Vec::truncate]. *)
Abbreviation truncate n l := (take (Z.to_nat n) l).

Section store.
Context `{HX : Hex}.

Definition set_memory (s : BlockStore) (canonical : list string) (cache : list bytes) : BlockStore :=
  mkBlockStore (bs_index_path s) canonical cache (bs_disk s).
Definition set_disk (s : BlockStore) (disk : list string) : BlockStore :=
  mkBlockStore (bs_index_path s) (bs_canonical s) (bs_canonical_hash_by_height s) disk.

(* rust: node/blockstore.rs 395-427 set_canonical_tip_typed *)
Definition set_canonical_tip_typed (o : write_outcome) (height : Z) (block_hash_bytes : bytes) :
    ST BlockStore AtomicWriteError unit := λ self,
  let hash_hex := hex_encode block_hash_bytes in
  let current_len := len (bs_canonical self) in
  if current_len <? height then
    (Err (atomic_write_error_before (bs_index_path self) Overwrite
       ("height gap: got " +:+ pretty height +:+ ", expected <= " +:+ pretty current_len)%string), self) else
  if bool_decide (bs_canonical self !! Z.to_nat height = Some hash_hex) then (Ok (), self) else
  let displaced_canonical := drop (Z.to_nat height) (bs_canonical self) in
  let displaced_cache := drop (Z.to_nat height) (bs_canonical_hash_by_height self) in
  let self := set_memory self (truncate height (bs_canonical self) ++ [hash_hex])
                (truncate height (bs_canonical_hash_by_height self) ++ [block_hash_bytes]) in
  let self := set_disk self (on_disk o (bs_canonical self) (bs_disk self)) in
  match o with
  | Err e =>
      let self := if bool_decide (aw_stage e = BeforeNamespaceCommit)
                  then set_memory self (truncate height (bs_canonical self) ++ displaced_canonical)
                         (truncate height (bs_canonical_hash_by_height self) ++ displaced_cache)
                  else self in
      (Err e, self)
  | Ok _ => (Ok (), self)
  end.

(* rust: node/blockstore.rs 962-999 truncate_canonical_typed *)
Definition truncate_canonical_typed (o : write_outcome) (new_len : Z) : ST BlockStore AtomicWriteError unit := λ self,
  let current_len := len (bs_canonical self) in
  if current_len <? new_len then
    (Err (atomic_write_error_before (bs_index_path self) Overwrite
       ("truncate_canonical new_len " +:+ pretty new_len +:+ " > current " +:+ pretty current_len)%string), self) else
  if new_len =? current_len then (Ok (), self) else
  let self := set_disk self (on_disk o (truncate new_len (bs_canonical self)) (bs_disk self)) in
  match o with
  | Err e => (Err e, self)
  | Ok _ => (Ok (), set_memory self (truncate new_len (bs_canonical self))
                      (truncate new_len (bs_canonical_hash_by_height self)))
  end.

(* rust: node/blockstore.rs 431-449 rewind_to_height *)
Definition rewind_to_height (o : write_outcome) (height : Z) : ST BlockStore string unit := λ self,
  if bool_decide (bs_canonical self = []) then (Ok (), self) else
  if len (bs_canonical self) <=? height
  then (Err ("rewind height out of range: " +:+ pretty height)%string, self) else
  let new_len := height + 1 in
  match truncate_canonical_typed o new_len self with
  | (Ok _, self) => (Ok (), self)
  | (Err error, self) =>
      let self := if bool_decide (aw_stage error = AfterNamespaceCommit)
                  then set_memory self (truncate new_len (bs_canonical self))
                         (truncate new_len (bs_canonical_hash_by_height self))
                  else self in
      (Err (display_write_error error), self)
  end.

(* rust: node/blockstore.rs 1027-1039 build_canonical_hash_cache *)
Definition build_canonical_hash_cache (canonical : list string) : nres (list bytes) :=
  try_fold (λ (out : list bytes) (p : Z * string),
    let '(i, hash_hex) := p in
    hash ← map_err (λ e, "canonical[" +:+ pretty i +:+ "]: " +:+ e)%string (parse_hex32 "canonical" hash_hex);
    Ok (out ++ [hash])) [] (imap (λ i h, (Z.of_nat i, h)) canonical).

(* rust: node/blockstore.rs 917-953 rollback_canonical_typed *)
Definition rollback_canonical_typed (o : write_outcome) (base_len : Z) (suffix : list string) :
    ST BlockStore AtomicWriteError unit := λ self,
  let clamped_base := Z.min base_len (len (bs_canonical self)) in
  let next_canonical := truncate clamped_base (bs_canonical self) ++ suffix in
  match build_canonical_hash_cache next_canonical with
  | Err error => (Err (atomic_write_error_before (bs_index_path self) Overwrite error), self)
  | Ok next_cache =>
      let self := set_disk self (on_disk o next_canonical (bs_disk self)) in
      match o with
      | Err e => (Err e, self)
      | Ok _ => (Ok (), set_memory self next_canonical next_cache)
      end
  end.

(** [read_error] is what [load_blockstore_index] fails with; a file that can be
    read and decoded is the one last written. *)
(* rust: node/blockstore.rs 1001-1007 reload_persistence_state *)
Definition reload_persistence_state (read_error : option string) : ST BlockStore string unit := λ self,
  match (disk ← match read_error with Some e => Err e | None => Ok (bs_disk self) end; build_canonical_hash_cache disk) with
  | Err e => (Err e, self)
  | Ok cache => (Ok (), set_memory self (bs_disk self) cache)
  end.

(* rust: node/blockstore.rs 895-900 canonical_suffix_from *)
Definition canonical_suffix_from (self : BlockStore) (start : Z) : list string :=
  if len (bs_canonical self) <=? start then [] else drop (Z.to_nat start) (bs_canonical self).

(** ** Reading the index *)

(* rust: node/blockstore.rs 454-459 canonical_hash *)
Definition canonical_hash (self : BlockStore) (height : Z) : option bytes :=
  if len (bs_canonical_hash_by_height self) <=? height then None
  else bs_canonical_hash_by_height self !! Z.to_nat height.

(* rust: node/blockstore.rs 484-493 tip *)
Definition bs_tip (self : BlockStore) : option (Z * bytes) :=
  if bool_decide (bs_canonical_hash_by_height self = []) then None else
  let height := len (bs_canonical_hash_by_height self) - 1 in
  h ← bs_canonical_hash_by_height self !! Z.to_nat height;
  Some (height, h).

(* rust: node/blockstore.rs 468-474 verify_genesis_anchor *)
Definition verify_genesis_anchor (anchor_err : string) (self : BlockStore) (genesis_hash : bytes) : nres unit :=
  match canonical_hash self 0 with
  | None => Ok ()
  | Some row0 => if bool_decide (row0 = genesis_hash) then Ok () else Err anchor_err
  end.

(** The heights from the tip down to 0. *)
Definition heights_down (tip_height : Z) : list Z := reverse (seqZ 0 (tip_height + 1)).

(* rust: node/blockstore.rs 590-600 find_canonical_height *)
Definition find_canonical_height (self : BlockStore) (block_hash_bytes : bytes) : option Z :=
  match bs_tip self with
  | None => None
  | Some (tip_height, _) =>
      snd <$> list_find (λ height, canonical_hash self height = Some block_hash_bytes) (heights_down tip_height)
  end.

(** The loop moves down at least one height per step, so the number of
    heights is enough fuel; [None] is running out of it. *)
(* rust: node/blockstore.rs 610-624 locator_hashes *)
Fixpoint locator_loop (fuel : nat) (self : BlockStore) (limit tip_height step appended : Z) (out : list bytes) :
    option (list bytes) :=
  match fuel with
  | O => None
  | S fuel =>
      match canonical_hash self tip_height with
      | None => Some out
      | Some hash =>
          let out := out ++ [hash] in
          let appended := appended + 1 in
          if (limit <=? appended) || (tip_height =? 0) then Some out else
          let step := if 10 <=? appended then Z.min u64_max (step * 2) else step in
          let tip_height := if tip_height <=? step then 0 else tip_height - step in
          locator_loop fuel self limit tip_height step appended out
      end
  end.

(* rust: node/blockstore.rs 602-626 locator_hashes *)
Definition locator_hashes (fuel : nat) (self : BlockStore) (limit : Z) : option (list bytes) :=
  let limit := if limit =? 0 then 32 else limit in
  match bs_tip self with
  | None => Some []
  | Some (tip_height, _) => locator_loop fuel self limit tip_height 1 0 []
  end.

(* rust: node/blockstore.rs 646-658 hashes_after_locators *)
Fixpoint hashes_loop (self : BlockStore) (stop_hash : bytes) (limit : Z) (heights : list Z) (out : list bytes) :
    list bytes :=
  match heights with
  | [] => out
  | height :: heights =>
      if limit <=? len out then out else
      match canonical_hash self height with
      | None => out
      | Some hash =>
          let out := out ++ [hash] in
          if negb (bool_decide (stop_hash = replicate 32 x00)) && bool_decide (hash = stop_hash) then out
          else hashes_loop self stop_hash limit heights out
      end
  end.

(* rust: node/blockstore.rs 628-659 hashes_after_locators *)
Definition hashes_after_locators (self : BlockStore) (locators : list bytes) (stop_hash : bytes) (limit : Z) :
    list bytes :=
  let limit := if limit =? 0 then 128 else limit in
  match bs_tip self with
  | None => []
  | Some (tip_height, _) =>
      let start_height := match head (omap (find_canonical_height self) locators) with
                          | Some height => saturating_add u64_max height 1
                          | None => 0
                          end in
      hashes_loop self stop_hash limit (seqZ start_height (tip_height + 1 - start_height)) []
  end.
End store.

(** ** The index and its saved copy *)

Section coherence.
Context `{HX : Hex}.

(** The decoded copy is the index. *)
Definition coherent (s : BlockStore) : Prop :=
  bs_canonical s = hex_encode <$> bs_canonical_hash_by_height s
  ∧ Forall (λ h, len h = 32) (bs_canonical_hash_by_height s).
Definition saved (s : BlockStore) : Prop := bs_disk s = bs_canonical s.

Lemma build_cache_run l : Forall (λ h, len h = 32) l → build_canonical_hash_cache (hex_encode <$> l) = Ok l.
Proof.
  intros Hl. unfold build_canonical_hash_cache.
  enough (∀ k out, try_fold (λ (out : list bytes) (p : Z * string),
      let '(i, hash_hex) := p in
      hash ← map_err (λ e, "canonical[" +:+ pretty i +:+ "]: " +:+ e)%string (parse_hex32 "canonical" hash_hex);
      Ok (out ++ [hash])) out (imap (λ i h, (Z.of_nat (k + i), h)) (hex_encode <$> l)) = Ok (out ++ l)) as H by exact (H 0%nat []).
  induction Hl as [|h l Hh _ IH]; intros k out; [by rewrite app_nil_r|].
  rewrite fmap_cons, imap_cons. cbn [try_fold]. rewrite parse_hex32_encode by done. cbn [map_err]. run_bind.
  specialize (IH (S k) (out ++ [h])). rewrite <- app_assoc in IH. etransitivity; [|exact IH]. f_equal.
  apply imap_ext. intros i x _. unfold compose. f_equal. lia.
Qed.

(** The operations that save the index, and the index each asks for. *)
Inductive index_op : Type :=
  | SetTip (height : Z) (hash : bytes) | Truncate (new_len : Z) | Rollback (base_len : Z) (suffix : list bytes).

Definition run_op (o : write_outcome) (op : index_op) : ST BlockStore AtomicWriteError unit :=
  match op with
  | SetTip height hash => set_canonical_tip_typed o height hash
  | Truncate new_len => truncate_canonical_typed o new_len
  | Rollback base_len suffix => rollback_canonical_typed o base_len (hex_encode <$> suffix)
  end.
Definition op_hashes (op : index_op) : list bytes :=
  match op with SetTip _ hash => [hash] | Truncate _ => [] | Rollback _ suffix => suffix end.
Definition op_target (op : index_op) (l : list bytes) : list bytes :=
  match op with
  | SetTip height hash => if bool_decide (l !! Z.to_nat height = Some hash) then l else truncate height l ++ [hash]
  | Truncate new_len => truncate new_len l
  | Rollback base_len suffix => truncate (Z.min base_len (len l)) l ++ suffix
  end.
Definition op_in_range (op : index_op) (l : list bytes) : Prop :=
  match op with SetTip height _ => height ≤ len l | Truncate new_len => new_len ≤ len l | Rollback _ _ => True end.

Lemma lookup_hex (l : list bytes) n h : (hex_encode <$> l) !! n = Some (hex_encode h) ↔ l !! n = Some h.
Proof.
  rewrite list_lookup_fmap. destruct (l !! n) as [x|]; cbn; [|done]. split; [intros [= ?%hex_encode_inj]|intros [= ->]]; congruence.
Qed.

Lemma set_memory_same s : set_memory s (bs_canonical s) (bs_canonical_hash_by_height s) = s.
Proof. by destruct s. Qed.

(** What an operation leaves, by the outcome of its write. *)
Definition op_result (o : write_outcome) (op : index_op) (s : BlockStore) (r : result AtomicWriteError unit) (s' : BlockStore) : Prop :=
  let target := op_target op (bs_canonical_hash_by_height s) in
  coherent s' ∧ bs_index_path s' = bs_index_path s ∧
  match r with
  | Ok _ => op_in_range op (bs_canonical_hash_by_height s) ∧ saved s' ∧ bs_canonical_hash_by_height s' = target
  | Err e =>
      match aw_stage e with
      | BeforeNamespaceCommit => s' = s
      | AfterNamespaceCommit => o = Err e ∧ bs_disk s' = hex_encode <$> target
      end
  end.

Lemma set_tip_ok o height hash s r s' : coherent s → saved s → 0 ≤ height → len hash = 32 →
  run_op o (SetTip height hash) s = (r, s') → op_result o (SetTip height hash) s r s'.
Proof.
  intros Hcoh Hsv Hh Hlen. pose proof Hcoh as [Hc Hl]. unfold op_result. cbn [run_op op_target op_in_range op_hashes].
  assert (len (bs_canonical s) = len (bs_canonical_hash_by_height s)) as Hlc by (by rewrite Hc, length_fmap).
  unfold set_canonical_tip_typed. rewrite Hlc.
  destruct (_ <? height) eqn:Hgap; [by intros [= <- <-]|].
  assert (bool_decide (bs_canonical s !! Z.to_nat height = Some (hex_encode hash))
          = bool_decide (bs_canonical_hash_by_height s !! Z.to_nat height = Some hash)) as ->.
  { apply bool_decide_ext. rewrite Hc. apply lookup_hex. }
  case_bool_decide; [intros [= <- <-]; split_and!; [done|done|lia|done|done]|].
  set (target := truncate height (bs_canonical_hash_by_height s) ++ [hash]).
  assert (truncate height (bs_canonical s) ++ [hex_encode hash] = hex_encode <$> target) as Ht.
  { unfold target. by rewrite Hc, fmap_app, fmap_take. }
  assert (Forall (λ h, len h = 32) target) as Htl.
  { apply Forall_app. split; [by apply Forall_take|by constructor]. }
  cbn [set_memory set_disk bs_canonical bs_canonical_hash_by_height bs_disk bs_index_path]. rewrite Ht. fold target.
  destruct o as [[]|e]; cbn [on_disk]; [intros [= <- <-]; split_and!; try done; lia|].
  destruct (aw_stage e) eqn:He.
  - rewrite bool_decide_eq_true_2 by done. intros [= <- <-]. rewrite He.
    assert (∀ (A : Type) (f : A) (l : list A), 0 ≤ height ≤ len l →
      truncate height (truncate height l ++ [f]) ++ drop (Z.to_nat height) l = l) as Hback.
    { intros A f l Hl'. rewrite take_app_le by (rewrite length_take; lia).
      rewrite take_take, Nat.min_id. apply take_drop. }
    rewrite <- Ht. unfold target. cbn [set_memory set_disk bs_canonical bs_canonical_hash_by_height bs_index_path bs_disk].
    rewrite !Hback by lia. by destruct s.
  - rewrite bool_decide_eq_false_2 by done. intros [= <- <-]. rewrite He. by split_and!.
Qed.

Lemma truncate_ok o n s r s' : coherent s → saved s → 0 ≤ n →
  run_op o (Truncate n) s = (r, s') → op_result o (Truncate n) s r s'.
Proof.
  intros Hcoh Hsv Hn. pose proof Hcoh as [Hc Hl]. unfold op_result. cbn [run_op op_target op_in_range op_hashes].
  assert (len (bs_canonical s) = len (bs_canonical_hash_by_height s)) as Hlc by (by rewrite Hc, length_fmap).
  unfold truncate_canonical_typed. rewrite Hlc.
  destruct (_ <? n) eqn:Hgap; [by intros [= <- <-]|].
  destruct (n =? _) eqn:Hsame.
  { intros [= <- <-]. split_and!; [done|done|lia|done|]. rewrite take_ge; [done|lia]. }
  set (target := truncate n (bs_canonical_hash_by_height s)).
  assert (truncate n (bs_canonical s) = hex_encode <$> target) as Ht by (unfold target; by rewrite Hc, fmap_take).
  assert (Forall (λ h, len h = 32) target) as Htl by (by apply Forall_take).
  cbn [set_memory set_disk bs_canonical bs_canonical_hash_by_height bs_disk bs_index_path]. rewrite Ht. fold target.
  destruct o as [[]|e]; cbn [on_disk]; [intros [= <- <-]; split_and!; try done; lia|].
  destruct (aw_stage e) eqn:He; intros [= <- <-]; rewrite He; [|by split_and!].
  by destruct s.
Qed.

Lemma rollback_ok o base suffix s r s' : coherent s → saved s → 0 ≤ base → Forall (λ h, len h = 32) suffix →
  run_op o (Rollback base suffix) s = (r, s') → op_result o (Rollback base suffix) s r s'.
Proof.
  intros Hcoh Hsv Hb Hs. pose proof Hcoh as [Hc Hl]. unfold op_result. cbn [run_op op_target op_in_range op_hashes].
  assert (len (bs_canonical s) = len (bs_canonical_hash_by_height s)) as Hlc by (by rewrite Hc, length_fmap).
  unfold rollback_canonical_typed. rewrite Hlc.
  set (target := truncate (Z.min base (len (bs_canonical_hash_by_height s))) (bs_canonical_hash_by_height s) ++ suffix).
  assert (truncate (Z.min base (len (bs_canonical_hash_by_height s))) (bs_canonical s) ++ (hex_encode <$> suffix)
          = hex_encode <$> target) as -> by (unfold target; by rewrite Hc, fmap_app, fmap_take).
  assert (Forall (λ h, len h = 32) target) as Htl by (apply Forall_app; split; [by apply Forall_take|done]).
  rewrite build_cache_run by done.
  destruct o as [[]|e]; cbn [on_disk]; [intros [= <- <-]; by split_and!|].
  destruct (aw_stage e) eqn:He; intros [= <- <-]; rewrite He; [|by split_and!].
  by destruct s.
Qed.

(** C8: the canonical index and its file, under every outcome of a write. From
    a state in which the decoded copy is the index and the file holds it, an
    operation (a new tip, a truncation, a rollback) either succeeds, and then
    index, decoded copy and file are all the list it asks for; or fails before
    the file is replaced, and then nothing has changed, in memory or on the
    disk; or fails after, and then the file holds the list asked for. The
    decoded copy is the index in every case, and reading the file back after a
    failure gives a state in which all three agree again, or fails and leaves
    the state as it is. *)
Theorem index_write_safe o op s r s' : coherent s → saved s → Forall (λ h, len h = 32) (op_hashes op) →
  match op with SetTip n _ | Truncate n | Rollback n _ => 0 ≤ n end →
  run_op o op s = (r, s') →
  let target := op_target op (bs_canonical_hash_by_height s) in
  coherent s' ∧
  match r with
  | Ok _ => saved s' ∧ bs_canonical_hash_by_height s' = target
  | Err e =>
      (∀ e', reload_persistence_state (Some e') s' = (Err e', s'))
      ∧ (∃ s'', reload_persistence_state None s' = (Ok (), s'') ∧ coherent s'' ∧ saved s''
        ∧ bs_canonical_hash_by_height s''
          = match aw_stage e with BeforeNamespaceCommit => bs_canonical_hash_by_height s | AfterNamespaceCommit => target end)
      ∧ (aw_stage e = BeforeNamespaceCommit → s' = s)
  end.
Proof.
  intros Hc Hsv Hl Hn Hrun target.
  assert (op_result o op s r s') as (Hc' & _ & Hr).
  { destruct op; [apply set_tip_ok|apply truncate_ok|apply rollback_ok]; try done. cbn in Hl. by apply list.Forall_cons in Hl as [? _]. }
  split; [done|]. destruct r as [u|e]; [tauto|].
  assert (Forall (λ h, len h = 32) target) as Ht.
  { destruct Hc as [_ Hcl]. unfold target, op_target. destruct op; [case_bool_decide; [done|]|..];
      rewrite ?Forall_app; try split; try done; by apply Forall_take. }
  split; [done|]. split; [|intros He; by rewrite He in Hr].
  unfold reload_persistence_state. cbn [mbind result_bind]. destruct (aw_stage e).
  - subst s'. destruct Hc as [Hc Hcl]. rewrite Hsv, Hc, build_cache_run by done.
    eexists. split; [reflexivity|]. split; [by split|]. split; [|done]. by unfold saved in *; cbn; rewrite ?Hsv, ?Hc.
  - destruct Hr as [_ Hd]. rewrite Hd, build_cache_run by done.
    eexists. split; [reflexivity|]. split; [by split|]. split; [|done]. by unfold saved; cbn.
Qed.
End coherence.

(** ** Reading the index *)

Section reading.
Implicit Types (s : BlockStore).

Lemma canonical_hash_Some s k h : 0 ≤ k →
  canonical_hash s k = Some h ↔ bs_canonical_hash_by_height s !! Z.to_nat k = Some h.
Proof.
  intros Hk. unfold canonical_hash. destruct (_ <=? k) eqn:E; [|done]. split; [done|].
  intros Hl%lookup_lt_Some. lia.
Qed.

Lemma canonical_hash_in s k : 0 ≤ k < len (bs_canonical_hash_by_height s) → is_Some (canonical_hash s k).
Proof.
  intros Hk. destruct (lookup_lt_is_Some_2 (bs_canonical_hash_by_height s) (Z.to_nat k)) as [h Hh]; [lia|].
  exists h. apply canonical_hash_Some; [lia|done].
Qed.

Lemma bs_tip_Some s : bs_canonical_hash_by_height s ≠ [] →
  ∃ h, bs_tip s = Some (len (bs_canonical_hash_by_height s) - 1, h).
Proof.
  intros Hne. unfold bs_tip. rewrite bool_decide_eq_false_2 by done.
  destruct (lookup_lt_is_Some_2 (bs_canonical_hash_by_height s)
    (Z.to_nat (len (bs_canonical_hash_by_height s) - 1))) as [h Hh].
  { destruct (bs_canonical_hash_by_height s); [done|]. cbn [length]. lia. }
  exists h. by rewrite Hh.
Qed.

(** The highest height at which the hash is canonical. *)
Lemma find_canonical_Some s h k : find_canonical_height s h = Some k ↔
  0 ≤ k ∧ bs_canonical_hash_by_height s !! Z.to_nat k = Some h
  ∧ ∀ j, k < j → bs_canonical_hash_by_height s !! Z.to_nat j ≠ Some h.
Proof.
  unfold find_canonical_height. destruct (decide (bs_canonical_hash_by_height s = [])) as [He|Hne].
  { unfold bs_tip. rewrite bool_decide_eq_true_2 by done. rewrite He. split; [done|]. by intros (_ & [=] & _). }
  destruct (bs_tip_Some s Hne) as [t ->]. set (n := len (bs_canonical_hash_by_height s)).
  unfold heights_down. replace (n - 1 + 1) with n by lia.
  assert (∀ i x, reverse (seqZ 0 n) !! i = Some x ↔ (Z.of_nat i < n) ∧ x = n - 1 - Z.of_nat i) as Hrev.
  { intros i x. destruct (decide (i < length (seqZ 0 n))%nat) as [Hi|Hi].
    - rewrite reverse_lookup by done. rewrite length_seqZ in *. rewrite lookup_seqZ. lia.
    - rewrite lookup_ge_None_2 by (rewrite length_reverse; lia). rewrite length_seqZ in Hi. split; [done|]. lia. }
  rewrite fmap_Some. split.
  - intros ([i k'] & (Hi & Hk & Hmin)%list_find_Some & ->). cbn [snd] in *. apply Hrev in Hi as [Hi ->].
    split; [lia|]. apply canonical_hash_Some in Hk; [|lia]. split; [done|]. intros j Hj Hjl.
    assert (j < n) by (apply lookup_lt_Some in Hjl; lia).
    eapply (Hmin (Z.to_nat (n - 1 - j)) j); [apply Hrev; lia|lia|]. apply canonical_hash_Some; [lia|done].
  - intros (Hk & Hkl & Hmax). assert (k < n) by (apply lookup_lt_Some in Hkl; lia).
    exists (Z.to_nat (n - 1 - k), k). split; [|done]. apply list_find_Some. split_and!.
    + apply Hrev. lia.
    + by apply canonical_hash_Some.
    + intros j y Hj Hlt. apply Hrev in Hj as [? ->]. rewrite canonical_hash_Some by lia. apply Hmax. lia.
Qed.

(** The hashes at a list of heights. *)
Definition hashes_at s (ks : list Z) : list bytes := omap (canonical_hash s) ks.

Definition dense (t : Z) (ks : list Z) (n : Z) : Prop := ∀ i, 0 ≤ i < n → i < len ks → ks !! Z.to_nat i = Some (t - i).

Lemma locator_loop_ok s limit : ∀ fuel t step app out,
  0 ≤ t < len (bs_canonical_hash_by_height s) → t < Z.of_nat fuel → 1 ≤ step → 0 ≤ app → (app < 10 → step = 1) →
  ∃ ks, locator_loop fuel s limit t step app out = Some (out ++ hashes_at s (t :: ks))
    ∧ StronglySorted Z.gt (t :: ks) ∧ Forall (λ k, 0 ≤ k) (t :: ks)
    ∧ (list.last (t :: ks) = Some 0 ∨ limit ≤ app + len (t :: ks))
    ∧ (app < limit → app + len (t :: ks) ≤ limit) ∧ dense t (t :: ks) (10 - app).
Proof.
  induction fuel as [|fuel IH]; intros t step app out Ht Hf Hs Ha Hd; [lia|]. cbn [locator_loop].
  destruct (canonical_hash_in s t Ht) as [h Hh]. rewrite Hh.
  assert (hashes_at s [t] = [h]) as H1 by (unfold hashes_at; cbn; by rewrite Hh).
  destruct ((limit <=? app + 1) || (t =? 0)) eqn:Hstop.
  { exists []. rewrite H1. split; [done|]. split; [repeat constructor|]. split; [repeat constructor; lia|].
    split; [|split].
    - apply orb_true_iff in Hstop as [?|?]; [right; cbn; lia|left; cbn; f_equal; lia].
    - cbn. lia.
    - intros i Hi Hl. change (len [t]) with 1 in Hl. assert (i = 0) as -> by lia. by rewrite Z.sub_0_r. }
  apply orb_false_iff in Hstop as [Hlim H0].
  set (step' := if 10 <=? app + 1 then Z.min u64_max (step * 2) else step).
  assert (1 ≤ step' ∧ (app + 1 < 10 → step' = 1)) as [Hs' Hd'].
  { unfold step', u64_max. destruct (10 <=? app + 1) eqn:E; split; try lia. }
  set (t' := if t <=? step' then 0 else t - step').
  assert (0 ≤ t' < t ∧ (app + 1 < 10 → t' = t - 1)) as [Ht' Hd1] by (unfold t'; destruct (t <=? step') eqn:E; split; lia).
  destruct (IH t' step' (app + 1) (out ++ [h])) as (ks & -> & Hsort & Hpos & Hlast & Hlen & Hdense); [lia..|].
  exists (t' :: ks). split_and!.
  - f_equal. rewrite <- app_assoc. f_equal. unfold hashes_at at 2. cbn [omap list_omap]. by rewrite Hh.
  - constructor; [done|]. apply StronglySorted_inv in Hsort as [_ Hall].
    constructor; [lia|]. eapply list.Forall_impl; [exact Hall|]. cbn. lia.
  - constructor; [lia|done].
  - rewrite list.last_cons_cons. destruct Hlast as [?|?]; [by left|right]. cbn [length] in *. lia.
  - cbn [length] in *. lia.
  - intros i Hi Hl. destruct (decide (i = 0)) as [->|]; [by rewrite Z.sub_0_r|].
    replace (Z.to_nat i) with (S (Z.to_nat (i - 1))) by lia. cbn [lookup list_lookup].
    change (list_lookup (Z.to_nat (i - 1)) (t' :: ks)) with ((t' :: ks) !! Z.to_nat (i - 1)).
    rewrite Hdense; [f_equal; lia|lia|]. cbn [length] in *. lia.
Qed.

(** Block locators. On a non-empty index the loop that thins out the
    heights stops after at most as many steps as there are blocks, whatever
    the limit, although its step doubles with saturation; the locator lists the
    hashes at strictly decreasing heights that start at the tip, the first ten
    are consecutive, there are at most [limit] (32 for 0), and the list ends at
    genesis unless the limit cut it. *)
Theorem locator_hashes_correct s limit fuel : 0 ≤ limit → bs_canonical_hash_by_height s ≠ [] →
  len (bs_canonical_hash_by_height s) ≤ Z.of_nat fuel →
  let n := if limit =? 0 then 32 else limit in
  let tip := len (bs_canonical_hash_by_height s) - 1 in
  ∃ ks, locator_hashes fuel s limit = Some (hashes_at s (tip :: ks))
    ∧ StronglySorted Z.gt (tip :: ks) ∧ Forall (λ k, 0 ≤ k) (tip :: ks) ∧ len (tip :: ks) ≤ n
    ∧ (list.last (tip :: ks) = Some 0 ∨ len (tip :: ks) = n)
    ∧ dense tip (tip :: ks) 10.
Proof.
  intros Hl Hne Hf n tip. unfold locator_hashes. destruct (bs_tip_Some s Hne) as [h ->]. fold n tip.
  assert (0 < n) as Hn by (unfold n; destruct (limit =? 0) eqn:E; lia).
  assert (0 < len (bs_canonical_hash_by_height s)) by (destruct (bs_canonical_hash_by_height s); [done|cbn; lia]).
  destruct (locator_loop_ok s n fuel tip 1 0 []) as (ks & -> & Hsort & Hpos & Hlast & Hlen & Hdense); [unfold tip; lia..|].
  exists ks. split; [done|]. split; [done|]. split; [done|]. split; [lia|]. split; [|done].
  destruct Hlast as [?|?]; [by left|right; lia].
Qed.

(** The elements up to the first that stops, with it. *)
Fixpoint up_to_stop (stop : bytes → bool) (l : list bytes) : list bytes :=
  match l with [] => [] | x :: l => if stop x then [x] else x :: up_to_stop stop l end.
Definition stops_at (stop_hash x : bytes) : bool :=
  negb (bool_decide (stop_hash = replicate 32 x00)) && bool_decide (x = stop_hash).

Lemma hashes_loop_ok s stop limit n : ∀ k out, 0 ≤ k → len out ≤ limit →
  (n = Z.to_nat (len (bs_canonical_hash_by_height s) - k)) →
  hashes_loop s stop limit (seqZ k (Z.of_nat n)) out
  = out ++ take (Z.to_nat (limit - len out)) (up_to_stop (stops_at stop) (drop (Z.to_nat k) (bs_canonical_hash_by_height s))).
Proof.
  induction n as [|n IH]; intros k out Hk Ho Hn.
  { cbn. rewrite drop_ge by lia. cbn. by rewrite take_nil, app_nil_r. }
  rewrite seqZ_cons by lia. replace (Z.pred (Z.of_nat (S n))) with (Z.of_nat n) by lia. cbn [hashes_loop].
  destruct (limit <=? len out) eqn:El.
  { replace (Z.to_nat (limit - len out)) with 0%nat by lia. by rewrite take_0, app_nil_r. }
  destruct (canonical_hash_in s k) as [h Hh]; [lia|]. rewrite Hh. apply canonical_hash_Some in Hh; [|done].
  rewrite (drop_S _ _ _ Hh). cbn [up_to_stop]. change (negb _ && bool_decide (h = stop)) with (stops_at stop h).
  replace (Z.to_nat (limit - len out)) with (S (Z.to_nat (limit - len (out ++ [h])))) by (rewrite length_app; cbn; lia).
  destruct (stops_at stop h); [cbn [firstn take]; by rewrite take_nil|].
  replace (Z.succ k) with (k + 1) by lia. rewrite IH; [|lia|rewrite length_app; cbn; lia|lia].
  rewrite <- app_assoc. replace (Z.to_nat (k + 1)) with (S (Z.to_nat k)) by lia. done.
Qed.

(** The height after the first locator that is canonical; 0 if none is. *)
Definition sync_start s (locators : list bytes) : Z :=
  match head (omap (find_canonical_height s) locators) with Some k => saturating_add u64_max k 1 | None => 0 end.

(** Headers after a locator. The reply lists the canonical hashes in
    order from the height after the first locator that is canonical (from
    genesis when none is), up to the stop hash with it, or [limit] of them (128
    for 0), or the tip, whichever comes first. *)
Theorem hashes_after_locators_correct s locators stop limit : 0 ≤ limit →
  len (bs_canonical_hash_by_height s) ≤ u64_max →
  hashes_after_locators s locators stop limit
  = take (Z.to_nat (if limit =? 0 then 128 else limit))
      (up_to_stop (stops_at stop) (drop (Z.to_nat (sync_start s locators)) (bs_canonical_hash_by_height s))).
Proof.
  intros Hl Hu. unfold hashes_after_locators. fold (sync_start s locators).
  set (n := if limit =? 0 then 128 else limit). assert (0 < n) by (unfold n; destruct (limit =? 0) eqn:E; lia).
  destruct (decide (bs_canonical_hash_by_height s = [])) as [He|Hne].
  { unfold bs_tip. rewrite bool_decide_eq_true_2 by done. rewrite He, drop_nil. by destruct (Z.to_nat n). }
  destruct (bs_tip_Some s Hne) as [h ->].
  assert (0 ≤ sync_start s locators) as Hk.
  { unfold sync_start, saturating_add, u64_max. destruct (head _) as [k|] eqn:E; [|lia].
    apply head_Some_cons in E as [r E]. assert (k ∈ omap (find_canonical_height s) locators) as Hin by (rewrite E; by left).
    apply list_elem_of_omap in Hin as (? & _ & (? & _)%find_canonical_Some). lia. }
  replace (len (bs_canonical_hash_by_height s) - 1 + 1 - sync_start s locators)
    with (len (bs_canonical_hash_by_height s) - sync_start s locators) by lia.
  destruct (decide (sync_start s locators ≤ len (bs_canonical_hash_by_height s))) as [Hle|Hgt].
  - pose proof (hashes_loop_ok s stop n (Z.to_nat (len (bs_canonical_hash_by_height s) - sync_start s locators))
      (sync_start s locators) [] Hk ltac:(cbn; lia) eq_refl) as Hloop.
    rewrite Z2Nat.id in Hloop by lia. rewrite Hloop. cbn [app length]. by rewrite Z.sub_0_r.
  - rewrite seqZ_nil by lia. rewrite drop_ge by lia. by destruct (Z.to_nat n).
Qed.
End reading.

(** ** Concrete inputs *)

Definition demo_hash (n : Z) : bytes := replicate 32 (byte_of_Z n).
Definition demo_hashes (n : Z) : list bytes := demo_hash <$> seqZ 1 n.
Definition demo_store (n : Z) : BlockStore :=
  let hex := hex_encode (Hex := toy_hex) <$> demo_hashes n in mkBlockStore "index.json" hex (demo_hashes n) hex.
Definition demo_write_error (stage : AtomicWriteStage) : AtomicWriteError :=
  mkAtomicWriteError stage "index.json" Overwrite "sync directory" [].

(** The write of a new tip fails after the file has been replaced. *)
Lemma index_write_safe_witness :
  let o := Err (demo_write_error AfterNamespaceCommit) in
  let '(r, s') := run_op (HX := toy_hex) o (SetTip 1 (demo_hash 9)) (demo_store 2) in
  r = o ∧ coherent (HX := toy_hex) s' ∧ bs_disk s' = bs_disk (demo_store 1) ++ [hex_encode (Hex := toy_hex) (demo_hash 9)].
Proof.
  set (o := Err (demo_write_error AfterNamespaceCommit)).
  set (x := run_op (HX := toy_hex) o (SetTip 1 (demo_hash 9)) (demo_store 2)).
  destruct (index_write_safe (HX := toy_hex) o (SetTip 1 (demo_hash 9)) (demo_store 2) x.1 x.2) as [Hc _].
  - split; [vm_compute; reflexivity|]. repeat constructor.
  - vm_compute; reflexivity.
  - repeat constructor.
  - lia.
  - by apply surjective_pairing.
  - split; [vm_compute; reflexivity|]. split; [exact Hc|vm_compute; reflexivity].
Defined.

Lemma locator_hashes_correct_witness :
  ∃ ks, locator_hashes 12 (demo_store 12) 0 = Some (hashes_at (demo_store 12) (11 :: ks))
    ∧ (list.last (11 :: ks) = Some 0 ∨ len (11 :: ks) = 32).
Proof.
  destruct (locator_hashes_correct (demo_store 12) 0 12) as (ks & Hk & _ & _ & _ & Hl & _).
  - lia.
  - discriminate.
  - vm_compute; discriminate.
  - exists ks. split; [exact Hk|exact Hl].
Defined.

Lemma hashes_after_locators_correct_witness :
  hashes_after_locators (demo_store 12) [demo_hash 77; demo_hash 3; demo_hash 5] (demo_hash 6) 0
  = [demo_hash 4; demo_hash 5; demo_hash 6].
Proof.
  rewrite (hashes_after_locators_correct (demo_store 12)); [vm_compute; reflexivity|lia|vm_compute; discriminate].
Defined.
