(* ===== verification/StoreFiles.v ===== *)
(** * Files of the block store ([io_utils.rs], [blockstore.rs])

    A directory of the store holds one file per block, named by the block's
    hash.  Its files are part of the state; a read goes through the bounded
    reader, which grows its buffer itself. *)

From Stdlib Require Import Ascii.
From stdpp Require Import pretty.
From S2P Require Import Prelude Bytes Errors Constants Crypto WireRead CompactSize TxWire Block.
From S2P Require Import Vault Suites Verify SigCache WorkerPool SigQueue Sighash Spend NodeText.

(** What the program looks at of an [io::Error]: its kind, of which it tells
    two, and the text. *)
Inductive IoErrorKind : Type := IoNotFound | IoInvalidData | IoOther.
#[export] Instance IoErrorKind_eq_dec : EqDecision IoErrorKind.
Proof. solve_decision. Defined.
Record IoError : Type := mkIoError { io_kind : IoErrorKind; io_text : string }.
Definition io_not_found (e : IoError) : bool := bool_decide (io_kind e = IoNotFound).

(* rust: node/io_utils.rs 50-50 BLOCK_FILE_MAX_BYTES *)
Definition BLOCK_FILE_MAX_BYTES : Z := MAX_BLOCK_BYTES.
(* rust: node/io_utils.rs 51-51 HEADER_FILE_MAX_BYTES *)
Definition HEADER_FILE_MAX_BYTES : Z := BLOCK_HEADER_BYTES.
(* rust: node/io_utils.rs 52-52 UNDO_FILE_MAX_BYTES *)
Definition UNDO_FILE_MAX_BYTES : Z := 2000000000.
(* rust: node/io_utils.rs 56-56 STORE_FILE_TOO_LARGE_PREFIX *)
Definition STORE_FILE_TOO_LARGE_PREFIX : string := "store file exceeds size bound".

(* rust: node/io_utils.rs 64-69 file_too_large_error *)
Definition file_too_large_error (name : string) (observed max_bytes : Z) : IoError :=
  mkIoError IoInvalidData (STORE_FILE_TOO_LARGE_PREFIX +:+ ": " +:+ name +:+ ": " +:+ pretty observed
    +:+ " bytes observed, class bound " +:+ pretty max_bytes)%string.

(* rust: node/io_utils.rs 77-84 check_store_save_bound *)
Definition check_store_save_bound (name : string) (n max_bytes : Z) : nres unit :=
  if max_bytes <? n
  then fail ("refusing to save " +:+ name +:+ ": " +:+ pretty n +:+ " bytes marshaled, class bound "
             +:+ pretty max_bytes +:+ ": " +:+ STORE_FILE_TOO_LARGE_PREFIX)%string
  else Ok ().

(** ** The bounded reader *)

(** A reader has its data left, and what its next calls do: fail, or deliver
    at most so many bytes, one at least.  After these calls each call delivers
    what it can. *)
Record Reader : Type := mkReader { rd_data : bytes; rd_calls : list (result IoError Z) }.

(** [Read::read] into a buffer of [n] bytes; no byte at the end of the data. *)
Definition reader_read (n : Z) : ST Reader IoError bytes := λ r,
  match rd_calls r with
  | Err e :: calls => (Err e, mkReader (rd_data r) calls)
  | Ok k :: calls => (Ok (take (Z.to_nat (Z.min n (Z.max 1 k))) (rd_data r)),
                      mkReader (drop (Z.to_nat (Z.min n (Z.max 1 k))) (rd_data r)) calls)
  | [] => (Ok (take (Z.to_nat n) (rd_data r)), mkReader (drop (Z.to_nat n) (rd_data r)) [])
  end.

(** [Read::take]: nothing is read once the limit is used up. *)
Definition limited_read (limit n : Z) : ST Reader IoError bytes := λ r,
  if limit =? 0 then (Ok [], r) else reader_read (Z.min limit n) r.

(* rust: node/io_utils.rs 438-441 cap_hint *)
Definition cap_hint (stat_size max_bytes : Z) : Z :=
  let hint := saturating_add u64_max (Z.min stat_size max_bytes) 1 in Z.min hint isize_max.

(* rust: node/io_utils.rs 421-432 grow_capacity *)
Definition grow_capacity (current max_bytes : Z) : Z :=
  let GROW_FLOOR := 512 in
  let limit := cap_hint max_bytes max_bytes in
  let next := if current <=? limit / 2 then current * 2 else limit in
  if next <? GROW_FLOOR then Z.min GROW_FLOOR limit else next.

(** [buf_len] is the length of the buffer and [buf] its part that is filled.
    Each step but the last reads a byte, so the number of bytes and two is
    enough fuel; [None] is running out of it.  The buffer's last length is
    returned with the data. *)
(* rust: node/io_utils.rs 392-406 read_capped *)
Fixpoint read_loop (fuel : nat) (max_bytes buf_len limit : Z) (buf : bytes) (r : Reader) :
    option (result IoError (Z * bytes)) :=
  match fuel with
  | O => None
  | S fuel =>
      let next := grow_capacity buf_len max_bytes in
      if (len buf =? buf_len) && (next <=? buf_len) then Some (Ok (buf_len, buf)) else
      let buf_len := if len buf =? buf_len then next else buf_len in
      match limited_read limit (buf_len - len buf) r with
      | (Err e, _) => Some (Err e)
      | (Ok b, r) => if len b =? 0 then Some (Ok (buf_len, buf))
                     else read_loop fuel max_bytes buf_len (limit - len b) (buf ++ b) r
      end
  end.

(* rust: node/io_utils.rs 374-412 read_capped *)
Definition read_capped (fuel : nat) (r : Reader) (name : string) (stat_size max_bytes : Z) :
    option (result IoError bytes) :=
  if max_bytes <? stat_size then Some (Err (file_too_large_error name stat_size max_bytes)) else
  read ← read_loop fuel max_bytes (cap_hint stat_size max_bytes) (saturating_add u64_max max_bytes 1) [] r;
  Some ('(_, buf) ← read;
        if max_bytes <? len buf then Err (file_too_large_error name (len buf) max_bytes) else Ok buf).

(** ** Directories *)

(** A file has its content, or cannot be read, or its metadata cannot be
    read either. *)
Inductive StoredFile : Type := Content (raw : bytes) | Unreadable (e : string) | NoMetadata (e : string).

(** The files by the hash in their name. *)
Record Directory : Type := mkDirectory { dir_path : string; dir_ext : string; dir_files : gmap bytes StoredFile }.

Section files.
Context `{HX : Hex}.

Definition file_name (dir : Directory) (hash : bytes) : string := (hex_encode hash +:+ dir_ext dir)%string.
(** [dir.join(name).display()]. *)
Definition file_path (dir : Directory) (hash : bytes) : string :=
  (dir_path dir +:+ "/" +:+ file_name dir hash)%string.

(** The text of the operating system for a file that does not exist. *)
Definition not_found_text : string := "No such file or directory (os error 2)".

(** The names are hexadecimal digits with an extension, which the guard on
    names lets through. *)
(* rust: node/io_utils.rs 171-182 read_file_from_dir *)
Definition read_file_from_dir (dir : Directory) (hash : bytes) (max_bytes : Z) : result IoError bytes :=
  match dir_files dir !! hash with
  | None => Err (mkIoError IoNotFound not_found_text)
  | Some (Unreadable e | NoMetadata e) => Err (mkIoError IoOther e)
  | Some (Content raw) =>
      default (Err (mkIoError IoOther "")) (read_capped (length raw + 2) (mkReader raw []) (file_name dir hash) (len raw) max_bytes)
  end.

(* rust: node/blockstore.rs 1048-1054 try_has_file_at *)
Definition try_has_file_at (dir : Directory) (hash : bytes) : nres bool :=
  match dir_files dir !! hash with
  | None => Ok false
  | Some (NoMetadata e) => fail ("stat " +:+ file_path dir hash +:+ ": " +:+ e)%string
  | Some _ => Ok true
  end.

(** [Path::exists]. *)
Definition file_exists (dir : Directory) (hash : bytes) : bool :=
  match try_has_file_at dir hash with Ok b => b | Err _ => false end.
End files.

(** ** The reader returns the data, or refuses it *)

Section reading.
Implicit Types (r : Reader) (buf : bytes).

(** No call fails. *)
Definition reads_well r : Prop := Forall (λ c, is_ok c = true) (rd_calls r).

(** A call delivers a part of the data, some of it unless there is none. *)
Lemma limited_read_ok limit n r : reads_well r → 0 ≤ limit → 0 < n →
  ∃ b r', limited_read limit n r = (Ok b, r') ∧ reads_well r' ∧ rd_data r = b ++ rd_data r'
    ∧ len b ≤ limit ∧ len b ≤ n ∧ (b = [] → limit = 0 ∨ rd_data r = []).
Proof.
  intros Hr Hl Hn. unfold limited_read. destruct (limit =? 0) eqn:E.
  { exists [], r. repeat split; try done; [cbn; lia..|]. intros _. left. lia. }
  assert (∀ k : nat, (0 < k)%nat → take k (rd_data r) = [] → rd_data r = []) as Hnil.
  { intros k Hk. destruct k, (rd_data r); [lia|lia|done|done]. }
  unfold reader_read. destruct (rd_calls r) as [|[k|e] calls] eqn:Hc.
  - do 2 eexists. split; [reflexivity|]. split; [by constructor|]. cbn [rd_data]. rewrite take_drop.
    rewrite length_take. split_and!; [done|lia..|]. intros Hb. right. eapply Hnil, Hb. lia.
  - do 2 eexists. split; [reflexivity|]. unfold reads_well in *. rewrite Hc in Hr.
    apply list.Forall_cons in Hr as [_ Hr]. split; [done|]. cbn [rd_data]. rewrite take_drop, length_take.
    split_and!; [done|lia..|]. intros Hb. right. eapply Hnil, Hb. lia.
  - unfold reads_well in Hr. rewrite Hc in Hr. by apply list.Forall_cons in Hr as [? _].
Qed.

(** The buffer never grows past one byte more than the bound, and it grows
    strictly below that. *)
Lemma grow_capacity_ok n m : 0 ≤ n → 0 ≤ m < isize_max → n ≤ m + 1 →
  n ≤ grow_capacity n m ≤ m + 1 ∧ (n ≤ m → 0 < n → n < grow_capacity n m).
Proof.
  intros Hn Hm Hle. unfold grow_capacity, cap_hint, saturating_add.
  assert (Z.min (Z.min u64_max (Z.min m m + 1)) isize_max = m + 1) as -> by (unfold u64_max, isize_max in *; lia).
  pose proof (Z.mul_div_le (m + 1) 2). pose proof (Z.mul_succ_div_gt (m + 1) 2).
  destruct (n <=? (m + 1) / 2) eqn:E1; destruct (_ <? 512) eqn:E2; lia.
Qed.

Lemma read_loop_ok m : 0 ≤ m < isize_max → ∀ fuel n limit buf r,
  reads_well r → (length (rd_data r) + 2 ≤ fuel)%nat → 0 < n ≤ m + 1 → limit = m + 1 - len buf → len buf ≤ n →
  ∃ k, read_loop fuel m n limit buf r
       = Some (Ok (k, buf ++ take (Z.to_nat limit) (rd_data r))) ∧ k ≤ m + 1.
Proof.
  intros Hm. induction fuel as [|fuel IH]; intros n limit buf r Hr Hf Hn -> Hb; [lia|]. cbn [read_loop].
  destruct (grow_capacity_ok n m) as [Hg Hgt]; [lia..|].
  destruct ((len buf =? n) && (grow_capacity n m <=? n)) eqn:Hstop.
  { exists n. split; [|lia]. assert (m + 1 - len buf = 0) as -> by lia. cbn. by rewrite app_nil_r. }
  set (n' := if len buf =? n then grow_capacity n m else n).
  assert (len buf < n' ≤ m + 1) as Hn' by (unfold n'; destruct (len buf =? n) eqn:E; lia).
  destruct (limited_read_ok (m + 1 - len buf) (n' - len buf) r Hr) as (b & r' & -> & Hr' & Hd & Hbl & Hbn & Hnil); [lia..|].
  destruct (len b =? 0) eqn:Eb.
  - assert (b = []) as -> by (destruct b; [done|cbn in Eb; lia]).
    destruct (Hnil eq_refl) as [Hz|Hz]; [lia|]. exists n'. rewrite Hz, take_nil, app_nil_r. split; [done|lia].
  - assert (length (rd_data r) = (length b + length (rd_data r'))%nat) by (by rewrite Hd, length_app).
    destruct (IH n' (m + 1 - len buf - len b) (buf ++ b) r') as (k & -> & Hk);
      [done|lia|lia|rewrite length_app; lia|rewrite length_app; lia|].
    exists k. split; [|done]. do 3 f_equal. rewrite Hd, <- app_assoc. f_equal. rewrite take_app.
    rewrite (take_ge b) by lia. do 2 f_equal. lia.
Qed.

(** Whatever the sizes of the reads and whatever size the metadata gave, the
    bounded reader ends, and returns the data if it is within the bound. *)
Lemma read_capped_ok fuel r name stat m : 0 ≤ m < isize_max → 0 ≤ stat → reads_well r →
  (length (rd_data r) + 2 ≤ fuel)%nat →
  read_capped fuel r name stat m
  = Some (if m <? stat then Err (file_too_large_error name stat m)
          else if m <? len (rd_data r) then Err (file_too_large_error name (m + 1) m) else Ok (rd_data r)).
Proof.
  intros Hm Hs Hr Hf. unfold read_capped. destruct (m <? stat) eqn:E; [done|].
  assert (saturating_add u64_max m 1 = m + 1) as -> by (unfold saturating_add, u64_max, isize_max in *; lia).
  destruct (read_loop_ok m Hm fuel (cap_hint stat m) (m + 1) [] r) as (k & -> & _); try done.
  { unfold cap_hint, saturating_add, u64_max, isize_max in *. lia. }
  { cbn. lia. }
  { cbn. unfold cap_hint, saturating_add, u64_max, isize_max in *. lia. }
  cbn [mbind option_bind app]. run_bind. rewrite length_take. destruct (m <? len (rd_data r)) eqn:E2.
  - replace (m <? _) with true by lia. do 3 f_equal. lia.
  - replace (m <? _) with false by lia. rewrite take_ge by lia. done.
Qed.

Context `{HX : Hex}.

(** A read returns the content of a file within the bound. *)
Lemma read_file_Ok dir hash m raw : 0 ≤ m < isize_max →
  read_file_from_dir dir hash m = Ok raw ↔ dir_files dir !! hash = Some (Content raw) ∧ len raw ≤ m.
Proof.
  intros Hm. unfold read_file_from_dir. destruct (dir_files dir !! hash) as [[c|e|e]|]; try by res_iff.
  rewrite read_capped_ok; [|done|lia|constructor|by cbn]. cbn [rd_data default].
  destruct (m <? len c) eqn:E; split; [done|intros [[= ->] ?]; lia|intros [= ->]; split; [done|lia]|by intros [[= ->] _]].
Qed.

(** The error says [NotFound] exactly when there is no file. *)
Lemma read_file_not_found dir hash m e : 0 ≤ m < isize_max →
  read_file_from_dir dir hash m = Err e → (io_not_found e = true ↔ dir_files dir !! hash = None).
Proof.
  intros Hm. unfold read_file_from_dir. destruct (dir_files dir !! hash) as [[c|f|f]|]; try (intros [= <-]; by cbn).
  rewrite read_capped_ok; [|done|lia|constructor|by cbn]. cbn [rd_data default].
  destruct (m <? len c) eqn:E; [|done]. intros [= <-]. by cbn.
Qed.

Lemma try_has_file_true dir hash : try_has_file_at dir hash = Ok true →
  is_Some (dir_files dir !! hash).
Proof. unfold try_has_file_at. by destruct (dir_files dir !! hash). Qed.
End reading.
