(* ===== verification/AtomicWrite.v ===== *)
(** * Atomic writes ([io_utils.rs])

    A file is written to a scratch file of its directory, which is synced and
    then renamed or linked to its name; at last the directory is synced.  The
    program is a tree of calls of [std::fs]; a file system that may fail at any
    call and lose what is not synced runs it, and it may stop anywhere. *)

From Stdlib Require Import Ascii.
From stdpp Require Import pretty.
From S2P Require Import Prelude Bytes Errors Constants Crypto WireRead CompactSize TxWire Block Pow.
From S2P Require Import Vault Suites Verify SigCache WorkerPool SigQueue Sighash Spend NodeText BlockStore StoreFiles.

(** ** The calls *)

Inductive FsErrorKind : Type := FsNotFound | FsAlreadyExists | FsOther.
Record FsError : Type := mkFsError { fs_kind : FsErrorKind; fs_text : string }.
#[export] Instance FsErrorKind_eq_dec : EqDecision FsErrorKind.
Proof. solve_decision. Defined.

(** A directory and a name in it. *)
Record Path : Type := mkPath { p_dir : string; p_leaf : string }.
#[export] Instance Path_eq_dec : EqDecision Path.
Proof. solve_decision. Defined.
#[export] Instance Path_countable : Countable Path.
Proof. by refine (inj_countable' (λ p, (p_dir p, p_leaf p)) (λ t, mkPath t.1 t.2) _); intros []. Defined.
Lemma path_eq p q : p_dir p = p_dir q → p_leaf p = p_leaf q → p = q.
Proof. destruct p, q. cbn. by intros -> ->. Qed.
Definition path_display (p : Path) : string := (p_dir p +:+ "/" +:+ p_leaf p)%string.

(** A handle is the number of a file. *)
Inductive fs_call : Type → Type :=
| CreateDirAll (dir : string) : fs_call unit
| LockDir (dir : string) : fs_call unit
| RemoveFile (p : Path) : fs_call unit
| OpenNew (p : Path) : fs_call nat
| SetPermissions (h : nat) : fs_call unit
| WriteAll (h : nat) (data : bytes) : fs_call unit
| SyncAll (h : nat) : fs_call unit
| Rename (from to : Path) : fs_call unit
| HardLink (from to : Path) : fs_call unit
| ReadAll (p : Path) : fs_call bytes
| OpenDir (dir : string) : fs_call unit
| SyncDir (dir : string) : fs_call unit.

(** A program asks for a call and goes on with what it returns. *)
Inductive Prog (A : Type) : Type :=
| Ret (a : A)
| Call (R : Type) (c : fs_call R) (k : result FsError R → Prog A).
Arguments Ret {A} a.
Arguments Call {A R} c k.

#[export] Instance prog_ret : MRet Prog := @Ret.
Fixpoint prog_bind {A B} (f : A → Prog B) (p : Prog A) : Prog B :=
  match p with Ret a => f a | Call c k => Call c (λ r, prog_bind f (k r)) end.
#[export] Instance prog_mbind : MBind Prog := @prog_bind.
Definition call {R} (c : fs_call R) : Prog (result FsError R) := Call c Ret.

(** ** The writer *)

(* rust: node/io_utils.rs 914-925 atomic_write_error_after *)
Definition atomic_write_error_after (destination : string) (operation : AtomicWriteOperation) (primary : string) :
    AtomicWriteError :=
  mkAtomicWriteError AfterNamespaceCommit destination operation primary [].
(* rust: node/io_utils.rs 875-877 append_secondary *)
Definition append_secondary (e : AtomicWriteError) (error : string) : AtomicWriteError :=
  mkAtomicWriteError (aw_stage e) (aw_destination e) (aw_operation e) (aw_primary e) (aw_secondary e ++ [error]).

(** [?]: an error ends the program. *)
Definition prog_try {E A B} (p : Prog (result E A)) (k : A → Prog (result E B)) : Prog (result E B) :=
  r ← p; match r with Ok a => k a | Err e => Ret (Err e) end.
Notation "x ←? p ; k" := (prog_try p (λ x, k)) (at level 20, p at level 100, k at level 200) : stdpp_scope.

(* rust: node/io_utils.rs 837-837 ATOMIC_WRITE_LOCK_LEAF *)
Definition ATOMIC_WRITE_LOCK_LEAF : string := ".rubin-atomic-write.lock".
(* rust: node/io_utils.rs 838-838 ATOMIC_WRITE_SCRATCH_LEAF *)
Definition ATOMIC_WRITE_SCRATCH_LEAF : string := ".rubin-atomic-write.tmp".
Definition scratch_of (dir : string) : Path := mkPath dir ATOMIC_WRITE_SCRATCH_LEAF.
(* rust: node/io_utils.rs 1095-1095 write_atomic_file *)
Definition lock_of (dir : string) : Path := mkPath dir ATOMIC_WRITE_LOCK_LEAF.

Definition ok_fs (r : result FsError unit) (text : string) : nres unit :=
  map_err (λ e, text +:+ ": " +:+ fs_text e)%string r.

(* rust: node/io_utils.rs 1025-1044 validate_atomic_write_destination *)
Definition validate_atomic_write_destination (path : Path) (operation : AtomicWriteOperation) :
    result AtomicWriteError unit :=
  if bool_decide (p_leaf path = ATOMIC_WRITE_LOCK_LEAF) || bool_decide (p_leaf path = ATOMIC_WRITE_SCRATCH_LEAF)
  then Err (atomic_write_error_before (path_display path) operation
              ("reserved atomic persistence destination: " +:+ path_display path)%string)
  else Ok ().

(* rust: node/io_utils.rs 1280-1286 unlink_atomic_scratch *)
Definition unlink_atomic_scratch (path : Path) : Prog (nres unit) :=
  r ← call (RemoveFile path);
  Ret match r with
      | Ok _ => Ok ()
      | Err e => if bool_decide (fs_kind e = FsNotFound) then Ok ()
                 else Err ("unlink atomic scratch " +:+ path_display path +:+ ": " +:+ fs_text e)%string
      end.
(* rust: node/io_utils.rs 1268-1272 pre_unlink_atomic_scratch *)
Definition pre_unlink_atomic_scratch (path : Path) : Prog (nres unit) := unlink_atomic_scratch path.
(* rust: node/io_utils.rs 1274-1278 cleanup_atomic_scratch *)
Definition cleanup_atomic_scratch (path : Path) : Prog (nres unit) := unlink_atomic_scratch path.

(* rust: node/io_utils.rs 1344-1351 sync_dir *)
Definition sync_dir (dir : string) : Prog (nres unit) :=
  r ← call (OpenDir dir);
  _ ←? Ret (ok_fs r ("open dir " +:+ dir)%string);
  r ← call (SyncDir dir);
  Ret (ok_fs r ("sync dir " +:+ dir)%string).
(* rust: node/io_utils.rs 1353-1357 sync_atomic_parent *)
Definition sync_atomic_parent (parent : string) : Prog (nres unit) := sync_dir parent.

(* rust: node/io_utils.rs 1244-1266 open_atomic_scratch *)
Definition open_atomic_scratch (path : Path) : Prog (nres nat) :=
  r ← call (OpenNew path);
  h ←? Ret (map_err (λ e, "open atomic scratch " +:+ path_display path +:+ ": " +:+ fs_text e)%string r);
  r ← call (SetPermissions h);
  _ ←? Ret (ok_fs r ("chmod atomic scratch " +:+ path_display path)%string);
  Ret (Ok h).

(* rust: node/io_utils.rs 1208-1223 pre_commit_failure *)
Definition pre_commit_failure (destination : Path) (operation : AtomicWriteOperation) (primary : string) :
    Prog AtomicWriteError :=
  let error := atomic_write_error_before (path_display destination) operation primary in
  r ← cleanup_atomic_scratch (scratch_of (p_dir destination));
  let error := match r with Err cleanup => append_secondary error cleanup | Ok _ => error end in
  r ← sync_atomic_parent (p_dir destination);
  Ret match r with Err sync => append_secondary error sync | Ok _ => error end.

(* rust: node/io_utils.rs 1225-1242 post_commit_cleanup *)
Definition post_commit_cleanup (destination : Path) (operation : AtomicWriteOperation) :
    Prog (result AtomicWriteError unit) :=
  let after := atomic_write_error_after (path_display destination) operation in
  r ← cleanup_atomic_scratch (scratch_of (p_dir destination));
  let result := match r with Err cleanup => Some (after cleanup) | Ok _ => None end in
  r ← sync_atomic_parent (p_dir destination);
  let result := match r with
                | Err sync => Some match result with Some error => append_secondary error sync | None => after sync end
                | Ok _ => result
                end in
  Ret match result with Some e => Err e | None => Ok () end.

Definition failed {A} (p : Prog AtomicWriteError) : Prog (result AtomicWriteError A) := e ← p; Ret (Err e).

(* rust: node/io_utils.rs 1111-1206 write_atomic_file_locked *)
Definition write_atomic_file_locked (path : Path) (data : bytes) (operation : AtomicWriteOperation)
    (resolve_existing : Prog (nres unit)) : Prog (result AtomicWriteError unit) :=
  let scratch := scratch_of (p_dir path) in
  let to := (path_display scratch +:+ " -> " +:+ path_display path)%string in
  let pre_commit primary := failed (pre_commit_failure path operation primary) in
  r ← pre_unlink_atomic_scratch scratch;
  match r with
  | Err error => Ret (Err (atomic_write_error_before (path_display path) operation error))
  | Ok _ =>
  r ← open_atomic_scratch scratch;
  match r with
  | Err error => pre_commit error
  | Ok file =>
  write_result ← (r ← call (WriteAll file data);
                  _ ←? Ret (ok_fs r ("write atomic scratch " +:+ path_display scratch)%string);
                  r ← call (SyncAll file);
                  Ret (ok_fs r ("sync atomic scratch " +:+ path_display scratch)%string));
  match write_result with
  | Err primary => pre_commit primary
  | Ok _ =>
  match operation with
  | Overwrite =>
      r ← call (Rename scratch path);
      match r with
      | Err error => pre_commit ("rename atomic scratch " +:+ to +:+ ": " +:+ fs_text error)%string
      | Ok _ => post_commit_cleanup path operation
      end
  | CreateIfAbsent =>
      r ← call (HardLink scratch path);
      match r with
      | Ok _ => post_commit_cleanup path operation
      | Err error =>
          if bool_decide (fs_kind error = FsAlreadyExists)
          then (r ← resolve_existing;
                match r with Err primary => pre_commit primary | Ok _ => post_commit_cleanup path operation end)
          else pre_commit ("link atomic scratch " +:+ to +:+ ": " +:+ fs_text error)%string
      end
  end end end end.

(** The mutex of the process is not poisoned. *)
(* rust: node/io_utils.rs 1071-1109 write_atomic_file *)
Definition write_atomic_file (path : Path) (data : bytes) (operation : AtomicWriteOperation)
    (resolve_existing : Prog (nres unit)) : Prog (result AtomicWriteError unit) :=
  let before := atomic_write_error_before (path_display path) operation in
  _ ←? Ret (validate_atomic_write_destination path operation);
  r ← call (CreateDirAll (p_dir path));
  _ ←? Ret (map_err (λ e, before ("create parent " +:+ p_dir path +:+ ": " +:+ fs_text e)%string) r);
  r ← call (LockDir (p_dir path));
  _ ←? Ret (map_err (λ e, before ("atomic write lock failed: " +:+ p_dir path +:+ ": " +:+ fs_text e)%string) r);
  write_atomic_file_locked path data operation resolve_existing.

(* rust: node/io_utils.rs 1051-1053 write_file_atomic_typed *)
Definition write_file_atomic_typed (path : Path) (data : bytes) : Prog (result AtomicWriteError unit) :=
  write_atomic_file path data Overwrite (Ret (Ok ())).
(* rust: node/io_utils.rs 1055-1069 write_file_create_if_absent *)
Definition write_file_create_if_absent (path : Path) (data : bytes) (resolve_existing : Prog (nres unit)) :
    Prog (result AtomicWriteError unit) :=
  write_atomic_file path data CreateIfAbsent resolve_existing.

(** ** A file system *)

(** Data that was written but not synced may be anything after a crash. *)
Record File : Type := mkFile { f_data : bytes; f_synced : bool }.
(** The names of a directory, and the maps of names that a crash may leave of
    it: the last synced one and those since. A directory whose own entry was
    never synced may be lost with all its names. *)
Record DirState : Type := mkDirState { d_durable : bool; d_live : gmap string nat; d_possible : list (gmap string nat) }.
(** A directory that is not there, or that was just created. *)
Definition no_names : DirState := mkDirState false ∅ [].
Definition possible (s : DirState) : list (gmap string nat) := d_possible s ++ (if d_durable s then [] else [∅]).
Record Disk : Type := mkDisk { dk_files : list File; dk_dirs : string → option DirState }.
Definition dir_of (w : Disk) (dir : string) : DirState := default no_names (dk_dirs w dir).

Definition live (w : Disk) (p : Path) : option nat := d_live (dir_of w (p_dir p)) !! p_leaf p.
Definition set_dir (w : Disk) (dir : string) (s : DirState) : Disk :=
  mkDisk (dk_files w) (λ d, if bool_decide (d = dir) then Some s else dk_dirs w d).
Definition set_names (w : Disk) (dir : string) (names : gmap string nat) : Disk :=
  set_dir w dir (mkDirState (d_durable (dir_of w dir)) names (names :: d_possible (dir_of w dir))).
Definition set_file (w : Disk) (h : nat) (f : File) : Disk := mkDisk (<[h := f]> (dk_files w)) (dk_dirs w).
(** An empty file under a new name. *)
Definition new_file (w : Disk) (p : Path) : Disk :=
  set_names (mkDisk (dk_files w ++ [mkFile [] false]) (dk_dirs w)) (p_dir p)
    (<[p_leaf p := length (dk_files w)]> (d_live (dir_of w (p_dir p)))).

Lemma dir_of_set w dir s d : dir_of (set_dir w dir s) d = if bool_decide (d = dir) then s else dir_of w d.
Proof. unfold dir_of, set_dir. cbn. by case_bool_decide. Qed.

(** The lock is an empty file, created when it is not there, which outlives the
    lock. *)
Inductive fs_step : ∀ R, fs_call R → Disk → result FsError R → Disk → Prop :=
| fs_fail R (c : fs_call R) w e : fs_kind e = FsOther → fs_step R c w (Err e) w
| fs_create_dir dir w : is_Some (dk_dirs w dir) → fs_step _ (CreateDirAll dir) w (Ok ()) w
| fs_create_dir_new dir w : dk_dirs w dir = None → fs_step _ (CreateDirAll dir) w (Ok ()) (set_dir w dir no_names)
| fs_lock dir w i f : live w (lock_of dir) = Some i → dk_files w !! i = Some f → f_data f = [] → fs_step _ (LockDir dir) w (Ok ()) w
| fs_lock_new dir w r : is_Some (dk_dirs w dir) → live w (lock_of dir) = None →
    (∀ e, r = Err e → fs_kind e = FsOther) → fs_step _ (LockDir dir) w r (new_file w (lock_of dir))
| fs_no_dir dir R (c : fs_call R) w e : dk_dirs w dir = None → fs_kind e = FsNotFound →
    match c with LockDir d | OpenDir d => d = dir | OpenNew p => p_dir p = dir | _ => False end → fs_step _ c w (Err e) w
| fs_remove p w i : live w p = Some i →
    fs_step _ (RemoveFile p) w (Ok ()) (set_names w (p_dir p) (delete (p_leaf p) (d_live (dir_of w (p_dir p)))))
| fs_remove_absent p w e : live w p = None → fs_kind e = FsNotFound → fs_step _ (RemoveFile p) w (Err e) w
| fs_open_new p w : is_Some (dk_dirs w (p_dir p)) → live w p = None →
    fs_step _ (OpenNew p) w (Ok (length (dk_files w))) (new_file w p)
| fs_open_exists p w i e : live w p = Some i → fs_kind e = FsAlreadyExists → fs_step _ (OpenNew p) w (Err e) w
| fs_set_permissions h w : fs_step _ (SetPermissions h) w (Ok ()) w
| fs_write h data w f : dk_files w !! h = Some f →
    fs_step _ (WriteAll h data) w (Ok ()) (set_file w h (mkFile (f_data f ++ data) false))
| fs_write_part h data w f k e : dk_files w !! h = Some f → fs_kind e = FsOther →
    fs_step _ (WriteAll h data) w (Err e) (set_file w h (mkFile (f_data f ++ take k data) false))
| fs_sync h w f : dk_files w !! h = Some f →
    fs_step _ (SyncAll h) w (Ok ()) (set_file w h (mkFile (f_data f) true))
| fs_rename p q w i : p_dir p = p_dir q → live w p = Some i →
    fs_step _ (Rename p q) w (Ok ())
      (set_names w (p_dir q) (<[p_leaf q := i]> (delete (p_leaf p) (d_live (dir_of w (p_dir q))))))
| fs_link p q w i : live w p = Some i → live w q = None →
    fs_step _ (HardLink p q) w (Ok ()) (set_names w (p_dir q) (<[p_leaf q := i]> (d_live (dir_of w (p_dir q)))))
| fs_link_exists p q w i e : live w q = Some i → fs_kind e = FsAlreadyExists → fs_step _ (HardLink p q) w (Err e) w
| fs_read p w i f : live w p = Some i → dk_files w !! i = Some f → fs_step _ (ReadAll p) w (Ok (f_data f)) w
| fs_read_absent p w e : live w p = None → fs_kind e = FsNotFound → fs_step _ (ReadAll p) w (Err e) w
| fs_open_dir dir w : is_Some (dk_dirs w dir) → fs_step _ (OpenDir dir) w (Ok ()) w
| fs_sync_dir dir w : is_Some (dk_dirs w dir) → fs_step _ (SyncDir dir) w (Ok ())
    (set_dir w dir (mkDirState (d_durable (dir_of w dir)) (d_live (dir_of w dir)) [d_live (dir_of w dir)])).

(** A run: the program may stop after any step. *)
Inductive prog_step {A} : Prog A * Disk → Prog A * Disk → Prop :=
| prog_call R (c : fs_call R) k w r w' : fs_step R c w r w' → prog_step (Call c k, w) (k r, w').

(** What a name holds, and what it may hold after a crash. *)
Definition content (w : Disk) (p : Path) : option bytes := i ← live w p; f_data <$> dk_files w !! i.
Definition after_crash (w : Disk) (p : Path) (c : option bytes) : Prop :=
  ∃ names, names ∈ possible (dir_of w (p_dir p)) ∧
    match names !! p_leaf p with
    | None => c = None
    | Some i => ∃ f d, dk_files w !! i = Some f ∧ c = Some d ∧ (f_synced f = true → d = f_data f)
    end.

(** A name that designates nothing, or a synced file. *)
Definition stored (w : Disk) (i : option nat) (c : option bytes) : Prop :=
  match i with
  | None => c = None
  | Some i => ∃ f, dk_files w !! i = Some f ∧ f_synced f = true ∧ c = Some (f_data f)
  end.
Definition names_of (w : Disk) (dir : string) : list (gmap string nat) :=
  d_live (dir_of w dir) :: possible (dir_of w dir).
(** The directory outlives a crash. *)
Definition durable (w : Disk) (dir : string) : bool := d_durable (dir_of w dir).
(** Now and after a crash, [p] holds one of the contents [P]. *)
Definition holds (P : option bytes → Prop) (w : Disk) (p : Path) : Prop :=
  ∀ names, names ∈ names_of w (p_dir p) → ∃ c, P c ∧ stored w (names !! p_leaf p) c.
Definition settled (w : Disk) (p : Path) (c : option bytes) : Prop := holds (eq c) w p.

(** ** Runs *)

(** [I] holds of every state of every run, and [Q] of the states where the
    program returns. *)
Fixpoint wp {A} (I : Disk → Prop) (p : Prog A) (Q : A → Disk → Prop) (w : Disk) : Prop :=
  I w ∧ match p with
        | Ret a => Q a w
        | Call c k => ∀ r w', fs_step _ c w r w' → wp I (k r) Q w'
        end.

Lemma wp_sound {A} I (p : Prog A) Q w p' w' : wp I p Q w → rtc prog_step (p, w) (p', w') →
  I w' ∧ ∀ a, p' = Ret a → Q a w'.
Proof.
  intros Hwp Hr. remember (p, w) as s eqn:Hs. remember (p', w') as s' eqn:Hs'. revert p w Hs Hwp.
  induction Hr as [s|s s1 s2 Hstep Hr IH]; intros p w -> Hwp.
  - injection Hs' as <- <-. destruct p; destruct Hwp as [HI HQ]; split; try done. by intros a' [= <-].
  - inversion Hstep as [R c k w1 r w2 Hfs]; subst. destruct Hwp as [_ Hwp]. eauto.
Qed.

Lemma wp_inv {A} I (p : Prog A) Q w : wp I p Q w → I w.
Proof. by destruct p; intros [? _]. Qed.
Lemma wp_bind {A B} I (p : Prog A) (f : A → Prog B) Q w :
  wp I p (λ a w, wp I (f a) Q w) w → wp I (p ≫= f) Q w.
Proof.
  revert w. induction p as [a|R c k IH]; intros w [HI H]; [done|]. split; [done|]. intros r w' Hs. apply IH, H, Hs.
Qed.
Lemma wp_mono {A} I J (p : Prog A) Q Q' w : (∀ w, I w → J w) → (∀ a w, I w → Q a w → Q' a w) → wp I p Q w → wp J p Q' w.
Proof.
  intros HI HQ. revert w. induction p as [a|R c k IH]; intros w [Hw H]; (split; [by apply HI|]); [by apply HQ|].
  intros r w' Hs. by apply IH, H.
Qed.
Lemma wp_call {R} I (c : fs_call R) Q w : I w → (∀ r w', fs_step _ c w r w' → I w' ∧ Q r w') → wp I (call c) Q w.
Proof. intros HI H. split; [done|]. intros r w' Hs. by apply H. Qed.
Lemma wp_try {E A B} I (p : Prog (result E A)) (k : A → Prog (result E B)) Q w :
  wp I p (λ r w, match r with Ok a => wp I (k a) Q w | Err e => Q (Err e) w end) w → wp I (prog_try p k) Q w.
Proof.
  intros H. apply wp_bind. eapply wp_mono; [| |exact H]; [done|]. intros [a|e] w' HI HQ; [done|by split].
Qed.

(** ** What the calls leave alone *)

(** Synced files stay as they are. *)
Definition extends (w w' : Disk) : Prop :=
  ∀ i f, dk_files w !! i = Some f → f_synced f = true → dk_files w' !! i = Some f.
(** Besides, [p] is what it was, and no crash shows more of it than before. *)
Definition frame (p : Path) (w w' : Disk) : Prop :=
  extends w w' ∧ live w' p = live w p ∧ durable w' (p_dir p) = durable w (p_dir p)
  ∧ ∀ names', names' ∈ possible (dir_of w' (p_dir p)) →
    ∃ names, names ∈ names_of w (p_dir p) ∧ names' !! p_leaf p = names !! p_leaf p.
(** So it is of all names but those in [l], and of the lock files in [l] that
    are there. *)
Definition lock_there (w : Disk) (p : Path) : Prop := p_leaf p = ATOMIC_WRITE_LOCK_LEAF ∧ is_Some (live w p).
Definition frame_but (l : list Path) (w w' : Disk) : Prop := ∀ p, (p ∈ l → lock_there w p) → frame p w w'.
(** The names that a writer in the directory uses besides its destination. *)
Definition own_names (dir : string) : list Path := [scratch_of dir; lock_of dir].

Lemma stored_extends w w' i c : extends w w' → stored w i c → stored w' i c.
Proof. intros He. destruct i as [i|]; [|done]. intros (f & Hf & Hs & ->). exists f. split; [by apply He|done]. Qed.

#[export] Instance extends_preorder : PreOrder extends.
Proof. split; [by intros w i f|]. intros w1 w2 w3 H1 H2 i f Hf Hs. apply H2; [by apply H1|done]. Qed.

Lemma frame_names p w w' names' : frame p w w' → names' ∈ names_of w' (p_dir p) →
  ∃ names, names ∈ names_of w (p_dir p) ∧ names' !! p_leaf p = names !! p_leaf p.
Proof.
  intros (_ & Hl & _ & Hp) [->|Hin]%elem_of_cons; [|by apply Hp]. exists (d_live (dir_of w (p_dir p))).
  split; [by left|exact Hl].
Qed.

#[export] Instance frame_preorder p : PreOrder (frame p).
Proof.
  split.
  - intros w. split; [done|]. split; [done|]. split; [done|]. intros names Hn. exists names. split; [by right|done].
  - intros w1 w2 w3 (He1 & Hl1 & Hd1 & Hp1) (He2 & Hl2 & Hd2 & Hp2). split; [by etransitivity|]. split; [by rewrite Hl2|].
    split; [by rewrite Hd2|].
    intros names3 H3. destruct (Hp2 _ H3) as (names2 & H2 & ->). by apply (frame_names p w1 w2).
Qed.
#[export] Instance frame_but_preorder l : PreOrder (frame_but l).
Proof.
  split; [by intros w p _|]. intros w1 w2 w3 H1 H2 p Hp. pose proof (H1 p Hp) as Hf. etransitivity; [exact Hf|]. apply H2.
  intros Hin. destruct (Hp Hin) as [Hlk Hl]. split; [done|]. destruct Hf as (_ & -> & _). done.
Qed.
Lemma frame_but_use l p w w' : frame_but l w w' → p ∉ l → frame p w w'.
Proof. intros Hf Hp. apply Hf. by intros ?%Hp. Qed.
Lemma frame_but_durable l w w' d : frame_but l w w' → durable w' d = durable w d.
Proof.
  intros Hf. destruct (Hf (mkPath d (fresh (p_leaf <$> l)))) as (_ & _ & Hd & _); [|done].
  intros Hin. destruct (infinite_is_fresh (p_leaf <$> l)). exact (list_elem_of_fmap_2 p_leaf _ _ Hin).
Qed.
Lemma frame_but_mono l l' w w' : l ⊆ l' → frame_but l w w' → frame_but l' w w'.
Proof. intros Hl Hf p Hp. apply Hf. intros Hin. apply Hp, Hl, Hin. Qed.

Lemma holds_frame P p w w' : frame p w w' → holds P w p → holds P w' p.
Proof.
  intros Hf Hh names Hn. destruct (frame_names p w w' names Hf Hn) as (names0 & Hn0 & ->).
  destruct (Hh _ Hn0) as (c & Hc & Hs). exists c. split; [done|]. by eapply stored_extends; [apply Hf|].
Qed.

Lemma names_of_set w dir names d : names_of (set_names w dir names) d =
  if bool_decide (d = dir) then names :: names :: possible (dir_of w d) else names_of w d.
Proof. unfold names_of, set_names. rewrite dir_of_set. case_bool_decide; by subst. Qed.

Lemma set_dir_frame w dir s p : d_durable s = durable w dir →
  (p_dir p = dir → d_live s !! p_leaf p = live w p) →
  (p_dir p = dir → ∀ names', names' ∈ d_possible s → ∃ names, names ∈ names_of w dir ∧ names' !! p_leaf p = names !! p_leaf p) →
  frame p w (set_dir w dir s).
Proof.
  intros Hd Hl Hp. unfold frame, live, durable. rewrite dir_of_set. split; [by intros i f|]. case_bool_decide as He.
  - split; [by apply Hl|]. subst dir. split; [done|]. intros names' [Hin|Hin]%elem_of_app; [by apply Hp|].
    exists names'. split; [|done]. right. apply elem_of_app. right. unfold durable in Hd. by rewrite <- Hd.
  - split; [done|]. split; [done|]. intros names' Hin. exists names'. split; [by right|done].
Qed.

Lemma set_names_frame w dir names p :
  (p_dir p = dir → names !! p_leaf p = live w p) → frame p w (set_names w dir names).
Proof.
  intros Hn. apply set_dir_frame; [done|done|]. cbn. intros <- names' [->|Hin]%elem_of_cons.
  - exists (d_live (dir_of w (p_dir p))). split; [by left|by apply Hn].
  - exists names'. split; [|done]. right. apply elem_of_app. by left.
Qed.

Lemma new_file_frame w p q : q ≠ p → frame q w (new_file w p).
Proof.
  intros Hne. transitivity (mkDisk (dk_files w ++ [mkFile [] false]) (dk_dirs w)).
  - split; [|split; [done|split; [done|]]].
    + intros i f Hi _. cbn. by apply lookup_app_l_Some.
    + intros names Hn. exists names. split; [by right|done].
  - apply set_names_frame. intros Hd. unfold live. rewrite Hd. apply lookup_insert_ne. intros ?. apply Hne. by apply path_eq.
Qed.

Lemma set_file_frame w h f p : (∀ g, dk_files w !! h = Some g → f_synced g = true → g = f) → frame p w (set_file w h f).
Proof.
  intros Hf. split; [|split; [done|split; [done|]]].
  - intros i g Hi Hs. cbn. destruct (decide (i = h)) as [->|Hne].
    + rewrite list_lookup_insert_eq by (by eapply lookup_lt_Some). by rewrite (Hf g).
    + by rewrite list_lookup_insert_ne.
  - intros names Hn. exists names. split; [by right|done].
Qed.

(** Calls that change no name but the writer's own, and write to no file. *)
Definition quiet_call {R} (dir : string) (c : fs_call R) : Prop :=
  match c with
  | RemoveFile p | OpenNew p => p = scratch_of dir
  | LockDir d => d = dir
  | WriteAll _ _ | Rename _ _ | HardLink _ _ => False
  | _ => True
  end.
Fixpoint quiet {A} (dir : string) (p : Prog A) : Prop :=
  match p with Ret _ => True | Call c k => quiet_call dir c ∧ ∀ r, quiet dir (k r) end.

Lemma not_scratch dir w p : (p ∈ own_names dir → lock_there w p) → p ≠ scratch_of dir.
Proof. intros Hp ->. destruct (Hp ltac:(left)) as [[=] _]. Qed.

Lemma quiet_step dir R (c : fs_call R) w r w' : quiet_call dir c → fs_step R c w r w' → frame_but (own_names dir) w w'.
Proof.
  intros Hq Hs p Hp. pose proof (not_scratch dir w p Hp) as Hps. destruct Hs; cbn in Hq; try done; subst.
  - apply set_dir_frame; unfold live, durable, dir_of; [by rewrite H|by intros ->; rewrite H|by intros _ ? ?%elem_of_nil].
  - apply new_file_frame. intros ->. destruct (Hp ltac:(right; left)) as [_ Hl]. rewrite H0 in Hl. by destruct Hl.
  - apply set_names_frame. intros Hd. unfold live. rewrite Hd. apply lookup_delete_ne. intros ?. apply Hps. by apply path_eq.
  - by apply new_file_frame.
  - apply set_file_frame. intros g Hg Hsg. destruct g as [d []]; cbn in Hsg; [|done]. by simplify_eq.
  - apply set_dir_frame; cbn; [done|by intros <-|]. intros _ names ->%list_elem_of_singleton. eexists. split; [by left|done].
Qed.

Lemma wp_quiet {A} dir (p : Prog A) w0 w : quiet dir p → frame_but (own_names dir) w0 w →
  wp (frame_but (own_names dir) w0) p (λ _ _, True) w.
Proof.
  revert w. induction p as [a|R c k IH]; intros w Hq Hf; split; try done. intros r w' Hs. destruct Hq as [Hc Hk].
  apply IH; [apply Hk|]. etransitivity; [exact Hf|]. by eapply quiet_step.
Qed.

(** The outcomes of the calls of the writer. *)
Definition outcome {R} (c : fs_call R) (w : Disk) : result FsError R → Disk → Prop :=
  match c in fs_call R return result FsError R → Disk → Prop with
  | OpenNew p => λ r w',
      match r with
      | Ok h => dk_files w' !! h = Some (mkFile [] false) ∧ live w' p = Some h
      | Err _ => w' = w
      end
  | SetPermissions _ => λ _ w', w' = w
  | WriteAll h data => λ r w',
      match r with
      | Ok _ => ∃ f, dk_files w !! h = Some f ∧ w' = set_file w h (mkFile (f_data f ++ data) false)
      | Err _ => w' = w ∨ ∃ d, w' = set_file w h (mkFile d false)
      end
  | SyncAll h => λ r w',
      match r with
      | Ok _ => ∃ f, dk_files w !! h = Some f ∧ w' = set_file w h (mkFile (f_data f) true)
      | Err _ => w' = w
      end
  | Rename p q => λ r w',
      match r with
      | Ok _ => ∃ i, live w p = Some i
                ∧ w' = set_names w (p_dir q) (<[p_leaf q := i]> (delete (p_leaf p) (d_live (dir_of w (p_dir q)))))
      | Err _ => w' = w
      end
  | HardLink p q => λ r w',
      match r with
      | Ok _ => ∃ i, live w p = Some i ∧ live w q = None
                ∧ w' = set_names w (p_dir q) (<[p_leaf q := i]> (d_live (dir_of w (p_dir q))))
      | Err e => w' = w ∧ (fs_kind e = FsAlreadyExists → is_Some (live w q))
      end
  | ReadAll p => λ r w',
      w' = w ∧ match r with
               | Ok raw => content w p = Some raw
               | Err e => fs_kind e = FsNotFound → live w p = None
               end
  | SyncDir dir => λ r w', is_ok r = true → d_possible (dir_of w' dir) = [d_live (dir_of w' dir)]
  | _ => λ _ _, True
  end.

Lemma fs_step_outcome R (c : fs_call R) w r w' : fs_step R c w r w' → outcome c w r w'.
Proof.
  destruct 1; cbn; try done; eauto.
  - destruct c; cbn; try done; [by left|split; [done|congruence]..].
  - by destruct c.
  - split; [by rewrite lookup_app_r, Nat.sub_diag|]. unfold live, new_file, set_names. rewrite dir_of_set.
    rewrite bool_decide_eq_true_2 by done. cbn. apply lookup_insert_eq.
  - split; [done|]. unfold content. rewrite H. cbn. by rewrite H0.
  - intros _. unfold dir_of, set_dir. cbn. by rewrite bool_decide_eq_true_2.
Qed.

(** All values a program may return. *)
Fixpoint returns {A} (P : A → Prop) (p : Prog A) : Prop :=
  match p with Ret a => P a | Call c k => ∀ r, returns P (k r) end.

Lemma wp_quiet_returns {A} dir (P : A → Prop) (p : Prog A) w0 w : quiet dir p → returns P p → frame_but (own_names dir) w0 w →
  wp (frame_but (own_names dir) w0) p (λ a _, P a) w.
Proof.
  revert w. induction p as [a|R c k IH]; intros w Hq Hr Hf; (split; [done|]); [done|]. intros r w' Hs. destruct Hq as [Hc Hk].
  apply IH; [apply Hk|apply Hr|]. etransitivity; [exact Hf|]. by eapply quiet_step.
Qed.

Lemma quiet_bind {A B} dir (p : Prog A) (f : A → Prog B) : quiet dir p → (∀ a, quiet dir (f a)) → quiet dir (p ≫= f).
Proof. intros Hp Hf. induction p as [a|R c k IH]; [apply Hf|]. destruct Hp as [Hc Hk]. split; [done|]. intros r. by apply IH. Qed.
Lemma returns_bind {A B} (P : B → Prop) (p : Prog A) (f : A → Prog B) : (∀ a, returns P (f a)) → returns P (p ≫= f).
Proof. intros Hf. induction p as [a|R c k IH]; [apply Hf|]. intros r. by apply IH. Qed.

Lemma quiet_unlink dir : quiet dir (unlink_atomic_scratch (scratch_of dir)).
Proof. by cbn. Qed.
Lemma quiet_sync dir d : quiet dir (sync_atomic_parent d).
Proof. split; [done|]. intros [[]|e]; cbn; done. Qed.

Lemma quiet_pre_commit path op primary : quiet (p_dir path) (failed (A := unit) (pre_commit_failure path op primary)).
Proof.
  apply quiet_bind; [|done]. apply quiet_bind; [apply quiet_unlink|]. intros r. apply quiet_bind; [apply quiet_sync|done].
Qed.
Definition fails_before (r : result AtomicWriteError unit) : Prop := ∃ e, r = Err e ∧ aw_stage e = BeforeNamespaceCommit.
Lemma returns_pre_commit path op primary : returns fails_before (failed (pre_commit_failure path op primary)).
Proof.
  assert (returns (λ e, aw_stage e = BeforeNamespaceCommit) (pre_commit_failure path op primary)) as H.
  { apply returns_bind. intros r. apply returns_bind. intros r'. by destruct r, r'. }
  unfold failed. induction (pre_commit_failure path op primary) as [e|R c k IH]; [by exists e|]. intros r. by apply IH.
Qed.

Lemma wp_sync own w0 dir w : frame_but (own_names own) w0 w →
  wp (frame_but (own_names own) w0) (sync_atomic_parent dir)
    (λ r w, is_ok r = true → d_possible (dir_of w dir) = [d_live (dir_of w dir)]) w.
Proof.
  intros Hf. unfold sync_atomic_parent, sync_dir. apply wp_bind, wp_call; [done|]. intros r w' Hs.
  assert (frame_but (own_names own) w0 w') as Hf' by (etransitivity; [exact Hf|by eapply quiet_step; [|exact Hs]]). split; [done|].
  apply wp_try. split; [done|]. destruct r as [[]|e]; cbn [ok_fs map_err];
    [|intros H; discriminate H].
  apply wp_bind, wp_call; [done|]. intros r w2 Hs2.
  assert (frame_but (own_names own) w0 w2) as Hf2 by (etransitivity; [exact Hf'|by eapply quiet_step; [|exact Hs2]]). split; [done|].
  split; [done|]. apply fs_step_outcome in Hs2. destruct r; [exact Hs2|]. intros H; discriminate H.
Qed.

(** After the commit: an error says so, and success means that the directory
    is synced. *)
Lemma wp_post_commit path op w0 w : frame_but (own_names (p_dir path)) w0 w →
  wp (frame_but (own_names (p_dir path)) w0) (post_commit_cleanup path op)
    (λ r w, match r with
            | Ok _ => d_possible (dir_of w (p_dir path)) = [d_live (dir_of w (p_dir path))]
            | Err e => aw_stage e = AfterNamespaceCommit
            end) w.
Proof.
  intros Hf. unfold post_commit_cleanup. apply wp_bind. eapply wp_mono; [intros ? H; exact H| |by apply wp_quiet, Hf].
  intros r1 w1 Hf1 _. apply wp_bind. eapply wp_mono; [intros ? H; exact H| |by apply wp_sync].
  intros r2 w2 Hf2 H. split; [done|]. destruct r1, r2; cbn in *; try done. by apply H.
Qed.

(** ** The file is the old one or the new one *)

(** What the destination holds once the writer has succeeded. *)
Definition written (op : AtomicWriteOperation) (old : option bytes) (data : bytes) : option bytes :=
  match op, old with CreateIfAbsent, Some x => Some x | _, _ => Some data end.

(** The file is there to stay, as far as its directory is. *)
Definition kept_there (w : Disk) (p : Path) (c : option bytes) : Prop :=
  stored w (live w p) c ∧ holds (λ c', c' = c ∨ durable w (p_dir p) = false ∧ c' = None) w p.

Lemma kept_settled w p c : kept_there w p c → durable w (p_dir p) = true → settled w p c.
Proof. intros [_ Hh] Hd names Hn. destruct (Hh names Hn) as (c' & [->|[Hd' _]] & Hs); [by exists c|congruence]. Qed.

(** Whole files only: no name, now or after a crash, designates a file whose
    data may be lost; and the directory outlives a crash. *)
Definition tidy (w : Disk) (p : Path) : Prop := durable w (p_dir p) = true ∧ holds (λ _, True) w p.

Lemma synced_names w p c : d_possible (dir_of w (p_dir p)) = [d_live (dir_of w (p_dir p))] → stored w (live w p) c →
  holds (λ c', c' = c ∨ durable w (p_dir p) = false ∧ c' = None) w p.
Proof.
  intros Hp Hs names Hn. unfold names_of, possible, durable in *. rewrite Hp in Hn.
  assert (names = d_live (dir_of w (p_dir p)) ∨ d_durable (dir_of w (p_dir p)) = false ∧ names = ∅) as [->|[Hd ->]].
  { destruct (d_durable _); set_solver. }
  - exists c. split; [by left|exact Hs].
  - exists None. split; [by right|]. by rewrite lookup_empty.
Qed.

Section writer.
Context (path : Path) (data : bytes) (op : AtomicWriteOperation) (resolve : Prog (nres unit)) (w0 : Disk).
Context (P : option bytes → Prop) (old : option bytes).
Let s := scratch_of (p_dir path).
Let own := own_names (p_dir path).
Let new := written op old data.
Hypothesis Hne : path ∉ own.
Hypothesis Hresolve : quiet (p_dir path) resolve.
Hypothesis HP : holds P w0 path.
Hypothesis Hold : stored w0 (live w0 path) old.

Definition write_inv (w : Disk) : Prop := frame_but (path :: own) w0 w ∧ holds (λ c, P c ∨ c = new) w path.
Definition write_post (r : result AtomicWriteError unit) (w : Disk) : Prop :=
  match r with
  | Ok _ => kept_there w path new
  | Err e => match aw_stage e with
             | BeforeNamespaceCommit => holds P w path ∧ stored w (live w path) old
             | AfterNamespaceCommit => stored w (live w path) new
             end
  end.

Lemma holds_mono (P1 P2 : option bytes → Prop) w p : (∀ c, P1 c → P2 c) → holds P1 w p → holds P2 w p.
Proof. intros Hp Hh names Hn. destruct (Hh names Hn) as (c & Hc & Hs). eauto. Qed.

Lemma frame_old w : frame_but own w0 w → holds P w path ∧ stored w (live w path) old.
Proof.
  intros Hf. pose proof (frame_but_use _ _ _ _ Hf Hne) as Hp. split; [by eapply holds_frame|].
  destruct Hp as (He & -> & _). by eapply stored_extends.
Qed.

Lemma frame_inv w : frame_but own w0 w → write_inv w.
Proof.
  intros Hf. split; [eapply frame_but_mono, Hf; by apply list_subseteq_cons|]. eapply holds_mono; [|by apply frame_old]. by left.
Qed.

Lemma wp_pre primary w : frame_but own w0 w → wp write_inv (failed (pre_commit_failure path op primary)) write_post w.
Proof.
  intros Hf. eapply wp_mono; [exact frame_inv| |exact (wp_quiet_returns (p_dir path) _ _ w0 w (quiet_pre_commit _ _ _) (returns_pre_commit _ _ _) Hf)].
  intros r w' Hf' (e & -> & He). cbn. rewrite He. by apply frame_old.
Qed.

Lemma wp_post w : write_inv w → stored w (live w path) new → wp write_inv (post_commit_cleanup path op) write_post w.
Proof.
  intros [Hfr Hh] Hs. eapply wp_mono; [| |exact (wp_post_commit path op w w (reflexivity w))].
  - intros w' Hf'. split.
    + etransitivity; [exact Hfr|]. eapply frame_but_mono, Hf'. by apply list_subseteq_cons.
    + eapply holds_frame, Hh. by apply (frame_but_use _ _ _ _ Hf').
  - intros r w' Hf' Hr. pose proof (frame_but_use _ _ _ _ Hf' Hne) as Hp.
    assert (stored w' (live w' path) new) as Hs'.
    { destruct Hp as (He & -> & _). by eapply stored_extends. }
    destruct r as [[]|e]; cbn; [|by rewrite Hr].
    split; [done|]. by apply synced_names.
Qed.

(** A directory operation that puts the new file at the destination. *)
Lemma commit_names w h names : frame_but own w0 w → stored w (Some h) new → names !! p_leaf path = Some h →
  (∀ p, p ≠ s → p ≠ path → p_dir p = p_dir path → names !! p_leaf p = live w p) →
  let w' := set_names w (p_dir path) names in write_inv w' ∧ stored w' (live w' path) new.
Proof.
  intros Hf Hst Hl Hother w'. assert (live w' path = Some h) as Hlive.
    { unfold live, w', set_names. rewrite dir_of_set, bool_decide_eq_true_2 by done. exact Hl. }
  split; [|by rewrite Hlive]. split.
  - intros p Hp. assert (∀ q, p = q → q ∈ path :: own → p_leaf q ≠ ATOMIC_WRITE_LOCK_LEAF → False) as Hnot.
    { intros q -> Hq Hlk. by destruct (Hp Hq) as [? _]. }
    transitivity w; [apply Hf; intros ?; apply Hp; by right|]. apply set_names_frame. intros Hd. apply Hother; [..|done].
    + intros He. by apply (Hnot s He); [right; left|].
    + intros He. apply (Hnot path He); [by left|]. intros Hlk. apply Hne. right. apply list_elem_of_singleton.
      by apply path_eq.
  - intros ns Hn. unfold w' in Hn. rewrite names_of_set, bool_decide_eq_true_2 in Hn by done.
    rewrite !elem_of_cons in Hn. destruct Hn as [->|[->|Hn]]; [by exists new; rewrite Hl; eauto..|].
    destruct (proj1 (frame_old w Hf) ns) as (c & Hc & Hs); [by right|]. exists c. split; [by left|done].
Qed.

Lemma live_dir w p : live w p = d_live (dir_of w (p_dir p)) !! p_leaf p.
Proof. done. Qed.

(** The commit, when the scratch file is written and synced. *)
Definition ready (w : Disk) : Prop :=
  frame_but own w0 w ∧ ∃ h, live w s = Some h ∧ stored w (Some h) (Some data).

Lemma leaf_ne : p_leaf path ≠ p_leaf s.
Proof. intros He. apply Hne. rewrite (path_eq path s eq_refl He). left. Qed.

Lemma wp_rename (text : string → string) w : op = Overwrite → ready w →
  wp write_inv (r ← call (Rename s path);
                match r with
                | Err error => failed (pre_commit_failure path op (text (fs_text error)))
                | Ok _ => post_commit_cleanup path op
                end) write_post w.
Proof.
  intros Hop (Hf & h & Hsc & Hst). pose proof leaf_ne as Hleaf.
  apply wp_bind, wp_call; [by apply frame_inv|]. intros r w' Hs%fs_step_outcome. cbn [outcome] in Hs.
  destruct r as [[]|e]; [|subst w'; split; [by apply frame_inv|by apply wp_pre]].
  destruct Hs as (i & Hi & ->). rewrite Hsc in Hi. injection Hi as <-.
  destruct (commit_names w h (<[p_leaf path := h]> (delete (p_leaf s) (d_live (dir_of w (p_dir path)))))) as [Hinv Hnew]; try done.
  { unfold new. by rewrite Hop. } { apply lookup_insert_eq. }
  { intros p Hps Hpp Hd. rewrite lookup_insert_ne, lookup_delete_ne.
    - by rewrite live_dir, Hd.
    - intros He. by apply Hps, path_eq.
    - intros He. by apply Hpp, path_eq. }
  split; [done|]. by apply wp_post.
Qed.

(** An existing file stays, whatever becomes of the scratch file. *)
Lemma existing_inv w : op = CreateIfAbsent → is_Some old → frame_but own w0 w → write_inv w ∧ stored w (live w path) new.
Proof.
  intros Hop [x Hx] Hf. split; [by apply frame_inv|]. assert (new = old) as -> by (unfold new; by rewrite Hop, Hx).
  by apply frame_old.
Qed.

Lemma wp_link (text : string → string) w : op = CreateIfAbsent → ready w →
  wp write_inv (r ← call (HardLink s path);
                match r with
                | Ok _ => post_commit_cleanup path op
                | Err error =>
                    if bool_decide (fs_kind error = FsAlreadyExists)
                    then (r ← resolve;
                          match r with
                          | Err primary => failed (pre_commit_failure path op primary)
                          | Ok _ => post_commit_cleanup path op
                          end)
                    else failed (pre_commit_failure path op (text (fs_text error)))
                end) write_post w.
Proof.
  intros Hop (Hf & h & Hsc & Hst). pose proof leaf_ne as Hleaf.
  destruct (frame_old w Hf) as [_ Hlive].
  apply wp_bind, wp_call; [by apply frame_inv|]. intros r w' Hs%fs_step_outcome. cbn [outcome] in Hs.
  destruct r as [[]|e].
  - destruct Hs as (i & Hi & Hnone & ->). rewrite Hsc in Hi. injection Hi as <-. rewrite Hnone in Hlive. cbn in Hlive.
    destruct (commit_names w h (<[p_leaf path := h]> (d_live (dir_of w (p_dir path))))) as [Hinv Hnew]; try done.
    { unfold new. by rewrite Hop, Hlive. } { apply lookup_insert_eq. }
    { intros p _ Hpp Hd. rewrite lookup_insert_ne; [by rewrite live_dir, Hd|]. intros He. by apply Hpp, path_eq. }
    split; [done|]. by apply wp_post.
  - destruct Hs as [-> He]. split; [by apply frame_inv|]. case_bool_decide as Hk; [|by apply wp_pre].
    specialize (He Hk). assert (is_Some old) as Hsome.
    { destruct He as [i Hi]. rewrite Hi in Hlive. destruct Hlive as (f & _ & _ & ->). eauto. }
    apply wp_bind. eapply wp_mono; [exact frame_inv| |by apply (wp_quiet (p_dir path) resolve w0 w)].
    intros r w' Hf' _. destruct r as [[]|e']; [|by apply wp_pre]. by apply wp_post; apply existing_inv.
Qed.

(** The scratch file gets the data. *)
Lemma wp_fill w h text1 text2 (k : Prog (result AtomicWriteError unit)) :
  frame_but own w0 w → live w s = Some h → dk_files w !! h = Some (mkFile [] false) →
  (∀ w', ready w' → wp write_inv k write_post w') →
  wp write_inv (write_result ← (r ← call (WriteAll h data);
                                _ ←? Ret (ok_fs r text1);
                                r ← call (SyncAll h);
                                Ret (ok_fs r text2));
                match write_result with
                | Err primary => failed (pre_commit_failure path op primary)
                | Ok _ => k
                end) write_post w.
Proof.
  intros Hf Hsc Hh Hk. assert (∀ d, frame_but own w0 (set_file w h (mkFile d false))) as Hset.
  { intros d. etransitivity; [exact Hf|]. intros p _. apply set_file_frame. intros g Hg Hs. by simplify_eq. }
  apply wp_bind, wp_bind, wp_call; [by apply frame_inv|]. intros r w1 Hs%fs_step_outcome. cbn [outcome] in Hs.
  destruct r as [[]|e]; cbn [ok_fs map_err].
  - destruct Hs as (f & Hf1 & ->). rewrite Hh in Hf1. injection Hf1 as <-. cbn [f_data app]. set (w1 := set_file w h _).
    assert (frame_but own w0 w1) as Hw1 by apply Hset. split; [by apply frame_inv|]. apply wp_try. split; [by apply frame_inv|].
    apply wp_bind, wp_call; [by apply frame_inv|]. intros r w2 Hs2.
    assert (frame_but own w0 w2) as Hw2 by (etransitivity; [exact Hw1|by eapply quiet_step; [|exact Hs2]]).
    split; [by apply frame_inv|]. split; [by apply frame_inv|]. apply fs_step_outcome in Hs2. cbn [outcome] in Hs2.
    destruct r as [[]|e]; cbn [ok_fs map_err]; [|by apply wp_pre]. apply Hk. split; [done|]. exists h.
    assert (h < length (dk_files w))%nat as Hlt by (by eapply lookup_lt_Some).
    destruct Hs2 as (f & Hf2 & ->). unfold w1 in Hf2. cbn in Hf2. rewrite list_lookup_insert_eq in Hf2 by done.
    injection Hf2 as <-. split; [done|]. exists (mkFile data true). cbn.
    rewrite list_lookup_insert_eq by (rewrite length_insert; done). done.
  - assert (frame_but own w0 w1) as Hw1 by (destruct Hs as [->|[d ->]]; [done|apply Hset]).
    split; [by apply frame_inv|]. split; [by apply frame_inv|]. by apply wp_pre.
Qed.

Lemma wp_locked w : frame_but own w0 w → wp write_inv (write_atomic_file_locked path data op resolve) write_post w.
Proof.
  intros Hf. unfold write_atomic_file_locked. fold s. apply wp_bind. unfold pre_unlink_atomic_scratch.
  eapply wp_mono; [exact frame_inv| |by apply (wp_quiet (p_dir path) _ w0 w (quiet_unlink (p_dir path)))]. intros r w1 Hf1 _.
  destruct r as [[]|e]; [|split; [by apply frame_inv|by apply frame_old]].
  unfold open_atomic_scratch. apply wp_bind, wp_bind, wp_call; [by apply frame_inv|]. intros r w2 Hs2.
  assert (frame_but own w0 w2) as Hf2 by (etransitivity; [exact Hf1|by eapply quiet_step; [|exact Hs2]]).
  split; [by apply frame_inv|]. apply fs_step_outcome in Hs2. cbn [outcome] in Hs2. apply wp_try. split; [by apply frame_inv|].
  destruct r as [h|e]; cbn [map_err]; [|by apply wp_pre]. destruct Hs2 as [Hh Hl].
  apply wp_bind, wp_call; [by apply frame_inv|]. intros r w3 ->%fs_step_outcome. split; [by apply frame_inv|].
  apply wp_try. split; [by apply frame_inv|]. destruct r as [[]|e]; cbn [ok_fs map_err]; [|by apply wp_pre].
  split; [by apply frame_inv|]. apply wp_fill; [done..|]. intros w4 Hw4.
  assert (op = Overwrite ∨ op = CreateIfAbsent) as [Hop|Hop] by (destruct op; auto).
  - rewrite Hop; cbv iota; rewrite <- Hop. refine (wp_rename (λ e, _ +:+ _ +:+ ": " +:+ e)%string w4 Hop Hw4).
  - rewrite Hop; cbv iota; rewrite <- Hop. refine (wp_link (λ e, _ +:+ _ +:+ ": " +:+ e)%string w4 Hop Hw4).
Qed.
End writer.

Lemma stored_content w p c : stored w (live w p) c → content w p = c.
Proof. unfold content. destruct (live w p) as [i|]; cbn; [|done]. intros (f & Hf & _ & ->). by rewrite Hf. Qed.
Lemma holds_crash P w p c : holds P w p → after_crash w p c → P c.
Proof.
  intros Hh (names & Hn & Hc). destruct (Hh names ltac:(by right)) as (c' & Hp & Hs).
  destruct (names !! p_leaf p) as [i|]; cbn in *; [|congruence].
  destruct Hs as (f & Hf & Hsy & ->), Hc as (f' & d & Hf' & -> & Hd). simplify_eq. by rewrite Hd.
Qed.
Lemma settled_live w p c : settled w p c → stored w (live w p) c.
Proof. intros Hs. destruct (Hs (d_live (dir_of w (p_dir p))) ltac:(left)) as (c' & <- & H). exact H. Qed.
Lemma settled_content w p c : settled w p c → content w p = c.
Proof. intros Hs. by apply stored_content, settled_live. Qed.
Lemma settled_crash w p c c' : settled w p c → after_crash w p c' → c' = c.
Proof. intros Hs Hc. symmetry. exact (holds_crash _ _ _ _ Hs Hc). Qed.

Lemma valid_destination path op : validate_atomic_write_destination path op = Ok () → path ∉ own_names (p_dir path).
Proof.
  unfold validate_atomic_write_destination. destruct (_ || _) eqn:E; [done|]. apply orb_false_iff in E as [E1%bool_decide_eq_false E2%bool_decide_eq_false].
  intros _ [He|[He|[]%elem_of_nil]%elem_of_cons]%elem_of_cons; [apply E2|apply E1]; by rewrite He.
Qed.

(** The whole writer, as a rule for programs that use it. *)
Lemma wp_write path data op resolve w0 P old :
  quiet (p_dir path) resolve → holds P w0 path → stored w0 (live w0 path) old →
  wp (write_inv path data op w0 P old) (write_atomic_file path data op resolve) (write_post path data op P old) w0.
Proof.
  intros Hq HP Hold. unfold write_atomic_file.
  assert (write_inv path data op w0 P old w0) as Hinv0 by (split; [done|eapply holds_mono; [|exact HP]; by left]).
  apply wp_try. split; [done|]. destruct (validate_atomic_write_destination path op) as [[]|e] eqn:Hv.
  - pose proof (valid_destination _ _ Hv) as Hne.
    assert (∀ w, frame_but (own_names (p_dir path)) w0 w → write_inv path data op w0 P old w) as Hinv
      by (intros w Hw; by eapply frame_inv).
    assert (∀ w, frame_but (own_names (p_dir path)) w0 w → holds P w path ∧ stored w (live w path) old) as Hset
      by (intros w Hw; by eapply frame_old).
    apply wp_bind, wp_call; [done|]. intros r w1 Hs1.
    assert (frame_but (own_names (p_dir path)) w0 w1) as Hw1 by (by eapply quiet_step; [|exact Hs1]).
    split; [by apply Hinv|]. apply wp_try. split; [by apply Hinv|]. destruct r as [[]|e]; cbn [map_err]; [|by apply Hset].
    apply wp_bind, wp_call; [by apply Hinv|]. intros r w2 Hs2.
    assert (frame_but (own_names (p_dir path)) w0 w2) as Hw2 by (etransitivity; [exact Hw1|by eapply quiet_step; [|exact Hs2]]).
    split; [by apply Hinv|]. apply wp_try. split; [by apply Hinv|]. destruct r as [[]|e]; cbn [map_err]; [|by apply Hset].
    by apply wp_locked.
  - unfold validate_atomic_write_destination in Hv. case_match; [|done]. by injection Hv as <-.
Qed.

(** Whether a directory outlives a crash is not changed. *)
Lemma step_durable R (c : fs_call R) w r w' d : fs_step R c w r w' → durable w' d = durable w d.
Proof.
  destruct 1; try done; unfold durable, new_file, set_names; rewrite ?dir_of_set; try (case_bool_decide; by subst).
  case_bool_decide; subst; [|done]. unfold dir_of. by rewrite H.
Qed.
Lemma run_durable {A} (p : Prog A) w p' w' d : rtc prog_step (p, w) (p', w') → durable w' d = durable w d.
Proof.
  intros Hr. remember (p, w) as s eqn:Hs. remember (p', w') as s' eqn:Hs'. revert p w Hs.
  induction Hr as [s|s s1 s2 Hstep Hr IH]; intros p w ->; [by injection Hs' as _ <-|].
  inversion Hstep as [R c k w1 r w2 Hfs]; subst. rewrite (IH eq_refl _ _ eq_refl). by eapply step_durable.
Qed.


(** Directories that are there to stay, and no directories. *)
Definition empty_disk : Disk := mkDisk [] (λ _, Some (mkDirState true ∅ [∅])).
Definition fresh_disk : Disk := mkDisk [] (λ _, None).
Definition demo_path : Path := mkPath "blocks" "a.bin".

(** A file system where no call fails. *)
Definition fs_error (kind : FsErrorKind) : FsError := mkFsError kind "".
Definition fs_exec {R} (c : fs_call R) (w : Disk) : result FsError R * Disk :=
  let names dir := d_live (dir_of w dir) in
  match c in fs_call R return result FsError R * Disk with
  | CreateDirAll dir => (Ok (), match dk_dirs w dir with Some _ => w | None => set_dir w dir no_names end)
  | LockDir dir =>
      match dk_dirs w dir, live w (lock_of dir) with
      | None, _ => (Err (fs_error FsNotFound), w)
      | Some _, None => (Ok (), new_file w (lock_of dir))
      | Some _, Some i => (match dk_files w !! i with Some (mkFile [] _) => Ok () | _ => Err (fs_error FsOther) end, w)
      end
  | OpenDir dir => (match dk_dirs w dir with Some _ => Ok () | None => Err (fs_error FsNotFound) end, w)
  | SetPermissions _ => (Ok (), w)
  | RemoveFile p =>
      match live w p with
      | Some _ => (Ok (), set_names w (p_dir p) (delete (p_leaf p) (names (p_dir p))))
      | None => (Err (fs_error FsNotFound), w)
      end
  | OpenNew p =>
      match dk_dirs w (p_dir p), live w p with
      | None, _ => (Err (fs_error FsNotFound), w)
      | Some _, None => (Ok (length (dk_files w)), new_file w p)
      | Some _, Some _ => (Err (fs_error FsAlreadyExists), w)
      end
  | WriteAll h data =>
      match dk_files w !! h with
      | Some f => (Ok (), set_file w h (mkFile (f_data f ++ data) false))
      | None => (Err (fs_error FsOther), w)
      end
  | SyncAll h =>
      match dk_files w !! h with
      | Some f => (Ok (), set_file w h (mkFile (f_data f) true))
      | None => (Err (fs_error FsOther), w)
      end
  | Rename p q =>
      match live w p with
      | Some i => if bool_decide (p_dir p = p_dir q)
                  then (Ok (), set_names w (p_dir q) (<[p_leaf q := i]> (delete (p_leaf p) (names (p_dir q)))))
                  else (Err (fs_error FsOther), w)
      | None => (Err (fs_error FsOther), w)
      end
  | HardLink p q =>
      match live w q, live w p with
      | Some _, _ => (Err (fs_error FsAlreadyExists), w)
      | None, Some i => (Ok (), set_names w (p_dir q) (<[p_leaf q := i]> (names (p_dir q))))
      | None, None => (Err (fs_error FsOther), w)
      end
  | ReadAll p =>
      match live w p with
      | Some i => match dk_files w !! i with Some f => (Ok (f_data f), w) | None => (Err (fs_error FsOther), w) end
      | None => (Err (fs_error FsNotFound), w)
      end
  | SyncDir dir =>
      match dk_dirs w dir with
      | Some _ => (Ok (), set_dir w dir (mkDirState (d_durable (dir_of w dir)) (names dir) [names dir]))
      | None => (Err (fs_error FsOther), w)
      end
  end.

Lemma fs_exec_step R (c : fs_call R) w : fs_step R c w (fs_exec c w).1 (fs_exec c w).2.
Proof. destruct c; cbn; repeat case_match; subst; cbn; try case_bool_decide; try by econstructor. Qed.

Fixpoint run {A} (p : Prog A) (w : Disk) : A * Disk :=
  match p with
  | Ret a => (a, w)
  | Call c k => run (k (fs_exec c w).1) (fs_exec c w).2
  end.
Lemma run_steps {A} (p : Prog A) w : rtc prog_step (p, w) (Ret (run p w).1, (run p w).2).
Proof.
  revert w. induction p as [a|R c k IH]; intros w; cbn; [done|]. eapply rtc_l; [|apply IH]. constructor. apply fs_exec_step.
Qed.

Lemma fresh_settled p : settled fresh_disk p None.
Proof.
  intros names Hn. unfold names_of in Hn. cbn in Hn. assert (names = ∅) as -> by set_solver. exists None. by rewrite lookup_empty.
Qed.
Lemma empty_settled p : settled empty_disk p None.
Proof.
  intros names Hn. unfold names_of in Hn. cbn in Hn. assert (names = ∅) as -> by set_solver. exists None. by rewrite lookup_empty.
Qed.

Definition demo_write : Prog (result AtomicWriteError unit) := write_atomic_file demo_path [x01; x02] Overwrite (Ret (Ok ())).

(** In a directory that is not there the writer leaves the directory, the file
    and the lock file. *)
Example demo_write_fresh : (run demo_write fresh_disk).1 = Ok () ∧ content (run demo_write fresh_disk).2 demo_path = Some [x01; x02]
  ∧ content (run demo_write fresh_disk).2 (lock_of "blocks") = Some [] ∧ durable (run demo_write fresh_disk).2 "blocks" = false.
Proof. by vm_compute. Qed.

