(* ===== verification/Headers.v ===== *)
(** * Walks along stored headers ([blockstore.rs], [target_schedule.rs], [sync.rs])

    The work of a chain, the target of the next block and the timestamps that
    its own timestamp is compared with are computed from stored headers, by
    following parent hashes or the canonical index. *)

From Stdlib Require Import Ascii.
From stdpp Require Import pretty.
From S2P Require Import Prelude Bytes Errors Constants Crypto WireRead CompactSize TxWire Block Pow.
From S2P Require Import Vault Suites Verify SigCache WorkerPool SigQueue Sighash Spend NodeText BlockStore StoreFiles.

(** The index with the directories of blocks, headers and undo records. *)
(* rust: node/blockstore.rs 31-37 BlockStore *)
Record Store : Type := mkStore {
  so_index : BlockStore; so_blocks : Directory; so_headers : Directory; so_undo : Directory }.

Section store.
Context `{HS : Sha3} `{BU : BigUintBytes} `{HX : Hex}.
Implicit Types (self : Store).

(* rust: node/blockstore.rs 508-519 read_block_file_by_hash *)
Definition read_block_file_by_hash self (h : bytes) : result IoError bytes :=
  read_file_from_dir (so_blocks self) h BLOCK_FILE_MAX_BYTES.

(* rust: node/blockstore.rs 521-531 get_block_by_hash *)
Definition get_block_by_hash self (h : bytes) : nres bytes :=
  map_err (λ e, "read block " +:+ file_path (so_blocks self) h +:+ ": " +:+ io_text e)%string (read_block_file_by_hash self h).

(* rust: node/blockstore.rs 533-542 get_header_by_hash *)
Definition get_header_by_hash self (h : bytes) : nres bytes :=
  map_err (λ e, "read header " +:+ file_path (so_headers self) h +:+ ": " +:+ io_text e)%string
    (read_file_from_dir (so_headers self) h HEADER_FILE_MAX_BYTES).

(* rust: node/blockstore.rs 544-548 has_block *)
Definition has_block self (h : bytes) : bool := file_exists (so_headers self) h.
(* rust: node/blockstore.rs 559-565 try_has_block *)
Definition try_has_block self (h : bytes) : nres bool := try_has_file_at (so_headers self) h.
(* rust: node/blockstore.rs 570-576 try_has_block_data *)
Definition try_has_block_data self (h : bytes) : nres bool := try_has_file_at (so_blocks self) h.
(* rust: node/blockstore.rs 582-588 try_has_undo *)
Definition try_has_undo self (h : bytes) : nres bool := try_has_file_at (so_undo self) h.

(** ** The work of a chain *)

(* rust: node/blockstore.rs 691-718 chain_work_header *)
Definition chain_work_header self (lookup_hash : bytes) : nres BlockHeader :=
  let about what := ("stored header for " +:+ hex_encode lookup_hash +:+ what)%string in
  header_bytes ← map_err (λ err, about " cannot be read: " +:+ err)%string (get_header_by_hash self lookup_hash);
  header ← map_err (λ err, about " does not parse: " +:+ display err)%string (parse_block_header_bytes header_bytes);
  observed_hash ← map_err (λ err, about " does not hash: " +:+ display err)%string (block_hash header_bytes);
  if negb (bool_decide (observed_hash = lookup_hash)) then Err (about " hashes to " +:+ hex_encode observed_hash)%string else
  Ok header.

(** Each step visits a new stored header, so the number of files is enough
    fuel; [None] is running out of it. *)
(* rust: node/blockstore.rs 729-739 chain_work *)
Fixpoint chain_work_loop (fuel : nat) self (seen : gset bytes) (targets : list bytes) (current : bytes) :
    option (nres (list bytes)) :=
  match fuel with
  | O => None
  | S fuel =>
      if decide (current = zeros 32) then Some (Ok targets) else
      if decide (current ∈ seen)
      then Some (fail ("blockstore chain-work parent cycle at " +:+ hex_encode current)%string) else
      match chain_work_header self current with
      | Err e => Some (Err e)
      | Ok header => chain_work_loop fuel self ({[current]} ∪ seen) (targets ++ [bh_target header]) (bh_prev_block_hash header)
      end
  end.

(* rust: node/blockstore.rs 722-741 chain_work *)
Definition chain_work (fuel : nat) self (tip_hash : bytes) : option (nres Z) :=
  if bool_decide (tip_hash = zeros 32) then Some (Ok 0) else
  r ← chain_work_loop fuel self ∅ [] tip_hash;
  Some (targets ← r; stringify (chain_work_from_targets targets)).

(** ** The expected target *)

(* rust: node/target_schedule.rs 9-17 TargetScheduleError *)
Inductive TargetScheduleError : Type :=
  | ParentUnknown | HistoryMissing | HistoryCorrupt | HeightInvalid | Retarget (e : string) | LocalIo (e : string).

(* rust: node/target_schedule.rs 19-23 TargetHeaderRead *)
Inductive TargetHeaderRead : Type := HeaderBytes (raw : bytes) | HeaderNotFound | HeaderLocalIo (e : string).

(* rust: node/target_schedule.rs 25-27 parse_header *)
Definition parse_header (raw : bytes) : result TargetScheduleError BlockHeader :=
  map_err (λ _, HistoryCorrupt) (parse_block_header_bytes raw).

(* rust: node/target_schedule.rs 29-35 verify_header_hash *)
Definition verify_header_hash (raw lookup : bytes) : result TargetScheduleError unit :=
  actual ← map_err (λ _, HistoryCorrupt) (block_hash raw);
  if negb (bool_decide (actual = lookup)) then Err HistoryCorrupt else Ok ().

(** [timestamps], [visited], [current] and [target_old]. *)
Record WindowState : Type := mkWindowState {
  ws_timestamps : list Z; ws_visited : gset bytes; ws_current : bytes; ws_target_old : bytes }.

(* rust: node/target_schedule.rs 53-79 expected_target_for_candidate_with_reader *)
Definition window_step (read : bytes → TargetHeaderRead) (boundary : bool) (window : Z) (s : WindowState) (index : Z) :
    result TargetScheduleError WindowState :=
  let current := ws_current s in
  if decide (current ∈ ws_visited s) then Err HistoryCorrupt else
  let visited := {[current]} ∪ ws_visited s in
  raw ← match read current with
        | HeaderBytes raw => Ok raw
        | HeaderNotFound => if index =? 0 then Err ParentUnknown else Err HistoryMissing
        | HeaderLocalIo error => Err (LocalIo error)
        end;
  header ← parse_header raw;
  if decide (bh_prev_block_hash header ∈ visited) then Err HistoryCorrupt else
  _ ← verify_header_hash raw current;
  let target_old := if index =? 0 then bh_target header else ws_target_old s in
  let timestamps := <[Z.to_nat (window - 1 - index) := bh_timestamp header]> (ws_timestamps s) in
  let current := bh_prev_block_hash header in
  if boundary && (index + 1 <? window) && bool_decide (current = zeros 32) then Err HistoryMissing else
  Ok (mkWindowState timestamps visited current target_old).

(* rust: node/target_schedule.rs 37-85 expected_target_for_candidate_with_reader *)
Definition expected_target_for_candidate_with_reader (read : bytes → TargetHeaderRead) (parent_hash : bytes)
    (candidate_height : Z) : result TargetScheduleError bytes :=
  if candidate_height =? 0 then Err HeightInvalid else
  let boundary := candidate_height mod WINDOW_SIZE =? 0 in
  let window := if boundary then WINDOW_SIZE else 1 in
  s ← try_fold (window_step read boundary window)
        (mkWindowState (replicate (Z.to_nat window) 0) ∅ parent_hash (zeros 32)) (seqZ 0 window);
  if negb boundary then Ok (ws_target_old s) else
  map_err (λ error, Retarget (display error)) (retarget_v1_clamped (ws_target_old s) (ws_timestamps s)).

(* rust: node/target_schedule.rs 93-100 expected_target_for_candidate *)
Definition store_header_reader (block_store : Store) (lookup : bytes) : TargetHeaderRead :=
  match try_has_block block_store lookup with
  | Ok false => HeaderNotFound
  | Err error => HeaderLocalIo error
  | Ok true => match get_header_by_hash block_store lookup with
               | Ok raw => HeaderBytes raw
               | Err error => HeaderLocalIo error
               end
  end.

(* rust: node/target_schedule.rs 87-104 expected_target_for_candidate *)
Definition expected_target_for_candidate (block_store : Store) (parent_hash : bytes) (candidate_height : Z) :
    result TargetScheduleError bytes :=
  expected_target_for_candidate_with_reader (store_header_reader block_store) parent_hash candidate_height.

(* rust: node/sync_reorg.rs 16-16 PARENT_BLOCK_NOT_FOUND_ERR *)
Definition PARENT_BLOCK_NOT_FOUND_ERR : string := "parent block not found".

(* rust: node/sync.rs 655-664 target_schedule_error_message *)
Definition target_schedule_error_message (err : TargetScheduleError) : string :=
  match err with
  | ParentUnknown => PARENT_BLOCK_NOT_FOUND_ERR
  | HistoryMissing => "target schedule history unavailable"
  | HistoryCorrupt => "target schedule history corrupt"
  | HeightInvalid => "target schedule height invalid"
  | Retarget cause => "target schedule retarget failed: " +:+ cause
  | LocalIo cause => "target schedule local I/O: " +:+ cause
  end%string.

(** [str::to_ascii_lowercase]. *)
Definition to_ascii_lowercase (s : string) : string :=
  String.string_of_list_ascii ((λ c, let n := nat_of_ascii c in
    if ((65 <=? n) && (n <=? 90))%nat then ascii_of_nat (n + 32) else c) <$> chars s).

(* rust: node/sync.rs 562-566 normalized_network_name *)
Definition normalized_network_name (network : string) : string :=
  let network := to_ascii_lowercase (trim network) in
  if bool_decide (network = "")%string then "devnet"%string else network.

(** [None] is a panic of the genesis constants. *)
(* rust: node/sync.rs 586-588 stock_devnet_target_schedule *)
Definition stock_devnet_target_schedule (network : string) (chain_id : bytes) : option bool :=
  if bool_decide (normalized_network_name network = "devnet"%string)
  then id ← devnet_genesis_chain_id; Some (bool_decide (chain_id = id)) else Some false.

(** The path of the saved chain state is what it displays as. *)
(* rust: node/sync.rs 33-43 SyncConfig *)
Record SyncConfig : Type := mkSyncConfig {
  cfg_header_batch_limit : Z; cfg_ibd_lag_seconds : Z; cfg_expected_target : option bytes; cfg_chain_id : bytes;
  cfg_chain_state_path : option string; cfg_network : string; cfg_suite_context : option (RotationProvider * SuiteRegistry);
  cfg_parallel_validation_mode : string; cfg_pv_shadow_max_samples : Z }.

(* rust: node/sync.rs 626-627 UNBOUND_DEVNET_TARGET_ERR *)
Definition UNBOUND_DEVNET_TARGET_ERR : string :=
  "target schedule context: stock devnet predicate holds but there is no block store".

(* rust: node/sync.rs 606-624 target_context_for_candidate *)
Definition target_context_for_candidate (block_store : option Store) (cfg : SyncConfig) (parent_hash : bytes)
    (candidate_height : Z) : option (nres (option bytes)) :=
  let static_target := Some (Ok (cfg_expected_target cfg)) in
  if candidate_height =? 0 then static_target else
  stock ← stock_devnet_target_schedule (cfg_network cfg) (cfg_chain_id cfg);
  if negb stock then static_target else
  Some (store ← ok_or block_store UNBOUND_DEVNET_TARGET_ERR;
        target ← map_err target_schedule_error_message (expected_target_for_candidate store parent_hash candidate_height);
        Ok (Some target)).

(** ** The timestamps before a block *)

(* rust: node/sync.rs 1629-1639 prev_timestamps_for_height *)
Definition push_timestamp (block_store : Store) (next_height : Z) (out : list Z) (offset : Z) : nres (list Z) :=
  let height := next_height - 1 - offset in
  hash ← ok_or (canonical_hash (so_index block_store) height)
           ("missing canonical hash at height " +:+ pretty height +:+ " for timestamp context (next_height="
            +:+ pretty next_height +:+ ")")%string;
  header_bytes ← get_header_by_hash block_store hash;
  header ← stringify (parse_block_header_bytes header_bytes);
  Ok (out ++ [bh_timestamp header]).

(* rust: node/sync.rs 1617-1641 prev_timestamps_for_height *)
Definition prev_timestamps_for_height (block_store : option Store) (next_height : Z) : nres (option (list Z)) :=
  if next_height =? 0 then Ok None else
  block_store ← ok_or block_store "sync engine missing blockstore for timestamp context"%string;
  let window_len := Z.min next_height 11 in
  out ← try_fold (push_timestamp block_store next_height) [] (seqZ 0 window_len);
  Ok (Some out).

(* rust: node/sync_reorg.rs 180-190 advance_prev_timestamps *)
Definition advance_prev_timestamps (prev : option (list Z)) (new_ts : Z) : list Z :=
  let MAX_WINDOW := 11%nat in
  match prev with Some prev => new_ts :: take (MAX_WINDOW - 1) prev | None => [new_ts] end.
End store.

(** ** Chains of headers *)

Section walks.
Context `{HS : Sha3} `{BU : BigUintBytes} `{HX : Hex}.

(** Bytes that are the header with the given hash. *)
Definition header_with_hash (raw h : bytes) (hd : BlockHeader) : Prop :=
  parse_block_header_bytes raw = Ok hd ∧ sha3_256 raw = h.

Lemma block_hash_run raw hd : parse_block_header_bytes raw = Ok hd → block_hash raw = Ok (sha3_256 raw).
Proof.
  intros (Hv & ->)%parse_block_header_Ok. unfold block_hash. by rewrite enc_header_length.
Qed.

Lemma header_hash_function raw raw' h hd hd' : raw = raw' →
  header_with_hash raw h hd → header_with_hash raw' h hd' → hd = hd'.
Proof. intros -> [Hp _] [Hp' _]. rewrite Hp in Hp'. by injection Hp'. Qed.

Definition stored_header (self : Store) (h : bytes) (hd : BlockHeader) : Prop :=
  ∃ raw, dir_files (so_headers self) !! h = Some (Content raw) ∧ header_with_hash raw h hd.

Lemma header_bound : 0 ≤ HEADER_FILE_MAX_BYTES < isize_max.
Proof. done. Qed.

Lemma get_header_Ok self h raw :
  get_header_by_hash self h = Ok raw ↔ dir_files (so_headers self) !! h = Some (Content raw) ∧ len raw ≤ HEADER_FILE_MAX_BYTES.
Proof. unfold get_header_by_hash. rewrite map_err_Ok. apply read_file_Ok, header_bound. Qed.

Lemma parsed_header_len raw hd : parse_block_header_bytes raw = Ok hd → len raw ≤ HEADER_FILE_MAX_BYTES.
Proof. intros (Hv & ->)%parse_block_header_Ok. rewrite enc_header_length by done. done. Qed.

Lemma chain_work_header_Ok self h hd : chain_work_header self h = Ok hd ↔ stored_header self h hd.
Proof.
  unfold chain_work_header, stored_header, header_with_hash. split.
  - intros H. inv_res. repeat match goal with H : map_err _ _ = Ok _ |- _ => apply map_err_Ok in H end.
    repeat match goal with
    | H : get_header_by_hash _ _ = Ok _ |- _ => apply get_header_Ok in H as [? _]
    | Hp : parse_block_header_bytes ?raw = Ok _, H : block_hash ?raw = Ok _ |- _ =>
        rewrite (block_hash_run _ _ Hp) in H; injection H as <-
    | H : negb _ = false |- _ => apply negb_false_iff, bool_decide_eq_true in H
    end. by eauto.
  - intros (raw & Hf & Hp & Hh). rewrite (proj2 (get_header_Ok _ _ raw)) by eauto using parsed_header_len.
    cbn [map_err]. run_bind. rewrite Hp. cbn [map_err]. run_bind. rewrite (block_hash_run _ _ Hp). cbn [map_err].
    run_bind. by rewrite Hh, bool_decide_eq_true_2.
Qed.

Lemma stored_header_function self h hd hd' : stored_header self h hd → stored_header self h hd' → hd = hd'.
Proof. intros (r & Hr & H) (r' & Hr' & H'). rewrite Hr in Hr'. injection Hr' as ->. by eapply header_hash_function. Qed.

(** The stored headers from a hash back to genesis. *)
Inductive header_path (self : Store) : bytes → list (bytes * BlockHeader) → Prop :=
  | header_path_end : header_path self (zeros 32) []
  | header_path_step h hd l : h ≠ zeros 32 → stored_header self h hd → header_path self (bh_prev_block_hash hd) l →
      header_path self h ((h, hd) :: l).

Lemma header_path_function self h l l' : header_path self h l → header_path self h l' → l = l'.
Proof.
  intros H; revert l'; induction H as [|h hd l Hz Hs _ IH]; intros l' H'; inversion H' as [|? hd' ? Hz' Hs' Hp' Hh]; subst; try done.
  assert (hd = hd') as <- by (by eapply stored_header_function). f_equal. by apply IH.
Qed.

Lemma header_path_suffix self h l k hd : header_path self h l → (k, hd) ∈ l →
  ∃ l1 l2, l = l1 ++ l2 ∧ header_path self k l2 ∧ l2 ≠ [].
Proof.
  induction 1 as [|h hd' l Hz Hs Hp IH]; [by intros ?%elem_of_nil|]. intros [[= -> ->]|Hin]%elem_of_cons.
  - exists [], ((h, hd') :: l). split; [done|]. split; [by constructor|done].
  - destruct (IH Hin) as (l1 & l2 & -> & ? & ?). by exists ((h, hd') :: l1), l2.
Qed.

(** A walk to genesis visits no hash twice. *)
Lemma header_path_NoDup self h l : header_path self h l → NoDup l.*1.
Proof.
  induction 1 as [|h hd l Hz Hs Hp IH]; [constructor|]. rewrite fmap_cons. apply list.NoDup_cons. split; [|done].
  intros ([k hd'] & Hk & Hin)%list_elem_of_fmap. cbn [fst] in Hk. subst k.
  destruct (header_path_suffix _ _ _ _ _ Hp Hin) as (l1 & l2 & -> & Hp2 & _).
  assert (l2 = (h, hd) :: l1 ++ l2) as Hl by (eapply header_path_function; [done|by constructor]).
  apply (f_equal length) in Hl. cbn [length] in Hl. rewrite length_app in Hl. lia.
Qed.

Definition path_targets (l : list (bytes * BlockHeader)) : list bytes := (λ x, bh_target x.2) <$> l.

Lemma chain_work_loop_ok self fuel : ∀ seen targets current,
  seen ⊆ dom (dir_files (so_headers self)) →
  (size (dom (dir_files (so_headers self)) ∖ seen) + 2 ≤ fuel)%nat →
  ∃ r, chain_work_loop fuel self seen targets current = Some r
    ∧ ∀ ts, r = Ok ts ↔ ∃ l, header_path self current l ∧ (∀ k, k ∈ l.*1 → k ∉ seen) ∧ ts = targets ++ path_targets l.
Proof.
  induction fuel as [|fuel IH]; intros seen targets current Hsub Hf; [lia|]. cbn [chain_work_loop].
  destruct (decide (current = zeros 32)) as [->|Hz].
  { eexists. split; [done|]. intros ts. split.
    - intros [= <-]. exists []. split; [constructor|]. split; [by intros k ?%elem_of_nil|]. by rewrite app_nil_r.
    - intros (l & Hl & _ & ->). inversion Hl; subst; [by rewrite app_nil_r|done]. }
  destruct (decide (current ∈ seen)) as [Hin|Hni].
  { eexists. split; [done|]. intros ts. split; [done|]. intros (l & Hl & Hd & _). inversion Hl; subst; [done|].
    destruct (Hd current); [by left|done]. }
  destruct (chain_work_header self current) as [hd|e] eqn:Hh.
  2: { eexists. split; [done|]. intros ts. split; [done|]. intros (l & Hl & _). inversion Hl as [|? hd ? _ Hs]; subst; [done|].
       apply chain_work_header_Ok in Hs. congruence. }
  apply chain_work_header_Ok in Hh. pose proof Hh as (raw & Hr & _). apply elem_of_dom_2 in Hr.
  destruct (IH ({[current]} ∪ seen) (targets ++ [bh_target hd]) (bh_prev_block_hash hd)) as (r & -> & Hts); [set_solver| |].
  { assert (size (dom (dir_files (so_headers self)) ∖ ({[current]} ∪ seen)) < size (dom (dir_files (so_headers self)) ∖ seen))%nat;
      [|lia]. apply subset_size. set_solver. }
  exists r. split; [done|]. intros ts. rewrite Hts. split.
  - intros (l & Hl & Hd & ->). exists ((current, hd) :: l). split; [by constructor|]. split.
    + intros k [->|Hk]%elem_of_cons; [done|]. specialize (Hd k Hk). set_solver.
    + by rewrite <- app_assoc.
  - intros (l & Hl & Hd & ->). inversion Hl as [|? hd' l' ? Hs Hp]; subst; [done|].
    assert (hd = hd') as <- by (by eapply stored_header_function). exists l'. split; [done|]. split.
    + apply header_path_NoDup in Hl. rewrite fmap_cons in Hl. apply list.NoDup_cons in Hl as [Hni' _]. cbn [fst] in Hni'.
      intros k Hk Hin. apply elem_of_union in Hin as [->%elem_of_singleton|Hin]; [done|].
      eapply Hd; [|exact Hin]. rewrite fmap_cons. by right.
    + by rewrite <- app_assoc.
Qed.

Lemma chain_work_path fuel self tip : (size (dom (dir_files (so_headers self))) + 2 ≤ fuel)%nat →
  ∃ r, chain_work fuel self tip = Some r
    ∧ ∀ w, r = Ok w ↔ ∃ l, header_path self tip l ∧ Forall target_valid (path_targets l)
                       ∧ w = foldr Z.add 0 (work <$> path_targets l).
Proof.
  intros Hf. unfold chain_work. case_bool_decide as Hz.
  { subst tip. eexists. split; [done|]. intros w. split.
    - intros [= <-]. exists []. split; [constructor|]. by split; [constructor|].
    - intros (l & Hl & _ & ->). by inversion Hl; subst. }
  destruct (chain_work_loop_ok self fuel ∅ [] tip) as (r & -> & Hr); [set_solver|by rewrite difference_empty_L|].
  eexists. split; [reflexivity|]. intros w. split.
  - destruct r as [ts|e]; [|done]. run_bind. intros [? ->]%stringify_Ok%chain_work_acc.
    destruct (proj1 (Hr ts) eq_refl) as (l & Hl & _ & ->). by exists l.
  - intros (l & Hl & Hv & ->). rewrite (proj2 (Hr (path_targets l))).
    + run_bind. by apply stringify_Ok, chain_work_acc.
    + exists l. split; [done|]. split; [set_solver|done].
Qed.

(** C39: the work of a stored chain. The walk over parent hashes ends on every
    content of the header directory, after at most one step per file; and it
    returns a number exactly when the files hold, each under its own hash, a
    chain of headers from the tip back to genesis with targets in range. The
    number is then the sum of the work of these headers. *)
Theorem chain_work_spec fuel self tip : (size (dom (dir_files (so_headers self))) + 2 ≤ fuel)%nat →
  ∃ r, chain_work fuel self tip = Some r
    ∧ ∀ w, r = Ok w ↔ ∃ l, header_path self tip l ∧ Forall target_valid (path_targets l)
                       ∧ w = foldr Z.add 0 (work <$> path_targets l).
Proof. apply chain_work_path. Qed.
End walks.

(** ** The retarget window *)

Section schedule.
Context `{HS : Sha3} `{BU : BigUintBytes} (read : bytes → TargetHeaderRead).

Definition read_header (h : bytes) (hd : BlockHeader) : Prop :=
  ∃ raw, read h = HeaderBytes raw ∧ header_with_hash raw h hd.

(** Headers read from [h] back, each under its hash, up to the parent [e] of the last. *)
Inductive walk : bytes → list (bytes * BlockHeader) → bytes → Prop :=
  | walk_end h : walk h [] h
  | walk_step h hd l e : read_header h hd → walk (bh_prev_block_hash hd) l e → walk h ((h, hd) :: l) e.

Lemma walk_inv c h hd l e : walk c ((h, hd) :: l) e → h = c ∧ read_header c hd ∧ walk (bh_prev_block_hash hd) l e.
Proof. by inversion 1. Qed.

(** What the loop checks of each header besides its hash. *)
Fixpoint window_fresh (boundary : bool) (visited : gset bytes) (l : list (bytes * BlockHeader)) : Prop :=
  match l with
  | [] => True
  | (h, hd) :: l =>
      h ∉ visited ∧ bh_prev_block_hash hd ∉ {[h]} ∪ visited
      ∧ (boundary = true → l ≠ [] → bh_prev_block_hash hd ≠ zeros 32) ∧ window_fresh boundary ({[h]} ∪ visited) l
  end.

Definition times (l : list (bytes * BlockHeader)) : list Z := (λ x, bh_timestamp x.2) <$> l.

Lemma window_step_Ok boundary window s index s' :
  window_step read boundary window s index = Ok s' ↔
  ∃ hd, read_header (ws_current s) hd ∧ ws_current s ∉ ws_visited s
    ∧ bh_prev_block_hash hd ∉ {[ws_current s]} ∪ ws_visited s
    ∧ (boundary = true → index + 1 < window → bh_prev_block_hash hd ≠ zeros 32)
    ∧ s' = mkWindowState (<[Z.to_nat (window - 1 - index) := bh_timestamp hd]> (ws_timestamps s))
             ({[ws_current s]} ∪ ws_visited s) (bh_prev_block_hash hd)
             (if index =? 0 then bh_target hd else ws_target_old s).
Proof.
  unfold window_step, parse_header, verify_header_hash, read_header, header_with_hash.
  destruct (decide (ws_current s ∈ ws_visited s)) as [|Hni]; [split; [done|by intros (? & _ & ? & _)]|].
  destruct (read (ws_current s)) as [raw| |e].
  2: { split; [by destruct (index =? 0)|by intros (? & (? & ? & _) & _)]. }
  2: { split; [done|by intros (? & (? & ? & _) & _)]. }
  run_bind. destruct (parse_block_header_bytes raw) as [hd|e] eqn:Hp; cbn [map_err]; run_bind.
  2: { split; [done|]. intros (? & (raw' & [= <-] & Hp' & _) & _). congruence. }
  rewrite (block_hash_run _ _ Hp). cbn [map_err]. run_bind. split.
  - case_decide as Hfr; [done|]. intros Hs. inv_res.
    repeat match goal with
    | H : negb _ = false |- _ => apply negb_false_iff, bool_decide_eq_true in H
    | H : (if negb _ then _ else _) = Ok _ |- _ => inv_res
    end.
    match goal with H : _ && _ && _ = false |- _ => rename H into Hb end.
    exists hd. split; [by eauto|]. split; [done|]. split; [done|]. split; [|done].
    intros -> Hlt%Z.ltb_lt. rewrite Hlt in Hb. by apply bool_decide_eq_false in Hb.
  - intros (hd' & (raw' & [= <-] & Hp' & Hh) & _ & Hfr & Hz & ->). rewrite Hp in Hp'. injection Hp' as <-.
    case_decide; [done|]. rewrite (bool_decide_eq_true_2 (sha3_256 raw = _)) by done. cbn [negb]. run_bind.
    destruct boundary, (index + 1 <? window) eqn:E; cbn [andb]; try done.
    rewrite bool_decide_eq_false_2; [done|]. apply Hz; [done|lia].
Qed.

Lemma window_fold boundary window n : ∀ i c V l0 tgt s', 0 ≤ i → i + Z.of_nat n = window → i = len l0 →
  try_fold (window_step read boundary window)
    (mkWindowState (replicate (Z.to_nat (window - i)) 0 ++ reverse (times l0)) V c tgt) (seqZ i (Z.of_nat n)) = Ok s' ↔
  ∃ l e, walk c l e ∧ length l = n ∧ window_fresh boundary V l
    ∧ ws_timestamps s' = reverse (times (l0 ++ l)) ∧ ws_target_old s' = match l0 ++ l with (_, hd) :: _ => if i =? 0 then bh_target hd else tgt | [] => tgt end
    ∧ ws_current s' = e ∧ ws_visited s' = list_to_set l.*1 ∪ V.
Proof.
  induction n as [|n IH]; intros i c V l0 tgt s' Hi Hw Hl.
  { cbn [seqZ Z.to_nat Z.of_nat seq fmap list_fmap try_fold]. rewrite seqZ_nil by lia. cbn [try_fold].
    replace (Z.to_nat (window - i)) with 0%nat by lia. cbn [replicate app]. split.
    - intros [= <-]. exists [], c. cbn. rewrite app_nil_r. split_and!; try done; [constructor| |set_solver].
      destruct l0 as [|[] l0]; [done|]. cbn in Hl. by replace (i =? 0) with false by lia.
    - intros (l & e & Hwk & Hn & _ & Ht & Hg & Hc & Hv). destruct l; [|done]. inversion Hwk; subst.
      rewrite app_nil_r in *. destruct s'; cbn in *; subst. do 2 f_equal; [set_solver|].
      destruct l0 as [|[] l0]; [done|]. cbn. by replace (Z.of_nat (S (length l0)) =? 0) with false by lia. }
  rewrite seqZ_cons by lia. replace (Z.pred (Z.of_nat (S n))) with (Z.of_nat n) by lia. cbn [try_fold].
  assert (∀ t, <[Z.to_nat (window - 1 - i) := t]> (replicate (Z.to_nat (window - i)) 0 ++ reverse (times l0))
               = replicate (Z.to_nat (window - (i + 1))) 0 ++ t :: reverse (times l0)) as Hins.
  { intros t. replace (Z.to_nat (window - i)) with (Z.to_nat (window - (i + 1)) + 1)%nat by lia.
    rewrite replicate_add, <- app_assoc. cbn [replicate app].
    rewrite insert_app_r_alt by (rewrite length_replicate; lia). rewrite length_replicate.
    by replace (Z.to_nat (window - 1 - i) - Z.to_nat (window - (i + 1)))%nat with 0%nat by lia. }
  replace (Z.succ i) with (i + 1) by lia. split.
  - intros H. inv_res. match goal with H : window_step _ _ _ _ _ = Ok _ |- _ => apply window_step_Ok in H as (hd & Hr & Hni & Hfr & Hz & ->) end.
    cbn [ws_timestamps ws_current ws_visited ws_target_old] in *. rewrite Hins in H.
    replace (bh_timestamp hd :: reverse (times l0)) with (reverse (times (l0 ++ [(c, hd)]))) in H
      by (unfold times; by rewrite fmap_app, reverse_app).
    apply IH in H as (l & e & Hwk & Hn & Hf & Ht & Hg & Hc & Hv); [|lia|lia|rewrite length_app; cbn; lia].
    exists ((c, hd) :: l), e. rewrite <- app_assoc in Ht, Hg. split_and!; try done.
    + by constructor.
    + cbn. by rewrite Hn.
    + cbn. split_and!; try done. intros Hb Hne. apply Hz; [done|]. destruct l; [done|]. cbn in Hn. lia.
    + rewrite Hg. destruct (i + 1 =? 0) eqn:E; [lia|]. destruct l0 as [|[] l0]; cbn [app]; [done|].
      destruct (i =? 0) eqn:E0; [cbn in Hl; lia|done].
    + rewrite Hv, fmap_cons. cbn [list_to_set fst]. set_solver.
  - intros (l & e & Hwk & Hn & Hf & Ht & Hg & Hc & Hv). destruct l as [|[h hd] l]; [done|].
    apply walk_inv in Hwk as (-> & Hr & Hwk). cbn [window_fresh] in Hf. destruct Hf as (Hni & Hfr & Hz & Hf). subst e.
    erewrite (proj2 (window_step_Ok boundary _ _ i _)).
    2: { exists hd. cbn [ws_current ws_visited]. split_and!; try done. intros Hb Hlt. apply Hz; [done|]. intros ->. cbn in *. lia. }
    run_bind. cbn [ws_timestamps ws_current ws_visited ws_target_old]. rewrite Hins.
    replace (bh_timestamp hd :: reverse (times l0)) with (reverse (times (l0 ++ [(c, hd)])))
      by (unfold times; by rewrite fmap_app, reverse_app).
    apply IH; [lia|cbn in Hn; lia|rewrite length_app; cbn; lia|].
    exists l, (ws_current s'). rewrite <- app_assoc. split_and!; try done.
    + by injection Hn.
    + rewrite Hg. destruct (i + 1 =? 0) eqn:E; [lia|]. destruct l0 as [|[] l0]; cbn [app]; [done|].
      destruct (i =? 0) eqn:E0; [cbn in Hl; lia|done].
    + rewrite Hv, fmap_cons. cbn [list_to_set fst]. set_solver.
Qed.
Lemma window_fresh_iff boundary c l e V : walk c l e → l ≠ [] →
  window_fresh boundary V l ↔ NoDup (l.*1 ++ [e]) ∧ (∀ k, k ∈ l.*1 ++ [e] → k ∉ V) ∧ (boundary = true → zeros 32 ∉ tail l.*1).
Proof.
  intros Hw; revert V; induction Hw as [|h hd l e Hr Hw IH]; intros V Hne; [done|]. clear Hne.
  cbn [window_fresh]. rewrite fmap_cons. cbn [fst tail app]. rewrite list.NoDup_cons.
  destruct l as [|[h' hd'] l].
  { inversion Hw; subst. cbn [window_fresh fmap list_fmap app]. setoid_rewrite elem_of_cons. setoid_rewrite list_elem_of_singleton.
    split.
    - intros (? & ? & _ & _). split_and!; [set_solver|constructor; [apply not_elem_of_nil|constructor]|intros k [->| ->]; set_solver|set_solver].
    - intros ([? _] & Hd & _). split_and!; [by apply Hd; left| |done|done].
      intros [?%elem_of_singleton|?]%elem_of_union; [set_solver|]. eapply Hd; [by right|done]. }
  pose proof Hw as [-> _]%walk_inv. rewrite (IH ({[h]} ∪ V)) by done. rewrite fmap_cons. cbn [fst tail app].
  setoid_rewrite elem_of_cons. setoid_rewrite elem_of_union. setoid_rewrite elem_of_singleton. split.
  - intros (Hni & Hfr & Hz & Hnd & Hd & Hz'). split_and!; try done.
    + intros Hin. apply (Hd h Hin). by left.
    + intros k [->|Hk]; [done|]. intros HV. apply (Hd k); [by apply elem_of_cons|by right].
    + intros Hb [?|?]; [by apply Hz|by apply Hz'].
  - intros ((Hni & Hnd) & Hd & Hz). split_and!; try done.
    + apply Hd. by left.
    + intros [Heq|?]; [apply Hni; by left|]. eapply Hd; [right; by left|done].
    + intros Hb _ Hz0. apply Hz; [done|]. by left.
    + intros k Hk [->|HV]; [by apply Hni|]. eapply Hd; [right; by apply elem_of_cons|done].
    + intros Hb Hin. apply Hz; [done|]. by right.
Qed.

(** The headers that decide the target of the block at [height] on [parent]:
    the parent alone, or the window that ends with it at a boundary. *)
Definition deciding_headers (parent : bytes) (height : Z) (l : list (bytes * BlockHeader)) (e : bytes) : Prop :=
  walk parent l e ∧ NoDup (l.*1 ++ [e])
  ∧ if height mod WINDOW_SIZE =? 0 then len l = WINDOW_SIZE ∧ zeros 32 ∉ tail l.*1 else len l = 1.

Lemma target_schedule_Ok parent height t :
  expected_target_for_candidate_with_reader read parent height = Ok t ↔
  height ≠ 0 ∧ ∃ l e hd, deciding_headers parent height l e ∧ head l = Some (parent, hd)
    ∧ if height mod WINDOW_SIZE =? 0 then retarget_v1_clamped (bh_target hd) (reverse (times l)) = Ok t
      else t = bh_target hd.
Proof.
  unfold expected_target_for_candidate_with_reader, deciding_headers. destruct (height =? 0) eqn:E0.
  { split; [done|]. intros [? _]. lia. }
  set (b := height mod WINDOW_SIZE =? 0). set (w := if b then WINDOW_SIZE else 1).
  assert (0 < w) as Hw by (unfold w, WINDOW_SIZE; destruct b; lia).
  pose proof (window_fold b w (Z.to_nat w) 0 parent ∅ [] (zeros 32)) as Hfold.
  rewrite Z.sub_0_r in Hfold. cbn [times fmap list_fmap reverse rev_append app] in Hfold. rewrite app_nil_r in Hfold.
  rewrite Z2Nat.id in Hfold by lia.
  split.
  - intros H. split; [lia|]. inv_res.
    match goal with H : try_fold _ _ _ = Ok ?s |- _ =>
      apply Hfold in H as (l & e & Hwk & Hn & Hf & Ht & Hg & Hc & Hv); [|lia|lia|done]; rename s into s' end.
    destruct l as [|[h hd] l]; [cbn in Hn; lia|]. pose proof Hwk as [-> _]%walk_inv.
    apply (window_fresh_iff b parent _ e) in Hf as (Hnd & _ & Hz); [|done|done].
    exists ((parent, hd) :: l), e, hd. cbn [app] in Ht, Hg. change (0 =? 0) with true in Hg. cbv iota in Hg.
    unfold w in *. destruct b; cbn [negb] in *.
    + rewrite Hg, Ht in H. apply map_err_Ok in H. split; [|done]. split; [done|]. split; [done|]. split; [lia|by apply Hz].
    + inv_res. split; [|done]. split; [done|]. split; [done|]. lia.
  - intros (_ & l & e & hd & (Hwk & Hnd & Hlen) & Hhd & Ht).
    assert (∃ l', l = (parent, hd) :: l') as [l' ->] by (destruct l; [done|injection Hhd as ->; eauto]).
    rewrite (proj2 (Hfold (mkWindowState (reverse (times ((parent, hd) :: l'))) (list_to_set ((parent, hd) :: l').*1 ∪ ∅) e
      (bh_target hd)) ltac:(lia) ltac:(lia) eq_refl)).
    2: { exists ((parent, hd) :: l'), e. split; [done|]. split; [unfold w; destruct b; lia|]. split; [|done].
         apply (window_fresh_iff b parent _ e); [done|done|]. split; [done|]. split; [set_solver|].
         intros Hb. rewrite Hb in Hlen. by destruct Hlen. }
    run_bind. cbn [ws_target_old ws_timestamps app]. change (0 =? 0) with true. cbv iota.
    destruct b; cbn [negb]; [by rewrite Ht|by rewrite Ht].
Qed.
(** The parent is reported as unknown exactly when there is no header for it. *)
Lemma window_step_parent_unknown boundary window s index :
  window_step read boundary window s index = Err ParentUnknown → index = 0 ∧ read (ws_current s) = HeaderNotFound.
Proof.
  unfold window_step, parse_header, verify_header_hash. case_decide; [done|].
  destruct (read (ws_current s)) as [raw| |e]; run_bind; [|destruct (index =? 0) eqn:Ei; [split; [lia|done]|done]|done].
  destruct (parse_block_header_bytes raw) as [hd|e] eqn:Hp; cbn [map_err]; run_bind; [|done]. case_decide; [done|].
  rewrite (block_hash_run _ _ Hp). cbn [map_err]. run_bind.
  destruct (negb _); run_bind; [done|]. by destruct (_ && _).
Qed.

Lemma target_parent_unknown parent height :
  expected_target_for_candidate_with_reader read parent height = Err ParentUnknown
  ↔ height ≠ 0 ∧ read parent = HeaderNotFound.
Proof.
  unfold expected_target_for_candidate_with_reader. destruct (height =? 0) eqn:E0; [split; [done|intros [? _]; lia]|].
  set (b := height mod WINDOW_SIZE =? 0). set (w := if b then WINDOW_SIZE else 1).
  assert (0 < w) as Hw by (unfold w, WINDOW_SIZE; destruct b; lia).
  rewrite (seqZ_cons 0) by lia. cbn [try_fold]. split.
  - intros H. split; [lia|]. destruct (window_step _ _ _ _ _) as [s|e] eqn:Hs; cbn [mbind result_bind] in H.
    2: { injection H as ->. by apply window_step_parent_unknown in Hs as [_ ?]. }
    clear Hs. destruct (try_fold _ _ _) as [s'|e] eqn:Hf; cbn [mbind result_bind] in H.
    + destruct b; cbn in H; [|done]. by destruct (retarget_v1_clamped _ _).
    + injection H as ->. exfalso. apply try_fold_Err in Hf as (l1 & i & l2 & s1 & Hl & _ & Hi).
      apply window_step_parent_unknown in Hi as [-> _].
      assert (0 ∈ seqZ (Z.succ 0) (Z.pred w)) as ?%elem_of_seqZ by (rewrite Hl; set_solver). lia.
  - intros [_ Hr]. assert (∀ s, ws_current s = parent → ws_visited s = ∅ → window_step read b w s 0 = Err ParentUnknown) as Hs.
    { intros s Hc Hv. unfold window_step. rewrite Hc, Hv, Hr. case_decide as Hd; [by apply not_elem_of_empty in Hd|done]. }
    by rewrite Hs.
Qed.
(** The target of the next block, from any source of headers. A target is
    returned exactly when the height is not 0 and the headers are there under
    their own hashes, without a repeated hash: off a boundary it is the
    parent's target; at a multiple of the window size it is the retarget of the
    parent's target by the timestamps of the window's headers, oldest first,
    and the window does not reach below genesis. And the
    parent is reported as unknown, which keeps the block as an orphan, exactly
    when no header is found for it. *)
Theorem target_schedule_iff parent height :
  (∀ t, expected_target_for_candidate_with_reader read parent height = Ok t ↔
    height ≠ 0 ∧ ∃ l e hd, deciding_headers parent height l e ∧ head l = Some (parent, hd)
      ∧ if height mod WINDOW_SIZE =? 0 then retarget_v1_clamped (bh_target hd) (reverse (times l)) = Ok t
        else t = bh_target hd)
  ∧ (expected_target_for_candidate_with_reader read parent height = Err ParentUnknown
     ↔ height ≠ 0 ∧ read parent = HeaderNotFound).
Proof. split; [intros t; apply target_schedule_Ok|apply target_parent_unknown]. Qed.
End schedule.

(** ** The window of timestamps *)

Section window.
Context `{HX : Hex} (st : Store).

(** The timestamp of the canonical block at a height. *)
Definition canonical_time (height : Z) : option Z :=
  hash ← canonical_hash (so_index st) height;
  match get_header_by_hash st hash with
  | Ok raw => match parse_block_header_bytes raw with Ok hd => Some (bh_timestamp hd) | Err _ => None end
  | Err _ => None
  end.

(** The eleven heights below [next_height], the highest first. *)
Definition window_heights (next_height : Z) : list Z :=
  (λ offset, next_height - 1 - offset) <$> seqZ 0 (Z.min next_height 11).

Lemma push_timestamp_Ok n out i out' : push_timestamp st n out i = Ok out' ↔
  ∃ t, canonical_time (n - 1 - i) = Some t ∧ out' = out ++ [t].
Proof.
  unfold push_timestamp, canonical_time. destruct (canonical_hash _ _) as [h|]; cbn; [|split; [done|by intros (? & ? & _)]].
  destruct (get_header_by_hash st h) as [raw|e]; run_bind; [|split; [done|by intros (? & ? & _)]].
  destruct (parse_block_header_bytes raw) as [hd|e]; cbn; [|split; [done|by intros (? & ? & _)]].
  split; [intros [= <-]; eauto|by intros (t & [= <-] & ->)].
Qed.

Lemma push_timestamps_Ok n l : ∀ out out', try_fold (push_timestamp st n) out l = Ok out' ↔
  ∃ ts, Forall2 (λ i t, canonical_time (n - 1 - i) = Some t) l ts ∧ out' = out ++ ts.
Proof.
  induction l as [|i l IH]; intros out out'; cbn [try_fold].
  - split; [intros [= <-]; exists []; by rewrite app_nil_r|].
    intros (ts & Hts & ->). inversion Hts; subst. by rewrite app_nil_r.
  - split.
    + intros H. inv_res. match goal with H : push_timestamp _ _ _ _ = Ok _ |- _ => apply push_timestamp_Ok in H as (t & Ht & ->) end.
      apply IH in H as (ts & Hts & ->). exists (t :: ts). rewrite <- app_assoc. split; [by constructor|done].
    + intros (ts & Hts & ->). inversion Hts as [|? t ? ts' Ht Hts']; subst.
      rewrite (proj2 (push_timestamp_Ok n out i (out ++ [t]))) by eauto. run_bind. apply IH.
      exists ts'. by rewrite <- app_assoc.
Qed.

Lemma prev_timestamps_Some n ts : 0 ≤ n → prev_timestamps_for_height (Some st) n = Ok (Some ts) ↔
  n ≠ 0 ∧ Forall2 (λ k t, canonical_time k = Some t) (window_heights n) ts.
Proof.
  intros Hn. unfold prev_timestamps_for_height, window_heights. rewrite Forall2_fmap_l. destruct (n =? 0) eqn:E.
  { split; [done|]. intros [? _]. lia. }
  cbn [ok_or]. run_bind. split.
  - intros H. inv_res. match goal with H : try_fold _ _ _ = Ok _ |- _ => apply push_timestamps_Ok in H as (ts' & ? & ->) end.
    injection H as <-. split; [lia|done].
  - intros [_ Hts]. rewrite (proj2 (push_timestamps_Ok _ _ [] ts)) by eauto. done.
Qed.

(** The sliding window of timestamps. Advancing the window of a height by
    the timestamp of the canonical block there gives the window that would be
    read from the index for the height after: the branch preview, which
    advances the window because the index does not move, checks each block
    against the timestamps that the commit derives afresh. *)
Theorem window_slides n o t : 0 ≤ n → prev_timestamps_for_height (Some st) n = Ok o → canonical_time n = Some t →
  prev_timestamps_for_height (Some st) (n + 1) = Ok (Some (advance_prev_timestamps o t)).
Proof.
  intros Hn Ho Ht. apply prev_timestamps_Some; [lia|]. split; [lia|]. unfold window_heights.
  rewrite seqZ_cons by lia. rewrite fmap_cons. replace (n + 1 - 1 - 0) with n by lia. replace (Z.succ 0) with 1 by lia.
  destruct o as [ts|].
  - apply prev_timestamps_Some in Ho as [Hn0 Hts]; [|done]. unfold advance_prev_timestamps.
    constructor; [done|]. unfold window_heights in Hts. rewrite Forall2_fmap_l in Hts |- *.
    apply (Forall2_take _ _ _ (11 - 1)) in Hts. unfold seqZ in *. rewrite <- fmap_take, take_seq, Forall2_fmap_l in Hts.
    rewrite Forall2_fmap_l.
    replace (Z.to_nat (Z.pred (Z.min (n + 1) 11))) with ((11 - 1) `min` Z.to_nat (Z.min n 11))%nat by lia.
    eapply Forall2_impl; [|exact Hts]. unfold compose. intros k x Hx. rewrite <- Hx. f_equal. lia.
  - unfold prev_timestamps_for_height in Ho. destruct (n =? 0) eqn:E; [|cbn [ok_or mbind result_bind] in Ho; by destruct (try_fold _ _ _)].
    assert (n = 0) as -> by lia. rewrite seqZ_nil by lia. by repeat constructor.
Qed.
End window.

(** ** Concrete inputs: two stored headers *)

Definition demo_header0 : BlockHeader := mkBlockHeader 1 (zeros 32) (zeros 32) 1000 (replicate 32 xff) 7.
Definition demo_header0_hash : bytes := toy_digest (enc_header demo_header0).
Definition demo_header1 : BlockHeader := mkBlockHeader 1 demo_header0_hash (zeros 32) 1010 (replicate 32 xff) 8.
Definition demo_header1_hash : bytes := toy_digest (enc_header demo_header1).
Definition demo_header_files : gmap bytes StoredFile :=
  {[ demo_header0_hash := Content (enc_header demo_header0); demo_header1_hash := Content (enc_header demo_header1) ]}.
Definition demo_header_store : Store :=
  let dir files := mkDirectory "store" ".bin" files in
  let hashes := [demo_header0_hash; demo_header1_hash] in
  mkStore (mkBlockStore "index.json" (hex_encode (Hex := toy_hex) <$> hashes) hashes (hex_encode (Hex := toy_hex) <$> hashes))
    (dir ∅) (dir demo_header_files) (dir ∅).

Lemma chain_work_spec_witness : (size (dom demo_header_files) + 2 ≤ 4)%nat
  ∧ chain_work (HS := toy_sha3) (HX := toy_hex) 4 demo_header_store demo_header1_hash = Some (Ok 2)
  ∧ ∃ l, header_path (HS := toy_sha3) demo_header_store demo_header1_hash l ∧ Forall target_valid (path_targets l)
      ∧ 2 = foldr Z.add 0 (work <$> path_targets l).
Proof.
  assert (size (dom demo_header_files) + 2 ≤ 4)%nat as Hs by (vm_compute; lia).
  assert (chain_work (HS := toy_sha3) (HX := toy_hex) 4 demo_header_store demo_header1_hash = Some (Ok 2)) as Hc
    by (vm_compute; reflexivity).
  split; [exact Hs|]. split; [exact Hc|].
  destruct (chain_work_spec (HS := toy_sha3) (HX := toy_hex) 4 demo_header_store demo_header1_hash Hs) as (r & Hr & Hw).
  rewrite Hc in Hr. injection Hr as <-. exact (proj1 (Hw 2) eq_refl).
Defined.

Lemma window_slides_witness :
  prev_timestamps_for_height (HX := toy_hex) (Some demo_header_store) 2 = Ok (Some [1010; 1000]).
Proof.
  change 2 with (1 + 1). rewrite (window_slides (HX := toy_hex) demo_header_store 1 (Some [1000]) 1010 ltac:(lia)); vm_compute; reflexivity.
Defined.
