(* ===== verification/Base64.v ===== *)
(** * Canonical base64 ([undo.rs], [store_envelope.rs])

    The encoder, and the decoder that accepts only what the encoder writes: no
    symbol outside the alphabet, padding in the last quad only, and the bits
    that padding drops must be zero.  A Rust string is its bytes here. *)

From S2P Require Import Prelude Bytes.

(* rust: node/undo.rs 1199-1200 BASE64_ALPHABET *)
Definition BASE64_ALPHABET : bytes :=
  ascii_bytes "ABCDEFGHIJKLMNOPQRSTUVWXYZabcdefghijklmnopqrstuvwxyz0123456789+/".
Definition pad_symbol : byte := x3d.

(** [(packed >> shift) & 0x3f], looked up; it is below 64. *)
Definition base64_symbol (packed shift : Z) : byte :=
  default x00 (BASE64_ALPHABET !! Z.to_nat (Z.land (Z.shiftr packed shift) 63)).

(* rust: node/undo.rs 1208-1222 base64_encode *)
Definition encode_chunk (chunk : bytes) : bytes :=
  let byte i := default 0 (byte_val <$> chunk !! i) in
  let packed := Z.lor (Z.lor (Z.shiftl (byte 0%nat) 16) (Z.shiftl (byte 1%nat) 8)) (byte 2%nat) in
  imap (λ position shift, if len chunk <? Z.of_nat position then pad_symbol else base64_symbol packed shift)
    [18; 12; 6; 0].

(** [input.chunks(3)]. *)
(* rust: node/undo.rs 1205-1224 base64_encode *)
Fixpoint base64_encode (input : bytes) : bytes :=
  match input with
  | [] => []
  | a :: b :: c :: rest => encode_chunk [a; b; c] ++ base64_encode rest
  | chunk => encode_chunk chunk
  end.

(* rust: node/undo.rs 1226-1236 base64_symbol_value *)
Definition base64_symbol_value (symbol : byte) : option Z :=
  let s := byte_val symbol in
  if (65 <=? s) && (s <=? 90) then Some (s - 65) else
  if (97 <=? s) && (s <=? 122) then Some (s - 97 + 26) else
  if (48 <=? s) && (s <=? 57) then Some (s - 48 + 52) else
  if s =? 43 then Some 62 else
  if s =? 47 then Some 63 else None.

(** A quad; [last] says whether it is the final one.  The packed value keeps
    to 24 bits. *)
(* rust: node/undo.rs 1252-1284 base64_decode_canonical *)
Definition decode_quad {E} (not_canonical : E) (last : bool) (q0 q1 q2 q3 : byte) : result E bytes :=
  let pad := if negb last then 0%nat else
             if bool_decide (q3 = pad_symbol) then (if bool_decide (q2 = pad_symbol) then 2%nat else 1%nat) else 0%nat in
  packed ← try_fold (λ packed symbol,
             v ← ok_or (base64_symbol_value symbol) not_canonical;
             Ok (Z.lor (Z.shiftl packed 6) v)) 0 (take (4 - pad) [q0; q1; q2; q3]);
  if negb (Z.land packed (Z.shiftl 1 (2 * Z.of_nat pad) - 1) =? 0) then Err not_canonical else
  let packed := Z.shiftl packed (6 * Z.of_nat pad) in
  Ok ([byte_of_Z (Z.shiftr packed 16)]
      ++ (if (pad <? 2)%nat then [byte_of_Z (Z.shiftr packed 8)] else [])
      ++ (if (pad <? 1)%nat then [byte_of_Z packed] else [])).

(* rust: node/undo.rs 1250-1286 base64_decode_canonical *)
Fixpoint decode_quads {E} (not_canonical : E) (value : bytes) : result E bytes :=
  match value with
  | q0 :: q1 :: q2 :: q3 :: rest =>
      out ← decode_quad not_canonical (bool_decide (rest = [])) q0 q1 q2 q3;
      more ← decode_quads not_canonical rest;
      Ok (out ++ more)
  | _ => Ok []
  end.

(** The two copies differ in the error. *)
(* rust: node/undo.rs 1245-1286 base64_decode_canonical *)
Definition base64_decode_with {E} (not_canonical : E) (value : bytes) : result E bytes :=
  if negb (len value mod 4 =? 0) then Err not_canonical else decode_quads not_canonical value.

(** ** Bits as arithmetic *)

Lemma lor_shiftl a b n : 0 ≤ n → 0 ≤ b < 2 ^ n → Z.lor (Z.shiftl a n) b = a * 2 ^ n + b.
Proof.
  intros Hn Hb. pose proof (Z.add_lor_land (Z.shiftl a n) b) as H. rewrite Z.shiftl_mul_pow2 in H at 3 by done.
  destruct (decide (b = 0)) as [->|]; [rewrite Z.land_0_r in H; lia|].
  replace (Z.land (Z.shiftl a n) b) with 0 in H; [lia|]. symmetry.
  apply Z.bits_inj'. intros i Hi. rewrite Z.land_spec, Z.bits_0. destruct (decide (i < n)).
  - by rewrite Z.shiftl_spec_low by lia.
  - rewrite (Z.bits_above_log2 b); [by rewrite andb_false_r|lia|].
    apply Z.log2_lt_pow2; [lia|]. eapply Z.lt_le_trans; [apply Hb|]. apply Z.pow_le_mono_r; lia.
Qed.

Lemma land_63 a : Z.land a 63 = a mod 64.
Proof. change 63 with (Z.ones 6). by rewrite Z.land_ones. Qed.

(** ** Symbols *)

Lemma alphabet_value i : 0 ≤ i < 64 → base64_symbol_value (default x00 (BASE64_ALPHABET !! Z.to_nat i)) = Some i.
Proof.
  intros Hi. assert (Forall (λ i, base64_symbol_value (default x00 (BASE64_ALPHABET !! Z.to_nat i)) = Some i) (seqZ 0 64)) as H
    by (apply (bool_decide_unpack _); vm_compute; exact I).
  rewrite list.Forall_forall in H. apply H, elem_of_seqZ. lia.
Qed.

Lemma symbol_value_Some s i : base64_symbol_value s = Some i →
  0 ≤ i < 64 ∧ s = default x00 (BASE64_ALPHABET !! Z.to_nat i).
Proof. destruct s; vm_compute; intros [= <-]; repeat split; discriminate. Qed.

Definition symbol_of (i : Z) : byte := default x00 (BASE64_ALPHABET !! Z.to_nat i).

Lemma symbol_of_pad i : 0 ≤ i < 64 → symbol_of i ≠ pad_symbol.
Proof. intros Hi He. pose proof (alphabet_value i Hi) as H. unfold symbol_of in He. rewrite He in H. by vm_compute in H. Qed.

Lemma pack3 a b c : 0 ≤ a < 256 → 0 ≤ b < 256 → 0 ≤ c < 256 →
  Z.lor (Z.lor (Z.shiftl a 16) (Z.shiftl b 8)) c = a * 65536 + b * 256 + c.
Proof.
  intros. rewrite (lor_shiftl a) by (rewrite ?Z.shiftl_mul_pow2; lia). rewrite Z.shiftl_mul_pow2 by lia.
  replace (a * 2 ^ 16 + b * 2 ^ 8) with ((a * 256 + b) * 2 ^ 8) by lia. rewrite <- Z.shiftl_mul_pow2 by lia.
  rewrite lor_shiftl by lia. lia.
Qed.

Lemma base64_symbol_of packed n : 0 ≤ n → base64_symbol packed n = symbol_of (packed / 2 ^ n mod 64).
Proof. intros. unfold base64_symbol, symbol_of. by rewrite land_63, Z.shiftr_div_pow2. Qed.

Ltac euclid := change (2 ^ 18) with 262144; change (2 ^ 12) with 4096; change (2 ^ 6) with 64; change (2 ^ 0) with 1;
  Z.to_euclidean_division_equations; lia.
Ltac eval_tests :=
  repeat match goal with |- context [?a <? ?b] => let r := eval vm_compute in (a <? b) in change (a <? b) with r end; cbv iota.
Ltac same_symbols := eval_tests; cbv zeta; repeat (apply (f_equal2 cons); [first [done|apply f_equal; euclid]|]); done.

(** The four symbols of a chunk. *)
Lemma encode_chunk_3 a b c : encode_chunk [a; b; c] =
  let p := byte_val a * 65536 + byte_val b * 256 + byte_val c in
  [symbol_of (p / 262144 mod 64); symbol_of (p / 4096 mod 64); symbol_of (p / 64 mod 64); symbol_of (p mod 64)].
Proof.
  unfold encode_chunk, default, from_option, id. cbn [lookup list_lookup fmap option_fmap option_map].
  pose proof (byte_val_range a); pose proof (byte_val_range b); pose proof (byte_val_range c).
  rewrite pack3 by done. cbn. rewrite !base64_symbol_of by lia. same_symbols.
Qed.
Lemma encode_chunk_2 a b : encode_chunk [a; b] =
  let p := byte_val a * 256 + byte_val b in
  [symbol_of (p / 1024 mod 64); symbol_of (p / 16 mod 64); symbol_of (p * 4 mod 64); pad_symbol].
Proof.
  unfold encode_chunk, default, from_option, id. cbn [lookup list_lookup fmap option_fmap option_map].
  pose proof (byte_val_range a); pose proof (byte_val_range b).
  rewrite pack3 by lia. cbn. rewrite !base64_symbol_of by lia.
  same_symbols.
Qed.
Lemma encode_chunk_1 a : encode_chunk [a] =
  [symbol_of (byte_val a / 4); symbol_of (byte_val a * 16 mod 64); pad_symbol; pad_symbol].
Proof.
  unfold encode_chunk, default, from_option, id. cbn [lookup list_lookup fmap option_fmap option_map].
  pose proof (byte_val_range a). rewrite pack3 by lia. cbn. rewrite !base64_symbol_of by lia.
  same_symbols.
Qed.

(** ** The decoder inverts the encoder and accepts nothing else *)

Section decode.
Context {E : Type} (not_canonical : E).

Lemma symbol_value_iff s i : base64_symbol_value s = Some i ↔ 0 ≤ i < 64 ∧ s = symbol_of i.
Proof. split; [apply symbol_value_Some|intros [Hi ->]; by apply alphabet_value]. Qed.

Lemma fold_symbols l : ∀ acc p, try_fold (λ packed symbol,
    v ← ok_or (base64_symbol_value symbol) not_canonical; Ok (Z.lor (Z.shiftl packed 6) v)) acc l = Ok p ↔
  ∃ vs, Forall (λ v, 0 ≤ v < 64) vs ∧ l = symbol_of <$> vs ∧ p = foldl (λ acc v, acc * 64 + v) acc vs.
Proof.
  induction l as [|s l IH]; intros acc p; cbn [try_fold].
  - split; [intros [= ->]; by exists []|]. intros ([|v vs] & _ & Hl & ->); done.
  - destruct (base64_symbol_value s) as [v|] eqn:Hs; cbn [ok_or]; run_bind.
    + apply symbol_value_iff in Hs as [Hv ->]. rewrite lor_shiftl by lia. change (2 ^ 6) with 64. rewrite IH. split.
      * intros (vs & Hvs & -> & ->). exists (v :: vs). split; [by constructor|done].
      * intros ([|v' vs] & Hvs & Hl & ->); [done|]. rewrite fmap_cons in Hl. injection Hl as Hv' ->.
        apply list.Forall_cons in Hvs as [Hr Hvs]. exists vs. split; [done|]. split; [done|].
        assert (Some v = Some v') as [= ->]; [|done]. rewrite <- (alphabet_value v), <- (alphabet_value v') by done.
        by change (base64_symbol_value (symbol_of v) = base64_symbol_value (symbol_of v')); rewrite Hv'.
    + split; [done|]. intros ([|v vs] & Hvs & Hl & _); [done|]. rewrite fmap_cons in Hl. injection Hl as -> _.
      apply list.Forall_cons in Hvs as [Hr _]. unfold symbol_of in Hs. by rewrite alphabet_value in Hs.
Qed.

(** The bytes of a packed value, as numbers. *)
Lemma shifted_byte p n : 0 ≤ n → byte_val (byte_of_Z (Z.shiftr p n)) = p / 2 ^ n mod 256.
Proof. intros. by rewrite byte_val_of_Z, Z.shiftr_div_pow2. Qed.

Definition chunk_ok (last : bool) (chunk : bytes) : Prop :=
  len chunk = 3 ∨ last = true ∧ (len chunk = 1 ∨ len chunk = 2).

Lemma pad_cases last q2 q3 :
  (if negb last then 0%nat else
   if bool_decide (q3 = pad_symbol) then (if bool_decide (q2 = pad_symbol) then 2%nat else 1%nat) else 0%nat)
  = if last && bool_decide (q3 = pad_symbol) then (if bool_decide (q2 = pad_symbol) then 2%nat else 1%nat) else 0%nat.
Proof. by destruct last. Qed.

Ltac four vs := destruct vs as [|? [|? [|? [|? [|? ?]]]]]; try done.

Lemma decode_quad_encode last q0 q1 q2 q3 out : decode_quad not_canonical last q0 q1 q2 q3 = Ok out →
  [q0; q1; q2; q3] = encode_chunk out ∧ chunk_ok last out.
Proof.
  unfold decode_quad. rewrite pad_cases. intros H.
  destruct (last && bool_decide (q3 = pad_symbol)) eqn:E1; [destruct (bool_decide (q2 = pad_symbol)) eqn:E2|];
    cbn [Nat.sub firstn take] in H; inv_res;
    match goal with H : try_fold _ _ _ = Ok _ |- _ => apply fold_symbols in H as (vs & Hvs & Hl & ->) end;
    destruct vs as [|v0 vs]; try done; destruct vs as [|v1 vs]; try done.
  - destruct vs; [|done]. injection Hl as -> ->. apply andb_true_iff in E1 as [-> ->%bool_decide_eq_true].
    apply bool_decide_eq_true in E2 as ->. rewrite !list.Forall_cons in Hvs. destruct Hvs as (H0 & H1 & _).
    cbn [foldl] in *. change (Z.shiftl 1 (2 * Z.of_nat 2) - 1) with (Z.ones 4) in *. rewrite Z.land_ones in * by lia.
    cbn [Nat.ltb Nat.leb app]. rewrite encode_chunk_1, shifted_byte by lia. rewrite Z.shiftl_mul_pow2 by lia.
    change (2 ^ 4) with 16 in *. change (2 ^ (6 * Z.of_nat 2)) with 4096. change (2 ^ 16) with 65536.
    split; [|right; split; [done|by left]]. same_symbols.
  - destruct vs as [|v2 vs]; [done|]. destruct vs; [|done]. injection Hl as -> -> ->. apply andb_true_iff in E1 as [-> ->%bool_decide_eq_true].
    rewrite !list.Forall_cons in Hvs. destruct Hvs as (H0 & H1 & H2 & _).
    cbn [foldl] in *. change (Z.shiftl 1 (2 * Z.of_nat 1) - 1) with (Z.ones 2) in *. rewrite Z.land_ones in * by lia.
    cbn [Nat.ltb Nat.leb app]. rewrite encode_chunk_2, !shifted_byte by lia. rewrite Z.shiftl_mul_pow2 by lia.
    change (2 ^ 2) with 4 in *. change (2 ^ (6 * Z.of_nat 1)) with 64. change (2 ^ 16) with 65536. change (2 ^ 8) with 256.
    split; [|right; split; [done|by right]]. same_symbols.
  - four vs. injection Hl as -> -> -> ->. rewrite !list.Forall_cons in Hvs. destruct Hvs as (H0 & H1 & H2 & H3 & _).
    cbn [foldl] in *. cbn [Nat.ltb Nat.leb app]. rewrite encode_chunk_3, !shifted_byte by lia. rewrite byte_val_of_Z.
    rewrite Z.shiftl_mul_pow2 by lia. change (2 ^ (6 * Z.of_nat 0)) with 1. change (2 ^ 16) with 65536. change (2 ^ 8) with 256.
    split; [|by left]. same_symbols.
Qed.

(** The values of the symbols of a chunk. *)
Lemma fold_symbols_run vs acc : Forall (λ v, 0 ≤ v < 64) vs →
  try_fold (λ packed symbol,
    v ← ok_or (base64_symbol_value symbol) not_canonical; Ok (Z.lor (Z.shiftl packed 6) v)) acc (symbol_of <$> vs)
  = Ok (foldl (λ acc v, acc * 64 + v) acc vs).
Proof. intros Hvs. apply fold_symbols. by exists vs. Qed.

Ltac in_range := repeat (apply Forall_cons_2; [euclid|]); constructor.
Ltac same_bytes := f_equal; repeat (apply (f_equal2 cons); [apply (inj byte_val); euclid|]); done.

Lemma decode_quad_run last q0 q1 q2 q3 out : [q0; q1; q2; q3] = encode_chunk out → chunk_ok last out →
  decode_quad not_canonical last q0 q1 q2 q3 = Ok out.
Proof.
  intros He Hok. unfold decode_quad. rewrite pad_cases.
  destruct out as [|a [|b [|c [|? ?]]]]; try (destruct Hok as [|[_ []]]; cbn in *; lia).
  - destruct Hok as [|[-> _]]; [done|]. rewrite encode_chunk_1 in He. injection He as -> -> -> ->.
    rewrite !bool_decide_eq_true_2 by done. cbn [andb Nat.sub firstn take]. pose proof (byte_val_range a).
    change ([symbol_of ?x; symbol_of ?y]) with (symbol_of <$> [x; y]). rewrite fold_symbols_run by in_range. run_bind.
    cbn [foldl]. change (Z.shiftl 1 (2 * Z.of_nat 2) - 1) with (Z.ones 4). rewrite Z.land_ones by lia.
    change (2 ^ 4) with 16. replace (_ mod 16 =? 0) with true by (symmetry; apply Z.eqb_eq; euclid).
    cbn [negb Nat.ltb Nat.leb app]. do 2 f_equal. apply (inj byte_val). rewrite shifted_byte, Z.shiftl_mul_pow2 by lia.
    change (2 ^ (6 * Z.of_nat 2)) with 4096. change (2 ^ 16) with 65536. euclid.
  - destruct Hok as [|[-> _]]; [done|]. rewrite encode_chunk_2 in He. injection He as -> -> -> ->.
    pose proof (byte_val_range a); pose proof (byte_val_range b).
    rewrite (bool_decide_eq_true_2 (pad_symbol = pad_symbol)) by done.
    rewrite bool_decide_eq_false_2 by (apply symbol_of_pad; euclid). cbn [andb Nat.sub firstn take].
    change ([symbol_of ?x; symbol_of ?y; symbol_of ?z]) with (symbol_of <$> [x; y; z]). rewrite fold_symbols_run by in_range. run_bind.
    cbn [foldl]. change (Z.shiftl 1 (2 * Z.of_nat 1) - 1) with (Z.ones 2). rewrite Z.land_ones by lia.
    change (2 ^ 2) with 4. replace (_ mod 4 =? 0) with true by (symmetry; apply Z.eqb_eq; euclid).
    cbn [negb Nat.ltb Nat.leb app]. f_equal. rewrite Z.shiftl_mul_pow2 by lia. change (2 ^ (6 * Z.of_nat 1)) with 64.
    apply (f_equal2 cons); [|apply (f_equal2 cons); [|done]]; apply (inj byte_val); rewrite shifted_byte by lia;
      change (2 ^ 16) with 65536; change (2 ^ 8) with 256; euclid.
  - rewrite encode_chunk_3 in He. injection He as -> -> -> ->.
    pose proof (byte_val_range a); pose proof (byte_val_range b); pose proof (byte_val_range c).
    rewrite (bool_decide_eq_false_2 (_ = pad_symbol)) by (apply symbol_of_pad; euclid).
    rewrite andb_false_r. cbn [Nat.sub firstn take].
    change ([symbol_of ?x; symbol_of ?y; symbol_of ?z; symbol_of ?w]) with (symbol_of <$> [x; y; z; w]).
    rewrite fold_symbols_run by in_range. run_bind. cbn [foldl].
    change (Z.shiftl 1 (2 * Z.of_nat 0) - 1) with 0. rewrite Z.land_0_r. cbn [Z.eqb negb Nat.ltb Nat.leb app]. f_equal.
    rewrite Z.shiftl_mul_pow2 by lia. change (2 ^ (6 * Z.of_nat 0)) with 1.
    apply (f_equal2 cons); [|apply (f_equal2 cons); [|apply (f_equal2 cons); [|done]]]; apply (inj byte_val);
      rewrite ?shifted_byte, ?byte_val_of_Z by lia; change (2 ^ 16) with 65536; change (2 ^ 8) with 256; euclid.
Qed.

Lemma encode_chunk_length chunk : len (encode_chunk chunk) = 4.
Proof. done. Qed.

Lemma encode_quads_length p : len (base64_encode p) mod 4 = 0 ∧ len (base64_encode p) = 4 * ((len p + 2) / 3).
Proof.
  enough (∀ n p, (length p ≤ n)%nat → len (base64_encode p) = 4 * ((len p + 2) / 3)) as H.
  { rewrite (H (length p)) by done. split; [|done]. rewrite Z.mul_comm. apply Z_mod_mult. }
  clear p. induction n as [|n IH]; intros p Hn; [by destruct p; [|cbn in Hn; lia]|].
  destruct p as [|a [|b [|c p]]]; [done..|]. cbn [base64_encode]. rewrite length_app, Nat2Z.inj_add, encode_chunk_length.
  rewrite IH by (cbn in Hn; lia). cbn [length]. euclid.
Qed.

Lemma decode_quads_run p : decode_quads not_canonical (base64_encode p) = Ok p.
Proof.
  enough (∀ n p, (length p ≤ n)%nat → decode_quads not_canonical (base64_encode p) = Ok p) as H by eauto.
  clear p. induction n as [|n IH]; intros p Hn; [by destruct p; [|cbn in Hn; lia]|].
  assert (∀ chunk rest last, chunk_ok last chunk → last = bool_decide (rest = []) →
    decode_quads not_canonical (encode_chunk chunk ++ rest)
    = (more ← decode_quads not_canonical rest; Ok (chunk ++ more))) as Hstep.
  { intros chunk rest last Hok ->. destruct (encode_chunk chunk) as [|q0 [|q1 [|q2 [|q3 [|? ?]]]]] eqn:Ec; try (by apply (f_equal length) in Ec).
    cbn [app decode_quads]. by rewrite (decode_quad_run _ _ _ _ _ chunk). }
  destruct p as [|a [|b [|c p]]]; [done|..]; cbn [base64_encode].
  - rewrite <- (app_nil_r (encode_chunk [a])), (Hstep _ _ true); [done|right; split; [done|by left]|done].
  - rewrite <- (app_nil_r (encode_chunk [a; b])), (Hstep _ _ true); [done|right; split; [done|by right]|done].
  - rewrite (Hstep _ _ (bool_decide (base64_encode p = []))); [|by left|done].
    rewrite IH by (cbn in Hn; lia). done.
Qed.

Lemma decode_quads_encode s : ∀ p, len s mod 4 = 0 → decode_quads not_canonical s = Ok p → s = base64_encode p.
Proof.
  enough (∀ n s p, (length s ≤ n)%nat → len s mod 4 = 0 → decode_quads not_canonical s = Ok p → s = base64_encode p) as H by eauto.
  clear s. induction n as [|n IH]; intros s p Hn Hm Hd.
  { destruct s; [|cbn in Hn; lia]. by injection Hd as <-. }
  destruct s as [|q0 [|q1 [|q2 [|q3 s]]]]; [by injection Hd as <-|done..|]. cbn [decode_quads] in Hd. inv_res.
  match goal with H : decode_quad _ _ _ _ _ _ = Ok ?o |- _ => apply decode_quad_encode in H as [He Hok]; rename o into out end.
  match goal with H : decode_quads _ _ = Ok ?m |- _ => rename m into more; rename H into Hmore end.
  assert (s = base64_encode more) as Hs.
  { apply IH; [cbn in Hn; lia| |done]. cbn [length] in Hm. replace (Z.of_nat (S (S (S (S (length s)))))) with (len s + 1 * 4) in Hm by lia.
    by rewrite Z_mod_plus_full in Hm. }
  change (q0 :: q1 :: q2 :: q3 :: s) with ([q0; q1; q2; q3] ++ s). rewrite He, Hs. clear He.
  assert (s = [] → more = []) as Hnil.
  { intros ->. by injection Hmore as <-. }
  destruct Hok as [Hl|[Hlast Hl]].
  - destruct out as [|a [|b [|c [|? ?]]]]; cbn in Hl; try lia. done.
  - apply bool_decide_eq_true in Hlast. rewrite (Hnil Hlast), !app_nil_r.
    destruct out as [|a [|b [|? ?]]]; cbn in Hl; try lia; done.
Qed.

(** The decoder accepts exactly the encoder's outputs, each as the bytes it
    encodes. *)
Lemma base64_canonical s p : base64_decode_with not_canonical s = Ok p ↔ s = base64_encode p.
Proof.
  unfold base64_decode_with. split.
  - intros H. inv_res. apply decode_quads_encode; [|done]. lia.
  - intros ->. rewrite (proj1 (encode_quads_length p)). apply decode_quads_run.
Qed.
End decode.

(** What the encoder writes is letters, digits and the symbols [+/=]. *)
Definition base64_chars : bytes := pad_symbol :: BASE64_ALPHABET.

Lemma base64_encode_chars p : Forall (λ b, b ∈ base64_chars) (base64_encode p).
Proof.
  assert (∀ n, 0 ≤ n < 64 → symbol_of n ∈ base64_chars) as Hs.
  { intros n Hn. unfold symbol_of. destruct (lookup_lt_is_Some_2 BASE64_ALPHABET (Z.to_nat n)) as [c Hc].
    { change (length BASE64_ALPHABET) with 64%nat. lia. }
    rewrite Hc. right. by apply list_elem_of_lookup_2 in Hc. }
  assert (∀ chunk, Forall (λ b, b ∈ base64_chars) (encode_chunk chunk)) as Hc.
  { intros chunk. unfold encode_chunk. cbn [imap]. unfold compose.
    repeat apply Forall_cons_2; [..|constructor]; destruct (_ <? _); try (by left);
      rewrite base64_symbol_of by lia; apply Hs, Z.mod_pos_bound; lia. }
  enough (∀ n p, (length p ≤ n)%nat → Forall (λ b, b ∈ base64_chars) (base64_encode p)) as H by eauto.
  clear p. induction n as [|n IH]; intros p Hn; [by destruct p; [constructor|cbn in Hn; lia]|].
  destruct p as [|a [|b [|c p]]]; [constructor|apply Hc..|]. cbn [base64_encode]. apply Forall_app. split; [apply Hc|].
  apply IH. cbn in Hn. lia.
Qed.
