(* ===== verification/Uint128.v ===== *)
(** * Wide amounts ([uint128_json.rs])

    The decimal text in which 128-bit amounts are written, and the exact
    comparison of fee rates.  The JSON tokens are those of [serde]. *)

From Stdlib Require Import Ascii.
From stdpp Require Import pretty.
From S2P Require Import Prelude Bytes NodeText.

Definition u128_max : Z := 2 ^ 128 - 1.

(** ** Decimal text *)

Definition is_ascii_digit (c : ascii) : bool := let n := nat_of_ascii c in ((48 <=? n) && (n <=? 57))%nat.
Definition digit_value (c : ascii) : Z := Z.of_nat (nat_of_ascii c) - 48.

(** [str::parse::<u128>] on digits: [None] on overflow. *)
Definition parse_digits (l : list ascii) : option Z :=
  foldl (λ acc c, v ← acc; let v := v * 10 + digit_value c in if u128_max <? v then None else Some v) (Some 0) l.

(* rust: uint128_json.rs 27-40 parse_canonical_decimal *)
Definition parse_canonical_decimal (s : string) : option Z :=
  let l := chars s in
  if bool_decide (l = []) then None else
  if bool_decide (head l = Some "0"%char) && negb (length l =? 1)%nat then None else
  if negb (forallb is_ascii_digit l) then None else
  parse_digits l.

(* rust: uint128_json.rs 43-45 to_canonical_decimal *)
Definition to_canonical_decimal (value : Z) : string := pretty value.

(* rust: uint128_json.rs 68-74 Uint128Token *)
Inductive Uint128Token : Type := LegacyNumber (v : Z) | Canonical (s : string).

(** [None] is the reader's error. *)
(* rust: uint128_json.rs 76-86 from_token *)
Definition from_token (token : Uint128Token) : option Z :=
  match token with LegacyNumber v => Some v | Canonical s => parse_canonical_decimal s end.

(** ** Fee rates *)

(** The high part of the product is below [2 ^ 128]. *)
(* rust: uint128_json.rs 123-132 mul_u128_by_u64 *)
Definition mul_u128_by_u64 (a b : Z) : Z * Z :=
  let low_part := Z.land a u64_max * b in
  let high_part := Z.shiftr a 64 * b in
  let low := low_part mod 2 ^ 64 in
  (high_part + Z.shiftr low_part 64, low).

(** The order of pairs. *)
Definition pair_cmp (x y : Z * Z) : comparison :=
  match x.1 ?= y.1 with Eq => x.2 ?= y.2 | c => c end.

(* rust: uint128_json.rs 108-118 compare_fee_rate *)
Definition compare_fee_rate (fee_a weight_a fee_b weight_b : Z) : comparison :=
  if (weight_a =? 0) || (weight_b =? 0) then Eq else
  pair_cmp (mul_u128_by_u64 fee_a weight_b) (mul_u128_by_u64 fee_b weight_a).

(* rust: uint128_json.rs 137-139 fee_below_rate *)
Definition fee_below_rate (fee weight rate : Z) : bool := fee <? weight * rate.

(** ** Products *)

Lemma mul_u128_by_u64_ok a b : 0 ≤ a ≤ u128_max → 0 ≤ b ≤ u64_max →
  let '(h, l) := mul_u128_by_u64 a b in h * 2 ^ 64 + l = a * b ∧ 0 ≤ l < 2 ^ 64 ∧ 0 ≤ h ≤ u128_max.
Proof.
  intros Ha Hb. unfold mul_u128_by_u64. change u64_max with (Z.ones 64). rewrite Z.land_ones, !Z.shiftr_div_pow2 by lia.
  pose proof (Z.div_mod a (2 ^ 64) ltac:(lia)) as Hda. pose proof (Z.mod_pos_bound a (2 ^ 64) ltac:(lia)) as Hma.
  set (q := a / 2 ^ 64) in *. set (r := a mod 2 ^ 64) in *.
  pose proof (Z.div_mod (r * b) (2 ^ 64) ltac:(lia)) as Hd. pose proof (Z.mod_pos_bound (r * b) (2 ^ 64) ltac:(lia)) as Hm.
  set (q' := r * b / 2 ^ 64) in *. set (r' := (r * b) mod 2 ^ 64) in *.
  assert (0 ≤ q < 2 ^ 64) as Hq.
  { split; [apply Z.div_pos; lia|]. apply Z.div_lt_upper_bound; [lia|]. unfold u128_max in Ha. lia. }
  unfold u64_max, u128_max in *.
  assert (0 ≤ q') by (apply Z.div_pos; nia). assert (q' ≤ 2 ^ 64 - 2).
  { apply Z.lt_succ_r, Z.div_lt_upper_bound; [lia|]. nia. }
  split; [nia|]. split; [done|]. split; [nia|]. assert (q * b ≤ (2 ^ 64 - 1) * (2 ^ 64 - 1)) by nia. lia.
Qed.

Lemma pair_cmp_value h l h' l' : 0 ≤ l < 2 ^ 64 → 0 ≤ l' < 2 ^ 64 →
  pair_cmp (h, l) (h', l') = (h * 2 ^ 64 + l ?= h' * 2 ^ 64 + l').
Proof.
  intros Hl Hl'. unfold pair_cmp. cbn [fst snd]. destruct (Z.compare_spec h h') as [->|?|?]; symmetry.
  - destruct (Z.compare_spec l l') as [->|?|?]; [apply Z.compare_refl|apply Z.compare_lt_iff; lia|apply Z.compare_gt_iff; lia].
  - apply Z.compare_lt_iff. nia.
  - apply Z.compare_gt_iff. nia.
Qed.

Lemma compare_fee_rate_exact fa wa fb wb : 0 ≤ fa ≤ u128_max → 0 ≤ fb ≤ u128_max → 0 < wa ≤ u64_max → 0 < wb ≤ u64_max →
  compare_fee_rate fa wa fb wb = (fa * wb ?= fb * wa).
Proof.
  intros ????. unfold compare_fee_rate. replace ((wa =? 0) || (wb =? 0)) with false by lia.
  pose proof (mul_u128_by_u64_ok fa wb ltac:(lia) ltac:(lia)) as Hx. pose proof (mul_u128_by_u64_ok fb wa ltac:(lia) ltac:(lia)) as Hy.
  destruct (mul_u128_by_u64 fa wb) as [h l], (mul_u128_by_u64 fb wa) as [h' l'].
  destruct Hx as (<- & ? & _), Hy as (<- & ? & _). by apply pair_cmp_value.
Qed.

(** ** Text *)

Lemma digit_char n : 0 ≤ n < 10 → is_ascii_digit (pretty_N_char (Z.to_N n)) = true
  ∧ digit_value (pretty_N_char (Z.to_N n)) = n ∧ (pretty_N_char (Z.to_N n) = "0"%char → n = 0).
Proof.
  intros Hn. assert (n ∈ seqZ 0 10) as Hin by (apply elem_of_seqZ; lia). revert n Hn Hin.
  assert (Forall (λ n, is_ascii_digit (pretty_N_char (Z.to_N n)) = true ∧ digit_value (pretty_N_char (Z.to_N n)) = n
    ∧ (n = 0 ∨ pretty_N_char (Z.to_N n) ≠ "0"%char)) (seqZ 0 10)) as H by (apply (bool_decide_unpack _); vm_compute; exact I).
  rewrite list.Forall_forall in H. intros n _ Hin. destruct (H n Hin) as (? & ? & ?). split; [done|]. split; [done|]. tauto.
Qed.

Lemma digit_char_of c : is_ascii_digit c = true → 0 ≤ digit_value c < 10 ∧ pretty_N_char (Z.to_N (digit_value c)) = c.
Proof. destruct c as [[] [] [] [] [] [] [] []]; vm_compute; intros [=]; repeat split; discriminate. Qed.

(** The value of digits, without a bound. *)
Definition dec (l : list ascii) : Z := foldl (λ v c, v * 10 + digit_value c) 0 l.
Definition digits (l : list ascii) : Prop := Forall (λ c, is_ascii_digit c = true) l.

Lemma dec_snoc l c : dec (l ++ [c]) = dec l * 10 + digit_value c.
Proof. unfold dec. by rewrite foldl_app. Qed.

Lemma parse_digits_Some l v : digits l → parse_digits l = Some v ↔ v = dec l ∧ 0 ≤ v ≤ u128_max.
Proof.
  intros Hl. revert v. induction l as [|c l IH] using rev_ind; intros v.
  { split; [by intros [= <-]|by intros [-> _]]. }
  apply Forall_app in Hl as [Hl [Hc _]%list.Forall_cons]. specialize (IH Hl). apply digit_char_of in Hc as [Hc _].
  unfold parse_digits in *. rewrite foldl_app, dec_snoc. cbn [foldl].
  destruct (foldl _ (Some 0) l) as [w|] eqn:E; cbn [mbind option_bind].
  - destruct (proj1 (IH w) eq_refl) as [-> Hw]. destruct (u128_max <? dec l * 10 + digit_value c) eqn:Eo.
    + split; [done|]. intros [-> ?]. lia.
    + split; [intros [= <-]; split; [done|lia]|by intros [-> _]].
  - split; [done|]. intros [-> ?]. enough (None = Some (dec l)) by done. apply IH. split; [done|].
    assert (0 ≤ dec l); [|lia]. clear -Hl. induction l as [|c l IHl] using rev_ind; [done|].
    apply Forall_app in Hl as [Hl [Hc _]%list.Forall_cons]. apply digit_char_of in Hc as [Hc _]. rewrite dec_snoc. specialize (IHl Hl). lia.
Qed.

(** ** The printed digits *)

Lemma pretty_go_app x : ∀ s, chars (pretty_N_go x s) = chars (pretty_N_go x "") ++ chars s.
Proof.
  induction (N.lt_wf_0 x) as [x _ IH]; intros s.
  assert (x = 0 ∨ 0 < x)%N as [->|Hx] by lia; [by rewrite !pretty_N_go_0|].
  assert (x / 10 < x)%N as Hd by (apply N.div_lt; lia).
  rewrite !(pretty_N_go_step x) by done. rewrite (IH _ Hd (String _ s)), (IH _ Hd (String _ "")).
  by rewrite <- app_assoc.
Qed.

Lemma pretty_go_snoc v d : 0 < v * 10 + d → 0 ≤ v → 0 ≤ d < 10 →
  chars (pretty_N_go (Z.to_N (v * 10 + d)) "") = chars (pretty_N_go (Z.to_N v) "") ++ [pretty_N_char (Z.to_N d)].
Proof.
  intros Hx Hv Hd. rewrite pretty_N_go_step by lia. rewrite pretty_go_app. f_equal.
  - do 3 f_equal. rewrite Z2N.inj_add, Z2N.inj_mul by lia. change (Z.to_N 10) with 10%N.
    rewrite N.div_add_l by lia. rewrite N.div_small by lia. lia.
  - cbn. do 2 f_equal. rewrite Z2N.inj_add, Z2N.inj_mul by lia. change (Z.to_N 10) with 10%N.
    rewrite N.add_comm, N.Div0.mod_add, N.mod_small by lia. done.
Qed.

Lemma pretty_pos v : 0 < v → pretty v = pretty_N_go (Z.to_N v) "".
Proof. destruct v as [|p|p]; [lia| |lia]. done. Qed.

(** Digits that do not start with 0 are the printed form of their value. *)
Lemma digits_printed l : digits l → l ≠ [] → head l ≠ Some "0"%char → 0 < dec l ∧ chars (pretty (dec l)) = l.
Proof.
  intros Hl Hne Hh. enough (0 < dec l ∧ chars (pretty_N_go (Z.to_N (dec l)) "") = l) as [? ?]
    by (split; [done|by rewrite pretty_pos]).
  induction l as [|c l IH] using rev_ind; [done|]. apply Forall_app in Hl as [Hl [Hc _]%list.Forall_cons].
  apply digit_char_of in Hc as [Hc Hcc]. rewrite dec_snoc. destruct (decide (l = [])) as [->|Hl'].
  - change (dec []) with 0. assert (digit_value c ≠ 0) as Hz.
    { intros Hz. rewrite Hz in Hcc. apply Hh. cbn. by rewrite <- Hcc. }
    split; [lia|]. rewrite pretty_go_snoc by lia. by rewrite Hcc.
  - destruct IH as [Hpos Hch]; [done|done| |].
    { intros Hh'. apply Hh. destruct l; [done|]. by injection Hh' as ->. }
    split; [lia|]. rewrite pretty_go_snoc by lia. by rewrite Hch, Hcc.
Qed.

Lemma printed_digits v : 0 < v → digits (chars (pretty v)) ∧ dec (chars (pretty v)) = v ∧ head (chars (pretty v)) ≠ Some "0"%char.
Proof.
  intros Hv. rewrite pretty_pos by done.
  enough (∀ n v, 0 < v → v ≤ Z.of_nat n → digits (chars (pretty_N_go (Z.to_N v) "")) ∧ dec (chars (pretty_N_go (Z.to_N v) "")) = v
    ∧ head (chars (pretty_N_go (Z.to_N v) "")) ≠ Some "0"%char) as H by (apply (H (Z.to_nat v)); lia).
  clear v Hv. induction n as [|n IH]; intros v Hv Hn; [lia|].
  pose proof (Z.div_mod v 10 ltac:(lia)) as Hd. pose proof (Z.mod_pos_bound v 10 ltac:(lia)) as Hm.
  set (q := v / 10) in *. set (d := v mod 10) in *. rewrite (Z.mul_comm 10 q) in Hd.
  assert (0 ≤ q) by lia. rewrite Hd, pretty_go_snoc by lia. destruct (digit_char d Hm) as (Hdd & Hdv & Hz).
  unfold digits. rewrite Forall_app, dec_snoc, Hdv. destruct (decide (q = 0)) as [->|].
  - split; [split; [constructor|by constructor]|]. split; [done|]. cbn. intros [= Hc]. apply Hz in Hc. lia.
  - destruct (IH q) as (Hq & Hqv & Hqh); [lia|lia|]. rewrite Hqv. split; [split; [done|by constructor]|]. split; [done|].
    intros Hh. apply Hqh. destruct (chars (pretty_N_go (Z.to_N q) "")); [|done]. by cbn in Hqv.
Qed.

(** The reader accepts exactly the writer's text, each as the amount written. *)
Lemma canonical_decimal s v : parse_canonical_decimal s = Some v ↔ 0 ≤ v ≤ u128_max ∧ s = to_canonical_decimal v.
Proof.
  unfold parse_canonical_decimal, to_canonical_decimal.
  assert (∀ s t : string, chars s = chars t → s = t) as Hinj.
  { intros a b Hab. by rewrite <- (String.string_of_list_ascii_of_string a), Hab, String.string_of_list_ascii_of_string. }
  split.
  - intros H. case_bool_decide as Hne; [done|]. destruct (bool_decide _ && _) eqn:Hz; [done|].
    destruct (forallb is_ascii_digit (chars s)) eqn:Hd; [|done]. cbn [negb] in H.
    assert (digits (chars s)) as Hds.
    { apply list.Forall_forall. intros c Hc. rewrite forallb_forall in Hd. apply Hd. by apply list_elem_of_In. }
    apply (parse_digits_Some _ _ Hds) in H as [-> Hv]. split; [done|].
    apply andb_false_iff in Hz as [Hz|Hz].
    + apply bool_decide_eq_false in Hz. apply Hinj. symmetry. by apply digits_printed.
    + apply negb_false_iff, Nat.eqb_eq in Hz. destruct (chars s) as [|c [|? ?]] eqn:E; [done| |done].
      apply Hinj. rewrite E. apply list.Forall_cons in Hds as [Hc _]. pose proof (digit_char_of c Hc) as [Hcv Hcc].
      unfold dec. cbn [foldl]. destruct (decide (digit_value c = 0)) as [Hc0|Hc0].
      * rewrite Hc0 in *. cbn. by rewrite <- Hcc.
      * symmetry. change (0 * 10 + digit_value c) with (dec [c]). apply digits_printed; [by constructor|done|].
        cbn. intros [= ->]. by vm_compute in Hc0.
  - intros [Hv ->]. destruct (decide (v = 0)) as [->|]; [done|].
    destruct (printed_digits v) as (Hd & Hdv & Hh); [lia|].
    rewrite bool_decide_eq_false_2 by (intros He; rewrite He in Hdv; by cbn in Hdv).
    rewrite (bool_decide_eq_false_2 (head _ = _)) by done. cbn [andb].
    assert (forallb is_ascii_digit (chars (pretty v)) = true) as ->.
    { apply forallb_forall. intros c Hc. apply list_elem_of_In in Hc. unfold digits in Hd. rewrite list.Forall_forall in Hd. by apply Hd. }
    cbn [negb]. by apply parse_digits_Some.
Qed.

(** The text of an amount reads back, every text read is the text of its
    amount, and fee rates compare as fractions do: without rounding and without
    overflow, for all 128-bit fees and 64-bit weights. *)
Theorem uint128_correct :
  (∀ s v, parse_canonical_decimal s = Some v ↔ 0 ≤ v ≤ u128_max ∧ s = to_canonical_decimal v)
  ∧ (∀ fa wa fb wb, 0 ≤ fa ≤ u128_max → 0 ≤ fb ≤ u128_max → 0 < wa ≤ u64_max → 0 < wb ≤ u64_max →
       compare_fee_rate fa wa fb wb = (fa * wb ?= fb * wa)).
Proof. split; [intros; apply canonical_decimal|intros; by apply compare_fee_rate_exact]. Qed.
