(* ===== verification/StoreEnvelope.v ===== *)
(** * Envelopes of stored files ([store_envelope.rs])

    The chain state and the canonical index are stored in an envelope: version,
    payload in base64 and a checksum.  The reader finds the fields by
    arithmetic on the length, not by parsing JSON.  [serde_json] is third-party
    code: it writes the envelope, and it is asked why a rejected file is one.
    A Rust string is its bytes here. *)

From stdpp Require Import pretty.
From S2P Require Import Prelude Bytes Errors Constants Crypto WireRead CompactSize TxWire Block.
From S2P Require Import Vault Suites Verify SigCache WorkerPool SigQueue Sighash Spend NodeText Base64.

(** A literal of JSON text, with apostrophes for the quotation marks. *)
Definition json_text (s : string) : bytes := (λ b, if decide (b = x27) then x22 else b) <$> ascii_bytes s.
Definition string_of_bytes (b : bytes) : string := String.string_of_list_byte b.

(** What [classify_store_envelope_failure] looks at of a JSON object. *)
Record EnvelopeProbe : Type := mkEnvelopeProbe {
  pb_has_payload_b64 : bool; pb_has_checksum : bool; pb_version : option Z }.

(** [serde_json] on [StoreEnvelopeDisk]: the fields are written in their order,
    without white space, and a string of plain characters as it is. *)
Class EnvelopeJson : Type := {
  envelope_to_vec : Z → bytes → bytes → nres bytes;
  envelope_to_vec_plain : ∀ version payload_b64 checksum,
    Forall (λ b, b ∈ base64_chars) payload_b64 → Forall (λ b, b ∈ base64_chars) checksum →
    envelope_to_vec version payload_b64 checksum
    = Ok (json_text "{'version':" ++ ascii_bytes (pretty version) ++ json_text ",'payload_b64':'" ++ payload_b64
          ++ json_text "','checksum':'" ++ checksum ++ json_text "'}");
  envelope_probe : bytes → option EnvelopeProbe;
}.

(* rust: node/store_envelope.rs 19-19 STORE_INTEGRITY_PREFIX *)
Definition STORE_INTEGRITY_PREFIX : string := "STORE_INTEGRITY".
(* rust: node/store_envelope.rs 22-22 STORE_LEGACY_CHAINSTATE_ERR *)
Definition STORE_LEGACY_CHAINSTATE_ERR : string :=
  "STORE_INTEGRITY: legacy/unversioned chainstate; delete chainstate.json and restart to rebuild by validated replay".
(* rust: node/store_envelope.rs 23-23 STORE_LEGACY_BLOCK_INDEX_ERR *)
Definition STORE_LEGACY_BLOCK_INDEX_ERR : string :=
  "STORE_INTEGRITY: legacy/unversioned blockstore index; pre-devnet datadir reset and full resync required".
(* rust: node/store_envelope.rs 24-24 STORE_CHECKSUM_MISMATCH_ERR *)
Definition STORE_CHECKSUM_MISMATCH_ERR : string := "STORE_INTEGRITY: checksum mismatch".

(* rust: node/store_envelope.rs 28-28 STORE_ENVELOPE_PREFIX *)
Definition STORE_ENVELOPE_PREFIX : bytes := json_text "{'version':1,'payload_b64':'".
(* rust: node/store_envelope.rs 29-29 STORE_ENVELOPE_CHECKSUM_SEP *)
Definition STORE_ENVELOPE_CHECKSUM_SEP : bytes := json_text "','checksum':'".
(* rust: node/store_envelope.rs 30-30 STORE_ENVELOPE_SUFFIX *)
Definition STORE_ENVELOPE_SUFFIX : bytes := json_text "'}" ++ [x0a].
(* rust: node/store_envelope.rs 32-32 STORE_ENVELOPE_VERSION *)
Definition STORE_ENVELOPE_VERSION : Z := 1.
(* rust: node/store_envelope.rs 33-33 STORE_CHECKSUM_HEX_LEN *)
Definition STORE_CHECKSUM_HEX_LEN : Z := 64.
(* rust: node/store_envelope.rs 34-37 STORE_ENVELOPE_FRAME_BYTES *)
Definition STORE_ENVELOPE_FRAME_BYTES : Z :=
  len STORE_ENVELOPE_PREFIX + len STORE_ENVELOPE_CHECKSUM_SEP + STORE_CHECKSUM_HEX_LEN + len STORE_ENVELOPE_SUFFIX.

(* rust: node/store_envelope.rs 40-44 StoreEnvelopeKind *)
Record StoreEnvelopeKind : Type := mkStoreEnvelopeKind { sk_domain : bytes; sk_noun : string; sk_legacy_err : string }.
(* rust: node/store_envelope.rs 46-50 STORE_ENVELOPE_CHAIN_STATE *)
Definition STORE_ENVELOPE_CHAIN_STATE : StoreEnvelopeKind :=
  mkStoreEnvelopeKind (ascii_bytes "RUBIN_CHAINSTATE_V1") "chainstate" STORE_LEGACY_CHAINSTATE_ERR.
(* rust: node/store_envelope.rs 52-56 STORE_ENVELOPE_BLOCK_INDEX *)
Definition STORE_ENVELOPE_BLOCK_INDEX : StoreEnvelopeKind :=
  mkStoreEnvelopeKind (ascii_bytes "RUBIN_BLOCKSTORE_INDEX_V1") "blockstore index" STORE_LEGACY_BLOCK_INDEX_ERR.

(** The test runs on the text of the bytes; bytes that are not UTF-8 fail it
    in either form. *)
(* rust: node/blockstore.rs 1113-1118 valid_canonical_hash_hex *)
Definition valid_canonical_hash_hex (value : bytes) : bool :=
  (len value =? 64)
  && forallb (λ c, let c := byte_val c in ((48 <=? c) && (c <=? 57)) || ((97 <=? c) && (c <=? 102))) value.

(* rust: node/store_envelope.rs 217-222 constant_time_eq32 *)
Definition constant_time_eq32 (a b : bytes) : bool :=
  foldl (λ acc p, Z.lor acc (Z.lxor (byte_val p.1) (byte_val p.2))) 0 (zip a b) =? 0.

Section envelope.
Context `{HS : Sha3} `{HX : Hex} `{HJ : EnvelopeJson}.

(* rust: node/store_envelope.rs 67-73 store_envelope_checksum *)
Definition store_envelope_checksum (domain payload : bytes) : bytes :=
  sha3_256 (domain ++ be_encode 8 (len payload) ++ payload).

(* rust: node/store_envelope.rs 76-89 marshal_store_envelope *)
Definition marshal_store_envelope (kind : StoreEnvelopeKind) (payload : bytes) : nres bytes :=
  raw ← map_err (λ e, "encode " +:+ sk_noun kind +:+ " envelope: " +:+ e)%string
          (envelope_to_vec STORE_ENVELOPE_VERSION (base64_encode payload)
             (ascii_bytes (hex_encode (store_envelope_checksum (sk_domain kind) payload))));
  Ok (raw ++ [x0a]).

(* rust: node/store_envelope.rs 140-159 classify_store_envelope_failure *)
Definition classify_store_envelope_failure (kind : StoreEnvelopeKind) (raw : bytes) : string :=
  match envelope_probe raw with
  | None => STORE_INTEGRITY_PREFIX +:+ ": " +:+ sk_noun kind +:+ " is not a single JSON object"
  | Some probe =>
      if negb (pb_has_payload_b64 probe) && negb (pb_has_checksum probe) then sk_legacy_err kind else
      match pb_version probe with
      | Some version =>
          if negb (version =? STORE_ENVELOPE_VERSION)%Z
          then STORE_INTEGRITY_PREFIX +:+ ": unsupported store envelope version " +:+ pretty version
          else STORE_INTEGRITY_PREFIX +:+ ": envelope is not the canonical encoding"
      | None => STORE_INTEGRITY_PREFIX +:+ ": envelope is not the canonical encoding"
      end
  end%string.

(* rust: node/store_envelope.rs 112-133 split_store_envelope *)
Definition split_store_envelope (kind : StoreEnvelopeKind) (raw : bytes) : nres (bytes * bytes) :=
  if len raw <? STORE_ENVELOPE_FRAME_BYTES then Err (classify_store_envelope_failure kind raw) else
  let body := len raw - STORE_ENVELOPE_FRAME_BYTES in
  let payload_at := len STORE_ENVELOPE_PREFIX in
  let checksum_sep_at := payload_at + body in
  let checksum_at := checksum_sep_at + len STORE_ENVELOPE_CHECKSUM_SEP in
  let suffix_at := checksum_at + STORE_CHECKSUM_HEX_LEN in
  if negb (bool_decide (slice 0 payload_at raw = STORE_ENVELOPE_PREFIX))
     || negb (bool_decide (slice checksum_sep_at checksum_at raw = STORE_ENVELOPE_CHECKSUM_SEP))
     || negb (bool_decide (slice suffix_at (len raw) raw = STORE_ENVELOPE_SUFFIX))
  then Err (classify_store_envelope_failure kind raw) else
  let checksum_hex := slice checksum_at suffix_at raw in
  if negb (valid_canonical_hash_hex checksum_hex)
  then Err (STORE_INTEGRITY_PREFIX +:+ ": checksum must be 64 lowercase hex characters")%string else
  Ok (slice payload_at checksum_sep_at raw, checksum_hex).

(* rust: node/store_envelope.rs 164-203 decode_canonical_store_base64 *)
Definition decode_canonical_store_base64 (value : bytes) : nres bytes :=
  base64_decode_with (STORE_INTEGRITY_PREFIX +:+ ": payload_b64 is not canonical padded base64")%string value.

(* rust: node/store_envelope.rs 96-107 open_store_envelope *)
Definition open_store_envelope (kind : StoreEnvelopeKind) (raw : bytes) : nres bytes :=
  '(payload_b64, checksum_hex) ← split_store_envelope kind raw;
  payload ← decode_canonical_store_base64 payload_b64;
  stored ← map_err (λ _, STORE_INTEGRITY_PREFIX +:+ ": checksum is not hexadecimal")%string
             (hex_decode (string_of_bytes checksum_hex));
  if negb (constant_time_eq32 stored (store_envelope_checksum (sk_domain kind) payload))
  then Err STORE_CHECKSUM_MISMATCH_ERR else Ok payload.
End envelope.

(** ** Hexadecimal fields *)

Section hex_fields.
Context `{HX : Hex}.

Lemma string_of_ascii_bytes s : string_of_bytes (ascii_bytes s) = s.
Proof. apply String.string_of_list_byte_of_string. Qed.
Lemma ascii_bytes_of_string b : ascii_bytes (string_of_bytes b) = b.
Proof. apply String.list_byte_of_string_of_list_byte. Qed.

Lemma ascii_bytes_chars s : ascii_bytes s = Ascii.byte_of_ascii <$> chars s.
Proof. done. Qed.
Lemma chars_string_of_bytes b : chars (string_of_bytes b) = Ascii.ascii_of_byte <$> b.
Proof.
  unfold string_of_bytes, String.string_of_list_byte. rewrite String.list_ascii_of_string_of_list_ascii. done.
Qed.

Definition hex_byte (c : byte) : bool :=
  let c := byte_val c in ((48 <=? c) && (c <=? 57)) || ((97 <=? c) && (c <=? 102)).

Lemma hex_byte_digit c : hex_byte c = true ↔ Ascii.ascii_of_byte c ∈ hex_digits.
Proof.
  assert (Forall (λ n, hex_byte (byte_of_Z n) = bool_decide (Ascii.ascii_of_byte (byte_of_Z n) ∈ hex_digits)) (seqZ 0 256)) as H
    by (apply (bool_decide_unpack _); vm_compute; exact I).
  rewrite list.Forall_forall in H. specialize (H (byte_val c)). rewrite byte_of_Z_val in H.
  rewrite H by (apply elem_of_seqZ; pose proof (byte_val_range c); lia). apply bool_decide_eq_true.
Qed.

Lemma hex_encode_len b : len (ascii_bytes (hex_encode b)) = 2 * len b.
Proof. rewrite ascii_bytes_chars, length_fmap. apply hex_encode_chars. Qed.

Lemma hex_encode_bytes_digits b : forallb hex_byte (ascii_bytes (hex_encode b)) = true.
Proof.
  apply forallb_forall. intros c Hc%list_elem_of_In. apply hex_byte_digit.
  rewrite ascii_bytes_chars in Hc. apply list_elem_of_fmap in Hc as (a & -> & Ha). rewrite Ascii.ascii_of_byte_of_ascii.
  pose proof (hex_encode_chars b) as [_ Hd]. rewrite list.Forall_forall in Hd. by apply Hd.
Qed.

(** An even number of lower-case digits is the text of some bytes. *)
Lemma hex_bytes_encode c : len c mod 2 = 0 → forallb hex_byte c = true → ∃ b, c = ascii_bytes (hex_encode b) ∧ len c = 2 * len b.
Proof.
  intros Hl Hd. destruct (hex_encode_surj (string_of_bytes c)) as [b Hb].
  - rewrite chars_string_of_bytes, Forall_fmap. apply list.Forall_forall. intros x Hx. apply hex_byte_digit.
    rewrite forallb_forall in Hd. apply Hd. by apply list_elem_of_In.
  - by rewrite chars_string_of_bytes, length_fmap.
  - exists b. rewrite <- Hb, ascii_bytes_of_string. split; [done|]. rewrite <- hex_encode_len, <- Hb. by rewrite ascii_bytes_of_string.
Qed.

Lemma valid_hash_hex_iff c : valid_canonical_hash_hex c = true ↔ ∃ h, len h = 32 ∧ c = ascii_bytes (hex_encode h).
Proof.
  unfold valid_canonical_hash_hex. change (forallb _ c) with (forallb hex_byte c). rewrite andb_true_iff, Z.eqb_eq. split.
  - intros [Hl Hd]. destruct (hex_bytes_encode c) as (h & -> & Hlen); [by rewrite Hl|done|]. exists h. split; [lia|done].
  - intros (h & Hh & ->). split; [rewrite hex_encode_len; lia|apply hex_encode_bytes_digits].
Qed.

Lemma hex_encode_plain b : Forall (λ b, b ∈ base64_chars) (ascii_bytes (hex_encode b)).
Proof.
  apply list.Forall_forall. intros c Hc. pose proof (hex_encode_bytes_digits b) as Hd. rewrite forallb_forall in Hd.
  specialize (Hd c). rewrite <- list_elem_of_In in Hd. specialize (Hd Hc). revert Hd.
  assert (Forall (λ n, bool_decide (byte_of_Z n ∈ base64_chars) = true ∨ hex_byte (byte_of_Z n) = false) (seqZ 0 256)) as H
    by (apply (bool_decide_unpack _); vm_compute; exact I).
  rewrite list.Forall_forall in H. specialize (H (byte_val c)). rewrite byte_of_Z_val in H.
  destruct H as [H|H]; [apply elem_of_seqZ; pose proof (byte_val_range c); lia| |by rewrite H]. intros _.
  by apply bool_decide_eq_true in H.
Qed.
End hex_fields.

Lemma constant_time_eq32_iff a b : length a = length b → constant_time_eq32 a b = true ↔ a = b.
Proof.
  intros Hl. unfold constant_time_eq32. rewrite Z.eqb_eq.
  enough (∀ acc, foldl (λ acc p, Z.lor acc (Z.lxor (byte_val p.1) (byte_val p.2))) acc (zip a b) = 0 ↔ acc = 0 ∧ a = b) as H
    by (rewrite H; tauto).
  revert b Hl. induction a as [|x a IH]; intros [|y b] Hl acc; try done; [cbn; tauto|]. cbn [zip zip_with foldl fst snd].
  rewrite IH by (by injection Hl). rewrite Z.lor_eq_0_iff, Z.lxor_eq_0_iff. split.
  - by intros [[-> ->%(inj byte_val)] ->].
  - by intros [-> [= -> ->]].
Qed.

(** ** The reader accepts exactly what the writer writes *)

Section canonical.
Context `{HS : Sha3} `{HX : Hex} `{HJ : EnvelopeJson}.

Definition envelope_bytes (kind : StoreEnvelopeKind) (payload : bytes) : bytes :=
  STORE_ENVELOPE_PREFIX ++ base64_encode payload ++ STORE_ENVELOPE_CHECKSUM_SEP
  ++ ascii_bytes (hex_encode (store_envelope_checksum (sk_domain kind) payload)) ++ STORE_ENVELOPE_SUFFIX.

Lemma marshal_store_envelope_run kind payload : marshal_store_envelope kind payload = Ok (envelope_bytes kind payload).
Proof.
  unfold marshal_store_envelope. rewrite envelope_to_vec_plain by (apply base64_encode_chars || apply hex_encode_plain).
  cbn [map_err]. run_bind. f_equal. unfold envelope_bytes, STORE_ENVELOPE_SUFFIX.
  change STORE_ENVELOPE_PREFIX with (json_text "{'version':" ++ ascii_bytes (pretty STORE_ENVELOPE_VERSION) ++ json_text ",'payload_b64':'").
  change STORE_ENVELOPE_CHECKSUM_SEP with (json_text "','checksum':'"). by rewrite <- !app_assoc.
Qed.

Lemma split_store_envelope_Ok kind raw b c : split_store_envelope kind raw = Ok (b, c) ↔
  valid_canonical_hash_hex c = true
  ∧ raw = STORE_ENVELOPE_PREFIX ++ b ++ STORE_ENVELOPE_CHECKSUM_SEP ++ c ++ STORE_ENVELOPE_SUFFIX.
Proof.
  unfold split_store_envelope, STORE_ENVELOPE_FRAME_BYTES. set (P := STORE_ENVELOPE_PREFIX).
  set (M := STORE_ENVELOPE_CHECKSUM_SEP). set (S := STORE_ENVELOPE_SUFFIX).
  change STORE_CHECKSUM_HEX_LEN with 64. split.
  - intros H. inv_res.
    repeat match goal with
    | H : _ || _ = false |- _ => apply orb_false_iff in H as [? ?]
    | H : negb _ = false |- _ => apply negb_false_iff in H
    | H : bool_decide _ = true |- _ => apply bool_decide_eq_true in H
    end. split; [done|].
    transitivity (slice 0 (len raw) raw); [symmetry; apply slice_all|]. assert (len P + len M + 64 + len S ≤ len raw) by lia.
    set (i1 := len P) in *. set (i2 := i1 + (len raw - (i1 + len M + 64 + len S))) in *.
    rewrite (slice_app_split 0 i1) by lia. rewrite (slice_app_split i1 i2 (len raw)) by lia.
    rewrite (slice_app_split i2 (i2 + len M) (len raw)) by lia.
    rewrite (slice_app_split (i2 + len M) (i2 + len M + 64) (len raw)) by lia. congruence.
  - intros [Hv ->]. pose proof Hv as [Hl _]%andb_true_iff. apply Z.eqb_eq in Hl.
    assert (len (P ++ b ++ M ++ c ++ S) = len P + len b + len M + 64 + len S) as Hlen by (rewrite !length_app; lia).
    set (raw := P ++ b ++ M ++ c ++ S) in *. rewrite Hlen. replace (_ <? _) with false by lia.
    replace (len P + (len P + len b + len M + 64 + len S - (len P + len M + 64 + len S))) with (len P + len b) by lia.
    assert (∀ l1 l2 l3 i j, raw = l1 ++ l2 ++ l3 → i = len l1 → j = len l1 + len l2 → slice i j raw = l2) as Hsl
      by (intros l1 l2 l3 i j ->; apply slice_mid).
    rewrite (Hsl [] P (b ++ M ++ c ++ S) 0 (len P)) by (done || (cbn; lia)).
    rewrite (Hsl P b (M ++ c ++ S) (len P) (len P + len b)) by (done || lia).
    rewrite (Hsl (P ++ b) M (c ++ S) (len P + len b) (len P + len b + len M)) by (rewrite ?length_app; (by rewrite <- app_assoc) || lia).
    rewrite (Hsl (P ++ b ++ M) c S (len P + len b + len M) (len P + len b + len M + 64)) by (rewrite ?length_app; (by rewrite <- !app_assoc) || lia).
    rewrite (Hsl (P ++ b ++ M ++ c) S [] (len P + len b + len M + 64) (len P + len b + len M + 64 + len S)) by (rewrite ?length_app; (by rewrite app_nil_r, <- !app_assoc) || lia).
    rewrite !bool_decide_eq_true_2 by done. cbn [negb orb]. by rewrite Hv.
Qed.

Lemma open_store_envelope_Ok kind raw payload :
  open_store_envelope kind raw = Ok payload ↔ raw = envelope_bytes kind payload.
Proof.
  unfold open_store_envelope. split.
  - intros H. inv_res.
    match goal with H : split_store_envelope _ _ = Ok _ |- _ => apply split_store_envelope_Ok in H as [Hv ->] end.
    match goal with H : decode_canonical_store_base64 _ = Ok _ |- _ => apply base64_canonical in H as -> end.
    apply valid_hash_hex_iff in Hv as (h & Hh & ->).
    match goal with H : hex_decode _ = Ok _ |- _ =>
      rewrite string_of_ascii_bytes, hex_decode_encode in H; injection H as <- end.
    match goal with H : negb _ = false |- _ => apply negb_false_iff, constant_time_eq32_iff in H as -> end; [done|].
    unfold store_envelope_checksum. rewrite sha3_256_length. lia.
  - intros ->. unfold envelope_bytes.
    rewrite (proj2 (split_store_envelope_Ok kind _ (base64_encode payload)
      (ascii_bytes (hex_encode (store_envelope_checksum (sk_domain kind) payload))))).
    + run_bind. unfold decode_canonical_store_base64. rewrite (proj2 (base64_canonical _ _ payload)) by done. run_bind.
      rewrite string_of_ascii_bytes, hex_decode_encode. cbn [map_err]. run_bind.
      by rewrite (proj2 (constant_time_eq32_iff _ _ eq_refl)).
    + split; [|done]. apply valid_hash_hex_iff. eexists. split; [|done]. unfold store_envelope_checksum.
      by rewrite sha3_256_length.
Qed.

(** Stored envelopes. The reader accepts exactly the writer's output: a
    file is opened if and only if it is, byte for byte, the envelope of the
    payload that is returned, so no other spelling of a record is read. And an
    envelope of the chain state never opens as one of the index, nor the other
    way round, unless SHA3-256 collides. *)
Theorem store_envelope_canonical :
  (∀ kind raw payload, open_store_envelope kind raw = Ok payload ↔ marshal_store_envelope kind payload = Ok raw)
  ∧ (∀ raw p1 p2, open_store_envelope STORE_ENVELOPE_CHAIN_STATE raw = Ok p1 →
       open_store_envelope STORE_ENVELOPE_BLOCK_INDEX raw = Ok p2 →
       collision_in [sk_domain STORE_ENVELOPE_CHAIN_STATE ++ be_encode 8 (len p1) ++ p1;
                     sk_domain STORE_ENVELOPE_BLOCK_INDEX ++ be_encode 8 (len p2) ++ p2]).
Proof.
  split.
  - intros kind raw payload. rewrite open_store_envelope_Ok, marshal_store_envelope_run. split; [by intros ->|by intros [= ->]].
  - intros raw p1 p2 ->%open_store_envelope_Ok H%open_store_envelope_Ok. unfold envelope_bytes in H.
    apply app_inj_1 in H as [_ H]; [|done].
    assert (len (base64_encode p1) = len (base64_encode p2)) as Hl.
    { apply (f_equal (λ l, len l)) in H. rewrite !length_app in H.
      pose proof (hex_encode_len (store_envelope_checksum (sk_domain STORE_ENVELOPE_CHAIN_STATE) p1)) as H1.
      pose proof (hex_encode_len (store_envelope_checksum (sk_domain STORE_ENVELOPE_BLOCK_INDEX) p2)) as H2.
      unfold store_envelope_checksum in H1, H2. rewrite sha3_256_length in H1, H2. unfold store_envelope_checksum in H. lia. }
    apply app_inj_1 in H as [He H]; [|lia]. apply app_inj_1 in H as [_ H]; [|done].
    apply app_inj_2 in H as [H _]; [|done]. apply (f_equal string_of_bytes) in H. rewrite !string_of_ascii_bytes in H.
    apply hex_encode_inj in H. unfold store_envelope_checksum in H.
    eapply sha3_inj_in in H as [H|?]; [| |by left|by right; left]; [|done]. exfalso.
    assert (p1 = p2) as -> by (apply (base64_canonical tt) in He; rewrite (proj2 (base64_canonical tt _ p1) eq_refl) in He; by injection He).
    apply (f_equal length) in H. rewrite !length_app in H. cbn in H. lia.
Qed.
End canonical.
