(* ===== verification/UndoDisk.v ===== *)
(** * Undo records on disk ([undo.rs])

    The stored undo record is an envelope around a JSON payload that binds it
    to the hash of its block.  The payload's text is [serde_json]'s; what the
    node decides (which tokens it takes, the check of the canonical form by
    writing the record again, the envelope) is modelled here. *)

From Stdlib Require Import Ascii.
From stdpp Require Import pretty.
From S2P Require Import Prelude Bytes BTree Errors Constants Crypto WireRead CompactSize TxWire TxCodec Block.
From S2P Require Import Vault Suites Verify SigCache WorkerPool SigQueue Sighash Spend Htlc Stealth CovenantGenesis.
From S2P Require Import UtxoApply UtxoRules UtxoDeferred UtxoLedger BlockParse BlockWeight BlockDa BlockBasic ConnectBlock.
From S2P Require Import NodeText ChainState Undo StoreFiles Base64 Uint128 StoreEnvelope.

(** ** The record *)

(* rust: node/undo.rs 289-297 SpentUndoDisk *)
Record SpentUndoDisk : Type := mkSpentUndoDisk {
  sd_txid : string; sd_vout : Z; sd_value : Z; sd_covenant_type : Z; sd_covenant_data : string;
  sd_creation_height : Z; sd_created_by_coinbase : bool }.
(* rust: node/undo.rs 284-286 TxUndoDisk *)
Record TxUndoDisk : Type := mkTxUndoDisk { td_spent : list SpentUndoDisk }.
(** The two versions differ in the type of the amount, [u64] and [u128], and
    in how it is written. *)
(* rust: node/undo.rs 259-264 BlockUndoDisk *)
Record BlockUndoDisk : Type := mkBlockUndoDisk {
  bd_block_height : Z; bd_previous_already_generated : Z; bd_txs : list TxUndoDisk }.
(* rust: node/undo.rs 266-272 BlockUndoDiskV2 *)
Record BlockUndoDiskV2 : Type := mkBlockUndoDiskV2 {
  b2_block_height : Z; b2_previous_already_generated : Z; b2_txs : list TxUndoDisk }.
(** The amount is skipped. *)
(* rust: node/undo.rs 274-281 BlockUndoDiskRaw *)
Record BlockUndoDiskRaw : Type := mkBlockUndoDiskRaw { br_block_height : Z; br_txs : list TxUndoDisk }.
(* rust: node/undo.rs 300-304 UndoSupplyToken *)
Inductive UndoSupplyToken : Type := Unsigned (v : Z) | SupplyString (value : string) (unescaped : bool) | Other.
(* rust: node/undo.rs 306-309 ValidatedBlockUndo *)
Inductive ValidatedBlockUndo : Type := V1 (d : BlockUndoDisk) | V2 (d : BlockUndoDiskV2).

(** The fields hold what their Rust types hold, and the strings are plain. *)
Definition plain_string (s : string) : Prop := Forall (λ c, c ∈ hex_digits) (chars s).
Definition spent_disk_range (s : SpentUndoDisk) : Prop :=
  is_u 32 (sd_vout s) ∧ is_u 64 (sd_value s) ∧ is_u 16 (sd_covenant_type s) ∧ is_u 64 (sd_creation_height s).
Definition spent_disk_ok (s : SpentUndoDisk) : Prop :=
  plain_string (sd_txid s) ∧ plain_string (sd_covenant_data s) ∧ spent_disk_range s.
Definition txs_disk_ok (txs : list TxUndoDisk) : Prop := Forall (λ t, Forall spent_disk_ok (td_spent t)) txs.

(** [serde_json] on these types.  A record is written by successive calls of
    the writer; what is written reads back, and what is read fits its type. *)
Class UndoJson : Type := {
  undo_writes_v1 : BlockUndoDisk → list bytes;
  undo_writes_v2 : BlockUndoDiskV2 → list bytes;
  undo_payload_shape : bytes → bool;
  undo_supply_probe : bytes → option UndoSupplyToken;
  undo_typed : bytes → option BlockUndoDiskRaw;
  undo_reads_v1 : ∀ d, is_u 64 (bd_block_height d) → is_u 64 (bd_previous_already_generated d) → txs_disk_ok (bd_txs d) →
    let raw := mjoin (undo_writes_v1 d) in
    undo_payload_shape raw = true ∧ undo_supply_probe raw = Some (Unsigned (bd_previous_already_generated d))
    ∧ undo_typed raw = Some (mkBlockUndoDiskRaw (bd_block_height d) (bd_txs d));
  undo_reads_v2 : ∀ d, is_u 64 (b2_block_height d) → is_u 128 (b2_previous_already_generated d) → txs_disk_ok (b2_txs d) →
    let raw := mjoin (undo_writes_v2 d) in
    undo_payload_shape raw = true
    ∧ undo_supply_probe raw = Some (SupplyString (to_canonical_decimal (b2_previous_already_generated d)) true)
    ∧ undo_typed raw = Some (mkBlockUndoDiskRaw (b2_block_height d) (b2_txs d));
  undo_supply_range : ∀ raw v, undo_supply_probe raw = Some (Unsigned v) → is_u 64 v;
  undo_typed_range : ∀ raw d, undo_typed raw = Some d →
    is_u 64 (br_block_height d) ∧ Forall (λ t, Forall spent_disk_range (td_spent t)) (br_txs d);
  undo_envelope_to_vec : Z → bytes → bytes → bytes → nres bytes;
  undo_envelope_to_vec_plain : ∀ version hash payload_b64 checksum,
    Forall (λ b, b ∈ base64_chars) hash → Forall (λ b, b ∈ base64_chars) payload_b64 →
    Forall (λ b, b ∈ base64_chars) checksum →
    undo_envelope_to_vec version hash payload_b64 checksum
    = Ok (json_text "{'version':" ++ ascii_bytes (pretty version) ++ json_text ",'block_hash':'" ++ hash
          ++ json_text "','payload_b64':'" ++ payload_b64 ++ json_text "','checksum':'" ++ checksum ++ json_text "'}");
  json_value_ok : bytes → bool;
  undo_version_keys : bytes → option (Z * bool);
  undo_version_probe : bytes → option (option Z);
}.

(* rust: node/undo.rs 399-400 UNDO_INVALID_V1_SUPPLY *)
Definition UNDO_INVALID_V1_SUPPLY : string :=
  "decode undo: envelope v1 previous_already_generated must be a nonnegative JSON integer through u64".
(* rust: node/undo.rs 401-402 UNDO_INVALID_V2_SUPPLY *)
Definition UNDO_INVALID_V2_SUPPLY : string :=
  "decode undo: envelope v2 previous_already_generated must be a canonical unsigned decimal string within u128".
(* rust: node/undo.rs 403-403 UNDO_PAYLOAD_NOT_CANONICAL *)
Definition UNDO_PAYLOAD_NOT_CANONICAL : string := "decode undo: payload is not the canonical encoding".

(** ** The sink that compares what is written with what was read *)

(* rust: node/undo.rs 543-547 CanonicalPayloadSink *)
Record CanonicalPayloadSink : Type := mkSink { sn_expected : bytes; sn_offset : Z; sn_mismatch : bool }.

(* rust: node/undo.rs 550-562 write *)
Definition sink_write (s : CanonicalPayloadSink) (buf : bytes) : CanonicalPayloadSink :=
  let mismatch :=
    if len (sn_expected s) <? sn_offset s then true else
    let expected := drop (Z.to_nat (sn_offset s)) (sn_expected s) in
    let compared := Z.min (len expected) (len buf) in
    if negb (bool_decide (take (Z.to_nat compared) expected = take (Z.to_nat compared) buf)) || negb (compared =? len buf)
    then true else sn_mismatch s in
  mkSink (sn_expected s) (saturating_add u64_max (sn_offset s) (len buf)) mismatch.

(* rust: node/undo.rs 569-577 canonical_payload_matches *)
Definition canonical_payload_matches (writes : list bytes) (raw : bytes) : bool :=
  let sink := foldl sink_write (mkSink raw 0 false) writes in
  negb (sn_mismatch sink) && (sn_offset sink =? len raw).

Section undo_disk.
Context `{HS : Sha3} `{HX : Hex} `{HU : UndoJson}.

(** ** Decoding the payload *)

(* rust: node/undo.rs 513-522 decode_block_undo_supply *)
Definition decode_block_undo_supply (raw : bytes) (invalid_supply_error : string) : nres UndoSupplyToken :=
  if negb (undo_payload_shape raw) then Err UNDO_PAYLOAD_NOT_CANONICAL else
  ok_or (undo_supply_probe raw) invalid_supply_error.

(* rust: node/undo.rs 524-526 decode_block_undo_typed *)
Definition decode_block_undo_typed (raw : bytes) : nres BlockUndoDiskRaw :=
  ok_or (undo_typed raw) UNDO_PAYLOAD_NOT_CANONICAL.

(* rust: node/undo.rs 655-660 valid_lowercase_hex *)
Definition valid_lowercase_hex (value : string) : bool :=
  (len (chars value) mod 2 =? 0) && forallb hex_byte (ascii_bytes value).

(* rust: node/undo.rs 639-651 check_undo_txs_canonical_fields *)
Definition check_spent_fields (tx_index spent_index : Z) (spent : SpentUndoDisk) : nres unit :=
  if negb (valid_canonical_hash_hex (ascii_bytes (sd_txid spent))) || negb (valid_lowercase_hex (sd_covenant_data spent))
  then fail ("decode undo: txs[" +:+ pretty tx_index +:+ "].spent[" +:+ pretty spent_index
             +:+ "] txid/covenant_data must be lowercase hex")%string
  else Ok ().

(* rust: node/undo.rs 639-651 check_undo_txs_canonical_fields *)
Definition check_undo_txs_canonical_fields (txs : list TxUndoDisk) : nres unit :=
  try_fold (λ _ p, try_fold (λ _ q, check_spent_fields p.1 q.1 q.2) () (enumerate (td_spent p.2))) () (enumerate txs).

(* rust: node/undo.rs 579-596 decode_validated_block_undo_v1 *)
Definition decode_validated_block_undo_v1 (raw : bytes) : nres ValidatedBlockUndo :=
  supply ← decode_block_undo_supply raw UNDO_INVALID_V1_SUPPLY;
  previous_already_generated ← match supply with Unsigned v => Ok v | _ => Err UNDO_INVALID_V1_SUPPLY end;
  decoded ← decode_block_undo_typed raw;
  let disk := mkBlockUndoDisk (br_block_height decoded) previous_already_generated (br_txs decoded) in
  _ ← check_undo_txs_canonical_fields (bd_txs disk);
  if negb (canonical_payload_matches (undo_writes_v1 disk) raw) then Err UNDO_PAYLOAD_NOT_CANONICAL else
  Ok (V1 disk).

(* rust: node/undo.rs 598-619 decode_validated_block_undo_v2 *)
Definition decode_validated_block_undo_v2 (raw : bytes) : nres ValidatedBlockUndo :=
  supply ← decode_block_undo_supply raw UNDO_INVALID_V2_SUPPLY;
  previous_already_generated ←
    match supply with
    | SupplyString value true => ok_or (parse_canonical_decimal value) UNDO_INVALID_V2_SUPPLY
    | _ => Err UNDO_INVALID_V2_SUPPLY
    end;
  decoded ← decode_block_undo_typed raw;
  let disk := mkBlockUndoDiskV2 (br_block_height decoded) previous_already_generated (br_txs decoded) in
  _ ← check_undo_txs_canonical_fields (b2_txs disk);
  if negb (canonical_payload_matches (undo_writes_v2 disk) raw) then Err UNDO_PAYLOAD_NOT_CANONICAL else
  Ok (V2 disk).

(** ** To and from the record *)

(* rust: node/undo.rs 662-680 block_undo_txs_to_disk *)
Definition spent_to_disk (s : SpentUndo) : SpentUndoDisk :=
  mkSpentUndoDisk (hex_encode (op_txid (su_outpoint s))) (op_vout (su_outpoint s)) (ue_value (su_entry s))
    (ue_covenant_type (su_entry s)) (hex_encode (ue_covenant_data (su_entry s))) (ue_creation_height (su_entry s))
    (ue_created_by_coinbase (su_entry s)).
(* rust: node/undo.rs 662-680 block_undo_txs_to_disk *)
Definition block_undo_txs_to_disk (src : list TxUndo) : list TxUndoDisk :=
  (λ tx_undo, mkTxUndoDisk (spent_to_disk <$> tu_spent tx_undo)) <$> src.

(* rust: node/undo.rs 682-690 block_undo_to_disk *)
Definition block_undo_to_disk (undo : BlockUndo) : nres BlockUndoDisk :=
  if u64_max <? bu_previous_already_generated undo
  then fail "encode undo: envelope v1 previous_already_generated must be a nonnegative JSON integer through u64"%string else
  Ok (mkBlockUndoDisk (bu_block_height undo) (bu_previous_already_generated undo) (block_undo_txs_to_disk (bu_txs undo))).

(* rust: node/undo.rs 692-698 block_undo_to_disk_v2 *)
Definition block_undo_to_disk_v2 (undo : BlockUndo) : BlockUndoDiskV2 :=
  mkBlockUndoDiskV2 (bu_block_height undo) (bu_previous_already_generated undo) (block_undo_txs_to_disk (bu_txs undo)).

(* rust: node/undo.rs 717-750 block_undo_from_parts *)
Definition spent_from_disk (tx_index spent_index : Z) (s : SpentUndoDisk) : nres SpentUndo :=
  let at_ := ("undo[" +:+ pretty tx_index +:+ "].spent[" +:+ pretty spent_index +:+ "]")%string in
  txid ← parse_hex32 (at_ +:+ ".txid")%string (sd_txid s);
  covenant_data ← map_err (λ e, at_ +:+ ".covenant_data: " +:+ e)%string (hex_decode (sd_covenant_data s));
  Ok (mkSpentUndo (mkOutpoint txid (sd_vout s))
        (mkUtxoEntry (sd_value s) (sd_covenant_type s) covenant_data (sd_creation_height s) (sd_created_by_coinbase s))).
(* rust: node/undo.rs 717-750 block_undo_from_parts *)
Definition tx_from_disk (tx_index : Z) (t : TxUndoDisk) : nres TxUndo :=
  spent ← try_fold (λ spent q, s ← spent_from_disk tx_index q.1 q.2; Ok (spent ++ [s])) [] (enumerate (td_spent t));
  Ok (mkTxUndo spent).

(* rust: node/undo.rs 717-750 block_undo_from_parts *)
Definition block_undo_from_parts (block_height previous_already_generated : Z) (disk_txs : list TxUndoDisk) :
    nres BlockUndo :=
  txs ← try_fold (λ txs p, t ← tx_from_disk p.1 p.2; Ok (txs ++ [t])) [] (enumerate disk_txs);
  Ok (mkBlockUndo block_height previous_already_generated txs).

(* rust: node/undo.rs 709-715 block_undo_from_disk *)
Definition block_undo_from_disk (disk : BlockUndoDisk) : nres BlockUndo :=
  block_undo_from_parts (bd_block_height disk) (bd_previous_already_generated disk) (bd_txs disk).

(* rust: node/undo.rs 700-707 block_undo_from_validated *)
Definition block_undo_from_validated (disk : ValidatedBlockUndo) : nres BlockUndo :=
  match disk with
  | V1 disk => block_undo_from_disk disk
  | V2 disk => block_undo_from_parts (b2_block_height disk) (b2_previous_already_generated disk) (b2_txs disk)
  end.

(** The table of digits is [hex_digits]. *)
(* rust: node/undo.rs 798-815 lowercase_hex_matches_bytes *)
Definition lowercase_hex_matches_bytes (value : string) (b : bytes) : bool :=
  let encoded := chars value in
  match checked_mul u64_max (len b) 2 with
  | None => false
  | Some n =>
      if negb (len encoded =? n) then false else
      forallb (λ p : Z * byte,
        let '(index, x) := p in
        bool_decide (encoded !! Z.to_nat (index * 2) = hex_digits !! Z.to_nat (Z.shiftr (byte_val x) 4))
        && bool_decide (encoded !! Z.to_nat (index * 2 + 1) = hex_digits !! Z.to_nat (Z.land (byte_val x) 15)))
        (enumerate b)
  end.

(* rust: node/undo.rs 771-796 disk_txs_match_candidate *)
Definition spent_matches (d : SpentUndoDisk) (c : SpentUndo) : bool :=
  (sd_vout d =? op_vout (su_outpoint c)) && (sd_value d =? ue_value (su_entry c))
  && (sd_covenant_type d =? ue_covenant_type (su_entry c)) && (sd_creation_height d =? ue_creation_height (su_entry c))
  && Bool.eqb (sd_created_by_coinbase d) (ue_created_by_coinbase (su_entry c))
  && lowercase_hex_matches_bytes (sd_txid d) (op_txid (su_outpoint c))
  && lowercase_hex_matches_bytes (sd_covenant_data d) (ue_covenant_data (su_entry c)).

(* rust: node/undo.rs 771-796 disk_txs_match_candidate *)
Definition disk_txs_match_candidate (disk_txs : list TxUndoDisk) (candidate_txs : list TxUndo) : bool :=
  (len disk_txs =? len candidate_txs)
  && forallb (λ p : TxUndoDisk * TxUndo,
       (len (td_spent p.1) =? len (tu_spent p.2))
       && forallb (λ q : SpentUndoDisk * SpentUndo, spent_matches q.1 q.2) (zip (td_spent p.1) (tu_spent p.2)))
       (zip disk_txs candidate_txs).

(* rust: node/undo.rs 752-769 validated_block_undo_matches *)
Definition validated_block_undo_matches (disk : ValidatedBlockUndo) (candidate : BlockUndo) : bool :=
  match disk with
  | V1 disk => (bu_block_height candidate =? bd_block_height disk)
               && (bu_previous_already_generated candidate =? bd_previous_already_generated disk)
               && disk_txs_match_candidate (bd_txs disk) (bu_txs candidate)
  | V2 disk => (bu_block_height candidate =? b2_block_height disk)
               && (bu_previous_already_generated candidate =? b2_previous_already_generated disk)
               && disk_txs_match_candidate (b2_txs disk) (bu_txs candidate)
  end.

(** ** The payload *)

(* rust: node/undo.rs 533-536 marshal_block_undo *)
Definition marshal_block_undo (undo : BlockUndo) : nres bytes :=
  disk ← block_undo_to_disk undo; Ok (mjoin (undo_writes_v1 disk)).
(* rust: node/undo.rs 538-541 marshal_block_undo_v2 *)
Definition marshal_block_undo_v2 (undo : BlockUndo) : nres bytes :=
  Ok (mjoin (undo_writes_v2 (block_undo_to_disk_v2 undo))).
(* rust: node/undo.rs 623-625 unmarshal_block_undo *)
Definition unmarshal_block_undo (raw : bytes) : nres BlockUndo :=
  decode_validated_block_undo_v1 raw ≫= block_undo_from_validated.
End undo_disk.

(** ** The sink compares the whole output *)

Lemma sink_write_ok raw off mm w : 0 ≤ off →
  sn_mismatch (sink_write (mkSink raw off mm) w) = false ↔
  mm = false ∧ off ≤ len raw ∧ ∃ t, drop (Z.to_nat off) raw = w ++ t.
Proof.
  intros Ho. unfold sink_write. cbn [sn_expected sn_offset sn_mismatch]. destruct (len raw <? off) eqn:E1.
  { split; [done|]. intros (_ & Hle & _). lia. }
  set (d := drop (Z.to_nat off) raw). destruct (_ || _) eqn:E2.
  - split; [done|]. intros (_ & _ & t & Ht). exfalso. rewrite Ht, length_app in E2.
    replace (Z.min _ _) with (len w) in E2 by lia. rewrite Nat2Z.id, take_app_length, firstn_all, bool_decide_eq_true_2 in E2 by done.
    rewrite Z.eqb_refl in E2. done.
  - apply orb_false_iff in E2 as [E2 E3]. apply negb_false_iff in E2, E3. apply bool_decide_eq_true in E2.
    apply Z.eqb_eq in E3. split; [|by intros [-> _]]. intros ->. split; [done|]. split; [lia|].
    rewrite E3, Nat2Z.id, firstn_all in E2. exists (drop (length w) d). by rewrite <- E2 at 1; rewrite take_drop.
Qed.

Lemma sink_writes ws raw : ∀ off mm, 0 ≤ off → len raw < u64_max →
  let sink := foldl sink_write (mkSink raw off mm) ws in
  (sn_mismatch sink = false ∧ sn_offset sink = len raw) ↔
  mm = false ∧ off ≤ len raw ∧ mjoin ws = drop (Z.to_nat off) raw.
Proof.
  induction ws as [|w ws IH]; intros off mm Ho Hr; cbn zeta.
  - cbn. split; [intros [-> ->]; split; [done|]; split; [lia|by rewrite drop_ge by lia]|].
    intros (-> & Hle & Hd). split; [done|]. apply (f_equal length) in Hd. rewrite length_drop in Hd. cbn in Hd. lia.
  - cbn [foldl]. change (mjoin (w :: ws)) with (w ++ mjoin ws). destruct (sink_write (mkSink raw off mm) w) as [raw' off' mm'] eqn:Es.
    pose proof (sink_write_ok raw off mm w Ho) as Hs. rewrite Es in Hs. cbn [sn_mismatch] in Hs.
    injection Es as <- <- _. rewrite IH by (unfold saturating_add, u64_max in *; lia). rewrite Hs. unfold saturating_add. split.
    + intros ((-> & Hle & t & Ht) & Hle' & Hj). split; [done|]. split; [done|].
      pose proof Ht as Hl. apply (f_equal length) in Hl. rewrite length_drop, length_app in Hl.
      rewrite Hj, Ht. f_equal.
      replace (Z.to_nat (Z.min u64_max (off + len w))) with (Z.to_nat off + length w)%nat by lia.
      rewrite <- drop_drop, Ht. by rewrite drop_app_length.
    + intros (-> & Hle & Hj).
      pose proof Hj as Hl. apply (f_equal length) in Hl. rewrite length_drop, length_app in Hl.
      split; [split; [done|]; split; [done|]; by exists (mjoin ws)|]. split; [lia|].
      replace (Z.to_nat (Z.min u64_max (off + len w))) with (Z.to_nat off + length w)%nat by lia.
      rewrite <- drop_drop, <- Hj. by rewrite drop_app_length.
Qed.

(** However the writer cuts its output into calls. *)
Lemma canonical_payload_matches_iff ws raw : len raw < u64_max → canonical_payload_matches ws raw = true ↔ mjoin ws = raw.
Proof.
  intros Hr. unfold canonical_payload_matches. rewrite andb_true_iff, negb_true_iff, Z.eqb_eq, sink_writes by lia.
  rewrite drop_0. split; [by intros (_ & _ & H)|]. intros H. split; [done|]. split; [lia|done].
Qed.

(** ** The canonical tree is that of one record *)

Section trees.
Context `{HX : Hex} `{HU : UndoJson}.

Definition spent_range (s : SpentUndo) : Prop :=
  len (op_txid (su_outpoint s)) = 32 ∧ spent_disk_range (spent_to_disk s).
Definition txs_range (txs : list TxUndo) : Prop := Forall (λ t, Forall spent_range (tu_spent t)) txs.
(** What a record in memory is. *)
Definition undo_ok (u : BlockUndo) : Prop :=
  is_u 64 (bu_block_height u) ∧ is_u 128 (bu_previous_already_generated u) ∧ txs_range (bu_txs u).

Lemma hex_text_plain b : plain_string (hex_encode b).
Proof. apply hex_encode_chars. Qed.

Lemma spent_to_disk_ok s : spent_range s → spent_disk_ok (spent_to_disk s).
Proof. intros [_ Hr]. split; [apply hex_text_plain|]. split; [apply hex_text_plain|done]. Qed.

Lemma txs_to_disk_ok txs : txs_range txs → txs_disk_ok (block_undo_txs_to_disk txs).
Proof.
  intros Ht. unfold txs_disk_ok, block_undo_txs_to_disk. apply Forall_fmap. eapply list.Forall_impl; [exact Ht|].
  intros t Hs. cbn. apply Forall_fmap. eapply list.Forall_impl; [exact Hs|]. apply spent_to_disk_ok.
Qed.

Lemma valid_lowercase_hex_iff s : valid_lowercase_hex s = true ↔ ∃ b, s = hex_encode b.
Proof.
  unfold valid_lowercase_hex. rewrite andb_true_iff, Z.eqb_eq. split.
  - intros [Hl Hd]. destruct (hex_bytes_encode (ascii_bytes s)) as (b & Hb & _).
    + by rewrite ascii_bytes_chars, length_fmap.
    + done.
    + exists b. apply (f_equal string_of_bytes) in Hb. by rewrite !string_of_ascii_bytes in Hb.
  - intros [b ->]. split; [|apply hex_encode_bytes_digits]. destruct (hex_encode_chars b) as [-> _].
    rewrite Z.mul_comm. apply Z_mod_mult.
Qed.

(** Tests, and maps that may fail, over a list with its indices. *)
Lemma enum_tests {A} (f : Z → A → nres unit) (P : A → Prop) l k : (∀ i x, f i x = Ok () ↔ P x) →
  try_fold (λ _ p, f p.1 p.2) () (enum_from k l) = Ok () ↔ Forall P l.
Proof.
  intros Hf. revert k. induction l as [|x l IH]; intros k; cbn [enum_from try_fold fst snd]; [split; [constructor|done]|].
  rewrite list.Forall_cons, bind_Ok, <- (IH (k + 1)), <- (Hf k x). split; [by intros ([] & ? & ?)|by intros [? ?]; exists ()].
Qed.

Lemma enum_builds {A B} (f : Z → A → nres B) (g : B → A) (P : B → Prop) l : (∀ i x y, x ∈ l → f i x = Ok y ↔ P y ∧ x = g y) →
  ∀ k acc out, try_fold (λ acc p, y ← f p.1 p.2; Ok (acc ++ [y])) acc (enum_from k l) = Ok out ↔
  ∃ ys, Forall P ys ∧ l = g <$> ys ∧ out = acc ++ ys.
Proof.
  induction l as [|x l IH]; intros Hf k acc out; cbn [enum_from try_fold fst snd].
  - split; [intros [= ->]; exists []; by rewrite app_nil_r|]. intros (ys & _ & Hl & ->).
    symmetry in Hl. apply fmap_nil_inv in Hl as ->. by rewrite app_nil_r.
  - rewrite bind_Ok. specialize (IH ltac:(intros; apply Hf; by right)). split.
    + intros (acc' & (y & Hy & [= <-])%bind_Ok & (ys & Hp & -> & ->)%IH). apply Hf in Hy as [Hy ->]; [|by left].
      exists (y :: ys). split; [by constructor|]. by rewrite <- app_assoc.
    + intros ([|y ys] & Hp & Hl & ->); [done|]. rewrite fmap_cons in Hl. injection Hl as Hx Hl.
      apply list.Forall_cons in Hp as [Hy Hp]. exists (acc ++ [y]).
      rewrite (proj2 (Hf k x y ltac:(by left)) (conj Hy Hx)). split; [done|]. apply IH. exists ys. by rewrite <- app_assoc.
Qed.

(** A spent output whose strings are lower-case hexadecimal is the text of one
    output. *)
Definition canonical_spent (s : SpentUndoDisk) : Prop := ∃ u, len (op_txid (su_outpoint u)) = 32 ∧ s = spent_to_disk u.

Lemma check_spent_iff i j s : check_spent_fields i j s = Ok () ↔ canonical_spent s.
Proof.
  unfold check_spent_fields. destruct (_ || _) eqn:E.
  - split; [done|]. intros (u & Hu & ->). exfalso. cbn [sd_txid sd_covenant_data spent_to_disk] in E.
    rewrite (proj2 (valid_hash_hex_iff _)), (proj2 (valid_lowercase_hex_iff _)) in E; eauto. done.
  - apply orb_false_iff in E as [E1%negb_false_iff E2%negb_false_iff]. split; [|done]. intros _.
    apply valid_hash_hex_iff in E1 as (h & Hh & Ht). apply valid_lowercase_hex_iff in E2 as [b Hb].
    apply (f_equal string_of_bytes) in Ht. rewrite !string_of_ascii_bytes in Ht.
    exists (mkSpentUndo (mkOutpoint h (sd_vout s)) (mkUtxoEntry (sd_value s) (sd_covenant_type s) b (sd_creation_height s)
                  (sd_created_by_coinbase s))).
    split; [done|]. destruct s. cbn in *. unfold spent_to_disk. cbn. by rewrite Ht, Hb.
Qed.

Lemma check_undo_txs_iff txs : check_undo_txs_canonical_fields txs = Ok () ↔
  Forall (λ t, Forall canonical_spent (td_spent t)) txs.
Proof.
  unfold check_undo_txs_canonical_fields. rewrite enumerate_enum.
  apply (enum_tests (λ i t, try_fold (λ _ q, check_spent_fields i q.1 q.2) () (enumerate (td_spent t)))). intros i t.
  rewrite enumerate_enum. apply (enum_tests (check_spent_fields i)). intros; apply check_spent_iff.
Qed.

Lemma spent_to_disk_inj u v : spent_to_disk u = spent_to_disk v → u = v.
Proof.
  destruct u as [[] []], v as [[] []]. unfold spent_to_disk. cbn. intros H. injection H as H1 -> -> -> H2 -> ->.
  apply hex_encode_inj in H1 as ->. by apply hex_encode_inj in H2 as ->.
Qed.
Definition canonical_txs (txs : list TxUndoDisk) : Prop := Forall (λ t, Forall canonical_spent (td_spent t)) txs.
Definition txids_ok (txs : list TxUndo) : Prop := Forall (λ t, Forall (λ s, len (op_txid (su_outpoint s)) = 32) (tu_spent t)) txs.

Lemma spent_from_disk_iff i j s u : canonical_spent s →
  spent_from_disk i j s = Ok u ↔ len (op_txid (su_outpoint u)) = 32 ∧ s = spent_to_disk u.
Proof.
  assert (∀ u, len (op_txid (su_outpoint u)) = 32 → spent_from_disk i j (spent_to_disk u) = Ok u) as Hrun.
  { intros v Hv. unfold spent_from_disk. cbn [sd_txid sd_covenant_data spent_to_disk]. rewrite parse_hex32_encode by done.
    rewrite hex_decode_encode. by destruct v as [[] []]. }
  intros (v & Hv & ->). split; [|intros [Hu ->]; by apply Hrun]. rewrite Hrun by done. by intros [= <-].
Qed.

Lemma tx_from_disk_iff i t u : Forall canonical_spent (td_spent t) →
  tx_from_disk i t = Ok u ↔
  Forall (λ s, len (op_txid (su_outpoint s)) = 32) (tu_spent u) ∧ t = mkTxUndoDisk (spent_to_disk <$> tu_spent u).
Proof.
  intros Ht. unfold tx_from_disk. rewrite enumerate_enum, bind_Ok. rewrite list.Forall_forall in Ht.
  setoid_rewrite (enum_builds (spent_from_disk i) spent_to_disk (λ s, len (op_txid (su_outpoint s)) = 32));
    [|intros; by apply spent_from_disk_iff, Ht].
  split.
  - intros (spent & (ys & Hp & Hl & ->) & [= <-]). split; [done|]. destruct t. cbn in *. by rewrite Hl.
  - intros [Hp ->]. exists (tu_spent u). split; [by exists (tu_spent u)|by destruct u].
Qed.

(** A canonical tree is read as the one list of transactions it is the text of. *)
Lemma from_parts_iff h p txs u : canonical_txs txs →
  block_undo_from_parts h p txs = Ok u ↔
  bu_block_height u = h ∧ bu_previous_already_generated u = p ∧ txids_ok (bu_txs u) ∧ txs = block_undo_txs_to_disk (bu_txs u).
Proof.
  intros Ht. unfold block_undo_from_parts. rewrite enumerate_enum, bind_Ok. unfold canonical_txs in Ht. rewrite list.Forall_forall in Ht.
  setoid_rewrite (enum_builds tx_from_disk (λ u, mkTxUndoDisk (spent_to_disk <$> tu_spent u))
    (λ u, Forall (λ s, len (op_txid (su_outpoint s)) = 32) (tu_spent u))); [|intros; by apply tx_from_disk_iff, Ht].
  split.
  - intros (ts & (ys & Hp & Hl & ->) & [= <-]). done.
  - intros (<- & <- & Hp & Hl). exists (bu_txs u). split; [by exists (bu_txs u)|by destruct u].
Qed.

Lemma canonical_txs_to_disk src : txids_ok src → canonical_txs (block_undo_txs_to_disk src).
Proof.
  intros Hs. unfold canonical_txs, block_undo_txs_to_disk. apply Forall_fmap. eapply list.Forall_impl; [exact Hs|].
  intros t Ht. cbn. apply Forall_fmap. eapply list.Forall_impl; [exact Ht|]. intros u Hu. by exists u.
Qed.
Lemma canonical_txs_src txs : canonical_txs txs → ∃ src, txids_ok src ∧ txs = block_undo_txs_to_disk src.
Proof.
  induction 1 as [|[spent] txs Hs _ (src & Hsrc & ->)]; [exists []; by repeat constructor|]. cbn in Hs.
  assert (∃ us, Forall (λ s, len (op_txid (su_outpoint s)) = 32) us ∧ spent = spent_to_disk <$> us) as (us & Hus & ->).
  { induction Hs as [|s spent (u & Hu & ->) _ (us & Hus & ->)]; [exists []; by repeat constructor|]. exists (u :: us). split; [by constructor|done]. }
  exists (mkTxUndo us :: src). split; [by constructor|done].
Qed.

Lemma txs_range_disk src : txs_range src ↔
  txids_ok src ∧ Forall (λ t, Forall spent_disk_range (td_spent t)) (block_undo_txs_to_disk src).
Proof.
  unfold txs_range, txids_ok, block_undo_txs_to_disk. rewrite Forall_fmap, <- list.Forall_and.
  enough (∀ t, Forall spent_range (tu_spent t) ↔ Forall (λ s, len (op_txid (su_outpoint s)) = 32) (tu_spent t)
    ∧ Forall spent_disk_range (spent_to_disk <$> tu_spent t)) as H by (rewrite !list.Forall_forall; naive_solver).
  intros t. by rewrite Forall_fmap, <- list.Forall_and.
Qed.

(** ** A payload is read exactly if it was written *)

(** The tree of a record, for each version. *)
Definition tree_v1 (u : BlockUndo) : BlockUndoDisk :=
  mkBlockUndoDisk (bu_block_height u) (bu_previous_already_generated u) (block_undo_txs_to_disk (bu_txs u)).
Definition tree_of (version : Z) (u : BlockUndo) : ValidatedBlockUndo :=
  if version =? 1 then V1 (tree_v1 u) else V2 (block_undo_to_disk_v2 u).

Lemma from_tree v u : undo_ok u → block_undo_from_validated (tree_of v u) = Ok u.
Proof.
  intros (_ & _ & Ht%txs_range_disk). destruct Ht as [Ht _].
  unfold tree_of. destruct (v =? 1); apply from_parts_iff; (done || by apply canonical_txs_to_disk).
Qed.

Lemma checked_txs txs u : check_undo_txs_canonical_fields txs = Ok u ↔ canonical_txs txs.
Proof. destruct u. apply check_undo_txs_iff. Qed.

Lemma decode_v1_iff raw d : len raw < u64_max →
  decode_validated_block_undo_v1 raw = Ok d ↔ ∃ u, undo_ok u ∧ marshal_block_undo u = Ok raw ∧ d = tree_of 1 u.
Proof.
  intros Hr. unfold decode_validated_block_undo_v1, decode_block_undo_supply, decode_block_undo_typed. split.
  - intros H. inv_res. repeat case_match; simplify_eq.
    match goal with H : undo_typed raw = Some _ |- _ => pose proof (undo_typed_range _ _ H) as [Hh Hrange] end.
    match goal with H : undo_supply_probe raw = Some _ |- _ => pose proof (undo_supply_range _ _ H) as Hv end.
    match goal with H : check_undo_txs_canonical_fields _ = _ |- _ => apply checked_txs, canonical_txs_src in H as (src & Hsrc & Htxs) end.
    match goal with H : negb _ = false |- _ => apply negb_false_iff, canonical_payload_matches_iff in H; [|done] end.
    cbn [bd_txs] in Htxs. rewrite Htxs in *. eexists (mkBlockUndo _ _ src). unfold marshal_block_undo, block_undo_to_disk, undo_ok.
    cbn [bu_previous_already_generated bu_block_height bu_txs]. split; [|split; [|done]].
    + split; [done|]. split; [unfold is_u in *; lia|]. by apply txs_range_disk.
    + unfold is_u in Hv. replace (_ <? _) with false by (unfold u64_max; lia). run_bind. by f_equal.
  - intros (u & (Hh & Hp & Ht) & H & ->). unfold marshal_block_undo, block_undo_to_disk in H. inv_res. fold (tree_v1 u) in *.
    destruct (undo_reads_v1 (tree_v1 u)) as (-> & -> & ->); cbn [tree_v1 bd_block_height bd_previous_already_generated bd_txs].
    { done. } { unfold is_u, u64_max in *. lia. } { by apply txs_to_disk_ok. }
    cbn [negb ok_or br_txs br_block_height]. run_bind. apply txs_range_disk in Ht as [Ht _].
    rewrite (proj2 (check_undo_txs_iff _)) by by apply canonical_txs_to_disk. run_bind.
    by rewrite (proj2 (canonical_payload_matches_iff _ _ Hr)).
Qed.

Lemma decode_v2_iff raw d : len raw < u64_max →
  decode_validated_block_undo_v2 raw = Ok d ↔ ∃ u, undo_ok u ∧ marshal_block_undo_v2 u = Ok raw ∧ d = tree_of 2 u.
Proof.
  intros Hr. unfold decode_validated_block_undo_v2, decode_block_undo_supply, decode_block_undo_typed. split.
  - intros H. inv_res. repeat case_match; simplify_eq.
    match goal with H : undo_typed raw = Some _ |- _ => pose proof (undo_typed_range _ _ H) as [Hh Hrange] end.
    inv_res. match goal with H : parse_canonical_decimal _ = Some _ |- _ => apply canonical_decimal in H as [Hv _] end.
    match goal with H : check_undo_txs_canonical_fields _ = _ |- _ => apply checked_txs, canonical_txs_src in H as (src & Hsrc & Htxs) end.
    match goal with H : negb _ = false |- _ => apply negb_false_iff, canonical_payload_matches_iff in H; [|done] end.
    cbn [b2_txs] in Htxs. rewrite Htxs in *. eexists (mkBlockUndo _ _ src). unfold marshal_block_undo_v2, block_undo_to_disk_v2, undo_ok.
    cbn [bu_previous_already_generated bu_block_height bu_txs]. split; [|split; [|done]].
    + split; [done|]. split; [unfold is_u, u128_max in *; lia|]. by apply txs_range_disk.
    + by f_equal.
  - intros (u & (Hh & Hp & Ht) & H & ->). unfold marshal_block_undo_v2 in H. injection H as <-.
    destruct (undo_reads_v2 (block_undo_to_disk_v2 u)) as (-> & -> & ->);
      cbn [block_undo_to_disk_v2 b2_block_height b2_previous_already_generated b2_txs].
    { done. } { done. } { by apply txs_to_disk_ok. }
    cbn [negb ok_or br_txs br_block_height]. run_bind.
    rewrite (proj2 (canonical_decimal _ (bu_previous_already_generated u))) by (split; [unfold is_u, u128_max in *; lia|done]).
    cbn [ok_or]. run_bind. apply txs_range_disk in Ht as [Ht _].
    rewrite (proj2 (check_undo_txs_iff _)) by by apply canonical_txs_to_disk. run_bind.
    by rewrite (proj2 (canonical_payload_matches_iff _ _ Hr)).
Qed.

(** ** A record on disk matches one record *)

Lemma hex_digits_lookup n : 0 ≤ n < 16 → hex_digits !! Z.to_nat n = Some (hex_digit n).
Proof.
  intros Hn. unfold hex_digit. destruct (lookup_lt_is_Some_2 hex_digits (Z.to_nat n)) as [c Hc]; [|by rewrite Hc].
  change (length hex_digits) with 16%nat. lia.
Qed.
Lemma nibbles x : hex_digits !! Z.to_nat (Z.shiftr (byte_val x) 4) = Some (hex_digit (byte_val x / 16))
  ∧ hex_digits !! Z.to_nat (Z.land (byte_val x) 15) = Some (hex_digit (byte_val x mod 16)).
Proof.
  pose proof (byte_val_range x). rewrite Z.shiftr_div_pow2 by lia. change 15 with (Z.ones 4). rewrite Z.land_ones by lia.
  change (2 ^ 4) with 16. split; apply hex_digits_lookup; Z.to_euclidean_division_equations; lia.
Qed.
Lemma hex_chars_lookup b i x : b !! i = Some x →
  hex_chars b !! (2 * i)%nat = Some (hex_digit (byte_val x / 16))
  ∧ hex_chars b !! (2 * i + 1)%nat = Some (hex_digit (byte_val x mod 16)).
Proof.
  revert i. induction b as [|y b IH]; intros [|i] Hx; try done; rewrite hex_chars_cons.
  - by injection Hx as ->.
  - replace (2 * S i)%nat with (S (S (2 * i))) by lia. replace (S (S (2 * i)) + 1)%nat with (S (S (2 * i + 1))) by lia.
    by apply IH.
Qed.

Lemma enumerate_elem {A} (l : list A) i x : (Z.of_nat i, x) ∈ enumerate l ↔ l !! i = Some x.
Proof.
  unfold enumerate. rewrite list_elem_of_lookup. setoid_rewrite list_lookup_imap. split.
  - intros (j & Hj). destruct (l !! j) as [y|] eqn:Hy; [|done]. cbn in Hj. injection Hj as Hij ->.
    by replace i with j by lia.
  - intros Hx. exists i. by rewrite Hx.
Qed.

Lemma lowercase_hex_matches_iff b' b : lowercase_hex_matches_bytes (hex_encode b') b = true ↔ b' = b ∧ 2 * len b ≤ u64_max.
Proof.
  unfold lowercase_hex_matches_bytes. rewrite hex_encode_spec. destruct (hex_chars_digits b') as [Hl' _].
  destruct (hex_chars_digits b) as [Hl _]. destruct (checked_mul u64_max (len b) 2) as [n|] eqn:En.
  2: { split; [done|]. intros [-> Hle]. exfalso. unfold checked_mul in En. case_match; [done|]. lia. }
  apply checked_mul_Some in En as [-> Hle]. destruct (negb _) eqn:E.
  { split; [done|]. intros [-> _]. lia. }
  rewrite forallb_forall. split.
  - intros H. split; [|lia]. assert (hex_encode b' = hex_encode b) as He; [|by apply hex_encode_inj].
    rewrite <- (String.string_of_list_ascii_of_string (hex_encode b')), <- (String.string_of_list_ascii_of_string (hex_encode b)).
    f_equal. rewrite !hex_encode_spec. eapply list_eq_same_length; [reflexivity|lia|]. intros j c c' Hj Hc Hc'.
    assert (∃ i, j = 2 * i ∨ j = 2 * i + 1)%nat as [i Hi].
    { exists (j / 2)%nat. pose proof (Nat.div_mod_eq j 2). pose proof (Nat.mod_upper_bound j 2). lia. }
    destruct (lookup_lt_is_Some_2 b i) as [x Hx]; [lia|].
    destruct (hex_chars_lookup b i x Hx) as [H0 H1]. destruct (nibbles x) as [N0 N1].
    specialize (H (Z.of_nat i, x)). rewrite <- list_elem_of_In, enumerate_elem in H. specialize (H Hx). cbn beta iota in H.
    apply andb_true_iff in H as [E0%bool_decide_eq_true E1%bool_decide_eq_true]. rewrite N0 in E0. rewrite N1 in E1.
    replace (Z.to_nat (Z.of_nat i * 2)) with (2 * i)%nat in E0 by lia.
    replace (Z.to_nat (Z.of_nat i * 2 + 1)) with (2 * i + 1)%nat in E1 by lia.
    destruct Hi as [-> | ->]; congruence.
  - intros [-> _] [i x] Hx. apply list_elem_of_In in Hx. assert (∃ k : nat, i = Z.of_nat k) as [k ->].
    { unfold enumerate in Hx. apply list_elem_of_lookup in Hx as [k Hk]. rewrite list_lookup_imap in Hk.
      destruct (b !! k); [|done]. cbn in Hk. injection Hk as <- _. eauto. }
    apply enumerate_elem in Hx. destruct (hex_chars_lookup b k x Hx) as [H0 H1]. destruct (nibbles x) as [-> ->].
    replace (Z.to_nat (Z.of_nat k * 2)) with (2 * k)%nat by lia.
    replace (Z.to_nat (Z.of_nat k * 2 + 1)) with (2 * k + 1)%nat by lia. by rewrite H0, H1, !bool_decide_eq_true_2.
Qed.

Lemma spent_matches_eq c' c : spent_matches (spent_to_disk c') c = true → c' = c.
Proof.
  unfold spent_matches. cbn. rewrite !andb_true_iff, !lowercase_hex_matches_iff, !Z.eqb_eq, eqb_true_iff.
  destruct c' as [[] []], c as [[] []]; cbn. intuition congruence.
Qed.

Lemma zip_matches {A B} (f : A * B → bool) (g : B → A) l l' : length (g <$> l) = length l' → (∀ x y, f (g x, y) = true → x = y) →
  forallb f (zip (g <$> l) l') = true → l = l'.
Proof.
  intros Hl Hf. revert l' Hl. induction l as [|x l IH]; intros [|y l'] Hl; try done. rewrite fmap_cons. cbn.
  rewrite andb_true_iff. intros [->%Hf ->%IH]; [done|]. by injection Hl.
Qed.

(** The comparison with a stored record accepts that record only. *)
Lemma validated_matches v u' u : validated_block_undo_matches (tree_of v u') u = true → u' = u.
Proof.
  assert (disk_txs_match_candidate (block_undo_txs_to_disk (bu_txs u')) (bu_txs u) = true → bu_txs u' = bu_txs u) as Htxs.
  { unfold disk_txs_match_candidate, block_undo_txs_to_disk. rewrite andb_true_iff, Z.eqb_eq. intros [Hl H].
    eapply zip_matches; [|intros t t'|exact H]; [lia|]. cbn. rewrite andb_true_iff, Z.eqb_eq. intros [Hl' H'].
    destruct t as [sp], t' as [sp']. cbn in *. f_equal. eapply zip_matches; [|intros c' c|exact H']; [lia|]. apply spent_matches_eq. }
  unfold validated_block_undo_matches, tree_of. destruct (v =? 1); cbn; rewrite !andb_true_iff, !Z.eqb_eq;
    intros [[Hh Hp] Ht%Htxs]; destruct u', u; cbn in *; congruence.
Qed.
End trees.
