(* ===== verification/UndoEnvelope.v ===== *)
(** * Envelopes of undo records ([undo.rs])

    An undo record is stored with the hash of its block and a checksum.  The
    writer emits version 2; the reader also takes version 1.  It finds the
    fields by arithmetic on the length; JSON is parsed only to name the fault
    of a rejected file. *)

From Stdlib Require Import Ascii.
From stdpp Require Import pretty.
From S2P Require Import Prelude Bytes BTree Errors Constants Crypto WireRead CompactSize TxWire TxCodec Block.
From S2P Require Import Vault Suites Verify SigCache WorkerPool SigQueue Sighash Spend Htlc Stealth CovenantGenesis.
From S2P Require Import UtxoApply UtxoRules UtxoDeferred UtxoLedger BlockParse BlockWeight BlockDa BlockBasic ConnectBlock.
From S2P Require Import NodeText ChainState Undo StoreFiles Headers Base64 Uint128 StoreEnvelope UndoDisk.

(* rust: node/undo.rs 853-853 UNDO_INTEGRITY_PREFIX *)
Definition UNDO_INTEGRITY_PREFIX : string := "UNDO_INTEGRITY".
(* rust: node/undo.rs 857-858 UNDO_LEGACY_ERR *)
Definition UNDO_LEGACY_ERR : string :=
  "UNDO_INTEGRITY: legacy/unversioned undo; pre-devnet datadir reset and full resync required".
(* rust: node/undo.rs 859-859 UNDO_BLOCK_HASH_MISMATCH_ERR *)
Definition UNDO_BLOCK_HASH_MISMATCH_ERR : string := "UNDO_INTEGRITY: block hash mismatch".
(* rust: node/undo.rs 860-860 UNDO_CHECKSUM_MISMATCH_ERR *)
Definition UNDO_CHECKSUM_MISMATCH_ERR : string := "UNDO_INTEGRITY: checksum mismatch".
(* rust: node/undo.rs 861-862 UNDO_RECORD_NOT_OBJECT_ERR *)
Definition UNDO_RECORD_NOT_OBJECT_ERR : string := "UNDO_INTEGRITY: undo record is not a single JSON object".
(* rust: node/undo.rs 864-864 UNDO_ENVELOPE_VERSION_V1 *)
Definition UNDO_ENVELOPE_VERSION_V1 : Z := 1.
(* rust: node/undo.rs 865-865 UNDO_ENVELOPE_VERSION *)
Definition UNDO_ENVELOPE_VERSION : Z := 2.
(* rust: node/undo.rs 866-866 UNDO_ENVELOPE_DOMAIN_V1 *)
Definition UNDO_ENVELOPE_DOMAIN_V1 : bytes := ascii_bytes "RUBIN_BLOCK_UNDO_V1".
(* rust: node/undo.rs 867-867 UNDO_ENVELOPE_DOMAIN_V2 *)
Definition UNDO_ENVELOPE_DOMAIN_V2 : bytes := ascii_bytes "RUBIN_BLOCK_UNDO_V2".
(* rust: node/undo.rs 868-868 UNDO_HASH_HEX_LEN *)
Definition UNDO_HASH_HEX_LEN : Z := 64.
(* rust: node/undo.rs 876-877 UNDO_ENVELOPE_PREFIX_V1 *)
Definition UNDO_ENVELOPE_PREFIX_V1 : bytes := json_text "{'version':1,'block_hash':'".
(* rust: node/undo.rs 877-878 UNDO_ENVELOPE_PREFIX_V2 *)
Definition UNDO_ENVELOPE_PREFIX_V2 : bytes := json_text "{'version':2,'block_hash':'".
(* rust: node/undo.rs 878-878 UNDO_ENVELOPE_PAYLOAD_SEP *)
Definition UNDO_ENVELOPE_PAYLOAD_SEP : bytes := json_text "','payload_b64':'".
(* rust: node/undo.rs 879-879 UNDO_ENVELOPE_CHECKSUM_SEP *)
Definition UNDO_ENVELOPE_CHECKSUM_SEP : bytes := json_text "','checksum':'".
(* rust: node/undo.rs 880-880 UNDO_ENVELOPE_SUFFIX *)
Definition UNDO_ENVELOPE_SUFFIX : bytes := json_text "'}" ++ [x0a].
(* rust: node/undo.rs 885-890 UNDO_ENVELOPE_FRAME_BYTES *)
Definition UNDO_ENVELOPE_FRAME_BYTES : Z :=
  len UNDO_ENVELOPE_PREFIX_V2 + UNDO_HASH_HEX_LEN + len UNDO_ENVELOPE_PAYLOAD_SEP + len UNDO_ENVELOPE_CHECKSUM_SEP
  + UNDO_HASH_HEX_LEN + len UNDO_ENVELOPE_SUFFIX.
(* rust: node/undo.rs 905-906 UNDO_PAYLOAD_MAX_BYTES *)
Definition UNDO_PAYLOAD_MAX_BYTES : Z := 3 * ((UNDO_FILE_MAX_BYTES - UNDO_ENVELOPE_FRAME_BYTES) / 4).

Section undo_envelope.
Context `{HS : Sha3} `{HX : Hex} `{HU : UndoJson}.

(* rust: node/undo.rs 963-979 undo_envelope_checksum_for_version *)
Definition undo_envelope_checksum_for_version (version : Z) (block_hash payload : bytes) : bytes :=
  let domain := if version =? UNDO_ENVELOPE_VERSION_V1 then UNDO_ENVELOPE_DOMAIN_V1 else UNDO_ENVELOPE_DOMAIN_V2 in
  sha3_256 (domain ++ block_hash ++ be_encode 8 (len payload) ++ payload).

(* rust: node/undo.rs 997-1031 marshal_undo_envelope_version *)
Definition marshal_undo_envelope_version (version : Z) (block_hash : bytes) (undo : BlockUndo) : nres bytes :=
  payload ← (if version =? UNDO_ENVELOPE_VERSION_V1 then marshal_block_undo undo else marshal_block_undo_v2 undo);
  if UNDO_PAYLOAD_MAX_BYTES <? len payload
  then fail ("refusing to save undo: payload is " +:+ pretty (len payload) +:+ " bytes, class bound "
             +:+ pretty UNDO_PAYLOAD_MAX_BYTES)%string else
  raw ← map_err (λ e, "encode undo envelope: " +:+ e)%string
          (undo_envelope_to_vec version (ascii_bytes (hex_encode block_hash)) (base64_encode payload)
             (ascii_bytes (hex_encode (undo_envelope_checksum_for_version version block_hash payload))));
  let raw := raw ++ [x0a] in
  if UNDO_FILE_MAX_BYTES <? len raw
  then fail ("refusing to save undo: envelope is " +:+ pretty (len raw) +:+ " bytes, class bound "
             +:+ pretty UNDO_FILE_MAX_BYTES)%string else
  Ok raw.

(* rust: node/undo.rs 985-987 marshal_undo_envelope *)
Definition marshal_undo_envelope (block_hash : bytes) (undo : BlockUndo) : nres bytes :=
  marshal_undo_envelope_version UNDO_ENVELOPE_VERSION block_hash undo.

Definition is_json_space (b : byte) : bool := bool_decide (b ∈ [x20; x09; x0d; x0a]).

(** The first pass counts the keys [version] and looks for one that differs in
    case only; the second reads the version. *)
(* rust: node/undo.rs 1152-1187 classify_undo_envelope_failure *)
Definition classify_undo_envelope_failure (raw : bytes) : string :=
  let first := List.find (λ b, negb (is_json_space b)) raw in
  if match first with Some b => negb (bool_decide (b = x7b)) | None => false end && json_value_ok raw
  then UNDO_RECORD_NOT_OBJECT_ERR else
  match undo_version_keys raw with
  | None => UNDO_RECORD_NOT_OBJECT_ERR
  | Some (count, alias) =>
      if (1 <? count)%Z || ((count =? 1)%Z && alias)
      then UNDO_INTEGRITY_PREFIX +:+ ": envelope is not the canonical encoding" else
      if (count =? 0)%Z then UNDO_LEGACY_ERR else
      match undo_version_probe raw with
      | None => UNDO_RECORD_NOT_OBJECT_ERR
      | Some None => UNDO_LEGACY_ERR
      | Some (Some version) =>
          if (version =? UNDO_ENVELOPE_VERSION_V1)%Z || (version =? UNDO_ENVELOPE_VERSION)%Z
          then UNDO_INTEGRITY_PREFIX +:+ ": envelope is not the canonical encoding"
          else UNDO_INTEGRITY_PREFIX +:+ ": unsupported undo envelope version " +:+ pretty version
      end
  end%string.

(* rust: node/undo.rs 1106-1145 split_undo_envelope_versioned *)
Definition split_undo_envelope_versioned (raw : bytes) : nres (Z * bytes * bytes * bytes) :=
  if len raw <? UNDO_ENVELOPE_FRAME_BYTES then Err (classify_undo_envelope_failure raw) else
  let body := len raw - UNDO_ENVELOPE_FRAME_BYTES in
  '(version, prefix) ←
    (if bool_decide (UNDO_ENVELOPE_PREFIX_V1 `prefix_of` raw) then Ok (UNDO_ENVELOPE_VERSION_V1, UNDO_ENVELOPE_PREFIX_V1) else
     if bool_decide (UNDO_ENVELOPE_PREFIX_V2 `prefix_of` raw) then Ok (UNDO_ENVELOPE_VERSION, UNDO_ENVELOPE_PREFIX_V2) else
     Err (classify_undo_envelope_failure raw));
  let hash_at := len prefix in
  let payload_sep_at := hash_at + UNDO_HASH_HEX_LEN in
  let payload_at := payload_sep_at + len UNDO_ENVELOPE_PAYLOAD_SEP in
  let checksum_sep_at := payload_at + body in
  let checksum_at := checksum_sep_at + len UNDO_ENVELOPE_CHECKSUM_SEP in
  let suffix_at := checksum_at + UNDO_HASH_HEX_LEN in
  if negb (bool_decide (slice 0 hash_at raw = prefix))
     || negb (bool_decide (slice payload_sep_at payload_at raw = UNDO_ENVELOPE_PAYLOAD_SEP))
     || negb (bool_decide (slice checksum_sep_at checksum_at raw = UNDO_ENVELOPE_CHECKSUM_SEP))
     || negb (bool_decide (slice suffix_at (len raw) raw = UNDO_ENVELOPE_SUFFIX))
  then Err (classify_undo_envelope_failure raw) else
  let hash_hex := slice hash_at payload_sep_at raw in
  let checksum_hex := slice checksum_at suffix_at raw in
  if negb (valid_canonical_hash_hex hash_hex) || negb (valid_canonical_hash_hex checksum_hex)
  then fail (UNDO_INTEGRITY_PREFIX +:+ ": block_hash and checksum must be 64 lowercase hex characters")%string else
  Ok (version, hash_hex, slice payload_at checksum_sep_at raw, checksum_hex).

(* rust: node/undo.rs 1245-1286 base64_decode_canonical *)
Definition base64_decode_canonical (value : bytes) : nres bytes :=
  base64_decode_with (UNDO_INTEGRITY_PREFIX +:+ ": payload_b64 is not canonical padded base64")%string value.

(* rust: node/undo.rs 1048-1086 unmarshal_undo_envelope_disk *)
Definition unmarshal_undo_envelope_disk (block_hash raw : bytes) : nres ValidatedBlockUndo :=
  if UNDO_FILE_MAX_BYTES <? len raw
  then fail (UNDO_INTEGRITY_PREFIX +:+ ": undo record is " +:+ pretty (len raw) +:+ " bytes, class bound "
             +:+ pretty UNDO_FILE_MAX_BYTES)%string else
  '(version, hash_hex, payload_b64, checksum_hex) ← split_undo_envelope_versioned raw;
  if negb (bool_decide (hash_hex = ascii_bytes (hex_encode block_hash))) then Err UNDO_BLOCK_HASH_MISMATCH_ERR else
  payload ← base64_decode_canonical payload_b64;
  if UNDO_PAYLOAD_MAX_BYTES <? len payload
  then fail (UNDO_INTEGRITY_PREFIX +:+ ": decoded payload is " +:+ pretty (len payload) +:+ " bytes, class bound "
             +:+ pretty UNDO_PAYLOAD_MAX_BYTES)%string else
  stored ← map_err (λ _, UNDO_INTEGRITY_PREFIX +:+ ": checksum is not hexadecimal")%string
             (parse_hex32 "undo envelope checksum" (string_of_bytes checksum_hex));
  if negb (constant_time_eq32 stored (undo_envelope_checksum_for_version version block_hash payload))
  then Err UNDO_CHECKSUM_MISMATCH_ERR else
  if version =? UNDO_ENVELOPE_VERSION_V1 then decode_validated_block_undo_v1 payload else decode_validated_block_undo_v2 payload.

(* rust: node/undo.rs 1088-1090 unmarshal_undo_envelope *)
Definition unmarshal_undo_envelope (block_hash raw : bytes) : nres BlockUndo :=
  unmarshal_undo_envelope_disk block_hash raw ≫= block_undo_from_validated.
End undo_envelope.

(** ** The layout *)

Definition undo_prefix (version : Z) : bytes :=
  if version =? UNDO_ENVELOPE_VERSION_V1 then UNDO_ENVELOPE_PREFIX_V1 else UNDO_ENVELOPE_PREFIX_V2.
Definition undo_version (version : Z) : Prop := version = 1 ∨ version = 2.

Lemma undo_prefix_length v : len (undo_prefix v) = 27.
Proof. unfold undo_prefix. by destruct (_ =? _). Qed.

Section layout.
Context `{HS : Sha3} `{HX : Hex} `{HU : UndoJson}.

Definition undo_layout (version : Z) (h b c : bytes) : bytes :=
  undo_prefix version ++ h ++ UNDO_ENVELOPE_PAYLOAD_SEP ++ b ++ UNDO_ENVELOPE_CHECKSUM_SEP ++ c ++ UNDO_ENVELOPE_SUFFIX.

Lemma undo_layout_length v h b c : len h = 64 → len c = 64 → len (undo_layout v h b c) = UNDO_ENVELOPE_FRAME_BYTES + len b.
Proof.
  intros Hh Hc. unfold undo_layout, UNDO_ENVELOPE_FRAME_BYTES. change (len UNDO_ENVELOPE_PREFIX_V2) with 27.
  rewrite !length_app. pose proof (undo_prefix_length v). unfold UNDO_HASH_HEX_LEN. lia.
Qed.

Lemma split_versions raw v h b c : split_undo_envelope_versioned raw = Ok (v, h, b, c) →
  undo_version v ∧ valid_canonical_hash_hex h = true ∧ valid_canonical_hash_hex c = true ∧ raw = undo_layout v h b c.
Proof.
  unfold split_undo_envelope_versioned. set (P1 := UNDO_ENVELOPE_PREFIX_V1). set (P2 := UNDO_ENVELOPE_PREFIX_V2).
  set (M := UNDO_ENVELOPE_PAYLOAD_SEP). set (N := UNDO_ENVELOPE_CHECKSUM_SEP). set (S := UNDO_ENVELOPE_SUFFIX).
  set (F := UNDO_ENVELOPE_FRAME_BYTES). change UNDO_HASH_HEX_LEN with 64. intros H.
  destruct (len raw <? F) eqn:El; [done|]. apply bind_Ok in H as ([v' prefix] & Hv & H).
  assert (undo_version v' ∧ prefix = undo_prefix v') as [Hv' ->].
  { repeat case_match; try done; injection Hv as <- <-; (split; [by (left + right)|done]). }
  clear Hv. inv_res.
  repeat match goal with
  | H : _ || _ = false |- _ => apply orb_false_iff in H as [? ?]
  | H : negb _ = false |- _ => apply negb_false_iff in H
  | H : bool_decide _ = true |- _ => apply bool_decide_eq_true in H
  end. split; [done|]. split; [done|]. split; [done|].
  unfold undo_layout. set (P := undo_prefix v) in *. pose proof (undo_prefix_length v) as HP. fold P in HP.
  assert (F = 27 + 64 + len M + len N + 64 + len S) as HF by done.
  transitivity (slice 0 (len raw) raw); [symmetry; apply slice_all|].
  set (i1 := len P) in *. set (i2 := i1 + 64) in *. set (i3 := i2 + len M) in *. set (i4 := i3 + (len raw - F)) in *.
  rewrite (slice_app_split 0 i1) by lia. rewrite (slice_app_split i1 i2 (len raw)) by lia.
  rewrite (slice_app_split i2 i3 (len raw)) by lia. rewrite (slice_app_split i3 i4 (len raw)) by lia.
  rewrite (slice_app_split i4 (i4 + len N) (len raw)) by lia.
  rewrite (slice_app_split (i4 + len N) (i4 + len N + 64) (len raw)) by lia.
  fold M N S. congruence.
Qed.

Lemma version_of_prefix {E} v l (e : E) : undo_version v →
  (if bool_decide (UNDO_ENVELOPE_PREFIX_V1 `prefix_of` undo_prefix v ++ l) then Ok (UNDO_ENVELOPE_VERSION_V1, UNDO_ENVELOPE_PREFIX_V1) else
   if bool_decide (UNDO_ENVELOPE_PREFIX_V2 `prefix_of` undo_prefix v ++ l) then Ok (UNDO_ENVELOPE_VERSION, UNDO_ENVELOPE_PREFIX_V2) else
   Err e) = Ok (v, undo_prefix v).
Proof.
  intros [-> | ->].
  - rewrite bool_decide_eq_true_2 by by exists l. done.
  - rewrite bool_decide_eq_false_2 by (intros [k Hk]; by apply app_inj_1 in Hk as [Hk _]).
    by rewrite bool_decide_eq_true_2 by by exists l.
Qed.

Lemma split_run v h b c : undo_version v → valid_canonical_hash_hex h = true → valid_canonical_hash_hex c = true →
  split_undo_envelope_versioned (undo_layout v h b c) = Ok (v, h, b, c).
Proof.
  intros Hv Hh Hc. unfold split_undo_envelope_versioned.
  pose proof Hh as [Hlh _]%andb_true_iff. apply Z.eqb_eq in Hlh. pose proof Hc as [Hlc _]%andb_true_iff. apply Z.eqb_eq in Hlc.
  pose proof (undo_layout_length v h b c Hlh Hlc) as Hlen. rewrite Hlen. replace (_ <? _) with false by lia.
  pose proof (version_of_prefix v (h ++ UNDO_ENVELOPE_PAYLOAD_SEP ++ b ++ UNDO_ENVELOPE_CHECKSUM_SEP ++ c ++ UNDO_ENVELOPE_SUFFIX)
    (classify_undo_envelope_failure (undo_layout v h b c)) Hv) as Hver.
  change (undo_prefix v ++ _) with (undo_layout v h b c) in Hver. rewrite Hver. clear Hver. run_bind. change UNDO_HASH_HEX_LEN with 64.
  replace (UNDO_ENVELOPE_FRAME_BYTES + len b - UNDO_ENVELOPE_FRAME_BYTES) with (len b) by lia.
  assert (UNDO_ENVELOPE_FRAME_BYTES = 27 + 64 + len UNDO_ENVELOPE_PAYLOAD_SEP + len UNDO_ENVELOPE_CHECKSUM_SEP + 64
    + len UNDO_ENVELOPE_SUFFIX) as HF by done.
  pose proof (undo_prefix_length v) as HP. rewrite HF in *. clear HF. unfold undo_layout in *. set (P := undo_prefix v) in *.
  set (M := UNDO_ENVELOPE_PAYLOAD_SEP) in *. set (N := UNDO_ENVELOPE_CHECKSUM_SEP) in *. set (S := UNDO_ENVELOPE_SUFFIX) in *.
  set (raw := P ++ h ++ M ++ b ++ N ++ c ++ S) in *.
  assert (∀ l1 l2 l3 i j, raw = l1 ++ l2 ++ l3 → i = len l1 → j = len l1 + len l2 → slice i j raw = l2) as Hsl
    by (intros l1 l2 l3 i j ->; apply slice_mid).
  rewrite (Hsl [] P (h ++ M ++ b ++ N ++ c ++ S) 0 (len P)) by (done || (cbn; lia)).
  rewrite (Hsl P h (M ++ b ++ N ++ c ++ S) (len P) (len P + 64)) by (done || lia).
  rewrite (Hsl (P ++ h) M (b ++ N ++ c ++ S) (len P + 64) (len P + 64 + len M)) by (rewrite ?length_app; (by rewrite <- app_assoc) || lia).
  rewrite (Hsl (P ++ h ++ M) b (N ++ c ++ S) (len P + 64 + len M) (len P + 64 + len M + len b)) by (rewrite ?length_app; (by rewrite <- !app_assoc) || lia).
  rewrite (Hsl (P ++ h ++ M ++ b) N (c ++ S) (len P + 64 + len M + len b) (len P + 64 + len M + len b + len N)) by (rewrite ?length_app; (by rewrite <- !app_assoc) || lia).
  rewrite (Hsl (P ++ h ++ M ++ b ++ N) c S (len P + 64 + len M + len b + len N) (len P + 64 + len M + len b + len N + 64)) by (rewrite ?length_app; (by rewrite <- !app_assoc) || lia).
  rewrite (Hsl (P ++ h ++ M ++ b ++ N ++ c) S [] (len P + 64 + len M + len b + len N + 64)) by (rewrite ?length_app; (by rewrite app_nil_r, <- !app_assoc) || lia).
  rewrite !bool_decide_eq_true_2 by done. cbn [negb orb]. by rewrite Hh, Hc.
Qed.

(** ** The reader takes exactly what a writer writes *)

Definition payload_of (version : Z) (u : BlockUndo) : nres bytes :=
  if version =? UNDO_ENVELOPE_VERSION_V1 then marshal_block_undo u else marshal_block_undo_v2 u.
Definition envelope_of (version : Z) (h payload : bytes) : bytes :=
  undo_layout version (ascii_bytes (hex_encode h)) (base64_encode payload)
    (ascii_bytes (hex_encode (undo_envelope_checksum_for_version version h payload))).

Lemma checksum_length v h p : len (undo_envelope_checksum_for_version v h p) = 32.
Proof. unfold undo_envelope_checksum_for_version. by rewrite sha3_256_length. Qed.
Lemma hash_hex_valid h : len h = 32 → valid_canonical_hash_hex (ascii_bytes (hex_encode h)) = true.
Proof. intros Hh. apply valid_hash_hex_iff. by exists h. Qed.

Lemma marshal_iff v h u raw : undo_version v → marshal_undo_envelope_version v h u = Ok raw ↔
  ∃ payload, payload_of v u = Ok payload ∧ len payload ≤ UNDO_PAYLOAD_MAX_BYTES
    ∧ raw = envelope_of v h payload ∧ len raw ≤ UNDO_FILE_MAX_BYTES.
Proof.
  intros Hv. unfold marshal_undo_envelope_version. fold (payload_of v u). rewrite bind_Ok. f_equiv. intros payload.
  apply and_iff_compat_l. rewrite undo_envelope_to_vec_plain by (apply base64_encode_chars || apply hex_encode_plain).
  cbn [map_err]. run_bind. set (text := _ ++ [x0a]).
  assert (text = envelope_of v h payload) as Ht.
  { unfold text, envelope_of, undo_layout, UNDO_ENVELOPE_SUFFIX.
    assert (undo_prefix v = json_text "{'version':" ++ ascii_bytes (pretty v) ++ json_text ",'block_hash':'") as ->
      by (by destruct Hv as [-> | ->]).
    change UNDO_ENVELOPE_PAYLOAD_SEP with (json_text "','payload_b64':'").
    change UNDO_ENVELOPE_CHECKSUM_SEP with (json_text "','checksum':'"). by rewrite <- !app_assoc. }
  rewrite Ht. clear Ht text. destruct (_ <? _) eqn:E1; [split; [done|]; intros; lia|].
  destruct (UNDO_FILE_MAX_BYTES <? _) eqn:E2.
  - split; [done|]. intros (_ & -> & ?). lia.
  - split; [intros [= <-]; split; [lia|]; split; [done|lia]|by intros (_ & -> & _)].
Qed.

Lemma decode_iff v payload d : undo_version v → len payload < u64_max →
  (if v =? UNDO_ENVELOPE_VERSION_V1 then decode_validated_block_undo_v1 payload else decode_validated_block_undo_v2 payload) = Ok d
  ↔ ∃ u, undo_ok u ∧ payload_of v u = Ok payload ∧ d = tree_of v u.
Proof. intros [-> | ->] Hp; [by apply decode_v1_iff|by apply decode_v2_iff]. Qed.

Lemma payload_bound : UNDO_PAYLOAD_MAX_BYTES < u64_max.
Proof. done. Qed.

Lemma unmarshal_disk_iff h raw d : len h = 32 → unmarshal_undo_envelope_disk h raw = Ok d ↔
  ∃ v u, undo_version v ∧ undo_ok u ∧ marshal_undo_envelope_version v h u = Ok raw ∧ d = tree_of v u.
Proof.
  intros Hh. unfold unmarshal_undo_envelope_disk. split.
  - intros H. destruct (_ <? len raw) eqn:El; [done|]. apply bind_Ok in H as ([[[v hh] b] c] & Hs & H).
    apply split_versions in Hs as (Hv & _ & Hc & ->). inv_res.
    match goal with H : negb (bool_decide _) = false |- _ => apply negb_false_iff, bool_decide_eq_true in H as -> end.
    match goal with H : base64_decode_canonical _ = Ok _ |- _ => apply base64_canonical in H as -> end.
    apply valid_hash_hex_iff in Hc as (c' & Hc' & ->).
    match goal with H : parse_hex32 _ _ = Ok _ |- _ =>
      rewrite string_of_ascii_bytes, parse_hex32_encode in H by done; injection H as <- end.
    match goal with H : negb (constant_time_eq32 _ _) = false |- _ =>
      apply negb_false_iff, constant_time_eq32_iff in H as ->; [|pose proof (checksum_length v h x); lia] end.
    match goal with H : _ = Ok d |- _ => apply decode_iff in H as (u & Hu & Hp & ->); [|done|pose proof payload_bound; lia] end.
    exists v, u. split; [done|]. split; [done|]. split; [|done]. apply marshal_iff; [done|]. eexists. split; [done|].
    split; [lia|]. split; [done|]. lia.
  - intros (v & u & Hv & Hu & (payload & Hp & Hle & -> & Hl)%marshal_iff & ->); [|done].
    replace (_ <? _) with false by lia. unfold envelope_of.
    rewrite split_run by (done || (apply hash_hex_valid; (done || apply checksum_length))). run_bind.
    rewrite bool_decide_eq_true_2 by done. cbn [negb]. unfold base64_decode_canonical.
    rewrite (proj2 (base64_canonical _ _ payload)) by done. run_bind. replace (_ <? _) with false by lia.
    rewrite string_of_ascii_bytes, parse_hex32_encode by apply checksum_length. cbn [map_err]. run_bind.
    rewrite (proj2 (constant_time_eq32_iff _ _ eq_refl) eq_refl). cbn [negb]. apply decode_iff; [done|pose proof payload_bound; lia|eauto].
Qed.

Lemma unmarshal_iff h raw u : len h = 32 → unmarshal_undo_envelope h raw = Ok u ↔
  undo_ok u ∧ ∃ v, undo_version v ∧ marshal_undo_envelope_version v h u = Ok raw.
Proof.
  intros Hh. unfold unmarshal_undo_envelope. rewrite bind_Ok. setoid_rewrite unmarshal_disk_iff; [|done]. split.
  - intros (d & (v & u' & Hv & Hu & Hm & ->) & H). rewrite from_tree in H by done. injection H as <-. eauto.
  - intros (Hu & v & Hv & Hm). exists (tree_of v u). split; [by exists v, u|by apply from_tree].
Qed.

Lemma marshal_hash v1 v2 h1 h2 u1 u2 raw : len h1 = 32 → len h2 = 32 → undo_version v1 → undo_version v2 →
  marshal_undo_envelope_version v1 h1 u1 = Ok raw → marshal_undo_envelope_version v2 h2 u2 = Ok raw → h1 = h2.
Proof.
  intros Hh1 Hh2 Hv1 Hv2 (p1 & _ & _ & -> & _)%marshal_iff (p2 & _ & _ & He & _)%marshal_iff; [|done..].
  unfold envelope_of, undo_layout in He. apply app_inj_1 in He as [_ He].
  - apply app_inj_1 in He as [He _].
    + apply (f_equal string_of_bytes) in He. rewrite !string_of_ascii_bytes in He. by apply hex_encode_inj.
    + pose proof (hex_encode_len h1). pose proof (hex_encode_len h2). lia.
  - pose proof (undo_prefix_length v1). pose proof (undo_prefix_length v2). lia.
Qed.

(** Stored undo records. The record of a block is read from a file if and
    only if the file is, byte for byte, what one of the two versions of the
    writer produces for that block's hash and that record; so nothing but a
    writer's output is read, and a file belongs to one block and holds one
    record. *)
Theorem undo_envelope_canonical h raw u (Hh : len h = 32) :
  (unmarshal_undo_envelope h raw = Ok u ↔
     undo_ok u ∧ ∃ version, undo_version version ∧ marshal_undo_envelope_version version h u = Ok raw)
  ∧ (unmarshal_undo_envelope h raw = Ok u → ∀ h' u', len h' = 32 → unmarshal_undo_envelope h' raw = Ok u' → h' = h ∧ u' = u).
Proof.
  split; [by apply unmarshal_iff|]. intros H h' u' Hh' H'.
  pose proof H as (_ & v & Hv & Hm)%unmarshal_iff; [|done]. pose proof H' as (_ & v' & Hv' & Hm')%unmarshal_iff; [|done].
  assert (h' = h) as -> by (by eapply (marshal_hash v' v h' h)). split; [done|]. rewrite H in H'. by injection H'.
Qed.
End layout.

(** ** An instance of the parameter

    Any reversible encoding of the trees will do for [serde_json]. *)

Definition spent_tuple (s : SpentUndoDisk) : string * Z * Z * Z * string * Z * bool :=
  (sd_txid s, sd_vout s, sd_value s, sd_covenant_type s, sd_covenant_data s, sd_creation_height s, sd_created_by_coinbase s).
Definition tuple_spent (t : string * Z * Z * Z * string * Z * bool) : SpentUndoDisk :=
  let '(a, b, c, d, e, f, g) := t in mkSpentUndoDisk a b c d e f g.

Definition toy_tree : Type := bool * Z * Z * list (list (string * Z * Z * Z * string * Z * bool)).
Definition txs_tree (txs : list TxUndoDisk) : list (list (string * Z * Z * Z * string * Z * bool)) :=
  (λ t, spent_tuple <$> td_spent t) <$> txs.
Definition tree_txs (l : list (list (string * Z * Z * Z * string * Z * bool))) : list TxUndoDisk :=
  (λ t, mkTxUndoDisk (tuple_spent <$> t)) <$> l.

Lemma tree_txs_tree txs : tree_txs (txs_tree txs) = txs.
Proof.
  unfold tree_txs, txs_tree. rewrite <- list_fmap_compose. induction txs as [|[spent] txs IH]; [done|].
  rewrite fmap_cons, IH. f_equal. cbn. f_equal. rewrite <- list_fmap_compose.
  induction spent as [|[] spent IHs]; [done|]. by rewrite fmap_cons, IHs.
Qed.

Fixpoint pos_bytes (p : positive) : bytes :=
  match p with xH => [] | xO p => x00 :: pos_bytes p | xI p => x01 :: pos_bytes p end.
Fixpoint bytes_pos (b : bytes) : option positive :=
  match b with [] => Some xH | x00 :: b => xO <$> bytes_pos b | x01 :: b => xI <$> bytes_pos b | _ => None end.
Lemma bytes_pos_bytes p : bytes_pos (pos_bytes p) = Some p.
Proof. induction p as [p IH|p IH|]; cbn; rewrite ?IH; done. Qed.

Definition toy_write (t : toy_tree) : bytes := pos_bytes (encode t).
Definition toy_read (raw : bytes) : option toy_tree := bytes_pos raw ≫= decode.
Lemma toy_read_write t : toy_read (toy_write t) = Some t.
Proof. unfold toy_read, toy_write. rewrite bytes_pos_bytes. cbn. apply decode_encode. Qed.

Definition spent_disk_rangeb (s : SpentUndoDisk) : bool :=
  let u w z := (0 <=? z) && (z <? 2 ^ w) in
  u 32 (sd_vout s) && u 64 (sd_value s) && u 16 (sd_covenant_type s) && u 64 (sd_creation_height s).
Lemma spent_disk_rangeb_iff s : spent_disk_rangeb s = true ↔ spent_disk_range s.
Proof. unfold spent_disk_rangeb, spent_disk_range, is_u. rewrite !andb_true_iff, !Z.leb_le, !Z.ltb_lt. tauto. Qed.

Definition toy_typed (raw : bytes) : option BlockUndoDiskRaw :=
  '(_, h, _, txs) ← toy_read raw;
  let txs := tree_txs txs in
  if (0 <=? h) && (h <? 2 ^ 64) && forallb (λ t, forallb spent_disk_rangeb (td_spent t)) txs
  then Some (mkBlockUndoDiskRaw h txs) else None.
Definition toy_probe (raw : bytes) : option UndoSupplyToken :=
  '(one, _, p, _) ← toy_read raw;
  Some (if one : bool then (if (0 <=? p) && (p <? 2 ^ 64) then Unsigned p else Other)
        else SupplyString (to_canonical_decimal p) true).
Definition toy_to_vec (version : Z) (hash payload_b64 checksum : bytes) : nres bytes :=
  Ok (json_text "{'version':" ++ ascii_bytes (pretty version) ++ json_text ",'block_hash':'" ++ hash
      ++ json_text "','payload_b64':'" ++ payload_b64 ++ json_text "','checksum':'" ++ checksum ++ json_text "'}").

Lemma forallb_range txs : forallb (λ t, forallb spent_disk_rangeb (td_spent t)) txs = true ↔
  Forall (λ t, Forall spent_disk_range (td_spent t)) txs.
Proof.
  rewrite forallb_forall, list.Forall_forall. setoid_rewrite list_elem_of_In. apply forall_proper. intros t.
  rewrite forallb_forall, list.Forall_forall. setoid_rewrite spent_disk_rangeb_iff. by setoid_rewrite list_elem_of_In.
Qed.

Lemma toy_typed_write one h p txs : is_u 64 h → Forall (λ t, Forall spent_disk_range (td_spent t)) txs →
  toy_typed (toy_write (one, h, p, txs_tree txs)) = Some (mkBlockUndoDiskRaw h txs).
Proof.
  intros Hh Ht. unfold toy_typed. rewrite toy_read_write. cbn [mbind option_bind]. rewrite tree_txs_tree.
  rewrite (proj2 (forallb_range txs)) by done. unfold is_u in Hh. by replace (_ && _) with true by lia.
Qed.

Lemma txs_disk_ok_range txs : txs_disk_ok txs → Forall (λ t, Forall spent_disk_range (td_spent t)) txs.
Proof. intros Ht. eapply list.Forall_impl; [exact Ht|]. intros t Hs. eapply list.Forall_impl; [exact Hs|]. by intros s (_ & _ & ?). Qed.

#[refine] Definition toy_undo_json : UndoJson := {|
  undo_writes_v1 d := [toy_write (true, bd_block_height d, bd_previous_already_generated d, txs_tree (bd_txs d))];
  undo_writes_v2 d := [toy_write (false, b2_block_height d, b2_previous_already_generated d, txs_tree (b2_txs d))];
  undo_payload_shape _ := true; undo_supply_probe := toy_probe; undo_typed := toy_typed;
  undo_envelope_to_vec := toy_to_vec; undo_envelope_to_vec_plain _ _ _ _ _ _ _ := eq_refl;
  json_value_ok _ := true; undo_version_keys _ := None; undo_version_probe _ := None |}.
Proof.
  - intros d Hh Hp Ht. cbn [mjoin list_join]. rewrite app_nil_r. unfold toy_probe. rewrite toy_read_write.
    rewrite toy_typed_write by (done || by apply txs_disk_ok_range). unfold is_u in Hp. cbn [mbind option_bind].
    by replace (_ && _) with true by lia.
  - intros d Hh Hp Ht. cbn [mjoin list_join]. rewrite app_nil_r. unfold toy_probe. rewrite toy_read_write.
    rewrite toy_typed_write by (done || by apply txs_disk_ok_range). done.
  - intros raw v H. unfold toy_probe in H. destruct (toy_read raw) as [[[[[] h] p] txs]|]; cbn in H; [|done..].
    destruct (_ && _) eqn:E; [|done]. injection H as <-. unfold is_u. lia.
  - intros raw d H. unfold toy_typed in H. destruct (toy_read raw) as [[[[one h] p] txs]|]; cbn [mbind option_bind] in H; [|done].
    destruct (_ && _) eqn:E; [|done]. injection H as <-. apply andb_true_iff in E as [E Ht]. apply forallb_range in Ht.
    split; [unfold is_u; cbn; lia|done].
Defined.

Definition demo_undo : BlockUndo :=
  mkBlockUndo 5 1000 [mkTxUndo [mkSpentUndo (mkOutpoint (replicate 32 x07) 1) (mkUtxoEntry 9 0 [x01; x02] 3 true)]; mkTxUndo []].

Lemma demo_undo_ok : undo_ok (HX := toy_hex) demo_undo.
Proof. repeat (split || constructor); done. Qed.

Lemma demo_undo_file_written :
  (if marshal_undo_envelope_version (HS := toy_sha3) (HX := toy_hex) (HU := toy_undo_json) 2 (replicate 32 x05) demo_undo
   then true else false) = true.
Proof. vm_compute. reflexivity. Qed.

Lemma undo_envelope_canonical_witness : ∃ raw,
  marshal_undo_envelope_version (HS := toy_sha3) (HX := toy_hex) (HU := toy_undo_json) 2 (replicate 32 x05) demo_undo = Ok raw
  ∧ unmarshal_undo_envelope (HS := toy_sha3) (HX := toy_hex) (HU := toy_undo_json) (replicate 32 x05) raw = Ok demo_undo.
Proof.
  pose proof demo_undo_file_written as Hok. destruct (marshal_undo_envelope_version _ _ _) as [raw|e] eqn:E; [|discriminate Hok].
  exists raw. split; [reflexivity|].
  destruct (undo_envelope_canonical (HS := toy_sha3) (HX := toy_hex) (HU := toy_undo_json) (replicate 32 x05) raw demo_undo
    eq_refl) as [[_ H] _]. apply H. split; [exact demo_undo_ok|]. exists 2. split; [right; reflexivity|exact E].
Defined.
