(* ===== verification/StoreCommit.v ===== *)
(** * Committing a block to the store ([blockstore.rs])

    The files of a block are written before the index that names it: block and
    header, undo record, index.  The operations are programs over the file
    system of [AtomicWrite.v]; the index in memory is that of [BlockStore.v]. *)

From Stdlib Require Import Ascii.
From stdpp Require Import pretty.
From S2P Require Import Prelude Bytes BTree Errors Constants Crypto WireRead CompactSize TxWire TxCodec Block Pow.
From S2P Require Import Vault Suites Verify SigCache WorkerPool SigQueue Sighash Spend Htlc Stealth CovenantGenesis.
From S2P Require Import UtxoApply UtxoRules UtxoDeferred UtxoLedger BlockParse BlockWeight BlockDa BlockBasic ConnectBlock.
From S2P Require Import NodeText ChainState Undo BlockStore StoreFiles AtomicWrite Base64 Uint128 StoreEnvelope UndoDisk UndoEnvelope.

(** [serde_json] on [BlockStoreIndexDisk]: what it writes reads back, with a
    line feed after it. *)
Class IndexJson : Type := {
  index_to_vec_pretty : Z → list string → nres bytes;
  index_from_slice : bytes → nres (Z * list string);
  index_reads : ∀ version canonical, is_u 32 version → Forall plain_string canonical →
    ∃ payload, index_to_vec_pretty version canonical = Ok payload ∧ index_from_slice (payload ++ [x0a]) = Ok (version, canonical);
}.

(* rust: node/blockstore.rs 28-28 BLOCK_STORE_INDEX_VERSION *)
Definition BLOCK_STORE_INDEX_VERSION : Z := 1.

(* rust: node/blockstore.rs 69-75 BlockStorePaths *)
Record BlockStorePaths : Type := mkBlockStorePaths { bp_index : Path; bp_blocks : string; bp_headers : string; bp_undo : string }.

(* rust: node/blockstore.rs 78-89 new *)
Definition BlockStorePaths_new (root : string) : nres BlockStorePaths :=
  if bool_decide (root = "") then fail "blockstore root is required"%string else
  let join leaf := (root +:+ "/" +:+ leaf)%string in
  Ok (mkBlockStorePaths (mkPath root "index.json") (join "blocks") (join "headers") (join "undo")).

(* rust: node/blockstore.rs 1183-1188 existing_content_differs *)
Definition existing_content_differs (path : Path) : string :=
  ("file already exists with different content: " +:+ path_display path)%string.
(* rust: node/blockstore.rs 1189-1194 is_over_bound_refusal *)
Definition is_over_bound_refusal (error : IoError) : bool :=
  bool_decide (io_kind error = IoInvalidData)
  && bool_decide (chars STORE_FILE_TOO_LARGE_PREFIX `prefix_of` chars (io_text error)).

Section commit.
Context `{HS : Sha3} `{HX : Hex} `{HU : UndoJson} `{HE : EnvelopeJson} `{HI : IndexJson}.
(** The [Debug] text of a string. *)
Context (debug_str : string → string).

Definition io_of_fs (e : FsError) : IoError := mkIoError (if decide (fs_kind e = FsNotFound) then IoNotFound else IoOther) (fs_text e).

(** The names are synthesized from hashes; the guard on names lets them pass. *)
(* rust: node/io_utils.rs 171-182 read_file_from_dir *)
Definition read_file_at (path : Path) (max_bytes : Z) : Prog (result IoError bytes) :=
  r ← call (ReadAll path);
  Ret (raw ← map_err io_of_fs r;
       default (Err (mkIoError IoOther "")) (read_capped (length raw + 2) (mkReader raw []) (p_leaf path) (len raw) max_bytes)).
(* rust: node/io_utils.rs 223-235 read_file_by_path *)
Definition read_file_by_path (path : Path) (max_bytes : Z) : Prog (result IoError bytes) := read_file_at path max_bytes.

(* rust: node/blockstore.rs 1252-1268 handle_link_eexist *)
Definition handle_link_eexist (path : Path) (content : bytes) (read_existing : Path → Prog (result IoError bytes)) :
    Prog (nres unit) :=
  r ← read_existing path;
  Ret (existing ← map_err (λ error, if is_over_bound_refusal error then existing_content_differs path
                                    else "read existing " +:+ path_display path +:+ ": " +:+ io_text error)%string r;
       if negb (bool_decide (existing = content)) then Err (existing_content_differs path) else Ok ()).

(* rust: node/blockstore.rs 1203-1250 write_file_if_absent_with_typed *)
Definition write_file_if_absent_with_typed (path : Path) (content : bytes)
    (read_existing : Path → Prog (result IoError bytes)) : Prog (result AtomicWriteError unit) :=
  let before := atomic_write_error_before (path_display path) CreateIfAbsent in
  let create := write_file_create_if_absent path content (handle_link_eexist path content read_existing) in
  _ ←? Ret (validate_atomic_write_destination path CreateIfAbsent);
  r ← read_existing path;
  match r with
  | Ok existing =>
      if negb (bool_decide (existing = content)) then Ret (Err (before (existing_content_differs path))) else
      r ← sync_atomic_parent (p_dir path);
      Ret (map_err (atomic_write_error_after (path_display path) CreateIfAbsent) r)
  | Err error =>
      if io_not_found error then create else
      if is_over_bound_refusal error then Ret (Err (before (existing_content_differs path))) else
      Ret (Err (before ("read existing " +:+ path_display path +:+ ": " +:+ io_text error)%string))
  end.

(* rust: node/blockstore.rs 1177-1182 write_file_if_absent_typed *)
Definition write_file_if_absent_typed (path : Path) (content : bytes) : Prog (result AtomicWriteError unit) :=
  let bound := len content in
  write_file_if_absent_with_typed path content (λ candidate, read_file_by_path candidate bound).

Context (paths : BlockStorePaths).

Definition block_path (h : bytes) : Path := mkPath (bp_blocks paths) (hex_encode h +:+ ".bin")%string.
Definition header_path (h : bytes) : Path := mkPath (bp_headers paths) (hex_encode h +:+ ".bin")%string.
Definition undo_path (h : bytes) : Path := mkPath (bp_undo paths) (hex_encode h +:+ ".json")%string.

(* rust: node/blockstore.rs 336-349 validate_header_matches_hash *)
Definition validate_header_matches_hash (header_bytes block_hash_bytes : bytes) : nres unit :=
  if negb (len header_bytes =? BLOCK_HEADER_BYTES)
  then fail ("invalid header length: " +:+ pretty (len header_bytes))%string else
  computed_hash ← stringify (block_hash header_bytes);
  if negb (bool_decide (computed_hash = block_hash_bytes)) then fail "header hash mismatch"%string else Ok ().

(* rust: node/blockstore.rs 365-382 persist_block_bytes_typed *)
Definition persist_block_bytes_typed (block_hash_bytes header_bytes block_bytes : bytes) : Prog (result AtomicWriteError unit) :=
  let path := block_path block_hash_bytes in
  _ ←? Ret (map_err (atomic_write_error_before (path_display path) CreateIfAbsent)
              (validate_header_matches_hash header_bytes block_hash_bytes));
  _ ←? write_file_if_absent_typed path block_bytes;
  write_file_if_absent_typed (header_path block_hash_bytes) header_bytes.

(* rust: node/blockstore.rs 674-685 store_block_typed *)
Definition store_block_typed (block_hash_bytes header_bytes block_bytes : bytes) : Prog (result AtomicWriteError unit) :=
  persist_block_bytes_typed block_hash_bytes header_bytes block_bytes.

(* rust: node/blockstore.rs 819-825 put_undo_typed *)
Definition validate_existing (path : Path) (block_hash_bytes : bytes) (undo : BlockUndo) (existing_raw : bytes) : nres unit :=
  existing ← unmarshal_undo_envelope_disk block_hash_bytes existing_raw;
  if negb (validated_block_undo_matches existing undo) then Err (existing_content_differs path) else Ok ().

(* rust: node/blockstore.rs 765-861 put_undo_typed *)
Definition put_undo_typed (block_hash_bytes : bytes) (undo : BlockUndo) : Prog (result AtomicWriteError unit) :=
  let path := undo_path block_hash_bytes in
  let before := atomic_write_error_before (path_display path) CreateIfAbsent in
  let validate_existing := validate_existing path block_hash_bytes undo in
  raw ←? Ret (map_err before (marshal_undo_envelope block_hash_bytes undo));
  _ ←? Ret (map_err before (check_store_save_bound (path_display path) (len raw) UNDO_FILE_MAX_BYTES));
  _ ←? Ret (validate_atomic_write_destination path CreateIfAbsent);
  let create := write_file_create_if_absent path raw
                  (r ← read_file_at path UNDO_FILE_MAX_BYTES;
                   Ret (existing_raw ← map_err (λ error, "read undo " +:+ path_display path +:+ ": " +:+ io_text error)%string r;
                        validate_existing existing_raw)) in
  r ← read_file_at path UNDO_FILE_MAX_BYTES;
  match r with
  | Ok existing_raw =>
      _ ←? Ret (map_err before (validate_existing existing_raw));
      r ← sync_atomic_parent (p_dir path);
      Ret (map_err (atomic_write_error_after (path_display path) CreateIfAbsent) r)
  | Err error =>
      if io_not_found error then create else
      Ret (Err (before ("read undo " +:+ path_display path +:+ ": " +:+ io_text error)%string))
  end.

(** ** The index *)

(* rust: node/blockstore.rs 1140-1163 save_blockstore_index_serializable_typed *)
Definition index_bytes (canonical : list string) : result AtomicWriteError bytes :=
  let before := atomic_write_error_before (path_display (bp_index paths)) Overwrite in
  payload ← map_err (λ error, before ("encode blockstore index: " +:+ error)%string)
              (index_to_vec_pretty BLOCK_STORE_INDEX_VERSION canonical);
  map_err before (marshal_store_envelope STORE_ENVELOPE_BLOCK_INDEX (payload ++ [x0a])).
(* rust: node/blockstore.rs 1140-1163 save_blockstore_index_serializable_typed *)
Definition save_blockstore_index_typed (canonical : list string) : Prog (result AtomicWriteError unit) :=
  raw ←? Ret (index_bytes canonical);
  write_file_atomic_typed (bp_index paths) raw.

(* rust: node/blockstore.rs 1081-1106 load_blockstore_index *)
Definition decode_blockstore_index (raw : bytes) : nres (list string) :=
  raw ← open_store_envelope STORE_ENVELOPE_BLOCK_INDEX raw;
  '(version, canonical) ← map_err (λ e, "decode blockstore index " +:+ path_display (bp_index paths) +:+ ": " +:+ e)%string
                            (index_from_slice raw);
  if negb (version =? BLOCK_STORE_INDEX_VERSION)
  then fail ("unsupported blockstore index version: " +:+ pretty version)%string else
  _ ← try_fold (λ _ p, if negb (valid_canonical_hash_hex (ascii_bytes p.2))
                       then fail ("canonical[" +:+ pretty p.1 +:+ "]: not 64 lowercase hex characters: " +:+ debug_str p.2)%string
                       else Ok ()) () (enumerate canonical);
  Ok canonical.

(** The file of the index is read without a bound. *)
(* rust: node/blockstore.rs 1056-1108 load_blockstore_index *)
Definition load_blockstore_index : Prog (nres (list string)) :=
  r ← call (ReadAll (bp_index paths));
  Ret (raw ← map_err (λ e, "read blockstore index " +:+ path_display (bp_index paths) +:+ ": " +:+ fs_text e)%string r;
       decode_blockstore_index raw).

(** The memory's part is [BlockStore.set_canonical_tip_typed]. *)
(* rust: node/blockstore.rs 395-427 set_canonical_tip_typed *)
Definition set_canonical_tip_on_disk (self : BlockStore) (height : Z) (block_hash_bytes : bytes) :
    Prog (result AtomicWriteError unit * BlockStore) :=
  let hash_hex := hex_encode block_hash_bytes in
  let set o := set_canonical_tip_typed o height block_hash_bytes self in
  if (len (bs_canonical self) <? height) || bool_decide (bs_canonical self !! Z.to_nat height = Some hash_hex)
  then Ret (set (Ok ())) else
  o ← save_blockstore_index_typed (truncate height (bs_canonical self) ++ [hash_hex]);
  Ret (set o).

(* rust: node/blockstore.rs 223-328 commit_canonical_block_typed *)
Definition commit_canonical_block_typed (self : BlockStore) (height : Z) (block_hash_bytes header_bytes block_bytes : bytes)
    (undo : BlockUndo) : Prog (result AtomicWriteError unit * BlockStore) :=
  let before := atomic_write_error_before (path_display (bp_index paths)) Overwrite in
  let files := (_ ←? persist_block_bytes_typed block_hash_bytes header_bytes block_bytes; put_undo_typed block_hash_bytes undo) in
  if negb (bu_block_height undo =? height) then
    Ret (Err (before ("undo block_height mismatch: commit height=" +:+ pretty height +:+ ", undo.block_height="
                      +:+ pretty (bu_block_height undo))%string), self) else
  let current_len := len (bs_canonical self) in
  if current_len <? height then
    Ret (Err (before ("commit_canonical_block height gap: height=" +:+ pretty height +:+ " > canonical_len="
                      +:+ pretty current_len)%string), self) else
  if (height <? current_len) && bool_decide (canonical_hash self height = Some block_hash_bytes)
  then (r ← files; Ret (r, self)) else
  r ← files;
  match r with
  | Err e => Ret (Err e, self)
  | Ok _ => set_canonical_tip_on_disk self height block_hash_bytes
  end.

(* rust: node/blockstore.rs 863-874 get_undo *)
Definition get_undo (block_hash_bytes : bytes) : Prog (nres BlockUndo) :=
  r ← read_file_at (undo_path block_hash_bytes) UNDO_FILE_MAX_BYTES;
  Ret (raw ← map_err (λ e, "read undo " +:+ path_display (undo_path block_hash_bytes) +:+ ": " +:+ io_text e)%string r;
       unmarshal_undo_envelope block_hash_bytes raw).
End commit.

(** ** Files written if absent *)

Section writes.
Context `{HX : Hex} `{HU : UndoJson} `{HS : Sha3}.

(** What a read shows of a whole file. *)
Lemma wp_read path max w0 old (I : Disk → Prop) : 0 ≤ max < isize_max → I w0 → stored w0 (live w0 path) old →
  wp I (read_file_at path max) (λ r w, w = w0 ∧ match r with
    | Ok raw => old = Some raw
    | Err e => io_not_found e = true → old = None
    end) w0.
Proof.
  intros Hm HI Hs. unfold read_file_at. apply wp_bind, wp_call; [done|]. intros r w' Hr%fs_step_outcome. cbn [outcome] in Hr.
  destruct Hr as [-> Hr]. split; [done|]. split; [done|]. split; [done|]. destruct r as [raw|e]; cbn [map_err]; run_bind.
  - rewrite (stored_content _ _ _ Hs) in Hr. subst old. rewrite read_capped_ok; [|done|lia|constructor|by cbn].
    cbn [rd_data default]. by destruct (max <? len raw).
  - unfold io_not_found, io_of_fs. cbn. case_decide as Hk; [|done]. intros _. rewrite (Hr Hk) in Hs. exact Hs.
Qed.

Lemma quiet_read dir path max : quiet dir (read_file_at path max).
Proof. by cbn. Qed.

(** Syncing the directory makes what is there permanent. *)
Lemma wp_settle path c w0 w : frame_but (own_names (p_dir path)) w0 w → path ∉ own_names (p_dir path) → durable w (p_dir path) = true →
  stored w (live w path) c →
  wp (frame_but (own_names (p_dir path)) w0) (sync_atomic_parent (p_dir path)) (λ r w, is_ok r = true → settled w path c) w.
Proof.
  intros Hf Hne Hd Hs. eapply wp_mono; [intros w' H; exact (transitivity Hf H)| |exact (wp_sync _ w (p_dir path) w (reflexivity w))].
  intros r w' Hf' Hr Hok. destruct (frame_but_use _ path _ _ Hf' Hne) as (He & Hl & Hdur & _).
  apply kept_settled; [|by rewrite Hdur]. rewrite <- Hl in Hs. split; [by eapply stored_extends|].
  apply synced_names; [by apply Hr|by eapply stored_extends].
Qed.

Lemma tidy_live w p : tidy w p → ∃ c, stored w (live w p) c.
Proof. intros [_ Ht]. destruct (Ht (d_live (dir_of w (p_dir p))) ltac:(left)) as (c & _ & Hs). by exists c. Qed.
Lemma tidy_frame p w w' : frame p w w' → tidy w p → tidy w' p.
Proof. intros Hf [Hd Hh]. split; [|by eapply holds_frame]. by destruct Hf as (_ & _ & -> & _). Qed.

Definition put_frame (path : Path) : Disk → Disk → Prop := frame_but (path :: own_names (p_dir path)).

(** Creating a file that is not there. *)
Lemma wp_create path data resolve w0 : quiet (p_dir path) resolve → tidy w0 path → stored w0 (live w0 path) None →
  wp (put_frame path w0) (write_file_create_if_absent path data resolve)
    (λ r w, r = Ok () → settled w path (Some data)) w0.
Proof.
  intros Hq [Hd Ht] Hs. eapply wp_mono; [| |exact (wp_write path data CreateIfAbsent resolve w0 (λ _, True) None Hq Ht Hs)].
  - by intros w [Hf _].
  - intros r w [Hf _] HQ ->. apply kept_settled; [exact HQ|]. by rewrite (frame_but_durable _ _ _ _ Hf).
Qed.

(** A file that is there: its directory is synced. *)
Lemma wp_present path raw text w0 : path ∉ own_names (p_dir path) → durable w0 (p_dir path) = true → stored w0 (live w0 path) (Some raw) →
  wp (put_frame path w0)
    (r ← sync_atomic_parent (p_dir path); Ret (map_err (atomic_write_error_after text CreateIfAbsent) r))
    (λ r w, r = Ok () → settled w path (Some raw)) w0.
Proof.
  intros Hne Hd Hs. assert (∀ w, frame_but (own_names (p_dir path)) w0 w → put_frame path w0 w) as Hmono
    by (intros w; apply frame_but_mono; by apply list_subseteq_cons).
  apply wp_bind. eapply wp_mono; [exact Hmono| |exact (wp_settle path (Some raw) w0 w0 (reflexivity w0) Hne Hd Hs)].
  intros [[]|e] w Hf Hset; (split; [by apply Hmono|]); [|done]. intros _. by apply Hset.
Qed.

Lemma put_frame_refl path w : put_frame path w w.
Proof. unfold put_frame. reflexivity. Qed.

Lemma wp_write_file_if_absent path content w0 : len content < isize_max → tidy w0 path →
  wp (put_frame path w0) (write_file_if_absent_typed path content) (λ r w, r = Ok () → settled w path (Some content)) w0.
Proof.
  intros Hl Ht. unfold write_file_if_absent_typed, write_file_if_absent_with_typed. pose proof (put_frame_refl path w0) as H0.
  apply wp_try. split; [done|]. destruct (validate_atomic_write_destination path CreateIfAbsent) as [[]|e] eqn:Hv; [|done].
  pose proof (valid_destination _ _ Hv) as Hne. destruct (tidy_live w0 path Ht) as [old Hs].
  apply wp_bind. unfold read_file_by_path. eapply wp_mono; [intros ? H; exact H| |].
  2: { eapply wp_read; [|exact H0|exact Hs]. lia. }
  intros r w _ [-> Hr]. destruct r as [existing|e].
  - subst old. case_bool_decide as He; cbn [negb]; [|by split]. subst existing. by apply wp_present; [|apply Ht|].
  - destruct (io_not_found e) eqn:En.
    + rewrite (Hr eq_refl) in Hs. by apply wp_create.
    + by destruct (is_over_bound_refusal e).
Qed.

Context (paths : BlockStorePaths).

Definition undo_stored (h : bytes) (undo : BlockUndo) (raw : bytes) : Prop := unmarshal_undo_envelope h raw = Ok undo.

Lemma undo_file_bound : 0 ≤ UNDO_FILE_MAX_BYTES < isize_max.
Proof. done. Qed.

Lemma validate_existing_stored path h undo raw b : len h = 32 → validate_existing path h undo raw = Ok b → undo_stored h undo raw.
Proof.
  intros Hh. unfold validate_existing. intros H. inv_res.
  match goal with H : unmarshal_undo_envelope_disk _ _ = Ok _ |- _ => rename H into Hd end. unfold undo_stored, unmarshal_undo_envelope.
  rewrite Hd. run_bind. apply unmarshal_disk_iff in Hd as (v & u & Hv & Hu & _ & ->); [|done].
  match goal with H : negb _ = false |- _ => apply negb_false_iff, validated_matches in H as <- end. by apply from_tree.
Qed.

Lemma wp_put_undo h undo w0 : len h = 32 → undo_ok undo → tidy w0 (undo_path paths h) →
  wp (put_frame (undo_path paths h) w0) (put_undo_typed paths h undo)
    (λ r w, r = Ok () → ∃ raw, undo_stored h undo raw ∧ settled w (undo_path paths h) (Some raw)) w0.
Proof.
  intros Hh Hu Ht. unfold put_undo_typed. set (path := undo_path paths h) in *. pose proof (put_frame_refl path w0) as H0.
  apply wp_try. split; [done|]. destruct (marshal_undo_envelope h undo) as [raw|e] eqn:Hm; cbn [map_err]; [|done].
  assert (undo_stored h undo raw) as Hraw.
  { apply unmarshal_iff; [done|]. split; [done|]. exists UNDO_ENVELOPE_VERSION. split; [by right|exact Hm]. }
  apply wp_try. split; [done|]. destruct (check_store_save_bound _ _ _) as [[]|e]; cbn [map_err]; [|done].
  apply wp_try. split; [done|]. destruct (validate_atomic_write_destination path CreateIfAbsent) as [[]|e] eqn:Hv; [|done].
  pose proof (valid_destination _ _ Hv) as Hne. destruct (tidy_live w0 path Ht) as [old Hs].
  apply wp_bind. eapply wp_mono; [intros ? H; exact H| |by apply (wp_read path UNDO_FILE_MAX_BYTES w0 old _ undo_file_bound)].
  intros r w _ [-> Hr]. destruct r as [existing|e].
  - subst old. apply wp_try. split; [done|]. destruct (validate_existing path h undo existing) as [b|e] eqn:Hx; cbn [map_err]; [|done].
    eapply wp_mono; [intros ? H; exact H| |by apply (wp_present path existing); [|apply Ht|]].
    intros r w _ HQ ->. exists existing. split; [by eapply validate_existing_stored|by apply HQ].
  - destruct (io_not_found e) eqn:En; [|by split]. rewrite (Hr eq_refl) in Hs.
    eapply wp_mono; [intros ? H; exact H| |by apply (wp_create path raw)].
    intros r w _ HQ ->. exists raw. split; [done|by apply HQ].
Qed.
End writes.

(** ** The files of a block, then the index *)

Lemma paths_distinct root paths : BlockStorePaths_new root = Ok paths →
  NoDup [p_dir (bp_index paths); bp_blocks paths; bp_headers paths; bp_undo paths].
Proof.
  unfold BlockStorePaths_new. case_bool_decide; [done|]. intros [= <-]. cbn.
  assert (∀ a b : string, (root +:+ a)%string = (root +:+ b)%string → a = b) as Hinj.
  { clear. intros a b. induction root as [|c root IH]; [done|]. cbn. intros [= He]. by apply IH. }
  assert (∀ a : string, a ≠ ""%string → root ≠ (root +:+ a)%string) as Hne.
  { clear. intros a Ha. induction root as [|c root IH]; [intros He; by apply Ha|]. cbn. intros [= He]. by apply IH. }
  rewrite !list.NoDup_cons, !not_elem_of_cons. repeat split; try (by apply Hne); try (intros ?%Hinj; done); try apply not_elem_of_nil.
  constructor.
Qed.

Section commit_safe.
Context `{HX : Hex} `{HU : UndoJson} `{HS : Sha3} `{HE : EnvelopeJson} `{HI : IndexJson}.
Context (root : string) (paths : BlockStorePaths) (Hpaths : BlockStorePaths_new root = Ok paths).
Context (h header block : bytes) (undo : BlockUndo).
Hypothesis Hh : len h = 32.
Hypothesis Hundo : undo_ok undo.
Hypothesis Hsizes : len header < isize_max ∧ len block < isize_max.

(** Block, header and undo record are on the disk to stay. *)
Definition files_stored (w : Disk) : Prop :=
  settled w (block_path paths h) (Some block) ∧ settled w (header_path paths h) (Some header)
  ∧ ∃ raw, undo_stored h undo raw ∧ settled w (undo_path paths h) (Some raw).
Definition files_tidy (w : Disk) : Prop :=
  tidy w (block_path paths h) ∧ tidy w (header_path paths h) ∧ tidy w (undo_path paths h).
Definition touched : list Path :=
  (block_path paths h :: own_names (bp_blocks paths)) ++ (header_path paths h :: own_names (bp_headers paths))
  ++ (undo_path paths h :: own_names (bp_undo paths)).

Lemma other_dir p dir leaf : p_dir p ≠ dir → p ≠ mkPath dir leaf.
Proof. by intros Hd ->. Qed.

Lemma put_frame_other path p w w' : p_dir p ≠ p_dir path → put_frame path w w' → frame p w w'.
Proof.
  intros Hd Hf. apply (frame_but_use _ _ _ _ Hf). unfold own_names. rewrite !not_elem_of_cons.
  split; [by intros ->|]. split; [by apply other_dir|]. split; [by apply other_dir|apply not_elem_of_nil].
Qed.

Lemma dirs_distinct :
  bp_blocks paths ≠ bp_headers paths ∧ bp_blocks paths ≠ bp_undo paths ∧ bp_headers paths ≠ bp_undo paths
  ∧ p_dir (bp_index paths) ≠ bp_blocks paths ∧ p_dir (bp_index paths) ≠ bp_headers paths ∧ p_dir (bp_index paths) ≠ bp_undo paths.
Proof. pose proof (paths_distinct root paths Hpaths) as H. rewrite !list.NoDup_cons in H. set_solver. Qed.

Lemma put_touched path w0 w w' : path ∈ [block_path paths h; header_path paths h; undo_path paths h] →
  frame_but touched w0 w → put_frame path w w' → frame_but touched w0 w'.
Proof.
  intros Hp Hf Hput. etransitivity; [exact Hf|]. eapply frame_but_mono; [|exact Hput]. unfold touched.
  rewrite !elem_of_cons in Hp. destruct Hp as [->|[->|[->|Hp]]]; [| | |by apply not_elem_of_nil in Hp]; cbn; set_solver.
Qed.

Lemma wp_files w0 : files_tidy w0 →
  wp (frame_but touched w0) (_ ←? persist_block_bytes_typed paths h header block; put_undo_typed paths h undo)
    (λ r w, r = Ok () → files_stored w) w0.
Proof.
  intros (Htb & Hth & Htu). destruct dirs_distinct as (Hbh & Hbu & Hhu & _). destruct Hsizes as [Hsh Hsb].
  assert (frame_but touched w0 w0) as H0 by reflexivity.
  apply wp_try. unfold persist_block_bytes_typed. apply wp_try. split; [done|].
  destruct (validate_header_matches_hash header h) as [[]|e]; cbn [map_err]; [|done].
  apply wp_try. eapply wp_mono; [| |exact (wp_write_file_if_absent (block_path paths h) block w0 Hsb Htb)].
  { intros w Hw. eapply put_touched; [left|exact H0|exact Hw]. }
  intros [[]|e] w1 Hf1 Hb; [|done]. specialize (Hb eq_refl).
  assert (frame_but touched w0 w1) as Hw1 by (eapply put_touched; [left|exact H0|exact Hf1]).
  assert (tidy w1 (header_path paths h)) as Hth1 by (eapply tidy_frame; [eapply put_frame_other; [|exact Hf1]; cbn; congruence|exact Hth]).
  assert (tidy w1 (undo_path paths h)) as Htu1 by (eapply tidy_frame; [eapply put_frame_other; [|exact Hf1]; cbn; congruence|exact Htu]).
  eapply wp_mono; [| |exact (wp_write_file_if_absent (header_path paths h) header w1 Hsh Hth1)].
  { intros w Hw. eapply put_touched; [right; left|exact Hw1|exact Hw]. }
  intros [[]|e] w2 Hf2 Hd; [|done]. specialize (Hd eq_refl).
  assert (frame_but touched w0 w2) as Hw2 by (eapply put_touched; [right; left|exact Hw1|exact Hf2]).
  assert (settled w2 (block_path paths h) (Some block)) as Hb2
    by (eapply holds_frame; [eapply put_frame_other; [|exact Hf2]; cbn; congruence|exact Hb]).
  assert (tidy w2 (undo_path paths h)) as Htu2 by (eapply tidy_frame; [eapply put_frame_other; [|exact Hf2]; cbn; congruence|exact Htu1]).
  eapply wp_mono; [| |exact (wp_put_undo paths h undo w2 Hh Hundo Htu2)].
  { intros w Hw. eapply put_touched; [right; right; left|exact Hw2|exact Hw]. }
  intros r w3 Hf3 Hu Hr. destruct (Hu Hr) as (raw & Hraw & Hset).
  split; [|split; [|by exists raw]]; (eapply holds_frame; [eapply put_frame_other; [|exact Hf3]; cbn; congruence|done]).
Qed.

Definition new_canonical (self : BlockStore) (height : Z) : list string := truncate height (bs_canonical self) ++ [hex_encode h].

Context (P : option bytes → Prop) (self : BlockStore) (height : Z).
Hypothesis Hself : coherent self.
Hypothesis Hheight : 0 ≤ height.

(** A crash may show the new index only once the files are stored. *)
Definition commit_inv (w : Disk) : Prop :=
  holds P w (bp_index paths)
  ∨ ∃ raw, index_bytes paths (new_canonical self height) = Ok raw ∧ files_stored w
           ∧ holds (λ c, P c ∨ c = Some raw) w (bp_index paths).
Definition commit_post (x : result AtomicWriteError unit * BlockStore) (w : Disk) : Prop :=
  x.1 = Ok () → files_stored w ∧ canonical_hash x.2 height = Some h.

Lemma index_untouched w0 w : frame_but touched w0 w → frame (bp_index paths) w0 w.
Proof.
  intros Hf. destruct dirs_distinct as (_ & _ & _ & Hib & Hih & Hiu). apply (frame_but_use _ _ _ _ Hf). unfold touched, own_names.
  rewrite !not_elem_of_app, !not_elem_of_cons. repeat split; try apply not_elem_of_nil; by apply other_dir.
Qed.

Lemma file_in_dir leaf dir w w' c : dir ≠ p_dir (bp_index paths) → put_frame (bp_index paths) w w' →
  settled w (mkPath dir leaf) c → settled w' (mkPath dir leaf) c.
Proof. intros Hd Hf Hs. eapply holds_frame, Hs. by eapply put_frame_other, Hf. Qed.

Lemma files_kept w w' : put_frame (bp_index paths) w w' → files_stored w → files_stored w'.
Proof.
  intros Hf (Hb & Hd & raw & Hraw & Hu). destruct dirs_distinct as (_ & _ & _ & Hib & Hih & Hiu).
  split; [by eapply file_in_dir|]. split; [by eapply file_in_dir|]. exists raw. split; [done|by eapply file_in_dir].
Qed.

Lemma named_canonical s k x : coherent s → 0 ≤ k → bs_canonical s !! Z.to_nat k = Some (hex_encode x) → canonical_hash s k = Some x.
Proof.
  intros [Hc _] Hk Hl. rewrite Hc, list_lookup_fmap in Hl. unfold canonical_hash.
  destruct (bs_canonical_hash_by_height s !! Z.to_nat k) as [y|] eqn:Hy; [|done]. cbn in Hl. injection Hl as Hl%hex_encode_inj.
  pose proof (lookup_lt_Some _ _ _ Hy). replace (_ <=? k) with false by lia. by subst.
Qed.

Lemma wp_tip w : holds P w (bp_index paths) → (∃ old, stored w (live w (bp_index paths)) old) → files_stored w →
  height ≤ len (bs_canonical self) →
  wp commit_inv (set_canonical_tip_on_disk paths self height h) commit_post w.
Proof.
  intros HP [old Hold] Hfiles Hle. unfold set_canonical_tip_on_disk. replace (_ <? height) with false by lia. cbn [orb].
  assert (len (bs_canonical_hash_by_height self) = len (bs_canonical self)) as Hlen by (rewrite (proj1 Hself), length_fmap; done).
  case_bool_decide as Hsame.
  - split; [by left|]. intros _. unfold set_canonical_tip_typed. replace (_ <? height) with false by lia.
    rewrite bool_decide_eq_true_2 by done. split; [done|]. by apply named_canonical.
  - apply wp_bind. unfold save_blockstore_index_typed. apply wp_try. split; [by left|].
    destruct (index_bytes paths _) as [raw|e] eqn:Hraw; [|split; [by left|]].
    + eapply wp_mono; [| |exact (wp_write (bp_index paths) raw Overwrite (Ret (Ok ())) w P old I HP Hold)].
      * intros w' [Hf Hh']. right. exists raw. split; [exact Hraw|]. split; [by eapply files_kept|exact Hh'].
      * intros r w' [Hf Hh'] HQ. assert (files_stored w') as Hfiles' by (by eapply files_kept). split.
        { right. exists raw. split; [exact Hraw|by split]. }
        intros Hr. split; [done|]. unfold set_canonical_tip_typed in *. revert Hr. replace (_ <? height) with false by lia.
        rewrite bool_decide_eq_false_2 by done. destruct r as [[]|e]; [|done]. intros _. unfold canonical_hash. cbn.
        rewrite length_app, length_take. cbn. replace (_ <=? height) with false by lia.
        rewrite lookup_app_r by (rewrite length_take; lia). rewrite length_take.
        by replace (Z.to_nat height - _)%nat with 0%nat by lia.
    + unfold commit_post, set_canonical_tip_typed. replace (_ <? height) with false by lia.
      by rewrite bool_decide_eq_false_2.
Qed.

Lemma wp_commit w0 : holds P w0 (bp_index paths) → (∃ old, stored w0 (live w0 (bp_index paths)) old) → files_tidy w0 →
  wp commit_inv (commit_canonical_block_typed paths self height h header block undo) commit_post w0.
Proof.
  intros HP [old Hold] Ht. unfold commit_canonical_block_typed.
  assert (∀ w, frame_but touched w0 w → holds P w (bp_index paths) ∧ stored w (live w (bp_index paths)) old) as Hkeep.
  { intros w Hw%index_untouched. split; [by eapply holds_frame|]. destruct Hw as (He & -> & _). by eapply stored_extends. }
  assert (∀ w, frame_but touched w0 w → commit_inv w) as Hinv by (intros w Hw; left; by apply Hkeep).
  destruct (negb _); [split; [by left|done]|]. destruct (_ <? height) eqn:Hgap; [split; [by left|done]|].
  case_match eqn:Hsame.
  - apply wp_bind. eapply wp_mono; [exact Hinv| |by apply wp_files]. intros r w Hf HQ. split; [by apply Hinv|].
    apply andb_true_iff in Hsame as [_ Hsame%bool_decide_eq_true]. intros Hr. split; [by apply HQ|done].
  - apply wp_bind. eapply wp_mono; [exact Hinv| |by apply wp_files]. intros r w Hf HQ.
    destruct r as [[]|e]; [|split; [by apply Hinv|done]]. destruct (Hkeep w Hf). apply wp_tip; eauto. lia.
Qed.
End commit_safe.

(** The saved index is read back at a restart. *)
Lemma index_read_back `{HX : Hex} `{HS : Sha3} `{HE : EnvelopeJson} `{HI : IndexJson} debug_str paths l raw :
  Forall (λ h, len h = 32) l → index_bytes paths (hex_encode <$> l) = Ok raw →
  decode_blockstore_index debug_str paths raw = Ok (hex_encode <$> l).
Proof.
  intros Hl. unfold index_bytes, decode_blockstore_index.
  destruct (index_reads BLOCK_STORE_INDEX_VERSION (hex_encode <$> l)) as (payload & -> & Hread); [done| |].
  { apply Forall_fmap. apply list.Forall_true. intros h. apply hex_text_plain. }
  cbn [map_err]. run_bind. rewrite marshal_store_envelope_run. intros [= <-].
  rewrite (proj2 (open_store_envelope_Ok STORE_ENVELOPE_BLOCK_INDEX _ _) eq_refl). run_bind. rewrite Hread. cbn [map_err]. run_bind.
  rewrite Z.eqb_refl. cbn [negb]. rewrite enumerate_enum.
  pose proof (enum_tests (λ i c, if negb (valid_canonical_hash_hex (ascii_bytes c))
    then fail ("canonical[" +:+ pretty i +:+ "]: not 64 lowercase hex characters: " +:+ debug_str c)%string else Ok ())
    (λ c, valid_canonical_hash_hex (ascii_bytes c) = true) (hex_encode <$> l) 0) as He. cbn beta in He.
  rewrite (proj2 (He ltac:(intros i c; by destruct (valid_canonical_hash_hex _)))); [done|].
  apply Forall_fmap. eapply list.Forall_impl; [exact Hl|]. intros h Hh. cbn. by apply hash_hex_valid.
Qed.

(** C6: committing a block, to directories that outlive a crash. Whatever calls
    fail and wherever the process stops, a crash shows a new index, which names
    the block, only if block, header and a valid undo record of it are on the
    disk to stay; so an index that may be found at a restart, when it is not one
    of the old ones, names this block only if it can be disconnected. And when
    the operation succeeds, the three files are stored and the block is the
    canonical one of its height. *)
Theorem commit_crash_safe `{HX : Hex} `{HU : UndoJson} `{HS : Sha3} `{HE : EnvelopeJson} `{HI : IndexJson}
  debug_str root paths h header block undo (P : option bytes → Prop) self height w0 p w
  (Hpaths : BlockStorePaths_new root = Ok paths) (Hh : len h = 32) (Hundo : undo_ok undo)
  (Hsizes : len header < isize_max ∧ len block < isize_max) (Hself : coherent self) (Hheight : 0 ≤ height)
  (Hindex : holds P w0 (bp_index paths)) (Hfiles : files_tidy paths h w0)
  (Hrun : rtc prog_step (commit_canonical_block_typed paths self height h header block undo, w0) (p, w)) :
  (∀ c, after_crash w (bp_index paths) c → P c ∨
     files_stored paths h header block undo w
     ∧ ∃ raw, c = Some raw ∧ decode_blockstore_index debug_str paths raw = Ok (new_canonical h self height))
  ∧ (∀ self', p = Ret (Ok (), self') → files_stored paths h header block undo w ∧ canonical_hash self' height = Some h).
Proof.
  assert (∃ old, stored w0 (live w0 (bp_index paths)) old) as Hold.
  { destruct (Hindex (d_live (dir_of w0 (p_dir (bp_index paths)))) ltac:(left)) as (old & _ & Hs). by exists old. }
  destruct (wp_sound _ _ _ _ _ _ (wp_commit root paths Hpaths h header block undo Hh Hundo Hsizes P self height Hself Hheight w0 Hindex Hold Hfiles) Hrun)
    as [Hinv HQ]. split.
  - intros c Hc. destruct Hinv as [Hp|(raw & Hraw & Hst & Hp)]; [left; exact (holds_crash _ _ _ _ Hp Hc)|].
    destruct (holds_crash _ _ _ _ Hp Hc) as [?| ->]; [by left|right]. split; [done|]. exists raw. split; [done|].
    revert Hraw. unfold new_canonical. rewrite (proj1 Hself), <- fmap_take. change [hex_encode h] with (hex_encode <$> [h]).
    rewrite <- fmap_app. apply index_read_back, Forall_app. split; [apply Forall_take, Hself|by constructor].
  - intros self' ->. by apply (HQ _ eq_refl).
Qed.

(** ** An instance of the parameter, and a run *)

Definition toy_index_write (version : Z) (canonical : list string) : nres bytes := Ok (pos_bytes (encode (version, canonical))).
Definition toy_index_read (raw : bytes) : nres (Z * list string) :=
  ok_or (p ← bytes_pos (take (pred (length raw)) raw); decode p) "not an index"%string.

Lemma toy_index_reads version canonical : is_u 32 version → Forall plain_string canonical →
  ∃ payload, toy_index_write version canonical = Ok payload ∧ toy_index_read (payload ++ [x0a]) = Ok (version, canonical).
Proof.
  intros _ _. eexists. split; [reflexivity|]. unfold toy_index_read. rewrite length_app, Nat.add_1_r. cbn [pred].
  rewrite take_app_length, bytes_pos_bytes. cbn [mbind option_bind]. by rewrite decode_encode.
Qed.
Definition toy_index_json : IndexJson := {|
  index_to_vec_pretty := toy_index_write; index_from_slice := toy_index_read; index_reads := toy_index_reads |}.

Definition toy_store_to_vec (version : Z) (payload_b64 checksum : bytes) : nres bytes :=
  Ok (json_text "{'version':" ++ ascii_bytes (pretty version) ++ json_text ",'payload_b64':'" ++ payload_b64
      ++ json_text "','checksum':'" ++ checksum ++ json_text "'}").
Definition toy_envelope_json : EnvelopeJson := {|
  envelope_to_vec := toy_store_to_vec; envelope_to_vec_plain _ _ _ _ _ := eq_refl; envelope_probe _ := None |}.

Definition demo_paths : BlockStorePaths := mkBlockStorePaths (mkPath "store" "index.json") "store/blocks" "store/headers" "store/undo".
Definition demo_commit_header : bytes := zeros 116.
Definition demo_commit_hash : bytes := toy_digest demo_commit_header.
Definition demo_commit_undo : BlockUndo := mkBlockUndo 0 0 [mkTxUndo []].
Definition demo_commit_self : BlockStore := mkBlockStore "store/index.json" [] [] [].
Definition demo_commit : Prog (result AtomicWriteError unit * BlockStore) :=
  commit_canonical_block_typed (HS := toy_sha3) (HX := toy_hex) (HU := toy_undo_json) (HE := toy_envelope_json) (HI := toy_index_json)
    demo_paths demo_commit_self 0 demo_commit_hash demo_commit_header [x01; x02] demo_commit_undo.

Lemma demo_commit_done : is_ok (run demo_commit empty_disk).1.1 = true.
Proof. vm_compute. reflexivity. Qed.

Lemma commit_crash_safe_witness : ∃ w self',
  rtc prog_step (demo_commit, empty_disk) (Ret (Ok (), self'), w)
  ∧ files_stored (HS := toy_sha3) (HX := toy_hex) (HU := toy_undo_json) demo_paths demo_commit_hash demo_commit_header [x01; x02]
      demo_commit_undo w.
Proof.
  pose proof (run_steps demo_commit empty_disk) as Hrun. pose proof demo_commit_done as Hok.
  destruct (run demo_commit empty_disk) as [[r self'] w]. cbn [fst snd] in Hrun, Hok. destruct r as [[]|e]; [|discriminate Hok].
  exists w, self'. split; [exact Hrun|].
  assert (files_tidy (HX := toy_hex) demo_paths demo_commit_hash empty_disk) as Htidy
    by (repeat split; (eapply holds_mono; [|apply empty_settled]; done)).
  destruct (commit_crash_safe (HS := toy_sha3) (HX := toy_hex) (HU := toy_undo_json) (HE := toy_envelope_json) (HI := toy_index_json)
    id "store" demo_paths demo_commit_hash demo_commit_header [x01; x02] demo_commit_undo (eq None) demo_commit_self 0 empty_disk _ w
    eq_refl eq_refl ltac:(repeat (split || constructor); done) ltac:(split; reflexivity) ltac:(split; [reflexivity|constructor])
    ltac:(discriminate) (empty_settled _) Htidy Hrun) as [_ H].
  by apply (H self').
Defined.
