(* ===== verification/ChainFile.v ===== *)
(** * The file of the chain state ([chainstate.rs])

    The saved record in its envelope, and how it is read back: three passes
    over the members of the JSON object, each with errors of its own, then the
    record, then the state.  [serde_json] is an interface that gives the
    members of an object and what each one reads as. *)

From Stdlib Require Import Ascii.
From stdpp Require Import pretty.
From S2P Require Import Prelude Bytes BTree Errors Constants Crypto WireRead CompactSize TxWire TxCodec Block.
From S2P Require Import Vault Suites Verify SigCache WorkerPool SigQueue Sighash Spend Htlc Stealth CovenantGenesis.
From S2P Require Import UtxoApply UtxoRules UtxoDeferred UtxoLedger BlockParse BlockWeight BlockDa BlockBasic ConnectBlock NodeText ChainState.
From S2P Require Import ChainDisk BlockStore Base64 Uint128 StoreEnvelope UndoDisk UndoEnvelope StoreCommit.

(** A value of an object: its token, [None] for a number out of range, and
    what it is as a value of the types of the record. *)
Record JsonMember : Type := mkJsonMember {
  jm_token : option ChainStateScalarToken; jm_bool : option bool; jm_u64 : option Z; jm_string : option string;
  jm_utxos : option (list UtxoDiskEntry) }.

Definition token_member (t : ChainStateScalarToken) : JsonMember :=
  mkJsonMember (Some t) None (match t with TUnsigned v => Some v | _ => None end)
    (match t with TString s _ => Some s | _ => None end) None.
Definition text_member (s : string) : JsonMember := token_member (TString s true).

(** The members of the record, in the order of its fields. *)
Definition disk_members (d : ChainStateDisk) : list (string * JsonMember) :=
  [("tip_hash", text_member (dk_tip_hash d));
   ("utxos", mkJsonMember (Some TOther) None None None (Some (dk_utxos d)));
   ("height", token_member (TUnsigned (dk_height d)));
   ("already_generated", text_member (to_canonical_decimal (dk_already_generated d)));
   ("version", token_member (TUnsigned (dk_version d)));
   ("has_tip", mkJsonMember (Some TOther) (Some (dk_has_tip d)) None None None)]%string.

Definition entry_plain (e : UtxoDiskEntry) : Prop :=
  plain_string (de_txid e) ∧ plain_string (de_covenant_data e) ∧ is_u 64 (de_value e) ∧ is_u 64 (de_creation_height e)
  ∧ is_u 32 (de_vout e) ∧ is_u 16 (de_covenant_type e).
Definition disk_plain (d : ChainStateDisk) : Prop :=
  plain_string (dk_tip_hash d) ∧ Forall entry_plain (dk_utxos d) ∧ is_u 64 (dk_height d) ∧ is_u 128 (dk_already_generated d)
  ∧ is_u 32 (dk_version d).

(** [serde_json]: [json_object] gives the members of the object a text begins
    with, and whether something other than white space follows, or the text of
    the error; [json_value_parses] is whether the text begins with a value;
    [json_position] is what an error of a visitor is rendered with. *)
Class StateJson : Type := {
  state_to_vec_pretty : ChainStateDisk → nres bytes;
  json_value_parses : bytes → bool;
  json_object : bytes → nres (list (string * JsonMember) * bool);
  json_position : bytes → string;
  state_reads : ∀ d, disk_plain d → ∃ payload, state_to_vec_pretty d = Ok ("{"%byte :: payload)
    ∧ json_object ("{"%byte :: payload ++ [x0a]) = Ok (disk_members d, false);
}.

Definition CHAINSTATE_MISSING_VERSION : string := "CHAINSTATE_SCHEMA: missing version".
Definition CHAINSTATE_DUPLICATE_VERSION : string := "CHAINSTATE_SCHEMA: duplicate version".
Definition CHAINSTATE_UNSUPPORTED_VERSION_PREFIX : string := "CHAINSTATE_SCHEMA: unsupported version ".
Definition CHAINSTATE_MISSING_SUPPLY : string := "CHAINSTATE_SCHEMA: missing already_generated".
Definition CHAINSTATE_DUPLICATE_SUPPLY : string := "CHAINSTATE_SCHEMA: duplicate already_generated".
(* rust: node/chainstate.rs 94-95 CHAINSTATE_INVALID_V1_SUPPLY *)
Definition CHAINSTATE_INVALID_V1_SUPPLY : string :=
  "CHAINSTATE_SCHEMA: v1 already_generated must be a nonnegative JSON integer through u64".
(* rust: node/chainstate.rs 96-97 CHAINSTATE_INVALID_V2_SUPPLY *)
Definition CHAINSTATE_INVALID_V2_SUPPLY : string :=
  "CHAINSTATE_SCHEMA: v2 already_generated must be a canonical unsigned decimal string within u128".
(* rust: node/chainstate.rs 98-99 CHAINSTATE_PAYLOAD_NOT_CANONICAL *)
Definition CHAINSTATE_PAYLOAD_NOT_CANONICAL : string := "CHAINSTATE_SCHEMA: payload is not the canonical encoding".

(** ** The passes *)

(** What is seen of one field: its first token, and whether it occurs, occurs
    twice, is null somewhere. *)
(* rust: node/chainstate.rs 262-270 ChainStateTargetPresence *)
Record FieldSeen : Type := mkFieldSeen {
  fs_first : option ChainStateScalarToken; fs_seen : bool; fs_duplicate : bool; fs_null : bool }.
Definition unseen : FieldSeen := mkFieldSeen None false false false.
(* rust: node/chainstate.rs 347-355 visit_map *)
Definition see_token (token : ChainStateScalarToken) (f : FieldSeen) : FieldSeen :=
  mkFieldSeen (if fs_seen f then fs_first f else Some token) true (fs_duplicate f || fs_seen f) (fs_null f || is_null token).

(** The first pass only looks for nulls, so a number out of range is one of
    the other tokens. *)
(* rust: node/chainstate.rs 281-306 visit_map *)
Definition presence_step (p : FieldSeen * FieldSeen) (m : string * JsonMember) : FieldSeen * FieldSeen :=
  let '(version, supply) := p in
  let token := default TOther (jm_token m.2) in
  if bool_decide (m.1 = "version")%string then (see_token token version, supply)
  else if bool_decide (m.1 = "already_generated")%string then (version, see_token token supply)
  else (version, supply).

(* rust: node/chainstate.rs 338-358 visit_map *)
Definition version_step (f : FieldSeen) (m : string * JsonMember) : nres FieldSeen :=
  if bool_decide (m.1 = "version")%string
  then token ← ok_or (jm_token m.2) CHAINSTATE_INVALID_VERSION; Ok (see_token token f)
  else Ok f.

(* rust: node/chainstate.rs 329-362 visit_map *)
Definition visit_version (members : list (string * JsonMember)) : nres Z :=
  f ← try_fold version_step unseen members;
  validate_chainstate_version (fs_seen f) (fs_duplicate f) (fs_null f) (fs_first f).

(** [None] is the panic for a version that was not checked. *)
(* rust: node/chainstate.rs 427-447 validate_chainstate_supply *)
Definition validate_chainstate_supply (version : Z) (supply : option ChainStateScalarToken) : option (nres Z) :=
  if version =? CHAIN_STATE_DISK_VERSION_V1 then
    Some match supply with Some (TUnsigned value) => Ok value | _ => Err CHAINSTATE_INVALID_V1_SUPPLY end
  else if version =? CHAIN_STATE_DISK_VERSION then
    Some match supply with
    | Some (TString value true) => ok_or (parse_canonical_decimal value) CHAINSTATE_INVALID_V2_SUPPLY
    | _ => Err CHAINSTATE_INVALID_V2_SUPPLY
    end
  else None.

(* rust: node/chainstate.rs 392-411 visit_map *)
Definition supply_step (version : Z) (supply : option ChainStateScalarToken) (m : string * JsonMember) :
    nres (option ChainStateScalarToken) :=
  if bool_decide (m.1 = "already_generated")%string then
    token ← ok_or (jm_token m.2)
              (if version =? CHAIN_STATE_DISK_VERSION_V1 then CHAINSTATE_INVALID_V1_SUPPLY else CHAINSTATE_INVALID_V2_SUPPLY);
    Ok (match supply with None => Some token | _ => supply end)
  else Ok supply.

(* rust: node/chainstate.rs 387-413 visit_map *)
Definition visit_supply (version : Z) (members : list (string * JsonMember)) : option (nres Z) :=
  match try_fold (supply_step version) None members with
  | Err e => Some (Err e)
  | Ok supply => validate_chainstate_supply version supply
  end.

(** The record under construction. *)
Record DiskFields : Type := mkDiskFields {
  df_version : FieldSeen; df_supply : FieldSeen; df_has_tip : option bool; df_height : option Z; df_tip_hash : option string;
  df_utxos : option (list UtxoDiskEntry) }.

(** A field may be given once. *)
Definition once {A} (old : option A) (v : option A) : option (option A) :=
  match old with Some _ => None | None => Some <$> v end.

(** All errors of this pass are reported alike, so they are one here. *)
(* rust: node/chainstate.rs 475-526 visit_map *)
Definition disk_step (f : DiskFields) (m : string * JsonMember) : option DiskFields :=
  let '(mkDiskFields version supply has_tip height tip_hash utxos) := f in
  let '(key, v) := m in
  if bool_decide (key = "version")%string
  then token ← jm_token v; Some (mkDiskFields (see_token token version) supply has_tip height tip_hash utxos)
  else if bool_decide (key = "already_generated")%string
  then token ← jm_token v; Some (mkDiskFields version (see_token token supply) has_tip height tip_hash utxos)
  else if bool_decide (key = "has_tip")%string
  then b ← once has_tip (jm_bool v); Some (mkDiskFields version supply b height tip_hash utxos)
  else if bool_decide (key = "height")%string
  then n ← once height (jm_u64 v); Some (mkDiskFields version supply has_tip n tip_hash utxos)
  else if bool_decide (key = "tip_hash")%string
  then s ← once tip_hash (jm_string v); Some (mkDiskFields version supply has_tip height s utxos)
  else if bool_decide (key = "utxos")%string
  then l ← once utxos (jm_utxos v); Some (mkDiskFields version supply has_tip height tip_hash l)
  else None.

Fixpoint disk_fields (f : DiskFields) (members : list (string * JsonMember)) : option DiskFields :=
  match members with [] => Some f | m :: members => f ← disk_step f m; disk_fields f members end.

(** [None] is an error, or the panic for an unchecked version. *)
(* rust: node/chainstate.rs 458-547 visit_map *)
Definition visit_disk (members : list (string * JsonMember)) : option ChainStateDisk :=
  f ← disk_fields (mkDiskFields unseen unseen None None None None) members;
  let v := df_version f in
  let s := df_supply f in
  version ← match validate_chainstate_version (fs_seen v) (fs_duplicate v) (fs_null v) (fs_first v) with Ok n => Some n | Err _ => None end;
  match chainstate_supply_presence_error (fs_seen s) (fs_duplicate s) (fs_null s) with
  | Some _ => None
  | None =>
      supply ← validate_chainstate_supply version (fs_first s);
      already_generated ← match supply with Ok n => Some n | Err _ => None end;
      has_tip ← df_has_tip f; height ← df_height f; tip_hash ← df_tip_hash f; utxos ← df_utxos f;
      Some (mkChainStateDisk tip_hash utxos height already_generated version has_tip)
  end.

(** ** Errors *)

Definition starts_with (prefix s : string) : bool := bool_decide (chars prefix `prefix_of` chars s).
Definition is_space (c : ascii) : bool := existsb (Ascii.eqb c) [" "; "009"; "010"; "012"; "013"]%char.
Fixpoint drop_spaces (l : list ascii) : list ascii :=
  match l with c :: l' => if is_space c then drop_spaces l' else l | [] => [] end.
Fixpoint take_word (l : list ascii) : list ascii :=
  match l with c :: l => if is_space c then [] else c :: take_word l | [] => [] end.

(* rust: node/chainstate.rs 921-942 chainstate_decode_error *)
Definition chainstate_decode_error (rendered : string) : string :=
  let exact := [CHAINSTATE_MISSING_VERSION; CHAINSTATE_DUPLICATE_VERSION; CHAINSTATE_INVALID_VERSION; CHAINSTATE_MISSING_SUPPLY;
                CHAINSTATE_DUPLICATE_SUPPLY; CHAINSTATE_INVALID_V1_SUPPLY; CHAINSTATE_INVALID_V2_SUPPLY] in
  match List.find (λ e, starts_with e rendered) exact with
  | Some e => e
  | None =>
      let other := ("decode chainstate: " +:+ rendered)%string in
      if starts_with CHAINSTATE_UNSUPPORTED_VERSION_PREFIX rendered then
        match take_word (drop_spaces (drop (length (chars CHAINSTATE_UNSUPPORTED_VERSION_PREFIX)) (chars rendered))) with
        | [] => other
        | version => (CHAINSTATE_UNSUPPORTED_VERSION_PREFIX +:+ String.string_of_list_ascii version)%string
        end
      else other
  end.

(** ** Reading and writing the file *)

(** The file as the next read finds it. *)
Inductive SavedFile : Type := NoFile | SavedContent (raw : bytes) | SavedUnreadable (e : string).

Section file.
Context `{HS : Sha3} `{HX : Hex} `{HE : EnvelopeJson} `{HJ : StateJson}.

(** What the file is to contain. *)
(* rust: node/chainstate.rs 586-604 save_atomic *)
Definition chain_state_content (path : string) (self : ChainState) : result AtomicWriteError bytes :=
  let before := atomic_write_error_before path Overwrite in
  disk ← map_err before (state_to_disk self);
  payload ← map_err (λ error, before ("encode chainstate: " +:+ error)%string) (state_to_vec_pretty disk);
  map_err before (marshal_store_envelope STORE_ENVELOPE_CHAIN_STATE (payload ++ [x0a])).

Definition is_json_space (b : byte) : bool := bool_decide (b ∈ [x20; x09; x0d; x0a]).

(* rust: node/chainstate.rs 858-904 load_chain_state *)
Definition decode_payload (payload : bytes) : option (nres ChainStateDisk) :=
  let visitor {A} (r : nres A) : nres A :=
    map_err (λ e, chainstate_decode_error (e +:+ json_position payload)) r in
  let object_first := match List.find (λ b, negb (is_json_space b)) payload with
                      | Some b => bool_decide (b = "{"%byte) | None => true end in
  if negb object_first && json_value_parses payload
  then Some (fail "decode chainstate: top-level value must be an object"%string) else
  match json_object payload with
  | Err e => Some (Err (chainstate_decode_error e))
  | Ok (members, trailing) =>
      if trailing : bool then Some (fail "decode chainstate: trailing content"%string) else
      let '(version, supply) := foldl presence_step (unseen, unseen) members in
      match chainstate_version_presence_error (fs_seen version) (fs_duplicate version) (fs_null version) with
      | Some error => Some (Err error)
      | None =>
      match visitor (visit_version members) with
      | Err e => Some (Err e)
      | Ok version =>
      match chainstate_supply_presence_error (fs_seen supply) (fs_duplicate supply) (fs_null supply) with
      | Some error => Some (Err error)
      | None =>
          r ← visit_supply version members;
          match visitor r with
          | Err e => Some (Err e)
          | Ok _ => Some (ok_or (visit_disk members) CHAINSTATE_PAYLOAD_NOT_CANONICAL)
          end
      end end end
  end.

(** [None] is the panic for a version that was not checked. *)
(* rust: node/chainstate.rs 832-909 load_chain_state *)
Definition load_chain_state (path : string) (file : SavedFile) : option (nres ChainState) :=
  match file with
  | NoFile => Some (Ok ChainState_new)
  | SavedUnreadable e => Some (fail ("read chainstate " +:+ path +:+ ": " +:+ e)%string)
  | SavedContent raw =>
      match open_store_envelope STORE_ENVELOPE_CHAIN_STATE raw with
      | Err e => Some (Err e)
      | Ok payload =>
          r ← decode_payload payload;
          Some (disk ← r;
                if chainstate_has_edge_ascii_whitespace disk then Err CHAINSTATE_PAYLOAD_NOT_CANONICAL else
                chain_state_from_disk disk)
      end
  end.
End file.

(** ** What is written reads back *)

Section file_facts.
Context `{HS : Sha3} `{HX : Hex} `{HE : EnvelopeJson} `{HJ : StateJson}.

(** What the fields of a state hold. *)
Record state_ok (s : ChainState) : Prop := mkStateOk {
  so_disk : disk_wf s; so_ranges : utxo_ranges (ch_utxos s); so_height : is_u 64 (ch_height s);
  so_generated : is_u 128 (ch_already_generated s) }.

Lemma state_disk_plain s d : state_ok s → state_to_disk s = Ok d → disk_plain d ∧ dk_version d = CHAIN_STATE_DISK_VERSION.
Proof.
  intros [_ Hr Hh Hg] [= <-]. split; [|done]. split_and!; cbn [dk_tip_hash dk_utxos dk_height dk_already_generated dk_version]; try done.
  - apply hex_text_plain.
  - apply list.Forall_forall. intros e He. rewrite merge_sort_Permutation in He.
    apply list_elem_of_fmap in He as ([op u] & -> & Hop%elem_of_map_to_list). destruct (Hr _ _ Hop) as (_ & ? & ? & ? & ?).
    by split_and!; cbn [de_txid de_covenant_data disk_entry]; try apply hex_text_plain.
Qed.

Lemma members_version d : visit_version (disk_members d) = validate_chainstate_version true false false (Some (TUnsigned (dk_version d))).
Proof. reflexivity. Qed.

Lemma supply_v2 s : validate_chainstate_supply CHAIN_STATE_DISK_VERSION (Some (TString s true))
  = Some (ok_or (parse_canonical_decimal s) CHAINSTATE_INVALID_V2_SUPPLY).
Proof. reflexivity. Qed.

(** The three passes over what the record is written as. *)
Lemma decode_members d payload : dk_version d = CHAIN_STATE_DISK_VERSION → is_u 128 (dk_already_generated d) →
  json_object ("{"%byte :: payload) = Ok (disk_members d, false) → decode_payload ("{"%byte :: payload) = Some (Ok d).
Proof.
  intros Hv Hg Hj. unfold decode_payload. cbn [List.find is_json_space]. change (bool_decide ("{"%byte = "{"%byte)) with true.
  change (negb (is_json_space "{"%byte)) with true. cbn [negb andb]. cbv iota. rewrite Hj. change (foldl presence_step (unseen, unseen) (disk_members d))
    with (see_token (TUnsigned (dk_version d)) unseen, see_token (TString (to_canonical_decimal (dk_already_generated d)) true) unseen).
  cbn [see_token fs_seen fs_duplicate fs_null fs_first unseen orb is_null chainstate_version_presence_error negb chainstate_supply_presence_error].
  rewrite members_version, Hv. cbn [validate_chainstate_version chainstate_version_presence_error negb orb].
  change (CHAIN_STATE_DISK_VERSION <=? u32_max) with true. run_bind.
  change (negb (CHAIN_STATE_DISK_VERSION =? CHAIN_STATE_DISK_VERSION_V1) && negb (CHAIN_STATE_DISK_VERSION =? CHAIN_STATE_DISK_VERSION))
    with false. cbv iota. cbn [map_err].
  assert (parse_canonical_decimal (to_canonical_decimal (dk_already_generated d)) = Some (dk_already_generated d)) as Hd.
  { apply canonical_decimal. split; [unfold is_u, Uint128.u128_max in *; lia|done]. }
  rewrite bool_decide_eq_true_2 by done. cbn [negb andb].
  change (visit_supply CHAIN_STATE_DISK_VERSION (disk_members d))
    with (Some (ok_or (parse_canonical_decimal (to_canonical_decimal (dk_already_generated d))) CHAINSTATE_INVALID_V2_SUPPLY)).
  rewrite Hd. cbn [mbind option_bind ok_or map_err]. f_equal.
  assert (visit_disk (disk_members d) = Some d) as ->; [|done].
  unfold visit_disk.
  change (disk_fields _ (disk_members d)) with (Some (mkDiskFields (see_token (TUnsigned (dk_version d)) unseen)
    (see_token (TString (to_canonical_decimal (dk_already_generated d)) true) unseen)
    (Some (dk_has_tip d)) (Some (dk_height d)) (Some (dk_tip_hash d)) (Some (dk_utxos d)))).
  cbn -[validate_chainstate_version validate_chainstate_supply to_canonical_decimal]. rewrite Hv.
  change (validate_chainstate_version true false false (Some (TUnsigned CHAIN_STATE_DISK_VERSION)))
    with (@Ok string Z CHAIN_STATE_DISK_VERSION).
  cbn [mbind option_bind]. rewrite supply_v2, Hd. cbn. rewrite <- Hv. by destruct d.
Qed.

(** The passes only go on with a version that has a supply format. *)
Lemma visit_version_checked members v : visit_version members = Ok v → v = CHAIN_STATE_DISK_VERSION_V1 ∨ v = CHAIN_STATE_DISK_VERSION.
Proof.
  unfold visit_version. intros H. apply bind_Ok in H as (f & _ & H). unfold validate_chainstate_version in H.
  destruct (chainstate_version_presence_error _ _ _); [done|]. apply bind_Ok in H as (n & _ & H).
  destruct (n =? CHAIN_STATE_DISK_VERSION_V1) eqn:E1; [|destruct (n =? CHAIN_STATE_DISK_VERSION) eqn:E2; [|done]];
    cbn in H; injection H as <-; [left|right]; lia.
Qed.

Lemma visit_supply_total version members : version = CHAIN_STATE_DISK_VERSION_V1 ∨ version = CHAIN_STATE_DISK_VERSION →
  is_Some (visit_supply version members).
Proof.
  intros H. unfold visit_supply. destruct (try_fold _ _ _) as [s|e]; [|by eexists]. destruct H as [->| ->]; by eexists.
Qed.

Lemma decode_payload_total payload : is_Some (decode_payload payload).
Proof.
  unfold decode_payload. destruct (_ && _); [by eexists|]. destruct (json_object payload) as [[members trailing]|e]; [|by eexists].
  destruct trailing; [by eexists|]. destruct (foldl _ _ _) as [version supply]. destruct (chainstate_version_presence_error _ _ _); [by eexists|].
  destruct (visit_version members) as [v|e] eqn:Hv; cbn [map_err]; [|by eexists]. destruct (chainstate_supply_presence_error _ _ _); [by eexists|].
  destruct (visit_supply_total v members (visit_version_checked _ _ Hv)) as [r ->]. cbn. destruct (map_err _ r); by eexists.
Qed.

Lemma load_total path file : is_Some (load_chain_state path file).
Proof.
  destruct file as [|raw|e]; [by eexists| |by eexists]. cbn. destruct (open_store_envelope _ raw) as [payload|e]; [|by eexists].
  destruct (decode_payload_total payload) as [r ->]. by eexists.
Qed.

(** C40: the file of the chain state. Saving never fails to encode a state that
    fits its types, and the file reads back as that state: through the
    envelope with its checksum, the passes that look for missing, null and
    repeated fields, the check for the canonical form and the decoding of
    every output. Reading any other file, however it is damaged, gives a state
    or an error and never a panic. A file that is accepted is, byte for byte,
    the checksummed envelope of its payload. *)
Theorem chain_file_roundtrip path :
  (∀ s, state_ok s → ∃ raw, chain_state_content path s = Ok raw ∧ load_chain_state path (SavedContent raw) = Some (Ok s))
  ∧ (∀ file, ∃ r, load_chain_state path file = Some r)
  ∧ (∀ raw s, load_chain_state path (SavedContent raw) = Some (Ok s) →
       ∃ payload, marshal_store_envelope STORE_ENVELOPE_CHAIN_STATE payload = Ok raw).
Proof.
  split; [|split; [intros file; apply load_total|]].
  - intros s Hs. destruct (chain_state_disk_run s (so_disk s Hs)) as (d & Hd & Hback & Hedge).
    destruct (state_disk_plain s d Hs Hd) as [Hp Hv]. destruct (state_reads d Hp) as (payload & Hw & Hj).
    exists (envelope_bytes STORE_ENVELOPE_CHAIN_STATE ("{"%byte :: payload ++ [x0a])).
    pose proof (marshal_store_envelope_run STORE_ENVELOPE_CHAIN_STATE ("{"%byte :: payload ++ [x0a])) as Hm. split.
    + unfold chain_state_content. rewrite Hd. cbn [map_err]. run_bind. rewrite Hw. cbn [map_err]. run_bind. cbn [app]. by rewrite Hm.
    + cbn [load_chain_state]. rewrite (proj2 (open_store_envelope_Ok _ _ _) eq_refl).
      rewrite (decode_members d) by (done || apply Hp). cbn [mbind option_bind]. run_bind. by rewrite Hedge, Hback.
  - intros raw s H. cbn [load_chain_state] in H. destruct (open_store_envelope _ raw) as [payload|e] eqn:Ho; [|done].
    exists payload. apply open_store_envelope_Ok in Ho as ->. apply marshal_store_envelope_run.
Qed.
End file_facts.

(** ** An instance of the parameter, and a file *)

Abbreviation entry_tuple := (string * string * Z * Z * Z * Z * bool)%type.
Definition entry_to_tuple (e : UtxoDiskEntry) : entry_tuple :=
  (de_txid e, de_covenant_data e, de_value e, de_creation_height e, de_vout e, de_covenant_type e, de_created_by_coinbase e).
Definition entry_of_tuple (t : entry_tuple) : UtxoDiskEntry :=
  let '(txid, data, value, height, vout, ty, coinbase) := t in mkUtxoDiskEntry txid data value height vout ty coinbase.
Abbreviation disk_tuple := (string * list entry_tuple * Z * Z * Z * bool)%type.
Definition disk_to_tuple (d : ChainStateDisk) : disk_tuple :=
  (dk_tip_hash d, entry_to_tuple <$> dk_utxos d, dk_height d, dk_already_generated d, dk_version d, dk_has_tip d).
Definition disk_of_tuple (t : disk_tuple) : ChainStateDisk :=
  let '(tip, utxos, height, generated, version, has_tip) := t in
  mkChainStateDisk tip (entry_of_tuple <$> utxos) height generated version has_tip.

Lemma disk_tuple_back d : disk_of_tuple (disk_to_tuple d) = d.
Proof.
  destruct d as [tip utxos h g v t]. unfold disk_of_tuple, disk_to_tuple. cbn. f_equal. rewrite <- list_fmap_compose.
  transitivity (id <$> utxos); [|apply list_fmap_id]. apply list_fmap_ext. by intros i [].
Qed.

Definition toy_state_write (d : ChainStateDisk) : nres bytes := Ok ("{"%byte :: pos_bytes (encode (disk_to_tuple d))).
Definition toy_state_read (raw : bytes) : nres (list (string * JsonMember) * bool) :=
  let inner := tail raw in
  t ← ok_or (p ← bytes_pos (take (pred (length inner)) inner); (decode p : option disk_tuple)) "not an object"%string;
  Ok (disk_members (disk_of_tuple t), false).

Lemma toy_state_reads d : disk_plain d → ∃ payload, toy_state_write d = Ok ("{"%byte :: payload)
  ∧ toy_state_read ("{"%byte :: payload ++ [x0a]) = Ok (disk_members d, false).
Proof.
  intros _. eexists. split; [reflexivity|]. unfold toy_state_read. cbn [tail]. rewrite length_app, Nat.add_1_r. cbn [pred].
  rewrite take_app_length, bytes_pos_bytes. cbn [mbind option_bind]. rewrite decode_encode. cbn [ok_or]. run_bind.
  by rewrite disk_tuple_back.
Qed.
Definition toy_state_json : StateJson := {|
  state_to_vec_pretty := toy_state_write; json_value_parses _ := true; json_object := toy_state_read; json_position _ := ""%string;
  state_reads := toy_state_reads |}.

(** Two unspent outputs. *)
Definition demo_disk_state : ChainState :=
  mkChainState true 7 (replicate 32 x11) 500
    (list_to_map [(mkOutpoint (replicate 32 x22) 1, mkUtxoEntry 40 0 [x01; xab] 3 true);
                  (mkOutpoint (replicate 32 x22) 0, mkUtxoEntry 41 0 [] 4 false)]).

Lemma demo_disk_state_ok : state_ok demo_disk_state.
Proof.
  assert (map_Forall entry_range (ch_utxos demo_disk_state)) as Hr
    by (repeat (apply map_Forall_insert_2; [split_and!; done|]); apply map_Forall_empty).
  split; [split; [done|] | done..]. intros op e He. by destruct (Hr op e He).
Qed.

Lemma chain_file_roundtrip_witness : ∃ raw,
  chain_state_content (HS := toy_sha3) (HX := toy_hex) (HE := toy_envelope_json) (HJ := toy_state_json) "chainstate.json" demo_disk_state = Ok raw
  ∧ load_chain_state (HS := toy_sha3) (HX := toy_hex) (HE := toy_envelope_json) (HJ := toy_state_json) "chainstate.json" (SavedContent raw)
    = Some (Ok demo_disk_state)
  ∧ load_chain_state (HS := toy_sha3) (HX := toy_hex) (HE := toy_envelope_json) (HJ := toy_state_json) "chainstate.json" NoFile
    = Some (Ok ChainState_new).
Proof.
  destruct (proj1 (chain_file_roundtrip (HS := toy_sha3) (HX := toy_hex) (HE := toy_envelope_json) (HJ := toy_state_json) "chainstate.json")
    demo_disk_state demo_disk_state_ok) as (raw & Hc & Hl).
  exists raw. split; [exact Hc|]. split; [exact Hl|reflexivity].
Defined.
