(* ===== verification/Branch.v ===== *)
(** * Side branches and the fork choice ([sync_reorg.rs])

    A block that does not extend the tip is connected to the canonical chain by
    walking its stored ancestors; the branch replaces the chain above the common
    ancestor if it has more work, or as much and a smaller hash. *)

From stdpp Require Import pretty.
From S2P Require Import Prelude Bytes BTree Errors Constants Crypto WireRead CompactSize TxWire TxCodec Block Merkle Pow Subsidy.
From S2P Require Import Vault Suites Verify SigCache WorkerPool SigQueue Sighash Spend Htlc Stealth CovenantGenesis.
From S2P Require Import UtxoApply UtxoRules UtxoDeferred UtxoLedger BlockParse BlockWeight BlockDa BlockBasic ConnectBlock.
From S2P Require Import NodeText ChainState Undo Chain BlockStore StoreFiles Headers.

(* rust: node/sync_reorg.rs 38-39 BRANCH_STORE_CORRUPT_ERR *)
Definition BRANCH_STORE_CORRUPT_ERR : string := "block store corruption during side-branch collection".

(* rust: node/sync_reorg.rs 44-46 branch_store_corrupt *)
Definition branch_store_corrupt (detail : string) : string := (BRANCH_STORE_CORRUPT_ERR +:+ ": " +:+ detail)%string.

(* rust: node/sync_reorg.rs 52-56 VerifiedStoredBlock *)
Record VerifiedStoredBlock : Type := mkVerifiedStoredBlock {
  vs_lookup_hash : bytes; vs_block_bytes : bytes; vs_parsed : ParsedBlock }.

(* rust: node/sync_reorg.rs 58-61 StoredBlockLoadError *)
Inductive StoredBlockLoadError : Type := NotFound | Corrupt (e : string).

(* rust: node/sync_reorg.rs 194-205 ReorgBranchBlock *)
Record ReorgBranchBlock : Type := mkReorgBranchBlock {
  rb_hash : bytes; rb_header_bytes : bytes; rb_block_bytes : bytes; rb_prev_hash : bytes; rb_target : bytes;
  rb_timestamp : Z; rb_txids : list bytes }.

(* rust: node/sync_reorg.rs 155-165 branch_row *)
Definition branch_row (hash : bytes) (parsed : ParsedBlock) (block_bytes : bytes) : ReorgBranchBlock :=
  mkReorgBranchBlock hash (pb_header_bytes parsed) block_bytes (bh_prev_block_hash (pb_header parsed))
    (bh_target (pb_header parsed)) (bh_timestamp (pb_header parsed)) (pb_txids parsed).

(** An index is a [usize], which fits in a [u64]. *)
(* rust: node/sync_reorg.rs 171-176 branch_row_height *)
Definition branch_row_height (common_ancestor_height index : Z) : nres Z :=
  ok_or (first ← checked_add u64_max common_ancestor_height 1; checked_add u64_max first index) "height overflow"%string.

Section branch.
Context `{HS : Sha3} `{BU : BigUintBytes} `{HX : Hex}.
Implicit Types (self : Store).

(* rust: node/sync_reorg.rs 64-72 render *)
Definition render (e : StoredBlockLoadError) (lookup_hash : bytes) : string :=
  match e with
  | NotFound => branch_store_corrupt ("stored block for " +:+ hex_encode lookup_hash +:+ " is unreadable: not found")
  | Corrupt err => err
  end%string.

(* rust: node/sync_reorg.rs 78-128 load_verified_stored_block *)
Definition load_verified_stored_block self (lookup_hash : bytes) : result StoredBlockLoadError VerifiedStoredBlock :=
  let corrupt what := Corrupt (branch_store_corrupt ("stored block for " +:+ hex_encode lookup_hash +:+ what)%string) in
  block_bytes ← map_err (λ err, if io_not_found err then NotFound else corrupt (" is unreadable: " +:+ io_text err)%string)
                  (read_block_file_by_hash self lookup_hash);
  parsed ← map_err (λ err, corrupt (" does not parse: " +:+ display err)%string) (parse_block_bytes block_bytes);
  observed_hash ← map_err (λ err, corrupt (" does not hash: " +:+ display err)%string) (block_hash (pb_header_bytes parsed));
  if negb (bool_decide (observed_hash = lookup_hash)) then Err (corrupt (" hashes to " +:+ hex_encode observed_hash)%string) else
  _ ← map_err (λ err, corrupt (" has invalid commitments: " +:+ display err)%string) (validate_stored_block_commitments parsed);
  Ok (mkVerifiedStoredBlock lookup_hash block_bytes parsed).

(* rust: node/sync_reorg.rs 143-152 load_verified_branch_ancestor *)
Definition load_verified_branch_ancestor self (parent_hash : bytes) : nres VerifiedStoredBlock :=
  match load_verified_stored_block self parent_hash with
  | Ok stored => Ok stored
  | Err NotFound => Err PARENT_BLOCK_NOT_FOUND_ERR
  | Err err => Err (render err parent_hash)
  end.

(** Each pass but the last walks another stored block, so the number of files
    is enough fuel; [None] is running out of it.  The rows are in the order of
    the walk until the end. *)
(* rust: node/sync_reorg.rs 904-930 collect_branch_to_canonical *)
Fixpoint collect_loop (fuel : nat) self (branch : list ReorgBranchBlock) (walked : gset bytes) (parent_hash : bytes) :
    option (nres (list ReorgBranchBlock * bytes * Z)) :=
  match fuel with
  | O => None
  | S fuel =>
      match find_canonical_height (so_index self) parent_hash with
      | Some height => Some (Ok (reverse branch, parent_hash, height))
      | None =>
          if decide (parent_hash ∈ walked)
          then Some (Err (branch_store_corrupt ("ancestor " +:+ hex_encode parent_hash +:+ " already walked")%string)) else
          match load_verified_branch_ancestor self parent_hash with
          | Err e => Some (Err e)
          | Ok parent => collect_loop fuel self
              (branch ++ [branch_row (vs_lookup_hash parent) (vs_parsed parent) (vs_block_bytes parent)])
              ({[parent_hash]} ∪ walked) (bh_prev_block_hash (pb_header (vs_parsed parent)))
          end
      end
  end.

(* rust: node/sync_reorg.rs 883-931 collect_branch_to_canonical *)
Definition collect_branch_to_canonical (fuel : nat) (block_store : option Store) (block_hash_bytes block_bytes : bytes) :
    option (nres (list ReorgBranchBlock * bytes * Z)) :=
  match (block_store ← ok_or block_store "sync engine has no blockstore"%string;
         parsed ← stringify (parse_block_bytes block_bytes);
         Ok (block_store, parsed)) with
  | Err e => Some (Err e)
  | Ok (block_store, parsed) =>
      collect_loop fuel block_store [branch_row block_hash_bytes parsed block_bytes] {[block_hash_bytes]}
        (bh_prev_block_hash (pb_header parsed))
  end.

(** The sum of a height in the index and the length of a branch in memory. *)
(* rust: node/sync_reorg.rs 644-681 should_switch_to_branch *)
Definition should_switch_to_branch (fuel : nat) (block_store : option Store) (current_tip_hash : bytes)
    (branch : list ReorgBranchBlock) (common_ancestor_hash : bytes) : option (nres (bool * Z)) :=
  match block_store with
  | None => Some (fail "sync engine has no blockstore"%string)
  | Some block_store =>
      current_work ← chain_work fuel block_store current_tip_hash;
      match map_err branch_store_corrupt current_work with
      | Err e => Some (Err e)
      | Ok current_work =>
          ancestor_work ← chain_work fuel block_store common_ancestor_hash;
          Some (ancestor_work ← map_err branch_store_corrupt ancestor_work;
                branch_work ← stringify (chain_work_from_targets (rb_target <$> branch));
                let candidate_work := ancestor_work + branch_work in
                ancestor_height ← ok_or (find_canonical_height (so_index block_store) common_ancestor_hash)
                                    "common ancestor not on canonical chain"%string;
                let candidate_height := ancestor_height + len branch in
                candidate_tip ← ok_or (list.last branch) "empty side branch"%string;
                let should_switch := match candidate_work ?= current_work with
                                     | Gt => true
                                     | Eq => match bytes_cmp (rb_hash candidate_tip) current_tip_hash with Lt => true | _ => false end
                                     | Lt => false
                                     end in
                Ok (should_switch, candidate_height))
      end
  end.

(* rust: node/sync_reorg.rs 583-602 side_branch_prev_timestamps *)
Definition side_branch_prev_timestamps (block_store : option Store) (branch : list ReorgBranchBlock)
    (common_ancestor_height : Z) : nres (option (list Z)) :=
  if bool_decide (branch = []) then fail "empty side branch"%string else
  next_height ← ok_or (checked_add u64_max common_ancestor_height 1) "height overflow"%string;
  prev_timestamps ← prev_timestamps_for_height block_store next_height;
  Ok (foldl (λ prev item, Some (advance_prev_timestamps prev (rb_timestamp item))) prev_timestamps
        (take (length branch - 1) branch)).

(** ** What a block changes for the pool *)

(** The fields of a plan in a build that is not a test. *)
(* rust: node/sync_reorg.rs 208-217 TxPoolCleanupPlan *)
Record TxPoolCleanupPlan : Type := mkTxPoolCleanupPlan {
  cp_confirmed_txids : list bytes; cp_conflicting_inputs : list Outpoint; cp_requeue_blocks : list VerifiedStoredBlock }.
Definition no_cleanup : TxPoolCleanupPlan := mkTxPoolCleanupPlan [] [] [].

(* rust: node/sync_reorg.rs 283-295 is_empty *)
Definition plan_is_empty (p : TxPoolCleanupPlan) : bool :=
  bool_decide (cp_confirmed_txids p = []) && bool_decide (length (cp_conflicting_inputs p) = 0%nat)
  && bool_decide (length (cp_requeue_blocks p) = 0%nat).

(* rust: node/sync_reorg.rs 394-403 merge *)
Definition plan_merge (p other : TxPoolCleanupPlan) : TxPoolCleanupPlan :=
  mkTxPoolCleanupPlan (cp_confirmed_txids p ++ cp_confirmed_txids other)
    (cp_conflicting_inputs p ++ cp_conflicting_inputs other) (cp_requeue_blocks p ++ cp_requeue_blocks other).

Definition outpoint_of_input (input : TxInput) : Outpoint := mkOutpoint (prev_txid input) (prev_vout input).

(** Every pass reads a byte, so one pass more than there are bytes is enough
    fuel, and the error for running out of it does not occur. *)
(* rust: node/sync_reorg.rs 978-988 non_coinbase_inputs *)
Fixpoint inputs_loop (fuel : nat) (block_bytes : bytes) (i tx_count offset : Z) (outpoints : list Outpoint) :
    nres (list Outpoint) :=
  if tx_count <=? i then Ok outpoints else
  match fuel with
  | O => fail ""%string
  | S fuel =>
      '(tx, _, _, consumed) ← stringify (parse_tx (drop (Z.to_nat offset) block_bytes));
      let outpoints := if 0 <? i then outpoints ++ (outpoint_of_input <$> inputs tx) else outpoints in
      inputs_loop fuel block_bytes (i + 1) tx_count (offset + consumed) outpoints
  end.

(* rust: node/sync_reorg.rs 966-990 non_coinbase_inputs *)
Definition non_coinbase_inputs (block_bytes : bytes) : nres (list Outpoint) :=
  if len block_bytes <? BLOCK_HEADER_BYTES then fail "block too short"%string else
  '(tx_count, cs_size) ← stringify (read_compact_size_bytes (drop (Z.to_nat BLOCK_HEADER_BYTES) block_bytes));
  if tx_count <=? 1 then Ok [] else
  inputs_loop (S (length block_bytes)) block_bytes 0 tx_count (BLOCK_HEADER_BYTES + cs_size) [].

(* rust: node/sync_reorg.rs 993-1000 non_coinbase_tx_bytes_from_parsed *)
Definition non_coinbase_tx_bytes_from_parsed (parsed : ParsedBlock) : nres (list bytes) :=
  mapM (λ tx, stringify (marshal_tx tx)) (drop 1 (pb_txs parsed)).

(* rust: node/sync_reorg.rs 425-434 from_validated_block *)
Definition from_validated_block (parsed : ParsedBlock) (block_bytes : bytes) : nres TxPoolCleanupPlan :=
  conflicting_inputs ← non_coinbase_inputs block_bytes;
  Ok (mkTxPoolCleanupPlan (pb_txids parsed) conflicting_inputs []).

(* rust: node/sync_reorg.rs 458-461 from_block_bytes *)
Definition from_block_bytes (block_bytes : bytes) : nres TxPoolCleanupPlan :=
  parsed ← stringify (parse_block_bytes block_bytes);
  from_validated_block parsed block_bytes.

(* rust: node/sync_reorg.rs 935-950 synthetic_side_chain_summary *)
Definition synthetic_side_chain_summary (chain_state : ChainState) (height : Z) (block_hash_bytes : bytes) :
    ChainStateConnectSummary :=
  mkChainStateConnectSummary height block_hash_bytes 0 (ch_already_generated chain_state) (ch_already_generated chain_state)
    (Z.of_nat (size (ch_utxos chain_state))) [].
End branch.

(** ** What the walk collects *)

Section walk.
Context `{HS : Sha3} `{BU : BigUintBytes} `{HX : Hex}.
Implicit Types (self : Store) (h : bytes) (v : VerifiedStoredBlock).

(** The block stored under a hash is the block with this hash, and its header
    commits to its transactions. *)
Record stored_block self h v : Prop := mkStoredBlock {
  sb_lookup : vs_lookup_hash v = h;
  sb_file : dir_files (so_blocks self) !! h = Some (Content (vs_block_bytes v));
  sb_size : len (vs_block_bytes v) ≤ BLOCK_FILE_MAX_BYTES;
  sb_parsed : parse_block_bytes (vs_block_bytes v) = Ok (vs_parsed v);
  sb_hash : sha3_256 (pb_header_bytes (vs_parsed v)) = h;
  sb_commits : validate_stored_block_commitments (vs_parsed v) = Ok () }.

Lemma block_bound : 0 ≤ BLOCK_FILE_MAX_BYTES < isize_max.
Proof. done. Qed.

Lemma block_size_small (b : bytes) : len b ≤ BLOCK_FILE_MAX_BYTES → len b ≤ isize_max.
Proof. unfold BLOCK_FILE_MAX_BYTES, MAX_BLOCK_BYTES, isize_max. lia. Qed.

Lemma parsed_block_hash b pb : len b ≤ isize_max → parse_block_bytes b = Ok pb →
  block_hash (pb_header_bytes pb) = Ok (sha3_256 (pb_header_bytes pb)).
Proof. intros Hb (Hv & _)%parse_block_Ok; [|done]. unfold block_hash. by rewrite (enc_header_len pb Hv). Qed.

Lemma read_block_Ok self h b : read_block_file_by_hash self h = Ok b ↔
  dir_files (so_blocks self) !! h = Some (Content b) ∧ len b ≤ BLOCK_FILE_MAX_BYTES.
Proof. apply read_file_Ok, block_bound. Qed.

Lemma load_stored_Ok self h v : load_verified_stored_block self h = Ok v ↔ stored_block self h v.
Proof.
  unfold load_verified_stored_block. split.
  - intros H. inv_res. repeat match goal with H : map_err _ _ = Ok _ |- _ => apply map_err_Ok in H end.
    match goal with H : read_block_file_by_hash _ _ = Ok _ |- _ => apply read_block_Ok in H as [Hf Hs] end.
    match goal with Hp : parse_block_bytes _ = Ok ?pb, H : block_hash _ = Ok _ |- _ =>
      rewrite (parsed_block_hash _ _ (block_size_small _ Hs) Hp) in H; injection H as <- end.
    match goal with H : negb _ = false |- _ => apply negb_false_iff, bool_decide_eq_true in H end.
    match goal with x : unit |- _ => destruct x end. by split.
  - destruct v as [h' b pb]. intros [Hl Hf Hs Hp Hh Hc]. cbn [vs_lookup_hash vs_block_bytes vs_parsed] in *. subst h'.
    rewrite (proj2 (read_block_Ok self h b) (conj Hf Hs)). cbn [map_err]. run_bind. rewrite Hp. cbn [map_err]. run_bind.
    rewrite (parsed_block_hash b pb) by eauto using block_size_small.
    cbn [map_err]. run_bind. rewrite Hh, bool_decide_eq_true_2 by done. cbn [negb]. by rewrite Hc.
Qed.

Lemma load_stored_NotFound self h : load_verified_stored_block self h = Err NotFound ↔ dir_files (so_blocks self) !! h = None.
Proof.
  unfold load_verified_stored_block. destruct (read_block_file_by_hash self h) as [b|e] eqn:Hr; cbn [map_err]; run_bind.
  - apply read_block_Ok in Hr as [Hf _]. rewrite Hf. split; [|done].
    destruct (parse_block_bytes b) as [pb|]; cbn [map_err]; run_bind; [|done]. destruct (block_hash _); cbn [map_err]; run_bind; [|done].
    destruct (negb _); [done|]. by destruct (validate_stored_block_commitments pb).
  - pose proof (read_file_not_found _ _ _ _ block_bound Hr) as Hn. destruct (io_not_found e); split; try done; [intros _; by apply Hn|].
    intros H. by apply Hn in H.
Qed.

Lemma stored_block_function self h v v' : stored_block self h v → stored_block self h v' → v = v'.
Proof. intros H H'. apply load_stored_Ok in H, H'. rewrite H in H'. by injection H'. Qed.

Lemma load_ancestor_Ok self h v : load_verified_branch_ancestor self h = Ok v ↔ stored_block self h v.
Proof.
  rewrite <- load_stored_Ok. unfold load_verified_branch_ancestor. destruct (load_verified_stored_block self h) as [|[]]; res_iff.
Qed.

(** What a stored block that is not the one asked for is reported as. *)
Definition is_corruption (e : string) : Prop := ∃ detail, e = branch_store_corrupt detail.

Lemma load_ancestor_Err self h e : load_verified_branch_ancestor self h = Err e →
  e = PARENT_BLOCK_NOT_FOUND_ERR ∧ dir_files (so_blocks self) !! h = None
  ∨ is_corruption e ∧ is_Some (dir_files (so_blocks self) !! h).
Proof.
  unfold load_verified_branch_ancestor. destruct (load_verified_stored_block self h) as [v|c] eqn:Hl; [done|]. destruct c as [|c].
  { apply load_stored_NotFound in Hl. intros [= <-]. by left. }
  intros [= <-]. right. split.
  - revert Hl. unfold load_verified_stored_block.
    destruct (read_block_file_by_hash self h) as [b|i]; cbn [map_err]; run_bind.
    2: { destruct (io_not_found i); intros [= <-]. by eexists. }
    destruct (parse_block_bytes b) as [pb|]; cbn [map_err]; run_bind; [|intros [= <-]; by eexists].
    destruct (block_hash _); cbn [map_err]; run_bind; [|intros [= <-]; by eexists].
    destruct (negb _); [intros [= <-]; by eexists|].
    destruct (validate_stored_block_commitments pb); [done|intros [= <-]; by eexists].
  - apply not_eq_None_Some. intros Hn. apply load_stored_NotFound in Hn. congruence.
Qed.

Lemma corruption_not_absent e : is_corruption e → e ≠ PARENT_BLOCK_NOT_FOUND_ERR.
Proof. by intros [d ->]. Qed.

(** The walk from a parent hash to the canonical chain, over stored blocks. *)
Definition row_of v : ReorgBranchBlock := branch_row (vs_lookup_hash v) (vs_parsed v) (vs_block_bytes v).
Definition parent_of v : bytes := bh_prev_block_hash (pb_header (vs_parsed v)).

(** [side_walk self h l k] walks the blocks [l] of the hashes from [h] on,
    none of which is canonical, and comes to [k]. *)
Inductive side_walk self : bytes → list VerifiedStoredBlock → bytes → Prop :=
  | side_walk_end h : side_walk self h [] h
  | side_walk_step h v l k : find_canonical_height (so_index self) h = None → stored_block self h v →
      side_walk self (parent_of v) l k → side_walk self h (v :: l) k.

Definition hashes_of (l : list VerifiedStoredBlock) : list bytes := vs_lookup_hash <$> l.

(** What the walk ends with: the canonical ancestor, an ancestor that is not
    there, one that cannot be read back, or one that was walked before. *)
Definition walk_result self (seen : gset bytes) (branch : list ReorgBranchBlock) (h : bytes)
    (r : nres (list ReorgBranchBlock * bytes * Z)) : Prop :=
  ∃ l k, side_walk self h l k ∧ NoDup (hashes_of l) ∧ (∀ x, x ∈ hashes_of l → x ∉ seen) ∧
    match find_canonical_height (so_index self) k with
    | Some height => r = Ok (reverse (branch ++ (row_of <$> l)), k, height)
    | None =>
        (k ∈ seen ∨ k ∈ hashes_of l) ∧ (∃ e, r = Err e ∧ is_corruption e)
        ∨ k ∉ seen ∧ k ∉ hashes_of l ∧ match dir_files (so_blocks self) !! k with
          | None => r = Err PARENT_BLOCK_NOT_FOUND_ERR
          | Some _ => (∀ v, ¬ stored_block self k v) ∧ ∃ e, r = Err e ∧ is_corruption e
          end
    end.

Lemma collect_loop_ok self fuel : ∀ branch seen h,
  (size (dom (dir_files (so_blocks self)) ∖ seen) + 1 ≤ fuel)%nat →
  ∃ r, collect_loop fuel self branch seen h = Some r ∧ walk_result self seen branch h r.
Proof.
  induction fuel as [|fuel IH]; intros branch seen h Hf; [lia|]. cbn [collect_loop].
  destruct (find_canonical_height (so_index self) h) as [height|] eqn:Hc.
  { eexists. split; [reflexivity|]. exists [], h. split; [constructor|]. split; [constructor|]. split; [by intros x ?%elem_of_nil|].
    by rewrite Hc, app_nil_r. }
  destruct (decide (h ∈ seen)) as [Hin|Hni].
  { eexists. split; [reflexivity|]. exists [], h. split; [constructor|]. split; [constructor|]. split; [by intros x ?%elem_of_nil|].
    rewrite Hc. left. split; [by left|]. eexists. split; [done|by eexists]. }
  destruct (load_verified_branch_ancestor self h) as [v|e] eqn:Hl.
  - apply load_ancestor_Ok in Hl. pose proof (elem_of_dom_2 _ _ _ (sb_file _ _ _ Hl)) as Hd.
    pose proof (sb_lookup _ _ _ Hl) as Hlk.
    destruct (IH (branch ++ [row_of v]) ({[h]} ∪ seen) (parent_of v)) as (r & Hr & l & k & Hw & Hnd & Hs & Hres).
    { assert (size (dom (dir_files (so_blocks self)) ∖ ({[h]} ∪ seen)) < size (dom (dir_files (so_blocks self)) ∖ seen))%nat;
        [|lia]. apply subset_size. set_solver. }
    exists r. split; [exact Hr|]. exists (v :: l), k. unfold hashes_of in *. rewrite fmap_cons, Hlk. split; [by econstructor|].
    split; [|split].
    + apply list.NoDup_cons. split; [|done]. intros Hh%Hs. set_solver.
    + intros x [->|Hx]%elem_of_cons; [done|]. apply Hs in Hx. set_solver.
    + destruct (find_canonical_height (so_index self) k) as [height|]; [by rewrite fmap_cons, <- app_assoc in *|].
      setoid_rewrite elem_of_cons. destruct Hres as [[Hk He]|(Hk & Hk' & He)]; [left|right].
      * split; [|done]. set_solver.
      * split; [set_solver|]. split; [set_solver|done].
  - eexists. split; [reflexivity|]. exists [], h. split; [constructor|]. split; [constructor|]. split; [by intros x ?%elem_of_nil|].
    rewrite Hc. right. split; [done|]. split; [apply not_elem_of_nil|]. destruct (load_ancestor_Err self h e Hl) as [[-> ->]|[He [f Hd]]]; [done|].
    rewrite Hd. split; [|by exists e]. intros v Hv%load_ancestor_Ok. congruence.
Qed.

(** The header strings of the store: the contents of the header files, and the
    headers of the blocks in the block files. *)
Definition dir_contents (d : Directory) : list bytes :=
  omap (λ f, match f.2 with Content raw => Some raw | _ => None end) (map_to_list (dir_files d)).
Definition block_headers (blocks : list bytes) : list bytes :=
  omap (λ b, match parse_block_bytes b with Ok pb => Some (pb_header_bytes pb) | Err _ => None end) blocks.
Definition store_headers self : list bytes := dir_contents (so_headers self) ++ block_headers (dir_contents (so_blocks self)).

Lemma dir_contents_elem d raw : raw ∈ dir_contents d ↔ ∃ h, dir_files d !! h = Some (Content raw).
Proof.
  unfold dir_contents. rewrite list_elem_of_omap. setoid_rewrite elem_of_map_to_list'. split.
  - intros ([h [?| |]] & Hf & [= ->]). by exists h.
  - intros [h Hf]. by exists (h, Content raw).
Qed.

Lemma block_headers_elem blocks b pb : b ∈ blocks → parse_block_bytes b = Ok pb → pb_header_bytes pb ∈ block_headers blocks.
Proof. intros Hb Hp. apply list_elem_of_omap. exists b. by rewrite Hp. Qed.

Lemma stored_block_string self h v : stored_block self h v → pb_header_bytes (vs_parsed v) ∈ store_headers self.
Proof.
  intros [_ Hf _ Hp _ _]. apply elem_of_app. right. eapply block_headers_elem; [|exact Hp]. apply dir_contents_elem. by exists h.
Qed.

(** A header of the list [known] whose hash is among its own ancestors. *)
Definition links (known : list bytes) (h h' : bytes) : Prop :=
  ∃ raw hd, raw ∈ known ∧ header_with_hash raw h hd ∧ bh_prev_block_hash hd = h'.
Definition hash_cycle (known : list bytes) : Prop := ∃ h, tc (links known) h h.

Lemma parsed_header b pb : len b ≤ isize_max → parse_block_bytes b = Ok pb →
  header_with_hash (pb_header_bytes pb) (sha3_256 (pb_header_bytes pb)) (pb_header pb).
Proof. intros Hb (Hv & _)%parse_block_Ok; [|done]. split; [|done]. destruct Hv as (Hh & -> & _). by apply parse_block_header_Ok. Qed.

Lemma parsed_links known b pb : pb_header_bytes pb ∈ known → len b ≤ isize_max → parse_block_bytes b = Ok pb →
  links known (sha3_256 (pb_header_bytes pb)) (bh_prev_block_hash (pb_header pb)).
Proof. intros Hk Hb Hp. exists (pb_header_bytes pb), (pb_header pb). split; [done|]. split; [|done]. by eapply parsed_header. Qed.

Lemma stored_links known self h v : store_headers self ⊆ known → stored_block self h v → links known h (parent_of v).
Proof.
  intros Hk Hv. pose proof (stored_block_string _ _ _ Hv) as Hin. destruct Hv as [_ _ Hs Hp <- _].
  eapply parsed_links; [by apply Hk|by apply block_size_small|done].
Qed.

Lemma side_walk_links known self h l k : store_headers self ⊆ known → side_walk self h l k →
  rtc (links known) h k ∧ ∀ x, x ∈ hashes_of l → rtc (links known) h x ∧ tc (links known) x k.
Proof.
  intros Hknown.
  induction 1 as [h|h v l k Hc Hv Hw [IHk IHl]]; [split; [done|by intros x ?%elem_of_nil]|].
  pose proof (stored_links _ _ _ _ Hknown Hv) as Hlk. split; [by eapply rtc_l|].
  intros x [->|Hx]%elem_of_cons.
  - rewrite (sb_lookup _ _ _ Hv). split; [done|]. by eapply tc_rtc_r; [constructor|].
  - destruct (IHl x Hx) as [? ?]. split; [by eapply rtc_l|done].
Qed.

(** Collecting a side branch. The walk ends whatever the block files hold,
    after at most one step per file. Unless one of the headers in the store or
    the candidate's is among its own ancestors by hash, it follows parent hashes over distinct stored blocks, none of them
    canonical and each one the block asked for, and what it returns is decided
    by where it comes to: at a canonical hash, the branch from there up to the
    candidate, in the order of heights; at a hash with no block file, the error
    for an unknown parent, and this is the only way to that error; at a file
    that does not hold the block of its name, a report of local corruption. *)
Theorem branch_collected fuel self b pb : (size (dom (dir_files (so_blocks self))) + 1 ≤ fuel)%nat →
  len b ≤ isize_max → parse_block_bytes b = Ok pb →
  let bh := sha3_256 (pb_header_bytes pb) in
  ∃ r, collect_branch_to_canonical fuel (Some self) bh b = Some r ∧
    (hash_cycle (pb_header_bytes pb :: store_headers self) ∨
     ∃ l k, side_walk self (bh_prev_block_hash (pb_header pb)) l k ∧ NoDup (bh :: hashes_of l) ∧
       match find_canonical_height (so_index self) k, dir_files (so_blocks self) !! k with
       | Some height, _ => r = Ok (reverse (branch_row bh pb b :: (row_of <$> l)), k, height)
       | None, None => r = Err PARENT_BLOCK_NOT_FOUND_ERR
       | None, Some _ => (∀ v, ¬ stored_block self k v) ∧ ∃ e, r = Err e ∧ is_corruption e
       end).
Proof.
  intros Hf Hb Hp bh. unfold collect_branch_to_canonical. cbn [ok_or]. run_bind. rewrite Hp. cbn [stringify map_err]. run_bind.
  destruct (collect_loop_ok self fuel [branch_row bh pb b] {[bh]} (bh_prev_block_hash (pb_header pb)))
    as (r & -> & l & k & Hw & Hnd & Hs & Hr).
  { assert (size (dom (dir_files (so_blocks self)) ∖ {[bh]}) ≤ size (dom (dir_files (so_blocks self))))%nat; [|lia].
    apply subseteq_size. set_solver. }
  exists r. split; [done|]. destruct (find_canonical_height (so_index self) k) as [height|] eqn:Hc.
  { right. exists l, k. split; [done|]. rewrite Hc. split; [|done]. apply list.NoDup_cons. split; [|done]. intros H%Hs. set_solver. }
  destruct Hr as [[Hk _]|(_ & _ & Hr)].
  - left. exists k. destruct (side_walk_links (pb_header_bytes pb :: store_headers self) _ _ _ _ ltac:(by apply list_subseteq_cons) Hw) as [Hlk Hlks].
    pose proof (parsed_links _ b pb (list_elem_of_here _ (store_headers self)) Hb Hp) as Hl.
    destruct Hk as [->%elem_of_singleton|Hk]; [by eapply tc_rtc_r; [constructor|]|by apply Hlks].
  - right. exists l, k. split; [done|]. rewrite Hc. split; [|done]. apply list.NoDup_cons. split; [|done]. intros H%Hs. set_solver.
Qed.
End walk.

(** ** The fork choice *)

(** The order of the tips: more work, or as much and a smaller hash. *)
Definition beats (a b : Z * bytes) : Prop := b.1 < a.1 ∨ a.1 = b.1 ∧ bytes_lt a.2 b.2.

#[export] Instance beats_strict : StrictOrder beats.
Proof.
  split.
  - intros [w h] [H|[_ H]]; [cbn in H; lia|]. exact (StrictOrder_Irreflexive _ H).
  - intros [w1 h1] [w2 h2] [w3 h3]. unfold beats. cbn [fst snd]. intros [?|[-> ?]] [?|[-> ?]]; [left; lia|by left|by left|right].
    split; [done|by etransitivity].
Qed.

Lemma beats_total w1 h1 w2 h2 : h1 ≠ h2 → beats (w1, h1) (w2, h2) ↔ ¬ beats (w2, h2) (w1, h1).
Proof.
  intros Hne. split; [intros H1 H2; exact (StrictOrder_Irreflexive _ (StrictOrder_Transitive _ _ _ H1 H2))|].
  unfold beats, bytes_lt. cbn [fst snd]. rewrite (bytes_cmp_antisym h1 h2). intros H. destruct (Z.lt_trichotomy w1 w2) as [?|[->|?]].
  - destruct H. by left.
  - right. split; [done|]. destruct (bytes_cmp h1 h2) eqn:E; [by apply bytes_cmp_eq in E|done|]. destruct H. by right.
  - by left.
Qed.

Section choice.
Context `{HS : Sha3} `{BU : BigUintBytes} `{HX : Hex}.
Implicit Types (self : Store).

Abbreviation path_work l := (foldr Z.add 0 (work <$> l)).

(** The work of a candidate's chain: its branch and the chain of the ancestor. *)
Lemma should_switch_ok fuel self tip branch anc : (size (dom (dir_files (so_headers self))) + 2 ≤ fuel)%nat →
  ∃ r, should_switch_to_branch fuel (Some self) tip branch anc = Some r ∧
    ∀ s height, r = Ok (s, height) ↔ ∃ lt la k cand,
      (header_path self tip lt ∧ Forall target_valid (path_targets lt))
      ∧ (header_path self anc la ∧ Forall target_valid (path_targets la)) ∧ Forall target_valid (rb_target <$> branch)
      ∧ find_canonical_height (so_index self) anc = Some k ∧ height = k + len branch ∧ list.last branch = Some cand
      ∧ (s = true ↔ beats (path_work (path_targets la) + path_work (rb_target <$> branch), rb_hash cand)
                      (path_work (path_targets lt), tip)).
Proof.
  intros Hf. unfold should_switch_to_branch. destruct (chain_work_path fuel self tip Hf) as (rt & -> & Ht). cbn [mbind option_bind].
  destruct rt as [wt|e]; cbn [map_err].
  2: { eexists. split; [done|]. intros s h. split; [done|]. intros (lt & la & k & cand & [Hlt Hvt] & _).
       assert (Err e = Ok (path_work (path_targets lt))) as H by (apply Ht; eauto). done. }
  pose proof (proj1 (Ht wt) eq_refl) as (lt0 & Hlt0 & Hvt0 & ->).
  destruct (chain_work_path fuel self anc Hf) as (ra & -> & Ha). cbn [mbind option_bind].
  eexists. split; [reflexivity|]. intros s height. split.
  - intros H. inv_res. match goal with H : stringify _ = Ok _ |- _ => apply stringify_Ok, chain_work_acc in H as [Hvb ->] end.
    pose proof (proj1 (Ha _) ltac:(eassumption)) as (la & Hla & Hva & ->).
    match goal with H : list.last _ = Some ?c, H2 : find_canonical_height _ _ = Some ?k |- _ => exists lt0, la, k, c end.
    split_and!; try done. rewrite Z.add_0_l. unfold beats, bytes_lt. cbn [fst snd].
    destruct (Z.compare_spec (path_work (path_targets la) + path_work (rb_target <$> branch)) (path_work (path_targets lt0))) as [He|He|He].
    + rewrite He. destruct (bytes_cmp _ _) eqn:E; split; intros H; try done; try (by right); destruct H as [H|[_ H]]; lia || done.
    + split; [done|]. intros [?|[? _]]; lia.
    + split; [by left|done].
  - intros (lt & la & k & cand & [Hlt Hvt] & [Hla Hva] & Hvb & Hk & -> & Hl & Hs).
    rewrite (proj2 (Ha (path_work (path_targets la)))) by eauto. cbn [map_err]. run_bind.
    rewrite (proj2 (stringify_Ok (chain_work_from_targets (rb_target <$> branch)) (0 + path_work (rb_target <$> branch)))
      (proj2 (chain_work_acc _ _ _) (conj Hvb eq_refl))). run_bind. rewrite Hk, Hl. cbn [ok_or]. run_bind.
    rewrite (header_path_function _ _ _ _ Hlt Hlt0) in Hs. rewrite Z.add_0_l. do 2 f_equal.
    revert Hs. unfold beats, bytes_lt. cbn [fst snd].
    destruct (Z.compare_spec (path_work (path_targets la) + path_work (rb_target <$> branch)) (path_work (path_targets lt0))) as [He|He|He].
    + rewrite He. destruct (bytes_cmp _ _); destruct s; intros [H1 H2]; try done; try (specialize (H1 eq_refl) as [?|[_ ?]]; lia || done).
      symmetry. by apply H2; right.
    + destruct s; intros [H1 _]; [|done]. specialize (H1 eq_refl) as [?|[? _]]; lia.
    + intros [_ H2]. symmetry. apply H2. by left.
Qed.

Lemma collect_branch_Ok fuel self b pb branch k height : (size (dom (dir_files (so_blocks self))) + 1 ≤ fuel)%nat →
  len b ≤ isize_max → parse_block_bytes b = Ok pb →
  collect_branch_to_canonical fuel (Some self) (sha3_256 (pb_header_bytes pb)) b = Some (Ok (branch, k, height)) →
  ∃ l, side_walk self (bh_prev_block_hash (pb_header pb)) l k
    ∧ branch = reverse (branch_row (sha3_256 (pb_header_bytes pb)) pb b :: (row_of <$> l))
    ∧ find_canonical_height (so_index self) k = Some height.
Proof.
  intros Hf Hb Hp. set (bh := sha3_256 (pb_header_bytes pb)). unfold collect_branch_to_canonical. cbn [ok_or]. run_bind.
  rewrite Hp. cbn [stringify map_err]. run_bind.
  destruct (collect_loop_ok self fuel [branch_row bh pb b] {[bh]} (bh_prev_block_hash (pb_header pb)))
    as (r & -> & l & k' & Hw & Hnd & Hs & Hr).
  { assert (size (dom (dir_files (so_blocks self)) ∖ {[bh]}) ≤ size (dom (dir_files (so_blocks self))))%nat; [|lia].
    apply subseteq_size. set_solver. }
  intros [= ->]. destruct (find_canonical_height (so_index self) k') as [n|] eqn:Hc; [injection Hr as -> -> ->; by exists l|].
  destruct Hr as [[_ (e & [=] & _)]|(_ & _ & Hr)]. by destruct (dir_files (so_blocks self) !! k'); [destruct Hr as (_ & e & [=] & _)|].
Qed.

(** The headers from a hash back to genesis, among the strings [known]. *)
Inductive linked (known : list bytes) : bytes → list (bytes * BlockHeader) → Prop :=
  | linked_end : linked known (zeros 32) []
  | linked_step h raw hd l : h ≠ zeros 32 → raw ∈ known → header_with_hash raw h hd →
      linked known (bh_prev_block_hash hd) l → linked known h ((h, hd) :: l).

(** One of the strings has the hash that stands for the parent of genesis. *)
Definition zero_hash_in (known : list bytes) : Prop := ∃ raw, raw ∈ known ∧ sha3_256 raw = zeros 32.

Lemma zero_hash_mono known known' : known ⊆ known' → zero_hash_in known → zero_hash_in known'.
Proof. intros Hk (raw & Hin & H). exists raw. auto. Qed.

Lemma linked_mono known known' h l : known ⊆ known' → linked known h l → linked known' h l.
Proof. intros Hk. induction 1; econstructor; eauto. Qed.

Lemma linked_function known h l l' : linked known h l → linked known h l' → l = l' ∨ collision_in known.
Proof.
  intros H; revert l'; induction H as [|h raw hd l Hz Hk [Hp Hh] _ IH]; intros l' H'; inversion H' as [|? raw' hd' l2 ? Hk' [Hp' Hh'] Hl']; subst; try done; [by left|].
  destruct (sha3_inj_in known raw' raw Hk' Hk Hh') as [->|?]; [|by right]. rewrite Hp in Hp'. injection Hp' as <-.
  by destruct (IH _ Hl') as [->|?]; [left|right].
Qed.

Lemma header_path_linked self h l : header_path self h l → linked (store_headers self) h l.
Proof.
  induction 1 as [|h hd l Hz (raw & Hf & Hs) _ IH]; [constructor|econstructor; try done].
  apply elem_of_app. left. apply dir_contents_elem. by exists h.
Qed.

Definition header_of (v : VerifiedStoredBlock) : bytes * BlockHeader := (vs_lookup_hash v, pb_header (vs_parsed v)).

Lemma side_walk_linked self h l k la : side_walk self h l k → linked (store_headers self) k la →
  linked (store_headers self) h ((header_of <$> l) ++ la) ∨ zero_hash_in (store_headers self).
Proof.
  intros H; revert la; induction H as [h|h v l k _ Hv Hw IH]; intros la Hla; [by left|].
  destruct (IH la Hla) as [IHl|?]; [|by right]. pose proof (stored_block_string _ _ _ Hv) as Hin. destruct Hv as [Hl Hfi Hs Hp Hh _].
  destruct (decide (h = zeros 32)) as [->|Hz]; [right; by eexists|left].
  rewrite fmap_cons. unfold header_of at 1. rewrite Hl. cbn [app]. eapply linked_step; [done|exact Hin| |exact IHl].
  rewrite <- Hh. eapply parsed_header; [|exact Hp]. by apply block_size_small.
Qed.

Lemma work_app l l' : path_work (l ++ l') = path_work l + path_work l'.
Proof. induction l as [|t l IH]; cbn; [done|]. rewrite IH. lia. Qed.
Lemma work_reverse l : path_work (reverse l) = path_work l.
Proof. induction l as [|t l IH]; [done|]. rewrite reverse_cons, work_app, IH. cbn. lia. Qed.

(** What the fork choice compares is the work of whole chains of headers. *)
Lemma candidate_chain fuel self b pb branch k height la : (size (dom (dir_files (so_blocks self))) + 1 ≤ fuel)%nat →
  len b ≤ isize_max → parse_block_bytes b = Ok pb → header_path self k la →
  collect_branch_to_canonical fuel (Some self) (sha3_256 (pb_header_bytes pb)) b = Some (Ok (branch, k, height)) →
  let known := pb_header_bytes pb :: store_headers self in
  zero_hash_in known ∨
  rb_hash <$> list.last branch = Some (sha3_256 (pb_header_bytes pb))
  ∧ ∃ l, linked known (sha3_256 (pb_header_bytes pb)) l
      ∧ path_work (path_targets la) + path_work (rb_target <$> branch) = path_work (path_targets l).
Proof.
  intros Hf Hb Hp Hla (l & Hw & -> & _)%collect_branch_Ok known; [|done..].
  assert (store_headers self ⊆ known) as Hk by by apply list_subseteq_cons.
  destruct (side_walk_linked _ _ _ _ _ Hw (header_path_linked _ _ _ Hla)) as [Hl%(linked_mono _ known)|?%(zero_hash_mono _ known)]; [|done|by left|done].
  destruct (decide (sha3_256 (pb_header_bytes pb) = zeros 32)) as [Hz|Hz]; [left; eexists; by split; [apply list_elem_of_here|]|right].
  rewrite reverse_cons, last_snoc. split; [done|]. eexists. split.
  { eapply linked_step; [exact Hz|apply list_elem_of_here|by eapply parsed_header|exact Hl]. }
  rewrite <- reverse_cons, fmap_reverse, work_reverse, fmap_cons. unfold path_targets. rewrite !fmap_cons, fmap_app.
  rewrite <- !list_fmap_compose. cbn. rewrite work_app, <- !list_fmap_compose. unfold compose. cbn. lia.
Qed.

(** C13: nodes agree on the fork choice. Let one node have the tip [A] and
    collect the branch of the block [B], and another node, with files of its
    own, have the tip [B] and collect the branch of [A]. If both decide, exactly
    one of them switches: what is compared is the work of the whole chains of
    headers that the two hashes determine, and then the hashes, whatever common
    ancestor each node finds. The exceptions are about the finite list [known]
    of the headers of [A] and [B] and those in the files of the two nodes: two
    different ones among them have the same hash, or one hashes to zero. *)
Theorem fork_choice_agrees fuel selfA selfB bA bB pbA pbB branchA branchB ancA ancB nA nB sA sB hA hB :
  (size (dom (dir_files (so_blocks selfA))) + size (dom (dir_files (so_headers selfA))) + 2 ≤ fuel)%nat →
  (size (dom (dir_files (so_blocks selfB))) + size (dom (dir_files (so_headers selfB))) + 2 ≤ fuel)%nat →
  len bA ≤ isize_max → parse_block_bytes bA = Ok pbA → len bB ≤ isize_max → parse_block_bytes bB = Ok pbB →
  let A := sha3_256 (pb_header_bytes pbA) in
  let B := sha3_256 (pb_header_bytes pbB) in
  collect_branch_to_canonical fuel (Some selfA) B bB = Some (Ok (branchB, ancB, nB)) →
  collect_branch_to_canonical fuel (Some selfB) A bA = Some (Ok (branchA, ancA, nA)) →
  should_switch_to_branch fuel (Some selfA) A branchB ancB = Some (Ok (sA, hB)) →
  should_switch_to_branch fuel (Some selfB) B branchA ancA = Some (Ok (sB, hA)) →
  let known := pb_header_bytes pbA :: pb_header_bytes pbB :: store_headers selfA ++ store_headers selfB in
  A ≠ B → sA = negb sB ∨ collision_in known ∨ zero_hash_in known.
Proof.
  intros HfA HfB HbA HpA HbB HpB A B HcB HcA HsA HsB known Hne.
  assert (store_headers selfA ⊆ known ∧ store_headers selfB ⊆ known ∧ pb_header_bytes pbB :: store_headers selfA ⊆ known
    ∧ pb_header_bytes pbA :: store_headers selfB ⊆ known) as (HkA & HkB & HkA' & HkB') by (unfold known; split_and!; set_solver +).
  destruct (should_switch_ok fuel selfA A branchB ancB ltac:(lia)) as (r & Hr & HdA). rewrite HsA in Hr. injection Hr as <-.
  destruct (should_switch_ok fuel selfB B branchA ancA ltac:(lia)) as (r & Hr & HdB). rewrite HsB in Hr. injection Hr as <-.
  destruct (proj1 (HdA _ _) eq_refl) as (ltA & laA & kA & cB & [HltA _] & [HlaA _] & _ & _ & _ & HcandB & HA). clear HdA.
  destruct (proj1 (HdB _ _) eq_refl) as (ltB & laB & kB & cA & [HltB _] & [HlaB _] & _ & _ & _ & HcandA & HB). clear HdB.
  destruct (candidate_chain fuel selfA bB pbB branchB ancB nB laA ltac:(lia) HbB HpB HlaA HcB) as [?%(zero_hash_mono _ known)|(HtB & lB & HlB & HwB)]; [by right; right|done|].
  destruct (candidate_chain fuel selfB bA pbA branchA ancA nA laB ltac:(lia) HbA HpA HlaB HcA) as [?%(zero_hash_mono _ known)|(HtA & lA & HlA & HwA)]; [by right; right|done|].
  destruct (linked_function known _ _ _ (linked_mono _ _ _ _ HkA' HlB) (linked_mono _ _ _ _ HkB (header_path_linked _ _ _ HltB))) as [->|?]; [|by right; left].
  destruct (linked_function known _ _ _ (linked_mono _ _ _ _ HkB' HlA) (linked_mono _ _ _ _ HkA (header_path_linked _ _ _ HltA))) as [->|?]; [|by right; left]. left.
  rewrite HcandB in HtB. injection HtB as HtB. rewrite HcandA in HtA. injection HtA as HtA.
  rewrite HwB, HtB in HA. rewrite HwA, HtA in HB. fold A B in HA, HB. rewrite beats_total in HB by done. destruct sA, sB; try done; exfalso.
  - by apply HB; [|apply HA].
  - assert (¬ beats (path_work (path_targets ltB), B) (path_work (path_targets ltA), A)) as Hn by (intros ?%HA; done).
    by apply HB in Hn.
Qed.
End choice.

(** ** What a block changes for the pool *)

Section cleanup.
Context `{HS : Sha3}.

Definition spends (tx : Tx) : list Outpoint := outpoint_of_input <$> inputs tx.

Lemma inputs_loop_run b : len b ≤ isize_max → ∀ txs fuel pre i acc, Forall tx_valid txs →
  b = pre ++ concat_map enc_tx txs → (length txs < fuel)%nat → 0 < i →
  inputs_loop fuel b i (i + len txs) (len pre) acc = Ok (acc ++ (txs ≫= spends)).
Proof.
  intros Hb. induction txs as [|tx txs IH]; intros fuel pre i acc Hv He Hf Hi.
  { destruct fuel; [cbn in Hf; lia|]. cbn [inputs_loop length]. decide_if. change ([] ≫= spends) with (@nil Outpoint). by rewrite app_nil_r. }
  destruct fuel as [|fuel]; [lia|]. cbn [inputs_loop length] in *. repeat decide_if.
  apply list.Forall_cons in Hv as [Hv Hvs]. rewrite Nat2Z.id.
  assert (drop (length pre) b = enc_tx tx ++ concat_map enc_tx txs) as -> by (by rewrite He, drop_app_length, concat_map_cons).
  rewrite (proj2 (stringify_Ok _ _) (proj2 (parse_tx_Ok (enc_tx tx ++ concat_map enc_tx txs) tx _ _ _
    ltac:(rewrite He, concat_map_cons, length_app in Hb; lia))
    (conj Hv (conj (prefix_app_r _ _ _ ltac:(done)) (conj eq_refl (conj eq_refl eq_refl)))))). run_bind.
  replace (i + Z.of_nat (S (length txs))) with (i + 1 + len txs) by lia.
  replace (len pre + len (enc_tx tx)) with (len (pre ++ enc_tx tx)) by (rewrite length_app; lia).
  rewrite IH; [|done|by rewrite He, <- app_assoc|lia|lia]. by rewrite <- app_assoc.
Qed.

Lemma non_coinbase_inputs_run pb : block_valid pb → len (pb_txs pb) ≤ u64_max → len (enc_block pb) ≤ isize_max →
  non_coinbase_inputs (enc_block pb) = Ok (tail (pb_txs pb) ≫= spends).
Proof.
  intros Hv Hm Hb. pose proof Hv as (Hh & _ & Hn & Hpos & Htx & _). unfold non_coinbase_inputs.
  pose proof (enc_header_length _ Hh) as Hhl. assert (len (enc_block pb) = BLOCK_HEADER_BYTES + len (enc_list enc_tx (pb_txs pb))) as Hbl
    by (unfold enc_block; rewrite length_app; lia).
  decide_if. assert (drop (Z.to_nat BLOCK_HEADER_BYTES) (enc_block pb) = enc_list enc_tx (pb_txs pb)) as ->.
  { unfold enc_block. rewrite <- Hhl, Nat2Z.id. by rewrite drop_app_length. }
  rewrite (proj2 (stringify_Ok _ (len (pb_txs pb), len (compact_size (len (pb_txs pb)))))).
  2: { apply read_compact_size_canonical; [lia|]. split; [unfold is_u, u64_max in *; lia|]. split; [done|by apply prefix_app_r]. }
  run_bind. destruct (pb_txs pb) as [|cb txs] eqn:Htxs; [cbn in *; lia|]. apply list.Forall_cons in Htx as [Hcb Htx]. cbn [tail length].
  destruct (Z.of_nat (S (length txs)) <=? 1) eqn:E.
  { destruct txs; [done|cbn in E; lia]. }
  set (pre := enc_header (pb_header pb) ++ compact_size (len (cb :: txs))).
  assert (enc_block pb = pre ++ concat_map enc_tx (cb :: txs)) as Hpre by (unfold enc_block, enc_list, pre; by rewrite Htxs, <- app_assoc).
  assert (Forall (λ tx, 1 ≤ len (enc_tx tx)) txs) as Hne by (apply list.Forall_true; intros; apply enc_tx_nonempty).
  assert (length txs ≤ length (concat_map enc_tx txs))%nat as Hlt.
  { clear -Hne. induction Hne as [|tx txs Ht _ IH]; [done|]. rewrite concat_map_cons, length_app. cbn. lia. }
  assert (length (enc_block pb) = (length pre + length (enc_tx cb) + length (concat_map enc_tx txs))%nat) as Hlen
    by (rewrite Hpre, concat_map_cons, !length_app; lia).
  cbn [inputs_loop]. repeat decide_if.
  replace (BLOCK_HEADER_BYTES + len (compact_size (Z.of_nat (S (length txs))))) with (len pre)
    by (unfold pre; rewrite length_app; cbn [length]; lia).
  assert (drop (Z.to_nat (len pre)) (enc_block pb) = enc_tx cb ++ concat_map enc_tx txs) as -> by (by rewrite Hpre, Nat2Z.id, drop_app_length, concat_map_cons).
  rewrite (proj2 (stringify_Ok _ _) (proj2 (parse_tx_Ok (enc_tx cb ++ concat_map enc_tx txs) cb _ _ _ ltac:(rewrite length_app; lia))
    (conj Hcb (conj (prefix_app_r _ _ _ ltac:(done)) (conj eq_refl (conj eq_refl eq_refl)))))). run_bind.
  replace (Z.of_nat (S (length txs))) with (0 + 1 + len txs) by lia.
  replace (len pre + len (enc_tx cb)) with (len (pre ++ enc_tx cb)) by (rewrite length_app; lia).
  apply inputs_loop_run; [done|done|by rewrite Hpre, concat_map_cons, <- app_assoc| |done].
  pose proof (enc_tx_nonempty cb). lia.
Qed.

(** The plan of a block is its transaction ids and the outputs its
    transactions spend, the coinbase's input apart; and the transactions that a
    disconnected block gives back to the pool are its own, byte for byte. *)
Theorem cleanup_plan_correct b : len b ≤ isize_max →
  (∀ plan, from_block_bytes b = Ok plan ↔ ∃ pb, parse_block_bytes b = Ok pb
     ∧ plan = mkTxPoolCleanupPlan (pb_txids pb) (tail (pb_txs pb) ≫= spends) [])
  ∧ ∀ pb, parse_block_bytes b = Ok pb → ∃ txs, non_coinbase_tx_bytes_from_parsed pb = Ok txs
     ∧ b = enc_header (pb_header pb) ++ compact_size (len (pb_txs pb)) ++ concat_map enc_tx (take 1 (pb_txs pb)) ++ mjoin txs.
Proof.
  intros Hb. split.
  - intros plan. unfold from_block_bytes, from_validated_block. split.
    + intros H. inv_res. match goal with H : stringify _ = Ok ?pb |- _ => apply stringify_Ok in H; exists pb; split; [done|] end.
      match goal with H : parse_block_bytes _ = Ok _ |- _ => apply parse_block_Ok in H as (Hv & Hm & ->); [|done] end.
      rewrite non_coinbase_inputs_run in * by done. by simplify_eq.
    + intros (pb & Hp & ->). rewrite Hp. cbn [stringify map_err]. run_bind. apply parse_block_Ok in Hp as (Hv & Hm & ->); [|done].
      by rewrite non_coinbase_inputs_run.
  - intros pb Hp. apply parse_block_Ok in Hp as ((_ & _ & _ & _ & Htx & _) & _ & ->); [|done].
    exists (enc_tx <$> drop 1 (pb_txs pb)). split.
    + unfold non_coinbase_tx_bytes_from_parsed. apply (Forall_drop _ 1) in Htx. induction Htx as [|tx txs Ht _ IH]; [done|].
      cbn [mapM]. rewrite (proj2 (stringify_Ok _ _) (marshal_tx_enc tx Ht)). run_bind. by rewrite IH.
    + unfold enc_block, enc_list. do 2 f_equal. rewrite <- (take_drop 1 (pb_txs pb)) at 1.
      unfold concat_map. by rewrite fmap_app, join_app.
Qed.
End cleanup.

(** ** Concrete inputs: a fork after genesis *)

Definition demo_branch_block (height timestamp : Z) (parent : ParsedBlock) : ParsedBlock :=
  demo_next_block height timestamp (toy_digest (pb_header_bytes parent)).
Definition demo_fork : ParsedBlock := demo_branch_block 1 1011 demo_block0.
Definition demo_fork2 : ParsedBlock := demo_branch_block 2 1021 demo_fork.
Definition demo_block_hash (pb : ParsedBlock) : bytes := toy_digest (pb_header_bytes pb).
(** The blocks [canonical] from genesis on are the chain; all [blocks] are stored. *)
Definition demo_fork_store (canonical blocks : list ParsedBlock) : Store :=
  let dir (files : gmap bytes StoredFile) := mkDirectory "store" ".bin" files in
  let hashes := demo_block_hash <$> canonical in
  mkStore (mkBlockStore "index.json" (hex_encode (Hex := toy_hex) <$> hashes) hashes (hex_encode (Hex := toy_hex) <$> hashes))
    (dir (list_to_map ((λ pb, (demo_block_hash pb, Content (enc_block pb))) <$> blocks)))
    (dir (list_to_map ((λ pb, (demo_block_hash pb, Content (pb_header_bytes pb))) <$> blocks))) (dir ∅).
Definition demo_fork_store0 : Store := demo_fork_store [demo_block0; demo_block1] [demo_block0; demo_block1; demo_fork].

Lemma branch_collected_witness :
  collect_branch_to_canonical (HS := toy_sha3) (HX := toy_hex) 4 (Some demo_fork_store0) (demo_block_hash demo_fork2) (enc_block demo_fork2)
  = Some (Ok ([branch_row (demo_block_hash demo_fork) demo_fork (enc_block demo_fork);
               branch_row (demo_block_hash demo_fork2) demo_fork2 (enc_block demo_fork2)], demo_block_hash demo_block0, 0))
  ∧ (hash_cycle (HS := toy_sha3) (pb_header_bytes demo_fork2 :: store_headers (HS := toy_sha3) demo_fork_store0)
     ∨ ∃ l k, side_walk (HS := toy_sha3) demo_fork_store0 (demo_block_hash demo_fork) l k
         ∧ NoDup (demo_block_hash demo_fork2 :: hashes_of l)).
Proof.
  split; [vm_compute; reflexivity|].
  destruct (branch_collected (HS := toy_sha3) (HX := toy_hex) 4 demo_fork_store0 (enc_block demo_fork2) demo_fork2
    ltac:(vm_compute; lia) ltac:(vm_compute; discriminate) ltac:(vm_compute; reflexivity)) as (r & _ & [H|(l & k & Hw & Hn & _)]).
  - left. exact H.
  - right. exists l, k. split; [exact Hw|exact Hn].
Defined.

Definition demo_node (tip : ParsedBlock) : Store := demo_fork_store [demo_block0; tip] [demo_block0; tip].
Definition demo_branch (pb : ParsedBlock) : list ReorgBranchBlock := [branch_row (demo_block_hash pb) pb (enc_block pb)].
Definition demo_collect (tip pb : ParsedBlock) :=
  collect_branch_to_canonical (HS := toy_sha3) (HX := toy_hex) 6 (Some (demo_node tip))
    (demo_block_hash pb) (enc_block pb).
Definition demo_choice (tip pb : ParsedBlock) :=
  should_switch_to_branch (HS := toy_sha3) (HX := toy_hex) 6 (Some (demo_node tip))
    (demo_block_hash tip) (demo_branch pb) (demo_block_hash demo_block0).

Lemma fork_choice_agrees_witness :
  demo_choice demo_block1 demo_fork = Some (Ok (false, 1)) ∧ demo_choice demo_fork demo_block1 = Some (Ok (true, 1))
  ∧ let known := pb_header_bytes demo_block1 :: pb_header_bytes demo_fork
      :: store_headers (HS := toy_sha3) (demo_node demo_block1) ++ store_headers (HS := toy_sha3) (demo_node demo_fork) in
    false = negb true ∨ collision_in (HS := toy_sha3) known ∨ zero_hash_in (HS := toy_sha3) known.
Proof.
  split; [vm_compute; reflexivity|]. split; [vm_compute; reflexivity|].
  apply (fork_choice_agrees (HS := toy_sha3) (HX := toy_hex) 6 (demo_node demo_block1) (demo_node demo_fork)
    (enc_block demo_block1) (enc_block demo_fork) demo_block1 demo_fork (demo_branch demo_block1) (demo_branch demo_fork)
    (demo_block_hash demo_block0) (demo_block_hash demo_block0) 0 0 false true 1 1); vm_compute; (reflexivity || discriminate || lia).
Defined.

Lemma cleanup_plan_correct_witness : from_block_bytes (HS := toy_sha3) (enc_block demo_block1)
  = Ok (mkTxPoolCleanupPlan (pb_txids demo_block1) [] []).
Proof.
  apply (cleanup_plan_correct (HS := toy_sha3) (enc_block demo_block1) ltac:(vm_compute; discriminate)).
  exists demo_block1. split; vm_compute; reflexivity.
Defined.
