(* ===== verification/PendingOwner.v ===== *)
(** * The owner of pending outpoints ([pending_outpoint_owner.rs])

    Transactions that wait in the pool reserve the outpoints they spend.  The
    owner gives each outpoint to one reservation at a time, and is fenced while
    the chain moves to another tip. *)

From S2P Require Import Prelude Bytes BTree Errors Constants Crypto WireRead CompactSize TxWire TxCodec Block Merkle Pow Subsidy.
From S2P Require Import Vault Suites Verify SigCache WorkerPool SigQueue Sighash Spend Htlc Stealth CovenantGenesis.
From S2P Require Import UtxoApply UtxoRules UtxoDeferred UtxoLedger BlockParse BlockWeight BlockDa BlockBasic ConnectBlock.
From S2P Require Import NodeText ChainState.

(* rust: node/pending_outpoint_owner.rs 7-11 PendingOutpointTip *)
Record PendingOutpointTip : Type := mkPendingOutpointTip { pt_has_tip : bool; pt_height : Z; pt_hash : bytes }.
#[export] Instance PendingOutpointTip_eq_dec : EqDecision PendingOutpointTip.
Proof. solve_decision. Defined.

(* rust: node/pending_outpoint_owner.rs 13-19 from_chain_state *)
Definition tip_from_chain_state (state : ChainState) : PendingOutpointTip :=
  mkPendingOutpointTip (ch_has_tip state) (ch_height state) (ch_tip_hash state).

(* rust: node/pending_outpoint_owner.rs 22-25 PendingOutpointAdmissionContext *)
Record PendingOutpointAdmissionContext : Type := mkAdmissionContext { ac_tip : PendingOutpointTip; ac_generation : Z }.

(** A pointer to an owner is the number of its allocation. *)
(* rust: node/pending_outpoint_owner.rs 27-30 PendingOutpointToken *)
Record PendingOutpointToken : Type := mkToken { tk_owner : positive; tk_sequence : Z }.
#[export] Instance PendingOutpointToken_eq_dec : EqDecision PendingOutpointToken.
Proof. solve_decision. Defined.

(* rust: node/pending_outpoint_owner.rs 45-49 PendingOutpointErrorKind *)
Inductive PendingOutpointErrorKind : Type := PendingConflict | PendingUnavailable | PendingInternal.
(* rust: node/pending_outpoint_owner.rs 51-55 PendingOutpointError *)
Record PendingOutpointError : Type := mkPendingError {
  pe_kind : PendingOutpointErrorKind; pe_message : string; pe_existing_txid : option bytes }.

(* rust: node/pending_outpoint_owner.rs 57-63 conflict *)
Definition pending_conflict `{HX : Hex} (txid : bytes) : PendingOutpointError :=
  mkPendingError PendingConflict ("mempool double-spend conflict with " +:+ hex_encode txid)%string (Some txid).
(* rust: node/pending_outpoint_owner.rs 64-70 unavailable *)
Definition pending_unavailable (message : string) : PendingOutpointError := mkPendingError PendingUnavailable message None.
(* rust: node/pending_outpoint_owner.rs 71-77 internal *)
Definition pending_internal (message : string) : PendingOutpointError := mkPendingError PendingInternal message None.

(* rust: node/pending_outpoint_owner.rs 194-197 PendingOutpointRow *)
Record PendingOutpointRow : Type := mkRow { ro_sequence : Z; ro_txid : bytes }.
(* rust: node/pending_outpoint_owner.rs 198-203 PendingOutpointClaim *)
Record PendingOutpointClaim : Type := mkClaim {
  cl_txid : bytes; cl_inputs : list Outpoint; cl_generation : Z; cl_finalized : bool }.
(* rust: node/pending_outpoint_owner.rs 185-193 PendingOutpointOwner *)
Record PendingOutpointOwner : Type := mkOwner {
  po_by_outpoint : gmap Outpoint PendingOutpointRow; po_by_token : gmap Z PendingOutpointClaim; po_token_high_water : Z;
  po_generation : Z; po_transition : bool; po_unavailable : bool; po_stable_tip : PendingOutpointTip }.

(** A handle: the allocation, whether a holder of its lock panicked, and the
    owner behind the lock. *)
(* rust: node/pending_outpoint_owner.rs 79-82 PendingOutpointOwnerHandle *)
Record PendingOutpointOwnerHandle : Type := mkHandle { oh_id : positive; oh_poisoned : bool; oh_owner : PendingOutpointOwner }.

(** Whether the allocator has room for one more token, the rows, and the set
    that a request is checked with: [try_reserve]. *)
Record Room : Type := mkRoom { rm_tokens : bool; rm_rows : bool; rm_inputs : bool }.
Definition has_room : Room := mkRoom true true true.

Definition set_owner_maps (o : PendingOutpointOwner) rows tokens : PendingOutpointOwner :=
  mkOwner rows tokens (po_token_high_water o) (po_generation o) (po_transition o) (po_unavailable o) (po_stable_tip o).
Definition set_owner_phase (o : PendingOutpointOwner) generation transition unavailable tip : PendingOutpointOwner :=
  mkOwner (po_by_outpoint o) (po_by_token o) (po_token_high_water o) generation transition unavailable tip.

Abbreviation pres := (result PendingOutpointError).
Abbreviation Owner := (ST PendingOutpointOwner PendingOutpointError).

(* rust: node/pending_outpoint_owner.rs 93-105 new_with_context *)
Definition new_with_context (id : positive) (context : PendingOutpointAdmissionContext) : PendingOutpointOwnerHandle :=
  mkHandle id false (mkOwner ∅ ∅ 0 (ac_generation context) false false (ac_tip context)).
(* rust: node/pending_outpoint_owner.rs 90-92 new *)
Definition new_owner (id : positive) (tip : PendingOutpointTip) : PendingOutpointOwnerHandle :=
  new_with_context id (mkAdmissionContext tip 0).

(* rust: node/pending_outpoint_owner.rs 163-165 owns *)
Definition owns (id : positive) (token : PendingOutpointToken) : bool :=
  negb (tk_sequence token =? 0) && bool_decide (tk_owner token = id).

Section owner.
Context `{HX : Hex}.
Implicit Types (o : PendingOutpointOwner) (token : PendingOutpointToken).

(* rust: node/pending_outpoint_owner.rs 205-215 admission_context *)
Definition admission_context o : pres PendingOutpointAdmissionContext :=
  if po_transition o || po_unavailable o || (po_generation o =? u64_max)
  then Err (pending_unavailable "pending-outpoint owner admission context unavailable")
  else Ok (mkAdmissionContext (po_stable_tip o) (po_generation o)).

(* rust: node/pending_outpoint_owner.rs 391-411 check_available *)
Definition check_available o (context : PendingOutpointAdmissionContext) : pres unit :=
  if po_transition o || po_unavailable o then Err (pending_unavailable "pending-outpoint owner transition in progress") else
  if negb (bool_decide (ac_tip context = po_stable_tip o)) then Err (pending_unavailable "pending-outpoint expected tip mismatch") else
  if negb (ac_generation context =? po_generation o) then Err (pending_unavailable "pending-outpoint expected generation mismatch") else
  Ok ().

(* rust: node/pending_outpoint_owner.rs 412-419 first_conflict *)
Definition first_conflict o (inputs : list Outpoint) : pres unit :=
  try_for_each (λ outpoint, match po_by_outpoint o !! outpoint with
                            | Some row => Err (pending_conflict (ro_txid row))
                            | None => Ok ()
                            end) inputs.

(* rust: node/pending_outpoint_owner.rs 420-436 claim *)
Definition claim (id : positive) o token : pres (option PendingOutpointClaim) :=
  if negb (owns id token) then Err (pending_internal "zero or foreign pending-outpoint token") else
  if po_token_high_water o <? tk_sequence token
  then Err (pending_internal "pending-outpoint token sequence above high-water") else
  Ok (po_by_token o !! tk_sequence token).

(* rust: node/pending_outpoint_owner.rs 437-450 drop_claim *)
Definition drop_claim (sequence : Z) o : PendingOutpointOwner :=
  match po_by_token o !! sequence with
  | None => o
  | Some claim =>
      let rows := foldl (λ rows outpoint, match rows !! outpoint with
                                          | Some row => if ro_sequence row =? sequence then delete outpoint rows else rows
                                          | None => rows
                                          end) (po_by_outpoint o) (cl_inputs claim) in
      set_owner_maps o rows (delete sequence (po_by_token o))
  end.

(* rust: node/pending_outpoint_owner.rs 216-252 reserve *)
Definition owner_reserve (room : Room) (id : positive) (context : PendingOutpointAdmissionContext) (txid : bytes)
    (inputs : list Outpoint) : Owner PendingOutpointToken := λ o,
  match (_ ← check_available o context;
         sequence ← ok_or (checked_add u64_max (po_token_high_water o) 1)
                      (pending_unavailable "pending-outpoint token sequence exhausted");
         _ ← first_conflict o inputs;
         if negb (rm_tokens room) then Err (pending_unavailable "pending-outpoint token capacity unavailable") else
         if negb (rm_rows room) then Err (pending_unavailable "pending-outpoint row capacity unavailable") else Ok sequence) with
  | Err e => (Err e, o)
  | Ok sequence =>
      let tokens := <[sequence := mkClaim txid inputs (po_generation o) false]> (po_by_token o) in
      let o := mkOwner (po_by_outpoint o) tokens sequence (po_generation o) (po_transition o) (po_unavailable o) (po_stable_tip o) in
      match tokens !! sequence with
      | None => (Err (pending_internal "pending-outpoint claim publication failed"), o)
      | Some claim =>
          let rows := foldl (λ rows outpoint, <[outpoint := mkRow sequence txid]> rows) (po_by_outpoint o) (cl_inputs claim) in
          (Ok (mkToken id sequence), set_owner_maps o rows tokens)
      end
  end.

(* rust: node/pending_outpoint_owner.rs 340-359 check_candidate *)
Definition check_candidate (id : positive) o token : pres unit :=
  if po_transition o || po_unavailable o then Err (pending_unavailable "pending-outpoint owner transition in progress") else
  claim ← claim id o token;
  claim ← ok_or claim (pending_unavailable "pending-outpoint token is no longer live");
  if negb (cl_generation claim =? po_generation o)
  then Err (pending_unavailable "pending-outpoint token belongs to an older generation") else Ok ().

Definition finalized (c : PendingOutpointClaim) : PendingOutpointClaim :=
  mkClaim (cl_txid c) (cl_inputs c) (cl_generation c) true.

(* rust: node/pending_outpoint_owner.rs 451-455 finalize_after_validation *)
Definition finalize_after_validation token o : PendingOutpointOwner :=
  match po_by_token o !! tk_sequence token with
  | Some claim => set_owner_maps o (po_by_outpoint o) (<[tk_sequence token := finalized claim]> (po_by_token o))
  | None => o
  end.

(* rust: node/pending_outpoint_owner.rs 456-458 drop_after_validation *)
Definition drop_after_validation token o : PendingOutpointOwner := drop_claim (tk_sequence token) o.

(* rust: node/pending_outpoint_owner.rs 253-265 finalize *)
Definition owner_finalize (id : positive) token : Owner unit := λ o,
  match check_candidate id o token with
  | Err e => (Err e, o)
  | Ok _ =>
      match po_by_token o !! tk_sequence token with
      | None => (Err (pending_internal "pending-outpoint claim is not live"), o)
      | Some claim => (Ok (), set_owner_maps o (po_by_outpoint o) (<[tk_sequence token := finalized claim]> (po_by_token o)))
      end
  end.

(** The rows of a claim are its own. *)
(* rust: node/pending_outpoint_owner.rs 284-295 release *)
Definition check_rows o (sequence : Z) (txid : bytes) (inputs : list Outpoint) : pres unit :=
  try_for_each (λ outpoint,
    row ← ok_or (po_by_outpoint o !! outpoint) (pending_internal "pending-outpoint row is missing");
    if negb (ro_sequence row =? sequence) || negb (bool_decide (ro_txid row = txid))
    then Err (pending_internal "pending-outpoint row mismatch") else Ok ()) inputs.

(* rust: node/pending_outpoint_owner.rs 266-298 release *)
Definition owner_release (id : positive) token : Owner unit := λ o,
  match (claim ← claim id o token;
         match claim with
         | None => if bool_decide (map_Exists (λ _ row, ro_sequence row = tk_sequence token) (po_by_outpoint o))
                   then Err (pending_internal "pending-outpoint claim is missing with live row") else Ok false
         | Some claim => _ ← check_rows o (tk_sequence token) (cl_txid claim) (cl_inputs claim); Ok true
         end) with
  | Err e => (Err e, o)
  | Ok false => (Ok (), o)
  | Ok true => (Ok (), drop_claim (tk_sequence token) o)
  end.

(* rust: node/pending_outpoint_owner.rs 299-339 validate_standard_entry *)
Definition validate_standard_entry (id : positive) o (txid : bytes) (inputs : list Outpoint)
    (token : option PendingOutpointToken) (is_finalized : bool) : pres unit :=
  if bool_decide (inputs = []) then
    match token with
    | None => Ok ()
    | Some _ => Err (pending_internal "pending-outpoint token on inputless entry")
    end else
  token ← ok_or token (pending_internal "missing pending-outpoint token");
  claim ← claim id o token;
  claim ← ok_or claim (pending_internal "pending-outpoint claim is not live");
  if negb (bool_decide (cl_txid claim = txid)) || negb (Bool.eqb (cl_finalized claim) is_finalized)
     || negb (bool_decide (cl_inputs claim = inputs))
  then Err (pending_internal "pending-outpoint claim mismatch") else
  check_rows o (tk_sequence token) txid inputs.

(* rust: node/pending_outpoint_owner.rs 360-371 begin_transition *)
Definition owner_begin_transition : Owner unit := λ o,
  if po_transition o || po_unavailable o
  then (Err (pending_unavailable "pending-outpoint owner transition already active"), o) else
  match checked_add u64_max (po_generation o) 1 with
  | None => (Err (pending_unavailable "pending-outpoint generation exhausted"), o)
  | Some generation => (Ok (), set_owner_phase o generation true (po_unavailable o) (po_stable_tip o))
  end.

(* rust: node/pending_outpoint_owner.rs 372-381 commit_stable_tip *)
Definition owner_commit_stable_tip (tip : PendingOutpointTip) : Owner unit := λ o,
  if negb (po_transition o) || po_unavailable o
  then (Err (pending_internal "pending-outpoint stable tip commit without active transition"), o)
  else (Ok (), set_owner_phase o (po_generation o) false (po_unavailable o) tip).

(* rust: node/pending_outpoint_owner.rs 382-390 reopen_old_tip *)
Definition owner_reopen_old_tip : Owner unit := λ o,
  if negb (po_transition o) || po_unavailable o
  then (Err (pending_internal "pending-outpoint transition abort without active transition"), o)
  else (Ok (), set_owner_phase o (po_generation o) false (po_unavailable o) (po_stable_tip o)).

(* rust: node/pending_outpoint_owner.rs 460-481 validate_request *)
Definition validate_request (room : Room) (txid : bytes) (inputs : list Outpoint) : pres unit :=
  if bool_decide (txid = zeros 32) then Err (pending_internal "zero pending-outpoint txid") else
  if bool_decide (inputs = []) || (MAX_TX_INPUTS <? len inputs) then Err (pending_internal "invalid pending-outpoint input count") else
  if negb (rm_inputs room) then Err (pending_unavailable "pending-outpoint input capacity unavailable") else
  _ ← try_fold (λ (seen : gset Outpoint) outpoint,
        if decide (outpoint ∈ seen) then Err (pending_internal "duplicate pending-outpoint input") else Ok ({[outpoint]} ∪ seen)) ∅ inputs;
  Ok ().

(** ** The handle *)

Implicit Types (h : PendingOutpointOwnerHandle).

(** [self.lock()?] with an operation on the owner. *)
(* rust: node/pending_outpoint_owner.rs 156-162 lock *)
Definition with_lock {A} (op : Owner A) : ST PendingOutpointOwnerHandle PendingOutpointError A := λ h,
  if oh_poisoned h then (Err (pending_unavailable "pending-outpoint owner lock unavailable"), h) else
  let '(r, o) := op (oh_owner h) in (r, mkHandle (oh_id h) (oh_poisoned h) o).

(* rust: node/pending_outpoint_owner.rs 106-108 same_owner *)
Definition same_owner h other : bool := bool_decide (oh_id h = oh_id other).
(* rust: node/pending_outpoint_owner.rs 109-113 admission_context *)
Definition handle_admission_context : ST PendingOutpointOwnerHandle PendingOutpointError PendingOutpointAdmissionContext :=
  with_lock (λ o, (admission_context o, o)).
(* rust: node/pending_outpoint_owner.rs 114-122 reserve *)
Definition handle_reserve (room : Room) (context : PendingOutpointAdmissionContext) (txid : bytes) (inputs : list Outpoint) :
    ST PendingOutpointOwnerHandle PendingOutpointError PendingOutpointToken := λ h,
  (_ ← lift (validate_request room txid inputs); with_lock (owner_reserve room (oh_id h) context txid inputs)) h.
(* rust: node/pending_outpoint_owner.rs 123-128 finalize *)
Definition handle_finalize token : ST PendingOutpointOwnerHandle PendingOutpointError unit := λ h,
  with_lock (owner_finalize (oh_id h) token) h.
(* rust: node/pending_outpoint_owner.rs 129-131 release *)
Definition handle_release token : ST PendingOutpointOwnerHandle PendingOutpointError unit := λ h,
  with_lock (owner_release (oh_id h) token) h.
(* rust: node/pending_outpoint_owner.rs 132-137 txid_for_outpoint *)
Definition handle_txid_for_outpoint (outpoint : Outpoint) :
    ST PendingOutpointOwnerHandle PendingOutpointError (option bytes) :=
  with_lock (λ o, (Ok (ro_txid <$> po_by_outpoint o !! outpoint), o)).
(* rust: node/pending_outpoint_owner.rs 138-140 begin_transition *)
Definition handle_begin_transition : ST PendingOutpointOwnerHandle PendingOutpointError unit := with_lock owner_begin_transition.
(* rust: node/pending_outpoint_owner.rs 141-146 commit_stable_tip *)
Definition handle_commit_stable_tip (tip : PendingOutpointTip) : ST PendingOutpointOwnerHandle PendingOutpointError unit :=
  with_lock (owner_commit_stable_tip tip).
(* rust: node/pending_outpoint_owner.rs 147-149 reopen_old_tip *)
Definition handle_reopen_old_tip : ST PendingOutpointOwnerHandle PendingOutpointError unit := with_lock owner_reopen_old_tip.
(* rust: node/pending_outpoint_owner.rs 150-155 latch_unavailable *)
Definition latch_unavailable h : PendingOutpointOwnerHandle :=
  if oh_poisoned h then h else
  mkHandle (oh_id h) (oh_poisoned h)
    (set_owner_phase (oh_owner h) (po_generation (oh_owner h)) false true (po_stable_tip (oh_owner h))).
End owner.

(** ** The invariant *)

Section invariant.
Context `{HX : Hex}.
Implicit Types (o : PendingOutpointOwner) (token : PendingOutpointToken).

(** The rows are the inputs of the live claims, under their numbers. *)
Record owner_wf o : Prop := mkOwnerWf {
  wf_row : ∀ op row, po_by_outpoint o !! op = Some row →
    ∃ c, po_by_token o !! ro_sequence row = Some c ∧ cl_txid c = ro_txid row ∧ op ∈ cl_inputs c;
  wf_claim : ∀ s c, po_by_token o !! s = Some c →
    0 < s ≤ po_token_high_water o ∧ cl_generation c ≤ po_generation o
    ∧ ∀ op, op ∈ cl_inputs c → po_by_outpoint o !! op = Some (mkRow s (cl_txid c));
  wf_high : 0 ≤ po_token_high_water o ≤ u64_max }.

Lemma new_owner_wf id context : owner_wf (oh_owner (new_with_context id context)).
Proof. split; cbn; [by intros ?? ?%lookup_empty_Some|by intros ?? ?%lookup_empty_Some|by unfold u64_max]. Qed.

(** [f] keeps the tables. *)
Lemma phase_wf o generation transition unavailable tip : po_generation o ≤ generation → owner_wf o →
  owner_wf (set_owner_phase o generation transition unavailable tip).
Proof.
  intros Hg [Hr Hc Hh]. split; cbn; [exact Hr| |exact Hh]. intros s c Hs. destruct (Hc s c Hs) as (? & ? & ?). split_and!; try done; lia.
Qed.

Lemma publish_rows (rows : gmap Outpoint PendingOutpointRow) row ops op :
  foldl (λ rows outpoint, <[outpoint := row]> rows) rows ops !! op = if decide (op ∈ ops) then Some row else rows !! op.
Proof.
  revert rows; induction ops as [|x ops IH]; intros rows; cbn [foldl]; [done|]. rewrite IH.
  destruct (decide (op ∈ ops)) as [Hi|Hi]; [by rewrite decide_True by (by right)|].
  destruct (decide (op = x)) as [->|Hne]; [by rewrite lookup_insert_eq, decide_True by left|].
  rewrite lookup_insert_ne by done. rewrite decide_False; [done|]. rewrite elem_of_cons. tauto.
Qed.

Lemma drop_rows (rows : gmap Outpoint PendingOutpointRow) s ops op :
  foldl (λ rows outpoint, match rows !! outpoint with
                          | Some row => if ro_sequence row =? s then delete outpoint rows else rows
                          | None => rows
                          end) rows ops !! op
  = row ← rows !! op; if decide (op ∈ ops ∧ ro_sequence row = s) then None else Some row.
Proof.
  revert rows; induction ops as [|x ops IH]; intros rows; cbn [foldl].
  { destruct (rows !! op); cbn; [|done]. rewrite decide_False; [done|]. by intros [?%elem_of_nil _]. }
  rewrite IH. destruct (rows !! x) as [rx|] eqn:Hx; [destruct (ro_sequence rx =? s) eqn:Hs|].
  - destruct (decide (op = x)) as [->|Hne].
    + rewrite lookup_delete_eq, Hx. cbn. rewrite decide_True; [done|]. split; [left|lia].
    + rewrite lookup_delete_ne by done. destruct (rows !! op); [|done]. cbn. apply decide_ext. rewrite elem_of_cons. tauto.
  - destruct (rows !! op) as [r|] eqn:Ho; [|done]. cbn. apply decide_ext. rewrite elem_of_cons. split; [tauto|].
    intros [[->|?] ?]; [|done]. rewrite Hx in Ho. injection Ho as ->. lia.
  - destruct (rows !! op) as [r|] eqn:Ho; [|done]. cbn. apply decide_ext. rewrite elem_of_cons. split; [tauto|].
    intros [[->|?] ?]; [congruence|done].
Qed.

(** Dropping a claim frees its inputs and touches nothing else. *)
Lemma drop_claim_lookup o s c op : owner_wf o → po_by_token o !! s = Some c →
  po_by_outpoint (drop_claim s o) !! op = if decide (op ∈ cl_inputs c) then None else po_by_outpoint o !! op.
Proof.
  intros [Hr Hc _] Hs. unfold drop_claim. rewrite Hs. cbn. rewrite drop_rows. destruct (Hc s c Hs) as (_ & _ & Hin).
  destruct (decide (op ∈ cl_inputs c)) as [Hi|Hi].
  - rewrite (Hin op Hi). cbn. by rewrite decide_True.
  - destruct (po_by_outpoint o !! op); cbn; [|done]. rewrite decide_False; [done|]. by intros [? _].
Qed.

Lemma drop_claim_wf s o : owner_wf o → owner_wf (drop_claim s o).
Proof.
  intros Hwf. pose proof Hwf as [Hr Hc Hh]. destruct (po_by_token o !! s) as [c|] eqn:Hs; [|unfold drop_claim; by rewrite Hs].
  assert (po_by_token (drop_claim s o) = delete s (po_by_token o) ∧ po_token_high_water (drop_claim s o) = po_token_high_water o
    ∧ po_generation (drop_claim s o) = po_generation o) as (Ht & Hw & Hg) by (unfold drop_claim; by rewrite Hs).
  split; rewrite ?Hw; [| |done].
  - intros op row. rewrite (drop_claim_lookup o s c op Hwf Hs). destruct (decide (op ∈ cl_inputs c)) as [|Hni]; [done|]. intros Hrow.
    destruct (Hr op row Hrow) as (c' & Hc' & ? & Hin). exists c'. rewrite Ht. split_and!; try done.
    rewrite lookup_delete_ne; [done|]. intros ->. rewrite Hs in Hc'. injection Hc' as ->. done.
  - intros s' c'. rewrite Ht. intros [Hne Hs']%lookup_delete_Some. destruct (Hc s' c' Hs') as (? & ? & Hin). rewrite Hg.
    split_and!; try lia. intros op Hop. rewrite (drop_claim_lookup o s c op Hwf Hs). specialize (Hin op Hop).
    rewrite decide_False; [done|]. intros Hop'. destruct (Hc s c Hs) as (_ & _ & Hin'). rewrite (Hin' op Hop') in Hin. by injection Hin.
Qed.

Lemma finalized_wf o s c : owner_wf o → po_by_token o !! s = Some c →
  owner_wf (set_owner_maps o (po_by_outpoint o) (<[s := finalized c]> (po_by_token o))).
Proof.
  intros [Hr Hc Hh] Hs. split; cbn; [| |done].
  - intros op row Hrow. destruct (Hr op row Hrow) as (c' & Hc' & ? & ?). destruct (decide (ro_sequence row = s)) as [He|Hne].
    + exists (finalized c). rewrite He in *. rewrite Hs in Hc'. injection Hc' as <-. by rewrite lookup_insert_eq.
    + exists c'. by rewrite lookup_insert_ne.
  - intros s' c' [[<- <-]|[_ Hs']]%lookup_insert_Some; [by apply (Hc s c)|by apply Hc].
Qed.

Lemma first_conflict_Ok o inputs : first_conflict o inputs = Ok () ↔ ∀ op, op ∈ inputs → po_by_outpoint o !! op = None.
Proof.
  unfold first_conflict. rewrite try_for_each_Ok, list.Forall_forall. apply forall_proper. intros op.
  split; intros H Hop; specialize (H Hop); by destruct (po_by_outpoint o !! op).
Qed.

Lemma check_available_Ok o context : check_available o context = Ok () ↔
  po_transition o = false ∧ po_unavailable o = false ∧ context = mkAdmissionContext (po_stable_tip o) (po_generation o).
Proof.
  unfold check_available. destruct context as [tip g]. cbn [ac_tip ac_generation].
  destruct (po_transition o), (po_unavailable o); cbn [orb]; try (split; [done|by intros (? & ? & _)]).
  case_bool_decide as Ht; cbn [negb]; [|split; [done|by intros (_ & _ & [= ? _])]].
  destruct (Z.eqb_spec g (po_generation o)) as [->|Hg]; cbn [negb]; [|split; [done|by intros (_ & _ & [= _ ?])]].
  rewrite Ht. done.
Qed.

(** What [reserve] publishes. *)
Definition reserved o txid inputs : PendingOutpointOwner :=
  mkOwner (foldl (λ rows outpoint, <[outpoint := mkRow (po_token_high_water o + 1) txid]> rows) (po_by_outpoint o) inputs)
    (<[po_token_high_water o + 1 := mkClaim txid inputs (po_generation o) false]> (po_by_token o))
    (po_token_high_water o + 1) (po_generation o) (po_transition o) (po_unavailable o) (po_stable_tip o).

Lemma owner_reserve_Ok room id context txid inputs o t o' : owner_reserve room id context txid inputs o = (Ok t, o') ↔
  check_available o context = Ok () ∧ po_token_high_water o < u64_max ∧ first_conflict o inputs = Ok ()
  ∧ rm_tokens room = true ∧ rm_rows room = true ∧ t = mkToken id (po_token_high_water o + 1) ∧ o' = reserved o txid inputs.
Proof.
  unfold owner_reserve. destruct (check_available o context) as [[]|e]; run_bind; [|split; [done|by intros [? _]]].
  unfold checked_add. destruct (po_token_high_water o + 1 <=? u64_max) eqn:Hm; cbn [ok_or]; run_bind; [|split; [done|intros (_ & ? & _); lia]].
  destruct (first_conflict o inputs) as [[]|e]; run_bind; [|split; [done|by intros (_ & _ & ? & _)]].
  destruct (rm_tokens room); cbn [negb]; [|split; [done|by intros (_ & _ & _ & ? & _)]].
  destruct (rm_rows room); cbn [negb]; [|split; [done|by intros (_ & _ & _ & _ & ? & _)]].
  rewrite lookup_insert_eq. cbn [cl_inputs]. unfold reserved, set_owner_maps. cbn. split.
  - intros [= <- <-]. split_and!; try done. lia.
  - by intros (_ & _ & _ & _ & _ & -> & ->).
Qed.

Lemma owner_reserve_Err room id context txid inputs o e o' : owner_reserve room id context txid inputs o = (Err e, o') → o' = o.
Proof. unfold owner_reserve. destruct (_ ← _; _) as [s|x]; [|by intros [= _ <-]]. by rewrite lookup_insert_eq. Qed.

Lemma reserved_wf o txid inputs : owner_wf o → po_token_high_water o < u64_max → first_conflict o inputs = Ok () →
  owner_wf (reserved o txid inputs).
Proof.
  intros [Hr Hc Hh] Hm Hf. rewrite first_conflict_Ok in Hf. set (s := po_token_high_water o + 1).
  assert (po_by_token o !! s = None) as Hnew.
  { destruct (po_by_token o !! s) as [c|] eqn:E; [|done]. destruct (Hc s c E) as (? & _). unfold s in *. lia. }
  split; cbn; fold s; [| |unfold s in *; lia].
  - intros op row. rewrite publish_rows. destruct (decide (op ∈ inputs)) as [Hi|Hi].
    + intros [= <-]. cbn. eexists. by rewrite lookup_insert_eq.
    + intros Hrow. destruct (Hr op row Hrow) as (c & Hcl & ? & ?). exists c. rewrite lookup_insert_ne; [done|]. intros Heq. congruence.
  - intros s' c [[<- <-]|[Hne Hs]]%lookup_insert_Some; cbn.
    + split; [unfold s; lia|]. split; [lia|]. intros op Hop. by rewrite publish_rows, decide_True.
    + destruct (Hc s' c Hs) as (? & ? & Hin). split; [unfold s; lia|]. split; [done|]. intros op Hop. rewrite publish_rows.
      specialize (Hin op Hop). rewrite decide_False; [done|]. intros Hi. rewrite (Hf op Hi) in Hin. done.
Qed.
End invariant.

(** ** Every use of the owner *)

Section steps.
Context `{HX : Hex}.
Implicit Types (h : PendingOutpointOwnerHandle).

Definition with_owner h o : PendingOutpointOwnerHandle := mkHandle (oh_id h) (oh_poisoned h) o.

(** The calls that other threads may make, in any order, with any arguments;
    the pool's two updates under the lock; and a panic under the lock. *)
Inductive handle_step h : PendingOutpointOwnerHandle → Prop :=
  | step_reserve room context txid inputs : handle_step h (handle_reserve room context txid inputs h).2
  | step_finalize token : handle_step h (handle_finalize token h).2
  | step_release token : handle_step h (handle_release token h).2
  | step_begin : handle_step h (handle_begin_transition h).2
  | step_commit tip : handle_step h (handle_commit_stable_tip tip h).2
  | step_reopen : handle_step h (handle_reopen_old_tip h).2
  | step_latch : handle_step h (latch_unavailable h)
  | step_pool_finalize token : oh_poisoned h = false → handle_step h (with_owner h (finalize_after_validation token (oh_owner h)))
  | step_pool_drop token : oh_poisoned h = false → handle_step h (with_owner h (drop_after_validation token (oh_owner h)))
  | step_poison : handle_step h (mkHandle (oh_id h) true (oh_owner h)).

Definition reachable h : Prop := ∃ id context, rtc handle_step (new_with_context id context) h.

(** What every step keeps: the invariant, and for the numbers given out so far
    the claims that are still there. *)
Record owner_later (o o' : PendingOutpointOwner) : Prop := mkOwnerLater {
  lt_wf : owner_wf o → owner_wf o';
  lt_generation : po_generation o ≤ po_generation o';
  lt_high : po_token_high_water o ≤ po_token_high_water o';
  lt_claims : ∀ s c', s ≤ po_token_high_water o → po_by_token o' !! s = Some c' →
    ∃ c, po_by_token o !! s = Some c ∧ cl_generation c = cl_generation c' }.

#[export] Instance owner_later_preorder : PreOrder owner_later.
Proof.
  split.
  - intros o. split; [done|lia|lia|by eauto].
  - intros o1 o2 o3 [Hw1 Hg1 Hh1 Hc1] [Hw2 Hg2 Hh2 Hc2]. split; [tauto|lia|lia|]. intros s c3 Hs H3.
    destruct (Hc2 s c3 ltac:(lia) H3) as (c2 & H2 & <-). by apply Hc1.
Qed.

Lemma with_lock_later {A} (op : Owner A) h : (∀ r o', op (oh_owner h) = (r, o') → owner_later (oh_owner h) o') →
  owner_later (oh_owner h) (oh_owner (with_lock op h).2).
Proof.
  intros H. unfold with_lock. destruct (oh_poisoned h); [reflexivity|]. destruct (op (oh_owner h)) as [r o'] eqn:E. by eapply H.
Qed.

Lemma drop_later s o : owner_later o (drop_claim s o).
Proof.
  split; [apply drop_claim_wf|..]; unfold drop_claim; destruct (po_by_token o !! s) as [c|] eqn:Hs; cbn; try lia; [|by eauto].
  intros s' c' _ [_ H]%lookup_delete_Some. by eauto.
Qed.

Lemma finalized_later s c o : po_by_token o !! s = Some c →
  owner_later o (set_owner_maps o (po_by_outpoint o) (<[s := finalized c]> (po_by_token o))).
Proof.
  intros Hs. split; cbn; [intros Hwf; by apply finalized_wf|lia|lia|].
  intros s' c' _ [[<- <-]|[_ ?]]%lookup_insert_Some; [by exists c|by eauto].
Qed.

Lemma phase_later o generation transition unavailable tip : po_generation o ≤ generation →
  owner_later o (set_owner_phase o generation transition unavailable tip).
Proof. intros Hg. split; cbn; [by apply phase_wf|done|lia|by eauto]. Qed.

Lemma handle_step_later h h' : handle_step h h' → owner_later (oh_owner h) (oh_owner h').
Proof.
  destruct 1; cbn [oh_owner with_owner]; try reflexivity.
  - unfold handle_reserve, mbind, st_bind, lift. destruct (validate_request _ _ _) as [[]|]; [|reflexivity].
    apply with_lock_later. intros [t|e] o' Ho; [|apply owner_reserve_Err in Ho as ->; reflexivity].
    apply owner_reserve_Ok in Ho as (_ & Hm & Hf & _ & _ & _ & ->).
    split; cbn; [intros Hwf; by apply reserved_wf|lia|lia|]. intros s c' Hs [[<- _]|[_ ?]]%lookup_insert_Some; [lia|by eauto].
  - apply with_lock_later. intros r o'. unfold owner_finalize. destruct (check_candidate _ _ _); [|intros [= _ <-]; reflexivity].
    destruct (_ !! _) as [c|] eqn:Hs; intros [= _ <-]; [by apply finalized_later|reflexivity].
  - apply with_lock_later. intros r o'. unfold owner_release. destruct (_ ← _; _) as [[]|]; intros [= _ <-]; [apply drop_later|reflexivity..].
  - apply with_lock_later. intros r o'. unfold owner_begin_transition. destruct (_ || _); [intros [= _ <-]; reflexivity|].
    destruct (checked_add _ _ _) as [g|] eqn:Hg; intros [= _ <-]; [|reflexivity]. apply checked_add_Some in Hg as [-> _].
    apply phase_later. lia.
  - apply with_lock_later. intros r o'. unfold owner_commit_stable_tip. destruct (_ || _); intros [= _ <-]; [reflexivity|].
    by apply phase_later.
  - apply with_lock_later. intros r o'. unfold owner_reopen_old_tip. destruct (_ || _); intros [= _ <-]; [reflexivity|].
    by apply phase_later.
  - unfold latch_unavailable. destruct (oh_poisoned h); [reflexivity|]. by apply phase_later.
  - unfold finalize_after_validation. destruct (_ !! _) as [c|] eqn:Hs; [by apply finalized_later|reflexivity].
  - apply drop_later.
Qed.

Lemma steps_later h h' : rtc handle_step h h' → owner_later (oh_owner h) (oh_owner h').
Proof. induction 1 as [|h1 h2 h3 Hs%handle_step_later _ IH]; [reflexivity|]. by etransitivity. Qed.

Lemma reachable_wf h : reachable h → owner_wf (oh_owner h).
Proof. intros (id & context & Hr%steps_later). apply (lt_wf _ _ Hr), new_owner_wf. Qed.

Lemma check_rows_ok o s c : owner_wf o → po_by_token o !! s = Some c → check_rows o s (cl_txid c) (cl_inputs c) = Ok ().
Proof.
  intros Hwf Hs. destruct (wf_claim o Hwf s c Hs) as (_ & _ & Hin). unfold check_rows. apply try_for_each_Ok, list.Forall_forall.
  intros op Hop. rewrite (Hin op Hop). cbn [ok_or]. run_bind. cbn [ro_sequence ro_txid].
  by rewrite Z.eqb_refl, bool_decide_eq_true_2.
Qed.

Lemma no_orphan_row o s : owner_wf o → po_by_token o !! s = None → ¬ map_Exists (λ _ row, ro_sequence row = s) (po_by_outpoint o).
Proof. intros Hwf Hs (op & row & Hrow & He). destruct (wf_row o Hwf op row Hrow) as (c & Hc & _). congruence. Qed.

Lemma live_exclusive o s1 c1 s2 c2 op : owner_wf o → po_by_token o !! s1 = Some c1 → po_by_token o !! s2 = Some c2 →
  op ∈ cl_inputs c1 → op ∈ cl_inputs c2 → s1 = s2.
Proof.
  intros Hwf H1 H2 Hi1 Hi2. destruct (wf_claim o Hwf _ _ H1) as (_ & _ & Hr1). destruct (wf_claim o Hwf _ _ H2) as (_ & _ & Hr2).
  specialize (Hr1 op Hi1). rewrite (Hr2 op Hi2) in Hr1. by injection Hr1.
Qed.

(** C17: an outpoint has one owner. After any calls, in any order and whatever
    they return: two live reservations never share an outpoint; the transaction
    that an outpoint is reported to be reserved by is the one of the live
    reservation that lists it, and an outpoint of no live reservation is free;
    and a holder can always give a reservation back, which frees exactly its
    outpoints: the reports of inconsistent tables do not occur. *)
Theorem reservations_exclusive h : reachable h → oh_poisoned h = false →
  let o := oh_owner h in
  (∀ s1 c1 s2 c2 op, po_by_token o !! s1 = Some c1 → po_by_token o !! s2 = Some c2 →
     op ∈ cl_inputs c1 → op ∈ cl_inputs c2 → s1 = s2)
  ∧ (∀ op txid, (handle_txid_for_outpoint op h).1 = Ok (Some txid) ↔
       ∃ s c, po_by_token o !! s = Some c ∧ op ∈ cl_inputs c ∧ cl_txid c = txid)
  ∧ ∀ token, owns (oh_id h) token = true → tk_sequence token ≤ po_token_high_water o →
      ∃ h', handle_release token h = (Ok (), h') ∧ po_by_token (oh_owner h') = delete (tk_sequence token) (po_by_token o)
        ∧ ∀ op, po_by_outpoint (oh_owner h') !! op =
            if decide (op ∈ default [] (cl_inputs <$> po_by_token o !! tk_sequence token)) then None else po_by_outpoint o !! op.
Proof.
  intros Hr Hp o. pose proof (reachable_wf h Hr) as Hwf. fold o in Hwf. split; [|split].
  - intros s1 c1 s2 c2 op. by apply live_exclusive.
  - intros op txid. unfold handle_txid_for_outpoint, with_lock. rewrite Hp. cbn [fst]. fold o. split.
    + intros [= H]. apply fmap_Some in H as (row & Hrow & ->). destruct (wf_row o Hwf op row Hrow) as (c & ? & ? & ?). by eauto.
    + intros (s & c & Hs & Hin & <-). destruct (wf_claim o Hwf s c Hs) as (_ & _ & Hrow). by rewrite (Hrow op Hin).
  - intros token Ho Hs. unfold handle_release, with_lock, owner_release, claim. rewrite Hp, Ho. cbn [negb]. fold o.
    replace (po_token_high_water o <? tk_sequence token) with false by lia. cbn [mbind result_bind].
    destruct (po_by_token o !! tk_sequence token) as [c|] eqn:Hc.
    + rewrite (check_rows_ok o _ c Hwf Hc). run_bind. eexists. split; [reflexivity|]. cbn [oh_owner]. split.
      { unfold drop_claim. by rewrite Hc. }
      intros op. by rewrite (drop_claim_lookup o _ c op Hwf Hc).
    + rewrite bool_decide_eq_false_2 by (by apply no_orphan_row). eexists. split; [reflexivity|]. cbn [oh_owner]. split.
      { by rewrite delete_id. }
      intros op. rewrite decide_False; [done|]. apply not_elem_of_nil.
Qed.

Lemma begin_generation h h' : handle_begin_transition h = (Ok (), h') → po_generation (oh_owner h') = po_generation (oh_owner h) + 1.
Proof.
  unfold handle_begin_transition, with_lock, owner_begin_transition. destruct (oh_poisoned h); [done|]. destruct (_ || _); [done|].
  destruct (checked_add _ _ _) as [g|] eqn:Hg; [|done]. apply checked_add_Some in Hg as [-> _]. by intros [= <-].
Qed.

Lemma old_context o context : ac_generation context < po_generation o → ∃ e, check_available o context = Err e.
Proof.
  intros Hg. unfold check_available. destruct (_ || _); [by eexists|]. destruct (negb _); [by eexists|].
  replace (ac_generation context =? po_generation o) with false by lia. by eexists.
Qed.

(** C18: an admission does not survive a change of the tip. Once a transition
    has begun after an admission context was taken, whatever happens in between
    and afterwards, nothing more is reserved with the context, and a
    reservation that was made with it is never confirmed: work on a
    transaction that was validated against the old tip cannot enter the pool
    at the new one. *)
Theorem admission_fenced h1 h2 h3 h4 context :
  admission_context (oh_owner h1) = Ok context → rtc handle_step h1 h2 → handle_begin_transition h2 = (Ok (), h3) →
  rtc handle_step h3 h4 →
  (∀ room txid inputs, ∃ e, (handle_reserve room context txid inputs h4).1 = Err e)
  ∧ (owner_wf (oh_owner h1) → ∀ room txid inputs token h1', handle_reserve room context txid inputs h1 = (Ok token, h1') →
       rtc handle_step h1' h2 → ∃ e, (handle_finalize token h4).1 = Err e).
Proof.
  intros Hc H12%steps_later Hb H34%steps_later. apply lt_generation in H12.
  pose proof (begin_generation h2 h3 Hb) as Hg. pose proof (lt_generation _ _ H34).
  assert (ac_generation context = po_generation (oh_owner h1)) as Hca.
  { revert Hc. unfold admission_context. destruct (_ || _ || _); [done|]. by intros [= <-]. }
  split.
  - intros room txid inputs. unfold handle_reserve, mbind, st_bind, lift. destruct (validate_request _ _ _) as [[]|e]; [|by eexists].
    unfold with_lock. destruct (oh_poisoned h4); [by eexists|]. unfold owner_reserve.
    destruct (old_context (oh_owner h4) context ltac:(lia)) as [e ->]. by eexists.
  - intros Hwf room txid inputs token h1' Hr H12'%steps_later.
    assert (owner_later (oh_owner h2) (oh_owner h3)) as H23.
    { replace h3 with (handle_begin_transition h2).2 by (by rewrite Hb). apply handle_step_later. constructor. }
    revert Hr. unfold handle_reserve, mbind, st_bind, lift. destruct (validate_request _ _ _) as [[]|?]; [|done].
    unfold with_lock at 1. destruct (oh_poisoned h1); [done|]. destruct (owner_reserve _ _ _ _ _ _) as [[t|?] o'] eqn:Ho; [|done].
    intros [= <- <-]. apply owner_reserve_Ok in Ho as (_ & Hm & Hf & _ & _ & -> & ->). cbn [oh_owner] in *.
    assert (owner_later (reserved (oh_owner h1) txid inputs) (oh_owner h4)) as H14 by (etransitivity; [exact H12'|by etransitivity]).
    unfold handle_finalize, with_lock. destruct (oh_poisoned h4); [by eexists|]. unfold owner_finalize, check_candidate.
    destruct (_ || _); [by eexists|]. destruct (claim _ _ _) as [[c|]|e] eqn:Hcl; cbn [mbind result_bind ok_or]; [|by eexists..].
    assert (po_by_token (oh_owner h4) !! (po_token_high_water (oh_owner h1) + 1) = Some c) as Hc4.
    { revert Hcl. unfold claim. destruct (negb _); [done|]. destruct (_ <? _); [done|]. by intros [= ->]. }
    destruct (lt_claims _ _ H14 (po_token_high_water (oh_owner h1) + 1) c ltac:(cbn; lia) Hc4) as (c1 & Hc1 & Hge). cbn in Hc1. rewrite lookup_insert_eq in Hc1.
    injection Hc1 as <-. cbn in Hge. replace (cl_generation c =? _) with false by lia. by eexists.
Qed.
End steps.

(** ** What a reservation asks for *)

Section reserve.
Context `{HX : Hex}.

Lemma distinct_inputs (inputs : list Outpoint) (seen s : gset Outpoint) :
  try_fold (λ (seen : gset Outpoint) outpoint,
    if decide (outpoint ∈ seen) then Err (pending_internal "duplicate pending-outpoint input") else Ok ({[outpoint]} ∪ seen)) seen inputs = Ok s
  ↔ NoDup inputs ∧ (∀ op, op ∈ inputs → op ∉ seen) ∧ s = list_to_set inputs ∪ seen.
Proof.
  revert seen; induction inputs as [|op inputs IH]; intros seen; cbn [try_fold].
  - split; [intros [= <-]; split; [constructor|]; split; [by intros ? ?%elem_of_nil|set_solver]|]. intros (_ & _ & ->). f_equal. set_solver.
  - rewrite list.NoDup_cons. destruct (decide (op ∈ seen)) as [Hi|Hi]; run_bind.
    { split; [done|]. intros (_ & H & _). destruct (H op ltac:(left) Hi). }
    rewrite IH. split.
    + intros (Hnd & Hd & ->). split_and!; [|done| |set_solver].
      * intros Hin. specialize (Hd op Hin). set_solver.
      * intros x [->|Hx]%elem_of_cons; [done|]. specialize (Hd x Hx). set_solver.
    + intros ([Hni Hnd] & Hd & ->). split_and!; [done| |set_solver]. intros x Hx. assert (x ≠ op) by (by intros ->).
      specialize (Hd x ltac:(by right)). set_solver.
Qed.

Lemma validate_request_Ok txid inputs : validate_request has_room txid inputs = Ok () ↔
  txid ≠ zeros 32 ∧ inputs ≠ [] ∧ len inputs ≤ MAX_TX_INPUTS ∧ NoDup inputs.
Proof.
  unfold validate_request. case_bool_decide as Ht; [split; [done|by intros []]|]. case_bool_decide as Hi; [split; [done|by intros (_ & ? & _)]|].
  cbn [orb has_room rm_inputs negb]. destruct (MAX_TX_INPUTS <? len inputs) eqn:E; [split; [done|intros (_ & _ & ? & _); lia]|]. split.
  - intros H. apply bind_Ok in H as (s & (Hnd & _)%distinct_inputs & _). split_and!; try done. lia.
  - intros (_ & _ & _ & Hnd). rewrite (proj2 (distinct_inputs inputs ∅ (list_to_set inputs ∪ ∅))); [done|].
    split; [done|]. split; [set_solver|done].
Qed.

(** A reservation is made exactly when the owner is open at the caller's
    context, the request is well formed and every outpoint is free; it takes
    the next number. *)
Theorem reserve_iff context txid inputs h token h' : oh_poisoned h = false →
  handle_reserve has_room context txid inputs h = (Ok token, h') ↔
  let o := oh_owner h in
  (txid ≠ zeros 32 ∧ inputs ≠ [] ∧ len inputs ≤ MAX_TX_INPUTS ∧ NoDup inputs)
  ∧ (po_transition o = false ∧ po_unavailable o = false ∧ context = mkAdmissionContext (po_stable_tip o) (po_generation o))
  ∧ po_token_high_water o < u64_max ∧ (∀ op, op ∈ inputs → po_by_outpoint o !! op = None)
  ∧ token = mkToken (oh_id h) (po_token_high_water o + 1) ∧ h' = with_owner h (reserved o txid inputs).
Proof.
  intros Hp. cbv zeta. rewrite <- validate_request_Ok, <- check_available_Ok, <- first_conflict_Ok.
  unfold handle_reserve, mbind, st_bind, lift. destruct (validate_request _ _ _) as [[]|e]; [|split; [done|by intros [? _]]].
  unfold with_lock. rewrite Hp. destruct (owner_reserve _ _ _ _ _ _) as [[t|e] o'] eqn:Ho; split.
  - intros [= <- <-]. apply owner_reserve_Ok in Ho as (? & ? & ? & _ & _ & -> & ->). unfold with_owner. by rewrite Hp.
  - intros (_ & Ha & Hm & Hf & -> & ->).
    pose proof (proj2 (owner_reserve_Ok has_room (oh_id h) context txid inputs (oh_owner h) _ _)
      (conj Ha (conj Hm (conj Hf (conj eq_refl (conj eq_refl (conj eq_refl eq_refl))))))) as H. rewrite Ho in H. injection H as -> ->.
    unfold with_owner. by rewrite Hp.
  - done.
  - intros (_ & Ha & Hm & Hf & _ & _).
    pose proof (proj2 (owner_reserve_Ok has_room (oh_id h) context txid inputs (oh_owner h) _ _)
      (conj Ha (conj Hm (conj Hf (conj eq_refl (conj eq_refl (conj eq_refl eq_refl))))))) as H. congruence.
Qed.
End reserve.

(** ** Concrete inputs: a reservation, and a transition after it *)

Definition demo_owner : PendingOutpointOwnerHandle := new_owner 1 (mkPendingOutpointTip true 7 (zeros 32)).
Definition demo_context : PendingOutpointAdmissionContext := mkAdmissionContext (mkPendingOutpointTip true 7 (zeros 32)) 0.
Definition demo_outpoint : Outpoint := mkOutpoint (replicate 32 x01) 0.
Definition demo_reserve := handle_reserve (HX := toy_hex) has_room demo_context (replicate 32 x02) [demo_outpoint] demo_owner.
Definition demo_reserved : PendingOutpointOwnerHandle := demo_reserve.2.
Definition demo_fenced : PendingOutpointOwnerHandle := (handle_begin_transition demo_reserved).2.

Lemma demo_reachable : reachable (HX := toy_hex) demo_reserved.
Proof. exists 1%positive, demo_context. apply rtc_once. apply (step_reserve (HX := toy_hex) demo_owner has_room). Qed.

Lemma reservations_exclusive_witness : oh_poisoned demo_reserved = false
  ∧ (handle_txid_for_outpoint demo_outpoint demo_reserved).1 = Ok (Some (replicate 32 x02)).
Proof.
  split; [vm_compute; reflexivity|].
  destruct (reservations_exclusive (HX := toy_hex) demo_reserved demo_reachable ltac:(vm_compute; reflexivity)) as (_ & H & _).
  apply H. exists 1, (mkClaim (replicate 32 x02) [demo_outpoint] 0 false). split; [vm_compute; reflexivity|]. split; [left|reflexivity].
Defined.

Lemma admission_fenced_witness : handle_begin_transition demo_reserved = (Ok (), demo_fenced)
  ∧ (∃ e, (handle_reserve (HX := toy_hex) has_room demo_context (replicate 32 x03) [mkOutpoint (replicate 32 x04) 0] demo_fenced).1 = Err e)
  ∧ ∃ e, (handle_finalize (mkToken 1 1) demo_fenced).1 = Err e.
Proof.
  assert (handle_begin_transition demo_reserved = (Ok (), demo_fenced)) as Hb by (vm_compute; reflexivity).
  split; [exact Hb|].
  destruct (admission_fenced (HX := toy_hex) demo_owner demo_reserved demo_fenced demo_fenced demo_context ltac:(vm_compute; reflexivity)
    (rtc_once _ _ (step_reserve (HX := toy_hex) demo_owner has_room _ _ _)) Hb ltac:(reflexivity)) as [H1 H2]. split; [apply H1|].
  apply (H2 (new_owner_wf _ _) has_room (replicate 32 x02) [demo_outpoint] (mkToken 1 1) demo_reserved); [vm_compute; reflexivity|reflexivity].
Defined.
