(* ===== verification/StoreOps.v ===== *)
(** * The store as the engine sees it ([blockstore.rs])

    The operations of [StoreCommit.v] and [BlockStore.v] on the files by their
    hash and the index together.  A write is one step here: it is done, or it
    fails before or after its commit ([AtomicWrite.v] shows that it has no
    other effect); the state says what the next writes do. *)

From Stdlib Require Import Ascii.
From stdpp Require Import pretty.
From S2P Require Import Prelude Bytes BTree Errors Constants Crypto WireRead CompactSize TxWire TxCodec Block Merkle Pow Subsidy.
From S2P Require Import Vault Suites Verify SigCache WorkerPool SigQueue Sighash Spend Htlc Stealth CovenantGenesis.
From S2P Require Import UtxoApply UtxoRules UtxoDeferred UtxoLedger BlockParse BlockWeight BlockDa BlockBasic ConnectBlock.
From S2P Require Import NodeText ChainState Undo Chain BlockStore StoreFiles AtomicWrite Headers.
From S2P Require Import Base64 Uint128 StoreEnvelope UndoDisk UndoEnvelope StoreCommit Branch.

(** A write that fails: where, and the texts. *)
Record WriteFault : Type := mkWriteFault { wf_stage : AtomicWriteStage; wf_primary : string; wf_secondary : list string }.

(** The store, and what the next operations that write meet; after these they
    meet nothing. *)
Record StoreIo : Type := mkStoreIo { io_store : Store; io_faults : list (option WriteFault) }.

Abbreviation StoreM := (ST StoreIo AtomicWriteError).

Definition write_result (destination : string) (operation : AtomicWriteOperation) (f : option WriteFault) : write_outcome :=
  match f with
  | None => Ok ()
  | Some f => Err (mkAtomicWriteError (wf_stage f) destination operation (wf_primary f) (wf_secondary f))
  end.
(** The destination has the new content. *)
Definition is_visible (o : write_outcome) : bool :=
  match o with Ok _ => true | Err e => is_atomic_write_post_commit e end.

Definition next_fault (s : StoreIo) : option WriteFault := default None (head (io_faults s)).
Definition after_write (s : StoreIo) (store : Store) : StoreIo := mkStoreIo store (tail (io_faults s)).

(** The three directories. *)
Inductive FileClass : Type := BlockFiles | HeaderFiles | UndoFiles.
#[export] Instance FileClass_eq_dec : EqDecision FileClass.
Proof. solve_decision. Defined.
Definition class_dir (c : FileClass) (self : Store) : Directory :=
  match c with BlockFiles => so_blocks self | HeaderFiles => so_headers self | UndoFiles => so_undo self end.
Definition set_class_dir (c : FileClass) (self : Store) (d : Directory) : Store :=
  match c with
  | BlockFiles => mkStore (so_index self) d (so_headers self) (so_undo self)
  | HeaderFiles => mkStore (so_index self) (so_blocks self) d (so_undo self)
  | UndoFiles => mkStore (so_index self) (so_blocks self) (so_headers self) d
  end.
Definition set_index (self : Store) (index : BlockStore) : Store :=
  mkStore index (so_blocks self) (so_headers self) (so_undo self).
Definition add_content (d : Directory) (h content : bytes) : Directory :=
  mkDirectory (dir_path d) (dir_ext d) (<[h := Content content]> (dir_files d)).

Section ops.
Context `{HS : Sha3} `{HX : Hex} `{HU : UndoJson}.

Definition path_of (d : Directory) (h : bytes) : Path := mkPath (dir_path d) (file_name d h).

(** An existing file that passes [check] is synced, an absent one is written;
    [refuse] renders a file that cannot be read. *)
(* rust: node/blockstore.rs 1203-1250 write_file_if_absent_with_typed *)
Definition put_file (c : FileClass) (h content : bytes) (bound : Z) (check : bytes → nres unit)
    (refuse : IoError → string) : StoreM unit := λ s,
  let d := class_dir c (io_store s) in
  let path := path_display (path_of d h) in
  let before := atomic_write_error_before path CreateIfAbsent in
  match validate_atomic_write_destination (path_of d h) CreateIfAbsent with
  | Err e => (Err e, s)
  | Ok _ =>
      match read_file_from_dir d h bound with
      | Ok existing =>
          match check existing with
          | Err e => (Err (before e), s)
          | Ok _ => (match next_fault s with
                     | None => Ok ()
                     | Some f => Err (atomic_write_error_after path CreateIfAbsent (wf_primary f))
                     end, after_write s (io_store s))
          end
      | Err error =>
          if io_not_found error then
            let o := write_result path CreateIfAbsent (next_fault s) in
            (o, after_write s (if is_visible o then set_class_dir c (io_store s) (add_content d h content) else io_store s))
          else (Err (before (refuse error)), s)
      end
  end.

(* rust: node/blockstore.rs 1177-1182 write_file_if_absent_typed *)
Definition put_block_file (c : FileClass) (h content : bytes) : StoreM unit := λ s,
  let path := path_of (class_dir c (io_store s)) h in
  put_file c h content (len content)
    (λ existing, if negb (bool_decide (existing = content)) then Err (existing_content_differs path) else Ok ())
    (λ error, if is_over_bound_refusal error then existing_content_differs path
              else ("read existing " +:+ path_display path +:+ ": " +:+ io_text error)%string) s.

(* rust: node/blockstore.rs 365-382 persist_block_bytes_typed *)
Definition store_block (block_hash_bytes header_bytes block_bytes : bytes) : StoreM unit := λ s,
  let path := path_display (path_of (so_blocks (io_store s)) block_hash_bytes) in
  (_ ← lift (map_err (atomic_write_error_before path CreateIfAbsent)
               (validate_header_matches_hash header_bytes block_hash_bytes));
   _ ← put_block_file BlockFiles block_hash_bytes block_bytes;
   put_block_file HeaderFiles block_hash_bytes header_bytes) s.

(* rust: node/blockstore.rs 765-861 put_undo_typed *)
Definition store_undo (block_hash_bytes : bytes) (undo : BlockUndo) : StoreM unit := λ s,
  let path := path_of (so_undo (io_store s)) block_hash_bytes in
  let before := atomic_write_error_before (path_display path) CreateIfAbsent in
  (raw ← lift (map_err before (marshal_undo_envelope block_hash_bytes undo));
   _ ← lift (map_err before (check_store_save_bound (path_display path) (len raw) UNDO_FILE_MAX_BYTES));
   put_file UndoFiles block_hash_bytes raw UNDO_FILE_MAX_BYTES (validate_existing path block_hash_bytes undo)
     (λ error, "read undo " +:+ path_display path +:+ ": " +:+ io_text error)%string) s.

(** An operation on the index, which writes it once. *)
Definition on_index (op : write_outcome → ST BlockStore AtomicWriteError unit) : StoreM unit := λ s,
  let index := so_index (io_store s) in
  let '(r, index) := op (write_result (bs_index_path index) Overwrite (next_fault s)) index in
  (r, after_write s (set_index (io_store s) index)).

(* rust: node/blockstore.rs 223-328 commit_canonical_block_typed *)
Definition store_commit (height : Z) (block_hash_bytes header_bytes block_bytes : bytes) (undo : BlockUndo) : StoreM unit := λ s,
  let index := so_index (io_store s) in
  let before := atomic_write_error_before (bs_index_path index) Overwrite in
  let files := (_ ← store_block block_hash_bytes header_bytes block_bytes; store_undo block_hash_bytes undo) in
  if negb (bu_block_height undo =? height) then
    (Err (before ("undo block_height mismatch: commit height=" +:+ pretty height +:+ ", undo.block_height="
                  +:+ pretty (bu_block_height undo))%string), s) else
  let current_len := len (bs_canonical index) in
  if current_len <? height then
    (Err (before ("commit_canonical_block height gap: height=" +:+ pretty height +:+ " > canonical_len="
                  +:+ pretty current_len)%string), s) else
  if (height <? current_len) && bool_decide (canonical_hash index height = Some block_hash_bytes) then files s else
  (_ ← files; on_index (λ o, set_canonical_tip_typed o height block_hash_bytes)) s.

(* rust: node/blockstore.rs 863-874 get_undo *)
Definition store_get_undo (self : Store) (block_hash_bytes : bytes) : nres BlockUndo :=
  raw ← map_err (λ e, "read undo " +:+ file_path (so_undo self) block_hash_bytes +:+ ": " +:+ io_text e)%string
          (read_file_from_dir (so_undo self) block_hash_bytes UNDO_FILE_MAX_BYTES);
  unmarshal_undo_envelope block_hash_bytes raw.
End ops.

(** ** What the operations leave *)

Section results.
Context `{HS : Sha3} `{HX : Hex} `{HU : UndoJson}.

(** Directories only gain files. *)
Definition dir_grows (d d' : Directory) : Prop :=
  dir_path d' = dir_path d ∧ dir_ext d' = dir_ext d ∧ dir_files d ⊆ dir_files d'.
Definition files_grow (st st' : Store) : Prop := ∀ c, dir_grows (class_dir c st) (class_dir c st').

#[export] Instance dir_grows_preorder : PreOrder dir_grows.
Proof.
  split; [by intros d|]. intros d1 d2 d3 (? & ? & ?) (? & ? & ?). split_and!; [congruence|congruence|by etransitivity].
Qed.
#[export] Instance files_grow_preorder : PreOrder files_grow.
Proof. split; [by intros st c|]. intros st1 st2 st3 H1 H2 c. by etransitivity; [apply H1|apply H2]. Qed.

Lemma set_class_same c st d : class_dir c (set_class_dir c st d) = d.
Proof. by destruct c. Qed.
Lemma set_class_other c c' st d : c ≠ c' → class_dir c' (set_class_dir c st d) = class_dir c' st.
Proof. by destruct c, c'. Qed.

Lemma grows_file st st' c h content : files_grow st st' → dir_files (class_dir c st) !! h = Some content →
  dir_files (class_dir c st') !! h = Some content.
Proof. intros Hg Hf. destruct (Hg c) as (_ & _ & Hs). by eapply lookup_weaken. Qed.

(** A file is put: it is there with a content that passes the check, or it is
    the new one; and nothing else changes. *)
Lemma put_file_ok c h content bound check refuse s r s' : 0 ≤ bound < isize_max →
  put_file c h content bound check refuse s = (r, s') →
  files_grow (io_store s) (io_store s') ∧ so_index (io_store s') = so_index (io_store s)
  ∧ (r = Ok () → ∃ raw, dir_files (class_dir c (io_store s')) !! h = Some (Content raw)
       ∧ (raw = content ∨ check raw = Ok () ∧ len raw ≤ bound)).
Proof.
  intros Hb. unfold put_file. set (d := class_dir c (io_store s)). destruct (validate_atomic_write_destination _ _); [|by intros [= <- <-]].
  destruct (read_file_from_dir d h bound) as [raw|e] eqn:Hr.
  - apply read_file_Ok in Hr as [Hf Hl]; [|done]. destruct (check raw) as [[]|e] eqn:Hc; [|by intros [= <- <-]].
    intros [= <- <-]. split; [done|]. split; [done|]. intros _. exists raw. cbn. split; [done|by right].
  - destruct (io_not_found e) eqn:Hnf; [|by intros [= <- <-]].
    assert (dir_files d !! h = None) as Hnone by (by eapply read_file_not_found).
    intros [= <- <-]. cbn [after_write io_store].
    assert (files_grow (io_store s) (set_class_dir c (io_store s) (add_content d h content))) as Hg.
    { intros c'. destruct (decide (c = c')) as [<-|Hne]; [|by rewrite set_class_other].
      rewrite set_class_same. split; [done|]. split; [done|]. by apply insert_subseteq. }
    destruct (is_visible _) eqn:Hv.
    + split; [exact Hg|]. split; [by destruct c|]. intros _. exists content. rewrite set_class_same. cbn.
      rewrite lookup_insert_eq. split; [done|by left].
    + split; [done|]. split; [done|]. intros Ho. rewrite Ho in Hv. done.
Qed.

Lemma put_block_file_ok c h content s r s' : len content < isize_max → put_block_file c h content s = (r, s') →
  files_grow (io_store s) (io_store s') ∧ so_index (io_store s') = so_index (io_store s)
  ∧ (r = Ok () → dir_files (class_dir c (io_store s')) !! h = Some (Content content)).
Proof.
  intros Hl Hp. apply put_file_ok in Hp as (Hg & Hi & Hr); [|lia]. split; [done|]. split; [done|]. intros Hok.
  destruct (Hr Hok) as (raw & Hf & [->|[Hc _]]); [done|]. case_bool_decide; [by subst|done].
Qed.

Lemma store_block_ok h header block s r s' : len block < isize_max → store_block h header block s = (r, s') →
  files_grow (io_store s) (io_store s') ∧ so_index (io_store s') = so_index (io_store s)
  ∧ (r = Ok () → dir_files (so_blocks (io_store s')) !! h = Some (Content block)
               ∧ dir_files (so_headers (io_store s')) !! h = Some (Content header)).
Proof.
  intros Hb. unfold store_block, mbind, st_bind, lift.
  destruct (validate_header_matches_hash header h) as [[]|e] eqn:Hv; cbn [map_err]; [|by intros [= <- <-]].
  assert (len header < isize_max) as Hh.
  { revert Hv. unfold validate_header_matches_hash. destruct (len header =? BLOCK_HEADER_BYTES) eqn:E; [|done]. intros _.
    unfold BLOCK_HEADER_BYTES, isize_max in *. lia. }
  destruct (put_block_file BlockFiles h block s) as [r1 s1] eqn:H1. apply put_block_file_ok in H1 as (Hg1 & Hi1 & Hr1); [|done].
  destruct r1 as [[]|e]; [|by intros [= <- <-]]. intros H2. apply put_block_file_ok in H2 as (Hg2 & Hi2 & Hr2); [|done].
  split; [by etransitivity|]. split; [congruence|]. intros Hok. split; [|by apply Hr2].
  by apply (grows_file (io_store s1) _ BlockFiles); [|apply Hr1].
Qed.

Lemma get_undo_grows st st' h u : files_grow st st' → store_get_undo st h = Ok u → store_get_undo st' h = Ok u.
Proof.
  intros Hg. unfold store_get_undo. intros H. apply bind_Ok in H as (raw & Hr & Hu). apply map_err_Ok, read_file_Ok in Hr as [Hf Hl]; [|done].
  rewrite (proj2 (read_file_Ok (so_undo st') h UNDO_FILE_MAX_BYTES raw ltac:(done))); [done|].
  split; [by apply (grows_file st _ UndoFiles)|done].
Qed.

Lemma store_undo_ok h undo s r s' : len h = 32 → undo_ok undo → store_undo h undo s = (r, s') →
  files_grow (io_store s) (io_store s') ∧ so_index (io_store s') = so_index (io_store s)
  ∧ (r = Ok () → store_get_undo (io_store s') h = Ok undo).
Proof.
  intros Hh Hu. unfold store_undo, mbind, st_bind, lift.
  destruct (marshal_undo_envelope h undo) as [raw|e] eqn:Hm; cbn [map_err]; [|by intros [= <- <-]].
  unfold check_store_save_bound. destruct (UNDO_FILE_MAX_BYTES <? len raw) eqn:Hl; cbn [map_err]; [by intros [= <- <-]|].
  intros Hp. apply put_file_ok in Hp as (Hg & Hi & Hr); [|done]. split; [done|]. split; [done|]. intros Hok.
  destruct (Hr Hok) as (raw' & Hf & Hraw). unfold store_get_undo.
  assert (len raw' ≤ UNDO_FILE_MAX_BYTES) as Hl' by (destruct Hraw as [->|[_ ?]]; [lia|done]).
  rewrite (proj2 (read_file_Ok (so_undo (io_store s')) h UNDO_FILE_MAX_BYTES raw' ltac:(done)) (conj Hf Hl')). cbn [map_err]. run_bind.
  destruct Hraw as [->|[Hc _]].
  - apply unmarshal_iff; [done|]. split; [done|]. exists 2. split; [by right|done].
  - unfold validate_existing in Hc. apply bind_Ok in Hc as (d & Hd & Hc). apply unmarshal_disk_iff in Hd as (v & u' & Hv & Hu' & Hm' & ->); [|done].
    destruct (validated_block_undo_matches _ undo) eqn:Hmt; [|done]. apply validated_matches in Hmt as ->.
    apply unmarshal_iff; [done|]. eauto.
Qed.

Lemma run_op_ok o op s r s' : coherent s → saved s → Forall (λ h, len h = 32) (op_hashes op) →
  match op with SetTip n _ | Truncate n | Rollback n _ => 0 ≤ n end → run_op o op s = (r, s') → op_result o op s r s'.
Proof.
  intros Hc Hsv Hl Hn. destruct op; [apply set_tip_ok|apply truncate_ok|apply rollback_ok]; try done.
  cbn in Hl. by apply list.Forall_cons in Hl as [? _].
Qed.

Definition index_list (st : Store) : list bytes := bs_canonical_hash_by_height (so_index st).
Definition index_ok (st : Store) : Prop := coherent (so_index st) ∧ saved (so_index st).

(** What an operation on the index leaves: the list asked for, or nothing new,
    or a failure after the commit. *)
Definition index_after (op : index_op) (st : Store) (r : result AtomicWriteError unit) (st' : Store) : Prop :=
  match r with
  | Ok _ => index_ok st' ∧ index_list st' = op_target op (index_list st) ∧ op_in_range op (index_list st)
  | Err e => is_atomic_write_post_commit e = true ∨ so_index st' = so_index st
  end.

Lemma on_index_ok op s r s' : index_ok (io_store s) → Forall (λ h, len h = 32) (op_hashes op) →
  match op with SetTip n _ | Truncate n | Rollback n _ => 0 ≤ n end →
  on_index (λ o, run_op o op) s = (r, s') →
  files_grow (io_store s) (io_store s') ∧ files_grow (io_store s') (io_store s) ∧ index_after op (io_store s) r (io_store s').
Proof.
  intros [Hc Hsv] Hl Hn. unfold on_index. destruct (run_op _ op _) as [r1 i1] eqn:Ho. intros [= <- <-].
  apply run_op_ok in Ho as (Hc' & _ & Hr); [|done..]. cbn [after_write io_store]. split; [by intros []|]. split; [by intros []|].
  unfold index_after, index_list, index_ok. cbn [so_index set_index]. destruct r1 as [[]|e]; [tauto|].
  unfold is_atomic_write_post_commit. destruct (aw_stage e); [by right|left; done].
Qed.

(** Committing a block: the files are there and the block is in the index. *)
Lemma store_commit_ok height h header block undo s r s' : len h = 32 → undo_ok undo → 0 ≤ height → len block < isize_max →
  index_ok (io_store s) → store_commit height h header block undo s = (r, s') →
  files_grow (io_store s) (io_store s')
  ∧ match r with
    | Ok _ => index_ok (io_store s') ∧ height ≤ len (index_list (io_store s))
        ∧ index_list (io_store s') = op_target (SetTip height h) (index_list (io_store s))
        ∧ dir_files (so_blocks (io_store s')) !! h = Some (Content block)
        ∧ dir_files (so_headers (io_store s')) !! h = Some (Content header)
        ∧ store_get_undo (io_store s') h = Ok undo
    | Err e => is_atomic_write_post_commit e = true ∨ so_index (io_store s') = so_index (io_store s)
    end.
Proof.
  intros Hh Hu Hn Hb Hix. unfold store_commit. destruct (negb _); [intros [= <- <-]; split; [done|by right]|].
  destruct (_ <? height) eqn:Hgap; [intros [= <- <-]; split; [done|by right]|].
  set (files := (_ ← store_block h header block; store_undo h undo) : StoreM unit).
  assert (∀ r1 s1, files s = (r1, s1) → files_grow (io_store s) (io_store s1) ∧ so_index (io_store s1) = so_index (io_store s)
    ∧ (r1 = Ok () → dir_files (so_blocks (io_store s1)) !! h = Some (Content block)
        ∧ dir_files (so_headers (io_store s1)) !! h = Some (Content header) ∧ store_get_undo (io_store s1) h = Ok undo)) as Hfiles.
  { intros r1 s1. unfold files, mbind, st_bind. destruct (store_block h header block s) as [r0 s0] eqn:H0.
    apply store_block_ok in H0 as (Hg0 & Hi0 & Hr0); [|done]. destruct r0 as [[]|e]; [|by intros [= <- <-]].
    intros H1. apply store_undo_ok in H1 as (Hg1 & Hi1 & Hr1); [|done..]. split; [by etransitivity|]. split; [congruence|].
    intros Hok. destruct (Hr0 eq_refl) as [Hb0 Hh0]. split_and!; [by eapply (grows_file (io_store s0) _ BlockFiles)
      |by eapply (grows_file (io_store s0) _ HeaderFiles)|by apply Hr1]. }
  assert (len (bs_canonical (so_index (io_store s))) = len (index_list (io_store s))) as Hlen
    by (unfold index_list; rewrite (proj1 (proj1 Hix)), length_fmap; done).
  destruct (_ && _) eqn:Hsame.
  - intros Hf. apply Hfiles in Hf as (Hg & Hi & Hr). split; [done|]. destruct r as [[]|e]; [|by right].
    destruct (Hr eq_refl) as (? & ? & ?). apply andb_true_iff in Hsame as [_ Hsame%bool_decide_eq_true].
    apply canonical_hash_Some in Hsame; [|done]. unfold index_ok, index_list in *. rewrite Hi.
    split_and!; try done; [apply Hix|apply Hix|lia|]. cbn [op_target]. by rewrite bool_decide_eq_true_2.
  - unfold mbind, st_bind. destruct (files s) as [r1 s1]. destruct (Hfiles _ _ eq_refl) as (Hg & Hi & Hr).
    destruct r1 as [[]|e]; [|intros [= <- <-]; split; [done|by right]]. destruct (Hr eq_refl) as (Hb1 & Hh1 & Hu1).
    assert (index_ok (io_store s1)) as Hix1 by (unfold index_ok in *; by rewrite Hi).
    intros Ho. apply (on_index_ok (SetTip height h)) in Ho as (Hg1 & _ & Hr1); [|done|by constructor|done].
    split; [by etransitivity|]. unfold index_after, index_list in *. rewrite Hi in Hr1. destruct r as [[]|e]; [|done].
    destruct Hr1 as (? & ? & ?). do 3 (split; [done|]). split; [by eapply (grows_file (io_store s1) _ BlockFiles)|].
    split; [by eapply (grows_file (io_store s1) _ HeaderFiles)|by eapply get_undo_grows].
Qed.
End results.
