(* ===== verification/Replay.v ===== *)
(** * The chain as a list of blocks

    What the node keeps is the replay of a list of blocks from the empty state,
    each with the undo record that its connection gives.  This is the abstract
    state that the engine implements: the facts here say when a block can be
    added, that the last one can always be taken back, and that what is kept of
    a block fits the files. *)

From S2P Require Import Prelude Bytes BTree Errors Constants Crypto WireRead CompactSize TxWire TxCodec Block Merkle Pow Subsidy.
From S2P Require Import Vault Suites Verify SigCache WorkerPool SigQueue Sighash Spend Htlc Stealth CovenantGenesis.
From S2P Require Import UtxoApply UtxoRules UtxoDeferred UtxoLedger BlockParse BlockWeight BlockDa BlockBasic ConnectBlock.
From S2P Require Import NodeText ChainState ChainDisk Undo Chain BlockStore StoreFiles Headers.
From S2P Require Import Base64 Uint128 StoreEnvelope UndoDisk UndoEnvelope StoreCommit Branch.

(** ** Entries fit their fields *)

Lemma created_ranges ctx k outs : len (cx_txid ctx) = 32 → is_u 64 (cx_height ctx) → 0 ≤ k → k + len outs ≤ 2 ^ 32 →
  Forall output_valid outs → utxo_ranges (created_from ctx k outs).
Proof.
  intros Ht Hh. revert k. induction outs as [|o outs IH]; intros k Hk Hl HF; cbn [created_from]; [apply map_Forall_empty|].
  apply list.Forall_cons in HF as [(Hv & Hc & _) HF]. cbn [length] in Hl.
  destruct (unspendable_type _); [apply IH; [lia|lia|done]|]. apply map_Forall_insert_2; [|apply IH; [lia|lia|done]].
  split_and!; try done; cbn; unfold is_u; lia.
Qed.

Lemma union_ranges m1 m2 : utxo_ranges m1 → utxo_ranges m2 → utxo_ranges (m1 ∪ m2).
Proof. intros H1 H2 op e [H|[_ H]]%lookup_union_Some_raw; [by eapply H1|by eapply H2]. Qed.

Section ranges.
Context `{HS : Sha3} `{HO : OpenSsl}.

Lemma ledger_after_ranges ctx : len (cx_txid ctx) = 32 → is_u 64 (cx_height ctx) → tx_valid (cx_tx ctx) →
  utxo_ranges (cx_utxo_set ctx) → utxo_ranges (ledger_after ctx).
Proof.
  intros Ht Hh (_ & _ & (Hn & HF) & _) Hm. apply union_ranges.
  - apply created_ranges; try done. change MAX_TX_OUTPUTS with 1024 in Hn. lia.
  - intros op e [H _]%map_lookup_filter_Some. by eapply Hm.
Qed.

Lemma ledger_steps_ranges height timestamp mtp chain_id rotation registry m l m' fees : is_u 64 height →
  Forall (λ x : Tx * bytes, tx_valid x.1 ∧ len x.2 = 32) l → utxo_ranges m →
  ledger_steps height timestamp mtp chain_id rotation registry m l m' fees → utxo_ranges m'.
Proof.
  intros Hh Hl Hm H. revert Hl Hm. induction H as [|m x l m' es wss fees Ha _ IH]; intros Hl Hm; [done|].
  apply list.Forall_cons in Hl as [[Hx Hi] Hl]. apply IH; [done|]. by apply ledger_after_ranges.
Qed.

Lemma connects_ranges ctx st pb m' fees : block_valid pb → is_u 64 (cc_block_height ctx) → utxo_ranges (cs_utxos st) →
  connects ctx st pb m' fees → utxo_ranges m'.
Proof.
  intros Hv Hh Hm [_ _ _ _ (cb & txid & Hhd & Hid & _ & _ & _ & Hs)].
  destruct (block_first pb Hv) as (cb' & rest & Hpb & Hcv & Hrest & Hids & Hnc). rewrite Hpb in Hhd. injection Hhd as ->.
  rewrite Hids in Hid. injection Hid as <-. eapply ledger_steps_ranges; [done| | |exact Hs].
  - rewrite Hnc. apply list.Forall_fmap. eapply list.Forall_impl; [exact Hrest|]. intros tx Htx. split; [done|]. cbn. by rewrite sha3_256_length.
  - apply union_ranges; [|done]. intros op e (e' & <- & He)%lookup_fmap_Some. destruct Hcv as (_ & _ & (Hn & HF) & _).
    change MAX_TX_OUTPUTS with 1024 in Hn.
    assert (utxo_ranges (created_from (coinbase_ctx (sha3_256 (enc_tx_core cb)) (cc_block_height ctx)) 0 (outputs cb))) as Hr.
    { apply created_ranges; [by cbn; rewrite sha3_256_length|done|lia|lia|done]. }
    exact (Hr op e' He).
Qed.
End ranges.

(** ** The stored form of a block *)

Section stored.
Context `{HS : Sha3} `{HO : OpenSsl}.

Lemma weight_size tx : len (enc_tx tx) ≤ tw tx.
Proof.
  unfold tw, full_weight, enc_tx, WITNESS_DISCOUNT_DIVISOR. rewrite !length_app.
  assert (0 ≤ sum_of (cost_at 0 None None) (witness tx)).
  { apply sum_of_nonneg. intros w. apply cost_at_nonneg. by intros ? ? ? [=]. }
  lia.
Qed.

Lemma sum_of_le {A} (f g : A → Z) l : (∀ x, f x ≤ g x) → sum_of f l ≤ sum_of g l.
Proof. intros H. induction l as [|x l IH]; [done|]. cbn. specialize (H x). unfold sum_of in *. cbn. lia. Qed.

(** A block within the limits can be read from its file. *)
Lemma block_file_size pb prev target height times : block_valid pb → preflight_ok pb prev target height times →
  len (enc_block pb) ≤ BLOCK_FILE_MAX_BYTES.
Proof.
  intros Hv [_ _ _ [Hw _] _]. pose proof Hv as (Hh & _). unfold enc_block, enc_list. rewrite !length_app.
  pose proof (enc_header_length _ Hh). pose proof (compact_size_bound (len (pb_txs pb))). pose proof (sum_of_len enc_tx (pb_txs pb)).
  pose proof (sum_of_le (λ tx, len (enc_tx tx)) tw (pb_txs pb) weight_size).
  unfold BLOCK_FILE_MAX_BYTES, MAX_BLOCK_BYTES, BLOCK_HEADER_BYTES, MAX_BLOCK_WEIGHT in *. lia.
Qed.

(** And its header commits to its transactions. *)
Lemma connects_commitments ctx st pb m' fees : block_valid pb → connects ctx st pb m' fees →
  validate_stored_block_commitments pb = Ok ().
Proof.
  intros Hv [[Hhd Hw _ _ _] _ _ _ (cb & txid & Hcb & _ & Hok & _)]. unfold validate_stored_block_commitments. rewrite Hcb. cbn [ok_or]. run_bind.
  rewrite (proj2 (is_coinbase_iff cb) (proj1 Hok)). cbn [negb].
  destruct Hhd as (_ & _ & _ & Hm). rewrite Hm. cbn [map_err]. run_bind. rewrite bool_decide_eq_false_2 by (intros H; by apply H).
  by apply witness_commitment_Ok.
Qed.
End stored.

(** ** Replays *)

Section replay.
Context `{HS : Sha3} `{HO : OpenSsl} `{HX : Hex}.

(** The blocks that were connected, the ids of whose transactions are distinct,
    with their undo records. *)
Inductive replay : list (BlockInputs * BlockUndo) → ChainState → Prop :=
  | replay_nil : replay [] ChainState_new
  | replay_snoc l s x sum s' undo : replay l s → len (bi_bytes x) ≤ isize_max → connect_input x s = Some (Ok sum, s') →
      build_block_undo s (bi_bytes x) (next_height s) = Ok undo → distinct (l.*1 ++ [x]) → replay (l ++ [(x, undo)]) s'.

Definition block_of (r : BlockInputs * BlockUndo) : bytes := bi_bytes r.1.

(** Two transactions of the blocks have different cores, the strings hashed for
    their ids, and the same id. *)
Definition block_txs (b : bytes) : list Tx := match parse_block_bytes b with Ok pb => pb_txs pb | Err _ => [] end.
Definition clash (blocks : list bytes) : Prop := collision_in (enc_tx_core <$> (blocks ≫= block_txs)).

Lemma clash_mono blocks blocks' : blocks ⊆ blocks' → clash blocks → clash blocks'.
Proof.
  intros Hs. apply collision_in_mono. intros y (tx & -> & (b & Htx & Hb)%list_elem_of_bind)%list_elem_of_fmap.
  apply list_elem_of_fmap_2, list_elem_of_bind. exists b. auto.
Qed.

Lemma clash_cores (l : list BlockInputs) : collision_in (chain_cores l) → clash (bi_bytes <$> l).
Proof.
  apply collision_in_mono. unfold chain_cores, txs_of. intros y (tx & -> & (x & Htx & Hx)%list_elem_of_bind)%list_elem_of_fmap.
  apply list_elem_of_fmap_2, list_elem_of_bind. exists (bi_bytes x). split; [exact Htx|by apply list_elem_of_fmap_2].
Qed.

(** The hash that a block's bytes have. *)
Definition hash_of (b : bytes) : bytes :=
  match parse_block_bytes b with Ok pb => sha3_256 (pb_header_bytes pb) | Err _ => zeros 32 end.
Definition input_hash (r : BlockInputs * BlockUndo) : bytes := hash_of (bi_bytes r.1).

Lemma replay_snoc_inv l x undo s' : replay (l ++ [(x, undo)]) s' → ∃ s sum,
  replay l s ∧ len (bi_bytes x) ≤ isize_max ∧ connect_input x s = Some (Ok sum, s')
  ∧ build_block_undo s (bi_bytes x) (next_height s) = Ok undo ∧ distinct (l.*1 ++ [x]).
Proof.
  intros H. inversion H as [Heq|l0 s x0 sum ? undo0 Hr Hb Hc Hu Hd Heq]; [by destruct l|].
  apply app_inj_tail in Heq as [-> [= -> ->]]. by exists s, sum.
Qed.

Lemma replay_reaches l s : replay l s → reaches ChainState_new (l.*1) s.
Proof.
  induction 1 as [|l s x sum s' undo _ IH Hb Hc _ _]; [constructor|]. rewrite fmap_app. by econstructor.
Qed.

Lemma replay_function l s s' : replay l s → replay l s' → s = s'.
Proof.
  intros H; revert s'; induction H as [|l s x sum s1 undo _ IH Hb Hc Hu _]; intros s' H'.
  - inversion H' as [|? ? ? ? ? ? ? ? ? ? ? Heq]; [done|]. by destruct l.
  - apply replay_snoc_inv in H' as (s0 & sum' & Hr & _ & Hc' & _). rewrite <- (IH _ Hr) in Hc'. rewrite Hc in Hc'. by injection Hc'.
Qed.

(** What the rest of the node relies on of the state. *)
Record replayed (l : list (BlockInputs * BlockUndo)) (s : ChainState) : Prop := mkReplayed {
  rp_wf : chain_wf s;
  rp_ranges : utxo_ranges (ch_utxos s);
  rp_generated : is_u 128 (ch_already_generated s);
  rp_height : next_height s = len l;
  rp_tip : ch_has_tip s = negb (bool_decide (length l = 0%nat));
  rp_tip_hash : ch_tip_hash s = default (zeros 32) (input_hash <$> list.last l);
  rp_history : history_of l.*1 s }.

Lemma replayed_new : replayed [] ChainState_new.
Proof. split; [apply chain_wf_new|apply map_Forall_empty|done..|apply history_of_new]. Qed.

(** A block that connects repeats no id. *)
Lemma replayed_distinct l s x sum s' : replayed l s → len (bi_bytes x) ≤ isize_max → connect_input x s = Some (Ok sum, s') →
  distinct (l.*1 ++ [x]) ∨ clash ((block_of <$> l) ++ [bi_bytes x]).
Proof.
  intros Hr Hb Hc. destruct (history_of_step _ s x sum s' (rp_history _ _ Hr) Hb Hc) as [_ [?|Hcol%clash_cores]]; [by left|right].
  by rewrite fmap_app, <- list_fmap_compose in Hcol.
Qed.


(** A block that connects extends the replay; its bytes are the encoding of a
    valid block that fits its file, and its undo record fits its form. *)
Lemma replayed_connect l s x sum s' : replayed l s → len (bi_bytes x) ≤ isize_max → connect_input x s = Some (Ok sum, s') →
  distinct (l.*1 ++ [x]) →
  ∃ undo pb, build_block_undo s (bi_bytes x) (next_height s) = Ok undo ∧ undo_ok undo ∧ replayed (l ++ [(x, undo)]) s'
    ∧ parse_block_bytes (bi_bytes x) = Ok pb ∧ len (bi_bytes x) ≤ BLOCK_FILE_MAX_BYTES
    ∧ validate_stored_block_commitments pb = Ok () ∧ (ch_has_tip s = true → bh_prev_block_hash (pb_header pb) = ch_tip_hash s)
    ∧ ks_block_height sum = next_height s ∧ bu_block_height undo = next_height s ∧ len (pb_txids pb) = len (pb_txs pb)
    ∧ ∃ ds, disconnect_block (bi_bytes x) undo s' = (Ok ds, s).
Proof.
  intros [Hwf Hrg Hg Hht Htip Hth Ho] Hb Hc Hdi.
  pose proof (chain_connect_Ok _ _ _ _ _ _ s sum s' Hb Hwf Hc) as (pb & m' & fees & Hp & Hv & Hbe & Hh & _ & Hcn & Hs' & Hkh & Hks & _).
  destruct (history_of_step _ s x sum s' Ho Hb Hc) as [Hok _]. destruct (Hok Hdi) as [Ho' Hfr]. specialize (Hfr pb Hp).
  pose proof (proj1 Ho') as Hwf'.
  destruct (connect_disconnect _ _ _ _ _ _ s sum s' Hb Hwf Hc) as (undo & ds & Hu & Hd & _).
  { intros pb' Hp'. rewrite Hp in Hp'. by injection Hp' as <-. }
  rewrite Hks in Hu. exists undo, pb. split; [exact Hu|].
  destruct (proj1 (parse_block_Ok _ pb Hb) Hp) as (_ & Hl & _).
  pose proof (connects_deltas _ _ _ _ _ Hv Hcn) as Hdl. cbn [mem_state cs_utxos] in Hdl.
  rewrite (build_undo_Ok s _ (next_height s) pb m' Hb Hv Hl Hbe Hdl Hfr) in Hu. injection Hu as <-. split.
  { split; [done|]. split; [done|]. cbn [bu_txs]. apply Forall_fmap, list.Forall_true. intros ix. unfold compose, undo_of, prev_spends. cbn.
    apply list.Forall_forall. intros sp (op & _ & Hop)%list_elem_of_omap. apply fmap_Some in Hop as (e & He & ->).
    destruct (Hrg op e He) as (? & ? & ? & ? & ?). by split_and!. }
  assert (is_u 128 (ch_already_generated s')) as Hg'.
  { rewrite Hs'. cbn. unfold subsidy_at. cbn [next_ctx cc_block_height mem_state cs_already_generated].
    destruct (next_height s =? 0) eqn:E; [by rewrite Z.add_0_r|]. apply Z.eqb_neq in E.
    pose proof (cn_generated _ _ _ _ _ Hcn E) as Hle. cbn [mem_state cs_already_generated next_ctx cc_block_height] in Hle.
    destruct Hg as [Hg0 _]. rewrite block_subsidy_spec in * by done. pose proof (subsidy_spec_bounds _ Hg0). subsidy_consts.
    unfold is_u, Prelude.u128_max in *. lia. }
  split.
  { split.
    - exact Hwf'.
    - rewrite Hs'. refine (connects_ranges _ _ _ _ _ Hv _ _ Hcn); [exact Hh|exact Hrg].
    - exact Hg'.
    - rewrite Hs'. rewrite next_height_extended, Hht, length_app. cbn. lia.
    - rewrite Hs', length_app, bool_decide_eq_false_2 by (cbn; lia). done.
    - rewrite Hs', last_snoc. cbn. unfold input_hash, hash_of. cbn [fst]. by rewrite Hp.
    - by rewrite fmap_app. }
  split; [exact Hp|]. split; [rewrite Hbe; eapply block_file_size; [exact Hv|by apply Hcn]|].
  split; [by eapply connects_commitments|]. split.
  { destruct (pf_header _ _ _ _ _ (cn_preflight _ _ _ _ _ Hcn)) as (_ & _ & Hprev & _). cbn [next_ctx cc_expected_prev_hash] in Hprev.
    intros Et. rewrite Et in Hprev. by apply Hprev. }
  split; [done|]. split; [done|]. split; [destruct Hv as (_ & _ & _ & _ & _ & -> & _); by rewrite length_fmap|]. by exists ds.
Qed.

Lemma replay_replayed l s : replay l s → replayed l s.
Proof.
  induction 1 as [|l s x sum s' undo _ IH Hb Hc Hu Hd]; [apply replayed_new|].
  destruct (replayed_connect l s x sum s' IH Hb Hc Hd) as (undo' & pb & Hu' & _ & Hr & _).
  rewrite Hu in Hu'. by injection Hu' as <-.
Qed.

(** Any block of a replay: its bytes, as the files keep them. *)
Lemma replay_block l s i r : replay l s → l !! i = Some r →
  undo_ok r.2 ∧ bu_block_height r.2 = Z.of_nat i ∧ ∃ pb, parse_block_bytes (bi_bytes r.1) = Ok pb
    ∧ len (bi_bytes r.1) ≤ BLOCK_FILE_MAX_BYTES ∧ validate_stored_block_commitments pb = Ok ().
Proof.
  induction 1 as [|l s x sum s' undo Hr IH Hb Hc Hu Hd]; [by rewrite lookup_nil|].
  intros [Hl|(Hn & Hl)]%lookup_app_Some; [by apply IH|]. destruct (i - length l)%nat as [|k] eqn:Ei; [injection Hl as <-|by destruct k].
  assert (i = length l) as -> by lia.
  pose proof (replay_replayed l s Hr) as Hrp.
  destruct (replayed_connect l s x sum s' Hrp Hb Hc Hd) as (undo' & pb & Hu' & Ho & _ & Hp & Hs & Hcm & _ & _ & Hbh & _).
  rewrite Hu in Hu'. injection Hu' as <-. cbn [fst snd]. split; [done|]. split; [by rewrite Hbh, (rp_height _ _ Hrp)|]. by exists pb.
Qed.

(** The last block can be taken back. *)
Lemma replay_disconnect l x undo s' : replay (l ++ [(x, undo)]) s' →
  ∃ s pb ds, replay l s ∧ parse_block_bytes (bi_bytes x) = Ok pb ∧ len (pb_txids pb) = len (pb_txs pb)
    ∧ disconnect_block (bi_bytes x) undo s' = (Ok ds, s) ∧ (ch_has_tip s = true → bh_prev_block_hash (pb_header pb) = ch_tip_hash s).
Proof.
  intros (s & sum & Hr & Hb & Hc & Hu & Hdi)%replay_snoc_inv. pose proof (replay_replayed l s Hr) as Hrp.
  destruct (replayed_connect l s x sum s' Hrp Hb Hc Hdi) as (undo' & pb & Hu' & _ & _ & Hp & _ & _ & Hprev & _ & _ & Hl & ds & Hd).
  rewrite Hu in Hu'. injection Hu' as <-. by exists s, pb, ds.
Qed.

Lemma replay_prefix l1 l2 s : replay (l1 ++ l2) s → ∃ s1, replay l1 s1.
Proof.
  revert s; induction l2 as [|r l2 IH] using rev_ind; intros s; [rewrite app_nil_r; by eexists|].
  destruct r as [x undo]. rewrite app_assoc. intros (s0 & _ & H & _)%replay_snoc_inv. by eapply IH.
Qed.
End replay.
