(* ===== verification/PvTelemetry.v ===== *)
(** * Telemetry of the shadow validation ([sync.rs])

    The engine can validate each block a second time; it counts what that run
    says, samples the disagreements, and averages the times. *)

From Stdlib Require Import Ascii.
From stdpp Require Import pretty.
From S2P Require Import Prelude Bytes Errors Constants Crypto WireRead CompactSize TxWire Block Pow.
From S2P Require Import Vault Suites Verify SigCache WorkerPool SigQueue Sighash Spend NodeText BlockStore StoreFiles Headers.

(* rust: node/sync.rs 60-65 ParallelValidationMode *)
Inductive ParallelValidationMode : Type := PvOff | PvShadow | PvOn.
#[export] Instance ParallelValidationMode_eq_dec : EqDecision ParallelValidationMode.
Proof. solve_decision. Defined.

(* rust: node/sync.rs 68-74 as_str *)
Definition mode_as_str (mode : ParallelValidationMode) : string :=
  match mode with PvOff => "off" | PvShadow => "shadow" | PvOn => "on" end.

(* rust: node/sync.rs 1663-1670 normalize_parallel_validation_mode *)
Definition normalize_parallel_validation_mode (mode : string) : string :=
  let mode := to_ascii_lowercase (trim mode) in
  if bool_decide (mode = "")%string then "off"%string else mode.

(** [debug_str] is the [Debug] text of a string. *)
(* rust: node/sync.rs 1672-1681 parse_parallel_validation_mode *)
Definition parse_parallel_validation_mode (debug_str : string → string) (mode : string) : nres ParallelValidationMode :=
  let mode := normalize_parallel_validation_mode mode in
  if bool_decide (mode = "off")%string then Ok PvOff else
  if bool_decide (mode = "shadow")%string then Ok PvShadow else
  if bool_decide (mode = "on")%string then Ok PvOn else
  fail ("invalid parallel_validation_mode: " +:+ debug_str mode +:+ " (want off|shadow|on)")%string.

(* rust: node/sync.rs 377-389 PVTelemetry *)
Record PVTelemetry : Type := mkPVTelemetry {
  pv_tmode : ParallelValidationMode; pv_blocks_validated : Z; pv_blocks_skipped : Z; pv_mismatch_verdict : Z;
  pv_mismatch_error : Z; pv_mismatch_state : Z; pv_worker_panics : Z; pv_validate_count : Z; pv_validate_total_ns : Z;
  pv_commit_count : Z; pv_commit_total_ns : Z }.

(* rust: node/sync.rs 392-406 new *)
Definition PVTelemetry_new (mode : ParallelValidationMode) : PVTelemetry := mkPVTelemetry mode 0 0 0 0 0 0 0 0 0 0.

Definition bump (n : Z) : Z := saturating_add u64_max n 1.

(* rust: node/sync.rs 408-410 record_block_validated *)
Definition record_block_validated (t : PVTelemetry) : PVTelemetry :=
  mkPVTelemetry (pv_tmode t) (bump (pv_blocks_validated t)) (pv_blocks_skipped t) (pv_mismatch_verdict t) (pv_mismatch_error t)
    (pv_mismatch_state t) (pv_worker_panics t) (pv_validate_count t) (pv_validate_total_ns t) (pv_commit_count t) (pv_commit_total_ns t).
(* rust: node/sync.rs 412-414 record_block_skipped *)
Definition record_block_skipped (t : PVTelemetry) : PVTelemetry :=
  mkPVTelemetry (pv_tmode t) (pv_blocks_validated t) (bump (pv_blocks_skipped t)) (pv_mismatch_verdict t) (pv_mismatch_error t)
    (pv_mismatch_state t) (pv_worker_panics t) (pv_validate_count t) (pv_validate_total_ns t) (pv_commit_count t) (pv_commit_total_ns t).
(* rust: node/sync.rs 416-418 record_mismatch_verdict *)
Definition record_mismatch_verdict (t : PVTelemetry) : PVTelemetry :=
  mkPVTelemetry (pv_tmode t) (pv_blocks_validated t) (pv_blocks_skipped t) (bump (pv_mismatch_verdict t)) (pv_mismatch_error t)
    (pv_mismatch_state t) (pv_worker_panics t) (pv_validate_count t) (pv_validate_total_ns t) (pv_commit_count t) (pv_commit_total_ns t).
(* rust: node/sync.rs 420-422 record_mismatch_error *)
Definition record_mismatch_error (t : PVTelemetry) : PVTelemetry :=
  mkPVTelemetry (pv_tmode t) (pv_blocks_validated t) (pv_blocks_skipped t) (pv_mismatch_verdict t) (bump (pv_mismatch_error t))
    (pv_mismatch_state t) (pv_worker_panics t) (pv_validate_count t) (pv_validate_total_ns t) (pv_commit_count t) (pv_commit_total_ns t).
(* rust: node/sync.rs 424-426 record_mismatch_state *)
Definition record_mismatch_state (t : PVTelemetry) : PVTelemetry :=
  mkPVTelemetry (pv_tmode t) (pv_blocks_validated t) (pv_blocks_skipped t) (pv_mismatch_verdict t) (pv_mismatch_error t)
    (bump (pv_mismatch_state t)) (pv_worker_panics t) (pv_validate_count t) (pv_validate_total_ns t) (pv_commit_count t) (pv_commit_total_ns t).
(* rust: node/sync.rs 428-430 record_worker_panic *)
Definition record_worker_panic (t : PVTelemetry) : PVTelemetry :=
  mkPVTelemetry (pv_tmode t) (pv_blocks_validated t) (pv_blocks_skipped t) (pv_mismatch_verdict t) (pv_mismatch_error t)
    (pv_mismatch_state t) (bump (pv_worker_panics t)) (pv_validate_count t) (pv_validate_total_ns t) (pv_commit_count t) (pv_commit_total_ns t).
(* rust: node/sync.rs 432-435 record_validate_latency *)
Definition record_validate_latency (t : PVTelemetry) (latency_ns : Z) : PVTelemetry :=
  mkPVTelemetry (pv_tmode t) (pv_blocks_validated t) (pv_blocks_skipped t) (pv_mismatch_verdict t) (pv_mismatch_error t)
    (pv_mismatch_state t) (pv_worker_panics t) (bump (pv_validate_count t))
    (saturating_add Prelude.u128_max (pv_validate_total_ns t) latency_ns) (pv_commit_count t) (pv_commit_total_ns t).
(* rust: node/sync.rs 437-440 record_commit_latency *)
Definition record_commit_latency (t : PVTelemetry) (latency_ns : Z) : PVTelemetry :=
  mkPVTelemetry (pv_tmode t) (pv_blocks_validated t) (pv_blocks_skipped t) (pv_mismatch_verdict t) (pv_mismatch_error t)
    (pv_mismatch_state t) (pv_worker_panics t) (pv_validate_count t) (pv_validate_total_ns t) (bump (pv_commit_count t))
    (saturating_add Prelude.u128_max (pv_commit_total_ns t) latency_ns).

(* rust: node/sync.rs 465-473 averaged_latency_ns *)
Definition averaged_latency_ns (total_ns count : Z) : Z :=
  if count =? 0 then 0 else
  let avg := if total_ns / count <=? u64_max then total_ns / count else u64_max in
  Z.max avg 1.

(* rust: node/sync.rs 78-94 PVTelemetrySnapshot *)
Record PVTelemetrySnapshot : Type := mkPVTelemetrySnapshot {
  ps_mode : string; ps_blocks_validated : Z; ps_blocks_skipped : Z; ps_mismatch_verdict : Z; ps_mismatch_error : Z;
  ps_mismatch_state : Z; ps_mismatch_witness : Z; ps_sig_total : Z; ps_sig_cache_hits : Z; ps_worker_tasks_total : Z;
  ps_worker_panics : Z; ps_validate_count : Z; ps_validate_avg_ns : Z; ps_commit_count : Z; ps_commit_avg_ns : Z }.

(* rust: node/sync.rs 442-462 snapshot *)
Definition telemetry_snapshot (t : PVTelemetry) : PVTelemetrySnapshot :=
  let validate_avg_ns := averaged_latency_ns (pv_validate_total_ns t) (pv_validate_count t) in
  let commit_avg_ns := averaged_latency_ns (pv_commit_total_ns t) (pv_commit_count t) in
  mkPVTelemetrySnapshot (mode_as_str (pv_tmode t)) (pv_blocks_validated t) (pv_blocks_skipped t) (pv_mismatch_verdict t)
    (pv_mismatch_error t) (pv_mismatch_state t) 0 0 0 0 (pv_worker_panics t) (pv_validate_count t) validate_avg_ns
    (pv_commit_count t) commit_avg_ns.

(** [str::split_once]: the text before the first colon. *)
Fixpoint before_colon (l : list ascii) : option (list ascii) :=
  match l with
  | [] => None
  | c :: l => if Ascii.eqb c ":" then Some [] else cons c <$> before_colon l
  end.

(* rust: node/sync.rs 1683-1688 pv_error_code *)
Definition pv_error_code (err : string) : string :=
  match before_colon (chars err) with
  | None => trim err
  | Some code => trim (String.string_of_list_ascii code)
  end.

(** The fields of the engine that the shadow run writes. *)
Record PvState : Type := mkPvState {
  pv_mode : ParallelValidationMode; pv_shadow_max_samples : Z; pv_shadow_mismatches : Z; pv_shadow_samples : list string;
  pv_telemetry : PVTelemetry }.

Definition on_telemetry (f : PVTelemetry → PVTelemetry) (p : PvState) : PvState :=
  mkPvState (pv_mode p) (pv_shadow_max_samples p) (pv_shadow_mismatches p) (pv_shadow_samples p) (f (pv_telemetry p)).

(* rust: node/sync.rs 1079-1084 record_pv_shadow_mismatch *)
Definition record_pv_shadow_mismatch (line : string) (p : PvState) : PvState :=
  let samples := if len (pv_shadow_samples p) <? pv_shadow_max_samples p then pv_shadow_samples p ++ [line] else pv_shadow_samples p in
  mkPvState (pv_mode p) (pv_shadow_max_samples p) (bump (pv_shadow_mismatches p)) samples (pv_telemetry p).

(** [shadow] is what the second run gave; [None] is a panic in it, which is
    caught.  The block was rejected with [err]. *)
(* rust: node/sync.rs 1184-1231 apply_block_with_target *)
Definition pv_after_reject (pv_active : bool) (next_height : Z) (err : string) (shadow : option (nres bytes)) (validate_ns : Z)
    (p : PvState) : PvState :=
  if negb pv_active then on_telemetry record_block_skipped p else
  let p := on_telemetry record_block_validated p in
  let prefix := ("pv_shadow mismatch(height=" +:+ pretty next_height +:+ "): seq_err=" +:+ pv_error_code err)%string in
  let p := match shadow with
           | Some (Ok _) => on_telemetry record_mismatch_verdict (record_pv_shadow_mismatch (prefix +:+ " shadow_ok")%string p)
           | Some (Err shadow_err) =>
               let seq_code := pv_error_code err in
               let shadow_code := pv_error_code shadow_err in
               if negb (bool_decide (seq_code = shadow_code))
               then on_telemetry record_mismatch_error (record_pv_shadow_mismatch (prefix +:+ " shadow_err=" +:+ shadow_code)%string p)
               else p
           | None => on_telemetry record_worker_panic (on_telemetry record_mismatch_verdict
                       (record_pv_shadow_mismatch (prefix +:+ " shadow_panic=pv_shadow panic")%string p))
           end in
  on_telemetry (λ t, record_validate_latency t validate_ns) p.

(** The block was connected, and the ledger's digest is [current_digest]. *)
(* rust: node/sync.rs 1245-1287 apply_block_with_target *)
Definition pv_after_connect (pv_active : bool) (block_height : Z) (current_digest : bytes) (shadow : option (nres bytes))
    (validate_ns : Z) (p : PvState) : PvState :=
  if negb pv_active then on_telemetry record_block_skipped p else
  let p := on_telemetry record_block_validated p in
  let prefix := ("pv_shadow mismatch(height=" +:+ pretty block_height +:+ "): ")%string in
  let p := match shadow with
           | Some (Ok shadow_digest) =>
               if negb (bool_decide (shadow_digest = current_digest))
               then on_telemetry record_mismatch_state (record_pv_shadow_mismatch (prefix +:+ "post_state_digest")%string p)
               else p
           | Some (Err shadow_err) => on_telemetry record_mismatch_verdict
               (record_pv_shadow_mismatch (prefix +:+ "seq_ok shadow_err=" +:+ pv_error_code shadow_err)%string p)
           | None => on_telemetry record_worker_panic (on_telemetry record_mismatch_verdict
                       (record_pv_shadow_mismatch (prefix +:+ "seq_ok shadow_panic=pv_shadow panic")%string p))
           end in
  on_telemetry (λ t, record_validate_latency t validate_ns) p.
