(* ===== verification/DaComplete.v ===== *)
(** * Complete data-availability sets of an accepted block ([da_relay.rs])

    What the node reports of a block that became canonical: the batches whose
    chunks it carries in full, so that the relay can drop them.  The block
    passed consensus, so these are exactly the batches it commits to. *)

From stdpp Require Import pretty.
From S2P Require Import Prelude Bytes Errors Constants Crypto WireRead CompactSize TxWire TxCodec BTree BlockDa NodeText.

(** The counter of commits is a [u32]; a block has fewer transactions. *)
(* rust: node/da_relay.rs 1287-1292 AcceptedBlockDaSet *)
Record AcceptedBlockDaSet : Type := mkAcceptedBlockDaSet { ad_commit_count : Z; ad_chunk_count : Z; ad_chunks : gset Z }.
Definition no_da_set : AcceptedBlockDaSet := mkAcceptedBlockDaSet 0 0 ∅.

(* rust: node/da_relay.rs 1295-1306 complete *)
Definition da_set_complete (s : AcceptedBlockDaSet) : bool :=
  if negb (ad_commit_count s =? 1) || (ad_chunk_count s =? 0) || (MAX_DA_CHUNK_COUNT <? ad_chunk_count s) then false else
  if negb (Z.of_nat (size (ad_chunks s)) =? ad_chunk_count s) then false else
  forallb (λ index, bool_decide (index ∈ ad_chunks s)) (seqZ 0 (ad_chunk_count s)).

(* rust: node/da_relay.rs 1266-1285 record_accepted_block_da_tx *)
Definition record_accepted_block_da_tx (sets : gmap bytes AcceptedBlockDaSet) (tx : Tx) : gmap bytes AcceptedBlockDaSet :=
  if tx_kind tx =? 0x01 then
    match da_commit_core tx with
    | Some commit =>
        let s := default no_da_set (sets !! commit_da_id commit) in
        <[commit_da_id commit := mkAcceptedBlockDaSet (ad_commit_count s + 1) (chunk_count commit) (ad_chunks s)]> sets
    | None => sets
    end
  else if tx_kind tx =? 0x02 then
    match da_chunk_core tx with
    | Some chunk =>
        let s := default no_da_set (sets !! chunk_da_id chunk) in
        <[chunk_da_id chunk := mkAcceptedBlockDaSet (ad_commit_count s) (ad_chunk_count s) ({[chunk_index chunk]} ∪ ad_chunks s)]> sets
    | None => sets
    end
  else sets.

(* rust: node/da_relay.rs 1233-1264 complete_da_set_ids_from_parsed_block *)
Definition complete_da_set_ids_from_parsed_block (txs : list Tx) : nres (list bytes) :=
  let sets := foldl record_accepted_block_da_tx ∅ txs in
  let ids := (filter (λ p, da_set_complete p.2 = true) (btree_iter sets)).*1 in
  if MAX_DA_BATCHES_PER_BLOCK <? len ids
  then fail ("complete DA sets in block: " +:+ pretty (len ids) +:+ " exceeds MAX_DA_BATCHES_PER_BLOCK="
             +:+ pretty MAX_DA_BATCHES_PER_BLOCK)%string
  else Ok ids.

(** ** What is recorded *)

Definition own_commits (id : bytes) (txs : list Tx) : list DaCommitSet := (filter (λ p, p.1 = id) (commits_of txs)).*2.

Record recorded_sets (txs : list Tx) (sets : gmap bytes AcceptedBlockDaSet) : Prop := mkRecordedSets {
  rs_commits : ∀ id, ad_commit_count (default no_da_set (sets !! id)) = len (own_commits id txs);
  rs_count : ∀ id, ad_chunk_count (default no_da_set (sets !! id)) = default 0 (dcs_chunk_count <$> list.last (own_commits id txs));
  rs_chunks : ∀ id i, i ∈ ad_chunks (default no_da_set (sets !! id)) ↔ (id, i) ∈ (chunks_of txs).*1 }.

Lemma own_commits_snoc id txs tx c : tx_kind tx = 1 → da_commit_core tx = Some c →
  own_commits id (txs ++ [tx]) = own_commits id txs ++ (if decide (commit_da_id c = id) then [mkDaCommitSet tx (chunk_count c)] else []).
Proof.
  intros Hk Hc. unfold own_commits. rewrite (proj1 (commits_snoc txs tx c Hk Hc)), list.filter_app, fmap_app. f_equal.
  rewrite filter_cons. cbn [fst]. by destruct (decide _).
Qed.

Lemma recorded_foldl txs : recorded_sets txs (foldl record_accepted_block_da_tx ∅ txs).
Proof.
  induction txs as [|tx txs [H1 H2 H3]] using rev_ind.
  { cbn [foldl]. split; intros; rewrite lookup_empty; try done. cbn. set_solver. }
  rewrite foldl_snoc. set (sets := foldl _ _ _) in *. unfold record_accepted_block_da_tx.
  assert (∀ id, tx_kind tx ≠ 1 ∨ da_commit_core tx = None → own_commits id (txs ++ [tx]) = own_commits id txs) as Hsame.
  { intros id H. unfold own_commits, commits_of. rewrite omap_snoc. unfold commit_entry at 2.
    destruct (tx_kind tx =? 1) eqn:E; [destruct H as [?| ->]; [lia|]|]; cbn; by rewrite app_nil_r. }
  assert (tx_kind tx ≠ 2 ∨ da_chunk_core tx = None → chunks_of (txs ++ [tx]) = chunks_of txs) as Hsame'.
  { intros H. unfold chunks_of. rewrite omap_snoc. unfold chunk_entry at 2.
    destruct (tx_kind tx =? 2) eqn:E; [destruct H as [?| ->]; [lia|]|]; cbn; by rewrite app_nil_r. }
  destruct (tx_kind tx =? 1) eqn:E1.
  - destruct (da_commit_core tx) as [c|] eqn:Hc; [|by split; intros; rewrite ?Hsame, ?Hsame' by first [by right | left; lia]].
    split; intros id; rewrite ?(own_commits_snoc id txs tx c ltac:(lia) Hc).
    + destruct (decide (commit_da_id c = id)) as [<-|Hne].
      * rewrite lookup_insert_eq, length_app. cbn. rewrite H1. lia.
      * rewrite lookup_insert_ne, app_nil_r by done. apply H1.
    + destruct (decide (commit_da_id c = id)) as [<-|Hne].
      * by rewrite lookup_insert_eq, last_snoc.
      * rewrite lookup_insert_ne, app_nil_r by done. apply H2.
    + intros i. rewrite Hsame' by (left; lia). destruct (decide (commit_da_id c = id)) as [<-|Hne].
      * rewrite lookup_insert_eq. cbn. apply H3.
      * rewrite lookup_insert_ne by done. apply H3.
  - destruct (tx_kind tx =? 2) eqn:E2; [|by split; intros; rewrite ?Hsame, ?Hsame' by (left; lia)].
    destruct (da_chunk_core tx) as [c|] eqn:Hc; [|by split; intros; rewrite ?Hsame, ?Hsame' by first [by right | left; lia]].
    split; intros id; rewrite ?Hsame by (left; lia).
    + destruct (decide (chunk_da_id c = id)) as [<-|Hne]; [rewrite lookup_insert_eq|rewrite lookup_insert_ne by done]; apply H1.
    + destruct (decide (chunk_da_id c = id)) as [<-|Hne]; [rewrite lookup_insert_eq|rewrite lookup_insert_ne by done]; apply H2.
    + intros i. rewrite (proj2 (chunks_snoc txs tx c ltac:(lia) Hc)), fmap_app. cbn [fmap list_fmap fst].
      rewrite elem_of_app, list_elem_of_singleton, <- H3. destruct (decide (chunk_da_id c = id)) as [<-|Hne].
      * rewrite lookup_insert_eq. cbn. set_solver.
      * rewrite lookup_insert_ne by done. set_solver.
Qed.

Lemma only_commit (l : list (bytes * DaCommitSet)) id c : NoDup l.*1 → (id, c) ∈ l → (filter (λ p, p.1 = id) l).*2 = [c].
Proof.
  induction l as [|[id' c'] l IH]; [by intros _ ?%not_elem_of_nil|]. rewrite fmap_cons. intros [Hn Hd]%list.NoDup_cons Hin.
  rewrite filter_cons. cbn [fst] in *. destruct (decide (id' = id)) as [->|Hne].
  - assert (filter (λ p : bytes * DaCommitSet, p.1 = id) l = []) as ->.
    { destruct (filter _ l) as [|[id2 c2] l2] eqn:E; [done|]. exfalso. apply Hn.
      assert ((id2, c2) ∈ filter (λ p : bytes * DaCommitSet, p.1 = id) l) as [Hp Hi]%list_elem_of_filter by (rewrite E; by left).
      cbn in Hp. subst. by apply (list_elem_of_fmap_2 fst) in Hi. }
    apply elem_of_cons in Hin as [[= ->]|Hin]; [done|]. exfalso. apply Hn. by apply (list_elem_of_fmap_2 fst) in Hin.
  - apply elem_of_cons in Hin as [[= <- <-]|Hin]; [done|]. by apply IH.
Qed.

Lemma StronglySorted_filter {A} (R : relation A) (P : A → Prop) `{∀ x, Decision (P x)} l :
  StronglySorted R l → StronglySorted R (filter P l).
Proof.
  induction 1 as [|x l _ IH HF]; [constructor|]. rewrite filter_cons. destruct (decide (P x)); [|done].
  constructor; [done|]. apply list.Forall_forall. intros y [_ Hy]%list_elem_of_filter. by eapply list.Forall_forall in HF.
Qed.

(** The set of the numbers below [n]. *)
Lemma full_set (s : gset Z) n : 0 ≤ n → (∀ i, i ∈ s ↔ 0 ≤ i < n) → Z.of_nat (size s) = n.
Proof.
  intros Hn H. assert (s = list_to_set (seqZ 0 n)) as ->.
  { apply set_eq. intros i. rewrite H, elem_of_list_to_set, elem_of_seqZ. lia. }
  rewrite size_list_to_set by apply NoDup_seqZ. rewrite length_seqZ. lia.
Qed.

Section accepted.
Context `{HS : Sha3}.

Lemma committed_complete txs sets id c : da_sets_complete txs → recorded_sets txs sets → (id, c) ∈ commits_of txs →
  ∃ s, sets !! id = Some s ∧ da_set_complete s = true.
Proof.
  intros Hd [H1 H2 H3] Hc. pose proof (only_commit _ id c (dc_ids _ Hd) Hc) as Hown. fold (own_commits id txs) in Hown.
  specialize (H1 id). specialize (H2 id). specialize (H3 id). rewrite Hown in H1, H2. cbn in H1, H2.
  destruct (sets !! id) as [s|]; [|done]. change (default no_da_set (Some s)) with s in *. exists s. split; [done|].
  pose proof (dc_counts _ Hd id c Hc) as Hb.
  assert (∀ i, i ∈ ad_chunks s ↔ 0 ≤ i < ad_chunk_count s) as Hi.
  { intros i. rewrite H3, (dc_cover _ Hd), H2. split; [|by eauto]. intros (c' & Hc' & ?).
    pose proof (only_commit _ id c' (dc_ids _ Hd) Hc') as Hown'. fold (own_commits id txs) in Hown'. rewrite Hown in Hown'.
    injection Hown' as ->. done. }
  unfold da_set_complete. rewrite H1, (full_set (ad_chunks s) (ad_chunk_count s)) by (done || lia).
  change (Z.of_nat 1) with 1. rewrite <- H2 in Hb. rewrite !Z.eqb_refl.
  replace (ad_chunk_count s =? 0) with false by lia. replace (MAX_DA_CHUNK_COUNT <? ad_chunk_count s) with false by lia. cbn [negb orb]. apply forallb_forall. intros i Hin%list_elem_of_In%elem_of_seqZ.
  apply bool_decide_eq_true, Hi. lia.
Qed.

Lemma complete_committed txs sets id s : recorded_sets txs sets → sets !! id = Some s → da_set_complete s = true →
  id ∈ (commits_of txs).*1.
Proof.
  intros [H1 _ _] Hs Hc. specialize (H1 id). rewrite Hs in H1. change (default no_da_set (Some s)) with s in H1. unfold da_set_complete in Hc.
  destruct (negb (ad_commit_count s =? 1)) eqn:E; [done|]. unfold own_commits in H1. rewrite length_fmap in H1.
  destruct (filter _ (commits_of txs)) as [|p l] eqn:Hf; [cbn in H1; lia|].
  assert (p ∈ filter (λ p : bytes * DaCommitSet, p.1 = id) (commits_of txs)) as [<- Hp]%list_elem_of_filter by (rewrite Hf; by left).
  by apply (list_elem_of_fmap_2 fst).
Qed.

(** What the node reports of an accepted block: the batches that the block
    commits to, each once, in the order of their bytes, and never the error
    for too many. *)
Lemma complete_ids_accepted txs : da_sets_complete txs → ∃ ids, complete_da_set_ids_from_parsed_block txs = Ok ids
  ∧ StronglySorted bytes_le ids ∧ ids ≡ₚ (commits_of txs).*1.
Proof.
  intros Hd. unfold complete_da_set_ids_from_parsed_block. pose proof (recorded_foldl txs) as Hr.
  set (sets := foldl _ _ _) in *. set (ids := (filter _ (btree_iter sets)).*1).
  assert (∀ id, id ∈ ids ↔ id ∈ (commits_of txs).*1) as Hin.
  { intros id. unfold ids. rewrite list_elem_of_fmap. split.
    - intros ([id' s] & -> & [Hc Hs%elem_of_btree_iter]%list_elem_of_filter). by eapply complete_committed.
    - intros ([id' c] & -> & Hc)%list_elem_of_fmap. destruct (committed_complete _ _ _ _ Hd Hr Hc) as (s & Hs & Hcs).
      exists (id', s). split; [done|]. apply list_elem_of_filter. split; [done|]. by apply elem_of_btree_iter. }
  assert (ids ≡ₚ (commits_of txs).*1) as Hp.
  { apply NoDup_Permutation; [|apply Hd|done]. unfold ids. apply (sublist_NoDup _ (btree_iter sets).*1).
    - rewrite btree_iter_perm. apply NoDup_fst_map_to_list.
    - apply fmap_sublist, sublist_filter. }
  exists ids. split; [|split; [|done]].
  - assert (len ids = len (commits_of txs)) as Hl by (rewrite Hp, length_fmap; done).
    pose proof (dc_batches _ Hd). by replace (MAX_DA_BATCHES_PER_BLOCK <? len ids) with false by lia.
  - unfold ids. apply (StronglySorted_fmap fst key_le); [by intros ? ? ?|]. apply StronglySorted_filter, StronglySorted_merge_sort.
    + intros [k1 v1] [k2 v2] [k3 v3]. unfold key_le. cbn. apply bytes_le_trans.
    + intros [k1 v1] [k2 v2]. unfold key_le. cbn. apply bytes_le_total.
Qed.
End accepted.
