(* ===== verification/PeerKey.v ===== *)
(** * The key of a peer's quota ([da_relay.rs])

    Peers share the quota of their host: the key is the address without its
    port, with numeric addresses in the canonical form of [IpAddr::to_string]
    and without the zone of an IPv6 address.  [parse_ip], [parse_ipv6] and
    [ip_to_string] are the parser and the printer of the standard library. *)

From stdpp Require Import pretty.
From S2P Require Import Prelude Bytes.

(** ** [std::net] *)

Inductive IpAddr : Type :=
  | IpV4 (octets : list Z)
  | IpV6 (segments : list Z).

(** A parser that leaves its input alone when it fails. *)
Definition reader (A : Type) : Type := bytes → option (A * bytes).

Definition to_digit (radix : Z) (b : byte) : option Z :=
  let c := byte_val b in
  let d := if (48 <=? c) && (c <=? 57) then Some (c - 48) else
           if (97 <=? c) && (c <=? 122) then Some (c - 97 + 10) else
           if (65 <=? c) && (c <=? 90) then Some (c - 65 + 10) else None in
  d ← d; if d <? radix then Some d else None.

Definition read_given_char (c : byte) : reader unit := λ l,
  match l with b :: l => if bool_decide (b = c) then Some ((), l) else None | [] => None end.

Fixpoint read_digits (radix max_digits count value : Z) (l : bytes) : option (Z * Z * bytes) :=
  match l with
  | b :: rest =>
      match to_digit radix b with
      | Some d => if max_digits <? count + 1 then None else read_digits radix max_digits (count + 1) (value * radix + d) rest
      | None => Some (count, value, l)
      end
  | [] => Some (count, value, [])
  end.

Definition read_number (radix max_digits : Z) (allow_zero_prefix : bool) (limit : Z) : reader Z := λ l,
  '(count, value, rest) ← read_digits radix max_digits 0 0 l;
  if count =? 0 then None else
  if negb allow_zero_prefix && bool_decide (head l = Some "0"%byte) && (1 <? count) then None else
  if value <=? limit then Some (value, rest) else None.

Definition read_separator {A} (sep : byte) (index : nat) (inner : reader A) : reader A := λ l,
  if (0 <? index)%nat then '(_, l) ← read_given_char sep l; inner l else inner l.

Fixpoint read_octets (index remaining : nat) (l : bytes) : option (list Z * bytes) :=
  match remaining with
  | O => Some ([], l)
  | S remaining =>
      '(octet, l) ← read_separator "."%byte index (read_number 10 3 false 255) l;
      '(octets, l) ← read_octets (S index) remaining l;
      Some (octet :: octets, l)
  end.
Definition read_ipv4_addr : reader (list Z) := read_octets 0 4.

(** Groups of an IPv6 address, up to [remaining], with whether they end in an
    embedded IPv4 address. *)
Fixpoint read_groups (index remaining : nat) (l : bytes) : list Z * bool * bytes :=
  match remaining with
  | O => ([], false, l)
  | S remaining =>
      let ipv4 := if (0 <? remaining)%nat then read_separator ":"%byte index read_ipv4_addr l else None in
      match ipv4 with
      | Some ([one; two; three; four], l) => ([one * 256 + two; three * 256 + four], true, l)
      | _ =>
          match read_separator ":"%byte index (read_number 16 4 true 65535) l with
          | Some (group, l) => let '(groups, v4, l) := read_groups (S index) remaining l in (group :: groups, v4, l)
          | None => ([], false, l)
          end
      end
  end.

Definition read_ipv6_addr : reader (list Z) := λ l,
  let '(head, head_ipv4, l) := read_groups 0 8 l in
  if (length head =? 8)%nat then Some (head, l) else
  if head_ipv4 : bool then None else
  '(_, l) ← read_given_char ":"%byte l;
  '(_, l) ← read_given_char ":"%byte l;
  let '(tail, _, l) := read_groups 0 (8 - (length head + 1)) l in
  Some (head ++ replicate (8 - length head - length tail) 0 ++ tail, l).

Definition read_ip_addr : reader IpAddr := λ l,
  match read_ipv4_addr l with
  | Some (octets, l) => Some (IpV4 octets, l)
  | None => '(segments, l) ← read_ipv6_addr l; Some (IpV6 segments, l)
  end.

(** The whole text is the address. *)
Definition parse_with {A} (inner : reader A) (l : bytes) : option A :=
  '(a, rest) ← inner l; if bool_decide (rest = []) then Some a else None.
Definition parse_ip : bytes → option IpAddr := parse_with read_ip_addr.
Definition parse_ipv6 : bytes → option (list Z) := parse_with read_ipv6_addr.

Definition join_with (sep : bytes) (parts : list bytes) : bytes :=
  match parts with [] => [] | p :: parts => p ++ mjoin ((λ q, sep ++ q) <$> parts) end.

Definition decimal (n : Z) : bytes := ascii_bytes (pretty n).
Definition hex_char (n : Z) : byte := byte_of_Z (if n <? 10 then 48 + n else 87 + n).
(** [{:x}] of a [u16]. *)
Definition lower_hex (n : Z) : bytes :=
  if n <? 16 then [hex_char n] else
  if n <? 256 then [hex_char (n / 16); hex_char (n mod 16)] else
  if n <? 4096 then [hex_char (n / 256); hex_char (n / 16 mod 16); hex_char (n mod 16)] else
  [hex_char (n / 4096); hex_char (n / 256 mod 16); hex_char (n / 16 mod 16); hex_char (n mod 16)].

Definition ipv4_to_string (octets : list Z) : bytes := join_with ["."%byte] (decimal <$> octets).
Definition fmt_subslice (segments : list Z) : bytes := join_with [":"%byte] (lower_hex <$> segments).

(** The longest run of zeroes, the first of them: where it starts, its length. *)
Fixpoint zero_span (i : nat) (current longest : nat * nat) (segments : list Z) : nat * nat :=
  match segments with
  | [] => longest
  | segment :: segments =>
      if segment =? 0 then
        let current := (if (current.2 =? 0)%nat then i else current.1, S current.2) in
        zero_span (S i) current (if (longest.2 <? current.2)%nat then current else longest) segments
      else zero_span (S i) (0, 0)%nat longest segments
  end.

Definition ipv6_to_string (segments : list Z) : bytes :=
  match segments with
  | [0; 0; 0; 0; 0; 65535; ab; cd] =>
      ascii_bytes "::ffff:" ++ ipv4_to_string [ab / 256; ab mod 256; cd / 256; cd mod 256]
  | _ =>
      let '(start, span) := zero_span 0 (0, 0)%nat (0, 0)%nat segments in
      if (1 <? span)%nat
      then fmt_subslice (take start segments) ++ ascii_bytes "::" ++ fmt_subslice (drop (start + span) segments)
      else fmt_subslice segments
  end.

Definition ip_to_string (ip : IpAddr) : bytes :=
  match ip with IpV4 octets => ipv4_to_string octets | IpV6 segments => ipv6_to_string segments end.

(** ** [str] *)

Definition str_contains (c : byte) (s : bytes) : bool := bool_decide (c ∈ s).

(** [split_once] and [rsplit_once] at a character: the text before and after. *)
Fixpoint split_once (c : byte) (s : bytes) : option (bytes * bytes) :=
  match s with
  | [] => None
  | b :: s => if bool_decide (b = c) then Some ([], s) else '(before, after) ← split_once c s; Some (b :: before, after)
  end.
Fixpoint rsplit_once (c : byte) (s : bytes) : option (bytes * bytes) :=
  match s with
  | [] => None
  | b :: s =>
      match rsplit_once c s with
      | Some (before, after) => Some (b :: before, after)
      | None => if bool_decide (b = c) then Some ([], s) else None
      end
  end.
(** [rsplit_once] at two characters. *)
Fixpoint rsplit_once2 (c d : byte) (s : bytes) : option (bytes * bytes) :=
  match s with
  | [] => None
  | b :: s =>
      match rsplit_once2 c d s with
      | Some (before, after) => Some (b :: before, after)
      | None => match s with
                | b' :: s' => if bool_decide (b = c) && bool_decide (b' = d) then Some ([], s') else None
                | [] => None
                end
      end
  end.

(** ** The key *)

(** A string of UTF-8 bytes, ordered as bytes. *)
Abbreviation PeerQuotaKey := bytes.

Definition has_brackets (s : bytes) : bool := str_contains "["%byte s || str_contains "]"%byte s.

(* rust: node/da_relay.rs 184-199 split_peer_host *)
Definition split_peer_host (addr : bytes) : bytes :=
  match addr with
  | "["%byte :: rest =>
      match rsplit_once2 "]"%byte ":"%byte rest with
      | Some (host, port) =>
          if negb (has_brackets host) && negb (str_contains ":"%byte port) && negb (has_brackets port) then host else addr
      | None => addr
      end
  | _ =>
      match rsplit_once ":"%byte addr with
      | Some (host, port) =>
          if negb (str_contains ":"%byte host) && negb (has_brackets host) && negb (has_brackets port) then host else addr
      | None => addr
      end
  end.

(* rust: node/da_relay.rs 201-211 normalize_peer_host *)
Definition normalize_peer_host (host : bytes) : bytes :=
  match parse_ip host with
  | Some ip => ip_to_string ip
  | None =>
      match split_once "%"%byte host with
      | Some (without_zone, zone) =>
          if bool_decide (zone = []) then host else
          match parse_ipv6 without_zone with Some ip => ip_to_string (IpV6 ip) | None => host end
      | None => host
      end
  end.

(* rust: node/da_relay.rs 170-175 from_peer_addr *)
Definition from_peer_addr (addr : bytes) : PeerQuotaKey :=
  if bool_decide (addr = []) then [] else normalize_peer_host (split_peer_host addr).

(** The addresses of the source's own table. *)
Example peer_quota_key_matrix :
  Forall (λ p : string * string, from_peer_addr (ascii_bytes p.1) = ascii_bytes p.2)
    [("", ""); ("127.0.0.1:8333", "127.0.0.1"); ("127.0.0.1:65536", "127.0.0.1"); ("127.0.0.1%zone:8333", "127.0.0.1%zone");
     (":8333", ""); ("example.com:8333", "example.com"); ("example.com:", "example.com"); ("[::1]:8333", "::1"); ("[::1]:", "::1");
     ("[::1]:https", "::1"); ("[::1]:65536", "::1"); ("[::1]:8333:extra", "[::1]:8333:extra"); ("[::1]:8333]", "[::1]:8333]");
     ("fe80::1%en0", "fe80::1"); ("fe80::1%", "fe80::1%"); ("fe80::1%en0:8333", "fe80::1"); ("[fe80::1%en0]:8333", "fe80::1");
     ("[fe80::1%en0]:", "fe80::1"); ("[fe80::1%]:8333", "fe80::1%"); ("[example.com%zone]:8333", "example.com%zone");
     ("[a[b]:8333", "[a[b]:8333"); ("example[.com]:8333", "example[.com]:8333"); ("example.com%zone:8333", "example.com%zone");
     ("[0:0:1::FFFF]:1", "0:0:1::ffff"); ("::ffff:1.2.3.4", "::ffff:1.2.3.4"); ("::1.2.3.4", "::102:304"); ("010.0.0.1", "010.0.0.1")]%string.
Proof. apply (bool_decide_unpack _). vm_compute. exact I. Qed.
