(* ===== verification/DaRelaySet.v ===== *)
(** * Records of the data-availability relay ([da_relay.rs])

    The relay collects the transactions of a data set as peers announce them: a
    commit and the chunks that it counts.  This file has the record of one set
    with its methods; [DaRelay.v] has the state that owns the records and its
    accounting. *)

From S2P Require Import Prelude Bytes BTree Errors Constants Crypto WireRead CompactSize TxWire PeerKey.

(** Rust's [BTreeMap] keyed by integers: its loops run in the order of the keys. *)
Definition index_le {V} (p q : Z * V) : Prop := p.1 ≤ q.1.
#[export] Instance index_le_dec {V} : RelDecision (index_le (V := V)).
Proof. intros p q. unfold index_le. apply _. Defined.
Definition index_iter {V} (m : gmap Z V) : list (Z * V) := merge_sort index_le (map_to_list m).

(* rust: node/da_relay.rs 11-11 DA_ORPHAN_POOL_BYTES *)
Definition DA_ORPHAN_POOL_BYTES : Z := 67108864.
(* rust: node/da_relay.rs 12-12 DA_ORPHAN_POOL_PER_PEER_BYTES *)
Definition DA_ORPHAN_POOL_PER_PEER_BYTES : Z := 4194304.
(* rust: node/da_relay.rs 13-13 DA_ORPHAN_POOL_PER_DA_ID_BYTES *)
Definition DA_ORPHAN_POOL_PER_DA_ID_BYTES : Z := 8388608.
(* rust: node/da_relay.rs 14-14 DA_ORPHAN_COMMIT_OVERHEAD_BYTES *)
Definition DA_ORPHAN_COMMIT_OVERHEAD_BYTES : Z := 8388608.
(* rust: node/da_relay.rs 15-15 DA_ORPHAN_TTL_BLOCKS *)
Definition DA_ORPHAN_TTL_BLOCKS : Z := 3.
(* rust: node/da_relay.rs 16-16 DA_PINNED_PAYLOAD_BYTES *)
Definition DA_PINNED_PAYLOAD_BYTES : Z := 96000000.

(* rust: node/da_relay.rs 18-26 DaRelayCaps *)
Record DaRelayCaps : Type := mkDaRelayCaps {
  orphan_pool_bytes : Z; orphan_pool_per_peer_bytes : Z; orphan_pool_per_da_id_bytes : Z;
  orphan_commit_overhead_bytes : Z; orphan_ttl_blocks : Z; pinned_payload_bytes : Z }.

(* rust: node/da_relay.rs 28-43 DaRelayError *)
Inductive DaRelayError : Type :=
  | InvalidCaps | AccountingUnderflow | AccountingOverflow | AccountingCapExceeded | DuplicateCommit | DuplicateChunk
  | InvalidCommitChunkCount | InvalidWireBytes | ChunkIndexOutOfRange | ChunkIndexOutsideCommit | ChunkPayloadSizeInvalid
  | ChunkHashMismatch | PayloadCommitmentMismatch.
#[export] Instance DaRelayError_eq_dec : EqDecision DaRelayError.
Proof. solve_decision. Defined.

Abbreviation DaRelayResult := (result DaRelayError).

(* rust: node/da_relay.rs 46-51 DaRelaySetState *)
Inductive DaRelaySetState : Type := OrphanChunks | StagedCommit | CompleteSet.
#[export] Instance DaRelaySetState_eq_dec : EqDecision DaRelaySetState.
Proof. solve_decision. Defined.

(* rust: node/da_relay.rs 52-60 DaRelayCommit *)
Record DaRelayCommit : Type := mkDaRelayCommit {
  dr_da_id : bytes; dr_payload_commitment : bytes; dr_peer_quota_key : PeerQuotaKey; dr_chunk_count : Z;
  dr_wire_bytes : Z; dr_tx_bytes : bytes }.

(* rust: node/da_relay.rs 61-70 DaRelayChunk *)
Record DaRelayChunk : Type := mkDaRelayChunk {
  dk_da_id : bytes; dk_chunk_hash : bytes; dk_peer_quota_key : PeerQuotaKey; dk_chunk_index : Z; dk_payload : bytes;
  dk_wire_bytes : Z; dk_tx_bytes : bytes }.

(* rust: node/da_relay.rs 71-83 DaRelaySetRecord *)
Record DaRelaySetRecord : Type := mkDaRelaySetRecord {
  sr_da_id : bytes; sr_state : DaRelaySetState; sr_received_time : Z; sr_payload_bytes : Z; sr_ttl_blocks_remaining : Z;
  sr_wire_bytes : Z; sr_peer_bytes : gmap PeerQuotaKey Z; sr_commit : option DaRelayCommit;
  sr_chunks : gmap Z DaRelayChunk; sr_replaceable_chunks : gset Z }.

(** Assignments to the fields of a record. *)
Definition with_state (x : DaRelaySetState) (r : DaRelaySetRecord) : DaRelaySetRecord :=
  mkDaRelaySetRecord (sr_da_id r) x (sr_received_time r) (sr_payload_bytes r) (sr_ttl_blocks_remaining r) (sr_wire_bytes r)
    (sr_peer_bytes r) (sr_commit r) (sr_chunks r) (sr_replaceable_chunks r).
Definition with_received_time (x : Z) (r : DaRelaySetRecord) : DaRelaySetRecord :=
  mkDaRelaySetRecord (sr_da_id r) (sr_state r) x (sr_payload_bytes r) (sr_ttl_blocks_remaining r) (sr_wire_bytes r)
    (sr_peer_bytes r) (sr_commit r) (sr_chunks r) (sr_replaceable_chunks r).
Definition with_payload_bytes (x : Z) (r : DaRelaySetRecord) : DaRelaySetRecord :=
  mkDaRelaySetRecord (sr_da_id r) (sr_state r) (sr_received_time r) x (sr_ttl_blocks_remaining r) (sr_wire_bytes r)
    (sr_peer_bytes r) (sr_commit r) (sr_chunks r) (sr_replaceable_chunks r).
Definition with_ttl (x : Z) (r : DaRelaySetRecord) : DaRelaySetRecord :=
  mkDaRelaySetRecord (sr_da_id r) (sr_state r) (sr_received_time r) (sr_payload_bytes r) x (sr_wire_bytes r)
    (sr_peer_bytes r) (sr_commit r) (sr_chunks r) (sr_replaceable_chunks r).
Definition with_bytes (wire : Z) (peers : gmap PeerQuotaKey Z) (r : DaRelaySetRecord) : DaRelaySetRecord :=
  mkDaRelaySetRecord (sr_da_id r) (sr_state r) (sr_received_time r) (sr_payload_bytes r) (sr_ttl_blocks_remaining r) wire
    peers (sr_commit r) (sr_chunks r) (sr_replaceable_chunks r).
Definition with_commit (x : option DaRelayCommit) (r : DaRelaySetRecord) : DaRelaySetRecord :=
  mkDaRelaySetRecord (sr_da_id r) (sr_state r) (sr_received_time r) (sr_payload_bytes r) (sr_ttl_blocks_remaining r)
    (sr_wire_bytes r) (sr_peer_bytes r) x (sr_chunks r) (sr_replaceable_chunks r).
Definition with_chunks (x : gmap Z DaRelayChunk) (y : gset Z) (r : DaRelaySetRecord) : DaRelaySetRecord :=
  mkDaRelaySetRecord (sr_da_id r) (sr_state r) (sr_received_time r) (sr_payload_bytes r) (sr_ttl_blocks_remaining r)
    (sr_wire_bytes r) (sr_peer_bytes r) (sr_commit r) x y.

(* rust: node/da_relay.rs 85-91 DaRelayEvictionAccounting *)
Record DaRelayEvictionAccounting : Type := mkDaRelayEvictionAccounting {
  ea_da_id : bytes; ea_payload_bytes : Z; ea_wire_bytes : Z; ea_received_time : Z }.

(* rust: node/da_relay.rs 113-116 CompleteDaSetChunkCandidate *)
Record CompleteDaSetChunkCandidate : Type := mkCompleteDaSetChunkCandidate { cc_index : Z; cc_tx : bytes }.
(* rust: node/da_relay.rs 105-110 CompleteDaSetCandidate *)
Record CompleteDaSetCandidate : Type := mkCompleteDaSetCandidate {
  cs_da_id : bytes; cs_payload_bytes : Z; cs_commit_tx : bytes; cs_chunks : list CompleteDaSetChunkCandidate }.

(* rust: node/da_relay.rs 453-458 DaRelayCompletionChunk *)
Record DaRelayCompletionChunk : Type := mkDaRelayCompletionChunk { ck_chunk_index : Z; ck_chunk_hash : bytes; ck_payload : bytes }.
(* rust: node/da_relay.rs 447-451 DaRelayCompletionSnapshot *)
Record DaRelayCompletionSnapshot : Type := mkDaRelayCompletionSnapshot {
  cn_payload_commitment_expected : bytes; cn_chunks : list DaRelayCompletionChunk }.

(** ** Accounting of bytes *)

(* rust: node/da_relay.rs 1180-1183 checked_add *)
Definition da_checked_add (left right : Z) : DaRelayResult Z := ok_or (checked_add u64_max left right) AccountingOverflow.

(* rust: node/da_relay.rs 1185-1191 retained_tx_accounting_bytes *)
Definition retained_tx_accounting_bytes (wire_bytes : Z) (tx_bytes : bytes) : Z :=
  if bool_decide (tx_bytes = []) then wire_bytes else len tx_bytes.

(* rust: node/da_relay.rs 1193-1199 orphan_chunk_accounting_bytes *)
Definition orphan_chunk_accounting_bytes (chunk : DaRelayChunk) : DaRelayResult Z :=
  let bytes := retained_tx_accounting_bytes (dk_wire_bytes chunk) (dk_tx_bytes chunk) in
  if bool_decide (dk_tx_bytes chunk ≠ []) && bool_decide (dk_payload chunk ≠ [])
  then da_checked_add bytes (len (dk_payload chunk)) else Ok bytes.

(** ** Methods of a record *)

(* rust: node/da_relay.rs 215-228 new *)
Definition DaRelaySetRecord_new (da_id : bytes) : DaRelaySetRecord := mkDaRelaySetRecord da_id OrphanChunks 0 0 0 0 ∅ None ∅ ∅.

(* rust: node/da_relay.rs 229-242 validate_chunk_insert *)
Definition validate_chunk_insert (r : DaRelaySetRecord) (chunk_index : Z) : DaRelayResult unit :=
  if bool_decide (is_Some (sr_chunks r !! chunk_index))
  then if bool_decide (chunk_index ∈ sr_replaceable_chunks r) then Ok () else Err DuplicateChunk
  else match sr_commit r with
       | Some commit => if dr_chunk_count commit <=? chunk_index then Err ChunkIndexOutsideCommit else Ok ()
       | None => Ok ()
       end.

(* rust: node/da_relay.rs 243-250 prune_chunks_outside_commit *)
Definition prune_chunks_outside_commit (r : DaRelaySetRecord) : DaRelaySetRecord :=
  match sr_commit r with
  | Some commit =>
      with_chunks (filter (λ p, p.1 < dr_chunk_count commit) (sr_chunks r))
        (filter (λ index, index < dr_chunk_count commit) (sr_replaceable_chunks r)) r
  | None => r
  end.

(** The turn of one chunk in the loop of [recompute_wire_bytes]. *)
(* rust: node/da_relay.rs 259-267 recompute_wire_bytes *)
Definition add_chunk_bytes (acc : Z * gmap PeerQuotaKey Z) (p : Z * DaRelayChunk) : DaRelayResult (Z * gmap PeerQuotaKey Z) :=
  let '(total, peer_bytes) := acc in
  let chunk := p.2 in
  total ← da_checked_add total (retained_tx_accounting_bytes (dk_wire_bytes chunk) (dk_tx_bytes chunk));
  chunk_bytes ← orphan_chunk_accounting_bytes chunk;
  entry ← da_checked_add (default 0 (peer_bytes !! dk_peer_quota_key chunk)) chunk_bytes;
  Ok (total, <[dk_peer_quota_key chunk := entry]> peer_bytes).
(* rust: node/da_relay.rs 251-270 recompute_wire_bytes *)
Definition recompute_wire_bytes (r : DaRelaySetRecord) : DaRelayResult DaRelaySetRecord :=
  let start := match sr_commit r with
               | Some commit =>
                   let total := retained_tx_accounting_bytes (dr_wire_bytes commit) (dr_tx_bytes commit) in
                   (total, {[dr_peer_quota_key commit := total]})
               | None => (0, ∅)
               end in
  '(total, peer_bytes) ← try_fold add_chunk_bytes start (index_iter (sr_chunks r));
  Ok (with_bytes total peer_bytes r).

(* rust: node/da_relay.rs 271-292 completion_snapshot *)
Definition completion_snapshot (r : DaRelaySetRecord) : option DaRelayCompletionSnapshot :=
  commit ← sr_commit r;
  if bool_decide (sr_state r = CompleteSet) then None else
  chunks ← mapM (λ index,
    if bool_decide (index ∈ sr_replaceable_chunks r) then None else
    chunk ← sr_chunks r !! index;
    Some (mkDaRelayCompletionChunk index (dk_chunk_hash chunk) (dk_payload chunk))) (seqZ 0 (dr_chunk_count commit));
  Some (mkDaRelayCompletionSnapshot (dr_payload_commitment commit) chunks).

(* rust: node/da_relay.rs 297-309 missing_chunk_indexes *)
Definition record_missing_chunk_indexes (r : DaRelaySetRecord) : list Z :=
  match sr_commit r with
  | None => []
  | Some commit =>
      if (dr_chunk_count commit =? 0) || bool_decide (sr_state r = CompleteSet) then [] else
      filter (λ index, sr_chunks r !! index = None ∨ index ∈ sr_replaceable_chunks r) (seqZ 0 (dr_chunk_count commit))
  end.

Definition drop_payload (c : DaRelayChunk) : DaRelayChunk :=
  mkDaRelayChunk (dk_da_id c) (dk_chunk_hash c) (dk_peer_quota_key c) (dk_chunk_index c) [] (dk_wire_bytes c) (dk_tx_bytes c).
(* rust: node/da_relay.rs 310-318 mark_complete *)
Definition mark_complete (payload_bytes : Z) (r : DaRelaySetRecord) : DaRelaySetRecord :=
  with_chunks (drop_payload <$> sr_chunks r) ∅ (with_ttl 0 (with_state CompleteSet (with_payload_bytes payload_bytes r))).

(* rust: node/da_relay.rs 319-321 mark_chunks_replaceable *)
Definition mark_chunks_replaceable (indexes : list Z) (r : DaRelaySetRecord) : DaRelaySetRecord :=
  with_chunks (sr_chunks r) (list_to_set indexes ∪ sr_replaceable_chunks r) r.

(* rust: node/da_relay.rs 322-330 orphan_wire_bytes *)
Definition orphan_wire_bytes (r : DaRelaySetRecord) : DaRelayResult Z :=
  if bool_decide (sr_state r = CompleteSet) then Ok 0 else
  try_fold da_checked_add 0 (btree_iter (sr_peer_bytes r)).*2.

(* rust: node/da_relay.rs 331-339 orphan_commit_bytes *)
Definition orphan_commit_bytes (r : DaRelaySetRecord) : Z :=
  if bool_decide (sr_state r = CompleteSet) then 0 else
  match sr_commit r with
  | Some commit => retained_tx_accounting_bytes (dr_wire_bytes commit) (dr_tx_bytes commit)
  | None => 0
  end.

(* rust: node/da_relay.rs 340-342 orphan_peer_bytes *)
Definition orphan_peer_bytes (r : DaRelaySetRecord) : option (gmap PeerQuotaKey Z) :=
  if bool_decide (sr_state r ≠ CompleteSet) then Some (sr_peer_bytes r) else None.

(* rust: node/da_relay.rs 383-387 empty_incomplete *)
Definition empty_incomplete (r : DaRelaySetRecord) : bool :=
  bool_decide (sr_state r ≠ CompleteSet) && bool_decide (sr_commit r = None) && bool_decide (sr_chunks r = ∅).

(* rust: node/da_relay.rs 343-382 without_peer_quota_key *)
Definition without_peer_quota_key (r : DaRelaySetRecord) (key : PeerQuotaKey) : DaRelayResult (option DaRelaySetRecord) :=
  if bool_decide (sr_state r = CompleteSet) || (sr_wire_bytes r =? 0) then Ok None else
  let drop_commit := match sr_commit r with
                     | Some commit => negb (dr_wire_bytes commit =? 0) && bool_decide (dr_peer_quota_key commit = key)
                     | None => false
                     end in
  let indexes := (filter (λ p, dk_wire_bytes p.2 ≠ 0 ∧ dk_peer_quota_key p.2 = key) (index_iter (sr_chunks r))).*1 in
  if negb drop_commit && bool_decide (indexes = []) then Ok None else
  let updated := if drop_commit then with_chunks (sr_chunks r) ∅ (with_commit None r) else r in
  let updated := foldl (λ u index, with_chunks (delete index (sr_chunks u)) (sr_replaceable_chunks u ∖ {[index]}) u) updated indexes in
  let updated := with_payload_bytes 0 updated in
  let updated := match sr_commit updated with
                 | None => with_chunks (sr_chunks updated) ∅ (with_state OrphanChunks updated)
                 | Some _ => updated
                 end in
  if empty_incomplete updated then Ok (Some (with_bytes 0 ∅ updated)) else
  updated ← recompute_wire_bytes updated;
  Ok (Some updated).

(* rust: node/da_relay.rs 396-401 pinned_payload_accounting_bytes *)
Definition pinned_payload_accounting_bytes (r : DaRelaySetRecord) : Z :=
  if bool_decide (sr_state r ≠ CompleteSet) then 0 else sr_payload_bytes r.

(* rust: node/da_relay.rs 403-417 eviction_accounting *)
Definition eviction_accounting (r : DaRelaySetRecord) : option DaRelayEvictionAccounting :=
  if bool_decide (sr_state r ≠ CompleteSet) || (sr_payload_bytes r =? 0) || (sr_wire_bytes r =? 0) || (sr_received_time r =? 0)
  then None
  else Some (mkDaRelayEvictionAccounting (sr_da_id r) (sr_payload_bytes r) (sr_wire_bytes r) (sr_received_time r)).

(* rust: node/da_relay.rs 419-444 complete_da_set_candidate *)
Definition complete_da_set_candidate (r : DaRelaySetRecord) : option CompleteDaSetCandidate :=
  if bool_decide (sr_state r ≠ CompleteSet) then None else
  commit ← sr_commit r;
  if (dr_chunk_count commit =? 0) || bool_decide (dr_tx_bytes commit = []) then None else
  chunks ← mapM (λ index,
    chunk ← sr_chunks r !! index;
    if bool_decide (dk_tx_bytes chunk = []) then None else Some (mkCompleteDaSetChunkCandidate index (dk_tx_bytes chunk)))
    (seqZ 0 (dr_chunk_count commit));
  Some (mkCompleteDaSetCandidate (sr_da_id r) (sr_payload_bytes r) (dr_tx_bytes commit) chunks).

Section snapshot.
Context `{HS : Sha3}.

(* rust: node/da_relay.rs 461-469 payload_commitment *)
Definition payload_commitment (s : DaRelayCompletionSnapshot) : DaRelayResult (Z * bytes) :=
  payload_bytes ← try_fold (λ total chunk, da_checked_add total (len (ck_payload chunk))) 0 (cn_chunks s);
  Ok (payload_bytes, sha3_256 (mjoin (ck_payload <$> cn_chunks s))).
End snapshot.

(** [None] when a retained chunk is not the one of the snapshot. *)
Fixpoint matching_indexes (r : DaRelaySetRecord) (chunks : list DaRelayCompletionChunk) : option (list Z) :=
  match chunks with
  | [] => Some []
  | snapshot_chunk :: chunks =>
      match sr_chunks r !! ck_chunk_index snapshot_chunk with
      | None => matching_indexes r chunks
      | Some chunk =>
          if negb (bool_decide (dk_chunk_hash chunk = ck_chunk_hash snapshot_chunk))
             || negb (bool_decide (length (dk_payload chunk) = length (ck_payload snapshot_chunk)))
          then None else (ck_chunk_index snapshot_chunk ::.) <$> matching_indexes r chunks
      end
  end.
(* rust: node/da_relay.rs 470-484 matching_chunk_indexes *)
Definition matching_chunk_indexes (s : DaRelayCompletionSnapshot) (r : DaRelaySetRecord) : option (list Z) :=
  matching_indexes r (cn_chunks s).
