(* ===== verification/DaRelay.v ===== *)
(** * The data-availability relay ([da_relay.rs])

    The state that owns the records of data sets.  It counts the bytes of
    incomplete sets for the whole pool, for each peer and for each set, the
    bytes of their commits, and the payload of complete sets, each under a cap;
    a change is projected on all the counters before any of them is written. *)

From stdpp Require Import pretty.
From S2P Require Import Prelude Bytes BTree Errors Constants Crypto WireRead CompactSize TxWire TxCodec BlockParse NodeText.
From S2P Require Import BlockDa DaComplete ChainState Branch PeerKey DaRelaySet.

(* rust: node/da_relay.rs 124-133 DaRelayState *)
Record DaRelayState : Type := mkDaRelayState {
  rs_caps : DaRelayCaps; rs_next_received_time : Z; rs_orphan_bytes : Z;
  rs_orphan_bytes_by_peer : gmap PeerQuotaKey Z; rs_orphan_bytes_by_da_id : gmap bytes Z;
  rs_orphan_commit_overhead_bytes : Z; rs_pinned_payload_bytes : Z; rs_sets : gmap bytes DaRelaySetRecord }.

(** A method that takes [&mut self] and may fail. *)
Abbreviation Relay A := (ST DaRelayState DaRelayError A).

(* rust: node/da_relay.rs 136-145 default *)
Definition default_caps : DaRelayCaps :=
  mkDaRelayCaps DA_ORPHAN_POOL_BYTES DA_ORPHAN_POOL_PER_PEER_BYTES DA_ORPHAN_POOL_PER_DA_ID_BYTES
    DA_ORPHAN_COMMIT_OVERHEAD_BYTES DA_ORPHAN_TTL_BLOCKS DA_PINNED_PAYLOAD_BYTES.

(* rust: node/da_relay.rs 149-166 validate *)
Definition caps_validate (c : DaRelayCaps) : DaRelayResult unit :=
  if bool_decide (0 ∈ [orphan_pool_bytes c; orphan_pool_per_peer_bytes c; orphan_pool_per_da_id_bytes c;
                       orphan_commit_overhead_bytes c; orphan_ttl_blocks c; pinned_payload_bytes c])
     || (orphan_pool_bytes c <? orphan_pool_per_peer_bytes c) || (orphan_pool_bytes c <? orphan_pool_per_da_id_bytes c)
     || (orphan_pool_bytes c <? orphan_commit_overhead_bytes c)
  then Err InvalidCaps else Ok ().

(* rust: node/da_relay.rs 493-505 new *)
Definition DaRelayState_new (caps : DaRelayCaps) : DaRelayResult DaRelayState :=
  _ ← caps_validate caps; Ok (mkDaRelayState caps 0 0 ∅ ∅ 0 0 ∅).

(* rust: node/da_relay.rs 507-514 is_empty *)
Definition relay_is_empty (s : DaRelayState) : bool :=
  (rs_orphan_bytes s =? 0) && bool_decide (rs_orphan_bytes_by_peer s = ∅) && bool_decide (rs_orphan_bytes_by_da_id s = ∅)
  && (rs_orphan_commit_overhead_bytes s =? 0) && (rs_pinned_payload_bytes s =? 0) && bool_decide (dom (rs_sets s) = ∅).

(** ** Projections of the counters *)

(* rust: node/da_relay.rs 866-876 project_counter *)
Definition project_counter (current remove add cap : Z) : DaRelayResult Z :=
  if current <? remove then Err AccountingUnderflow else
  next ← da_checked_add (current - remove) add;
  if cap <? next then Err AccountingCapExceeded else Ok next.

(* rust: node/da_relay.rs 988-1003 project_peer_counter *)
Definition project_peer_counter (s : DaRelayState) (key : PeerQuotaKey) (remove add : Z) : DaRelayResult (PeerQuotaKey * Z) :=
  projected ← project_counter (default 0 (rs_orphan_bytes_by_peer s !! key)) remove add (orphan_pool_per_peer_bytes (rs_caps s));
  Ok (key, projected).

(** A peer that the old record does not count. *)
Definition unlisted (old : option (gmap PeerQuotaKey Z)) (key : PeerQuotaKey) : bool :=
  match old with Some m => bool_decide (m !! key = None) | None => true end.
(* rust: node/da_relay.rs 1005-1030 project_peer_bytes *)
Definition project_peer_bytes (s : DaRelayState) (old : option DaRelaySetRecord) (new : DaRelaySetRecord) :
    DaRelayResult (list (PeerQuotaKey * Z)) :=
  let new_peer_bytes := orphan_peer_bytes new in
  let old_peer_bytes := old ≫= orphan_peer_bytes in
  projected ← match old_peer_bytes with
              | Some m => mapM (λ p, project_peer_counter s p.1 p.2 (default 0 (new_peer_bytes ≫= (.!! p.1)))) (btree_iter m)
              | None => Ok []
              end;
  added ← match new_peer_bytes with
          | Some m =>
              mapM (λ p, project_peer_counter s p.1 0 p.2)
                (filter (λ p, unlisted old_peer_bytes p.1 = true) (btree_iter m))
          | None => Ok []
          end;
  Ok (projected ++ added).

(** Counters that reach zero are removed. *)
Definition write_counter (m : gmap bytes Z) (p : bytes * Z) : gmap bytes Z :=
  if p.2 =? 0 then delete p.1 m else <[p.1 := p.2]> m.

(* rust: node/da_relay.rs 928-986 apply_record *)
Definition apply_record (record : DaRelaySetRecord) : Relay unit := λ s,
  let caps := rs_caps s in
  let old := rs_sets s !! sr_da_id record in
  let projected :=
    old_bytes ← match old with Some r => orphan_wire_bytes r | None => Ok 0 end;
    let old_commit_bytes := match old with Some r => orphan_commit_bytes r | None => 0 end in
    let old_pinned_bytes := match old with Some r => pinned_payload_accounting_bytes r | None => 0 end in
    new_bytes ← orphan_wire_bytes record;
    let new_commit_bytes := orphan_commit_bytes record in
    let new_pinned_bytes := pinned_payload_accounting_bytes record in
    peer_bytes ← project_peer_bytes s old record;
    let da_id_current := default 0 (rs_orphan_bytes_by_da_id s !! sr_da_id record) in
    orphan_bytes ← project_counter (rs_orphan_bytes s) old_bytes new_bytes (orphan_pool_bytes caps);
    da_id_bytes ← project_counter da_id_current old_bytes new_bytes (orphan_pool_per_da_id_bytes caps);
    commit_overhead ← project_counter (rs_orphan_commit_overhead_bytes s) old_commit_bytes new_commit_bytes
                        (orphan_commit_overhead_bytes caps);
    pinned ← project_counter (rs_pinned_payload_bytes s) old_pinned_bytes new_pinned_bytes (pinned_payload_bytes caps);
    Ok (mkDaRelayState caps (Z.max (sr_received_time record) (rs_next_received_time s)) orphan_bytes
          (foldl write_counter (rs_orphan_bytes_by_peer s) peer_bytes)
          (write_counter (rs_orphan_bytes_by_da_id s) (sr_da_id record, da_id_bytes))
          commit_overhead pinned (<[sr_da_id record := record]> (rs_sets s))) in
  match projected with Ok s' => (Ok (), s') | Err e => (Err e, s) end.

(* rust: node/da_relay.rs 93-98 DaRelayTtlExpiryProjection *)
Record DaRelayTtlExpiryProjection : Type := mkDaRelayTtlExpiryProjection {
  tp_orphan_bytes : Z; tp_orphan_commit_overhead_bytes : Z; tp_peer_bytes : list (PeerQuotaKey * Z);
  tp_da_id_bytes : list (bytes * Z) }.

(** The sums that [project_ttl_expiry] makes of one record. *)
Definition sum_peer_bytes (acc : gmap PeerQuotaKey Z) (p : PeerQuotaKey * Z) : DaRelayResult (gmap PeerQuotaKey Z) :=
  entry ← da_checked_add (default 0 (acc !! p.1)) p.2; Ok (<[p.1 := entry]> acc).
(* rust: node/da_relay.rs 1040-1064 project_ttl_expiry *)
Definition sum_expiring_record (s : DaRelayState) (acc : Z * Z * gmap PeerQuotaKey Z * list (bytes * Z)) (record : DaRelaySetRecord) :
    DaRelayResult (Z * Z * gmap PeerQuotaKey Z * list (bytes * Z)) :=
  let '(remove_orphan, remove_overhead, remove_peer, da_id_bytes) := acc in
  orphan ← orphan_wire_bytes record;
  remove_orphan ← da_checked_add remove_orphan orphan;
  remove_overhead ← da_checked_add remove_overhead (orphan_commit_bytes record);
  da_id ← project_counter (default 0 (rs_orphan_bytes_by_da_id s !! sr_da_id record)) orphan 0
            (orphan_pool_per_da_id_bytes (rs_caps s));
  remove_peer ← match orphan_peer_bytes record with
                | Some m => try_fold sum_peer_bytes remove_peer (btree_iter m)
                | None => Ok remove_peer
                end;
  Ok (remove_orphan, remove_overhead, remove_peer, da_id_bytes ++ [(sr_da_id record, da_id)]).
(* rust: node/da_relay.rs 1032-1087 project_ttl_expiry *)
Definition project_ttl_expiry (s : DaRelayState) (records : list DaRelaySetRecord) : DaRelayResult DaRelayTtlExpiryProjection :=
  '(remove_orphan, remove_overhead, remove_peer, da_id_bytes) ← try_fold (sum_expiring_record s) (0, 0, ∅, []) records;
  peer_bytes ← mapM (λ p, project_peer_counter s p.1 p.2 0) (btree_iter remove_peer);
  orphan ← project_counter (rs_orphan_bytes s) remove_orphan 0 (orphan_pool_bytes (rs_caps s));
  overhead ← project_counter (rs_orphan_commit_overhead_bytes s) remove_overhead 0 (orphan_commit_overhead_bytes (rs_caps s));
  Ok (mkDaRelayTtlExpiryProjection orphan overhead peer_bytes da_id_bytes).

(* rust: node/da_relay.rs 1089-1113 apply_ttl_expiry_projection *)
Definition apply_ttl_expiry_projection (p : DaRelayTtlExpiryProjection) (records : list DaRelaySetRecord) (s : DaRelayState) :
    DaRelayState :=
  mkDaRelayState (rs_caps s) (rs_next_received_time s) (tp_orphan_bytes p)
    (foldl write_counter (rs_orphan_bytes_by_peer s) (tp_peer_bytes p))
    (foldl write_counter (rs_orphan_bytes_by_da_id s) (tp_da_id_bytes p))
    (tp_orphan_commit_overhead_bytes p) (rs_pinned_payload_bytes s)
    (foldl (λ m r, delete (sr_da_id r) m) (rs_sets s) records).

(** ** Queries *)

(* rust: node/da_relay.rs 533-538 missing_chunk_indexes *)
Definition missing_chunk_indexes (s : DaRelayState) (da_id : bytes) : list Z :=
  match rs_sets s !! da_id with Some r => record_missing_chunk_indexes r | None => [] end.

(** The sum of the candidates keeps within the limit, and so within [u64]. *)
(* rust: node/da_relay.rs 644-665 complete_set_eviction_candidates *)
Definition complete_set_eviction_candidates (s : DaRelayState) (max_payload_bytes : Z) : list DaRelayEvictionAccounting :=
  if max_payload_bytes =? 0 then [] else
  (foldl (λ '(payload_bytes, candidates) r,
     match eviction_accounting r with
     | Some c => if Z.max 0 (max_payload_bytes - payload_bytes) <? ea_payload_bytes c then (payload_bytes, candidates)
                 else (payload_bytes + ea_payload_bytes c, candidates ++ [c])
     | None => (payload_bytes, candidates)
     end) (0, []) (btree_iter (rs_sets s)).*2).2.

(** The turn of one record: the payload chosen so far, the candidates. *)
(* rust: node/da_relay.rs 676-691 complete_da_set_candidates *)
Definition add_candidate (max_payload_bytes : Z) (acc : Z * list CompleteDaSetCandidate) (r : DaRelaySetRecord) :
    Z * list CompleteDaSetCandidate :=
  let '(payload_bytes, candidates) := acc in
  if bool_decide (sr_state r ≠ CompleteSet) then acc else
  match checked_add u64_max payload_bytes (sr_payload_bytes r) with
  | None => acc
  | Some next_payload_bytes =>
      if max_payload_bytes <? next_payload_bytes then acc else
      match complete_da_set_candidate r with
      | None => acc
      | Some candidate => (next_payload_bytes, candidates ++ [candidate])
      end
  end.
(* rust: node/da_relay.rs 667-693 complete_da_set_candidates *)
Definition complete_da_set_candidates (s : DaRelayState) (max_payload_bytes : Z) : list CompleteDaSetCandidate :=
  if max_payload_bytes =? 0 then [] else
  (foldl (add_candidate max_payload_bytes) (0, []) (btree_iter (rs_sets s)).*2).2.

(** ** Expiry, release, consumption *)

Definition set_sets (sets : gmap bytes DaRelaySetRecord) (s : DaRelayState) : DaRelayState :=
  mkDaRelayState (rs_caps s) (rs_next_received_time s) (rs_orphan_bytes s) (rs_orphan_bytes_by_peer s) (rs_orphan_bytes_by_da_id s)
    (rs_orphan_commit_overhead_bytes s) (rs_pinned_payload_bytes s) sets.

(** The records of the keys of [orphan_bytes_by_da_id] that are not complete. *)
Definition pending_records (s : DaRelayState) : list (bytes * DaRelaySetRecord) :=
  omap (λ da_id, r ← rs_sets s !! da_id; if bool_decide (sr_state r = CompleteSet) then None else Some (da_id, r))
    (btree_keys (rs_orphan_bytes_by_da_id s)).

(* rust: node/da_relay.rs 729-739 advance_orphan_ttl_by *)
Definition decrement_ttl (blocks : Z) (da_id : bytes) : Relay unit := λ s,
  match rs_sets s !! da_id with
  | None => (Err AccountingUnderflow, s)
  | Some r => if sr_ttl_blocks_remaining r <? blocks then (Err AccountingUnderflow, s)
              else (Ok (), set_sets (<[da_id := with_ttl (sr_ttl_blocks_remaining r - blocks) r]> (rs_sets s)) s)
  end.
(* rust: node/da_relay.rs 699-744 advance_orphan_ttl_by *)
Definition advance_orphan_ttl_by (blocks : Z) : Relay (list bytes) := λ s,
  if blocks =? 0 then (Ok [], s) else
  let decrementing := (filter (λ p, blocks < sr_ttl_blocks_remaining p.2) (pending_records s)).*1 in
  let expiring := (filter (λ p, ¬ blocks < sr_ttl_blocks_remaining p.2) (pending_records s)).*2 in
  (projection ← lift (if bool_decide (expiring = []) then Ok None else p ← project_ttl_expiry s expiring; Ok (Some p));
   _ ← st_fold (λ (_ : unit) da_id, decrement_ttl blocks da_id) () decrementing;
   match projection with
   | None => mret []
   | Some p => _ ← modify (apply_ttl_expiry_projection p expiring); mret (sr_da_id <$> expiring)
   end) s.
(* rust: node/da_relay.rs 695-697 advance_orphan_ttl *)
Definition advance_orphan_ttl : Relay (list bytes) := advance_orphan_ttl_by 1.

(** One set of a peer that leaves. *)
(* rust: node/da_relay.rs 754-779 release_peer_quota_key *)
Definition release_from_set (key : PeerQuotaKey) (da_id : bytes) : Relay unit := λ s,
  match rs_sets s !! da_id with
  | None => (Ok (), s)
  | Some record =>
      if bool_decide (sr_state record = CompleteSet) then (Ok (), s) else
      match without_peer_quota_key record key with
      | Err e => (Err e, s)
      | Ok None => (Ok (), s)
      | Ok (Some updated) =>
          if empty_incomplete updated
          then match project_ttl_expiry s [record] with
               | Err e => (Err e, s)
               | Ok p => (Ok (), apply_ttl_expiry_projection p [record] s)
               end
          else apply_record updated s
      end
  end.
(* rust: node/da_relay.rs 746-780 release_peer_quota_key *)
Definition release_peer_quota_key (key : PeerQuotaKey) : Relay unit := λ s,
  if default 0 (rs_orphan_bytes_by_peer s !! key) =? 0 then (Ok (), s) else
  st_fold (λ (_ : unit) da_id, release_from_set key da_id) () (btree_keys (rs_orphan_bytes_by_da_id s)) s.

(* rust: node/da_relay.rs 791-810 consume_complete_set *)
Definition consume_complete_set (da_id : bytes) : Relay bool := λ s,
  match rs_sets s !! da_id with
  | None => (Ok false, s)
  | Some record =>
      if bool_decide (sr_state record ≠ CompleteSet) then (Ok false, s) else
      match project_counter (rs_pinned_payload_bytes s) (pinned_payload_accounting_bytes record) 0 (pinned_payload_bytes (rs_caps s)) with
      | Err e => (Err e, s)
      | Ok pinned =>
          (Ok true, mkDaRelayState (rs_caps s) (rs_next_received_time s) (rs_orphan_bytes s) (rs_orphan_bytes_by_peer s)
                      (rs_orphan_bytes_by_da_id s) (rs_orphan_commit_overhead_bytes s) pinned (delete da_id (rs_sets s)))
      end
  end.

(** ** Staging *)

(* rust: node/da_relay.rs 487-490 CompletionMismatchAction *)
Inductive CompletionMismatchAction : Type := DropMatchingChunks | MarkMatchingChunksReplaceable.

(* rust: node/da_relay.rs 1122-1134 validate_da_chunk *)
Definition validate_da_chunk (chunk : DaRelayChunk) : DaRelayResult unit :=
  if MAX_DA_CHUNK_COUNT <=? dk_chunk_index chunk then Err ChunkIndexOutOfRange else
  let payload_len := len (dk_payload chunk) in
  if (payload_len =? 0) || (CHUNK_BYTES <? payload_len) then Err ChunkPayloadSizeInvalid else
  if (dk_wire_bytes chunk =? 0) || (dk_wire_bytes chunk <? payload_len) then Err InvalidWireBytes else Ok ().

Definition without_chunks (indexes : list Z) (r : DaRelaySetRecord) : DaRelaySetRecord :=
  foldl (λ u index, with_chunks (delete index (sr_chunks u)) (sr_replaceable_chunks u ∖ {[index]}) u) r indexes.

Section staging.
Context `{HS : Sha3}.

(** What happens to the set when the chunks do not hash to the commitment. *)
(* rust: node/da_relay.rs 895-920 prepare_and_apply_record *)
Definition completion_mismatch (record : DaRelaySetRecord) (snapshot : DaRelayCompletionSnapshot) (action : CompletionMismatchAction) :
    Relay unit :=
  match action with
  | DropMatchingChunks =>
      let record := match matching_chunk_indexes snapshot record with Some indexes => without_chunks indexes record | None => record end in
      record ← lift (recompute_wire_bytes (with_state StagedCommit (with_payload_bytes 0 record)));
      apply_record record
  | MarkMatchingChunksReplaceable => λ s,
      match rs_sets s !! sr_da_id record with
      | None => (Ok (), s)
      | Some record =>
          match matching_chunk_indexes snapshot record with
          | Some indexes =>
              if (length indexes =? length (cn_chunks snapshot))%nat then apply_record (mark_chunks_replaceable indexes record) s else (Ok (), s)
          | None => (Ok (), s)
          end
      end
  end.

(* rust: node/da_relay.rs 878-926 prepare_and_apply_record *)
Definition prepare_and_apply_record (record : DaRelaySetRecord) (action : CompletionMismatchAction) : Relay unit :=
  record ← lift (recompute_wire_bytes record);
  next_received_time ← gets rs_next_received_time;
  record ← lift (if sr_received_time record =? 0
                 then t ← da_checked_add next_received_time 1; Ok (with_received_time t record) else Ok record);
  match completion_snapshot record with
  | None => apply_record record
  | Some snapshot =>
      '(payload_bytes, commitment) ← lift (payload_commitment snapshot);
      if bool_decide (commitment = cn_payload_commitment_expected snapshot)
      then apply_record (mark_complete payload_bytes record)
      else _ ← completion_mismatch record snapshot action; lift (Err PayloadCommitmentMismatch)
  end.

Definition with_commit_key (key : PeerQuotaKey) (c : DaRelayCommit) : DaRelayCommit :=
  mkDaRelayCommit (dr_da_id c) (dr_payload_commitment c) key (dr_chunk_count c) (dr_wire_bytes c) (dr_tx_bytes c).
Definition with_chunk_key (key : PeerQuotaKey) (c : DaRelayChunk) : DaRelayChunk :=
  mkDaRelayChunk (dk_da_id c) (dk_chunk_hash c) key (dk_chunk_index c) (dk_payload c) (dk_wire_bytes c) (dk_tx_bytes c).

(* rust: node/da_relay.rs 812-836 stage_incomplete_da_commit *)
Definition stage_incomplete_da_commit (peer_addr : bytes) (commit : DaRelayCommit) : Relay unit := λ s,
  if (dr_chunk_count commit =? 0) || (MAX_DA_CHUNK_COUNT <? dr_chunk_count commit) then (Err InvalidCommitChunkCount, s) else
  if dr_wire_bytes commit =? 0 then (Err InvalidWireBytes, s) else
  let commit := with_commit_key (from_peer_addr peer_addr) commit in
  let old := rs_sets s !! dr_da_id commit in
  if bool_decide (is_Some (old ≫= sr_commit)) then (Err DuplicateCommit, s) else
  let record := default (DaRelaySetRecord_new (dr_da_id commit)) old in
  let record := with_ttl (orphan_ttl_blocks (rs_caps s)) (with_state StagedCommit (with_commit (Some commit) record)) in
  prepare_and_apply_record (prune_chunks_outside_commit record) DropMatchingChunks s.

(* rust: node/da_relay.rs 840-865 stage_incomplete_da_chunk_inner *)
Definition stage_incomplete_da_chunk_inner (peer_addr : bytes) (chunk : DaRelayChunk) (chunk_hash_prevalidated : bool) : Relay unit := λ s,
  let current := rs_sets s !! dk_da_id chunk in
  (_ ← lift (validate_da_chunk chunk);
   _ ← lift (match current with Some r => validate_chunk_insert r (dk_chunk_index chunk) | None => Ok () end);
   if negb chunk_hash_prevalidated && negb (bool_decide (sha3_256 (dk_payload chunk) = dk_chunk_hash chunk))
   then lift (Err ChunkHashMismatch) else
   let chunk := with_chunk_key (from_peer_addr peer_addr) chunk in
   let record := default (DaRelaySetRecord_new (dk_da_id chunk)) current in
   let record := match sr_commit record with
                 | None => with_ttl (orphan_ttl_blocks (rs_caps s)) (with_state OrphanChunks record)
                 | Some _ => record
                 end in
   let record := with_chunks (<[dk_chunk_index chunk := chunk]> (sr_chunks record))
                   (sr_replaceable_chunks record ∖ {[dk_chunk_index chunk]}) record in
   prepare_and_apply_record record MarkMatchingChunksReplaceable) s.
(* rust: node/da_relay.rs 838-838 stage_incomplete_da_chunk *)
Definition stage_incomplete_da_chunk (peer_addr : bytes) (chunk : DaRelayChunk) : Relay unit :=
  stage_incomplete_da_chunk_inner peer_addr chunk false.

(* rust: node/da_relay.rs 1166-1178 relay_da_commit_payload_commitment *)
Definition relay_da_commit_payload_commitment (tx : Tx) : option bytes :=
  match filter (λ o, covenant_type o = COV_TYPE_DA_COMMIT) (outputs tx) with
  | [] => None
  | output :: rest =>
      if negb (len (covenant_data output) =? 32) || bool_decide (rest ≠ []) then None else Some (covenant_data output)
  end.

(* rust: node/da_relay.rs 550-594 stage_relay_da_tx_bytes_checked *)
Definition stage_relay_da_tx_bytes_checked (peer_addr tx_bytes : bytes) (chunk_hash_prevalidated : bool) (s : DaRelayState) :
    option bytes * DaRelayResult unit * DaRelayState :=
  let wire_bytes := len tx_bytes in
  match parse_tx tx_bytes with
  | Err _ => (None, Err InvalidWireBytes, s)
  | Ok (tx, _, _, consumed) =>
      if negb (consumed =? len tx_bytes) then (None, Err InvalidWireBytes, s) else
      if tx_kind tx =? 0x01 then
        match da_commit_core tx with
        | None => (None, Ok (), s)
        | Some core =>
            match relay_da_commit_payload_commitment tx with
            | None => (None, Ok (), s)
            | Some commitment =>
                let da_id := commit_da_id core in
                let '(result, s) := stage_incomplete_da_commit peer_addr
                  (mkDaRelayCommit da_id commitment (from_peer_addr peer_addr) (chunk_count core) wire_bytes tx_bytes) s in
                (Some da_id, result, s)
            end
        end
      else if tx_kind tx =? 0x02 then
        match da_chunk_core tx with
        | None => (None, Ok (), s)
        | Some core =>
            let da_id := chunk_da_id core in
            let '(result, s) := stage_incomplete_da_chunk_inner peer_addr
              (mkDaRelayChunk da_id (chunk_hash core) (from_peer_addr peer_addr) (chunk_index core) (da_payload tx) wire_bytes tx_bytes)
              chunk_hash_prevalidated s in
            (Some da_id, result, s)
        end
      else (None, Ok (), s)
  end.
(* rust: node/da_relay.rs 541-541 stage_relay_da_tx_bytes *)
Definition stage_relay_da_tx_bytes (peer_addr tx_bytes : bytes) : Relay unit := λ s,
  let '(_, result, s) := stage_relay_da_tx_bytes_checked peer_addr tx_bytes false s in (result, s).

(** ** Checks before a relayed transaction is taken *)

(* rust: node/da_relay.rs 1136-1140 relay_da_tx_kind_prefix *)
Definition relay_da_tx_kind_prefix (tx_bytes : bytes) : option Z :=
  if (length tx_bytes <? 4)%nat then None else
  kind ← tx_bytes !! 4%nat;
  if le_decode (take 4 tx_bytes) =? TX_WIRE_VERSION then Some (byte_val kind) else None.

(* rust: node/da_relay.rs 1142-1164 validate_relay_da_chunk_for_admission *)
Definition validate_relay_da_chunk_for_admission (tx : Tx) (wire_bytes : Z) : DaRelayResult unit :=
  if negb (tx_kind tx =? 0x02) then Ok () else
  match da_chunk_core tx with
  | None => Ok ()
  | Some core =>
      let payload_len := len (da_payload tx) in
      if MAX_DA_CHUNK_COUNT <=? chunk_index core then Err ChunkIndexOutOfRange else
      if (payload_len =? 0) || (CHUNK_BYTES <? payload_len) then Err ChunkPayloadSizeInvalid else
      if wire_bytes <? payload_len then Err InvalidWireBytes else
      if negb (bool_decide (sha3_256 (da_payload tx) = chunk_hash core)) then Err ChunkHashMismatch else Ok ()
  end.

(* rust: node/da_relay.rs 516-528 validate_relay_da_tx_for_admission *)
Definition validate_relay_da_tx_for_admission (tx_bytes : bytes) : DaRelayResult unit :=
  if negb (bool_decide (relay_da_tx_kind_prefix tx_bytes = Some 0x02)) then Ok () else
  match parse_tx tx_bytes with
  | Err _ => Err InvalidWireBytes
  | Ok (tx, _, _, consumed) =>
      if negb (consumed =? len tx_bytes) then Err InvalidWireBytes
      else validate_relay_da_chunk_for_admission tx (len tx_bytes)
  end.
End staging.

(** ** Blocks that were accepted

    The relay is behind a mutex, which another thread may have poisoned. *)

Record Mutex (A : Type) : Type := mkMutex { mx_poisoned : bool; mx_value : A }.
Arguments mkMutex {A}. Arguments mx_poisoned {A}. Arguments mx_value {A}.

(* rust: node/da_relay.rs 1324-1328 CompleteDaSetConsumeAttemptError *)
Inductive CompleteDaSetConsumeAttemptError : Type := AttemptItemLocal (cause : DaRelayError) | AttemptMutexPoison.
(* rust: node/da_relay.rs 1330-1339 CompleteDaSetConsumeError *)
Inductive CompleteDaSetConsumeError : Type := ConsumeItemLocal (da_id : bytes) (cause : DaRelayError) | ConsumeMutexPoison (da_id : bytes).

(** [{cause:?}] *)
Definition debug_relay_error (e : DaRelayError) : string :=
  match e with
  | InvalidCaps => "InvalidCaps" | AccountingUnderflow => "AccountingUnderflow" | AccountingOverflow => "AccountingOverflow"
  | AccountingCapExceeded => "AccountingCapExceeded" | DuplicateCommit => "DuplicateCommit" | DuplicateChunk => "DuplicateChunk"
  | InvalidCommitChunkCount => "InvalidCommitChunkCount" | InvalidWireBytes => "InvalidWireBytes"
  | ChunkIndexOutOfRange => "ChunkIndexOutOfRange" | ChunkIndexOutsideCommit => "ChunkIndexOutsideCommit"
  | ChunkPayloadSizeInvalid => "ChunkPayloadSizeInvalid" | ChunkHashMismatch => "ChunkHashMismatch"
  | PayloadCommitmentMismatch => "PayloadCommitmentMismatch"
  end%string.

(* rust: node/da_relay.rs 1354-1356 is_mutex_poison *)
Definition is_mutex_poison (e : CompleteDaSetConsumeError) : bool :=
  match e with ConsumeMutexPoison _ => true | _ => false end.

(** The loop: the first local error is kept while the other ids are tried. *)
(* rust: node/da_relay.rs 1362-1385 consume_complete_da_set_ids_with *)
Fixpoint consume_complete_da_set_ids_with {S} (attempt : bytes → ST S CompleteDaSetConsumeAttemptError unit)
    (first_item_error : option CompleteDaSetConsumeError) (da_ids : list bytes) : ST S CompleteDaSetConsumeError unit := λ s,
  match da_ids with
  | [] => (match first_item_error with None => Ok () | Some e => Err e end, s)
  | da_id :: da_ids =>
      match attempt da_id s with
      | (Ok _, s) => consume_complete_da_set_ids_with attempt first_item_error da_ids s
      | (Err (AttemptItemLocal cause), s) =>
          consume_complete_da_set_ids_with attempt
            (match first_item_error with None => Some (ConsumeItemLocal da_id cause) | Some _ => first_item_error end) da_ids s
      | (Err AttemptMutexPoison, s) => (Err (ConsumeMutexPoison da_id), s)
      end
  end.

(* rust: node/da_relay.rs 1387-1398 consume_complete_da_set_attempt *)
Definition consume_complete_da_set_attempt (da_id : bytes) : ST (Mutex DaRelayState) CompleteDaSetConsumeAttemptError unit := λ m,
  if mx_poisoned m : bool then (Err AttemptMutexPoison, m) else
  let '(r, relay) := consume_complete_set da_id (mx_value m) in
  (map_err AttemptItemLocal ((λ _, ()) <$> r), mkMutex false relay).

(* rust: node/da_relay.rs 1404-1411 consume_complete_da_set_ids *)
Definition consume_complete_da_set_ids (da_ids : list bytes) : ST (Mutex DaRelayState) CompleteDaSetConsumeError unit :=
  consume_complete_da_set_ids_with consume_complete_da_set_attempt None da_ids.

Section consumption.
Context `{HS : Sha3} `{HX : Hex}.

(* rust: node/da_relay.rs 1342-1352 diagnostic *)
Definition diagnostic (e : CompleteDaSetConsumeError) : string :=
  match e with
  | ConsumeItemLocal da_id cause => "consume DA set " +:+ hex_encode da_id +:+ ": " +:+ debug_relay_error cause
  | ConsumeMutexPoison da_id =>
      "consume DA set " +:+ hex_encode da_id +:+ ": DA relay lock poisoned during accepted-block DA consume"
  end%string.

(* rust: node/da_relay.rs 1315-1322 consume_accepted_block_da_sets *)
Definition consume_accepted_block_da_sets (block_bytes : bytes) : ST (Mutex DaRelayState) string unit := λ m,
  match stringify (parse_block_bytes block_bytes) with
  | Err e => (Err e, m)
  | Ok parsed =>
      match complete_da_set_ids_from_parsed_block (pb_txs parsed) with
      | Err e => (Err e, m)
      | Ok da_ids => let '(r, m) := consume_complete_da_set_ids da_ids m in (map_err diagnostic r, m)
      end
  end.

Definition consume_failure (block : CanonicalAppliedBlock) (err : CompleteDaSetConsumeError) : string :=
  ("consume canonical-applied DA sets for block " +:+ hex_encode (ab_hash block) +:+ ": " +:+ diagnostic err)%string.
(* rust: node/da_relay.rs 1427-1454 consume_canonical_applied_da_sets *)
Fixpoint consume_canonical_applied_da_sets (first_err : option string) (blocks : list CanonicalAppliedBlock) :
    ST (Mutex DaRelayState) string unit := λ m,
  match blocks with
  | [] => (match first_err with None => Ok () | Some e => Err e end, m)
  | block :: blocks =>
      match consume_complete_da_set_ids (ab_complete_da_ids block) m with
      | (Ok _, m) => consume_canonical_applied_da_sets first_err blocks m
      | (Err err, m) =>
          if is_mutex_poison err then (Err (consume_failure block err), m) else
          consume_canonical_applied_da_sets (match first_err with None => Some (consume_failure block err) | Some _ => first_err end) blocks m
      end
  end.
End consumption.
