(* ===== verification/DaRelaySafe.v ===== *)
(** * What the relay accounts for

    Sums of a weight over the values of a map, and maps of counters that have
    no entry for zero; then the weight of each record, and that the byte counts
    that a record carries are these weights. *)

From S2P Require Import Prelude Bytes BTree Errors Constants Crypto WireRead CompactSize TxWire TxCodec BlockWeight BlockParse NodeText.
From S2P Require Import BlockDa DaComplete PeerKey DaRelaySet DaRelay.

(** ** Counters over maps *)

Lemma sum_of_perm {A} (f : A → Z) (l k : list A) : l ≡ₚ k → sum_of f l = sum_of f k.
Proof. unfold sum_of. induction 1; cbn [foldr]; lia. Qed.

Lemma sum_of_app {A} (f : A → Z) (l k : list A) : sum_of f (l ++ k) = sum_of f l + sum_of f k.
Proof. unfold sum_of. induction l as [|x l IH]; cbn [foldr app]; lia. Qed.

Lemma sum_of_ge {A} (f : A → Z) (l : list A) x : (∀ y, 0 ≤ f y) → x ∈ l → f x ≤ sum_of f l.
Proof.
  intros Hf. induction l as [|y l IH]; [by intros ?%not_elem_of_nil|]. cbn [sum_of foldr]. fold (sum_of f l).
  pose proof (sum_of_nonneg f l Hf). pose proof (Hf y). intros [->|Hx]%elem_of_cons; [lia|]. specialize (IH Hx). lia.
Qed.

Definition msum {K V} `{Countable K} (f : V → Z) (m : gmap K V) : Z := sum_of (λ p, f p.2) (map_to_list m).

Section msum.
Context {K V : Type} `{Countable K} (f : V → Z).
Implicit Types (m : gmap K V).

Lemma msum_empty : msum f (∅ : gmap K V) = 0.
Proof. unfold msum. by rewrite map_to_list_empty. Qed.

Lemma msum_fresh m k v : m !! k = None → msum f (<[k := v]> m) = f v + msum f m.
Proof. intros Hk. unfold msum. by rewrite (sum_of_perm _ _ _ (map_to_list_insert m k v Hk)). Qed.

Lemma msum_delete m k : msum f (delete k m) = msum f m - from_option f 0 (m !! k).
Proof.
  destruct (m !! k) as [v|] eqn:Hk; cbn [from_option].
  - rewrite <- (insert_delete_id m k v Hk) at 2. rewrite msum_fresh by apply lookup_delete_eq. lia.
  - rewrite delete_id by done. lia.
Qed.

Lemma msum_insert m k v : msum f (<[k := v]> m) = msum f m - from_option f 0 (m !! k) + f v.
Proof.
  rewrite <- insert_delete_eq. rewrite msum_fresh by apply lookup_delete_eq. rewrite msum_delete. lia.
Qed.

Lemma msum_ge m k v : (∀ v, 0 ≤ f v) → m !! k = Some v → f v ≤ msum f m.
Proof.
  intros Hf Hk. apply (sum_of_ge (λ p : K * V, f p.2) _ (k, v)); [by intros []|]. by apply elem_of_map_to_list.
Qed.
Lemma msum_nonneg m : (∀ v, 0 ≤ f v) → 0 ≤ msum f m.
Proof. intros Hf. apply sum_of_nonneg. intros []. apply Hf. Qed.

Lemma msum_le (g : V → Z) m : (∀ k v, m !! k = Some v → f v ≤ g v) → msum f m ≤ msum g m.
Proof.
  intros Hfg. unfold msum. assert (Forall (λ p : K * V, f p.2 ≤ g p.2) (map_to_list m)) as HF.
  { apply list.Forall_forall. intros [k v] Hp%elem_of_map_to_list. by eapply Hfg. }
  induction HF; cbn [sum_of foldr]; [done|]. unfold sum_of in *. lia.
Qed.
Lemma msum_ext (g : V → Z) m : (∀ k v, m !! k = Some v → f v = g v) → msum f m = msum g m.
Proof.
  intros Hfg. unfold msum. assert (Forall (λ p : K * V, f p.2 = g p.2) (map_to_list m)) as HF.
  { apply list.Forall_forall. intros [k v] Hp%elem_of_map_to_list. by eapply Hfg. }
  induction HF; cbn [sum_of foldr]; [done|]. unfold sum_of in *. lia.
Qed.
End msum.

Lemma msum_subseteq {K V} `{Countable K} (f : V → Z) (m m' : gmap K V) : (∀ v, 0 ≤ f v) → m ⊆ m' → msum f m ≤ msum f m'.
Proof.
  intros Hf Hm. rewrite <- (map_difference_union m m') by done. set (d := m' ∖ m).
  assert (m ##ₘ d) as Hd by (apply map_disjoint_spec; intros k v w Hv [_ Hw]%lookup_difference_Some; by rewrite Hv in Hw). clearbody d. clear Hm m'. revert Hd.
  induction d as [|k v d Hk IH] using map_ind; intros Hd; [by rewrite map_union_empty|].
  apply map_disjoint_insert_r in Hd as [Hmk Hd]. rewrite <- insert_union_r by done.
  rewrite msum_fresh by (apply lookup_union_None; by split). specialize (IH Hd). specialize (Hf v). lia.
Qed.

Lemma msum_fmap {K V W} `{Countable K} (f : W → Z) (g : V → W) (m : gmap K V) : msum f (g <$> m) = msum (λ v, f (g v)) m.
Proof.
  unfold msum. rewrite map_to_list_fmap. induction (map_to_list m) as [|[k v] l IH]; [done|]. cbn [fmap list_fmap sum_of foldr prod_map fst snd] in *. unfold sum_of in *. lia.
Qed.

(** ** Maps of counters *)

(** The map has the value of [f] at each key, and no zeroes. *)
Definition counts {K} `{Countable K} (m : gmap K Z) (f : K → Z) : Prop := ∀ k, m !! k = if f k =? 0 then None else Some (f k).

Section counts.
Context {K : Type} `{Countable K}.
Implicit Types (m : gmap K Z) (f : K → Z).

Lemma counts_default m f k : counts m f → default 0 (m !! k) = f k.
Proof. intros ->. destruct (f k =? 0) eqn:E; cbn; lia. Qed.
Lemma counts_lookup m f k v : counts m f → m !! k = Some v → v = f k ∧ v ≠ 0.
Proof. intros ->. destruct (f k =? 0) eqn:E; [done|]. intros [= <-]. lia. Qed.
Lemma counts_None m f k : counts m f → m !! k = None ↔ f k = 0.
Proof. intros ->. destruct (f k =? 0) eqn:E; split; (done || lia). Qed.
Lemma counts_ext m f g : counts m f → (∀ k, f k = g k) → counts m g.
Proof. intros Hm Hfg k. by rewrite Hm, Hfg. Qed.
Lemma counts_empty : counts (∅ : gmap K Z) (λ _, 0).
Proof. intros k. by rewrite lookup_empty. Qed.
End counts.

(** ** Weights *)

(** A commit weighs its transaction, a chunk its transaction and the payload
    that is kept apart until the set is complete. *)
Definition commit_weight (c : DaRelayCommit) : Z := len (dr_tx_bytes c).
Definition chunk_weight (k : DaRelayChunk) : Z := len (dk_tx_bytes k) + len (dk_payload k).
Definition of_key (key key' : PeerQuotaKey) (n : Z) : Z := if bool_decide (key' = key) then n else 0.

Definition pending_weight (r : DaRelaySetRecord) : Z := from_option commit_weight 0 (sr_commit r) + msum chunk_weight (sr_chunks r).
Definition peer_weight (key : PeerQuotaKey) (r : DaRelaySetRecord) : Z :=
  from_option (λ c, of_key key (dr_peer_quota_key c) (commit_weight c)) 0 (sr_commit r)
  + msum (λ k, of_key key (dk_peer_quota_key k) (chunk_weight k)) (sr_chunks r).
Definition wire_weight (r : DaRelaySetRecord) : Z :=
  from_option commit_weight 0 (sr_commit r) + msum (λ k, len (dk_tx_bytes k)) (sr_chunks r).

(** The transactions are kept in the record. *)
Record retained (r : DaRelaySetRecord) : Prop := mkRetained {
  rt_commit : ∀ c, sr_commit r = Some c → dr_tx_bytes c ≠ [] ∧ dr_wire_bytes c = len (dr_tx_bytes c);
  rt_chunks : ∀ i k, sr_chunks r !! i = Some k → dk_tx_bytes k ≠ [] ∧ dk_wire_bytes k = len (dk_tx_bytes k) }.

(** The counts of a record are its weights. *)
Record counted (r : DaRelaySetRecord) : Prop := mkCounted {
  ct_wire : sr_wire_bytes r = wire_weight r;
  ct_peers : counts (sr_peer_bytes r) (λ key, peer_weight key r);
  ct_total : msum (λ n, n) (sr_peer_bytes r) = pending_weight r }.

Lemma index_iter_perm {V} (m : gmap Z V) : index_iter m ≡ₚ map_to_list m.
Proof. apply merge_sort_Permutation. Qed.
Lemma elem_of_index_iter {V} (m : gmap Z V) i v : (i, v) ∈ index_iter m ↔ m !! i = Some v.
Proof. rewrite index_iter_perm. apply elem_of_map_to_list. Qed.
Lemma sum_index_iter {V} (f : V → Z) (m : gmap Z V) : sum_of (λ p, f p.2) (index_iter m) = msum f m.
Proof. apply sum_of_perm, index_iter_perm. Qed.
Lemma sum_btree_iter {V} (f : V → Z) (m : gmap bytes V) : sum_of (λ p, f p.2) (btree_iter m) = msum f m.
Proof. apply sum_of_perm, btree_iter_perm. Qed.

Lemma commit_weight_nonneg c : 0 ≤ commit_weight c.
Proof. unfold commit_weight. lia. Qed.
Lemma chunk_weight_nonneg c : 0 ≤ chunk_weight c.
Proof. unfold chunk_weight. lia. Qed.
Lemma of_key_range key key' n : 0 ≤ n → 0 ≤ of_key key key' n ≤ n.
Proof. unfold of_key. case_bool_decide; lia. Qed.
#[export] Hint Resolve commit_weight_nonneg chunk_weight_nonneg : rubin.

Lemma key_chunk_nonneg key k : 0 ≤ of_key key (dk_peer_quota_key k) (chunk_weight k).
Proof. apply of_key_range. auto with rubin. Qed.
#[export] Hint Resolve key_chunk_nonneg : rubin.

Lemma pending_weight_nonneg r : 0 ≤ pending_weight r.
Proof.
  unfold pending_weight. pose proof (msum_nonneg chunk_weight (sr_chunks r) chunk_weight_nonneg).
  destruct (sr_commit r) as [c|]; cbn [from_option]; [pose proof (commit_weight_nonneg c)|]; lia.
Qed.
Lemma peer_weight_range key r : 0 ≤ peer_weight key r ≤ pending_weight r.
Proof.
  unfold peer_weight, pending_weight. pose proof (msum_nonneg _ (sr_chunks r) (key_chunk_nonneg key)).
  pose proof (msum_le (λ k, of_key key (dk_peer_quota_key k) (chunk_weight k)) chunk_weight (sr_chunks r)
                (λ _ k _, proj2 (of_key_range key (dk_peer_quota_key k) _ (chunk_weight_nonneg k)))).
  destruct (sr_commit r) as [c|]; cbn [from_option]; [|lia].
  pose proof (of_key_range key (dr_peer_quota_key c) _ (commit_weight_nonneg c)). lia.
Qed.

(** ** Counting a record *)

Definition held (p : Z * DaRelayChunk) : Prop := dk_tx_bytes p.2 ≠ [] ∧ dk_wire_bytes p.2 = len (dk_tx_bytes p.2).

Lemma da_checked_add_cases a b : (da_checked_add a b = Ok (a + b) ∧ a + b ≤ u64_max) ∨ (da_checked_add a b = Err AccountingOverflow ∧ u64_max < a + b).
Proof. unfold da_checked_add, checked_add. destruct (_ <=? _) eqn:E; cbn; [left|right]; split; (done || lia). Qed.

Lemma retained_held p : held p → retained_tx_accounting_bytes (dk_wire_bytes p.2) (dk_tx_bytes p.2) = len (dk_tx_bytes p.2).
Proof. intros [Hne _]. unfold retained_tx_accounting_bytes. by rewrite (bool_decide_eq_false_2 _ Hne). Qed.

Lemma orphan_chunk_held p : held p → orphan_chunk_accounting_bytes p.2 = Ok (chunk_weight p.2)
  ∨ (orphan_chunk_accounting_bytes p.2 = Err AccountingOverflow ∧ u64_max < chunk_weight p.2).
Proof.
  intros Hp. unfold orphan_chunk_accounting_bytes. rewrite retained_held by done. destruct Hp as [Hne Hw].
  rewrite (bool_decide_eq_true_2 (dk_tx_bytes p.2 ≠ [])) by done. cbn [andb]. unfold chunk_weight. case_bool_decide as Hpl.
  - destruct (da_checked_add_cases (len (dk_tx_bytes p.2)) (len (dk_payload p.2))) as [[-> ?]|[-> ?]]; auto.
  - rewrite Hpl. left. f_equal. cbn. lia.
Qed.

Definition key_sum (key : PeerQuotaKey) (l : list (Z * DaRelayChunk)) : Z :=
  sum_of (λ p, of_key key (dk_peer_quota_key p.2) (chunk_weight p.2)) l.

Lemma key_sum_cons key p l : key_sum key (p :: l) = of_key key (dk_peer_quota_key p.2) (chunk_weight p.2) + key_sum key l.
Proof. done. Qed.

Lemma add_chunks_spec l t m g : Forall held l → 0 ≤ t ≤ msum (λ n, n) m → counts m g → (∀ k, 0 ≤ g k ≤ msum (λ n, n) m) →
  match try_fold add_chunk_bytes (t, m) l with
  | Ok (t', m') => t' = t + sum_of (λ p, len (dk_tx_bytes p.2)) l ∧ counts m' (λ key, g key + key_sum key l)
                   ∧ msum (λ n, n) m' = msum (λ n, n) m + sum_of (λ p, chunk_weight p.2) l
  | Err e => e = AccountingOverflow ∧ u64_max < msum (λ n, n) m + sum_of (λ p, chunk_weight p.2) l
  end.
Proof.
  intros Hl. revert t m g. induction Hl as [|p l Hp Hl IH]; intros t m g Ht Hm Hg.
  { cbn. rewrite !Z.add_0_r. split; [done|]. split; [|done]. eapply counts_ext; [done|]. intros k. unfold key_sum. cbn. lia. }
  cbn [try_fold sum_of foldr]. fold (sum_of (λ p : Z * DaRelayChunk, chunk_weight p.2) l) (sum_of (λ p : Z * DaRelayChunk, len (dk_tx_bytes p.2)) l).
  pose proof (sum_of_nonneg (λ p : Z * DaRelayChunk, chunk_weight p.2) l (λ p, chunk_weight_nonneg p.2)) as Hs.
  assert (0 < len (dk_tx_bytes p.2) ≤ chunk_weight p.2) as Hlen.
  { unfold chunk_weight. destruct Hp as [Hne _], (dk_tx_bytes p.2); [done|cbn; lia]. }
  cbn [add_chunk_bytes]. rewrite (retained_held p Hp).
  destruct (da_checked_add_cases t (len (dk_tx_bytes p.2))) as [[-> H1]|[-> H1]]; run_bind; [|split; [done|lia]].
  destruct (orphan_chunk_held p Hp) as [->|[-> H2]]; run_bind; [|split; [done|lia]].
  rewrite (counts_default m g) by done. pose proof (Hg (dk_peer_quota_key p.2)).
  destruct (da_checked_add_cases (g (dk_peer_quota_key p.2)) (chunk_weight p.2)) as [[-> H3]|[-> H3]]; run_bind; [|split; [done|lia]].
  set (m1 := <[dk_peer_quota_key p.2 := _]> m).
  assert (msum (λ n, n) m1 = msum (λ n, n) m + chunk_weight p.2) as Hm1.
  { unfold m1. rewrite msum_insert. pose proof (counts_default m g (dk_peer_quota_key p.2) Hm) as E.
    destruct (m !! _); cbn in *; lia. }
  specialize (IH (t + len (dk_tx_bytes p.2)) m1 (λ k, g k + of_key k (dk_peer_quota_key p.2) (chunk_weight p.2)) ltac:(lia)).
  destruct (try_fold _ _ l) as [[t' m']|e].
  - destruct IH as (-> & Hc & ->).
    + intros k. unfold m1, of_key. case_bool_decide as Hk.
      * subst k. rewrite lookup_insert_eq. by replace (_ =? 0) with false by lia.
      * rewrite lookup_insert_ne, Hm by done. by rewrite Z.add_0_r.
    + intros k. rewrite Hm1. pose proof (Hg k). pose proof (of_key_range k (dk_peer_quota_key p.2) (chunk_weight p.2)). lia.
    + split; [lia|]. split; [|lia]. eapply counts_ext; [done|]. intros k. cbn beta. rewrite key_sum_cons. lia.
  - destruct IH as [-> ?]; [| |split; [done|lia]].
    + intros k. unfold m1, of_key. case_bool_decide as Hk.
      * subst k. rewrite lookup_insert_eq. by replace (_ =? 0) with false by lia.
      * rewrite lookup_insert_ne, Hm by done. by rewrite Z.add_0_r.
    + intros k. rewrite Hm1. pose proof (Hg k). pose proof (of_key_range k (dk_peer_quota_key p.2) (chunk_weight p.2)). lia.
Qed.

Lemma held_chunks r : retained r → Forall held (index_iter (sr_chunks r)).
Proof. intros [_ Hk]. apply list.Forall_forall. intros [i k] Hik%elem_of_index_iter. by apply (Hk i k). Qed.

(** Counting succeeds when the weight is a [u64], and makes the counts right. *)
Lemma recompute_spec r : retained r →
  match recompute_wire_bytes r with
  | Ok r' => ∃ w m, r' = with_bytes w m r ∧ counted r'
  | Err e => e = AccountingOverflow ∧ u64_max < pending_weight r
  end.
Proof.
  intros Hr. unfold recompute_wire_bytes. set (start := match sr_commit r with Some _ => _ | None => _ end).
  assert (∃ m, start = (from_option commit_weight 0 (sr_commit r), m) ∧ msum (λ n, n) m = from_option commit_weight 0 (sr_commit r)
          ∧ counts m (λ key, from_option (λ c, of_key key (dr_peer_quota_key c) (commit_weight c)) 0 (sr_commit r))) as (m & -> & Hs & Hm).
  { unfold start. destruct (sr_commit r) as [c|] eqn:E; cbn [from_option]; [|exists ∅; split; [done|]; split; [apply msum_empty|apply counts_empty]].
    destruct (rt_commit _ Hr c E) as [Hne Hw]. unfold retained_tx_accounting_bytes. rewrite (bool_decide_eq_false_2 _ Hne).
    eexists. split; [done|]. split; [rewrite <- insert_empty, msum_fresh, msum_empty by done; unfold commit_weight; lia|].
    intros key. unfold of_key, commit_weight. case_bool_decide as Hk.
    - subst key. rewrite lookup_singleton_eq. destruct (dr_tx_bytes c); [done|]. cbn. by replace (_ =? 0) with false by lia.
    - by rewrite lookup_singleton_ne. }
  pose proof (add_chunks_spec (index_iter (sr_chunks r)) (from_option commit_weight 0 (sr_commit r)) m
    (λ key, from_option (λ c, of_key key (dr_peer_quota_key c) (commit_weight c)) 0 (sr_commit r)) (held_chunks r Hr)) as H.
  specialize (H ltac:(rewrite Hs; destruct (sr_commit r) as [c|]; cbn; [pose proof (commit_weight_nonneg c)|]; lia) Hm).
  destruct (try_fold _ _ _) as [[t' m']|e].
  - destruct H as (-> & Hc & Hsum).
    + intros k. rewrite Hs. destruct (sr_commit r) as [c|]; cbn; [|lia]. apply of_key_range; auto with rubin.
    + run_bind. eexists _, _. split; [done|]. split; cbn [with_bytes sr_wire_bytes sr_peer_bytes].
      * unfold wire_weight. cbn. by rewrite (sum_index_iter (λ k, len (dk_tx_bytes k))).
      * eapply counts_ext; [done|]. intros key. unfold peer_weight, key_sum. cbn. by rewrite (sum_index_iter (λ k, of_key key (dk_peer_quota_key k) (chunk_weight k))).
      * rewrite Hsum, Hs. unfold pending_weight. cbn. by rewrite (sum_index_iter chunk_weight).
  - destruct H as [-> H].
    + intros k. rewrite Hs. destruct (sr_commit r) as [c|]; cbn; [|lia]. apply of_key_range; auto with rubin.
    + run_bind. split; [done|]. rewrite Hs, (sum_index_iter chunk_weight) in H. done.
Qed.

Lemma counted_orphan r : counted r → sr_state r ≠ CompleteSet →
  (orphan_wire_bytes r = Ok (pending_weight r) ∧ pending_weight r ≤ u64_max) ∨ (orphan_wire_bytes r = Err AccountingOverflow ∧ u64_max < pending_weight r).
Proof.
  intros [_ Hc Ht] Hs. unfold orphan_wire_bytes. rewrite bool_decide_eq_false_2 by done. rewrite <- Ht, <- sum_btree_iter.
  assert (Forall (λ p : PeerQuotaKey * Z, 0 ≤ p.2) (btree_iter (sr_peer_bytes r))) as HF.
  { apply list.Forall_forall. intros [k n] Hkn%elem_of_btree_iter. destruct (counts_lookup _ _ _ _ Hc Hkn) as [-> _]. apply peer_weight_range. }
  revert HF. generalize (btree_iter (sr_peer_bytes r)). intros l HF.
  enough (∀ a, 0 ≤ a ≤ u64_max → (try_fold da_checked_add a l.*2 = Ok (a + sum_of (λ p, p.2) l) ∧ a + sum_of (λ p, p.2) l ≤ u64_max)
            ∨ (try_fold da_checked_add a l.*2 = Err AccountingOverflow ∧ u64_max < a + sum_of (λ p, p.2) l)) as H by (apply (H 0); unfold u64_max; lia).
  induction HF as [|[k n] l Hn HF IH]; intros a Ha; cbn [fmap list_fmap try_fold sum_of foldr fst snd] in *.
  { left. rewrite Z.add_0_r. split; [done|lia]. }
  fold (sum_of (λ p : PeerQuotaKey * Z, p.2) l).
  assert (0 ≤ sum_of (λ p : PeerQuotaKey * Z, p.2) l) as Hl by (clear -HF; induction HF as [|[k n] l Hn HF IH]; cbn in *; [done|unfold sum_of in *; lia]).
  destruct (da_checked_add_cases a n) as [[-> ?]|[-> ?]]; run_bind; [|right; split; [done|lia]].
  destruct (IH (a + n) ltac:(lia)) as [[E ?]|[E ?]]; [left|right]; (split; [|lia]). { rewrite E. f_equal. lia. } done.
Qed.

(** ** Projections *)

Definition capped (e : DaRelayError) : Prop := e = AccountingOverflow ∨ e = AccountingCapExceeded.

Lemma project_counter_spec current remove add cap : remove ≤ current → 0 ≤ add → cap ≤ u64_max →
  (project_counter current remove add cap = Ok (current - remove + add) ∧ current - remove + add ≤ cap)
  ∨ (∃ e, project_counter current remove add cap = Err e ∧ capped e ∧ cap < current - remove + add).
Proof.
  intros Hr Ha Hc. unfold project_counter, capped. replace (current <? remove) with false by lia.
  destruct (da_checked_add_cases (current - remove) add) as [[-> ?]|[-> ?]]; run_bind; [|right; eexists; split; [done|]; split; [by left|lia]].
  destruct (cap <? _) eqn:E; [right; eexists; split; [done|]; split; [by right|lia]|left; split; [done|lia]].
Qed.

Lemma mapM_result_Ok {E A B} (f : A → result E B) l k : mapM f l = Ok k → Forall2 (λ x y, f x = Ok y) l k.
Proof.
  revert k. induction l as [|x l IH]; intros k; cbn [mapM]; intros H; inv_res; constructor; auto.
Qed.
Lemma mapM_result_Err {E A B} (f : A → result E B) l e : mapM f l = Err e → ∃ x, x ∈ l ∧ f x = Err e.
Proof.
  induction l as [|x l IH]; cbn [mapM]; [done|]. intros [H|(y & Hy & H)]%bind_Err; [exists x; split; [by left|done]|].
  apply bind_Err in H as [H|(z & Hz & H)]; [|done]. destruct (IH H) as (x' & ? & ?). exists x'. split; [by right|done].
Qed.

Lemma write_counter_counts (m : gmap bytes Z) f k v : counts m f → counts (write_counter m (k, v)) (λ k', if bool_decide (k' = k) then v else f k').
Proof.
  intros Hm k'. unfold write_counter. cbn [fst snd]. case_bool_decide as Hk.
  - subst k'. destruct (v =? 0); [apply lookup_delete_eq|apply lookup_insert_eq].
  - destruct (v =? 0); [rewrite lookup_delete_ne by done|rewrite lookup_insert_ne by done]; apply Hm.
Qed.

(** The counters after a list of writes, each key once. *)
Lemma write_counters_counts ps : ∀ (m : gmap bytes Z) f g, NoDup ps.*1 → counts m f → (∀ k v, (k, v) ∈ ps → v = g k) →
  (∀ k, k ∉ ps.*1 → g k = f k) → counts (foldl write_counter m ps) g.
Proof.
  induction ps as [|[k v] ps IH]; intros m f g Hnd Hm Hin Hout; cbn [foldl].
  { eapply counts_ext; [done|]. intros k. symmetry. apply Hout. apply not_elem_of_nil. }
  rewrite fmap_cons in Hnd. apply list.NoDup_cons in Hnd as [Hk Hnd]. cbn [fst] in Hk.
  eapply IH; [done|by apply write_counter_counts| |].
  - intros k' v' Hp. apply Hin. by right.
  - intros k' Hk'. cbn beta. case_bool_decide as E; [subst; symmetry; apply Hin; by left|].
    apply Hout. rewrite fmap_cons. cbn [fst]. intros [->|?]%elem_of_cons; [by apply E|done].
Qed.

(** ** Weights of a record in its state *)

Abbreviation complete r := (sr_state r = CompleteSet).
Definition orphan_w (r : DaRelaySetRecord) : Z := if bool_decide (complete r) then 0 else pending_weight r.
Definition commit_w (r : DaRelaySetRecord) : Z := if bool_decide (complete r) then 0 else from_option commit_weight 0 (sr_commit r).
Definition pinned_w (r : DaRelaySetRecord) : Z := if bool_decide (complete r) then sr_payload_bytes r else 0.
Definition peer_w (key : PeerQuotaKey) (r : DaRelaySetRecord) : Z := if bool_decide (complete r) then 0 else peer_weight key r.

(** What [apply_record] needs of a record. *)
Record accounted (r : DaRelaySetRecord) : Prop := mkAccounted {
  ac_retained : retained r;
  ac_counted : ¬ complete r → counted r;
  ac_payload : 0 ≤ sr_payload_bytes r }.

Lemma orphan_w_nonneg r : 0 ≤ orphan_w r.
Proof. unfold orphan_w. case_bool_decide; [lia|apply pending_weight_nonneg]. Qed.
Lemma peer_w_range key r : 0 ≤ peer_w key r ≤ orphan_w r.
Proof. unfold peer_w, orphan_w. case_bool_decide; [lia|apply peer_weight_range]. Qed.
Lemma commit_w_range r : 0 ≤ commit_w r ≤ orphan_w r.
Proof.
  unfold commit_w, orphan_w. case_bool_decide; [lia|]. unfold pending_weight.
  pose proof (msum_nonneg chunk_weight (sr_chunks r) chunk_weight_nonneg).
  destruct (sr_commit r) as [c|]; cbn [from_option]; [pose proof (commit_weight_nonneg c)|]; lia.
Qed.
Lemma pinned_w_nonneg r : accounted r → 0 ≤ pinned_w r.
Proof. intros [_ _ Hp]. unfold pinned_w. case_bool_decide; [done|lia]. Qed.

Lemma orphan_wire_accounted r : accounted r →
  (orphan_wire_bytes r = Ok (orphan_w r) ∧ orphan_w r ≤ u64_max) ∨ (orphan_wire_bytes r = Err AccountingOverflow ∧ u64_max < orphan_w r).
Proof.
  intros [_ Hc _]. unfold orphan_w. case_bool_decide as Hs.
  - left. unfold orphan_wire_bytes. rewrite bool_decide_eq_true_2 by done. split; [done|unfold u64_max; lia].
  - by apply counted_orphan; [apply Hc|].
Qed.
Lemma orphan_commit_accounted r : accounted r → orphan_commit_bytes r = commit_w r.
Proof.
  intros [Hr _ _]. unfold orphan_commit_bytes, commit_w. case_bool_decide; [done|]. destruct (sr_commit r) as [c|] eqn:E; [|done].
  cbn [from_option]. unfold retained_tx_accounting_bytes. by rewrite (bool_decide_eq_false_2 _ (proj1 (rt_commit _ Hr c E))).
Qed.
Lemma pinned_accounted r : pinned_payload_accounting_bytes r = pinned_w r.
Proof. unfold pinned_payload_accounting_bytes, pinned_w. destruct (sr_state r); done. Qed.

Definition peers_of (r : DaRelaySetRecord) : gmap PeerQuotaKey Z := default ∅ (orphan_peer_bytes r).
Lemma peers_of_counts r : accounted r → counts (peers_of r) (λ key, peer_w key r).
Proof.
  intros [_ Hc _] key. unfold peers_of, orphan_peer_bytes, peer_w. destruct (decide (complete r)) as [Hs|Hs].
  - rewrite bool_decide_eq_false_2, bool_decide_eq_true_2 by auto. apply lookup_empty.
  - rewrite bool_decide_eq_true_2, bool_decide_eq_false_2 by done. apply (ct_peers _ (Hc Hs)).
Qed.

(** The projected counters of the peers that either record counts. *)
Definition old_peers (old : option DaRelaySetRecord) : gmap PeerQuotaKey Z := from_option peers_of ∅ old.
Lemma btree_iter_empty {V} : btree_iter (∅ : gmap bytes V) = [].
Proof. apply nil_length_inv. rewrite length_btree_iter. apply map_size_empty. Qed.

Lemma iter_default {B} (F : list (PeerQuotaKey * Z) → DaRelayResult (list B)) (o : option (gmap PeerQuotaKey Z)) : F [] = Ok [] →
  match o with Some m => F (btree_iter m) | None => Ok [] end = F (btree_iter (default ∅ o)).
Proof. intros HF. destruct o; [done|]. cbn. by rewrite btree_iter_empty. Qed.

Definition old_w (key : PeerQuotaKey) (old : option DaRelaySetRecord) : Z := from_option (peer_w key) 0 old.
Lemma old_peers_counts old : (∀ r, old = Some r → accounted r) → counts (old_peers old) (λ key, old_w key old).
Proof. intros H. destruct old as [r|]; [by apply peers_of_counts, H|apply counts_empty]. Qed.
Lemma old_w_nonneg key old : 0 ≤ old_w key old.
Proof. destruct old as [r|]; [apply peer_w_range|done]. Qed.

