(* ===== verification/SyncEngine.v ===== *)
(** * The sync engine ([sync.rs])

    The engine owns the chain state, the block store and what is reported
    about them, and applies blocks: connect, build the undo record, commit to
    the store, save the state, and restore what was there when a step fails.
    A write that fails after its commit latches a fault: the engine reloads
    what is on the disk and refuses every later change. *)

From Stdlib Require Import Ascii.
From stdpp Require Import pretty.
From S2P Require Import Prelude Bytes BTree Errors Constants Crypto WireRead CompactSize TxWire TxCodec Block Merkle Pow Subsidy.
From S2P Require Import Vault Suites Verify SigCache WorkerPool SigQueue Sighash Spend Htlc Stealth CovenantGenesis.
From S2P Require Import UtxoApply UtxoRules UtxoDeferred UtxoLedger BlockParse BlockWeight BlockDa BlockBasic ConnectBlock.
From S2P Require Import NodeText ChainState ChainDisk Undo Chain BlockStore StoreFiles AtomicWrite Headers.
From S2P Require Import Base64 Uint128 StoreEnvelope UndoDisk UndoEnvelope StoreCommit ChainFile Branch PendingOwner StoreOps PvTelemetry DaComplete.

(* rust: node/sync.rs 26-26 DEFAULT_IBD_LAG_SECONDS *)
Definition DEFAULT_IBD_LAG_SECONDS : Z := 24 * 60 * 60.
(* rust: node/sync.rs 27-27 DEFAULT_HEADER_BATCH_LIMIT *)
Definition DEFAULT_HEADER_BATCH_LIMIT : Z := 512.
(* rust: node/sync.rs 28-28 DEFAULT_PV_SHADOW_MAX_SAMPLES *)
Definition DEFAULT_PV_SHADOW_MAX_SAMPLES : Z := 3.
(* rust: node/sync.rs 29-29 MAX_PV_SHADOW_MAX_SAMPLES *)
Definition MAX_PV_SHADOW_MAX_SAMPLES : Z := 10000.
(* rust: node/sync.rs 30-30 STORAGE_PERSISTENCE_FAULT_ERR *)
Definition STORAGE_PERSISTENCE_FAULT_ERR : string := "storage persistence fault; restart required".

(* rust: node/sync.rs 476-480 HeaderRequest *)
Record HeaderRequest : Type := mkHeaderRequest { hr_from_hash : bytes; hr_has_from : bool; hr_limit : Z }.

(* rust: node/sync.rs 513-516 StoragePersistenceFault *)
Record StoragePersistenceFault : Type := mkPersistenceFault { pf_cause : AtomicWriteError; pf_reload_error : option string }.
(* rust: node/sync.rs 518-524 fmt *)
Definition display_fault (f : StoragePersistenceFault) : string :=
  (display_write_error (pf_cause f)
   +:+ match pf_reload_error f with Some e => "; persistence reload failed: " +:+ e | None => "" end)%string.

(** What a call reads of the clocks: the seconds since 1970, if the clock is
    not before that, and how long validating and committing took. *)
Record Clock : Type := mkClock { ck_now : option Z; ck_validate_ns : Z; ck_commit_ns : Z }.
Definition no_clock : Clock := mkClock (Some 0) 0 0.

(** The engine, and of the world around it: the file of the chain state, what
    the next writes (and reads of the index) meet, and what the next calls read of the clocks. *)
(* rust: node/sync.rs 482-497 SyncEngine *)
Record SyncEngine : Type := mkSyncEngine {
  se_chain_state : ChainState; se_block_store : option Store; se_cfg : SyncConfig; se_tip_timestamp : Z;
  se_best_known_height : Z; se_last_reorg_depth : Z; se_reorg_count : Z; se_pv : PvState;
  se_persistence_fault : option StoragePersistenceFault; se_owner : option PendingOutpointOwnerHandle; se_transition_active : bool;
  se_saved : SavedFile; se_faults : list (option WriteFault); se_clocks : list Clock }.

Definition set_chain (s : ChainState) (e : SyncEngine) : SyncEngine :=
  mkSyncEngine s (se_block_store e) (se_cfg e) (se_tip_timestamp e) (se_best_known_height e) (se_last_reorg_depth e)
    (se_reorg_count e) (se_pv e) (se_persistence_fault e) (se_owner e) (se_transition_active e) (se_saved e) (se_faults e) (se_clocks e).
Definition set_store (st : option Store) (faults : list (option WriteFault)) (e : SyncEngine) : SyncEngine :=
  mkSyncEngine (se_chain_state e) st (se_cfg e) (se_tip_timestamp e) (se_best_known_height e) (se_last_reorg_depth e)
    (se_reorg_count e) (se_pv e) (se_persistence_fault e) (se_owner e) (se_transition_active e) (se_saved e) faults (se_clocks e).
Definition set_saved (saved : SavedFile) (faults : list (option WriteFault)) (e : SyncEngine) : SyncEngine :=
  mkSyncEngine (se_chain_state e) (se_block_store e) (se_cfg e) (se_tip_timestamp e) (se_best_known_height e) (se_last_reorg_depth e)
    (se_reorg_count e) (se_pv e) (se_persistence_fault e) (se_owner e) (se_transition_active e) saved faults (se_clocks e).
Definition set_times (timestamp best : Z) (e : SyncEngine) : SyncEngine :=
  mkSyncEngine (se_chain_state e) (se_block_store e) (se_cfg e) timestamp best (se_last_reorg_depth e)
    (se_reorg_count e) (se_pv e) (se_persistence_fault e) (se_owner e) (se_transition_active e) (se_saved e) (se_faults e) (se_clocks e).
Definition set_reorgs (depth count : Z) (e : SyncEngine) : SyncEngine :=
  mkSyncEngine (se_chain_state e) (se_block_store e) (se_cfg e) (se_tip_timestamp e) (se_best_known_height e) depth
    count (se_pv e) (se_persistence_fault e) (se_owner e) (se_transition_active e) (se_saved e) (se_faults e) (se_clocks e).
Definition set_pv (pv : PvState) (e : SyncEngine) : SyncEngine :=
  mkSyncEngine (se_chain_state e) (se_block_store e) (se_cfg e) (se_tip_timestamp e) (se_best_known_height e) (se_last_reorg_depth e)
    (se_reorg_count e) pv (se_persistence_fault e) (se_owner e) (se_transition_active e) (se_saved e) (se_faults e) (se_clocks e).
Definition set_fault (f : option StoragePersistenceFault) (e : SyncEngine) : SyncEngine :=
  mkSyncEngine (se_chain_state e) (se_block_store e) (se_cfg e) (se_tip_timestamp e) (se_best_known_height e) (se_last_reorg_depth e)
    (se_reorg_count e) (se_pv e) f (se_owner e) (se_transition_active e) (se_saved e) (se_faults e) (se_clocks e).
Definition set_owner (owner : option PendingOutpointOwnerHandle) (active : bool) (e : SyncEngine) : SyncEngine :=
  mkSyncEngine (se_chain_state e) (se_block_store e) (se_cfg e) (se_tip_timestamp e) (se_best_known_height e) (se_last_reorg_depth e)
    (se_reorg_count e) (se_pv e) (se_persistence_fault e) owner active (se_saved e) (se_faults e) (se_clocks e).
Definition set_clocks (clocks : list Clock) (e : SyncEngine) : SyncEngine :=
  mkSyncEngine (se_chain_state e) (se_block_store e) (se_cfg e) (se_tip_timestamp e) (se_best_known_height e) (se_last_reorg_depth e)
    (se_reorg_count e) (se_pv e) (se_persistence_fault e) (se_owner e) (se_transition_active e) (se_saved e) (se_faults e) clocks.

(** ** The monad of the engine's methods *)

(** A method that takes [&mut self]: [None] is a panic, or running out of
    fuel; an error keeps the changes that were made. *)
Definition Eng (A : Type) : Type := SyncEngine → option (nres A * SyncEngine).

#[export] Instance eng_ret : MRet Eng := λ A a e, Some (Ok a, e).
#[export] Instance eng_bind : MBind Eng := λ A B k m e,
  match m e with
  | Some (Ok a, e) => k a e
  | Some (Err s, e) => Some (Err s, e)
  | None => None
  end.

Definition eng_fail {A} (message : string) : Eng A := λ e, Some (Err message, e).
Definition eng_res {A} (r : nres A) : Eng A := λ e, Some (r, e).
(** Methods that take [&self]. *)
Definition eng_read {A} (f : SyncEngine → nres A) : Eng A := λ e, Some (f e, e).
Definition eng_read_opt {A} (f : SyncEngine → option (nres A)) : Eng A := λ e, (λ r, (r, e)) <$> f e.
Definition eng_get {A} (f : SyncEngine → A) : Eng A := λ e, Some (Ok (f e), e).
Definition eng_do (f : SyncEngine → SyncEngine) : Eng unit := λ e, Some (Ok (), f e).
(** [match self.m() { Ok(..) => .., Err(..) => .. }]. *)
Definition eng_try {A} (m : Eng A) : Eng (nres A) := λ e,
  match m e with Some (r, e) => Some (Ok r, e) | None => None end.

Lemma eng_bind_inv {A B} (m : Eng A) (k : A → Eng B) e r e' : (m ≫= k) e = Some (r, e') ↔
  (∃ s, m e = Some (Err s, e') ∧ r = Err s) ∨ ∃ a e1, m e = Some (Ok a, e1) ∧ k a e1 = Some (r, e').
Proof.
  unfold mbind, eng_bind. destruct (m e) as [[[a|s] e1]|]; split.
  - intros H. right. eauto.
  - by intros [(? & ? & _)|(? & ? & [= <- <-] & ?)].
  - intros [= <- <-]. left. eauto.
  - by intros [(? & [= <- <-] & ->)|(? & ? & ? & _)].
  - done.
  - by intros [(? & ? & _)|(? & ? & ? & _)].
Qed.

Definition is_none {A} (o : option A) : bool := match o with None => true | Some _ => false end.
#[export] Instance ChainState_eq_dec : EqDecision ChainState.
Proof. solve_decision. Defined.

(** ** Configuration *)

(* rust: node/sync.rs 543-559 default_sync_config *)
Definition default_sync_config (expected_target : option bytes) (chain_id : bytes) (chain_state_path : option string) : SyncConfig :=
  mkSyncConfig DEFAULT_HEADER_BATCH_LIMIT DEFAULT_IBD_LAG_SECONDS expected_target chain_id chain_state_path "devnet" None "off"
    DEFAULT_PV_SHADOW_MAX_SAMPLES.

(* rust: node/sync.rs 1644-1661 validate_mainnet_genesis_guard *)
Definition validate_mainnet_genesis_guard (cfg : SyncConfig) : nres unit :=
  let network := to_ascii_lowercase (trim (cfg_network cfg)) in
  let network := if bool_decide (network = "")%string then "devnet"%string else network in
  if negb (bool_decide (network = "mainnet")%string) then Ok () else
  expected_target ← ok_or (cfg_expected_target cfg) "mainnet requires explicit expected_target"%string;
  if bool_decide (expected_target = POW_LIMIT) then fail "mainnet expected_target must not equal devnet POW_LIMIT (all-ff)"%string else
  Ok ().

(* rust: node/chainstate_recovery.rs 65-65 CHAIN_STATE_SNAPSHOT_INTERVAL_BLOCKS *)
Definition CHAIN_STATE_SNAPSHOT_INTERVAL_BLOCKS : Z := 32.
(* rust: node/chainstate_recovery.rs 72-72 CHAIN_STATE_SNAPSHOT_SMALL_UTXO_CUTOFF *)
Definition CHAIN_STATE_SNAPSHOT_SMALL_UTXO_CUTOFF : Z := 4096.

(* rust: node/chainstate_recovery.rs 90-104 should_persist_chainstate_snapshot *)
Definition should_persist_chainstate_snapshot (state : option ChainState) (summary : option ChainStateConnectSummary) : bool :=
  match state, summary with
  | Some state, Some summary =>
      if negb (ch_has_tip state) || (ks_block_height summary =? 0) then true else
      if Z.of_nat (size (ch_utxos state)) <=? CHAIN_STATE_SNAPSHOT_SMALL_UTXO_CUTOFF then true else
      ks_block_height summary mod CHAIN_STATE_SNAPSHOT_INTERVAL_BLOCKS =? 0
  | _, _ => true
  end.

Section engine.
Context `{HS : Sha3} `{HO : OpenSsl} `{BU : BigUintBytes} `{HX : Hex} `{HU : UndoJson} `{HE : EnvelopeJson} `{HJ : StateJson}.
(** The [Debug] text of a string. *)
Context (debug_str : string → string).
Implicit Types (e : SyncEngine).

(* rust: node/sync.rs 1690-1703 load_persisted_tip_timestamp *)
Definition load_persisted_tip_timestamp (chain_state : ChainState) (block_store : option Store) : nres Z :=
  if negb (ch_has_tip chain_state) then Ok 0 else
  match block_store with
  | None => Ok 0
  | Some block_store =>
      header_bytes ← get_header_by_hash block_store (ch_tip_hash chain_state);
      header ← stringify (parse_block_header_bytes header_bytes);
      Ok (bh_timestamp header)
  end.

(** The world is given: the file of the state, the writes and the clocks to
    come. *)
(* rust: node/sync.rs 863-918 new *)
Definition SyncEngine_new (chain_state : ChainState) (block_store : option Store) (cfg : SyncConfig) (saved : SavedFile)
    (faults : list (option WriteFault)) (clocks : list Clock) : nres SyncEngine :=
  _ ← validate_mainnet_genesis_guard cfg;
  let or_default v d := if v =? 0 then d else v in
  let max_samples := Z.min (or_default (cfg_pv_shadow_max_samples cfg) DEFAULT_PV_SHADOW_MAX_SAMPLES) MAX_PV_SHADOW_MAX_SAMPLES in
  let cfg := mkSyncConfig (or_default (cfg_header_batch_limit cfg) DEFAULT_HEADER_BATCH_LIMIT)
    (or_default (cfg_ibd_lag_seconds cfg) DEFAULT_IBD_LAG_SECONDS) (cfg_expected_target cfg) (cfg_chain_id cfg)
    (cfg_chain_state_path cfg) (cfg_network cfg) (cfg_suite_context cfg)
    (normalize_parallel_validation_mode (cfg_parallel_validation_mode cfg)) max_samples in
  pv_mode ← parse_parallel_validation_mode debug_str (cfg_parallel_validation_mode cfg);
  tip_timestamp ← load_persisted_tip_timestamp chain_state block_store;
  let best_known_height := if ch_has_tip chain_state then ch_height chain_state else 0 in
  Ok (mkSyncEngine chain_state block_store cfg tip_timestamp best_known_height 0 0
        (mkPvState pv_mode max_samples 0 [] (PVTelemetry_new pv_mode)) None None false saved faults clocks).

(** ** Queries *)

(* rust: node/sync.rs 935-948 header_sync_request *)
Definition header_sync_request e : HeaderRequest :=
  if negb (ch_has_tip (se_chain_state e)) then mkHeaderRequest (zeros 32) false (cfg_header_batch_limit (se_cfg e)) else
  mkHeaderRequest (ch_tip_hash (se_chain_state e)) true (cfg_header_batch_limit (se_cfg e)).

(* rust: node/sync.rs 950-954 record_best_known_height *)
Definition record_best_known_height (height : Z) e : SyncEngine :=
  if se_best_known_height e <? height then set_times (se_tip_timestamp e) height e else e.

(* rust: node/sync.rs 968-973 note_reorg *)
Definition note_reorg (depth : Z) e : SyncEngine :=
  set_reorgs depth (if 0 <? depth then saturating_add u64_max (se_reorg_count e) 1 else se_reorg_count e) e.

(* rust: node/sync.rs 987-995 tip *)
Definition engine_tip e : option (Z * bytes) :=
  match se_block_store e with
  | Some block_store => bs_tip (so_index block_store)
  | None => if negb (ch_has_tip (se_chain_state e)) then None else Some (ch_height (se_chain_state e), ch_tip_hash (se_chain_state e))
  end.

(* rust: node/sync.rs 997-1002 locator_hashes *)
Definition engine_locator_hashes (fuel : nat) e (limit : Z) : option (list bytes) :=
  match se_block_store e with Some block_store => locator_hashes fuel (so_index block_store) limit | None => Some [] end.

(* rust: node/sync.rs 1004-1016 hashes_after_locators *)
Definition engine_hashes_after_locators e (locators : list bytes) (stop_hash : bytes) (limit : Z) : list bytes :=
  match se_block_store e with
  | Some block_store => hashes_after_locators (so_index block_store) locators stop_hash limit
  | None => []
  end.

(* rust: node/sync.rs 1018-1023 get_block_by_hash *)
Definition engine_get_block_by_hash e (h : bytes) : nres bytes :=
  match se_block_store e with
  | None => fail "sync engine missing blockstore"%string
  | Some block_store => get_block_by_hash block_store h
  end.

(* rust: node/sync.rs 1036-1045 has_block *)
Definition engine_has_block e (h : bytes) : nres bool :=
  match se_block_store e with
  | None => Ok false
  | Some block_store =>
      present ← try_has_block block_store h;
      if negb present then Ok false else
      _ ← get_header_by_hash block_store h;
      Ok true
  end.

(* rust: node/sync.rs 1047-1055 is_in_ibd *)
Definition is_in_ibd e (now_unix : Z) : bool :=
  if negb (ch_has_tip (se_chain_state e)) then true else
  if now_unix <? se_tip_timestamp e then true else
  cfg_ibd_lag_seconds (se_cfg e) <? now_unix - se_tip_timestamp e.

(* rust: node/sync.rs 1072-1077 is_in_ibd_unchecked *)
Definition is_in_ibd_unchecked (now : option Z) e : bool := match now with None => true | Some now => is_in_ibd e now end.
(* rust: node/sync.rs 1065-1070 pv_shadow_active *)
Definition pv_shadow_active (now : option Z) e : bool :=
  match pv_mode (se_pv e) with PvOff => false | PvShadow | PvOn => is_in_ibd_unchecked now e end.

(** ** Faults and the owner of outpoints *)

(* rust: node/sync.rs 666-671 mutation_allowed *)
Definition mutation_allowed : Eng unit :=
  eng_read (λ e, match se_persistence_fault e with Some _ => Err STORAGE_PERSISTENCE_FAULT_ERR | None => Ok () end).

(* rust: node/sync.rs 673-686 bind_pending_outpoint_owner *)
Definition bind_pending_outpoint_owner (owner : PendingOutpointOwnerHandle) : Eng unit := λ e,
  match se_owner e with
  | Some _ => Some (fail "pending-outpoint owner already bound"%string, e)
  | None =>
      match map_err pe_message (handle_admission_context owner).1 with
      | Err message => Some (Err message, e)
      | Ok context =>
          if negb (bool_decide (ac_tip context = tip_from_chain_state (se_chain_state e)))
          then Some (fail "pending-outpoint owner tip does not match sync engine"%string, e)
          else Some (Ok (), set_owner (Some owner) (se_transition_active e) e)
      end
  end.

(* rust: node/sync.rs 692-702 begin_pending_outpoint_transition *)
Definition begin_pending_outpoint_transition : Eng bool := λ e,
  if se_transition_active e then Some (Ok false, e) else
  match se_owner e with
  | None => Some (Ok false, e)
  | Some owner =>
      match handle_begin_transition owner with
      | (Err error, owner) => Some (Err (pe_message error), set_owner (Some owner) false e)
      | (Ok _, owner) => Some (Ok true, set_owner (Some owner) true e)
      end
  end.

(* rust: node/sync.rs 735-748 finish_pending_outpoint_transition_success *)
Definition finish_transition_success (started : bool) e : SyncEngine :=
  if negb started then e else
  match se_owner e with
  | None => set_owner None false e
  | Some owner =>
      let owner := match handle_commit_stable_tip (tip_from_chain_state (se_chain_state e)) owner with
                   | (Err _, owner) => latch_unavailable owner
                   | (Ok _, owner) => owner
                   end in
      set_owner (Some owner) false e
  end.

(* rust: node/sync.rs 750-771 finish_pending_outpoint_transition_failure *)
Definition finish_transition_failure (started : bool) (old_state : ChainState) (proven_old : bool) e : SyncEngine :=
  if negb started then e else
  match se_owner e with
  | None => set_owner None false e
  | Some owner =>
      if proven_old && is_none (se_persistence_fault e) && bool_decide (se_chain_state e = old_state) then
        match handle_reopen_old_tip owner with
        | (Ok _, owner) => set_owner (Some owner) false e
        | (Err _, owner) => set_owner (Some (latch_unavailable owner)) false e
        end
      else set_owner (Some (latch_unavailable owner)) false e
  end.

(** Reading the index back may fail too: it meets the next of the faults. *)
(* rust: node/sync.rs 798-817 reload_visible_persistence_state *)
Definition reload_visible_persistence_state (reload_store reload_chainstate : bool) e : option (option string * SyncEngine) :=
  let '(first_error, e) :=
    match reload_store, se_block_store e with
    | true, Some st =>
        match reload_persistence_state (wf_primary <$> default None (head (se_faults e))) (so_index st) with
        | (Ok _, index) => (None, set_store (Some (set_index st index)) (tail (se_faults e)) e)
        | (Err error, index) => (Some error, set_store (Some (set_index st index)) (tail (se_faults e)) e)
        end
    | _, _ => (None, e)
    end in
  match reload_chainstate, cfg_chain_state_path (se_cfg e) with
  | true, Some path =>
      loaded ← load_chain_state path (se_saved e);
      Some match loaded with
           | Ok state => (first_error, set_chain state e)
           | Err error => (Some (default error first_error), e)
           end
  | _, _ => Some (first_error, e)
  end.

(** A fault is latched once; the text is that of the one that is there. *)
(* rust: node/sync.rs 772-797 handle_persistence_error *)
Definition handle_persistence_error (error : AtomicWriteError) (reload_store reload_chainstate : bool) : Eng string := λ e,
  if negb (is_atomic_write_post_commit error) then Some (Ok (display_write_error error), e) else
  match se_persistence_fault e with
  | Some fault => Some (Ok (display_fault fault), e)
  | None =>
      let e := set_fault (Some (mkPersistenceFault error None)) e in
      '(reload_error, e) ← reload_visible_persistence_state reload_store reload_chainstate e;
      let fault := mkPersistenceFault error reload_error in
      Some (Ok (display_fault fault), set_fault (Some fault) e)
  end.

(** ** Writing *)

(** An operation of the block store, if there is one; its typed error is a
    value for the caller. *)
Definition run_store (op : StoreM unit) : Eng (option (result AtomicWriteError unit)) := λ e,
  match se_block_store e with
  | None => Some (Ok None, e)
  | Some st =>
      let '(r, io) := op (mkStoreIo st (se_faults e)) in
      Some (Ok (Some r), set_store (Some (io_store io)) (io_faults io) e)
  end.

(* rust: node/chainstate.rs 586-629 save_atomic *)
Definition save_atomic (path : string) : Eng (result AtomicWriteError unit) := λ e,
  match chain_state_content path (se_chain_state e) with
  | Err error => Some (Ok (Err error), e)
  | Ok raw =>
      let o := write_result path Overwrite (default None (head (se_faults e))) in
      let saved := if is_visible o then SavedContent raw else se_saved e in
      Some (Ok o, set_saved saved (tail (se_faults e)) e)
  end.

Definition store_canonical_len e : Z := match se_block_store e with Some st => len (bs_canonical (so_index st)) | None => 0 end.

(** [truncate_canonical_typed] and [rollback_canonical_typed] of the store. *)
Definition store_truncate (new_len : Z) : StoreM unit := on_index (λ o, truncate_canonical_typed o new_len).
Definition store_rollback (base_len : Z) (suffix : list string) : StoreM unit :=
  on_index (λ o, rollback_canonical_typed o base_len suffix).

(** ** Context of a block *)

(* rust: node/sync.rs 841-854 resolve_canonical_apply_target *)
Definition resolve_canonical_apply_target (target : option (option bytes)) (next_height : Z) : Eng (option bytes) :=
  match target with
  | Some expected => mret expected
  | None => eng_read_opt (λ e,
      let s := se_chain_state e in
      let parent := if ch_has_tip s then ch_tip_hash s else zeros 32 in
      target_context_for_candidate (se_block_store e) (se_cfg e) parent next_height)
  end.

(* rust: node/sync.rs 1585-1612 prev_timestamps_for_next_block *)
Definition prev_timestamps_for_next_block e : nres (option (list Z)) :=
  let s := se_chain_state e in
  if negb (ch_has_tip s) then Ok None else
  if ch_height s =? u64_max then fail "height overflow"%string else
  block_store ← ok_or (se_block_store e) "sync engine missing blockstore for timestamp context"%string;
  let next_height := ch_height s + 1 in
  out ← try_fold (push_timestamp block_store next_height) [] (seqZ 0 (Z.min next_height 11));
  Ok (Some out).

(** [None] is a panic, which the caller catches. *)
(* rust: node/sync.rs 1712-1734 run_pv_shadow_validation *)
Definition run_pv_shadow_validation (snapshot : ChainState) (block_bytes : bytes) (prev_timestamps : option (list Z))
    (expected_target : option bytes) (cfg : SyncConfig) : option (nres bytes) :=
  '(r, shadow_state) ← chain_connect_block_with_suite_context block_bytes expected_target prev_timestamps (cfg_chain_id cfg)
    (fst <$> cfg_suite_context cfg) (snd <$> cfg_suite_context cfg) snapshot;
  Some (_ ← r; Ok (state_utxo_set_hash shadow_state)).

(** ** Applying a block *)

(** What a failed application puts back. *)
Record ApplySnapshot : Type := mkApplySnapshot {
  as_chain_state : ChainState; as_tip_timestamp : Z; as_best_known_height : Z; as_last_reorg_depth : Z; as_reorg_count : Z }.
Definition take_snapshot e : ApplySnapshot :=
  mkApplySnapshot (se_chain_state e) (se_tip_timestamp e) (se_best_known_height e) (se_last_reorg_depth e) (se_reorg_count e).
(* rust: node/sync.rs 920-933 restore_direct_apply_state *)
Definition restore_direct_apply_state (s : ApplySnapshot) e : SyncEngine :=
  set_reorgs (as_last_reorg_depth s) (as_reorg_count s)
    (set_times (as_tip_timestamp s) (as_best_known_height s) (set_chain (as_chain_state s) e)).
(** The state and the two heights only. *)
Definition restore_tip (s : ApplySnapshot) e : SyncEngine :=
  set_times (as_tip_timestamp s) (as_best_known_height s) (set_chain (as_chain_state s) e).

(** A failed application: put back what was there, settle with the owner, and
    return the error. *)
Definition abort_apply {A} (restore : SyncEngine → SyncEngine) (transitioned : bool) (snapshot : ApplySnapshot) (proven_old : bool)
    (message : string) : Eng A :=
  _ ← eng_do (λ e, finish_transition_failure transitioned (as_chain_state snapshot) proven_old (restore e));
  eng_fail message.

(** The block is connected to the state in memory; a shadow run may follow. *)
(* rust: node/sync.rs 1177-1289 apply_block_with_target *)
Definition apply_connect (block_bytes : bytes) (x : BlockInputs) (next_height : Z) (pv_active : bool) (clock : Clock)
    (transitioned : bool) (snapshot : ApplySnapshot) : Eng ChainStateConnectSummary := λ e,
  let shadow := run_pv_shadow_validation (as_chain_state snapshot) block_bytes (bi_times x) (bi_target x) (se_cfg e) in
  match connect_input x (se_chain_state e) with
  | None => None
  | Some (Err err, state) =>
      let e := set_pv (pv_after_reject pv_active next_height err shadow (ck_validate_ns clock) (se_pv e)) (set_chain state e) in
      abort_apply (restore_direct_apply_state snapshot) transitioned snapshot true err e
  | Some (Ok summary, state) =>
      let pv := pv_after_connect pv_active (ks_block_height summary) (state_utxo_set_hash state) shadow (ck_validate_ns clock) (se_pv e) in
      Some (Ok summary, set_pv pv (set_chain state e))
  end.

(** The report of the block, and its undo record if there is a store. *)
(* rust: node/sync.rs 1309-1360 apply_block_with_target *)
Definition apply_prepare (parsed : ParsedBlock) (block_bytes block_hash_bytes : bytes) (next_height : Z) (transitioned : bool)
    (snapshot : ApplySnapshot) (summary : ChainStateConnectSummary) : Eng (ChainStateConnectSummary * option BlockUndo) := λ e,
  let abort err := abort_apply (restore_direct_apply_state snapshot) transitioned snapshot true err e in
  match complete_da_set_ids_from_parsed_block (pb_txs parsed) with
  | Err err => abort err
  | Ok complete_da_ids =>
      let summary := mkChainStateConnectSummary (ks_block_height summary) (ks_block_hash summary) (ks_sum_fees summary)
        (ks_already_generated summary) (ks_already_generated_n1 summary) (ks_utxo_count summary)
        [mkCanonicalAppliedBlock block_hash_bytes complete_da_ids] in
      match se_block_store e with
      | None => Some (Ok (summary, None), e)
      | Some _ =>
          match build_block_undo (as_chain_state snapshot) block_bytes next_height with
          | Err err => abort err
          | Ok undo => Some (Ok (summary, Some undo), e)
          end
      end
  end.

(* rust: node/sync.rs 1361-1394 apply_block_with_target *)
Definition apply_commit (parsed : ParsedBlock) (block_bytes block_hash_bytes : bytes) (transitioned : bool) (snapshot : ApplySnapshot)
    (summary : ChainStateConnectSummary) (undo : option BlockUndo) : Eng unit :=
  match undo with
  | None => mret ()
  | Some undo =>
      r ← run_store (store_commit (ks_block_height summary) block_hash_bytes (pb_header_bytes parsed) block_bytes undo);
      match r with
      | Some (Err error) =>
          if is_atomic_write_post_commit error then
            reload_store ← eng_get (λ e, match se_block_store e with
                                         | Some st => bool_decide (aw_destination error = bs_index_path (so_index st))
                                         | None => false end);
            message ← handle_persistence_error error reload_store false;
            abort_apply (λ e, if negb reload_store then set_chain (as_chain_state snapshot) e else e) transitioned snapshot false message
          else abort_apply (restore_tip snapshot) transitioned snapshot true (display_write_error error)
      | _ => mret ()
      end
  end.

(* rust: node/sync.rs 1412-1463 apply_block_with_target *)
Definition apply_save (canonical_len_before : Z) (transitioned : bool) (snapshot : ApplySnapshot) (summary : ChainStateConnectSummary) :
    Eng unit :=
  path ← eng_get (λ e, cfg_chain_state_path (se_cfg e));
  persist_snapshot ← eng_get (λ e, is_none (se_block_store e)
                                   || should_persist_chainstate_snapshot (Some (se_chain_state e)) (Some summary));
  match path with
  | Some path =>
      if negb persist_snapshot then mret () else
      saved ← save_atomic path;
      match saved with
      | Ok _ => mret ()
      | Err error =>
          if is_atomic_write_post_commit error then
            message ← handle_persistence_error error false true;
            abort_apply id transitioned snapshot false message
          else
            let err := display_write_error error in
            grew ← eng_get (λ e, canonical_len_before <? store_canonical_len e);
            rewind_result ← (if grew : bool then run_store (store_truncate canonical_len_before) else mret None);
            _ ← eng_do (restore_tip snapshot);
            match rewind_result with
            | Some (Err rewind_err) =>
                if is_atomic_write_post_commit rewind_err then
                  message ← handle_persistence_error rewind_err true false;
                  abort_apply id transitioned snapshot false message
                else abort_apply id transitioned snapshot false
                  (err +:+ "; failed to rewind canonical index after chain_state save failure: " +:+ display_write_error rewind_err
                   +:+ "; blockstore may require repair")%string
            | _ => abort_apply id transitioned snapshot true err
            end
      end
  | None => mret ()
  end.

(* rust: node/sync.rs 1465-1479 apply_block_with_target *)
Definition direct_apply_finish (timestamp : Z) (pv_active : bool) (clock : Clock) (transitioned : bool) (summary : ChainStateConnectSummary)
    e : SyncEngine :=
  let best := if se_best_known_height e <? ks_block_height summary then ks_block_height summary else se_best_known_height e in
  let e := set_reorgs 0 (se_reorg_count e) (set_times timestamp best e) in
  let e := if pv_active then set_pv (on_telemetry (λ t, record_commit_latency t (ck_commit_ns clock)) (se_pv e)) e else e in
  finish_transition_success transitioned e.

(* rust: node/sync.rs 1135-1479 apply_block_with_target *)
Definition apply_block_with_target (block_bytes : bytes) (prev_timestamps : option (list Z)) (target : option (option bytes)) :
    Eng ChainStateConnectSummary :=
  _ ← mutation_allowed;
  parsed ← eng_res (stringify (parse_block_bytes block_bytes));
  block_hash_bytes ← eng_res (stringify (block_hash (pb_header_bytes parsed)));
  next_height ← eng_read (λ e, let s := se_chain_state e in
    if ch_has_tip s then ok_or (checked_add u64_max (ch_height s) 1) "height overflow"%string else Ok 0);
  expected_target ← resolve_canonical_apply_target target next_height;
  derived ← (match prev_timestamps with None => eng_read prev_timestamps_for_next_block | Some _ => mret None end);
  let prev_timestamps := match prev_timestamps with Some _ => prev_timestamps | None => derived end in
  clock ← (λ e, Some (Ok (default no_clock (head (se_clocks e))), set_clocks (tail (se_clocks e)) e));
  pv_active ← eng_get (pv_shadow_active (ck_now clock));
  snapshot ← eng_get take_snapshot;
  cfg ← eng_get se_cfg;
  let x := mkBlockInputs block_bytes expected_target prev_timestamps (cfg_chain_id cfg) (fst <$> cfg_suite_context cfg)
             (snd <$> cfg_suite_context cfg) in
  transitioned ← begin_pending_outpoint_transition;
  summary ← apply_connect block_bytes x next_height pv_active clock transitioned snapshot;
  '(summary, undo) ← apply_prepare parsed block_bytes block_hash_bytes next_height transitioned snapshot summary;
  canonical_len_before ← eng_get store_canonical_len;
  _ ← apply_commit parsed block_bytes block_hash_bytes transitioned snapshot summary undo;
  _ ← apply_save canonical_len_before transitioned snapshot summary;
  _ ← eng_do (direct_apply_finish (bh_timestamp (pb_header parsed)) pv_active clock transitioned summary);
  mret summary.

(* rust: node/sync.rs 1125-1131 apply_block *)
Definition apply_block (block_bytes : bytes) (prev_timestamps : option (list Z)) : Eng ChainStateConnectSummary :=
  apply_block_with_target block_bytes prev_timestamps None.

(* rust: node/sync.rs 1116-1123 bootstrap_canonical_genesis_if_empty *)
Definition bootstrap_canonical_genesis_if_empty : Eng unit :=
  _ ← mutation_allowed;
  devnet ← eng_read_opt (λ _, Ok <$> devnet_genesis_chain_id);
  skip ← eng_get (λ e, ch_has_tip (se_chain_state e) || negb (bool_decide (cfg_chain_id (se_cfg e) = devnet)));
  if skip : bool then mret () else
  genesis ← eng_read_opt (λ _, Ok <$> devnet_genesis_block_bytes);
  _ ← apply_block genesis None;
  mret ().
End engine.
