(* ===== verification/SyncReorg.v ===== *)
(** * Disconnecting blocks and reorganizing the chain ([sync_disconnect.rs], [sync_reorg.rs])

    A disconnection is prepared from what the store keeps of the block and
    tried on a copy of the state before anything is changed.  A block that does
    not extend the tip is compared by work; if its branch wins, the canonical
    blocks above the fork are disconnected and the branch is applied, and a
    failure on the way puts the old chain back. *)

From Stdlib Require Import Ascii.
From stdpp Require Import pretty.
From S2P Require Import Prelude Bytes BTree Errors Constants Crypto WireRead CompactSize TxWire TxCodec Block Merkle Pow Subsidy.
From S2P Require Import Vault Suites Verify SigCache WorkerPool SigQueue Sighash Spend Htlc Stealth CovenantGenesis.
From S2P Require Import UtxoApply UtxoRules UtxoDeferred UtxoLedger BlockParse BlockWeight BlockDa BlockBasic ConnectBlock.
From S2P Require Import NodeText ChainState ChainDisk Undo Chain BlockStore StoreFiles AtomicWrite Headers.
From S2P Require Import Base64 Uint128 StoreEnvelope UndoDisk UndoEnvelope StoreCommit ChainFile Branch PendingOwner StoreOps PvTelemetry.
From S2P Require Import DaComplete SyncEngine.

(* rust: node/sync_disconnect.rs 13-18 PreparedDisconnect *)
Record PreparedDisconnect : Type := mkPreparedDisconnect {
  pd_stored : VerifiedStoredBlock; pd_tip_height : Z; pd_undo : BlockUndo; pd_parent_timestamp : Z }.

(* rust: node/sync.rs 528-541 SyncRollbackState *)
Record SyncRollbackState : Type := mkSyncRollbackState {
  rs_chain_state : ChainState; rs_canonical_len : Z; rs_canonical_removed_suffix : option (list string); rs_tip_timestamp : Z;
  rs_best_known_height : Z; rs_last_reorg_depth : Z; rs_reorg_count : Z }.

(* rust: node/sync_reorg.rs 478-482 ApplyBlockWithReorgOutcome *)
Record ApplyBlockWithReorgOutcome : Type := mkReorgOutcome {
  ro_summary : ChainStateConnectSummary; ro_tx_pool_cleanup : TxPoolCleanupPlan }.

(* rust: node/sync.rs 1576-1583 err_with_rollback *)
Definition err_with_rollback (err : string) (rb : option string) : string :=
  match rb with
  | Some rb_err => (err +:+ "; rollback failed: " +:+ rb_err +:+ "; blockstore may require repair")%string
  | None => err
  end.

Section reorg.
Context `{HS : Sha3} `{HO : OpenSsl} `{BU : BigUintBytes} `{HX : Hex} `{HU : UndoJson} `{HE : EnvelopeJson} `{HJ : StateJson}.
Implicit Types (e : SyncEngine).

(** ** Disconnecting *)

(** [disconnect_block] of [Undo.v] on a block that is already parsed. *)
(* rust: node/sync_disconnect.rs 24-137 disconnect_verified_stored_block *)
Definition disconnect_verified_stored_block (stored : VerifiedStoredBlock) (undo : BlockUndo) :
    ST ChainState string ChainStateDisconnectSummary := λ self,
  match (if negb (ch_has_tip self) then fail "chainstate has no tip"%string else
         if negb (ch_height self =? bu_block_height undo)
         then Err (height_mismatch (ch_height self) (bu_block_height undo)) else
         let pb := vs_parsed stored in
         if negb (len (pb_txs pb) =? len (pb_txids pb)) then fail "parsed block txid length mismatch"%string else
         if negb (len (bu_txs undo) =? len (pb_txs pb)) then fail "undo tx count mismatch"%string else
         if negb (bool_decide (ch_tip_hash self = vs_lookup_hash stored)) then fail "disconnect block is not current tip"%string else
         work ← disconnect_utxos pb undo (ch_utxos self);
         Ok (disconnected pb undo (vs_lookup_hash stored) work self)) with
  | Err e => (Err e, self)
  | Ok (summary, self) => (Ok summary, self)
  end.

(* rust: node/sync_disconnect.rs 172-186 current_disconnect_tip *)
Definition current_disconnect_tip e : nres (Z * bytes) :=
  st ← ok_or (se_block_store e) "sync engine has no blockstore"%string;
  '(tip_height, tip_hash) ← ok_or (bs_tip (so_index st)) "blockstore has no canonical tip"%string;
  let s := se_chain_state e in
  if negb (ch_has_tip s) || negb (ch_height s =? tip_height) || negb (bool_decide (ch_tip_hash s = tip_hash))
  then fail "chainstate tip does not match blockstore tip"%string else
  Ok (tip_height, tip_hash).

(* rust: node/sync_disconnect.rs 188-201 parent_timestamp *)
Definition parent_timestamp (block_store : Store) (tip_height : Z) (stored : VerifiedStoredBlock) : nres Z :=
  if tip_height =? 0 then Ok 0 else
  parent_header_bytes ← get_header_by_hash block_store (bh_prev_block_hash (pb_header (vs_parsed stored)));
  header ← stringify (parse_block_header_bytes parent_header_bytes);
  Ok (bh_timestamp header).

(* rust: node/sync_disconnect.rs 203-224 prepare_disconnect *)
Definition prepare_disconnect (block_store : Store) (tip_height : Z) (tip_hash : bytes) : nres PreparedDisconnect :=
  stored ← map_err (λ err, render err tip_hash) (load_verified_stored_block block_store tip_hash);
  undo ← store_get_undo block_store tip_hash;
  if negb (bu_block_height undo =? tip_height) then Err (height_mismatch tip_height (bu_block_height undo)) else
  timestamp ← parent_timestamp block_store tip_height stored;
  Ok (mkPreparedDisconnect stored tip_height undo timestamp).

(* rust: node/sync_disconnect.rs 415-424 preview_disconnect_packet *)
Definition preview_disconnect_packet (packet : list PreparedDisconnect) (state : ChainState) : nres ChainState :=
  try_fold (λ state prepared,
    let '(r, state) := disconnect_verified_stored_block (pd_stored prepared) (pd_undo prepared) state in
    _ ← r; Ok state) state packet.

(** What is prepared, and the copy of the state after the previewed
    disconnections. *)
(* rust: node/sync_disconnect.rs 380-403 prepare_canonical_disconnect_packet *)
Definition prepare_canonical_disconnect_packet (preview_state : ChainState) (common_ancestor_height : Z) e :
    nres (list PreparedDisconnect * ChainState) :=
  _ ← match se_persistence_fault e with Some _ => Err STORAGE_PERSISTENCE_FAULT_ERR | None => Ok () end;
  '(tip_height, _) ← current_disconnect_tip e;
  if tip_height <=? common_ancestor_height then Ok ([], preview_state) else
  block_store ← ok_or (se_block_store e) "sync engine has no blockstore"%string;
  packet ← try_fold (λ packet height,
    hash ← ok_or (canonical_hash (so_index block_store) height) "blockstore has no canonical tip"%string;
    prepared ← prepare_disconnect block_store height hash;
    Ok (packet ++ [prepared])) [] (reverse (seqZ (common_ancestor_height + 1) (tip_height - common_ancestor_height)));
  state ← preview_disconnect_packet packet preview_state;
  Ok (packet, state).

(* rust: node/sync_disconnect.rs 159-170 prepare_disconnect_tip *)
Definition prepare_disconnect_tip e : nres PreparedDisconnect :=
  _ ← match se_persistence_fault e with Some _ => Err STORAGE_PERSISTENCE_FAULT_ERR | None => Ok () end;
  '(tip_height, tip_hash) ← current_disconnect_tip e;
  block_store ← ok_or (se_block_store e) "sync engine has no blockstore"%string;
  prepared ← prepare_disconnect block_store tip_height tip_hash;
  _ ← preview_disconnect_packet [prepared] (se_chain_state e);
  Ok prepared.

(* rust: node/sync.rs 1484-1494 capture_rollback_state *)
Definition capture_rollback_state e : SyncRollbackState :=
  mkSyncRollbackState (se_chain_state e) (store_canonical_len e) None (se_tip_timestamp e) (se_best_known_height e)
    (se_last_reorg_depth e) (se_reorg_count e).

(* rust: node/sync.rs 1498-1515 capture_reorg_rollback_state *)
Definition capture_reorg_rollback_state (common_ancestor_height : Z) e : SyncRollbackState :=
  let reorg_base := saturating_add u64_max common_ancestor_height 1 in
  mkSyncRollbackState (se_chain_state e) reorg_base ((λ st, canonical_suffix_from (so_index st) reorg_base) <$> se_block_store e)
    (se_tip_timestamp e) (se_best_known_height e) (se_last_reorg_depth e) (se_reorg_count e).

(** The state and the two heights of a rollback record. *)
Definition rollback_tip (rb : SyncRollbackState) e : SyncEngine :=
  set_times (rs_tip_timestamp rb) (rs_best_known_height rb) (set_chain (rs_chain_state rb) e).
Definition rollback_all (rb : SyncRollbackState) e : SyncEngine :=
  set_reorgs (rs_last_reorg_depth rb) (rs_reorg_count rb) (rollback_tip rb e).

(** The save failed before its commit: the index gets the tip back, and then
    the state follows it. *)
(* rust: node/sync_disconnect.rs 226-348 disconnect_prepared_tip *)
Definition disconnect_unsaved {A} (rollback : SyncRollbackState) (tip_hash : bytes) (new_tip_timestamp : Z) (err : string) : Eng A :=
  r ← run_store (store_rollback (Z.max 0 (rs_canonical_len rollback - 1)) [hex_encode tip_hash]);
  match r with
  | Some (Ok _) => _ ← eng_do (rollback_tip rollback); eng_fail (err_with_rollback err None)
  | Some (Err error) =>
      if is_atomic_write_post_commit error then
        message ← handle_persistence_error error true false;
        _ ← eng_do (rollback_tip rollback); eng_fail message
      else
        _ ← eng_do (λ e, set_times new_tip_timestamp (se_best_known_height e) e);
        eng_fail (err_with_rollback err (Some ("canonical restore failed: " +:+ display_write_error error)%string))
  | None =>
      _ ← eng_do (λ e, set_times new_tip_timestamp (se_best_known_height e) e);
      eng_fail (err_with_rollback err (Some "blockstore missing after canonical truncate"%string))
  end.

(* rust: node/sync_disconnect.rs 226-348 disconnect_prepared_tip *)
Definition disconnect_prepared_tip (prepared : PreparedDisconnect) : Eng ChainStateDisconnectSummary :=
  let stored := pd_stored prepared in
  height ← eng_get (λ e, ch_height (se_chain_state e));
  if negb (height =? pd_tip_height prepared) then eng_fail (height_mismatch height (bu_block_height (pd_undo prepared))) else
  let tip_hash := vs_lookup_hash stored in
  rollback ← eng_get capture_rollback_state;
  summary ← (λ e, let '(r, state) := disconnect_verified_stored_block stored (pd_undo prepared) (se_chain_state e) in
                  Some (r, set_chain state e));
  truncated ← run_store (store_truncate (Z.max 0 (rs_canonical_len rollback - 1)));
  match truncated with
  | None => eng_fail "sync engine has no blockstore"
  | Some (Err error) =>
      if is_atomic_write_post_commit error then message ← handle_persistence_error error true false; eng_fail message
      else _ ← eng_do (rollback_tip rollback); eng_fail (display_write_error error)
  | Some (Ok _) =>
      path ← eng_get (λ e, cfg_chain_state_path (se_cfg e));
      saved ← match path with Some path => save_atomic path | None => mret (Ok ()) end;
      match saved with
      | Ok _ =>
          _ ← eng_do (λ e, set_times (pd_parent_timestamp prepared) (se_best_known_height e) e);
          mret summary
      | Err error =>
          if is_atomic_write_post_commit error then message ← handle_persistence_error error false true; eng_fail message
          else disconnect_unsaved rollback tip_hash (pd_parent_timestamp prepared) (display_write_error error)
      end
  end.

(** The method between the two ends of a transition of the owner. *)
Definition with_transition {A} (m : Eng A) : Eng A :=
  old_state ← eng_get se_chain_state;
  transitioned ← begin_pending_outpoint_transition;
  r ← eng_try m;
  match r with
  | Ok a => _ ← eng_do (finish_transition_success transitioned); mret a
  | Err error => _ ← eng_do (finish_transition_failure transitioned old_state true); eng_fail error
  end.

(* rust: node/sync_disconnect.rs 143-157 disconnect_tip *)
Definition disconnect_tip : Eng ChainStateDisconnectSummary :=
  prepared ← eng_read prepare_disconnect_tip;
  with_transition (disconnect_prepared_tip prepared).

(* rust: node/sync_disconnect.rs 426-437 disconnect_prepared_canonical_to_ancestor *)
Fixpoint disconnect_prepared_list (packet : list PreparedDisconnect) : Eng (list VerifiedStoredBlock) :=
  match packet with
  | [] => mret []
  | prepared :: packet =>
      _ ← disconnect_prepared_tip prepared;
      disconnected ← disconnect_prepared_list packet;
      mret (pd_stored prepared :: disconnected)
  end.
(* rust: node/sync_disconnect.rs 426-437 disconnect_prepared_canonical_to_ancestor *)
Definition disconnect_prepared_canonical_to_ancestor (packet : list PreparedDisconnect) : Eng (list VerifiedStoredBlock) :=
  _ ← mutation_allowed; disconnect_prepared_list packet.

(* rust: node/sync_disconnect.rs 353-378 disconnect_canonical_to_ancestor *)
Definition disconnect_canonical_to_ancestor (common_ancestor_height : Z) : Eng (list bytes) :=
  '(prepared, _) ← eng_read (λ e, prepare_canonical_disconnect_packet (se_chain_state e) common_ancestor_height e);
  if bool_decide (len prepared = 0) then mret [] else
  disconnected ← with_transition (disconnect_prepared_canonical_to_ancestor prepared);
  mret (vs_block_bytes <$> disconnected).

(** ** Rolling back *)

(** The text of a failure, if the rollback has one. *)
(* rust: node/sync.rs 1525-1568 rollback_apply_block *)
Definition rollback_apply_block (rb : SyncRollbackState) : Eng (option string) :=
  faulted ← eng_get (λ e, negb (is_none (se_persistence_fault e)));
  if faulted : bool then mret None else
  r ← run_store (match rs_canonical_removed_suffix rb with
                 | Some suffix => store_rollback (rs_canonical_len rb) suffix
                 | None => store_truncate (rs_canonical_len rb)
                 end);
  match r with
  | Some (Err error) =>
      if is_atomic_write_post_commit error then
        message ← handle_persistence_error error true false;
        _ ← eng_do (rollback_all rb);
        mret (Some message)
      else mret (Some ("canonical rollback failed: " +:+ display_write_error error)%string)
  | _ =>
      _ ← eng_do (rollback_all rb);
      path ← eng_get (λ e, cfg_chain_state_path (se_cfg e));
      match path with
      | None => mret None
      | Some path =>
          saved ← save_atomic path;
          match saved with
          | Ok _ => mret None
          | Err error =>
              if is_atomic_write_post_commit error then message ← handle_persistence_error error false true; mret (Some message)
              else mret (Some ("chain_state save on rollback failed (canonical already rolled back, may require repair): "
                               +:+ display_write_error error)%string)
          end
      end
  end.

(** ** Reorganizing *)

(* rust: node/sync_reorg.rs 606-640 apply_direct_if_possible *)
Definition apply_direct_if_possible (block_bytes : bytes) (prev_timestamps : option (list Z)) :
    Eng (option ChainStateConnectSummary) :=
  parsed ← eng_res (stringify (parse_block_bytes block_bytes));
  s ← eng_get se_chain_state;
  let prev := bh_prev_block_hash (pb_header parsed) in
  if negb (ch_has_tip s) then
    if negb (bool_decide (prev = zeros 32)) then eng_fail PARENT_BLOCK_NOT_FOUND_ERR else
    summary ← apply_block block_bytes prev_timestamps; mret (Some summary)
  else if bool_decide (prev = ch_tip_hash s) then
    next_height ← eng_res (ok_or (checked_add u64_max (ch_height s) 1) "height overflow"%string);
    target ← eng_read_opt (λ e, target_context_for_candidate (se_block_store e) (se_cfg e) (ch_tip_hash s) next_height);
    summary ← apply_block_with_target block_bytes prev_timestamps (Some target);
    mret (Some summary)
  else mret None.

(** The preview of a branch: each block connects after the one before it.
    [None] is a panic of the genesis constants. *)
(* rust: node/sync_reorg.rs 804-849 prepare_preferred_branch *)
Fixpoint preview_branch (common_ancestor_height : Z) (index : Z) (branch : list ReorgBranchBlock) (sliding_ts : option (list Z))
    (preview_state : ChainState) e : option (nres unit) :=
  match branch with
  | [] => Some (Ok ())
  | item :: branch =>
      match branch_row_height common_ancestor_height index with
      | Err err => Some (Err err)
      | Ok height =>
          target ← target_context_for_candidate (se_block_store e) (se_cfg e) (rb_prev_hash item) height;
          match target with
          | Err err => Some (Err err)
          | Ok target =>
              let cfg := se_cfg e in
              '(r, preview_state) ← chain_connect_block_with_suite_context (rb_block_bytes item) target sliding_ts (cfg_chain_id cfg)
                (fst <$> cfg_suite_context cfg) (snd <$> cfg_suite_context cfg) preview_state;
              match r with
              | Err err => Some (Err err)
              | Ok _ => preview_branch common_ancestor_height (index + 1) branch
                          (Some (advance_prev_timestamps sliding_ts (rb_timestamp item))) preview_state e
              end
          end
      end
  end.

(* rust: node/sync_reorg.rs 804-849 prepare_preferred_branch *)
Definition prepare_preferred_branch (branch : list ReorgBranchBlock) (common_ancestor_height : Z) e :
    option (nres (list PreparedDisconnect)) :=
  match (prepared ← prepare_canonical_disconnect_packet (se_chain_state e) common_ancestor_height e;
         sliding_ts ← prev_timestamps_for_height (se_block_store e) (common_ancestor_height + 1);
         Ok (prepared, sliding_ts)) with
  | Err err => Some (Err err)
  | Ok (packet, preview_state, sliding_ts) =>
      r ← preview_branch common_ancestor_height 0 branch sliding_ts preview_state e;
      Some (_ ← r; Ok packet)
  end.

(** One row of the branch. *)
(* rust: node/sync_reorg.rs 732-752 apply_preferred_branch *)
Definition apply_branch_row (common_ancestor_height index : Z) (item : ReorgBranchBlock) : Eng ChainStateConnectSummary :=
  target ← eng_read_opt (λ e,
    match branch_row_height common_ancestor_height index with
    | Err err => Some (Err err)
    | Ok height => target_context_for_candidate (se_block_store e) (se_cfg e) (rb_prev_hash item) height
    end);
  apply_block_with_target (rb_block_bytes item) None (Some target).

(** The last summary, and the reports of all blocks. *)
(* rust: node/sync_reorg.rs 728-766 apply_preferred_branch *)
Fixpoint apply_branch (common_ancestor_height index : Z) (branch : list ReorgBranchBlock) (last : option ChainStateConnectSummary)
    (applied : list CanonicalAppliedBlock) : Eng (option ChainStateConnectSummary * list CanonicalAppliedBlock) :=
  match branch with
  | [] => mret (last, applied)
  | item :: branch =>
      summary ← apply_branch_row common_ancestor_height index item;
      apply_branch common_ancestor_height (index + 1) branch (Some summary) (applied ++ ks_canonical_applied_blocks summary)
  end.

(** Every failure of the two phases is answered alike. *)
(* rust: node/sync_reorg.rs 702-712 apply_preferred_branch *)
Definition abort_reorg {A} (rollback : SyncRollbackState) (old_state : ChainState) (started : bool) (err : string) : Eng A :=
  rollback_error ← rollback_apply_block rollback;
  _ ← eng_do (finish_transition_failure started old_state (is_none rollback_error));
  eng_fail (err_with_rollback err rollback_error).

Definition with_reports (summary : ChainStateConnectSummary) (applied : list CanonicalAppliedBlock) : ChainStateConnectSummary :=
  mkChainStateConnectSummary (ks_block_height summary) (ks_block_hash summary) (ks_sum_fees summary)
    (ks_already_generated summary) (ks_already_generated_n1 summary) (ks_utxo_count summary) applied.

(* rust: node/sync_reorg.rs 685-800 apply_preferred_branch *)
Definition apply_preferred_branch (branch : list ReorgBranchBlock) (common_ancestor_height : Z) : Eng ApplyBlockWithReorgOutcome :=
  rollback ← eng_get (capture_reorg_rollback_state common_ancestor_height);
  old_state ← eng_get se_chain_state;
  prepared_disconnects ← eng_read_opt (prepare_preferred_branch branch common_ancestor_height);
  transition_started ← begin_pending_outpoint_transition;
  r ← eng_try (disconnected ← disconnect_prepared_canonical_to_ancestor prepared_disconnects;
               applied ← apply_branch common_ancestor_height 0 branch None [];
               mret (disconnected, applied));
  match r with
  | Err err => abort_reorg rollback old_state transition_started err
  | Ok (_, (None, _)) => abort_reorg rollback old_state transition_started "reorg branch was empty"
  | Ok (disconnected_blocks, (Some summary, applied)) =>
      let cleanup := mkTxPoolCleanupPlan (branch ≫= rb_txids)
        (branch ≫= λ item, match non_coinbase_inputs (rb_block_bytes item) with Ok ops => ops | Err _ => [] end)
        disconnected_blocks in
      _ ← eng_do (note_reorg (Z.min u64_max (len prepared_disconnects)));
      _ ← eng_do (finish_transition_success transition_started);
      mret (mkReorgOutcome (with_reports summary applied) cleanup)
  end.

(** A branch that does not win: its block is validated and stored. *)
(* rust: node/sync_reorg.rs 530-576 apply_block_with_reorg *)
Definition store_side_block (branch : list ReorgBranchBlock) (common_ancestor_height candidate_height : Z) :
    Eng ApplyBlockWithReorgOutcome :=
  candidate ← eng_res (ok_or (list.last branch) "empty side branch"%string);
  target ← eng_read_opt (λ e, target_context_for_candidate (se_block_store e) (se_cfg e) (rb_prev_hash candidate) candidate_height);
  ts ← eng_read (λ e, side_branch_prev_timestamps (se_block_store e) branch common_ancestor_height);
  _ ← eng_read (λ e, stringify (validate_block_basic_with_context_at_height_and_rotation (rb_block_bytes candidate)
        (Some (rb_prev_hash candidate)) target candidate_height ts (fst <$> cfg_suite_context (se_cfg e))));
  present ← eng_get (λ e, match se_block_store e with Some st => has_block st (rb_hash candidate) | None => true end);
  stored ← (if present : bool then mret (Some (Ok ())) else
            run_store (store_block (rb_hash candidate) (rb_header_bytes candidate) (rb_block_bytes candidate)));
  match stored with
  | Some (Err error) =>
      if is_atomic_write_post_commit error then message ← handle_persistence_error error false false; eng_fail message
      else eng_fail (display_write_error error)
  | _ =>
      summary ← eng_get (λ e, synthetic_side_chain_summary (se_chain_state e) candidate_height (rb_hash candidate));
      mret (mkReorgOutcome summary no_cleanup)
  end.

(* rust: node/sync_reorg.rs 497-581 apply_block_with_reorg *)
Definition apply_block_with_reorg (fuel : nat) (block_bytes : bytes) (prev_timestamps : option (list Z)) :
    Eng ApplyBlockWithReorgOutcome :=
  _ ← mutation_allowed;
  parsed ← eng_res (stringify (parse_block_bytes block_bytes));
  bh ← eng_res (stringify (block_hash (pb_header_bytes parsed)));
  direct ← apply_direct_if_possible block_bytes prev_timestamps;
  match direct with
  | Some summary =>
      cleanup ← eng_res (from_validated_block parsed block_bytes);
      mret (mkReorgOutcome summary cleanup)
  | None =>
      _ ← eng_read (λ e, ok_or (se_block_store e) "missing blockstore for side-chain block"%string);
      '(branch, common_ancestor_hash, common_ancestor_height) ← eng_read_opt (λ e,
        collect_branch_to_canonical fuel (se_block_store e) bh block_bytes);
      '(switch, candidate_height) ← eng_read_opt (λ e,
        should_switch_to_branch fuel (se_block_store e) (ch_tip_hash (se_chain_state e)) branch common_ancestor_hash);
      if switch : bool then apply_preferred_branch branch common_ancestor_height
      else store_side_block branch common_ancestor_height candidate_height
  end.
End reorg.
