(* ===== verification/SyncState.v ===== *)
(** * The engine keeps the replay of its chain

    The abstract state of the engine is the list of its blocks: the chain state
    is their replay, the canonical index begins with their hashes, and the
    store keeps every one of them with its undo record.  Each step of the
    engine is shown to keep this, whatever the writes do, until a fault is
    latched. *)

From S2P Require Import Prelude Bytes BTree Errors Constants Crypto WireRead CompactSize TxWire TxCodec Block Merkle Pow Subsidy.
From S2P Require Import Vault Suites Verify SigCache WorkerPool SigQueue Sighash Spend Htlc Stealth CovenantGenesis.
From S2P Require Import UtxoApply UtxoRules UtxoDeferred UtxoLedger BlockParse BlockWeight BlockDa BlockBasic ConnectBlock.
From S2P Require Import NodeText ChainState ChainDisk Undo Chain BlockStore StoreFiles AtomicWrite Headers.
From S2P Require Import Base64 Uint128 StoreEnvelope UndoDisk UndoEnvelope StoreCommit ChainFile Branch PendingOwner StoreOps Replay PvTelemetry.
From S2P Require Import DaComplete SyncEngine SyncReorg.

Section frames.
Context `{HS : Sha3} `{HO : OpenSsl} `{BU : BigUintBytes} `{HX : Hex} `{HU : UndoJson} `{HE : EnvelopeJson} `{HJ : StateJson}.
Implicit Types (e : SyncEngine).

(** What the invariant reads of the engine. *)
Definition core e := (se_chain_state e, se_block_store e, se_persistence_fault e).
(** What a failed application also puts back. *)
Definition gauges e := (se_tip_timestamp e, se_best_known_height e, se_last_reorg_depth e, se_reorg_count e).

Definition store_grows (o o' : option Store) : Prop :=
  match o, o' with None, None => True | Some st, Some st' => files_grow st st' | _, _ => False end.
#[export] Instance store_grows_preorder : PreOrder store_grows.
Proof.
  split; [intros [st|]; [by cbn|done]|]. intros [a|] [b|] [c|]; cbn; try done. intros H1 H2. by etransitivity.
Qed.

Lemma core_failure started old proven e : core (finish_transition_failure started old proven e) = core e.
Proof.
  unfold finish_transition_failure. destruct (negb started); [done|]. destruct (se_owner e) as [o|]; [|done].
  destruct (_ && _); [|done]. by destruct (handle_reopen_old_tip o) as [[]].
Qed.
Lemma gauges_failure started old proven e : gauges (finish_transition_failure started old proven e) = gauges e.
Proof.
  unfold finish_transition_failure. destruct (negb started); [done|]. destruct (se_owner e) as [o|]; [|done].
  destruct (_ && _); [|done]. by destruct (handle_reopen_old_tip o) as [[]].
Qed.
Lemma core_success started e : core (finish_transition_success started e) = core e.
Proof.
  unfold finish_transition_success. destruct (negb started); [done|]. destruct (se_owner e) as [o|]; [|done].
  by destruct (handle_commit_stable_tip _ o) as [[]].
Qed.

Lemma begin_core e r e' : begin_pending_outpoint_transition e = Some (r, e') → core e' = core e ∧ gauges e' = gauges e ∧ se_cfg e' = se_cfg e.
Proof.
  unfold begin_pending_outpoint_transition. destruct (se_transition_active e); [by intros [= <- <-]|].
  destruct (se_owner e) as [o|]; [|by intros [= <- <-]]. destruct (handle_begin_transition o) as [[] o']; by intros [= <- <-].
Qed.

(** A failure after the commit of a write latches the fault. *)
Definition faulted e : Prop := se_persistence_fault e ≠ None.

Lemma set_index_grows st index : files_grow st (set_index st index).
Proof. by intros []. Qed.

Lemma reload_run reload_store reload_chain e : ∃ r e', reload_visible_persistence_state reload_store reload_chain e = Some (r, e')
  ∧ store_grows (se_block_store e) (se_block_store e').
Proof.
  unfold reload_visible_persistence_state.
  assert (∃ f e1, match reload_store, se_block_store e with
                  | true, Some st => match reload_persistence_state (wf_primary <$> default None (head (se_faults e))) (so_index st) with
                                     | (Ok _, index) => (None, set_store (Some (set_index st index)) (tail (se_faults e)) e)
                                     | (Err error, index) => (Some error, set_store (Some (set_index st index)) (tail (se_faults e)) e)
                                     end
                  | _, _ => (None, e)
                  end = (f, e1) ∧ store_grows (se_block_store e) (se_block_store e1)) as (f & e1 & -> & Hg).
  { destruct reload_store; [|by eexists _, _]. destruct (se_block_store e) as [st|] eqn:Hst.
    - destruct (reload_persistence_state _ (so_index st)) as [[] index]; eexists _, _; (split; [reflexivity|]); apply set_index_grows.
    - eexists _, _. split; [reflexivity|]. by rewrite Hst. }
  destruct reload_chain; [|by eauto]. destruct (cfg_chain_state_path (se_cfg e1)) as [p|]; [|by eauto].
  destruct (load_total p (se_saved e1)) as [r ->]. cbn. destruct r; by eauto.
Qed.

Lemma handle_post error reload_store reload_chain e : is_atomic_write_post_commit error = true →
  ∃ m e', handle_persistence_error error reload_store reload_chain e = Some (Ok m, e') ∧ faulted e'
    ∧ store_grows (se_block_store e) (se_block_store e').
Proof.
  intros Hp. unfold handle_persistence_error. rewrite Hp. cbn [negb]. destruct (se_persistence_fault e) as [f|] eqn:Hf.
  { eexists _, e. split; [reflexivity|]. unfold faulted. by rewrite Hf. }
  destruct (reload_run reload_store reload_chain (set_fault (Some (mkPersistenceFault error None)) e)) as (r & e' & -> & Hg).
  eexists _, _. split; [reflexivity|]. done.
Qed.

Lemma abort_run {A} restore started snapshot proven message e :
  ∃ e', abort_apply (A := A) restore started snapshot proven message e = Some (Err message, e')
    ∧ core e' = core (restore e) ∧ gauges e' = gauges (restore e).
Proof.
  unfold abort_apply, mbind, eng_bind, eng_do, eng_fail. eexists. split; [reflexivity|].
  by rewrite core_failure, gauges_failure.
Qed.
Lemma run_store_None op e : se_block_store e = None → run_store op e = Some (Ok None, e).
Proof. unfold run_store. by intros ->. Qed.
Lemma run_store_Some op e st : se_block_store e = Some st → ∃ r io, op (mkStoreIo st (se_faults e)) = (r, io)
  ∧ run_store op e = Some (Ok (Some r), set_store (Some (io_store io)) (io_faults io) e).
Proof. unfold run_store. intros ->. destruct (op _) as [r io]. by eauto. Qed.

Lemma save_atomic_run path e : ∃ r saved faults, save_atomic path e = Some (Ok r, set_saved saved faults e).
Proof.
  unfold save_atomic. destruct (chain_state_content path (se_chain_state e)) as [raw|err]; [by eauto|].
  exists (Err err), (se_saved e), (se_faults e). f_equal. f_equal. by destruct e.
Qed.
End frames.

(** ** The invariant *)

Section synced.
Context `{HS : Sha3} `{HO : OpenSsl} `{BU : BigUintBytes} `{HX : Hex} `{HU : UndoJson} `{HE : EnvelopeJson} `{HJ : StateJson}.
Implicit Types (e : SyncEngine) (l : list (BlockInputs * BlockUndo)).

(** The store keeps a block: its bytes, its header and its undo record. *)
Record kept (st : Store) (r : BlockInputs * BlockUndo) : Prop := mkKept {
  kp_block : dir_files (so_blocks st) !! input_hash r = Some (Content (bi_bytes r.1));
  kp_header : ∃ pb, parse_block_bytes (bi_bytes r.1) = Ok pb
                ∧ dir_files (so_headers st) !! input_hash r = Some (Content (pb_header_bytes pb));
  kp_undo : store_get_undo st (input_hash r) = Ok r.2 }.

Definition hashes l : list bytes := input_hash <$> l.

Definition store_synced l (st : Store) : Prop :=
  index_ok st ∧ (∃ rest, index_list st = hashes l ++ rest) ∧ Forall (kept st) l.

Record synced l e : Prop := mkSynced {
  sy_replay : replay l (se_chain_state e);
  sy_store : ∀ st, se_block_store e = Some st → store_synced l st }.

Lemma synced_core l e e' : core e' = core e → synced l e → synced l e'.
Proof. unfold core. intros [= H1 H2 _] [Hr Hs]. split; [by rewrite H1|]. intros st. rewrite H2. apply Hs. Qed.

Lemma kept_grows st st' r : files_grow st st' → kept st r → kept st' r.
Proof.
  intros Hg [Hb (pb & Hp & Hh) Hu]. split.
  - by apply (grows_file st st' BlockFiles).
  - exists pb. split; [done|]. by apply (grows_file st st' HeaderFiles).
  - by eapply get_undo_grows.
Qed.

Lemma input_hash_parsed r pb : parse_block_bytes (bi_bytes r.1) = Ok pb → input_hash r = sha3_256 (pb_header_bytes pb).
Proof. unfold input_hash, hash_of. by intros ->. Qed.

(** A fresh engine. *)
Lemma synced_new e : se_chain_state e = ChainState_new → (∀ st, se_block_store e = Some st → index_ok st) → synced [] e.
Proof.
  intros Hc Hs. split; [rewrite Hc; constructor|]. intros st Hst. split; [by apply Hs|]. split; [by eexists|constructor].
Qed.

Lemma store_synced_moved l st st' : store_synced l st → files_grow st st' → index_ok st' →
  (∃ rest, index_list st' = hashes l ++ rest) → store_synced l st'.
Proof. intros (_ & _ & Hk) Hg Hi Hx. split; [done|]. split; [done|]. eapply list.Forall_impl; [exact Hk|]. intros r. by apply kept_grows. Qed.

Lemma store_synced_shrink l l2 st : store_synced (l ++ l2) st → store_synced l st.
Proof.
  intros (Hi & (rest & Hx) & [Hk _]%Forall_app). split; [done|]. split; [|done]. exists (hashes l2 ++ rest).
  rewrite Hx. unfold hashes. by rewrite fmap_app, <- app_assoc.
Qed.

Lemma same_index l st st' : store_synced l st → files_grow st st' → so_index st' = so_index st → store_synced l st'.
Proof.
  intros Hs Hg Hx. eapply store_synced_moved; [done..| |]; destruct Hs as (? & ? & _); unfold index_ok, index_list in *; by rewrite Hx.
Qed.

Lemma hashes_length l : len (hashes l) = len l.
Proof. unfold hashes. by rewrite length_fmap. Qed.

Lemma canonical_len_index st : index_ok st → len (bs_canonical (so_index st)) = len (index_list st).
Proof. intros [[Hc _] _]. unfold index_list. rewrite Hc. by rewrite length_fmap. Qed.

(** Truncating above the blocks that are kept. *)
Lemma truncate_step l st n e r e' : se_block_store e = Some st → store_synced l st → len l ≤ n →
  run_store (store_truncate n) e = Some (r, e') → ∃ r' st' faults, r = Ok (Some r') ∧ e' = set_store (Some st') faults e
    ∧ files_grow st st' ∧ match r' with
      | Err error => is_atomic_write_post_commit error = true ∨ store_synced l st' ∧ so_index st' = so_index st
      | Ok _ => store_synced l st' ∧ index_list st' = take (Z.to_nat n) (index_list st)
      end.
Proof.
  intros Hst Hs Hn H. destruct (run_store_Some (store_truncate n) e st Hst) as (r' & io & Ho & Hr). rewrite Hr in H. injection H as <- <-.
  exists r', (io_store io), (io_faults io). split; [done|]. split; [done|]. pose proof Hs as (Hi & (rest & Hx) & _).
  apply (on_index_ok (Truncate n)) in Ho as (Hg & _ & Ha); [|done|by constructor|lia]. cbn [io_store] in Ha, Hg. split; [done|]. destruct r' as [[]|error]; cbn [index_after] in Ha.
  - destruct Ha as (Hi' & Ht & _). cbn [op_target] in Ht. split; [|done]. eapply store_synced_moved; [done..|].
    exists (take (Z.to_nat n - length (hashes l)) rest). rewrite Ht, Hx, take_app. rewrite take_ge; [done|].
    pose proof (hashes_length l). lia.
  - destruct Ha as [?|Ha]; [by left|right]. split; [by eapply same_index|done].
Qed.

(** ** Applying a block *)

Definition snap_gauges (s : ApplySnapshot) := (as_tip_timestamp s, as_best_known_height s, as_last_reorg_depth s, as_reorg_count s).

(** A step of an application: it fails with a fault, or fails with everything
    put back, or goes on. *)
Definition put_back l (s : ApplySnapshot) e : Prop :=
  se_chain_state e = as_chain_state s ∧ gauges e = snap_gauges s ∧ ∀ st, se_block_store e = Some st → store_synced l st.

Lemma abort_step {A} restore started snapshot proven message e r e' :
  abort_apply (A := A) restore started snapshot proven message e = Some (r, e') →
  r = Err message ∧ core e' = core (restore e) ∧ gauges e' = gauges (restore e).
Proof. destruct (abort_run (A := A) restore started snapshot proven message e) as (e1 & -> & ? & ?). by intros [= <- <-]. Qed.

(** The end of a step that latches a fault. *)
Lemma post_abort {A} error reload_store reload_chain restore started snapshot proven e (r : nres A) e' :
  is_atomic_write_post_commit error = true → (∀ e1, se_persistence_fault (restore e1) = se_persistence_fault e1) →
  (∀ e1, se_block_store (restore e1) = se_block_store e1) →
  (m ← handle_persistence_error error reload_store reload_chain; abort_apply restore started snapshot proven m) e = Some (r, e') →
  store_grows (se_block_store e) (se_block_store e') ∧ faulted e' ∧ ∃ m, r = Err m.
Proof.
  intros Hp Hf Hs. destruct (handle_post error reload_store reload_chain e Hp) as (m & e1 & He & Hfe & Hg).
  unfold mbind, eng_bind. rewrite He. intros H. apply abort_step in H as (-> & [= _ H2 H3] & _). rewrite Hs in H2. rewrite Hf in H3.
  rewrite H2. split; [done|]. split; [|by eexists]. unfold faulted. by rewrite H3.
Qed.

(** The fault is read off the core. *)
Lemma core_fault e e' : core e' = core e → se_persistence_fault e' = se_persistence_fault e.
Proof. by intros [= _ _ ?]. Qed.

Lemma commit_step l parsed b started snapshot summary undo e r e' st :
  se_block_store e = Some st → store_synced l st → gauges e = snap_gauges snapshot →
  undo_ok undo → ks_block_height summary = len l → len b < isize_max → parse_block_bytes b = Ok parsed →
  apply_commit parsed b (hash_of b) started snapshot summary (Some undo) e = Some (r, e') →
  store_grows (se_block_store e) (se_block_store e') ∧
  (faulted e' ∧ (∃ m, r = Err m)
   ∨ se_persistence_fault e' = se_persistence_fault e ∧
     match r with
     | Err _ => put_back l snapshot e'
     | Ok _ => se_chain_state e' = se_chain_state e ∧ gauges e' = gauges e ∧ se_cfg e' = se_cfg e
         ∧ ∀ x, bi_bytes x = b → ∃ st', se_block_store e' = Some st' ∧ store_synced (l ++ [(x, undo)]) st'
             ∧ (index_list st = hashes l → index_list st' = hashes (l ++ [(x, undo)]))
     end).
Proof.
  intros Hst Hs Hga Hu Hht Hb Hp. assert (hash_of b = sha3_256 (pb_header_bytes parsed)) as Hh by (unfold hash_of; by rewrite Hp).
  assert (len (hash_of b) = 32) as Hlen by (rewrite Hh, sha3_256_length; done).
  unfold apply_commit. set (op := store_commit _ _ _ _ _). intros H.
  destruct (run_store_Some op e st Hst) as (r1 & io & Ho & Hr). apply eng_bind_inv in H as [(s & He & _)|(a & e1 & He & H)].
  { rewrite Hr in He. done. }
  rewrite Hr in He. injection He as <- <-.
  pose proof Hs as (Hi & (rest & Hx) & Hk). apply store_commit_ok in Ho as (Hg & Hres); [|done..|lia|done|done]. cbn [io_store] in Hg, Hres.
  destruct r1 as [[]|error].
  - injection H as <- <-. cbn [se_block_store set_store]. rewrite Hst. split; [exact Hg|]. right. split; [done|].
    split; [done|]. split; [done|]. split; [done|]. intros x Hxb. exists (io_store io). split; [done|].
    destruct Hres as (Hi' & _ & Ht & Hfb & Hfh & Hfu).
    assert (input_hash (x, undo) = hash_of b) as Hxh by (unfold input_hash; cbn [fst]; by rewrite Hxb).
    assert (∃ rest', index_list (io_store io) = hashes (l ++ [(x, undo)]) ++ rest' ∧ (rest = [] → rest' = [])) as (rest' & Hx' & Hre).
    { rewrite Ht, Hx, Hht. cbn [op_target]. rewrite Nat2Z.id. unfold hashes. rewrite fmap_app. cbn [fmap list_fmap]. rewrite Hxh.
      replace (length l) with (length (input_hash <$> l)) by apply length_fmap. case_bool_decide as Hsame.
      * rewrite lookup_app_r, Nat.sub_diag in Hsame by lia. destruct rest as [|y rest]; [done|]. injection Hsame as ->.
        exists rest. split; [by rewrite <- app_assoc|done].
      * rewrite take_app_length. exists []. split; [by rewrite app_nil_r|done]. }
    split; [split; [done|]; split; [by exists rest'|]|].
    + apply Forall_app. split; [eapply list.Forall_impl; [exact Hk|]; intros ?; by apply kept_grows|].
      constructor; [|constructor]. split; rewrite Hxh; cbn [fst snd]; rewrite ?Hxb; [done| |done]. by exists parsed.
    + intros Hex. rewrite Hx', Hre, app_nil_r; [done|]. rewrite Hex in Hx. by apply (app_inv_head (hashes l)); rewrite app_nil_r.
  - set (e1 := set_store _ _ _) in *. assert (store_grows (se_block_store e) (se_block_store e1)) as Hg1 by (rewrite Hst; exact Hg).
    destruct (is_atomic_write_post_commit error) eqn:Hpost.
    + apply eng_bind_inv in H as [(s & He & _)|(reload & e2 & He & H)]; [done|]. injection He as <- <-.
      apply post_abort in H as (Hg2 & Hf & Hm); [|done|by intros e1'; destruct (negb _)|by intros e1'; destruct (negb _)].
      split; [by etransitivity|by left].
    + apply abort_step in H as (-> & Hc & Hga'). pose proof Hc as [= Hc1 Hc2 Hc3]. cbn in Hc1, Hc2, Hc3. rewrite Hc2. split; [done|].
      right. split; [done|]. split; [done|]. split.
      * rewrite Hga'. unfold gauges, snap_gauges in *. cbn. by injection Hga as _ _ -> ->.
      * intros st' Hst'. rewrite Hc2 in Hst'. injection Hst' as <-. destruct Hres as [?|Hsame]; [congruence|]. by eapply same_index.
Qed.

Definition all_synced l e : Prop := ∀ st, se_block_store e = Some st → store_synced l st.

Lemma save_step l r before started snapshot summary e res e' :
  all_synced (l ++ [r]) e → (is_Some (se_block_store e) → len l ≤ before) → gauges e = snap_gauges snapshot →
  apply_save before started snapshot summary e = Some (res, e') →
  store_grows (se_block_store e) (se_block_store e') ∧
  (faulted e' ∧ (∃ m, res = Err m)
   ∨ se_persistence_fault e' = se_persistence_fault e ∧
     match res with
     | Err _ => put_back l snapshot e'
     | Ok _ => core e' = core e ∧ gauges e' = gauges e ∧ se_cfg e' = se_cfg e
     end).
Proof.
  intros Hs Hb Hga. unfold apply_save. intros H.
  apply eng_bind_inv in H as [(s & He & _)|(path & e1 & He & H)]; [done|]. injection He as <- <-.
  apply eng_bind_inv in H as [(s & He & _)|(persist & e1 & He & H)]; [done|]. injection He as <- <-.
  destruct (cfg_chain_state_path (se_cfg e)) as [path|]; [|injection H as <- <-; split; [done|by right]].
  destruct (negb _); [injection H as <- <-; split; [done|by right]|].
  destruct (save_atomic_run path e) as (o & saved & faults & Hsv).
  apply eng_bind_inv in H as [(s & He & _)|(o' & e1 & He & H)]; [by rewrite Hsv in He|]. rewrite Hsv in He. injection He as <- <-.
  destruct o as [[]|error]; [injection H as <- <-; split; [done|by right]|].
  destruct (is_atomic_write_post_commit error) eqn:Hpost.
  { apply post_abort in H as (Hg & Hf & Hm); [|done..]. split; [done|by left]. }
  apply eng_bind_inv in H as [(s & He & _)|(grew & e1 & He & H)]; [done|]. injection He as Hgrew <-.
  set (e1 := set_saved saved faults e) in *.
  assert (∃ rw e2, (if grew : bool then run_store (store_truncate before) else mret None) e1 = Some (Ok rw, e2)
    ∧ store_grows (se_block_store e) (se_block_store e2) ∧ se_persistence_fault e2 = se_persistence_fault e ∧ gauges e2 = gauges e
    ∧ ((∃ er, rw = Some (Err er) ∧ is_atomic_write_post_commit er = true) ∨ all_synced l e2)) as (rw & e2 & Hrw & Hg & Hf & Hga2 & Hres).
  { assert (all_synced l e1) as Hl by (intros st Hst; by eapply store_synced_shrink, Hs). destruct grew.
    2: { exists None, e1. split; [done|]. split; [done|]. split; [done|]. split; [done|]. by right. }
    destruct (se_block_store e1) as [st|] eqn:Hst.
    - destruct (run_store_Some (store_truncate before) e1 st Hst) as (r1 & io & _ & Hr).
      pose proof (truncate_step l st before e1 _ _ Hst (Hl st Hst) (Hb ltac:(exists st; exact Hst)) Hr) as (r' & st' & fs & [= <-] & He & Hg & Hx).
      rewrite He in Hr. exists (Some r1), (set_store (Some st') fs e1). split; [exact Hr|]. change (se_block_store e) with (se_block_store e1).
      rewrite Hst. split; [exact Hg|]. split; [done|]. split; [done|].
      assert (store_synced l st' → all_synced l (set_store (Some st') fs e1)) as Hone by (by intros HP st0 [= <-]).
      destruct r1 as [[]|er]; [right; apply Hone, Hx|]. destruct Hx as [?|[Hx _]]; [left; by exists er|right; by apply Hone].
    - exists None, e1. rewrite run_store_None by done. split; [done|]. split; [by change (se_block_store e) with (se_block_store e1)|].
      split; [done|]. split; [done|]. by right. }
  apply eng_bind_inv in H as [(s & He & _)|(rw' & e2' & He & H)]; [by rewrite Hrw in He|]. rewrite Hrw in He. injection He as <- <-.
  apply eng_bind_inv in H as [(s & He & _)|([] & e3 & He & H)]; [done|]. injection He as <-.
  assert (gauges (restore_tip snapshot e2) = snap_gauges snapshot) as Hga3.
  { revert Hga Hga2. unfold gauges, snap_gauges. cbn. intros [= _ _ -> ->] [= _ _ -> ->]. done. }
  assert (∀ message proven, abort_apply (A := unit) id started snapshot proven message (restore_tip snapshot e2) = Some (res, e') →
    all_synced l e2 → store_grows (se_block_store e) (se_block_store e') ∧ (faulted e' ∧ (∃ m, res = Err m)
      ∨ se_persistence_fault e' = se_persistence_fault e ∧ match res with Err _ => put_back l snapshot e'
          | Ok _ => core e' = core e ∧ gauges e' = gauges e ∧ se_cfg e' = se_cfg e end)) as Habort.
  { intros message proven Ha Hl. apply abort_step in Ha as (-> & Hc & Hga'). pose proof Hc as [= Hc1 Hc2 Hc3]. cbn in Hc1, Hc2, Hc3.
    rewrite Hc2, Hc3. split; [done|]. right. split; [done|]. split; [done|]. split; [by rewrite Hga'|]. intros st. rewrite Hc2. apply Hl. }
  destruct rw as [[[]|er]|].
  - destruct Hres as [(er & [=] & _)|Hl]. by eapply Habort.
  - destruct (is_atomic_write_post_commit er) eqn:Hp2.
    + apply post_abort in H as (Hg' & Hf' & Hm); [|done..]. split; [by etransitivity|by left].
    + destruct Hres as [(er' & [= <-] & ?)|Hl]; [congruence|]. by eapply Habort.
  - destruct Hres as [(er & [=] & _)|Hl]. by eapply Habort.
Qed.

Lemma connect_step l b x next_height active clock started snapshot e res e' :
  all_synced l e → gauges e = snap_gauges snapshot → apply_connect b x next_height active clock started snapshot e = Some (res, e') →
  se_block_store e' = se_block_store e ∧ se_persistence_fault e' = se_persistence_fault e ∧
  match res with
  | Err _ => put_back l snapshot e'
  | Ok sum => connect_input x (se_chain_state e) = Some (Ok sum, se_chain_state e') ∧ gauges e' = gauges e ∧ se_cfg e' = se_cfg e
  end.
Proof.
  intros Hs Hga. unfold apply_connect. destruct (connect_input x (se_chain_state e)) as [[[sum|err] s']|] eqn:Hc; [| |done].
  - intros [= <- <-]. by split_and!.
  - intros H. apply abort_step in H as (-> & [= H1 H2 H3] & H4). cbn in H1, H2, H3. rewrite H2, H3. split; [done|]. split; [done|].
    split; [done|]. split; [by rewrite H4|]. intros st. rewrite H2. apply Hs.
Qed.

Lemma prepare_step l parsed b h next_height started snapshot summary e res e' :
  all_synced l e → apply_prepare parsed b h next_height started snapshot summary e = Some (res, e') →
  se_block_store e' = se_block_store e ∧ se_persistence_fault e' = se_persistence_fault e ∧
  match res with
  | Err _ => put_back l snapshot e'
  | Ok (summary', undo) => e' = e ∧ ks_block_height summary' = ks_block_height summary ∧
      ∃ ids, complete_da_set_ids_from_parsed_block (pb_txs parsed) = Ok ids
        ∧ ks_canonical_applied_blocks summary' = [mkCanonicalAppliedBlock h ids] ∧
      match undo with
      | Some u => is_Some (se_block_store e) ∧ build_block_undo (as_chain_state snapshot) b next_height = Ok u
      | None => se_block_store e = None
      end
  end.
Proof.
  intros Hs. unfold apply_prepare.
  assert (∀ err r e2, abort_apply (A := ChainStateConnectSummary * option BlockUndo) (restore_direct_apply_state snapshot) started snapshot
    true err e = Some (r, e2) → se_block_store e2 = se_block_store e ∧ se_persistence_fault e2 = se_persistence_fault e
    ∧ (∃ m, r = Err m) ∧ put_back l snapshot e2) as Ha.
  { intros err r e2 H. apply abort_step in H as (-> & [= H1 H2 H3] & H4). cbn in H1, H2, H3. rewrite H2, H3.
    split; [done|]. split; [done|]. split; [by eexists|]. split; [done|]. split; [by rewrite H4|]. intros st. rewrite H2. apply Hs. }
  destruct (complete_da_set_ids_from_parsed_block _) as [ids|err]; [|intros (? & ? & (m & ->) & ?)%Ha; done].
  destruct (se_block_store e) as [st|] eqn:Hst.
  - destruct (build_block_undo _ _ _) as [u|err] eqn:Hu; [|intros (? & ? & (m & ->) & ?)%Ha; done].
    intros [= <- <-]. rewrite Hst. split_and!; try done. exists ids. split_and!; try done.
  - intros [= <- <-]. rewrite Hst. split_and!; try done. exists ids. by split_and!.
Qed.

(** What an operation that fails without a fault leaves. *)
Definition unchanged l e e' : Prop := synced l e' ∧ se_chain_state e' = se_chain_state e ∧ gauges e' = gauges e.

Lemma unchanged_core l e e' : synced l e → core e' = core e → gauges e' = gauges e → unchanged l e e'.
Proof. intros Hs Hc Hg. split; [by eapply synced_core|]. split; [by injection Hc|done]. Qed.

(** The block of an application that returned. *)
Definition extended_by l b (sum : ChainStateConnectSummary) e e' : Prop := ∃ x undo pb ids,
  bi_bytes x = b ∧ parse_block_bytes b = Ok pb ∧ synced (l ++ [(x, undo)]) e'
  ∧ (∀ st, se_block_store e = Some st → index_list st = hashes l → ∃ st', se_block_store e' = Some st' ∧ index_list st' = hashes (l ++ [(x, undo)]))
  ∧ ks_block_height sum = len l ∧ se_tip_timestamp e' = bh_timestamp (pb_header pb) ∧ se_last_reorg_depth e' = 0
  ∧ se_best_known_height e' = Z.max (se_best_known_height e) (len l) ∧ se_reorg_count e' = se_reorg_count e
  ∧ complete_da_set_ids_from_parsed_block (pb_txs pb) = Ok ids
  ∧ ks_canonical_applied_blocks sum = [mkCanonicalAppliedBlock (hash_of b) ids].

Definition applied l b e (r : nres ChainStateConnectSummary) e' : Prop :=
  store_grows (se_block_store e) (se_block_store e') ∧
  (faulted e' ∧ (∃ m, r = Err m)
   ∨ se_persistence_fault e' = None ∧ match r with Ok sum => extended_by l b sum e e' | Err _ => unchanged l e e' end).

Lemma applied_err l b e m e' : synced l e → se_persistence_fault e = None → core e' = core e → gauges e' = gauges e → applied l b e (Err m) e'.
Proof.
  intros Hs Hf Hc Hg. pose proof Hc as [= H1 H2 H3]. split; [by rewrite H2|]. right. split; [congruence|]. by apply unchanged_core.
Qed.
End synced.

Ltac eng_inv H := apply eng_bind_inv in H as [(?s & ?He & ->)|(?a & ?e & ?He & H)].
Ltac eng_pure He := unfold eng_res, eng_read, eng_get, eng_do in He; cbn beta in He; try (injection He as ? ?; subst).

Section apply.
Context `{HS : Sha3} `{HO : OpenSsl} `{BU : BigUintBytes} `{HX : Hex} `{HU : UndoJson} `{HE : EnvelopeJson} `{HJ : StateJson}.
Implicit Types (e : SyncEngine) (l : list (BlockInputs * BlockUndo)).

(** From the snapshot on. *)
Definition apply_body (parsed : ParsedBlock) (b h : bytes) (next_height : Z) (x : BlockInputs) (active : bool) (clock : Clock)
    (snapshot : ApplySnapshot) : Eng ChainStateConnectSummary :=
  transitioned ← begin_pending_outpoint_transition;
  summary ← apply_connect b x next_height active clock transitioned snapshot;
  '(summary, undo) ← apply_prepare parsed b h next_height transitioned snapshot summary;
  canonical_len_before ← eng_get store_canonical_len;
  _ ← apply_commit parsed b h transitioned snapshot summary undo;
  _ ← apply_save canonical_len_before transitioned snapshot summary;
  _ ← eng_do (direct_apply_finish (bh_timestamp (pb_header parsed)) active clock transitioned summary);
  mret summary.

Lemma finish_run timestamp active clock started summary e :
  let e' := direct_apply_finish timestamp active clock started summary e in
  core e' = core e ∧ gauges e' = (timestamp, Z.max (se_best_known_height e) (ks_block_height summary), 0, se_reorg_count e).
Proof.
  unfold direct_apply_finish. set (e1 := set_reorgs _ _ _). set (e2 := if active then _ else _).
  assert (core e2 = core e1 ∧ gauges e2 = gauges e1) as [Hc Hg] by (by destruct active). split.
  - by rewrite core_success, Hc.
  - transitivity (gauges e2).
    + unfold finish_transition_success. destruct (negb started); [done|]. destruct (se_owner e2) as [o|]; [|done].
      by destruct (handle_commit_stable_tip _ o) as [[]].
    + rewrite Hg. unfold gauges. cbn. f_equal; f_equal; f_equal. destruct (_ <? _) eqn:E; lia.
Qed.

Lemma apply_body_applied l e b parsed x active clock r e' : synced l e → se_persistence_fault e = None → len b ≤ isize_max →
  bi_bytes x = b → parse_block_bytes b = Ok parsed →
  apply_body parsed b (hash_of b) (next_height (se_chain_state e)) x active clock (take_snapshot e) e = Some (r, e') →
  clash ((block_of <$> l) ++ [b]) ∨ applied l b e r e'.
Proof.
  intros Hs Hf Hb Hx Hp. unfold apply_body. set (snap := take_snapshot e). intros H. pose proof Hs as [Hr Hst].
  eng_inv H; [right|]. { apply begin_core in He as (Hc & Hg & _). by apply applied_err. }
  rename e0 into e1. apply begin_core in He as (Hc1 & Hg1 & Hcfg1). pose proof Hc1 as [= Hch1 Hst1 Hf1].
  assert (all_synced l e1) as Hs1 by (intros st; rewrite Hst1; apply Hst).
  assert (∀ e2 m, put_back l snap e2 → store_grows (se_block_store e1) (se_block_store e2) →
    se_persistence_fault e2 = se_persistence_fault e1 → applied l b e (Err m) e2) as Hback.
  { intros e2 m (Hch & Hga & Hst2) Hse Hfe. split; [by rewrite <- Hst1|]. right. split; [congruence|].
    split; [|by split]. split; [by rewrite Hch|exact Hst2]. }
  eng_inv H. { right. apply (connect_step l) in He as (Hse & ? & ?); [|done|by rewrite Hg1]. apply Hback; [done|by rewrite Hse|done]. }
  rename e0 into e2, a0 into summary. apply (connect_step l) in He as (Hst2 & Hf2 & Hcn & Hg2 & Hcfg2); [|done|by rewrite Hg1].
  assert (all_synced l e2) as Hs2 by (intros st; rewrite Hst2; apply Hs1).
  eng_inv H. { right. apply (prepare_step l) in He as (Hse & ? & ?); [|done]. apply Hback; [done|by rewrite Hse, Hst2|congruence]. }
  destruct a0 as [summary' undo]. apply (prepare_step l) in He as (_ & _ & -> & Hh' & ids & Hids & Hrep & Hundo); [|done].
  rewrite Hch1 in Hcn. rewrite <- Hx in Hb. pose proof (replay_replayed l _ Hr) as Hrp.
  destruct (replayed_distinct l _ x _ _ Hrp Hb Hcn) as [Hdi|?]; [right|left; by rewrite <- Hx].
  destruct (replayed_connect l _ x _ _ Hrp Hb Hcn Hdi) as (u & pb & Hbu & Huok & _ & Hpb & Hsize & _ & _ & Hkh & _).
  rewrite Hx in *. rewrite Hp in Hpb. injection Hpb as <-. rewrite (rp_height _ _ Hrp) in Hkh.
  rewrite <- Hh' in Hkh. clear Hh'. assert (len b < isize_max) as Hb'.
  { unfold BLOCK_FILE_MAX_BYTES, MAX_BLOCK_BYTES, isize_max in *. lia. }
  eng_inv H; [done|]. injection He as <- <-.
  assert (replay (l ++ [(x, u)]) (se_chain_state e2)) as Hr' by (econstructor; rewrite ?Hx; done).
  assert (∀ er ec, apply_commit parsed b (hash_of b) a snap summary' undo e2 = Some (er, ec) →
    store_grows (se_block_store e1) (se_block_store ec) ∧
    (faulted ec ∧ (∃ m, er = Err m) ∨ se_persistence_fault ec = None ∧
       match er with
       | Err _ => put_back l snap ec
       | Ok _ => se_chain_state ec = se_chain_state e2 ∧ gauges ec = gauges e2 ∧ all_synced (l ++ [(x, u)]) ec
           ∧ (∀ st, se_block_store e = Some st → index_list st = hashes l →
                ∃ st', se_block_store ec = Some st' ∧ index_list st' = hashes (l ++ [(x, u)]))
       end)) as Hcommit.
  { intros er ec Hc. rewrite <- Hst2. destruct undo as [u'|].
    - destruct Hundo as [[st Hs0] Hu']. change (as_chain_state snap) with (se_chain_state e) in Hu'. rewrite Hbu in Hu'. injection Hu' as <-.
      eapply (commit_step l) in Hc as (Hgr & Hres); [|exact Hs0|by apply Hs2|by rewrite Hg2, Hg1|done..].
      split; [done|]. destruct Hres as [?|[Hfe Hres]]; [by left|right]. split; [congruence|]. destruct er as [[]|m]; [|done].
      destruct Hres as (Hch & Hga & _ & Hix). destruct (Hix x Hx) as (st' & Hst' & Hsy & Hex). split; [done|]. split; [done|]. split.
      + intros st0. rewrite Hst'. by intros [= <-].
      + intros st0 Hst0. rewrite <- Hst1, <- Hst2, Hs0 in Hst0. injection Hst0 as <-. intros Hl. exists st'. split; [done|by apply Hex].
    - injection Hc as <- <-. split; [done|]. right. split; [congruence|]. split; [done|]. split; [done|]. split.
      + intros st. by rewrite Hundo.
      + intros st Hst0. by rewrite <- Hst1, <- Hst2, Hundo in Hst0. }
  eng_inv H; apply Hcommit in He as [Hgc Hres].
  { destruct Hres as [[Hfe _]|[Hfe Hpb]]; [split; [by rewrite <- Hst1|left; split; [done|by eexists]]|]. apply Hback; [done|done|congruence]. }
  destruct Hres as [[_ [m [=]]]|(Hfc & Hchc & Hgac & Hsc & Hexc)].
  assert (is_Some (se_block_store e0) → len l ≤ store_canonical_len e2) as Hbefore.
  { intros [st0 Hst0]. unfold store_canonical_len. destruct (se_block_store e2) as [st|] eqn:Hs0.
    - destruct (Hs2 st Hs0) as (Hi & (rest & Hxr) & _). rewrite (canonical_len_index st Hi), Hxr, length_app.
      pose proof (hashes_length l). lia.
    - by rewrite <- Hst2, Hst0 in Hgc. }
  (* the save *)
  eng_inv H; (apply (save_step l (x, u)) in He as [Hgs Hres]; [|done..|by rewrite Hgac, Hg2, Hg1]).
  { assert (store_grows (se_block_store e1) (se_block_store e')) as Hg' by (by etransitivity).
    destruct Hres as [[Hfe _]|[Hfe Hpb]]; [split; [by rewrite <- Hst1|left; split; [done|by eexists]]|]. apply Hback; [done|done|congruence]. }
  destruct Hres as [[_ [m [=]]]|(Hfs & Hcs & Hgas & _)].
  eng_inv H; [done|]. injection He as <- <-. injection H as <- <-. pose proof Hcs as [= Hcs1 Hcs2 _].
  match goal with |- context [direct_apply_finish ?t ?ac ?ck ?st ?su ?ef] => pose proof (finish_run t ac ck st su ef) as [Hcf Hgf] end.
  cbv zeta in Hcf, Hgf. set (ef := direct_apply_finish _ _ _ _ _ _) in *. pose proof Hcf as [= Hcf1 Hcf2 Hcf3].
  split; [rewrite <- Hst1, Hcf2, Hcs2; done|]. right. split; [congruence|]. exists x, u, parsed, ids.
  split; [done|]. split; [done|]. split.
  { split; [by rewrite Hcf1, Hcs1, Hchc|]. intros st. rewrite Hcf2, Hcs2. apply Hsc. }
  split; [intros st; rewrite Hcf2, Hcs2; apply Hexc|]. split; [done|].
  unfold gauges in Hgf, Hgas, Hgac, Hg2, Hg1. injection Hgf as -> -> -> ->. injection Hgas as _ Hbk _ Hct. injection Hgac as _ Hbk' _ Hct'.
  injection Hg2 as _ Hbk2 _ Hct2. injection Hg1 as _ Hbk1 _ Hct1. split; [done|]. split; [done|].
  split; [rewrite Hbk, Hbk', Hbk2, Hbk1, Hkh; done|]. split; [congruence|done].
Qed.

Lemma applied_core l b e e1 r e' : core e1 = core e → gauges e1 = gauges e → applied l b e1 r e' → applied l b e r e'.
Proof.
  intros [= H1 H2 H3] [= Hg1 Hg2 Hg3 Hg4] [Hgr Hres]. split; [by rewrite <- H2|]. destruct Hres as [?|[Hf Hres]]; [by left|right]. split; [done|].
  destruct r as [sum|m].
  - destruct Hres as (x & u & pb & ids & ?). exists x, u, pb, ids. by rewrite <- H2, <- Hg2, <- Hg4.
  - destruct Hres as (? & ? & ?). split; [done|]. split; [by rewrite <- H1|]. unfold gauges. by rewrite <- Hg1, <- Hg2, <- Hg3, <- Hg4.
Qed.

Lemma mutation_allowed_run e r e' : mutation_allowed e = Some (r, e') →
  e' = e ∧ r = match se_persistence_fault e with Some _ => Err STORAGE_PERSISTENCE_FAULT_ERR | None => Ok () end.
Proof. by intros [= <- <-]. Qed.

Lemma resolve_core target n e r e' : resolve_canonical_apply_target target n e = Some (r, e') → e' = e.
Proof.
  unfold resolve_canonical_apply_target. destruct target as [t|]; [by intros [= _ <-]|]. unfold eng_read_opt.
  destruct (target_context_for_candidate _ _ _ _); [|done]. by intros [= _ <-].
Qed.

Lemma apply_applied l e b times target r e' : synced l e → se_persistence_fault e = None → len b ≤ isize_max →
  apply_block_with_target b times target e = Some (r, e') → clash ((block_of <$> l) ++ [b]) ∨ applied l b e r e'.
Proof.
  intros Hs Hf Hb. unfold apply_block_with_target. intros H.
  eng_inv H; [by right; apply mutation_allowed_run in He as [-> _]; apply applied_err|]. apply mutation_allowed_run in He as [-> _].
  eng_inv H; injection He as Hp <-; [right; by apply applied_err|]. rename a0 into parsed.
  assert (parse_block_bytes b = Ok parsed) as Hpb by (by apply map_err_Ok in Hp).
  eng_inv H; injection He as Hh <-; [right; by apply applied_err|]. apply map_err_Ok in Hh. rewrite (parsed_block_hash b parsed Hb Hpb) in Hh. injection Hh as <-.
  eng_inv H; injection He as Hn <-; [right; by apply applied_err|].
  assert (a0 = next_height (se_chain_state e)) as ->.
  { unfold next_height. destruct (ch_has_tip _); [|by injection Hn]. unfold checked_add in Hn. destruct (_ <=? _) in Hn; [|done]. by injection Hn. }
  eng_inv H; apply resolve_core in He as ->; [right; by apply applied_err|]. rename a0 into expected.
  eng_inv H.
  { right. destruct times; [done|]. injection He as _ <-. by apply applied_err. }
  assert (e0 = e) as -> by (destruct times; by injection He). rename a0 into derived. clear He.
  eng_inv H; [done|]. injection He as <- <-. set (clock := default no_clock _) in *. set (e1 := set_clocks _ e) in *.
  eng_inv H; [done|]. injection He as <- <-. eng_inv H; [done|]. injection He as <- <-. eng_inv H; [done|]. injection He as <- <-.
  replace (sha3_256 (pb_header_bytes parsed)) with (hash_of b) in H by (unfold hash_of; by rewrite Hpb).
  assert (core e1 = core e ∧ gauges e1 = gauges e) as [Hc Hg] by done.
  destruct (apply_body_applied l e1 b parsed
    (mkBlockInputs b expected (match times with Some _ => times | None => derived end) (cfg_chain_id (se_cfg e1))
       (fst <$> cfg_suite_context (se_cfg e1)) (snd <$> cfg_suite_context (se_cfg e1)))
    (pv_shadow_active (ck_now clock) e1) clock r e') as [?|Ha]; [by eapply synced_core|done|done|done|done|exact H|by left|right].
  by eapply applied_core.
Qed.

Lemma apply_block_applied l e b times r e' : synced l e → se_persistence_fault e = None → len b ≤ isize_max →
  apply_block b times e = Some (r, e') → clash ((block_of <$> l) ++ [b]) ∨ applied l b e r e'.
Proof. apply apply_applied. Qed.
End apply.

(** ** Disconnecting a block *)

Section disconnect.
Context `{HS : Sha3} `{HO : OpenSsl} `{BU : BigUintBytes} `{HX : Hex} `{HU : UndoJson} `{HE : EnvelopeJson} `{HJ : StateJson}.
Implicit Types (e : SyncEngine) (l : list (BlockInputs * BlockUndo)).

(** What is prepared for the block [r] at a height. *)
Record prepared_for (r : BlockInputs * BlockUndo) (p : PreparedDisconnect) : Prop := mkPreparedFor {
  pf_hash : vs_lookup_hash (pd_stored p) = input_hash r;
  pf_bytes : vs_block_bytes (pd_stored p) = bi_bytes r.1;
  pf_parsed : parse_block_bytes (bi_bytes r.1) = Ok (vs_parsed (pd_stored p));
  pf_small : len (bi_bytes r.1) ≤ isize_max;
  pf_undo : pd_undo p = r.2;
  pf_height : bu_block_height r.2 = pd_tip_height p }.

Lemma prepare_kept st r height p : kept st r → prepare_disconnect st height (input_hash r) = Ok p →
  prepared_for r p ∧ pd_tip_height p = height.
Proof.
  intros [Hb _ Hu]. unfold prepare_disconnect. intros H. apply bind_Ok in H as (stored & Hl & H). apply map_err_Ok, load_stored_Ok in Hl.
  apply bind_Ok in H as (undo & Hu' & H). rewrite Hu in Hu'. injection Hu' as <-.
  destruct (negb _) eqn:Hh; [done|]. apply negb_false_iff, Z.eqb_eq in Hh. apply bind_Ok in H as (ts & _ & [= <-]).
  destruct Hl as [Hlk Hf Hsz Hp Hhash _]. rewrite Hb in Hf. injection Hf as Hbytes. rewrite <- Hbytes in *. split; [|done].
  by split; cbn; try (by apply block_size_small).
Qed.

Lemma disconnect_verified_eq stored b undo s : len b ≤ isize_max → parse_block_bytes b = Ok (vs_parsed stored) →
  vs_lookup_hash stored = hash_of b → disconnect_verified_stored_block stored undo s = disconnect_block b undo s.
Proof.
  intros Hb Hp Hh. unfold disconnect_verified_stored_block, disconnect_block. rewrite Hp, Hh. cbn [stringify map_err].
  cbn [mbind result_bind]. rewrite (parsed_block_hash b _ Hb Hp). cbn [map_err mbind result_bind].
  replace (hash_of b) with (sha3_256 (pb_header_bytes (vs_parsed stored))) by (unfold hash_of; by rewrite Hp). reflexivity.
Qed.

Definition exact l e : Prop := ∀ st, se_block_store e = Some st → index_list st = hashes l.

(** What a disconnection that fails without a fault leaves: the old chain, or
    the chain without the block when the index could not be put back. *)
Definition disconnected_from l0 r e (res : nres ChainStateDisconnectSummary) e' : Prop :=
  store_grows (se_block_store e) (se_block_store e') ∧
  (faulted e' ∧ (∃ m, res = Err m)
   ∨ se_persistence_fault e' = None ∧
     match res with
     | Ok _ => synced l0 e' ∧ exact l0 e'
     | Err _ => (unchanged (l0 ++ [r]) e e' ∧ exact (l0 ++ [r]) e') ∨ (synced l0 e' ∧ exact l0 e')
     end).

(** The end of a disconnection that latches a fault. *)
Lemma post_fail {A} error reload_store reload_chain (f : SyncEngine → SyncEngine) e (r : nres A) e' :
  is_atomic_write_post_commit error = true → (∀ e1, se_persistence_fault (f e1) = se_persistence_fault e1) →
  (∀ e1, se_block_store (f e1) = se_block_store e1) →
  (m ← handle_persistence_error error reload_store reload_chain; _ ← eng_do f; eng_fail m) e = Some (r, e') →
  store_grows (se_block_store e) (se_block_store e') ∧ faulted e' ∧ ∃ m, r = Err m.
Proof.
  intros Hp Hf Hs. destruct (handle_post error reload_store reload_chain e Hp) as (m & e1 & He & Hfe & Hg).
  unfold mbind, eng_bind. rewrite He. intros [= <- <-]. rewrite Hs. split; [done|]. split; [|by eexists]. unfold faulted. by rewrite Hf.
Qed.
Lemma post_fail_id {A} error reload_store reload_chain e (r : nres A) e' : is_atomic_write_post_commit error = true →
  (m ← handle_persistence_error error reload_store reload_chain; eng_fail m) e = Some (r, e') →
  store_grows (se_block_store e) (se_block_store e') ∧ faulted e' ∧ ∃ m, r = Err m.
Proof. intros Hp H. by apply (post_fail error reload_store reload_chain id e r e' Hp). Qed.

(** Appending the block again to the index of the others. *)
Lemma rollback_step l0 r st e res e' n : se_block_store e = Some st → store_synced l0 st → index_list st = hashes l0 → kept st r →
  len (input_hash r) = 32 → n = len l0 → run_store (store_rollback n [hex_encode (input_hash r)]) e = Some (res, e') →
  ∃ r' st' faults, res = Ok (Some r') ∧ e' = set_store (Some st') faults e ∧ files_grow st st' ∧
    match r' with
    | Ok _ => store_synced (l0 ++ [r]) st' ∧ index_list st' = hashes (l0 ++ [r])
    | Err error => is_atomic_write_post_commit error = true ∨ store_synced l0 st' ∧ index_list st' = hashes l0
    end.
Proof.
  intros Hst Hs Hx Hk Hh -> H. destruct (run_store_Some (store_rollback (len l0) [hex_encode (input_hash r)]) e st Hst) as (r' & io & Ho & Hr).
  rewrite Hr in H. injection H as <- <-. exists r', (io_store io), (io_faults io). split; [done|]. split; [done|].
  pose proof Hs as (Hi & _ & Hks). apply (on_index_ok (Rollback (len l0) [input_hash r])) in Ho as (Hg & _ & Ha); [|done|by repeat constructor|lia].
  cbn [io_store] in *. split; [done|]. destruct r' as [[]|error]; cbn [index_after] in Ha.
  - destruct Ha as (Hi' & Ht & _). cbn [op_target] in Ht. rewrite Hx, hashes_length, Z.min_id, take_ge in Ht by (unfold hashes; rewrite length_fmap; lia).
    assert (index_list (io_store io) = hashes (l0 ++ [r])) as Hx' by (rewrite Ht; unfold hashes; by rewrite fmap_app).
    split; [|done]. split; [done|]. split; [exists []; by rewrite app_nil_r|].
    apply Forall_app. split; [eapply list.Forall_impl; [exact Hks|]; intros ?; by apply kept_grows|]. constructor; [by eapply kept_grows|constructor].
  - destruct Ha as [?|Ha]; [by left|right]. split; [by eapply same_index|]. unfold index_list in *. by rewrite Ha.
Qed.

Lemma input_hash_len r pb : parse_block_bytes (bi_bytes r.1) = Ok pb → len (input_hash r) = 32.
Proof. intros H. rewrite (input_hash_parsed r pb H), sha3_256_length. done. Qed.

(** The save failed, and the index is put back or not. *)
Lemma unsaved_step l0 r e0 e s0 ts err (res : nres ChainStateDisconnectSummary) e' st pb :
  synced (l0 ++ [r]) e0 → parse_block_bytes (bi_bytes r.1) = Ok pb →
  se_block_store e = Some st → store_synced l0 st → index_list st = hashes l0 → kept st r →
  se_chain_state e = s0 → replay l0 s0 → store_grows (se_block_store e0) (se_block_store e) → se_persistence_fault e = None →
  gauges e = gauges e0 → rs_canonical_len (capture_rollback_state e0) = len (l0 ++ [r]) →
  disconnect_unsaved (capture_rollback_state e0) (input_hash r) ts err e = Some (res, e') → disconnected_from l0 r e0 res e'.
Proof.
  intros Hs0 Hp Hst Hsy Hx Hk Hch Hr Hgr Hf Hga Hlen. unfold disconnect_unsaved. rewrite Hlen. intros H.
  eng_inv H; (eapply (rollback_step l0 r st) in He as (r' & st' & fs & Hr' & -> & Hg & Hres);
    [|done|done|done|done|by eapply input_hash_len|rewrite length_app; cbn; lia]); [done|]. injection Hr' as ->.
  set (e1 := set_store (Some st') fs e) in *.
  assert (store_grows (se_block_store e0) (se_block_store e1)) as Hg1 by (etransitivity; [exact Hgr|]; by rewrite Hst).
  destruct r' as [[]|error].
  - injection H as <- <-. split; [done|]. right. split; [done|]. left. destruct Hres as [Hs' Hx']. split.
    + split; [split; [apply Hs0|]; intros st0 [= <-]; done|]. split; [done|]. unfold gauges in *. cbn. injection Hga as _ _ -> ->. done.
    + intros st0 [= <-]. done.
  - destruct (is_atomic_write_post_commit error) eqn:Hpost.
    + apply post_fail in H as (Hg2 & ? & ?); [|done..]. split; [by etransitivity|by left].
    + destruct Hres as [?|[Hs' Hx']]; [congruence|]. injection H as <- <-. split; [done|]. right. split; [done|]. right. split.
      * split; [cbn; by rewrite Hch|]. intros st0 [= <-]. done.
      * intros st0 [= <-]. done.
Qed.

Lemma disconnect_step l0 r p e st res e' : synced (l0 ++ [r]) e → se_persistence_fault e = None → se_block_store e = Some st →
  index_list st = hashes (l0 ++ [r]) → prepared_for r p → pd_tip_height p = len l0 →
  disconnect_prepared_tip p e = Some (res, e') → disconnected_from l0 r e res e'.
Proof.
  intros Hs Hf Hst Hx [Hph Hpb Hpp Hsm Hpu Hpht] Hht H. pose proof Hs as [Hr Hss]. destruct r as [x undo]. cbn [fst snd] in *.
  destruct (replay_disconnect l0 x undo _ Hr) as (s0 & pb & ds & Hr0 & Hp & _ & Hd & _). rewrite Hpp in Hp. injection Hp as <-.
  pose proof (replay_replayed _ _ Hr) as Hrp.
  assert (ch_height (se_chain_state e) = len l0) as Hch.
  { pose proof (rp_height _ _ Hrp) as Hn. pose proof (rp_tip _ _ Hrp) as Ht. unfold next_height in Hn.
    rewrite length_app in Hn, Ht. rewrite bool_decide_eq_false_2 in Ht by (cbn; lia). rewrite Ht in Hn. cbn in Hn. lia. }
  unfold disconnect_prepared_tip in H. eng_inv H; [done|]. injection He as <- <-. rewrite Hch, Hht, Z.eqb_refl in H. cbn [negb] in H.
  eng_inv H; [done|]. injection He as <- <-.
  rewrite <- (disconnect_verified_eq (pd_stored p) (bi_bytes x) undo (se_chain_state e) Hsm Hpp Hph) in Hd.
  eng_inv H; rewrite Hpu, Hd in He; [done|]. injection He as <- <-. set (e1 := set_chain s0 e) in *.
  assert (rs_canonical_len (capture_rollback_state e) = len (l0 ++ [(x, undo)])) as Hlen.
  { cbn. unfold store_canonical_len. rewrite Hst, canonical_len_index by apply (Hss st Hst). by rewrite Hx, hashes_length. }
  rewrite Hlen in H. replace (Z.max 0 (len (l0 ++ [(x, undo)]) - 1)) with (len l0) in H by (rewrite length_app; cbn; lia).
  pose proof (Hss st Hst) as Hsy. pose proof (store_synced_shrink _ _ _ Hsy) as Hsy0.
  assert (kept st (x, undo)) as Hk by (destruct Hsy as (_ & _ & [_ Hk]%Forall_app); by apply list.Forall_cons in Hk as [? _]).
  eng_inv H; (eapply (truncate_step l0 st) in He as (r' & st' & fs & Hr' & -> & Hg & Hres); [|done|done|lia]); [done|]. injection Hr' as ->.
  set (e2 := set_store (Some st') fs e1) in *.
  assert (store_grows (se_block_store e) (se_block_store e2)) as Hg2 by (by rewrite Hst).
  destruct r' as [[]|error].
  - destruct Hres as [Hsy' Hx']. rewrite Hx in Hx'. replace (take (Z.to_nat (len l0)) (hashes (l0 ++ [(x, undo)]))) with (hashes l0) in Hx'
      by (unfold hashes; rewrite fmap_app, Nat2Z.id, <- (length_fmap input_hash l0), take_app_length; done).
    eng_inv H; [done|]. injection He as <- <-.
    eng_inv H.
    { destruct (cfg_chain_state_path _); [|done]. destruct (save_atomic_run s1 e2) as (? & ? & ? & Hsv). by rewrite Hsv in He. }
    assert (∃ saved fs', e0 = set_saved saved fs' e2) as (saved & fs' & ->).
    { destruct (cfg_chain_state_path _) as [path|]; [|injection He as _ <-; exists (se_saved e2), (se_faults e2); done].
      destruct (save_atomic_run path e2) as (r2 & sv & fs2 & Hsv). rewrite Hsv in He. injection He as _ <-. by exists sv, fs2. }
    clear He. set (e3 := set_saved saved fs' e2) in *. destruct a as [[]|error].
    + injection H as <- <-. split; [done|]. right. split; [done|]. split; [split; [done|]; intros st0 [= <-]; done|]. intros st0 [= <-]. done.
    + destruct (is_atomic_write_post_commit error) eqn:Hpost.
      * apply post_fail_id in H as (Hg3 & ? & ?); [|done]. split; [by etransitivity|by left].
      * rewrite Hph in H. eapply (unsaved_step l0 (x, undo) e e3) in H; try done. by eapply kept_grows.
  - destruct (is_atomic_write_post_commit error) eqn:Hpost.
    + apply post_fail_id in H as (Hg3 & ? & ?); [|done]. split; [by etransitivity|by left].
    + destruct Hres as [?|[_ Hix]]; [congruence|]. injection H as <- <-. split; [done|]. right. split; [done|]. left.
      assert (index_list st' = hashes (l0 ++ [(x, undo)])) as Hx' by (unfold index_list in *; by rewrite Hix).
      split; [split; [split; [done|]|]|].
      * intros st0 [= <-]. by eapply same_index.
      * done.
      * intros st0 [= <-]. done.
Qed.
End disconnect.

(** ** Packets of disconnections, and branches *)

Section packets.
Context `{HS : Sha3} `{HO : OpenSsl} `{BU : BigUintBytes} `{HX : Hex} `{HU : UndoJson} `{HE : EnvelopeJson} `{HJ : StateJson}.
Implicit Types (e : SyncEngine) (l : list (BlockInputs * BlockUndo)).

Lemma prepared_height l0 r p s : replay (l0 ++ [r]) s → prepared_for r p → pd_tip_height p = len l0.
Proof.
  intros Hr Hp. destruct (replay_block _ _ (length l0) r Hr) as (_ & Hh & _); [by rewrite lookup_app_r, Nat.sub_diag by lia|].
  by rewrite <- (pf_height _ _ Hp).
Qed.

Lemma disconnect_list_step packet : ∀ l0 l1 e st res e', synced (l0 ++ l1) e → se_persistence_fault e = None → se_block_store e = Some st →
  index_list st = hashes (l0 ++ l1) → Forall2 prepared_for (reverse l1) packet → disconnect_prepared_list packet e = Some (res, e') →
  store_grows (se_block_store e) (se_block_store e') ∧
  (faulted e' ∧ (∃ m, res = Err m)
   ∨ se_persistence_fault e' = None ∧
     match res with
     | Ok stored => stored = pd_stored <$> packet ∧ synced l0 e' ∧ exact l0 e'
     | Err _ => ∃ l1', l1' `prefix_of` l1 ∧ synced (l0 ++ l1') e' ∧ exact (l0 ++ l1') e'
     end).
Proof.
  induction packet as [|p packet IH]; intros l0 l1 e st res e' Hs Hf Hst Hx Hp H; cbn [disconnect_prepared_list] in H.
  - apply Forall2_nil_inv_r in Hp. injection H as <- <-. apply (f_equal reverse) in Hp. rewrite reverse_involutive in Hp. subst l1.
    rewrite app_nil_r in *. split; [done|]. right. split; [done|]. split; [done|]. split; [done|]. intros st0. rewrite Hst. by intros [= <-].
  - apply Forall2_cons_inv_r in Hp as (r & l1r & Hpr & Hps & Hrev). apply (f_equal reverse) in Hrev. rewrite reverse_involutive, reverse_cons in Hrev.
    subst l1. set (l1 := reverse l1r) in *. rewrite app_assoc in *. pose proof (sy_replay _ _ Hs) as Hr.
    pose proof (prepared_height _ _ _ _ Hr Hpr) as Hht.
    eng_inv H; (eapply (disconnect_step (l0 ++ l1) r) in He as (Hg & Hres); [|done..]).
    + split; [done|]. destruct Hres as [[Hfa _]|[Hf' Hres]]; [left; split; [done|by eexists]|right]. split; [done|].
      destruct Hres as [[(Hs' & _) Hx']|[Hs' Hx']]; [exists (l1 ++ [r])|exists l1; split; [by eexists|]]; rewrite ?app_assoc; done.
    + destruct Hres as [[_ [m [=]]]|(Hf' & Hs' & Hx')].
      assert (∃ st', se_block_store e0 = Some st') as [st' Hst'].
      { rewrite Hst in Hg. destruct (se_block_store e0) as [st'|]; [by eexists|done]. }
      assert (Forall2 prepared_for (reverse l1) packet) as Hps' by (unfold l1; by rewrite reverse_involutive).
      eng_inv H; (eapply (IH l0 l1 e0 st') in He as (Hg2 & Hres); [|done|done|done|by apply Hx'|done]).
      * split; [by etransitivity|]. destruct Hres as [[Hfa _]|[? (l1' & Hpre & ? & ?)]]; [left; split; [done|by eexists]|right]. split; [done|].
        exists l1'. split; [by apply prefix_app_r|]. done.
      * injection H as <- <-. split; [by etransitivity|]. destruct Hres as [[_ [m [=]]]|(? & -> & ? & ?)]. right. done.
Qed.

Lemma try_fold_collects {A B} (P : A → B → Prop) (g : list B → A → nres (list B)) xs acc res :
  (∀ acc x r, g acc x = Ok r → ∃ y, P x y ∧ r = acc ++ [y]) → try_fold g acc xs = Ok res → ∃ ys, res = acc ++ ys ∧ Forall2 P xs ys.
Proof.
  intros Hg. revert acc; induction xs as [|x xs IH]; intros acc H; cbn [try_fold] in H.
  - injection H as <-. exists []. split; [by rewrite app_nil_r|constructor].
  - apply bind_Ok in H as (acc' & Hx & H). apply Hg in Hx as (y & Hy & ->). apply IH in H as (ys & -> & Hys).
    exists (y :: ys). split; [by rewrite <- app_assoc|by constructor].
Qed.

(** The tips agree: the index ends with the tip of the chain. *)
Lemma current_tip_exact l e height h : synced l e → current_disconnect_tip e = Ok (height, h) →
  ∃ st, se_block_store e = Some st ∧ index_list st = hashes l ∧ height = len l - 1 ∧ l ≠ [].
Proof.
  intros Hs H. pose proof (replay_replayed _ _ (sy_replay _ _ Hs)) as Hrp. unfold current_disconnect_tip in H.
  apply bind_Ok in H as (st & Hst%ok_or_Ok & H). apply bind_Ok in H as ([th tx] & Ht%ok_or_Ok & H).
  destruct (_ || _) eqn:E; [done|]. injection H as -> ->. apply orb_false_iff in E as [[Eh Ehh]%orb_false_iff _].
  apply negb_false_iff in Eh. apply negb_false_iff, Z.eqb_eq in Ehh.
  exists st. split; [done|]. destruct (sy_store _ _ Hs st Hst) as (Hi & (rest & Hx) & _).
  pose proof (rp_height _ _ Hrp) as Hn. pose proof (rp_tip _ _ Hrp) as Htip. unfold next_height in Hn. rewrite Eh in Hn, Htip.
  assert (l ≠ []) as Hne by (intros ->; done).
  assert (height = len (index_list st) - 1) as Hhl.
  { unfold bs_tip in Ht. unfold index_list. destruct (bool_decide _); [done|]. cbn in Ht. destruct (_ !! _) in Ht; [|done]. by injection Ht. }
  assert (rest = []) as ->.
  { apply len_0_nil. rewrite Hx, length_app in Hhl. pose proof (hashes_length l). lia. }
  rewrite app_nil_r in Hx. split; [done|]. split; [|done]. rewrite Hhl, Hx, hashes_length. done.
Qed.

Lemma prepare_packet_for l e state anc packet state' : synced l e → 0 ≤ anc →
  prepare_canonical_disconnect_packet state anc e = Ok (packet, state') →
  ∃ st, se_block_store e = Some st ∧ index_list st = hashes l
    ∧ Forall2 prepared_for (reverse (drop (Z.to_nat (anc + 1)) l)) packet.
Proof.
  intros Hs Ha. unfold prepare_canonical_disconnect_packet. intros H. apply bind_Ok in H as ([] & _ & H).
  apply bind_Ok in H as ([height h] & Ht & H). destruct (current_tip_exact _ _ _ _ Hs Ht) as (st & Hst & Hx & Hh & Hne).
  exists st. split; [done|]. split; [done|]. destruct (height <=? anc) eqn:Hle.
  { injection H as <- _. rewrite drop_ge by lia. constructor. }
  rewrite Hst in H. cbn [ok_or] in H. apply bind_Ok in H as (st' & [= <-] & H). apply bind_Ok in H as (pk & Hpk & H).
  apply bind_Ok in H as (state2 & _ & [= <- _]).
  assert (∀ k r, index_list st !! k = Some r → ∃ x, l !! k = Some x ∧ r = input_hash x) as Hlook.
  { intros k r Hk. rewrite Hx in Hk. unfold hashes in Hk. rewrite list_lookup_fmap in Hk. destruct (l !! k) as [x|]; [|done].
    injection Hk as <-. by exists x. }
  apply (try_fold_collects (λ h p, ∃ r, l !! Z.to_nat h = Some r ∧ prepared_for r p)) in Hpk as (ys & -> & Hys).
  2: { intros acc k pk' Hk. apply bind_Ok in Hk as (hk & Hhk%ok_or_Ok & Hk). apply bind_Ok in Hk as (p & Hp & [= <-]). exists p. split; [|done].
       unfold canonical_hash in Hhk. destruct (_ <=? k) in Hhk; [done|]. apply Hlook in Hhk as (x & Hlx & ->). exists x. split; [done|].
       destruct (sy_store _ _ Hs st Hst) as (_ & _ & Hks). eapply prepare_kept; [|exact Hp].
       eapply list.Forall_forall; [exact Hks|]. by eapply list_elem_of_lookup_2. }
  assert (Forall2 (λ k r, l !! Z.to_nat k = Some r) (reverse (seqZ (anc + 1) (height - anc))) (reverse (drop (Z.to_nat (anc + 1)) l))) as Hseq.
  { apply Forall2_reverse, Forall2_same_length_lookup. split; [rewrite length_seqZ, length_drop; lia|].
    intros i k r [-> _]%lookup_seqZ Hi. rewrite lookup_drop in Hi. rewrite <- Hi. f_equal. lia. }
  cbn [app]. revert Hys Hseq. generalize (reverse (seqZ (anc + 1) (height - anc))) (reverse (drop (Z.to_nat (anc + 1)) l)).
  clear. intros ks rs Hys. revert rs. induction Hys as [|k p ks ys (r & Hr & Hp) _ IH]; intros rs Hrs.
  - apply Forall2_nil_inv_l in Hrs as ->. constructor.
  - apply Forall2_cons_inv_l in Hrs as (r' & rs' & Hr' & Hrs' & ->). constructor; [|by apply IH]. congruence.
Qed.

Definition small_row (item : ReorgBranchBlock) : Prop := len (rb_block_bytes item) ≤ isize_max.

(** The rows of a branch that were applied one after the other. *)
Lemma apply_branch_step anc branch : ∀ index l last applied e res e', synced l e → se_persistence_fault e = None →
  Forall small_row branch → apply_branch anc index branch last applied e = Some (res, e') →
  clash ((block_of <$> l) ++ (rb_block_bytes <$> branch)) ∨ store_grows (se_block_store e) (se_block_store e') ∧
  (faulted e' ∧ (∃ m, res = Err m)
   ∨ se_persistence_fault e' = None ∧ ∃ l2, synced (l ++ l2) e' ∧
     match res with
     | Ok (last', applied') => block_of <$> l2 = rb_block_bytes <$> branch
         ∧ (is_Some (se_block_store e) → exact l e → exact (l ++ l2) e')
         ∧ ab_hash <$> applied' = (ab_hash <$> applied) ++ (hash_of <$> (rb_block_bytes <$> branch))
         ∧ (branch = [] → last' = last ∧ core e' = core e ∧ gauges e' = gauges e)
         ∧ (branch ≠ [] → (∃ sum, last' = Some sum ∧ ks_block_height sum = len (l ++ l2) - 1) ∧ se_reorg_count e' = se_reorg_count e)
     | Err _ => True
     end).
Proof.
  induction branch as [|item branch IH]; intros index l last applied e res e' Hs Hf Hsm H; cbn [apply_branch] in H.
  { injection H as <- <-. right. split; [done|]. right. split; [done|]. exists []. rewrite app_nil_r. split; [done|].
    split; [done|]. split; [done|]. split; [cbn; by rewrite app_nil_r|]. by split. }
  apply list.Forall_cons in Hsm as [Hi Hsm]. eng_inv H; unfold apply_branch_row in He.
  - apply eng_bind_inv in He as [(s' & He0 & [= <-])|(a & e0 & He0 & He)].
    { right. unfold eng_read_opt in He0. destruct (match branch_row_height _ _ with Ok _ => _ | Err _ => _ end); [|done]. injection He0 as _ <-.
      split; [done|]. right. split; [done|]. exists []. by rewrite app_nil_r. }
    assert (e0 = e) as -> by (unfold eng_read_opt in He0; destruct (match branch_row_height _ _ with Ok _ => _ | Err _ => _ end); [|done]; by injection He0).
    apply (apply_applied l) in He as [Hcl|(Hg & Hres)]; [left; eapply clash_mono; [|exact Hcl]; set_solver +| |done..]. right. split; [done|].
    destruct Hres as [[? _]|[? (? & _)]]; [left; split; [done|by eexists]|right]. split; [done|]. exists []. by rewrite app_nil_r.
  - apply eng_bind_inv in He as [(s' & He0 & [=])|(a' & e1 & He0 & He)].
    assert (e1 = e) as -> by (unfold eng_read_opt in He0; destruct (match branch_row_height _ _ with Ok _ => _ | Err _ => _ end); [|done]; by injection He0).
    apply (apply_applied l) in He as [Hcl|(Hg & Hres)]; [left; eapply clash_mono; [|exact Hcl]; set_solver +| |done..]. rename a into summary.
    destruct Hres as [[_ [m [=]]]|(Hf0 & x & u & pb & ids & Hx & Hpb & Hs0 & Hex & Hkh & _ & _ & _ & Hct & _ & Hrep)].
    apply (IH (index + 1) (l ++ [(x, u)])) in H as [Hcl|(Hg2 & Hres)]; [left; eapply clash_mono; [|exact Hcl]| |done..].
    { rewrite fmap_app, <- app_assoc. unfold block_of at 2. cbn [fmap list_fmap fst app]. by rewrite Hx. }
    right. split; [by etransitivity|].
    destruct Hres as [?|(Hf' & l2 & Hs' & Hres)]; [by left|right]. split; [done|]. exists ((x, u) :: l2).
    rewrite (app_assoc l [(x, u)] l2 : l ++ (x, u) :: l2 = _). split; [done|]. destruct res as [[last' applied']|m]; [|done].
    destruct Hres as (Hb2 & Hex2 & Hap & Hnil & Hcons). rewrite !fmap_cons. split; [by rewrite Hb2; unfold block_of; cbn; rewrite Hx|]. split.
    { intros [st Hst] Hl. destruct (Hex st Hst (Hl st Hst)) as (st' & Hst' & Hx'). apply Hex2; [by eexists|].
      intros st0. rewrite Hst'. by intros [= <-]. }
    split. { rewrite Hap, Hrep, fmap_app, <- app_assoc. done. }
    split; [done|]. intros _. destruct branch as [|i2 branch].
    + destruct (Hnil eq_refl) as (-> & _ & Hga). assert (l2 = []) as -> by (by destruct l2). split.
      * exists summary. split; [done|]. rewrite Hkh, app_nil_r, length_app. cbn. lia.
      * injection Hga as _ _ _ ->. done.
    + destruct (Hcons ltac:(done)) as [Hlast Hc2]. split; [done|]. by rewrite Hc2.
Qed.

(** Rolling back to the chain before a reorganization. *)
Lemma reorg_rollback_step l0 l1 l' anc e0 e o e' : synced (l0 ++ l1) e0 → exact (l0 ++ l1) e0 → synced (l0 ++ l') e →
  se_persistence_fault e = None → store_grows (se_block_store e0) (se_block_store e) → len l0 = anc + 1 → 0 ≤ anc → anc + 1 ≤ u64_max →
  rollback_apply_block (capture_reorg_rollback_state anc e0) e = Some (o, e') → ∃ o', o = Ok o' ∧
  store_grows (se_block_store e) (se_block_store e') ∧
  (faulted e' ∨ se_persistence_fault e' = None ∧
     (unchanged (l0 ++ l1) e0 e' ∧ exact (l0 ++ l1) e' ∨ (∃ m, o' = Some m) ∧ synced (l0 ++ l') e')).
Proof.
  intros Hs0 Hx0 Hs Hf Hg Hanc Ha0 Hau H. unfold rollback_apply_block in H. eng_inv H; [done|]. injection He as <- <-. rewrite Hf in H. cbn [is_none negb] in H.
  assert (saturating_add u64_max anc 1 = anc + 1) as Hsat by (unfold saturating_add; lia).
  (* the state and the save that follow the index *)
  assert (∀ e1, store_grows (se_block_store e) (se_block_store e1) → se_persistence_fault e1 = None →
    all_synced (l0 ++ l1) e1 → exact (l0 ++ l1) e1 →
    (_ ← eng_do (rollback_all (capture_reorg_rollback_state anc e0));
      path ← eng_get (λ e, cfg_chain_state_path (se_cfg e));
      match path with
      | None => mret None
      | Some path =>
          saved ← save_atomic path;
          match saved with
          | Ok _ => mret None
          | Err error =>
              if is_atomic_write_post_commit error then message ← handle_persistence_error error false true; mret (Some message)
              else mret (Some ("chain_state save on rollback failed (canonical already rolled back, may require repair): "
                               +:+ display_write_error error)%string)
          end
      end) e1 = Some (o, e') → ∃ o', o = Ok o' ∧ store_grows (se_block_store e) (se_block_store e') ∧
      (faulted e' ∨ se_persistence_fault e' = None ∧ unchanged (l0 ++ l1) e0 e' ∧ exact (l0 ++ l1) e')) as Htail.
  { intros e1 Hg1 Hf1 Hal Hex Ht. eng_inv Ht; [done|]. injection He as <- <-. set (e2 := rollback_all _ e1) in *.
    assert (unchanged (l0 ++ l1) e0 e2) as Hun by (split; [split; [apply Hs0|exact Hal]|done]).
    eng_inv Ht; [done|]. injection He as <- <-. destruct (cfg_chain_state_path _) as [path|].
    2: { injection Ht as <- <-. eexists. split; [done|]. split; [done|]. by right. }
    destruct (save_atomic_run path e2) as (r2 & sv & fs2 & Hsv). eng_inv Ht; rewrite Hsv in He; [done|]. injection He as <- <-.
    assert (unchanged (l0 ++ l1) e0 (set_saved sv fs2 e2)) as Hun2 by (destruct Hun as (Hsy & ? & ?); split; [by apply (synced_core _ e2)|by split]).
    destruct r2 as [[]|error]; [injection Ht as <- <-; eexists; split; [done|]; split; [done|]; by right|].
    destruct (is_atomic_write_post_commit error) eqn:Hpost.
    - destruct (handle_post error false true (set_saved sv fs2 e2) Hpost) as (m & e3 & He & Hfe & Hg3).
      eng_inv Ht; rewrite He in He0; [done|]. injection He0 as <- <-. injection Ht as <- <-. eexists. split; [done|].
      split; [by etransitivity|by left].
    - injection Ht as <- <-. eexists. split; [done|]. split; [done|]. by right. }
  destruct (se_block_store e) as [st|] eqn:Hst; [destruct (se_block_store e0) as [st0|] eqn:Hst0; [|done]|destruct (se_block_store e0) as [st0|] eqn:Hst0; [done|]].
  2: { eng_inv H; rewrite run_store_None in He by done; [done|]. injection He as <- <-.
       apply Htail in H as (o' & -> & Hg' & Hres); [|by rewrite Hst|done|intros st1; by rewrite Hst|intros st1; by rewrite Hst].
       exists o'. split; [done|]. split; [done|]. destruct Hres as [?|(? & ? & ?)]; [by left|right]. split; [done|]. by left. }
  destruct (sy_store _ _ Hs0 st0 Hst0) as (Hi0 & _ & Hk0). pose proof (Hx0 st0 Hst0) as Hix0.
  destruct (sy_store _ _ Hs st Hst) as (Hi & (rest & Hix) & Hk).
  assert (rs_canonical_removed_suffix (capture_reorg_rollback_state anc e0) = Some (hex_encode <$> hashes l1)) as Hsuf.
  { cbn. rewrite Hst0, Hsat. cbn. f_equal. unfold canonical_suffix_from. pose proof (proj1 (proj1 Hi0)) as Hcan. fold (index_list st0) in Hcan.
    rewrite Hcan, Hix0, length_fmap. unfold hashes at 1 2. rewrite length_fmap, <- fmap_drop, fmap_app.
    rewrite length_app. destruct (_ <=? _) eqn:E.
    - assert (l1 = []) as -> by (apply len_0_nil; lia). done.
    - rewrite drop_app_length' by (rewrite length_fmap; lia). done. }
  rewrite Hsuf in H. assert (Forall (λ h, len h = 32) (hashes l1)) as Hl1.
  { pose proof (proj2 (proj1 Hi0)) as Hall. fold (index_list st0) in Hall. rewrite Hix0 in Hall. unfold hashes in Hall. rewrite fmap_app in Hall.
    by apply Forall_app in Hall as [_ Hall]. }
  change (rs_canonical_len (capture_reorg_rollback_state anc e0)) with (saturating_add u64_max anc 1) in H. rewrite Hsat in H.
  destruct (run_store_Some (store_rollback (anc + 1) (hex_encode <$> hashes l1)) e st Hst) as (r' & io & Hio & Hrun).
  eng_inv H; rewrite Hrun in He; [done|]. injection He as <- <-.
  apply (on_index_ok (Rollback (anc + 1) (hashes l1))) in Hio as (Hgf & _ & Ha); [|done|done|lia]. cbn [io_store] in Hgf, Ha.
  set (e1 := set_store _ _ e) in *. assert (store_grows (se_block_store e) (se_block_store e1)) as Hg1 by (by rewrite Hst).
  destruct r' as [[]|error]; cbn [index_after] in Ha.
  - destruct Ha as (Hi' & Ht & _). cbn [op_target] in Ht.
    assert (index_list (io_store io) = hashes (l0 ++ l1)) as Hix'.
    { rewrite Ht, Hix. unfold hashes. rewrite !fmap_app, !length_app, !length_fmap, Z.min_l by lia.
      rewrite <- app_assoc, take_app_length' by (rewrite length_fmap; lia). done. }
    rewrite <- Hst in Htail. apply Htail in H as (o' & -> & Hg' & Hres); [|done|done| |by intros st1 [= <-]].
    + exists o'. rewrite <- Hst. split; [done|]. split; [done|]. destruct Hres as [?|(? & ? & ?)]; [by left|right]. split; [done|]. by left.
    + intros st1 [= <-]. split; [done|]. split; [exists []; by rewrite app_nil_r|].
      eapply list.Forall_impl; [exact Hk0|]. intros r. apply kept_grows. by etransitivity.
  - destruct (is_atomic_write_post_commit error) eqn:Hpost.
    + destruct (handle_post error true false e1 Hpost) as (m & e2 & He2 & Hfe & Hg2).
      eng_inv H; rewrite He2 in He; [done|]. injection He as <- <-. eng_inv H; [done|]. injection He as <- <-. injection H as <- <-.
      eexists. split; [done|]. rewrite <- Hst. split; [by etransitivity|]. by left.
    + destruct Ha as [?|Ha]; [congruence|]. injection H as <- <-. eexists. split; [done|]. rewrite <- Hst. split; [done|]. right.
      split; [done|]. right. split; [by eexists|]. split; [apply Hs|]. intros st1 [= <-]. by eapply same_index; [apply (sy_store _ _ Hs)| |].
Qed.
End packets.
