(* ===== verification/SyncSafety.v ===== *)
(** * What the engine guarantees

    The engine's operations as the steps of a machine: from a consistent
    engine every step leads to a consistent one, or to one that has latched a
    fault, and a latched fault stops every change. *)

From S2P Require Import Prelude Bytes BTree Errors Constants Crypto WireRead CompactSize TxWire TxCodec Block Merkle Pow Subsidy.
From S2P Require Import Vault Suites Verify SigCache WorkerPool SigQueue Sighash Spend Htlc Stealth CovenantGenesis.
From S2P Require Import UtxoApply UtxoRules UtxoDeferred UtxoLedger BlockParse BlockWeight BlockDa BlockBasic ConnectBlock.
From S2P Require Import NodeText ChainState ChainDisk Undo Chain BlockStore StoreFiles AtomicWrite Headers.
From S2P Require Import Base64 Uint128 StoreEnvelope UndoDisk UndoEnvelope StoreCommit ChainFile Branch PendingOwner StoreOps Replay PvTelemetry.
From S2P Require Import DaComplete SyncEngine SyncReorg SyncState.

(** ** Reorganizing *)

Section reorganize.
Context `{HS : Sha3} `{HO : OpenSsl} `{BU : BigUintBytes} `{HX : Hex} `{HU : UndoJson} `{HE : EnvelopeJson} `{HJ : StateJson}.
Implicit Types (e : SyncEngine) (l : list (BlockInputs * BlockUndo)).

Lemma collect_loop_rows self fuel : ∀ branch seen h rows k anc,
  collect_loop fuel self branch seen h = Some (Ok (rows, k, anc)) →
  find_canonical_height (so_index self) k = Some anc ∧ ∃ more, rows = reverse (branch ++ more) ∧ Forall small_row more
  ∧ (rb_block_bytes <$> more) ⊆ dir_contents (so_blocks self).
Proof.
  induction fuel as [|fuel IH]; intros branch seen h rows k anc H; [done|]. cbn [collect_loop] in H.
  destruct (find_canonical_height (so_index self) h) as [height|] eqn:Hc.
  { injection H as <- <- <-. split; [done|]. exists []. rewrite app_nil_r. split; [done|]. split; [done|apply list_subseteq_nil]. }
  destruct (decide _); [done|]. destruct (load_verified_branch_ancestor self h) as [v|] eqn:Hl; [|done].
  apply load_ancestor_Ok in Hl. apply IH in H as (Hk & more & -> & Hm & Hin). split; [done|].
  exists (row_of v :: more). rewrite <- app_assoc. split; [done|]. split.
  - constructor; [|done]. apply block_size_small, (sb_size _ _ _ Hl).
  - rewrite fmap_cons. intros x [->|Hx]%elem_of_cons; [|by apply Hin]. apply dir_contents_elem. exists h. apply (sb_file _ _ _ Hl).
Qed.

Lemma collected_rows fuel st h b pb rows k anc : len b ≤ isize_max → parse_block_bytes b = Ok pb →
  collect_branch_to_canonical fuel (Some st) h b = Some (Ok (rows, k, anc)) →
  find_canonical_height (so_index st) k = Some anc ∧ Forall small_row rows
  ∧ (rb_block_bytes <$> rows) ⊆ dir_contents (so_blocks st) ++ [b]
  ∧ ∃ more, rows = more ++ [branch_row h pb b].
Proof.
  intros Hb Hp. unfold collect_branch_to_canonical. cbn [ok_or]. run_bind. rewrite Hp. cbn [stringify map_err]. run_bind. intros H.
  apply collect_loop_rows in H as (Hk & more & -> & Hm & Hin). split; [done|]. rewrite reverse_app. split; [|split].
  - apply Forall_app. split; [by apply Forall_reverse|]. by repeat constructor.
  - rewrite fmap_app, fmap_reverse. intros x [Hx|Hx]%elem_of_app; apply elem_of_app; [left; apply Hin; by rewrite elem_of_reverse in Hx|by right].
  - by exists (reverse more).
Qed.

(** A failed reorganization: the old chain, or a message that asks for repair
    and a chain that forks off the old one. *)
Definition reorg_failed l0 l1 e (m : string) e' : Prop :=
  store_grows (se_block_store e) (se_block_store e') ∧
  (faulted e' ∨ se_persistence_fault e' = None ∧
     (unchanged (l0 ++ l1) e e' ∧ exact (l0 ++ l1) e'
      ∨ (∃ err why, m = err_with_rollback err (Some why)) ∧ ∃ l', synced (l0 ++ l') e')).

Lemma abort_reorg_step {A} l0 l1 anc e0 started err e (r : nres A) e' :
  synced (l0 ++ l1) e0 → exact (l0 ++ l1) e0 → len l0 = anc + 1 → 0 ≤ anc → anc + 1 ≤ u64_max →
  store_grows (se_block_store e0) (se_block_store e) →
  faulted e ∨ (se_persistence_fault e = None ∧ ∃ l', synced (l0 ++ l') e) →
  abort_reorg (capture_reorg_rollback_state anc e0) (se_chain_state e0) started err e = Some (r, e') →
  ∃ m, r = Err m ∧ reorg_failed l0 l1 e0 m e'.
Proof.
  intros Hs0 Hx0 Hl Ha Hau Hg Hmid H. unfold abort_reorg in H.
  assert (∀ started proven er e2, core (finish_transition_failure started (se_chain_state e0) proven e2) = core e2
    ∧ gauges (finish_transition_failure started (se_chain_state e0) proven e2) = gauges e2 ∧ er = er :> string) as Hfin
    by (intros; by rewrite core_failure, gauges_failure).
  destruct Hmid as [Hf|[Hf [l' Hs']]].
  - assert (rollback_apply_block (capture_reorg_rollback_state anc e0) e = Some (Ok None, e)) as Hrb.
    { unfold rollback_apply_block. unfold mbind, eng_bind, eng_get, mret, eng_ret. by destruct (se_persistence_fault e) eqn:E. }
    eng_inv H; rewrite Hrb in He; [done|]. injection He as <- <-. eng_inv H; [done|]. injection He as _ <-. injection H as <- <-.
    eexists. split; [done|]. destruct (Hfin started (is_none (A:=string) None) ""%string e) as ([= H1 H2 H3] & _). split; [by rewrite H2|]. left. unfold faulted. by rewrite H3.
  - eng_inv H; (eapply reorg_rollback_step in He as (o' & Ho & Hg2 & Hres); [|exact Hs0|exact Hx0|exact Hs'|done..]); [done|].
    injection Ho as <-. eng_inv H; [done|]. injection He as _ <-. injection H as <- <-. eexists. split; [done|].
    destruct (Hfin started (is_none a) ""%string e1) as (Hc & Hga & _). pose proof Hc as [= H1 H2 H3].
    split; [rewrite H2; by etransitivity|]. unfold faulted in *. rewrite H3.
    destruct Hres as [?|[? [[(Hsy & Hch & Hgg) Hx]|[[m ->] Hsy]]]]; [by left|right..]; (split; [done|]).
    + left. split; [split; [by eapply synced_core|]; split; congruence|]. intros st. rewrite H2. apply Hx.
    + right. split; [by do 2 eexists|]. exists l'. by eapply synced_core.
Qed.

Lemma prepare_preferred_Ok branch anc e packet : prepare_preferred_branch branch anc e = Some (Ok packet) →
  (∃ state, prepare_canonical_disconnect_packet (se_chain_state e) anc e = Ok (packet, state)) ∧ (branch ≠ [] → anc + 1 ≤ u64_max).
Proof.
  unfold prepare_preferred_branch.
  destruct (prepare_canonical_disconnect_packet (se_chain_state e) anc e) as [[pk st]|m]; run_bind; [|by intros [=]].
  destruct (prev_timestamps_for_height _ _) as [ts|m]; run_bind; [|by intros [=]].
  destruct branch as [|item branch]; cbn [preview_branch]; run_bind.
  { intros [= <-]. split; [by eexists|done]. }
  destruct (branch_row_height anc 0) as [h|m] eqn:Hr; [|cbn; discriminate].
  intros H. split; [|intros _].
  - apply bind_Some in H as ([[]|m] & _ & [= <-]). by eexists.
  - revert Hr. unfold branch_row_height, checked_add. destruct (anc + 1 <=? u64_max) eqn:Hle; [lia|done].
Qed.

(** The branch has replaced what is above the common ancestor. *)
Definition switched l0 l1 branch (out : ApplyBlockWithReorgOutcome) e' : Prop := ∃ l2,
  block_of <$> l2 = rb_block_bytes <$> branch ∧ synced (l0 ++ l2) e' ∧ exact (l0 ++ l2) e'
  ∧ se_last_reorg_depth e' = len l1
  ∧ ks_block_height (ro_summary out) = len (l0 ++ l2) - 1
  ∧ ab_hash <$> ks_canonical_applied_blocks (ro_summary out) = hash_of <$> (rb_block_bytes <$> branch)
  ∧ vs_block_bytes <$> cp_requeue_blocks (ro_tx_pool_cleanup out) = reverse (block_of <$> l1).

Lemma packet_bytes rs packet : Forall2 prepared_for rs packet →
  vs_block_bytes <$> (pd_stored <$> packet) = block_of <$> rs.
Proof. induction 1 as [|r p rs packet Hp _ IH]; [done|]. rewrite !fmap_cons, IH. by rewrite (pf_bytes _ _ Hp). Qed.

Lemma eng_try_run {A} (m : Eng A) e r e' : eng_try m e = Some (r, e') → ∃ r', r = Ok r' ∧ m e = Some (r', e').
Proof. unfold eng_try. destruct (m e) as [[r0 e0]|]; [|done]. intros [= <- <-]. by eexists. Qed.

(** The two phases: what they leave before the result is settled. *)
Lemma phases_step l0 l1 packet branch anc e st res e' : synced (l0 ++ l1) e → se_persistence_fault e = None → se_block_store e = Some st →
  index_list st = hashes (l0 ++ l1) → Forall2 prepared_for (reverse l1) packet → Forall small_row branch →
  (disconnected ← disconnect_prepared_canonical_to_ancestor packet;
   applied ← apply_branch anc 0 branch None [];
   mret (disconnected, applied)) e = Some (res, e') →
  clash ((block_of <$> l0) ++ (rb_block_bytes <$> branch)) ∨ store_grows (se_block_store e) (se_block_store e') ∧
  (faulted e' ∧ (∃ m, res = Err m)
   ∨ se_persistence_fault e' = None ∧
     match res with
     | Err _ => ∃ l', synced (l0 ++ l') e'
     | Ok (stored, (last, applied)) => ∃ l2, synced (l0 ++ l2) e' ∧ exact (l0 ++ l2) e' ∧ block_of <$> l2 = rb_block_bytes <$> branch
         ∧ stored = pd_stored <$> packet ∧ ab_hash <$> applied = hash_of <$> (rb_block_bytes <$> branch)
         ∧ (branch ≠ [] → ∃ sum, last = Some sum ∧ ks_block_height sum = len (l0 ++ l2) - 1)
     end).
Proof.
  intros Hs Hf Hst Hx Hp Hsm H.
  assert (∀ r e1, disconnect_prepared_canonical_to_ancestor packet e = Some (r, e1) → disconnect_prepared_list packet e = Some (r, e1)) as Hdl.
  { intros r e1. unfold disconnect_prepared_canonical_to_ancestor, mbind, eng_bind, mutation_allowed, eng_read. by rewrite Hf. }
  eng_inv H; apply Hdl in He; (eapply (disconnect_list_step packet l0 l1 e st) in He as (Hg & Hres); [|done..]).
  { right. split; [done|]. destruct Hres as [[? _]|(? & l' & _ & ? & _)]; [left; split; [done|by eexists]|right]. split; [done|by exists l']. }
  destruct Hres as [[_ [m [=]]]|(Hf0 & -> & Hs0 & Hx0)].
  eng_inv H; (apply (apply_branch_step _ _ _ l0) in He as [?|(Hg2 & Hres)]; [by left| |done..]); right.
  - split; [by etransitivity|]. destruct Hres as [[? _]|(? & l2 & ? & _)]; [left; split; [done|by eexists]|right]. split; [done|by exists l2].
  - destruct a as [last applied]. injection H as <- <-. split; [by etransitivity|]. right.
    destruct Hres as [[_ [m [=]]]|(Hf1 & l2 & Hs1 & Hb & Hex & Hap & _ & Hlast)]. split; [done|]. exists l2. split; [done|]. split.
    { apply Hex; [|done]. rewrite Hst in Hg. destruct (se_block_store e0); [by eexists|done]. }
    split; [done|]. split; [done|]. split; [done|]. intros Hne. by apply Hlast.
Qed.

Lemma unchanged_reorg_failed l0 l1 e e' m : synced (l0 ++ l1) e → se_persistence_fault e = None → exact (l0 ++ l1) e →
  core e' = core e → gauges e' = gauges e → reorg_failed l0 l1 e m e'.
Proof.
  intros Hs Hf Hx Hc Hg. pose proof Hc as [= H1 H2 H3]. split; [by rewrite H2|]. right. split; [congruence|]. left.
  split; [by apply unchanged_core|]. intros st. rewrite H2. apply Hx.
Qed.

Lemma success_last_depth started e : se_last_reorg_depth (finish_transition_success started e) = se_last_reorg_depth e.
Proof.
  unfold finish_transition_success. destruct (negb started); [done|]. destruct (se_owner e) as [o|]; [|done].
  by destruct (handle_commit_stable_tip _ o) as [[]].
Qed.

Lemma reorg_failed_core l0 l1 e e1 m e' : core e1 = core e → gauges e1 = gauges e → reorg_failed l0 l1 e1 m e' → reorg_failed l0 l1 e m e'.
Proof.
  intros [= H1 H2 H3] Hg [Hgr Hres]. split; [by rewrite <- H2|]. destruct Hres as [?|[Hf [[(Hs & Hc & Hga) Hx]|?]]]; [by left|right..]; (split; [done|]).
  - left. split; [|done]. split; [done|]. split; congruence.
  - by right.
Qed.

Lemma note_depth depth e : se_last_reorg_depth (note_reorg depth e) = depth ∧ core (note_reorg depth e) = core e.
Proof. done. Qed.

Lemma preferred_step l0 l1 branch anc e st res e' : synced (l0 ++ l1) e → se_persistence_fault e = None →
  se_block_store e = Some st → len l0 = anc + 1 → 0 ≤ anc → branch ≠ [] → Forall small_row branch → len l1 ≤ u64_max →
  apply_preferred_branch branch anc e = Some (res, e') →
  clash ((block_of <$> l0) ++ (rb_block_bytes <$> branch)) ∨ match res with
  | Ok out => store_grows (se_block_store e) (se_block_store e') ∧ se_persistence_fault e' = None ∧ switched l0 l1 branch out e'
  | Err m => reorg_failed l0 l1 e m e' ∨ unchanged (l0 ++ l1) e e' ∧ e' = e
  end.
Proof.
  intros Hs Hf Hst Hl Ha Hne Hsm Hl1 H. unfold apply_preferred_branch in H.
  eng_inv H; [done|]. injection He as <- <-. eng_inv H; [done|]. injection He as <- <-.
  set (rollback := capture_reorg_rollback_state anc e) in *.
  assert (∀ r e2, eng_read_opt (prepare_preferred_branch branch anc) e = Some (r, e2) → e2 = e ∧ prepare_preferred_branch branch anc e = Some r) as Hread.
  { intros r e2. unfold eng_read_opt. destruct (prepare_preferred_branch branch anc e); [|done]. by intros [= <- <-]. }
  eng_inv H; apply Hread in He as [-> Hprep]; [right; right; split; [by apply unchanged_core|done]|].
  apply prepare_preferred_Ok in Hprep as [[state Hprep] Hau]. specialize (Hau Hne).
  destruct (prepare_packet_for _ _ _ _ _ _ Hs Ha Hprep) as (st' & Hst' & Hx & Hp).
  rewrite Hst in Hst'. injection Hst' as <-. rewrite <- Hl, Nat2Z.id, drop_app_length in Hp. rename a into packet.
  assert (exact (l0 ++ l1) e) as Hex by (intros st0; rewrite Hst; by intros [= <-]).
  eng_inv H; apply begin_core in He as (Hc1 & Hg1 & _); [right; left; by apply unchanged_reorg_failed|].
  pose proof Hc1 as [= Hch1 Hst1 Hf1]. rename a into started, e0 into e1.
  eng_inv H; apply eng_try_run in He as (r & Hr & He); [done|]. injection Hr as <-.
  apply (phases_step l0 l1 _ _ _ _ st) in He as [?|[Hg2 Hres]]; [by left| |by eapply synced_core|congruence|by rewrite Hst1|done..].
  rewrite Hst1 in Hg2.
  destruct a as [[stored [[sum|] applied]]|m].
  - right. eng_inv H; [done|]. injection He as <- <-. eng_inv H; [done|]. injection He as <- <-. injection H as <- <-.
    destruct Hres as [[_ [m [=]]]|(Hf2 & l2 & Hs2 & Hx2 & Hb2 & -> & Hap & Hlast)].
    destruct (Hlast Hne) as (sum' & [= <-] & Hh). rename e0 into e2.
    set (d := Z.min u64_max (len packet)). pose proof (core_success started (note_reorg d e2)) as Hc2. pose proof Hc2 as [= Hc2a Hc2b Hc2c].
    split; [rewrite Hc2b; exact Hg2|]. split; [by rewrite Hc2c|]. exists l2. split; [done|].
    split; [by eapply (synced_core _ e2)|]. split; [intros st0; rewrite Hc2b; apply Hx2|]. split.
    { rewrite success_last_depth. change (d = len l1). unfold d. apply Forall2_length in Hp. rewrite length_reverse in Hp. lia. }
    split; [done|]. split; [done|]. cbn [ro_tx_pool_cleanup cp_requeue_blocks].
    rewrite (packet_bytes _ _ Hp). by rewrite fmap_reverse.
  - apply (abort_reorg_step l0 l1 anc e) in H as (m & -> & ?); try done; [by right; left|]. right.
    destruct Hres as [[_ [m [=]]]|(Hf2 & l2 & Hs2 & _)]. split; [done|by exists l2].
  - apply (abort_reorg_step l0 l1 anc e) in H as (m' & -> & ?); try done; [by right; left|].
    destruct Hres as [[? _]|[? ?]]; [by left|by right].
Qed.

Lemma direct_step l b times e res e' : synced l e → se_persistence_fault e = None → len b ≤ isize_max →
  apply_direct_if_possible b times e = Some (res, e') → clash ((block_of <$> l) ++ [b]) ∨
  match res with Ok None => e' = e | Ok (Some sum) => applied l b e (Ok sum) e' | Err m => applied l b e (Err m) e' end.
Proof.
  intros Hs Hf Hb H. unfold apply_direct_if_possible in H.
  eng_inv H; injection He as Hp <-; [by right; apply applied_err|]. eng_inv H; [done|]. injection He as <- <-.
  destruct (negb _).
  - destruct (negb _); [injection H as <- <-; by right; apply applied_err|].
    eng_inv H; (apply (apply_block_applied l) in He as [?|Ha]; [by left| |done..]); right; [done|]. by injection H as <- <-.
  - destruct (bool_decide _); [|injection H as <- <-; by right].
    eng_inv H; injection He as Hn <-; [by right; apply applied_err|].
    assert (∀ r e2 (f : SyncEngine → option (nres (option bytes))), eng_read_opt f e = Some (r, e2) → e2 = e) as Hread.
    { intros r e2 f. unfold eng_read_opt. destruct (f e); [|done]. by intros [= <- <-]. }
    eng_inv H; apply Hread in He as ->; [by right; apply applied_err|].
    eng_inv H; (apply (apply_applied l) in He as [?|Ha]; [by left| |done..]); right; [done|]. by injection H as <- <-.
Qed.

(** A block of another branch: it is in the store, and the chain is as before. *)
Definition kept_aside l b (out : ApplyBlockWithReorgOutcome) e e' : Prop :=
  unchanged l e e' ∧ ks_canonical_applied_blocks (ro_summary out) = [] ∧ ro_tx_pool_cleanup out = no_cleanup ∧
  ∃ st st', se_block_store e = Some st ∧ se_block_store e' = Some st' ∧ so_index st' = so_index st ∧
    (has_block st (hash_of b) = true ∧ st' = st ∨ dir_files (so_blocks st') !! hash_of b = Some (Content b)).

Definition refused l e (m : string) e' : Prop :=
  store_grows (se_block_store e) (se_block_store e') ∧
  (faulted e' ∨ se_persistence_fault e' = None ∧
     (unchanged l e e' ∨ (∃ err why, m = err_with_rollback err (Some why)) ∧ ∃ l', synced l' e')).

Lemma refused_same l e m : synced l e → se_persistence_fault e = None → refused l e m e.
Proof. intros Hs Hf. split; [done|]. right. split; [done|]. left. by apply unchanged_core. Qed.

Lemma applied_refused l b e m e' : applied l b e (Err m) e' → refused l e m e'.
Proof. intros [Hg [[? _]|[? ?]]]; (split; [done|]); [by left|right]. split; [done|]. by left. Qed.

Lemma reorg_refused l0 l1 e m e' : reorg_failed l0 l1 e m e' → refused (l0 ++ l1) e m e'.
Proof.
  intros [Hg [?|(? & [[? _]|(? & l' & ?)])]]; (split; [done|]); [by left|right..]; (split; [done|]); [by left|right].
  split; [done|]. by exists (l0 ++ l').
Qed.

Lemma read_opt_same {A} (f : SyncEngine → option (nres A)) e r e' : eng_read_opt f e = Some (r, e') → e' = e ∧ f e = Some r.
Proof. unfold eng_read_opt. destruct (f e); [|done]. by intros [= <- <-]. Qed.

Lemma side_step l b pb rows more anc height e st res e' : synced l e → se_persistence_fault e = None → len b < isize_max →
  se_block_store e = Some st → rows = more ++ [branch_row (hash_of b) pb b] → store_side_block rows anc height e = Some (res, e') →
  match res with
  | Ok out => store_grows (se_block_store e) (se_block_store e') ∧ se_persistence_fault e' = None ∧ kept_aside l b out e e'
  | Err m => refused l e m e'
  end.
Proof.
  intros Hs Hf Hb Hst -> H. unfold store_side_block in H. rewrite last_snoc in H. cbn [ok_or] in H.
  eng_inv H; [done|]. injection He as <- <-. cbn [rb_hash rb_header_bytes rb_block_bytes rb_prev_hash branch_row] in H.
  eng_inv H; apply read_opt_same in He as [-> _]; [by apply refused_same|].
  eng_inv H; injection He as _ <-; [by apply refused_same|]. eng_inv H; injection He as _ <-; [by apply refused_same|].
  eng_inv H; [done|]. injection He as <- <-. rewrite Hst in H. destruct (has_block st (hash_of b)) eqn:Hhas.
  { eng_inv H; [done|]. injection He as <- <-. eng_inv H; [done|]. injection He as <- <-. injection H as <- <-. split; [done|]. split; [done|].
    split; [by apply unchanged_core|]. split; [done|]. split; [done|]. exists st, st. split; [done|]. split; [done|]. split; [done|]. by left. }
  destruct (run_store_Some (store_block (hash_of b) (pb_header_bytes pb) b) e st Hst) as (r & io & Hio & Hrun).
  eng_inv H; rewrite Hrun in He; [done|]. injection He as <- <-.
  apply store_block_ok in Hio as (Hg & Hix & Hok); [|done]. cbn [io_store] in *. set (e1 := set_store _ _ e) in *.
  assert (store_grows (se_block_store e) (se_block_store e1)) as Hg1 by (by rewrite Hst).
  assert (unchanged l e e1) as Hun.
  { split; [|done]. split; [apply Hs|]. intros st1 [= <-]. by eapply same_index; [apply (sy_store _ _ Hs)| |]. }
  destruct r as [[]|error].
  - eng_inv H; [done|]. injection He as <- <-. injection H as <- <-. split; [done|]. split; [done|]. split; [done|]. split; [done|]. split; [done|].
    exists st, (io_store io). split; [done|]. split; [done|]. split; [done|]. right. by apply Hok.
  - destruct (is_atomic_write_post_commit error) eqn:Hpost.
    + apply post_fail_id in H as (Hg2 & Hfa & m & ->); [|done]. split; [by etransitivity|by left].
    + injection H as <- <-. split; [done|]. right. split; [done|]. by left.
Qed.

(** What a block that is taken has done: extended the chain, replaced what is
    above its common ancestor, or been put aside. *)
Definition taken fuel l b e (out : ApplyBlockWithReorgOutcome) e' : Prop :=
  extended_by l b (ro_summary out) e e'
  ∨ ∃ st rows k anc height, se_block_store e = Some st
    ∧ collect_branch_to_canonical fuel (Some st) (hash_of b) b = Some (Ok (rows, k, anc))
    ∧ ((should_switch_to_branch fuel (Some st) (ch_tip_hash (se_chain_state e)) rows k = Some (Ok (true, height))
        ∧ ∃ l0 l1, l = l0 ++ l1 ∧ len l0 = anc + 1 ∧ (∃ more, rb_block_bytes <$> rows = more ++ [b]) ∧ switched l0 l1 rows out e')
       ∨ (should_switch_to_branch fuel (Some st) (ch_tip_hash (se_chain_state e)) rows k = Some (Ok (false, height))
        ∧ kept_aside l b out e e')).

Lemma ancestor_in_chain l e st k anc rows : synced l e → se_block_store e = Some st → find_canonical_height (so_index st) k = Some anc →
  (∃ packet, prepare_preferred_branch rows anc e = Some (Ok packet)) → anc < len l.
Proof.
  intros Hs Hst (Ha & Hk & _)%find_canonical_Some (packet & [[state Hp] _]%prepare_preferred_Ok).
  destruct (prepare_packet_for _ _ _ _ _ _ Hs Ha Hp) as (st' & Hst' & Hx & _).
  rewrite Hst in Hst'. injection Hst' as <-. apply lookup_lt_Some in Hk. fold (index_list st) in Hk. rewrite Hx in Hk.
  pose proof (hashes_length l). lia.
Qed.

Lemma replay_len l s : replay l s → len l ≤ u64_max + 1.
Proof.
  intros Hr. pose proof (replay_replayed l s Hr) as Hrp. pose proof (rp_height _ _ Hrp) as Hh.
  pose proof (wf_height _ (rp_wf _ _ Hrp)) as Hu. unfold next_height, is_u, u64_max in *. destruct (ch_has_tip s); lia.
Qed.

Lemma preferred_ok l e st rows k anc b pb more res e' : synced l e → se_persistence_fault e = None → se_block_store e = Some st →
  find_canonical_height (so_index st) k = Some anc → Forall small_row rows → rows = more ++ [branch_row (hash_of b) pb b] →
  apply_preferred_branch rows anc e = Some (res, e') → clash ((block_of <$> l) ++ (rb_block_bytes <$> rows)) ∨
  match res with
  | Ok out => store_grows (se_block_store e) (se_block_store e') ∧ se_persistence_fault e' = None ∧
      ∃ l0 l1, l = l0 ++ l1 ∧ len l0 = anc + 1 ∧ switched l0 l1 rows out e'
  | Err m => refused l e m e'
  end.
Proof.
  intros Hs Hf Hst Hfind Hsm Hrows H. pose proof Hfind as (Ha & _ & _)%find_canonical_Some.
  pose proof (replay_len _ _ (sy_replay _ _ Hs)) as Hlen. destruct (decide (anc < len l)) as [Hin|Hout].
  - rewrite <- (take_drop (Z.to_nat (anc + 1)) l) in Hs. set (l0 := take _ l) in *. set (l1 := drop _ l) in *.
    assert (len l0 = anc + 1 ∧ len l1 ≤ u64_max) as [Hl0 Hl1] by (unfold l0, l1; rewrite length_take, length_drop; lia).
    assert (rows ≠ []) as Hne by (rewrite Hrows; by destruct more).
    destruct (preferred_step l0 l1 rows anc e st res e' Hs Hf Hst Hl0 Ha Hne Hsm Hl1 H) as [Hcl|Hres];
      [left; eapply clash_mono; [|exact Hcl]; unfold l0; rewrite fmap_take; intros x [Hx|Hx]%elem_of_app; apply elem_of_app; [left|by right];
       by eapply (subseteq_take (Z.to_nat (anc + 1)))|right].
    assert (l = l0 ++ l1) as Hl by (unfold l0, l1; by rewrite take_drop). destruct res as [out|m].
    + destruct Hres as (? & ? & ?). split; [done|]. split; [done|]. by exists l0, l1.
    + rewrite Hl. destruct Hres as [?|[? ->]]; [by apply reorg_refused|by apply refused_same].
  - unfold apply_preferred_branch in H. eng_inv H; [done|]. injection He as <- <-. eng_inv H; [done|]. injection He as <- <-.
    eng_inv H; apply read_opt_same in He as [-> Hp]; [right; by apply refused_same|].
    exfalso. pose proof (ancestor_in_chain l e st k anc rows Hs Hst Hfind ltac:(by eexists)). lia.
Qed.

(** The block files of the engine. *)
Definition stored_blocks e : list bytes := match se_block_store e with Some st => dir_contents (so_blocks st) | None => [] end.

Lemma reorg_step fuel l b times e res e' : synced l e → se_persistence_fault e = None → len b < isize_max →
  apply_block_with_reorg fuel b times e = Some (res, e') → clash ((block_of <$> l) ++ stored_blocks e ++ [b]) ∨
  match res with
  | Ok out => store_grows (se_block_store e) (se_block_store e') ∧ se_persistence_fault e' = None ∧ taken fuel l b e out e'
  | Err m => refused l e m e'
  end.
Proof.
  intros Hs Hf Hb' H. assert (len b ≤ isize_max) as Hb by lia. unfold apply_block_with_reorg in H.
  eng_inv H; apply mutation_allowed_run in He as [-> _]; [right; by apply refused_same|].
  eng_inv H; injection He as Hp <-; [right; by apply refused_same|]. apply stringify_Ok in Hp. rename a0 into pb.
  eng_inv H; injection He as Hh <-; [right; by apply refused_same|]. apply stringify_Ok in Hh.
  rewrite (parsed_block_hash b pb Hb Hp) in Hh. injection Hh as <-.
  replace (sha3_256 (pb_header_bytes pb)) with (hash_of b) in H by (unfold hash_of; by rewrite Hp).
  eng_inv H; (apply (direct_step l) in He as [Hcl|Hd]; [left; eapply clash_mono; [|exact Hcl]; set_solver +| |done..]); [right; by eapply applied_refused|].
  destruct a0 as [sum|].
  { right. assert (∃ plan, from_validated_block pb b = Ok plan) as [plan Hplan].
    { unfold from_validated_block. apply parse_block_Ok in Hp as (Hv & Hm & ->); [|done]. rewrite non_coinbase_inputs_run by done. by eexists. }
    eng_inv H; unfold eng_res in He; rewrite Hplan in He; [done|]. injection He as _ <-. injection H as <- <-.
    destruct Hd as [Hg [[_ [m [=]]]|[Hf' Hex]]]. split; [done|]. split; [done|]. by left. }
  subst e0. eng_inv H; injection He as Hst <-; [right; by apply refused_same|]. apply ok_or_Ok in Hst. rename a0 into st.
  eng_inv H; apply read_opt_same in He as [-> Hcol]; [right; by apply refused_same|]. destruct a0 as [[rows k] anc]. rewrite Hst in Hcol.
  destruct (collected_rows _ _ _ _ _ _ _ _ Hb Hp Hcol) as (Hfind & Hsm & Hin & more & Hrows).
  eng_inv H; apply read_opt_same in He as [-> Hsw]; [right; by apply refused_same|]. destruct a0 as [[] height]; rewrite Hst in Hsw.
  - eapply (preferred_ok l) in H as [Hcl|Hres]; [left; eapply clash_mono; [|exact Hcl]| |done..].
    { unfold stored_blocks. rewrite Hst. set_solver + Hin. }
    right. destruct res as [out|m]; [|done].
    destruct Hres as (? & ? & l0 & l1 & ? & ? & ?). split; [done|]. split; [done|]. right. exists st, rows, k, anc, height.
    split; [done|]. split; [done|]. left. split; [done|]. exists l0, l1. split; [done|]. split; [done|]. split; [|done].
    exists (rb_block_bytes <$> more). by rewrite Hrows, fmap_app.
  - eapply (side_step l) in H as Hres; [|done..]. right. destruct res as [out|m]; [|done].
    destruct Hres as (? & ? & ?). split; [done|]. split; [done|]. right. exists st, rows, k, anc, height.
    split; [done|]. split; [done|]. by right.
Qed.
End reorganize.

(** ** Disconnecting *)

Section disconnecting.
Context `{HS : Sha3} `{HO : OpenSsl} `{BU : BigUintBytes} `{HX : Hex} `{HU : UndoJson} `{HE : EnvelopeJson} `{HJ : StateJson}.
Implicit Types (e : SyncEngine) (l : list (BlockInputs * BlockUndo)).

Lemma with_transition_step {A} (m : Eng A) e r e' : with_transition m e = Some (r, e') →
  (∃ s, r = Err s ∧ core e' = core e) ∨ ∃ e1 e2, core e1 = core e ∧ m e1 = Some (r, e2) ∧ core e' = core e2.
Proof.
  unfold with_transition. intros H. eng_inv H; [done|]. injection He as <- <-.
  eng_inv H; apply begin_core in He as (Hc & _); [left; by eexists|]. right.
  eng_inv H; apply eng_try_run in He as (r' & Hr & He); [done|]. injection Hr as <-. exists e0, e1. split; [done|].
  destruct a0 as [x|m']; (eng_inv H; [done|]); injection He0 as <- <-; injection H as <- <-; (split; [exact He|]).
  - by rewrite core_success.
  - by rewrite core_failure.
Qed.

(** The blocks above a height were taken off, or nothing was. *)
Definition taken_off {A} l e (good : A → list (BlockInputs * BlockUndo) → Prop) (r : nres A) e' : Prop :=
  store_grows (se_block_store e) (se_block_store e') ∧
  (faulted e' ∧ (∃ m, r = Err m)
   ∨ se_persistence_fault e' = None ∧
     match r with
     | Ok a => ∃ l0, l0 `prefix_of` l ∧ synced l0 e' ∧ good a l0
     | Err _ => ∃ l0, l0 `prefix_of` l ∧ synced l0 e'
     end).

Lemma taken_off_same {A} l e good m e' : synced l e → se_persistence_fault e = None → core e' = core e → taken_off (A := A) l e good (Err m) e'.
Proof.
  intros Hs Hf Hc. pose proof Hc as [= H1 H2 H3]. split; [by rewrite H2|]. right. split; [congruence|]. exists l. split; [done|]. by eapply synced_core.
Qed.

Lemma disconnect_to_step anc l e r e' : synced l e → se_persistence_fault e = None → 0 ≤ anc → disconnect_canonical_to_ancestor anc e = Some (r, e') →
  taken_off l e (λ blocks l0, l0 = take (Z.to_nat (anc + 1)) l ∧ blocks = reverse (block_of <$> drop (Z.to_nat (anc + 1)) l)) r e'.
Proof.
  intros Hs Hf Ha H. unfold disconnect_canonical_to_ancestor in H.
  eng_inv H; injection He as Hp <-; [by apply taken_off_same|]. destruct a as [packet state].
  destruct (prepare_packet_for _ _ _ _ _ _ Hs Ha Hp) as (st & Hst & Hx & Hfor).
  pose proof (Forall2_length Hfor) as Hlen. rewrite length_reverse in Hlen.
  destruct (bool_decide _) eqn:Hz.
  { apply bool_decide_eq_true in Hz. injection H as <- <-. split; [done|]. right. split; [done|].
    assert (drop (Z.to_nat (anc + 1)) l = []) as Hd by (apply len_0_nil; lia). rewrite Hd. apply drop_nil_inv in Hd.
    exists l. split; [done|]. split; [done|]. by rewrite take_ge. }
  rewrite <- (take_drop (Z.to_nat (anc + 1)) l) in Hs, Hx. rewrite <- (take_drop (Z.to_nat (anc + 1)) l) at 1.
  set (l0 := take _ l) in *. set (l1 := drop _ l) in *.
  assert (∀ rr ee, with_transition (disconnect_prepared_canonical_to_ancestor packet) e = Some (rr, ee) →
    taken_off (l0 ++ l1) e (λ stored l', l' = l0 ∧ vs_block_bytes <$> stored = reverse (block_of <$> l1)) rr ee) as Hwt.
  { intros rr ee [(s & -> & Hc)|(e1 & e2 & Hc1 & Hm & Hc2)]%with_transition_step; [by apply taken_off_same|].
    pose proof Hc1 as [= Hc1a Hc1b Hc1c]. pose proof Hc2 as [= Hc2a Hc2b Hc2c].
    assert (disconnect_prepared_list packet e1 = Some (rr, e2)) as Hd.
    { revert Hm. unfold disconnect_prepared_canonical_to_ancestor, mbind, eng_bind, mutation_allowed, eng_read. by rewrite Hc1c, Hf. }
    apply (disconnect_list_step packet l0 l1 e1 st) in Hd as [Hg Hres]; [|by eapply synced_core|congruence|congruence|done|done].
    split; [rewrite Hc2b, <- Hc1b; done|]. unfold faulted. rewrite Hc2c. destruct Hres as [?|[Hf2 Hres]]; [by left|right].
    split; [done|]. destruct rr as [stored|m].
    - destruct Hres as (-> & Hs0 & _). exists l0. split; [by eexists|]. split; [by eapply synced_core|]. split; [done|].
      rewrite (packet_bytes _ _ Hfor). by rewrite fmap_reverse.
    - destruct Hres as (l' & Hpre & Hs' & _). exists (l0 ++ l'). split; [by apply prefix_app|]. by eapply synced_core. }
  eng_inv H; apply Hwt in He as [Hg Hres]; [split; [done|]|].
  - destruct Hres as [[? _]|[? Hres]]; [left; split; [done|by eexists]|right; done].
  - injection H as <- <-. split; [done|]. destruct Hres as [[_ [m [=]]]|(? & l' & ? & ? & -> & ?)]. right. split; [done|]. by exists l0.
Qed.

Lemma disconnect_tip_step l e r e' : synced l e → se_persistence_fault e = None → disconnect_tip e = Some (r, e') →
  taken_off l e (λ _ l0, ∃ x, l = l0 ++ [x]) r e'.
Proof.
  intros Hs Hf H. unfold disconnect_tip in H. eng_inv H; injection He as Hp <-; [by apply taken_off_same|].
  unfold prepare_disconnect_tip in Hp. apply bind_Ok in Hp as ([] & _ & Hp). apply bind_Ok in Hp as ([height h] & Ht & Hp).
  destruct (current_tip_exact _ _ _ _ Hs Ht) as (st & Hst & Hx & Hh & Hne).
  rewrite Hst in Hp. cbn [ok_or] in Hp. apply bind_Ok in Hp as (st' & [= <-] & Hp). apply bind_Ok in Hp as (p & Hprep & Hp).
  apply bind_Ok in Hp as (s' & _ & [= ->]). rename a into p. destruct l as [|x l0] using rev_ind; [done|]. clear IHl0 Hne.
  assert (h = input_hash x ∧ height = len l0) as [-> Hht].
  { rewrite length_app in Hh. cbn in Hh. split; [|lia]. unfold current_disconnect_tip in Ht. rewrite Hst in Ht. cbn [ok_or] in Ht.
    apply bind_Ok in Ht as (st' & [= <-] & Ht). apply bind_Ok in Ht as ([th tx] & Htip%ok_or_Ok & Ht). destruct (_ || _); [done|]. injection Ht as -> ->.
    unfold bs_tip in Htip. fold (index_list st) in Htip. rewrite Hx in Htip. destruct (bool_decide _); [done|]. unfold hashes in Htip.
    rewrite fmap_app, length_app, length_fmap in Htip. cbn [length fmap list_fmap] in Htip.
    rewrite lookup_app_r in Htip by (rewrite length_fmap; lia). replace (_ - _)%nat with 0%nat in Htip by (rewrite length_fmap; lia).
    by injection Htip. }
  destruct (sy_store _ _ Hs st Hst) as (_ & _ & [_ Hk]%Forall_app). apply list.Forall_cons in Hk as [Hk _].
  destruct (prepare_kept _ _ _ _ Hk Hprep) as [Hpf Hph].
  apply with_transition_step in H as [(s & -> & Hc)|(e1 & e2 & Hc1 & Hm & Hc2)]; [by apply taken_off_same|].
  pose proof Hc1 as [= Hc1a Hc1b Hc1c]. pose proof Hc2 as [= Hc2a Hc2b Hc2c].
  apply (disconnect_step l0 x p e1 st) in Hm as [Hg Hres]; [|by eapply synced_core|congruence|congruence|done|done|congruence].
  split; [rewrite Hc2b, <- Hc1b; done|]. unfold faulted. rewrite Hc2c. destruct Hres as [?|[Hf2 Hres]]; [by left|right].
  split; [done|]. destruct r as [sum|m].
  - destruct Hres as [Hs0 _]. exists l0. split; [by eexists|]. split; [by eapply synced_core|]. by exists x.
  - destruct Hres as [[(Hs' & _) _]|[Hs' _]]; [exists (l0 ++ [x])|exists l0]; (split; [try done; by eexists|]); by eapply synced_core.
Qed.
End disconnecting.

(** ** The engine as a machine *)

Section machine.
Context `{HS : Sha3} `{HO : OpenSsl} `{BU : BigUintBytes} `{HX : Hex} `{HU : UndoJson} `{HE : EnvelopeJson} `{HJ : StateJson}.
Implicit Types (e : SyncEngine) (l : list (BlockInputs * BlockUndo)).

(** A call of a method that changes the engine; its result is not kept. Blocks
    are in memory. *)
Inductive engine_call : Type :=
  | CallApply (b : bytes) (times : option (list Z))
  | CallReorg (fuel : nat) (b : bytes) (times : option (list Z))
  | CallDisconnectTip
  | CallDisconnectTo (ancestor_height : Z)
  | CallBootstrap
  | CallBind (owner : PendingOutpointOwnerHandle)
  | CallBestKnown (height : Z).

Definition call_in_memory (c : engine_call) : Prop :=
  match c with
  | CallApply b _ | CallReorg _ b _ => len b < isize_max
  | CallDisconnectTo anc => 0 ≤ anc
  | _ => True
  end.

Definition forget {A} (o : option (nres A * SyncEngine)) : option (nres unit * SyncEngine) :=
  (λ '(r, e), (match r with Ok _ => Ok () | Err m => Err m end, e)) <$> o.

Definition run_call (c : engine_call) e : option (nres unit * SyncEngine) :=
  match c with
  | CallApply b times => forget (apply_block b times e)
  | CallReorg fuel b times => forget (apply_block_with_reorg fuel b times e)
  | CallDisconnectTip => forget (disconnect_tip e)
  | CallDisconnectTo anc => forget (disconnect_canonical_to_ancestor anc e)
  | CallBootstrap => bootstrap_canonical_genesis_if_empty e
  | CallBind owner => bind_pending_outpoint_owner owner e
  | CallBestKnown height => Some (Ok (), record_best_known_height height e)
  end.

(** The engine after a sequence of calls, each of which returned. *)
Inductive reachable e : list engine_call → SyncEngine → Prop :=
  | reachable_start : reachable e [] e
  | reachable_call cs e1 c r e2 : reachable e cs e1 → call_in_memory c → run_call c e1 = Some (r, e2) → reachable e (cs ++ [c]) e2.

Definition consistent e : Prop := se_persistence_fault e = None ∧ ∃ l, synced l e.

Lemma forget_run {A} (o : option (nres A * SyncEngine)) r e : forget o = Some (r, e) → ∃ r', o = Some (r', e)
  ∧ r = match r' with Ok _ => Ok () | Err m => Err m end.
Proof. destruct o as [[r' e']|]; [|done]. intros [= <- <-]. by exists r'. Qed.

Lemma applied_consistent l b e r e' : applied l b e r e' →
  store_grows (se_block_store e) (se_block_store e') ∧ (consistent e' ∨ faulted e' ∧ ∃ m, r = Err m).
Proof.
  intros [Hg [[? ?]|[Hf Hr]]]; (split; [done|]); [by right|left]. split; [done|]. destruct r as [sum|m].
  - destruct Hr as (x & u & pb & ids & _ & _ & Hs & _). by eexists.
  - destruct Hr as [Hs _]. by eexists.
Qed.

Lemma genesis_small g : devnet_genesis_block_bytes = Some g → len g ≤ isize_max.
Proof.
  unfold devnet_genesis_block_bytes, decode_hex_exact. intros (header & (b1 & _ & H1)%bind_Some & H)%bind_Some.
  apply bind_Some in H as (tx & (b2 & _ & H2)%bind_Some & [= <-]).
  destruct (negb (len b1 =? 116)) eqn:E1; [done|]. destruct (negb (len b2 =? 149)) eqn:E2; [done|]. injection H1 as ->. injection H2 as ->.
  apply negb_false_iff, Z.eqb_eq in E1, E2. rewrite length_app. unfold encode_compact_size. cbn.
  rewrite length_app. unfold isize_max. cbn. lia.
Qed.

Lemma taken_consistent {A} l e (r : nres A) e' (P : A → Prop) (Q : string → Prop) :
  (∀ a, P a → se_persistence_fault e' = None ∧ (∃ l', synced l' e')) → (∀ m, Q m → refused l e m e') →
  match r with Ok a => store_grows (se_block_store e) (se_block_store e') ∧ P a | Err m => Q m end →
  store_grows (se_block_store e) (se_block_store e') ∧ (consistent e' ∨ faulted e' ∧ ∃ m, r = Err m).
Proof.
  intros HP HQ Hr. destruct r as [a|m].
  - destruct Hr as [Hg Ha]. split; [done|]. left. by apply HP in Ha.
  - apply HQ in Hr as [Hg [?|[Hf [[Hs _]|[_ Hs]]]]]; (split; [done|]); [right; split; [done|by eexists]|left|left]; (split; [done|]); [by eexists|done].
Qed.

Lemma taken_synced fuel l b e out e' : taken fuel l b e out e' → ∃ l', synced l' e'.
Proof.
  intros [(x & u & pb & ids & _ & _ & Hs & _)|(st & rows & k & anc & height & _ & _ & [(_ & l0 & l1 & _ & _ & _ & l2 & _ & Hs & _)|(_ & [Hs _] & _)])]; by eexists.
Qed.

Lemma taken_off_consistent {A} l e good (r : nres A) e' : taken_off l e good r e' →
  store_grows (se_block_store e) (se_block_store e') ∧ (consistent e' ∨ faulted e' ∧ ∃ m, r = Err m).
Proof.
  intros [Hg [[? ?]|[Hf Hr]]]; (split; [done|]); [by right|left]. split; [done|]. destruct r as [a|m].
  - destruct Hr as (l0 & _ & Hs & _). by exists l0.
  - destruct Hr as (l0 & _ & Hs). by exists l0.
Qed.

(** The blocks that a call may add to the chain. *)
Definition call_blocks (c : engine_call) e : list bytes :=
  match c with
  | CallApply b _ => [b]
  | CallReorg _ b _ => stored_blocks e ++ [b]
  | CallBootstrap => match devnet_genesis_block_bytes with Some g => [g] | None => [] end
  | _ => []
  end.

(** Two transactions of the chain and these blocks have the same id. *)
Definition call_clash (c : engine_call) e : Prop := ∃ l, synced l e ∧ clash ((block_of <$> l) ++ call_blocks c e).

Lemma call_consistent c e r e' : consistent e → call_in_memory c → run_call c e = Some (r, e') →
  call_clash c e ∨ store_grows (se_block_store e) (se_block_store e') ∧ (consistent e' ∨ faulted e' ∧ ∃ m, r = Err m).
Proof.
  intros [Hf [l Hs]] Hc H. destruct c; cbn [run_call call_in_memory] in *.
  - apply forget_run in H as (r' & H & ->). apply (apply_block_applied l) in H as [?|H]; [left; by exists l|right|done..|lia].
    apply applied_consistent in H as [? [?|[? [m ->]]]]; (split; [done|]); [by left|right]. split; [done|by eexists].
  - apply forget_run in H as (r' & H & ->). apply (reorg_step _ l) in H as [?|H]; [left; by exists l|right|done..].
    apply (taken_consistent l e r' e' (λ out, se_persistence_fault e' = None ∧ taken fuel l b e out e') (λ m, refused l e m e')) in H as [? Hr]; [| |done].
    + split; [done|]. destruct Hr as [?|[? [m ->]]]; [by left|right]. split; [done|by eexists].
    + intros out [? Ht]. split; [done|]. by eapply taken_synced.
  - apply forget_run in H as (r' & H & ->). apply (disconnect_tip_step l) in H as H; [right|done..].
    apply taken_off_consistent in H as [? [?|[? [m ->]]]]; (split; [done|]); [by left|right]. split; [done|by eexists].
  - apply forget_run in H as (r' & H & ->). apply (disconnect_to_step _ l) in H as H; [right|done..].
    apply taken_off_consistent in H as [? [?|[? [m ->]]]]; (split; [done|]); [by left|right]. split; [done|by eexists].
  - unfold bootstrap_canonical_genesis_if_empty in H.
    assert (store_grows (se_block_store e) (se_block_store e) ∧ (consistent e ∨ faulted e ∧ ∃ m, r = Err m)) as Hsame.
    { split; [done|]. left. split; [done|by exists l]. }
    eng_inv H; apply mutation_allowed_run in He as [-> _]; [by right|].
    eng_inv H; apply read_opt_same in He as [-> _]; [by right|]. eng_inv H; [done|]. injection He as <- <-.
    destruct (_ || _); [injection H as <- <-; by right|].
    eng_inv H; apply read_opt_same in He as [-> Hg]; [by right|]. destruct devnet_genesis_block_bytes as [g|] eqn:Hgen; [|done].
    injection Hg as <-. pose proof (genesis_small _ Hgen) as Hsmall.
    eng_inv H; (apply (apply_block_applied l) in He as [?|He]; [left; exists l; split; [done|]; cbn [call_blocks]; by rewrite Hgen|right|done..]); apply applied_consistent in He as [Hgr Hr].
    + split; [done|]. destruct Hr as [?|[? _]]; [by left|right]. split; [done|by eexists].
    + injection H as <- <-. split; [done|]. destruct Hr as [?|[_ [m [=]]]]. by left.
  - assert (core e' = core e) as Hcore.
    { revert H. unfold bind_pending_outpoint_owner. destruct (se_owner e); [by intros [= <- <-]|].
      destruct (map_err _ _); [|by intros [= <- <-]]. destruct (negb _); by intros [= <- <-]. }
    right. pose proof Hcore as [= H1 H2 H3]. rewrite H2. split; [done|]. left. split; [congruence|]. exists l. by eapply synced_core.
  - injection H as <- <-. assert (core (record_best_known_height height e) = core e) as Hcore.
    { unfold record_best_known_height. by destruct (_ <? _). }
    right. pose proof Hcore as [= H1 H2 H3]. rewrite H2. split; [done|]. left. split; [congruence|]. exists l. by eapply synced_core.
Qed.

(** What a faulted engine does with a call: every change to the chain is
    refused with the latched error and nothing is touched; only the owner and
    the best known height can still be recorded. *)
Definition latched c e (r : nres unit) e' : Prop :=
  core e' = core e ∧ match c with CallBind _ | CallBestKnown _ => True | _ => r = Err STORAGE_PERSISTENCE_FAULT_ERR ∧ e' = e end.

Lemma call_latched c e r e' : faulted e → run_call c e = Some (r, e') → latched c e r e'.
Proof.
  intros Hf H. assert (∃ f, se_persistence_fault e = Some f) as [f Hfe].
  { unfold faulted in Hf. destruct (se_persistence_fault e); [by eexists|done]. }
  unfold latched. destruct c; cbn [run_call] in H.
  - apply forget_run in H as (r' & H & ->). unfold apply_block, apply_block_with_target, mbind, eng_bind, mutation_allowed, eng_read in H.
    rewrite Hfe in H. by injection H as <- <-.
  - apply forget_run in H as (r' & H & ->). unfold apply_block_with_reorg, mbind, eng_bind, mutation_allowed, eng_read in H.
    rewrite Hfe in H. by injection H as <- <-.
  - apply forget_run in H as (r' & H & ->). unfold disconnect_tip, prepare_disconnect_tip, mbind at 1, eng_bind, eng_read in H.
    rewrite Hfe in H. by injection H as <- <-.
  - apply forget_run in H as (r' & H & ->). unfold disconnect_canonical_to_ancestor, prepare_canonical_disconnect_packet, mbind at 1, eng_bind, eng_read in H.
    rewrite Hfe in H. by injection H as <- <-.
  - unfold bootstrap_canonical_genesis_if_empty, mbind, eng_bind, mutation_allowed, eng_read in H. rewrite Hfe in H. by injection H as <- <-.
  - split; [|done]. revert H. unfold bind_pending_outpoint_owner. destruct (se_owner e); [by intros [= <- <-]|].
    destruct (map_err _ _); [|by intros [= <- <-]]. destruct (negb _); by intros [= <- <-].
  - injection H as <- <-. split; [|done]. unfold record_best_known_height. by destruct (_ <? _).
Qed.
End machine.
