(* ===== verification/SyncTotal.v ===== *)
(** * Every call of the engine returns

    The methods of the engine can stop without a result in two ways: a panic
    on the genesis constants, which do decode, and the walks over stored
    headers and blocks, which end after at most one step per file. *)

From S2P Require Import Prelude Bytes BTree Errors Constants Crypto WireRead CompactSize TxWire TxCodec Block Merkle Pow Subsidy.
From S2P Require Import Vault Suites Verify SigCache WorkerPool SigQueue Sighash Spend Htlc Stealth CovenantGenesis.
From S2P Require Import UtxoApply UtxoRules UtxoDeferred UtxoLedger BlockParse BlockWeight BlockDa BlockBasic ConnectBlock.
From S2P Require Import NodeText ChainState ChainDisk Undo Chain BlockStore StoreFiles AtomicWrite Headers.
From S2P Require Import Base64 Uint128 StoreEnvelope UndoDisk UndoEnvelope StoreCommit ChainFile Branch PendingOwner StoreOps Replay PvTelemetry.
From S2P Require Import DaComplete SyncEngine SyncReorg SyncState SyncSafety.

(** A method that returns from every engine. *)
Class Total {A} (m : Eng A) : Prop := total_run : ∀ e, is_Some (m e).
#[global] Hint Mode Total - ! : typeclass_instances.

Section combinators.
Implicit Types (e : SyncEngine).

#[export] Instance total_ret {A} (a : A) : Total (mret a).
Proof. intros e. by eexists. Qed.
#[export] Instance total_fail {A} s : Total (eng_fail (A := A) s).
Proof. intros e. by eexists. Qed.
#[export] Instance total_res {A} (r : nres A) : Total (eng_res r).
Proof. intros e. by eexists. Qed.
#[export] Instance total_read {A} (f : SyncEngine → nres A) : Total (eng_read f).
Proof. intros e. by eexists. Qed.
#[export] Instance total_get {A} (f : SyncEngine → A) : Total (eng_get f).
Proof. intros e. by eexists. Qed.
#[export] Instance total_do f : Total (eng_do f).
Proof. intros e. by eexists. Qed.
#[export] Instance total_bind {A B} (m : Eng A) (k : A → Eng B) : Total m → (∀ a, Total (k a)) → Total (m ≫= k).
Proof.
  intros Hm Hk e. unfold mbind, eng_bind. destruct (Hm e) as [[[a|s] e'] ->]; [apply Hk|by eexists].
Qed.
#[export] Instance total_try {A} (m : Eng A) : Total m → Total (eng_try m).
Proof. intros Hm e. unfold eng_try. destruct (Hm e) as [[r e'] ->]. by eexists. Qed.
Lemma total_read_opt {A} (f : SyncEngine → option (nres A)) : (∀ e, is_Some (f e)) → Total (eng_read_opt f).
Proof. intros Hf e. unfold eng_read_opt. destruct (Hf e) as [r ->]. by eexists. Qed.
End combinators.

(** ** The genesis constants *)

Section constants.
Context `{HS : Sha3} `{HX : Hex}.

Lemma decode_constant s b : chars s = hex_chars b → hex_decode s = Ok b.
Proof.
  intros H. rewrite <- hex_encode_spec in H. apply (f_equal String.string_of_list_ascii) in H. unfold chars in H.
  rewrite !String.string_of_list_ascii_of_string in H. rewrite H. apply hex_decode_encode.
Qed.

Lemma unhex_constant s b : toy_unhex (chars s) = Some b → chars s = hex_chars b → hex_decode s = Ok b.
Proof. intros _. apply decode_constant. Qed.

Ltac decode_const s :=
  let b := eval vm_compute in (default [] (toy_unhex (chars s))) in
  rewrite (decode_constant s b) by (vm_compute; reflexivity).

Lemma genesis_block_decodes : is_Some devnet_genesis_block_bytes.
Proof.
  unfold devnet_genesis_block_bytes, decode_hex_exact. decode_const GENESIS_HEADER_HEX. decode_const GENESIS_TX_HEX. by eexists.
Qed.

Lemma chain_id_decodes : is_Some devnet_genesis_chain_id.
Proof.
  unfold devnet_genesis_chain_id, decode_hex32, genesis_parse_hex32.
  replace (match strip_prefix "0x" GENESIS_CHAIN_ID_HEX with Some v => Some v | None => strip_prefix "0X" GENESIS_CHAIN_ID_HEX end)
    with (@None string) by (vm_compute; reflexivity).
  cbn [default]. decode_const GENESIS_CHAIN_ID_HEX. by eexists.
Qed.

Lemma genesis_hash_decodes : is_Some devnet_genesis_hash.
Proof.
  unfold devnet_genesis_hash, devnet_genesis_block_bytes, decode_hex_exact. decode_const GENESIS_HEADER_HEX. decode_const GENESIS_TX_HEX.
  by eexists.
Qed.

Lemma genesis_identity_total height id b : is_Some (validate_genesis_identity height id b).
Proof.
  unfold validate_genesis_identity, validate_incoming_chain_id. destruct chain_id_decodes as [c ->]. destruct genesis_hash_decodes as [g ->].
  repeat (first [by eexists | progress cbn [mbind option_bind] | match goal with |- context [match ?x with _ => _ end] => destruct x end]).
Qed.
End constants.

(** ** The methods *)

Section methods.
Context `{HS : Sha3} `{HO : OpenSsl} `{BU : BigUintBytes} `{HX : Hex} `{HU : UndoJson} `{HE : EnvelopeJson} `{HJ : StateJson}.
Implicit Types (e : SyncEngine).

Lemma connect_total b target times id rotation registry s :
  is_Some (chain_connect_block_with_suite_context b target times id rotation registry s).
Proof.
  unfold chain_connect_block_with_suite_context. destruct (next_block_context s) as [[h prev]|]; [|by eexists].
  destruct (genesis_identity_total h id b) as [r ->]. by eexists.
Qed.

Lemma target_total st cfg parent height : is_Some (target_context_for_candidate st cfg parent height).
Proof.
  unfold target_context_for_candidate, stock_devnet_target_schedule. destruct (height =? 0); [by eexists|].
  destruct chain_id_decodes as [c ->]. destruct (bool_decide _); cbn; [destruct (negb _)|]; by eexists.
Qed.

#[export] Instance total_mutation : Total mutation_allowed.
Proof. apply total_read. Qed.
#[export] Instance total_begin : Total begin_pending_outpoint_transition.
Proof.
  intros e. unfold begin_pending_outpoint_transition. destruct (se_transition_active e); [by eexists|]. destruct (se_owner e); [|by eexists].
  destruct (handle_begin_transition _) as [[] ?]; by eexists.
Qed.
#[export] Instance total_handle error reload_store reload_chain : Total (handle_persistence_error error reload_store reload_chain).
Proof.
  intros e. unfold handle_persistence_error. destruct (negb _); [by eexists|]. destruct (se_persistence_fault e); [by eexists|].
  destruct (reload_run reload_store reload_chain (set_fault (Some (mkPersistenceFault error None)) e)) as (r & e1 & -> & _). by eexists.
Qed.
#[export] Instance total_run_store op : Total (run_store op).
Proof. intros e. unfold run_store. destruct (se_block_store e); [|by eexists]. destruct (op _). by eexists. Qed.
#[export] Instance total_save path : Total (save_atomic path).
Proof. intros e. destruct (save_atomic_run path e) as (r & sv & fs & ->). by eexists. Qed.
#[export] Instance total_resolve target n : Total (resolve_canonical_apply_target target n).
Proof. destruct target; [apply total_ret|]. apply total_read_opt. intros e. apply target_total. Qed.
#[export] Instance total_abort {A} restore started snapshot proven m : Total (abort_apply (A := A) restore started snapshot proven m).
Proof. unfold abort_apply. apply _. Qed.
#[export] Instance total_connect b x n active clock started snapshot : Total (apply_connect b x n active clock started snapshot).
Proof.
  intros e. unfold apply_connect. unfold connect_input.
  destruct (connect_total (bi_bytes x) (bi_target x) (bi_times x) (bi_chain_id x) (bi_rotation x) (bi_registry x) (se_chain_state e)) as [[[sum|m] s] ->];
    [by eexists|]. apply total_abort.
Qed.
#[export] Instance total_prepare parsed b h n started snapshot summary : Total (apply_prepare parsed b h n started snapshot summary).
Proof.
  intros e. unfold apply_prepare. destruct (complete_da_set_ids_from_parsed_block _); [|apply total_abort].
  destruct (se_block_store e); [|by eexists]. destruct (build_block_undo _ _ _); [by eexists|apply total_abort].
Qed.

(** Case analysis over the ifs and matches of a method. *)
Ltac total := repeat first
  [ apply _
  | progress cbv beta zeta
  | match goal with
    | |- Total (_ ≫= _) => apply total_bind; [|intros ?]
    | |- Total (match ?x with _ => _ end) => destruct x
    | |- ∀ _, _ => intros ?
    end ].

#[export] Instance total_commit parsed b h started snapshot summary undo : Total (apply_commit parsed b h started snapshot summary undo).
Proof. unfold apply_commit. total. Qed.
#[export] Instance total_apply_save before started snapshot summary : Total (apply_save before started snapshot summary).
Proof. unfold apply_save. total. Qed.
#[export] Instance total_apply b times target : Total (apply_block_with_target b times target).
Proof.
  unfold apply_block_with_target. total. intros e. by eexists.
Qed.
#[export] Instance total_apply_block b times : Total (apply_block b times).
Proof. apply total_apply. Qed.
#[export] Instance total_bootstrap : Total bootstrap_canonical_genesis_if_empty.
Proof.
  unfold bootstrap_canonical_genesis_if_empty. total; apply total_read_opt; intros e.
  - destruct chain_id_decodes as [c ->]. by eexists.
  - destruct genesis_block_decodes as [g ->]. by eexists.
Qed.
#[export] Instance total_unsaved {A} rollback h ts m : Total (disconnect_unsaved (A := A) rollback h ts m).
Proof. unfold disconnect_unsaved. total. Qed.
#[export] Instance total_disconnect_prepared p : Total (disconnect_prepared_tip p).
Proof.
  unfold disconnect_prepared_tip. total. intros e. destruct (disconnect_verified_stored_block _ _ _). by eexists.
Qed.
#[export] Instance total_transition {A} (m : Eng A) : Total m → Total (with_transition m).
Proof. intros Hm. unfold with_transition. total. Qed.
#[export] Instance total_disconnect_tip : Total disconnect_tip.
Proof. unfold disconnect_tip. total. Qed.
#[export] Instance total_disconnect_list packet : Total (disconnect_prepared_list packet).
Proof. induction packet as [|p packet IH]; cbn [disconnect_prepared_list]; total. Qed.
#[export] Instance total_disconnect_packet packet : Total (disconnect_prepared_canonical_to_ancestor packet).
Proof. unfold disconnect_prepared_canonical_to_ancestor. total. Qed.
#[export] Instance total_disconnect_to anc : Total (disconnect_canonical_to_ancestor anc).
Proof. unfold disconnect_canonical_to_ancestor. total. Qed.
#[export] Instance total_rollback rb : Total (rollback_apply_block rb).
Proof. unfold rollback_apply_block. total. Qed.
#[export] Instance total_direct b times : Total (apply_direct_if_possible b times).
Proof. unfold apply_direct_if_possible. total. apply total_read_opt. intros e. apply target_total. Qed.
#[export] Instance total_row anc i item : Total (apply_branch_row anc i item).
Proof.
  unfold apply_branch_row. total. apply total_read_opt. intros e. destruct (branch_row_height anc i); [apply target_total|by eexists].
Qed.
#[export] Instance total_branch anc i branch last applied : Total (apply_branch anc i branch last applied).
Proof. revert i last applied; induction branch as [|item branch IH]; intros i last applied; cbn [apply_branch]; total. Qed.
#[export] Instance total_abort_reorg {A} rb old started m : Total (abort_reorg (A := A) rb old started m).
Proof. unfold abort_reorg. total. Qed.
Lemma preview_total anc i branch ts state e : is_Some (preview_branch anc i branch ts state e).
Proof.
  revert i ts state; induction branch as [|item branch IH]; intros i ts state; cbn [preview_branch]; [by eexists|].
  destruct (branch_row_height anc i) as [h|]; [|by eexists].
  destruct (target_total (se_block_store e) (se_cfg e) (rb_prev_hash item) h) as [[t|] ->]; cbn; [|by eexists].
  match goal with |- context [chain_connect_block_with_suite_context ?b ?t ?ts ?i ?ro ?re ?s] =>
    destruct (connect_total b t ts i ro re s) as [[[] s'] ->] end; cbn; [apply IH|by eexists].
Qed.
#[export] Instance total_preferred branch anc : Total (apply_preferred_branch branch anc).
Proof.
  unfold apply_preferred_branch. total. apply total_read_opt. intros e. unfold prepare_preferred_branch.
  destruct (_ ≫= _) as [[[packet state] ts]|]; [|by eexists].
  destruct (preview_total anc 0 branch ts state e) as [r ->]. by eexists.
Qed.
#[export] Instance total_side branch anc height : Total (store_side_block branch anc height).
Proof. unfold store_side_block. total. apply total_read_opt. intros e. apply target_total. Qed.
End methods.

(** ** The calls *)

Section calls.
Context `{HS : Sha3} `{HO : OpenSsl} `{BU : BigUintBytes} `{HX : Hex} `{HU : UndoJson} `{HE : EnvelopeJson} `{HJ : StateJson}.
Implicit Types (e : SyncEngine).

(** One step more than there are block files, two more than header files. *)
Definition enough_fuel (fuel : nat) e : Prop := ∀ st, se_block_store e = Some st →
  (size (dom (dir_files (so_blocks st))) + 1 ≤ fuel)%nat ∧ (size (dom (dir_files (so_headers st))) + 2 ≤ fuel)%nat.

Lemma direct_none b times e e' : apply_direct_if_possible b times e = Some (Ok None, e') → e' = e.
Proof.
  unfold apply_direct_if_possible. intros H.
  apply eng_bind_inv in H as [(? & ? & [=])|(pb & e1 & [= _ <-] & H)].
  apply eng_bind_inv in H as [(? & ? & [=])|(s & e1 & [= _ <-] & H)]. destruct (negb _).
  - destruct (negb _); [done|]. by apply eng_bind_inv in H as [(? & ? & [=])|(? & ? & _ & [=])].
  - destruct (bool_decide _); [|by injection H as <-]. apply eng_bind_inv in H as [(? & ? & [=])|(? & ? & _ & H)].
    apply eng_bind_inv in H as [(? & ? & [=])|(? & ? & _ & H)]. by apply eng_bind_inv in H as [(? & ? & [=])|(? & ? & _ & [=])].
Qed.

Lemma collect_branch_total fuel st h b pb : (size (dom (dir_files (so_blocks st))) + 1 ≤ fuel)%nat → parse_block_bytes b = Ok pb →
  is_Some (collect_branch_to_canonical fuel (Some st) h b).
Proof.
  intros Hf Hp. unfold collect_branch_to_canonical. cbn [ok_or]. run_bind. rewrite Hp. cbn [stringify map_err]. run_bind.
  destruct (collect_loop_ok st fuel [branch_row h pb b] {[h]} (bh_prev_block_hash (pb_header pb))) as (r & -> & _); [|by eexists].
  assert (size (dom (dir_files (so_blocks st)) ∖ {[h]}) ≤ size (dom (dir_files (so_blocks st))))%nat; [|lia].
  apply subseteq_size. set_solver.
Qed.

Lemma switch_total fuel st tip branch k : (size (dom (dir_files (so_headers st))) + 2 ≤ fuel)%nat →
  is_Some (should_switch_to_branch fuel (Some st) tip branch k).
Proof.
  intros Hf. unfold should_switch_to_branch. destruct (chain_work_path fuel st tip Hf) as (r & -> & _). cbn [mbind option_bind].
  destruct (map_err _ r); [|by eexists]. destruct (chain_work_path fuel st k Hf) as (r2 & -> & _). by eexists.
Qed.

Lemma reorg_total fuel b times e : enough_fuel fuel e → is_Some (apply_block_with_reorg fuel b times e).
Proof.
  intros Hf. unfold apply_block_with_reorg, mbind at 1, eng_bind. cbn [mutation_allowed eng_read].
  destruct (se_persistence_fault e); [by eexists|]. unfold mbind at 1, eng_bind, eng_res at 1.
  destruct (parse_block_bytes b) as [pb|] eqn:Hp; cbn [stringify map_err]; [|by eexists]. unfold mbind at 1, eng_bind, eng_res at 1.
  destruct (block_hash (pb_header_bytes pb)) as [bh|]; cbn [stringify map_err]; [|by eexists]. unfold mbind at 1, eng_bind.
  destruct (total_direct b times e) as [[[[sum|]|m] e1] Hd]; rewrite Hd; [|apply direct_none in Hd as ->|by eexists].
  { apply (total_bind (eng_res (from_validated_block pb b)) (λ cleanup, mret (mkReorgOutcome sum cleanup))); [apply total_res|]. intros a. apply total_ret. }
  unfold mbind at 1, eng_bind, eng_read at 1. destruct (se_block_store e) as [st|] eqn:Hst; cbn [ok_or]; [|by eexists].
  destruct (Hf st Hst) as [Hb Hh]. unfold mbind at 1, eng_bind, eng_read_opt at 1. rewrite Hst.
  destruct (collect_branch_total fuel st bh b pb Hb Hp) as [[[[rows k] anc]|m] ->]; [|by eexists]. cbn [fmap option_fmap option_map].
  unfold mbind at 1, eng_bind, eng_read_opt at 1. rewrite Hst.
  destruct (switch_total fuel st (ch_tip_hash (se_chain_state e)) rows k Hh) as [[[[] height]|m] ->]; cbn [fmap option_fmap option_map]; [| |by eexists].
  - apply total_preferred.
  - apply total_side.
Qed.

Definition call_fuel (c : engine_call) e : Prop := match c with CallReorg fuel _ _ => enough_fuel fuel e | _ => True end.

Lemma forget_total {A} (o : option (nres A * SyncEngine)) : is_Some o → is_Some (forget o).
Proof. intros [[r e] ->]. by eexists. Qed.

Lemma call_returns c e : call_fuel c e → is_Some (run_call c e).
Proof.
  destruct c; cbn [run_call call_fuel]; intros Hf; try apply forget_total; try apply _.
  - apply total_apply_block.
  - by apply reorg_total.
  - apply total_disconnect_tip.
  - apply total_disconnect_to.
  - apply total_bootstrap.
  - unfold bind_pending_outpoint_owner. destruct (se_owner e); [by eexists|]. destruct (map_err _ _); [|by eexists]. destruct (negb _); by eexists.
  - by eexists.
Qed.
End calls.

(** ** What the engine guarantees *)

Section guarantees.
Context `{HS : Sha3} `{HO : OpenSsl} `{BU : BigUintBytes} `{HX : Hex} `{HU : UndoJson} `{HE : EnvelopeJson} `{HJ : StateJson}.
Implicit Types (e : SyncEngine) (l : list (BlockInputs * BlockUndo)).

(** What offering a block leaves. *)
Definition offered fuel l b e (res : nres ApplyBlockWithReorgOutcome) e' : Prop :=
  match res with
  | Ok out => store_grows (se_block_store e) (se_block_store e') ∧ se_persistence_fault e' = None ∧ taken fuel l b e out e'
  | Err m => refused l e m e'
  end.

(** C9: a block offered to the engine, whatever the writes do. The engine
    whose state is the replay of the chain [l], and whose index and files hold
    it, ends in one of these ways, unless two different transactions of the
    blocks listed (those of the chain, those in the block files and the offered
    one) have the same id. The block extends the chain; or its branch, collected from the store and
    preferred by [should_switch_to_branch], has replaced what was above the
    common ancestor, with the depth, the height, the reports and the blocks to
    requeue as the two branches say; or the branch is not preferred and the
    block is only stored. A refusal leaves the old chain, unless a fault is
    latched or the message reports a failed rollback, and then the engine
    still holds the replay of a chain. No stored file changes. *)
Theorem engine_reorganizes fuel l b times e res e' : synced l e → se_persistence_fault e = None → len b < isize_max →
  apply_block_with_reorg fuel b times e = Some (res, e') →
  clash ((block_of <$> l) ++ stored_blocks e ++ [b]) ∨ offered fuel l b e res e'.
Proof. apply reorg_step. Qed.

(** Applying a block directly, whatever the writes do: it extends the
    replayed chain by one block whose undo record, header and bytes are then in
    the store, with the heights, the timestamp and the report of the block; or
    it is refused and chain, index and gauges are as before; or a fault is
    latched and the call is an error (unless two different transactions of the
    chain and the block have the same id). *)
Theorem engine_applies l b times e res e' : synced l e → se_persistence_fault e = None → len b ≤ isize_max →
  apply_block b times e = Some (res, e') → clash ((block_of <$> l) ++ [b]) ∨ applied l b e res e'.
Proof. apply apply_block_applied. Qed.

(** Taking blocks off down to an ancestor: the chain that is left is the
    part up to the ancestor and the blocks are returned from the tip down; a
    failure leaves a prefix of the chain, or a latched fault. *)
Theorem engine_disconnects anc l e res e' : synced l e → se_persistence_fault e = None → 0 ≤ anc →
  disconnect_canonical_to_ancestor anc e = Some (res, e') →
  taken_off l e (λ blocks l0, l0 = take (Z.to_nat (anc + 1)) l ∧ blocks = reverse (block_of <$> drop (Z.to_nat (anc + 1)) l)) res e'.
Proof. apply disconnect_to_step. Qed.

Lemma reachable_latched e cs e' : faulted e → reachable e cs e' → core e' = core e.
Proof.
  intros Hf H. induction H as [|cs e1 c r e2 Hr IH Hc H]; [done|]. apply call_latched in H as [Hcore _]; [congruence|].
  unfold faulted. by rewrite (core_fault _ _ IH).
Qed.

(** What a sequence of calls leaves: a consistent engine, or one that stopped
    at a call that latched a fault. *)
Definition settled e cs e' : Prop :=
  consistent e'
  ∨ ∃ cs1 c cs2 e1 e2 m, cs = cs1 ++ c :: cs2 ∧ reachable e cs1 e1 ∧ consistent e1 ∧ run_call c e1 = Some (Err m, e2)
      ∧ faulted e2 ∧ reachable e2 cs2 e' ∧ core e' = core e2.


(** A latched fault stops the engine: every call that could change the
    chain returns the error for a fault and leaves the whole engine as it is;
    binding an owner and noting a height do not touch state, store or fault. *)
Theorem fault_latched c e r e' : faulted e → run_call c e = Some (r, e') → latched c e r e'.
Proof. apply call_latched. Qed.

(** C11: every call of the engine returns, from every engine: the genesis
    constants decode, and collecting and weighing a branch need at most one
    step per stored file, so fuel in the number of files is enough. *)
Theorem engine_returns c e : call_fuel c e → ∃ r e', run_call c e = Some (r, e').
Proof. intros Hf. destruct (call_returns c e Hf) as [[r e'] H]. by exists r, e'. Qed.
End guarantees.

(** ** Witness: an engine that reorganizes *)

Definition demo_dir (ext : string) : Directory := mkDirectory "store" ext ∅.
Definition demo_empty_store : Store :=
  mkStore (mkBlockStore "index.json" [] [] []) (demo_dir ".bin") (demo_dir ".bin") (demo_dir ".json").
Definition demo_sync_config : SyncConfig := mkSyncConfig 512 86400 None (zeros 32) None "testnet" None "off" 3.
Definition demo_engine (faults : list (option WriteFault)) : SyncEngine :=
  mkSyncEngine ChainState_new (Some demo_empty_store) demo_sync_config 0 0 0 0 (mkPvState PvOff 3 0 [] (PVTelemetry_new PvOff)) None None false
    NoFile faults [].
Abbreviation demo_call := (run_call (HS := toy_sha3) (HO := toy_openssl) (BU := toy_biguint) (HX := toy_hex) (HU := toy_undo_json)
  (HE := toy_envelope_json) (HJ := toy_state_json)).
Definition demo_calls (cs : list engine_call) (e : SyncEngine) : option SyncEngine :=
  foldl (λ o c, e ← o; snd <$> demo_call c e) (Some e) cs.
Definition demo_tip (o : option SyncEngine) : option (Z * bytes * bool) :=
  (λ e, (ch_height (se_chain_state e), ch_tip_hash (se_chain_state e), bool_decide (se_persistence_fault e = None))) <$> o.

(** The chain of genesis and the fork, and the engine that has applied them. *)
Definition demo_input_fork : BlockInputs := demo_input demo_fork (Some [1000]).
Abbreviation demo_build_undo := (build_block_undo (HS := toy_sha3) (HX := toy_hex)).
Definition no_undo : BlockUndo := mkBlockUndo 0 0 [].
Definition demo_undo_of (s : ChainState) (pb : ParsedBlock) : BlockUndo :=
  match demo_build_undo s (enc_block pb) (next_height s) with Ok u => u | Err _ => no_undo end.
Definition demo_records : list (BlockInputs * BlockUndo) :=
  [(demo_input0, demo_undo_of ChainState_new demo_block0); (demo_input_fork, demo_undo_of demo_chain0 demo_fork)].
Definition demo_after (cs : list engine_call) : SyncEngine := default (demo_engine []) (demo_calls cs (demo_engine [])).
Definition demo_fork_calls : list engine_call := [CallApply (enc_block demo_block0) None; CallApply (enc_block demo_fork) None].
Definition demo_engine2 : SyncEngine := demo_after demo_fork_calls.
Definition demo_store2 : Store := default demo_empty_store (se_block_store demo_engine2).

Definition replay_checks (l : list (BlockInputs * BlockUndo)) (x : BlockInputs) (s s' : ChainState) : bool :=
  bool_decide (NoDup (txid_of (HS := toy_sha3) <$> txs_of (HS := toy_sha3) (l.*1 ++ [x]))) &&
  (match demo_connect_input x s with Some (Ok _, s1) => bool_decide (s1 = s') | _ => false end
  && bool_decide (len (bi_bytes x) ≤ isize_max) && is_ok (demo_build_undo s (bi_bytes x) (next_height s))).

Lemma replay_checked l s pb times s' : replay (HS := toy_sha3) (HO := toy_openssl) (HX := toy_hex) l s → replay_checks l (demo_input pb times) s s' = true →
  replay (HS := toy_sha3) (HO := toy_openssl) (HX := toy_hex) (l ++ [(demo_input pb times, demo_undo_of s pb)]) s'.
Proof.
  unfold replay_checks. rewrite !andb_true_iff, !bool_decide_eq_true. intros Hr [Hd [[Hc Hb] Hu]].
  destruct (demo_connect_input (demo_input pb times) s) as [[[sum|] s1]|] eqn:E; [|done..]. apply bool_decide_eq_true in Hc as ->.
  econstructor; [exact Hr|exact Hb|exact E| |exact Hd]. cbn [bi_bytes demo_input] in *. unfold demo_undo_of.
  destruct (demo_build_undo s (enc_block pb) (next_height s)); [done|by cbn in Hu].
Qed.

Lemma demo_records_checks : replay_checks [] demo_input0 ChainState_new demo_chain0
  && replay_checks (take 1 demo_records) demo_input_fork demo_chain0 (se_chain_state demo_engine2) = true.
Proof. vm_cast_no_check (eq_refl true). Qed.

Lemma demo_records_replay : replay (HS := toy_sha3) (HO := toy_openssl) (HX := toy_hex) demo_records (se_chain_state demo_engine2).
Proof.
  pose proof demo_records_checks as [H0 H1]%andb_true_iff.
  pose proof (replay_checked _ _ _ _ _ (replay_nil (HS := toy_sha3) (HO := toy_openssl) (HX := toy_hex)) H0) as Hr0.
  exact (replay_checked _ _ _ _ _ Hr0 H1).
Qed.

#[export] Instance SpentUndo_eq_dec : EqDecision SpentUndo.
Proof. solve_decision. Defined.
#[export] Instance TxUndo_eq_dec : EqDecision TxUndo.
Proof. solve_decision. Defined.
#[export] Instance BlockUndo_eq_dec : EqDecision BlockUndo.
Proof. solve_decision. Defined.
Definition holds_content (d : Directory) (h content : bytes) : bool :=
  match dir_files d !! h with Some (Content c) => bool_decide (c = content) | _ => false end.
Lemma holds_content_true d h content : holds_content d h content = true → dir_files d !! h = Some (Content content).
Proof. unfold holds_content. destruct (dir_files d !! h) as [[c| |]|]; try done. by intros ->%bool_decide_eq_true. Qed.
Abbreviation demo_hash_of := (input_hash (HS := toy_sha3)).
Definition kept_checks (st : Store) (r : BlockInputs * BlockUndo) : bool :=
  holds_content (so_blocks st) (demo_hash_of r) (bi_bytes r.1)
  && match parse_block_bytes (HS := toy_sha3) (bi_bytes r.1) with
     | Ok pb => holds_content (so_headers st) (demo_hash_of r) (pb_header_bytes pb) | Err _ => false end
  && match store_get_undo (HS := toy_sha3) (HX := toy_hex) (HU := toy_undo_json) st (demo_hash_of r) with
     | Ok u => bool_decide (u = r.2) | Err _ => false end.

Lemma kept_checked st r : kept_checks st r = true → kept (HS := toy_sha3) (HX := toy_hex) (HU := toy_undo_json) st r.
Proof.
  unfold kept_checks. rewrite !andb_true_iff. intros [[Hb Hh] Hu]. split.
  - by apply holds_content_true.
  - destruct (parse_block_bytes (bi_bytes r.1)) as [pb|]; [|done]. exists pb. split; [done|]. by apply holds_content_true.
  - destruct (store_get_undo st (demo_hash_of r)); [|done]. by apply bool_decide_eq_true in Hu as ->.
Qed.

Definition index_checks (st : Store) (hs : list bytes) : bool :=
  bool_decide (bs_canonical (so_index st) = hex_encode (Hex := toy_hex) <$> index_list st)
  && bool_decide (Forall (λ h : bytes, len h = 32) (index_list st)) && bool_decide (bs_disk (so_index st) = bs_canonical (so_index st))
  && bool_decide (index_list st = hs).
Lemma index_checked st hs : index_checks st hs = true → index_ok (HX := toy_hex) st ∧ index_list st = hs.
Proof. unfold index_checks. rewrite !andb_true_iff, !bool_decide_eq_true. intros [[[? ?] ?] ?]. by repeat split. Qed.

Lemma demo_store_checks : forallb (kept_checks demo_store2) demo_records && index_checks demo_store2 (demo_hash_of <$> demo_records) = true.
Proof. vm_cast_no_check (eq_refl true). Qed.

Lemma demo_synced2 : synced (HS := toy_sha3) (HO := toy_openssl) (HX := toy_hex) (HU := toy_undo_json) demo_records demo_engine2.
Proof.
  split; [apply demo_records_replay|]. intros st Hst.
  assert (st = demo_store2) as -> by (unfold demo_store2; by rewrite Hst). clear Hst.
  pose proof demo_store_checks as [Hk Hi]%andb_true_iff. apply index_checked in Hi as [Hi Hx].
  split; [exact Hi|]. split; [exists []; by rewrite app_nil_r|].
  apply list.Forall_forall. intros r Hr. apply kept_checked. rewrite forallb_forall in Hk. apply Hk. by apply list_elem_of_In.
Qed.

Abbreviation demo_reorg_call := (apply_block_with_reorg (HS := toy_sha3) (HO := toy_openssl) (BU := toy_biguint) (HX := toy_hex)
  (HU := toy_undo_json) (HE := toy_envelope_json) (HJ := toy_state_json) 9 (enc_block demo_block1) None demo_engine2).

(** The fork is replaced by the block with the smaller hash. *)
Definition replaced_one (o : option (nres ApplyBlockWithReorgOutcome * SyncEngine)) : bool :=
  match o with
  | Some (Ok out, e) => (ks_block_height (ro_summary out) =? 1) && (se_last_reorg_depth e =? 1)
      && (len (cp_requeue_blocks (ro_tx_pool_cleanup out)) =? 1)
  | _ => false
  end.
Lemma replaced_one_run o : replaced_one o = true → ∃ out e, o = Some (Ok out, e) ∧ se_last_reorg_depth e = 1.
Proof.
  destruct o as [[[out|] e]|]; [|done..]. intros [[_ H]%andb_true_iff _]%andb_true_iff. exists out, e. split; [done|]. by apply Z.eqb_eq.
Qed.
Lemma demo_reorganized : replaced_one demo_reorg_call = true.
Proof. vm_cast_no_check (eq_refl true). Qed.
Lemma demo_small : len (enc_block demo_block1) < isize_max.
Proof. vm_compute. reflexivity. Qed.
Lemma demo_unfaulted : se_persistence_fault demo_engine2 = None.
Proof. vm_compute. reflexivity. Qed.

Lemma engine_reorganizes_witness : ∃ out e', demo_reorg_call = Some (Ok out, e') ∧ se_last_reorg_depth e' = 1
  ∧ (clash (HS := toy_sha3) ((block_of <$> demo_records) ++ stored_blocks demo_engine2 ++ [enc_block demo_block1]) ∨
     taken (HS := toy_sha3) (HO := toy_openssl) (HX := toy_hex) (HU := toy_undo_json) 9 demo_records
       (enc_block demo_block1) demo_engine2 out e').
Proof.
  destruct (replaced_one_run _ demo_reorganized) as (out & e' & E & H). exists out, e'. split; [exact E|]. split; [exact H|].
  destruct (engine_reorganizes (HS := toy_sha3) (HO := toy_openssl) (BU := toy_biguint) (HX := toy_hex) (HU := toy_undo_json)
    (HE := toy_envelope_json) (HJ := toy_state_json) 9 demo_records (enc_block demo_block1) None demo_engine2 (Ok out) e'
    demo_synced2 demo_unfaulted demo_small E) as [Hc|(_ & _ & Ht)]; [left; exact Hc|right; exact Ht].
Defined.

Lemma engine_applies_witness : demo_tip (demo_calls [CallApply (enc_block demo_block0) None] (demo_engine [])) =
    Some (0, demo_block_hash demo_block0, true)
  ∧ ∀ res e', apply_block (HS := toy_sha3) (HO := toy_openssl) (BU := toy_biguint) (HX := toy_hex) (HU := toy_undo_json) (HE := toy_envelope_json)
      (HJ := toy_state_json) (enc_block demo_block0) None (demo_engine []) = Some (res, e') →
    clash (HS := toy_sha3) [enc_block demo_block0] ∨ applied (HS := toy_sha3) (HO := toy_openssl) (HX := toy_hex) (HU := toy_undo_json)
      [] (enc_block demo_block0) (demo_engine []) res e'.
Proof.
  split; [vm_compute; reflexivity|]. intros res e' H.
  refine (engine_applies [] _ None (demo_engine []) res e' _ eq_refl _ H); [|vm_compute; discriminate].
  apply synced_new; [reflexivity|]. intros st [= <-]. split; [split; [reflexivity|constructor]|reflexivity].
Defined.

Lemma engine_disconnects_witness : ∀ res e', disconnect_canonical_to_ancestor (HS := toy_sha3) (HX := toy_hex) (HU := toy_undo_json)
    (HE := toy_envelope_json) (HJ := toy_state_json) 0 demo_engine2 = Some (res, e') →
  taken_off (HS := toy_sha3) (HO := toy_openssl) (HX := toy_hex) (HU := toy_undo_json) demo_records demo_engine2
    (λ blocks l0, l0 = take 1 demo_records ∧ blocks = [enc_block demo_fork]) res e'.
Proof.
  intros res e' H. exact (engine_disconnects 0 demo_records demo_engine2 res e' demo_synced2 demo_unfaulted ltac:(lia) H).
Defined.

(** A disconnection that runs, and what it returns. *)
Example demo_disconnect_runs :
  match disconnect_canonical_to_ancestor (HS := toy_sha3) (HX := toy_hex) (HU := toy_undo_json)
    (HE := toy_envelope_json) (HJ := toy_state_json) 0 demo_engine2 with
  | Some (Ok blocks, e) => (len blocks =? 1) && (ch_height (se_chain_state e) =? 0)
  | _ => false
  end = true.
Proof. vm_cast_no_check (eq_refl true). Qed.

Abbreviation demo_reachable := (reachable (HS := toy_sha3) (HO := toy_openssl) (BU := toy_biguint) (HX := toy_hex) (HU := toy_undo_json)
  (HE := toy_envelope_json) (HJ := toy_state_json)).
Lemma reachable_calls e cs : ∀ e', Forall call_in_memory cs → demo_calls cs e = Some e' → demo_reachable e cs e'.
Proof.
  induction cs as [|c cs IH] using rev_ind; intros e' Hm H; [injection H as <-; constructor|].
  apply Forall_app in Hm as [Hm Hc]. apply list.Forall_cons in Hc as [Hc _]. unfold demo_calls in H. rewrite foldl_snoc in H.
  destruct (foldl _ (Some e) cs) as [e1|] eqn:E1; [|done]. cbn [mbind option_bind] in H.
  destruct (demo_call c e1) as [[r e2]|] eqn:E2; [|done]. injection H as <-. econstructor; [by apply IH|done|exact E2].
Qed.

Definition demo_reorg_calls : list engine_call := demo_fork_calls ++ [CallReorg 9 (enc_block demo_block1) None].
Lemma demo_calls_memory : Forall call_in_memory demo_reorg_calls.
Proof. repeat constructor; vm_compute; reflexivity. Qed.
Lemma demo_engine_consistent faults : consistent (HS := toy_sha3) (HO := toy_openssl) (HX := toy_hex) (HU := toy_undo_json) (demo_engine faults).
Proof.
  split; [reflexivity|]. exists []. apply synced_new; [reflexivity|]. intros st [= <-]. split; [split; [reflexivity|constructor]|reflexivity].
Qed.
Lemma demo_calls_run : is_Some (demo_calls demo_reorg_calls (demo_engine [])).
Proof. apply (bool_decide_unpack (is_Some _)). vm_cast_no_check I. Qed.


(** The fourth write, of the index, fails after its commit. *)
Definition demo_faulted : SyncEngine :=
  default (demo_engine []) (demo_calls [CallApply (enc_block demo_block0) None]
    (demo_engine [None; None; None; Some (mkWriteFault AfterNamespaceCommit "io" [])])).
Lemma demo_fault_there : is_none (se_persistence_fault demo_faulted) = false.
Proof. vm_cast_no_check (eq_refl false). Qed.
Lemma fault_latched_witness : faulted demo_faulted ∧ ∃ r e', demo_call (CallApply (enc_block demo_block0) None) demo_faulted = Some (r, e')
  ∧ latched (CallApply (enc_block demo_block0) None) demo_faulted r e'.
Proof.
  assert (faulted demo_faulted) as Hf by (intros Hn; pose proof demo_fault_there as H; rewrite Hn in H; discriminate H).
  split; [exact Hf|].
  destruct (call_returns (HS := toy_sha3) (HO := toy_openssl) (BU := toy_biguint) (HX := toy_hex) (HU := toy_undo_json)
    (HE := toy_envelope_json) (HJ := toy_state_json) (CallApply (enc_block demo_block0) None) demo_faulted I) as [[r e'] H].
  exists r, e'. split; [exact H|].
  exact (fault_latched (HS := toy_sha3) (HO := toy_openssl) (BU := toy_biguint) (HX := toy_hex) (HU := toy_undo_json)
    (HE := toy_envelope_json) (HJ := toy_state_json) _ demo_faulted r e' Hf H).
Defined.

Lemma engine_returns_witness : ∃ r e', demo_call (CallReorg 9 (enc_block demo_block1) None) demo_engine2 = Some (r, e').
Proof.
  apply (engine_returns (HS := toy_sha3) (HO := toy_openssl) (BU := toy_biguint) (HX := toy_hex) (HU := toy_undo_json)
    (HE := toy_envelope_json) (HJ := toy_state_json)).
  intros st Hst. assert (st = demo_store2) as -> by (unfold demo_store2; by rewrite Hst).
  split; apply Nat.leb_le; vm_compute; reflexivity.
Defined.
