(* ===== verification/Recovery.v ===== *)
(** * Recovery at startup ([chainstate_recovery.rs])

    Before the engine starts, the index is cut to the blocks whose files are
    all there, and the saved state is kept, carried forward or rebuilt by
    replaying the indexed blocks. *)

From Stdlib Require Import Ascii.
From stdpp Require Import pretty.
From S2P Require Import Prelude Bytes BTree Errors Constants Crypto WireRead CompactSize TxWire TxCodec Block Merkle Pow Subsidy.
From S2P Require Import Vault Suites Verify SigCache WorkerPool SigQueue Sighash Spend Htlc Stealth CovenantGenesis.
From S2P Require Import UtxoApply UtxoRules UtxoDeferred UtxoLedger BlockParse BlockWeight BlockDa BlockBasic ConnectBlock.
From S2P Require Import NodeText ChainState ChainDisk Undo Chain BlockStore StoreFiles AtomicWrite Headers.
From S2P Require Import Base64 Uint128 StoreEnvelope UndoDisk UndoEnvelope StoreCommit ChainFile Branch PendingOwner StoreOps Replay PvTelemetry.
From S2P Require Import DaComplete SyncEngine SyncReorg SyncState SyncSafety SyncTotal.

(* rust: node/chainstate_recovery.rs 191-192 CANONICAL_INDEX_ZERO_COMPLETE_PREFIX_ERR *)
Definition CANONICAL_INDEX_ZERO_COMPLETE_PREFIX_ERR : string := "persisted canonical index has zero complete prefix".

Section recovery.
Context `{HS : Sha3} `{HO : OpenSsl} `{BU : BigUintBytes} `{HX : Hex} `{HU : UndoJson}.
Implicit Types (self : Store).

(** One pass of the scan: whether header, block and undo record are there.
    [false] ends the loop. *)
(* rust: node/chainstate_recovery.rs 161-172 truncate_incomplete_canonical_suffix *)
Definition artifacts_complete self (block_hash : bytes) : nres bool :=
  has_header ← try_has_block self block_hash;
  if negb has_header then Ok false else
  _ ← get_header_by_hash self block_hash;
  has_data ← try_has_block_data self block_hash;
  if negb has_data then Ok false else
  _ ← get_block_by_hash self block_hash;
  has_undo ← try_has_undo self block_hash;
  if negb has_undo then Ok false else
  _ ← store_get_undo self block_hash;
  Ok true.

(* rust: node/chainstate_recovery.rs 146-174 truncate_incomplete_canonical_suffix *)
Fixpoint scan_complete self (heights : list Z) (valid_count : Z) : nres Z :=
  match heights with
  | [] => Ok valid_count
  | height :: heights =>
      block_hash ← ok_or (canonical_hash (so_index self) height)
                     ("canonical index hole at height " +:+ pretty height +:+ " during truncate scan")%string;
      complete ← artifacts_complete self block_hash;
      if complete : bool then scan_complete self heights (valid_count + 1) else Ok valid_count
  end.

(* rust: node/chainstate_recovery.rs 138-183 truncate_incomplete_canonical_suffix *)
Definition truncate_incomplete_canonical_suffix : ST StoreIo string bool := λ s,
  let canonical_len := len (bs_canonical (so_index (io_store s))) in
  match scan_complete (io_store s) (seqZ 0 canonical_len) 0 with
  | Err e => (Err e, s)
  | Ok valid_count =>
      if (0 <? canonical_len) && (valid_count =? 0) then (Err CANONICAL_INDEX_ZERO_COMPLETE_PREFIX_ERR, s) else
      if valid_count =? canonical_len then (Ok false, s) else
      let '(r, s) := store_truncate valid_count s in
      (_ ← map_err display_write_error r; Ok true, s)
  end.

(* rust: node/chainstate_recovery.rs 428-446 prev_timestamps_from_store *)
Definition prev_timestamps_from_store self (height : Z) : nres (option (list Z)) :=
  if height =? 0 then Ok None else
  let window_len := Z.min height 11 in
  out ← try_fold (push_timestamp self height) [] (seqZ 0 window_len);
  Ok (Some out).

(** [None] is a panic of the genesis constants. *)
(* rust: node/chainstate_recovery.rs 395-415 replay_expected_target *)
Definition replay_expected_target self (cfg : SyncConfig) (height tip_height : Z) : option (nres (option bytes)) :=
  if height =? 0 then Some (Ok (cfg_expected_target cfg)) else
  stock ← stock_devnet_target_schedule (cfg_network cfg) (cfg_chain_id cfg);
  if negb stock then Some (Ok (cfg_expected_target cfg)) else
  Some (parent_hash ← ok_or (canonical_hash (so_index self) (height - 1))
          ("missing canonical parent hash for target context during chainstate replay at height " +:+ pretty height
           +:+ " (tip_height=" +:+ pretty tip_height +:+ ")")%string;
        map_err target_schedule_error_message (Some <$> expected_target_for_candidate self parent_hash height)).

(** The block of a height, read back and checked against the index, with its
    context. *)
(* rust: node/chainstate_recovery.rs 333-375 reconcile_chain_state_with_block_store *)
Definition replay_input self (cfg : SyncConfig) (height tip_height : Z) : option (nres BlockInputs) :=
  match ok_or (canonical_hash (so_index self) height)
          ("missing canonical block hash during chainstate replay at height " +:+ pretty height +:+ " (tip_height="
           +:+ pretty tip_height +:+ ")")%string with
  | Err e => Some (Err e)
  | Ok block_hash_bytes =>
      target ← replay_expected_target self cfg height tip_height;
      Some (expected_target ← target;
        block_bytes ← get_block_by_hash self block_hash_bytes;
        parsed ← map_err (λ e, "parse block bytes during chainstate replay at height " +:+ pretty height +:+ ": " +:+ display e)%string
                   (parse_block_bytes block_bytes);
        observed_hash ← map_err (λ e, "hash header during chainstate replay at height " +:+ pretty height +:+ ": " +:+ display e)%string
                          (block_hash (pb_header_bytes parsed));
        if negb (bool_decide (observed_hash = block_hash_bytes))
        then fail ("canonical artifact corruption during chainstate replay at height " +:+ pretty height +:+ ": expected "
                   +:+ hex_encode block_hash_bytes +:+ ", on-disk header hashes to " +:+ hex_encode observed_hash)%string else
        prev_timestamps ← prev_timestamps_from_store self height;
        Ok (mkBlockInputs block_bytes expected_target prev_timestamps (cfg_chain_id cfg) (fst <$> cfg_suite_context cfg)
              (snd <$> cfg_suite_context cfg)))
  end.

(** An error keeps the blocks that were replayed before. *)
(* rust: node/chainstate_recovery.rs 326-378 reconcile_chain_state_with_block_store *)
Fixpoint replay_blocks self (cfg : SyncConfig) (tip_height : Z) (heights : list Z) (changed : bool) (state : ChainState) :
    option (nres bool * ChainState) :=
  match heights with
  | [] => Some (Ok changed, state)
  | height :: heights =>
      input ← replay_input self cfg height tip_height;
      match input with
      | Err e => Some (Err e, state)
      | Ok x =>
          '(r, state) ← connect_input x state;
          match r with
          | Err e => Some (Err e, state)
          | Ok _ => replay_blocks self cfg tip_height heights true state
          end
      end
  end.

(** Where the replay starts, and from which state; [None] is that nothing is
    to be replayed. *)
(* rust: node/chainstate_recovery.rs 282-304 reconcile_chain_state_with_block_store *)
Definition replay_start self (tip_height : Z) (state : ChainState) (changed : bool) : option (Z * bool * ChainState) :=
  if ch_has_tip state then
    if ch_height state <=? tip_height then
      match canonical_hash (so_index self) (ch_height state) with
      | Some canonical_hash =>
          if bool_decide (canonical_hash = ch_tip_hash state)
          then if ch_height state =? tip_height then None else Some (ch_height state + 1, changed, state)
          else Some (0, true, ChainState_new)
      | None => Some (0, true, ChainState_new)
      end
    else Some (0, true, ChainState_new)
  else Some (0, true, ChainState_new).

(* rust: node/chainstate_recovery.rs 258-380 reconcile_chain_state_with_block_store *)
Definition reconcile_chain_state_with_block_store (cfg : SyncConfig) (state : ChainState) (s : StoreIo) :
    option (nres bool * ChainState * StoreIo) :=
  match truncate_incomplete_canonical_suffix s with
  | (Err e, s) => Some (Err e, state, s)
  | (Ok truncated, s) =>
      let store := io_store s in
      match bs_tip (so_index store) with
      | None =>
          if truncated || negb (bool_decide (state = ChainState_new)) then Some (Ok true, ChainState_new, s) else Some (Ok false, state, s)
      | Some (tip_height, _) =>
          match replay_start store tip_height state truncated with
          | None => Some (Ok truncated, state, s)
          | Some (replay_from, changed, state) =>
              '(r, state) ← replay_blocks store cfg tip_height (seqZ replay_from (tip_height + 1 - replay_from)) changed state;
              Some (r, state, s)
          end
      end
  end.
End recovery.

(** ** What the recovery leaves *)

Section results.
Context `{HS : Sha3} `{HO : OpenSsl} `{BU : BigUintBytes} `{HX : Hex} `{HU : UndoJson}.
Implicit Types (self : Store) (l : list (BlockInputs * BlockUndo)).

Lemma scan_ok self n : ∀ k c m, scan_complete self (seqZ k (Z.of_nat n)) c = Ok m → ∃ j, (j ≤ n)%nat ∧ m = c + Z.of_nat j
  ∧ (∀ i, (i < j)%nat → ∃ h, canonical_hash (so_index self) (k + Z.of_nat i) = Some h ∧ artifacts_complete self h = Ok true)
  ∧ ((j < n)%nat → ∃ h, canonical_hash (so_index self) (k + Z.of_nat j) = Some h ∧ artifacts_complete self h = Ok false).
Proof.
  induction n as [|n IH]; intros k c m H.
  { injection H as <-. exists 0%nat. split; [lia|]. split; [lia|]. split; intros; lia. }
  rewrite seqZ_cons in H by lia. cbn [scan_complete] in H. apply bind_Ok in H as (h & Hh%ok_or_Ok & H). apply bind_Ok in H as ([] & Hc & H).
  - replace (Z.pred (Z.of_nat (S n))) with (Z.of_nat n) in H by lia. apply IH in H as (j & Hj & -> & Hall & Hend).
    exists (S j). split; [lia|]. split; [lia|]. split.
    + intros [|i] Hi; [exists h; by rewrite Z.add_0_r|]. destruct (Hall i ltac:(lia)) as (h' & Hh' & ?). exists h'. split; [|done].
      rewrite <- Hh'. f_equal. lia.
    + intros Hjn. destruct (Hend ltac:(lia)) as (h' & Hh' & ?). exists h'. split; [|done]. rewrite <- Hh'. f_equal. lia.
  - injection H as <-. exists 0%nat. split; [lia|]. split; [lia|]. split; [intros ? ?; lia|]. intros _. exists h. by rewrite Z.add_0_r.
Qed.

(** The index is cut at the first entry whose files are not all there. *)
Definition cut_to_complete (st st' : Store) (truncated : bool) : Prop := ∃ n,
  index_list st' = take n (index_list st)
  ∧ Forall (λ h, artifacts_complete st h = Ok true) (index_list st')
  ∧ if truncated then (0 < n)%nat ∧ ∃ h, index_list st !! n = Some h ∧ artifacts_complete st h = Ok false
    else st' = st.

Lemma truncate_incomplete_ok s r s' : index_ok (io_store s) → truncate_incomplete_canonical_suffix s = (r, s') →
  files_grow (io_store s) (io_store s') ∧ files_grow (io_store s') (io_store s) ∧
  match r with Ok b => index_ok (io_store s') ∧ cut_to_complete (io_store s) (io_store s') b ∧ (b = false → s' = s) | Err _ => True end.
Proof.
  intros Hi. unfold truncate_incomplete_canonical_suffix. rewrite (canonical_len_index _ Hi).
  destruct (scan_complete _ _ 0) as [m|e] eqn:Hscan; [|by intros [= <- <-]].
  apply scan_ok in Hscan as (j & Hj & -> & Hall & Hend). rewrite Z.add_0_l.
  assert (∀ i h, (i < j)%nat → index_list (io_store s) !! i = Some h → artifacts_complete (io_store s) h = Ok true) as Hcomp.
  { intros i h Hij Hh. destruct (Hall i Hij) as (h' & Hh' & Hc). apply canonical_hash_Some in Hh'; [|lia].
    rewrite Z.add_0_l, Nat2Z.id in Hh'. unfold index_list in Hh. rewrite Hh in Hh'. by injection Hh' as <-. }
  assert (Forall (λ h, artifacts_complete (io_store s) h = Ok true) (take j (index_list (io_store s)))) as Hforall.
  { apply list.Forall_lookup_2. intros i h [Hh ?]%lookup_take_Some. by eapply Hcomp. }
  destruct ((0 <? _) && (_ =? 0)) eqn:Hz; [by intros [= <- <-]|]. destruct (Z.of_nat j =? len (index_list (io_store s))) eqn:Hfull.
  { intros [= <- <-]. split; [done|]. split; [done|]. split; [done|]. split; [|done]. exists j.
    rewrite take_ge in * by lia. done. }
  destruct (store_truncate (Z.of_nat j) s) as [r1 s1] eqn:Ht. intros [= <- <-].
  apply (on_index_ok (Truncate (Z.of_nat j))) in Ht as (Hg & Hg' & Ha); [|done|by constructor|lia]. split; [done|]. split; [done|].
  destruct r1 as [[]|e]; cbn [map_err mbind result_bind]; [|done]. destruct Ha as (Hi' & Hx & _). split; [done|]. split; [|done].
  cbn [op_target] in Hx. unfold truncate in Hx. rewrite Nat2Z.id in Hx. exists j. rewrite Hx. split; [done|]. split; [done|].
  split.
  - apply andb_false_iff in Hz as [Hz|Hz]; lia.
  - assert (j < length (index_list (io_store s)))%nat as Hjl by (apply Z.eqb_neq in Hfull; lia).
    destruct (Hend ltac:(lia)) as (h & Hh & Hc). apply canonical_hash_Some in Hh; [|lia]. rewrite Z.add_0_l, Nat2Z.id in Hh. by exists h.
Qed.

Lemma replay_input_Ok self cfg height tip x : 0 ≤ height → replay_input self cfg height tip = Some (Ok x) →
  index_list self !! Z.to_nat height = Some (hash_of (bi_bytes x)) ∧ len (bi_bytes x) ≤ isize_max
  ∧ dir_files (so_blocks self) !! hash_of (bi_bytes x) = Some (Content (bi_bytes x)).
Proof.
  intros Hh. unfold replay_input. destruct (ok_or _ _) as [h|] eqn:Hc; [|by intros [=]]. apply ok_or_Ok, canonical_hash_Some in Hc; [|done].
  destruct (replay_expected_target _ _ _ _) as [[t|]|]; cbn [mbind option_bind result_bind]; [|by intros [=]|by intros [=]].
  intros [= H]. apply bind_Ok in H as (b & Hb & H). apply bind_Ok in H as (pb & Hp & H). apply bind_Ok in H as (o & Ho & H).
  destruct (negb _) eqn:Hne; [done|]. apply negb_false_iff, bool_decide_eq_true in Hne as ->.
  apply bind_Ok in H as (ts & _ & [= <-]). cbn [bi_bytes]. apply map_err_Ok in Hb, Hp, Ho. apply read_block_Ok in Hb as [Hf Hl].
  pose proof (block_size_small _ Hl) as Hs. rewrite (parsed_block_hash b pb Hs Hp) in Ho. injection Ho as <-.
  replace (hash_of b) with (sha3_256 (pb_header_bytes pb)) by (unfold hash_of; by rewrite Hp). by split_and!.
Qed.

(** The replayed blocks are the indexed ones, in order. *)
Lemma replay_blocks_ok self cfg tip n : ∀ l state changed c state', replay l state →
  replay_blocks self cfg tip (seqZ (len l) (Z.of_nat n)) changed state = Some (Ok c, state') →
  clash ((block_of <$> l) ++ dir_contents (so_blocks self)) ∨ ∃ l2, replay (l ++ l2) state' ∧ length l2 = n ∧ hashes l2 = take n (drop (length l) (index_list self))
    ∧ Forall (λ r, dir_files (so_blocks self) !! input_hash r = Some (Content (bi_bytes r.1))) l2 ∧ (changed = true ∨ n ≠ 0%nat → c = true).
Proof.
  induction n as [|n IH]; intros l state changed c state' Hr H.
  { injection H as <- <-. right. exists []. rewrite app_nil_r. split_and!; try done. by intros [?|?]. }
  rewrite seqZ_cons in H by lia. cbn [replay_blocks] in H. destruct (replay_input self cfg (len l) tip) as [[x|e]|] eqn:Hx; [|done..].
  cbn [mbind option_bind] in H. apply replay_input_Ok in Hx as (Hix & Hb & Hf); [|lia]. rewrite Nat2Z.id in Hix.
  destruct (connect_input x state) as [[[sum|e] s1]|] eqn:Hc; [|done..]. cbn [mbind option_bind] in H.
  pose proof (replay_replayed _ _ Hr) as Hrp. assert (bi_bytes x ∈ dir_contents (so_blocks self)) as Hin by (apply dir_contents_elem; by eexists).
  destruct (replayed_distinct _ _ _ _ _ Hrp Hb Hc) as [Hd|Hcl]; [|left; eapply clash_mono; [|exact Hcl]; set_solver + Hin].
  destruct (replayed_connect _ _ _ _ _ Hrp Hb Hc Hd) as (u & pb & Hu & _).
  assert (replay (l ++ [(x, u)]) s1) as Hr1 by (by econstructor).
  replace (seqZ (Z.succ (len l)) (Z.pred (Z.of_nat (S n)))) with (seqZ (len (l ++ [(x, u)])) (Z.of_nat n)) in H
    by (rewrite length_app; cbn; f_equal; lia).
  apply IH in H as [Hcl|(l2 & Hr2 & Hn & Hh & Hfs & Hch)]; [left; eapply clash_mono; [|exact Hcl]| |done].
  { rewrite fmap_app. unfold block_of at 2. cbn [fmap list_fmap fst]. set_solver + Hin. }
  right. exists ((x, u) :: l2).
  rewrite (app_assoc l [(x, u)] l2 : l ++ (x, u) :: l2 = _). split; [done|]. split; [cbn; lia|]. split.
  - rewrite (drop_S _ (hash_of (bi_bytes x)) _ Hix). cbn [take]. unfold hashes in *. rewrite fmap_cons. f_equal. rewrite Hh.
    f_equal. f_equal. rewrite length_app. cbn. lia.
  - split; [by constructor|]. intros _. apply Hch. by left.
Qed.

(** Each entry of the index is the hash of a header among [known] that names
    the entry before. *)
Definition index_linked (known : list bytes) self : Prop :=
  ∀ i h h', index_list self !! i = Some h → index_list self !! S i = Some h' → links known h' h.

Lemma links_mono known known' h h' : known ⊆ known' → links known h h' → links known' h h'.
Proof. intros Hk (raw & hd & Hin & H). exists raw, hd. auto. Qed.

Lemma links_function known h a b : links known h a → links known h b → collision_in known ∨ a = b.
Proof.
  intros (raw & hd & Hi & [Hp Hh] & <-) (raw' & hd' & Hi' & [Hp' Hh'] & <-). rewrite <- Hh' in Hh.
  destruct (sha3_inj_in known raw raw' Hi Hi' Hh) as [->|?]; [right|by left]. rewrite Hp in Hp'. by injection Hp' as ->.
Qed.

(** The headers of the blocks of a chain. *)
Definition chain_headers (l : list (BlockInputs * BlockUndo)) : list bytes := block_headers (block_of <$> l).

Lemma chain_headers_app l1 l2 : chain_headers (l1 ++ l2) = chain_headers l1 ++ chain_headers l2.
Proof. unfold chain_headers, block_headers. by rewrite fmap_app, omap_app. Qed.

Lemma replay_linked known self : index_linked known self → ∀ l s, replay l s →
  (l = [] ∨ index_list self !! (length l - 1)%nat = hashes l !! (length l - 1)%nat) →
  collision_in (chain_headers l ++ known) ∨ hashes l = take (length l) (index_list self).
Proof.
  intros Hlink. induction l as [|[x u] l IH] using rev_ind; intros s Hr Hlast; [by right|].
  destruct Hlast as [Hnil|Hlast]; [by destruct l|]. rewrite length_app in Hlast. cbn [length] in Hlast.
  replace (length l + 1 - 1)%nat with (length l) in Hlast by lia.
  assert (hashes (l ++ [(x, u)]) !! length l = Some (input_hash (x, u))) as Hhx.
  { unfold hashes. rewrite fmap_app, lookup_app_r, length_fmap, Nat.sub_diag by (rewrite length_fmap; lia). done. }
  rewrite Hhx in Hlast. destruct (replay_disconnect _ _ _ _ Hr) as (s0 & pb & ds & Hr0 & Hp & _ & _ & Hprev).
  assert (len (bi_bytes x) ≤ isize_max) as Hb by (apply replay_snoc_inv in Hr as (? & ? & _ & ? & _); done).
  pose proof (replay_replayed _ _ Hr0) as Hrp. set (all := chain_headers (l ++ [(x, u)]) ++ known).
  assert (pb_header_bytes pb ∈ all ∧ known ⊆ all ∧ chain_headers l ++ known ⊆ all) as (Hin & Hk & Hall).
  { unfold all. rewrite chain_headers_app. assert (pb_header_bytes pb ∈ chain_headers [(x, u)]) by (eapply block_headers_elem; [apply list_elem_of_here|exact Hp]). set_solver. }
  assert (collision_in all ∨ (l = [] ∨ index_list self !! (length l - 1)%nat = hashes l !! (length l - 1)%nat)) as [?|Hl0]; [|by left|].
  { destruct (decide (l = [])) as [->|Hne]; [by right; left|].
    assert (length l ≠ 0)%nat as Hln by (by destruct l). pose proof (rp_tip _ _ Hrp) as Ht. rewrite bool_decide_eq_false_2 in Ht by done.
    pose proof (Hprev Ht) as Hpv. rewrite (rp_tip_hash _ _ Hrp), last_lookup in Hpv.
    destruct (lookup_lt_is_Some_2 l (pred (length l))) as [r Hrl]; [lia|]. rewrite Hrl in Hpv. cbn in Hpv.
    destruct (lookup_lt_is_Some_2 (index_list self) (length l - 1)) as [h Hh]; [apply lookup_lt_Some in Hlast; lia|].
    pose proof (parsed_links all (bi_bytes x) pb Hin Hb Hp) as Hlk. rewrite <- (input_hash_parsed (x, u) pb Hp), Hpv in Hlk.
    assert (links all (input_hash (x, u)) h) as Hlk2
      by (apply (links_mono known); [done|]; apply (Hlink (length l - 1)%nat); [done|]; replace (S (length l - 1)) with (length l) by lia; done).
    destruct (links_function _ _ _ _ Hlk Hlk2) as [Hcol|<-]; [by left|right; right].
    rewrite Hh. unfold hashes. rewrite list_lookup_fmap. replace (length l - 1)%nat with (pred (length l)) by lia. by rewrite Hrl. }
  destruct (IH s0 Hr0 Hl0) as [Hcol|Hl]; [left; by eapply collision_in_mono|right]. rewrite length_app. cbn [length]. rewrite Nat.add_1_r.
  rewrite (take_S_r _ _ _ Hlast). unfold hashes in *. rewrite fmap_app, Hl. done.
Qed.

(** ** The recovered chain *)

(** [recovered l st changed st' state']: the state is the replay of a chain [l]
    that ends in the tip of the index. *)
Record recovered l (st st' : Store) (state' : ChainState) : Prop := mkRecovered {
  rc_replay : replay l state';
  rc_length : length l = length (index_list st');
  rc_tip : list.last (hashes l) = list.last (index_list st');
  rc_prefix : index_list st' `prefix_of` index_list st;
  rc_complete : Forall (λ h, artifacts_complete st h = Ok true) (index_list st');
  rc_linked known : index_linked known st → collision_in (chain_headers l ++ known) ∨ hashes l = index_list st' }.

Lemma index_linked_prefix known st st' : index_list st' `prefix_of` index_list st → index_linked known st → index_linked known st'.
Proof. intros Hp Hl i h h' Hi Hi'. apply (Hl i); by eapply prefix_lookup_Some. Qed.

(** A chain that starts with [l1], whose last block is the indexed one, and
    goes on with the blocks of the index. *)
Lemma recovered_from l1 l2 st st' b state1 state' : replay l1 state1 → cut_to_complete st st' b → replay (l1 ++ l2) state' →
  (l1 = [] ∨ index_list st' !! (length l1 - 1)%nat = hashes l1 !! (length l1 - 1)%nat) → (length l1 ≤ length (index_list st'))%nat →
  hashes l2 = drop (length l1) (index_list st') → recovered (l1 ++ l2) st st' state'.
Proof.
  intros Hr1 (n & Hx & Hc & _) Hr Hlast Hle Hh2.
  assert (length (l1 ++ l2) = length (index_list st')) as Hlen.
  { apply (f_equal length) in Hh2. unfold hashes in Hh2. rewrite length_fmap, length_drop in Hh2. rewrite length_app. lia. }
  assert (index_list st' `prefix_of` index_list st) as Hpre by (rewrite Hx; apply prefix_take).
  assert (∀ known, index_linked known st → collision_in (chain_headers (l1 ++ l2) ++ known) ∨ hashes (l1 ++ l2) = index_list st') as Hlinked.
  { intros known Hlk. destruct (replay_linked known st' (index_linked_prefix _ _ _ Hpre Hlk) l1 state1 Hr1 Hlast) as [Hcol|Hl1];
      [left; eapply collision_in_mono; [|exact Hcol]; rewrite chain_headers_app; set_solver +|right].
    unfold hashes in *. by rewrite fmap_app, Hl1, Hh2, take_drop. }
  assert (list.last (hashes (l1 ++ l2)) = list.last (index_list st')) as Htip.
  { rewrite !last_lookup. unfold hashes in *. rewrite length_fmap, Hlen. destruct (decide (l2 = [])) as [->|Hne].
    - rewrite app_nil_r in *. destruct Hlast as [->|Hlast]; [by destruct (index_list st')|].
      rewrite <- Hlen. replace (pred (length l1)) with (length l1 - 1)%nat by lia. done.
    - assert (length l2 ≠ 0)%nat by (by destruct l2). rewrite length_app in Hlen.
      rewrite fmap_app, lookup_app_r by (rewrite length_fmap; lia). rewrite Hh2, lookup_drop, length_fmap. f_equal. lia. }
  by split.
Qed.

Lemma cut_prefix st st' b : cut_to_complete st st' b → index_list st' `prefix_of` index_list st.
Proof. intros (n & -> & _). apply prefix_take. Qed.

(** Nothing is replayed: the saved chain is that of the index. *)
Lemma recovered_same l st st' b state : replay l state → cut_to_complete st st' b → length l = length (index_list st') →
  (l = [] ∨ index_list st' !! (length l - 1)%nat = hashes l !! (length l - 1)%nat) → recovered l st st' state.
Proof.
  intros Hr Hc Hl Hlast. rewrite <- (app_nil_r l). eapply recovered_from; [exact Hr|exact Hc|by rewrite app_nil_r|done|lia|].
  by rewrite drop_ge by lia.
Qed.

Lemma recovered_new st st' b : cut_to_complete st st' b → index_list st' = [] → recovered [] st st' ChainState_new.
Proof. intros Hc Hx. eapply recovered_same; [constructor|exact Hc|by rewrite Hx|by left]. Qed.

(** The snapshot is one the node has saved: the replay of the chain [l], or none. *)
Definition snapshot l (state : ChainState) : Prop := ch_has_tip state = false ∨ replay l state.

Lemma snapshot_at l state self th : replay l state → ch_has_tip state = true → canonical_hash (so_index self) (ch_height state) = Some th →
  th = ch_tip_hash state → len l = ch_height state + 1 ∧ (l = [] ∨ index_list self !! (length l - 1)%nat = hashes l !! (length l - 1)%nat).
Proof.
  intros Hr Ht Hc ->. pose proof (replay_replayed _ _ Hr) as Hrp. pose proof (rp_height _ _ Hrp) as Hh.
  unfold next_height in Hh. rewrite Ht in Hh. split; [done|right]. pose proof (rp_tip_hash _ _ Hrp) as Hth.
  pose proof (wf_height _ (rp_wf _ _ Hrp)) as [Hh0 _]. apply canonical_hash_Some in Hc; [|done].
  assert (Z.to_nat (ch_height state) = (length l - 1)%nat) as Hz by lia. rewrite Hz in Hc. unfold index_list. rewrite Hc, Hth.
  rewrite last_lookup. unfold hashes. rewrite list_lookup_fmap. replace (pred (length l)) with (length l - 1)%nat by lia.
  destruct (lookup_lt_is_Some_2 l (length l - 1)) as [r Hrl]; [lia|]. by rewrite Hrl.
Qed.

Lemma replay_start_ok l self tip state truncated : snapshot l state → tip = len (index_list self) - 1 → 0 ≤ tip →
  match replay_start self tip state truncated with
  | None => replay l state ∧ length l = length (index_list self) ∧ (l = [] ∨ index_list self !! (length l - 1)%nat = hashes l !! (length l - 1)%nat)
  | Some (from, changed, state1) => ∃ l1, l1 `prefix_of` l ∧ replay l1 state1 ∧ from = len l1 ∧ (truncated = true → changed = true)
      ∧ (length l1 < length (index_list self))%nat ∧ (l1 = [] ∨ index_list self !! (length l1 - 1)%nat = hashes l1 !! (length l1 - 1)%nat)
  end.
Proof.
  intros Hsn Htip H0. unfold replay_start.
  assert (∃ l1, l1 `prefix_of` l ∧ replay l1 ChainState_new ∧ 0 = len l1 ∧ (truncated = true → true = true) ∧ (length l1 < length (index_list self))%nat
    ∧ (l1 = [] ∨ index_list self !! (length l1 - 1)%nat = hashes l1 !! (length l1 - 1)%nat)) as Hnew.
  { exists []. split; [apply prefix_nil|]. split; [constructor|]. split; [done|]. split; [done|]. split; [cbn; lia|by left]. }
  destruct (ch_has_tip state) eqn:Ht; [|done]. destruct Hsn as [?|Hr]; [congruence|].
  destruct (ch_height state <=? tip) eqn:Hle; [|done].
  destruct (canonical_hash _ (ch_height state)) as [th|] eqn:Hc; [|done].
  destruct (bool_decide (th = ch_tip_hash state)) eqn:Hth; [|done]. apply bool_decide_eq_true in Hth.
  destruct (snapshot_at l state self th Hr Ht Hc Hth) as [Hlen Hlast].
  destruct (ch_height state =? tip) eqn:He.
  - split; [done|]. split; [lia|done].
  - exists l. split; [done|]. split; [done|]. split; [lia|]. split; [done|]. split; [lia|done].
Qed.

Lemma files_grow_contents st st' : files_grow st st' → dir_contents (so_blocks st) ⊆ dir_contents (so_blocks st').
Proof. intros Hg raw (h & Hf)%dir_contents_elem. apply dir_contents_elem. exists h. by apply (grows_file st st' BlockFiles). Qed.

Lemma bs_tip_index self : match bs_tip (so_index self) with
  | None => index_list self = []
  | Some (height, _) => height = len (index_list self) - 1 ∧ index_list self ≠ []
  end.
Proof.
  unfold index_list. destruct (decide (bs_canonical_hash_by_height (so_index self) = [])) as [He|Hne].
  - unfold bs_tip. by rewrite bool_decide_eq_true_2.
  - destruct (bs_tip_Some (so_index self) Hne) as [h ->]. done.
Qed.

Lemma reconcile_ok l0 cfg state s r state' s' : index_ok (io_store s) → snapshot l0 state →
  reconcile_chain_state_with_block_store cfg state s = Some (r, state', s') →
  files_grow (io_store s) (io_store s') ∧ files_grow (io_store s') (io_store s) ∧
  match r with
  | Err _ => True
  | Ok changed => clash ((block_of <$> l0) ++ dir_contents (so_blocks (io_store s)))
      ∨ ∃ l, recovered l (io_store s) (io_store s') state' ∧ (changed = false → state' = state ∧ s' = s)
  end.
Proof.
  intros Hi Hsn. unfold reconcile_chain_state_with_block_store.
  destruct (truncate_incomplete_canonical_suffix s) as [[truncated|e] s1] eqn:Ht;
    (apply truncate_incomplete_ok in Ht as (Hg & Hg' & Hres); [|done]); [|by intros [= <- <- <-]].
  destruct Hres as (Hi1 & Hcut & Hsame). pose proof (bs_tip_index (io_store s1)) as Htip.
  destruct (bs_tip (so_index (io_store s1))) as [[tip h]|].
  - destruct Htip as [Htip Hne]. assert (0 ≤ tip) as H0 by (destruct (index_list (io_store s1)); [done|cbn in *; lia]).
    pose proof (replay_start_ok l0 (io_store s1) tip state truncated Hsn Htip H0) as Hst.
    destruct (replay_start _ _ _ _) as [[[from changed] state1]|].
    + destruct Hst as (l1 & Hpre & Hr1 & -> & Hch & Hlt & Hlast).
      destruct (replay_blocks _ _ _ _ _ _) as [[r1 st1]|] eqn:Hrb; [|done]. cbn [mbind option_bind]. intros [= <- <- <-]. split; [done|]. split; [done|].
      destruct r1 as [c|]; [|done].
      replace (tip + 1 - len l1) with (Z.of_nat (length (index_list (io_store s1)) - length l1)) in Hrb by lia.
      apply replay_blocks_ok in Hrb as [Hcl|(l2 & Hr2 & Hn & Hh2 & _ & Hc)]; [left; eapply clash_mono; [|exact Hcl]| |done].
      { destruct Hpre as [rest ->]. rewrite fmap_app. pose proof (files_grow_contents _ _ Hg'). set_solver. }
      right. exists (l1 ++ l2). split.
      * eapply recovered_from; [exact Hr1|exact Hcut|exact Hr2|done|lia|]. rewrite Hh2. apply take_ge. rewrite length_drop. lia.
      * intros ->. discriminate Hc. right. lia.
    + destruct Hst as (Hr & Hl & Hlast). intros [= <- <- <-]. split; [done|]. split; [done|]. right. exists l0.
      split; [by eapply recovered_same|]. intros ->. split; [done|by apply Hsame].
  - destruct (truncated || negb (bool_decide (state = ChainState_new))) eqn:Hch; intros [= <- <- <-]; (split; [done|]; split; [done|]; right; exists []).
    + split; [by eapply recovered_new|done].
    + apply orb_false_iff in Hch as [-> Hs]. apply negb_false_iff, bool_decide_eq_true in Hs as ->. split; [by eapply recovered_new|].
      intros _. split; [done|by apply Hsame].
Qed.

Lemma reconcile_total cfg state s : is_Some (reconcile_chain_state_with_block_store cfg state s).
Proof.
  unfold reconcile_chain_state_with_block_store. destruct (truncate_incomplete_canonical_suffix s) as [[truncated|e] s1]; [|by eexists].
  destruct (bs_tip _) as [[tip h]|]; [|destruct (_ || _); by eexists]. destruct (replay_start _ _ _ _) as [[[from changed] state1]|]; [|by eexists].
  assert (∀ hs c st, is_Some (replay_blocks (io_store s1) cfg tip hs c st)) as Hall.
  { induction hs as [|height hs IH]; intros c st; cbn [replay_blocks]; [by eexists|].
    assert (is_Some (replay_input (io_store s1) cfg height tip)) as [[x|] ->].
    { unfold replay_input. destruct (ok_or _ _); [|by eexists]. unfold replay_expected_target, stock_devnet_target_schedule.
      destruct (height =? 0); [by eexists|]. destruct chain_id_decodes as [i ->].
      destruct (bool_decide _); cbn [mbind option_bind]; [destruct (negb _)|]; by eexists. }
    - cbn [mbind option_bind]. unfold connect_input.
      destruct (connect_total (bi_bytes x) (bi_target x) (bi_times x) (bi_chain_id x) (bi_rotation x) (bi_registry x) st) as [[[] st1] ->];
        [apply IH|by eexists].
    - by eexists. }
  destruct (Hall (seqZ from (tip + 1 - from)) changed state1) as [[r st] ->]. by eexists.
Qed.

End results.

(** ** Witness: the state is lost, and a block file *)

Abbreviation demo_reconcile := (reconcile_chain_state_with_block_store (HS := toy_sha3) (HO := toy_openssl) (BU := toy_biguint) (HX := toy_hex)
  (HU := toy_undo_json) demo_sync_config).
Definition without_block (st : Store) (pb : ParsedBlock) : Store :=
  mkStore (so_index st) (mkDirectory (dir_path (so_blocks st)) (dir_ext (so_blocks st)) (delete (demo_block_hash pb) (dir_files (so_blocks st))))
    (so_headers st) (so_undo st).
Definition reconciled (o : option (nres bool * ChainState * StoreIo)) : option (bool * Z * Z) :=
  match o with
  | Some (Ok changed, state, s) => Some (changed, ch_height state, len (index_list (io_store s)))
  | _ => None
  end.
(** Replayed from nothing; cut by one block; kept as it is; and no block at all. *)
Example demo_reconciled :
  reconciled (demo_reconcile ChainState_new (mkStoreIo demo_store2 [])) = Some (true, 1, 2)
  ∧ reconciled (demo_reconcile (se_chain_state demo_engine2) (mkStoreIo (without_block demo_store2 demo_fork) [])) = Some (true, 0, 1)
  ∧ reconciled (demo_reconcile (se_chain_state demo_engine2) (mkStoreIo demo_store2 [])) = Some (false, 1, 2)
  ∧ reconciled (demo_reconcile (se_chain_state demo_engine2) (mkStoreIo (without_block demo_store2 demo_block0) [])) = None.
Proof. by vm_compute. Qed.

Lemma demo_index2 : index_ok (HX := toy_hex) demo_store2.
Proof. pose proof demo_store_checks as [_ Hi]%andb_true_iff. by apply index_checked in Hi as [Hi _]. Qed.

