(* ===== verification/FlagDay.v ===== *)
(** * Flag-day deployments ([flagday.rs])

    A deployment becomes active at a height, and its telemetry bit is reserved
    for a while from there; reusing a reserved bit is reported. *)

From Stdlib Require Import Ascii.
From stdpp Require Import pretty.
From S2P Require Import Prelude Bytes Errors Constants NodeText.

(* rust: flagday.rs 1-7 FlagDayDeployment *)
Record FlagDayDeployment : Type := mkFlagDayDeployment { fd_name : string; fd_activation_height : Z; fd_bit : option Z }.

(* rust: flagday.rs 10-20 validate *)
Definition flagday_validate (d : FlagDayDeployment) : nres unit :=
  if bool_decide (fd_name d = "")%string then fail "flagday: name required"%string else
  match fd_bit d with
  | Some b => if 31 <? b then fail ("flagday: bit out of range: " +:+ pretty b)%string else Ok ()
  | None => Ok ()
  end.

(* rust: flagday.rs 80-83 flagday_active_at_height *)
Definition flagday_active_at_height (d : FlagDayDeployment) (height : Z) : nres bool :=
  _ ← flagday_validate d; Ok (fd_activation_height d <=? height).

(** A bit and the heights for which it is reserved. *)
(* rust: flagday.rs 32-37 Entry *)
Record FlagDayEntry : Type := mkFlagDayEntry { fe_name : string; fe_bit : Z; fe_start : Z; fe_end : Z }.

(* rust: flagday.rs 39-49 validate_deployment_bit_uniqueness *)
Definition flagday_entries (deployments : list FlagDayDeployment) : list FlagDayEntry :=
  omap (λ d, (λ b, mkFlagDayEntry (fd_name d) b (fd_activation_height d) (saturating_add u64_max (fd_activation_height d) FALLOW_PERIOD))
               <$> fd_bit d) deployments.

(** By bit, then by start, then by end; the sort is stable. *)
(* rust: flagday.rs 52-57 validate_deployment_bit_uniqueness *)
Definition entry_le (a b : FlagDayEntry) : Prop :=
  fe_bit a < fe_bit b ∨ fe_bit a = fe_bit b ∧ (fe_start a < fe_start b ∨ fe_start a = fe_start b ∧ fe_end a ≤ fe_end b).
#[export] Instance entry_le_dec : RelDecision entry_le.
Proof. intros a b. unfold entry_le. apply _. Defined.

Section warnings.
Context (debug_str : string → string).

(* rust: flagday.rs 69-74 validate_deployment_bit_uniqueness *)
Definition flagday_warning (a b : FlagDayEntry) : string :=
  ("flagday: bit " +:+ pretty (fe_bit a) +:+ " reuse overlap between " +:+ debug_str (fe_name a) +:+ " (reserved ["
   +:+ pretty (fe_start a) +:+ "," +:+ pretty (fe_end a) +:+ ")) and " +:+ debug_str (fe_name b) +:+ " (reserved ["
   +:+ pretty (fe_start b) +:+ "," +:+ pretty (fe_end b) +:+ ")) — §23.2.3 FALLOW_PERIOD violation")%string.

(** The entries after [a]: the loop breaks at another bit, or at an entry that
    starts after [a] has ended. *)
(* rust: flagday.rs 61-75 validate_deployment_bit_uniqueness *)
Fixpoint warnings_after (a : FlagDayEntry) (rest : list FlagDayEntry) : list string :=
  match rest with
  | [] => []
  | b :: rest =>
      if negb (fe_bit a =? fe_bit b) then [] else
      if fe_end a <=? fe_start b then [] else flagday_warning a b :: warnings_after a rest
  end.
(* rust: flagday.rs 60-76 validate_deployment_bit_uniqueness *)
Fixpoint flagday_warnings (entries : list FlagDayEntry) : list string :=
  match entries with [] => [] | a :: rest => warnings_after a rest ++ flagday_warnings rest end.

(* rust: flagday.rs 29-78 validate_deployment_bit_uniqueness *)
Definition validate_deployment_bit_uniqueness (deployments : list FlagDayDeployment) : list string :=
  flagday_warnings (merge_sort entry_le (flagday_entries deployments)).
End warnings.

(** ** Which deployments are reported *)

#[export] Instance entry_le_total : Total entry_le.
Proof. intros a b. unfold entry_le. lia. Qed.
#[export] Instance entry_le_trans : Transitive entry_le.
Proof. intros a b c. unfold entry_le. lia. Qed.

(** The reserved intervals of two entries with the same bit overlap. *)
Definition clash (a b : FlagDayEntry) : Prop := fe_bit a = fe_bit b ∧ fe_start a < fe_end b ∧ fe_start b < fe_end a.

Lemma warnings_after_nil debug_str a rest : StronglySorted entry_le (a :: rest) → fe_start a < fe_end a → Forall (λ b, fe_start b < fe_end b) rest →
  warnings_after debug_str a rest = [] ↔ Forall (λ b, ¬ clash a b) rest.
Proof.
  intros Hs Ha Hr. apply StronglySorted_inv in Hs as [Hs Hle]. destruct rest as [|b rest]; [split; [constructor|done]|].
  cbn [warnings_after]. apply list.Forall_cons in Hr as [Hb Hr], Hle as [Hab Hle]. apply StronglySorted_inv in Hs as [_ Hbr].
  destruct (negb (fe_bit a =? fe_bit b)) eqn:E1; [|destruct (fe_end a <=? fe_start b) eqn:E2].
  - split; [intros _|done]. apply negb_true_iff, Z.eqb_neq in E1. constructor; [by intros (? & _)|].
    apply list.Forall_forall. intros c Hc (Hbit & _). rewrite list.Forall_forall in Hbr, Hle. specialize (Hbr c Hc). unfold entry_le in *. lia.
  - split; [intros _|done]. apply negb_false_iff, Z.eqb_eq in E1. constructor; [intros (? & ? & ?); lia|].
    apply list.Forall_forall. intros c Hc (Hbit & ? & ?). rewrite list.Forall_forall in Hbr. specialize (Hbr c Hc). unfold entry_le in *. lia.
  - split; [done|]. intros [Hn _]%list.Forall_cons. destruct Hn. apply negb_false_iff, Z.eqb_eq in E1. unfold entry_le in *. split; [done|]. lia.
Qed.

Lemma flagday_warnings_nil debug_str entries : StronglySorted entry_le entries → Forall (λ b, fe_start b < fe_end b) entries →
  flagday_warnings debug_str entries = [] ↔ ForallOrdPairs (λ a b, ¬ clash a b) entries.
Proof.
  induction entries as [|a rest IH]; intros Hs Hr; [split; [constructor|done]|]. cbn [flagday_warnings]. pose proof Hs as [Hs' _]%StronglySorted_inv.
  apply list.Forall_cons in Hr as [Ha Hr]. rewrite app_nil, (warnings_after_nil _ _ _ Hs Ha Hr), (IH Hs' Hr). split.
  - intros [? ?]. by constructor.
  - intros H. inversion H; subst. done.
Qed.

(** Two deployments clash: they have the same bit and the heights reserved
    from their activations overlap. *)
Definition deployments_clash (a b : FlagDayDeployment) : Prop := ∃ bit, fd_bit a = Some bit ∧ fd_bit b = Some bit
  ∧ fd_activation_height a < saturating_add u64_max (fd_activation_height b) FALLOW_PERIOD
  ∧ fd_activation_height b < saturating_add u64_max (fd_activation_height a) FALLOW_PERIOD.

Lemma ordered_pairs_perm {A} (R : A → A → Prop) l l' : Symmetric R → l ≡ₚ l' → ForallOrdPairs R l → ForallOrdPairs R l'.
Proof.
  intros Hsym Hp. induction Hp as [|x l l' Hp IH|x y l|l1 l2 l3 _ IH1 _ IH2]; intros H; [done| | |by apply IH2, IH1].
  - inversion H; subst. constructor; [|by apply IH]. by rewrite <- Hp.
  - inversion H as [|? ? Hy Hl]; subst. inversion Hl as [|? ? Hx Hl']; subst. apply list.Forall_cons in Hy as [Hyx Hy].
    constructor; [constructor; [by apply Hsym|done]|]. by constructor.
Qed.

Lemma entries_pairs deployments : ForallOrdPairs (λ a b, ¬ clash a b) (flagday_entries deployments)
  ↔ ForallOrdPairs (λ a b, ¬ deployments_clash a b) deployments.
Proof.
  assert (∀ a P, Forall P (flagday_entries a) ↔ Forall (λ d, ∀ b, fd_bit d = Some b →
    P (mkFlagDayEntry (fd_name d) b (fd_activation_height d) (saturating_add u64_max (fd_activation_height d) FALLOW_PERIOD))) a) as Hall.
  { intros l P. unfold flagday_entries. induction l as [|d l IH]; [done|]. rewrite list.Forall_cons. cbn [omap list_omap].
    destruct (fd_bit d) as [b|] eqn:Hb; cbn [fmap option_fmap option_map]; [rewrite list.Forall_cons|]; rewrite IH.
    - split; intros [H ?]; (split; [|done]); [by intros ? [= <-]|by apply H].
    - split; [intros ?; by split|by intros [_ ?]]. }
  induction deployments as [|d l IH]; [split; constructor|]. unfold flagday_entries. cbn [omap list_omap]. fold (flagday_entries l).
  destruct (fd_bit d) as [b|] eqn:Hb; cbn [fmap option_fmap option_map]; [|rewrite IH]; split.
  - intros H. inversion H as [|? ? Hd Hl]; subst. constructor; [|by apply IH]. apply Hall in Hd.
    eapply list.Forall_impl; [exact Hd|]. intros d2 H2 (bit & Hb1 & Hb2 & ? & ?). rewrite Hb in Hb1. injection Hb1 as <-.
    by apply (H2 b Hb2).
  - intros H. inversion H as [|? ? Hd Hl]; subst. constructor; [|by apply IH]. apply Hall.
    eapply list.Forall_impl; [exact Hd|]. cbn. intros d2 H2 b2 Hb2 (Hbit & ? & ?). cbn in *. subst b2. apply H2. by exists b.
  - intros H. constructor; [|done]. apply list.Forall_forall. intros d2 _ (bit & Hb1 & _). congruence.
  - intros H. by inversion H.
Qed.

(** The heights are below the largest one, so that every reserved interval is
    not empty. No warning is given exactly when no two deployments clash. *)
Theorem bit_uniqueness_iff debug_str deployments : Forall (λ d, 0 ≤ fd_activation_height d < u64_max) deployments →
  validate_deployment_bit_uniqueness debug_str deployments = [] ↔ ForallOrdPairs (λ a b, ¬ deployments_clash a b) deployments.
Proof.
  intros Hd. unfold validate_deployment_bit_uniqueness.
  assert (Forall (λ b, fe_start b < fe_end b) (flagday_entries deployments)) as He.
  { unfold flagday_entries. apply list.Forall_forall. intros e (d & Hin & He)%list_elem_of_omap.
    rewrite list.Forall_forall in Hd. specialize (Hd d Hin). destruct (fd_bit d); [|done]. injection He as <-. cbn.
    unfold saturating_add, FALLOW_PERIOD. lia. }
  pose proof (merge_sort_Permutation entry_le (flagday_entries deployments)) as Hp.
  rewrite flagday_warnings_nil; [|apply StronglySorted_merge_sort; apply _|by rewrite Hp].
  rewrite <- entries_pairs. assert (Symmetric (λ a b, ¬ clash a b)) as Hsym by (intros a b H (? & ? & ?); apply H; by split_and!).
  split; apply ordered_pairs_perm; done.
Qed.

Lemma bit_uniqueness_iff_witness :
  validate_deployment_bit_uniqueness id [mkFlagDayDeployment "a" 100 (Some 3); mkFlagDayDeployment "b" 2116 (Some 3)] = []
  ∧ length (validate_deployment_bit_uniqueness id [mkFlagDayDeployment "a" 100 (Some 3); mkFlagDayDeployment "b" 2115 (Some 3)]) = 1%nat
  ∧ ForallOrdPairs (λ a b, ¬ deployments_clash a b) [mkFlagDayDeployment "a" 100 (Some 3); mkFlagDayDeployment "b" 2116 (Some 3)].
Proof.
  split; [vm_compute; reflexivity|]. split; [vm_compute; reflexivity|].
  apply (bit_uniqueness_iff id); [repeat constructor; cbn; done|vm_compute; reflexivity].
Defined.
