(* ===== verification/Precompute.v ===== *)
(** * Precomputed contexts of a block's transactions ([precompute.rs])

    The contexts that workers validate a block's transactions in: the outputs
    each transaction spends, the witness items it has, the fee it pays.  They
    are computed in one pass over a ledger that follows the block, without
    checking a signature. *)

From S2P Require Import Prelude Bytes Errors Constants Crypto WireRead CompactSize TxWire TxCodec.
From S2P Require Import Vault Suites Verify SigCache WorkerPool SigQueue Sighash Spend Htlc Stealth CovenantGenesis.
From S2P Require Import UtxoApply UtxoRules UtxoLedger Block BlockParse BlockBasic ConnectBlock.

(* rust: precompute.rs 28-49 PrecomputedTxContext *)
Record PrecomputedTxContext : Type := mkPrecomputedTxContext {
  ptc_tx_index : Z; ptc_tx_block_idx : Z; ptc_txid : bytes; ptc_resolved_inputs : list UtxoEntry;
  ptc_witness_start : Z; ptc_witness_end : Z; ptc_input_outpoints : list Outpoint; ptc_fee : Z }.

#[export] Instance PrecomputedTxContext_eq_dec : EqDecision PrecomputedTxContext.
Proof. solve_decision. Defined.

(* rust: precompute.rs 59-65 CollectedPrecomputeInputs *)
Record CollectedPrecomputeInputs : Type := mkCollectedPrecomputeInputs {
  cpi_resolved_inputs : list UtxoEntry; cpi_input_outpoints : list Outpoint; cpi_total_witness_slots : Z;
  cpi_sum_in : Z; cpi_stopped_at_core_simplicity : bool }.

(* rust: precompute.rs 53-57 add_witness_slots *)
Definition add_witness_slots (total slots : Z) : res Z :=
  ok_or (checked_add usize_max total slots) (mkTxError TxErrParse "witness slot count overflow").

(* rust: precompute.rs 247-264 validate_precompute_entry *)
Definition validate_precompute_entry (entry : UtxoEntry) (block_height : Z) : res unit :=
  if (ue_covenant_type entry =? COV_TYPE_ANCHOR) || (ue_covenant_type entry =? COV_TYPE_DA_COMMIT)
  then tx_err TxErrMissingUtxo "attempt to spend non-spendable covenant" else
  if ue_created_by_coinbase entry
     && ((block_height <? ue_creation_height entry)
         || (block_height - ue_creation_height entry <? COINBASE_MATURITY))
  then tx_err TxErrCoinbaseImmature "coinbase immature" else Ok ().

(* rust: precompute.rs 266-272 precompute_witness_slots *)
Definition precompute_witness_slots (entry : UtxoEntry) : res Z :=
  slots ← witness_slots (ue_covenant_type entry) (ue_covenant_data entry);
  if slots =? 0 then tx_err TxErrParse "invalid witness slots" else Ok slots.

(** The outpoints seen are the state of the loop that calls it. *)
(* rust: precompute.rs 222-245 resolve_precompute_input *)
Definition resolve_precompute_input (input : TxInput) (seen_inputs : gset Outpoint) (overlay : UtxoMap) (block_height : Z) :
    res (UtxoEntry * Outpoint * gset Outpoint) :=
  _ ← validate_non_coinbase_input_encoding input;
  let op := mkOutpoint (prev_txid input) (prev_vout input) in
  if bool_decide (op ∈ seen_inputs) then tx_err TxErrParse "duplicate input outpoint" else
  entry ← ok_or (overlay !! op) (mkTxError TxErrMissingUtxo "utxo not found");
  _ ← validate_precompute_entry entry block_height;
  Ok (entry, op, {[op]} ∪ seen_inputs).

(** The body of the loop; once it has stopped, the later inputs are not read. *)
(* rust: precompute.rs 198-218 collect_precompute_inputs *)
Definition collect_precompute_input (overlay : UtxoMap) (block_height : Z)
    (s : CollectedPrecomputeInputs * gset Outpoint) (input : TxInput) : res (CollectedPrecomputeInputs * gset Outpoint) :=
  let '(out, seen_inputs) := s in
  if cpi_stopped_at_core_simplicity out then Ok s else
  '(entry, op, seen_inputs) ← resolve_precompute_input input seen_inputs overlay block_height;
  let entries := cpi_resolved_inputs out ++ [entry] in
  let outpoints := cpi_input_outpoints out ++ [op] in
  if ue_covenant_type entry =? COV_TYPE_CORE_SIMPLICITY
  then Ok (mkCollectedPrecomputeInputs entries outpoints (cpi_total_witness_slots out) (cpi_sum_in out) true, seen_inputs) else
  slots ← precompute_witness_slots entry;
  total ← add_witness_slots (cpi_total_witness_slots out) slots;
  sum_in ← ok_or (checked_add u128_max (cpi_sum_in out) (ue_value entry))
             (mkTxError TxErrValueConservation "input sum overflow");
  Ok (mkCollectedPrecomputeInputs entries outpoints total sum_in false, seen_inputs).
(* rust: precompute.rs 185-220 collect_precompute_inputs *)
Definition collect_precompute_inputs (tx : Tx) (overlay : UtxoMap) (block_height : Z) : res CollectedPrecomputeInputs :=
  '(out, _) ← try_fold (collect_precompute_input overlay block_height)
                (mkCollectedPrecomputeInputs [] [] 0 0 false, ∅) (inputs tx);
  Ok out.

(* rust: precompute.rs 274-291 precompute_witness_bounds *)
Definition precompute_witness_bounds (tx : Tx) (total_witness_slots : Z) (stopped_at_core_simplicity : bool) : res (Z * Z) :=
  if len (witness tx) <? total_witness_slots then tx_err TxErrParse "witness underflow" else
  if negb stopped_at_core_simplicity && negb (total_witness_slots =? len (witness tx))
  then tx_err TxErrParse "witness_count mismatch" else
  Ok (0, total_witness_slots).

(* rust: precompute.rs 296-312 compute_precompute_fee *)
Definition compute_precompute_fee (sum_in : Z) (outputs : list TxOutput) : res Z :=
  sum_out ← try_fold (λ sum_out output, ok_or (checked_add u128_max sum_out (value output))
                        (mkTxError TxErrValueConservation "output sum overflow")) 0 outputs;
  if sum_in <? sum_out then tx_err TxErrValueConservation "outputs exceed inputs" else
  Ok (sum_in - sum_out).

(* rust: precompute.rs 141-183 precompute_tx_context *)
Definition precompute_tx_context (tx_index : Z) (tx : Tx) (txid : bytes) (overlay : UtxoMap) (block_height : Z) :
    res (PrecomputedTxContext * list Outpoint) :=
  if tx_nonce tx =? 0 then tx_err TxErrTxNonceInvalid "tx_nonce must be >= 1 for non-coinbase" else
  if bool_decide (inputs tx = []) then tx_err TxErrParse "non-coinbase must have at least one input" else
  _ ← validate_tx_covenants_genesis tx block_height None;
  ins ← collect_precompute_inputs tx overlay block_height;
  '(witness_start, witness_end) ←
    precompute_witness_bounds tx (cpi_total_witness_slots ins) (cpi_stopped_at_core_simplicity ins);
  if cpi_stopped_at_core_simplicity ins then Err reject_core_simplicity_spend else
  fee ← compute_precompute_fee (cpi_sum_in ins) (outputs tx);
  Ok (mkPrecomputedTxContext tx_index tx_index txid (cpi_resolved_inputs ins) witness_start witness_end
        (cpi_input_outpoints ins) fee, cpi_input_outpoints ins).

(** The body of the loop over the outputs. *)
(* rust: precompute.rs 324-340 update_precompute_overlay *)
Definition overlay_output (txid : bytes) (block_height : Z) (overlay : UtxoMap) (iout : Z * TxOutput) : res UtxoMap :=
  let '(index, output) := iout in
  if (covenant_type output =? COV_TYPE_ANCHOR) || (covenant_type output =? COV_TYPE_DA_COMMIT) then Ok overlay else
  if u32_max <? index then tx_err TxErrParse "output index exceeds u32" else
  Ok (<[mkOutpoint txid index :=
          mkUtxoEntry (value output) (covenant_type output) (covenant_data output) block_height false]> overlay).
(** The overlay is dropped on an error. *)
(* rust: precompute.rs 314-342 update_precompute_overlay *)
Definition update_precompute_overlay (overlay : UtxoMap) (tx : Tx) (txid : bytes) (input_outpoints : list Outpoint)
    (block_height : Z) : res UtxoMap :=
  let overlay := foldl (λ overlay op, delete op overlay) overlay input_outpoints in
  try_fold (overlay_output txid block_height) overlay (enumerate (outputs tx)).

(** The body of the loop over the transactions. *)
(* rust: precompute.rs 129-137 precompute_non_coinbase_contexts *)
Definition precompute_step (block_height : Z) (s : list PrecomputedTxContext * UtxoMap * gset Z) (ix : Z * (Tx * bytes)) :
    res (list PrecomputedTxContext * UtxoMap * gset Z) :=
  let '(results, overlay, seen_nonces) := s in let '(i, (tx, txid)) := ix in
  seen_nonces ← validate_non_coinbase_block_tx tx seen_nonces;
  '(context, input_outpoints) ← precompute_tx_context i tx txid overlay block_height;
  overlay ← update_precompute_overlay overlay tx txid input_outpoints block_height;
  Ok (results ++ [context], overlay, seen_nonces).
(* rust: precompute.rs 120-139 precompute_non_coinbase_contexts *)
Definition precompute_non_coinbase_contexts (pb : ParsedBlock) (overlay : UtxoMap) (block_height : Z) :
    res (list PrecomputedTxContext) :=
  '(results, _, _) ← try_fold (precompute_step block_height) ([], overlay, ∅)
    (drop 1 (enumerate (zip (pb_txs pb) (pb_txids pb))));
  Ok results.

(* rust: precompute.rs 91-118 precompute_tx_contexts *)
Definition precompute_tx_contexts (pb : ParsedBlock) (utxo_snapshot : UtxoMap) (block_height : Z) :
    res (list PrecomputedTxContext) :=
  if bool_decide (pb_txs pb = []) then tx_err BlockErrParse "nil or empty parsed block" else
  if negb (len (pb_txids pb) =? len (pb_txs pb)) then tx_err BlockErrParse "txids/txs length mismatch" else
  overlay ← apply_coinbase_outputs pb utxo_snapshot block_height None;
  if len (pb_txs pb) =? 1 then Ok [] else
  precompute_non_coinbase_contexts pb overlay block_height.

(** ** What an accepted transaction's context is *)

Section agreement.
Context `{HS : Sha3} `{HO : OpenSsl}.

Lemma precompute_entry_Ok e height : covenant_spendable e →
  (ue_created_by_coinbase e = true → ue_creation_height e + COINBASE_MATURITY ≤ height) →
  validate_precompute_entry e height = Ok ().
Proof. intros Hs Hm. by apply (availability_Ok e height Hs) in Hm. Qed.

Lemma spendable_not_simplicity e : covenant_spendable e → (ue_covenant_type e =? COV_TYPE_CORE_SIMPLICITY) = false.
Proof. unfold covenant_spendable. cov_consts. intros H. destruct_or!; destruct_and?; lia. Qed.

Lemma collect_step m height i e out seen : input_resolves m height i e → outpoint_of i ∉ seen →
  cpi_stopped_at_core_simplicity out = false →
  cpi_total_witness_slots out + slots_of e ≤ usize_max → cpi_sum_in out + ue_value e ≤ u128_max →
  collect_precompute_input m height (out, seen) i =
    Ok (mkCollectedPrecomputeInputs (cpi_resolved_inputs out ++ [e]) (cpi_input_outpoints out ++ [outpoint_of i])
          (cpi_total_witness_slots out + slots_of e) (cpi_sum_in out + ue_value e) false, {[outpoint_of i]} ∪ seen).
Proof.
  intros (He & Hu & Hm & Hs) Hseen Hstop Hslots Hsum. pose proof (slots_spendable e Hs) as [Hsl Hpos].
  unfold collect_precompute_input, resolve_precompute_input. rewrite Hstop.
  rewrite (proj2 (input_encoding_Ok i) He). run_bind. fold (outpoint_of i). rewrite bool_decide_eq_false_2 by done.
  rewrite Hu. cbn [ok_or]. run_bind. rewrite (precompute_entry_Ok e height Hs Hm). run_bind.
  rewrite (spendable_not_simplicity e Hs). unfold precompute_witness_slots, add_witness_slots. rewrite Hsl. run_bind.
  replace (slots_of e =? 0) with false by lia. run_bind.
  rewrite (proj2 (checked_add_Some usize_max (cpi_total_witness_slots out) (slots_of e) _) (conj eq_refl Hslots)). cbn [ok_or]. run_bind.
  by rewrite (proj2 (checked_add_Some u128_max (cpi_sum_in out) (ue_value e) _) (conj eq_refl Hsum)).
Qed.

Lemma sum_values_nonneg es : values_fit es → 0 ≤ sum_values es ≤ 2 ^ 64 * len es.
Proof.
  induction 1 as [|e es [? ?] _ IH]; [done|]. unfold sum_values in *. cbn [foldr]. rewrite length_cons. lia.
Qed.

Lemma collect_accepted m height l es out seen : Forall2 (input_resolves m height) l es →
  NoDup (outpoint_of <$> l) → Forall (λ i, outpoint_of i ∉ seen) l → values_fit es →
  cpi_stopped_at_core_simplicity out = false →
  cpi_total_witness_slots out + sum_slots es ≤ usize_max → cpi_sum_in out + sum_values es ≤ u128_max →
  ∃ seen', try_fold (collect_precompute_input m height) (out, seen) l =
    Ok (mkCollectedPrecomputeInputs (cpi_resolved_inputs out ++ es) (cpi_input_outpoints out ++ (outpoint_of <$> l))
          (cpi_total_witness_slots out + sum_slots es) (cpi_sum_in out + sum_values es) false, seen').
Proof.
  intros HF. revert out seen. induction HF as [|i e l es Hr HF IH]; intros out seen Hnd Hseen Hv Hstop Hslots Hsum.
  - exists seen. cbn [try_fold]. destruct out as [a b c d s]. cbn in *. subst s. by rewrite !app_nil_r, !Z.add_0_r.
  - rewrite fmap_cons in Hnd. apply list.NoDup_cons in Hnd as [Hni Hnd]. apply list.Forall_cons in Hseen as [Hsi Hseen].
    apply list.Forall_cons in Hv as [Hv0 Hv]. pose proof (sum_values_nonneg es Hv) as [Hvn _].
    pose proof (sum_slots_nonneg es (resolves_spendable _ _ _ _ HF)) as Hnn.
    change (sum_slots (e :: es)) with (slots_of e + sum_slots es) in *. change (sum_values (e :: es)) with (ue_value e + sum_values es) in *.
    cbn [try_fold]. rewrite (collect_step m height i e out seen Hr Hsi Hstop) by lia. run_bind.
    edestruct (IH (mkCollectedPrecomputeInputs (cpi_resolved_inputs out ++ [e]) (cpi_input_outpoints out ++ [outpoint_of i])
      (cpi_total_witness_slots out + slots_of e) (cpi_sum_in out + ue_value e) false) ({[outpoint_of i]} ∪ seen)) as [seen' ->];
      [done| |done|done|cbn; lia|cbn; lia|].
    + apply list.Forall_forall. intros j Hj. rewrite list.Forall_forall in Hseen. specialize (Hseen j Hj).
      apply not_elem_of_union. split; [|done]. intros Hin%elem_of_singleton. apply Hni. rewrite <- Hin. by apply list_elem_of_fmap_2.
    + exists seen'. cbn [cpi_resolved_inputs cpi_input_outpoints cpi_total_witness_slots cpi_sum_in].
      rewrite <- !app_assoc. cbn. do 3 f_equal; lia.
Qed.

Lemma precompute_fee_run sum_in outs : len outs ≤ MAX_TX_OUTPUTS → Forall output_valid outs → sum_outputs outs ≤ sum_in →
  compute_precompute_fee sum_in outs = Ok (sum_in - sum_outputs outs).
Proof.
  intros Hn HF Hle. unfold MAX_TX_OUTPUTS in Hn. unfold compute_precompute_fee.
  enough (∀ acc, 0 ≤ acc → acc + 2 ^ 64 * len outs ≤ u128_max →
    try_fold (λ sum_out output, ok_or (checked_add u128_max sum_out (value output))
      (mkTxError TxErrValueConservation "output sum overflow")) acc outs = Ok (acc + sum_outputs outs)) as Hgen.
  { rewrite Hgen; [|done|unfold u128_max; lia]. run_bind. by replace (_ <? _) with false by lia. }
  clear Hn Hle. induction HF as [|o outs [[? ?] _] Ho IH]; intros acc Hacc Hmax; cbn [try_fold].
  { cbn. by rewrite Z.add_0_r. }
  rewrite length_cons in Hmax. pose proof (sum_outputs_nonneg _ Ho).
  assert (checked_add u128_max acc (value o) = Some (acc + value o)) as -> by (apply checked_add_Some; lia).
  cbn [ok_or]. run_bind. rewrite IH by lia. f_equal. unfold sum_outputs. cbn [foldr]. lia.
Qed.

Lemma overlay_run ctx outs m k : 0 ≤ k → k + len outs ≤ u32_max →
  try_fold (overlay_output (cx_txid ctx) (cx_height ctx)) m (enum_from k outs) = Ok (created_from ctx k outs ∪ m).
Proof.
  revert m k. induction outs as [|o outs IH]; intros m k Hk Hn; cbn [enum_from try_fold created_from]; [by rewrite (left_id_L ∅ (∪))|].
  rewrite length_cons in Hn.
  assert (overlay_output (cx_txid ctx) (cx_height ctx) m (k, o) =
    Ok (if unspendable_type (covenant_type o) then m else <[mkOutpoint (cx_txid ctx) k := entry_of ctx o]> m)) as ->.
  { unfold overlay_output, unspendable_type. replace (u32_max <? k) with false by lia. by destruct (_ || _). }
  run_bind. rewrite IH by lia. f_equal. destruct (unspendable_type _); [done|].
  rewrite <- insert_union_l. symmetry. apply insert_union_r, created_from_None. lia.
Qed.

(** The context of a transaction at [i] that spends the entries [es]. *)
Definition context_of (i : Z) (ctx : UtxoApplyImplContext) (es : list UtxoEntry) : PrecomputedTxContext :=
  mkPrecomputedTxContext i i (cx_txid ctx) es 0 (len (witness (cx_tx ctx))) (outpoint_of <$> inputs (cx_tx ctx))
    (us_fee (result_after ctx es).2).

Lemma context_accepted i ctx es wss : tx_valid (cx_tx ctx) → utxo_values (cx_utxo_set ctx) → cx_rotation ctx = None →
  accepted ctx es wss →
  precompute_tx_context i (cx_tx ctx) (cx_txid ctx) (cx_utxo_set ctx) (cx_height ctx) =
    Ok (context_of i ctx es, outpoint_of <$> inputs (cx_tx ctx))
  ∧ update_precompute_overlay (cx_utxo_set ctx) (cx_tx ctx) (cx_txid ctx) (outpoint_of <$> inputs (cx_tx ctx)) (cx_height ctx) =
    Ok (ledger_after ctx).
Proof.
  intros Htx Hm Hrot [Hn Hi Hc (HF & Hnd & _) Hsplit _ _ _ Hle _]. rewrite Hrot in Hc.
  pose proof (witness_split_sum _ _ _ Hsplit) as Hw. pose proof (Forall2_length HF) as Hlen.
  destruct Htx as (_ & (Hni & _) & (Hno & Hout) & _ & _ & Hwit & _).
  assert (values_fit es) as Hvals.
  { clear -HF Hm. induction HF as [|j e l es (_ & Hl & _) HF IH]; constructor; [|done]. by apply (Hm _ e Hl). }
  split.
  - unfold precompute_tx_context. rewrite (proj2 (Z.eqb_neq _ _) Hn), bool_decide_eq_false_2, Hc by done. run_bind.
    unfold collect_precompute_inputs. pose proof (sum_values_nonneg es Hvals) as [_ Hsum].
    edestruct (collect_accepted (cx_utxo_set ctx) (cx_height ctx) (inputs (cx_tx ctx)) es
      (mkCollectedPrecomputeInputs [] [] 0 0 false) ∅ HF Hnd) as [seen' ->]; [|done|done|..].
    + apply list.Forall_forall. intros j _. apply not_elem_of_empty.
    + cbn. rewrite <- Hw. destruct Hwit as [Hwit _]. unfold MAX_WITNESS_ITEMS in *. unfold usize_max, u64_max. lia.
    + cbn. unfold MAX_TX_INPUTS in Hni. unfold u128_max. lia.
    + run_bind. cbn [cpi_total_witness_slots cpi_stopped_at_core_simplicity cpi_sum_in cpi_resolved_inputs cpi_input_outpoints].
      unfold precompute_witness_bounds. rewrite !Z.add_0_l, <- Hw, Z.ltb_irrefl, Z.eqb_refl. cbn [negb andb]. run_bind.
      by rewrite precompute_fee_run by done.
  - unfold update_precompute_overlay, ledger_after. rewrite foldl_delete, enumerate_enum. apply overlay_run; [done|].
    unfold MAX_TX_OUTPUTS in Hno. unfold u32_max. lia.
Qed.

Section block.
Context (height timestamp mtp : Z) (chain_id : bytes) (registry : option SuiteRegistry).
Abbreviation at_ledger m x := (cx_at height timestamp mtp chain_id None registry m x).

(** The contexts of transactions that are accepted one after the other, the
    first at [i]: each one's entries are those it spends from the ledger before it. *)
Inductive contexts : Z → UtxoMap → list (Tx * bytes) → list PrecomputedTxContext → Prop :=
  | contexts_nil i m : contexts i m [] []
  | contexts_cons i m x l es wss cs :
      accepted (at_ledger m x) es wss → contexts (i + 1) (ledger_after (at_ledger m x)) l cs →
      contexts i m (x :: l) (context_of i (at_ledger m x) es :: cs).

Definition sum_context_fees (cs : list PrecomputedTxContext) : Z := foldr (λ c n, ptc_fee c + n) 0 cs.

Lemma precompute_loop m l m' fees : ledger_steps height timestamp mtp chain_id None registry m l m' fees →
  ∀ i pre seen, Forall tx_valid (fst <$> l) → utxo_values m → rest_ok l → (∀ n, n ∈ (λ x, tx_nonce x.1) <$> l → n ∉ seen) →
  ∃ cs seen', try_fold (precompute_step height) (pre, m, seen) (enum_from i l) = Ok (pre ++ cs, m', seen')
    ∧ contexts i m l cs ∧ sum_context_fees cs = fees.
Proof.
  induction 1 as [m|m [tx txid] l m' es wss fees Ha Hs IH]; intros i pre seen Hl Hm [Hok Hnd] Hseen.
  - exists [], seen. rewrite app_nil_r. split; [done|]. split; [constructor|done].
  - rewrite fmap_cons in Hl. apply list.Forall_cons in Hl as [Hx Hl]. apply list.Forall_cons in Hok as [Hx' Hok].
    apply list.NoDup_cons in Hnd as [Hni Hnd]. cbn [enum_from try_fold precompute_step].
    rewrite (proj2 (non_coinbase_Ok tx seen _) (conj Hx' (conj (Hseen (tx_nonce tx) ltac:(by left)) eq_refl))). run_bind.
    destruct (context_accepted i (at_ledger m (tx, txid)) es wss Hx Hm eq_refl Ha) as [Hc Hu]. cbn [cx_at cx_tx cx_txid cx_utxo_set cx_height fst snd] in Hc, Hu.
    rewrite Hc. run_bind. rewrite Hu. run_bind.
    destruct (IH (i + 1) (pre ++ [context_of i (at_ledger m (tx, txid)) es]) ({[tx_nonce tx]} ∪ seen) Hl) as (cs & seen' & Hr & Hcs & <-).
    + by apply ledger_after_values.
    + by split.
    + intros n Hn [->%elem_of_singleton|Hs']%elem_of_union; [done|]. by apply (Hseen n); [right|].
    + eexists (_ :: cs), seen'. rewrite Hr, <- app_assoc. split; [done|]. split; [|done]. by econstructor.
Qed.
End block.

(** Precomputation accepts every block that the sequential path accepts, and agrees with it: under the default
    schedule, when the transactions of a well-formed block are applied one after the other, the contexts of the block
    exist, one for each transaction after the coinbase, in order, holding exactly the entries that the transaction spends
    of the ledger the ones before it left, all its witness items, and the fee it pays; and the fees add up to the fees
    that the sequential path collects. *)
Theorem precompute_agrees pb m height mtp chain_id registry m' fees : block_valid pb → utxo_values m →
  apply_coinbase_then_non_coinbase_txs_sequential pb m height mtp chain_id None registry = Ok (m', fees) →
  ∃ cb txid cs, head (pb_txs pb) = Some cb ∧ head (pb_txids pb) = Some txid ∧
    precompute_tx_contexts pb m height = Ok cs ∧ sum_context_fees cs = fees ∧
    contexts height (bh_timestamp (pb_header pb)) mtp chain_id registry 1
      (coinbase_created txid height (outputs cb) ∪ m) (non_coinbase pb) cs.
Proof.
  intros Hv Hm H. destruct (block_first pb Hv) as (cb & rest & Hpb & Hcb & Hrest & Hids & Hnc).
  set (txid := sha3_256 (enc_tx_core cb)) in *. set (m1 := coinbase_created txid height (outputs cb) ∪ m).
  unfold apply_coinbase_then_non_coinbase_txs_sequential in H. apply bind_Ok in H as (w & Hw & H).
  pose proof Hw as Hw'. rewrite (coinbase_outputs_Ok pb _ _ _ _ cb rest _ _ Hpb Hids Hcb) in Hw'. destruct Hw' as [_ ->].
  assert (utxo_values m1) as Hm1.
  { apply union_values; [|done]. apply mark_values, created_values. by destruct Hcb as (_ & _ & (_ & ?) & _). }
  assert (Forall tx_valid (non_coinbase pb).*1) as Hl.
  { rewrite Hnc, <- list_fmap_compose. apply list.Forall_fmap. eapply list.Forall_impl; [exact Hrest|done]. }
  apply bind_Ok in H as ([[w f] seen] & H & [= Hwm <-]).
  destruct (proj1 (seq_loop_Ok height (bh_timestamp (pb_header pb)) mtp chain_id None registry m1 None 0 ∅
    (non_coinbase pb) m' f Hl Hm1 ltac:(done)) (ex_intro _ w (ex_intro _ seen (conj H Hwm)))) as (Hr & _ & fees' & Hs & -> & _).
  destruct (precompute_loop _ _ _ _ _ _ _ _ _ Hs 1 [] ∅ Hl Hm1 Hr ltac:(intros n _; apply not_elem_of_empty)) as (cs & seen' & Hrun & Hcs & <-).
  exists cb, txid, cs. split; [by rewrite Hpb|]. split; [by rewrite Hids|]. split; [|done].
  unfold precompute_tx_contexts. rewrite bool_decide_eq_false_2 by (by rewrite Hpb).
  assert (len (pb_txids pb) = len (pb_txs pb)) as -> by (rewrite Hids, Hpb; cbn; by rewrite length_fmap).
  rewrite Z.eqb_refl. cbn [negb]. rewrite Hw. run_bind. fold m1.
  assert (drop 1 (enumerate (zip (pb_txs pb) (pb_txids pb))) = enum_from 1 (non_coinbase pb)) as Hdrop.
  { rewrite enumerate_enum. unfold non_coinbase. by rewrite Hpb, Hids. }
  destruct (len (pb_txs pb) =? 1) eqn:H1.
  - rewrite Hpb in H1. destruct rest; [|cbn in H1; lia]. rewrite Hnc in Hcs. cbn in Hcs. by inversion Hcs.
  - unfold precompute_non_coinbase_contexts. rewrite Hdrop. change (default m1 None) with m1 in Hrun. by rewrite Hrun.
Qed.
End agreement.

(** ** Witness: a block with one spend *)

Definition spend_block : ParsedBlock :=
  let txs := [demo_coinbase; spend_tx] in
  mkParsedBlock demo_header (enc_header demo_header) 2 txs ((λ tx, toy_digest (enc_tx_core tx)) <$> txs)
    ((λ tx, toy_digest (enc_tx tx)) <$> txs).
Abbreviation spend_block_applied := (apply_coinbase_then_non_coinbase_txs_sequential (HS := toy_sha3) (HO := toy_openssl)
  spend_block spend_utxo 500 0 demo_chain None None).

Lemma demo_coinbase_valid : tx_valid demo_coinbase.
Proof.
  set (b := match marshal_tx demo_coinbase with Ok b => b | Err _ => [] end).
  refine (proj1 (proj1 (parse_tx_without_hashes_Ok b demo_coinbase (len (enc_tx_core demo_coinbase)) (len (enc_tx demo_coinbase)) _) _)); by vm_compute.
Qed.
Lemma spend_block_valid : block_valid (HS := toy_sha3) spend_block.
Proof.
  split; [by vm_compute|]. do 3 (split; [done|]). split; [|done].
  constructor; [exact demo_coinbase_valid|]. constructor; [exact spend_tx_valid|constructor].
Qed.

Lemma precompute_agrees_witness : ∃ m' fees cb txid cs, spend_block_applied = Ok (m', fees) ∧
  precompute_tx_contexts spend_block spend_utxo 500 = Ok cs ∧ sum_context_fees cs = fees ∧
  contexts (HS := toy_sha3) (HO := toy_openssl) 500 5 0 demo_chain None 1
    (coinbase_created txid 500 (outputs cb) ∪ spend_utxo) (non_coinbase spend_block) cs.
Proof.
  assert (is_ok spend_block_applied = true) as [[m' fees] H]%is_ok_true by (vm_cast_no_check (eq_refl true)).
  destruct (precompute_agrees (HS := toy_sha3) (HO := toy_openssl) spend_block spend_utxo 500 0 demo_chain None m' fees
    spend_block_valid spend_utxo_fits H) as (cb & txid & cs & _ & _ & Hp & Hf & Hc).
  exists m', fees, cb, txid, cs. split; [exact H|]. split; [exact Hp|]. split; [exact Hf|exact Hc].
Defined.
