(* ===== verification/TxWorkers.v ===== *)
(** * Validating a block's transactions on workers ([tx_validate_worker.rs])

    Each task takes the precomputed context of one transaction
    ([Precompute.v]), authorizes its spends with a queue of its own, and flushes
    the queue.  The workers share only the cache of verified signatures and the
    cancellation token. *)

From S2P Require Import Prelude Bytes Errors Constants Crypto WireRead CompactSize TxWire TxCodec.
From S2P Require Import Vault Suites Verify SigCache WorkerPool SigQueue Sighash Spend Htlc Stealth CovenantGenesis.
From S2P Require Import UtxoApply UtxoRules UtxoDeferred UtxoLedger Block BlockParse BlockBasic ConnectBlock Precompute.

(* rust: tx_validate_worker.rs 29-42 TxValidationResult *)
Record TxValidationResult : Type := mkTxValidationResult {
  vr_tx_index : Z; vr_valid : bool; vr_err : option TxError; vr_sig_count : Z; vr_fee : Z }.
(* rust: tx_validate_worker.rs 44-50 TxLocalSpendContext *)
Record TxLocalSpendContext : Type := mkTxLocalSpendContext {
  lc_chain_id : bytes; lc_block_height : Z; lc_block_mtp : Z; lc_rotation : RotationProvider; lc_registry : SuiteRegistry }.

(* rust: tx_validate_worker.rs 52-60 pending_tx_validation_result *)
Definition pending_tx_validation_result (ptc : PrecomputedTxContext) : TxValidationResult :=
  mkTxValidationResult (ptc_tx_index ptc) false None 0 (ptc_fee ptc).
(* rust: tx_validate_worker.rs 62-66 tx_validation_error_result *)
Definition tx_validation_error_result (ptc : PrecomputedTxContext) (err : TxError) : TxValidationResult :=
  mkTxValidationResult (ptc_tx_index ptc) false (Some err) 0 (ptc_fee ptc).

(** The cache that the queue is given is the shared one, the state of the job. *)
(* rust: tx_validate_worker.rs 68-77 sig_queue_with_optional_cache *)
Definition worker_sig_queue (parallelism : Z) (registry : SuiteRegistry) : SigCheckQueue := with_registry (queue_new parallelism 1) registry.

(** [Ok None] is a slice out of range, a panic. *)
(* rust: tx_validate_worker.rs 79-93 assigned_worker_witness *)
Definition assigned_worker_witness (tx : Tx) (witness_cursor slots witness_end : Z) : res (option (list WitnessItem)) :=
  let next_cursor := witness_cursor + slots in
  if witness_end <? next_cursor then tx_err TxErrParse "witness underflow in worker"
  else Ok (get_range (witness_cursor, next_cursor) (witness tx)).

Section workers.
Context `{HS : Sha3} `{HO : OpenSsl}.

(* rust: tx_validate_worker.rs 205-333 validate_input_spend *)
Definition validate_input_spend (entry : UtxoEntry) (assigned : list WitnessItem) (input_index input_value : Z) (chain_id : bytes)
    (block_height block_mtp : Z) (rotation : RotationProvider) (registry : SuiteRegistry) : spend unit :=
  let t := ue_covenant_type entry in
  if t =? COV_TYPE_P2PK then
    match assigned with
    | [w] => validate_p2pk_spend_q entry w input_index input_value chain_id block_height (Some rotation) (Some registry)
    | _ => lift (tx_err TxErrParse "CORE_P2PK witness_slots must be 1")
    end
  else if t =? COV_TYPE_MULTISIG then
    m ← lift (parse_multisig_covenant_data (ue_covenant_data entry));
    validate_threshold_sig_spend_q (m_keys m) (m_threshold m) assigned input_index input_value chain_id block_height
      "CORE_MULTISIG" (Some rotation) (Some registry)
  else if t =? COV_TYPE_VAULT then
    v ← lift (parse_vault_covenant_data_for_spend (ue_covenant_data entry));
    validate_threshold_sig_spend_q (v_keys v) (v_threshold v) assigned input_index input_value chain_id block_height
      "CORE_VAULT" (Some rotation) (Some registry)
  else if t =? COV_TYPE_HTLC then
    match assigned with
    | [path_item; sig_item] =>
        validate_htlc_spend_q entry path_item sig_item (mkHtlcSpendContext input_index input_value chain_id block_height block_mtp)
          (Some rotation) (Some registry)
    | _ => lift (tx_err TxErrParse "CORE_HTLC witness_slots must be 2")
    end
  else if t =? COV_TYPE_CORE_STEALTH then
    match assigned with
    | [w] => validate_stealth_spend_q entry w input_index input_value chain_id block_height (Some rotation) (Some registry)
    | _ => lift (tx_err TxErrParse "CORE_STEALTH witness_slots must be 1")
    end
  else mret ().

(** The loop, over the inputs with their indices; [None] is a panic. *)
(* rust: tx_validate_worker.rs 95-124 validate_worker_inputs *)
Fixpoint validate_worker_inputs (tx : Tx) (ctx : TxLocalSpendContext) (witness_end witness_cursor : Z)
    (resolved_inputs : list (Z * UtxoEntry)) : spend (option Z) :=
  match resolved_inputs with
  | [] => mret (Some witness_cursor)
  | (input_index, entry) :: resolved_inputs =>
      slots ← lift (witness_slots (ue_covenant_type entry) (ue_covenant_data entry));
      assigned ← lift (assigned_worker_witness tx witness_cursor slots witness_end);
      match assigned with
      | None => mret None
      | Some assigned =>
          _ ← validate_input_spend entry assigned (low_u32 input_index) (ue_value entry) (lc_chain_id ctx) (lc_block_height ctx)
                (lc_block_mtp ctx) (lc_rotation ctx) (lc_registry ctx);
          validate_worker_inputs tx ctx witness_end (witness_cursor + slots) resolved_inputs
      end
  end.

(** Flushing a queue of one worker on the shared cache. *)
(* rust: sig_queue.rs 139-149 flush *)
Definition flush_shared (q : SigCheckQueue) : job (option SigCache) (res unit) :=
  verify_queued_tasks (q_registry q) (q_tasks q).

(** What comes before the flush: a verdict, or the queue. *)
(* rust: tx_validate_worker.rs 155-187 validate_tx_local *)
Definition validate_tx_spends (parallelism : Z) (ptc : PrecomputedTxContext) (tx : Tx) (chain_id : bytes) (block_height block_mtp : Z) :
    option (result TxValidationResult SigCheckQueue) :=
  match reject_core_simplicity_spend_if_present (ptc_resolved_inputs ptc) with
  | Err e => Some (Err (tx_validation_error_result ptc e))
  | Ok _ =>
  match prehash_cache_new tx with
  | Err e => Some (Err (tx_validation_error_result ptc e))
  | Ok sighash_cache =>
      let spend_context := mkTxLocalSpendContext chain_id block_height block_mtp DefaultRotationProvider default_registry in
      match validate_worker_inputs tx spend_context (ptc_witness_end ptc) (ptc_witness_start ptc)
              (enumerate (ptc_resolved_inputs ptc)) (sighash_cache, Some (worker_sig_queue parallelism default_registry)) with
      | (Err e, _) => Some (Err (tx_validation_error_result ptc e))
      | (Ok None, _) => None
      | (Ok (Some witness_cursor), (_, sig_queue)) =>
          if negb (witness_cursor =? ptc_witness_end ptc)
          then Some (Err (tx_validation_error_result ptc (mkTxError TxErrParse "witness_count mismatch")))
          else sig_queue ← sig_queue; Some (Ok sig_queue)
      end
  end
  end.
(** [None] is a panic: the context names no transaction of the block. *)
(* rust: tx_validate_worker.rs 140-198 validate_tx_local *)
Definition validate_tx_local (parallelism : Z) (pb : ParsedBlock) (chain_id : bytes) (block_height block_mtp : Z)
    (ptc : PrecomputedTxContext) : job (option SigCache) (option TxValidationResult) :=
  match (tx ← pb_txs pb !! Z.to_nat (ptc_tx_block_idx ptc);
         validate_tx_spends parallelism ptc tx chain_id block_height block_mtp) with
  | None => JRet None
  | Some (Err result) => JRet (Some result)
  | Some (Ok sig_queue) =>
      let sig_count := queue_len sig_queue in
      job_map (λ r, Some (match r with
                          | Ok _ => mkTxValidationResult (ptc_tx_index ptc) true None sig_count (ptc_fee ptc)
                          | Err e => mkTxValidationResult (ptc_tx_index ptc) false (Some e) sig_count (ptc_fee ptc)
                          end)) (flush_shared sig_queue)
  end.

(** A job on one half of a shared pair. *)
Fixpoint job_snd {B S A} (j : job S A) : job (B * S) A :=
  match j with
  | JRet a => JRet a
  | JAct f k => JAct (λ s, (s.1, f s.2)) (λ s, job_snd (k s.2))
  end.

(** The shared state: whether the token is cancelled, and the cache. *)
(* rust: tx_validate_worker.rs 346-370 run_tx_validation_workers *)
Definition run_tx_validation_workers (parallelism max_workers : Z) (ptcs : list PrecomputedTxContext) (pb : ParsedBlock) (chain_id : bytes)
    (block_height block_mtp : Z) (s : bool * option SigCache) (es : list (event (bool * option SigCache))) :
    option (result WorkerPoolRunError (list (WorkerResult TxValidationResult TxError)) * (bool * option SigCache)) :=
  let max_tasks := len ptcs in
  if max_tasks =? 0 then Some (Ok [], s) else
  run_worker_pool fst (λ ptc, job_map (option_map Ok) (job_snd (validate_tx_local parallelism pb chain_id block_height block_mtp ptc)))
    parallelism max_workers max_tasks ptcs s es.
End workers.

(* rust: tx_validate_worker.rs 372-393 tx_error_candidate *)
Definition tx_error_candidate (r : WorkerResult TxValidationResult TxError) : option (Z * TxError) :=
  match (value ← wr_value r; err ← vr_err value; Some (vr_tx_index value, err)) with
  | Some c => Some c
  | None =>
      (λ error, match error with
                | TaskErr err => (0, err)
                | Cancelled => (0, mkTxError TxErrParse "validation cancelled")
                | Panicked _ => (0, mkTxError TxErrParse "worker panicked during validation")
                end) <$> wr_error r
  end.

(** The body of the loop. *)
(* rust: tx_validate_worker.rs 402-417 first_tx_error *)
Definition better_tx_error (best : option (Z * TxError)) (r : WorkerResult TxValidationResult TxError) : option (Z * TxError) :=
  match tx_error_candidate r with
  | None => best
  | Some (tx_index, err) =>
      if tx_index =? 0 then match best with None => Some (tx_index, err) | Some _ => best end else
      match best with
      | None => Some (tx_index, err)
      | Some (best_idx, _) => if (best_idx =? 0) || (tx_index <? best_idx) then Some (tx_index, err) else best
      end
  end.
(* rust: tx_validate_worker.rs 399-420 first_tx_error *)
Definition first_tx_error (results : list (WorkerResult TxValidationResult TxError)) : option TxError :=
  snd <$> foldl better_tx_error None results.

(** ** One spend on a worker *)

Section spends.
Context `{HS : Sha3} `{HO : OpenSsl} (ctx : UtxoApplyImplContext).
Abbreviation tx := (cx_tx ctx).

(** What a worker demands of a spend: what is demanded of it in order, and of a
    vault its signatures at once. *)
Definition worker_spec (e : UtxoEntry) (idx : Z) (ws : list WitnessItem) : res unit :=
  if is_vault e then
    v ← parse_vault_covenant_data_for_spend (ue_covenant_data e);
    threshold_spec tx (v_keys v) (v_threshold v) ws idx (ue_value e) (cx_chain_id ctx) (cx_height ctx)
      "CORE_VAULT" (cx_rp ctx) (cx_reg ctx)
  else spend_spec ctx e idx ws.
Definition worker_authorized (idx : Z) (e : UtxoEntry) (ws : list WitnessItem) : Prop :=
  spend_authorized ctx idx e ws ∧
  (is_vault e = true → ∀ v, vault_shape v → ue_covenant_data e = enc_vault v →
     quorum tx (v_keys v) (v_threshold v) ws idx (ue_value e) (cx_chain_id ctx) (cx_height ctx) (cx_rp ctx) (cx_reg ctx)).

Abbreviation local_spend e ws idx :=
  (validate_input_spend e ws idx (ue_value e) (cx_chain_id ctx) (cx_height ctx) (cx_block_mtp ctx) (cx_rp ctx) (cx_reg ctx)).

Lemma runs_local_spend e ws idx : runs tx (local_spend e ws idx) (worker_spec e idx ws).
Proof.
  unfold validate_input_spend, worker_spec, spend_spec, is_vault. cov_consts.
  destruct (ue_covenant_type e =? 0) eqn:H0.
  { replace (ue_covenant_type e =? 257) with false by lia. destruct ws as [|w [|? ?]]; [apply runs_lift|apply runs_p2pk|apply runs_lift]. }
  destruct (ue_covenant_type e =? 260) eqn:H1.
  { replace (ue_covenant_type e =? 257) with false by lia. apply runs_bind; [apply runs_lift|]. intros m _. apply runs_threshold. }
  destruct (ue_covenant_type e =? 257) eqn:H2; [apply runs_bind; [apply runs_lift|]; intros v _; apply runs_threshold|].
  destruct (ue_covenant_type e =? 256) eqn:H3; [destruct ws as [|p [|w [|? ?]]]; try apply runs_lift; apply runs_htlc|].
  destruct (ue_covenant_type e =? 261) eqn:H4; [|apply runs_ret]. destruct ws as [|w [|? ?]]; [apply runs_lift|apply runs_stealth|apply runs_lift].
Qed.

Lemma worker_spec_Ok e idx ws : covenant_spendable e → item_suites_fit ws → worker_spec e idx ws = Ok () ↔ worker_authorized idx e ws.
Proof.
  intros Hsp Hws. unfold worker_spec, worker_authorized. destruct (is_vault e) eqn:Hv; [|rewrite spend_spec_Ok by done; naive_solver].
  destruct (vault_data e Hsp Hv) as (v & Hs & Hd). unfold parse_vault_covenant_data_for_spend.
  rewrite Hd, parse_vault_inner_complete by done. run_bind.
  rewrite threshold_spec_Ok by (destruct Hs as (? & ? & ? & _); unfold MAX_VAULT_KEYS in *; lia). split.
  - intros Hq. split; [|intros _ v' Hs' Hd'; by rewrite (enc_vault_inj v' v) by congruence]. unfold is_vault, spend_authorized in *. cov_consts.
    apply Z.eqb_eq in Hv. rewrite Hv. by split_and!.
  - intros [_ H]. by apply H.
Qed.

Lemma defers_local_spend e ws idx : Forall item_fits ws → defers tx (cx_reg ctx) ws (λ _, True) (local_spend e ws idx).
Proof.
  intros Hws. unfold validate_input_spend. repeat match goal with |- context [if ?b then _ else _] => destruct b end; [..|by apply defers_ret].
  - destruct ws as [|w [|? ?]]; try by apply defers_lift. apply defers_p2pk. by inversion Hws.
  - apply defers_lift_bind. intros m _. by apply defers_threshold.
  - apply defers_lift_bind. intros v _. by apply defers_threshold.
  - destruct ws as [|sel [|w [|? ?]]]; try by apply defers_lift. apply (defers_weaken _ _ [sel] [w] []).
    apply defers_htlc. by apply Forall_cons_1 in Hws as [_ [? _]%Forall_cons_1].
  - destruct ws as [|w [|? ?]]; try by apply defers_lift. apply defers_stealth. by inversion Hws.
Qed.

(** ** All spends of a transaction *)

Definition local_context : TxLocalSpendContext :=
  mkTxLocalSpendContext (cx_chain_id ctx) (cx_height ctx) (cx_block_mtp ctx) (cx_rp ctx) (cx_reg ctx).
Abbreviation local_inputs c es := (validate_worker_inputs tx local_context (len (witness tx)) c es).

Lemma assigned_next pre w post slots : witness tx = pre ++ w ++ post → len w = slots →
  assigned_worker_witness tx (len pre) slots (len (witness tx)) = Ok (Some w).
Proof.
  intros Hw Hs. unfold assigned_worker_witness. rewrite Hw, !length_app. replace (_ <? _) with false by lia. f_equal.
  by apply get_range_mid.
Qed.

Lemma runs_local_inputs es wss pre k : witness tx = pre ++ mjoin wss → Forall2 (λ e w, len w = slots_of e) es wss → Forall covenant_spendable es →
  runs tx (local_inputs (len pre) (enum_from k es))
    (_ ← try_for_each (λ x, worker_spec x.2.1 (low_u32 x.1) x.2.2) (enum_from k (zip es wss)); Ok (Some (len (witness tx)))).
Proof.
  intros Hw HF Hes. revert pre k Hw Hes. induction HF as [|e w es wss He HF IH]; intros pre k Hw Hes.
  { cbn. rewrite app_nil_r in Hw. rewrite Hw. apply runs_ret. }
  change (mjoin (w :: wss)) with (w ++ mjoin wss) in Hw. apply list.Forall_cons in Hes as [Hsp Hes].
  cbn [enum_from zip zip_with validate_worker_inputs try_for_each fst snd]. rewrite (proj1 (slots_spendable e Hsp)).
  intros c Hc. destruct (runs_local_spend e w (low_u32 k) c Hc) as (c1 & Hr & Hc1).
  unfold lift, mbind at 1, st_bind at 1. cbv beta iota. rewrite (assigned_next pre w (mjoin wss)) by done.
  unfold mbind at 1, st_bind at 1. cbv beta iota. unfold mbind at 1, st_bind at 1.
  cbn [local_context lc_chain_id lc_block_height lc_block_mtp lc_rotation lc_registry]. rewrite Hr.
  destruct (worker_spec e (low_u32 k) w) as [[]|err]; run_bind; [|by exists c1].
  destruct (IH (pre ++ w) (k + 1) ltac:(by rewrite <- app_assoc) Hes c1 Hc1) as (c2 & Hr2 & Hc2).
  rewrite length_app, Nat2Z.inj_add, He in Hr2. exists c2. by rewrite Hr2.
Qed.

Lemma defers_local_inputs es wss pre k : witness tx = pre ++ mjoin wss → Forall2 (λ e w, len w = slots_of e) es wss → Forall covenant_spendable es →
  Forall item_fits (mjoin wss) →
  defers tx (cx_reg ctx) (mjoin wss) (λ c, c = Some (len (witness tx))) (local_inputs (len pre) (enum_from k es)).
Proof.
  intros Hw HF Hes. revert pre k Hw Hes. induction HF as [|e w es wss He HF IH]; intros pre k Hw Hes Hfit.
  { cbn. rewrite app_nil_r in Hw. rewrite Hw. by apply defers_ret. }
  change (mjoin (w :: wss)) with (w ++ mjoin wss) in *. apply list.Forall_cons in Hes as [Hsp Hes]. apply Forall_app in Hfit as [Hfw Hfit].
  cbn [enum_from validate_worker_inputs]. rewrite (proj1 (slots_spendable e Hsp)).
  apply defers_lift_bind. intros ? [= <-]. rewrite (assigned_next pre w (mjoin wss)) by done. apply defers_lift_bind. intros ? [= <-].
  eapply (defers_bind _ _ _ _ (λ _, True)); [by apply defers_local_spend|]. intros [] _.
  specialize (IH (pre ++ w) (k + 1) ltac:(by rewrite <- app_assoc) Hes Hfit). by rewrite length_app, Nat2Z.inj_add, He in IH.
Qed.
End spends.

(** ** The verdict of a worker *)

Section verdict.
Context `{HS : Sha3} `{HO : OpenSsl}.

Definition verdict (ptc : PrecomputedTxContext) (ok : Prop) (r : TxValidationResult) : Prop :=
  vr_tx_index r = ptc_tx_index ptc ∧ vr_fee r = ptc_fee ptc ∧ (vr_valid r = true ↔ ok) ∧ (vr_err r = None ↔ vr_valid r = true).

(** All spends of a transaction are authorized, as a worker sees it. *)
Definition spends_authorized (ctx : UtxoApplyImplContext) (es : list UtxoEntry) (wss : list (list WitnessItem)) : Prop :=
  Forall (λ x, worker_authorized ctx x.1 x.2.1 x.2.2) (enumerate (zip es wss)).

Lemma specs_authorized ctx es wss k : Forall covenant_spendable es → Forall item_suites_fit wss → 0 ≤ k → k + len es ≤ 2 ^ 32 →
  try_for_each (λ x, worker_spec ctx x.2.1 (low_u32 x.1) x.2.2) (enum_from k (zip es wss)) = Ok () ↔
  Forall (λ x, worker_authorized ctx x.1 x.2.1 x.2.2) (enum_from k (zip es wss)).
Proof.
  intros Hes Hws. revert k wss Hws. induction Hes as [|e es He Hes IH]; intros k wss Hws Hk Hl; [by split; constructor|].
  destruct Hws as [|w wss Hw Hws]; [by split; constructor|]. cbn [zip zip_with enum_from try_for_each fst snd]. rewrite length_cons in Hl.
  rewrite low_u32_small by lia. rewrite list.Forall_cons, <- (IH (k + 1) wss) by (done || lia). cbn [fst snd].
  rewrite <- (worker_spec_Ok ctx e k w) by done. unfold mbind, result_bind. destruct (worker_spec ctx e k w) as [[]|err]; naive_solver.
Qed.

Context (parallelism : Z) (pb : ParsedBlock).

Lemma worker_room tx : tx_valid tx → room default_registry (worker_sig_queue parallelism default_registry) (witness tx).
Proof.
  intros Htx. pose proof (wire_room tx default_registry parallelism 1 Htx default_registry_fits) as (_ & Hm & Hb)%room_app_l.
  split; [by right|]. split; [exact Hm|exact Hb].
Qed.
Lemma worker_queue_wf : queue_wf (worker_sig_queue parallelism default_registry).
Proof. split; [done|]. by vm_compute. Qed.

(** The context that a worker is given describes a transaction of the block. *)
Definition describes (ctx : UtxoApplyImplContext) (es : list UtxoEntry) (wss : list (list WitnessItem)) (ptc : PrecomputedTxContext) : Prop :=
  cx_rotation ctx = None ∧ cx_registry ctx = None ∧ pb_txs pb !! Z.to_nat (ptc_tx_block_idx ptc) = Some (cx_tx ctx) ∧ tx_valid (cx_tx ctx) ∧
  Forall covenant_spendable es ∧ len es ≤ 2 ^ 32 ∧ witness_split (witness (cx_tx ctx)) es wss ∧
  ptc_resolved_inputs ptc = es ∧ ptc_witness_start ptc = 0 ∧ ptc_witness_end ptc = len (witness (cx_tx ctx)).

Lemma no_simplicity es : Forall covenant_spendable es → reject_core_simplicity_spend_if_present es = Ok ().
Proof.
  intros Hes. unfold reject_core_simplicity_spend_if_present. assert (existsb (λ i, ue_covenant_type i =? COV_TYPE_CORE_SIMPLICITY) es = false) as ->; [|done].
  induction Hes as [|e es He Hes IH]; [done|]. cbn [existsb]. rewrite IH. unfold covenant_spendable in He. cov_consts.
  unfold COV_TYPE_CORE_SIMPLICITY. destruct_or!; destruct_and?; lia.
Qed.

(** The signatures that a worker checks for a context. *)
Definition worker_tasks (chain_id : bytes) (height mtp : Z) (ptc : PrecomputedTxContext) : list SigCheckTask :=
  match (tx ← pb_txs pb !! Z.to_nat (ptc_tx_block_idx ptc); validate_tx_spends parallelism ptc tx chain_id height mtp) with
  | Some (Ok q) => q_tasks q
  | _ => []
  end.

(** One of the tasks is not a signature, and has the key of a recorded one. *)
Definition forged_among (recorded tasks : list SigCheckTask) : Prop := ∃ t, t ∈ tasks ∧ forged (Some default_registry) recorded t.

Lemma forged_fails recorded ts : forged_among recorded ts → checks default_registry ts ≠ Ok ().
Proof.
  intros (t & Ht & Hbad & _) Hc. apply Hbad. unfold checks in Hc. clear Hbad. induction ts as [|u ts IH]; [by apply elem_of_nil in Ht|].
  cbn [try_for_each] in Hc. destruct (verify_task (Some default_registry) u) as [[]|] eqn:Hu; [|done].
  apply elem_of_cons in Ht as [->|Ht]; [done|by apply IH].
Qed.

Lemma local_job_ok recorded ctx es wss ptc : describes ctx es wss ptc →
  let tasks := worker_tasks (cx_chain_id ctx) (cx_height ctx) (cx_block_mtp ctx) ptc in
  tasks ⊆ recorded →
  job_ok (cache_inv (Some default_registry) recorded) (λ o, ∃ r, o = Some r ∧
      (verdict ptc (spends_authorized ctx es wss) r ∨ ¬ spends_authorized ctx es wss ∧ forged_among recorded tasks))
    (validate_tx_local parallelism pb (cx_chain_id ctx) (cx_height ctx) (cx_block_mtp ctx) ptc).
Proof.
  intros (Hrot & Hreg & Hidx & Htx & Hes & Hlen & [Hw HF] & Hp1 & Hp2 & Hp3). unfold validate_tx_local, worker_tasks. rewrite Hidx. cbn [mbind option_bind].
  unfold validate_tx_spends. rewrite Hp1, Hp2, Hp3, (no_simplicity es Hes). destruct (prehash_cache_new_ok (cx_tx ctx)) as (c & -> & Hc).
  assert (mkTxLocalSpendContext (cx_chain_id ctx) (cx_height ctx) (cx_block_mtp ctx) DefaultRotationProvider default_registry = local_context ctx) as ->.
  { unfold local_context, cx_rp, cx_reg. by rewrite Hrot, Hreg. }
  assert (cx_reg ctx = default_registry) as Hdef by (unfold cx_reg; by rewrite Hreg).
  destruct (wire_witness_fits _ Htx) as (Hfit & _). pose proof Hfit as Hfit'. rewrite Hw in Hfit'. rewrite enumerate_enum.
  pose proof (runs_local_inputs ctx es wss [] 0 Hw HF Hes c Hc) as (c' & Hrun & _).
  destruct (defers_local_inputs ctx es wss [] 0 Hw HF Hes Hfit' c c _ Hc Hc worker_queue_wf)
    as (r & c1 & q & ri & c2 & ts & Hq & Hi & (_ & _ & Hwf & Hext & _) & _ & Hr).
  change (len []) with 0 in *. rewrite Hdef in *. rewrite Hi in Hrun. injection Hrun as Hri _. rewrite Hq.
  assert (Forall item_suites_fit wss) as Hsuites.
  { apply list.Forall_forall. intros w Hin. apply list.Forall_forall. intros it Hit. rewrite list.Forall_forall in Hfit'. apply Hfit'. apply list_elem_of_join. by exists w. }
  assert ((∃ a, ri = Ok a) ↔ spends_authorized ctx es wss) as Hok.
  { unfold spends_authorized. rewrite enumerate_enum, <- specs_authorized by (done || lia). rewrite Hri. destruct (try_for_each _ _) as [[]|e]; run_bind; naive_solver. }
  destruct r as [a|e].
  - destruct Hr as (-> & Hfits & Htasks & Hregq & Hri2). rewrite Z.eqb_refl. cbn [negb mbind option_bind].
    rewrite Htasks. cbn [worker_sig_queue with_registry queue_new q_tasks app]. intros Hrec.
    eapply (job_ok_map _ (direct (Some default_registry) (forged (Some default_registry) recorded) ts)).
    + rewrite Hri2 in Hok. intros r Hr. eexists. split; [done|]. destruct Hr as [->|Hbad].
      2: { right. split; [|exact Hbad]. intros [a' Ha]%Hok. apply forged_fails in Hbad. destruct (checks default_registry ts) as [[]|]; done. }
      left. fold (checks default_registry ts). destruct (checks default_registry ts) as [[]|e]; unfold verdict; cbn in Hok |- *; naive_solver.
    + unfold flush_shared. rewrite Htasks. cbn [worker_sig_queue with_registry queue_new q_tasks app]. destruct (decide (ts = [])) as [->|Hne]; [constructor; by left|].
      rewrite (Hregq Hne). by eapply verify_queued_tasks_ok; [apply cache_inv_law|].
  - intros _. constructor. eexists. split; [done|]. left. unfold verdict. cbn. split_and!; try done. split; [done|]. intros [a Ha]%Hok.
    destruct Hr as [Hno|Hri2]; [|rewrite Hri2 in Ha; destruct (checks default_registry ts) as [[]|]; discriminate Ha]. destruct Hno. rewrite Hw in *. rewrite <- Hw. by apply worker_room.
Qed.
End verdict.

(** ** All transactions on all workers *)

Section batch.
Context `{HS : Sha3} `{HO : OpenSsl} (pb : ParsedBlock) (chain_id : bytes) (height mtp : Z).

(** What the workers share stays sound, and nobody cancels. *)
Definition workers_inv (recorded : list SigCheckTask) (s : bool * option SigCache) : Prop :=
  s.1 = false ∧ cache_inv (Some default_registry) recorded s.2.

Lemma job_snd_ok {S A} (J : S → Prop) (P : A → Prop) (j : job S A) : job_ok J P j → job_ok (λ s : bool * S, s.1 = false ∧ J s.2) P (job_snd j).
Proof. induction 1 as [a Ha|f k Hf _ IH]; cbn; constructor; [done|intros s [? ?]; split; [done|by apply Hf]|]. intros s [_ Hs]. by apply IH. Qed.

(** A context with the verdict that it calls for. *)
Definition calls_for (ok : Prop) (ptc : PrecomputedTxContext) : Prop := ∃ ctx es wss, describes pb ctx es wss ptc ∧
  cx_chain_id ctx = chain_id ∧ cx_height ctx = height ∧ cx_block_mtp ctx = mtp ∧ (ok ↔ spends_authorized ctx es wss).
Definition answers (ok : PrecomputedTxContext → Prop) (ptc : PrecomputedTxContext) (r : WorkerResult TxValidationResult TxError) : Prop :=
  ∃ v, r = wr_success v ∧ verdict ptc (ok ptc) v.

Lemma verdict_iff ptc P Q r : (P ↔ Q) → verdict ptc P r → verdict ptc Q r.
Proof. unfold verdict. intros. naive_solver. Qed.

(** The context of a transaction with a spend that is not authorized, one of
    whose tasks is forged. *)
Definition forged_context parallelism recorded (ok : PrecomputedTxContext → Prop) (c : PrecomputedTxContext) : Prop :=
  ¬ ok c ∧ forged_among recorded (worker_tasks parallelism pb chain_id height mtp c).

Lemma workers_run recorded parallelism max_workers ok ptcs s es out s' : Forall (λ c, calls_for (ok c) c) ptcs →
  Forall (λ c, worker_tasks parallelism pb chain_id height mtp c ⊆ recorded) ptcs →
  workers_inv recorded s → Forall (event_ok (workers_inv recorded)) es →
  run_tx_validation_workers parallelism max_workers ptcs pb chain_id height mtp s es = Some (out, s') →
  ∃ results, out = Ok results ∧ (Forall2 (answers ok) ptcs results ∨ Exists (forged_context parallelism recorded ok) ptcs).
Proof.
  intros Hc Hrec Hs Hes. unfold run_tx_validation_workers. destruct (len ptcs =? 0) eqn:Hz.
  { apply Z.eqb_eq, len_0_nil in Hz as ->. intros [= <- _]. exists []. split; [done|]. left. constructor. }
  intros Hrun. apply (run_worker_pool_ok _ _ (workers_inv recorded) (λ c r, answers ok c r ∨ forged_context parallelism recorded ok c)) in Hrun as [_ Hrun]; [| |done..].
  2: { intros c Hin. constructor; [done|]. intros s0 [Hcan Hcache]. rewrite Hcan.
       rewrite list.Forall_forall in Hc, Hrec. destruct (Hc c Hin) as (ctx & ents & wss & Hd & Hci & Hch & Hmt & Hok). specialize (Hrec c Hin).
       pose proof (local_job_ok parallelism pb recorded ctx ents wss c Hd) as Hj. cbv zeta in Hj. rewrite Hci, Hch, Hmt in Hj.
       eapply (job_ok_map _ (λ o, ∃ r, o = Some (Ok r) ∧ (verdict c (ok c) r ∨ forged_context parallelism recorded ok c))).
       - intros o (r & -> & [Hv|Hf]); [left|by right]. by exists r.
       - eapply job_ok_map; [|apply job_snd_ok, (Hj Hrec)].
         intros o (r & -> & Hv). exists r. split; [done|]. destruct Hv as [Hv|[Hn Hf]]; [left; by eapply verdict_iff|right].
         split; [by intros ?%Hok|exact Hf]. }
  destruct Hrun as [(results & -> & HF)|[(_ & Hm & _)|(Hm & _)]]; [|lia..]. exists results. split; [done|].
  clear -HF. induction HF as [|c r cs rs [Hc|Hf] _ [IH|IH]]; [left; constructor|left; by constructor|right; by constructor..].
Qed.

(** The first error is that of the first transaction that fails. *)
Definition first_failure (ok : PrecomputedTxContext → Prop) (ptcs : list PrecomputedTxContext) (results : list (WorkerResult TxValidationResult TxError))
    (first : option TxError) : Prop :=
  match first with
  | None => Forall ok ptcs
  | Some e => ∃ before c after v, ptcs = before ++ c :: after ∧ Forall ok before ∧ ¬ ok c ∧ results !! length before = Some (wr_success v) ∧ vr_err v = Some e
  end.

Lemma candidate_success v : tx_error_candidate (wr_success v) = (λ e, (vr_tx_index v, e)) <$> vr_err v.
Proof. unfold tx_error_candidate. cbn. by destruct (vr_err v). Qed.

Lemma better_keeps best n e rs : best = Some (n, e) → 0 < n →
  Forall (λ r, ∃ v, r = wr_success v ∧ n < vr_tx_index v) rs → foldl better_tx_error best rs = best.
Proof.
  intros -> Hn HF. induction HF as [|r rs (v & -> & Hv) _ IH]; [done|]. cbn [foldl]. unfold better_tx_error at 2. rewrite candidate_success.
  destruct (vr_err v) as [e'|]; cbn [fmap option_fmap option_map]; [|done]. replace (vr_tx_index v =? 0) with false by lia.
  replace ((n =? 0) || (vr_tx_index v <? n)) with false by lia. done.
Qed.

Lemma first_error_spec ok i ptcs results : 0 < i → (∀ k c, ptcs !! k = Some c → ptc_tx_index c = i + Z.of_nat k) →
  Forall2 (answers ok) ptcs results → first_failure ok ptcs results (first_tx_error results).
Proof.
  intros Hi Hidx HF. revert i Hi Hidx. unfold first_tx_error.
  induction HF as [|c r cs rs (v & -> & (Hvi & _ & Hok & Herr)) HF IH]; intros i Hi Hidx; [constructor|].
  pose proof (Hidx 0%nat c eq_refl) as Hc. assert (∀ k d, cs !! k = Some d → ptc_tx_index d = i + 1 + Z.of_nat k) as Hcs.
  { intros k d Hd. rewrite (Hidx (S k) d Hd). lia. }
  specialize (IH (i + 1) ltac:(lia) Hcs). cbn [foldl]. unfold better_tx_error at 2. rewrite candidate_success.
  destruct (vr_err v) as [e|] eqn:He; cbn [fmap option_fmap option_map].
  - replace (vr_tx_index v =? 0) with false by lia. rewrite (better_keeps _ (vr_tx_index v) e); [|done|lia|].
    + exists [], c, cs, v. split_and!; [done|constructor| |done|done]. rewrite <- Hok, <- Herr. congruence.
    + apply Forall_lookup. intros k r Hk. destruct (Forall2_lookup_r _ _ _ _ _ HF Hk) as (d & Hd & v' & -> & Hv' & _).
      exists v'. split; [done|]. rewrite Hv', (Hcs k d Hd). lia.
  - assert (ok c) by (apply Hok, Herr; done). destruct (snd <$> foldl better_tx_error None rs) as [e|].
    + destruct IH as (before & d & after & v' & -> & Hb & Hn & Hl & He'). exists (c :: before), d, after, v'. split_and!; [done|by constructor|done..].
    + by constructor.
Qed.

(** C32: workers decide each transaction as its spends deserve. Given contexts that describe transactions of the block in
    order, every complete run of the pool that nobody cancels, whatever the schedule, the number of workers and the
    sound content of the shared cache (the keys of valid signatures among those recorded, the block's own included),
    answers each context with its index and fee, valid exactly when all its spends are authorized (a vault's signatures
    included), and the reported error is that of the first transaction that fails. The exception is a transaction with a
    spend that is not authorized, one of whose invalid signatures has the cache key of a recorded valid one although the
    two hashed strings differ. *)
Theorem workers_decide recorded parallelism max_workers ok ptcs s es out s' : Forall (λ c, calls_for (ok c) c) ptcs →
  (∀ k c, ptcs !! k = Some c → ptc_tx_index c = 1 + Z.of_nat k) →
  Forall (λ c, worker_tasks parallelism pb chain_id height mtp c ⊆ recorded) ptcs →
  workers_inv recorded s → Forall (event_ok (workers_inv recorded)) es →
  run_tx_validation_workers parallelism max_workers ptcs pb chain_id height mtp s es = Some (out, s') →
  ∃ results, out = Ok results ∧
    (Forall2 (answers ok) ptcs results ∧ first_failure ok ptcs results (first_tx_error results)
     ∨ Exists (forged_context parallelism recorded ok) ptcs).
Proof.
  intros Hc Hidx Hrec Hs Hes Hrun. destruct (workers_run _ _ _ _ _ _ _ _ _ Hc Hrec Hs Hes Hrun) as (results & -> & [HF|?]);
    exists results; (split; [done|]); [left|by right]. split; [done|]. by apply (first_error_spec ok 1).
Qed.
End batch.

(** ** Blocks that the sequential path accepts *)

Section accepted.
Context `{HS : Sha3} `{HO : OpenSsl} (pb : ParsedBlock) (height mtp : Z) (chain_id : bytes).
Abbreviation at_ledger m x := (cx_at height (bh_timestamp (pb_header pb)) mtp chain_id None None m x).

Lemma accepted_authorized ctx es wss : accepted ctx es wss → spends_authorized ctx es wss.
Proof.
  intros [_ _ _ _ _ Hsp _ Hv _ _]. unfold spends_authorized. apply list.Forall_forall. intros [idx [e ws]] Hin. cbn.
  unfold spends_allowed in Hsp. rewrite list.Forall_forall in Hsp. split; [apply (Hsp _ Hin)|]. intros Hvault v Hs Hd.
  by destruct (Hv idx e ws v Hin Hvault Hs Hd) as (_ & _ & ? & _).
Qed.

Lemma contexts_call i m l cs : contexts height (bh_timestamp (pb_header pb)) mtp chain_id None i m l cs → 0 ≤ i →
  (∀ k x, l !! k = Some x → pb_txs pb !! (Z.to_nat i + k)%nat = Some x.1 ∧ tx_valid x.1) →
  Forall (calls_for pb chain_id height mtp True) cs ∧ ∀ k c, cs !! k = Some c → ptc_tx_index c = i + Z.of_nat k.
Proof.
  induction 1 as [i m|i m x l es wss cs Ha _ IH]; intros Hi Hl; [by split; [constructor|]|].
  destruct (Hl 0%nat x eq_refl) as [Hx Hv]. rewrite Nat.add_0_r in Hx.
  destruct IH as [IH1 IH2]; [lia| |].
  { intros k y Hk. destruct (Hl (S k) y Hk) as [Hy ?]. split; [|done]. rewrite <- Hy. f_equal. lia. }
  split.
  - constructor; [|done]. exists (at_ledger m x), es, wss. split; [|split_and!; try done; split; [by intros _; apply accepted_authorized|done]].
    pose proof (ac_resolve _ _ _ Ha) as (HF & _). split_and!; try done.
    + by eapply resolves_spendable.
    + rewrite <- (Forall2_length HF). destruct Hv as (_ & (Hn & _) & _). unfold MAX_TX_INPUTS in Hn. cbn. lia.
    + exact (ac_witness _ _ _ Ha).
  - intros [|k] c Hk; [injection Hk as <-; cbn; lia|]. rewrite (IH2 k c Hk). lia.
Qed.

(** C38: workers never reject a block that the sequential path accepts. When the transactions of a well-formed block apply one
    after the other under the default suites, their contexts are computed, and every complete run of the workers on them
    answers that each transaction is valid and pays the fee of its context, whose sum is the block's fees, with no error
    to report. The shared cache may hold the keys of any recorded valid signatures, and the workers record the block's. *)
Theorem workers_accept_block recorded parallelism max_workers m m' fees s es out s' : block_valid pb → utxo_values m →
  apply_coinbase_then_non_coinbase_txs_sequential pb m height mtp chain_id None None = Ok (m', fees) →
  workers_inv recorded s → Forall (event_ok (workers_inv recorded)) es →
  ∃ cs, precompute_tx_contexts pb m height = Ok cs ∧ sum_context_fees cs = fees ∧
    (Forall (λ c, worker_tasks parallelism pb chain_id height mtp c ⊆ recorded) cs →
     run_tx_validation_workers parallelism max_workers cs pb chain_id height mtp s es = Some (out, s') →
     ∃ results, out = Ok results ∧ first_tx_error results = None ∧
       Forall2 (λ c r, ∃ n, r = wr_success (mkTxValidationResult (ptc_tx_index c) true None n (ptc_fee c))) cs results).
Proof.
  intros Hv Hm Hseq Hs Hes. destruct (precompute_agrees pb m height mtp chain_id None m' fees Hv Hm Hseq) as (cb & txid & cs & _ & _ & Hpre & Hfees & Hcs).
  exists cs. split; [done|]. split; [done|]. intros Hrec Hrun.
  destruct (block_first pb Hv) as (cb' & rest & Hpb & _ & Hrest & _ & Hnc).
  destruct (contexts_call _ _ _ _ Hcs ltac:(lia)) as [Hcall Hidx].
  { intros k x Hk. rewrite Hnc, list_lookup_fmap in Hk. destruct (rest !! k) as [tx|] eqn:Htx; [|done]. injection Hk as <-.
    rewrite Hpb. split; [done|]. by apply (list.Forall_lookup_1 _ _ _ _ Hrest Htx). }
  destruct (workers_run pb chain_id height mtp recorded parallelism max_workers (λ _, True) cs s es out s' Hcall Hrec Hs Hes Hrun)
    as (results & -> & [HF|(c & _ & [] & _)%list.Exists_exists]); [|done]. exists results. split; [done|]. split.
  - pose proof (first_error_spec (λ _, True) 1 cs results ltac:(lia) Hidx HF) as Hfirst. destruct (first_tx_error results); [|done].
    destruct Hfirst as (? & ? & ? & ? & _ & _ & Hn & _). by destruct Hn.
  - eapply list.Forall2_impl; [exact HF|]. intros c r (v & -> & (H1 & H2 & H3 & H4)). exists (vr_sig_count v). f_equal.
    destruct v as [i ok e n f]; cbn in *. destruct ok; [|by discriminate (proj2 H3 I)]. rewrite (proj2 H4 eq_refl). congruence.
Qed.
End accepted.

(** ** Witnesses: the spend of a block, on one worker *)

Definition spend_block_contexts : list PrecomputedTxContext :=
  match precompute_tx_contexts spend_block spend_utxo 500 with Ok cs => cs | Err _ => [] end.
Definition spend_block_schedule : list (event (bool * option SigCache)) := replicate 3 (EvWorker 0).
Definition spend_block_run := run_tx_validation_workers (HS := toy_sha3) (HO := toy_openssl) 1 1 spend_block_contexts spend_block demo_chain 500 0
  (false, None) spend_block_schedule.

Lemma spend_block_runs : ∃ out s', spend_block_run = Some (out, s').
Proof.
  assert (match spend_block_run with Some _ => true | None => false end = true) as H by (vm_cast_no_check (eq_refl true)).
  destruct spend_block_run as [[out s']|]; [by exists out, s'|discriminate H].
Qed.
(** The signatures of the block are the recorded ones. *)
Definition spend_block_tasks : list SigCheckTask :=
  mjoin (worker_tasks (HS := toy_sha3) (HO := toy_openssl) 1 spend_block demo_chain 500 0 <$> spend_block_contexts).
Lemma demo_workers_inv : workers_inv (HS := toy_sha3) (HO := toy_openssl) spend_block_tasks (false, None).
Proof. by split. Qed.
Lemma demo_events_ok : Forall (event_ok (workers_inv (HS := toy_sha3) (HO := toy_openssl) spend_block_tasks)) spend_block_schedule.
Proof. repeat constructor. Qed.
Lemma demo_tasks_recorded :
  Forall (λ c, worker_tasks (HS := toy_sha3) (HO := toy_openssl) 1 spend_block demo_chain 500 0 c ⊆ spend_block_tasks) spend_block_contexts.
Proof.
  apply list.Forall_forall. intros c Hc t Ht. apply list_elem_of_join. eexists. split; [exact Ht|]. by apply list_elem_of_fmap_2.
Qed.

Lemma workers_accept_block_witness : ∃ out s', spend_block_run = Some (out, s') ∧
  ∃ results, out = Ok results ∧ first_tx_error results = None.
Proof.
  assert (is_ok spend_block_applied = true) as [[m' fees] Hseq]%is_ok_true by (vm_cast_no_check (eq_refl true)).
  destruct spend_block_runs as (out & s' & Hrun). exists out, s'. split; [exact Hrun|].
  destruct (workers_accept_block (HS := toy_sha3) (HO := toy_openssl) spend_block 500 0 demo_chain spend_block_tasks 1 1 spend_utxo m' fees (false, None)
    spend_block_schedule out s' spend_block_valid spend_utxo_fits Hseq demo_workers_inv demo_events_ok) as (cs & Hp & _ & Hall).
  pose proof demo_tasks_recorded as Hrec. unfold spend_block_run in Hrun. unfold spend_block_contexts in Hrun, Hrec. rewrite Hp in Hrun, Hrec.
  destruct (Hall Hrec Hrun) as (results & Ho & Hf & _). exists results. split; [exact Ho|exact Hf].
Defined.

Lemma spend_block_call : Forall (λ c, calls_for (HS := toy_sha3) (HO := toy_openssl) spend_block demo_chain 500 0 True c) spend_block_contexts
  ∧ ∀ k c, spend_block_contexts !! k = Some c → ptc_tx_index c = 1 + Z.of_nat k.
Proof.
  assert (is_ok spend_block_applied = true) as [[m' fees] Hseq]%is_ok_true by (vm_cast_no_check (eq_refl true)).
  destruct (precompute_agrees (HS := toy_sha3) (HO := toy_openssl) spend_block spend_utxo 500 0 demo_chain None m' fees
    spend_block_valid spend_utxo_fits Hseq) as (cb & txid & cs & _ & _ & Hp & _ & Hc).
  unfold spend_block_contexts. rewrite Hp. apply (contexts_call _ _ _ _ _ _ _ _ Hc); [lia|].
  intros k x Hk. destruct (block_first (HS := toy_sha3) spend_block spend_block_valid) as (cb' & rest & Hpb & _ & Hrest & _ & Hnc).
  rewrite Hnc, list_lookup_fmap in Hk. destruct (rest !! k) as [tx|] eqn:Htx; [|discriminate Hk]. injection Hk as <-.
  rewrite Hpb. split; [exact Htx|]. exact (list.Forall_lookup_1 _ _ _ _ Hrest Htx).
Qed.

Lemma workers_decide_witness : ∃ out s', spend_block_run = Some (out, s') ∧
  ∃ results, out = Ok results ∧ first_failure (λ _, True) spend_block_contexts results (first_tx_error results).
Proof.
  destruct spend_block_runs as (out & s' & Hrun). exists out, s'. split; [exact Hrun|]. destruct spend_block_call as [Hc Hi].
  destruct (workers_decide (HS := toy_sha3) (HO := toy_openssl) spend_block demo_chain 500 0 spend_block_tasks 1 1 (λ _, True) spend_block_contexts (false, None)
    spend_block_schedule out s' Hc Hi demo_tasks_recorded demo_workers_inv demo_events_ok Hrun) as (results & Ho & [[_ Hf]|Hforged]).
  - exists results. split; [exact Ho|exact Hf].
  - apply list.Exists_exists in Hforged as (c & _ & Hn & _). destruct (Hn I).
Defined.
