(* ===== verification/PoolPolicy.v ===== *)
(** * The transaction pool's policy ([txpool.rs])

    The rules that the pool applies to a transaction besides consensus: the
    fee floors, the check that rejects cheap spam before a signature is
    verified, the fees of data transactions, and the guard on Simplicity
    outputs before their deployment.  [TxPool.v] models the pool itself. *)

From stdpp Require Import pretty.
From S2P Require Import Prelude Bytes BTree Errors Constants Crypto WireRead CompactSize TxWire TxCodec Block Merkle Pow Subsidy.
From S2P Require Import Vault Suites Verify SigCache WorkerPool SigQueue Sighash Spend Htlc Stealth CovenantGenesis.
From S2P Require Import UtxoApply UtxoRules UtxoDeferred UtxoLedger BlockParse BlockWeight BlockDa BlockBasic ConnectBlock.
From S2P Require Import NodeText Uint128 ChainState PendingOwner BlockStore AtomicWrite StoreFiles Headers.

(* rust: node/txpool.rs 22-22 MAX_TX_POOL_TRANSACTIONS *)
Definition MAX_TX_POOL_TRANSACTIONS : Z := 300.
Definition DEFAULT_TX_POOL_MAX_BYTES : Z := MAX_RELAY_MSG_BYTES.
Definition TX_POOL_LOW_WATER_NUMERATOR : Z := 9.
Definition TX_POOL_LOW_WATER_DENOMINATOR : Z := 10.
(* rust: node/txpool.rs 91-91 DEFAULT_MEMPOOL_MIN_FEE_RATE *)
Definition DEFAULT_MEMPOOL_MIN_FEE_RATE : Z := 1.
(* rust: node/txpool.rs 98-98 DEFAULT_MIN_DA_FEE_RATE *)
Definition DEFAULT_MIN_DA_FEE_RATE : Z := 1.

(* rust: node/sync.rs 46-49 SuiteContext *)
Record SuiteContext : Type := mkSuiteContext { sc_rotation : RotationProvider; sc_registry : SuiteRegistry }.

(* rust: node/txpool.rs 101-124 TxPoolConfig *)
Record TxPoolConfig : Type := mkTxPoolConfig {
  pc_da_surcharge_per_byte : Z; pc_reject_non_coinbase_anchor_outputs : bool;
  pc_reject_simplicity_pre_activation : bool; pc_suite_context : option SuiteContext;
  pc_current_mempool_min_fee_rate : Z; pc_min_da_fee_rate : Z }.
(* rust: node/txpool.rs 1612-1623 default *)
Definition TxPoolConfig_default : TxPoolConfig :=
  mkTxPoolConfig 0 true true None DEFAULT_MEMPOOL_MIN_FEE_RATE DEFAULT_MIN_DA_FEE_RATE.
Definition with_floor (cfg : TxPoolConfig) (floor : Z) : TxPoolConfig :=
  mkTxPoolConfig (pc_da_surcharge_per_byte cfg) (pc_reject_non_coinbase_anchor_outputs cfg)
    (pc_reject_simplicity_pre_activation cfg) (pc_suite_context cfg) floor (pc_min_da_fee_rate cfg).

(* rust: node/txpool.rs 245-249 TxPoolAdmitErrorKind *)
Inductive TxPoolAdmitErrorKind : Type := AdmitConflict | AdmitRejected | AdmitUnavailable.
(* rust: node/txpool.rs 252-255 TxPoolAdmitError *)
Record TxPoolAdmitError : Type := mkAdmitError { ae_kind : TxPoolAdmitErrorKind; ae_message : string }.
(* rust: node/txpool.rs 258-262 RelayTxMetadata *)
Record RelayTxMetadata : Type := mkRelayTxMetadata { rm_fee : Z; rm_size : Z }.

Abbreviation ares := (result TxPoolAdmitError).
(* rust: node/txpool.rs 1687-1692 conflict *)
Definition conflict (message : string) : TxPoolAdmitError := mkAdmitError AdmitConflict message.
(* rust: node/txpool.rs 1708-1713 rejected *)
Definition rejected (message : string) : TxPoolAdmitError := mkAdmitError AdmitRejected message.
(* rust: node/txpool.rs 1715-1720 unavailable *)
Definition unavailable (message : string) : TxPoolAdmitError := mkAdmitError AdmitUnavailable message.
(* rust: node/txpool.rs 1694-1700 owner_error *)
Definition owner_error (error : PendingOutpointError) : TxPoolAdmitError :=
  match pe_kind error with
  | PendingConflict => conflict (pe_message error)
  | PendingUnavailable | PendingInternal => unavailable (pe_message error)
  end.
Definition tx_rejected (err : TxError) : TxPoolAdmitError := rejected ("transaction rejected: " +:+ display err).

(** ** The context of the next block *)

(* rust: node/txpool.rs 1626-1634 next_block_height *)
Definition pool_next_height (chain_state : ChainState) : ares Z :=
  if negb (ch_has_tip chain_state) then Ok 0 else
  if ch_height chain_state =? u64_max then Err (unavailable "height overflow") else
  Ok (ch_height chain_state + 1).

(** [None] is an index out of range, a panic. *)
(* rust: node/txpool.rs 1671-1685 mtp_median *)
Definition mtp_median (next_height : Z) (prev_timestamps : list Z) : option Z :=
  let window_len := if next_height <? 11 then next_height else 11 in
  if (len prev_timestamps <? window_len) && bool_decide (prev_timestamps = []) then Some 0 else
  let window_len := if len prev_timestamps <? window_len then len prev_timestamps else window_len in
  let window := merge_sort Z.le (take (Z.to_nat window_len) prev_timestamps) in
  if window_len =? 0 then None else window !! Z.to_nat ((window_len - 1) / 2).

Section policy.
Context `{HS : Sha3} `{HO : OpenSsl} `{HX : Hex}.
Implicit Types (cfg : TxPoolConfig) (tx : Tx) (utxos : UtxoMap).

(** The timestamp of the block below [next_height] by [idx] and one. *)
(* rust: node/txpool.rs 1650-1665 next_block_mtp *)
Definition push_header_timestamp (self : Store) (next_height : Z) (out : list Z) (idx : Z) : ares (list Z) :=
  hash ← ok_or (canonical_hash (so_index self) (next_height - 1 - idx))
           (unavailable "missing canonical header for timestamp context");
  header_bytes ← map_err unavailable (get_header_by_hash self hash);
  header ← map_err (λ err, unavailable (display err)) (parse_block_header_bytes header_bytes);
  Ok (out ++ [bh_timestamp header]).
(** [None] is a panic of [mtp_median]. *)
(* rust: node/txpool.rs 1636-1669 next_block_mtp *)
Definition next_block_mtp (block_store : option Store) (next_height : Z) : option (ares Z) :=
  match block_store with
  | None => Some (Ok 0)
  | Some self =>
      if next_height =? 0 then Some (Ok 0) else
      let window_len := if next_height <? 11 then next_height else 11 in
      match try_fold (push_header_timestamp self next_height) [] (seqZ 0 window_len) with
      | Err e => Some (Err e)
      | Ok out => Ok <$> mtp_median next_height out
      end
  end.

(** ** Fee floors *)

(* rust: node/txpool.rs 1738-1744 fee_rate_below_floor *)
Definition fee_rate_below_floor (fee weight floor : Z) : bool :=
  if weight =? 0 then true else fee_below_rate fee weight (Z.max floor DEFAULT_MEMPOOL_MIN_FEE_RATE).

(* rust: node/txpool.rs 1756-1764 validate_fee_floor *)
Definition validate_fee_floor (fee weight cfg_floor : Z) : ares unit :=
  if fee_rate_below_floor fee weight cfg_floor then
    Err (unavailable ("mempool fee below rolling minimum: fee=" +:+ pretty fee +:+ " weight=" +:+ pretty weight +:+ " min_fee_rate="
                      +:+ pretty (Z.max cfg_floor DEFAULT_MEMPOOL_MIN_FEE_RATE))%string)
  else Ok ().

(** [params.sig_len + 1] is the sum without wrap-around, as in [BlockWeight.v].
    The cached default sets are the provider's and the registry's defaults. *)
(* rust: node/txpool.rs 1876-1998 fee_precheck_p2pk_input_value *)
Definition fee_precheck_p2pk_input_value tx utxos (next_height : Z) (rotation : option RotationProvider)
    (registry : option SuiteRegistry) : option Z :=
  match inputs tx, witness tx with
  | [input], [w] =>
      if bool_decide (prev_txid input = zeros 32) && (prev_vout input =? 0xffffffff) then None else
      if negb (bool_decide (script_sig input = [])) then None else
      if 0x7fffffff <? sequence input then None else
      entry ← utxos !! mkOutpoint (prev_txid input) (prev_vout input);
      if negb (ue_covenant_type entry =? COV_TYPE_P2PK) then None else
      if ue_created_by_coinbase entry
         && ((next_height <? ue_creation_height entry) || (next_height - ue_creation_height entry <? COINBASE_MATURITY)) then None else
      if negb (ns_contains (native_spend_suites (default DefaultRotationProvider rotation) next_height) (suite_id w)) then None else
      params ← sr_lookup (default default_registry registry) (suite_id w);
      if negb (len (pubkey w) =? sp_pubkey_len params) || negb (len (signature w) =? sp_sig_len params + 1) then None else
      if negb (len (ue_covenant_data entry) =? MAX_P2PK_COVENANT_DATA) then None else
      if negb (byte_at 0 (ue_covenant_data entry) =? suite_id w) then None else
      trailer ← list.last (signature w);
      if negb (is_valid_sighash_type (byte_val trailer)) then None else
      if negb (bool_decide (sha3_256 (pubkey w) = slice 1 33 (ue_covenant_data entry))) then None else
      Some (ue_value entry)
  | _, _ => None
  end.

(* rust: node/txpool.rs 2015-2048 fee_precheck_p2pk_output_value *)
Definition fee_precheck_p2pk_output_value (outputs : list TxOutput) (next_height : Z) (rotation : option RotationProvider) : option Z :=
  let native_suites := native_create_suites (default DefaultRotationProvider rotation) next_height in
  foldl (λ total output, total ← total;
    if negb (covenant_type output =? COV_TYPE_P2PK) then None else
    if value output =? 0 then None else
    if negb (len (covenant_data output) =? MAX_P2PK_COVENANT_DATA) then None else
    if negb (ns_contains native_suites (byte_at 0 (covenant_data output))) then None else
    checked_add u64_max total (value output)) (Some 0) outputs.

(* rust: node/txpool.rs 1804-1850 cheap_fee_floor_precheck *)
Definition cheap_fee_floor_precheck tx utxos (weight current_min_fee_rate next_height : Z)
    (rotation : option RotationProvider) (registry : option SuiteRegistry) : ares unit :=
  if negb (tx_kind tx =? 0) || negb (bool_decide (da_payload tx = [])) || (tx_nonce tx =? 0) then Ok () else
  match fee_precheck_p2pk_input_value tx utxos next_height rotation registry with
  | None => Ok ()
  | Some input_value =>
      match fee_precheck_p2pk_output_value (outputs tx) next_height rotation with
      | None => Ok ()
      | Some output_value =>
          if input_value <? output_value then Ok () else
          if weight =? 0 then Ok () else
          validate_fee_floor (input_value - output_value) weight current_min_fee_rate
      end
  end.

(** ** Data transactions, anchors and Simplicity outputs *)

(* rust: node/txpool.rs 2382-2412 compute_fee_no_verify *)
Definition compute_fee_no_verify tx utxos : nres Z :=
  if bool_decide (inputs tx = []) then fail "missing inputs" else
  sum_in ← try_fold (λ sum_in input,
    entry ← ok_or (utxos !! mkOutpoint (prev_txid input) (prev_vout input)) "missing utxo"%string;
    ok_or (checked_add u128_max sum_in (ue_value entry)) "sum_in overflow"%string) 0 (inputs tx);
  sum_out ← try_fold (λ sum_out output, ok_or (checked_add u128_max sum_out (value output)) "sum_out overflow"%string) 0 (outputs tx);
  if sum_in <? sum_out then fail "overspend" else Ok (sum_in - sum_out).

(* rust: node/txpool.rs 2313-2372 reject_da_anchor_tx_policy *)
Definition reject_da_anchor_tx_policy tx (weight da_bytes : Z) utxos
    (current_mempool_min_fee_rate min_da_fee_rate da_surcharge_per_byte : Z) : nres unit :=
  if da_bytes =? 0 then Ok () else
  let relay_floor := weight * current_mempool_min_fee_rate in
  let checked (a : Z) (m : string) : nres Z := if a <=? u64_max then Ok a else Err m in
  da_floor ← checked (da_bytes * min_da_fee_rate)
    ("DA fee floor overflow (da_payload_len=" +:+ pretty da_bytes +:+ " min_da_fee_rate=" +:+ pretty min_da_fee_rate +:+ "): u64 overflow")%string;
  da_surcharge ← checked (da_bytes * da_surcharge_per_byte)
    ("DA surcharge overflow (da_payload_len=" +:+ pretty da_bytes +:+ " surcharge_per_byte=" +:+ pretty da_surcharge_per_byte
     +:+ "): u64 overflow")%string;
  da_required ← checked (da_floor + da_surcharge)
    ("DA required fee overflow (da_fee_floor=" +:+ pretty da_floor +:+ " da_surcharge=" +:+ pretty da_surcharge +:+ "): u64 overflow")%string;
  let required := Z.max relay_floor da_required in
  if required =? 0 then Ok () else
  fee ← map_err (λ err, "cannot compute fee for DA tx (policy): " +:+ err)%string (compute_fee_no_verify tx utxos);
  if fee <? required then
    fail ("DA fee below Stage C floor (fee=" +:+ pretty fee +:+ " required_fee=" +:+ pretty required +:+ " relay_fee_floor="
          +:+ pretty relay_floor +:+ " da_fee_floor=" +:+ pretty da_floor +:+ " da_surcharge=" +:+ pretty da_surcharge
          +:+ " weight=" +:+ pretty weight +:+ " da_payload_len=" +:+ pretty da_bytes +:+ ")")%string
  else Ok ().

(* rust: node/txpool.rs 2249-2258 reject_non_coinbase_anchor_outputs *)
Definition reject_non_coinbase_anchor_outputs tx : nres unit :=
  if existsb (λ output, covenant_type output =? COV_TYPE_ANCHOR) (outputs tx)
  then fail "non-coinbase CORE_ANCHOR is non-standard (policy)" else Ok ().

(* rust: node/txpool.rs 2222-2247 covenant_policy_kind *)
Definition covenant_policy_kind tx utxos (ty : Z) : option string :=
  if existsb (λ output, covenant_type output =? ty) (outputs tx) then Some "output"%string else
  if existsb (λ input, match utxos !! mkOutpoint (prev_txid input) (prev_vout input) with
                       | Some entry => ue_covenant_type entry =? ty
                       | None => false
                       end) (inputs tx)
  then Some "spend"%string else None.

(** The provider with the deployment forced active. *)
(* rust: node/txpool.rs 2198-2220 ActiveSimplicityGenesisRotation *)
Definition active_simplicity_genesis_rotation (inner : option RotationProvider) : RotationProvider :=
  let inner := default DefaultRotationProvider inner in
  mkRotationProvider (native_create_suites inner) (native_spend_suites inner) (λ _, true).

(* rust: node/txpool.rs 2115-2142 reject_missing_policy_inputs *)
Definition reject_missing_policy_inputs tx utxos : ares unit :=
  try_for_each (λ input, if bool_decide (is_Some (utxos !! mkOutpoint (prev_txid input) (prev_vout input))) then Ok ()
                         else Err (rejected (display (mkTxError TxErrMissingUtxo "utxo not found")))) (inputs tx).

(* rust: node/txpool.rs 2166-2190 reject_core_simplicity_pre_activation *)
Definition reject_core_simplicity_pre_activation tx utxos (height : Z) (rotation : option RotationProvider) : nres (option string) :=
  match covenant_policy_kind tx utxos COV_TYPE_CORE_SIMPLICITY with
  | None => Ok None
  | Some kind =>
      let active := match rotation with Some provider => simplicity_active_at_height provider height | None => false end in
      if active then Ok None else
      match validate_tx_covenants_genesis tx height (Some (active_simplicity_genesis_rotation rotation)) with
      | Err err => Err (display err)
      | Ok _ => Ok (Some ("CORE_SIMPLICITY " +:+ kind +:+ " pre-ACTIVE")%string)
      end
  end.

(* rust: node/txpool.rs 2054-2093 apply_policy *)
Definition apply_policy tx (weight da_bytes : Z) utxos (next_height : Z) cfg : nres unit :=
  _ ← (if pc_reject_non_coinbase_anchor_outputs cfg then reject_non_coinbase_anchor_outputs tx else Ok ());
  _ ← reject_da_anchor_tx_policy tx weight da_bytes utxos (pc_current_mempool_min_fee_rate cfg) (pc_min_da_fee_rate cfg)
        (pc_da_surcharge_per_byte cfg);
  if pc_reject_simplicity_pre_activation cfg then
    reason ← reject_core_simplicity_pre_activation tx utxos next_height (sc_rotation <$> pc_suite_context cfg);
    match reason with Some reason => Err reason | None => Ok () end
  else Ok ().

(* rust: node/txpool.rs 1592-1603 apply_post_consensus_policy_without_floor *)
Definition apply_post_consensus_policy_without_floor tx utxos (weight da_bytes next_height : Z) cfg : ares unit :=
  map_err rejected (apply_policy tx weight da_bytes utxos next_height (with_floor cfg 0)).
(* rust: node/txpool.rs 1579-1590 apply_post_consensus_policy_with_floor *)
Definition apply_post_consensus_policy_with_floor tx utxos (fee weight da_bytes next_height : Z) cfg : ares unit :=
  _ ← apply_post_consensus_policy_without_floor tx utxos weight da_bytes next_height cfg;
  validate_fee_floor fee weight (pc_current_mempool_min_fee_rate cfg).

(** The guard that runs before the consensus checks. *)
(* rust: node/txpool.rs 799-813 add_tx_with_source *)
Definition simplicity_gate tx utxos (next_height : Z) (rotation : option RotationProvider) cfg : ares unit :=
  if pc_reject_simplicity_pre_activation cfg && bool_decide (is_Some (covenant_policy_kind tx utxos COV_TYPE_CORE_SIMPLICITY)) then
    _ ← reject_missing_policy_inputs tx utxos;
    reason ← map_err rejected (reject_core_simplicity_pre_activation tx utxos next_height rotation);
    match reason with Some reason => Err (rejected reason) | None => Ok () end
  else Ok ().

(** [None] is a panic of [next_block_mtp]. *)
(* rust: node/txpool.rs 1461-1534 relay_metadata *)
Definition relay_metadata (tx_bytes : bytes) (chain_state : ChainState) (block_store : option Store) (chain_id : bytes) cfg :
    option (ares RelayTxMetadata) :=
  let utxos := ch_utxos chain_state in
  let rotation := sc_rotation <$> pc_suite_context cfg in let registry := sc_registry <$> pc_suite_context cfg in
  match ('(tx, txid, _, consumed) ← map_err tx_rejected (parse_tx tx_bytes);
         if negb (consumed =? len tx_bytes) then Err (rejected "transaction rejected: non-canonical tx bytes") else
         next_height ← pool_next_height chain_state;
         Ok (tx, txid, next_height)) with
  | Err e => Some (Err e)
  | Ok (tx, txid, next_height) =>
      block_mtp ← next_block_mtp block_store next_height;
      Some (block_mtp ← block_mtp;
            _ ← simplicity_gate tx utxos next_height rotation cfg;
            '(_, summary) ← map_err tx_rejected
               (apply_update tx txid utxos next_height block_mtp block_mtp chain_id rotation registry);
            '(weight, da_bytes, _) ← map_err tx_rejected (tx_weight_and_stats_public tx);
            _ ← apply_post_consensus_policy_with_floor tx utxos (us_fee summary) weight da_bytes next_height cfg;
            Ok (mkRelayTxMetadata (us_fee summary) (len tx_bytes)))
  end.
End policy.

(** ** The early rejection *)

Section precheck.
Context `{HS : Sha3} `{HO : OpenSsl}.

(** A single input and witness item that obey every rule of a key's output but
    the signature. *)
Record plain_spend tx utxos height (rotation : option RotationProvider) (registry : option SuiteRegistry) (input : TxInput)
    (w : WitnessItem) (entry : UtxoEntry) : Prop := mkPlainSpend {
  ps_inputs : inputs tx = [input];
  ps_witness : witness tx = [w];
  ps_resolves : input_resolves utxos height input entry;
  ps_type : ue_covenant_type entry = COV_TYPE_P2PK;
  ps_suite : suite_allowed w (native_spend_suites (default DefaultRotationProvider rotation) height) (default default_registry registry);
  ps_data : len (ue_covenant_data entry) = MAX_P2PK_COVENANT_DATA ∧ byte_at 0 (ue_covenant_data entry) = suite_id w }.

Lemma input_value_Some tx utxos height rotation registry v : fee_precheck_p2pk_input_value tx utxos height rotation registry = Some v →
  ∃ input w entry, plain_spend tx utxos height rotation registry input w entry ∧ v = ue_value entry.
Proof.
  unfold fee_precheck_p2pk_input_value. destruct (inputs tx) as [|input [|? ?]] eqn:Hi; [done| |done].
  destruct (witness tx) as [|w [|? ?]] eqn:Hw; [done| |done]. intros H.
  destruct (_ && _) eqn:Hcb in H; [done|]. case_bool_decide as Hss; cbn [negb] in H; [|done].
  destruct (_ <? _) eqn:Hsq in H; [done|]. apply bind_Some in H as (entry & He & H).
  destruct (ue_covenant_type entry =? COV_TYPE_P2PK) eqn:Ht; cbn [negb] in H; [|done]. apply Z.eqb_eq in Ht.
  destruct (_ && _) eqn:Hm in H; [done|]. destruct (ns_contains _ _) eqn:Hns in H; cbn [negb] in H; [|done].
  apply bind_Some in H as (p & Hp & H). destruct (_ || _) eqn:Hl in H; [done|].
  destruct (_ =? MAX_P2PK_COVENANT_DATA) eqn:Hd in H; cbn [negb] in H; [|done].
  destruct (_ =? suite_id w) eqn:Hb in H; cbn [negb] in H; [|done]. apply bind_Some in H as (t & _ & H).
  destruct (is_valid_sighash_type _) in H; cbn [negb] in H; [|done]. case_bool_decide as Hkey; cbn [negb] in H; [|done].
  injection H as <-. exists input, w, entry. split; [|done]. assert (covenant_spendable entry) as Hsp by by left. split; try done.
  - split; [split; [|split; [done|lia]]|split; [done|split; [|done]]].
    + intros [Hv Hz]. change (zeros 32) with (replicate 32 x00) in Hcb. rewrite bool_decide_eq_true_2 in Hcb by done.
      unfold u32_max in Hv. lia.
    + intros Hc. rewrite Hc in Hm. cbn [andb] in Hm. lia.
  - split; [done|]. exists p. split; [done|]. lia.
  - split; lia.
Qed.

Lemma output_value_Some outs height rotation v : fee_precheck_p2pk_output_value outs height rotation = Some v →
  Forall (λ o, covenant_type o = COV_TYPE_P2PK ∧ value o ≠ 0 ∧ len (covenant_data o) = MAX_P2PK_COVENANT_DATA
    ∧ ns_contains (native_create_suites (default DefaultRotationProvider rotation) height) (byte_at 0 (covenant_data o)) = true) outs
  ∧ v = sum_outputs outs.
Proof.
  unfold fee_precheck_p2pk_output_value. induction outs as [|o outs IH] using rev_ind in v |- *; [by intros [= <-]|].
  rewrite foldl_snoc. intros H. apply bind_Some in H as (t & Ht & H). destruct (IH t Ht) as [HF ->].
  destruct (_ =? COV_TYPE_P2PK) eqn:Hc in H; cbn [negb] in H; [|done]. destruct (value o =? 0) eqn:Hv; [done|].
  destruct (_ =? MAX_P2PK_COVENANT_DATA) eqn:Hl in H; cbn [negb] in H; [|done].
  destruct (ns_contains _ _) eqn:Hn in H; cbn [negb] in H; [|done]. apply checked_add_Some in H as [-> _]. split.
  - apply Forall_app. split; [done|]. apply list.Forall_singleton. split_and!; try done; lia.
  - clear. induction outs as [|x outs IH]; unfold sum_outputs in *; cbn [app foldr]; lia.
Qed.

Section plain.
Context (ctx : UtxoApplyImplContext) (input : TxInput) (w : WitnessItem) (entry : UtxoEntry).
Abbreviation tx := (cx_tx ctx).
Context (Htx : tx_valid tx) (Hps : plain_spend tx (cx_utxo_set ctx) (cx_height ctx) (cx_rotation ctx) (cx_registry ctx) input w entry).

Lemma plain_slots : slots_of entry = 1.
Proof. unfold slots_of. by rewrite (ps_type _ _ _ _ _ _ _ _ Hps). Qed.
Lemma plain_no_vault : is_vault entry = false.
Proof. unfold is_vault. by rewrite (ps_type _ _ _ _ _ _ _ _ Hps). Qed.

Lemma plain_key : ∃ key, ue_covenant_data entry = byte_of_Z (suite_id w) :: key ∧ len key = 32 ∧ key = slice 1 33 (ue_covenant_data entry).
Proof.
  destruct (ps_data _ _ _ _ _ _ _ _ Hps) as [Hl Hb]. unfold MAX_P2PK_COVENANT_DATA in Hl.
  destruct (ue_covenant_data entry) as [|b key]; [done|]. exists key. cbn in Hl.
  change (byte_at 0 (b :: key)) with (byte_val b) in Hb. rewrite <- Hb, byte_of_Z_val. split_and!; [done|lia|]. unfold slice. cbn. symmetry. change (drop 0 key) with key. apply take_ge. lia.
Qed.

Lemma plain_authorized : spend_authorized ctx 0 entry [w] ↔
  signature_valid tx w (slice 1 33 (ue_covenant_data entry)) 0 (ue_value entry) (cx_chain_id ctx) (cx_reg ctx).
Proof.
  pose proof (ps_type _ _ _ _ _ _ _ _ Hps) as Ht. destruct plain_key as (key & Hk & Hl & Hs). unfold spend_authorized. rewrite Ht. split.
  - intros (H & _). destruct (H eq_refl) as (w' & [= <-] & key' & Hk' & _ & _ & Hv). rewrite Hk in Hk'. injection Hk' as <-. by rewrite <- Hs.
  - intros Hv. split_and!; try done. intros _. exists w. split; [done|]. exists key. split_and!; [done..|]. split; [|by rewrite Hs].
    exact (ps_suite _ _ _ _ _ _ _ _ Hps).
Qed.

(** Such a spend is accepted exactly when its signature is valid. *)
Lemma plain_accepted es wss : tx_nonce tx ≠ 0 →
  Forall (λ o, covenant_type o = COV_TYPE_P2PK ∧ value o ≠ 0 ∧ len (covenant_data o) = MAX_P2PK_COVENANT_DATA
    ∧ ns_contains (native_create_suites (default DefaultRotationProvider (cx_rotation ctx)) (cx_height ctx)) (byte_at 0 (covenant_data o)) = true)
    (outputs tx) → sum_outputs (outputs tx) ≤ ue_value entry →
  accepted ctx es wss ↔ es = [entry] ∧ wss = [[w]]
    ∧ signature_valid tx w (slice 1 33 (ue_covenant_data entry)) 0 (ue_value entry) (cx_chain_id ctx) (cx_reg ctx).
Proof.
  intros Hn Hout Hle. pose proof Hps as [Hi Hw Hr Ht _ _]. pose proof plain_slots as Hsl. pose proof plain_no_vault as Hnv.
  assert (witness_split (witness tx) [entry] [[w]]) as Hsplit by (split; [by rewrite Hw|repeat constructor; by rewrite Hsl]).
  split.
  - intros [_ _ _ (HF & _) Hs Ha _ _ _ _]. rewrite Hi in HF. apply list.Forall2_cons_inv_l in HF as (e & es' & (_ & He & _) & HF & ->).
    apply list.Forall2_nil_inv_l in HF as ->. destruct Hr as (_ & He' & _). rewrite He' in He. injection He as <-.
    rewrite (witness_split_unique _ _ _ _ Hs Hsplit) in *. split_and!; [done..|]. apply plain_authorized.
    unfold spends_allowed in Ha. apply list.Forall_cons in Ha as [Ha _]. exact Ha.
  - intros (-> & -> & Hv). split; try done.
    + by rewrite Hi.
    + apply outputs_ok_Ok; [done|]. split; [eapply list.Forall_impl; [exact Hout|]; intros o ?; by left|].
      intros c Hc%list_elem_of_omap. destruct Hc as (o & Ho & Hc). rewrite list.Forall_forall in Hout. destruct (Hout o Ho) as [Hco _].
      unfold output_program in Hc. by rewrite Hco in Hc.
    + split; [rewrite Hi; constructor; [exact Hr|constructor]|]. split; [rewrite Hi; apply NoDup_singleton|]. rewrite vault_count_cons, Hnv. done.
    + apply list.Forall_cons. split; [by apply plain_authorized|constructor].
    + intros o v Ho Hvt. rewrite list.Forall_forall in Hout. destruct (Hout o Ho) as [Hco _]. rewrite Hco in Hvt. done.
    + intros idx e ws v Hin Hve. unfold enumerate in Hin. cbn in Hin. apply list_elem_of_singleton in Hin. injection Hin as -> -> ->. congruence.
    + unfold sum_values. cbn. lia.
    + right. rewrite vault_count_cons, Hnv. done.
Qed.
End plain.

(** C36: the early rejection of cheap transactions loses nothing. When it rejects a transaction that came off the wire,
    over a ledger of 64-bit values: the transaction is a plain spend of one key that obeys every consensus rule but,
    perhaps, the signature, so that the full check accepts it exactly when the signature is valid; and when the full
    check does accept it, the fee it finds is below the floor too, with the same error. *)
Theorem precheck_sound tx txid utxos weight floor height timestamp mtp chain_id rotation registry e :
  tx_valid tx → map_Forall (λ _ e, is_u 64 (ue_value e)) utxos →
  cheap_fee_floor_precheck tx utxos weight floor height rotation registry = Err e →
  ∃ input w entry, inputs tx = [input] ∧ witness tx = [w] ∧ utxos !! outpoint_of input = Some entry ∧
    ((∃ r, apply_update tx txid utxos height timestamp mtp chain_id rotation registry = Ok r) ↔
       signature_valid tx w (slice 1 33 (ue_covenant_data entry)) 0 (ue_value entry) chain_id (default default_registry registry)) ∧
    ∀ m summary, apply_update tx txid utxos height timestamp mtp chain_id rotation registry = Ok (m, summary) →
      validate_fee_floor (us_fee summary) weight floor = Err e.
Proof.
  intros Htx Hm. unfold cheap_fee_floor_precheck. destruct (_ || _ || _) eqn:Hg; [done|].
  destruct (fee_precheck_p2pk_input_value _ _ _ _ _) as [v|] eqn:Hin; [|done].
  destruct (fee_precheck_p2pk_output_value _ _ _) as [u|] eqn:Hout; [|done].
  destruct (_ <? _) eqn:Hlt; [done|]. destruct (weight =? 0); [done|]. intros Hfloor.
  apply input_value_Some in Hin as (input & w & entry & Hps & ->). apply output_value_Some in Hout as [Hall ->].
  set (ctx := mkUtxoApplyImplContext tx txid utxos height timestamp mtp chain_id rotation registry).
  change (apply_update tx txid utxos height timestamp mtp chain_id rotation registry) with (inline_apply ctx).
  pose proof (λ r, apply_Ok ctx r Htx Hm) as Hap.
  pose proof (λ es wss, plain_accepted ctx input w entry Htx Hps es wss ltac:(cbn; lia) Hall ltac:(cbn; lia)) as Hacc.
  exists input, w, entry. destruct Hps as [Hi Hw Hr _ _ _]. split_and!; [done..|apply Hr| |].
  - split.
    + intros (r & (es & wss & (-> & -> & Hv)%Hacc & _)%Hap). exact Hv.
    + intros Hv. exists (result_after ctx [entry]). apply Hap. exists [entry], [[w]]. split; [by apply Hacc|done].
  - intros m summary (es & wss & (-> & -> & _)%Hacc & Hr')%Hap. injection Hr' as -> ->. cbn [us_fee]. rewrite <- Hfloor. f_equal.
    unfold sum_values. cbn. lia.
Qed.
End precheck.

(** ** The fee of a data transaction *)

Section da_fee.
Context `{HS : Sha3} `{HO : OpenSsl}.

Lemma policy_sum_in (utxos : UtxoMap) l es acc : Forall2 (λ i e, utxos !! outpoint_of i = Some e ∧ is_u 64 (ue_value e)) l es →
  acc + sum_values es ≤ u128_max →
  try_fold (λ sum_in input,
    entry ← ok_or (utxos !! mkOutpoint (prev_txid input) (prev_vout input)) "missing utxo"%string;
    ok_or (checked_add u128_max sum_in (ue_value entry)) "sum_in overflow"%string) acc l = Ok (acc + sum_values es).
Proof.
  intros HF. revert acc. induction HF as [|i e l es [He Hv] HF IH]; intros acc Hs; cbn [try_fold]; [cbn; by rewrite Z.add_0_r|].
  assert (0 ≤ sum_values es) by (clear -HF; induction HF as [|? ? ? ? [_ [? _]] _ IH]; unfold sum_values in *; cbn [foldr]; lia).
  unfold sum_values in *. cbn [foldr] in *. unfold outpoint_of in He. rewrite He. cbn [ok_or]. run_bind.
  assert (checked_add u128_max acc (ue_value e) = Some (acc + ue_value e)) as -> by (apply checked_add_Some; lia).
  cbn [ok_or]. run_bind. rewrite IH by lia. f_equal. lia.
Qed.

Lemma policy_sum_out outs acc : Forall output_valid outs → acc + sum_outputs outs ≤ u128_max →
  try_fold (λ sum_out output, ok_or (checked_add u128_max sum_out (value output)) "sum_out overflow"%string) acc outs
  = Ok (acc + sum_outputs outs).
Proof.
  intros HF. revert acc. induction HF as [|o outs [Hv _] HF IH]; intros acc Hs; cbn [try_fold]; [cbn; by rewrite Z.add_0_r|].
  pose proof (sum_outputs_nonneg _ HF). unfold sum_outputs in *. cbn [foldr] in *. destruct Hv.
  assert (checked_add u128_max acc (value o) = Some (acc + value o)) as -> by (apply checked_add_Some; lia).
  cbn [ok_or]. run_bind. rewrite IH by lia. f_equal. lia.
Qed.

(** The policy's fee is the one consensus finds. *)
Lemma policy_fee_agrees ctx m summary : tx_valid (cx_tx ctx) → map_Forall (λ _ e, is_u 64 (ue_value e)) (cx_utxo_set ctx) →
  inline_apply ctx = Ok (m, summary) → compute_fee_no_verify (cx_tx ctx) (cx_utxo_set ctx) = Ok (us_fee summary) ∧ 0 ≤ us_fee summary ≤ Uint128.u128_max.
Proof.
  intros Htx Hm (es & wss & [_ Hi _ (HF & _) _ _ _ _ Hle _] & Hr)%apply_Ok; [|done..]. injection Hr as _ ->. cbn [us_fee].
  destruct Htx as (_ & (Hni & _) & (Hno & Hout) & _). unfold MAX_TX_INPUTS, MAX_TX_OUTPUTS in *.
  assert (Forall2 (λ i e, cx_utxo_set ctx !! outpoint_of i = Some e ∧ is_u 64 (ue_value e)) (inputs (cx_tx ctx)) es) as HF2.
  { eapply list.Forall2_impl; [exact HF|]. intros i e (_ & He & _). split; [done|]. by apply (Hm _ e He). }
  assert (sum_values es ≤ 2 ^ 64 * len es).
  { clear -HF2. induction HF2 as [|? ? ? ? [_ [_ ?]] _ IH]; [done|]. unfold sum_values in *. cbn [foldr]. rewrite length_cons. lia. }
  pose proof (Forall2_length HF). pose proof (sum_outputs_nonneg _ Hout). unfold compute_fee_no_verify, u128_max in *.
  rewrite bool_decide_eq_false_2 by done. rewrite (policy_sum_in _ _ es) by (done || unfold Uint128.u128_max; lia). run_bind.
  rewrite policy_sum_out by (done || unfold Uint128.u128_max; lia). run_bind. decide_if. unfold Uint128.u128_max. split; [f_equal; lia|lia].
Qed.

(** The fee rule for data transactions. For a transaction that consensus accepts over a ledger of 64-bit values, with a
    data payload of [da_bytes], the rule passes exactly when the fee that consensus finds covers both the relay floor of
    its weight and the floor plus the surcharge of its data, the latter being a 64-bit number. *)
Theorem da_policy_iff tx txid utxos height timestamp mtp chain_id rotation registry m summary weight da_bytes rate min_rate surcharge :
  tx_valid tx → map_Forall (λ _ e, is_u 64 (ue_value e)) utxos →
  apply_update tx txid utxos height timestamp mtp chain_id rotation registry = Ok (m, summary) →
  0 < da_bytes → 0 ≤ min_rate → 0 ≤ surcharge → 0 ≤ weight * rate →
  reject_da_anchor_tx_policy tx weight da_bytes utxos rate min_rate surcharge = Ok () ↔
  da_bytes * min_rate + da_bytes * surcharge ≤ u64_max ∧
  Z.max (weight * rate) (da_bytes * min_rate + da_bytes * surcharge) ≤ us_fee summary.
Proof.
  intros Htx Hm Hap Hd Hmr Hsc Hrf.
  destruct (policy_fee_agrees (mkUtxoApplyImplContext tx txid utxos height timestamp mtp chain_id rotation registry) m summary Htx Hm Hap)
    as [Hfee Hpos]. cbn [cx_tx cx_utxo_set] in Hfee.
  unfold reject_da_anchor_tx_policy. replace (da_bytes =? 0) with false by lia. cbv zeta.
  assert (0 ≤ da_bytes * min_rate) by nia. assert (0 ≤ da_bytes * surcharge) by nia.
  destruct (da_bytes * min_rate <=? u64_max) eqn:H1; run_bind; [|split; [done|lia]].
  destruct (da_bytes * surcharge <=? u64_max) eqn:H2; run_bind; [|split; [done|lia]].
  destruct (da_bytes * min_rate + da_bytes * surcharge <=? u64_max) eqn:H3; run_bind; [|split; [done|lia]].
  destruct (Z.max _ _ =? 0) eqn:H4; [split; [lia|done]|]. rewrite Hfee. cbn [map_err]. run_bind.
  destruct (us_fee summary <? _) eqn:H5; split; try done; lia.
Qed.
End da_fee.

(** ** Witnesses: a spend whose fee is ten *)

Lemma spend_input_entry : spend_utxo !! mkOutpoint (replicate 32 x07) 1 = Some (mkUtxoEntry 100 COV_TYPE_P2PK (x01 :: demo_key_id) 5 true).
Proof. vm_compute. reflexivity. Qed.

Lemma precheck_sound_witness :
  (∃ e, cheap_fee_floor_precheck (HS := toy_sha3) spend_tx spend_utxo 5 3 500 None None = Err e
    ∧ validate_fee_floor 10 5 3 = Err e)
  ∧ ∃ w, witness spend_tx = [w] ∧ signature_valid (HS := toy_sha3) (HO := toy_openssl) spend_tx w (slice 1 33 (x01 :: demo_key_id)) 0 100 demo_chain default_registry.
Proof.
  destruct (cheap_fee_floor_precheck (HS := toy_sha3) spend_tx spend_utxo 5 3 500 None None) as [|e] eqn:He; [vm_compute in He; discriminate He|].
  destruct (precheck_sound (HS := toy_sha3) (HO := toy_openssl) spend_tx (replicate 32 x0b) spend_utxo 5 3 500 0 0 demo_chain None None e
    spend_tx_valid spend_utxo_fits He) as (i & w & entry & Hi & Hw & Hu & Hsig & Hfee).
  split; [exists e; split; [reflexivity|exact (Hfee spend_work (mkUtxoApplySummary 10 2) spend_ctx_applies)]|].
  exists w. split; [exact Hw|]. injection Hi as <-.
  assert (entry = mkUtxoEntry 100 COV_TYPE_P2PK (x01 :: demo_key_id) 5 true) as -> by (change (spend_utxo !! mkOutpoint (replicate 32 x07) 1 = Some entry) in Hu; rewrite spend_input_entry in Hu; by injection Hu as <-).
  apply (proj1 Hsig). exists (spend_work, mkUtxoApplySummary 10 2). exact spend_ctx_applies.
Defined.

Lemma da_policy_iff_witness :
  reject_da_anchor_tx_policy spend_tx 3 2 spend_utxo 3 4 1 = Ok () ∧ reject_da_anchor_tx_policy spend_tx 4 2 spend_utxo 3 4 1 ≠ Ok ().
Proof.
  pose proof (λ w r m s, da_policy_iff (HS := toy_sha3) (HO := toy_openssl) spend_tx (replicate 32 x0b) spend_utxo 500 0 0 demo_chain None None
    spend_work (mkUtxoApplySummary 10 2) w 2 r m s spend_tx_valid spend_utxo_fits spend_ctx_applies eq_refl) as H.
  split; [|intros Hc]; [apply (H 3 3 4 1 ltac:(lia) ltac:(lia) ltac:(lia)); vm_compute; split; discriminate|].
  apply (H 4 3 4 1 ltac:(lia) ltac:(lia) ltac:(lia)) in Hc. destruct Hc as [_ Hc]. vm_compute in Hc. exact (Hc eq_refl).
Defined.
