(* ===== verification/PoolOrder.v ===== *)
(** * The orders of the transaction pool ([txpool.rs])

    Transactions are compared by fee rate, with ties broken down to a total
    order.  A comparison that is composed of others keeps their laws:
    [CompareLaws] are what sorting, and picking the worst entry, rely on. *)

From S2P Require Import Prelude Bytes BTree Errors TxWire Vault Spend UtxoApply NodeText Uint128 PoolPolicy.

(* rust: node/txpool.rs 238-242 TxSource *)
Inductive TxSource : Type := SourceLocal | SourceRemote | SourceReorg.
#[export] Instance TxSource_eq_dec : EqDecision TxSource.
Proof. solve_decision. Defined.

(* rust: node/txpool.rs 127-140 TxPoolEntry *)
Record TxPoolEntry : Type := mkTxPoolEntry {
  te_raw : bytes; te_inputs : list Outpoint; te_fee : Z; te_weight : Z; te_size : Z; te_source : TxSource }.
#[export] Instance TxPoolEntry_eq_dec : EqDecision TxPoolEntry.
Proof. solve_decision. Defined.

(* rust: node/txpool.rs 187-191 AdmitPriority *)
Record AdmitPriority : Type := mkAdmitPriority { ap_fee : Z; ap_weight : Z; ap_tie : bytes }.

(** Lexicographic order: the second comparison decides a tie. *)
Definition then_cmp (c d : comparison) : comparison := match c with Eq => d | _ => c end.

(* rust: node/txpool.rs 2462-2473 compare_priority_values *)
Definition compare_priority_values (a b : AdmitPriority) : comparison :=
  then_cmp (compare_fee_rate (ap_fee a) (ap_weight a) (ap_fee b) (ap_weight b))
    (then_cmp (ap_fee a ?= ap_fee b) (then_cmp (ap_weight b ?= ap_weight a) (bytes_cmp (ap_tie b) (ap_tie a)))).

(* rust: node/txpool.rs 2475-2477 compare_fee_rate *)
Definition entry_fee_rate_cmp (a b : TxPoolEntry) : comparison := compare_fee_rate (te_fee a) (te_weight a) (te_fee b) (te_weight b).

(* rust: node/txpool.rs 2414-2439 compare_entries_for_mining *)
Definition compare_entries_for_mining (a b : bytes * TxPoolEntry) : comparison :=
  match entry_fee_rate_cmp a.2 b.2 with
  | Gt => Lt
  | Lt => Gt
  | Eq => then_cmp (te_fee b.2 ?= te_fee a.2) (then_cmp (te_weight a.2 ?= te_weight b.2) (bytes_cmp a.1 b.1))
  end.

(* rust: node/txpool.rs 180-185 WorstEntryKey *)
Record WorstEntryKey : Type := mkWorstEntryKey { wk_txid : bytes; wk_fee : Z; wk_weight : Z; wk_heap_id : Z }.
(* rust: node/txpool.rs 207-220 cmp *)
Definition worst_key_cmp (a b : WorstEntryKey) : comparison :=
  compare_priority_values (mkAdmitPriority (wk_fee b) (wk_weight b) (wk_txid b)) (mkAdmitPriority (wk_fee a) (wk_weight a) (wk_txid a)).

(* rust: node/txpool.rs 193-198 CapacityPlanEntry *)
Record CapacityPlanEntry : Type := mkCapacityPlanEntry {
  cp_txid : bytes; cp_entry : TxPoolEntry; cp_candidate : bool; cp_admission_seq : Z }.
(* rust: node/txpool.rs 201-204 CapacityOrdering *)
Inductive CapacityOrdering : Type := LegacyCountPressure | BytePressure.

(* rust: node/txpool.rs 2525-2541 compare_count_pressure_priority *)
Definition compare_count_pressure_priority (a b : CapacityPlanEntry) : comparison :=
  compare_priority_values (mkAdmitPriority (te_fee (cp_entry a)) (te_weight (cp_entry a)) (cp_txid a))
    (mkAdmitPriority (te_fee (cp_entry b)) (te_weight (cp_entry b)) (cp_txid b)).
(* rust: node/txpool.rs 2543-2554 compare_capacity_priority *)
Definition compare_capacity_priority (a b : CapacityPlanEntry) : comparison :=
  then_cmp (compare_fee_rate (te_fee (cp_entry a)) (te_weight (cp_entry a)) (te_fee (cp_entry b)) (te_weight (cp_entry b)))
    (then_cmp (te_fee (cp_entry a) ?= te_fee (cp_entry b)) (cp_admission_seq a ?= cp_admission_seq b)).

(* rust: node/txpool.rs 2509-2523 capacity_plan_entry_worse *)
Definition capacity_plan_entry_worse (ordering : CapacityOrdering) (a b : CapacityPlanEntry) : bool :=
  match (match ordering with
         | LegacyCountPressure => compare_count_pressure_priority a b
         | BytePressure => compare_capacity_priority a b
         end) with
  | Lt => true
  | Gt => false
  | Eq => bool_decide (bytes_cmp (cp_txid a) (cp_txid b) = Gt)
  end.

(** The body of the loop. *)
(* rust: node/txpool.rs 2501-2505 worst_capacity_plan_index *)
Definition worst_step (ordering : CapacityOrdering) (s : nat * CapacityPlanEntry) (ix : nat * CapacityPlanEntry) : nat * CapacityPlanEntry :=
  if capacity_plan_entry_worse ordering ix.2 s.2 then ix else s.
(** The worst entry of a pool that is not empty, with its index. *)
(* rust: node/txpool.rs 2496-2507 worst_capacity_plan_index *)
Definition worst_capacity_plan_index (plan_pool : list CapacityPlanEntry) (ordering : CapacityOrdering) : option (nat * CapacityPlanEntry) :=
  match plan_pool with
  | [] => None
  | first :: rest => Some (foldl (worst_step ordering) (0%nat, first) (imap (λ i p, (S i, p)) rest))
  end.

(* rust: node/txpool.rs 2479-2490 default_tx_pool_low_water_bytes *)
Definition default_tx_pool_low_water_bytes (max_bytes : Z) : Z :=
  if max_bytes =? 0 then 0 else
  let low_water := max_bytes / TX_POOL_LOW_WATER_DENOMINATOR * TX_POOL_LOW_WATER_NUMERATOR
    + max_bytes mod TX_POOL_LOW_WATER_DENOMINATOR * TX_POOL_LOW_WATER_NUMERATOR / TX_POOL_LOW_WATER_DENOMINATOR in
  if low_water =? 0 then 1 else low_water.
(* rust: node/txpool.rs 2492-2494 tx_pool_byte_pressure_target *)
Definition tx_pool_byte_pressure_target (low_water_bytes candidate_size : Z) : Z := Z.max low_water_bytes candidate_size.

(** ** Laws *)

(** [c] orders the elements that satisfy [P]. *)
Class CompareLaws {A} (P : A → Prop) (c : A → A → comparison) : Prop := {
  cmp_anti a b : P a → P b → c b a = CompOpp (c a b);
  cmp_trans a b d : P a → P b → P d → c a b = Lt → c b d = Lt → c a d = Lt;
  cmp_cong a b d : P a → P b → P d → c a b = Eq → c b d = c a d }.

Section laws.
Context {A : Type} (P : A → Prop).

#[export] Instance Z_laws (f : A → Z) : CompareLaws P (λ a b, f a ?= f b).
Proof.
  split; cbv beta; intros a b.
  - intros _ _. apply Z.compare_antisym.
  - intros d _ _ _. rewrite !Z.compare_lt_iff. lia.
  - intros d _ _ _. rewrite Z.compare_eq_iff. by intros ->.
Qed.
#[export] Instance bytes_laws (f : A → bytes) : CompareLaws P (λ a b, bytes_cmp (f a) (f b)).
Proof.
  split; cbv beta; intros a b.
  - intros _ _. apply bytes_cmp_antisym.
  - intros d _ _ _. apply bytes_cmp_lt_trans.
  - intros d _ _ _. rewrite bytes_cmp_eq. by intros ->.
Qed.
#[export] Instance flip_laws c : CompareLaws P c → CompareLaws P (λ a b, c b a).
Proof.
  intros H. split; cbv beta; intros a b.
  - intros. by apply H.
  - intros d Ha Hb Hd H1 H2. by apply (cmp_trans (c := c) d b a).
  - intros d Ha Hb Hd Hba. rewrite (cmp_anti (c := c) b d), (cmp_anti (c := c) a d) by done. f_equal. symmetry. by apply (cmp_cong (c := c) b a d).
Qed.
#[export] Instance then_laws c1 c2 : CompareLaws P c1 → CompareLaws P c2 → CompareLaws P (λ a b, then_cmp (c1 a b) (c2 a b)).
Proof.
  intros H1 H2. split; cbv beta; intros a b.
  - intros Ha Hb. rewrite (cmp_anti (c := c1) a b), (cmp_anti (c := c2) a b) by done. by destruct (c1 a b).
  - intros d Ha Hb Hd. unfold then_cmp. destruct (c1 a b) eqn:Hab; intros Hl; [| |done].
    + rewrite (cmp_cong (c := c1) a b d) by done. destruct (c1 a d); try done. intros. by apply (cmp_trans (c := c2) a b d).
    + destruct (c1 b d) eqn:Hbd; intros Hr; [| |done].
      * assert (c1 a d = Lt) as ->; [|done]. assert (c1 b a = c1 d a) as E.
        { symmetry. apply (cmp_cong (c := c1) b d a Hb Hd Ha Hbd). }
        rewrite (cmp_anti (c := c1) d a), <- E, (cmp_anti (c := c1) a b), Hab by done. done.
      * by rewrite (cmp_trans (c := c1) a b d).
  - intros d Ha Hb Hd. unfold then_cmp. destruct (c1 a b) eqn:Hab; try done. intros Hc2.
    rewrite (cmp_cong (c := c1) a b d) by done. destruct (c1 a d); try done. by apply (cmp_cong (c := c2) a b d).
Qed.
End laws.

(** The numbers a fee and a weight may be. *)
Definition rated (fee weight : Z) : Prop := 0 ≤ fee ≤ u128_max ∧ 0 < weight ≤ u64_max.

#[export] Instance fee_rate_laws {A} (fee weight : A → Z) :
  CompareLaws (λ a, rated (fee a) (weight a)) (λ a b, compare_fee_rate (fee a) (weight a) (fee b) (weight b)).
Proof.
  split; cbv beta; intros a b.
  - intros [??] [??]. rewrite !compare_fee_rate_exact by done. apply Z.compare_antisym.
  - intros d [??] [??] [??]. rewrite !compare_fee_rate_exact by done. rewrite !Z.compare_lt_iff. nia.
  - intros d [??] [??] [??]. rewrite !compare_fee_rate_exact by done. rewrite Z.compare_eq_iff. intros E.
    assert (fee b * weight d * weight a = fee a * weight d * weight b) by nia. assert (fee d * weight b * weight a = fee d * weight a * weight b) by nia.
    destruct (Z.compare_spec (fee b * weight d) (fee d * weight b)), (Z.compare_spec (fee a * weight d) (fee d * weight a)); try done; nia.
Qed.

(** ** The worst entry *)

Definition plan_rated (p : CapacityPlanEntry) : Prop := rated (te_fee (cp_entry p)) (te_weight (cp_entry p)).
Definition plan_cmp (ordering : CapacityOrdering) (a b : CapacityPlanEntry) : comparison :=
  then_cmp (match ordering with
            | LegacyCountPressure => compare_count_pressure_priority a b
            | BytePressure => compare_capacity_priority a b
            end) (bytes_cmp (cp_txid b) (cp_txid a)).

#[export] Instance plan_laws ordering : CompareLaws plan_rated (plan_cmp ordering).
Proof.
  pose proof (fee_rate_laws (λ p, te_fee (cp_entry p)) (λ p, te_weight (cp_entry p))) as Hr. fold plan_rated in Hr.
  destruct ordering; unfold plan_cmp, compare_count_pressure_priority, compare_capacity_priority, compare_priority_values; cbn.
  - apply (then_laws _ (λ a b, then_cmp _ (then_cmp _ (then_cmp _ _))) (λ a b, bytes_cmp (cp_txid b) (cp_txid a))).
    + apply (then_laws _ _ (λ a b, then_cmp _ (then_cmp _ _))); [exact Hr|].
      apply (then_laws _ (λ a b, _ ?= _) (λ a b, then_cmp _ _)); [apply (Z_laws _ (λ p, te_fee (cp_entry p)))|].
      apply (then_laws _ (λ a b, _ ?= _) (λ a b, bytes_cmp _ _)); [apply (flip_laws _ _ (Z_laws _ (λ p, te_weight (cp_entry p))))|].
      apply (flip_laws _ _ (bytes_laws _ cp_txid)).
    + apply (flip_laws _ _ (bytes_laws _ cp_txid)).
  - apply (then_laws _ (λ a b, then_cmp _ (then_cmp _ _)) (λ a b, bytes_cmp (cp_txid b) (cp_txid a))).
    + apply (then_laws _ _ (λ a b, then_cmp _ _)); [exact Hr|].
      apply (then_laws _ (λ a b, _ ?= _) (λ a b, _ ?= _)); [apply (Z_laws _ (λ p, te_fee (cp_entry p)))|apply (Z_laws _ cp_admission_seq)].
    + apply (flip_laws _ _ (bytes_laws _ cp_txid)).
Qed.

Lemma worse_cmp ordering a b : capacity_plan_entry_worse ordering a b = true ↔ plan_cmp ordering a b = Lt.
Proof.
  unfold capacity_plan_entry_worse, plan_cmp, then_cmp. rewrite (bytes_cmp_antisym (cp_txid a) (cp_txid b)).
  destruct ordering; [destruct (compare_count_pressure_priority a b)|destruct (compare_capacity_priority a b)]; try done;
    by destruct (bytes_cmp (cp_txid a) (cp_txid b)).
Qed.
Lemma plan_cmp_eq ordering a b : plan_cmp ordering a b = Eq → cp_txid a = cp_txid b.
Proof. unfold plan_cmp, then_cmp. case_match; [|done..]. by intros ->%bytes_cmp_eq. Qed.

(** [w] is worse than every other entry of [l]. *)
Definition worst_of (ordering : CapacityOrdering) (w : CapacityPlanEntry) (l : list CapacityPlanEntry) : Prop :=
  ∀ x, x ∈ l → cp_txid x ≠ cp_txid w → capacity_plan_entry_worse ordering w x = true.

Lemma worst_step_fold ordering rest seen i w : Forall plan_rated (seen ++ rest) → NoDup (cp_txid <$> (seen ++ rest)) →
  seen !! i = Some w → worst_of ordering w seen →
  let '(j, v) := foldl (worst_step ordering) (i, w) (imap (λ k p, (length seen + k, p)%nat) rest) in
  (seen ++ rest) !! j = Some v ∧ worst_of ordering v (seen ++ rest).
Proof.
  revert seen i w. induction rest as [|x rest IH]; intros seen i w HP Hnd Hi Hw; cbn [imap foldl]; [by rewrite app_nil_r|].
  assert (seen ++ x :: rest = (seen ++ [x]) ++ rest) as Happ by (by rewrite <- app_assoc). rewrite Happ in *.
  assert (∀ j v, seen !! j = Some v → (seen ++ [x]) !! j = Some v) as Hl by (intros; by apply lookup_app_l_Some).
  pose proof (proj1 (list.Forall_forall _ _) HP) as HP'.
  assert (x ∈ (seen ++ [x]) ++ rest) as Hx by set_solver. assert (w ∈ (seen ++ [x]) ++ rest) as Hwin by (apply list_elem_of_lookup_2 in Hi; set_solver).
  assert (imap (λ k p, (length seen + k, p)%nat) (x :: rest) = (length seen, x) :: imap (λ k p, (length (seen ++ [x]) + k, p)%nat) rest) as Him.
  { cbn [imap]. rewrite Nat.add_0_r. f_equal. apply imap_ext. intros k p _. cbn. rewrite length_app. cbn. f_equal. lia. }
  cbn [imap] in Him. injection Him as Hx0 Him. unfold compose in *. rewrite Him, Nat.add_0_r.
  unfold worst_step at 2. cbn [fst snd]. destruct (capacity_plan_entry_worse ordering x w) eqn:Hc.
  - apply IH; [done|done|rewrite lookup_app_r by lia; by rewrite Nat.sub_diag|].
    intros y [Hy| ->%list_elem_of_singleton]%elem_of_app Hne; [|done]. destruct (decide (cp_txid y = cp_txid w)) as [He|Hne'].
    + assert (y = w) as ->; [|done]. apply list_elem_of_lookup in Hy as [k Hk]. assert (k = i) as ->; [|congruence].
      eapply (NoDup_lookup (cp_txid <$> (seen ++ [x]) ++ rest)); [done|rewrite list_lookup_fmap, (lookup_app_l_Some _ _ _ _ (Hl _ _ Hk)); cbn; by rewrite He|].
      by rewrite list_lookup_fmap, (lookup_app_l_Some _ _ _ _ (Hl _ _ Hi)).
    + apply worse_cmp. apply (cmp_trans (c := plan_cmp ordering) x w y); [auto|auto|apply HP'; set_solver|by apply worse_cmp|].
      apply worse_cmp. by apply Hw.
  - apply IH; [done|done|by apply Hl|]. intros y [Hy| ->%list_elem_of_singleton]%elem_of_app Hne; [by apply Hw|].
    apply worse_cmp. rewrite (cmp_anti (c := plan_cmp ordering) x w) by auto. destruct (plan_cmp ordering x w) eqn:E; try done.
    + by apply plan_cmp_eq in E.
    + apply worse_cmp in E. congruence.
Qed.

Lemma worst_index_spec ordering l : Forall plan_rated l → NoDup (cp_txid <$> l) → l ≠ [] →
  ∃ i w, worst_capacity_plan_index l ordering = Some (i, w) ∧ l !! i = Some w ∧ worst_of ordering w l.
Proof.
  intros HP Hnd Hne. destruct l as [|x l]; [done|]. cbn. pose proof (worst_step_fold ordering l [x] 0 x) as H. cbn in H.
  specialize (H HP Hnd eq_refl). destruct (foldl _ _ _) as [i w]. exists i, w. split; [done|]. apply H.
  by intros y ->%list_elem_of_singleton.
Qed.
