(* ===== verification/TxPool.v ===== *)
(** * The transaction pool ([txpool.rs])

    The pool holds transactions that consensus and policy accept, at most so
    many and so many bytes of them.  A new one may push out worse ones.  The
    outpoints that its transactions spend are reserved with the owner of
    [PendingOwner.v], which the engine shares: [Interference] is what the
    engine does to the owner between two uses of its lock.

    The heap of the worst entries is only pushed to, filtered and counted, so
    it is the list of its elements. *)

From stdpp Require Import pretty.
From S2P Require Import Prelude Bytes BTree Errors Constants Crypto WireRead CompactSize TxWire TxCodec Block Merkle Pow Subsidy.
From S2P Require Import Vault Suites Verify SigCache WorkerPool SigQueue Sighash Spend Htlc Stealth CovenantGenesis.
From S2P Require Import UtxoApply UtxoRules UtxoDeferred UtxoLedger BlockParse BlockWeight BlockDa BlockBasic ConnectBlock.
From S2P Require Import NodeText Uint128 ChainState PendingOwner BlockStore AtomicWrite StoreFiles Headers PoolPolicy PoolOrder.

(* rust: node/txpool.rs 163-177 TxPool *)
Record TxPool : Type := mkTxPool {
  tp_cfg : TxPoolConfig; tp_txs : gmap bytes TxPoolEntry; tp_owner : option PendingOutpointOwnerHandle;
  tp_owner_tokens : gmap bytes PendingOutpointToken; tp_worst_heap : list WorstEntryKey; tp_heap_seqs : gmap bytes Z;
  tp_next_heap_id : Z; tp_max_transactions : Z; tp_max_bytes : Z; tp_low_water_bytes : Z; tp_used_bytes : Z }.

Definition set_pool_owner (owner : option PendingOutpointOwnerHandle) (s : TxPool) : TxPool :=
  mkTxPool (tp_cfg s) (tp_txs s) owner (tp_owner_tokens s) (tp_worst_heap s) (tp_heap_seqs s) (tp_next_heap_id s)
    (tp_max_transactions s) (tp_max_bytes s) (tp_low_water_bytes s) (tp_used_bytes s).
Definition set_pool_tokens (tokens : gmap bytes PendingOutpointToken) (s : TxPool) : TxPool :=
  mkTxPool (tp_cfg s) (tp_txs s) (tp_owner s) tokens (tp_worst_heap s) (tp_heap_seqs s) (tp_next_heap_id s)
    (tp_max_transactions s) (tp_max_bytes s) (tp_low_water_bytes s) (tp_used_bytes s).

(* rust: node/txpool.rs 288-303 new_with_owner *)
Definition new_with_owner (cfg : TxPoolConfig) (owner : option PendingOutpointOwnerHandle) : TxPool :=
  mkTxPool cfg ∅ owner ∅ [] ∅ 0 MAX_TX_POOL_TRANSACTIONS DEFAULT_TX_POOL_MAX_BYTES
    (default_tx_pool_low_water_bytes DEFAULT_TX_POOL_MAX_BYTES) 0.
(* rust: node/txpool.rs 277-279 new_with_config *)
Definition new_with_config (cfg : TxPoolConfig) : TxPool := new_with_owner cfg None.
(* rust: node/txpool.rs 281-286 new_bound_with_config *)
Definition new_bound_with_config (cfg : TxPoolConfig) (owner : PendingOutpointOwnerHandle) : TxPool := new_with_owner cfg (Some owner).
(* rust: node/txpool.rs 273-275 new *)
Definition TxPool_new : TxPool := new_with_config TxPoolConfig_default.

(** Whether the allocator has room for what the pool asks for ([try_reserve]). *)
Record PoolRoom : Type := mkPoolRoom {
  pr_owner : Room; pr_plan : bool; pr_plan_seqs : bool; pr_evicted : bool; pr_entries : bool; pr_seqs : bool;
  pr_tokens : bool; pr_heap : bool }.
Definition Interference : Type := nat → PendingOutpointOwnerHandle → PendingOutpointOwnerHandle.

(** What a call of the pool meets outside the pool: a fresh allocation for an
    owner, the allocator's answers, the engine's interference, and the order in
    which a hash map yields its entries. *)
Record PoolWorld : Type := mkPoolWorld {
  pw_fresh : positive; pw_room : PoolRoom; pw_between : Interference;
  pw_order : gmap bytes TxPoolEntry → list (bytes * TxPoolEntry) }.
Definition pool_room : PoolRoom := mkPoolRoom has_room true true true true true true true.
Definition quiet_world (id : positive) : PoolWorld := mkPoolWorld id pool_room (λ _ h, h) map_to_list.

(** ** Reading *)

(* rust: node/txpool.rs 384-386 len *)
Definition pool_len (s : TxPool) : Z := Z.of_nat (size (tp_txs s)).
(* rust: node/txpool.rs 589-591 all_txids *)
Definition all_txids (w : PoolWorld) (s : TxPool) : list bytes := (pw_order w (tp_txs s)).*1.
(* rust: node/txpool.rs 595-597 tx_by_id *)
Definition tx_by_id (s : TxPool) (txid : bytes) : option bytes := te_raw <$> tp_txs s !! txid.
(* rust: node/txpool.rs 605-607 entry_source *)
Definition entry_source (s : TxPool) (txid : bytes) : option TxSource := te_source <$> tp_txs s !! txid.
(* rust: node/txpool.rs 628-630 contains *)
Definition pool_contains (s : TxPool) (txid : bytes) : bool := bool_decide (is_Some (tp_txs s !! txid)).

(** The loop of the selection; the arguments are what is left to choose from,
    what has been chosen and its size. *)
(* rust: node/txpool.rs 654-666 select_transactions_with_filter *)
Fixpoint select_loop (max_count max_bytes : Z) (drop_raw : bytes → bool) (selected : list bytes) (used_bytes : Z)
    (entries : list (bytes * TxPoolEntry)) : list bytes :=
  match entries with
  | [] => selected
  | entry :: entries =>
      if drop_raw (te_raw entry.2) then select_loop max_count max_bytes drop_raw selected used_bytes entries else
      if max_count <=? len selected then selected else
      if Z.max 0 (max_bytes - used_bytes) <? te_size entry.2
      then select_loop max_count max_bytes drop_raw selected used_bytes entries else
      select_loop max_count max_bytes drop_raw (selected ++ [te_raw entry.2]) (used_bytes + te_size entry.2) entries
  end.
Definition mining_le (a b : bytes * TxPoolEntry) : Prop := compare_entries_for_mining a b ≠ Gt.
#[export] Instance mining_le_dec : RelDecision mining_le.
Proof. intros a b. unfold mining_le. apply _. Defined.
(* rust: node/txpool.rs 641-668 select_transactions_with_filter *)
Definition select_transactions_with_filter (w : PoolWorld) (s : TxPool) (max_count max_bytes : Z) (drop_raw : bytes → bool) : list bytes :=
  if (max_count =? 0) || (max_bytes =? 0) then [] else
  select_loop max_count max_bytes drop_raw [] 0 (merge_sort mining_le (pw_order w (tp_txs s))).
(* rust: node/txpool.rs 632-634 select_transactions *)
Definition select_transactions (w : PoolWorld) (s : TxPool) (max_count max_bytes : Z) : list bytes :=
  select_transactions_with_filter w s max_count max_bytes (λ _, false).

(** ** The entries and their books *)

(* rust: node/txpool.rs 1344-1354 compact_worst_heap_if_needed *)
Definition compact_worst_heap_if_needed (s : TxPool) : TxPool :=
  if 2 * Z.of_nat (size (tp_txs s)) <? len (tp_worst_heap s) then
    mkTxPool (tp_cfg s) (tp_txs s) (tp_owner s) (tp_owner_tokens s)
      (filter (λ k, tp_heap_seqs s !! wk_txid k = Some (wk_heap_id k)) (tp_worst_heap s)) (tp_heap_seqs s) (tp_next_heap_id s)
      (tp_max_transactions s) (tp_max_bytes s) (tp_low_water_bytes s) (tp_used_bytes s)
  else s.

(* rust: node/txpool.rs 1105-1117 insert_entry_raw *)
Definition insert_entry_raw (txid : bytes) (entry : TxPoolEntry) (s : TxPool) : TxPool :=
  let heap_id := Z.min u64_max (tp_next_heap_id s + 1) in
  mkTxPool (tp_cfg s) (<[txid := entry]> (tp_txs s)) (tp_owner s) (tp_owner_tokens s)
    (mkWorstEntryKey txid (te_fee entry) (te_weight entry) heap_id :: tp_worst_heap s) (<[txid := heap_id]> (tp_heap_seqs s)) heap_id
    (tp_max_transactions s) (tp_max_bytes s) (tp_low_water_bytes s) (Z.min usize_max (tp_used_bytes s + te_size entry)).

(** The entry is returned as well. *)
(* rust: node/txpool.rs 1119-1126 remove_entry_raw *)
Definition remove_entry_raw (txid : bytes) (s : TxPool) : option TxPoolEntry * TxPool :=
  match tp_txs s !! txid with
  | Some entry =>
      (Some entry, mkTxPool (tp_cfg s) (delete txid (tp_txs s)) (tp_owner s) (tp_owner_tokens s) (tp_worst_heap s)
                     (delete txid (tp_heap_seqs s)) (tp_next_heap_id s) (tp_max_transactions s) (tp_max_bytes s)
                     (tp_low_water_bytes s) (Z.max 0 (tp_used_bytes s - te_size entry)))
  | None => (None, s)
  end.

(** One removal in the loops of [commit_standard_delta] and
    [remove_entries_exact], with the reservation. *)
(* rust: node/txpool.rs 1094-1100 remove_entries_exact *)
Definition drop_entry (st : TxPool * PendingOutpointOwner) (txid : bytes) : TxPool * PendingOutpointOwner :=
  let '(s, o) := st in
  match remove_entry_raw txid s with
  | (Some _, s) =>
      match tp_owner_tokens s !! txid with
      | Some token => (set_pool_tokens (delete txid (tp_owner_tokens s)) s, drop_after_validation token o)
      | None => (s, o)
      end
  | (None, s) => (s, o)
  end.

Section pool.
Context `{HS : Sha3} `{HO : OpenSsl} `{HX : Hex}.
Implicit Types (w : PoolWorld) (s : TxPool) (h : PendingOutpointOwnerHandle).

(** ** Room for a new transaction *)

(* rust: node/txpool.rs 1279-1284 effective_low_water_bytes *)
Definition effective_low_water_bytes s : Z :=
  if (0 <? tp_low_water_bytes s) || (tp_max_bytes s =? 0) then tp_low_water_bytes s
  else default_tx_pool_low_water_bytes (tp_max_bytes s).

(** The body of the loop over the entries; the numbers seen so far guard
    against a number given out twice. *)
(* rust: node/txpool.rs 1215-1244 capacity_eviction_plan *)
Definition push_plan_entry s (st : list CapacityPlanEntry * gmap Z bytes) (x : bytes * TxPoolEntry) :
    ares (list CapacityPlanEntry * gmap Z bytes) :=
  let '(plan_pool, admission_seqs) := st in let '(txid, entry) := x in
  if bool_decide (txid = zeros 32) then Err (rejected "tx pool capacity invariant violated: invalid resident metadata") else
  admission_seq ← ok_or (tp_heap_seqs s !! txid) (rejected "tx pool capacity invariant violated: missing heap sequence");
  match admission_seqs !! admission_seq with
  | Some existing =>
      Err (rejected ("tx pool capacity invariant violated: duplicate heap sequence " +:+ pretty admission_seq +:+ " existing="
                     +:+ hex_encode existing +:+ " new=" +:+ hex_encode txid)%string)
  | None =>
      if (te_size entry =? 0) || (te_weight entry =? 0)
      then Err (rejected "tx pool capacity invariant violated: invalid resident metadata") else
      Ok (plan_pool ++ [mkCapacityPlanEntry txid entry false admission_seq], <[admission_seq := txid]> admission_seqs)
  end.

(** Evict the worst entry until the rest fits.  Each turn removes one, so the
    length of the pool is enough fuel. *)
(* rust: node/txpool.rs 1252-1269 capacity_eviction_plan *)
Fixpoint evict_loop (fuel : nat) (max_transactions target_bytes : Z) (ordering : CapacityOrdering)
    (plan_pool : list CapacityPlanEntry) (total_count total_bytes : Z) (evicted : list bytes) : ares (Z * Z * list bytes) :=
  if negb ((max_transactions <? total_count) || (target_bytes <? total_bytes)) then Ok (total_count, total_bytes, evicted) else
  match fuel, worst_capacity_plan_index plan_pool ordering with
  | S fuel, Some (worst_index, worst) =>
      if cp_candidate worst then Err (unavailable "mempool capacity candidate rejected by eviction ordering") else
      if total_bytes <? te_size (cp_entry worst) then Err (unavailable "mempool eviction byte accounting underflow") else
      evict_loop fuel max_transactions target_bytes ordering (delete worst_index plan_pool) (Z.max 0 (total_count - 1))
        (total_bytes - te_size (cp_entry worst)) (evicted ++ [cp_txid worst])
  | _, _ => Ok (total_count, total_bytes, evicted)
  end.

(* rust: node/txpool.rs 1157-1277 capacity_eviction_plan *)
Definition capacity_eviction_plan w s (candidate_txid : bytes) (candidate : TxPoolEntry) : ares (list bytes) :=
  let count := Z.of_nat (size (tp_txs s)) in
  if (tp_max_transactions s =? 0) || (tp_max_bytes s =? 0) then
    Err (unavailable ("invalid mempool capacity limits: max_txs=" +:+ pretty (tp_max_transactions s) +:+ " max_bytes=" +:+ pretty (tp_max_bytes s))%string) else
  if bool_decide (candidate_txid = zeros 32) || (te_size candidate =? 0) || (te_weight candidate =? 0)
  then Err (rejected "tx pool capacity invariant violated: invalid candidate metadata") else
  if tp_max_bytes s <? te_size candidate then
    Err (unavailable ("mempool byte limit exceeded: current=" +:+ pretty (tp_used_bytes s) +:+ " tx=" +:+ pretty (te_size candidate)
                      +:+ " max=" +:+ pretty (tp_max_bytes s))%string) else
  let count_pressure := tp_max_transactions s <=? count in
  let byte_pressure := Z.max 0 (tp_max_bytes s - te_size candidate) <? tp_used_bytes s in
  if negb count_pressure && negb byte_pressure then Ok [] else
  let target_bytes := if byte_pressure then tx_pool_byte_pressure_target (effective_low_water_bytes s) (te_size candidate) else tp_max_bytes s in
  let ordering := if byte_pressure then BytePressure else LegacyCountPressure in
  if negb (pr_plan (pw_room w)) then Err (unavailable "txpool capacity plan unavailable") else
  if negb (pr_plan_seqs (pw_room w)) then Err (unavailable "txpool capacity sequence unavailable") else
  if negb (pr_evicted (pw_room w)) then Err (unavailable "txpool eviction plan unavailable") else
  '(plan_pool, _) ← try_fold (push_plan_entry s) ([], ∅) (pw_order w (tp_txs s));
  let plan_pool := plan_pool ++ [mkCapacityPlanEntry candidate_txid candidate true 0] in
  '(total_count, total_bytes, evicted) ← evict_loop (length plan_pool) (tp_max_transactions s) target_bytes ordering plan_pool
    (count + 1) (Z.min usize_max (tp_used_bytes s + te_size candidate)) [];
  if (tp_max_transactions s <? total_count) || (tp_max_bytes s <? total_bytes) then
    Err (unavailable ("mempool capacity remains exceeded after dry-run eviction: count=" +:+ pretty total_count +:+ "/"
                      +:+ pretty (tp_max_transactions s) +:+ " bytes=" +:+ pretty total_bytes +:+ "/" +:+ pretty (tp_max_bytes s))%string)
  else Ok evicted.

(** ** Admission *)

(** What consensus and policy know of a transaction that they accept. *)
Record CheckedTx : Type := mkCheckedTx { ck_txid : bytes; ck_inputs : list Outpoint; ck_weight : Z; ck_fee : Z }.

(** [None] is a panic of [next_block_mtp]. *)
(* rust: node/txpool.rs 729-849 add_tx_with_source *)
Definition check_transaction (cfg : TxPoolConfig) (tx_bytes : bytes) (chain_state : ChainState) (block_store : option Store)
    (chain_id : bytes) : option (ares CheckedTx) :=
  let utxos := ch_utxos chain_state in
  let rotation := sc_rotation <$> pc_suite_context cfg in let registry := sc_registry <$> pc_suite_context cfg in
  match ('(tx, txid, _, consumed) ← map_err tx_rejected (parse_tx tx_bytes);
         if negb (consumed =? len tx_bytes) then Err (rejected "transaction rejected: non-canonical tx bytes") else
         '(weight, da_bytes, _) ← map_err tx_rejected (tx_weight_and_stats_public tx);
         next_height ← pool_next_height chain_state;
         Ok (tx, txid, weight, da_bytes, next_height)) with
  | Err e => Some (Err e)
  | Ok (tx, txid, weight, da_bytes, next_height) =>
      block_mtp ← next_block_mtp block_store next_height;
      Some (block_mtp ← block_mtp;
            _ ← cheap_fee_floor_precheck tx utxos weight (pc_current_mempool_min_fee_rate cfg) next_height rotation registry;
            _ ← simplicity_gate tx utxos next_height rotation cfg;
            '(_, summary) ← map_err tx_rejected
               (apply_update tx txid utxos next_height block_mtp block_mtp chain_id rotation registry);
            _ ← apply_post_consensus_policy_without_floor tx utxos weight da_bytes next_height cfg;
            Ok (mkCheckedTx txid (outpoint_of <$> inputs tx) weight (us_fee summary)))
  end.

(** The pool, and the owner that it holds or has just made. *)
Abbreviation Adm := (ST (TxPool * PendingOutpointOwnerHandle) TxPoolAdmitError).

(** The [k]-th use of the owner in a call, after the engine's interference. *)
Definition on_owner {A} w (k : nat) (op : ST PendingOutpointOwnerHandle PendingOutpointError A) : Adm A := λ st,
  let '(s, h) := st in let '(r, h) := op (pw_between w k h) in (map_err owner_error r, (s, h)).

(* rust: node/txpool.rs 305-322 admission_context *)
Definition pool_admission_context w (chain_state : ChainState) : Adm PendingOutpointAdmissionContext :=
  context ← on_owner w 0%nat handle_admission_context;
  if negb (bool_decide (ac_tip context = tip_from_chain_state chain_state))
  then lift (Err (unavailable "pending-outpoint owner context does not match chain tip")) else mret context.

(** The reservation is given back, and the error returned. *)
(* rust: node/txpool.rs 1702-1706 release_reservation *)
Definition release_reservation w (token : option PendingOutpointToken) : Adm unit := λ st,
  match token with
  | Some token => let '(s, h) := st in (Ok (), (s, (handle_release token (pw_between w 3%nat h)).2))
  | None => (Ok (), st)
  end.
Definition abandon {A} w (token : option PendingOutpointToken) (e : TxPoolAdmitError) : Adm A :=
  _ ← release_reservation w token; lift (Err e).

(* rust: node/txpool.rs 959-985 preflight_standard_delta *)
Definition preflight_standard_delta w s (evicted : list bytes) (needs_token : bool) : ares unit :=
  if tp_next_heap_id s =? u64_max then Err (unavailable "txpool heap sequence exhausted") else
  if existsb (λ txid, negb (bool_decide (is_Some (tp_txs s !! txid)))) evicted
  then Err (unavailable "txpool eviction plan changed before commit") else
  if negb (pr_entries (pw_room w)) then Err (unavailable "txpool entry capacity unavailable") else
  if negb (pr_seqs (pw_room w)) then Err (unavailable "txpool heap index capacity unavailable") else
  if needs_token && negb (pr_tokens (pw_room w)) then Err (unavailable "txpool token capacity unavailable") else
  if negb (pr_heap (pw_room w)) then Err (unavailable "txpool heap capacity unavailable") else Ok ().

(** No victim is the candidate, or named twice. *)
(* rust: node/txpool.rs 1004-1008 commit_standard_delta *)
Fixpoint check_victims (txid : bytes) (seen evicted : list bytes) : ares unit :=
  match evicted with
  | [] => Ok ()
  | victim :: evicted =>
      if bool_decide (victim = txid) || bool_decide (victim ∈ seen) then Err (unavailable "txpool delta victim shape invalid")
      else check_victims txid (seen ++ [victim]) evicted
  end.

(** The checks of the commit, under the owner's lock. *)
(* rust: node/txpool.rs 999-1030 commit_standard_delta *)
Definition check_standard_delta s (id : positive) (o : PendingOutpointOwner) (context : PendingOutpointAdmissionContext) (txid : bytes)
    (entry : TxPoolEntry) (token : option PendingOutpointToken) (evicted : list bytes) : ares unit :=
  _ ← map_err owner_error (check_available o context);
  if MAX_TX_POOL_TRANSACTIONS <? len evicted then Err (unavailable "txpool delta victim bound exceeded") else
  _ ← check_victims txid [] evicted;
  _ ← match token with Some token => map_err owner_error (check_candidate id o token) | None => Ok () end;
  _ ← map_err owner_error (validate_standard_entry id o txid (te_inputs entry) token false);
  try_for_each (λ evicted_txid,
    victim ← ok_or (tp_txs s !! evicted_txid) (unavailable "txpool eviction plan changed before commit");
    map_err owner_error (validate_standard_entry id o evicted_txid (te_inputs victim) (tp_owner_tokens s !! evicted_txid) true)) evicted.

(** The entries and the reservations change together. *)
(* rust: node/txpool.rs 1031-1048 commit_standard_delta *)
Definition apply_delta (txid : bytes) (entry : TxPoolEntry) (token : option PendingOutpointToken) (evicted : list bytes) s
    (o : PendingOutpointOwner) : TxPool * PendingOutpointOwner :=
  let '(s, o) := foldl drop_entry (s, o) evicted in
  let s := insert_entry_raw txid entry s in
  let '(s, o) := match token with
                 | Some token => (set_pool_tokens (<[txid := token]> (tp_owner_tokens s)) s, finalize_after_validation token o)
                 | None => (s, o)
                 end in
  (compact_worst_heap_if_needed s, o).

(** The candidate is always there: the two tests for it cannot fail. *)
(* rust: node/txpool.rs 987-1049 commit_standard_delta *)
Definition commit_standard_delta w (context : PendingOutpointAdmissionContext) (txid : bytes) (entry : TxPoolEntry)
    (token : option PendingOutpointToken) (evicted : list bytes) : Adm unit := λ st,
  let '(s, h) := st in let h := pw_between w 2%nat h in
  if oh_poisoned h then (Err (unavailable "pending-outpoint owner lock unavailable"), (s, h)) else
  match check_standard_delta s (oh_id h) (oh_owner h) context txid entry token evicted with
  | Err e => (Err e, (s, h))
  | Ok _ => let '(s, o) := apply_delta txid entry token evicted s (oh_owner h) in (Ok (), (s, with_owner h o))
  end.

(* rust: node/txpool.rs 855-863 add_tx_with_source *)
Definition reserve_inputs w (context : PendingOutpointAdmissionContext) (c : CheckedTx) : Adm (option PendingOutpointToken) :=
  if bool_decide (ck_inputs c = []) then mret None
  else token ← on_owner w 1%nat (handle_reserve (pr_owner (pw_room w)) context (ck_txid c) (ck_inputs c)); mret (Some token).
(** From the fee floor on. *)
(* rust: node/txpool.rs 864-915 add_tx_with_source *)
Definition admit_reserved w (context : PendingOutpointAdmissionContext) (c : CheckedTx) (tx_bytes : bytes) (source : TxSource)
    (reservation : option PendingOutpointToken) : Adm (bytes * RelayTxMetadata) := λ st,
  let s := st.1 in
  match validate_fee_floor (ck_fee c) (ck_weight c) (pc_current_mempool_min_fee_rate (tp_cfg s)) with
  | Err error => abandon w reservation error st
  | Ok _ =>
      let entry := mkTxPoolEntry tx_bytes (ck_inputs c) (ck_fee c) (ck_weight c) (len tx_bytes) source in
      match (evicted ← capacity_eviction_plan w s (ck_txid c) entry;
             _ ← preflight_standard_delta w s evicted (bool_decide (is_Some reservation)); Ok evicted) with
      | Err error => abandon w reservation error st
      | Ok evicted =>
          match commit_standard_delta w context (ck_txid c) entry reservation evicted st with
          | (Err error, st) => abandon w reservation error st
          | (Ok _, st) => (Ok (ck_txid c, mkRelayTxMetadata (ck_fee c) (len tx_bytes)), st)
          end
      end
  end.
(** From the test for a duplicate on. *)
(* rust: node/txpool.rs 851-915 add_tx_with_source *)
Definition admit_checked w (context : PendingOutpointAdmissionContext) (c : CheckedTx) (tx_bytes : bytes) (source : TxSource) :
    Adm (bytes * RelayTxMetadata) := λ st,
  if pool_contains st.1 (ck_txid c) then (Err (conflict "tx already in mempool"), st) else
  (reservation ← reserve_inputs w context c; admit_reserved w context c tx_bytes source reservation) st.

(** [None] is a panic of [next_block_mtp]. *)
(* rust: node/txpool.rs 720-916 add_tx_with_source *)
Definition add_tx_with_source w (tx_bytes : bytes) (chain_state : ChainState) (block_store : option Store) (chain_id : bytes)
    (source : TxSource) s : option (ares (bytes * RelayTxMetadata) * TxPool) :=
  let h := default (new_owner (pw_fresh w) (tip_from_chain_state chain_state)) (tp_owner s) in
  match pool_admission_context w chain_state (s, h) with
  | (Err e, (s, h)) => Some (Err e, set_pool_owner (Some h) s)
  | (Ok context, (s, h)) =>
      checked ← check_transaction (tp_cfg s) tx_bytes chain_state block_store chain_id;
      let '(r, (s, h)) := (c ← lift checked; admit_checked w context c tx_bytes source) (s, h) in
      Some (r, set_pool_owner (Some h) s)
  end.
(* rust: node/txpool.rs 692-706 admit_with_metadata *)
Definition admit_with_metadata w (tx_bytes : bytes) (chain_state : ChainState) (block_store : option Store) (chain_id : bytes) :=
  add_tx_with_source w tx_bytes chain_state block_store chain_id SourceLocal.
(* rust: node/txpool.rs 677-686 admit *)
Definition pool_admit w (tx_bytes : bytes) (chain_state : ChainState) (block_store : option Store) (chain_id : bytes) s : option (ares bytes * TxPool) :=
  '(r, s) ← admit_with_metadata w tx_bytes chain_state block_store chain_id s;
  Some ('(txid, _) ← r; Ok txid, s).
(* rust: node/txpool.rs 918-926 relay_metadata_for_bytes *)
Definition relay_metadata_for_bytes s (tx_bytes : bytes) (chain_state : ChainState) (block_store : option Store) (chain_id : bytes) :
    option (ares RelayTxMetadata) := relay_metadata tx_bytes chain_state block_store chain_id (tp_cfg s).

(** ** Removal *)

(** The ids of the pool among [txids], each once. *)
(* rust: node/txpool.rs 1052-1057 remove_entries_exact *)
Definition live_txids s (txids : list bytes) : list bytes :=
  foldl (λ live txid, if bool_decide (is_Some (tp_txs s !! txid)) && negb (bool_decide (txid ∈ live)) then live ++ [txid] else live) [] txids.

(** Nothing is removed unless every reservation is in order. *)
(* rust: node/txpool.rs 1051-1103 remove_entries_exact *)
Definition remove_entries_exact w (txids : list bytes) s : TxPool :=
  let live := live_txids s txids in
  if bool_decide (live = []) then s else
  match tp_owner s with
  | None =>
      if forallb (λ txid, match tp_txs s !! txid with Some entry => bool_decide (te_inputs entry = []) | None => false end) live
      then compact_worst_heap_if_needed (foldl (λ s txid, (remove_entry_raw txid s).2) s live) else s
  | Some h =>
      let h := pw_between w 0%nat h in
      if oh_poisoned h then set_pool_owner (Some h) s else
      if forallb (λ txid, match tp_txs s !! txid with
                          | Some entry => is_ok (validate_standard_entry (oh_id h) (oh_owner h) txid (te_inputs entry) (tp_owner_tokens s !! txid) true)
                          | None => false
                          end) live
      then let '(s, o) := foldl drop_entry (s, oh_owner h) live in
           compact_worst_heap_if_needed (set_pool_owner (Some (with_owner h o)) s)
      else set_pool_owner (Some h) s
  end.
(* rust: node/txpool.rs 929-931 evict_txids *)
Definition evict_txids w (txids : list bytes) s : TxPool := remove_entries_exact w txids s.

(** The transactions that hold the outpoints; [None] when the owner does not
    answer. *)
(* rust: node/txpool.rs 948-955 remove_conflicting_outpoints *)
Definition conflicting_txids (outpoints : list Outpoint) h : option (list bytes) :=
  foldl (λ conflicting outpoint,
    conflicting ← conflicting;
    match (handle_txid_for_outpoint outpoint h).1 with
    | Ok (Some txid) => if bool_decide (txid ∈ conflicting) then Some conflicting else Some (conflicting ++ [txid])
    | Ok None => Some conflicting
    | Err _ => None
    end) (Some []) outpoints.
(** The lock is taken for each outpoint; the engine's interference, which does
    not change who holds what, comes before the first. *)
(* rust: node/txpool.rs 944-957 remove_conflicting_outpoints *)
Definition remove_conflicting_outpoints w (outpoints : list Outpoint) s : TxPool :=
  match tp_owner s with
  | None => s
  | Some h =>
      let h := pw_between w 1%nat h in
      match conflicting_txids outpoints h with
      | Some conflicting => evict_txids w conflicting (set_pool_owner (Some h) s)
      | None => set_pool_owner (Some h) s
      end
  end.
(* rust: node/txpool.rs 933-942 remove_conflicting_inputs *)
Definition remove_conflicting_inputs w (txs : list Tx) s : TxPool :=
  remove_conflicting_outpoints w (txs ≫= λ tx, outpoint_of <$> inputs tx) s.
End pool.
