(* ===== verification/PoolSafe.v ===== *)
(** * What the transaction pool keeps ([txpool.rs])

    [pool_inv] is the invariant of the pool and of the owner it shares with the
    engine: the books agree with the entries, the limits hold, and every entry
    holds a confirmed reservation of exactly the outpoints it spends.  Every
    call keeps it, whatever the engine does to the owner in between. *)

From S2P Require Import Prelude Bytes BTree Errors Constants Crypto WireRead CompactSize TxWire TxCodec Block Merkle Pow Subsidy.
From S2P Require Import Vault Suites Verify SigCache WorkerPool SigQueue Sighash Spend Htlc Stealth CovenantGenesis.
From S2P Require Import UtxoApply UtxoRules UtxoDeferred UtxoLedger BlockParse BlockWeight BlockDa BlockBasic ConnectBlock.
From S2P Require Import NodeText Uint128 ChainState PendingOwner BlockStore AtomicWrite StoreFiles Headers PoolPolicy PoolOrder TxPool.

(** ** The size of a set of entries *)

Definition pool_bytes (m : gmap bytes TxPoolEntry) : Z := map_fold (λ _ e n, te_size e + n) 0 m.

Lemma pool_bytes_insert m txid e : m !! txid = None → pool_bytes (<[txid := e]> m) = te_size e + pool_bytes m.
Proof. intros H. unfold pool_bytes. rewrite map_fold_insert_L; [done| |done]. intros. lia. Qed.
Lemma pool_bytes_delete m txid e : m !! txid = Some e → pool_bytes m = te_size e + pool_bytes (delete txid m).
Proof. intros H. rewrite <- (insert_delete_id m txid e) at 1 by done. rewrite pool_bytes_insert; [done|apply lookup_delete_eq]. Qed.

(** ** The invariant *)

Definition entry_ok (txid : bytes) (e : TxPoolEntry) : Prop :=
  txid ≠ zeros 32 ∧ 0 < te_size e ∧ rated (te_fee e) (te_weight e).

Section wf.
Context `{HX : Hex}.
Implicit Types (s : TxPool) (h : PendingOutpointOwnerHandle) (o : PendingOutpointOwner).

(** The confirmed reservation of an entry. *)
Definition holds (id : positive) o (txid : bytes) (e : TxPoolEntry) (token : PendingOutpointToken) : Prop :=
  owns id token = true ∧ ∃ g, po_by_token o !! tk_sequence token = Some (mkClaim txid (te_inputs e) g true).

(** The books of the pool agree, and the limits hold. *)
Record books s : Prop := mkBooks {
  bk_entries txid e : tp_txs s !! txid = Some e → entry_ok txid e;
  bk_seqs txid : is_Some (tp_heap_seqs s !! txid) ↔ is_Some (tp_txs s !! txid);
  bk_seqs_inj i j q : tp_heap_seqs s !! i = Some q → tp_heap_seqs s !! j = Some q → i = j;
  bk_seqs_range i q : tp_heap_seqs s !! i = Some q → 0 < q ≤ tp_next_heap_id s;
  bk_next : 0 ≤ tp_next_heap_id s ≤ u64_max;
  bk_heap txid e q : tp_txs s !! txid = Some e → tp_heap_seqs s !! txid = Some q →
    mkWorstEntryKey txid (te_fee e) (te_weight e) q ∈ tp_worst_heap s;
  bk_used : tp_used_bytes s = pool_bytes (tp_txs s);
  bk_count : Z.of_nat (size (tp_txs s)) ≤ tp_max_transactions s;
  bk_bytes : 0 ≤ tp_used_bytes s ≤ tp_max_bytes s ∧ 2 * tp_max_bytes s ≤ usize_max;
  bk_tokens txid token : tp_owner_tokens s !! txid = Some token → ∃ e, tp_txs s !! txid = Some e ∧ te_inputs e ≠ [] }.
(** Every entry that spends something holds its reservation. *)
Definition held s (id : positive) o : Prop := ∀ txid e, tp_txs s !! txid = Some e → te_inputs e ≠ [] →
  ∃ token, tp_owner_tokens s !! txid = Some token ∧ holds id o txid e token.
Definition pool_wf s (id : positive) o : Prop := books s ∧ owner_wf o ∧ held s id o.

(** The invariant of the pool; before it has an owner it is empty. *)
Definition pool_inv s : Prop :=
  match tp_owner s with
  | Some h => pool_wf s (oh_id h) (oh_owner h)
  | None => tp_txs s = ∅ ∧ ∀ id o, owner_wf o → pool_wf s id o
  end.

(** *** What the engine does to the owner *)

Inductive engine_step h : PendingOutpointOwnerHandle → Prop :=
  | engine_begin : engine_step h (handle_begin_transition h).2
  | engine_commit tip : engine_step h (handle_commit_stable_tip tip h).2
  | engine_reopen : engine_step h (handle_reopen_old_tip h).2
  | engine_latch : engine_step h (latch_unavailable h)
  | engine_panic : engine_step h (mkHandle (oh_id h) true (oh_owner h)).

(** The tables stay; only the phase changes. *)
Definition same_tables o o' : Prop :=
  po_by_outpoint o' = po_by_outpoint o ∧ po_by_token o' = po_by_token o ∧ po_token_high_water o' = po_token_high_water o
  ∧ po_generation o ≤ po_generation o'.
Definition calm h h' : Prop := oh_id h' = oh_id h ∧ same_tables (oh_owner h) (oh_owner h') ∧ (oh_poisoned h = true → oh_poisoned h' = true).

Lemma tables_refl o : same_tables o o.
Proof. unfold same_tables. split_and!; done || lia. Qed.

#[export] Instance calm_preorder : PreOrder calm.
Proof.
  split; [intros h; split; [done|]; split; [apply tables_refl|done]|]. intros h1 h2 h3 (? & (? & ? & ? & ?) & ?) (? & (? & ? & ? & ?) & ?).
  unfold calm, same_tables. split_and!; try congruence; [lia|auto].
Qed.

Lemma with_lock_calm {A} (op : Owner A) h : same_tables (oh_owner h) (op (oh_owner h)).2 → calm h (with_lock op h).2.
Proof.
  intros H. unfold with_lock. destruct (oh_poisoned h) eqn:Hp; [reflexivity|]. destruct (op (oh_owner h)) as [r o'].
  split; [done|]. split; [exact H|]. cbn. congruence.
Qed.
Lemma phase_tables o g b u tip : po_generation o ≤ g → same_tables o (set_owner_phase o g b u tip).
Proof. intros. unfold same_tables. cbn. split_and!; done. Qed.

Lemma engine_step_calm h h' : engine_step h h' → calm h h'.
Proof.
  destruct 1.
  - apply with_lock_calm. unfold owner_begin_transition. destruct (_ || _); [apply tables_refl|].
    destruct (checked_add _ _ _) as [g|] eqn:Hg; [apply checked_add_Some in Hg as [-> _]; apply phase_tables; lia|apply tables_refl].
  - apply with_lock_calm. unfold owner_commit_stable_tip. destruct (_ || _); [apply tables_refl|by apply phase_tables].
  - apply with_lock_calm. unfold owner_reopen_old_tip. destruct (_ || _); [apply tables_refl|by apply phase_tables].
  - unfold latch_unavailable. destruct (oh_poisoned h) eqn:Hp; [reflexivity|]. split; [done|]. split; [by apply phase_tables|]. cbn. congruence.
  - split; [done|]. split; [apply tables_refl|done].
Qed.
Lemma engine_steps_calm h h' : rtc engine_step h h' → calm h h'.
Proof. induction 1 as [|h1 h2 h3 Hs%engine_step_calm _ IH]; [reflexivity|]. by etransitivity. Qed.

Lemma tables_wf o o' : same_tables o o' → owner_wf o → owner_wf o'.
Proof.
  intros (Hr & Ht & Hh & Hg) [H1 H2 H3]. split; rewrite ?Hr, ?Ht, ?Hh; [done| |done].
  intros s c Hs. destruct (H2 s c Hs) as (? & ? & ?). split_and!; try done; lia.
Qed.
Lemma pool_wf_tables s id o o' : same_tables o o' → pool_wf s id o → pool_wf s id o'.
Proof.
  intros Ht (Hb & Hwf & Hh). pose proof Ht as (_ & Htk & _). split; [done|]. split; [by eapply tables_wf|].
  intros txid e He Hi. destruct (Hh txid e He Hi) as (t & ? & Ho & g & ?). exists t. split; [done|]. split; [done|]. exists g. by rewrite Htk.
Qed.

(** *** Reservations *)

(** A reservation that is not confirmed yet. *)
Definition pending (id : positive) o (txid : bytes) (inputs : list Outpoint) (token : PendingOutpointToken) : Prop :=
  owns id token = true ∧ ∃ g, po_by_token o !! tk_sequence token = Some (mkClaim txid inputs g false).

Lemma held_mono s id o o' : held s id o → (∀ q c, po_by_token o !! q = Some c → cl_finalized c = true → po_by_token o' !! q = Some c) → held s id o'.
Proof.
  intros Hh Hc txid e He Hi. destruct (Hh txid e He Hi) as (t & ? & Ho & g & Hg). exists t. split; [done|]. split; [done|]. exists g. by apply Hc.
Qed.

Lemma pending_tables id o o' txid inputs token : same_tables o o' → pending id o txid inputs token → pending id o' txid inputs token.
Proof. intros (_ & Ht & _) (? & g & ?). split; [done|]. exists g. by rewrite Ht. Qed.

Lemma reserve_keeps s room context txid inputs h r h' : handle_reserve room context txid inputs h = (r, h') →
  pool_wf s (oh_id h) (oh_owner h) → oh_id h' = oh_id h ∧ oh_poisoned h' = oh_poisoned h ∧ pool_wf s (oh_id h') (oh_owner h') ∧
  match r with
  | Ok token => pending (oh_id h') (oh_owner h') txid inputs token ∧ oh_owner h' = reserved (oh_owner h) txid inputs
      ∧ tk_sequence token = po_token_high_water (oh_owner h) + 1 ∧ ∀ op, op ∈ inputs → po_by_outpoint (oh_owner h) !! op = None
  | Err _ => h' = h
  end.
Proof.
  unfold handle_reserve, mbind, st_bind, lift. destruct (validate_request _ _ _) as [[]|e]; [|by intros [= <- <-]].
  unfold with_lock. destruct (oh_poisoned h) eqn:Hp; [by intros [= <- <-]|]. destruct (owner_reserve _ _ _ _ _ _) as [[t|e] o'] eqn:Ho; intros [= <- <-] (Hb & Hw & Hh).
  - apply owner_reserve_Ok in Ho as (_ & Hm & Hf & _ & _ & -> & ->). cbn [oh_id oh_owner oh_poisoned].
    assert (0 ≤ po_token_high_water (oh_owner h)) by apply (wf_high _ Hw).
    split; [done|]. split; [done|]. split.
    + split; [done|]. split; [by apply reserved_wf|]. apply (held_mono _ _ _ _ Hh). intros q c Hq _. cbn. rewrite lookup_insert_ne; [done|].
      destruct (wf_claim _ Hw q c Hq) as (? & _). lia.
    + split_and!; [|done|done|by apply first_conflict_Ok]. split.
      * unfold owns. cbn. rewrite bool_decide_eq_true_2 by done. replace (_ =? 0) with false by lia. done.
      * eexists. cbn. by rewrite lookup_insert_eq.
  - apply owner_reserve_Err in Ho as ->. cbn. destruct h as [i p o]. cbn in *. subst p. split_and!; try done.
Qed.

Lemma release_keeps s txid inputs token h : pending (oh_id h) (oh_owner h) txid inputs token → pool_wf s (oh_id h) (oh_owner h) →
  let h' := (handle_release token h).2 in oh_id h' = oh_id h ∧ oh_poisoned h' = oh_poisoned h ∧ pool_wf s (oh_id h') (oh_owner h') ∧
  if oh_poisoned h then h' = h else oh_owner h' = drop_claim (tk_sequence token) (oh_owner h).
Proof.
  intros (Ho & g & Hg) (Hb & Hw & Hh). unfold handle_release, with_lock. destruct (oh_poisoned h) eqn:Hp; [done|].
  unfold owner_release, claim. rewrite Ho. cbn [negb]. destruct (wf_claim _ Hw _ _ Hg) as ([_ Hs] & _ & _).
  replace (po_token_high_water (oh_owner h) <? tk_sequence token) with false by lia. run_bind. rewrite Hg.
  rewrite (check_rows_ok _ _ _ Hw Hg). run_bind. cbn. split_and!; try done. split; [done|]. split; [by apply drop_claim_wf|].
  apply (held_mono _ _ _ _ Hh). intros q c Hq Hf. unfold drop_claim. rewrite Hg. cbn. rewrite lookup_delete_ne; [done|].
  intros <-. rewrite Hg in Hq. injection Hq as <-. done.
Qed.

(** Giving a new reservation back leaves no row behind. *)
Lemma release_rows o txid inputs : owner_wf o → po_token_high_water o < u64_max → (∀ op, op ∈ inputs → po_by_outpoint o !! op = None) →
  po_by_outpoint (drop_claim (po_token_high_water o + 1) (reserved o txid inputs)) = po_by_outpoint o.
Proof.
  intros Hw Hm Hf. assert (owner_wf (reserved o txid inputs)) as Hw' by (apply reserved_wf; [done..|by apply first_conflict_Ok]).
  apply map_eq. intros op. rewrite (drop_claim_lookup _ _ (mkClaim txid inputs (po_generation o) false)); [|done|cbn; by rewrite lookup_insert_eq].
  cbn [cl_inputs]. destruct (decide (op ∈ inputs)) as [Hi|Hi]; [by rewrite Hf|]. cbn. by rewrite publish_rows, decide_False.
Qed.

(** *** Removing an entry *)

(** What stays when entries are removed. *)
Definition same_limits s s' : Prop :=
  tp_cfg s' = tp_cfg s ∧ tp_next_heap_id s' = tp_next_heap_id s ∧ tp_max_transactions s' = tp_max_transactions s
  ∧ tp_max_bytes s' = tp_max_bytes s ∧ tp_low_water_bytes s' = tp_low_water_bytes s.

Lemma remove_books txid e s : books s → tp_txs s !! txid = Some e →
  let s' := (remove_entry_raw txid s).2 in tp_owner_tokens s !! txid = None → books s'.
Proof.
  intros [H1 H2 H3 H4 H5 H6 H7 H8 H9 H10] He. unfold remove_entry_raw. rewrite He. cbn [snd]. intros Hnt.
  destruct (H1 _ _ He) as (_ & Hsz & _). pose proof (pool_bytes_delete _ _ _ He) as Hdel.
  split; cbn [tp_txs tp_heap_seqs tp_next_heap_id tp_worst_heap tp_used_bytes tp_max_transactions tp_max_bytes tp_owner_tokens].
  - intros i x [_ Hx]%lookup_delete_Some. by apply H1.
  - intros i. destruct (decide (i = txid)) as [->|Hne]; [rewrite !lookup_delete_eq; by split; intros [? ?]|]. rewrite !lookup_delete_ne by done. apply H2.
  - intros i j q [_ Hi]%lookup_delete_Some [_ Hj]%lookup_delete_Some. by eapply H3.
  - intros i q [_ Hq]%lookup_delete_Some. by eapply H4.
  - exact H5.
  - intros i x q [_ Hx]%lookup_delete_Some [_ Hq]%lookup_delete_Some. by apply H6.
  - assert (0 ≤ pool_bytes (delete txid (tp_txs s))); [|lia]. clear -H1. unfold pool_bytes.
    assert (∀ i x, delete txid (tp_txs s) !! i = Some x → 0 < te_size x) as Hall.
    { intros i x [_ Hx]%lookup_delete_Some. by apply (H1 i x Hx). }
    revert Hall. generalize (delete txid (tp_txs s)) as m. intros m. induction m as [|i x m Hi IH] using map_ind; intros Hall; [done|].
    rewrite map_fold_insert_L; [|intros; lia|done]. specialize (Hall i x) as Hx. rewrite lookup_insert_eq in Hx. specialize (Hx eq_refl).
    assert (0 ≤ map_fold (λ _ e n, te_size e + n) 0 m); [|lia]. apply IH. intros j y Hj. apply (Hall j). rewrite lookup_insert_ne; [done|]. intros ->. congruence.
  - assert (is_Some (tp_txs s !! txid)) as Hsome by by exists e. pose proof (map_size_delete_Some _ _ Hsome). lia.
  - lia.
  - intros i t Ht. destruct (H10 i t Ht) as (x & Hx & Hin). exists x. split; [|done]. rewrite lookup_delete_ne; [done|]. intros <-. congruence.
Qed.

Lemma tokens_books txid s : books s → books (set_pool_tokens (delete txid (tp_owner_tokens s)) s).
Proof. intros [H1 H2 H3 H4 H5 H6 H7 H8 H9 H10]. 
  split; [exact H1|exact H2|exact H3|exact H4|exact H5|exact H6|exact H7|exact H8|exact H9|].
  intros i t Ht. cbn in Ht. apply lookup_delete_Some in Ht as [_ Ht]. exact (H10 i t Ht).
Qed.

Lemma remove_entry_Some txid s e : tp_txs s !! txid = Some e → (remove_entry_raw txid s).1 = Some e.
Proof. intros He. unfold remove_entry_raw. by rewrite He. Qed.

(** One removal: the entry, its token and its reservation go; nothing else does. *)
Record dropped id (s : TxPool) o (txids : list bytes) (s' : TxPool) o' : Prop := mkDropped {
  dr_wf : pool_wf s' id o';
  dr_txs i : tp_txs s' !! i = if decide (i ∈ txids) then None else tp_txs s !! i;
  dr_limits : same_limits s s';
  dr_owner : tp_owner s' = tp_owner s;
  dr_seqs i : i ∉ txids → tp_heap_seqs s' !! i = tp_heap_seqs s !! i;
  dr_pending txid inputs token : pending id o txid inputs token → pending id o' txid inputs token }.

Lemma drop_entry_dropped id s o txid : pool_wf s id o →
  dropped id s o [txid] (drop_entry (s, o) txid).1 (drop_entry (s, o) txid).2.
Proof.
  intros (Hb & Hw & Hh). unfold drop_entry. destruct (tp_txs s !! txid) as [e|] eqn:He.
  2: { unfold remove_entry_raw. rewrite He. cbn. split; try done. intros i. destruct (decide _) as [->%list_elem_of_singleton|]; done. }
  set (s1 := set_pool_tokens (delete txid (tp_owner_tokens s)) s).
  assert (books s1) as Hb1 by by apply tokens_books.
  pose proof (remove_books txid e s1 Hb1 He (lookup_delete_eq _ _)) as Hb2.
  assert (∀ i, (remove_entry_raw txid s).2 = mkTxPool (tp_cfg s) (delete txid (tp_txs s)) (tp_owner s) (tp_owner_tokens s) (tp_worst_heap s)
     (delete txid (tp_heap_seqs s)) (tp_next_heap_id s) (tp_max_transactions s) (tp_max_bytes s) (tp_low_water_bytes s)
     (Z.max 0 (tp_used_bytes s - te_size e)) ∧ (i ∉ [txid] → i ≠ txid)) as Hrm.
  { intros i. unfold remove_entry_raw. rewrite He. split; [done|]. intros Hi ->. apply Hi. by left. }
  unfold remove_entry_raw in Hb2 |- *. cbn [s1 set_pool_tokens tp_txs] in Hb2. rewrite He in *. cbn [snd tp_owner_tokens] in *.
  assert (∀ i, delete txid (tp_txs s) !! i = if decide (i ∈ [txid]) then None else tp_txs s !! i) as Htxs.
  { intros i. destruct (decide _) as [->%list_elem_of_singleton|Hni]; [apply lookup_delete_eq|]. apply lookup_delete_ne. intros <-. apply Hni. by left. }
  destruct (tp_owner_tokens s !! txid) as [token|] eqn:Ht; cbn [fst snd set_pool_tokens tp_owner_tokens].
  - destruct (bk_tokens _ Hb _ _ Ht) as (e' & He' & Hin). rewrite He in He'. injection He' as <-.
    destruct (Hh txid e He Hin) as (token' & Ht' & Ho & g & Hg). rewrite Ht in Ht'. injection Ht' as <-.
    assert (∀ q c, po_by_token o !! q = Some c → cl_txid c ≠ txid ∨ cl_finalized c = false → po_by_token (drop_after_validation token o) !! q = Some c) as Hkeep.
    { intros q c Hq Hne. unfold drop_after_validation, drop_claim. rewrite Hg. cbn. rewrite lookup_delete_ne; [done|]. intros <-.
      rewrite Hg in Hq. injection Hq as <-. by destruct Hne. }
    split; cbn [tp_txs tp_owner tp_heap_seqs]; [|exact Htxs|by split_and!|done| |].
    + split; [exact Hb2|]. split; [by apply drop_claim_wf|]. intros i x Hx Hi. cbn in Hx |- *.
      apply lookup_delete_Some in Hx as [Hne Hx].
      destruct (Hh i x Hx Hi) as (t & Ht2 & Ho2 & g2 & Hg2). exists t. split; [by rewrite lookup_delete_ne|]. split; [done|]. exists g2.
      apply Hkeep; [done|]. left. cbn. congruence.
    + intros i Hi. apply lookup_delete_ne. symmetry. by apply Hrm.
    + intros i x t (Ho2 & g2 & Hg2). split; [done|]. exists g2. apply Hkeep; [done|by right].
  - assert (te_inputs e = []) as Hin.
    { destruct (decide (te_inputs e = [])) as [|Hin]; [done|]. destruct (Hh txid e He Hin) as (t & Ht' & _). congruence. }
    split; cbn [tp_txs tp_owner tp_heap_seqs]; [|exact Htxs|by split_and!|done| |done].
    + assert (delete txid (tp_owner_tokens s) = tp_owner_tokens s) as Hd by by apply delete_id. unfold s1, set_pool_tokens in Hb2.
      cbn [tp_owner_tokens tp_cfg tp_owner tp_worst_heap tp_heap_seqs tp_next_heap_id tp_max_transactions tp_max_bytes tp_low_water_bytes tp_used_bytes] in Hb2. rewrite Hd in Hb2.
      split; [exact Hb2|]. split; [done|]. intros i x Hx Hi. cbn in Hx. apply lookup_delete_Some in Hx as [_ Hx]. by apply (Hh i x).
    + intros i Hi. apply lookup_delete_ne. symmetry. by apply Hrm.
Qed.

Lemma drop_entries id s o txids : pool_wf s id o →
  dropped id s o txids (foldl drop_entry (s, o) txids).1 (foldl drop_entry (s, o) txids).2.
Proof.
  revert s o. induction txids as [|txid txids IH]; intros s o Hwf; cbn [foldl].
  { split; try done. }
  destruct (drop_entry_dropped id s o txid Hwf) as [Hw1 Ht1 Hl1 Ho1 Hs1 Hp1]. destruct (drop_entry (s, o) txid) as [s1 o1]. cbn [fst snd] in *.
  destruct (IH s1 o1 Hw1) as [Hw2 Ht2 Hl2 Ho2 Hs2 Hp2]. split; [done| | |congruence| |auto].
  - intros i. rewrite Ht2, Ht1. destruct (decide (i ∈ txids)) as [Hi|Hi]; [by rewrite decide_True by by right|].
    apply decide_ext. rewrite list_elem_of_singleton, elem_of_cons. tauto.
  - destruct Hl1 as (? & ? & ? & ? & ?), Hl2 as (? & ? & ? & ? & ?). split_and!; congruence.
  - intros i Hi. rewrite Hs2, Hs1; [done|..]; intros Hin; apply Hi; [|by right]. apply list_elem_of_singleton in Hin as ->. by left.
Qed.
End wf.
