(* ===== verification/PoolEvict.v ===== *)
(** * Making room in the transaction pool ([txpool.rs])

    The dry run picks the worst entries, one after the other, until the rest
    and the candidate fit.  [plan_Ok] says what its answer means; [evicted_maps]
    says what is left once the victims have gone. *)

From S2P Require Import Prelude Bytes BTree Errors Constants Crypto WireRead CompactSize TxWire TxCodec Block Merkle Pow Subsidy.
From S2P Require Import Vault Suites Verify SigCache WorkerPool SigQueue Sighash Spend Htlc Stealth CovenantGenesis.
From S2P Require Import UtxoApply UtxoRules UtxoDeferred UtxoLedger BlockParse BlockWeight BlockDa BlockBasic ConnectBlock.
From S2P Require Import NodeText Uint128 ChainState PendingOwner BlockStore AtomicWrite StoreFiles Headers PoolPolicy PoolOrder TxPool PoolSafe.

(** ** The dry run *)

Definition sizes (plan : list CapacityPlanEntry) : Z := sum_of (λ p, te_size (cp_entry p)) plan.

Lemma sizes_app p1 p2 : sizes (p1 ++ p2) = sizes p1 + sizes p2.
Proof. unfold sizes, sum_of. induction p1 as [|x p1 IH]; cbn in *; lia. Qed.
Lemma sizes_perm p1 p2 : p1 ≡ₚ p2 → sizes p1 = sizes p2.
Proof. unfold sizes, sum_of. induction 1; cbn in *; lia. Qed.

(** [E] are victims of a plan, [R] is what it keeps. *)
Record split_plan (ordering : CapacityOrdering) (plan E R : list CapacityPlanEntry) : Prop := mkSplit {
  sp_perm : plan ≡ₚ E ++ R;
  sp_candidate : Forall (λ p, cp_candidate p = false) E;
  sp_worse v x : v ∈ E → x ∈ R → capacity_plan_entry_worse ordering v x = true }.

Lemma evict_loop_Ok ordering max target fuel plan bytes acc count' bytes' acc' :
  Forall plan_rated plan → NoDup (cp_txid <$> plan) →
  evict_loop fuel max target ordering plan (len plan) bytes acc = Ok (count', bytes', acc') →
  ∃ E R, split_plan ordering plan E R ∧ acc' = acc ++ (cp_txid <$> E) ∧ count' = len R ∧ bytes' = bytes - sizes E.
Proof.
  revert plan bytes acc. induction fuel as [|fuel IH]; intros plan bytes acc HP Hnd; cbn [evict_loop].
  all: destruct (negb _); [intros [= <- <- <-]; exists [], plan; rewrite app_nil_r; unfold sizes, sum_of;
    split_and!; [split; [done|constructor|by intros ?? ?%elem_of_nil]|done|done|cbn; lia]|].
  { intros [= <- <- <-]. exists [], plan. rewrite app_nil_r. split_and!; [split; [done|constructor|by intros ?? ?%elem_of_nil]|done|done|cbn; lia]. }
  destruct plan as [|p plan'] eqn:Hplan.
  { intros [= <- <- <-]. exists [], []. rewrite app_nil_r. split_and!; [split; [done|constructor|by intros ?? ?%elem_of_nil]|done|done|cbn; lia]. }
  rewrite <- Hplan in *. destruct (worst_index_spec ordering plan HP Hnd) as (i & w & -> & Hi & Hw); [by rewrite Hplan|].
  pose proof (list_elem_of_lookup_2 _ _ _ Hi) as Hin. clear Hplan p plan'.
  destruct (cp_candidate w) eqn:Hc; [done|]. destruct (_ <? _); [done|].
  pose proof (delete_Permutation _ _ _ Hi) as Hperm. pose proof HP as HP'. pose proof Hnd as Hnd'.
  rewrite Hperm in HP', Hnd'. apply list.Forall_cons in HP' as [HPw HP']. cbn [fmap list_fmap] in Hnd'. apply list.NoDup_cons in Hnd' as [Hn Hnd'].
  replace (Z.max 0 (len plan - 1)) with (len (delete i plan)).
  2: { apply Permutation_length in Hperm. cbn [length] in Hperm. lia. }
  intros (E & R & [H1 H2 H3] & -> & -> & ->)%IH; [|done..]. exists (w :: E), R. split_and!.
  - split; [by rewrite Hperm, H1|by constructor|]. intros v x [-> |Hv]%elem_of_cons Hx; [|by apply H3].
    assert (x ∈ delete i plan) as Hx' by (rewrite H1; set_solver). apply Hw.
    + rewrite Hperm. by right.
    + intros He. apply Hn. rewrite <- He. by apply list_elem_of_fmap_2.
  - cbn. by rewrite <- app_assoc.
  - done.
  - unfold sizes, sum_of. cbn. lia.
Qed.

Section evict.
Context `{HX : Hex}.
Implicit Types (w : PoolWorld) (s : TxPool).

(** An entry of the pool, and a candidate, as the plan sees them. *)
Definition resident s (x : bytes * TxPoolEntry) : CapacityPlanEntry := mkCapacityPlanEntry x.1 x.2 false (default 0 (tp_heap_seqs s !! x.1)).
Definition candidate_entry (txid : bytes) (entry : TxPoolEntry) : CapacityPlanEntry := mkCapacityPlanEntry txid entry true 0.

Lemma push_plan_step s pl seqs txid e st : push_plan_entry s (pl, seqs) (txid, e) = Ok st → st.1 = pl ++ [resident s (txid, e)].
Proof.
  unfold push_plan_entry. case_bool_decide; [done|]. unfold resident. cbn [fst snd].
  destruct (tp_heap_seqs s !! txid) as [q|]; [|done]. cbn [ok_or default]. run_bind. destruct (seqs !! q); [done|].
  destruct (_ || _); [done|]. by intros [= <-].
Qed.
Lemma push_plan_Ok s l st st' : try_fold (push_plan_entry s) st l = Ok st' → st'.1 = st.1 ++ (resident s <$> l).
Proof.
  revert st. induction l as [|[txid e] l IH]; intros st; cbn [try_fold]; [intros [= <-]; cbn; by rewrite app_nil_r|].
  destruct st as [pl seqs], (push_plan_entry s (pl, seqs) (txid, e)) as [st|] eqn:Hp; [|done]. run_bind.
  intros ->%IH. apply push_plan_step in Hp as ->. cbn. by rewrite <- app_assoc.
Qed.

(** The plan of the capacity check: the residents, and the candidate. *)
Definition whole_plan w s (txid : bytes) (entry : TxPoolEntry) : list CapacityPlanEntry :=
  (resident s <$> pw_order w (tp_txs s)) ++ [candidate_entry txid entry].

Lemma whole_plan_ok w s txid entry : books s → (∀ m, pw_order w m ≡ₚ map_to_list m) → tp_txs s !! txid = None → rated (te_fee entry) (te_weight entry) →
  Forall plan_rated (whole_plan w s txid entry) ∧ NoDup (cp_txid <$> whole_plan w s txid entry).
Proof.
  intros Hb Hw Hn Hr. unfold whole_plan. split.
  - apply list.Forall_app. split; [|by constructor]. apply list.Forall_forall. intros p Hp. apply list_elem_of_fmap in Hp as ([i e] & -> & Hie).
    rewrite Hw in Hie. apply elem_of_map_to_list in Hie. by apply (bk_entries _ Hb i e).
  - rewrite fmap_app, <- list_fmap_compose. cbn. apply list.NoDup_app. split_and!.
    + assert (cp_txid ∘ resident s <$> pw_order w (tp_txs s) = (pw_order w (tp_txs s)).*1) as -> by done. rewrite Hw. apply NoDup_fst_map_to_list.
    + intros i Hi Ht. apply list_elem_of_singleton in Ht as ->. apply list_elem_of_fmap in Hi as ([j e] & -> & Hie). cbn in Hn.
      rewrite Hw in Hie. apply elem_of_map_to_list in Hie. congruence.
    + apply NoDup_singleton.
Qed.

Lemma sizes_entries (f : bytes * TxPoolEntry → CapacityPlanEntry) (m : gmap bytes TxPoolEntry) : (∀ x, cp_entry (f x) = x.2) →
  sizes (f <$> map_to_list m) = pool_bytes m.
Proof.
  intros Hf. induction m as [|i e m Hi IH] using map_ind; [by rewrite map_to_list_empty|]. rewrite pool_bytes_insert, <- IH by done.
  rewrite (sizes_perm _ (f <$> (i, e) :: map_to_list m)) by (by rewrite map_to_list_insert). unfold sizes, sum_of. cbn. by rewrite Hf.
Qed.
Lemma whole_plan_sizes w s txid entry : (∀ m, pw_order w m ≡ₚ map_to_list m) →
  sizes (whole_plan w s txid entry) = pool_bytes (tp_txs s) + te_size entry ∧ len (whole_plan w s txid entry) = Z.of_nat (size (tp_txs s)) + 1.
Proof.
  intros Hw. unfold whole_plan. rewrite sizes_app, length_app, length_fmap, (Permutation_length (Hw _)), length_map_to_list.
  rewrite (sizes_perm (resident s <$> pw_order w (tp_txs s)) (resident s <$> map_to_list (tp_txs s))) by (by rewrite Hw).
  rewrite sizes_entries by done. unfold sizes, sum_of. cbn. lia.
Qed.

(** A plan that is accepted: the victims are worse than all that stays, what
    stays fits, and there are none when the candidate fits anyway. *)
Lemma plan_Ok w s txid entry evicted : books s → (∀ m, pw_order w m ≡ₚ map_to_list m) → tp_txs s !! txid = None →
  rated (te_fee entry) (te_weight entry) → 0 ≤ te_size entry → capacity_eviction_plan w s txid entry = Ok evicted →
  txid ≠ zeros 32 ∧ 0 < te_size entry ∧ ∃ ordering E R, split_plan ordering (whole_plan w s txid entry) E R ∧ evicted = cp_txid <$> E
    ∧ len R ≤ tp_max_transactions s ∧ sizes R ≤ tp_max_bytes s
    ∧ (Z.of_nat (size (tp_txs s)) < tp_max_transactions s → pool_bytes (tp_txs s) + te_size entry ≤ tp_max_bytes s → evicted = []).
Proof.
  intros Hb Hw Hn Hr Hsz. pose proof (whole_plan_ok w s txid entry Hb Hw Hn Hr) as [HP Hnd].
  pose proof (whole_plan_sizes w s txid entry Hw) as [Hs Hl]. pose proof (bk_bytes _ Hb) as [Hu Hmax].
  rewrite <- (bk_used _ Hb) in Hs. unfold capacity_eviction_plan. destruct (_ || _) eqn:H0; [done|].
  destruct (bool_decide (txid = zeros 32)) eqn:Hz; [done|]. apply bool_decide_eq_false in Hz. cbn [orb].
  destruct ((te_size entry =? 0) || _) eqn:H1; [done|]. destruct (tp_max_bytes s <? te_size entry) eqn:H2; [done|]. destruct (negb _ && negb _) eqn:Hp.
  { intros [= <-]. split_and!; [done|lia|]. exists BytePressure, [], (whole_plan w s txid entry). split_and!; [|done|lia|lia|done].
    split; [done|constructor|by intros ?? ?%elem_of_nil]. }
  destruct (pr_plan _); [|done]. destruct (pr_plan_seqs _); [|done]. destruct (pr_evicted _); [|done]. cbn [negb].
  destruct (try_fold _ _ _) as [[pl sq]|] eqn:Hpush; [|done]. apply push_plan_Ok in Hpush. cbn [fst app] in Hpush. subst pl. run_bind.
  fold (candidate_entry txid entry). fold (whole_plan w s txid entry). rewrite <- Hl.
  destruct (evict_loop _ _ _ _ _ _ _ _) as [[[count' bytes'] ev]|] eqn:Hev; [|done]. run_bind.
  apply evict_loop_Ok in Hev as (E & R & Hsp & -> & -> & ->); [|done..]. destruct ((tp_max_transactions s <? _) || _) eqn:H3; [done|]. intros H4. injection H4 as <-.
  split_and!; [done|lia|]. eexists _, E, R. split_and!; [exact Hsp|done|lia| |rewrite <- (bk_used _ Hb); lia].
  pose proof (sizes_perm _ _ (sp_perm _ _ _ _ Hsp)) as Hpe. rewrite sizes_app in Hpe. lia.
Qed.

(** ** Once the victims have gone *)

(** The pool without the entries of [evicted]. *)
Lemma without_entries (m m' : gmap bytes TxPoolEntry) (f : bytes * TxPoolEntry → CapacityPlanEntry) (E R : list CapacityPlanEntry) :
  (∀ x, cp_txid (f x) = x.1 ∧ cp_entry (f x) = x.2) → f <$> map_to_list m ≡ₚ E ++ R → NoDup (cp_txid <$> E ++ R) →
  (∀ i, m' !! i = if decide (i ∈ cp_txid <$> E) then None else m !! i) →
  Z.of_nat (size m') = len R ∧ pool_bytes m' = sizes R.
Proof.
  intros Hf Hp Hnd Hm'. pose proof Hnd as Hnd'. rewrite fmap_app in Hnd'. apply list.NoDup_app in Hnd' as (_ & Hdis & HndR).
  assert (map_to_list m' ≡ₚ (λ p, (cp_txid p, cp_entry p)) <$> R) as Hperm.
  { apply NoDup_Permutation; [apply NoDup_map_to_list| |].
    - apply (NoDup_fmap_1 fst). by rewrite <- list_fmap_compose.
    - intros [i e]. rewrite elem_of_map_to_list, list_elem_of_fmap. split.
      + intros He. rewrite Hm' in He. case_decide as Hi; [done|]. exists (f (i, e)). destruct (Hf (i, e)) as [E1 E2]. rewrite E1, E2. split; [done|].
        assert (f (i, e) ∈ E ++ R) as [HE|]%elem_of_app; [|destruct Hi|done].
        * rewrite <- Hp. by apply list_elem_of_fmap_2, elem_of_map_to_list.
        * apply list_elem_of_fmap. by exists (f (i, e)).
      + intros (p & Hpi & HpR). injection Hpi as -> ->. rewrite Hm'. assert (p ∈ f <$> map_to_list m) as Hpm by (rewrite Hp; set_solver).
        apply list_elem_of_fmap in Hpm as ([i e] & -> & Hie). apply elem_of_map_to_list in Hie. destruct (Hf (i, e)) as [E1 E2]. rewrite E1, E2. cbn.
        rewrite decide_False; [done|]. intros Hi. apply (Hdis _ Hi). change i with (i, e).1. rewrite <- E1. by apply list_elem_of_fmap_2. }
  split; [rewrite <- (length_map_to_list m'), Hperm, length_fmap; done|].
  rewrite <- (sizes_entries f m') by apply Hf. rewrite (sizes_perm _ (f <$> ((λ p, (cp_txid p, cp_entry p)) <$> R))) by (by rewrite Hperm).
  unfold sizes, sum_of. clear -Hf. induction R as [|p R IH]; cbn; [done|]. rewrite IH. f_equal. by destruct (Hf (cp_txid p, cp_entry p)) as [_ ->].
Qed.
Lemma without_size (m m' : gmap bytes TxPoolEntry) (f : bytes * TxPoolEntry → CapacityPlanEntry) (E R : list CapacityPlanEntry) c :
  (∀ x, cp_txid (f x) = x.1 ∧ cp_entry (f x) = x.2) → (f <$> map_to_list m) ++ [c] ≡ₚ E ++ R → NoDup (cp_txid <$> E ++ R) → c ∉ E →
  (∀ i, m' !! i = if decide (i ∈ cp_txid <$> E) then None else m !! i) →
  Z.of_nat (size m') + 1 = len R ∧ pool_bytes m' + te_size (cp_entry c) = sizes R.
Proof.
  intros Hf Hp Hnd Hc Hm'. assert (c ∈ E ++ R) as [Hin|Hin]%elem_of_app; [by rewrite <- Hp; set_solver|done|].
  apply list_elem_of_split in Hin as (R1 & R2 & ->). 
  assert (E ++ R1 ++ c :: R2 ≡ₚ c :: E ++ R1 ++ R2) as Hmid by (by rewrite !Permutation_middle).
  assert (f <$> map_to_list m ≡ₚ E ++ R1 ++ R2) as Hp'.
  { apply (Permutation_cons_inv (a := c)). rewrite <- Hmid, <- Hp. by rewrite Permutation_app_comm. }
  assert (NoDup (cp_txid <$> E ++ R1 ++ R2)) as Hnd'.
  { rewrite Hmid in Hnd. cbn in Hnd. by apply list.NoDup_cons in Hnd as [_ ?]. }
  destruct (without_entries m m' f E (R1 ++ R2) Hf Hp' Hnd' Hm') as [H1 H2]. rewrite sizes_app in H2 |- *. rewrite !length_app in *.
  cbn [length]. change (sizes (c :: R2)) with (te_size (cp_entry c) + sizes R2). lia.
Qed.
End evict.
