(* ===== verification/PoolAdmit.v ===== *)
(** * Admission to the transaction pool, and removal ([txpool.rs])

    What a call of the pool does, on every branch: an error leaves the entries
    alone, an accepted transaction replaces worse ones, and a removal takes out
    what it names or nothing.  The pool that any sequence of calls reaches is
    within its limits and spends no outpoint twice. *)

From S2P Require Import Prelude Bytes BTree Errors Constants Crypto WireRead CompactSize TxWire TxCodec Block Merkle Pow Subsidy.
From S2P Require Import Vault Suites Verify SigCache WorkerPool SigQueue Sighash Spend Htlc Stealth CovenantGenesis.
From S2P Require Import UtxoApply UtxoRules UtxoDeferred UtxoLedger BlockParse BlockWeight BlockDa BlockBasic ConnectBlock.
From S2P Require Import NodeText Uint128 ChainState PendingOwner BlockStore AtomicWrite StoreFiles Headers PoolPolicy PoolOrder TxPool PoolSafe PoolEvict.

Section admission.
Context `{HX : Hex}.
Implicit Types (w : PoolWorld) (s : TxPool) (h : PendingOutpointOwnerHandle) (o : PendingOutpointOwner).

(** ** Putting an entry in *)

Lemma insert_books txid e s : books s → tp_txs s !! txid = None → entry_ok txid e → tp_next_heap_id s ≠ u64_max →
  Z.of_nat (size (tp_txs s)) + 1 ≤ tp_max_transactions s → pool_bytes (tp_txs s) + te_size e ≤ tp_max_bytes s →
  books (insert_entry_raw txid e s).
Proof.
  intros [H1 H2 H3 H4 H5 H6 H7 H8 H9 H10] Hn He Hq Hc Hbytes. destruct He as (Hz & Hsz & Hr).
  assert (tp_heap_seqs s !! txid = None) as Hnq.
  { destruct (tp_heap_seqs s !! txid) eqn:E; [|done]. destruct (proj1 (H2 txid)) as [? ?]; [by eexists|congruence]. }
  assert (Z.min u64_max (tp_next_heap_id s + 1) = tp_next_heap_id s + 1) as Hmin by lia.
  unfold insert_entry_raw. rewrite Hmin.
  split; cbn [tp_txs tp_heap_seqs tp_next_heap_id tp_worst_heap tp_used_bytes tp_max_transactions tp_max_bytes tp_owner_tokens].
  - intros i x [[<- <-]|[_ Hx]]%lookup_insert_Some; [done|by apply H1].
  - intros i. destruct (decide (i = txid)) as [->|Hne]; [rewrite !lookup_insert_eq; by split; eexists|]. rewrite !lookup_insert_ne by done. apply H2.
  - intros i j q [[<- <-]|[Hi1 Hi]]%lookup_insert_Some [[<- Hj]|[Hj1 Hj]]%lookup_insert_Some; [done| | |by eapply H3].
    + apply H4 in Hj. lia.
    + apply H4 in Hi. lia.
  - intros i q [[_ <-]|[_ Hi]]%lookup_insert_Some; [lia|]. apply H4 in Hi. lia.
  - lia.
  - intros i x q [[<- <-]|[Hne Hx]]%lookup_insert_Some [[E <-]|[Hne2 Hy]]%lookup_insert_Some; [by left|done|done|]. right. by apply H6.
  - rewrite pool_bytes_insert, <- H7 by done. lia.
  - rewrite map_size_insert_None by done. lia.
  - lia.
  - intros i t Ht. destruct (H10 i t Ht) as (x & Hx & Hin). exists x. split; [|done]. rewrite lookup_insert_ne; [done|]. intros <-. congruence.
Qed.

Lemma compact_same s : ∃ heap, compact_worst_heap_if_needed s = mkTxPool (tp_cfg s) (tp_txs s) (tp_owner s) (tp_owner_tokens s) heap
   (tp_heap_seqs s) (tp_next_heap_id s) (tp_max_transactions s) (tp_max_bytes s) (tp_low_water_bytes s) (tp_used_bytes s)
  ∧ ∀ k, k ∈ tp_worst_heap s → tp_heap_seqs s !! wk_txid k = Some (wk_heap_id k) → k ∈ heap.
Proof.
  unfold compact_worst_heap_if_needed. case_match.
  - eexists. split; [done|]. intros k Hk Hq. by apply list_elem_of_filter.
  - exists (tp_worst_heap s). split; [by destruct s|done].
Qed.
Lemma compact_books s : books s → books (compact_worst_heap_if_needed s).
Proof.
  intros [H1 H2 H3 H4 H5 H6 H7 H8 H9 H10]. destruct (compact_same s) as (heap & -> & Hheap).
  split; [exact H1|exact H2|exact H3|exact H4|exact H5| |exact H7|exact H8|exact H9|exact H10].
  intros i x q Hx Hq. apply Hheap; [by apply H6|done].
Qed.

(** A token that fits the entry: none without inputs, else one that is pending. *)
Definition reserved_for (id : positive) o (txid : bytes) (inputs : list Outpoint) (token : option PendingOutpointToken) : Prop :=
  match token with
  | Some token => inputs ≠ [] ∧ pending id o txid inputs token
  | None => inputs = []
  end.

Lemma finalize_insert_wf id s o txid e token : pool_wf s id o → tp_txs s !! txid = None → entry_ok txid e → tp_next_heap_id s ≠ u64_max →
  Z.of_nat (size (tp_txs s)) + 1 ≤ tp_max_transactions s → pool_bytes (tp_txs s) + te_size e ≤ tp_max_bytes s →
  reserved_for id o txid (te_inputs e) token →
  match token with
  | Some token => pool_wf (set_pool_tokens (<[txid := token]> (tp_owner_tokens s)) (insert_entry_raw txid e s)) id (finalize_after_validation token o)
  | None => pool_wf (insert_entry_raw txid e s) id o
  end.
Proof.
  intros (Hb & Hw & Hh) Hn He Hq Hc Hbytes Hres. pose proof (insert_books txid e s Hb Hn He Hq Hc Hbytes) as Hb'.
  destruct token as [token|]; cbn in Hres.
  - destruct Hres as (Hin & Ho & g & Hg). assert (finalize_after_validation token o = set_owner_maps o (po_by_outpoint o)
      (<[tk_sequence token := mkClaim txid (te_inputs e) g true]> (po_by_token o))) as -> by (unfold finalize_after_validation; by rewrite Hg).
    split; [|split].
    + destruct Hb' as [H1 H2 H3 H4 H5 H6 H7 H8 H9 H10]. split; [exact H1|exact H2|exact H3|exact H4|exact H5|exact H6|exact H7|exact H8|exact H9|].
      intros i t Ht. cbn in Ht. apply lookup_insert_Some in Ht as [[<- <-]|[Hne Ht]]; [|exact (H10 i t Ht)]. exists e. split; [cbn; apply lookup_insert_eq|done].
    + pose proof (finalized_wf _ _ _ Hw Hg) as Hf. exact Hf.
    + intros i x Hx Hix. cbn in Hx |- *. apply lookup_insert_Some in Hx as [[<- <-]|[Hne Hx]].
      * exists token. split; [apply lookup_insert_eq|]. split; [done|]. exists g. cbn. apply lookup_insert_eq.
      * destruct (Hh i x Hx Hix) as (t & Ht & Ho2 & g2 & Hg2). exists t. split; [by rewrite lookup_insert_ne|]. split; [done|]. exists g2. cbn.
        rewrite lookup_insert_ne; [done|]. intros E. rewrite E in Hg. congruence.
  - split; [done|]. split; [done|]. intros i x Hx Hix. cbn in Hx. apply lookup_insert_Some in Hx as [[<- <-]|[Hne Hx]]; [done|]. by apply (Hh i x).
Qed.

Lemma compact_wf s id o : pool_wf s id o → pool_wf (compact_worst_heap_if_needed s) id o.
Proof.
  intros (Hb & Hw & Hh). split; [by apply compact_books|]. split; [done|]. destruct (compact_same s) as (heap & -> & _). exact Hh.
Qed.

(** ** The commit *)

(** The order in which a hash map yields its entries, and what the engine may
    do while the pool does not hold the owner's lock. *)
Definition pool_world w : Prop := (∀ k h, rtc engine_step h (pw_between w k h)) ∧ ∀ m, pw_order w m ≡ₚ map_to_list m.

Lemma between_calm w k h : pool_world w → calm h (pw_between w k h).
Proof. intros [H _]. by apply engine_steps_calm. Qed.

(** What an accepted candidate does to the entries: it replaces [evicted], and
    all of them are worse than the candidate and than every entry that stays. *)
Record replaces s (txid : bytes) (entry : TxPoolEntry) (evicted : list bytes) s' : Prop := mkReplaces {
  rp_new : tp_txs s !! txid = None ∧ entry_ok txid entry;
  rp_txs i : tp_txs s' !! i = if decide (i = txid) then Some entry else if decide (i ∈ evicted) then None else tp_txs s !! i;
  rp_limits : tp_cfg s' = tp_cfg s ∧ tp_max_transactions s' = tp_max_transactions s ∧ tp_max_bytes s' = tp_max_bytes s;
  rp_live v : v ∈ evicted → is_Some (tp_txs s !! v);
  rp_worse : ∃ ordering, ∀ v e, v ∈ evicted → tp_txs s !! v = Some e →
     capacity_plan_entry_worse ordering (resident s (v, e)) (candidate_entry txid entry) = true ∧
     ∀ i x, tp_txs s !! i = Some x → i ∉ evicted → capacity_plan_entry_worse ordering (resident s (v, e)) (resident s (i, x)) = true;
  rp_room : Z.of_nat (size (tp_txs s)) < tp_max_transactions s → pool_bytes (tp_txs s) + te_size entry ≤ tp_max_bytes s → evicted = [] }.

Lemma plan_replaces s txid entry evicted s' ordering E R : tp_txs s !! txid = None → entry_ok txid entry →
  (resident s <$> map_to_list (tp_txs s)) ++ [candidate_entry txid entry] ≡ₚ E ++ R → candidate_entry txid entry ∉ E →
  (∀ v x, v ∈ E → x ∈ R → capacity_plan_entry_worse ordering v x = true) → evicted = cp_txid <$> E →
  (Z.of_nat (size (tp_txs s)) < tp_max_transactions s → pool_bytes (tp_txs s) + te_size entry ≤ tp_max_bytes s → evicted = []) →
  (∀ i, tp_txs s' !! i = if decide (i = txid) then Some entry else if decide (i ∈ evicted) then None else tp_txs s !! i) →
  tp_cfg s' = tp_cfg s ∧ tp_max_transactions s' = tp_max_transactions s ∧ tp_max_bytes s' = tp_max_bytes s →
  replaces s txid entry evicted s'.
Proof.
  intros Hn Hok Hperm HcE Hworse Hev Hroom Htxs Hlim.
  assert (∀ p, p ∈ E → ∃ e, p = resident s (cp_txid p, e) ∧ tp_txs s !! cp_txid p = Some e) as HE.
  { intros p Hp. assert (p ∈ (resident s <$> map_to_list (tp_txs s)) ++ [candidate_entry txid entry]) as Hin by (rewrite Hperm; set_solver).
    apply elem_of_app in Hin as [Hin|Hin]; [|apply list_elem_of_singleton in Hin as ->; done].
    apply list_elem_of_fmap in Hin as ([i e] & -> & Hie). apply elem_of_map_to_list in Hie. by exists e. }
  assert (∀ v, v ∈ evicted → ∃ e, resident s (v, e) ∈ E ∧ tp_txs s !! v = Some e) as Hv.
  { intros v. rewrite Hev. intros (p & -> & Hp)%list_elem_of_fmap. destruct (HE p Hp) as (e & Hpe & He). exists e. by rewrite <- Hpe. }
  split; [done|done|done|intros v (e & _ & He)%Hv; by exists e| |done]. exists ordering. intros v e (e' & Hin & He')%Hv He.
  rewrite He in He'. injection He' as <-. split.
  - apply Hworse; [done|]. assert (candidate_entry txid entry ∈ E ++ R) as [?|?]%elem_of_app; [rewrite <- Hperm; set_solver|done|done].
  - intros i x Hx Hi. apply Hworse; [done|]. assert (resident s (i, x) ∈ E ++ R) as [Hin'|?]%elem_of_app; [|destruct Hi|done].
    + rewrite <- Hperm. apply elem_of_app. left. by apply list_elem_of_fmap_2, elem_of_map_to_list.
    + rewrite Hev. apply list_elem_of_fmap. by exists (resident s (i, x)).
Qed.

Lemma apply_delta_wf w s id o txid entry token evicted : pool_world w → pool_wf s id o → tp_txs s !! txid = None →
  rated (te_fee entry) (te_weight entry) → 0 ≤ te_size entry → tp_next_heap_id s ≠ u64_max → reserved_for id o txid (te_inputs entry) token →
  capacity_eviction_plan w s txid entry = Ok evicted →
  let '(s', o') := apply_delta txid entry token evicted s o in
  pool_wf s' id o' ∧ replaces s txid entry evicted s' ∧ tp_owner s' = tp_owner s.
Proof.
  intros [_ Hord] Hwf Hn Hr Hsz Hq Hres Hplan. pose proof Hwf as (Hb & _ & _).
  destruct (plan_Ok w s txid entry evicted Hb Hord Hn Hr Hsz Hplan) as (Hz & Hsz' & ordering & E & R & Hsp & Hev & Hcount & Hbytes & Hroom).
  pose proof (whole_plan_ok w s txid entry Hb Hord Hn Hr) as [_ Hnd]. rewrite (sp_perm _ _ _ _ Hsp) in Hnd.
  assert (candidate_entry txid entry ∉ E) as HcE.
  { intros Hin. pose proof (proj1 (list.Forall_forall _ _) (sp_candidate _ _ _ _ Hsp) _ Hin). done. }
  assert (Hperm : (resident s <$> map_to_list (tp_txs s)) ++ [candidate_entry txid entry] ≡ₚ E ++ R).
  { rewrite <- (sp_perm _ _ _ _ Hsp). unfold whole_plan. by rewrite Hord. }
  assert (entry_ok txid entry) as Hok by done.
  destruct (drop_entries id s o evicted Hwf) as [Hwf1 Htxs1 Hlim1 Ho1 _ Hpend1].
  unfold apply_delta. destruct (foldl drop_entry (s, o) evicted) as [s1 o1]. cbn [fst snd] in *.
  destruct Hlim1 as (Hl1 & Hl2 & Hl3 & Hl4 & _).
  destruct (without_size (tp_txs s) (tp_txs s1) (resident s) E R _ (λ x, conj eq_refl eq_refl) Hperm Hnd HcE) as [Hc1 Hb1].
  { intros i. by rewrite Htxs1, Hev. }
  assert (tp_txs s1 !! txid = None) as Hn1 by (rewrite Htxs1; by case_decide).
  assert (reserved_for id o1 txid (te_inputs entry) token) as Hres1.
  { destruct token as [token|]; [|done]. destruct Hres as [? ?]. split; [done|]. by apply Hpend1. }
  pose proof (finalize_insert_wf id s1 o1 txid entry token Hwf1 Hn1 Hok ltac:(congruence) ltac:(lia) ltac:(cbn in Hb1; lia) Hres1) as Hins.
  assert (∀ s2, tp_txs s2 = <[txid := entry]> (tp_txs s1) → tp_owner s2 = tp_owner s1 → tp_cfg s2 = tp_cfg s1 →
    tp_max_transactions s2 = tp_max_transactions s1 → tp_max_bytes s2 = tp_max_bytes s1 →
    replaces s txid entry evicted (compact_worst_heap_if_needed s2) ∧ tp_owner (compact_worst_heap_if_needed s2) = tp_owner s) as Hrep.
  { intros s2 E1 E2 E3 E4 E5. destruct (compact_same s2) as (heap & -> & _). cbn. split; [|congruence].
    apply (plan_replaces s txid entry evicted _ ordering E R Hn Hok Hperm HcE (sp_worse _ _ _ _ Hsp) Hev Hroom); [|cbn; split_and!; congruence]. intros i. cbn. rewrite E1.
    case_decide as Hi; [subst i; apply lookup_insert_eq|]. rewrite lookup_insert_ne by done. apply Htxs1. }
  destruct token as [token|]; (split; [by apply compact_wf|by apply Hrep]).
Qed.

(** ** One admission *)

Lemma drop_claim_tables q o o' : same_tables o o' → po_by_outpoint (drop_claim q o') = po_by_outpoint (drop_claim q o).
Proof. intros (Hr & Ht & _). unfold drop_claim. rewrite Ht. destruct (po_by_token o !! q); cbn; [by rewrite Hr|done]. Qed.

(** The reservation, given back under an owner lock that is taken again. *)
Definition given_back (token : option PendingOutpointToken) h : PendingOutpointOwnerHandle :=
  match token with Some token => (handle_release token h).2 | None => h end.

Lemma abandon_eq {A} w token e s h : pool_world w → ∃ h1, calm h h1 ∧ abandon (A := A) w token e (s, h) = (Err e, (s, given_back token h1)).
Proof.
  intros Hw. destruct token as [token|]; [|by exists h].
  exists (pw_between w 3%nat h). split; [by apply between_calm|done].
Qed.

Definition new_entry (c : CheckedTx) (tx_bytes : bytes) (source : TxSource) : TxPoolEntry :=
  mkTxPoolEntry tx_bytes (ck_inputs c) (ck_fee c) (ck_weight c) (len tx_bytes) source.

Lemma admit_reserved_cases w context c tx_bytes source token s h r s' h' : pool_world w →
  admit_reserved w context c tx_bytes source token (s, h) = (r, (s', h')) →
  match r with
  | Err _ => ∃ h1, calm h h1 ∧ s' = s ∧ h' = given_back token h1
  | Ok v => v = (ck_txid c, mkRelayTxMetadata (ck_fee c) (len tx_bytes)) ∧ ∃ h1 evicted o', calm h h1
      ∧ capacity_eviction_plan w s (ck_txid c) (new_entry c tx_bytes source) = Ok evicted ∧ tp_next_heap_id s ≠ u64_max
      ∧ apply_delta (ck_txid c) (new_entry c tx_bytes source) token evicted s (oh_owner h1) = (s', o') ∧ h' = with_owner h1 o'
  end.
Proof.
  intros Hw. unfold admit_reserved. cbn [fst].
  assert (∀ e h0, calm h h0 → abandon w token e (s, h0) = (r, (s', h')) → match r with Err _ => ∃ h1, calm h h1 ∧ s' = s ∧ h' = given_back token h1 | Ok _ => False end) as Hab.
  { intros e h0 Hc. destruct (abandon_eq (A := bytes * RelayTxMetadata) w token e s h0 Hw) as (h1 & Hc1 & ->). intros [= <- <- <-]. exists h1. split; [by etransitivity|done]. }
  destruct (validate_fee_floor _ _ _) as [[]|e] eqn:Hf; [|intros H; apply Hab in H; [by destruct r|done]].
  fold (new_entry c tx_bytes source). destruct (capacity_eviction_plan _ _ _ _) as [evicted|e] eqn:Hp; run_bind; [|intros H; apply Hab in H; [by destruct r|done]].
  unfold preflight_standard_delta. destruct (tp_next_heap_id s =? u64_max) eqn:Hq; run_bind; [intros H; apply Hab in H; [by destruct r|done]|].
  destruct (_ ≫= _) as [ev|e] eqn:Hpre; [|intros H; apply Hab in H; [by destruct r|done]].
  assert (ev = evicted) as ->.
  { destruct (if existsb _ _ then _ else _) as [[]|]; [|done]. by injection Hpre. }
  pose proof (between_calm w 2%nat h Hw) as Hc. unfold commit_standard_delta. set (h1 := pw_between w 2%nat h) in *.
  destruct (oh_poisoned h1) eqn:Hpo; [intros H; apply Hab in H; [by destruct r|done]|].
  destruct (check_standard_delta _ _ _ _ _ _ _ _) as [[]|e]; [|intros H; apply Hab in H; [by destruct r|done]].
  destruct (apply_delta _ _ _ _ _ _) as [s1 o1] eqn:Hd. intros [= <- <- <-]. split; [done|]. exists h1, evicted, o1. split_and!; try done. lia.
Qed.

Lemma reserve_cases w context c s h r s' h' : pool_world w → pool_wf s (oh_id h) (oh_owner h) →
  reserve_inputs w context c (s, h) = (r, (s', h')) →
  s' = s ∧ oh_id h' = oh_id h ∧ (oh_poisoned h = true → oh_poisoned h' = true) ∧ pool_wf s (oh_id h') (oh_owner h') ∧
  match r with
  | Ok token => reserved_for (oh_id h') (oh_owner h') (ck_txid c) (ck_inputs c) token
      ∧ ∀ h1, calm h' h1 → oh_poisoned (given_back token h1) = false → po_by_outpoint (oh_owner (given_back token h1)) = po_by_outpoint (oh_owner h)
  | Err _ => po_by_outpoint (oh_owner h') = po_by_outpoint (oh_owner h)
  end.
Proof.
  intros Hw Hwf. unfold reserve_inputs. case_bool_decide as Hin.
  { intros [= <- <- <-]. split_and!; try done. intros h1 (_ & (Hr & _) & _) _. exact Hr. }
  pose proof (between_calm w 1%nat h Hw) as (Hid & Htab & Hpo). set (h0 := pw_between w 1%nat h) in *.
  assert (pool_wf s (oh_id h0) (oh_owner h0)) as Hwf0 by (rewrite Hid; by eapply pool_wf_tables).
  unfold on_owner, mbind, st_bind, mret, st_ret. change (pw_between w 1%nat h) with h0.
  destruct (handle_reserve (pr_owner (pw_room w)) context (ck_txid c) (ck_inputs c) h0) as [r1 h1] eqn:Hres.
  destruct (reserve_keeps s _ _ _ _ _ _ _ Hres Hwf0) as (Hid1 & Hpo1 & Hwf1 & Hr1). destruct r1 as [token|e]; cbn.
  2: { intros [= <- <- <-]. subst h1. split_and!; [done|done|done|done|]. by destruct Htab as (-> & _). }
  intros [= <- <- <-]. destruct Hr1 as (Hpend & Hown & Hseq & Hfree). split_and!; [done|congruence|rewrite Hpo1; exact Hpo|exact Hwf1|done|].
  intros h2 (Hid2 & Htab2 & _) Hnp. cbn in *. assert (pool_wf s (oh_id h2) (oh_owner h2)) as Hwf2 by (rewrite Hid2; by eapply pool_wf_tables).
  assert (pending (oh_id h2) (oh_owner h2) (ck_txid c) (ck_inputs c) token) as Hpend2 by (rewrite Hid2; by eapply pending_tables).
  destruct (release_keeps s _ _ _ h2 Hpend2 Hwf2) as (_ & Hp2 & _ & Ho2). rewrite <- Hp2, Hnp in Ho2. rewrite Ho2, (drop_claim_tables _ _ _ Htab2), Hown, Hseq.
  destruct Hwf0 as (_ & Hw0 & _). rewrite release_rows; [by destruct Htab as (-> & _)|done| |done].
  destruct Hpend as (_ & g & Hg). rewrite Hown, Hseq in Hg. destruct Hwf1 as (_ & Hw1 & _). pose proof (wf_high _ Hw1) as Hh. rewrite Hown in Hh. cbn in Hh. lia.
Qed.

(** An error leaves the entries alone and gives the outpoints back; what is
    accepted replaces the evicted entries. *)
Lemma admit_checked_cases w context c tx_bytes source s h r s' h' : pool_world w → pool_wf s (oh_id h) (oh_owner h) →
  rated (ck_fee c) (ck_weight c) → admit_checked w context c tx_bytes source (s, h) = (r, (s', h')) →
  oh_id h' = oh_id h ∧ pool_wf s' (oh_id h') (oh_owner h') ∧
  match r with
  | Ok v => v = (ck_txid c, mkRelayTxMetadata (ck_fee c) (len tx_bytes)) ∧ ∃ evicted, replaces s (ck_txid c) (new_entry c tx_bytes source) evicted s'
  | Err _ => s' = s ∧ (oh_poisoned h' = false → po_by_outpoint (oh_owner h') = po_by_outpoint (oh_owner h))
  end.
Proof.
  intros Hw Hwf Hr. unfold admit_checked. cbn [fst]. unfold pool_contains. case_bool_decide as Hd; [by intros [= <- <- <-]|].
  assert (tp_txs s !! ck_txid c = None) as Hn by by apply eq_None_not_Some.
  unfold mbind, st_bind. destruct (reserve_inputs w context c (s, h)) as [r1 [s1 h1]] eqn:Hres.
  destruct (reserve_cases _ _ _ _ _ _ _ _ Hw Hwf Hres) as (-> & Hid1 & Hpo1 & Hwf1 & Hr1). destruct r1 as [token|e]; [|by intros [= <- <- <-]].
  destruct Hr1 as [Hfor Hback]. intros Had. apply admit_reserved_cases in Had; [|done]. destruct r as [v|e].
  - destruct Had as (-> & h2 & evicted & o' & (Hid2 & Htab2 & _) & Hplan & Hq & Hdelta & ->).
    assert (pool_wf s (oh_id h2) (oh_owner h2)) as Hwf2 by (rewrite Hid2; by eapply pool_wf_tables).
    assert (reserved_for (oh_id h2) (oh_owner h2) (ck_txid c) (ck_inputs c) token) as Hfor2.
    { destruct token; [|done]. destruct Hfor as [? ?]. split; [done|]. rewrite Hid2. by eapply pending_tables. }
    pose proof (apply_delta_wf w s (oh_id h2) (oh_owner h2) (ck_txid c) (new_entry c tx_bytes source) token evicted Hw Hwf2 Hn Hr
      ltac:(cbn; lia) Hq Hfor2 Hplan) as Hap. rewrite Hdelta in Hap. destruct Hap as (Hwf' & Hrep & _).
    split_and!; [cbn; congruence|exact Hwf'|done|by exists evicted].
  - destruct Had as (h2 & Hc2 & -> & ->). pose proof Hc2 as (Hid2 & Htab2 & _).
    assert (pool_wf s (oh_id h2) (oh_owner h2)) as Hwf2 by (rewrite Hid2; by eapply pool_wf_tables).
    assert (oh_id (given_back token h2) = oh_id h2 ∧ pool_wf s (oh_id (given_back token h2)) (oh_owner (given_back token h2))) as [Hid3 Hwf3].
    { destruct token as [token|]; [|done]. destruct Hfor as [_ Hpend]. apply (pending_tables _ _ (oh_owner h2)) in Hpend; [|done]. rewrite <- Hid2 in Hpend.
      destruct (release_keeps s _ _ _ h2 Hpend Hwf2) as (? & _ & ? & _). done. }
    split_and!; [congruence|exact Hwf3|done|]. by apply Hback.
Qed.
End admission.
