(* ===== verification/PoolCalls.v ===== *)
(** * The calls of the transaction pool ([txpool.rs])

    What every call does to the pool and to the owner it shares with the engine,
    and what holds of a pool after any number of calls: it is within its limits,
    and no two of its transactions spend the same outpoint. *)

From S2P Require Import Prelude Bytes BTree Errors Constants Crypto WireRead CompactSize TxWire TxCodec Block Merkle Pow Subsidy.
From S2P Require Import Vault Suites Verify SigCache WorkerPool SigQueue Sighash Spend Htlc Stealth CovenantGenesis.
From S2P Require Import UtxoApply UtxoRules UtxoDeferred UtxoLedger BlockParse BlockWeight BlockDa BlockBasic ConnectBlock.
From S2P Require Import NodeText Uint128 ChainState PendingOwner BlockStore AtomicWrite StoreFiles Headers PoolPolicy PoolOrder TxPool PoolSafe PoolEvict PoolAdmit.

Section calls.
Context `{HS : Sha3} `{HO : OpenSsl} `{HX : Hex}.
Implicit Types (w : PoolWorld) (s : TxPool) (h : PendingOutpointOwnerHandle) (o : PendingOutpointOwner).

(** ** Admission *)

Definition ledger_fits (chain_state : ChainState) : Prop := map_Forall (λ _ e, is_u 64 (ue_value e)) (ch_utxos chain_state).

(** What the checks let through has a fee and a weight that can be compared. *)
Lemma checked_rated cfg tx_bytes chain_state block_store chain_id c : len tx_bytes ≤ isize_max → ledger_fits chain_state →
  check_transaction cfg tx_bytes chain_state block_store chain_id = Some (Ok c) → rated (ck_fee c) (ck_weight c).
Proof.
  intros Hlen Hm. unfold check_transaction. destruct (parse_tx tx_bytes) as [[[[tx txid] wtxid] consumed]|] eqn:Hp; cbn [map_err]; run_bind; [|done].
  apply parse_tx_Ok in Hp as (Hv & _); [|done]. destruct (negb _); [done|].
  destruct (tx_weight_and_stats_public tx) as [[[weight da] anchor]|] eqn:Hwt; cbn [map_err]; run_bind; [|done].
  destruct (pool_next_height chain_state) as [next|]; run_bind; [|done]. unfold mbind at 1, option_bind at 1.
  destruct (next_block_mtp block_store next) as [[mtp|]|]; [|done..]. run_bind.
  destruct (cheap_fee_floor_precheck _ _ _ _ _ _ _) as [[]|]; [|done]. run_bind. destruct (simplicity_gate _ _ _ _ _) as [[]|]; [|done]. run_bind.
  destruct (apply_update _ _ _ _ _ _ _ _ _) as [[m summary]|] eqn:Hap; cbn [map_err]; run_bind; [|done].
  destruct (apply_post_consensus_policy_without_floor _ _ _ _ _ _) as [[]|]; [|done]. run_bind. intros [= <-]. cbn [ck_fee ck_weight].
  apply (policy_fee_agrees (mkUtxoApplyImplContext tx txid _ next mtp mtp chain_id _ _)) in Hap as [_ Hf]; [|exact Hv|exact Hm].
  unfold tx_weight_and_stats_public in Hwt. apply weight_and_stats_Ok in Hwt as (-> & Hw & _); [|done].
  split; [exact Hf|]. split; [|exact Hw]. unfold tw, full_weight, WITNESS_DISCOUNT_DIVISOR. pose proof (enc_tx_core_length tx).
  pose proof (sum_of_nonneg (cost_at 0 None None) (witness tx) (λ it, cost_at_nonneg 0 None None it ltac:(intros ? ? ? [=]))). lia.
Qed.

Lemma set_owner_wf owner s id o : pool_wf s id o → pool_wf (set_pool_owner owner s) id o.
Proof.
  intros ([H1 H2 H3 H4 H5 H6 H7 H8 H9 H10] & Hw & Hh). split; [|split; [exact Hw|exact Hh]].
  split; [exact H1|exact H2|exact H3|exact H4|exact H5|exact H6|exact H7|exact H8|exact H9|exact H10].
Qed.

(** The owner that a call works with. *)
Definition call_owner w chain_state s : PendingOutpointOwnerHandle := default (new_owner (pw_fresh w) (tip_from_chain_state chain_state)) (tp_owner s).

Lemma call_owner_wf w chain_state s : pool_inv s → pool_wf s (oh_id (call_owner w chain_state s)) (oh_owner (call_owner w chain_state s)).
Proof.
  unfold pool_inv, call_owner. destruct (tp_owner s) as [h|]; cbn [default from_option id]; [done|].
  intros [_ H]. apply H. apply new_owner_wf.
Qed.

(** The outcome of an admission. *)
Definition admission_outcome w (cfg : TxPoolConfig) tx_bytes chain_state block_store chain_id source s (r : ares (bytes * RelayTxMetadata)) s' : Prop :=
  match r with
  | Ok (txid, metadata) => ∃ c evicted, check_transaction cfg tx_bytes chain_state block_store chain_id = Some (Ok c)
      ∧ txid = ck_txid c ∧ metadata = mkRelayTxMetadata (ck_fee c) (len tx_bytes) ∧ replaces s txid (new_entry c tx_bytes source) evicted s'
  | Err _ => ∃ h', s' = set_pool_owner (Some h') s
      ∧ (oh_poisoned h' = false → po_by_outpoint (oh_owner h') = po_by_outpoint (oh_owner (call_owner w chain_state s)))
  end.

Lemma replaces_owner s txid e evicted s' owner : replaces s txid e evicted s' → replaces s txid e evicted (set_pool_owner owner s').
Proof. intros [H1 H2 H3 H4 H5 H6]. split; [exact H1|exact H2|exact H3|exact H4|exact H5|exact H6]. Qed.

Lemma add_tx_cases w tx_bytes chain_state block_store chain_id source s r s' : pool_world w → ledger_fits chain_state → len tx_bytes ≤ isize_max →
  pool_inv s → add_tx_with_source w tx_bytes chain_state block_store chain_id source s = Some (r, s') →
  pool_inv s' ∧ admission_outcome w (tp_cfg s) tx_bytes chain_state block_store chain_id source s r s'.
Proof.
  intros Hw Hm Hlen Hinv. pose proof (call_owner_wf w chain_state s Hinv) as Hwf. unfold add_tx_with_source. fold (call_owner w chain_state s).
  assert (∃ r0, pool_admission_context w chain_state (s, call_owner w chain_state s) = (r0, (s, pw_between w 0%nat (call_owner w chain_state s)))) as [r0 ->].
  { unfold pool_admission_context, on_owner, handle_admission_context, with_lock, mbind, st_bind. generalize (pw_between w 0%nat (call_owner w chain_state s)).
    intros [id p o]. cbn. destruct p; cbn; [by eexists|]. destruct (admission_context o); cbn; [|by eexists]. case_match; by eexists. }
  pose proof (between_calm w 0%nat (call_owner w chain_state s) Hw) as (Hid & Htab & _). set (h := pw_between w 0%nat _) in *. clearbody h.
  assert (pool_wf s (oh_id h) (oh_owner h)) as Hwf0 by (rewrite Hid; by eapply pool_wf_tables).
  destruct r0 as [context|e].
  2: { intros [= <- <-]. split; [by apply set_owner_wf|]. exists h. split; [done|]. intros _. by destruct Htab as (-> & _). }
  unfold mbind at 1, option_bind at 1. destruct (check_transaction _ _ _ _ _) as [[c|e]|] eqn:Hck; [| |done].
  2: { intros [= <- <-]. split; [by apply set_owner_wf|]. exists h. split; [done|]. intros _. by destruct Htab as (-> & _). }
  pose proof (checked_rated _ _ _ _ _ _ Hlen Hm Hck) as Hr. unfold mbind, st_bind, lift.
  destruct (admit_checked w context c tx_bytes source (s, h)) as [r1 [s1 h1]] eqn:Had. intros [= <- <-].
  destruct (admit_checked_cases _ _ _ _ _ _ _ _ _ _ Hw Hwf0 Hr Had) as (Hid1 & Hwf1 & Hr1). split; [by apply set_owner_wf|].
  destruct r1 as [v|e].
  - destruct Hr1 as (-> & evicted & Hrep). exists c, evicted. split_and!; [done..|]. by apply replaces_owner.
  - destruct Hr1 as [-> Hrows]. exists h1. split; [done|]. intros Hnp. rewrite Hrows by done. by destruct Htab as (-> & _).
Qed.

(** ** Removal *)

Lemma live_txids_spec s txids i : i ∈ live_txids s txids ↔ i ∈ txids ∧ is_Some (tp_txs s !! i).
Proof.
  unfold live_txids. set (f := λ live txid, if _ && _ then live ++ [txid] else live).
  assert (∀ acc x, i ∈ f acc x ↔ i ∈ acc ∨ i = x ∧ is_Some (tp_txs s !! x)) as Hf.
  { intros acc x. unfold f. do 2 case_bool_decide; cbn [andb negb]; rewrite ?elem_of_app, ?list_elem_of_singleton; naive_solver. }
  assert (∀ l acc, i ∈ foldl f acc l ↔ i ∈ acc ∨ i ∈ l ∧ is_Some (tp_txs s !! i)) as H; [|rewrite H; set_solver].
  intros l. induction l as [|x l IH]; intros acc; cbn [foldl]; [set_solver|]. rewrite IH, Hf, elem_of_cons. naive_solver.
Qed.

(** An entry that holds its reservation passes the check before a removal. *)
Lemma held_valid s id o txid e : pool_wf s id o → tp_txs s !! txid = Some e →
  validate_standard_entry id o txid (te_inputs e) (tp_owner_tokens s !! txid) true = Ok ().
Proof.
  intros (Hb & Hw & Hh) He. unfold validate_standard_entry. case_bool_decide as Hin.
  - destruct (tp_owner_tokens s !! txid) as [t|] eqn:Ht; [|done]. destruct (bk_tokens _ Hb _ _ Ht) as (e' & He' & Hne). congruence.
  - destruct (Hh _ _ He Hin) as (t & -> & Ho & g & Hg). cbn [ok_or]. run_bind. unfold claim. rewrite Ho. cbn [negb].
    destruct (wf_claim _ Hw _ _ Hg) as ([_ Hs] & _ & _). replace (po_token_high_water o <? tk_sequence t) with false by lia. run_bind.
    rewrite Hg. cbn [ok_or]. run_bind. rewrite !bool_decide_eq_true_2 by done. cbn. by rewrite <- (check_rows_ok o _ _ Hw Hg).
Qed.

(** A removal takes out what it names, unless the owner's lock is poisoned. *)
Definition removes s (txids : list bytes) s' : Prop :=
  ∀ i, tp_txs s' !! i = if decide (i ∈ txids) then None else tp_txs s !! i.
Definition poisoned_pool s : Prop := ∃ h, tp_owner s = Some h ∧ oh_poisoned h = true.
Definition removal_outcome s (txids : list bytes) s' : Prop := removes s txids s' ∨ poisoned_pool s' ∧ tp_txs s' = tp_txs s.

Definition kept_limits s s' : Prop := tp_cfg s' = tp_cfg s ∧ tp_max_transactions s' = tp_max_transactions s ∧ tp_max_bytes s' = tp_max_bytes s.

Lemma remove_exact w txids s : pool_world w → pool_inv s →
  pool_inv (remove_entries_exact w txids s) ∧ removal_outcome s txids (remove_entries_exact w txids s) ∧ kept_limits s (remove_entries_exact w txids s).
Proof.
  intros Hw Hinv. unfold remove_entries_exact. pose proof (live_txids_spec s txids) as Hlive.
  case_bool_decide as Hnil.
  { split; [done|]. split; [|done]. left. intros i. case_decide as Hi; [|done]. destruct (tp_txs s !! i) eqn:He; [|done].
    assert (i ∈ live_txids s txids) as Hin by (apply Hlive; split; [done|]; rewrite He; by eexists). by rewrite Hnil, elem_of_nil in Hin. }
  unfold pool_inv in Hinv |- *. destruct (tp_owner s) as [h|] eqn:Hown.
  2: { destruct Hinv as [Hempty _]. destruct Hnil. destruct (live_txids s txids) as [|i l] eqn:El; [done|].
       destruct (proj1 (Hlive i)) as [_ [e He]]; [by left|]. by rewrite Hempty, lookup_empty in He. }
  destruct (between_calm w 0%nat h Hw) as (Hid & Htab & _). assert (pool_wf s (oh_id (pw_between w 0%nat h)) (oh_owner (pw_between w 0%nat h))) as Hwf.
  { rewrite Hid. by eapply pool_wf_tables. }
  destruct (oh_poisoned (pw_between w 0%nat h)) eqn:Hp.
  { split; [by apply set_owner_wf|]. split; [|done]. right. split; [by eexists|done]. }
  rewrite (proj2 (forallb_forall _ _)).
  2: { intros i Hi%list_elem_of_In. apply Hlive in Hi as [_ [e He]]. rewrite He, (held_valid _ _ _ _ _ Hwf He). done. }
  destruct (drop_entries _ s _ (live_txids s txids) Hwf) as [Hwf1 Htxs Hlim _ _ _].
  destruct (foldl drop_entry (s, oh_owner (pw_between w 0%nat h)) (live_txids s txids)) as [s1 o1]. cbn [fst snd] in *.
  destruct (compact_same (set_pool_owner (Some (with_owner (pw_between w 0%nat h) o1)) s1)) as (heap & Hc & _).
  split; [|split].
  - pose proof (compact_wf _ _ _ (set_owner_wf (Some (with_owner (pw_between w 0%nat h) o1)) _ _ _ Hwf1)) as Hwf2.
    rewrite Hc in *. exact Hwf2.
  - left. intros i. rewrite Hc. cbn. rewrite Htxs. case_decide as Hi; [apply Hlive in Hi as [Hi _]; by rewrite decide_True|].
    case_decide as Hi2; [|done]. destruct (tp_txs s !! i) eqn:He; [|done]. destruct Hi. apply Hlive. split; [done|]. by exists t.
  - rewrite Hc. destruct Hlim as (? & _ & ? & ? & _). done.
Qed.

(** What the owner answers for the outpoints. *)
Lemma conflicting_spec outpoints h l : conflicting_txids outpoints h = Some l →
  ∀ i, i ∈ l ↔ ∃ op row, op ∈ outpoints ∧ po_by_outpoint (oh_owner h) !! op = Some row ∧ ro_txid row = i.
Proof.
  unfold conflicting_txids. set (f := λ (conflicting : option (list bytes)) outpoint, conflicting ← conflicting; _).
  assert (∀ ops acc l', foldl f acc ops = Some l' → ∃ l0, acc = Some l0 ∧
    ∀ i, i ∈ l' ↔ i ∈ l0 ∨ ∃ op row, op ∈ ops ∧ po_by_outpoint (oh_owner h) !! op = Some row ∧ ro_txid row = i) as H.
  2: { intros (l0 & [= <-] & Hl)%H i. rewrite Hl. set_solver. }
  intros ops. induction ops as [|op ops IH]; intros acc l'; cbn [foldl].
  { intros ->. exists l'. split; [done|]. set_solver. }
  intros (l1 & Hf & Hl)%IH. destruct acc as [l0|]; [|done]. exists l0. split; [done|]. intros i. rewrite Hl.
  assert (i ∈ l1 ↔ i ∈ l0 ∨ ∃ row, po_by_outpoint (oh_owner h) !! op = Some row ∧ ro_txid row = i) as ->; [|set_solver].
  clear Hl IH. revert Hf. unfold f. cbn. unfold handle_txid_for_outpoint, with_lock. destruct (oh_poisoned h); cbn; [done|].
  destruct (po_by_outpoint (oh_owner h) !! op) as [row|] eqn:Hr; cbn.
  - case_bool_decide as Hin; intros [= <-]; rewrite ?elem_of_app, ?list_elem_of_singleton; naive_solver.
  - intros [= <-]. naive_solver.
Qed.
Lemma conflicting_None outpoints h : conflicting_txids outpoints h = None → oh_poisoned h = true.
Proof.
  unfold conflicting_txids. set (f := λ (conflicting : option (list bytes)) outpoint, conflicting ← conflicting; _).
  destruct (oh_poisoned h) eqn:Hp; [done|]. assert (∀ ops l, is_Some (foldl f (Some l) ops)) as H.
  2: { intros E. destruct (H outpoints []) as [? H']. congruence. }
  intros ops. induction ops as [|op ops IH]; intros l; cbn [foldl]; [done|]. unfold f at 2. cbn. unfold handle_txid_for_outpoint, with_lock. rewrite Hp. cbn.
  destruct (po_by_outpoint (oh_owner h) !! op); cbn; [|apply IH]. case_bool_decide; apply IH.
Qed.

(** The spent outpoints are free afterwards, and what goes held one of them. *)
Definition clears_outpoints s (outpoints : list Outpoint) s' : Prop :=
  (∀ i e op, tp_txs s' !! i = Some e → op ∈ te_inputs e → op ∈ outpoints → False)
  ∧ ∀ i e, tp_txs s !! i = Some e → tp_txs s' !! i = Some e ∨ tp_txs s' !! i = None ∧ ∃ op h row, op ∈ outpoints ∧ tp_owner s = Some h
      ∧ po_by_outpoint (oh_owner h) !! op = Some row ∧ ro_txid row = i.

Lemma holds_row s id o i e op : pool_wf s id o → tp_txs s !! i = Some e → op ∈ te_inputs e → ∃ q, po_by_outpoint o !! op = Some (mkRow q i).
Proof.
  intros (_ & Hw & Hh) He Hop. destruct (Hh i e He) as (t & _ & _ & g & Hg); [by intros E; rewrite E in Hop; apply elem_of_nil in Hop|].
  destruct (wf_claim _ Hw _ _ Hg) as (_ & _ & Hrow). exists (tk_sequence t). by apply (Hrow op).
Qed.

Lemma remove_conflicting_cases w outpoints s : pool_world w → pool_inv s →
  pool_inv (remove_conflicting_outpoints w outpoints s) ∧ kept_limits s (remove_conflicting_outpoints w outpoints s)
  ∧ (∀ i e, tp_txs (remove_conflicting_outpoints w outpoints s) !! i = Some e → tp_txs s !! i = Some e)
  ∧ (poisoned_pool (remove_conflicting_outpoints w outpoints s) ∨ clears_outpoints s outpoints (remove_conflicting_outpoints w outpoints s)).
Proof.
  intros Hw Hinv. unfold remove_conflicting_outpoints. pose proof Hinv as Hinv0. unfold pool_inv in Hinv0. destruct (tp_owner s) as [h|] eqn:Hown.
  2: { destruct Hinv0 as [Hempty _]. split_and!; try done. right. split; intros i e; by rewrite Hempty, lookup_empty. }
  destruct (between_calm w 1%nat h Hw) as (Hid & Htab & _). set (h1 := pw_between w 1%nat h) in *. clearbody h1.
  assert (pool_wf s (oh_id h1) (oh_owner h1)) as Hwf by (rewrite Hid; by eapply pool_wf_tables).
  assert (pool_inv (set_pool_owner (Some h1) s)) as Hinv1 by by apply set_owner_wf.
  destruct (conflicting_txids outpoints h1) as [l|] eqn:Hl.
  2: { split; [done|]. split; [done|]. split; [done|]. left. exists h1. split; [done|]. by eapply conflicting_None. }
  destruct (remove_exact w l (set_pool_owner (Some h1) s) Hw Hinv1) as (Hinv2 & Hout & Hlim). unfold evict_txids.
  set (s' := remove_entries_exact w l (set_pool_owner (Some h1) s)) in *. clearbody s'. split; [done|]. split; [done|].
  destruct Hout as [Hrem|[Hp Hsame]]; [|split; [intros i e; rewrite Hsame; done|by left]]. unfold removes in Hrem. cbn in Hrem.
  split; [intros i e; rewrite Hrem; by case_decide|]. right. pose proof (conflicting_spec _ _ _ Hl) as Hspec. split.
  - intros i e op He Hop Hin. rewrite Hrem in He. case_decide as Hi; [done|]. destruct (holds_row _ _ _ _ _ _ Hwf He Hop) as [q Hq].
    apply Hi, Hspec. by exists op, (mkRow q i).
  - intros i e He. rewrite Hrem. case_decide as Hi; [|by left]. right. split; [done|]. apply Hspec in Hi as (op & row & Hop & Hrow & Hrt).
    exists op, h, row. destruct Htab as (Hr & _). rewrite Hr in Hrow. done.
Qed.

(** ** Every pool that the calls reach *)

Inductive pool_call s : TxPool → Prop :=
  | call_add w tx_bytes chain_state block_store chain_id source r s' : pool_world w → ledger_fits chain_state → len tx_bytes ≤ isize_max →
      add_tx_with_source w tx_bytes chain_state block_store chain_id source s = Some (r, s') → pool_call s s'
  | call_evict w txids : pool_world w → pool_call s (evict_txids w txids s)
  | call_conflicts w outpoints : pool_world w → pool_call s (remove_conflicting_outpoints w outpoints s).
(** A new pool, on its own or with an owner that others may already use. *)
Definition pool_start s : Prop := ∃ cfg, s = new_with_config cfg ∨ ∃ h, reachable h ∧ s = new_bound_with_config cfg h.
Definition pool_reachable s : Prop := ∃ s0, pool_start s0 ∧ rtc pool_call s0 s.

Definition default_limits s : Prop := tp_max_transactions s = MAX_TX_POOL_TRANSACTIONS ∧ tp_max_bytes s = DEFAULT_TX_POOL_MAX_BYTES.

Lemma new_pool_wf cfg owner id o : owner_wf o → pool_wf (new_with_owner cfg owner) id o.
Proof.
  intros Hw. split; [|split; [done|by intros i e He; cbn in He; rewrite lookup_empty in He]].
  split; cbn.
  - intros i e. by rewrite lookup_empty.
  - intros i. by rewrite !lookup_empty.
  - intros i j q. by rewrite lookup_empty.
  - intros i q. by rewrite lookup_empty.
  - by unfold u64_max.
  - intros i e q. by rewrite lookup_empty.
  - done.
  - by rewrite map_size_empty.
  - by unfold DEFAULT_TX_POOL_MAX_BYTES, usize_max.
  - intros i t. by rewrite lookup_empty.
Qed.

Lemma pool_call_keeps s s' : pool_call s s' → pool_inv s ∧ default_limits s → pool_inv s' ∧ default_limits s'.
Proof.
  intros Hc [Hinv Hl]. destruct Hc as [w tx_bytes chain_state block_store chain_id source r s' Hw Hm Hlen Hadd|w txids Hw|w outpoints Hw].
  - destruct (add_tx_cases _ _ _ _ _ _ _ _ _ Hw Hm Hlen Hinv Hadd) as [Hinv' Hout]. split; [done|]. unfold default_limits in *.
    destruct r as [[txid metadata]|e].
    + destruct Hout as (c & evicted & _ & _ & _ & Hrep). destruct (rp_limits _ _ _ _ _ Hrep) as (_ & -> & ->). exact Hl.
    + destruct Hout as (h' & -> & _). exact Hl.
  - destruct (remove_exact w txids s Hw Hinv) as (Hinv' & _ & (_ & H1 & H2)). split; [done|]. unfold default_limits, evict_txids. by rewrite H1, H2.
  - destruct (remove_conflicting_cases w outpoints s Hw Hinv) as (Hinv' & (_ & H1 & H2) & _). split; [done|]. unfold default_limits. by rewrite H1, H2.
Qed.
Lemma reachable_inv s : pool_reachable s → pool_inv s ∧ default_limits s.
Proof.
  intros (s0 & (cfg & Hstart) & Hsteps). assert (pool_inv s0 ∧ default_limits s0) as H0.
  { destruct Hstart as [->|(h & Hh & ->)]; (split; [|done]).
    - split; [done|]. intros id o. apply new_pool_wf.
    - apply new_pool_wf. by apply reachable_wf. }
  clear Hstart. induction Hsteps as [s|s1 s2 s3 Hc _ IH]; [done|]. apply IH. by eapply pool_call_keeps.
Qed.

(** C14: the pool never holds a double spend and never outgrows its limits. After any calls on a new pool, whatever the
    engine does to the shared owner in between, every outpoint that an entry spends is reserved for that entry with the
    owner, no two entries spend the same outpoint, and the number of entries and the bytes they take are counted exactly
    and within the limits. *)
Theorem pool_exclusive s : pool_reachable s →
  (∀ i e op, tp_txs s !! i = Some e → op ∈ te_inputs e →
     ∃ h q, tp_owner s = Some h ∧ po_by_outpoint (oh_owner h) !! op = Some (mkRow q i)) ∧
  (∀ i e j e' op, tp_txs s !! i = Some e → tp_txs s !! j = Some e' → op ∈ te_inputs e → op ∈ te_inputs e' → i = j) ∧
  pool_len s ≤ MAX_TX_POOL_TRANSACTIONS ∧ tp_used_bytes s = pool_bytes (tp_txs s) ∧ tp_used_bytes s ≤ DEFAULT_TX_POOL_MAX_BYTES.
Proof.
  intros [Hinv [Hl1 Hl2]]%reachable_inv. unfold pool_inv in Hinv. rewrite <- Hl1, <- Hl2.
  destruct (tp_owner s) as [h|].
  - pose proof Hinv as (Hb & _ & _). split_and!; [| |apply (bk_count _ Hb)|apply (bk_used _ Hb)|apply (bk_bytes _ Hb)].
    + intros i e op He Hop. destruct (holds_row _ _ _ _ _ _ Hinv He Hop) as [q Hq]. by exists h, q.
    + intros i e j e' op He He' Hop Hop'. destruct (holds_row _ _ _ _ _ _ Hinv He Hop) as [q Hq].
      destruct (holds_row _ _ _ _ _ _ Hinv He' Hop') as [q' Hq']. rewrite Hq in Hq'. by injection Hq' as _ ->.
  - destruct Hinv as [Hempty Hinv]. destruct (Hinv 1%positive (oh_owner (new_with_context 1 (mkAdmissionContext (mkPendingOutpointTip false 0 []) 0))) (new_owner_wf _ _)) as (Hb & _ & _).
    split_and!; [| |apply (bk_count _ Hb)|apply (bk_used _ Hb)|apply (bk_bytes _ Hb)]; intros i e; by rewrite Hempty, lookup_empty.
Qed.

(** C15: an admission does what it reports. On an error the entries and their books are as before, and unless the owner's
    lock is poisoned the outpoints reserved are those of before the call. A transaction that is accepted passed the checks, was not
    there, and is now in the pool with the fee and weight they found; the entries it replaces were all there, each is
    worse, in one total order, than the new one and than every entry that stays, and there are none if it fits anyway. *)
Theorem pool_admission w tx_bytes chain_state block_store chain_id source s r s' : pool_world w → ledger_fits chain_state →
  len tx_bytes ≤ isize_max → pool_reachable s → add_tx_with_source w tx_bytes chain_state block_store chain_id source s = Some (r, s') →
  match r with
  | Ok (txid, metadata) => ∃ c evicted, check_transaction (tp_cfg s) tx_bytes chain_state block_store chain_id = Some (Ok c)
      ∧ txid = ck_txid c ∧ metadata = mkRelayTxMetadata (ck_fee c) (len tx_bytes) ∧ replaces s txid (new_entry c tx_bytes source) evicted s'
  | Err _ => ∃ h', s' = set_pool_owner (Some h') s
      ∧ (oh_poisoned h' = false → po_by_outpoint (oh_owner h') = po_by_outpoint (oh_owner (call_owner w chain_state s)))
  end.
Proof. intros Hw Hm Hlen [Hinv _]%reachable_inv Hadd. by apply (add_tx_cases _ _ _ _ _ _ _ _ _ Hw Hm Hlen Hinv). Qed.

(** C16: a block leaves no conflict behind. Once the inputs of a block's transactions are removed, unless the owner's lock
    is poisoned no entry of the pool spends one of them; the entries that stay are as before, and an entry goes only if
    one of the outpoints was reserved in its name. *)
Theorem pool_clears_conflicts w txs s : pool_world w → pool_reachable s →
  (∀ i e, tp_txs (remove_conflicting_inputs w txs s) !! i = Some e → tp_txs s !! i = Some e) ∧
  (poisoned_pool (remove_conflicting_inputs w txs s) ∨
   clears_outpoints s (txs ≫= λ tx, outpoint_of <$> inputs tx) (remove_conflicting_inputs w txs s)).
Proof. intros Hw [Hinv _]%reachable_inv. by apply remove_conflicting_cases. Qed.
End calls.

(** ** Witnesses: a spend is admitted, and goes when a block spends its input *)

Definition demo_pool_tx : bytes := match marshal_tx spend_tx with Ok b => b | Err _ => [] end.
Definition demo_pool_utxo : UtxoMap :=
  <[mkOutpoint (replicate 32 x07) 1 := mkUtxoEntry 8000 COV_TYPE_P2PK (x01 :: demo_key_id) 5 true]> spend_utxo.
Definition demo_pool_state : ChainState := mkChainState true 499 (replicate 32 x0c) 0 demo_pool_utxo.
Abbreviation demo_admit :=
  (add_tx_with_source (HS := toy_sha3) (HO := toy_openssl) (HX := toy_hex) (quiet_world 1) demo_pool_tx demo_pool_state None demo_chain SourceLocal
    (new_with_config TxPoolConfig_default)).
Definition pool_after (r : option (ares (bytes * RelayTxMetadata) * TxPool)) (s : TxPool) : TxPool := default s (snd <$> r).
Definition demo_pool : TxPool := pool_after demo_admit (new_with_config TxPoolConfig_default).

Lemma quiet_world_ok id : pool_world (quiet_world id).
Proof. by split. Qed.
Lemma demo_ledger_fits : ledger_fits demo_pool_state.
Proof. apply map_Forall_insert_2; [split; by vm_compute|exact spend_utxo_fits]. Qed.
Lemma demo_tx_len : len demo_pool_tx ≤ isize_max.
Proof. vm_compute. discriminate. Qed.
Lemma demo_start : pool_reachable (HS := toy_sha3) (HO := toy_openssl) (HX := toy_hex) (new_with_config TxPoolConfig_default).
Proof. exists (new_with_config TxPoolConfig_default). split; [|done]. exists TxPoolConfig_default. by left. Qed.
Lemma demo_admit_Ok : ∃ v, demo_admit = Some (Ok v, demo_pool).
Proof.
  assert (match demo_admit with Some (Ok _, _) => true | _ => false end = true) as H by (vm_compute; reflexivity).
  unfold demo_pool. destruct demo_admit as [[[v|e] s]|]; [exists v; reflexivity|discriminate H..].
Qed.
Lemma demo_pool_reachable : pool_reachable (HS := toy_sha3) (HO := toy_openssl) (HX := toy_hex) demo_pool.
Proof.
  destruct demo_start as (s0 & Hs0 & Hsteps). exists s0. split; [exact Hs0|]. eapply rtc_r; [exact Hsteps|].
  destruct demo_admit_Ok as [v Hv]. exact (call_add (HS := toy_sha3) (HO := toy_openssl) (HX := toy_hex) _ (quiet_world 1) demo_pool_tx demo_pool_state None demo_chain SourceLocal (Ok v) demo_pool
    (quiet_world_ok 1) demo_ledger_fits demo_tx_len Hv).
Qed.

Lemma pool_exclusive_witness : pool_len demo_pool = 1 ∧ tp_used_bytes demo_pool = pool_bytes (tp_txs demo_pool).
Proof. split; [vm_compute; reflexivity|]. apply (pool_exclusive (HS := toy_sha3) (HO := toy_openssl) (HX := toy_hex) demo_pool demo_pool_reachable). Defined.

Lemma pool_admission_witness : ∃ txid metadata c evicted, demo_admit = Some (Ok (txid, metadata), demo_pool) ∧ txid = ck_txid c ∧
  replaces (new_with_config TxPoolConfig_default) txid (new_entry c demo_pool_tx SourceLocal) evicted demo_pool.
Proof.
  destruct demo_admit_Ok as [[txid metadata] Hv].
  destruct (pool_admission (HS := toy_sha3) (HO := toy_openssl) (HX := toy_hex) (quiet_world 1) demo_pool_tx demo_pool_state None demo_chain SourceLocal
    (new_with_config TxPoolConfig_default) _ _ (quiet_world_ok 1) demo_ledger_fits demo_tx_len demo_start Hv) as (c & evicted & _ & Ht & _ & Hr).
  exists txid, metadata, c, evicted. split; [exact Hv|]. split; [exact Ht|exact Hr].
Defined.

Lemma pool_clears_conflicts_witness :
  pool_len (remove_conflicting_inputs (quiet_world 1) [spend_tx] demo_pool) = 0 ∧
  (poisoned_pool (remove_conflicting_inputs (quiet_world 1) [spend_tx] demo_pool) ∨
   clears_outpoints demo_pool ([spend_tx] ≫= λ tx, outpoint_of <$> inputs tx)
     (remove_conflicting_inputs (quiet_world 1) [spend_tx] demo_pool)).
Proof.
  split; [vm_compute; reflexivity|].
  apply (pool_clears_conflicts (HS := toy_sha3) (HO := toy_openssl) (HX := toy_hex) (quiet_world 1) [spend_tx] demo_pool (quiet_world_ok 1) demo_pool_reachable).
Defined.
