(* ===== verification/TxDepGraph.v ===== *)
(** * Dependencies between the transactions of a block ([tx_dep_graph.rs], [utxo_snapshot.rs])

    A transaction depends on an earlier one whose output it spends, or which is
    the first to spend an outpoint that it spends too.  The graph assigns
    levels along the longest chain of dependencies, and an order of the
    transactions by level and id. *)

From S2P Require Import Prelude Bytes BTree Errors Constants TxWire Vault Spend UtxoApply.

(** Positions in the block are [nat]. *)
(* rust: tx_dep_graph.rs 10-19 TxValidationContext *)
Record TxValidationContext : Type := mkTxValidationContext {
  tvc_tx_index : nat; tvc_txid : bytes; tvc_input_outpoints : list Outpoint }.

(* rust: tx_dep_graph.rs 24-30 TxDepEdgeKind *)
Inductive TxDepEdgeKind : Type := ParentChild | SamePrevout.
#[export] Instance TxDepEdgeKind_eq_dec : EqDecision TxDepEdgeKind.
Proof. solve_decision. Defined.
Definition edge_kind_value (k : TxDepEdgeKind) : nat := match k with ParentChild => 0 | SamePrevout => 1 end.

(* rust: tx_dep_graph.rs 34-38 TxDepEdge *)
Record TxDepEdge : Type := mkTxDepEdge { de_producer : nat; de_consumer : nat; de_kind : TxDepEdgeKind }.

(* rust: tx_dep_graph.rs 42-48 TxDepGraph *)
Record TxDepGraph : Type := mkTxDepGraph {
  dg_tx_count : nat; dg_edges : list TxDepEdge; dg_levels : list nat; dg_level_order : list nat; dg_max_level : nat }.

(* rust: tx_dep_graph.rs 50-52 tx_dep_edge_sort_key *)
Definition edge_le (a b : TxDepEdge) : Prop :=
  (de_consumer a < de_consumer b ∨ de_consumer a = de_consumer b ∧
    (de_producer a < de_producer b ∨ de_producer a = de_producer b ∧ edge_kind_value (de_kind a) ≤ edge_kind_value (de_kind b)))%nat.
#[export] Instance edge_le_dec : RelDecision edge_le.
Proof. intros a b. unfold edge_le. apply _. Defined.

(* rust: tx_dep_graph.rs 54-56 sort_tx_dep_edges *)
Definition sort_tx_dep_edges (edges : list TxDepEdge) : list TxDepEdge := merge_sort edge_le edges.

(** [None] is an index out of range, a panic. *)
(* rust: tx_dep_graph.rs 66-68 compute_tx_dep_levels *)
Definition raise_level (levels : list nat) (edge : TxDepEdge) : option (list nat) :=
  consumer ← levels !! de_consumer edge;
  producer ← levels !! de_producer edge;
  Some (<[de_consumer edge := Nat.max consumer (producer + 1)]> levels).
(* rust: tx_dep_graph.rs 58-71 compute_tx_dep_levels *)
Definition compute_tx_dep_levels (tx_count : nat) (edges : list TxDepEdge) : option (list nat * nat) :=
  levels ← foldl (λ levels edge, levels ← levels; raise_level levels edge) (Some (replicate tx_count 0%nat)) edges;
  Some (levels, max_list levels).

(** By level, then by id; the sort is stable, so then by position. *)
(* rust: tx_dep_graph.rs 73-79 tx_dep_level_order_key *)
Definition level_key_le (a b : nat * bytes * nat) : Prop :=
  (a.1.1 < b.1.1)%nat ∨ a.1.1 = b.1.1 ∧ (bytes_cmp a.1.2 b.1.2 = Lt ∨ a.1.2 = b.1.2 ∧ (a.2 ≤ b.2)%nat).
#[export] Instance level_key_le_dec : RelDecision level_key_le.
Proof. intros a b. unfold level_key_le. apply _. Defined.

(* rust: tx_dep_graph.rs 81-90 compute_tx_dep_level_order *)
Definition compute_tx_dep_level_order (contexts : list TxValidationContext) (levels : list nat) : list nat :=
  (merge_sort level_key_le (imap (λ idx p, (p.1, tvc_txid p.2, idx)) (zip levels contexts))).*2.

(* rust: tx_dep_graph.rs 92-98 txid_index *)
Definition txid_index (contexts : list TxValidationContext) : gmap bytes nat :=
  foldl (λ m p, <[tvc_txid p.2 := p.1]> m) ∅ (imap pair contexts).

(* rust: tx_dep_graph.rs 100-111 parent_child_edge *)
Definition parent_child_edge (txid_to_idx : gmap bytes nat) (consumer_idx : nat) (outpoint : Outpoint) : option TxDepEdge :=
  producer_idx ← txid_to_idx !! op_txid outpoint;
  if decide (producer_idx < consumer_idx)%nat then Some (mkTxDepEdge producer_idx consumer_idx ParentChild) else None.

(** The first consumer of each outpoint, and the edges. *)
(* rust: tx_dep_graph.rs 113-137 push_same_prevout_edge *)
Definition push_same_prevout_edge (s : gmap Outpoint nat * list TxDepEdge) (consumer_idx : nat) (outpoint : Outpoint) :
    gmap Outpoint nat * list TxDepEdge :=
  let '(first, edges) := s in
  match first !! outpoint with
  | Some first_idx =>
      if decide (first_idx = consumer_idx) then (first, edges) else
      let '(p, c) := if decide (first_idx < consumer_idx)%nat then (first_idx, consumer_idx) else (consumer_idx, first_idx) in
      (first, edges ++ [mkTxDepEdge p c SamePrevout])
  | None => (<[outpoint := consumer_idx]> first, edges)
  end.

(** The spends of the block, in the order of the two loops. *)
Definition uses (contexts : list TxValidationContext) : list (nat * Outpoint) :=
  concat (imap (λ i ctx, pair i <$> tvc_input_outpoints ctx) contexts).

(* rust: tx_dep_graph.rs 147-158 collect_tx_dep_edges *)
Definition collect_edge (txid_to_idx : gmap bytes nat) (s : gmap Outpoint nat * list TxDepEdge) (use : nat * Outpoint) :
    gmap Outpoint nat * list TxDepEdge :=
  match parent_child_edge txid_to_idx use.1 use.2 with
  | Some edge => (s.1, s.2 ++ [edge])
  | None => push_same_prevout_edge s use.1 use.2
  end.
(* rust: tx_dep_graph.rs 139-162 collect_tx_dep_edges *)
Definition collect_tx_dep_edges (contexts : list TxValidationContext) (txid_to_idx : gmap bytes nat) : list TxDepEdge :=
  (foldl (collect_edge txid_to_idx) (∅, []) (uses contexts)).2.

(* rust: tx_dep_graph.rs 174-193 build_tx_dep_graph *)
Definition build_tx_dep_graph (contexts : list TxValidationContext) : option TxDepGraph :=
  let tx_count := length contexts in
  if bool_decide (tx_count = 0%nat) then Some (mkTxDepGraph 0 [] [] [] 0) else
  let edges := sort_tx_dep_edges (collect_tx_dep_edges contexts (txid_index contexts)) in
  '(levels, max_level) ← compute_tx_dep_levels tx_count edges;
  Some (mkTxDepGraph tx_count edges levels (compute_tx_dep_level_order contexts levels) max_level).

(** ** Snapshots of the outputs *)

(** The count is the size of the map. *)
(* rust: utxo_snapshot.rs 9-12 UtxoSnapshot *)
Record UtxoSnapshot : Type := mkUtxoSnapshot { us_utxos : UtxoMap; us_count : Z }.
(* rust: utxo_snapshot.rs 15-24 new *)
Definition UtxoSnapshot_new (utxos : option UtxoMap) : UtxoSnapshot :=
  match utxos with Some utxos => mkUtxoSnapshot utxos (Z.of_nat (size utxos)) | None => mkUtxoSnapshot ∅ 0 end.
(* rust: utxo_snapshot.rs 26-28 get *)
Definition snapshot_get (s : UtxoSnapshot) (op : Outpoint) : option UtxoEntry := us_utxos s !! op.
(* rust: utxo_snapshot.rs 30-32 contains *)
Definition snapshot_contains (s : UtxoSnapshot) (op : Outpoint) : bool := bool_decide (is_Some (us_utxos s !! op)).
(* rust: utxo_snapshot.rs 38-51 resolve_inputs *)
Definition snapshot_resolve_inputs (s : UtxoSnapshot) (tx : Tx) : result TxError (list UtxoEntry) :=
  mapM (λ input, ok_or (snapshot_get s (mkOutpoint (prev_txid input) (prev_vout input)))
                   (mkTxError TxErrMissingUtxo "input references missing UTXO")) (inputs tx).
(** The first four bytes of the id, as a big-endian number, select the shard.
    [None] is a division by zero, a panic, for a multiple of 2^32. *)
(* rust: utxo_snapshot.rs 63-73 utxo_snapshot_shard *)
Definition utxo_snapshot_shard (op : Outpoint) (num_shards : Z) : option Z :=
  if num_shards <=? 1 then Some 0 else
  let b i := byte_val (default x00 (op_txid op !! i)) in
  let h := Z.lor (Z.lor (Z.lor (Z.shiftl (b 0%nat) 24) (Z.shiftl (b 1%nat) 16)) (Z.shiftl (b 2%nat) 8)) (b 3%nat) in
  let n := num_shards mod 2 ^ 32 in
  if n =? 0 then None else Some (h mod n).

(** ** The edges *)

Section edges.
Context (producers : gmap bytes nat).
Implicit Types (us : list (nat * Outpoint)) (e : TxDepEdge).

(** The transaction at [c] spends [op], and no earlier one creates it. *)
Definition foreign us (c : nat) (op : Outpoint) : Prop := (c, op) ∈ us ∧ parent_child_edge producers c op = None.
Definition parent_edge us e : Prop := ∃ op, (de_consumer e, op) ∈ us ∧ parent_child_edge producers (de_consumer e) op = Some e.
Definition prevout_edge us e : Prop := de_kind e = SamePrevout ∧ (de_producer e < de_consumer e)%nat ∧
  ∃ op, foreign us (de_consumer e) op ∧ foreign us (de_producer e) op ∧ ∀ q, foreign us q op → (de_producer e ≤ q)%nat.

(** What the loop has collected after the spends [us]. *)
Record collected us (s : gmap Outpoint nat * list TxDepEdge) : Prop := mkCollected {
  cl_first : ∀ op c, s.1 !! op = Some c ↔ foreign us c op ∧ ∀ q, foreign us q op → (c ≤ q)%nat;
  cl_edges : ∀ e, e ∈ s.2 ↔ parent_edge us e ∨ prevout_edge us e }.

Lemma parent_child_consumer c op e : parent_child_edge producers c op = Some e → de_consumer e = c ∧ de_kind e = ParentChild
  ∧ producers !! op_txid op = Some (de_producer e) ∧ (de_producer e < c)%nat.
Proof.
  unfold parent_child_edge. destruct (producers !! op_txid op) as [p|]; [|done]. cbn. destruct (decide _); [|done]. by intros [= <-].
Qed.

Lemma foreign_snoc us c op c' op' : foreign (us ++ [(c, op)]) c' op' ↔
  foreign us c' op' ∨ c' = c ∧ op' = op ∧ parent_child_edge producers c op = None.
Proof.
  unfold foreign. rewrite elem_of_app, list_elem_of_singleton. split.
  - intros [[?|[= -> ->]] ?]; [by left|by right].
  - intros [[? ?]|(-> & -> & ?)]; (split; [|done]); [by left|by right].
Qed.

Lemma parent_edge_snoc us c op e : parent_edge (us ++ [(c, op)]) e ↔ parent_edge us e ∨ parent_child_edge producers c op = Some e.
Proof.
  unfold parent_edge. setoid_rewrite elem_of_app. setoid_rewrite list_elem_of_singleton. split.
  - intros (op' & [?|[= <- ->]] & He); [left; by exists op'|by right].
  - intros [(op' & ? & ?)|He]; [exists op'; split; [by left|done]|]. exists op. pose proof (parent_child_consumer _ _ _ He) as (-> & _).
    split; [by right|done].
Qed.

(** Spends come by rising position. *)
Definition rising us (c : nat) : Prop := ∀ q op, (q, op) ∈ us → (q ≤ c)%nat.

Lemma prevout_edge_snoc us c op e first : rising us c → parent_child_edge producers c op = None →
  (∀ q, foreign us q op → (first ≤ q)%nat) → foreign us first op →
  prevout_edge (us ++ [(c, op)]) e ↔ prevout_edge us e ∨ first ≠ c ∧ e = mkTxDepEdge first c SamePrevout.
Proof.
  intros Hr Hn Hmin Hf. assert (first ≤ c)%nat as Hfc by (eapply Hr, Hf). split.
  - intros (Hk & Hlt & op' & Hc & Hp & Hm). destruct e as [p c' k]. cbn in *. subst k.
    rewrite foreign_snoc in Hc, Hp. setoid_rewrite foreign_snoc in Hm.
    destruct Hc as [Hc|(-> & -> & _)].
    + destruct Hp as [Hp|(-> & -> & _)].
      * left. split; [done|]. split; [done|]. exists op'. split; [done|]. split; [done|]. intros q Hq. apply Hm. by left.
      * exfalso. assert (c' ≤ c)%nat by (eapply Hr, Hc). cbn in *. lia.
    + destruct Hp as [Hp|(-> & _)]; [|lia]. pose proof (Hmin p Hp). pose proof (Hm first (or_introl Hf)).
      assert (p = first) as -> by lia. right. split; [lia|done].
  - intros [(Hk & Hlt & op' & Hc & Hp & Hm)|[Hne ->]].
    + split; [done|]. split; [done|]. exists op'. rewrite !foreign_snoc. split; [by left|]. split; [by left|]. intros q [Hq|(-> & -> & _)]%foreign_snoc.
      * by apply Hm.
      * assert (de_consumer e ≤ c)%nat by (eapply Hr, Hc). lia.
    + split; [done|]. cbn. split; [lia|]. exists op. rewrite !foreign_snoc. split; [by right|]. split; [by left|].
      intros q [Hq|(-> & _)]%foreign_snoc; [by apply Hmin|done].
Qed.

Lemma prevout_edge_same us c op e : rising us c → (parent_child_edge producers c op ≠ None ∨ ∀ q, ¬ foreign us q op) →
  prevout_edge (us ++ [(c, op)]) e ↔ prevout_edge us e.
Proof.
  intros Hr Hn. split.
  - intros (Hk & Hlt & op' & Hc & Hp & Hm). rewrite foreign_snoc in Hc, Hp. setoid_rewrite foreign_snoc in Hm.
    split; [done|]. split; [done|]. exists op'.
    assert (foreign us (de_producer e) op') as Hp'.
    { destruct Hp as [?|(Hpc & -> & Hnone)]; [done|]. destruct Hc as [Hc|(Hcc & _)]; [|lia].
      assert (de_consumer e ≤ c)%nat by (eapply Hr, Hc). lia. }
    split; [|split; [done|intros q Hq; apply Hm; by left]].
    destruct Hc as [?|(-> & -> & Hnone)]; [done|]. destruct Hn as [?|Hn]; [done|]. by destruct (Hn (de_producer e)).
  - intros (Hk & Hlt & op' & Hc & Hp & Hm). split; [done|]. split; [done|]. exists op'. rewrite !foreign_snoc. split; [by left|]. split; [by left|].
    intros q [Hq|(-> & -> & _)]%foreign_snoc; [by apply Hm|]. assert (de_consumer e ≤ c)%nat by (eapply Hr, Hc). lia.
Qed.

Lemma collect_edge_step us s c op : rising us c → collected us s → collected (us ++ [(c, op)]) (collect_edge producers s (c, op)).
Proof.
  intros Hr [Hf He]. unfold collect_edge. cbn [fst snd]. destruct (parent_child_edge producers c op) as [e0|] eqn:Hpc.
  - split; cbn [fst snd].
    + intros op' c'. rewrite Hf. setoid_rewrite foreign_snoc. split; intros [H1 H2].
      * split; [by left|]. intros q [?|(_ & _ & ?)]; [by apply H2|congruence].
      * destruct H1 as [?|(_ & _ & ?)]; [|congruence]. split; [done|]. intros q Hq. apply H2. by left.
    + intros e. rewrite elem_of_app, list_elem_of_singleton, He, parent_edge_snoc, prevout_edge_same by (auto; left; congruence).
      rewrite Hpc. split; [intros [[?|?]| ->]|intros [[?|[= <-]]|?]]; auto.
  - unfold push_same_prevout_edge. destruct s as [first edges]. cbn [fst snd] in *. destruct (first !! op) as [f|] eqn:Hfo.
    + pose proof (proj1 (Hf op f) Hfo) as [Hff Hmin].
      assert (∀ op' c', first !! op' = Some c' ↔ foreign (us ++ [(c, op)]) c' op' ∧ (∀ q, foreign (us ++ [(c, op)]) q op' → (c' ≤ q)%nat)) as Hfirst.
      { intros op' c'. rewrite Hf. setoid_rewrite foreign_snoc. assert (f ≤ c)%nat by (eapply Hr, Hff). split; intros [H1 H2].
        - split; [by left|]. intros q [?|(-> & -> & _)]; [by apply H2|]. pose proof (H2 f Hff). lia.
        - destruct H1 as [?|(-> & -> & _)]; [split; [done|]; intros q Hq; apply H2; by left|].
          pose proof (H2 f (or_introl Hff)). assert (f = c) as -> by lia. split; [done|]. by apply Hmin. }
      assert (f ≤ c)%nat as Hfc by (eapply Hr, Hff). destruct (decide (f = c)) as [->|Hne].
      * split; cbn [fst snd]; [done|]. intros e. rewrite He, parent_edge_snoc, Hpc, (prevout_edge_snoc us c op e c Hr Hpc Hmin Hff).
        split; [intros [?|?]; auto|]. intros [[?|?]|[?|[? _]]]; auto; done.
      * rewrite decide_True by lia. split; cbn [fst snd]; [done|]. intros e.
        rewrite elem_of_app, list_elem_of_singleton, He, parent_edge_snoc, Hpc, (prevout_edge_snoc us c op e f Hr Hpc Hmin Hff).
        split; [intros [[?|?]| ->]; auto|]. intros [[?|?]|[?|[? ->]]]; auto; done.
    + assert (∀ q, ¬ foreign us q op) as Hnone.
      { (* a first spend would be in the map *)
        intros q Hq. assert (∃ m, foreign us m op ∧ ∀ q, foreign us q op → (m ≤ q)%nat) as (m & Hm & Hmm).
        { revert q Hq. induction q as [q IH] using lt_wf_ind. intros Hq.
          destruct (decide (Exists (λ u, u.2 = op ∧ parent_child_edge producers u.1 op = None ∧ (u.1 < q)%nat) us)) as [Hx|Hx].
          - apply list.Exists_exists in Hx as ([q' op'] & Hin & Ho & Hn & Hlt). cbn in Ho, Hn, Hlt; subst op'. eapply (IH q'); [done|by split].
          - exists q. split; [done|]. intros q' [Hin Hn]. apply Nat.nlt_ge. intros Hlt. apply Hx, list.Exists_exists. by exists (q', op). }
        assert (first !! op = Some m) by (by apply Hf). congruence. }
      split; cbn [fst snd].
      * intros op' c'. setoid_rewrite foreign_snoc. destruct (decide (op' = op)) as [->|Hne].
        -- rewrite lookup_insert_eq. split.
           ++ intros [= <-]. split; [by right|]. intros q [?|(-> & _)]; [by destruct (Hnone q)|done].
           ++ intros [[?|(-> & _)] _]; [by destruct (Hnone c')|done].
        -- rewrite lookup_insert_ne by done. rewrite Hf. split; intros [H1 H2].
           ++ split; [by left|]. intros q [?|(_ & -> & _)]; [by apply H2|done].
           ++ destruct H1 as [?|(_ & -> & _)]; [|done]. split; [done|]. intros q Hq. apply H2. by left.
      * intros e. rewrite He, parent_edge_snoc, Hpc, prevout_edge_same by auto. split; [intros [?|?]; auto|]. intros [[?|?]|?]; auto; done.
Qed.

Lemma collect_all us : (∀ pre c op post, us = pre ++ (c, op) :: post → rising pre c) →
  collected us (foldl (collect_edge producers) (∅, []) us).
Proof.
  induction us as [|[c op] us IH] using rev_ind; intros Hr.
  - split; cbn.
    + intros op c. rewrite lookup_empty. split; [done|]. intros [[H%elem_of_nil _] _]. done.
    + intros e. rewrite elem_of_nil. split; [done|]. intros [(op & H%elem_of_nil & _)|(_ & _ & op & [H%elem_of_nil _] & _)]; done.
  - rewrite foldl_snoc. apply collect_edge_step; [by apply (Hr us c op [])|]. apply IH. intros pre c' op' post ->.
    apply (Hr pre c' op' (post ++ [(c, op)])). by rewrite <- app_assoc.
Qed.
End edges.

Lemma uses_snoc cs ctx : uses (cs ++ [ctx]) = uses cs ++ (pair (length cs) <$> tvc_input_outpoints ctx).
Proof. unfold uses. rewrite imap_app, concat_app. cbn. rewrite Nat.add_0_r. by rewrite app_nil_r. Qed.
Lemma uses_bound cs q op : (q, op) ∈ uses cs → (q < length cs)%nat.
Proof.
  induction cs as [|ctx cs IH] using rev_ind; [by intros H%elem_of_nil|]. rewrite uses_snoc, length_app. cbn.
  intros [H%IH|(? & [= -> _] & _)%list_elem_of_fmap]%elem_of_app; lia.
Qed.
Lemma uses_rising cs pre c op post : uses cs = pre ++ (c, op) :: post → rising pre c.
Proof.
  revert pre post. induction cs as [|ctx cs IH] using rev_ind; intros pre post; [by destruct pre|].
  rewrite uses_snoc. intros [(k & Hu & Hk)|(k & Hpre & Hk)]%app_eq_inv q op' Hq.
  - destruct k as [|u k].
    + rewrite app_nil_r in Hu. subst pre. cbn in Hk. destruct (tvc_input_outpoints ctx); [done|]. injection Hk as -> _ _.
      apply uses_bound in Hq. lia.
    + injection Hk as <- Hk. by eapply (IH _ _ Hu).
  - subst pre. apply fmap_app_inv in Hk as (l1 & l2 & -> & H2 & _). destruct l2; [done|]. injection H2 as -> _ _.
    apply elem_of_app in Hq as [Hq%uses_bound|(? & [= -> _] & _)%list_elem_of_fmap]; lia.
Qed.

(** ** The levels *)

Definition incoming (edges : list TxDepEdge) (c : nat) : list TxDepEdge := filter (λ e, de_consumer e = c) edges.
(** A transaction is one level above the highest it depends on. *)
Definition longest_chains (n : nat) (edges : list TxDepEdge) (levels : list nat) : Prop :=
  length levels = n ∧ ∀ c, (c < n)%nat → levels !!! c = max_list ((λ e, S (levels !!! de_producer e)) <$> incoming edges c).
Definition edge_within (n : nat) (e : TxDepEdge) : Prop := (de_producer e < de_consumer e < n)%nat.

Lemma max_list_snoc l x : max_list (l ++ [x]) = Nat.max (max_list l) x.
Proof. induction l as [|y l IH]; cbn; [lia|]. rewrite IH. lia. Qed.
Lemma max_list_zero (n : nat) : max_list (replicate n 0%nat) = 0%nat.
Proof. induction n as [|n IH]; [done|]. cbn. by rewrite IH. Qed.

Lemma raise_longest n edges e levels : longest_chains n edges levels → edge_within n e → Forall (edge_within n) edges →
  Forall (λ e', de_consumer e' ≤ de_consumer e)%nat edges →
  ∃ levels', raise_level levels e = Some levels' ∧ longest_chains n (edges ++ [e]) levels'.
Proof.
  intros [Hl He] [Hpc Hcn] Hall Hle. unfold raise_level.
  rewrite (list_lookup_lookup_total_lt levels (de_consumer e)), (list_lookup_lookup_total_lt levels (de_producer e)) by lia.
  eexists. split; [done|]. set (v := Nat.max _ _). split; [by rewrite length_insert|]. intros c Hc.
  assert ((λ e', S (<[de_consumer e:=v]> levels !!! de_producer e')) <$> incoming edges c = (λ e', S (levels !!! de_producer e')) <$> incoming edges c) as Hold.
  { apply list_fmap_ext. intros i e' Hi%list_elem_of_lookup_2. apply list_elem_of_filter in Hi as [<- Hi].
    pose proof (proj1 (list.Forall_forall _ _) Hall e' Hi) as [? ?]. pose proof (proj1 (list.Forall_forall _ _) Hle e' Hi) as Hx. cbn in Hx.
    by rewrite list_lookup_total_insert_ne by lia. }
  unfold incoming in *. rewrite list.filter_app, fmap_app, Hold. destruct (decide (de_consumer e = c)) as [<-|Hne].
  - rewrite list_lookup_total_insert_eq by lia. rewrite filter_cons_True by done. cbn [filter list_filter fmap list_fmap].
    rewrite max_list_snoc, <- He by done. rewrite list_lookup_total_insert_ne by lia. unfold v. lia.
  - rewrite list_lookup_total_insert_ne by done. rewrite filter_cons_False by done. cbn. rewrite app_nil_r. by apply He.
Qed.

Lemma levels_longest n edges : Forall (edge_within n) edges → StronglySorted edge_le edges →
  ∃ levels, compute_tx_dep_levels n edges = Some (levels, max_list levels) ∧ longest_chains n edges levels.
Proof.
  intros Hw Hs. unfold compute_tx_dep_levels.
  assert (∃ levels, foldl (λ levels edge, levels ← levels; raise_level levels edge) (Some (replicate n 0%nat)) edges = Some levels
    ∧ longest_chains n edges levels) as (levels & -> & H); [|by exists levels].
  induction edges as [|e edges IH] using rev_ind.
  - exists (replicate n 0%nat). split; [done|]. split; [apply length_replicate|]. intros c Hc. cbn. by rewrite lookup_total_replicate_2.
  - apply list.Forall_app in Hw as [Hw1 [Hw2 _]%list.Forall_cons].
    assert (Forall (λ e', de_consumer e' ≤ de_consumer e)%nat edges) as Hle.
    { apply list.Forall_forall. intros e' Hin. assert (edge_le e' e) as Hx by (apply (StronglySorted_app_1_elem_of edge_le edges [e]); [done..|by apply list_elem_of_singleton]).
      unfold edge_le in Hx. lia. }
    destruct (IH Hw1 (StronglySorted_app_1_l _ _ _ Hs)) as (levels & Hf & Hl).
    destruct (raise_longest n edges e levels Hl Hw2 Hw1 Hle) as (levels' & Hr & Hl').
    exists levels'. split; [|done]. rewrite foldl_snoc, Hf. exact Hr.
Qed.

Lemma longest_rises n edges levels e : longest_chains n edges levels → Forall (edge_within n) edges → e ∈ edges →
  (levels !!! de_producer e < levels !!! de_consumer e)%nat.
Proof.
  intros [_ He] Hw Hin. pose proof (proj1 (list.Forall_forall _ _) Hw e Hin) as [_ Hc]. rewrite (He _ Hc).
  apply max_list_elem_of_le. apply list_elem_of_fmap. exists e. split; [done|]. by apply list_elem_of_filter.
Qed.

(** ** The order *)

#[export] Instance edge_le_total : Total edge_le.
Proof. intros a b. unfold edge_le. lia. Qed.
#[export] Instance edge_le_trans : Transitive edge_le.
Proof. intros a b c. unfold edge_le. lia. Qed.
#[export] Instance level_key_le_total : Total level_key_le.
Proof.
  intros [[l x] i] [[m y] j]. unfold level_key_le. cbn. destruct (lt_eq_lt_dec l m) as [[?| ->]|?]; [auto| |auto].
  pose proof (bytes_cmp_antisym x y) as Ha. destruct (bytes_cmp x y) eqn:Hc; cbn in Ha; [|auto|auto].
  apply bytes_cmp_eq in Hc as ->. destruct (le_ge_dec i j); auto 6.
Qed.
#[export] Instance level_key_le_trans : Transitive level_key_le.
Proof.
  intros [[l x] i] [[m y] j] [[n z] k]. unfold level_key_le. cbn.
  intros [?|(-> & [?|[-> ?]])] [?|(-> & [?|[-> ?]])]; try (left; lia); right; (split; [done|]); eauto using bytes_cmp_lt_trans.
  right. split; [done|lia].
Qed.

(** The keys that are sorted, by position. *)
Definition level_keys (contexts : list TxValidationContext) (levels : list nat) : list (nat * bytes * nat) :=
  imap (λ idx p, (p.1, tvc_txid p.2, idx)) (zip levels contexts).
Lemma level_keys_positions contexts levels : length levels = length contexts →
  (level_keys contexts levels).*2 = seq 0 (length contexts).
Proof.
  intros Hl. unfold level_keys. rewrite fmap_imap. apply list_eq. intros i. rewrite list_lookup_imap.
  destruct (decide (i < length contexts)%nat) as [Hi|Hi].
  - rewrite lookup_seq_lt by done. destruct (lookup_lt_is_Some_2 (zip levels contexts) i) as [p ->]; [rewrite length_zip; lia|done].
  - rewrite lookup_seq_ge, lookup_ge_None_2; [done|rewrite length_zip; lia|lia].
Qed.
Lemma level_keys_in contexts levels k : k ∈ level_keys contexts levels → levels !! k.2 = Some k.1.1.
Proof.
  intros (i & [[lv ctx] [Hz ->]]%list_lookup_imap_Some)%list_elem_of_lookup_1. cbn. by apply lookup_zip_Some in Hz as [? _].
Qed.

(** What the order promises: every position once, by rising level. *)
Lemma level_order_sorted contexts levels : length levels = length contexts →
  compute_tx_dep_level_order contexts levels ≡ₚ seq 0 (length contexts) ∧
  ∀ i j p c, compute_tx_dep_level_order contexts levels !! i = Some p → compute_tx_dep_level_order contexts levels !! j = Some c →
    (levels !!! p < levels !!! c → i < j)%nat.
Proof.
  intros Hl. unfold compute_tx_dep_level_order. fold (level_keys contexts levels). set (ks := level_keys contexts levels).
  split; [by rewrite merge_sort_Permutation; unfold ks; rewrite level_keys_positions|]. intros i j p c Hi Hj Hlt.
  rewrite list_lookup_fmap in Hi, Hj. destruct (merge_sort level_key_le ks !! i) as [ki|] eqn:Hki; [|done].
  destruct (merge_sort level_key_le ks !! j) as [kj|] eqn:Hkj; [|done]. injection Hi as <-. injection Hj as <-.
  assert (∀ n k, merge_sort level_key_le ks !! n = Some k → levels !!! k.2 = k.1.1) as Hlv.
  { intros n k H%list_elem_of_lookup_2. rewrite merge_sort_Permutation in H. by apply list_lookup_total_correct, (level_keys_in contexts). }
  rewrite (Hlv _ _ Hki), (Hlv _ _ Hkj) in Hlt. apply Nat.nle_gt. intros Hji.
  destruct (decide (j = i)) as [->|Hne]; [rewrite Hki in Hkj; injection Hkj as <-; lia|].
  pose proof (StronglySorted_merge_sort level_key_le ks) as Hs.
  rewrite <- (take_drop_middle _ _ _ Hkj) in Hs. apply StronglySorted_app in Hs as (_ & _ & [_ Hall]%StronglySorted_inv).
  assert (ki ∈ drop (S j) (merge_sort level_key_le ks)) as Hin.
  { apply list_elem_of_lookup. exists (i - S j)%nat. rewrite lookup_drop. rewrite <- Hki. f_equal. lia. }
  pose proof (proj1 (list.Forall_forall _ _) Hall ki Hin) as Hx. unfold level_key_le in Hx. lia.
Qed.

(** ** What a transaction depends on *)

Section dependencies.
Implicit Types (contexts : list TxValidationContext) (e : TxDepEdge).

(** The transaction at [c] spends the outpoint. *)
Definition spends_at contexts (c : nat) (op : Outpoint) : Prop :=
  ∃ ctx, contexts !! c = Some ctx ∧ op ∈ tvc_input_outpoints ctx.

(** The outpoint is an output of the transaction at [p]: the one with its id,
    and the last one if the id is repeated. *)
Definition created_at contexts (op : Outpoint) (p : nat) : Prop :=
  (∃ ctx, contexts !! p = Some ctx ∧ tvc_txid ctx = op_txid op)
  ∧ ∀ q ctx, contexts !! q = Some ctx → tvc_txid ctx = op_txid op → (q ≤ p)%nat.

(** The consumer spends an output of the producer, which comes before it. *)
Definition spends_output contexts e : Prop :=
  de_kind e = ParentChild ∧ (de_producer e < de_consumer e)%nat
  ∧ ∃ op, spends_at contexts (de_consumer e) op ∧ created_at contexts op (de_producer e).

(** The outpoint is spent, and no earlier transaction of the block creates it. *)
Definition spends_older contexts (c : nat) (op : Outpoint) : Prop :=
  spends_at contexts c op ∧ ∀ p, created_at contexts op p → (c ≤ p)%nat.

(** Both spend an outpoint that the block does not create before, and the
    producer is the first to do so. *)
Definition shares_prevout contexts e : Prop :=
  de_kind e = SamePrevout ∧ (de_producer e < de_consumer e)%nat
  ∧ ∃ op, spends_older contexts (de_consumer e) op ∧ spends_older contexts (de_producer e) op
      ∧ ∀ q, spends_older contexts q op → (de_producer e ≤ q)%nat.

Lemma txid_index_lookup contexts op p : txid_index contexts !! op_txid op = Some p ↔ created_at contexts op p.
Proof.
  unfold txid_index, created_at. revert p. induction contexts as [|ctx cs IH] using rev_ind; intros p.
  { cbn. rewrite lookup_empty. split; [done|]. by intros [(ctx & H & _) _]. }
  rewrite imap_app, foldl_app. cbn [imap foldl fst snd]. rewrite Nat.add_0_r.
  assert (∀ q c, (cs ++ [ctx]) !! q = Some c ↔ cs !! q = Some c ∨ q = length cs ∧ c = ctx) as Hl.
  { intros q c. rewrite lookup_app_Some, list_lookup_singleton_Some. split; [intros [?|(? & ? & <-)]; [by left|right; split; [lia|done]]|].
    intros [?|[-> ->]]; [by left|right; split_and!; [lia|lia|done]]. }
  setoid_rewrite Hl. destruct (decide (tvc_txid ctx = op_txid op)) as [Ht|Ht].
  - rewrite Ht, lookup_insert_eq. split.
    + intros [= <-]. split; [exists ctx; split; [by right|done]|]. intros q c [Hq%lookup_lt_Some|[-> _]] _; lia.
    + intros [(c & [Hc|[-> _]] & _) Hm]; [|done]. apply lookup_lt_Some in Hc. pose proof (Hm (length cs) ctx (or_intror (conj eq_refl eq_refl)) Ht). lia.
  - rewrite lookup_insert_ne by done. rewrite IH. split.
    + intros [(c & Hc & Hcx) Hm]. split; [exists c; split; [by left|done]|]. intros q c' [Hq|[_ ->]] Hx; [by eapply Hm|congruence].
    + intros [(c & [Hc|[_ ->]] & Hcx) Hm]; [|congruence]. split; [by exists c|]. intros q c' Hq. apply (Hm q c'). by left.
Qed.

Lemma created_function contexts op p q : created_at contexts op p → created_at contexts op q → p = q.
Proof. rewrite <- !txid_index_lookup. congruence. Qed.

Lemma uses_spends contexts c op : (c, op) ∈ uses contexts ↔ spends_at contexts c op.
Proof.
  unfold uses, spends_at. rewrite list_elem_of_In, in_concat. split.
  - intros (l & (i & (ctx & Hi & ->)%list_lookup_imap_Some)%list_elem_of_In%list_elem_of_lookup & (op' & [= -> ->] & Ho)%list_elem_of_In%list_elem_of_fmap).
    by exists ctx.
  - intros (ctx & Hc & Ho). exists (pair c <$> tvc_input_outpoints ctx). rewrite <- !list_elem_of_In. split; [|by apply list_elem_of_fmap_2].
    apply list_elem_of_lookup. exists c. apply list_lookup_imap_Some. by exists ctx.
Qed.

Lemma parent_child_Some contexts c op e : parent_child_edge (txid_index contexts) c op = Some e ↔
  de_kind e = ParentChild ∧ de_consumer e = c ∧ (de_producer e < c)%nat ∧ created_at contexts op (de_producer e).
Proof.
  unfold parent_child_edge. rewrite <- txid_index_lookup. destruct (txid_index contexts !! op_txid op) as [p|]; cbn.
  2: { split; [done|]. by intros (_ & _ & _ & ?). }
  destruct (decide (p < c)%nat) as [Hlt|Hlt]; split.
  - by intros [= <-].
  - destruct e as [p' c' k]. cbn. by intros (-> & -> & _ & [= ->]).
  - done.
  - by intros (_ & _ & ? & [= ->]).
Qed.

Lemma foreign_older contexts c op : foreign (txid_index contexts) (uses contexts) c op ↔ spends_older contexts c op.
Proof.
  unfold foreign, spends_older. rewrite uses_spends, eq_None_not_Some. split; intros [Hs Hn]; (split; [done|]).
  - intros p Hp. apply Nat.nlt_ge. intros Hlt. apply Hn. exists (mkTxDepEdge p c ParentChild). by apply parent_child_Some.
  - intros [e (_ & _ & Hlt & Hc)%parent_child_Some]. apply Hn in Hc. lia.
Qed.

Lemma edges_depend contexts e : parent_edge (txid_index contexts) (uses contexts) e ∨ prevout_edge (txid_index contexts) (uses contexts) e ↔
  spends_output contexts e ∨ shares_prevout contexts e.
Proof.
  unfold parent_edge, prevout_edge, spends_output, shares_prevout. setoid_rewrite foreign_older. setoid_rewrite uses_spends.
  setoid_rewrite parent_child_Some. naive_solver.
Qed.
End dependencies.

(** The graph's promise. *)
Record dep_graph (contexts : list TxValidationContext) (g : TxDepGraph) : Prop := mkDepGraph {
  dgc_count : dg_tx_count g = length contexts;
  dgc_edges e : e ∈ dg_edges g ↔ spends_output contexts e ∨ shares_prevout contexts e;
  dgc_sorted : StronglySorted edge_le (dg_edges g);
  dgc_levels : longest_chains (length contexts) (dg_edges g) (dg_levels g);
  dgc_max : dg_max_level g = max_list (dg_levels g);
  dgc_order : dg_level_order g ≡ₚ seq 0 (length contexts);
  dgc_before e i j : e ∈ dg_edges g → dg_level_order g !! i = Some (de_producer e) → dg_level_order g !! j = Some (de_consumer e) → (i < j)%nat }.

(** C37: the dependency graph of any block is built, never panicking: its edges are exactly the spends of an earlier
    transaction's outputs (of the last transaction with the id, when ids are repeated) and the spends that share an
    outpoint, which no earlier transaction creates, with its first spender; the level of a transaction is one above the
    highest of those it depends on, zero if none; the order holds every position of the block once, and every
    transaction after those it depends on. *)
Theorem dep_graph_correct contexts : ∃ g, build_tx_dep_graph contexts = Some g ∧ dep_graph contexts g.
Proof.
  unfold build_tx_dep_graph. destruct (decide (length contexts = 0%nat)) as [Hz|Hnz].
  { rewrite bool_decide_true by done. apply nil_length_inv in Hz as ->. eexists. split; [done|]. split; cbn; try done; [|constructor].
    intros e. rewrite elem_of_nil. split; [done|]. intros [(_ & _ & op & (ctx & [=] & _) & _)|(_ & _ & op & ((ctx & [=] & _) & _) & _)]. }
  rewrite bool_decide_false by done. set (edges := sort_tx_dep_edges _).
  destruct (collect_all (txid_index contexts) (uses contexts) (uses_rising contexts)) as [_ He].
  assert (∀ e, e ∈ edges ↔ spends_output contexts e ∨ shares_prevout contexts e) as Hedges.
  { intros e. unfold edges, sort_tx_dep_edges. rewrite merge_sort_Permutation, He. apply edges_depend. }
  assert (Forall (edge_within (length contexts)) edges) as Hw.
  { apply list.Forall_forall. intros e [(_ & Hlt & op & (ctx & Hin%lookup_lt_Some & _) & _)|(_ & Hlt & op & ((ctx & Hin%lookup_lt_Some & _) & _) & _)]%Hedges;
      split; lia. }
  assert (StronglySorted edge_le edges) as Hsorted by (apply StronglySorted_merge_sort; apply _).
  destruct (levels_longest (length contexts) edges Hw Hsorted) as (levels & -> & Hl).
  destruct (level_order_sorted contexts levels (proj1 Hl)) as [Hp Hb]. eexists. split; [done|]. split; cbn; try done.
  intros e i j Hin Hi Hj. apply (Hb i j _ _ Hi Hj). exact (longest_rises _ edges levels e Hl Hw Hin).
Qed.
